(* ===== verification/_CoqProject ===== *)
-Q . S2P
Prelude.v
GoStd.v
Sha256.v
Netip.v
Identity.v
CoreModel.v
Enforcement.v
PolicyResolution.v
Projection.v
MemoryService.v
Checkpoint.v
Ledger.v
DecisionTx.v
DecisionStore.v
Refinement.v
DecisionProofs.v
DesiredState.v
PolicyWrite.v
GoFmt.v
ObservedState.v
ReconcilePlan.v
ObservedStore.v
ReconcileStore.v
Controller.v
FakeBackend.v
ControllerOps.v
ControllerFences.v
ControllerBarrier.v
ControllerSafety.v
ControllerBudget.v
ControllerConfirm.v
ReconcileLedger.v
Lab.v
Convergence.v
Json.v
Firewall.v
Ipc.v
Enforcer.v
NetipParse.v
JsonDecode.v
IpcCodec.v
IpcRoundtrip.v
IpcResponses.v
IpcCodecs.v
IpcFrames.v
IpcTransport.v
JsonRaw.v
NftRuleset.v
NftBackend.v
NftProofs.v
NftLayout.v
NftObservation.v
NftLab.v
WakeQueue.v
PlanProvider.v
Dispatcher.v
DispatcherSafety.v
DispatcherLab.v
SecurityEvent.v
ProcessingPlan.v
Coordinator.v
SingleFlight.v
ExactlyOnce.v
Pipeline.v
PipelineProofs.v
ProcessingRuntime.v
SourceStore.v
SourceHistory.v
SourceLab.v
UnitOfWork.v
UnitProofs.v
UnitLab.v
SqliteRuntime.v
ProcessingLab.v
SourceQueue.v
FileTruncation.v
SourceRuntime.v
RuntimeLab.v
