(* ===== verification/Prelude.v ===== *)
(** * Guard Wall: a verification library

    Guard Wall reads authentication logs, detects attacks and bans addresses
    in the host firewall. A source reader turns log bytes into deliveries; the
    detection ledger counts events in windows and, past a threshold, triggers
    a decision; decisions (automatic, manual) are rows of a SQLite store from
    which a ban projection is rebuilt for each target; projections and the
    node's managed policy (allowlist, protected ranges) are materialized into
    target enforcement intents under one snapshot revision; a reconcile
    controller drives the firewall to these intents, mutation by mutation, and
    keeps its retries in the store; a privileged enforcer, reached over IPC,
    authorizes each mutation against a fresh observation before it touches the
    firewall; and the source checkpoint advances once the whole path is
    durable. Every write crosses a transaction whose commit may fail or have an
    unknown outcome, and every mutation may have one too.

    ** Files and sources

    - Prelude: errors, [result] and the state-and-error monad [ST S A], with
      its notations and inversion tactics, and shared lemmas on lists, maps
      and options.
    - GoStd, Sha256, Netip: what the program uses of Go's standard library
      (time.Time, utf8, binary, hex, base32, sort.Slice, strconv.Itoa,
      crypto/sha256, net/netip), as computable functions.
    - Identity (internal/core/identity.go): delivery and event identities.
    - CoreModel (internal/core/model.go, managed_policy_bootstrap.go): the
      records of the program with their Validate methods and constructors.
    - Enforcement (internal/enforcement/intent.go): [ResolveTarget] and the
      generation of an intent.
    - PolicyResolution (internal/decision/policy_resolution.go): coverage of a
      target by policy prefixes, by recursive halving.
    - Projection (internal/decision/projection.go): [AggregateProjection].
    - MemoryService (internal/decision/service.go): the in-memory decision
      history; an operation runs under the mutex and is one step.
    - Checkpoint (internal/source/checkpoint.go): [CompletionTracker] and
      [CheckpointManager]. The two critical sections of Flush and the save
      between them are separate steps of a step relation.
    - Ledger (internal/detection/window.go): window counters, reservations,
      guards and deferred commits; each critical section is one step and
      goroutines interleave between them.
    - DecisionTx (internal/decision/transaction.go, lifecycle.go,
      desired_state.go, managed_policy_resolver.go, policy.go): the
      persistence ports as type classes over a transaction state, and the
      rules and services written against them. [RunTransaction] commits,
      rolls back, or leaves the outcome unknown as its [commit_outcome] says.
    - DecisionStore (internal/store): the unit-of-work methods over a record
      of tables [db], an instance of every port.
    - Refinement: when a store refines these tables, and that each rule over
      such a store refines its run over the tables. [faulty_store], whose calls
      fail by an oracle, shows that the classes are inhabited by more than the
      tables themselves.
    - DecisionProofs, DesiredState, PolicyWrite: the correctness of the rules,
      of materialization with the lifecycle service, and of policy replacement.
    - GoFmt: strconv.Quote and the time format of the plan digests. Which
      runes are printable is a parameter (class Unicode).
    - ObservedState (internal/core/observed_state.go, reconcile_persistence.go)
      and ReconcilePlan (internal/reconcile/model/types.go): the values that the
      controller, the backend and the store exchange, with their digests.
    - ObservedStore, ReconcileStore (internal/store/observed_state.go,
      observed_rows.go, reconcile_state.go, gorm_reconcile_rows.go): the rows of
      the observed state and of the retry ledger, their codecs, and each read
      and write transaction with a fault at its begin, a statement or its
      commit, the last of which may still have committed.
    - Controller, ControllerOps (internal/reconcile/controller.go,
      persistence.go, observed_state.go): the state of the controller, its ports
      (clock, backend, audit identifiers, store, scheduler) as type classes over
      an environment, and every method. A trace records what the ports were
      asked. A critical section under stateMu is preceded by the snapshots that
      other goroutines publish, as the scheduler port chooses.
    - FakeBackend (internal/firewall/fake/backend.go): the simulated firewall.
    - ControllerFences, ControllerBarrier, ControllerSafety, ControllerBudget,
      ControllerConfirm, ReconcileLedger, Convergence: the proofs about them.
      A crash is a run in which every port call fails from some point on,
      followed by a controller built anew over the same store.
    - Lab: the simulated firewall, the store and a clock put together as an
      environment of the controller, on which witnesses are evaluated.
    - Json: what json.Marshal writes.
    - Firewall (internal/firewall/capabilities.go, snapshot.go, mutation.go):
      capabilities, managed snapshots and their digests, the authorization of
      each kind of mutation, and mutation results.
    - Ipc (internal/ipc/request.go, response.go): plans, mutation requests and
      mutation responses.
    - Enforcer (internal/enforcer/mutation.go, mutation_executor.go): the bridge
      from requests to authorities, and the executor over a backend port, a
      context and a gate that may do anything.
    - NetipParse, JsonDecode: netip.ParsePrefix and the decoder of encoding/json
      (tokens, values, struct members), as the codecs use them.
    - IpcCodec, IpcResponses (internal/ipc/request.go, response.go, probe_*.go,
      snapshot_*.go): the token scan, the decoders and the encoders of every
      message; IpcRoundtrip and IpcCodecs prove the codecs, the latter against
      the class LawfulCodec with an instance per message.
    - IpcFrames (internal/ipc/frame.go, *_frame.go): frames over a byte stream
      and over any io.Writer (class LawfulWriter).
    - IpcTransport (internal/ipc/client_linux.go and its siblings,
      enforcer_loop_linux.go, enforcer_server_linux.go, peer_linux.go,
      internal/enforcer/handlers_linux.go): the clients, the service of a
      connection, the serve loop, and one exchange over a stream that may break.
    - JsonRaw: json.RawMessage and json.Unmarshal into structs, as the backend
      below reads listings. NftRuleset, NftBackend
      (internal/firewall/nftables): the parse of [nft --json list ruleset] into
      the managed state and the digest of everything foreign, the fixed layout
      and its checks, the batches, and Probe, Snapshot, Apply and
      RemoveManagedInfrastructure over a port for the nft process, the context,
      the clock and Go's map order. NftProofs: what a mutation does to the host,
      alone and under the executor; NftLayout: what an accepted ruleset does to
      packets; NftObservation: digests and map order; NftLab: listings to run on.
    - WakeQueue (internal/reconcile/dispatcher.go: Wake, markDequeued and the
      gate of Run; target_wake.go): callers of Wake and the worker, interleaved
      at every lock and channel operation; the worker receives and dispatches only
      past the startup and health gate, which other events open and close.
    - PlanProvider (internal/reconcile/desired_plan_provider.go): startup keys
      and current plans; the interface PlanProvider is what the dispatcher uses.
    - Dispatcher (internal/reconcile/dispatcher.go, backend_health_source.go):
      health, dispatch, recovery and the loop of Run as a state machine whose
      steps are what runs between two points at which another goroutine may act;
      DispatcherSafety proves it against LawfulPorts, and DispatcherLab
      discharges that for the provider and runs the whole in the laboratory.

    - SecurityEvent (internal/core/security_event.go), ProcessingPlan
      (internal/processor/plan.go): the events a parser emits, and the frozen
      plan of parsers and rules that runs over one record.
    - Coordinator (internal/processor/coordinator.go): one delivery through
      receipt lookup, attempt, transaction, commit of possibly unknown outcome
      and settlement, against the classes ProcessingStore and AttemptRunner.
      SingleFlight: concurrent calls for one delivery and the delivery gate of
      the ledger, as step relations. ExactlyOnce: the laws of these ports
      (LawfulProcessing) and the theorems proved from them.
    - Pipeline (internal/processor/pipeline.go): matching, evaluation over the
      ledger, terminal outcomes and their audits; PipelineProofs proves it
      against LawfulPipeline. ProcessingRuntime puts coordinator, pipeline and
      ledger together over any store with the laws of LawfulStore and discharges
      both classes; SqliteRuntime discharges LawfulStore for the SQLite adapter of
      UnitOfWork, so that the whole program is proved; ProcessingLab runs it.
    - SourceStore (internal/store/source_state.go, source_coverage.go,
      source_session.go, source_rows.go, internal/source/sqlite_state.go): the
      durable state of sources with its constraints, sessions, generations,
      coverage and checkpoints; SourceHistory proves it over any sequence of
      operations and faults, SourceLab has its witnesses.
    - UnitOfWork (internal/store/uow.go, the receipt reads of source_state.go,
      internal/processor/sqlite_store.go): the processing tables, the unit of
      work with its sticky failure, its commit with the deferred references, and
      the adapter the pipeline writes to; UnitProofs and UnitLab.
    - SourceQueue (internal/source/queue.go): the queue between reader and
      worker, its calls as threads over its channels, its wait group and locks.
    - FileTruncation (internal/source/file_truncation.go): the observer of a
      file that may be cut under the reader.
    - SourceRuntime (internal/processor/source_runtime.go,
      source_intake_runtime.go): the worker over queue, coordinator and
      checkpoint manager, and the order of the shutdown; RuntimeLab.

    ** What the theorems show

    - Decisions in transactions: a manual ban, an expiry sweep and a policy
      replacement are all or nothing, over every store that refines the tables
      and for every commit outcome ([LifecycleService_BanManual_atomic],
      [LifecycleService_expire_atomic], [PolicyService_Replace_outcome],
      [BootstrapInitialManagedPolicy_initializes]); a committed rule keeps the
      rows valid, one active row per slot, and each projection equal to the
      one its rows call for ([RecordAutomaticInTransaction_consistent]).
    - Materialization: [FinalizeTargets_settles] (every affected target is
      brought to its meaning, generations only grow) and
      [FinalizeTargets_fixpoint] (settled targets are its fixed points), over
      [ResolveTarget_exact] and [AggregateProjection_exact].
    - Checkpoints: [checkpoints_safe] (no accepted checkpoint skips a
      sequence or claims a byte that did not complete), [checkpoints_complete]
      (nothing completed is lost) and [Mark_exact].
    - Detection: [ledger_counts_memberships], [preview_is_state_after_confirm],
      [reservation_resolves_once] and [guards_no_deadlock], in every state
      reachable by any interleaving.
    - Reconcile controller, for every backend, clock, interleaving and
      sequence of calls: [applies_are_settled] (no mutation is sent while the
      outcome of an earlier one is open, across failed and unknown commits and
      restarts), [confirmed_targets_were_probed], [mutation_budget] (at most six
      mutations for each fence and retry epoch), [fence_identifies_plan]; and
      in memory and undisturbed, over the healthy simulated firewall,
      [healthy_execute_converges].
    - Retry ledger: [target_ledger_never_regresses], and reading back a commit
      whose outcome is unknown tells whether it happened
      ([readback_recognises_commit], [retry_readback_exact]).
    - Enforcer: [executor_mutates_with_fresh_authority] (at most one mutation
      per request, authorized by the probe and the snapshot just before it) and
      [executor_answers_truthfully].
    - nftables: [nft_mutation_outcome] (a mutation runs at most one batch, its
      own, over a fresh observation that is its basis, and is confirmed only by a
      snapshot after it), [enforcer_runs_one_batch] (so does a whole request),
      [accepted_ruleset_filters] (a ruleset accepted as managed drops exactly the
      banned sources that are neither allowed nor protected),
      [policy_digest_agrees] (agent and backend mean the same policy) and
      [targetObservations_order].
    - IPC: [mutation_request_roundtrip] and [decoded_requests_are_valid] for the
      codec, [frames_deliver] for frames, and end to end over any faults,
      [mutation_exchange_truthful] (what the client reports happened, and at most
      one mutation, the one of the request, reached the backend) and [mutation_exchange_completes].
    - Dispatcher: a wake that was accepted is dispatched by the worker's own
      steps while the gate is open ([wake_is_dispatched], [wake_never_lost],
      [wake_queue_bounded]); plans are current when handed out
      ([current_plan_is_current]) and no recovery work is left out
      ([startup_keys_complete]); mutations are sent only past the health gate
      ([mutations_are_gated]) and settled one by one
      ([dispatched_mutations_settled]); and a dispatcher that waits for its
      backend always has something armed that brings it back
      ([recovery_is_scheduled]).
    - Processing: [exactly_once] (whatever the store answers, the attempts of a
      delivery count in the windows once when its receipt is durable and never
      when it is not) and [program_exactly_once] (the same of the assembled
      program over its tables), [completion_is_durable], [prepared_attempt_complete] and
      [plan_accounts] (every parser, and every pair of event and rule, gets its
      one terminal outcome), [prepare_balanced], [delivery_gate_exclusive].
    - Unit of work: [unit_of_work_atomic] (the first failure is what every later
      write and the commit report, and nothing becomes durable),
      [processing_tables_consistent] (no outcome without a readable receipt, no
      alert without its contribution, rows are only added) and
      [receipt_decides_unit] (the receipt tells whether a unit of unknown outcome
      was committed, and it reads back as written).
    - Durable source state: [save_is_truthful] (a save that reports success, or
      is confirmed by read-back, is durable), [source_state_never_regresses] and
      [retired_generations_were_covered], over any operations and faults.
    - Intake: [queue_hands_over_once] and [sealed_queue_drains] in every
      interleaving, [truncation_latched], [checkpoints_have_receipts] (the worker
      saves no checkpoint past a delivery without a durable receipt) and
      [intake_shutdown_ordered].
    - Policy: [ResolvePolicy_coverage] (the classes are exact as sets of
      addresses), [policyUnionCovers_terminates] (the recursion, followed without
      fuel, stops within the bits of the target and makes a number of calls linear
      in the prefixes), [ResolvePolicy_same_prefixes].
    - Memory service: [memory_history_invariant] on every sequence of calls,
      and the exact effect of each operation.
    - Values: normal forms of policies and snapshots, and identities that pass
      their own check and hash faithful frames.

    ** Conventions, bounds and fuel

    Integers are [Z] kept at the source's width, and their guards are written
    out (max_uint64, max_int64); an enumeration that is a uint8 in the source
    has a constructor for its out-of-range values. Errors keep the literal
    message; format verbs are not rendered. Go maps are gmaps, and where the
    source iterates over a map it sorts the keys first, as the model does; the
    one place where the order can show (targetObservations) takes it as an
    argument.
    The fuel of every loop is enough by proof or by a closed bound: 129 halvings
    of a prefix ([policyUnionCovers_terminates]: an IPv6 prefix has at most 128
    host bits, and the fuel-free run gives the same answer); one more than the number of completed sequences in
    [mark_scan] and the exact distance in [mark_advance] ([mark_scan_spec],
    [mark_advance_spec]); 20 digits of a 64-bit number in [itoa], 4 of a
    16-bit group in [append_hex]; the message length, above the number of
    blocks, in [sha256]; twice the input length plus one for the JSON parser
    and the token scan, each call of which shortens its input ([Token_shrinks],
    [parse_value_fuel], [parse_raw_fuel], [scan_json_fuel]); the length of the slice in writeAll,
    since a write that makes no progress ends it; the length of the text in
    [TrimSpace], each round of which removes a byte; eight groups of an IPv6
    address. Loops without a bound of their own (the worker, the serve loop)
    are step functions run over a list of what happens.

    ** What is not modelled

    - The expiry timer loop, the composition of the reconcile runtime and its
      adapter to the IPC clients, and the write of a data-loss audit with the
      read-back of its JSON details: logic of their own, not translated yet.
    - The socket files and locks of the IPC listener, and its single-operation
      servers, which the program does not start.
    - The nft binary and the kernel: a listing, an exit and a batch are what the
      port answers and receives. The meaning of a chain (first match, a return
      from a base chain accepts) is that of the nft manual.
    - The SQL text, the ORM adapter, migrations, sockets, logging,
      SMTP, configuration parsing and process start-up: I/O and glue over
      libraries. Their failures appear as failing port calls and as the
      commit outcome. Contexts are not modelled: cancellation is one more way
      for a port call to fail, a step of its own in Ledger and WakeQueue, and a
      test that the environment answers in Enforcer, IpcTransport,
      Dispatcher and the processing files. *)

From Stdlib Require Export ZArith Lia.
From stdpp Require Export base tactics gmap strings list fin_maps fin_sets sorting.

#[global] Open Scope Z_scope.

(** ** Go errors

    [Errorf] keeps the literal passed to fmt.Errorf or errors.New (format verbs
    are not rendered); [Wrapf] is an Errorf with %w; [Typed] is a struct that
    implements error (its type name, its string fields and what Unwrap
    returns); [Join] is errors.Join of two non-nil errors. *)
Inductive error :=
  | Errorf (msg : string)
  | Wrapf (msg : string) (cause : error)
  | Typed (type_name : string) (fields : list string) (cause : error)
  | Join (left right : error).

#[export] Instance error_eq_dec : EqDecision error.
Proof. solve_decision. Defined.

(** errors.Is: the tree of wrapped errors is searched for the target. *)
Fixpoint errors_Is (e target : error) : bool :=
  bool_decide (e = target) ||
  match e with
  | Errorf _ => false
  | Wrapf _ c => errors_Is c target
  | Typed _ _ c => errors_Is c target
  | Join l r => errors_Is l target || errors_Is r target
  end.

(** errors.As for a struct error, by its type name. *)
Fixpoint errors_As (e : error) (type_name : string) : bool :=
  match e with
  | Errorf _ => false
  | Wrapf _ c => errors_As c type_name
  | Typed t _ c => bool_decide (t = type_name) || errors_As c type_name
  | Join l r => errors_As l type_name || errors_As r type_name
  end.

(** ** Results: a Go function returning (T, error) *)
Inductive result (A : Type) :=
  | Ok (a : A)
  | Err (e : error).
Arguments Ok {A} a.
Arguments Err {A} e.

#[export] Instance result_ret : MRet result := λ A a, Ok a.
#[export] Instance result_bind : MBind result := λ A B f m,
  match m with Ok a => f a | Err e => Err e end.
#[export] Instance result_eq_dec {A} `{EqDecision A} : EqDecision (result A).
Proof. solve_decision. Defined.

(** [fail_if bad e]: the early return [if bad { return e }]. *)
Definition fail_if (bad : bool) (e : error) : result unit :=
  if bad then Err e else Ok tt.

(** [wrap msg m]: [if err := m; err != nil { return fmt.Errorf(msg+": %w", err) }]. *)
Definition wrap {A} (msg : string) (m : result A) : result A :=
  match m with Ok a => Ok a | Err e => Err (Wrapf msg e) end.

(** errors.Join of a non-nil error and a possibly nil one. *)
Definition errors_Join (e : error) (r : result unit) : error :=
  match r with Ok _ => e | Err e' => Join e e' end.

Definition is_ok {A} (m : result A) : bool :=
  match m with Ok _ => true | Err _ => false end.

(** ** Stateful fallible code: the state survives an error *)
Definition ST (S A : Type) : Type := S → result A * S.

#[export] Instance st_ret {S} : MRet (ST S) := λ A a s, (Ok a, s).
#[export] Instance st_bind {S} : MBind (ST S) := λ A B f m s,
  match m s with
  | (Ok a, s') => f a s'
  | (Err e, s') => (Err e, s')
  end.
Definition st_get {S} : ST S S := λ s, (Ok s, s).
Definition st_gets {S A} (f : S → A) : ST S A := λ s, (Ok (f s), s).
Definition st_put {S} (s : S) : ST S unit := λ _, (Ok tt, s).
Definition st_modify {S} (f : S → S) : ST S unit := λ s, (Ok tt, f s).
Definition st_lift {S A} (m : result A) : ST S A := λ s, (m, s).
Definition st_fail {S A} (e : error) : ST S A := λ s, (Err e, s).
Definition st_wrap {S A} (msg : string) (m : ST S A) : ST S A := λ s,
  let '(r, s') := m s in (wrap msg r, s').
(** [st_try m]: the caller inspects the error instead of returning it. *)
Definition st_try {S A} (m : ST S A) : ST S (result A) := λ s,
  let '(r, s') := m s in (Ok r, s').

(** A Go [for _, x := range xs] whose body may return an error. *)
Fixpoint st_each {S A} (f : A → ST S unit) (xs : list A) : ST S unit :=
  match xs with
  | [] => mret tt
  | x :: rest => f x;; st_each f rest
  end.

(** Running a computation one statement at a time. *)
Create Rewrite HintDb st.
Section st_lemmas.
Context {S A B : Type}.
Implicit Types (s : S) (a : A).

Lemma run_ret a s : (mret a : ST S A) s = (Ok a, s).
Proof. done. Qed.
Lemma run_fail e s : (st_fail e : ST S A) s = (Err e, s).
Proof. done. Qed.
Lemma run_lift (m : result A) s : st_lift m s = (m, s).
Proof. done. Qed.
Lemma bind_ret a (f : A → ST S B) s : (mret a ≫= f) s = f a s.
Proof. done. Qed.
Lemma bind_get (f : S → ST S B) s : (st_get ≫= f) s = f s s.
Proof. done. Qed.
Lemma bind_gets (g : S → A) (f : A → ST S B) s : (st_gets g ≫= f) s = f (g s) s.
Proof. done. Qed.
Lemma bind_put s' (f : unit → ST S B) s : (st_put s' ≫= f) s = f tt s'.
Proof. done. Qed.
Lemma bind_modify g (f : unit → ST S B) s : (st_modify g ≫= f) s = f tt (g s).
Proof. done. Qed.
Lemma bind_lift_Ok a (f : A → ST S B) s : (st_lift (Ok a) ≫= f) s = f a s.
Proof. done. Qed.
Lemma bind_lift_Err e (f : A → ST S B) s : (st_lift (Err e) ≫= f) s = (Err e, s).
Proof. done. Qed.
Lemma bind_fail e (f : A → ST S B) s : (st_fail e ≫= f) s = (Err e, s).
Proof. done. Qed.
Lemma bind_step (m : ST S A) (f : A → ST S B) s a s' :
  m s = (Ok a, s') → (m ≫= f) s = f a s'.
Proof. unfold mbind, st_bind. by intros ->. Qed.
Lemma bind_stop (m : ST S A) (f : A → ST S B) s e s' :
  m s = (Err e, s') → (m ≫= f) s = (Err e, s').
Proof. unfold mbind, st_bind. by intros ->. Qed.
Lemma bind_Ok_inv (m : ST S A) (f : A → ST S B) s b s' :
  (m ≫= f) s = (Ok b, s') → ∃ a s1, m s = (Ok a, s1) ∧ f a s1 = (Ok b, s').
Proof. unfold mbind, st_bind. destruct (m s) as [[a|e] s1]; [eauto|done]. Qed.
Lemma lift_Ok_inv (m : result A) s a s' : st_lift m s = (Ok a, s') → m = Ok a ∧ s' = s.
Proof. unfold st_lift. by intros [= -> ->]. Qed.
End st_lemmas.
#[export] Hint Rewrite @run_ret @run_fail @run_lift @bind_ret @bind_get @bind_gets @bind_put
  @bind_modify @bind_lift_Ok @bind_lift_Err @bind_fail : st.
(** [st_step H as (a & s & E)]: [H : (m ≫= f) s0 = (Ok b, s')] is split at its
    first statement. *)
Tactic Notation "st_step" hyp(H) "as" simple_intropattern(a) simple_intropattern(s)
    simple_intropattern(E) :=
  apply bind_Ok_inv in H; destruct H as (a & s & E & H).
Ltac run := autorewrite with st in *; cbn [fst snd] in *.

(** ** Machine integers *)
Definition max_uint64 : Z := 2 ^ 64 - 1.
Definition max_int64 : Z := 2 ^ 63 - 1.
Definition wrap64 (z : Z) : Z := z mod 2 ^ 64.
Definition wrap32 (z : Z) : Z := z mod 2 ^ 32.
Definition is_u64 (z : Z) : Prop := 0 ≤ z ≤ max_uint64.

(** ** Boolean reflection *)
Create Rewrite HintDb gobool.
Create HintDb goval.

Lemma bool_decide_false_iff (P : Prop) `{Decision P} : bool_decide P = false ↔ ¬ P.
Proof. apply bool_decide_eq_false. Qed.
Lemma bool_decide_true_iff (P : Prop) `{Decision P} : bool_decide P = true ↔ P.
Proof. apply bool_decide_eq_true. Qed.

#[export] Hint Rewrite andb_true_iff andb_false_iff orb_true_iff orb_false_iff
  negb_true_iff negb_false_iff
  Z.ltb_lt Z.ltb_ge Z.leb_le Z.leb_gt Z.eqb_eq Z.eqb_neq
  @bool_decide_false_iff @bool_decide_true_iff : gobool.

Ltac gobool := autorewrite with gobool in *.

(** ** Results: inversion and introduction *)
Section result_lemmas.
Context {A B : Type}.
Implicit Types m : result A.

Lemma result_bind_Ok m (f : A → result B) b :
  (m ≫= f) = Ok b ↔ ∃ a, m = Ok a ∧ f a = Ok b.
Proof. destruct m; naive_solver. Qed.

Lemma result_bind_Err m (f : A → result B) e :
  (m ≫= f) = Err e ↔ m = Err e ∨ ∃ a, m = Ok a ∧ f a = Err e.
Proof. destruct m; naive_solver. Qed.

Lemma wrap_Ok msg m a : wrap msg m = Ok a ↔ m = Ok a.
Proof. destruct m; naive_solver. Qed.

Lemma wrap_Err msg m e : wrap msg m = Err e ↔ ∃ c, m = Err c ∧ e = Wrapf msg c.
Proof. destruct m; naive_solver. Qed.

Lemma is_ok_iff m : is_ok m = true ↔ ∃ a, m = Ok a.
Proof. destruct m; naive_solver. Qed.
End result_lemmas.

Lemma fail_if_Ok bad e u : fail_if bad e = Ok u ↔ bad = false.
Proof. destruct bad, u; naive_solver. Qed.

Lemma fail_if_Err bad e e' : fail_if bad e = Err e' ↔ bad = true ∧ e = e'.
Proof. destruct bad; naive_solver. Qed.

Lemma fail_if_false bad e : bad = false → fail_if bad e = Ok tt.
Proof. by intros ->. Qed.

(** [step_ok] discharges the next early return of a goal [f x = Ok tt]. *)
Ltac step_ok tac :=
  match goal with
  | |- context [?m ≫= _] =>
      let H := fresh in
      assert (m = Ok tt) as H by tac; rewrite H; clear H; cbn [mbind result_bind]
  end.

(** [inv_ok] peels every early return off a hypothesis [f x = Ok y]. *)
Ltac inv_ok :=
  repeat match goal with
  | H : Ok _ = Ok _ |- _ => injection H as H; try subst
  | H : Err _ = Ok _ |- _ => discriminate H
  | H : Ok _ = Err _ |- _ => discriminate H
  | H : mret _ = Ok _ |- _ => unfold mret, result_ret in H
  | H : (_ ≫= _) = Ok _ |- _ =>
      apply result_bind_Ok in H; let a := fresh "a" in let H1 := fresh H in
      destruct H as (a & H1 & H)
  | H : fail_if _ _ = Ok _ |- _ => apply fail_if_Ok in H
  | H : wrap _ _ = Ok _ |- _ => apply wrap_Ok in H
  | u : unit |- _ => destruct u
  end.

(** Case analysis on the first conditional or match of the goal or a hypothesis. *)
Ltac break_if :=
  match goal with
  | |- context [if ?b then _ else _] => destruct b eqn:?
  | H : context [if ?b then _ else _] |- _ => destruct b eqn:?
  end.

Ltac break_match :=
  match goal with
  | |- context [match ?x with _ => _ end] =>
      lazymatch x with context [match _ with _ => _ end] => fail | _ => destruct x eqn:? end
  | H : context [match ?x with _ => _ end] |- _ =>
      lazymatch x with context [match _ with _ => _ end] => fail | _ => destruct x eqn:? end
  end.

(** ** Generic list lemmas *)
Section list_lemmas.
Context {A : Type}.

Lemma existsb_true_iff (f : A → bool) l :
  existsb f l = true ↔ ∃ x, x ∈ l ∧ f x = true.
Proof.
  rewrite existsb_exists. setoid_rewrite list_elem_of_In. done.
Qed.

Lemma existsb_false_iff (f : A → bool) l :
  existsb f l = false ↔ ∀ x, x ∈ l → f x = false.
Proof.
  rewrite <- not_true_iff_false, existsb_true_iff. split.
  - intros H x Hx. apply not_true_iff_false. naive_solver.
  - intros H (x & Hx & Hf). rewrite H in Hf; done.
Qed.

Lemma forallb_true_iff (f : A → bool) l :
  forallb f l = true ↔ ∀ x, x ∈ l → f x = true.
Proof.
  rewrite forallb_forall. setoid_rewrite list_elem_of_In. done.
Qed.

Lemma filter_none (P : A → Prop) `{∀ x, Decision (P x)} (l : list A) :
  Forall (λ x, ¬ P x) l → base.filter P l = [].
Proof. induction 1 as [|x l Hx _ IH]; [done|]. by rewrite filter_cons, decide_False. Qed.

Lemma filter_all (P : A → Prop) `{∀ x, Decision (P x)} (l : list A) :
  Forall P l → base.filter P l = l.
Proof. induction 1 as [|x l Hx _ IH]; [done|]. by rewrite filter_cons, decide_True, IH. Qed.
End list_lemmas.

(** ** Computations that move their state along a preorder *)
Section keeps.
Context {S : Type} (R : relation S).

Definition keeps {A} (m : ST S A) : Prop := ∀ s, R s (m s).2.

Context `{!PreOrder R}.
Lemma keeps_lift {A} (r : result A) : keeps (st_lift r).
Proof. intros s. reflexivity. Qed.
Lemma keeps_ret {A} (a : A) : keeps (mret a).
Proof. intros s. reflexivity. Qed.
Lemma keeps_fail {A} e : keeps (st_fail e : ST S A).
Proof. intros s. reflexivity. Qed.
Lemma keeps_gets {A} (f : S → A) : keeps (st_gets f).
Proof. intros s. reflexivity. Qed.
Lemma keeps_modify f : (∀ s, R s (f s)) → keeps (st_modify f).
Proof. intros H s. apply H. Qed.
Lemma keeps_bind {A B} (m : ST S A) (f : A → ST S B) :
  keeps m → (∀ a, keeps (f a)) → keeps (m ≫= f).
Proof.
  intros Hm Hf s. specialize (Hm s). unfold mbind, st_bind.
  destruct (m s) as [[a|e] s1]; [|done]. etransitivity; [exact Hm|apply Hf].
Qed.
Lemma keeps_try {A} (m : ST S A) : keeps m → keeps (st_try m).
Proof. intros Hm s. specialize (Hm s). unfold st_try. by destruct (m s). Qed.
Lemma keeps_wrap {A} msg (m : ST S A) : keeps m → keeps (st_wrap msg m).
Proof. intros Hm s. specialize (Hm s). unfold st_wrap. by destruct (m s). Qed.
End keeps.

(** [keeps_tac hyps]: walk through the statements of a computation; what is left
    are the state changes that [tac] does not close. *)
Ltac keeps_tac tac :=
  repeat first
    [ tac
    | apply keeps_ret; [apply _] | apply keeps_fail; [apply _] | apply keeps_lift; [apply _]
    | apply keeps_gets; [apply _]
    | apply keeps_bind; [apply _ | | intros ?]
    | apply keeps_try | apply keeps_wrap
    | case_match ].

(** ** Postconditions: what holds of the outcome of a computation *)
Section wp.
Context {S : Type}.

Definition wp {A} (m : ST S A) (Q : result A → S → Prop) (s : S) : Prop := Q (m s).1 (m s).2.

Lemma wp_run {A} (m : ST S A) Q s r s' : wp m Q s → m s = (r, s') → Q r s'.
Proof. unfold wp. intros HQ Hm. by rewrite Hm in HQ. Qed.
Lemma wp_intro {A} (m : ST S A) (Q : result A → S → Prop) s :
  (∀ r s', m s = (r, s') → Q r s') → wp m Q s.
Proof. unfold wp. destruct (m s). auto. Qed.
Lemma wp_mono {A} (m : ST S A) (P Q : result A → S → Prop) s :
  wp m P s → (∀ r s', P r s' → Q r s') → wp m Q s.
Proof. unfold wp. auto. Qed.
Lemma wp_bind {A B} (m : ST S A) (f : A → ST S B) Q s :
  wp m (λ r s', match r with Ok a => wp (f a) Q s' | Err e => Q (Err e) s' end) s →
  wp (m ≫= f) Q s.
Proof. unfold wp, mbind, st_bind. by destruct (m s) as [[]]. Qed.
Lemma wp_ret {A} (a : A) Q s : Q (Ok a) s → wp (mret a) Q s.
Proof. done. Qed.
Lemma wp_fail {A} e (Q : result A → S → Prop) s : Q (Err e) s → wp (st_fail e) Q s.
Proof. done. Qed.
Lemma wp_lift {A} (r : result A) Q s : Q r s → wp (st_lift r) Q s.
Proof. done. Qed.
Lemma wp_gets {A} (f : S → A) Q s : Q (Ok (f s)) s → wp (st_gets f) Q s.
Proof. done. Qed.
Lemma wp_modify f Q s : Q (Ok tt) (f s) → wp (st_modify f) Q s.
Proof. done. Qed.
Lemma wp_try {A} (m : ST S A) Q s : wp m (λ r, Q (Ok r)) s → wp (st_try m) Q s.
Proof. unfold wp, st_try. by destruct (m s). Qed.
Lemma wp_wrap {A} msg (m : ST S A) Q s : wp m (λ r, Q (wrap msg r)) s → wp (st_wrap msg m) Q s.
Proof. unfold wp, st_wrap. by destruct (m s). Qed.
Lemma wp_keeps {A} (R : relation S) (m : ST S A) (Q : result A → S → Prop) s :
  keeps R m → (∀ r s', R s s' → Q r s') → wp m Q s.
Proof. intros Hk HQ. apply HQ, Hk. Qed.
Lemma keeps_wp {A} (R : relation S) (m : ST S A) : keeps R m ↔ ∀ s, wp m (λ _ s', R s s') s.
Proof. done. Qed.
Lemma wp_and {A} (m : ST S A) (P Q : result A → S → Prop) s :
  wp m P s → wp m Q s → wp m (λ r s', P r s' ∧ Q r s') s.
Proof. done. Qed.
End wp.

(** [wp_tac]: execute the statements whose effect is known. *)
Ltac wp_tac :=
  repeat lazymatch goal with
    | |- wp (mret _) _ _ => apply wp_ret
    | |- wp (st_fail _) _ _ => apply wp_fail
    | |- wp (st_lift _) _ _ => apply wp_lift
    | |- wp (st_gets _) _ _ => apply wp_gets
    | |- wp (st_modify _) _ _ => apply wp_modify
    | |- wp (st_try _) _ _ => apply wp_try
    | |- wp (st_wrap _ _) _ _ => apply wp_wrap
    | |- wp (_ ≫= _) _ _ => apply wp_bind
    end;
  cbn beta iota.
