(* ===== verification/GoStd.v ===== *)
(** * The parts of the Go standard library the program uses

    time.Time, byte strings, unicode/utf8, encoding/binary (big endian),
    encoding/hex, encoding/base32 (hex alphabet, no padding), sort.Slice on a
    string key and strconv.Itoa. *)

From S2P Require Import Prelude.

(** ** time

    A [time] counts nanoseconds from the zero Time (year 1, UTC); Equal,
    Before and After compare the instants, so locations play no part. *)
Abbreviation time := Z (only parsing).
Abbreviation duration := Z (only parsing).

Definition nanosecond : duration := 1.
Definition microsecond : duration := 1000.
Definition second : duration := 1000000000.
Definition minute : duration := 60 * second.

(** Seconds between the zero Time and the Unix epoch. *)
Definition unix_to_internal : Z := 62135596800.

Definition IsZero (t : time) : bool := t =? 0.
Definition Before (t u : time) : bool := t <? u.
Definition After (t u : time) : bool := u <? t.
Definition TimeEqual (t u : time) : bool := t =? u.
Definition UnixMicro (t : time) : Z := (t - unix_to_internal * second) / microsecond.
(** Time.Truncate(d) rounds down to a multiple of d since the zero time. *)
Definition Truncate (t : time) (d : duration) : time := t - t mod d.

(** Duration arithmetic of Time.Sub saturates at the int64 bounds. *)
Definition TimeSub (t u : time) : duration :=
  Z.max (- 2 ^ 63) (Z.min max_int64 (t - u)).

Definition equal_opt_time (l r : option time) : bool :=
  match l, r with
  | None, None => true
  | Some a, Some b => TimeEqual a b
  | _, _ => false
  end.

Lemma equal_opt_time_iff l r : equal_opt_time l r = true ↔ l = r.
Proof.
  destruct l, r; unfold equal_opt_time, TimeEqual; gobool; naive_solver.
Qed.

(** The clock and the context of a call are ports over an environment: reading
    the time, and whether the context has been cancelled. *)
Class Clock (E : Type) := { env_Now : E → time * E }.
Class Cancellation (E : Type) := { env_Cancelled : E → option error * E }.

(** ** Bytes and strings *)
Definition byte_of_ascii (a : Ascii.ascii) : Z := Z.of_N (Ascii.N_of_ascii a).
Definition ascii_of_byte (b : Z) : Ascii.ascii := Ascii.ascii_of_N (Z.to_N b).
Definition string_bytes (s : string) : list Z :=
  byte_of_ascii <$> String.list_ascii_of_string s.
Definition string_of_bytes (l : list Z) : string :=
  String.string_of_list_ascii (ascii_of_byte <$> l).
Definition is_byte (b : Z) : Prop := 0 ≤ b < 256.

Lemma byte_of_ascii_range a : is_byte (byte_of_ascii a).
Proof.
  unfold is_byte, byte_of_ascii. pose proof (Ascii.N_ascii_bounded a). lia.
Qed.

Lemma ascii_of_byte_of_ascii a : ascii_of_byte (byte_of_ascii a) = a.
Proof.
  unfold ascii_of_byte, byte_of_ascii. rewrite N2Z.id. apply Ascii.ascii_N_embedding.
Qed.

Lemma byte_of_ascii_of_byte b : is_byte b → byte_of_ascii (ascii_of_byte b) = b.
Proof.
  unfold ascii_of_byte, byte_of_ascii, is_byte. intros Hb.
  rewrite Ascii.N_ascii_embedding by lia. lia.
Qed.

Lemma string_of_string_bytes s : string_of_bytes (string_bytes s) = s.
Proof.
  unfold string_of_bytes, string_bytes. rewrite <- list_fmap_compose.
  rewrite <- (String.string_of_list_ascii_of_string s) at 2. f_equal.
  induction (String.list_ascii_of_string s) as [|a l IH]; [done|].
  cbn. by rewrite ascii_of_byte_of_ascii, IH.
Qed.

Lemma string_bytes_inj s1 s2 : string_bytes s1 = string_bytes s2 → s1 = s2.
Proof.
  intros H. by rewrite <- (string_of_string_bytes s1), H, string_of_string_bytes.
Qed.

Lemma string_bytes_of_bytes l : Forall is_byte l → string_bytes (string_of_bytes l) = l.
Proof.
  unfold string_of_bytes, string_bytes. intros Hl.
  rewrite String.list_ascii_of_string_of_list_ascii.
  induction Hl as [|b l Hb _ IH]; [done|]. cbn. by rewrite byte_of_ascii_of_byte, IH.
Qed.

Lemma string_bytes_range s : Forall is_byte (string_bytes s).
Proof.
  unfold string_bytes. apply Forall_fmap, Forall_true, byte_of_ascii_range.
Qed.

Lemma length_string_bytes s : length (string_bytes s) = String.length s.
Proof.
  unfold string_bytes. rewrite length_fmap. induction s; cbn; congruence.
Qed.

(** ** unicode/utf8.ValidString *)
Definition in_range (lo hi b : Z) : bool := (lo <=? b) && (b <=? hi).
Definition utf8_cont : Z → bool := in_range 0x80 0xBF.

Fixpoint utf8_valid (l : list Z) : bool :=
  match l with
  | [] => true
  | b0 :: r =>
    if b0 <? 0x80 then utf8_valid r
    else if in_range 0xC2 0xDF b0 then
      match r with b1 :: r1 => utf8_cont b1 && utf8_valid r1 | _ => false end
    else if in_range 0xE0 0xEF b0 then
      match r with
      | b1 :: b2 :: r2 =>
        in_range (if b0 =? 0xE0 then 0xA0 else 0x80) (if b0 =? 0xED then 0x9F else 0xBF) b1
        && utf8_cont b2 && utf8_valid r2
      | _ => false
      end
    else if in_range 0xF0 0xF4 b0 then
      match r with
      | b1 :: b2 :: b3 :: r3 =>
        in_range (if b0 =? 0xF0 then 0x90 else 0x80) (if b0 =? 0xF4 then 0x8F else 0xBF) b1
        && utf8_cont b2 && utf8_cont b3 && utf8_valid r3
      | _ => false
      end
    else false
  end.

Definition ValidString (s : string) : bool := utf8_valid (string_bytes s).

(** ** Fixed-length positional encodings, most significant digit first *)
Fixpoint digits (base : Z) (n : nat) (z : Z) : list Z :=
  match n with
  | O => []
  | S n' => (z / base ^ Z.of_nat n') mod base :: digits base n' z
  end.

Fixpoint undigits (base : Z) (l : list Z) : Z :=
  match l with
  | [] => 0
  | d :: r => d * base ^ Z.of_nat (length r) + undigits base r
  end.

Section digits.
Context (base : Z) (Hbase : 0 < base).

Lemma length_digits n z : length (digits base n z) = n.
Proof. induction n; cbn; congruence. Qed.

Lemma digits_range n z : Forall (λ d, 0 ≤ d < base) (digits base n z).
Proof. induction n; cbn; constructor; [|done]. by apply Z.mod_pos_bound. Qed.

Lemma base_pow_pos n : 0 < base ^ Z.of_nat n.
Proof. apply Z.pow_pos_nonneg; lia. Qed.

Lemma base_pow_succ n : base ^ Z.of_nat (S n) = base * base ^ Z.of_nat n.
Proof. rewrite Nat2Z.inj_succ, Z.pow_succ_r by lia. done. Qed.

(** Decoding an encoding gives the value modulo its width. *)
Lemma undigits_digits n z : undigits base (digits base n z) = z mod base ^ Z.of_nat n.
Proof.
  induction n as [|n IH]; [by rewrite Z.mod_1_r|].
  cbn [digits undigits]. rewrite length_digits, IH, base_pow_succ.
  pose proof (base_pow_pos n).
  rewrite (Z.mul_comm base), Z.rem_mul_r by lia. lia.
Qed.

Lemma undigits_range l :
  Forall (λ d, 0 ≤ d < base) l → 0 ≤ undigits base l < base ^ Z.of_nat (length l).
Proof.
  induction 1 as [|b l Hb _ IH]; [cbn; lia|].
  cbn [undigits length]. rewrite base_pow_succ.
  pose proof (base_pow_pos (length l)). nia.
Qed.

Lemma digits_add_high n z k : digits base n (k * base ^ Z.of_nat n + z) = digits base n z.
Proof.
  revert k. induction n as [|n IH]; intros k; [done|]. cbn [digits].
  rewrite base_pow_succ.
  replace (k * (base * base ^ Z.of_nat n) + z) with ((k * base) * base ^ Z.of_nat n + z) by lia.
  rewrite IH. f_equal. pose proof (base_pow_pos n).
  rewrite Z.div_add_l by lia.
  rewrite Z.add_comm, Z_mod_plus_full. done.
Qed.

(** Encoding a decoding gives the digits back. *)
Lemma digits_undigits l :
  Forall (λ d, 0 ≤ d < base) l → digits base (length l) (undigits base l) = l.
Proof.
  induction 1 as [|b l Hb Hl IH]; [done|]. cbn [undigits length digits].
  pose proof (undigits_range l Hl). pose proof (base_pow_pos (length l)).
  rewrite digits_add_high, IH. f_equal.
  rewrite Z.div_add_l, (Z.div_small (undigits base l)), Z.add_0_r, Z.mod_small by lia. done.
Qed.

Lemma digits_inj n z1 z2 :
  0 ≤ z1 < base ^ Z.of_nat n → 0 ≤ z2 < base ^ Z.of_nat n →
  digits base n z1 = digits base n z2 → z1 = z2.
Proof.
  intros H1 H2 Heq. apply (f_equal (undigits base)) in Heq.
  rewrite !undigits_digits, !Z.mod_small in Heq by lia. done.
Qed.

Lemma lookup_digits n z i :
  (i < n)%nat → digits base n z !! i = Some ((z / base ^ Z.of_nat (n - 1 - i)) mod base).
Proof.
  revert i. induction n as [|n IH]; intros i Hi; [lia|].
  destruct i as [|i]; cbn [digits lookup list_lookup].
  - by replace (S n - 1 - 0)%nat with n by lia.
  - rewrite IH by lia. by replace (S n - 1 - S i)%nat with (n - 1 - i)%nat by lia.
Qed.

Lemma undigits_insert l i d d' :
  l !! i = Some d →
  undigits base (<[i:=d']> l) = undigits base l + (d' - d) * base ^ Z.of_nat (length l - 1 - i).
Proof.
  revert i. induction l as [|x l IH]; intros i Hi; [done|].
  destruct i as [|i]; cbn in Hi.
  - injection Hi as ->. cbn [insert list_insert undigits length].
    replace (S (length l) - 1 - 0)%nat with (length l) by lia. lia.
  - change (<[S i:=d']> (x :: l)) with (x :: <[i:=d']> l). cbn [undigits length].
    rewrite length_insert, (IH _ Hi).
    replace (S (length l) - 1 - S i)%nat with (length l - 1 - i)%nat by lia. lia.
Qed.
End digits.

(** ** encoding/binary.BigEndian *)
Definition be_bytes (n : nat) (z : Z) : list Z := digits 256 n z.
Definition be_value (l : list Z) : Z := undigits 256 l.

Lemma length_be_bytes n z : length (be_bytes n z) = n.
Proof. apply length_digits. Qed.

Lemma be_bytes_range n z : Forall is_byte (be_bytes n z).
Proof. by apply digits_range. Qed.

Lemma be_bytes_inj n z1 z2 :
  0 ≤ z1 < 256 ^ Z.of_nat n → 0 ≤ z2 < 256 ^ Z.of_nat n →
  be_bytes n z1 = be_bytes n z2 → z1 = z2.
Proof. by apply digits_inj. Qed.

(** ** strconv.Itoa on non-negative integers *)
Definition digit_string (d : Z) : string := string_of_bytes [48 + d].

Fixpoint itoa_fuel (fuel : nat) (n : Z) : string :=
  match fuel with
  | O => EmptyString
  | S f => if n <? 10 then digit_string n
           else (itoa_fuel f (n / 10) +:+ digit_string (n mod 10))
  end.
(** Twenty digits cover every uint64. *)
Definition itoa (n : Z) : string := itoa_fuel 20 n.

Example itoa_ex : itoa 18446744073709551615 = "18446744073709551615".
Proof. reflexivity. Qed.

(** ** encoding/hex *)
Definition hex_digit (d : Z) : Z := if d <? 10 then 48 + d else 87 + d.
Definition hex_encode (l : list Z) : string :=
  string_of_bytes (l ≫= λ b, [hex_digit (b / 16); hex_digit (b mod 16)]).

(** ** sort.Slice by a string key, and sort.Strings *)
Definition key_le {A} (key : A → string) : relation A := λ x y, String.le (key x) (key y).
#[export] Instance key_le_dec {A} (key : A → string) : RelDecision (key_le key).
Proof. intros x y. unfold key_le. apply _. Defined.
#[export] Instance key_le_total {A} (key : A → string) : Total (key_le key).
Proof. intros x y. apply (total String.le). Qed.
#[export] Instance key_le_trans {A} (key : A → string) : Transitive (key_le key).
Proof. intros x y z. unfold key_le. apply transitivity. Qed.

(** sort.Slice leaves the order of equal keys open; insertion sort keeps them
    in input order, as the standard library does on short slices. *)
Fixpoint insert_by {A} (key : A → string) (x : A) (l : list A) : list A :=
  match l with
  | [] => [x]
  | y :: r => if decide (key_le key x y) then x :: l else y :: insert_by key x r
  end.
Definition sort_by {A} (key : A → string) (l : list A) : list A := foldr (insert_by key) [] l.
Definition sort_strings (l : list string) : list string := sort_by (λ s, s) l.

Section sort_by.
Context {A : Type} (key : A → string).

Lemma insert_by_perm x (l : list A) : insert_by key x l ≡ₚ x :: l.
Proof.
  induction l as [|y l IH]; cbn; [done|]. case_decide; [done|]. rewrite IH. constructor.
Qed.

Lemma sort_by_perm (l : list A) : sort_by key l ≡ₚ l.
Proof.
  induction l as [|x l IH]; cbn; [done|].
  transitivity (x :: sort_by key l); [apply insert_by_perm|by constructor].
Qed.

Lemma elem_of_sort_by (l : list A) x : x ∈ sort_by key l ↔ x ∈ l.
Proof. by rewrite sort_by_perm. Qed.

Lemma length_sort_by (l : list A) : length (sort_by key l) = length l.
Proof. apply Permutation_length, sort_by_perm. Qed.

Lemma insert_by_sorted x (l : list A) :
  StronglySorted (key_le key) l → StronglySorted (key_le key) (insert_by key x l).
Proof.
  induction 1 as [|y l Hl IH Hy]; cbn; [repeat constructor|].
  case_decide as Hxy.
  - constructor; [by constructor|]. constructor; [done|].
    eapply Forall_impl; [exact Hy|]. intros z Hz. by transitivity y.
  - constructor; [done|]. rewrite insert_by_perm. constructor; [|done].
    destruct (total (key_le key) x y); done.
Qed.

Lemma sort_by_sorted (l : list A) : StronglySorted (key_le key) (sort_by key l).
Proof. induction l; cbn; [constructor|]. by apply insert_by_sorted. Qed.

Lemma sort_by_id (l : list A) : StronglySorted (key_le key) l → sort_by key l = l.
Proof.
  induction 1 as [|y l Hl IH Hy]; [done|].
  change (sort_by key (y :: l)) with (insert_by key y (sort_by key l)). rewrite IH.
  destruct l as [|z l]; cbn; [done|]. inversion_clear Hy. by rewrite decide_True.
Qed.

Lemma sort_by_idem (l : list A) : sort_by key (sort_by key l) = sort_by key l.
Proof. apply sort_by_id, sort_by_sorted. Qed.
End sort_by.

(** Two lists with the same elements sort to the same list when the key
    identifies them. *)
Lemma sort_by_unique {A} (key : A → string) (l1 l2 : list A) :
  (∀ x y, x ∈ l1 → y ∈ l1 → key x = key y → x = y) →
  l1 ≡ₚ l2 → sort_by key l1 = sort_by key l2.
Proof.
  intros Hinj Hp. apply (StronglySorted_unique_strong (key_le key)).
  - intros x1 x2 Hx1 Hx2 H1 H2. apply Hinj.
    + by rewrite <- (elem_of_sort_by key).
    + rewrite Hp. by rewrite <- (elem_of_sort_by key).
    + by apply (anti_symm String.le).
  - apply sort_by_sorted.
  - apply sort_by_sorted.
  - by rewrite !sort_by_perm.
Qed.

(** sort.Slice with a less function, as insertion sort. *)
Fixpoint insert_less {A} (less : A → A → bool) (x : A) (l : list A) : list A :=
  match l with
  | [] => [x]
  | y :: r => if less y x then y :: insert_less less x r else x :: l
  end.
Definition sort_slice {A} (less : A → A → bool) (l : list A) : list A :=
  foldr (insert_less less) [] l.

Lemma insert_less_perm {A} (less : A → A → bool) x (l : list A) : insert_less less x l ≡ₚ x :: l.
Proof.
  induction l as [|y l IH]; cbn; [done|]. destruct (less y x); [|done]. rewrite IH. constructor.
Qed.
Lemma sort_slice_perm {A} (less : A → A → bool) (l : list A) : sort_slice less l ≡ₚ l.
Proof.
  induction l as [|x l IH]; cbn; [done|]. fold (sort_slice less l).
  rewrite insert_less_perm. by constructor.
Qed.
Lemma elem_of_sort_slice {A} (less : A → A → bool) (l : list A) x : x ∈ sort_slice less l ↔ x ∈ l.
Proof. by rewrite sort_slice_perm. Qed.

Lemma string_ltb_iff a b : String.ltb a b = true ↔ String.le a b ∧ a ≠ b.
Proof.
  unfold String.ltb, String.le, String.leb. pose proof (String.compare_eq_iff a b) as H.
  destruct (String.compare a b) eqn:E; split; try done.
  - intros [_ Hne]. by destruct Hne; apply H.
  - intros _. split; [done|]. intros ->. pose proof (String.compare_antisym b b) as Hb.
    by rewrite E in Hb.
  - by intros [].
Qed.
Lemma string_ltb_false a b : String.ltb a b = false ↔ String.le b a.
Proof.
  rewrite <- not_true_iff_false, string_ltb_iff. split.
  - intros H. destruct (total String.le b a) as [?|Hab]; [done|].
    destruct (decide (a = b)) as [->|Hne]; [apply (reflexivity (R := String.le))|]. by destruct H.
  - intros Hba [Hab Hne]. apply Hne. by apply (anti_symm String.le).
Qed.

(** A less function whose complement is a total preorder sorts, and the result
    is the only sorted permutation when the preorder identifies the elements. *)
Section sort_slice.
Context {A : Type} (less : A → A → bool).
Context (le : relation A) `{!Total le, !Transitive le} (Hle : ∀ x y, le x y ↔ less y x = false).

Lemma insert_less_sorted x (l : list A) :
  StronglySorted le l → StronglySorted le (insert_less less x l).
Proof.
  induction 1 as [|y l Hl IH Hy]; cbn; [repeat constructor|]. destruct (less y x) eqn:Hxy.
  - constructor; [done|]. rewrite insert_less_perm. constructor; [|done].
    destruct (total le x y) as [Hxy'|]; [|done]. apply Hle in Hxy'. congruence.
  - constructor; [by constructor|]. apply Hle in Hxy. constructor; [done|].
    eapply Forall_impl; [exact Hy|]. intros z Hz. by transitivity y.
Qed.
Lemma sort_slice_sorted (l : list A) : StronglySorted le (sort_slice less l).
Proof. induction l; cbn; [constructor|]. by apply insert_less_sorted. Qed.
Lemma sort_slice_unique (l f : list A) :
  f ≡ₚ l → StronglySorted le f →
  (∀ x y, x ∈ f → y ∈ f → le x y → le y x → x = y) → sort_slice less l = f.
Proof.
  intros Hp Hs Hinj. apply (StronglySorted_unique_strong le).
  - intros x y Hx Hy Hxy Hyx. apply Hinj; [|done..]. rewrite Hp. by rewrite <- (elem_of_sort_slice less).
  - apply sort_slice_sorted.
  - done.
  - by rewrite sort_slice_perm, Hp.
Qed.
End sort_slice.

(** strings.Join *)
Fixpoint strings_Join (sep : string) (l : list string) : string :=
  match l with
  | [] => EmptyString
  | [s] => s
  | s :: r => s +:+ sep +:+ strings_Join sep r
  end.
