(* ===== verification/Sha256.v ===== *)
(** * crypto/sha256

    SHA-256 (FIPS 180-4) on byte lists, so that every identifier and digest of
    the program is a computable value. Words are integers kept below 2^32. *)

From S2P Require Import Prelude GoStd.

Definition rotr (n x : Z) : Z :=
  Z.lor (Z.shiftr x n) (wrap32 (Z.shiftl x (32 - n))).
Definition add32 (x y : Z) : Z := wrap32 (x + y).
Definition not32 (x : Z) : Z := 2 ^ 32 - 1 - x.

Definition ch (x y z : Z) : Z := Z.lxor (Z.land x y) (Z.land (not32 x) z).
Definition maj (x y z : Z) : Z := Z.lxor (Z.lxor (Z.land x y) (Z.land x z)) (Z.land y z).
Definition big_sigma0 (x : Z) : Z := Z.lxor (Z.lxor (rotr 2 x) (rotr 13 x)) (rotr 22 x).
Definition big_sigma1 (x : Z) : Z := Z.lxor (Z.lxor (rotr 6 x) (rotr 11 x)) (rotr 25 x).
Definition small_sigma0 (x : Z) : Z := Z.lxor (Z.lxor (rotr 7 x) (rotr 18 x)) (Z.shiftr x 3).
Definition small_sigma1 (x : Z) : Z := Z.lxor (Z.lxor (rotr 17 x) (rotr 19 x)) (Z.shiftr x 10).

(** The constants are the first 32 bits of the fractional parts of the cube
    and square roots of the first primes (FIPS 180-4, 4.2.2 and 5.3.3). *)
Definition is_prime (p : Z) : bool :=
  forallb (λ d, negb (p mod Z.of_nat d =? 0)) (seq 2 (Z.to_nat p - 2)).
Fixpoint primes_from (fuel count : nat) (p : Z) : list Z :=
  match fuel, count with
  | S f, S c => if is_prime p then p :: primes_from f c (p + 1) else primes_from f count (p + 1)
  | _, _ => []
  end.

(** The largest [r] below [lo + 2 ^ bits] with [r ^ 3 <= n]. *)
Fixpoint cube_root (bits : nat) (lo n : Z) : Z :=
  match bits with
  | O => lo
  | S b => let mid := lo + 2 ^ Z.of_nat b in
           cube_root b (if mid ^ 3 <=? n then mid else lo) n
  end.

Definition sha256_k : list Z :=
  Eval vm_compute in (λ p, wrap32 (cube_root 40 0 (p * 2 ^ 96))) <$> primes_from 400 64 2.
Definition sha256_init : list Z :=
  Eval vm_compute in (λ p, wrap32 (Z.sqrt (p * 2 ^ 64))) <$> primes_from 40 8 2.

(** Message padding: a one bit, zeros, and the bit length on 64 bits. *)
Definition sha256_pad (m : list Z) : list Z :=
  let len := Z.of_nat (length m) in
  m ++ [128] ++ replicate (Z.to_nat ((55 - len) mod 64)) 0 ++ be_bytes 8 (8 * len).

Fixpoint words (fuel : nat) (l : list Z) : list Z :=
  match fuel with
  | O => []
  | S f => match l with
           | [] => []
           | _ => be_value (take 4 l) :: words f (drop 4 l)
           end
  end.

(** The message schedule, newest word first. *)
Fixpoint schedule (n : nat) (w : list Z) : list Z :=
  match n with
  | O => w
  | S n' =>
    let at_ i := nth i w 0 in
    schedule n' (add32 (add32 (small_sigma1 (at_ 1%nat)) (at_ 6%nat))
                       (add32 (small_sigma0 (at_ 14%nat)) (at_ 15%nat)) :: w)
  end.

Record sha_vars := ShaVars { va : Z; vb : Z; vc : Z; vd : Z; ve : Z; vf : Z; vg : Z; vh : Z }.

Definition sha256_round (v : sha_vars) (kw : Z * Z) : sha_vars :=
  let t1 := add32 (add32 (vh v) (big_sigma1 (ve v)))
                  (add32 (ch (ve v) (vf v) (vg v)) (add32 kw.1 kw.2)) in
  let t2 := add32 (big_sigma0 (va v)) (maj (va v) (vb v) (vc v)) in
  ShaVars (add32 t1 t2) (va v) (vb v) (vc v) (add32 (vd v) t1) (ve v) (vf v) (vg v).

Definition sha256_block (h : sha_vars) (block : list Z) : sha_vars :=
  let w := reverse (schedule 48 (reverse (words 16 block))) in
  let v := foldl sha256_round h (zip sha256_k w) in
  ShaVars (add32 (va h) (va v)) (add32 (vb h) (vb v)) (add32 (vc h) (vc v)) (add32 (vd h) (vd v))
          (add32 (ve h) (ve v)) (add32 (vf h) (vf v)) (add32 (vg h) (vg v)) (add32 (vh h) (vh v)).

Fixpoint sha256_blocks (fuel : nat) (h : sha_vars) (l : list Z) : sha_vars :=
  match fuel with
  | O => h
  | S f => match l with
           | [] => h
           | _ => sha256_blocks f (sha256_block h (take 64 l)) (drop 64 l)
           end
  end.

Definition sha_init_vars : sha_vars :=
  match sha256_init with
  | [a; b; c; d; e; f; g; h] => ShaVars a b c d e f g h
  | _ => ShaVars 0 0 0 0 0 0 0 0
  end.

(** sha256.Sum256. The fuel is the padded length, more than its block count. *)
Definition Sum256 (m : list Z) : list Z :=
  let p := sha256_pad m in
  let v := sha256_blocks (length p) sha_init_vars p in
  flat_map (be_bytes 4) [va v; vb v; vc v; vd v; ve v; vf v; vg v; vh v].

Definition sha256_size : nat := 32.

Example sha256_abc :
  hex_encode (Sum256 (string_bytes "abc"))
  = "ba7816bf8f01cfea414140de5dae2223b00361a396177a9cb410ff61f20015ad".
Proof. vm_compute. reflexivity. Qed.

Example sha256_two_blocks :
  hex_encode (Sum256 (string_bytes "abcdbcdecdefdefgefghfghighijhijkijkljklmklmnlmnomnopnopq"))
  = "248d6a61d20638b8e5c026930c3e6039a33ce45964ff2167f6ecedd419db06c1".
Proof. vm_compute. reflexivity. Qed.

Lemma length_Sum256 m : length (Sum256 m) = sha256_size.
Proof. reflexivity. Qed.

Lemma Sum256_range m : Forall is_byte (Sum256 m).
Proof.
  unfold Sum256. cbn [flat_map].
  repeat (apply Forall_app_2; [apply be_bytes_range|]). constructor.
Qed.
