(* ===== verification/Netip.v ===== *)
(** * net/netip: addresses and prefixes

    [Addr] is a family tag and the address as an integer of that family's
    width; zones are left out because a Prefix never carries one. [Prefix]
    keeps the standard library's [bitsPlusOne] field, so an invalid prefix is
    any value whose field is zero. *)

From S2P Require Import Prelude GoStd.

Inductive AddrKind := z0 | z4 | z6.
Record Addr := MkAddr { addr_kind : AddrKind; addr_val : Z }.
Record Prefix := MkPrefix { prefix_ip : Addr; bitsPlusOne : Z }.

#[export] Instance AddrKind_eq_dec : EqDecision AddrKind.
Proof. solve_decision. Defined.
#[export] Instance Addr_eq_dec : EqDecision Addr.
Proof. solve_decision. Defined.
#[export] Instance Prefix_eq_dec : EqDecision Prefix.
Proof. solve_decision. Defined.

#[export] Instance AddrKind_countable : Countable AddrKind.
Proof.
  refine (inj_countable'
    (λ k, match k with z0 => 0%nat | z4 => 1%nat | z6 => 2%nat end)
    (λ n, match n with O => z0 | 1%nat => z4 | _ => z6 end) _).
  by intros [].
Defined.
#[export] Instance Prefix_countable : Countable Prefix.
Proof.
  refine (inj_countable'
    (λ p, (addr_kind (prefix_ip p), addr_val (prefix_ip p), bitsPlusOne p))
    (λ t, MkPrefix (MkAddr t.1.1 t.1.2) t.2) _).
  by intros [[] ?].
Defined.

Definition BitLen (a : Addr) : Z :=
  match addr_kind a with z0 => 0 | z4 => 32 | z6 => 128 end.
Definition Is4 (a : Addr) : bool := bool_decide (addr_kind a = z4).

(** Values built by the package keep the address within its width and the
    length within the address. *)
Definition Addr_wf (a : Addr) : Prop := 0 ≤ addr_val a < 2 ^ BitLen a.
Definition Prefix_wf (p : Prefix) : Prop :=
  Addr_wf (prefix_ip p) ∧ 0 ≤ bitsPlusOne p ≤ BitLen (prefix_ip p) + 1 ∧
  (addr_kind (prefix_ip p) = z0 → bitsPlusOne p = 0).

Definition zero_addr : Addr := MkAddr z0 0.
Definition zero_prefix : Prefix := MkPrefix zero_addr 0.

Definition Bits (p : Prefix) : Z := bitsPlusOne p - 1.
Definition PrefixIsValid (p : Prefix) : bool := 0 <? bitsPlusOne p.

(** PrefixFrom *)
Definition PrefixFrom (ip : Addr) (bits : Z) : Prefix :=
  MkPrefix ip (if negb (bool_decide (addr_kind ip = z0)) && (0 <=? bits) && (bits <=? BitLen ip)
               then bits + 1 else 0).

(** The top [b] of [w] bits set (mask6). *)
Definition mask (w b : Z) : Z := Z.shiftl (Z.ones b) (w - b).

(** Addr.Prefix *)
Definition Addr_Prefix (ip : Addr) (b : Z) : result Prefix :=
  if b <? 0 then Err (Errorf "negative Prefix bits")
  else match addr_kind ip with
  | z0 => Ok zero_prefix
  | _ => if BitLen ip <? b then Err (Errorf "prefix length %d too large")
         else Ok (PrefixFrom (MkAddr (addr_kind ip) (Z.land (addr_val ip) (mask (BitLen ip) b))) b)
  end.

(** Prefix.Masked *)
Definition Masked (p : Prefix) : Prefix :=
  match Addr_Prefix (prefix_ip p) (Bits p) with Ok m => m | Err _ => zero_prefix end.

(** Prefix.Contains *)
Definition Contains (p : Prefix) (ip : Addr) : bool :=
  if negb (PrefixIsValid p) then false
  else let f1 := BitLen (prefix_ip p) in let f2 := BitLen ip in
  if (f1 =? 0) || (f2 =? 0) || negb (f1 =? f2) then false
  else let x := Z.lxor (addr_val ip) (addr_val (prefix_ip p)) in
  if Is4 ip then Z.shiftr x (32 - Bits p) =? 0
  else Z.land x (mask 128 (Bits p)) =? 0.

(** Prefix.Overlaps *)
Definition Overlaps (p o : Prefix) : bool :=
  if negb (PrefixIsValid p) || negb (PrefixIsValid o) then false
  else if bool_decide (p = o) then true
  else if negb (eqb (Is4 (prefix_ip p)) (Is4 (prefix_ip o))) then false
  else let minBits := if Bits p <? Bits o then Bits p else Bits o in
  if minBits =? 0 then true
  else match Addr_Prefix (prefix_ip p) minBits, Addr_Prefix (prefix_ip o) minBits with
  | Ok p', Ok o' => bool_decide (prefix_ip p' = prefix_ip o')
  | _, _ => false
  end.

(** [!p.IsValid() || p != p.Masked()], the program's non-canonical test. *)
Definition not_canonical (p : Prefix) : bool :=
  negb (PrefixIsValid p) || negb (bool_decide (p = Masked p)).

(** ** Addr.String and Prefix.String *)
Definition octet (v : Z) (i : Z) : Z := (v / 2 ^ (8 * (3 - i))) mod 256.
Definition string4 (v : Z) : string :=
  itoa (octet v 0) +:+ "." +:+ itoa (octet v 1) +:+ "." +:+ itoa (octet v 2) +:+ "."
  +:+ itoa (octet v 3).

Definition v6u16 (v : Z) (i : Z) : Z := (v / 2 ^ (16 * (7 - i))) mod 65536.

Fixpoint hex_fuel (fuel : nat) (n : Z) : string :=
  match fuel with
  | O => EmptyString
  | S f => if n <? 16 then string_of_bytes [hex_digit n]
           else hex_fuel f (n / 16) +:+ string_of_bytes [hex_digit (n mod 16)]
  end.
Definition append_hex (n : Z) : string := hex_fuel 4 n.

(** Length of the run of zero groups starting at [i]. *)
Fixpoint zero_run (fuel : nat) (v i : Z) : Z :=
  match fuel with
  | O => 0
  | S f => if (i <? 8) && (v6u16 v i =? 0) then 1 + zero_run f v (i + 1) else 0
  end.

(** The first longest run of at least two zero groups, as (start, end). *)
Definition zero_span (v : Z) : option (Z * Z) :=
  foldl (λ best i,
    let l := zero_run 8 v i in
    let cur := match best with None => 0 | Some (s, e) => e - s end in
    if (2 <=? l) && (cur <? l) then Some (i, i + l) else best)
    None [0; 1; 2; 3; 4; 5; 6; 7].

Fixpoint groups6 (fuel : nat) (v i : Z) (span : option (Z * Z)) : string :=
  match fuel with
  | O => EmptyString
  | S f =>
    if 8 <=? i then EmptyString
    else match span with
    | Some (s, e) =>
      if i =? s then
        "::" +:+ (if 8 <=? e then EmptyString
                  else append_hex (v6u16 v e) +:+ groups6 f v (e + 1) span)
      else (if 0 <? i then ":" else EmptyString) +:+ append_hex (v6u16 v i)
           +:+ groups6 f v (i + 1) span
    | None => (if 0 <? i then ":" else EmptyString) +:+ append_hex (v6u16 v i)
              +:+ groups6 f v (i + 1) span
    end
  end.

Definition Is4In6 (a : Addr) : bool :=
  bool_decide (addr_kind a = z6) && (addr_val a / 2 ^ 32 =? 0xffff).

Definition Addr_String (a : Addr) : string :=
  match addr_kind a with
  | z0 => "invalid IP"
  | z4 => string4 (addr_val a)
  | z6 => if Is4In6 a then "::ffff:" +:+ string4 (addr_val a mod 2 ^ 32)
          else groups6 9 (addr_val a) 0 (zero_span (addr_val a))
  end.

Definition Prefix_String (p : Prefix) : string :=
  if negb (PrefixIsValid p) then "invalid Prefix"
  else Addr_String (prefix_ip p) +:+ "/" +:+ itoa (Bits p).

Definition ip4 (a b c d : Z) : Addr := MkAddr z4 (be_value [a; b; c; d]).
Definition ip6 (v : Z) : Addr := MkAddr z6 v.

Example string_v4 : Prefix_String (PrefixFrom (ip4 192 0 2 10) 32) = "192.0.2.10/32".
Proof. reflexivity. Qed.
Example string_v6 :
  Prefix_String (PrefixFrom (ip6 0x20010db8000000000001000000000001) 64) = "2001:db8::1:0:0:1/64".
Proof. reflexivity. Qed.
Example string_loopback : Prefix_String (PrefixFrom (ip6 1) 128) = "::1/128".
Proof. reflexivity. Qed.
Example string_any : Prefix_String (PrefixFrom (ip6 0) 0) = "::/0".
Proof. reflexivity. Qed.
Example string_mapped :
  Addr_String (ip6 0xffffc0000201) = "::ffff:192.0.2.1".
Proof. reflexivity. Qed.

(** ** Arithmetic meaning of masks *)
Lemma mask_land w b v :
  0 ≤ b ≤ w → 0 ≤ v < 2 ^ w → Z.land v (mask w b) = (v / 2 ^ (w - b)) * 2 ^ (w - b).
Proof.
  intros Hb Hv. rewrite <- Z.shiftl_mul_pow2, <- Z.shiftr_div_pow2 by lia.
  apply Z.bits_inj'. intros n Hn. unfold mask.
  rewrite Z.land_spec, !Z.shiftl_spec by lia.
  destruct (Z.lt_ge_cases n (w - b)).
  - rewrite !(Z.testbit_neg_r _ (n - (w - b))) by lia. apply andb_false_r.
  - rewrite Z.shiftr_spec by lia. replace (n - (w - b) + (w - b)) with n by lia.
    destruct (Z.lt_ge_cases n w).
    + rewrite Z.ones_spec_low by lia. apply andb_true_r.
    + rewrite <- (Z.mod_small v (2 ^ w)) by lia.
      rewrite Z.mod_pow2_bits_high by lia. done.
Qed.

Lemma div_pow2_coarser a b k1 k2 :
  0 ≤ k2 ≤ k1 → a / 2 ^ k2 = b / 2 ^ k2 → a / 2 ^ k1 = b / 2 ^ k1.
Proof.
  intros Hk Heq. replace k1 with (k2 + (k1 - k2)) by lia.
  rewrite Z.pow_add_r, <- !Z.div_div by lia. by rewrite Heq.
Qed.

Lemma lxor_shiftr_0 a b k :
  0 ≤ k → 0 ≤ a → 0 ≤ b → Z.shiftr (Z.lxor a b) k = 0 ↔ a / 2 ^ k = b / 2 ^ k.
Proof.
  intros Hk Ha Hb. rewrite Z.shiftr_lxor, Z.lxor_eq_0_iff, !Z.shiftr_div_pow2 by lia. done.
Qed.

Lemma lxor_mask_0 w b x y :
  0 ≤ b ≤ w → 0 ≤ x < 2 ^ w → 0 ≤ y < 2 ^ w →
  Z.land (Z.lxor x y) (mask w b) = 0 ↔ x / 2 ^ (w - b) = y / 2 ^ (w - b).
Proof.
  intros Hb Hx Hy. rewrite <- lxor_shiftr_0 by lia.
  assert (0 ≤ Z.lxor x y < 2 ^ w) as Hl.
  { assert (0 ≤ Z.lxor x y) as Hnn by (apply Z.lxor_nonneg; lia). split; [done|].
    destruct (Z.eq_dec (Z.lxor x y) 0) as [->|Hne]; [apply Z.pow_pos_nonneg; lia|].
    apply Z.log2_lt_pow2; [lia|].
    eapply Z.le_lt_trans; [apply Z.log2_lxor; lia|].
    assert (w ≠ 0).
    { intros ->. cbn in Hx, Hy. assert (x = 0) as -> by lia. assert (y = 0) as -> by lia. done. }
    apply Z.max_lub_lt;
      [destruct (Z.eq_dec x 0)|destruct (Z.eq_dec y 0)];
      (subst; cbn; lia) || (apply Z.log2_lt_pow2; lia). }
  rewrite mask_land, Z.shiftr_div_pow2 by lia.
  pose proof (Z.pow_pos_nonneg 2 (w - b)). nia.
Qed.

(** ** Canonical prefixes *)
Definition canonical (p : Prefix) : Prop := not_canonical p = false.

Section prefixes.
Implicit Types p q o : Prefix.

(** Host bits of a prefix. *)
Definition shift p : Z := BitLen (prefix_ip p) - Bits p.

Lemma BitLen_kind a b : BitLen a = BitLen b ↔ addr_kind a = addr_kind b.
Proof. unfold BitLen. destruct (addr_kind a), (addr_kind b); split; done. Qed.

Lemma BitLen_nonneg a : 0 ≤ BitLen a.
Proof. unfold BitLen. by destruct (addr_kind a). Qed.

Lemma valid_bits p :
  Prefix_wf p → PrefixIsValid p = true →
  0 ≤ Bits p ≤ BitLen (prefix_ip p) ∧ addr_kind (prefix_ip p) ≠ z0.
Proof.
  unfold Prefix_wf, PrefixIsValid, Bits. intros (_ & Hb & Hz) Hv. gobool.
  split; [lia|]. intros H. specialize (Hz H). lia.
Qed.

(** Contains is equality of the network bits within one family. *)
Lemma Contains_iff p a :
  Prefix_wf p → PrefixIsValid p = true → Addr_wf a →
  Contains p a = true ↔
    addr_kind a = addr_kind (prefix_ip p) ∧
    addr_val a / 2 ^ shift p = addr_val (prefix_ip p) / 2 ^ shift p.
Proof.
  intros Hwf Hv Ha. destruct (valid_bits p Hwf Hv) as [Hb Hz].
  destruct Hwf as (Hip & _). unfold Addr_wf in *. unfold Contains, shift. rewrite Hv. cbn.
  rewrite <- BitLen_kind. unfold Is4.
  destruct p as [[pk pv] pb], a as [ak av]. unfold BitLen in *.
  cbn [prefix_ip addr_kind addr_val] in *.
  destruct pk, ak; try done;
    try (split; [discriminate|intros [? _]; discriminate]).
  - change (if bool_decide (z4 = z4) then ?a else ?b) with a. cbn [Z.eqb Pos.eqb orb negb].
    rewrite Z.eqb_eq, lxor_shiftr_0 by lia. tauto.
  - change (if bool_decide (z6 = z4) then ?a else ?b) with b. cbn [Z.eqb Pos.eqb orb negb].
    rewrite Z.eqb_eq, lxor_mask_0 by lia. tauto.
Qed.

Lemma Addr_Prefix_ok a b :
  addr_kind a ≠ z0 → 0 ≤ b ≤ BitLen a → Addr_wf a →
  Addr_Prefix a b =
    Ok (MkPrefix (MkAddr (addr_kind a)
                   (addr_val a / 2 ^ (BitLen a - b) * 2 ^ (BitLen a - b))) (b + 1)).
Proof.
  intros Hk Hb Ha. unfold Addr_Prefix, PrefixFrom.
  rewrite (proj2 (Z.ltb_ge b 0)) by lia.
  rewrite <- mask_land by (unfold Addr_wf in Ha; lia).
  assert (negb (bool_decide (addr_kind a = z0)) = true) as Hnk.
  { rewrite negb_true_iff. by apply bool_decide_eq_false. }
  assert (∀ v, BitLen (MkAddr (addr_kind a) v) = BitLen a) as HBL by done.
  cbn [addr_kind]. rewrite HBL, Hnk.
  rewrite (proj2 (Z.ltb_ge (BitLen a) b)), (proj2 (Z.leb_le 0 b)), (proj2 (Z.leb_le b _)) by lia.
  cbn. by destruct (addr_kind a).
Qed.

(** A valid prefix is canonical when its host bits are zero. *)
Lemma canonical_iff p :
  Prefix_wf p →
  canonical p ↔
    PrefixIsValid p = true ∧ addr_val (prefix_ip p) mod 2 ^ shift p = 0.
Proof.
  intros Hwf. unfold canonical, not_canonical. gobool.
  destruct (PrefixIsValid p) eqn:Hv; [|naive_solver].
  destruct (valid_bits p Hwf Hv) as [Hb Hz]. destruct Hwf as (Hip & _).
  unfold Masked. rewrite Addr_Prefix_ok by done. fold (shift p).
  assert (0 < 2 ^ shift p) by (apply Z.pow_pos_nonneg; unfold shift; lia).
  destruct p as [[k v] b]; cbn in *.
  pose proof (Z.div_mod v (2 ^ shift (MkPrefix (MkAddr k v) b))) as Hdm.
  unfold Bits; cbn. split.
  - intros [_ Heq]. split; [done|]. injection Heq as Heq _. lia.
  - intros [_ Hm]. split; [done|]. rewrite Hm in Hdm.
    do 2 f_equal; lia.
Qed.

Lemma canonical_valid p : canonical p → PrefixIsValid p = true.
Proof. unfold canonical, not_canonical. gobool. tauto. Qed.

Lemma Contains_self p :
  Prefix_wf p → PrefixIsValid p = true → Contains p (prefix_ip p) = true.
Proof. intros Hwf Hv. apply Contains_iff; [done..|apply Hwf|done]. Qed.
End prefixes.

(** ** Overlap is a shared address *)
Definition same_family (p q : Prefix) : Prop :=
  addr_kind (prefix_ip p) = addr_kind (prefix_ip q).

Lemma shift_nonneg p : Prefix_wf p → PrefixIsValid p = true → 0 ≤ shift p.
Proof. intros Hwf Hv. destruct (valid_bits p Hwf Hv). unfold shift. lia. Qed.

(** Two prefixes of one family share an address exactly when they agree on
    the bits of the shorter one. *)
Lemma share_iff p q :
  Prefix_wf p → Prefix_wf q → PrefixIsValid p = true → PrefixIsValid q = true →
  same_family p q → Bits p ≤ Bits q →
  (∃ a, Addr_wf a ∧ Contains p a = true ∧ Contains q a = true) ↔ Contains p (prefix_ip q) = true.
Proof.
  intros Hp Hq Vp Vq Hf Hb. split.
  - intros (a & Ha & H1 & H2).
    apply Contains_iff in H1 as [_ H1]; [|done..]. apply Contains_iff in H2 as [_ H2]; [|done..].
    apply Contains_iff; [done..|apply Hq|]. split; [by symmetry|].
    rewrite <- H1. symmetry. apply (div_pow2_coarser _ _ (shift p) (shift q)); [|done].
    split; [by apply shift_nonneg|]. unfold shift.
    rewrite (proj2 (BitLen_kind (prefix_ip p) (prefix_ip q))) by done. lia.
  - intros H. exists (prefix_ip q). split; [apply Hq|]. split; [done|]. by apply Contains_self.
Qed.

Lemma Overlaps_comm_share p q :
  (∃ a, Addr_wf a ∧ Contains p a = true ∧ Contains q a = true) ↔
  (∃ a, Addr_wf a ∧ Contains q a = true ∧ Contains p a = true).
Proof. naive_solver. Qed.

Lemma Is4_same p q :
  addr_kind (prefix_ip p) ≠ z0 → addr_kind (prefix_ip q) ≠ z0 →
  eqb (Is4 (prefix_ip p)) (Is4 (prefix_ip q)) = true ↔ same_family p q.
Proof.
  unfold Is4, same_family. destruct (addr_kind (prefix_ip p)), (addr_kind (prefix_ip q)); naive_solver.
Qed.

Lemma mul_pow_inj a b k : a * 2 ^ k = b * 2 ^ k → 0 ≤ k → a = b.
Proof. intros H Hk. pose proof (Z.pow_pos_nonneg 2 k). nia. Qed.

(** Prefix.Overlaps reports exactly whether the two address sets meet. *)
Lemma Overlaps_iff p q :
  Prefix_wf p → Prefix_wf q → PrefixIsValid p = true → PrefixIsValid q = true →
  Overlaps p q = true ↔ ∃ a, Addr_wf a ∧ Contains p a = true ∧ Contains q a = true.
Proof.
  intros Hp Hq Vp Vq. unfold Overlaps. rewrite Vp, Vq. cbn.
  destruct (valid_bits p Hp Vp) as [Hbp Hzp], (valid_bits q Hq Vq) as [Hbq Hzq].
  case_bool_decide as Heq.
  { subst q. split; [|done]. intros _. exists (prefix_ip p).
    repeat split; [apply Hp..|by apply Contains_self|by apply Contains_self]. }
  destruct (eqb (Is4 (prefix_ip p)) (Is4 (prefix_ip q))) eqn:Hf; cbn [negb].
  2:{ split; [done|]. intros (a & Ha & H1 & H2).
      apply Contains_iff in H1 as [H1 _]; [|done..]. apply Contains_iff in H2 as [H2 _]; [|done..].
      assert (eqb (Is4 (prefix_ip p)) (Is4 (prefix_ip q)) = true); [|congruence].
      apply Is4_same; [done..|]. unfold same_family. congruence. }
  apply Is4_same in Hf; [|done..].
  assert (BitLen (prefix_ip p) = BitLen (prefix_ip q)) as HBL by by apply BitLen_kind.
  set (m := if Bits p <? Bits q then Bits p else Bits q).
  assert (m = Z.min (Bits p) (Bits q)) as Hm.
  { unfold m. destruct (Z.ltb_spec (Bits p) (Bits q)); lia. }
  assert ((∃ a, Addr_wf a ∧ Contains p a = true ∧ Contains q a = true) ↔
          addr_val (prefix_ip p) / 2 ^ (BitLen (prefix_ip p) - m) =
          addr_val (prefix_ip q) / 2 ^ (BitLen (prefix_ip p) - m)) as Hshare.
  { destruct (Z.le_ge_cases (Bits p) (Bits q)).
    - rewrite share_iff, Contains_iff by (done || apply Hq). unfold shift.
      replace m with (Bits p) by lia. unfold same_family in Hf. naive_solver.
    - rewrite Overlaps_comm_share, share_iff, Contains_iff by (done || apply Hp || lia).
      unfold shift. replace m with (Bits q) by lia. rewrite HBL. unfold same_family in Hf.
      naive_solver. }
  rewrite Hshare. clear Hshare.
  destruct (Z.eqb_spec m 0) as [Hm0|Hm0].
  { split; [|done]. intros _. rewrite Hm0, Z.sub_0_r.
    destruct Hp as [Hp _], Hq as [Hq _]. unfold Addr_wf in *.
    rewrite !Z.div_small; [done|congruence|done]. }
  rewrite !Addr_Prefix_ok by (done || lia || apply Hp || apply Hq).
  cbn. rewrite bool_decide_true_iff, <- HBL. split.
  - intros [= _ Hv]. apply mul_pow_inj in Hv; lia.
  - intros Hv. f_equal; [apply Hf|]. by rewrite Hv.
Qed.
