(* ===== verification/Identity.v ===== *)
(** * Stable identities (internal/core/identity.go)

    Delivery and event identifiers are a SHA-256 of a length-framed message,
    printed in lower-case base32hex behind a version prefix. *)

From S2P Require Import Prelude GoStd Sha256.

Abbreviation NodeID := string (only parsing).
Abbreviation SourceID := string (only parsing).
Abbreviation DeliveryID := string (only parsing).
Abbreviation EventID := string (only parsing).
Abbreviation ParserID := string (only parsing).
Abbreviation ParserVersion := string (only parsing).
Abbreviation RuleID := string (only parsing).
Abbreviation RuleVersion := string (only parsing).
Abbreviation AlertID := string (only parsing).
Abbreviation DecisionID := string (only parsing).

(** ** base32.HexEncoding without padding

    [n] bytes are [8 n] bits; the encoding cuts them, padded with zero bits,
    into groups of five. *)
Definition base32_chars (n : nat) : nat := Z.to_nat ((8 * Z.of_nat n + 4) / 5).
Definition base32_char (d : Z) : Z := if d <? 10 then 48 + d else 55 + d.
Definition base32_digit (c : Z) : option Z :=
  if in_range 48 57 c then Some (c - 48)
  else if in_range 65 86 c then Some (c - 55)
  else None.

Definition base32_encode (l : list Z) : list Z :=
  let k := base32_chars (length l) in
  base32_char <$>
    digits 32 k (be_value l * 2 ^ (5 * Z.of_nat k - 8 * Z.of_nat (length l))).

(** DecodeString: an unknown character is an error, the bits that do not
    fill a byte are dropped. *)
Definition base32_decode (cs : list Z) : option (list Z) :=
  match mapM base32_digit cs with
  | None => None
  | Some ds =>
    let k := length ds in
    let n := Z.to_nat (5 * Z.of_nat k / 8) in
    Some (be_bytes n (undigits 32 ds / 2 ^ (5 * Z.of_nat k - 8 * Z.of_nat n)))
  end.

(** strings.ToLower and strings.ToUpper on ASCII. *)
Definition lower_byte (c : Z) : Z := if in_range 65 90 c then c + 32 else c.
Definition upper_byte (c : Z) : Z := if in_range 97 122 c then c - 32 else c.

(** ** identity.go *)
Definition writeUint32 (value : Z) : list Z := be_bytes 4 (wrap32 value).
Definition writeUint64 (value : Z) : list Z := be_bytes 8 value.
Definition writeFramedString (value : string) : list Z :=
  writeUint32 (Z.of_nat (String.length value)) ++ string_bytes value.

Definition hashIdentity (prefix : string) (frame : list Z) : string :=
  prefix +:+ string_of_bytes (lower_byte <$> base32_encode (Sum256 frame)).

Definition isLowerHex128 (value : string) : bool :=
  if negb (Nat.eqb (String.length value) 32) then false
  else forallb (λ c, in_range 48 57 c || in_range 97 102 c) (string_bytes value).

Definition validateTextIdentifier (kind value : string) : result unit :=
  fail_if (bool_decide (value = EmptyString) || negb (ValidString value))
          (Errorf (kind +:+ " must be non-empty UTF-8")).

(** strings.HasPrefix(value, prefix) and value[len(prefix):]. *)
Definition has_prefix (prefix value : string) : bool :=
  bool_decide (take (String.length prefix) (string_bytes value) = string_bytes prefix).

Definition validHashedIdentity (value prefix : string) : bool :=
  if negb (has_prefix prefix value) || negb (Nat.eqb (String.length value) (String.length prefix + 52))
  then false
  else let payload := drop (String.length prefix) (string_bytes value) in
  if negb (forallb (λ c, in_range 48 57 c || in_range 97 118 c) payload) then false
  else match base32_decode (upper_byte <$> payload) with
  | None => false
  | Some decoded =>
    if negb (Nat.eqb (length decoded) sha256_size) then false
    else bool_decide (lower_byte <$> base32_encode decoded = payload)
  end.

Definition ValidDeliveryID (value : DeliveryID) : bool := validHashedIdentity value "dlv1_".
Definition ValidEventID (value : EventID) : bool := validHashedIdentity value "evt1_".

(** FilePosition identifies one half-open record range of a file generation. *)
Record FilePosition := MkFilePosition {
  fp_Generation : string;
  fp_DeviceID : Z;
  fp_Inode : Z;
  fp_StartOffset : Z;
  fp_EndOffset : Z
}.
#[export] Instance FilePosition_eq_dec : EqDecision FilePosition.
Proof. solve_decision. Defined.

Definition tag_bytes (s : string) : list Z := string_bytes s ++ [0].

Definition file_frame (sourceID : SourceID) (p : FilePosition) : list Z :=
  tag_bytes "guard.delivery.file.v1" ++ writeFramedString sourceID
  ++ writeFramedString (fp_Generation p)
  ++ writeUint64 (fp_StartOffset p) ++ writeUint64 (fp_EndOffset p).

Definition FileDeliveryID (sourceID : SourceID) (p : FilePosition) : result DeliveryID :=
  validateTextIdentifier "source id" sourceID;;
  fail_if (negb (isLowerHex128 (fp_Generation p)))
          (Errorf "file generation must be 128-bit lowercase hex");;
  fail_if (fp_EndOffset p <? fp_StartOffset p) (Errorf "file position start %d exceeds end %d");;
  Ok (hashIdentity "dlv1_" (file_frame sourceID p)).

Definition journald_frame (sourceID : SourceID) (cursor : string) : list Z :=
  tag_bytes "guard.delivery.journald.v1" ++ writeFramedString sourceID ++ writeFramedString cursor.

Definition JournaldDeliveryID (sourceID : SourceID) (cursor : string) : result DeliveryID :=
  validateTextIdentifier "source id" sourceID;;
  fail_if (bool_decide (cursor = EmptyString) || negb (ValidString cursor))
          (Errorf "journald cursor must be non-empty UTF-8");;
  Ok (hashIdentity "dlv1_" (journald_frame sourceID cursor)).

Definition event_frame (nodeID : NodeID) (deliveryID : DeliveryID) (parserID : ParserID)
    (parserVersion : ParserVersion) (emittedIndex : Z) : list Z :=
  tag_bytes "guard.security-event.v1" ++ writeFramedString nodeID
  ++ writeFramedString deliveryID ++ writeFramedString parserID
  ++ writeFramedString parserVersion ++ writeUint32 emittedIndex.

Definition SecurityEventID (nodeID : NodeID) (deliveryID : DeliveryID) (parserID : ParserID)
    (parserVersion : ParserVersion) (emittedIndex : Z) : result EventID :=
  fail_if (negb (isLowerHex128 nodeID)) (Errorf "node id must be 128-bit lowercase hex");;
  fail_if (negb (ValidDeliveryID deliveryID)) (Errorf "delivery id is not canonical");;
  validateTextIdentifier "parser id" parserID;;
  validateTextIdentifier "parser version" parserVersion;;
  Ok (hashIdentity "evt1_" (event_frame nodeID deliveryID parserID parserVersion emittedIndex)).

(** The golden vectors of the repository's identity_test.go. *)
Example file_golden :
  FileDeliveryID "source-ssh-auth"
    (MkFilePosition "0123456789abcdef0123456789abcdef" 0 0 4096 4173)
  = Ok "dlv1_oghspfuq9jlm1q5pf1c5kktm4da0e053mn4dnotbd33jjf5be300".
Proof. vm_compute. reflexivity. Qed.

Example event_golden :
  SecurityEventID "00112233445566778899aabbccddeeff"
    "dlv1_oghspfuq9jlm1q5pf1c5kktm4da0e053mn4dnotbd33jjf5be300" "parser-sshd" "v1" 0
  = Ok "evt1_5i244qf55nhq4k9idbql46fd9djlhfgk0jtge69j3bl25ssqnjo0".
Proof. vm_compute. reflexivity. Qed.

Example journald_golden :
  JournaldDeliveryID "source-journald"
    "s=0123456789abcdef;i=000000000000002a;b=feedface;m=0000000000100000;t=0000000000200000;x=bead"
  = Ok "dlv1_gg0g54nqcpa8qbe8kap3osfjq01aco7fi1kuuh9m4166id2cq37g".
Proof. vm_compute. reflexivity. Qed.

(** ** base32 round trip on a digest *)
Lemma quintet_forall (P : Z → bool) d :
  forallb P (seqZ 0 32) = true → 0 ≤ d < 32 → P d = true.
Proof.
  rewrite forallb_true_iff. intros H Hd. apply H, elem_of_seqZ. lia.
Qed.

Lemma base32_digit_char d :
  0 ≤ d < 32 → base32_digit (upper_byte (lower_byte (base32_char d))) = Some d.
Proof.
  intros Hd. rewrite <- bool_decide_true_iff.
  apply (quintet_forall
    (λ d, bool_decide (base32_digit (upper_byte (lower_byte (base32_char d))) = Some d)) d);
    [|done].
  vm_compute. reflexivity.
Qed.

Lemma base32_char_range d :
  0 ≤ d < 32 →
  in_range 48 57 (lower_byte (base32_char d)) || in_range 97 118 (lower_byte (base32_char d)) = true.
Proof.
  refine (quintet_forall
    (λ d, in_range 48 57 (lower_byte (base32_char d)) || in_range 97 118 (lower_byte (base32_char d)))
    d _).
  vm_compute. reflexivity.
Qed.

Lemma base32_decode_lower ds :
  Forall (λ d, 0 ≤ d < 32) ds →
  mapM base32_digit (upper_byte <$> (lower_byte <$> (base32_char <$> ds))) = Some ds.
Proof.
  induction 1 as [|d ds Hd _ IH]; [done|]. cbn.
  rewrite base32_digit_char by done. cbn. cbn in IH. by rewrite IH.
Qed.

Lemma base32_roundtrip l :
  Forall is_byte l → length l = sha256_size →
  base32_decode (upper_byte <$> (lower_byte <$> base32_encode l)) = Some l.
Proof.
  intros Hl Hlen. unfold base32_encode, base32_decode. rewrite Hlen.
  change (base32_chars sha256_size) with 52%nat.
  rewrite base32_decode_lower by (apply digits_range; lia).
  rewrite length_digits.
  change (Z.to_nat (5 * Z.of_nat 52 / 8)) with 32%nat.
  change (5 * Z.of_nat 52 - 8 * Z.of_nat 32) with 4.
  change (5 * Z.of_nat 52 - 8 * Z.of_nat sha256_size) with 4.
  rewrite undigits_digits by lia.
  pose proof (undigits_range 256 ltac:(lia) l Hl) as Hr. rewrite Hlen in Hr.
  change (256 ^ Z.of_nat sha256_size) with (2 ^ 256) in Hr.
  change (32 ^ Z.of_nat 52) with (2 ^ 260). unfold be_value.
  rewrite Z.mod_small, Z.div_mul by lia.
  pose proof (digits_undigits 256 ltac:(lia) l Hl) as Hd. rewrite Hlen in Hd.
  f_equal. exact Hd.
Qed.

Lemma base32_encode_chars l :
  forallb (λ c, in_range 48 57 c || in_range 97 118 c) (lower_byte <$> base32_encode l) = true.
Proof.
  apply forallb_true_iff. intros c. unfold base32_encode.
  rewrite <- list_fmap_compose. intros (d & -> & Hd)%list_elem_of_fmap.
  cbn. apply base32_char_range.
  revert d Hd. apply Forall_forall, digits_range. lia.
Qed.

Lemma length_base32_encode l :
  length l = sha256_size → length (lower_byte <$> base32_encode l) = 52%nat.
Proof.
  intros H. unfold base32_encode. rewrite !length_fmap, length_digits, H. done.
Qed.

Lemma lower_chars_bytes l : Forall is_byte (lower_byte <$> base32_encode l).
Proof.
  pose proof (base32_encode_chars l) as H. rewrite forallb_true_iff in H.
  apply Forall_forall. intros c Hc. specialize (H c Hc). unfold in_range in H.
  unfold is_byte. gobool. lia.
Qed.

(** ** Strings and their bytes *)
Lemma string_bytes_app s1 s2 : string_bytes (s1 +:+ s2) = string_bytes s1 ++ string_bytes s2.
Proof.
  unfold string_bytes. rewrite <- fmap_app. f_equal.
  induction s1 as [|a s1 IH]; [done|]. by apply (f_equal (cons a)) in IH.
Qed.

Lemma length_append s1 s2 : String.length (s1 +:+ s2) = (String.length s1 + String.length s2)%nat.
Proof. rewrite <- !length_string_bytes, string_bytes_app, length_app. done. Qed.

(** Every identity the program derives is accepted by its own validator. *)
Lemma hashIdentity_valid prefix frame :
  validHashedIdentity (hashIdentity prefix frame) prefix = true.
Proof.
  set (body := lower_byte <$> base32_encode (Sum256 frame)).
  assert (string_bytes (string_of_bytes body) = body) as Hb
    by apply string_bytes_of_bytes, lower_chars_bytes.
  assert (length body = 52%nat) as Hl by (apply length_base32_encode, length_Sum256).
  assert (String.length (string_of_bytes body) = 52%nat) as Hs
    by by rewrite <- length_string_bytes, Hb.
  unfold validHashedIdentity, has_prefix, hashIdentity. fold body.
  rewrite length_append, Hs, Nat.eqb_refl, string_bytes_app, Hb.
  rewrite <- (length_string_bytes prefix), take_app_length, drop_app_length.
  rewrite bool_decide_eq_true_2 by done. cbn [negb orb].
  unfold body at 1. rewrite base32_encode_chars. cbn [negb].
  unfold body at 1. rewrite base32_roundtrip by (apply Sum256_range || apply length_Sum256).
  rewrite length_Sum256. cbn. by rewrite bool_decide_eq_true_2.
Qed.

(** ** Framing is injective *)
Definition framed (s : string) : Prop := Z.of_nat (String.length s) < 2 ^ 32.

Lemma writeUint32_inj z1 z2 r1 r2 :
  0 ≤ z1 < 2 ^ 32 → 0 ≤ z2 < 2 ^ 32 →
  writeUint32 z1 ++ r1 = writeUint32 z2 ++ r2 → z1 = z2 ∧ r1 = r2.
Proof.
  unfold writeUint32, wrap32. intros H1 H2 Heq.
  rewrite !Z.mod_small in Heq by done.
  apply app_inj_1 in Heq as [Heq ->]; [|by rewrite !length_be_bytes].
  apply be_bytes_inj in Heq; [done|cbn; lia..].
Qed.

Lemma writeFramedString_inj s1 s2 r1 r2 :
  framed s1 → framed s2 →
  writeFramedString s1 ++ r1 = writeFramedString s2 ++ r2 → s1 = s2 ∧ r1 = r2.
Proof.
  unfold writeFramedString, framed. intros H1 H2. rewrite <- !app_assoc. intros Heq.
  apply writeUint32_inj in Heq as [Hlen Heq]; [|lia..].
  apply app_inj_1 in Heq as [Heq ->]; [|rewrite !length_string_bytes; lia].
  split; [by apply string_bytes_inj|done].
Qed.

Lemma writeUint64_inj z1 z2 r1 r2 :
  is_u64 z1 → is_u64 z2 →
  writeUint64 z1 ++ r1 = writeUint64 z2 ++ r2 → z1 = z2 ∧ r1 = r2.
Proof.
  unfold writeUint64, is_u64, max_uint64. intros H1 H2 Heq.
  apply app_inj_1 in Heq as [Heq ->]; [|by rewrite !length_be_bytes].
  apply be_bytes_inj in Heq; [done|cbn; lia..].
Qed.

Lemma lowerhex_framed s : isLowerHex128 s = true → framed s.
Proof.
  unfold isLowerHex128, framed. destruct (Nat.eqb _ _) eqn:H; [|done].
  apply Nat.eqb_eq in H. rewrite H. lia.
Qed.

Lemma FileDeliveryID_Ok src p id :
  FileDeliveryID src p = Ok id →
  isLowerHex128 (fp_Generation p) = true ∧ fp_StartOffset p ≤ fp_EndOffset p ∧
  id = hashIdentity "dlv1_" (file_frame src p).
Proof. unfold FileDeliveryID. intros H. inv_ok. gobool. auto. Qed.

Lemma JournaldDeliveryID_Ok src cursor id :
  JournaldDeliveryID src cursor = Ok id →
  id = hashIdentity "dlv1_" (journald_frame src cursor).
Proof. unfold JournaldDeliveryID. intros H. by inv_ok. Qed.

Lemma file_frame_inj src1 src2 p1 p2 :
  framed src1 → framed src2 → framed (fp_Generation p1) → framed (fp_Generation p2) →
  is_u64 (fp_StartOffset p1) → is_u64 (fp_StartOffset p2) →
  is_u64 (fp_EndOffset p1) → is_u64 (fp_EndOffset p2) →
  file_frame src1 p1 = file_frame src2 p2 →
  src1 = src2 ∧ fp_Generation p1 = fp_Generation p2 ∧
  fp_StartOffset p1 = fp_StartOffset p2 ∧ fp_EndOffset p1 = fp_EndOffset p2.
Proof.
  intros ? ? ? ? ? ? Hu1 Hu2 Heq. unfold file_frame in Heq. apply app_inv_head in Heq.
  apply writeFramedString_inj in Heq as [-> Heq]; [|done..].
  apply writeFramedString_inj in Heq as [Hg Heq]; [|done..].
  apply writeUint64_inj in Heq as [Hs Heq]; [|done..].
  apply be_bytes_inj in Heq; [auto|unfold is_u64, max_uint64 in *; cbn; lia..].
Qed.

(** The two kinds of delivery never share a frame: their tags differ. *)
Lemma file_journald_frames_differ src1 src2 p cursor :
  file_frame src1 p ≠ journald_frame src2 cursor.
Proof. unfold file_frame, journald_frame. cbn. intros Heq. discriminate Heq. Qed.

(** ** Derived identities *)
(** Every identity the program derives passes the program's own check of
    its form: a file or journald delivery id is a canonical delivery id and a
    security event id is a canonical event id, so the hash, the base32 text and
    its strict decoding agree. *)
Theorem derived_identities_valid :
  (∀ src p id, FileDeliveryID src p = Ok id → ValidDeliveryID id = true) ∧
  (∀ src cursor id, JournaldDeliveryID src cursor = Ok id → ValidDeliveryID id = true) ∧
  (∀ node delivery parser version index id,
     SecurityEventID node delivery parser version index = Ok id →
     ValidDeliveryID delivery = true ∧ ValidEventID id = true).
Proof.
  split_and!.
  - intros src p id (_ & _ & ->)%FileDeliveryID_Ok. apply hashIdentity_valid.
  - intros src cursor id ->%JournaldDeliveryID_Ok. apply hashIdentity_valid.
  - intros node delivery parser version index id H. unfold SecurityEventID in H. inv_ok. gobool.
    split; [done|apply hashIdentity_valid].
Qed.

(** Two file deliveries are hashed from the same bytes exactly when they
    have the same source, generation and byte range, and a file delivery is
    never hashed from the bytes of a journald one: the length framing and the
    kind tag lose nothing. *)
Theorem file_delivery_frames_faithful src1 src2 p1 p2 id1 id2 cursor src3 :
  FileDeliveryID src1 p1 = Ok id1 → FileDeliveryID src2 p2 = Ok id2 →
  framed src1 → framed src2 →
  is_u64 (fp_StartOffset p1) → is_u64 (fp_EndOffset p1) →
  is_u64 (fp_StartOffset p2) → is_u64 (fp_EndOffset p2) →
  (file_frame src1 p1 = file_frame src2 p2 ↔
     src1 = src2 ∧ fp_Generation p1 = fp_Generation p2 ∧
     fp_StartOffset p1 = fp_StartOffset p2 ∧ fp_EndOffset p1 = fp_EndOffset p2) ∧
  file_frame src1 p1 ≠ journald_frame src3 cursor.
Proof.
  intros (Hg1 & _ & _)%FileDeliveryID_Ok (Hg2 & _ & _)%FileDeliveryID_Ok ? ? ? ? ? ?. split.
  - split; [by apply file_frame_inj; auto using lowerhex_framed|].
    intros (-> & Hg & Hs & He). unfold file_frame. by rewrite Hg, Hs, He.
  - apply file_journald_frames_differ.
Qed.

Definition sample_position (start stop : Z) : FilePosition :=
  MkFilePosition "0123456789abcdef0123456789abcdef" 1 2 start stop.

Lemma derived_identities_valid_witness :
  ∃ id, FileDeliveryID "ssh" (sample_position 0 10) = Ok id ∧ ValidDeliveryID id = true.
Proof.
  destruct (FileDeliveryID "ssh" (sample_position 0 10)) as [id|e] eqn:E;
    [|vm_compute in E; discriminate E].
  exists id. split; [reflexivity|]. exact (proj1 derived_identities_valid _ _ _ E).
Defined.

Lemma file_delivery_frames_faithful_witness :
  file_frame "ssh" (sample_position 0 10) ≠ file_frame "ssh" (sample_position 0 11).
Proof.
  intros H.
  destruct (FileDeliveryID "ssh" (sample_position 0 10)) as [id1|] eqn:E1; [|vm_compute in E1; discriminate E1].
  destruct (FileDeliveryID "ssh" (sample_position 0 11)) as [id2|] eqn:E2; [|vm_compute in E2; discriminate E2].
  apply (file_delivery_frames_faithful "ssh" "ssh" (sample_position 0 10) (sample_position 0 11)
           id1 id2 EmptyString EmptyString E1 E2) in H as (_ & _ & _ & H); [discriminate H|..];
    vm_compute; first [reflexivity | split; discriminate].
Defined.
