(* ===== verification/CoreModel.v ===== *)
(** * Shared values (internal/core/model.go)

    The strongly typed records of the program and their Validate methods. An
    enumeration of the source is a uint8, so its inductive type has the named
    constants and one constructor for every other value. A pointer to an
    immutable value is an option; a slice whose nil-ness is observed is an
    option of a list. *)

From S2P Require Import Prelude GoStd Sha256 Netip Identity.

(** ** Positions and deliveries *)
Inductive SourcePosition :=
  | PositionZero
  | PositionFile (file : FilePosition)
  | PositionJournald (cursor : string).
#[export] Instance SourcePosition_eq_dec : EqDecision SourcePosition.
Proof. solve_decision. Defined.

Definition NewFilePosition (position : FilePosition) : result SourcePosition :=
  fail_if (negb (isLowerHex128 (fp_Generation position)))
          (Errorf "file generation must be 128-bit lowercase hex");;
  fail_if (fp_EndOffset position <? fp_StartOffset position)
          (Errorf "file position start %d exceeds end %d");;
  Ok (PositionFile position).

Definition NewJournaldPosition (cursor : string) : result SourcePosition :=
  validateTextIdentifier "journald cursor" cursor;; Ok (PositionJournald cursor).

Definition SourcePosition_File (p : SourcePosition) : option FilePosition :=
  match p with PositionFile f => Some f | _ => None end.
Definition SourcePosition_Journald (p : SourcePosition) : option string :=
  match p with PositionJournald c => Some c | _ => None end.

Definition SourcePosition_Valid (p : SourcePosition) : bool :=
  match p with
  | PositionFile f => isLowerHex128 (fp_Generation f) && (fp_StartOffset f <=? fp_EndOffset f)
  | PositionJournald c => is_ok (validateTextIdentifier "journald cursor" c)
  | PositionZero => false
  end.

Definition deliveryIDForPosition (sourceID : SourceID) (position : SourcePosition)
    : result DeliveryID :=
  match SourcePosition_File position with
  | Some file => FileDeliveryID sourceID file
  | None =>
    match SourcePosition_Journald position with
    | Some cursor => JournaldDeliveryID sourceID cursor
    | None => Err (Errorf "unsupported source position")
    end
  end.

Record RawRecord := MkRawRecord {
  rr_SourceID : SourceID;
  rr_ObservedAt : time;
  rr_Position : SourcePosition;
  rr_Content : list Z;
  rr_Metadata : gmap string string
}.

Record Delivery := MkDelivery {
  dl_ID : DeliveryID;
  dl_Sequence : Z;
  dl_Record : RawRecord
}.

Definition Delivery_Validate (d : Delivery) : result unit :=
  fail_if (negb (ValidDeliveryID (dl_ID d))) (Errorf "delivery id is not canonical");;
  fail_if (dl_Sequence d =? 0) (Errorf "delivery sequence must be positive");;
  validateTextIdentifier "source id" (rr_SourceID (dl_Record d));;
  fail_if (IsZero (rr_ObservedAt (dl_Record d))) (Errorf "record observed time is required");;
  fail_if (negb (SourcePosition_Valid (rr_Position (dl_Record d))))
          (Errorf "record source position is invalid");;
  expected ← wrap "derive delivery id"
               (deliveryIDForPosition (rr_SourceID (dl_Record d)) (rr_Position (dl_Record d)));
  fail_if (negb (bool_decide (dl_ID d = expected)))
          (Errorf "delivery id does not bind source and position").

Record DurableCompletion := MkDurableCompletion {
  dc_SourceID : SourceID;
  dc_DeliveryID : DeliveryID;
  dc_Sequence : Z;
  dc_Position : SourcePosition
}.

(** ** Receipts and processing outcomes *)
Inductive ReceiptKind := ReceiptSuccess | ReceiptRecordPermanent | ReceiptKindOther (n : Z).
Inductive FailureClass :=
  | FailureRecordPermanent | FailurePlanBlocked | FailureTransient | FailureCancelled
  | FailureClassOther (n : Z).

Record PermanentFailure := MkPermanentFailure {
  pf_Stage : string;
  pf_Code : string;
  pf_SanitizedError : string;
  pf_Action : string;
  pf_OccurredAt : time
}.

Record ProcessingReceipt := MkProcessingReceipt {
  pr_DeliveryID : DeliveryID;
  pr_SourceID : SourceID;
  pr_Position : SourcePosition;
  pr_Kind : ReceiptKind;
  pr_Failure : option PermanentFailure;
  pr_Committed : time
}.

Definition is_empty (s : string) : bool := bool_decide (s = EmptyString).

Definition ProcessingReceipt_Validate (r : ProcessingReceipt) : result unit :=
  fail_if (negb (ValidDeliveryID (pr_DeliveryID r))) (Errorf "receipt delivery id is not canonical");;
  validateTextIdentifier "receipt source id" (pr_SourceID r);;
  fail_if (negb (SourcePosition_Valid (pr_Position r)) || IsZero (pr_Committed r))
          (Errorf "receipt position and committed time are required");;
  expected ← wrap "derive receipt delivery id"
               (deliveryIDForPosition (pr_SourceID r) (pr_Position r));
  fail_if (negb (bool_decide (pr_DeliveryID r = expected)))
          (Errorf "receipt delivery id does not bind source and position");;
  match pr_Kind r with
  | ReceiptSuccess =>
    match pr_Failure r with
    | Some _ => Err (Errorf "success receipt cannot contain a permanent failure")
    | None => Ok tt
    end
  | ReceiptRecordPermanent =>
    match pr_Failure r with
    | None => Err (Errorf "permanent receipt requires failure details")
    | Some f =>
      fail_if (is_empty (pf_Stage f) || is_empty (pf_Code f) || is_empty (pf_SanitizedError f)
               || is_empty (pf_Action f) || IsZero (pf_OccurredAt f))
              (Errorf "permanent failure is incomplete")
    end
  | ReceiptKindOther _ => Err (Errorf "unsupported receipt kind %d")
  end.

Inductive ParserOutcomeKind :=
  | ParserOutcomeSuccess | ParserOutcomeNoMatch | ParserOutcomeRecordPermanent
  | ParserOutcomeKindOther (n : Z).

Record ParserTerminalOutcome := MkParserTerminalOutcome {
  po_DeliveryID : DeliveryID;
  po_ParserID : ParserID;
  po_ParserVersion : ParserVersion;
  po_Kind : ParserOutcomeKind;
  po_EmittedCount : Z;
  po_FailureCode : string;
  po_CompletedAt : time
}.

Definition ParserTerminalOutcome_Validate (o : ParserTerminalOutcome) : result unit :=
  fail_if (negb (ValidDeliveryID (po_DeliveryID o)))
          (Errorf "parser outcome delivery id is not canonical");;
  validateTextIdentifier "parser id" (po_ParserID o);;
  validateTextIdentifier "parser version" (po_ParserVersion o);;
  fail_if (IsZero (po_CompletedAt o)) (Errorf "parser outcome completed time is required");;
  match po_Kind o with
  | ParserOutcomeSuccess =>
    fail_if ((po_EmittedCount o =? 0) || negb (is_empty (po_FailureCode o)))
            (Errorf "successful parser outcome requires emitted events and no failure")
  | ParserOutcomeNoMatch =>
    fail_if (negb (po_EmittedCount o =? 0) || negb (is_empty (po_FailureCode o)))
            (Errorf "no-match parser outcome cannot contain events or failure")
  | ParserOutcomeRecordPermanent =>
    fail_if (negb (po_EmittedCount o =? 0) || is_empty (po_FailureCode o))
            (Errorf "permanent parser outcome requires failure code and no events")
  | ParserOutcomeKindOther _ => Err (Errorf "unsupported parser outcome kind %d")
  end.

Record DetectionContribution := MkDetectionContribution {
  dk_DeliveryID : DeliveryID;
  dk_EventID : EventID;
  dk_RuleID : RuleID;
  dk_RuleVersion : RuleVersion;
  dk_ContributedAt : time
}.

Definition DetectionContribution_Validate (c : DetectionContribution) : result unit :=
  fail_if (negb (ValidDeliveryID (dk_DeliveryID c)))
          (Errorf "detection contribution delivery id is not canonical");;
  fail_if (negb (ValidEventID (dk_EventID c)))
          (Errorf "detection contribution event id is not canonical");;
  validateTextIdentifier "rule id" (dk_RuleID c);;
  validateTextIdentifier "rule version" (dk_RuleVersion c);;
  fail_if (IsZero (dk_ContributedAt c)) (Errorf "detection contribution time is required").

Inductive DetectionOutcomeKind :=
  | DetectionOutcomeSuccess | DetectionOutcomeRecordPermanent | DetectionOutcomeKindOther (n : Z).

Record DetectionTerminalOutcome := MkDetectionTerminalOutcome {
  do_DeliveryID : DeliveryID;
  do_EventID : EventID;
  do_RuleID : RuleID;
  do_RuleVersion : RuleVersion;
  do_Kind : DetectionOutcomeKind;
  do_FailureCode : string;
  do_CompletedAt : time
}.

Definition DetectionTerminalOutcome_Validate (o : DetectionTerminalOutcome) : result unit :=
  fail_if (negb (ValidDeliveryID (do_DeliveryID o)))
          (Errorf "detection outcome delivery id is not canonical");;
  fail_if (negb (ValidEventID (do_EventID o))) (Errorf "detection outcome event id is not canonical");;
  validateTextIdentifier "rule id" (do_RuleID o);;
  validateTextIdentifier "rule version" (do_RuleVersion o);;
  fail_if (IsZero (do_CompletedAt o)) (Errorf "detection outcome completed time is required");;
  match do_Kind o with
  | DetectionOutcomeSuccess =>
    fail_if (negb (is_empty (do_FailureCode o)))
            (Errorf "successful detection outcome cannot contain a failure")
  | DetectionOutcomeRecordPermanent =>
    wrap "permanent detection outcome requires failure code"
      (validateTextIdentifier "detection failure code" (do_FailureCode o));;
    fail_if (128 <? Z.of_nat (String.length (do_FailureCode o)))
            (Errorf "detection failure code exceeds 128 bytes")
  | DetectionOutcomeKindOther _ => Err (Errorf "unsupported detection outcome kind %d")
  end.

Record Alert := MkAlert {
  al_ID : AlertID;
  al_NodeID : NodeID;
  al_EventID : EventID;
  al_RuleID : RuleID;
  al_RuleVersion : RuleVersion;
  al_CanonicalTarget : Prefix;
  al_ObservedAt : time;
  al_CreatedAt : time
}.

Definition Alert_Validate (a : Alert) : result unit :=
  validateTextIdentifier "alert id" (al_ID a);;
  fail_if (negb (isLowerHex128 (al_NodeID a))) (Errorf "alert node id must be 128-bit lowercase hex");;
  fail_if (negb (ValidEventID (al_EventID a))) (Errorf "alert event id is not canonical");;
  validateTextIdentifier "rule id" (al_RuleID a);;
  validateTextIdentifier "rule version" (al_RuleVersion a);;
  fail_if (not_canonical (al_CanonicalTarget a)) (Errorf "alert target must be a canonical prefix");;
  fail_if (IsZero (al_ObservedAt a) || Before (al_CreatedAt a) (al_ObservedAt a))
          (Errorf "alert timestamps are invalid").

(** ** Decisions *)
Inductive DecisionSource :=
  | DecisionSourceAutomatic | DecisionSourceManual | DecisionSourceOther (n : Z).
Inductive DecisionState :=
  | DecisionActive | DecisionExpired | DecisionRevoked | DecisionStateOther (n : Z).
#[export] Instance DecisionSource_eq_dec : EqDecision DecisionSource.
Proof. solve_decision. Defined.
#[export] Instance DecisionState_eq_dec : EqDecision DecisionState.
Proof. solve_decision. Defined.

(** DecisionEndReason is a string type in the source. *)
Abbreviation DecisionEndReason := string (only parsing).
Definition EndReasonExpired : DecisionEndReason := "expired".
Definition EndReasonManual : DecisionEndReason := "manual".
Definition EndReasonManualReplace : DecisionEndReason := "manual_replace".
Definition EndReasonRuleDisabled : DecisionEndReason := "rule_disabled".
Definition EndReasonSystemCleanup : DecisionEndReason := "system_cleanup".

Record Decision := MkDecision {
  d_ID : DecisionID;
  d_NodeID : NodeID;
  d_Source : DecisionSource;
  d_RuleID : option RuleID;
  d_RuleVersion : option RuleVersion;
  d_AlertID : option AlertID;
  d_CanonicalTarget : Prefix;
  d_CreatedAt : time;
  d_UpdatedAt : time;
  d_LastTriggeredAt : time;
  d_ExpiresAt : option time;
  d_EndedAt : option time;
  d_State : DecisionState;
  d_EndReason : option DecisionEndReason;
  d_SuppressedCount : Z
}.
#[export] Instance Decision_eq_dec : EqDecision Decision.
Proof. solve_decision. Defined.

Definition Decision_Validate (d : Decision) : result unit :=
  validateTextIdentifier "decision id" (d_ID d);;
  fail_if (negb (isLowerHex128 (d_NodeID d))) (Errorf "node id must be 128-bit lowercase hex");;
  fail_if (not_canonical (d_CanonicalTarget d)) (Errorf "decision target must be a canonical prefix");;
  (if bool_decide (d_Source d = DecisionSourceAutomatic) then
     fail_if (match d_RuleID d with
              | None => true
              | Some r => negb (is_ok (validateTextIdentifier "rule id" r))
              end) (Errorf "automatic decision requires a valid rule id")
   else Ok tt);;
  fail_if (negb (bool_decide (d_Source d = DecisionSourceAutomatic))
           && negb (bool_decide (d_Source d = DecisionSourceManual)))
          (Errorf "unsupported decision source %d");;
  fail_if (IsZero (d_CreatedAt d) || Before (d_UpdatedAt d) (d_CreatedAt d)
           || Before (d_LastTriggeredAt d) (d_CreatedAt d))
          (Errorf "decision timestamps are invalid");;
  fail_if (match d_ExpiresAt d with Some e => Before e (d_CreatedAt d) | None => false end)
          (Errorf "decision expiry precedes creation");;
  if bool_decide (d_State d = DecisionActive) then
    fail_if (negb (bool_decide (d_EndReason d = None)) || negb (bool_decide (d_EndedAt d = None)))
            (Errorf "active decision cannot have terminal fields")
  else match d_EndReason d, d_EndedAt d with
  | Some reason, Some ended =>
    fail_if (Before ended (d_CreatedAt d)) (Errorf "decision end precedes creation");;
    if bool_decide (d_State d = DecisionExpired) && bool_decide (reason = EndReasonExpired) then
      match d_ExpiresAt d with
      | None => Err (Errorf "expired decision requires an expiry")
      | Some e => fail_if (Before ended e) (Errorf "decision ended before its expiry")
      end
    else
      fail_if (negb (bool_decide (d_State d = DecisionRevoked)))
              (Errorf "unsupported decision state %d");;
      if bool_decide (reason = EndReasonManual) || bool_decide (reason = EndReasonSystemCleanup)
      then Ok tt
      else if bool_decide (reason = EndReasonManualReplace) then
        fail_if (negb (bool_decide (d_Source d = DecisionSourceManual)))
                (Errorf "manual_replace is only valid for manual decisions")
      else if bool_decide (reason = EndReasonRuleDisabled) then
        fail_if (negb (bool_decide (d_Source d = DecisionSourceAutomatic)))
                (Errorf "rule_disabled is only valid for automatic decisions")
      else Err (Errorf "invalid revoked decision end reason %q")
  | _, _ => Err (Errorf "terminal decision requires end reason and ended time")
  end.

(** ** Desired ban projection *)
Inductive BanProjectionState :=
  | BanProjectionAbsent | BanProjectionPresent | BanProjectionStateOther (n : Z).
#[export] Instance BanProjectionState_eq_dec : EqDecision BanProjectionState.
Proof. solve_decision. Defined.

Record DesiredBanProjection := MkProjection {
  bp_NodeID : NodeID;
  bp_CanonicalTarget : Prefix;
  bp_State : BanProjectionState;
  bp_ActiveCount : Z;
  bp_EffectiveUntil : option time;
  bp_Revision : Z
}.
#[export] Instance DesiredBanProjection_eq_dec : EqDecision DesiredBanProjection.
Proof. solve_decision. Defined.

Definition opt_time_is_zero (t : option time) : bool :=
  match t with Some e => IsZero e | None => false end.
Definition is_nil {A} (o : option A) : bool := match o with None => true | Some _ => false end.

Definition Projection_Validate (p : DesiredBanProjection) : result unit :=
  fail_if (negb (isLowerHex128 (bp_NodeID p))) (Errorf "projection node id must be 128-bit lowercase hex");;
  fail_if (not_canonical (bp_CanonicalTarget p)) (Errorf "projection target must be canonical");;
  fail_if (bp_Revision p =? 0) (Errorf "projection revision must be positive");;
  match bp_State p with
  | BanProjectionAbsent =>
    fail_if (negb (bp_ActiveCount p =? 0) || negb (is_nil (bp_EffectiveUntil p)))
            (Errorf "absent projection cannot contain active decisions or expiry")
  | BanProjectionPresent =>
    fail_if (bp_ActiveCount p =? 0) (Errorf "present projection requires an active decision");;
    fail_if (opt_time_is_zero (bp_EffectiveUntil p))
            (Errorf "projection effective expiry is invalid")
  | BanProjectionStateOther _ => Err (Errorf "unsupported projection state %d")
  end.

(** ** Normalized enforcement intent *)
Inductive BanMembership := BanAbsent | BanPresent | BanMembershipOther (n : Z).
Inductive TimeoutMode := TimeoutNone | TimeoutNative | TimeoutModeOther (n : Z).
Inductive PolicyCoverage :=
  | PolicyCoverageNone | PolicyCoveragePartial | PolicyCoverageFull | PolicyCoverageOther (n : Z).
(** The zero AddressFamily is no constant of the source. *)
Inductive AddressFamily := AddressFamilyIPv4 | AddressFamilyIPv6 | AddressFamilyOther (n : Z).
#[export] Instance BanMembership_eq_dec : EqDecision BanMembership.
Proof. solve_decision. Defined.
#[export] Instance TimeoutMode_eq_dec : EqDecision TimeoutMode.
Proof. solve_decision. Defined.
#[export] Instance PolicyCoverage_eq_dec : EqDecision PolicyCoverage.
Proof. solve_decision. Defined.
#[export] Instance AddressFamily_eq_dec : EqDecision AddressFamily.
Proof. solve_decision. Defined.

(** EnforcementScope is a uint8 bit set. *)
Definition ScopeInput : Z := 1.
Definition ScopeForward : Z := 2.
(** [s == 0 || s&^(ScopeInput|ScopeForward) != 0] *)
Definition bad_scopes (s : Z) : bool :=
  (s =? 0) || negb (Z.ldiff s (Z.lor ScopeInput ScopeForward) =? 0).

Record NormalizedTargetEnforcementIntent := MkIntent {
  ti_NodeID : NodeID;
  ti_CanonicalTarget : Prefix;
  ti_BanMembership : BanMembership;
  ti_EffectiveUntil : option time;
  ti_TimeoutMode : TimeoutMode;
  ti_Scopes : Z;
  ti_AddressFamily : AddressFamily;
  ti_PolicyCoverage : PolicyCoverage;
  ti_PolicyRelationDigest : string;
  ti_BackendAttributesDigest : string;
  ti_Generation : Z
}.
#[export] Instance Intent_eq_dec : EqDecision NormalizedTargetEnforcementIntent.
Proof. solve_decision. Defined.

Definition family_of (p : Prefix) : AddressFamily :=
  if Is4 (prefix_ip p) then AddressFamilyIPv4 else AddressFamilyIPv6.

Definition Intent_Validate (i : NormalizedTargetEnforcementIntent) : result unit :=
  fail_if (negb (isLowerHex128 (ti_NodeID i))) (Errorf "intent node id must be 128-bit lowercase hex");;
  fail_if (not_canonical (ti_CanonicalTarget i)) (Errorf "intent target must be canonical");;
  fail_if (ti_Generation i =? 0) (Errorf "intent generation must be positive");;
  fail_if (match ti_BanMembership i with BanMembershipOther _ => true | _ => false end)
          (Errorf "unsupported ban membership %d");;
  fail_if (match ti_TimeoutMode i with TimeoutModeOther _ => true | _ => false end)
          (Errorf "unsupported timeout mode %d");;
  fail_if (match ti_PolicyCoverage i with PolicyCoverageOther _ => true | _ => false end)
          (Errorf "unsupported policy coverage %d");;
  fail_if (bad_scopes (ti_Scopes i)) (Errorf "unsupported enforcement scope %d");;
  fail_if (negb (bool_decide (ti_AddressFamily i = family_of (ti_CanonicalTarget i))))
          (Errorf "intent address family does not match target");;
  fail_if (bool_decide (ti_BanMembership i = BanAbsent)
           && (negb (is_nil (ti_EffectiveUntil i)) || negb (bool_decide (ti_TimeoutMode i = TimeoutNone))))
          (Errorf "absent intent cannot contain timeout attributes");;
  fail_if (bool_decide (ti_TimeoutMode i = TimeoutNative) && is_nil (ti_EffectiveUntil i))
          (Errorf "native timeout requires an effective expiry");;
  fail_if (opt_time_is_zero (ti_EffectiveUntil i)) (Errorf "intent effective expiry is invalid").

(** ** Managed infrastructure and policy *)
Record ManagedInfrastructureIntent := MkInfrastructure {
  mi_Backend : string;
  mi_OwnerVersion : string;
  mi_Digest : string
}.
#[export] Instance ManagedInfrastructureIntent_eq_dec : EqDecision ManagedInfrastructureIntent.
Proof. solve_decision. Defined.

Record ManagedPolicyIntent := MkPolicy {
  mp_RelationDigest : string;
  mp_Allowlist : option (list Prefix);
  mp_ProtectedTargets : option (list Prefix)
}.
#[export] Instance ManagedPolicyIntent_eq_dec : EqDecision ManagedPolicyIntent.
Proof. solve_decision. Defined.

(** The elements of a possibly nil slice, and [append([]T(nil), s...)], which
    is nil for an empty [s]. *)
Definition elems {A} (s : option (list A)) : list A := match s with Some l => l | None => [] end.
Definition clone_slice {A} (s : option (list A)) : option (list A) :=
  match elems s with [] => None | l => Some l end.

Definition maxManagedPolicyPrefixes : Z := 1024.

Fixpoint adjacent_duplicate (l : list Prefix) : bool :=
  match l with
  | a :: (b :: _) as r => bool_decide (a = b) || adjacent_duplicate r
  | _ => false
  end.

Definition canonicalPolicyPrefixes (name : string) (prefixes : option (list Prefix))
    : result (option (list Prefix)) :=
  match prefixes with
  | None => Ok None
  | Some l =>
    fail_if (existsb not_canonical l)
            (Errorf ("managed policy " +:+ name +:+ " contains a non-canonical prefix"));;
    let prepared := sort_by Prefix_String l in
    fail_if (adjacent_duplicate prepared)
            (Errorf ("managed policy " +:+ name +:+ " contains a duplicate prefix"));;
    Ok (clone_slice (Some prepared))
  end.

Definition containsPolicyPrefix (prefixes : list Prefix) (want : Prefix) : bool :=
  existsb (λ p, bool_decide (p = want)) prefixes.

Definition equalPolicyPrefixes (left right : list Prefix) : bool := bool_decide (left = right).

Definition policy_parts (name : string) (prefixes : list Prefix) : list string :=
  (λ p, name +:+ "_" +:+ (if Is4 (prefix_ip p) then "v4" else "v6") +:+ ":" +:+ Prefix_String p)
    <$> prefixes.

Definition newline : string := string_of_bytes [10].

Definition managedPolicyRelationDigest (allowlist protectedTargets : list Prefix) : string :=
  let parts := sort_strings (policy_parts "allow" allowlist ++ policy_parts "protected" protectedTargets) in
  hex_encode (Sum256 (string_bytes
    ("guard-nftables-policy/v1" +:+ newline +:+ strings_Join newline parts))).

Definition loopback4 : Prefix := PrefixFrom (ip4 127 0 0 0) 8.
Definition loopback6 : Prefix := PrefixFrom (ip6 1) 128.

Definition NewManagedPolicyIntent (allowlist protectedTargets : option (list Prefix))
    : result ManagedPolicyIntent :=
  preparedAllowlist ← canonicalPolicyPrefixes "allowlist" allowlist;
  preparedProtected ← canonicalPolicyPrefixes "protected targets" protectedTargets;
  let allow := elems preparedAllowlist in
  let protected := elems preparedProtected in
  fail_if (maxManagedPolicyPrefixes <? Z.of_nat (length allow + length protected))
          (Errorf "managed policy contains too many prefixes");;
  fail_if ((Z.of_nat (length protected) <? 2) || negb (containsPolicyPrefix protected loopback4)
           || negb (containsPolicyPrefix protected loopback6))
          (Errorf "managed policy is missing mandatory protected targets");;
  Ok (MkPolicy (managedPolicyRelationDigest allow protected) preparedAllowlist preparedProtected).

Definition Policy_Complete (i : ManagedPolicyIntent) : bool :=
  negb (is_empty (mp_RelationDigest i)) && negb (is_nil (mp_ProtectedTargets i)).

Definition Policy_ValidateComplete (i : ManagedPolicyIntent) : result unit :=
  fail_if (negb (Policy_Complete i)) (Errorf "managed policy payload is incomplete");;
  value ← NewManagedPolicyIntent (mp_Allowlist i) (mp_ProtectedTargets i);
  fail_if (negb (bool_decide (mp_RelationDigest i = mp_RelationDigest value)))
          (Errorf "managed policy relation digest does not bind its payload");;
  fail_if (negb (equalPolicyPrefixes (elems (mp_Allowlist i)) (elems (mp_Allowlist value)))
           || negb (equalPolicyPrefixes (elems (mp_ProtectedTargets i)) (elems (mp_ProtectedTargets value))))
          (Errorf "managed policy prefixes are not canonical").

(** ** Desired firewall snapshot *)
Record DesiredFirewallState := MkDesiredState {
  ds_SnapshotRevision : Z;
  ds_PolicyRevision : Z;
  ds_Policy : ManagedPolicyIntent;
  ds_Targets : list NormalizedTargetEnforcementIntent
}.

Record DesiredFirewallSnapshot := MkDesired {
  fs_SnapshotRevision : Z;
  fs_InfrastructureRevision : Z;
  fs_PolicyRevision : Z;
  fs_Infrastructure : ManagedInfrastructureIntent;
  fs_Policy : ManagedPolicyIntent;
  fs_Targets : list NormalizedTargetEnforcementIntent
}.

(** The loop over Targets: each intent is validated before the duplicate test. *)
Fixpoint validate_targets (seen : gset Prefix) (targets : list NormalizedTargetEnforcementIntent)
    : result unit :=
  match targets with
  | [] => Ok tt
  | intent :: rest =>
    wrap "validate desired target" (Intent_Validate intent);;
    fail_if (bool_decide (ti_CanonicalTarget intent ∈ seen)) (Errorf "duplicate desired target %s");;
    validate_targets ({[ti_CanonicalTarget intent]} ∪ seen) rest
  end.

Definition Snapshot_Validate (s : DesiredFirewallSnapshot) : result unit :=
  fail_if ((fs_SnapshotRevision s =? 0) || (fs_InfrastructureRevision s =? 0)
           || (fs_PolicyRevision s =? 0))
          (Errorf "desired firewall revisions must be positive");;
  fail_if (is_empty (mi_Backend (fs_Infrastructure s)) || is_empty (mi_OwnerVersion (fs_Infrastructure s))
           || is_empty (mi_Digest (fs_Infrastructure s)))
          (Errorf "desired infrastructure intent is incomplete");;
  fail_if (is_empty (mp_RelationDigest (fs_Policy s)))
          (Errorf "desired policy relation digest is required");;
  (if negb (is_nil (mp_Allowlist (fs_Policy s))) || negb (is_nil (mp_ProtectedTargets (fs_Policy s)))
   then wrap "desired policy payload" (Policy_ValidateComplete (fs_Policy s))
   else Ok tt);;
  validate_targets ∅ (fs_Targets s).

Definition NewDesiredFirewallSnapshot (snapshot : DesiredFirewallSnapshot)
    : result DesiredFirewallSnapshot :=
  Snapshot_Validate snapshot;;
  Ok (MkDesired (fs_SnapshotRevision snapshot) (fs_InfrastructureRevision snapshot)
        (fs_PolicyRevision snapshot) (fs_Infrastructure snapshot)
        (MkPolicy (mp_RelationDigest (fs_Policy snapshot))
                  (clone_slice (mp_Allowlist (fs_Policy snapshot)))
                  (clone_slice (mp_ProtectedTargets (fs_Policy snapshot))))
        (sort_by (λ i, Prefix_String (ti_CanonicalTarget i)) (fs_Targets snapshot))).

(** ** Physical observation and retry ledger types *)
Inductive ObservedMembership :=
  | ObservedMembershipUnknown | ObservedMembershipAbsent | ObservedMembershipPresent
  | ObservedMembershipOther (n : Z).
Inductive ObservedPolicyCoverage :=
  | ObservedPolicyUnknown | ObservedPolicyNone | ObservedPolicyPartial | ObservedPolicyFull
  | ObservedPolicyOther (n : Z).
Inductive TargetObservationEvidence :=
  | TargetObservationEvidenceComplete | TargetObservationEvidenceManagedSnapshot
  | TargetObservationEvidenceOther (n : Z).
#[export] Instance ObservedMembership_eq_dec : EqDecision ObservedMembership.
Proof. solve_decision. Defined.
#[export] Instance ObservedPolicyCoverage_eq_dec : EqDecision ObservedPolicyCoverage.
Proof. solve_decision. Defined.
#[export] Instance TargetObservationEvidence_eq_dec : EqDecision TargetObservationEvidence.
Proof. solve_decision. Defined.

Record PhysicalTargetObserved := MkPhysicalTarget {
  pt_CanonicalTarget : Prefix;
  pt_ObservedAt : time;
  pt_Evidence : TargetObservationEvidence;
  pt_Backend : string;
  pt_BanMembership : ObservedMembership;
  pt_PolicyCoverage : ObservedPolicyCoverage;
  pt_PolicyRelationDigest : string;
  pt_TimeoutMode : TimeoutMode;
  pt_NativeExpiry : option time;
  pt_Scopes : Z;
  pt_AddressFamily : AddressFamily;
  pt_OwnerVersion : string;
  pt_LastErrorCode : string
}.

Inductive ReconcileStatus :=
  | ReconcilePending | ReconcileApplying | ReconcileConverged | ReconcileRetryWaiting
  | ReconcileDegraded | ReconcileStatusOther (n : Z).
#[export] Instance ReconcileStatus_eq_dec : EqDecision ReconcileStatus.
Proof. solve_decision. Defined.

Record InfrastructureRetryKey := MkInfraKey { ik_Revision : Z; ik_Epoch : Z }.
Record PolicyRetryKey := MkPolicyKey { pk_Revision : Z; pk_Epoch : Z }.
Record TargetRetryKey := MkTargetKey { tk_Target : Prefix; tk_Generation : Z; tk_Epoch : Z }.
#[export] Instance InfrastructureRetryKey_eq_dec : EqDecision InfrastructureRetryKey.
Proof. solve_decision. Defined.
#[export] Instance PolicyRetryKey_eq_dec : EqDecision PolicyRetryKey.
Proof. solve_decision. Defined.
#[export] Instance TargetRetryKey_eq_dec : EqDecision TargetRetryKey.
Proof. solve_decision. Defined.
#[export] Instance InfrastructureRetryKey_countable : Countable InfrastructureRetryKey.
Proof.
  refine (inj_countable' (λ k, (ik_Revision k, ik_Epoch k)) (λ t, MkInfraKey t.1 t.2) _).
  by intros [].
Defined.
#[export] Instance PolicyRetryKey_countable : Countable PolicyRetryKey.
Proof.
  refine (inj_countable' (λ k, (pk_Revision k, pk_Epoch k)) (λ t, MkPolicyKey t.1 t.2) _).
  by intros [].
Defined.
#[export] Instance TargetRetryKey_countable : Countable TargetRetryKey.
Proof.
  refine (inj_countable' (λ k, (tk_Target k, tk_Generation k, tk_Epoch k))
            (λ t, MkTargetKey t.1.1 t.1.2 t.2) _).
  by intros [].
Defined.

Record RetryState := MkRetryState {
  rs_Status : ReconcileStatus;
  rs_AttemptCount : Z;
  rs_LastAttemptAt : option time;
  rs_NextAttemptAt : option time;
  rs_LastErrorCode : string
}.
#[export] Instance RetryState_eq_dec : EqDecision RetryState.
Proof. solve_decision. Defined.

(** ** What a validated decision looks like *)
Definition text_id (s : string) : Prop := s ≠ EmptyString ∧ ValidString s = true.

Lemma validateTextIdentifier_Ok kind v u : validateTextIdentifier kind v = Ok u ↔ text_id v.
Proof. unfold validateTextIdentifier, text_id. rewrite fail_if_Ok. gobool. tauto. Qed.

Record decision_common (d : Decision) : Prop := {
  dco_id : text_id (d_ID d);
  dco_node : isLowerHex128 (d_NodeID d) = true;
  dco_target : canonical (d_CanonicalTarget d);
  dco_source : d_Source d = DecisionSourceManual ∨
    (d_Source d = DecisionSourceAutomatic ∧ ∃ r, d_RuleID d = Some r ∧ text_id r);
  dco_created : d_CreatedAt d ≠ 0;
  dco_updated : d_CreatedAt d ≤ d_UpdatedAt d;
  dco_triggered : d_CreatedAt d ≤ d_LastTriggeredAt d;
  dco_expiry : ∀ e, d_ExpiresAt d = Some e → d_CreatedAt d ≤ e
}.

(** The three lifecycle forms of the Decision contract. *)
Inductive lifecycle_form (d : Decision) : Prop :=
  | form_active : d_State d = DecisionActive → d_EndReason d = None → d_EndedAt d = None →
      lifecycle_form d
  | form_expired e t : d_State d = DecisionExpired → d_EndReason d = Some EndReasonExpired →
      d_ExpiresAt d = Some e → d_EndedAt d = Some t → e ≤ t → lifecycle_form d
  | form_revoked r t : d_State d = DecisionRevoked → d_EndReason d = Some r →
      d_EndedAt d = Some t → d_CreatedAt d ≤ t →
      (r = EndReasonManual ∨ r = EndReasonSystemCleanup ∨
       (r = EndReasonManualReplace ∧ d_Source d = DecisionSourceManual) ∨
       (r = EndReasonRuleDisabled ∧ d_Source d = DecisionSourceAutomatic)) →
      lifecycle_form d.

Definition valid_decision (d : Decision) : Prop := Decision_Validate d = Ok tt.

Lemma Decision_Validate_common d :
  valid_decision d → decision_common d.
Proof.
  unfold valid_decision, Decision_Validate. intros H. inv_ok.
  rewrite validateTextIdentifier_Ok in *. unfold IsZero, Before in *. gobool.
  split; try (done || tauto || lia).
  - destruct (decide (d_Source d = DecisionSourceAutomatic)) as [Hs|Hs]; [|tauto].
    right. split; [done|]. rewrite bool_decide_true in * by done. inv_ok.
    destruct (d_RuleID d) as [r|]; [|done]. exists r. split; [done|].
    gobool. apply is_ok_iff in H3 as [u Hu]. by apply validateTextIdentifier_Ok in Hu.
  - intros e He. rewrite He in *. gobool. lia.
Qed.

Lemma Decision_Validate_form d : valid_decision d → lifecycle_form d.
Proof.
  unfold valid_decision, Decision_Validate. intros H. inv_ok.
  case_bool_decide as Ha; inv_ok.
  { gobool. destruct H as [Hr He]. by apply form_active. }
  destruct (d_EndReason d) as [r|] eqn:Hr; [|done].
  destruct (d_EndedAt d) as [t|] eqn:Ht; [|done]. inv_ok.
  destruct (bool_decide (d_State d = DecisionExpired) && bool_decide (r = EndReasonExpired)) eqn:Hx.
  - gobool. destruct Hx as [Hs ->]. destruct (d_ExpiresAt d) as [e|] eqn:He; [|done]. inv_ok.
    apply (form_expired _ e t); try done. unfold Before in *. gobool. lia.
  - inv_ok. unfold Before in *. gobool.
    apply (form_revoked _ r t); try done.
    repeat (case_bool_decide; cbn in *; inv_ok; gobool); tauto.
Qed.

Lemma text_id_ok kind v : text_id v → validateTextIdentifier kind v = Ok tt.
Proof. by rewrite validateTextIdentifier_Ok. Qed.

Lemma Decision_Validate_iff d :
  valid_decision d ↔ decision_common d ∧ lifecycle_form d.
Proof.
  split; [auto using Decision_Validate_common, Decision_Validate_form|].
  intros [[Hid Hn Ht Hs Hc Hu Hl He] Hf]. unfold valid_decision, Decision_Validate.
  rewrite text_id_ok by done. cbn [mbind result_bind]. rewrite Hn, Ht. cbn [negb fail_if mbind result_bind].
  step_ok ltac:(case_bool_decide; [|done]; destruct Hs as [?|(_ & r & -> & Hr)]; [congruence|];
    by rewrite text_id_ok).
  step_ok ltac:(apply fail_if_false; gobool; destruct Hs as [?|[? _]]; tauto).
  step_ok ltac:(apply fail_if_false; unfold IsZero, Before; gobool; lia).
  step_ok ltac:(apply fail_if_false; destruct (d_ExpiresAt d); [|done];
    unfold Before; gobool; auto).
  destruct Hf as [Hst Hr Hend|e t Hst Hr Hex Hend Het|r t Hst Hr Hend Het Hreason];
    rewrite Hst, Hr, Hend; cbn [bool_decide].
  - done.
  - rewrite bool_decide_false, !bool_decide_true, Hex by done.
    specialize (He e Hex). cbn [andb].
    step_ok ltac:(apply fail_if_false; unfold Before; gobool; lia).
    apply fail_if_false. unfold Before. gobool. lia.
  - rewrite (bool_decide_false (DecisionRevoked = DecisionActive)) by done.
    rewrite (bool_decide_false (DecisionRevoked = DecisionExpired)) by done.
    step_ok ltac:(apply fail_if_false; unfold Before; gobool; lia). cbn [andb negb fail_if].
    destruct Hreason as [->|[->|[[-> ->]|[-> ->]]]]; reflexivity.
Qed.

(** ** Managed policies *)
Lemma existsb_perm {A} (f : A → bool) (l1 l2 : list A) : l1 ≡ₚ l2 → existsb f l1 = existsb f l2.
Proof.
  intros Hp. apply eq_true_iff_eq. rewrite !existsb_true_iff. by setoid_rewrite Hp.
Qed.

(** Canonicalisation is idempotent. *)
Lemma canonicalPolicyPrefixes_idem name l out :
  canonicalPolicyPrefixes name l = Ok out → canonicalPolicyPrefixes name out = Ok out.
Proof.
  unfold canonicalPolicyPrefixes. destruct l as [l|]; intros H; inv_ok; [|done].
  unfold clone_slice. cbn [elems].
  destruct (sort_by Prefix_String l) as [|x r] eqn:Hs; [done|].
  rewrite <- Hs in *.
  rewrite (existsb_perm not_canonical _ l) by apply sort_by_perm.
  rewrite sort_by_idem.
  repeat match goal with E : _ = false |- _ => rewrite E; clear E end.
  cbn [fail_if mbind result_bind elems]. by rewrite Hs.
Qed.

Lemma length_string_of_bytes l : String.length (string_of_bytes l) = length l.
Proof.
  unfold string_of_bytes. induction l as [|b l IH]; [done|].
  cbn. f_equal. exact IH.
Qed.

Lemma hex_encode_length l : String.length (hex_encode l) = (2 * length l)%nat.
Proof.
  unfold hex_encode. rewrite length_string_of_bytes. induction l as [|b l IH]; [done|].
  cbn. cbn in IH. rewrite IH. lia.
Qed.

Lemma digest_nonempty l : is_empty (hex_encode (Sum256 l)) = false.
Proof.
  unfold is_empty. apply bool_decide_eq_false. intros H.
  apply (f_equal String.length) in H. rewrite hex_encode_length, length_Sum256 in H. done.
Qed.

Lemma policy_digest_nonempty a p : is_empty (managedPolicyRelationDigest a p) = false.
Proof. apply digest_nonempty. Qed.

Definition oversized (allow protected : list Prefix) : bool :=
  maxManagedPolicyPrefixes <? Z.of_nat (length allow + length protected).
Definition unprotected (protected : list Prefix) : bool :=
  (Z.of_nat (length protected) <? 2) || negb (containsPolicyPrefix protected loopback4)
  || negb (containsPolicyPrefix protected loopback6).

(** What the constructor builds once its inputs are canonicalised. *)
Definition assembled (pa pp : option (list Prefix)) : result ManagedPolicyIntent :=
  fail_if (oversized (elems pa) (elems pp)) (Errorf "managed policy contains too many prefixes");;
  fail_if (unprotected (elems pp)) (Errorf "managed policy is missing mandatory protected targets");;
  Ok (MkPolicy (managedPolicyRelationDigest (elems pa) (elems pp)) pa pp).

Lemma NewManagedPolicyIntent_assembled allow protected :
  NewManagedPolicyIntent allow protected =
  (pa ← canonicalPolicyPrefixes "allowlist" allow;
   pp ← canonicalPolicyPrefixes "protected targets" protected;
   assembled pa pp).
Proof. reflexivity. Qed.

Lemma assembled_Ok pa pp v :
  assembled pa pp = Ok v →
  oversized (elems pa) (elems pp) = false ∧ unprotected (elems pp) = false ∧
  mp_RelationDigest v = managedPolicyRelationDigest (elems pa) (elems pp) ∧
  mp_Allowlist v = pa ∧ mp_ProtectedTargets v = pp.
Proof.
  unfold assembled. generalize (managedPolicyRelationDigest (elems pa) (elems pp)) as dg. intros dg.
  destruct (oversized _ _); [done|]. destruct (unprotected _); [done|].
  cbn. by intros [= <-].
Qed.

(** The constructor is idempotent. *)
Lemma NewManagedPolicyIntent_again allow protected v :
  NewManagedPolicyIntent allow protected = Ok v →
  NewManagedPolicyIntent (mp_Allowlist v) (mp_ProtectedTargets v) = Ok v.
Proof.
  rewrite !NewManagedPolicyIntent_assembled. intros H.
  apply result_bind_Ok in H as (pa & Ha & H). apply result_bind_Ok in H as (pp & Hp & H).
  pose proof (assembled_Ok _ _ _ H) as (_ & _ & _ & -> & ->).
  rewrite (canonicalPolicyPrefixes_idem _ _ _ Ha). cbn [mbind result_bind].
  rewrite (canonicalPolicyPrefixes_idem _ _ _ Hp). exact H.
Qed.

(** A policy built by the constructor is complete, canonical and bound to its
    digest. *)
Lemma NewManagedPolicyIntent_valid allow protected v :
  NewManagedPolicyIntent allow protected = Ok v → Policy_ValidateComplete v = Ok tt.
Proof.
  intros H. pose proof (NewManagedPolicyIntent_again _ _ _ H) as Hagain.
  rewrite NewManagedPolicyIntent_assembled in H.
  apply result_bind_Ok in H as (pa & Ha & H). apply result_bind_Ok in H as (pp & Hp & H).
  pose proof (assembled_Ok _ _ _ H) as (_ & Hu & Hd & _ & Hpp).
  pose proof (policy_digest_nonempty (elems pa) (elems pp)) as Hdg. rewrite <- Hd in Hdg.
  assert (Policy_Complete v = true) as Hc.
  { unfold Policy_Complete. rewrite Hdg, Hpp. destruct pp; [done|]. discriminate Hu. }
  unfold Policy_ValidateComplete. rewrite Hc, Hagain. cbn [negb fail_if mbind result_bind].
  unfold equalPolicyPrefixes. by rewrite !bool_decide_true.
Qed.

(** A policy that passes keeps the loopback ranges protected and stays within
    the size limit. *)
Lemma NewManagedPolicyIntent_protects allow protected v :
  NewManagedPolicyIntent allow protected = Ok v →
  loopback4 ∈ elems (mp_ProtectedTargets v) ∧ loopback6 ∈ elems (mp_ProtectedTargets v) ∧
  Z.of_nat (length (elems (mp_Allowlist v)) + length (elems (mp_ProtectedTargets v)))
    ≤ maxManagedPolicyPrefixes.
Proof.
  rewrite NewManagedPolicyIntent_assembled. intros H.
  apply result_bind_Ok in H as (pa & _ & H). apply result_bind_Ok in H as (pp & _ & H).
  apply assembled_Ok in H as (Ho & Hu & _ & -> & ->).
  unfold oversized, unprotected, containsPolicyPrefix in *. gobool. rewrite !existsb_true_iff in Hu.
  destruct Hu as ((_ & x & Hx & <-%bool_decide_eq_true) & y & Hy & <-%bool_decide_eq_true).
  auto.
Qed.

(** ** Desired snapshots *)
Lemma validate_targets_Ok seen ts :
  validate_targets seen ts = Ok tt →
  Forall (λ i, Intent_Validate i = Ok tt) ts ∧ NoDup (ti_CanonicalTarget <$> ts) ∧
  ∀ i, i ∈ ts → ti_CanonicalTarget i ∉ seen.
Proof.
  revert seen. induction ts as [|i ts IH]; intros seen H; cbn in H.
  { split; [constructor|]. split; [constructor|]. intros i Hi. by apply elem_of_nil in Hi. }
  inv_ok. apply IH in H as (Hv & Hnd & Hseen). gobool.
  split; [by constructor|]. split.
  - cbn. constructor; [|done]. intros (j & Hj & Hin)%list_elem_of_fmap.
    apply Hseen in Hin. set_solver.
  - intros j [->|Hin]%elem_of_cons; [done|]. apply Hseen in Hin. set_solver.
Qed.

Lemma validate_targets_ok seen ts :
  Forall (λ i, Intent_Validate i = Ok tt) ts → NoDup (ti_CanonicalTarget <$> ts) →
  (∀ i, i ∈ ts → ti_CanonicalTarget i ∉ seen) → validate_targets seen ts = Ok tt.
Proof.
  revert seen. induction ts as [|i ts IH]; intros seen Hv Hnd Hseen; [done|].
  inversion_clear Hv as [|? ? Hi Hts]. cbn in Hnd. apply NoDup_cons in Hnd as [Hni Hnd].
  cbn. rewrite Hi. cbn. rewrite bool_decide_false by (apply Hseen; left). cbn.
  apply IH; [done..|]. intros j Hj. specialize (Hseen j). 
  assert (ti_CanonicalTarget j ≠ ti_CanonicalTarget i).
  { intros Heq. apply Hni. rewrite <- Heq. by apply list_elem_of_fmap_2. }
  assert (ti_CanonicalTarget j ∉ seen) by (apply Hseen; by right). set_solver.
Qed.

Lemma validate_targets_perm ts1 ts2 :
  ts1 ≡ₚ ts2 → validate_targets ∅ ts1 = Ok tt → validate_targets ∅ ts2 = Ok tt.
Proof.
  intros Hp (Hv & Hnd & Hs)%validate_targets_Ok.
  apply validate_targets_ok; [by rewrite <- Hp|by rewrite <- Hp|set_solver].
Qed.

(** ** What a validated intent looks like *)
Record intent_ok (i : NormalizedTargetEnforcementIntent) : Prop := {
  io_node : isLowerHex128 (ti_NodeID i) = true;
  io_target : canonical (ti_CanonicalTarget i);
  io_generation : ti_Generation i ≠ 0;
  io_membership : ti_BanMembership i = BanAbsent ∨ ti_BanMembership i = BanPresent;
  io_timeout : ti_TimeoutMode i = TimeoutNone ∨ ti_TimeoutMode i = TimeoutNative;
  io_coverage : ti_PolicyCoverage i = PolicyCoverageNone ∨
    ti_PolicyCoverage i = PolicyCoveragePartial ∨ ti_PolicyCoverage i = PolicyCoverageFull;
  io_scopes : bad_scopes (ti_Scopes i) = false;
  io_family : ti_AddressFamily i = family_of (ti_CanonicalTarget i);
  io_absent : ti_BanMembership i = BanAbsent →
    ti_EffectiveUntil i = None ∧ ti_TimeoutMode i = TimeoutNone;
  io_native : ti_TimeoutMode i = TimeoutNative → ti_EffectiveUntil i ≠ None;
  io_until : ti_EffectiveUntil i ≠ Some 0
}.

Lemma is_nil_true {A} (o : option A) : is_nil o = true ↔ o = None.
Proof. by destruct o. Qed.
Lemma is_nil_false {A} (o : option A) : is_nil o = false ↔ o ≠ None.
Proof. by destruct o. Qed.
Lemma opt_time_is_zero_false t : opt_time_is_zero t = false ↔ t ≠ Some 0.
Proof. destruct t; cbn; unfold IsZero; gobool; naive_solver. Qed.
#[export] Hint Rewrite @is_nil_true @is_nil_false opt_time_is_zero_false : gobool.

Lemma Intent_Validate_iff i : Intent_Validate i = Ok tt ↔ intent_ok i.
Proof.
  unfold Intent_Validate. split.
  - intros H. inv_ok. gobool.
    split; try done.
    + destruct (ti_BanMembership i); naive_solver.
    + destruct (ti_TimeoutMode i); naive_solver.
    + destruct (ti_PolicyCoverage i); naive_solver.
    + tauto.
    + tauto.
  - intros [H1 H2 H3 H4 H5 H6 H7 H8 H9 H10 H11].
    rewrite H1, H2, (proj2 (Z.eqb_neq _ 0)), H7, H8 by done. cbn [negb fail_if mbind result_bind].
    step_ok ltac:(apply fail_if_false; by destruct H4 as [->| ->]).
    step_ok ltac:(apply fail_if_false; by destruct H5 as [->| ->]).
    step_ok ltac:(apply fail_if_false; by destruct H6 as [->|[->| ->]]).
    step_ok ltac:(apply fail_if_false; by rewrite bool_decide_true).
    step_ok ltac:(apply fail_if_false; gobool; destruct H4 as [H4|H4]; [right; tauto|left; congruence]).
    step_ok ltac:(apply fail_if_false; gobool; destruct H5 as [H5|H5]; [left; congruence|right; auto]).
    apply fail_if_false. by gobool.
Qed.

Record projection_ok (p : DesiredBanProjection) : Prop := {
  pjo_node : isLowerHex128 (bp_NodeID p) = true;
  pjo_target : canonical (bp_CanonicalTarget p);
  pjo_revision : bp_Revision p ≠ 0;
  pjo_state :
    (bp_State p = BanProjectionAbsent ∧ bp_ActiveCount p = 0 ∧ bp_EffectiveUntil p = None) ∨
    (bp_State p = BanProjectionPresent ∧ bp_ActiveCount p ≠ 0 ∧ bp_EffectiveUntil p ≠ Some 0)
}.

Lemma Projection_Validate_iff p : Projection_Validate p = Ok tt ↔ projection_ok p.
Proof.
  unfold Projection_Validate. split.
  - intros H. inv_ok. gobool. split; try done.
    destruct (bp_State p); inv_ok; gobool; tauto.
  - intros [H1 H2 H3 H4]. rewrite H1, H2, (proj2 (Z.eqb_neq (bp_Revision p) 0)) by done.
    cbn [negb fail_if mbind result_bind].
    destruct H4 as [(-> & -> & ->)|(-> & H4 & H5)]; [done|].
    step_ok ltac:(apply fail_if_false; by gobool). apply fail_if_false. by gobool.
Qed.

(** ** Policies and snapshots in normal form *)
Lemma canonicalPolicyPrefixes_clone name l out :
  canonicalPolicyPrefixes name l = Ok out → canonicalPolicyPrefixes name (clone_slice l) = Ok out.
Proof. by destruct l as [[|p l]|]. Qed.

Lemma Policy_ValidateComplete_clone i :
  Policy_ValidateComplete i = Ok tt →
  Policy_ValidateComplete (MkPolicy (mp_RelationDigest i) (clone_slice (mp_Allowlist i))
                             (clone_slice (mp_ProtectedTargets i))) = Ok tt.
Proof.
  unfold Policy_ValidateComplete. intros H.
  apply result_bind_Ok in H as ([] & Hc%fail_if_Ok & H). apply result_bind_Ok in H as (v & Hv & H).
  assert (∀ l : option (list Prefix), elems (clone_slice l) = elems l) as He by by intros [[]|].
  assert (elems (mp_ProtectedTargets i) ≠ []) as Hne.
  { apply NewManagedPolicyIntent_protects in Hv as (Hl & _). intros Hnil.
    apply result_bind_Ok in H as ([] & _ & H%fail_if_Ok). unfold equalPolicyPrefixes in H. gobool.
    destruct H as [_ H]. rewrite <- H, Hnil in Hl. by apply not_elem_of_nil in Hl. }
  step_ok ltac:(apply fail_if_false; unfold Policy_Complete in *; cbn; gobool; destruct_and? Hc;
    split; [done|]; unfold clone_slice; by destruct (elems (mp_ProtectedTargets i))).
  assert (NewManagedPolicyIntent (clone_slice (mp_Allowlist i)) (clone_slice (mp_ProtectedTargets i)) = Ok v) as Hv'.
  { rewrite NewManagedPolicyIntent_assembled in *. apply result_bind_Ok in Hv as (pa & Hpa & Hv).
    apply result_bind_Ok in Hv as (pp & Hpp & Hv).
    rewrite (canonicalPolicyPrefixes_clone _ _ _ Hpa). cbn [mbind result_bind].
    by rewrite (canonicalPolicyPrefixes_clone _ _ _ Hpp). }
  cbn [mp_RelationDigest mp_Allowlist mp_ProtectedTargets]. rewrite Hv'. cbn [mbind result_bind].
  by rewrite !He.
Qed.

(** The check of a present payload passes on the clone. *)
Definition payload_check (i : ManagedPolicyIntent) : result unit :=
  if negb (is_nil (mp_Allowlist i)) || negb (is_nil (mp_ProtectedTargets i))
  then wrap "desired policy payload" (Policy_ValidateComplete i) else Ok tt.

Lemma payload_clone i :
  payload_check i = Ok tt →
  payload_check (MkPolicy (mp_RelationDigest i) (clone_slice (mp_Allowlist i))
                   (clone_slice (mp_ProtectedTargets i))) = Ok tt.
Proof.
  unfold payload_check. cbn [mp_Allowlist mp_ProtectedTargets]. intros H.
  destruct (negb _ || negb _) eqn:Hn in |- *; [|done].
  assert (∀ l : option (list Prefix), clone_slice l ≠ None → l ≠ None) as Hnil
    by by intros [[]|].
  assert (negb (is_nil (mp_Allowlist i)) || negb (is_nil (mp_ProtectedTargets i)) = true) as Hn'.
  { gobool. destruct Hn as [Hn%Hnil|Hn%Hnil]; auto. }
  rewrite Hn' in H. apply wrap_Ok in H. by rewrite (Policy_ValidateComplete_clone _ H).
Qed.

(** A managed policy that is constructed protects both loopback ranges,
    holds at most 1024 prefixes, passes its own completeness check (its digest
    binds its sorted, duplicate-free, canonical prefixes), and is a fixed point
    of the constructor. *)
Theorem NewManagedPolicyIntent_normal allow protected v :
  NewManagedPolicyIntent allow protected = Ok v →
  loopback4 ∈ elems (mp_ProtectedTargets v) ∧ loopback6 ∈ elems (mp_ProtectedTargets v) ∧
  Z.of_nat (length (elems (mp_Allowlist v)) + length (elems (mp_ProtectedTargets v)))
    ≤ maxManagedPolicyPrefixes ∧
  Policy_ValidateComplete v = Ok tt ∧
  NewManagedPolicyIntent (mp_Allowlist v) (mp_ProtectedTargets v) = Ok v.
Proof.
  intros H. destruct (NewManagedPolicyIntent_protects _ _ _ H) as (H4 & H6 & Hsize).
  split_and!; [done..|by eapply NewManagedPolicyIntent_valid|by eapply NewManagedPolicyIntent_again].
Qed.

(** A desired snapshot is built in normal form: the result is valid, has the
    same targets, each once, sorted by their text, and building again from the
    result changes nothing. *)
Theorem NewDesiredFirewallSnapshot_normal s s' :
  NewDesiredFirewallSnapshot s = Ok s' →
  Snapshot_Validate s' = Ok tt ∧ fs_Targets s' ≡ₚ fs_Targets s ∧
  NoDup (ti_CanonicalTarget <$> fs_Targets s') ∧
  StronglySorted (key_le (λ i, Prefix_String (ti_CanonicalTarget i))) (fs_Targets s') ∧
  NewDesiredFirewallSnapshot s' = Ok s'.
Proof.
  unfold NewDesiredFirewallSnapshot. intros H.
  apply result_bind_Ok in H as ([] & Hv & [= <-]).
  assert (∀ l : option (list Prefix), clone_slice (clone_slice l) = clone_slice l) as Hcc by by intros [[]|].
  match goal with |- Snapshot_Validate ?x = _ ∧ _ => set (s' := x) end.
  assert (Snapshot_Validate s' = Ok tt) as Hv'.
  { unfold Snapshot_Validate in *.
    apply result_bind_Ok in Hv as ([] & H1 & Hv). apply result_bind_Ok in Hv as ([] & H2 & Hv).
    apply result_bind_Ok in Hv as ([] & H3 & Hv). apply result_bind_Ok in Hv as ([] & H4 & Hv).
    unfold s'. cbn [fs_SnapshotRevision fs_InfrastructureRevision fs_PolicyRevision fs_Infrastructure fs_Policy
         mp_RelationDigest mp_Allowlist mp_ProtectedTargets fs_Targets].
    rewrite H1, H2, H3. cbn [mbind result_bind].
    pose proof (payload_clone _ H4) as H4'. unfold payload_check in H4'.
    cbn [mp_RelationDigest mp_Allowlist mp_ProtectedTargets] in H4'. rewrite H4'. cbn [mbind result_bind].
    eapply validate_targets_perm; [symmetry; apply sort_by_perm|done]. }
  split_and!; [done|apply sort_by_perm| |apply sort_by_sorted|].
  - unfold Snapshot_Validate in Hv'. inv_ok. by apply validate_targets_Ok in Hv' as (_ & ? & _).
  - rewrite Hv'. cbn [mbind result_bind]. unfold s'.
    cbn [fs_SnapshotRevision fs_InfrastructureRevision fs_PolicyRevision fs_Infrastructure fs_Policy
         mp_RelationDigest mp_Allowlist mp_ProtectedTargets fs_Targets].
    by rewrite !Hcc, sort_by_idem.
Qed.

(** ** Concrete values used by the examples of the development *)
Definition sample_node : NodeID := "0123456789abcdef0123456789abcdef".
Definition sample_target : Prefix := PrefixFrom (ip4 203 0 113 7) 32.
Definition sample_network : Prefix := PrefixFrom (ip4 203 0 113 0) 24.
(** 2024-01-01T00:00:00Z *)
Definition sample_time : time := (unix_to_internal + 1704067200) * second.
Definition sample_decision (id : DecisionID) (expiry : option time) : Decision :=
  MkDecision id sample_node DecisionSourceManual None None None sample_target
    sample_time sample_time sample_time expiry None DecisionActive None 0.

Lemma NewManagedPolicyIntent_normal_witness :
  ∃ v, NewManagedPolicyIntent (Some [sample_network]) (Some [loopback6; loopback4]) = Ok v ∧
       NewManagedPolicyIntent (mp_Allowlist v) (mp_ProtectedTargets v) = Ok v.
Proof.
  eexists. split; [vm_compute; reflexivity|].
  eapply (NewManagedPolicyIntent_normal (Some [sample_network]) (Some [loopback6; loopback4])).
  vm_compute; reflexivity.
Defined.

Definition sample_intent (t : Prefix) : NormalizedTargetEnforcementIntent :=
  MkIntent sample_node t BanPresent None TimeoutNone 3 AddressFamilyIPv4 PolicyCoverageNone
    EmptyString EmptyString 1.
Definition sample_snapshot : DesiredFirewallSnapshot :=
  MkDesired 1 1 1 (MkInfrastructure "nftables" "v1" "digest") (MkPolicy "digest" None None)
    [sample_intent sample_target; sample_intent sample_network].

Lemma NewDesiredFirewallSnapshot_normal_witness :
  ∃ s, NewDesiredFirewallSnapshot sample_snapshot = Ok s ∧ NewDesiredFirewallSnapshot s = Ok s ∧
       ti_CanonicalTarget <$> fs_Targets s = [sample_network; sample_target].
Proof.
  eexists. split; [vm_compute; reflexivity|]. split; [|reflexivity].
  eapply (NewDesiredFirewallSnapshot_normal sample_snapshot). vm_compute; reflexivity.
Defined.
