(* ===== verification/Enforcement.v ===== *)
(** * Target enforcement intents (internal/enforcement/intent.go)

    [ResolveTarget] turns a ban projection and the policy attributes of its
    target into a normalized intent whose generation advances exactly with its
    firewall meaning. [Equivalent] is that meaning: equality up to the
    generation. *)

From S2P Require Import Prelude GoStd Netip Identity CoreModel.

Definition M0SafetyGrace : duration := 5 * minute.

Record TargetPolicy := MkTargetPolicy {
  tp_Coverage : PolicyCoverage;
  tp_RelationDigest : string;
  tp_Scopes : Z;
  tp_NativeTimeoutSupported : bool;
  tp_BackendAttributesDigest : string
}.

Definition Equivalent (left right : NormalizedTargetEnforcementIntent) : bool :=
  bool_decide (ti_NodeID left = ti_NodeID right) &&
  bool_decide (ti_CanonicalTarget left = ti_CanonicalTarget right) &&
  bool_decide (ti_BanMembership left = ti_BanMembership right) &&
  equal_opt_time (ti_EffectiveUntil left) (ti_EffectiveUntil right) &&
  bool_decide (ti_TimeoutMode left = ti_TimeoutMode right) &&
  (ti_Scopes left =? ti_Scopes right) &&
  bool_decide (ti_AddressFamily left = ti_AddressFamily right) &&
  bool_decide (ti_PolicyCoverage left = ti_PolicyCoverage right) &&
  bool_decide (ti_PolicyRelationDigest left = ti_PolicyRelationDigest right) &&
  bool_decide (ti_BackendAttributesDigest left = ti_BackendAttributesDigest right).

Definition addressFamily (ipv4 : bool) : AddressFamily :=
  if ipv4 then AddressFamilyIPv4 else AddressFamilyIPv6.

Definition with_Generation (i : NormalizedTargetEnforcementIntent) (g : Z)
    : NormalizedTargetEnforcementIntent :=
  MkIntent (ti_NodeID i) (ti_CanonicalTarget i) (ti_BanMembership i) (ti_EffectiveUntil i)
    (ti_TimeoutMode i) (ti_Scopes i) (ti_AddressFamily i) (ti_PolicyCoverage i)
    (ti_PolicyRelationDigest i) (ti_BackendAttributesDigest i) g.

(** The intent before its generation is assigned (lines 41-61). *)
Definition base_intent (projection : DesiredBanProjection) (policy : TargetPolicy)
    : NormalizedTargetEnforcementIntent :=
  let family := addressFamily (Is4 (prefix_ip (bp_CanonicalTarget projection))) in
  if bool_decide (bp_State projection = BanProjectionPresent) then
    MkIntent (bp_NodeID projection) (bp_CanonicalTarget projection) BanPresent
      (bp_EffectiveUntil projection)
      (if negb (is_nil (bp_EffectiveUntil projection)) && tp_NativeTimeoutSupported policy
       then TimeoutNative else TimeoutNone)
      (tp_Scopes policy) family (tp_Coverage policy) (tp_RelationDigest policy)
      (tp_BackendAttributesDigest policy) 0
  else
    MkIntent (bp_NodeID projection) (bp_CanonicalTarget projection) BanAbsent None TimeoutNone
      (tp_Scopes policy) family PolicyCoverageNone EmptyString
      (tp_BackendAttributesDigest policy) 0.

Definition ResolveTarget (projection : DesiredBanProjection) (policy : TargetPolicy)
    (previous : option NormalizedTargetEnforcementIntent)
    : result (NormalizedTargetEnforcementIntent * bool) :=
  wrap "validate projection" (Projection_Validate projection);;
  fail_if (bad_scopes (tp_Scopes policy)) (Errorf "enforcement scopes are invalid");;
  fail_if (match tp_Coverage policy with PolicyCoverageOther _ => true | _ => false end)
          (Errorf "policy coverage is invalid");;
  let intent := base_intent projection policy in
  match previous with
  | None =>
    let intent := with_Generation intent 1 in
    wrap "validate resolved intent" (Intent_Validate intent);;
    Ok (intent, true)
  | Some previous =>
    wrap "validate previous intent" (Intent_Validate previous);;
    fail_if (negb (bool_decide (ti_NodeID previous = ti_NodeID intent))
             || negb (bool_decide (ti_CanonicalTarget previous = ti_CanonicalTarget intent)))
            (Errorf "previous intent belongs to another target");;
    let intent := with_Generation intent (ti_Generation previous) in
    let changed := negb (Equivalent previous intent) in
    fail_if (changed && (ti_Generation previous =? max_uint64))
            (Errorf "target generation is exhausted");;
    let intent := if changed then with_Generation intent (ti_Generation previous + 1) else intent in
    wrap "validate resolved intent" (Intent_Validate intent);;
    Ok (intent, changed)
  end.

Definition NativeExpiryForIntent (intent : NormalizedTargetEnforcementIntent) : option time :=
  if negb (bool_decide (ti_TimeoutMode intent = TimeoutNative)) then None
  else match ti_EffectiveUntil intent with
  | None => None
  | Some until => Some (until + M0SafetyGrace)
  end.

(** ** Firewall meaning *)
Lemma Equivalent_iff l r :
  Equivalent l r = true ↔ with_Generation l 0 = with_Generation r 0.
Proof.
  unfold Equivalent, with_Generation. gobool. rewrite equal_opt_time_iff.
  destruct l, r; cbn. split; [intros H; destruct_and? H; by subst|intros [=]; by subst].
Qed.

Lemma with_Generation_twice i g h : with_Generation (with_Generation i g) h = with_Generation i h.
Proof. done. Qed.

Lemma with_Generation_id i : with_Generation i (ti_Generation i) = i.
Proof. by destruct i. Qed.

(** Equality of firewall meaning is an equivalence, and equal meanings with
    equal generations are equal intents. *)
Definition same_meaning (l r : NormalizedTargetEnforcementIntent) : Prop := Equivalent l r = true.

#[export] Instance same_meaning_equivalence : Equivalence same_meaning.
Proof.
  unfold same_meaning. split.
  - intros i. by apply Equivalent_iff.
  - intros i j. by rewrite !Equivalent_iff.
  - intros i j k. rewrite !Equivalent_iff. by intros -> ->.
Qed.

#[export] Instance with_Generation_proper g :
  Proper (same_meaning ==> eq) (λ i, with_Generation i g).
Proof.
  intros i j Hij. unfold same_meaning in Hij. rewrite Equivalent_iff in Hij.
  apply (f_equal (λ i, with_Generation i g)) in Hij. by rewrite !with_Generation_twice in Hij.
Qed.

#[export] Instance NativeExpiryForIntent_proper :
  Proper (same_meaning ==> eq) NativeExpiryForIntent.
Proof.
  intros i j Hij. apply Equivalent_iff in Hij. unfold NativeExpiryForIntent.
  injection Hij as _ _ _ -> -> _. done.
Qed.

Lemma same_meaning_eq l r :
  same_meaning l r → ti_Generation l = ti_Generation r → l = r.
Proof.
  intros Hm Hg. rewrite <- (with_Generation_id l), <- (with_Generation_id r), Hg.
  by apply with_Generation_proper.
Qed.

Lemma Equivalent_with_Generation l r g :
  Equivalent l (with_Generation r g) = Equivalent l r.
Proof. apply eq_true_iff_eq. by rewrite !Equivalent_iff, with_Generation_twice. Qed.

Lemma Intent_Validate_generation i g h :
  g ≠ 0 → h ≠ 0 →
  Intent_Validate (with_Generation i g) = Intent_Validate (with_Generation i h).
Proof.
  intros Hg Hh. unfold Intent_Validate. cbn.
  rewrite (proj2 (Z.eqb_neq g 0)), (proj2 (Z.eqb_neq h 0)) by done. done.
Qed.

(** ** Behaviour of ResolveTarget *)
Definition good_policy (policy : TargetPolicy) : Prop :=
  bad_scopes (tp_Scopes policy) = false ∧
  match tp_Coverage policy with PolicyCoverageOther _ => False | _ => True end.

(** The resolved intent of a valid projection is always valid. *)
Lemma base_intent_valid p policy g :
  Projection_Validate p = Ok tt → good_policy policy → g ≠ 0 →
  Intent_Validate (with_Generation (base_intent p policy) g) = Ok tt.
Proof.
  intros [Hn Hc _ Hst]%Projection_Validate_iff [Hs Hcov] Hg. apply Intent_Validate_iff.
  unfold base_intent.
  destruct Hst as [(-> & _ & _)|(-> & _ & Hz)];
    rewrite ?bool_decide_true, ?(bool_decide_false (BanProjectionAbsent = _)) by done;
    split; cbn [with_Generation ti_NodeID ti_CanonicalTarget ti_BanMembership ti_EffectiveUntil
      ti_TimeoutMode ti_Scopes ti_AddressFamily ti_PolicyCoverage ti_Generation]; auto; try done.
  - destruct (bp_EffectiveUntil p), (tp_NativeTimeoutSupported policy); cbn; auto.
  - destruct (tp_Coverage policy); auto. done.
  - by destruct (bp_EffectiveUntil p).
Qed.

(** Inversion of a successful resolution. *)
Lemma ResolveTarget_Ok p policy previous i changed :
  ResolveTarget p policy previous = Ok (i, changed) →
  Projection_Validate p = Ok tt ∧ good_policy policy ∧ Intent_Validate i = Ok tt ∧
  match previous with
  | None => changed = true ∧ i = with_Generation (base_intent p policy) 1
  | Some prev =>
      Intent_Validate prev = Ok tt ∧
      changed = negb (Equivalent prev (base_intent p policy)) ∧
      i = with_Generation (base_intent p policy)
            (if changed then ti_Generation prev + 1 else ti_Generation prev)
  end.
Proof.
  unfold ResolveTarget. intros H.
  apply result_bind_Ok in H as ([] & Hp%wrap_Ok & H).
  apply result_bind_Ok in H as ([] & Hs%fail_if_Ok & H).
  apply result_bind_Ok in H as ([] & Hc%fail_if_Ok & H).
  assert (good_policy policy) as Hpol by (split; [done|]; by destruct (tp_Coverage policy)).
  destruct previous as [prev|]; inv_ok.
  - rewrite Equivalent_with_Generation in *.
    destruct (Equivalent prev (base_intent p policy)); by destruct_and?.
  - done.
Qed.

(** With a valid projection and policy and a valid previous intent of the same
    target below the last generation, resolution succeeds. *)
Lemma ResolveTarget_total p policy previous :
  Projection_Validate p = Ok tt → good_policy policy →
  (∀ prev, previous = Some prev →
     Intent_Validate prev = Ok tt ∧ ti_NodeID prev = bp_NodeID p ∧
     ti_CanonicalTarget prev = bp_CanonicalTarget p ∧ 0 < ti_Generation prev < max_uint64) →
  ∃ i changed, ResolveTarget p policy previous = Ok (i, changed).
Proof.
  intros Hp Hpol Hprev. unfold ResolveTarget. rewrite Hp. pose proof Hpol as [Hs Hc].
  cbn [wrap mbind result_bind]. rewrite Hs. cbn [fail_if mbind result_bind].
  step_ok ltac:(apply fail_if_false; by destruct (tp_Coverage policy)).
  assert (ti_NodeID (base_intent p policy) = bp_NodeID p ∧
          ti_CanonicalTarget (base_intent p policy) = bp_CanonicalTarget p) as [Hbn Hbt].
  { unfold base_intent. by case_bool_decide. }
  destruct previous as [prev|].
  - destruct (Hprev prev eq_refl) as (Hv & Hn & Ht & Hg). rewrite Hv. cbn [wrap mbind result_bind].
    step_ok ltac:(apply fail_if_false; gobool; by rewrite Hbn, Hbt).
    step_ok ltac:(apply fail_if_false; gobool; right; lia).
    destruct (Equivalent prev _); cbn [negb];
      rewrite ?with_Generation_twice, base_intent_valid by (done || lia); cbn; eauto.
  - rewrite base_intent_valid by done. eauto.
Qed.

(** Resolving again with the result as the previous intent changes nothing. *)
Lemma ResolveTarget_again p policy previous i changed :
  ResolveTarget p policy previous = Ok (i, changed) →
  ResolveTarget p policy (Some i) = Ok (i, false).
Proof.
  intros H. apply ResolveTarget_Ok in H as (Hp & [Hs Hc] & Hi & Hprev).
  assert (∃ g, i = with_Generation (base_intent p policy) g) as [g ->].
  { destruct previous; naive_solver. }
  unfold ResolveTarget. rewrite Hp. cbn [wrap mbind result_bind]. rewrite Hs.
  cbn [fail_if mbind result_bind].
  step_ok ltac:(apply fail_if_false; by destruct (tp_Coverage policy)).
  rewrite Hi. cbn [wrap mbind result_bind].
  step_ok ltac:(apply fail_if_false; gobool; done).
  rewrite Equivalent_with_Generation.
  rewrite (proj2 (Equivalent_iff _ _)) by done. cbn [negb andb fail_if mbind result_bind].
  change (ti_Generation (with_Generation (base_intent p policy) g)) with g. by rewrite Hi.
Qed.

Lemma ResolveTarget_room p policy prev i :
  ResolveTarget p policy (Some prev) = Ok (i, true) → ti_Generation prev ≠ max_uint64.
Proof.
  unfold ResolveTarget. intros H. inv_ok. rewrite Equivalent_with_Generation in *.
  destruct (Equivalent prev (base_intent p policy)); cbn in *; gobool; by try destruct_and?.
Qed.

(** an intent changes its generation exactly when its firewall meaning
    changes. A resolution yields a valid intent with the meaning of the
    projection and policy; a first one has generation 1; later the generation
    stays, with the intent itself, when the meaning is the same, and else moves
    by exactly one without wrapping; resolving again from the result changes
    nothing. *)
Theorem ResolveTarget_exact p policy previous i changed :
  ResolveTarget p policy previous = Ok (i, changed) →
  Intent_Validate i = Ok tt ∧ same_meaning i (base_intent p policy) ∧
  match previous with
  | None => changed = true ∧ ti_Generation i = 1
  | Some prev =>
    if changed then ¬ same_meaning prev i ∧ ti_Generation i = ti_Generation prev + 1 ∧
                    (0 ≤ ti_Generation prev ≤ max_uint64 → ti_Generation i ≤ max_uint64)
    else i = prev
  end ∧
  ResolveTarget p policy (Some i) = Ok (i, false).
Proof.
  intros H. pose proof (ResolveTarget_again _ _ _ _ _ H) as Hagain.
  pose proof H as H'. apply ResolveTarget_Ok in H as (_ & _ & Hi & Hprev).
  assert (same_meaning i (base_intent p policy)) as Hm.
  { apply Equivalent_iff. destruct previous; [destruct Hprev as (_ & _ & ->)|destruct Hprev as [_ ->]]; done. }
  split_and!; [done|done| |done]. destruct previous as [prev|]; [|by destruct Hprev as [-> ->]].
  destruct Hprev as (_ & Hch & Heq). destruct changed.
  - assert (¬ same_meaning prev i) as Hne.
    { intros Hp. assert (same_meaning prev (base_intent p policy)) as Ht by by etrans.
      unfold same_meaning in Ht. by rewrite Ht in Hch. }
    split_and!; [done|by rewrite Heq|]. intros Hrange.
    apply ResolveTarget_room in H'. rewrite Heq. cbn. unfold max_uint64 in *. lia.
  - assert (same_meaning prev (base_intent p policy)) as Ht
      by (unfold same_meaning; by destruct (Equivalent prev _)).
    apply same_meaning_eq; [|by rewrite Heq]. by rewrite Ht.
Qed.

Definition sample_present : DesiredBanProjection :=
  MkProjection sample_node sample_target BanProjectionPresent 1 (Some (sample_time + minute)) 1.
Definition sample_enforcement : TargetPolicy :=
  MkTargetPolicy PolicyCoverageNone "digest" 3 true "attributes".

Lemma ResolveTarget_exact_witness :
  ∃ i, ResolveTarget sample_present sample_enforcement None = Ok (i, true) ∧ ti_Generation i = 1 ∧
       ResolveTarget sample_present sample_enforcement (Some i) = Ok (i, false).
Proof.
  eexists. split; [vm_compute; reflexivity|]. split; [reflexivity|].
  eapply (ResolveTarget_exact sample_present sample_enforcement None). vm_compute; reflexivity.
Defined.
