(* ===== verification/PolicyResolution.v ===== *)
(** * Policy coverage of a target (internal/decision/policy_resolution.go)

    [ResolvePolicy] classifies a target against the union of the allowlist and
    the protected targets: no shared address, some, or all of them. *)

From S2P Require Import Prelude GoStd Sha256 Netip Identity CoreModel.

Record PolicyInput := MkPolicyInput {
  pi_Target : Prefix;
  pi_Allowlists : list Prefix;
  pi_ProtectedTargets : list Prefix
}.

Record PolicyResolution := MkPolicyResolution {
  pres_Coverage : PolicyCoverage;
  pres_RelationDigest : string
}.

(** The in-place compaction loop: an element equal to the last one written is
    skipped. *)
Fixpoint dedup_from (last : option Prefix) (l : list Prefix) : list Prefix :=
  match l with
  | [] => []
  | p :: r => if bool_decide (last = Some p) then dedup_from last r
              else p :: dedup_from (Some p) r
  end.

Definition canonicalPolicyRelationPrefixes (name : string) (prefixes : list Prefix)
    : result (list Prefix) :=
  fail_if (existsb not_canonical prefixes)
          (Errorf ("policy " +:+ name +:+ " contains a non-canonical prefix"));;
  Ok (dedup_from None (sort_by Prefix_String prefixes)).

Definition anyPolicyOverlap (target : Prefix) (prefixes : list Prefix) : bool :=
  existsb (λ p, (BitLen (prefix_ip p) =? BitLen (prefix_ip target)) && Overlaps p target) prefixes.

(** [address[bits/8] |= 1 << uint(7-bits%8)] on a byte array that has the index. *)
Definition set_address_bit (address : list Z) (bits : Z) : list Z :=
  let i := Z.to_nat (bits / 8) in
  match address !! i with
  | Some b => <[i := Z.lor b (Z.shiftl 1 (7 - bits mod 8))]> address
  | None => address
  end.

Definition splitPolicyPrefix (prefix : Prefix) : Prefix * Prefix :=
  let bits := Bits prefix in
  let ip := prefix_ip prefix in
  let first := Masked (PrefixFrom ip (bits + 1)) in
  if Is4 ip then
    let v4 := set_address_bit (be_bytes 4 (addr_val ip)) bits in
    (first, Masked (PrefixFrom (MkAddr z4 (be_value v4)) (bits + 1)))
  else
    let address := set_address_bit (be_bytes 16 (addr_val ip)) bits in
    (first, Masked (PrefixFrom (MkAddr z6 (be_value address)) (bits + 1))).

(** Every recursive call lengthens the target by one bit and stops at a host,
    so 129 steps are enough for both families. *)
Fixpoint policyUnionCovers_fuel (fuel : nat) (target : Prefix) (prefixes : list Prefix) : bool :=
  match fuel with
  | O => false
  | S f =>
    if existsb (λ p, (BitLen (prefix_ip p) =? BitLen (prefix_ip target))
                     && (Bits p <=? Bits target) && Contains p (prefix_ip target)) prefixes
    then true
    else if negb (anyPolicyOverlap target prefixes) || (Bits target =? BitLen (prefix_ip target))
    then false
    else let '(first, second) := splitPolicyPrefix target in
         policyUnionCovers_fuel f first prefixes && policyUnionCovers_fuel f second prefixes
  end.
Definition policyUnionCovers : Prefix → list Prefix → bool := policyUnionCovers_fuel 129.

Definition policyRelationDigest (target : Prefix) (allowlist protected : list Prefix) : string :=
  let parts := ["target:" +:+ Prefix_String target]
               ++ ((λ p, "allow:" +:+ Prefix_String p) <$> allowlist)
               ++ ((λ p, "protected:" +:+ Prefix_String p) <$> protected) in
  hex_encode (Sum256 (string_bytes
    ("guard-policy-relation/v1" +:+ newline +:+ strings_Join newline (sort_strings parts)))).

Definition ResolvePolicy (input : PolicyInput) : result PolicyResolution :=
  fail_if (not_canonical (pi_Target input)) (Errorf "policy target must be canonical");;
  allowlist ← canonicalPolicyRelationPrefixes "allowlist" (pi_Allowlists input);
  protected ← canonicalPolicyRelationPrefixes "protected targets" (pi_ProtectedTargets input);
  let related := allowlist ++ protected in
  if bool_decide (related = []) || negb (anyPolicyOverlap (pi_Target input) related)
  then Ok (MkPolicyResolution PolicyCoverageNone EmptyString)
  else Ok (MkPolicyResolution
             (if policyUnionCovers (pi_Target input) related
              then PolicyCoverageFull else PolicyCoveragePartial)
             (policyRelationDigest (pi_Target input) allowlist protected)).

Example split_union_covers :
  pres_Coverage <$> (match ResolvePolicy (MkPolicyInput (PrefixFrom (ip4 10 0 0 0) 8)
     [PrefixFrom (ip4 10 0 0 0) 9] [PrefixFrom (ip4 10 128 0 0) 9]) with Ok r => Some r | _ => None end)
  = Some PolicyCoverageFull.
Proof. vm_compute. reflexivity. Qed.

(** ** Address sets *)
Definition covered (target : Prefix) (prefixes : list Prefix) : Prop :=
  ∀ a, Addr_wf a → Contains target a = true → ∃ p, p ∈ prefixes ∧ Contains p a = true.
Definition touched (target : Prefix) (prefixes : list Prefix) : Prop :=
  ∃ a p, Addr_wf a ∧ p ∈ prefixes ∧ Contains target a = true ∧ Contains p a = true.
Definition good_prefix (p : Prefix) : Prop := Prefix_wf p ∧ canonical p.

Lemma good_valid p : good_prefix p → PrefixIsValid p = true.
Proof. intros [_ H]. by apply canonical_valid. Qed.

Lemma Contains_kind p a :
  Contains p a = true → BitLen a = BitLen (prefix_ip p).
Proof.
  unfold Contains. destruct (PrefixIsValid p); cbn; [|done].
  destruct (BitLen (prefix_ip p) =? BitLen a) eqn:E; [by apply Z.eqb_eq in E|].
  by rewrite orb_true_r.
Qed.

(** anyPolicyOverlap decides whether the target shares an address with the
    union. *)
Lemma anyPolicyOverlap_iff target prefixes :
  good_prefix target → Forall good_prefix prefixes →
  anyPolicyOverlap target prefixes = true ↔ touched target prefixes.
Proof.
  intros Ht Hps. unfold anyPolicyOverlap, touched. rewrite existsb_true_iff.
  rewrite Forall_forall in Hps. split.
  - intros (p & Hin & H). gobool. destruct H as [_ H].
    apply Overlaps_iff in H as (a & Ha & H1 & H2);
      [|apply Hps, Hin|apply Ht|by apply good_valid, Hps|by apply good_valid].
    eauto 10.
  - intros (a & p & Ha & Hin & H1 & H2). exists p. split; [done|]. gobool. split.
    + rewrite <- (Contains_kind _ _ H1), <- (Contains_kind _ _ H2). done.
    + apply Overlaps_iff; [apply Hps, Hin|apply Ht|by apply good_valid, Hps|by apply good_valid|].
      eauto.
Qed.

(** ** Splitting a prefix into its two halves *)
Lemma set_bit_add b j : 0 ≤ j → Z.testbit b j = false → Z.lor b (Z.shiftl 1 j) = b + 2 ^ j.
Proof.
  intros Hj Hb. rewrite Z.shiftl_1_l.
  assert (Z.land b (2 ^ j) = 0) as Hl.
  { apply Z.bits_inj'. intros n Hn. rewrite Z.land_spec, Z.bits_0, Z.pow2_bits_eqb by lia.
    destruct (Z.eqb_spec j n) as [<-|]; [by rewrite Hb|apply andb_false_r]. }
  by rewrite <- Z.lxor_lor, <- Z.add_nocarry_lxor.
Qed.

Lemma set_address_bit_value n v bits :
  0 ≤ v < 256 ^ Z.of_nat n → 0 ≤ bits < 8 * Z.of_nat n →
  v mod 2 ^ (8 * Z.of_nat n - bits) = 0 →
  be_value (set_address_bit (be_bytes n v) bits) = v + 2 ^ (8 * Z.of_nat n - bits - 1).
Proof.
  intros Hv Hb Hm. unfold set_address_bit, be_value, be_bytes.
  pose proof (Z.div_mod bits 8 ltac:(lia)) as Hdm.
  pose proof (Z.mod_pos_bound bits 8 ltac:(lia)) as Hmod.
  assert (Z.to_nat (bits / 8) < n)%nat as Hi by lia.
  assert (0 < 256) as H256 by lia.
  pose proof (lookup_digits 256 H256 n v _ Hi) as Hl. rewrite Hl.
  rewrite (undigits_insert 256 H256 _ _ _ _ Hl).
  rewrite undigits_digits, length_digits, Z.mod_small by lia.
  replace (Z.of_nat (n - 1 - Z.to_nat (bits / 8))) with (Z.of_nat n - 1 - bits / 8) by lia.
  set (k := Z.of_nat n - 1 - bits / 8). assert (0 ≤ k) by lia.
  change 256 with (2 ^ 8). rewrite <- Z.pow_mul_r by lia.
  rewrite set_bit_add.
  - rewrite Z.add_simpl_l, <- Z.pow_add_r by lia. do 2 f_equal. lia.
  - lia.
  - rewrite Z.mod_pow2_bits_low, Z.div_pow2_bits by lia.
    replace (7 - bits mod 8 + 8 * k) with (8 * Z.of_nat n - bits - 1) by lia.
    pose proof (Z.div_mod v (2 ^ (8 * Z.of_nat n - bits)) ltac:(lia)) as Hq.
    rewrite Hm, Z.add_0_r, Z.mul_comm in Hq. rewrite Hq.
    apply Z.mul_pow2_bits_low. lia.
Qed.

Lemma Masked_From a b :
  addr_kind a ≠ z0 → 0 ≤ b ≤ BitLen a → Addr_wf a →
  addr_val a mod 2 ^ (BitLen a - b) = 0 →
  Masked (PrefixFrom a b) = MkPrefix a (b + 1).
Proof.
  intros Hk Hb Ha Hm.
  assert (PrefixFrom a b = MkPrefix a (b + 1)) as ->.
  { unfold PrefixFrom. rewrite bool_decide_false by done.
    by rewrite (proj2 (Z.leb_le 0 b)), (proj2 (Z.leb_le b _)) by lia. }
  unfold Masked, Bits. cbn [prefix_ip bitsPlusOne]. rewrite Z.add_simpl_r.
  rewrite Addr_Prefix_ok by done.
  pose proof (Z.div_mod (addr_val a) (2 ^ (BitLen a - b)) ltac:(lia)) as Hd.
  rewrite Hm, Z.add_0_r, Z.mul_comm in Hd. rewrite <- Hd. by destruct a.
Qed.

(** The two halves of a prefix that is not a host. *)
Definition low_half (p : Prefix) : Prefix := MkPrefix (prefix_ip p) (bitsPlusOne p + 1).
Definition high_half (p : Prefix) : Prefix :=
  MkPrefix (MkAddr (addr_kind (prefix_ip p)) (addr_val (prefix_ip p) + 2 ^ (shift p - 1)))
           (bitsPlusOne p + 1).

Section split.
Context (p : Prefix) (Hp : good_prefix p) (Hhost : 1 ≤ shift p).

Local Lemma split_facts :
  addr_kind (prefix_ip p) ≠ z0 ∧ 0 ≤ Bits p ∧ bitsPlusOne p = Bits p + 1 ∧
  shift p = BitLen (prefix_ip p) - Bits p ∧
  0 ≤ addr_val (prefix_ip p) < 2 ^ BitLen (prefix_ip p) ∧
  ∃ q, 0 ≤ q ∧ addr_val (prefix_ip p) = 2 * q * 2 ^ (shift p - 1) ∧
       (2 * q + 2) * 2 ^ (shift p - 1) ≤ 2 ^ BitLen (prefix_ip p).
Proof.
  destruct Hp as [Hwf Hc]. pose proof Hc as Hc'. apply canonical_iff in Hc' as [Hv Hm]; [|done].
  destruct (valid_bits p Hwf Hv) as [Hb Hk]. destruct Hwf as (Ha & _). unfold Addr_wf in Ha.
  repeat split; [done|lia|unfold Bits; lia|lia..|].
  exists (addr_val (prefix_ip p) / 2 ^ shift p).
  pose proof (Z.div_mod (addr_val (prefix_ip p)) (2 ^ shift p) ltac:(lia)) as Hd.
  rewrite Hm in Hd.
  assert (2 ^ shift p = 2 * 2 ^ (shift p - 1)) as Hs.
  { rewrite <- Z.pow_succ_r by lia. f_equal. lia. }
  assert (2 ^ BitLen (prefix_ip p) = 2 ^ Bits p * 2 ^ shift p) as HB.
  { rewrite <- Z.pow_add_r by (unfold shift in *; lia). f_equal. unfold shift. lia. }
  assert (0 < 2 ^ (shift p - 1)) by (apply Z.pow_pos_nonneg; lia).
  set (q := addr_val (prefix_ip p) / 2 ^ shift p) in *.
  rewrite Hs in *. split; [apply Z.div_pos; lia|]. split; [lia|].
  assert (q < 2 ^ Bits p) by nia. nia.
Qed.

Lemma splitPolicyPrefix_halves : splitPolicyPrefix p = (low_half p, high_half p).
Proof.
  destruct split_facts as (Hk & Hb & Hbp & Hs & Hv & q & Hq & Hval & Hmax).
  assert (0 < 2 ^ (shift p - 1)) by (apply Z.pow_pos_nonneg; lia).
  unfold splitPolicyPrefix, low_half, high_half. rewrite Hbp.
  assert (Masked (PrefixFrom (prefix_ip p) (Bits p + 1)) =
          MkPrefix (prefix_ip p) (Bits p + 1 + 1)) as ->.
  { apply Masked_From; [done|lia|apply Hp|].
    replace (BitLen (prefix_ip p) - (Bits p + 1)) with (shift p - 1) by lia.
    rewrite Hval. apply Z.mod_mul. lia. }
  assert (∀ n, 8 * Z.of_nat n = BitLen (prefix_ip p) →
            be_value (set_address_bit (be_bytes n (addr_val (prefix_ip p))) (Bits p))
            = addr_val (prefix_ip p) + 2 ^ (shift p - 1)) as Hset.
  { intros n Hn. rewrite set_address_bit_value; rewrite ?Hn, <- ?Hs; [done| |lia|].
    - change 256 with (2 ^ 8). rewrite <- Z.pow_mul_r, Hn by lia. done.
    - rewrite Hval. replace (2 ^ shift p) with (2 * 2 ^ (shift p - 1))
        by (rewrite <- Z.pow_succ_r by lia; f_equal; lia).
      replace (2 * q * 2 ^ (shift p - 1)) with (q * (2 * 2 ^ (shift p - 1))) by lia.
      apply Z.mod_mul. lia. }
  assert (∀ k, addr_kind (prefix_ip p) = k →
    Masked (PrefixFrom (MkAddr k (addr_val (prefix_ip p) + 2 ^ (shift p - 1))) (Bits p + 1)) =
    MkPrefix (MkAddr k (addr_val (prefix_ip p) + 2 ^ (shift p - 1))) (Bits p + 1 + 1)) as Hhi.
  { intros k <-.
    assert (BitLen (MkAddr (addr_kind (prefix_ip p))
               (addr_val (prefix_ip p) + 2 ^ (shift p - 1))) = BitLen (prefix_ip p)) as HBL by done.
    apply Masked_From; unfold Addr_wf; rewrite ?HBL; cbn [addr_kind addr_val]; [done|lia| |].
    - rewrite Hval. nia.
    - replace (BitLen (prefix_ip p) - (Bits p + 1)) with (shift p - 1) by lia.
      rewrite Hval. replace (2 * q * 2 ^ (shift p - 1) + 2 ^ (shift p - 1))
        with ((2 * q + 1) * 2 ^ (shift p - 1)) by lia.
      apply Z.mod_mul. lia. }
  unfold Is4, BitLen in *. destruct (addr_kind (prefix_ip p)) eqn:Ek; [done|..];
    rewrite bool_decide_decide; cbn [decide];
    destruct (decide _) as [|]; try done; rewrite Hset by lia; by rewrite Hhi.
Qed.

Lemma halves_good : good_prefix (low_half p) ∧ good_prefix (high_half p).
Proof.
  destruct split_facts as (Hk & Hb & Hbp & Hs & Hv & q & Hq & Hval & Hmax).
  assert (0 < 2 ^ (shift p - 1)) by (apply Z.pow_pos_nonneg; lia).
  assert (shift (low_half p) = shift p - 1) as Hsl.
  { unfold shift, Bits, low_half in *. cbn. lia. }
  assert (shift (high_half p) = shift p - 1) as Hsh.
  { unfold shift, Bits, high_half, BitLen in *. cbn. lia. }
  assert (Prefix_wf (low_half p)) as Hwl.
  { split; [apply Hp|]. cbn. split; [lia|done]. }
  assert (Prefix_wf (high_half p)) as Hwh.
  { split; [|unfold BitLen in *; cbn; split; [lia|done]].
    unfold Addr_wf, high_half, BitLen in *. cbn. rewrite Hval. nia. }
  split; (split; [done|]); apply canonical_iff; try done.
  - rewrite Hsl. split; [apply Z.ltb_lt; cbn; lia|]. cbn. rewrite Hval.
    apply Z.mod_mul. lia.
  - rewrite Hsh. split; [apply Z.ltb_lt; cbn; lia|]. cbn. rewrite Hval.
    replace (2 * q * 2 ^ (shift p - 1) + 2 ^ (shift p - 1))
      with ((2 * q + 1) * 2 ^ (shift p - 1)) by lia.
    apply Z.mod_mul. lia.
Qed.

Lemma halves_shift : shift (low_half p) = shift p - 1 ∧ shift (high_half p) = shift p - 1.
Proof. unfold shift, Bits, low_half, high_half, BitLen. cbn. lia. Qed.

(** The halves partition the addresses of the prefix. *)
Lemma halves_Contains a :
  Addr_wf a →
  Contains p a = true ↔ Contains (low_half p) a = true ∨ Contains (high_half p) a = true.
Proof.
  intros Ha. destruct halves_good as [[Hwl Hcl] [Hwh Hch]].
  destruct split_facts as (Hk & Hb & Hbp & Hs & Hv & q & Hq & Hval & Hmax).
  destruct halves_shift as [Hsl Hsh].
  assert (0 < 2 ^ (shift p - 1)) by (apply Z.pow_pos_nonneg; lia).
  rewrite !Contains_iff by (done || (by apply canonical_valid) || (by apply good_valid) || apply Hp).
  rewrite Hsl, Hsh. cbn [low_half high_half prefix_ip addr_kind addr_val].
  replace (addr_val (prefix_ip p) + 2 ^ (shift p - 1))
    with ((2 * q + 1) * 2 ^ (shift p - 1)) by lia.
  rewrite Hval.
  assert (2 ^ shift p = 2 ^ (shift p - 1) * 2) as ->.
  { rewrite Z.mul_comm, <- Z.pow_succ_r by lia. f_equal. lia. }
  rewrite <- !Z.div_div, !Z.div_mul by lia.
  replace (2 * q / 2) with q by (rewrite Z.mul_comm, Z.div_mul by lia; done).
  set (x := addr_val a / 2 ^ (shift p - 1)).
  assert (x / 2 = q ↔ x = 2 * q ∨ x = 2 * q + 1); [|tauto].
  pose proof (Z.div_mod x 2 ltac:(lia)). pose proof (Z.mod_pos_bound x 2 ltac:(lia)). lia.
Qed.

Lemma halves_disjoint a :
  Addr_wf a → Contains (low_half p) a = true → Contains (high_half p) a = true → False.
Proof.
  intros Ha. destruct halves_good as [[Hwl Hcl] [Hwh Hch]].
  destruct split_facts as (Hk & Hb & Hbp & Hs & Hv & q & Hq & Hval & Hmax).
  destruct halves_shift as [Hsl Hsh].
  assert (0 < 2 ^ (shift p - 1)) by (apply Z.pow_pos_nonneg; lia).
  rewrite !Contains_iff by (done || (by apply canonical_valid)).
  rewrite Hsl, Hsh. cbn [low_half high_half prefix_ip addr_kind addr_val].
  replace (addr_val (prefix_ip p) + 2 ^ (shift p - 1))
    with ((2 * q + 1) * 2 ^ (shift p - 1)) by lia.
  rewrite Hval, !Z.div_mul by lia. lia.
Qed.
End split.

Lemma covered_touched target prefixes :
  good_prefix target → covered target prefixes → touched target prefixes.
Proof.
  intros Ht Hc. pose proof (Contains_self target (proj1 Ht) (good_valid _ Ht)) as Hs.
  destruct (Hc (prefix_ip target)) as (p & Hp & H); [apply Ht|done|].
  exists (prefix_ip target), p. split; [apply Ht|done].
Qed.

(** A prefix at least as short as the target that contains its address
    contains the target. *)
Lemma Contains_wider p t a :
  good_prefix p → good_prefix t → Addr_wf a →
  BitLen (prefix_ip p) = BitLen (prefix_ip t) → Bits p ≤ Bits t →
  Contains p (prefix_ip t) = true → Contains t a = true → Contains p a = true.
Proof.
  intros Hp Ht Ha HB Hb. rewrite !Contains_iff
    by (done || (by apply good_valid) || apply Hp || apply Ht).
  intros [Hk H1] [Hk' H2]. split; [congruence|]. rewrite <- H1.
  apply (div_pow2_coarser _ _ _ (shift t)); [|done].
  pose proof (shift_nonneg t (proj1 Ht) (good_valid _ Ht)). unfold shift in *. lia.
Qed.

Lemma existsb_wider_iff target prefixes :
  existsb (λ p, (BitLen (prefix_ip p) =? BitLen (prefix_ip target))
                && (Bits p <=? Bits target) && Contains p (prefix_ip target)) prefixes = true ↔
  ∃ p, p ∈ prefixes ∧ BitLen (prefix_ip p) = BitLen (prefix_ip target) ∧
       Bits p ≤ Bits target ∧ Contains p (prefix_ip target) = true.
Proof.
  rewrite existsb_true_iff. split; intros (p & Hin & H); exists p; gobool; tauto.
Qed.

(** policyUnionCovers decides coverage by the union of the prefixes. *)
Lemma policyUnionCovers_fuel_iff fuel target prefixes :
  Forall good_prefix prefixes → good_prefix target → shift target < Z.of_nat fuel →
  policyUnionCovers_fuel fuel target prefixes = true ↔ covered target prefixes.
Proof.
  intros Hps. revert target. induction fuel as [|fuel IH]; intros target Ht Hf.
  { pose proof (shift_nonneg target (proj1 Ht) (good_valid _ Ht)). lia. }
  pose proof (valid_bits target (proj1 Ht) (good_valid _ Ht)) as [Hb Hk].
  cbn [policyUnionCovers_fuel].
  destruct (existsb _ prefixes) eqn:Hw.
  { apply existsb_wider_iff in Hw as (p & Hin & HB & Hbp & Hc). split; [|done]. intros _ a Ha Hta.
    exists p. split; [done|]. eapply Contains_wider; eauto. by eapply Forall_forall in Hps. }
  apply not_true_iff_false in Hw. rewrite existsb_wider_iff in Hw.
  destruct (anyPolicyOverlap target prefixes) eqn:Ho; cbn [negb orb].
  2:{ split; [done|]. intros Hc. apply covered_touched in Hc; [|done].
      apply anyPolicyOverlap_iff in Hc; [congruence|done|done]. }
  destruct (Z.eqb_spec (Bits target) (BitLen (prefix_ip target))) as [Hh|Hh].
  { split; [done|]. intros Hc. exfalso. apply Hw.
    destruct (Hc (prefix_ip target)) as (p & Hin & H);
      [apply Ht|by apply Contains_self; [apply Ht|apply good_valid]|].
    pose proof (Contains_kind _ _ H) as HB. exists p. split_and!; try done.
    eapply Forall_forall in Hps; [|done].
    pose proof (valid_bits p (proj1 Hps) (good_valid _ Hps)). lia. }
  assert (1 ≤ shift target) as Hs by (unfold shift; lia).
  rewrite (splitPolicyPrefix_halves target Ht Hs).
  destruct (halves_good target Ht Hs) as [Hl Hh2], (halves_shift target) as [Hsl Hsh].
  rewrite andb_true_iff, !IH by (done || lia). unfold covered.
  split.
  - intros [H1 H2] a Ha Hc. apply (halves_Contains target Ht Hs a Ha) in Hc as []; eauto.
  - intros H. split; intros a Ha Hc; apply H; try done; apply halves_Contains; auto.
Qed.

Lemma policyUnionCovers_iff target prefixes :
  Forall good_prefix prefixes → good_prefix target →
  policyUnionCovers target prefixes = true ↔ covered target prefixes.
Proof.
  intros Hps Ht. apply policyUnionCovers_fuel_iff; [done..|].
  pose proof (valid_bits target (proj1 Ht) (good_valid _ Ht)) as [Hb _].
  unfold shift, BitLen in *. destruct (addr_kind (prefix_ip target)); lia.
Qed.

(** ** The recursion itself
    The calls that policyUnionCovers makes, with no fuel: its answer, how deep
    the recursion goes and how many calls it makes. A recursion that does not
    stop has no derivation. *)
Definition wider_prefix (target : Prefix) (prefixes : list Prefix) : bool :=
  existsb (λ p, (BitLen (prefix_ip p) =? BitLen (prefix_ip target))
                && (Bits p <=? Bits target) && Contains p (prefix_ip target)) prefixes.
Definition undivided (target : Prefix) (prefixes : list Prefix) : bool :=
  negb (anyPolicyOverlap target prefixes) || (Bits target =? BitLen (prefix_ip target)).

Inductive covers_run (prefixes : list Prefix) : Prefix → bool → nat → nat → Prop :=
| run_wider target :
    wider_prefix target prefixes = true → covers_run prefixes target true 0 1
| run_undivided target :
    wider_prefix target prefixes = false → undivided target prefixes = true →
    covers_run prefixes target false 0 1
| run_first_fails target first second depth calls :
    wider_prefix target prefixes = false → undivided target prefixes = false →
    splitPolicyPrefix target = (first, second) →
    covers_run prefixes first false depth calls →
    covers_run prefixes target false (S depth) (S calls)
| run_both target first second b depth depth' calls calls' :
    wider_prefix target prefixes = false → undivided target prefixes = false →
    splitPolicyPrefix target = (first, second) →
    covers_run prefixes first true depth calls →
    covers_run prefixes second b depth' calls' →
    covers_run prefixes target b (S (depth `max` depth')) (S (calls + calls')).

Lemma covers_run_fun prefixes target b d n b' d' n' :
  covers_run prefixes target b d n → covers_run prefixes target b' d' n' →
  b' = b ∧ d' = d ∧ n' = n.
Proof.
  intros H. revert b' d' n'.
  induction H as [t Hw|t Hw Hu|t f s d n Hw Hu Hs Hf IHf|t f s b d d2 n n2 Hw Hu Hs Hf IHf Hg IHg];
    intros b' d' n' H'; inversion H'; subst; try congruence; auto;
    repeat match goal with
    | H1 : splitPolicyPrefix ?t = _, H2 : splitPolicyPrefix ?t = _ |- _ =>
        rewrite H1 in H2; injection H2 as <- <-
    | IH : ∀ _ _ _, covers_run _ ?t _ _ _ → _, H : covers_run _ ?t _ _ _ |- _ =>
        apply IH in H as (? & ? & ?); subst
    end; auto; congruence.
Qed.

(** The prefixes that lie strictly inside the target. *)
Definition strictly_inside (target p : Prefix) : Prop :=
  Bits target < Bits p ∧ Contains target (prefix_ip p) = true.
#[export] Instance strictly_inside_dec : RelDecision strictly_inside.
Proof. unfold strictly_inside. intros target p. apply _. Defined.
Definition inside_count (target : Prefix) (prefixes : list Prefix) : Z :=
  Z.of_nat (length (filter (strictly_inside target) prefixes)).

Lemma inside_count_nonneg target prefixes : 0 ≤ inside_count target prefixes.
Proof. unfold inside_count. lia. Qed.
Lemma inside_count_le target prefixes :
  inside_count target prefixes ≤ Z.of_nat (length prefixes).
Proof. unfold inside_count. pose proof (length_filter (strictly_inside target) prefixes). lia. Qed.

(** A target that is divided has a prefix strictly inside it. *)
Lemma divided_inside target prefixes :
  good_prefix target → Forall good_prefix prefixes →
  wider_prefix target prefixes = false → undivided target prefixes = false →
  1 ≤ inside_count target prefixes.
Proof.
  intros Ht Hps Hw Hu. unfold undivided in Hu. apply orb_false_iff in Hu as [Ho _].
  apply negb_false_iff, anyPolicyOverlap_iff in Ho as (a & p & Ha & Hin & H1 & H2); [|done..].
  apply not_true_iff_false in Hw. unfold wider_prefix in Hw. rewrite existsb_wider_iff in Hw.
  assert (good_prefix p) as Hp by (by eapply Forall_forall in Hps).
  pose proof (Contains_kind _ _ H1) as K1. pose proof (Contains_kind _ _ H2) as K2.
  enough (strictly_inside target p) as Hi.
  { unfold inside_count.
    assert (p ∈ filter (strictly_inside target) prefixes) as Hf by (by apply list_elem_of_filter).
    destruct (filter _ _); [by apply elem_of_nil in Hf|cbn; lia]. }
  rewrite Contains_iff in H1, H2 by (done || (by apply good_valid) || apply Ht || apply Hp).
  destruct H1 as [E1 V1], H2 as [E2 V2].
  destruct (Z.le_gt_cases (Bits p) (Bits target)) as [Hle|Hgt].
  - exfalso. apply Hw. exists p. split_and!; [done|congruence|done|].
    apply Contains_iff; [apply Hp|by apply good_valid|apply Ht|]. split; [congruence|].
    rewrite <- V2. symmetry. apply (div_pow2_coarser _ _ _ (shift target)); [|done].
    pose proof (shift_nonneg target (proj1 Ht) (good_valid _ Ht)). unfold shift in *. lia.
  - split; [lia|]. apply Contains_iff; [apply Ht|by apply good_valid|apply Hp|].
    split; [congruence|]. rewrite <- V1. symmetry.
    apply (div_pow2_coarser _ _ _ (shift p)); [|done].
    pose proof (shift_nonneg p (proj1 Hp) (good_valid _ Hp)). unfold shift in *. lia.
Qed.

(** Every such prefix lies in at most one half. *)
Lemma inside_halves target prefixes :
  good_prefix target → 1 ≤ shift target → Forall good_prefix prefixes →
  inside_count (low_half target) prefixes + inside_count (high_half target) prefixes
  ≤ inside_count target prefixes.
Proof.
  intros Ht Hs. induction 1 as [|p l Hp Hl IH]; [done|].
  pose proof (split_facts target Ht Hs) as (Hk & Hb & Hbp & _).
  assert (strictly_inside (low_half target) p → strictly_inside target p) as L.
  { unfold strictly_inside. intros [H1 H2]. split; [cbn in *; unfold Bits in *; cbn in *; lia|].
    apply halves_Contains; [done..|apply Hp|by left]. }
  assert (strictly_inside (high_half target) p → strictly_inside target p) as R.
  { unfold strictly_inside. intros [H1 H2]. split; [cbn in *; unfold Bits in *; cbn in *; lia|].
    apply halves_Contains; [done..|apply Hp|by right]. }
  assert (strictly_inside (low_half target) p → strictly_inside (high_half target) p → False) as D.
  { intros [_ H1] [_ H2]. eapply (halves_disjoint target Ht Hs); [apply Hp|done..]. }
  unfold inside_count in *. rewrite !filter_cons.
  repeat case_decide; cbn [length]; try tauto; lia.
Qed.

(** A target is divided at most once for each bit it lacks, and the divided
    targets of one length each hold a prefix of their own, so the number of calls
    grows with the number of prefixes and not with the number of addresses. *)
Lemma policyUnionCovers_fuel_run fuel target prefixes :
  Forall good_prefix prefixes → good_prefix target → shift target < Z.of_nat fuel →
  ∃ depth calls,
    covers_run prefixes target (policyUnionCovers_fuel fuel target prefixes) depth calls ∧
    Z.of_nat depth ≤ shift target ∧
    Z.of_nat calls ≤ 1 + 2 * inside_count target prefixes * shift target.
Proof.
  intros Hps. revert target. induction fuel as [|fuel IH]; intros target Ht Hf;
    pose proof (shift_nonneg target (proj1 Ht) (good_valid _ Ht)) as Hs0; [lia|].
  pose proof (valid_bits target (proj1 Ht) (good_valid _ Ht)) as [Hb _].
  pose proof (inside_count_nonneg target prefixes) as Hi0.
  cbn [policyUnionCovers_fuel].
  change (existsb _ prefixes) with (wider_prefix target prefixes).
  change (negb (anyPolicyOverlap target prefixes) || _) with (undivided target prefixes).
  destruct (wider_prefix target prefixes) eqn:Hw.
  { exists 0%nat, 1%nat. split; [by constructor|]. nia. }
  destruct (undivided target prefixes) eqn:Hu.
  { exists 0%nat, 1%nat. split; [by constructor|]. nia. }
  assert (1 ≤ shift target) as Hs.
  { unfold undivided in Hu. apply orb_false_iff in Hu as [_ Hu]. apply Z.eqb_neq in Hu.
    unfold shift. lia. }
  pose proof (divided_inside _ _ Ht Hps Hw Hu) as H1.
  pose proof (inside_halves _ _ Ht Hs Hps) as Hsum.
  pose proof (splitPolicyPrefix_halves target Ht Hs) as Hsp. rewrite Hsp.
  destruct (halves_good target Ht Hs) as [Hl Hh], (halves_shift target) as [Hsl Hsh].
  pose proof (inside_count_nonneg (low_half target) prefixes).
  pose proof (inside_count_nonneg (high_half target) prefixes).
  destruct (IH _ Hl) as (d1 & n1 & R1 & D1 & N1); [lia|].
  destruct (IH _ Hh) as (d2 & n2 & R2 & D2 & N2); [lia|].
  destruct (policyUnionCovers_fuel fuel (low_half target) prefixes); cbn [andb].
  - eexists _, _. split; [by eapply run_both|]. split; [lia|]. nia.
  - eexists _, _. split; [by eapply run_first_fails|]. split; [lia|]. nia.
Qed.

(** C40: the coverage test of policyUnionCovers stops: on canonical prefixes its
    recursion, followed without any bound, returns the answer of the model and no
    other; it is never deeper than the number of bits the target lacks to be a
    host (at most 32 or 128), and it makes at most one call plus two for every
    policy prefix and such bit, so an IPv6 target does not make it visit
    exponentially many subnets. *)
Theorem policyUnionCovers_terminates target prefixes :
  good_prefix target → Forall good_prefix prefixes →
  ∃ depth calls,
    covers_run prefixes target (policyUnionCovers target prefixes) depth calls ∧
    Z.of_nat depth ≤ BitLen (prefix_ip target) - Bits target ∧
    Z.of_nat calls ≤
      1 + 2 * Z.of_nat (length prefixes) * (BitLen (prefix_ip target) - Bits target) ∧
    (∀ b d n, covers_run prefixes target b d n →
       b = policyUnionCovers target prefixes ∧ d = depth ∧ n = calls).
Proof.
  intros Ht Hps. pose proof (valid_bits target (proj1 Ht) (good_valid _ Ht)) as [Hb _].
  pose proof (shift_nonneg target (proj1 Ht) (good_valid _ Ht)) as Hs.
  destruct (policyUnionCovers_fuel_run 129 target prefixes Hps Ht) as (d & n & R & D & N).
  { unfold shift, BitLen in *. destruct (addr_kind (prefix_ip target)); lia. }
  exists d, n. split; [done|]. pose proof (inside_count_le target prefixes) as L.
  split; [done|]. split; [unfold shift in *; nia|].
  intros b d' n' R'. by apply (covers_run_fun _ _ _ _ _ _ _ _ R).
Qed.

(** ** Canonicalization keeps the set of prefixes *)
Lemma elem_of_dedup_from last l p :
  p ∈ dedup_from last l ∨ last = Some p ↔ p ∈ l ∨ last = Some p.
Proof.
  revert last. induction l as [|q l IH]; intros last; cbn [dedup_from]; [done|].
  case_bool_decide as Hq.
  - rewrite IH. set_solver.
  - specialize (IH (Some q)). set_solver.
Qed.

Lemma canonicalPolicyRelationPrefixes_Ok name prefixes out :
  canonicalPolicyRelationPrefixes name prefixes = Ok out ↔
  Forall canonical prefixes ∧ out = dedup_from None (sort_by Prefix_String prefixes).
Proof.
  unfold canonicalPolicyRelationPrefixes. rewrite Forall_forall. split.
  - intros H. inv_ok. split; [|done]. by apply existsb_false_iff.
  - intros [H ->]. apply existsb_false_iff in H. by rewrite H.
Qed.

Lemma canonicalPolicyRelationPrefixes_elem name prefixes out p :
  canonicalPolicyRelationPrefixes name prefixes = Ok out → p ∈ out ↔ p ∈ prefixes.
Proof.
  intros [_ ->]%canonicalPolicyRelationPrefixes_Ok.
  pose proof (elem_of_dedup_from None (sort_by Prefix_String prefixes) p) as H.
  rewrite elem_of_sort_by in H. naive_solver.
Qed.

Lemma covered_ext target l l' : (∀ p, p ∈ l ↔ p ∈ l') → covered target l ↔ covered target l'.
Proof. unfold covered. intros H. setoid_rewrite H. done. Qed.
Lemma touched_ext target l l' : (∀ p, p ∈ l ↔ p ∈ l') → touched target l ↔ touched target l'.
Proof. unfold touched. intros H. setoid_rewrite H. done. Qed.

(** The prefixes of an input, all built by the netip package. *)
Definition input_prefixes (input : PolicyInput) : list Prefix :=
  pi_Allowlists input ++ pi_ProtectedTargets input.
Definition PolicyInput_wf (input : PolicyInput) : Prop :=
  Prefix_wf (pi_Target input) ∧ Forall Prefix_wf (input_prefixes input).

Lemma ResolvePolicy_inv input r :
  PolicyInput_wf input → ResolvePolicy input = Ok r →
  ∃ related,
    (∀ p, p ∈ related ↔ p ∈ input_prefixes input) ∧
    good_prefix (pi_Target input) ∧ Forall good_prefix related ∧
    pres_Coverage r =
      (if negb (anyPolicyOverlap (pi_Target input) related) then PolicyCoverageNone
       else if policyUnionCovers (pi_Target input) related
            then PolicyCoverageFull else PolicyCoveragePartial).
Proof.
  intros [Hwt Hwf] H. unfold ResolvePolicy in H. inv_ok.
  match goal with
  | H1 : canonicalPolicyRelationPrefixes "allowlist" _ = Ok ?al,
    H2 : canonicalPolicyRelationPrefixes _ _ = Ok ?pt |- _ =>
      rename H1 into Ha, H2 into Hb, al into allow, pt into prot
  end.
  assert (∀ p, p ∈ allow ++ prot ↔ p ∈ input_prefixes input) as Hel.
  { intros p. unfold input_prefixes. rewrite !elem_of_app.
    by rewrite (canonicalPolicyRelationPrefixes_elem _ _ _ p Ha),
               (canonicalPolicyRelationPrefixes_elem _ _ _ p Hb). }
  exists (allow ++ prot). split; [done|]. split; [by split|]. split.
  { apply canonicalPolicyRelationPrefixes_Ok in Ha as [Ha _], Hb as [Hb _].
    rewrite !Forall_forall in *. intros p Hp%Hel. split; [by apply Hwf|].
    unfold input_prefixes in Hp. apply elem_of_app in Hp as []; auto. }
  case_bool_decide as Hnil; cbn [orb] in *.
  - rewrite Hnil in *. cbn. injection H as <-. done.
  - destruct (negb _); by injection H as <-.
Qed.

(** C22: the coverage classes are exact, read as sets of addresses: none when no
    address of the target lies in a policy prefix, full when every one does, and
    partial otherwise. The recursive halving of the target thus decides whether
    the union of the prefixes covers it, also when no single prefix does. *)
Theorem ResolvePolicy_coverage input r :
  PolicyInput_wf input → ResolvePolicy input = Ok r →
  let t := pi_Target input in let ps := input_prefixes input in
  (pres_Coverage r = PolicyCoverageNone ↔ ¬ touched t ps) ∧
  (pres_Coverage r = PolicyCoverageFull ↔ covered t ps) ∧
  (pres_Coverage r = PolicyCoveragePartial ↔ touched t ps ∧ ¬ covered t ps).
Proof.
  intros Hwf H t ps. destruct (ResolvePolicy_inv _ _ Hwf H) as (rel & Hel & Ht & Hrel & ->).
  unfold ps, t. rewrite <- (covered_ext _ _ _ Hel), <- (touched_ext _ _ _ Hel).
  pose proof (anyPolicyOverlap_iff _ _ Ht Hrel) as Ho.
  pose proof (policyUnionCovers_iff _ _ Hrel Ht) as Hc.
  pose proof (covered_touched (pi_Target input) rel Ht) as Hct.
  destruct (anyPolicyOverlap _ _), (policyUnionCovers _ _); cbn [negb];
    naive_solver.
Qed.

(** Two inputs that name the same prefixes are classified alike, whatever
    their order, their duplicates or the list that carries them. *)
Theorem ResolvePolicy_same_prefixes i1 i2 r1 r2 :
  PolicyInput_wf i1 → PolicyInput_wf i2 → pi_Target i1 = pi_Target i2 →
  (∀ p, p ∈ input_prefixes i1 ↔ p ∈ input_prefixes i2) →
  ResolvePolicy i1 = Ok r1 → ResolvePolicy i2 = Ok r2 → pres_Coverage r1 = pres_Coverage r2.
Proof.
  intros W1 W2 Ht Hel H1 H2.
  destruct (ResolvePolicy_inv _ _ W1 H1) as (l1 & E1 & G1 & F1 & ->).
  destruct (ResolvePolicy_inv _ _ W2 H2) as (l2 & E2 & G2 & F2 & ->).
  assert (∀ p, p ∈ l1 ↔ p ∈ l2) as E by (intros p; by rewrite E1, E2).
  rewrite <- Ht in *.
  assert (anyPolicyOverlap (pi_Target i1) l1 = anyPolicyOverlap (pi_Target i1) l2) as ->.
  { apply eq_true_iff_eq. rewrite !anyPolicyOverlap_iff by done. by apply touched_ext. }
  assert (policyUnionCovers (pi_Target i1) l1 = policyUnionCovers (pi_Target i1) l2) as ->; [|done].
  apply eq_true_iff_eq. rewrite !policyUnionCovers_iff by done. by apply covered_ext.
Qed.

(** ** Concrete inputs *)
(** Two halves of a /24 that together cover it. *)
Definition sample_halves : PolicyInput :=
  MkPolicyInput sample_network [PrefixFrom (ip4 203 0 113 0) 25] [PrefixFrom (ip4 203 0 113 128) 25].
Definition sample_halves_swapped : PolicyInput :=
  MkPolicyInput sample_network
    [PrefixFrom (ip4 203 0 113 128) 25; PrefixFrom (ip4 203 0 113 0) 25;
     PrefixFrom (ip4 203 0 113 128) 25] [].

Ltac concrete_wf :=
  split; [|repeat constructor]; repeat split; first [reflexivity|discriminate].
Lemma sample_halves_wf : PolicyInput_wf sample_halves.
Proof. concrete_wf. Qed.
Lemma sample_halves_swapped_wf : PolicyInput_wf sample_halves_swapped.
Proof. concrete_wf. Qed.

Lemma ResolvePolicy_coverage_witness :
  ∃ r, ResolvePolicy sample_halves = Ok r ∧ pres_Coverage r = PolicyCoverageFull ∧
       covered (pi_Target sample_halves) (input_prefixes sample_halves).
Proof.
  eexists. split; [vm_compute; reflexivity|]. split; [reflexivity|].
  eapply (ResolvePolicy_coverage sample_halves);
    [apply sample_halves_wf|vm_compute; reflexivity|reflexivity].
Defined.

Lemma ResolvePolicy_same_prefixes_witness :
  ∃ r1 r2, ResolvePolicy sample_halves = Ok r1 ∧ ResolvePolicy sample_halves_swapped = Ok r2 ∧
    pres_Coverage r1 = pres_Coverage r2.
Proof.
  eexists _, _. split; [vm_compute; reflexivity|]. split; [vm_compute; reflexivity|].
  eapply (ResolvePolicy_same_prefixes sample_halves sample_halves_swapped);
    [apply sample_halves_wf|apply sample_halves_swapped_wf|reflexivity| |vm_compute; reflexivity..].
  intros p. unfold input_prefixes. cbn. set_solver.
Defined.

Lemma policyUnionCovers_terminates_witness :
  ∃ depth calls,
    covers_run (input_prefixes sample_halves) sample_network true depth calls ∧
    Z.of_nat depth ≤ 8 ∧ Z.of_nat calls ≤ 33.
Proof.
  destruct (policyUnionCovers_terminates sample_network (input_prefixes sample_halves))
    as (d & n & R & D & N & _).
  - repeat split; first [reflexivity|discriminate].
  - repeat constructor; first [reflexivity|discriminate].
  - exists d, n. split; [exact R|]. split; [exact D|exact N].
Defined.
