(* ===== verification/Projection.v ===== *)
(** * Projections of decisions (internal/decision/projection.go)

    [AggregateProjection] rebuilds the ban projection of one target from its
    decisions: absent without an active decision, else present until the
    latest expiry, or without end when some active decision never expires. *)

From S2P Require Import Prelude GoStd Netip Identity CoreModel.

(** The loop variables. *)
Record aggregate := MkAggregate {
  ag_ActiveCount : Z;
  ag_latestExpiry : time;
  ag_allFinite : bool
}.

Fixpoint aggregate_loop (nodeID : NodeID) (target : Prefix) (acc : aggregate)
    (decisions : list Decision) : result aggregate :=
  match decisions with
  | [] => Ok acc
  | current :: rest =>
    wrap "validate decision %q" (Decision_Validate current);;
    fail_if (negb (bool_decide (d_NodeID current = nodeID))
             || negb (bool_decide (d_CanonicalTarget current = target)))
            (Errorf "decision %q belongs to another projection");;
    if negb (bool_decide (d_State current = DecisionActive))
    then aggregate_loop nodeID target acc rest
    else
      let count := wrap64 (ag_ActiveCount acc + 1) in
      match d_ExpiresAt current with
      | None => aggregate_loop nodeID target (MkAggregate count (ag_latestExpiry acc) false) rest
      | Some e =>
        let latest := if IsZero (ag_latestExpiry acc) || After e (ag_latestExpiry acc)
                      then e else ag_latestExpiry acc in
        aggregate_loop nodeID target (MkAggregate count latest (ag_allFinite acc)) rest
      end
  end.

Definition AggregateProjection (nodeID : NodeID) (target : Prefix) (revision : Z)
    (decisions : list Decision) : result DesiredBanProjection :=
  fail_if (is_empty nodeID) (Errorf "node id is required");;
  fail_if (not_canonical target) (Errorf "target must be a canonical prefix");;
  acc ← aggregate_loop nodeID target (MkAggregate 0 0 true) decisions;
  let projection :=
    if ag_ActiveCount acc =? 0
    then MkProjection nodeID target BanProjectionAbsent (ag_ActiveCount acc) None revision
    else MkProjection nodeID target BanProjectionPresent (ag_ActiveCount acc)
           (if ag_allFinite acc then Some (ag_latestExpiry acc) else None) revision in
  Projection_Validate projection;;
  Ok projection.

(** ** Specification *)
Definition is_active (d : Decision) : bool := bool_decide (d_State d = DecisionActive).
Definition active (ds : list Decision) : list Decision :=
  base.filter (λ d, is_active d = true) ds.

Definition latest_of (ds : list Decision) : time :=
  foldr (λ d m, match d_ExpiresAt d with Some e => Z.max e m | None => m end) 0 ds.
Definition all_finite (ds : list Decision) : bool :=
  forallb (λ d, negb (is_nil (d_ExpiresAt d))) ds.
Definition effective_until (ds : list Decision) : option time :=
  if all_finite ds then Some (latest_of ds) else None.

(** The projection the decisions of a target call for. *)
Definition projection_spec (nodeID : NodeID) (target : Prefix) (revision : Z)
    (ds : list Decision) : DesiredBanProjection :=
  if bool_decide (active ds = [])
  then MkProjection nodeID target BanProjectionAbsent 0 None revision
  else MkProjection nodeID target BanProjectionPresent (Z.of_nat (length (active ds)))
         (effective_until (active ds)) revision.

Definition owned_by (nodeID : NodeID) (target : Prefix) (d : Decision) : Prop :=
  valid_decision d ∧ d_NodeID d = nodeID ∧ d_CanonicalTarget d = target.
(** Wall-clock times are after year one, Go's zero time. *)
Definition dated (d : Decision) : Prop := 0 < d_CreatedAt d.

Lemma active_cons d ds :
  active (d :: ds) = if is_active d then d :: active ds else active ds.
Proof. unfold active. rewrite filter_cons. case_decide; by destruct (is_active d). Qed.

Lemma expiry_pos d e : valid_decision d → dated d → d_ExpiresAt d = Some e → 0 < e.
Proof.
  intros Hv Hd He. pose proof (dco_expiry _ (Decision_Validate_common _ Hv) e He).
  unfold dated in Hd. lia.
Qed.

Lemma active_le ds : (length (active ds) ≤ length ds)%nat.
Proof. apply length_filter. Qed.

Lemma aggregate_loop_owned nodeID target acc ds acc' :
  aggregate_loop nodeID target acc ds = Ok acc' → Forall (owned_by nodeID target) ds.
Proof.
  revert acc. induction ds as [|d ds IH]; intros acc H; [constructor|].
  cbn [aggregate_loop] in H. inv_ok. gobool. destruct_and?.
  constructor; [by split_and!; gobool|].
  destruct (negb _); [by eauto|]. destruct (d_ExpiresAt d); by eauto.
Qed.

Lemma aggregate_loop_spec nodeID target acc ds :
  Forall (owned_by nodeID target) ds → Forall dated ds →
  0 ≤ ag_ActiveCount acc → 0 ≤ ag_latestExpiry acc →
  ag_ActiveCount acc + Z.of_nat (length (active ds)) ≤ max_uint64 →
  aggregate_loop nodeID target acc ds =
    Ok (MkAggregate (ag_ActiveCount acc + Z.of_nat (length (active ds)))
                    (Z.max (latest_of (active ds)) (ag_latestExpiry acc))
                    (all_finite (active ds) && ag_allFinite acc)).
Proof.
  intros Ho Hd. revert acc. induction Ho as [|d ds [Hv [Hn Ht]] Ho IH]; intros [c l f] Hc Hl Hmax.
  { cbn in *. do 2 f_equal; lia. }
  apply Forall_cons in Hd as [Hd Hds]. specialize (IH Hds).
  cbn [aggregate_loop]. rewrite Hv, Hn, Ht. cbn [wrap mbind result_bind].
  rewrite (bool_decide_true (nodeID = nodeID)), (bool_decide_true (target = target)) by done.
  cbn [negb orb fail_if mbind result_bind].
  rewrite active_cons in *. unfold is_active in *.
  destruct (bool_decide (d_State d = DecisionActive)); cbn [negb]; [|by apply IH].
  cbn [length] in *. cbn [ag_ActiveCount ag_latestExpiry ag_allFinite] in *.
  rewrite Nat2Z.inj_succ in *.
  assert (wrap64 (c + 1) = c + 1) as ->.
  { apply Z.mod_small. unfold max_uint64 in *. lia. }
  destruct (d_ExpiresAt d) as [e|] eqn:He.
  - pose proof (expiry_pos d e Hv Hd He). rewrite IH; cbn [ag_ActiveCount ag_latestExpiry ag_allFinite];
      [| lia | by destruct (_ || _); lia | lia].
    cbn [latest_of foldr all_finite forallb]. rewrite He. fold (latest_of (active ds)).
    cbn [is_nil negb andb]. do 2 f_equal; [lia|].
    unfold IsZero, After. destruct (Z.eqb_spec l 0), (Z.ltb_spec l e); cbn; lia.
  - rewrite IH; cbn [ag_ActiveCount ag_latestExpiry ag_allFinite]; [|lia..].
    cbn [latest_of foldr all_finite forallb]. rewrite He. fold (latest_of (active ds)).
    cbn [is_nil negb andb]. rewrite andb_false_r. do 2 f_equal; lia.
Qed.

Lemma latest_of_nonneg ds : 0 ≤ latest_of ds.
Proof.
  induction ds as [|d ds IH]; [done|]. cbn [latest_of foldr]. fold (latest_of ds).
  destruct (d_ExpiresAt d); lia.
Qed.

Lemma latest_of_bound ds d e : d ∈ ds → d_ExpiresAt d = Some e → e ≤ latest_of ds.
Proof.
  intros Hin He. induction ds as [|d' ds IH]; [by apply not_elem_of_nil in Hin|].
  cbn [latest_of foldr]. fold (latest_of ds). apply elem_of_cons in Hin as [<-|Hin].
  - rewrite He. lia.
  - specialize (IH Hin). destruct (d_ExpiresAt d'); lia.
Qed.

Lemma latest_of_attained ds :
  ds ≠ [] → all_finite ds = true → (∀ d e, d ∈ ds → d_ExpiresAt d = Some e → 0 < e) →
  ∃ d, d ∈ ds ∧ d_ExpiresAt d = Some (latest_of ds).
Proof.
  intros Hne Hf Hpos. induction ds as [|d ds IH]; [done|].
  cbn [all_finite forallb] in Hf. gobool. destruct Hf as [Hd Hf].
  destruct (d_ExpiresAt d) as [e|] eqn:He; [|done].
  cbn [latest_of foldr]. rewrite He. fold (latest_of ds).
  pose proof (Hpos d e (list_elem_of_here _ _) He).
  destruct ds as [|d' ds']; [exists d; split; [left|]; rewrite He; cbn; f_equal; lia|].
  destruct IH as (d0 & Hin & H0); [done|done|set_solver|].
  destruct (Z.max_spec e (latest_of (d' :: ds'))) as [[_ ->]|[_ ->]].
  - exists d0. split; [by right|done].
  - exists d. split; [left|done].
Qed.

(** AggregateProjection computes the specification on the decisions of one
    target, and refuses a foreign or invalid decision. *)
Lemma AggregateProjection_eq nodeID target revision ds :
  isLowerHex128 nodeID = true → canonical target → revision ≠ 0 →
  Forall (owned_by nodeID target) ds → Forall dated ds →
  Z.of_nat (length ds) ≤ max_uint64 →
  AggregateProjection nodeID target revision ds = Ok (projection_spec nodeID target revision ds).
Proof.
  intros Hn Ht Hr Ho Hd Hlen. unfold AggregateProjection, projection_spec.
  assert (is_empty nodeID = false) as -> by (unfold is_empty; gobool; by intros ->).
  rewrite Ht. cbn [fail_if mbind result_bind].
  pose proof (active_le ds) as Hal.
  rewrite aggregate_loop_spec by (done || cbn; lia). cbn [mbind result_bind ag_ActiveCount ag_latestExpiry ag_allFinite].
  rewrite Z.add_0_l, andb_true_r.
  pose proof (latest_of_nonneg (active ds)).
  rewrite Z.max_l by done.
  case_bool_decide as Ha.
  - rewrite Ha. cbn [length Z.of_nat Z.eqb].
    rewrite (proj2 (Projection_Validate_iff _)); [done|]. split; cbn; tauto.
  - assert (Z.of_nat (length (active ds)) ≠ 0) as Hc by (destruct (active ds); [done|cbn; lia]).
    rewrite (proj2 (Z.eqb_neq _ _) Hc). fold (effective_until (active ds)).
    rewrite (proj2 (Projection_Validate_iff _)); [done|].
    split; cbn; try done. right. split_and!; try done.
    unfold effective_until. destruct (all_finite (active ds)) eqn:Hf; [|done].
    destruct (latest_of_attained (active ds)) as (d & Hin & He); [done..| |].
    + intros d e Hin He. unfold active in Hin. apply list_elem_of_filter in Hin as [_ Hin].
      rewrite Forall_forall in Ho, Hd. eapply expiry_pos; [apply Ho|apply Hd|]; eauto.
    + intros [= H0]. unfold active in Hin. apply list_elem_of_filter in Hin as [_ Hin].
      rewrite Forall_forall in Ho, Hd.
      pose proof (expiry_pos d _ (proj1 (Ho _ Hin)) (Hd _ Hin) He). lia.
Qed.

Lemma AggregateProjection_owned nodeID target revision ds p :
  AggregateProjection nodeID target revision ds = Ok p →
  Forall (owned_by nodeID target) ds ∧ Projection_Validate p = Ok tt ∧
  bp_NodeID p = nodeID ∧ bp_CanonicalTarget p = target ∧ bp_Revision p = revision.
Proof.
  unfold AggregateProjection. intros H. inv_ok.
  match goal with H : aggregate_loop _ _ _ _ = Ok _ |- _ => apply aggregate_loop_owned in H end.
  destruct (_ =? 0); by split_and!.
Qed.

(** ** Order does not matter *)
Lemma projection_spec_perm nodeID target revision ds1 ds2 :
  ds1 ≡ₚ ds2 → projection_spec nodeID target revision ds1 = projection_spec nodeID target revision ds2.
Proof.
  intros Hp. unfold projection_spec, effective_until.
  assert (active ds1 ≡ₚ active ds2) as Ha by (unfold active; by rewrite Hp).
  assert (all_finite (active ds1) = all_finite (active ds2)) as ->.
  { apply eq_true_iff_eq. unfold all_finite. rewrite !forallb_true_iff.
    setoid_rewrite Ha. done. }
  assert (latest_of (active ds1) = latest_of (active ds2)) as ->.
  { unfold latest_of. apply (foldr_permutation (=) _ _ _ _); [|apply Ha].
    intros ? d1 ? d2 ? ? ? ?. destruct (d_ExpiresAt d1), (d_ExpiresAt d2); lia. }
  rewrite (Permutation_length Ha).
  rewrite (bool_decide_ext (active ds1 = []) (active ds2 = [])); [done|].
  split; intros Hn; rewrite Hn in Ha; [by apply Permutation_nil_l in Ha|by apply Permutation_nil_r in Ha].
Qed.

Lemma elem_of_active ds d : d ∈ active ds ↔ d ∈ ds ∧ is_active d = true.
Proof. unfold active. rewrite list_elem_of_filter. tauto. Qed.

Lemma active_nil ds : active ds = [] ↔ ∀ d, d ∈ ds → is_active d = false.
Proof.
  split.
  - intros Ha d Hd. apply not_true_iff_false. intros Hact.
    assert (d ∈ active ds) as Hin by by apply elem_of_active. rewrite Ha in Hin.
    by apply not_elem_of_nil in Hin.
  - intros Hno. unfold active. apply filter_none, Forall_forall. intros d Hd. by rewrite Hno.
Qed.

Lemma all_finite_iff ds : all_finite ds = true ↔ ∀ d, d ∈ ds → ∃ e, d_ExpiresAt d = Some e.
Proof.
  unfold all_finite. rewrite forallb_true_iff. apply forall_proper. intros d.
  split; intros H Hd; specialize (H Hd); destruct (d_ExpiresAt d); eauto; naive_solver.
Qed.

Lemma all_finite_false ds : all_finite ds = false → ∃ d, d ∈ ds ∧ d_ExpiresAt d = None.
Proof.
  induction ds as [|d ds IH]; cbn; [done|]. destruct (d_ExpiresAt d) eqn:He; cbn.
  - intros (d' & Hin & He')%IH. exists d'. split; [by right|done].
  - intros _. exists d. split; [left|done].
Qed.

Lemma spec_until nodeID target revision ds :
  bp_EffectiveUntil (projection_spec nodeID target revision ds) =
  if bool_decide (active ds = []) then None else effective_until (active ds).
Proof. unfold projection_spec. by case_bool_decide. Qed.
Lemma spec_present nodeID target revision ds :
  bp_State (projection_spec nodeID target revision ds) = BanProjectionPresent ↔ active ds ≠ [].
Proof. unfold projection_spec. case_bool_decide; cbn; naive_solver. Qed.
Lemma spec_count nodeID target revision ds :
  bp_ActiveCount (projection_spec nodeID target revision ds) = Z.of_nat (length (active ds)).
Proof. unfold projection_spec. case_bool_decide as H; [by rewrite H|done]. Qed.

Lemma active_exists ds : active ds ≠ [] ↔ ∃ d, d ∈ ds ∧ is_active d = true.
Proof.
  split.
  - intros Hne. destruct (active ds) as [|d l] eqn:Ha; [done|]. exists d. apply elem_of_active.
    rewrite Ha. left.
  - intros (d & Hd & Hact) Ha. rewrite (proj1 (active_nil ds) Ha d Hd) in Hact. done.
Qed.

(** the projection of a target is exact and does not depend on the order of
    its decisions. It is present exactly when some decision is active and counts
    the active ones; it ends at the latest expiry of an active decision, which
    one of them attains, and has no end exactly when no decision is active or an
    active one never expires. *)
Theorem AggregateProjection_exact nodeID target revision ds p :
  Forall dated ds → Z.of_nat (length ds) ≤ max_uint64 →
  AggregateProjection nodeID target revision ds = Ok p →
  (bp_State p = BanProjectionPresent ↔ ∃ d, d ∈ ds ∧ is_active d = true) ∧
  bp_ActiveCount p = Z.of_nat (length (active ds)) ∧
  (bp_EffectiveUntil p = None ↔
     (∀ d, d ∈ ds → is_active d = false) ∨
     ∃ d, d ∈ ds ∧ is_active d = true ∧ d_ExpiresAt d = None) ∧
  (∀ u, bp_EffectiveUntil p = Some u →
     (∃ d, d ∈ ds ∧ is_active d = true ∧ d_ExpiresAt d = Some u) ∧
     (∀ d, d ∈ ds → is_active d = true → ∃ e, d_ExpiresAt d = Some e ∧ e ≤ u)) ∧
  (∀ ds', ds ≡ₚ ds' → AggregateProjection nodeID target revision ds' = Ok p).
Proof.
  intros Hd Hlen H. pose proof (AggregateProjection_owned _ _ _ _ _ H) as (Ho & Hv & Hn & Ht & Hr).
  apply Projection_Validate_iff in Hv as [Hhex Hcan Hrev _]. rewrite Hn, Ht, Hr in *.
  rewrite AggregateProjection_eq in H by done. injection H as <-.
  rewrite spec_present, active_exists, spec_count, spec_until, <- active_nil. unfold effective_until.
  split_and!; [done|done| | |].
  - case_bool_decide as Ha; [by split; auto|].
    destruct (all_finite (active ds)) eqn:Hf; split; try done.
    + intros [?|(d & Hd' & Hact & He)]; [done|].
      rewrite all_finite_iff in Hf. destruct (Hf d) as [e He']; [by apply elem_of_active|congruence].
    + intros _. right. apply all_finite_false in Hf as (d & [Hin Hact]%elem_of_active & He). eauto.
  - intros u. case_bool_decide as Ha; [done|]. destruct (all_finite (active ds)) eqn:Hf; [|done].
    intros [= <-]. split.
    + destruct (latest_of_attained (active ds)) as (d & [Hin Hact]%elem_of_active & He); [done..| |by eauto].
      intros d e [Hin _]%elem_of_active. rewrite Forall_forall in Ho, Hd.
      apply expiry_pos; [by apply Ho|by apply Hd].
    + intros d Hin Hact. rewrite all_finite_iff in Hf.
      assert (d ∈ active ds) as Hda by by apply elem_of_active.
      destruct (Hf d Hda) as [e He]. exists e. split; [done|]. by apply (latest_of_bound _ d).
  - intros ds' Hp. rewrite AggregateProjection_eq; rewrite <- ?Hp; try done.
    by rewrite (projection_spec_perm _ _ _ _ _ Hp).
Qed.

Lemma AggregateProjection_exact_witness :
  ∃ p, AggregateProjection sample_node sample_target 1
         [sample_decision "a" (Some (sample_time + minute)); sample_decision "b" (Some (sample_time + second))]
       = Ok p ∧
    AggregateProjection sample_node sample_target 1
         [sample_decision "b" (Some (sample_time + second)); sample_decision "a" (Some (sample_time + minute))]
       = Ok p ∧ bp_EffectiveUntil p = Some (sample_time + minute).
Proof.
  eexists. split; [vm_compute; reflexivity|]. split; [|vm_compute; reflexivity].
  eapply (AggregateProjection_exact sample_node sample_target 1
    [sample_decision "a" (Some (sample_time + minute)); sample_decision "b" (Some (sample_time + second))]);
    [repeat constructor|vm_compute; discriminate|vm_compute; reflexivity|apply Permutation_swap].
Defined.
