(* ===== verification/MemoryService.v ===== *)
(** * The in-memory decision service (internal/decision/service.go)

    The state is the decision history, a slice that only grows and whose
    entries are overwritten in place. Each operation runs under the service's
    mutex, so it is one step. *)

From S2P Require Import Prelude GoStd Netip Identity CoreModel Projection.

Definition ErrAlreadyBanned := Errorf "target already has an active manual ban".
Definition ErrSuppressionOverflow := Errorf "automatic decision suppression count overflow".
Definition ErrDecisionNotFound := Errorf "decision not found".
Definition ErrDecisionIDConflict := Errorf "decision id already exists".
Definition ErrTerminalConflict := Errorf "decision is already terminal with another outcome".

Definition AlreadyBannedError (id : DecisionID) : error :=
  Typed "AlreadyBannedError" [id] ErrAlreadyBanned.

(** The State field is rendered by name; a nil ExistingReason is the empty
    string, which no valid decision carries. *)
Definition state_name (s : DecisionState) : string :=
  match s with
  | DecisionActive => "active" | DecisionExpired => "expired" | DecisionRevoked => "revoked"
  | DecisionStateOther _ => "other"
  end.
Definition TerminalConflictError (id : DecisionID) (state : DecisionState)
    (existing : option DecisionEndReason) (requested : DecisionEndReason) : error :=
  Typed "TerminalConflictError"
        [id; state_name state; default EmptyString existing; requested] ErrTerminalConflict.

Record AutomaticRequest := MkAutomaticRequest {
  ar_DecisionID : DecisionID;
  ar_DeliveryID : DeliveryID;
  ar_EventID : EventID;
  ar_NodeID : NodeID;
  ar_RuleID : RuleID;
  ar_RuleVersion : option RuleVersion;
  ar_AlertID : option AlertID;
  ar_Target : Prefix;
  ar_TriggeredAt : time;
  ar_ExpiresAt : option time
}.
Record AutomaticResult := MkAutomaticResult { ares_Decision : Decision; ares_Created : bool }.
Record ManualRequest := MkManualRequest {
  mr_DecisionID : DecisionID;
  mr_NodeID : NodeID;
  mr_Target : Prefix;
  mr_CreatedAt : time;
  mr_ExpiresAt : option time
}.
(** EnforcementChanges is filled by the transactional service only. *)
Record ManualResult := MkManualResult {
  mres_Previous : option Decision;
  mres_Current : Decision;
  mres_Replaced : bool
}.

(** MemoryService.decisions *)
Abbreviation service := (list Decision) (only parsing).
Definition NewMemoryService : service := [].

Definition automatic_candidate (r : AutomaticRequest) : Decision :=
  MkDecision (ar_DecisionID r) (ar_NodeID r) DecisionSourceAutomatic (Some (ar_RuleID r))
    (ar_RuleVersion r) (ar_AlertID r) (ar_Target r) (ar_TriggeredAt r) (ar_TriggeredAt r)
    (ar_TriggeredAt r) (ar_ExpiresAt r) None DecisionActive None 0.

Definition manual_candidate (r : ManualRequest) : Decision :=
  MkDecision (mr_DecisionID r) (mr_NodeID r) DecisionSourceManual None None None
    (mr_Target r) (mr_CreatedAt r) (mr_CreatedAt r) (mr_CreatedAt r) (mr_ExpiresAt r)
    None DecisionActive None 0.

(** [current.State, UpdatedAt, EndedAt, EndReason = ...] *)
Definition with_terminal (d : Decision) (state : DecisionState) (at_ : time)
    (reason : DecisionEndReason) : Decision :=
  MkDecision (d_ID d) (d_NodeID d) (d_Source d) (d_RuleID d) (d_RuleVersion d) (d_AlertID d)
    (d_CanonicalTarget d) (d_CreatedAt d) at_ (d_LastTriggeredAt d) (d_ExpiresAt d)
    (Some at_) state (Some reason) (d_SuppressedCount d).

Definition with_suppressed (d : Decision) (triggeredAt : time) : Decision :=
  MkDecision (d_ID d) (d_NodeID d) (d_Source d) (d_RuleID d) (d_RuleVersion d) (d_AlertID d)
    (d_CanonicalTarget d) (d_CreatedAt d) (d_UpdatedAt d)
    (if After triggeredAt (d_LastTriggeredAt d) then triggeredAt else d_LastTriggeredAt d)
    (d_ExpiresAt d) (d_EndedAt d) (d_State d) (d_EndReason d) (wrap64 (d_SuppressedCount d + 1)).

Definition decisionIDExistsLocked (ds : service) (id : DecisionID) : bool :=
  existsb (λ d, bool_decide (d_ID d = id)) ds.

(** The loops' continue conditions, negated. *)
Definition same_automatic (r : AutomaticRequest) (d : Decision) : Prop :=
  d_State d = DecisionActive ∧ d_Source d = DecisionSourceAutomatic ∧
  d_NodeID d = ar_NodeID r ∧ d_CanonicalTarget d = ar_Target r ∧ d_RuleID d = Some (ar_RuleID r).
Definition same_manual (r : ManualRequest) (d : Decision) : Prop :=
  d_State d = DecisionActive ∧ d_Source d = DecisionSourceManual ∧
  d_NodeID d = mr_NodeID r ∧ d_CanonicalTarget d = mr_Target r.
#[export] Instance same_automatic_dec r d : base.Decision (same_automatic r d).
Proof. unfold same_automatic. apply _. Defined.
#[export] Instance same_manual_dec r d : base.Decision (same_manual r d).
Proof. unfold same_manual. apply _. Defined.

Definition RecordAutomatic (request : AutomaticRequest) : ST service AutomaticResult :=
  if is_nil (ar_RuleVersion request)
  then st_fail (Errorf "automatic decision requires rule version")
  else
    let candidate := automatic_candidate request in
    st_lift (wrap "validate automatic decision" (Decision_Validate candidate));;
    ds ← st_get;
    match list_find (same_automatic request) ds with
    | Some (index, current) =>
      if d_SuppressedCount current =? max_uint64 then st_fail ErrSuppressionOverflow
      else
        let current := with_suppressed current (ar_TriggeredAt request) in
        st_put (<[index := current]> ds);;
        mret (MkAutomaticResult current false)
    | None =>
      if decisionIDExistsLocked ds (ar_DecisionID request)
      then st_fail (Wrapf "%w: %s" ErrDecisionIDConflict)
      else
        st_put (ds ++ [candidate]);;
        mret (MkAutomaticResult candidate true)
    end.

Definition BanManual (request : ManualRequest) (replace : bool) : ST service ManualResult :=
  let candidate := manual_candidate request in
  st_lift (wrap "validate manual decision" (Decision_Validate candidate));;
  ds ← st_get;
  if decisionIDExistsLocked ds (mr_DecisionID request)
  then st_fail (Wrapf "%w: %s" ErrDecisionIDConflict)
  else match list_find (same_manual request) ds with
  | Some (index, current) =>
    if negb replace then st_fail (AlreadyBannedError (d_ID current))
    else if Before (mr_CreatedAt request) (d_CreatedAt current)
    then st_fail (Errorf "manual replacement precedes active decision")
    else
      let current := with_terminal current DecisionRevoked (mr_CreatedAt request)
                       EndReasonManualReplace in
      st_lift (wrap "validate replaced decision" (Decision_Validate current));;
      st_put (<[index := current]> ds ++ [candidate]);;
      mret (MkManualResult (Some current) candidate true)
  | None =>
    st_put (ds ++ [candidate]);;
    mret (MkManualResult None candidate false)
  end.

Definition due (now : time) (d : Decision) : bool :=
  bool_decide (d_State d = DecisionActive) &&
  match d_ExpiresAt d with None => false | Some e => negb (After e now) end.

(** The loop writes each entry before it looks at the next, so a failed
    validation would keep the earlier writes. *)
Fixpoint expire_loop (now : time) (ds : service) : result (list Decision) * service :=
  match ds with
  | [] => (Ok [], [])
  | current :: rest =>
    if due now current then
      let ended := with_terminal current DecisionExpired now EndReasonExpired in
      match wrap "validate expired decision" (Decision_Validate ended) with
      | Err e => (Err e, current :: rest)
      | Ok _ =>
        let '(r, rest') := expire_loop now rest in
        (expired ← r; Ok (ended :: expired), ended :: rest')
      end
    else
      let '(r, rest') := expire_loop now rest in (r, current :: rest')
  end.

Definition Expire (now : time) : ST service (list Decision) :=
  if IsZero now then st_fail (Errorf "expiration time is required")
  else expire_loop now.

Definition Revoke (id : DecisionID) (endedAt : time) (reason : DecisionEndReason)
    : ST service Decision :=
  if IsZero endedAt then st_fail (Errorf "revoke time is required")
  else
    ds ← st_get;
    match list_find (λ d, d_ID d = id) ds with
    | None => st_fail ErrDecisionNotFound
    | Some (index, current) =>
      if negb (bool_decide (d_State current = DecisionActive)) then
        if bool_decide (d_State current = DecisionRevoked)
           && bool_decide (d_EndReason current = Some reason)
        then mret current
        else st_fail (TerminalConflictError (d_ID current) (d_State current)
                        (d_EndReason current) reason)
      else
        let current := with_terminal current DecisionRevoked endedAt reason in
        st_lift (wrap "validate revoked decision" (Decision_Validate current));;
        st_put (<[index := current]> ds);;
        mret current
    end.

(** cloneDecision copies the pointed-to fields; values have no aliases here. *)
Definition Decisions (ds : service) : list Decision := ds.

(** ** The invariant *)
(** What an active decision occupies: a manual ban its (node, target), an
    automatic one its (node, target, rule). *)
Definition slot (d : Decision) : option (NodeID * Prefix * option RuleID) :=
  if is_active d then
    match d_Source d with
    | DecisionSourceManual => Some (d_NodeID d, d_CanonicalTarget d, None)
    | DecisionSourceAutomatic => Some (d_NodeID d, d_CanonicalTarget d, d_RuleID d)
    | DecisionSourceOther _ => None
    end
  else None.

Record service_ok (ds : service) : Prop := {
  so_valid : Forall valid_decision ds;
  so_ids : NoDup (d_ID <$> ds);
  so_slots : NoDup (omap slot ds)
}.

(** How the history may evolve: entries keep their index and their creation
    facts, and a terminal entry never changes again. *)
Definition entry_evolves (d d' : Decision) : Prop :=
  d_ID d' = d_ID d ∧ d_NodeID d' = d_NodeID d ∧ d_Source d' = d_Source d ∧
  d_RuleID d' = d_RuleID d ∧ d_CanonicalTarget d' = d_CanonicalTarget d ∧
  d_CreatedAt d' = d_CreatedAt d ∧ d_ExpiresAt d' = d_ExpiresAt d ∧
  (is_active d = false → d' = d).
Definition evolves (ds ds' : service) : Prop :=
  ∀ i d, ds !! i = Some d → ∃ d', ds' !! i = Some d' ∧ entry_evolves d d'.

(** ** Lemmas on the history *)
#[export] Instance entry_evolves_preorder : PreOrder entry_evolves.
Proof.
  split; [intros d; by split_and!|]. unfold entry_evolves.
  intros a b c. intros H1 H2. destruct_and?. split_and!; try congruence.
  intros Ha. assert (b = a) as -> by auto. auto.
Qed.
#[export] Instance evolves_preorder : PreOrder evolves.
Proof.
  split; [intros ds i d H; exists d; by split|].
  intros a b c H1 H2 i d Hd. destruct (H1 i d Hd) as (d1 & Hd1 & E1).
  destruct (H2 i d1 Hd1) as (d2 & Hd2 & E2). exists d2. split; [done|by etrans].
Qed.

Lemma evolves_app ds l : evolves ds (ds ++ l).
Proof. intros i d H. exists d. split; [by apply lookup_app_l_Some|done]. Qed.

Lemma evolves_update ds i d d' :
  ds !! i = Some d → entry_evolves d d' → evolves ds (<[i := d']> ds).
Proof.
  intros Hd E j e He. destruct (decide (i = j)) as [<-|Hij].
  - rewrite list_lookup_insert_eq by by eapply lookup_lt_Some. simplify_eq. eauto.
  - rewrite list_lookup_insert_ne by done. by exists e.
Qed.

Lemma terminal_evolves d state t reason :
  is_active d = true → entry_evolves d (with_terminal d state t reason).
Proof. intros Ha. split_and!; try done. congruence. Qed.

Lemma suppressed_evolves d t : is_active d = true → entry_evolves d (with_suppressed d t).
Proof. intros Ha. split_and!; try done. congruence. Qed.

Lemma suppressed_valid d t : valid_decision d → valid_decision (with_suppressed d t).
Proof.
  rewrite !Decision_Validate_iff. intros [[] Hf]. split.
  - split; cbn; try done. unfold After. destruct (Z.ltb_spec (d_LastTriggeredAt d) t); lia.
  - destruct Hf; [by apply form_active|by eapply form_expired|by eapply form_revoked].
Qed.

Lemma expired_valid d now :
  valid_decision d → due now d = true →
  valid_decision (with_terminal d DecisionExpired now EndReasonExpired).
Proof.
  unfold due, After. intros Hv. destruct (d_ExpiresAt d) as [e|] eqn:He; gobool; [|naive_solver].
  intros [Ha Hdue]. apply Decision_Validate_common in Hv.
  pose proof (dco_expiry _ Hv e He). destruct Hv.
  apply Decision_Validate_iff. split.
  - split; cbn; try done. lia.
  - by apply (form_expired _ e now).
Qed.

Lemma slot_terminal d state t reason :
  state ≠ DecisionActive → slot (with_terminal d state t reason) = None.
Proof. intros H. unfold slot, is_active. cbn. by rewrite bool_decide_false. Qed.

Lemma service_update ds i d d' :
  service_ok ds → ds !! i = Some d → valid_decision d' → d_ID d' = d_ID d →
  slot d' = slot d ∨ slot d' = None → service_ok (<[i := d']> ds).
Proof.
  intros [Hv Hids Hs] Hd Hv' Hid Hslot. split.
  - by apply Forall_insert.
  - rewrite list_fmap_insert, Hid, list_insert_id; [done|].
    by rewrite list_lookup_fmap, Hd.
  - rewrite (insert_take_drop _ _ _ (lookup_lt_Some _ _ _ Hd)).
    rewrite <- (take_drop_middle ds i d Hd), omap_app in Hs. rewrite omap_app.
    cbn [omap list_omap] in *.
    destruct Hslot as [-> | ->]; [done|]. destruct (slot d); [|done].
    apply NoDup_app in Hs as (H1 & H2 & H3). apply NoDup_app.
    split; [done|]. split; [set_solver|]. by apply NoDup_cons in H3 as [_ ?].
Qed.

Lemma service_append ds d :
  service_ok ds → valid_decision d → d_ID d ∉ d_ID <$> ds →
  (∀ s, slot d = Some s → s ∉ omap slot ds) → service_ok (ds ++ [d]).
Proof.
  intros [Hv Hids Hs] Hd Hid Hslot. split.
  - by apply Forall_app; split; [|constructor].
  - rewrite fmap_app. apply NoDup_app. split; [done|]. split; [set_solver|apply NoDup_singleton].
  - rewrite omap_app. apply NoDup_app. cbn. destruct (slot d) as [s|]; [|by rewrite NoDup_nil; set_solver].
    split; [done|]. split; [|apply NoDup_singleton]. specialize (Hslot s eq_refl). set_solver.
Qed.

(** ** Every operation keeps the invariant and only evolves the history;
    a failed one changes nothing. *)
Definition preserves {A} (op : ST service A) : Prop :=
  ∀ ds, service_ok ds →
    service_ok (op ds).2 ∧ evolves ds (op ds).2 ∧ (is_ok (op ds).1 = false → (op ds).2 = ds).

Lemma preserved_same ds (P : Prop) : service_ok ds → service_ok ds ∧ evolves ds ds ∧ (P → ds = ds).
Proof. done. Qed.

Lemma id_fresh ds id : decisionIDExistsLocked ds id = false → id ∉ d_ID <$> ds.
Proof.
  unfold decisionIDExistsLocked. rewrite existsb_false_iff. intros H (d & -> & Hd)%list_elem_of_fmap.
  specialize (H d Hd). by gobool.
Qed.

Lemma slot_Some d s :
  valid_decision d → slot d = Some s →
  is_active d = true ∧ d_NodeID d = s.1.1 ∧ d_CanonicalTarget d = s.1.2 ∧
  ((d_Source d = DecisionSourceManual ∧ s.2 = None) ∨
   (d_Source d = DecisionSourceAutomatic ∧ d_RuleID d = s.2 ∧ s.2 ≠ None)).
Proof.
  intros Hv. pose proof (dco_source _ (Decision_Validate_common _ Hv)) as Hs.
  unfold slot. destruct (is_active d); [|done].
  destruct Hs as [Hs|[Hs (r & Hr & _)]]; rewrite Hs; intros [= <-]; cbn;
    [by split_and!; auto|]. rewrite Hr. split_and!; auto.
Qed.

Lemma slot_fresh ds (P : Decision → Prop) `{∀ d, base.Decision (P d)} s :
  Forall valid_decision ds → list_find P ds = None →
  (∀ d, valid_decision d → slot d = Some s → P d) → s ∉ omap slot ds.
Proof.
  intros Hv Hf HP (d & Hd & Hs)%list_elem_of_omap.
  apply list_find_None in Hf. rewrite Forall_forall in Hf, Hv. naive_solver.
Qed.

(** A slot is held by one entry. *)
Lemma slot_unique ds i j d e s :
  service_ok ds → ds !! i = Some d → ds !! j = Some e →
  slot d = Some s → slot e = Some s → i = j.
Proof.
  intros [_ _ Hs] Hi Hj Hd He.
  assert (∀ i j d e, (i < j)%nat → ds !! i = Some d → ds !! j = Some e →
            slot d = Some s → slot e = Some s → False) as Hlt.
  { clear i j d e Hi Hj Hd He. intros i j d e Hij Hi Hj Hd He.
    rewrite <- (take_drop_middle ds i d Hi), omap_app in Hs. cbn [omap list_omap] in Hs.
    rewrite Hd in Hs. apply NoDup_app in Hs as (_ & _ & [Hn _]%NoDup_cons). apply Hn.
    apply list_elem_of_omap. exists e. split; [|done].
    apply list_elem_of_lookup_2 with (j - S i)%nat. rewrite lookup_drop.
    by replace (S i + (j - S i))%nat with j by lia. }
  destruct (Nat.lt_trichotomy i j) as [H|[H|H]]; [exfalso; eauto|done|exfalso; eauto].
Qed.

Lemma slot_manual r d : same_manual r d → slot d = Some (mr_NodeID r, mr_Target r, None).
Proof.
  intros (Ha & Hs & <- & <-). unfold slot, is_active. by rewrite bool_decide_true, Hs.
Qed.

Lemma slot_automatic r d :
  same_automatic r d → slot d = Some (ar_NodeID r, ar_Target r, Some (ar_RuleID r)).
Proof.
  intros (Ha & Hs & <- & <- & <-). unfold slot, is_active. by rewrite bool_decide_true, Hs.
Qed.

Lemma RecordAutomatic_preserves r : preserves (RecordAutomatic r).
Proof.
  intros ds Hok. unfold RecordAutomatic. destruct (is_nil _); [by apply preserved_same|].
  destruct (Decision_Validate (automatic_candidate r)) as [[]|] eqn:Hv; cbn [wrap]; run;
    [|by apply preserved_same].
  destruct (list_find (same_automatic r) ds) as [[i d]|] eqn:Hfind; run.
  - apply list_find_Some in Hfind as (Hd & (Ha & Hs & Hn & Ht & Hr) & _).
    destruct (d_SuppressedCount d =? max_uint64); [by apply preserved_same|]. run.
    split_and!; [|eapply evolves_update; [done|apply suppressed_evolves]|done].
    + eapply service_update; [done..| |done|by left].
      apply suppressed_valid. pose proof (so_valid _ Hok). by eapply Forall_lookup_1.
    + unfold is_active. by gobool.
  - destruct (decisionIDExistsLocked ds _) eqn:Hid; [by apply preserved_same|]. run.
    split_and!; [|apply evolves_app|done].
    apply service_append; [done..|by apply id_fresh|].
    intros s [= <-]. eapply slot_fresh; [apply Hok|done|].
    intros d Hdv Hs. apply slot_Some in Hs; [|done].
    unfold is_active in Hs. gobool. unfold same_automatic. cbn in Hs. naive_solver.
Qed.

Lemma BanManual_preserves r replace : preserves (BanManual r replace).
Proof.
  intros ds Hok. unfold BanManual.
  destruct (Decision_Validate (manual_candidate r)) as [[]|] eqn:Hv; cbn [wrap]; run;
    [|by apply preserved_same].
  destruct (decisionIDExistsLocked ds _) eqn:Hid; [by apply preserved_same|].
  assert (∀ ds', d_ID <$> ds' = d_ID <$> ds → service_ok ds' →
            list_find (same_manual r) ds' = None → service_ok (ds' ++ [manual_candidate r])) as Happ.
  { intros ds' Hids Hok' Hnone. apply service_append; [done..|rewrite Hids; by apply id_fresh|].
    intros s [= <-]. eapply slot_fresh; [apply Hok'|done|].
    intros d Hdv Hs. apply slot_Some in Hs; [|done].
    unfold is_active in Hs. gobool. unfold same_manual. cbn in Hs. naive_solver. }
  destruct (list_find (same_manual r) ds) as [[i d]|] eqn:Hfind; run.
  2:{ split_and!; [by apply Happ|apply evolves_app|done]. }
  apply list_find_Some in Hfind as (Hd & (Ha & Hs & Hn & Ht) & Hbefore).
  destruct replace; cbn [negb]; run; [|by apply preserved_same].
  destruct (Before _ _); [by apply preserved_same|].
  destruct (Decision_Validate (with_terminal _ _ _ _)) as [[]|] eqn:Hvt; cbn [wrap]; run;
    [|by apply preserved_same].
  set (d' := with_terminal _ _ _ _) in *.
  assert (service_ok (<[i:=d']> ds)) as Hok'.
  { eapply service_update; [done..|]. right. by apply slot_terminal. }
  split_and!; [|etrans; [eapply evolves_update; [done|]|apply evolves_app]|done].
  - apply Happ; [|done|].
    + rewrite list_fmap_insert, list_insert_id; [done|]. by rewrite list_lookup_fmap, Hd.
    + apply list_find_None, Forall_lookup. intros j e Hj Hm.
      destruct (decide (i = j)) as [<-|Hij].
      { rewrite list_lookup_insert_eq in Hj by by eapply lookup_lt_Some.
        injection Hj as <-. destruct Hm as [Hm _]. discriminate Hm. }
      rewrite list_lookup_insert_ne in Hj by done. apply Hij.
      apply (slot_unique ds i j d e (mr_NodeID r, mr_Target r, None)); [done..| |];
        by apply slot_manual.
  - apply terminal_evolves. unfold is_active. by gobool.
Qed.

(** Under the invariant Expire cannot fail: every due entry ends, every other
    entry is kept. *)
Definition expire_entry (now : time) (d : Decision) : Decision :=
  if due now d then with_terminal d DecisionExpired now EndReasonExpired else d.

Lemma expire_loop_eq now ds :
  Forall valid_decision ds →
  expire_loop now ds =
    (Ok (expire_entry now <$> base.filter (λ d, due now d = true) ds), expire_entry now <$> ds).
Proof.
  induction 1 as [|d ds Hd Hds IH]; [done|].
  cbn [expire_loop]. rewrite IH, filter_cons, fmap_cons.
  destruct (due now d) eqn:Hdue.
  - pose proof (expired_valid d now Hd Hdue) as Hv. unfold valid_decision in Hv.
    rewrite decide_True, Hv, fmap_cons by done. cbn [wrap mbind result_bind].
    assert (expire_entry now d = with_terminal d DecisionExpired now EndReasonExpired) as ->;
      [|done]. unfold expire_entry. by rewrite Hdue.
  - rewrite decide_False by done.
    assert (expire_entry now d = d) as ->; [|done]. unfold expire_entry. by rewrite Hdue.
Qed.

Lemma expire_entry_evolves now d : entry_evolves d (expire_entry now d).
Proof.
  unfold expire_entry. destruct (due now d) eqn:Hd; [|done]. apply terminal_evolves.
  unfold due in Hd. by apply andb_true_iff in Hd as [? _].
Qed.

(** Rewriting every entry in place, none gaining a slot. *)
Lemma service_fmap (f : Decision → Decision) ds :
  (∀ d, valid_decision d → valid_decision (f d) ∧ d_ID (f d) = d_ID d ∧
        (slot (f d) = slot d ∨ slot (f d) = None)) →
  service_ok ds → service_ok (f <$> ds).
Proof.
  intros Hf [Hv Hids Hs]. split.
  - apply Forall_fmap. eapply Forall_impl; [done|]. intros d Hd. by apply Hf.
  - rewrite <- list_fmap_compose. rewrite (list_fmap_ext _ d_ID ds); [done|].
    intros i d Hd. apply Hf. by eapply Forall_lookup_1.
  - clear Hids. induction Hv as [|d ds Hd Hds IH]; [done|]. cbn [fmap list_fmap omap list_omap] in *.
    assert (∀ s, s ∈ omap slot (f <$> ds) → s ∈ omap slot ds) as Hsub.
    { intros s (e & (e' & -> & He)%list_elem_of_fmap & Hse)%list_elem_of_omap.
      apply list_elem_of_omap. exists e'. split; [done|]. rewrite Forall_forall in Hds.
      destruct (Hf e' (Hds e' He)) as (_ & _ & [<-|Hn]); congruence. }
    destruct (Hf d Hd) as (_ & _ & [-> | ->]); destruct (slot d) as [s|] eqn:Es;
      try (apply NoDup_cons in Hs as [Hn Hs]); auto.
    apply NoDup_cons. split; [|by apply IH]. by intros ?%Hsub.
Qed.

Lemma expire_fmap_ok now ds : service_ok ds → service_ok (expire_entry now <$> ds).
Proof.
  apply service_fmap. intros d Hd. unfold expire_entry. destruct (due now d) eqn:Hdue; [|by auto].
  split_and!; [by apply expired_valid|done|right; by apply slot_terminal].
Qed.

Lemma Expire_preserves now : preserves (Expire now).
Proof.
  intros ds Hok. unfold Expire. destruct (IsZero now); run; [by apply preserved_same|].
  rewrite expire_loop_eq by apply Hok. cbn [fst snd]. split_and!; [by apply expire_fmap_ok| |done].
  intros i d Hd. exists (expire_entry now d). split; [by rewrite list_lookup_fmap, Hd|].
  apply expire_entry_evolves.
Qed.

Lemma Revoke_preserves id t reason : preserves (Revoke id t reason).
Proof.
  intros ds Hok. unfold Revoke. destruct (IsZero t); run; [by apply preserved_same|].
  destruct (list_find (λ d, d_ID d = id) ds) as [[i d]|] eqn:Hfind; run; [|by apply preserved_same].
  apply list_find_Some in Hfind as (Hd & Hid & _).
  case_bool_decide as Ha; cbn [negb].
  2:{ destruct (_ && _); run; by apply preserved_same. }
  destruct (Decision_Validate (with_terminal _ _ _ _)) as [[]|] eqn:Hv; cbn [wrap]; run;
    [|by apply preserved_same].
  split_and!; [|eapply evolves_update; [done|apply terminal_evolves]|done].
  - eapply service_update; [done..|]. right. by apply slot_terminal.
  - unfold is_active. by gobool.
Qed.

(** ** Reachable histories *)
Inductive call :=
  | CallRecordAutomatic (r : AutomaticRequest)
  | CallBanManual (r : ManualRequest) (replace : bool)
  | CallExpire (now : time)
  | CallRevoke (id : DecisionID) (endedAt : time) (reason : DecisionEndReason).

Definition run_call (c : call) (ds : service) : service :=
  match c with
  | CallRecordAutomatic r => (RecordAutomatic r ds).2
  | CallBanManual r replace => (BanManual r replace ds).2
  | CallExpire now => (Expire now ds).2
  | CallRevoke id t reason => (Revoke id t reason ds).2
  end.

Inductive service_step : service → service → Prop :=
  | step_call c ds : service_step ds (run_call c ds).

Lemma run_call_ok c ds : service_ok ds → service_ok (run_call c ds) ∧ evolves ds (run_call c ds).
Proof.
  intros Hok. destruct c; cbn.
  - destruct (RecordAutomatic_preserves r ds Hok) as (? & ? & _); done.
  - destruct (BanManual_preserves r replace ds Hok) as (? & ? & _); done.
  - destruct (Expire_preserves now ds Hok) as (? & ? & _); done.
  - destruct (Revoke_preserves id endedAt reason ds Hok) as (? & ? & _); done.
Qed.

Lemma steps_ok ds ds' :
  rtc service_step ds ds' → service_ok ds → service_ok ds' ∧ evolves ds ds'.
Proof.
  induction 1 as [|a b c [call a'] _ IH]; [done|]. intros Hok.
  destruct (run_call_ok call a' Hok) as [Hb He]. destruct (IH Hb) as [Hc He'].
  split; [done|by etrans].
Qed.

Lemma NewMemoryService_ok : service_ok NewMemoryService.
Proof. split; cbn; constructor. Qed.

(** from the empty service, any sequence of calls keeps every decision
    valid, decision ids unique and each slot ((node, target) of a manual ban,
    (node, target, rule) of an automatic one) held by at most one active
    decision; any further sequence of calls keeps every entry at its index
    with its creation facts and never changes a terminal entry. *)
Theorem memory_history_invariant ds ds' :
  rtc service_step NewMemoryService ds → rtc service_step ds ds' →
  service_ok ds' ∧
  (∀ i j d e s, ds' !! i = Some d → ds' !! j = Some e →
     slot d = Some s → slot e = Some s → i = j) ∧
  (∀ i d, ds !! i = Some d → ∃ d', ds' !! i = Some d' ∧ entry_evolves d d').
Proof.
  intros H1 H2. destruct (steps_ok _ _ H1 NewMemoryService_ok) as [Hok _].
  destruct (steps_ok _ _ H2 Hok) as [Hok' Hev].
  split_and!; [done| |done]. intros. by eapply slot_unique.
Qed.

(** A successful manual ban is the only active manual decision of its
    node and target; the one it replaced, if any, is kept as revoked with
    reason manual_replace, and only a request with replace may replace. *)
Theorem BanManual_single_active r replace ds res ds' :
  service_ok ds → BanManual r replace ds = (Ok res, ds') →
  mres_Current res ∈ ds' ∧ d_ID (mres_Current res) = mr_DecisionID r ∧
  (∀ d, d ∈ ds' → same_manual r d → d = mres_Current res) ∧
  (∀ old, old ∈ ds → same_manual r old → replace = true ∧
     ∃ p, mres_Previous res = Some p ∧ p ∈ ds' ∧ d_ID p = d_ID old ∧
          d_State p = DecisionRevoked ∧ d_EndReason p = Some EndReasonManualReplace ∧
          d_EndedAt p = Some (mr_CreatedAt r)).
Proof.
  intros Hok H. pose proof (BanManual_preserves r replace ds Hok) as (Hok' & _ & _).
  rewrite H in Hok'. cbn in Hok'.
  assert (mres_Current res = manual_candidate r ∧ manual_candidate r ∈ ds') as [Hcur Hin].
  { unfold BanManual in H. run. destruct (Decision_Validate _); cbn [wrap] in H; run; [|done].
    destruct (decisionIDExistsLocked _ _); [done|].
    destruct (list_find _ _) as [[i d]|]; run.
    - destruct replace; cbn [negb] in H; run; [|done]. destruct (Before _ _); [done|].
      destruct (Decision_Validate _); cbn [wrap] in H; run; [|done].
      simplify_eq. split; [done|]. set_solver.
    - simplify_eq. split; [done|]. set_solver. }
  rewrite Hcur. split_and!; [done|done| |].
  - intros d Hd Hs. apply list_elem_of_lookup in Hd as [i Hi], Hin as [j Hj].
    assert (i = j) as ->; [|congruence].
    eapply (slot_unique ds' i j d (manual_candidate r)); [done..|by apply slot_manual|done].
  - intros old Hold Hs. unfold BanManual in H. run.
    destruct (Decision_Validate _); cbn [wrap] in H; run; [|done].
    destruct (decisionIDExistsLocked _ _); [done|].
    destruct (list_find (same_manual r) ds) as [[i d]|] eqn:Hf; run.
    2:{ apply list_find_None in Hf. rewrite Forall_forall in Hf. by destruct (Hf old Hold). }
    apply list_find_Some in Hf as (Hd & Hs' & _).
    destruct replace; cbn [negb] in H; run; [|done]. split; [done|].
    destruct (Before _ _); [done|]. destruct (Decision_Validate _); cbn [wrap] in H; run; [|done].
    simplify_eq. apply list_elem_of_lookup in Hold as [j Hj].
    assert (i = j) as <-.
    { eapply (slot_unique ds i j d old); [done..|by apply slot_manual|by apply slot_manual]. }
    simplify_eq. eexists. split_and!; [done| |done..].
    apply elem_of_app. left. apply list_elem_of_insert. by eapply lookup_lt_Some.
Qed.

(** A successful automatic trigger leaves exactly one active automatic
    decision for its node, target and rule, the one returned: a new one when
    there was none, else the existing one with its suppression count raised
    by exactly one (never wrapping) and its trigger time never lowered. *)
Theorem RecordAutomatic_single_active r ds res ds' :
  service_ok ds → Forall (λ d, 0 ≤ d_SuppressedCount d ≤ max_uint64) ds →
  RecordAutomatic r ds = (Ok res, ds') →
  ares_Decision res ∈ ds' ∧
  (∀ d, d ∈ ds' → same_automatic r d → d = ares_Decision res) ∧
  (ares_Created res = true ↔ ∀ d, d ∈ ds → ¬ same_automatic r d) ∧
  (∀ old, old ∈ ds → same_automatic r old →
     d_ID (ares_Decision res) = d_ID old ∧
     d_SuppressedCount (ares_Decision res) = d_SuppressedCount old + 1 ∧
     d_LastTriggeredAt (ares_Decision res) = Z.max (d_LastTriggeredAt old) (ar_TriggeredAt r)).
Proof.
  intros Hok Hcnt H. pose proof (RecordAutomatic_preserves r ds Hok) as (Hok' & _ & _).
  rewrite H in Hok'. cbn in Hok'.
  unfold RecordAutomatic in H. destruct (is_nil _); [done|]. run.
  destruct (Decision_Validate _) as [[]|] eqn:Hv; cbn [wrap] in H; run; [|done].
  assert (∀ c, c ∈ ds' → same_automatic r c → ∀ d, d ∈ ds' → same_automatic r d → d = c) as Huniq.
  { intros c Hc Hsc d Hd Hsd. apply list_elem_of_lookup in Hc as [j Hj], Hd as [i Hi].
    assert (i = j) as ->; [|congruence].
    eapply (slot_unique ds'); [done..|by apply slot_automatic|by apply slot_automatic]. }
  destruct (list_find (same_automatic r) ds) as [[i d]|] eqn:Hf; run.
  - apply list_find_Some in Hf as (Hd & Hs & _).
    destruct (Z.eqb_spec (d_SuppressedCount d) max_uint64) as [|Hne]; run; [done|]. simplify_eq.
    assert (with_suppressed d (ar_TriggeredAt r) ∈
            <[i:=with_suppressed d (ar_TriggeredAt r)]> ds) as Hin.
    { apply list_elem_of_insert. by eapply lookup_lt_Some. }
    cbn [ares_Decision ares_Created]. split_and!; [done|by apply Huniq| |].
    + split; [done|]. intros Hno. exfalso. eapply Hno; [|done]. by eapply list_elem_of_lookup_2.
    + intros old Hold Hso. apply list_elem_of_lookup in Hold as [j Hj].
      assert (i = j) as <-.
      { eapply (slot_unique ds); [done..|by apply slot_automatic|by apply slot_automatic]. }
      simplify_eq. split; [done|]. cbn. eapply Forall_lookup_1 in Hcnt; [|done]. cbn in Hcnt.
      split; [apply Z.mod_small; unfold max_uint64 in *; lia|].
      unfold After. destruct (Z.ltb_spec (d_LastTriggeredAt d) (ar_TriggeredAt r)); lia.
  - destruct (decisionIDExistsLocked _ _); [done|]. run. simplify_eq.
    apply list_find_None in Hf. rewrite Forall_forall in Hf.
    assert (automatic_candidate r ∈ ds ++ [automatic_candidate r]) by set_solver.
    cbn [ares_Decision ares_Created]. split_and!; [done|by apply Huniq|done|].
    intros old Hold Hso. by destruct (Hf old Hold).
Qed.

(** On a reachable history Expire always succeeds: it returns exactly the
    ended forms of the due active decisions, leaves every other entry as it
    was and no due one behind, and running it again at an earlier or equal
    time changes nothing. *)
Theorem Expire_complete now ds :
  service_ok ds → now ≠ 0 →
  ∃ expired ds',
    Expire now ds = (Ok expired, ds') ∧
    (∀ e, e ∈ expired ↔ ∃ d, d ∈ ds ∧ due now d = true ∧
        e = with_terminal d DecisionExpired now EndReasonExpired) ∧
    (∀ i d, ds !! i = Some d → due now d = false → ds' !! i = Some d) ∧
    (∀ d, d ∈ ds' → due now d = false) ∧
    (∀ now', now' ≠ 0 → now' ≤ now → Expire now' ds' = (Ok [], ds')).
Proof.
  intros Hok Hnow.
  assert (∀ t, t ≠ 0 → IsZero t = false) as Hz by (intros t Ht; unfold IsZero; by gobool).
  assert (∀ now' d, now' ≤ now → due now' (expire_entry now d) = false) as Hnd.
  { intros now' d Hle. unfold expire_entry. destruct (due now d) eqn:Hd; [done|].
    unfold due, After in *. destruct (d_ExpiresAt d); gobool; [|tauto].
    destruct Hd; [tauto|right; lia]. }
  eexists _, _. split; [unfold Expire; rewrite Hz by done; by apply expire_loop_eq, Hok|].
  split_and!.
  - intros e. rewrite list_elem_of_fmap. setoid_rewrite list_elem_of_filter. unfold expire_entry.
    split.
    + intros (d & -> & Hd & Hin). rewrite Hd. eauto.
    + intros (d & Hin & Hd & ->). exists d. by rewrite Hd.
  - intros i d Hi Hd. rewrite list_lookup_fmap, Hi. cbn. unfold expire_entry. by rewrite Hd.
  - intros d (d' & -> & _)%list_elem_of_fmap. by apply Hnd.
  - intros now' Hn' Hle. unfold Expire. rewrite Hz by done.
    rewrite expire_loop_eq by apply (expire_fmap_ok now ds Hok). f_equal.
    + rewrite filter_none; [done|].
      apply Forall_fmap, Forall_forall. intros d _. cbn. by rewrite Hnd.
    + rewrite <- list_fmap_compose. apply list_fmap_ext. intros i d _. cbn.
      unfold expire_entry at 1. by rewrite Hnd.
Qed.

(** A successful revocation is final: the returned decision is revoked
    with the requested reason, repeating the request returns the same decision
    and changes nothing, and another reason is refused as a terminal conflict. *)
Theorem Revoke_final id t reason ds d ds' :
  service_ok ds → Revoke id t reason ds = (Ok d, ds') →
  d_ID d = id ∧ d_State d = DecisionRevoked ∧ d_EndReason d = Some reason ∧ d ∈ ds' ∧
  (∀ t', t' ≠ 0 → Revoke id t' reason ds' = (Ok d, ds')) ∧
  (∀ t' reason', t' ≠ 0 → reason' ≠ reason →
     ∃ e, Revoke id t' reason' ds' = (Err e, ds') ∧ errors_Is e ErrTerminalConflict = true).
Proof.
  intros Hok H. pose proof (Revoke_preserves id t reason ds Hok) as (Hok' & _ & _).
  rewrite H in Hok'. cbn in Hok'.
  assert (d ∈ ds' ∧ d_ID d = id ∧ d_State d = DecisionRevoked ∧ d_EndReason d = Some reason)
    as (Hin & Hid & Hst & Hr).
  { unfold Revoke in H. destruct (IsZero t); [done|]. run.
    destruct (list_find _ ds) as [[i c]|] eqn:Hf; [|done].
    apply list_find_Some in Hf as (Hc & Hid & _).
    destruct (negb _).
    - destruct (_ && _) eqn:Hb; [|done]. run. simplify_eq. gobool. destruct Hb.
      split; [by eapply list_elem_of_lookup_2|done].
    - destruct (Decision_Validate _); cbn [wrap] in H; run; [|done]. simplify_eq.
      split; [|done]. apply list_elem_of_insert. by eapply lookup_lt_Some. }
  assert (∀ t' reason', t' ≠ 0 → Revoke id t' reason' ds' =
     if bool_decide (reason = reason') then (Ok d, ds')
     else (Err (TerminalConflictError id DecisionRevoked (Some reason) reason'), ds')) as Hagain.
  { intros t' reason' Ht'. unfold Revoke.
    assert (IsZero t' = false) as -> by (unfold IsZero; gobool; done). run.
    destruct (list_find (λ d, d_ID d = id) ds') as [[i c]|] eqn:Hf.
    2:{ apply list_find_None in Hf. rewrite Forall_forall in Hf. by destruct (Hf d Hin). }
    apply list_find_Some in Hf as (Hc & Hcid & _).
    assert (c = d) as ->.
    { pose proof (so_ids _ Hok') as Hnd. apply list_elem_of_lookup in Hin as [j Hj].
      assert (i = j) as ->; [|congruence].
      eapply (NoDup_lookup _ _ _ id Hnd); rewrite list_lookup_fmap; [rewrite Hc|rewrite Hj];
        cbn; congruence. }
    rewrite Hst, Hr, Hid. rewrite (bool_decide_false (DecisionRevoked = DecisionActive)),
      (bool_decide_true (DecisionRevoked = DecisionRevoked)) by done. cbn [negb andb].
    rewrite (bool_decide_ext (Some reason = Some reason') (reason = reason')) by naive_solver.
    by case_bool_decide. }
  split_and!; try done.
  - intros t' Ht'. by rewrite Hagain, bool_decide_true.
  - intros t' reason' Ht' Hne. rewrite Hagain, bool_decide_false by done.
    eexists. split; [done|]. apply orb_true_r.
Qed.

(** ** Witnesses *)
Definition sample_automatic (n : string) (at_ : time) : AutomaticRequest :=
  MkAutomaticRequest n EmptyString EmptyString sample_node "ssh" (Some "v1") None sample_target
    at_ (Some (at_ + minute)).
Definition sample_manual (n : string) (at_ : time) : ManualRequest :=
  MkManualRequest n sample_node sample_target at_ None.

Definition sample_history : service :=
  run_call (CallBanManual (sample_manual "m1" sample_time) false)
    (run_call (CallRecordAutomatic (sample_automatic "a1" sample_time)) NewMemoryService).

Lemma sample_history_reachable : rtc service_step NewMemoryService sample_history.
Proof.
  unfold sample_history. eapply rtc_l; [apply step_call|]. eapply rtc_once, step_call.
Qed.

Lemma sample_history_ok : service_ok sample_history.
Proof. apply (steps_ok _ _ sample_history_reachable NewMemoryService_ok). Qed.

Lemma memory_history_invariant_witness :
  ∃ d, run_call (CallExpire (sample_time + minute)) sample_history !! 0%nat = Some d ∧
       d_State d = DecisionExpired ∧
       service_ok (run_call (CallExpire (sample_time + minute)) sample_history).
Proof.
  eexists. split; [vm_compute; reflexivity|]. split; [reflexivity|].
  apply (memory_history_invariant sample_history).
  - apply sample_history_reachable.
  - apply rtc_once. constructor.
Defined.

Lemma BanManual_single_active_witness :
  ∃ res ds', BanManual (sample_manual "m2" (sample_time + 1)) true sample_history = (Ok res, ds') ∧
    mres_Current res ∈ ds' ∧ mres_Replaced res = true.
Proof.
  eexists _, _. split; [vm_compute; reflexivity|]. split; [|reflexivity].
  eapply (BanManual_single_active (sample_manual "m2" (sample_time + 1)) true sample_history);
    [apply sample_history_ok|vm_compute; reflexivity].
Defined.

Lemma RecordAutomatic_single_active_witness :
  ∃ res ds', RecordAutomatic (sample_automatic "a2" (sample_time + 1)) sample_history = (Ok res, ds') ∧
    ares_Decision res ∈ ds' ∧ ares_Created res = false.
Proof.
  eexists _, _. split; [vm_compute; reflexivity|]. split; [|reflexivity].
  eapply (RecordAutomatic_single_active (sample_automatic "a2" (sample_time + 1)) sample_history).
  - apply sample_history_ok.
  - repeat constructor; vm_compute; discriminate.
  - vm_compute; reflexivity.
Defined.

Lemma Expire_complete_witness :
  ∃ expired ds', Expire (sample_time + minute) sample_history = (Ok expired, ds') ∧
    length expired = 1%nat ∧ Expire (sample_time + minute) ds' = (Ok [], ds').
Proof.
  destruct (Expire_complete (sample_time + minute) sample_history sample_history_ok)
    as (expired & ds' & H & _ & _ & _ & Hagain); [vm_compute; discriminate|].
  exists expired, ds'. split; [done|]. split.
  - vm_compute in H. injection H as <- _. reflexivity.
  - apply Hagain; [vm_compute; discriminate|vm_compute; discriminate].
Defined.

Lemma Revoke_final_witness :
  ∃ d ds', Revoke "m1" (sample_time + 5) EndReasonManual sample_history = (Ok d, ds') ∧
    Revoke "m1" (sample_time + 9) EndReasonManual ds' = (Ok d, ds').
Proof.
  eexists _, _. split; [vm_compute; reflexivity|].
  eapply (Revoke_final "m1" (sample_time + 5) EndReasonManual sample_history);
    [apply sample_history_ok|vm_compute; reflexivity|vm_compute; discriminate].
Defined.
