(* ===== verification/Checkpoint.v ===== *)
(** * Source checkpoints (internal/source/checkpoint.go)

    [CompletionTracker] turns out-of-order durable completions into
    checkpoints that never skip a sequence; [CheckpointManager] keeps the
    candidate that is not saved yet. The manager's two critical sections and
    the save between them are separate steps, so a Complete may run while a
    Flush is saving. *)

From S2P Require Import Prelude GoStd Netip Identity CoreModel.

Record checkpointCandidate := MkCandidate {
  cc_SourceID : SourceID;
  cc_ThroughSequence : Z;
  cc_Position : SourcePosition;
  cc_FileRanges : list FilePosition
}.

Record CompletionTracker := MkTracker {
  ct_sourceID : SourceID;
  ct_next : Z;
  ct_completed : gmap Z SourcePosition;
  ct_exhausted : bool
}.

Definition NewCompletionTracker (sourceID : SourceID) (next : Z) : result CompletionTracker :=
  fail_if (is_empty sourceID) (Errorf "source id is required");;
  fail_if (next =? 0) (Errorf "next delivery sequence must be positive");;
  Ok (MkTracker sourceID next ∅ false).

(** ** mergeFileRanges *)
Definition with_EndOffset (f : FilePosition) (e : Z) : FilePosition :=
  MkFilePosition (fp_Generation f) (fp_DeviceID f) (fp_Inode f) (fp_StartOffset f) e.

(** [for i, file := range merged { indices[file.Generation] = i }] *)
Fixpoint index_generations (i : nat) (merged : list FilePosition) (indices : gmap string nat)
    : gmap string nat :=
  match merged with
  | [] => indices
  | file :: rest => index_generations (S i) rest (<[fp_Generation file := i]> indices)
  end.

Fixpoint merge_loop (merged : list FilePosition) (indices : gmap string nat)
    (next : list FilePosition) : result (list FilePosition) :=
  match next with
  | [] => Ok merged
  | file :: rest =>
    match indices !! fp_Generation file with
    | Some i =>
      match merged !! i with
      | Some last =>
        fail_if (negb (fp_DeviceID last =? fp_DeviceID file)
                 || negb (fp_Inode last =? fp_Inode file)
                 || negb (fp_EndOffset last =? fp_StartOffset file))
                (Errorf "generation %q completion range is not contiguous");;
        merge_loop (<[i := with_EndOffset last (fp_EndOffset file)]> merged) indices rest
      | None => Err (Errorf "index out of range")
      end
    | None =>
      merge_loop (merged ++ [file]) (<[fp_Generation file := length merged]> indices) rest
    end
  end.

Definition mergeFileRanges (previous next : list FilePosition) : result (list FilePosition) :=
  merge_loop previous (index_generations 0 previous ∅) next.

(** ** CompletionTracker.Mark *)
(** The first loop: walk the completed sequences from [next]. The fuel is one
    more than the number of completed entries, and each round consumes one. *)
Fixpoint mark_scan (fuel : nat) (src : SourceID) (completed : gmap Z SourcePosition)
    (next : Z) (candidate : option checkpointCandidate) : result (option checkpointCandidate) :=
  match fuel with
  | O => Ok candidate
  | S f =>
    match completed !! next with
    | None => Ok candidate
    | Some position =>
      let ranges := match candidate with Some c => cc_FileRanges c | None => [] end in
      ranges' ← match SourcePosition_File position with
                | Some file => mergeFileRanges ranges [file]
                | None => Ok ranges
                end;
      let candidate := Some (MkCandidate src next position ranges') in
      if next =? max_uint64 then Ok candidate
      else mark_scan f src completed (next + 1) candidate
    end
  end.

(** The second loop: forget what the candidate covers. *)
Fixpoint mark_advance (fuel : nat) (through : Z) (t : CompletionTracker) : CompletionTracker :=
  match fuel with
  | O => t
  | S f =>
    let completed := delete (ct_next t) (ct_completed t) in
    if ct_next t =? max_uint64
    then MkTracker (ct_sourceID t) (ct_next t) completed true
    else
      let t' := MkTracker (ct_sourceID t) (ct_next t + 1) completed (ct_exhausted t) in
      if through <? ct_next t' then t' else mark_advance f through t'
  end.

Definition Mark (completion : DurableCompletion) (t : CompletionTracker)
    : result (option checkpointCandidate) * CompletionTracker :=
  let seq := dc_Sequence completion in
  if negb (bool_decide (dc_SourceID completion = ct_sourceID t))
  then (Err (Errorf "completion source id mismatch"), t)
  else if negb (ValidDeliveryID (dc_DeliveryID completion)) || (seq =? 0)
          || negb (SourcePosition_Valid (dc_Position completion))
  then (Err (Errorf "invalid durable completion"), t)
  else if ct_exhausted t
  then (Err (Errorf "delivery sequence space is exhausted"), t)
  else if seq <? ct_next t then (Ok None, t)
  else match ct_completed t !! seq with
  | Some existing =>
    if negb (bool_decide (existing = dc_Position completion))
    then (Err (Errorf "delivery sequence %d has conflicting positions"), t)
    else (Ok None, t)
  | None =>
    let completed := <[seq := dc_Position completion]> (ct_completed t) in
    let t1 := MkTracker (ct_sourceID t) (ct_next t) completed (ct_exhausted t) in
    match mark_scan (S (size completed)) (ct_sourceID t) completed (ct_next t) None with
    | Err e => (Err e, t1)
    | Ok None => (Ok None, t1)
    | Ok (Some c) =>
      (Ok (Some c),
       mark_advance (Z.to_nat (cc_ThroughSequence c - ct_next t + 1)) (cc_ThroughSequence c) t1)
    end
  end.

(** ** CheckpointManager *)
Record CheckpointManager := MkManager {
  cm_tracker : CompletionTracker;
  cm_pending : option checkpointCandidate;
  cm_invalid : option error
}.
Definition NewCheckpointManager (tracker : CompletionTracker) : CheckpointManager :=
  MkManager tracker None None.

(** Complete up to the Flush call (under [mu]). *)
Definition Complete_locked (completion : DurableCompletion) : ST CheckpointManager unit := λ m,
  match cm_invalid m with
  | Some err => (Err err, m)
  | None =>
    let '(r, tracker) := Mark completion (cm_tracker m) in
    match r with
    | Err err => (Err err, MkManager tracker (cm_pending m) (Some err))
    | Ok None => (Ok tt, MkManager tracker (cm_pending m) None)
    | Ok (Some c) =>
      match cm_pending m with
      | None => (Ok tt, MkManager tracker (Some c) None)
      | Some p =>
        match mergeFileRanges (cc_FileRanges p) (cc_FileRanges c) with
        | Err err => (Err err, MkManager tracker (cm_pending m) (Some err))
        | Ok ranges =>
          (Ok tt, MkManager tracker
             (Some (MkCandidate (cc_SourceID c) (cc_ThroughSequence c) (cc_Position c) ranges)) None)
        end
      end
    end
  end.

(** Flush: what it saves, and what it does once the save returned. *)
Definition Flush_begin (m : CheckpointManager) : result (option checkpointCandidate) :=
  match cm_invalid m with Some err => Err err | None => Ok (cm_pending m) end.
Definition Flush_saved (pending : checkpointCandidate) (m : CheckpointManager) : CheckpointManager :=
  match cm_pending m with
  | Some p => if cc_ThroughSequence p =? cc_ThroughSequence pending
              then MkManager (cm_tracker m) None (cm_invalid m) else m
  | None => m
  end.

(** checkpointStore.saveCheckpoint is an interface: a function of the store's
    state. *)
Section sequential.
Context {Store : Type}.
Context (saveCheckpoint : checkpointCandidate → Store → result unit * Store).

Definition Flush : ST (CheckpointManager * Store) unit := λ '(m, st),
  match Flush_begin m with
  | Err err => (Err err, (m, st))
  | Ok None => (Ok tt, (m, st))
  | Ok (Some pending) =>
    let '(r, st') := saveCheckpoint pending st in
    match r with
    | Err err => (Err (Wrapf "save source checkpoint" err), (m, st'))
    | Ok _ => (Ok tt, (Flush_saved pending m, st'))
    end
  end.

Definition Complete (completion : DurableCompletion) : ST (CheckpointManager * Store) unit :=
  λ '(m, st),
  match Complete_locked completion m with
  | (Err err, m') => (Err err, (m', st))
  | (Ok _, m') => Flush (m', st)
  end.
End sequential.

(** ** Bytes of a set of ranges *)
(** A byte offset of a file, identified by generation, device and inode. *)
Definition holds_byte (r : FilePosition) (id : string * Z * Z) (b : Z) : Prop :=
  (fp_Generation r, fp_DeviceID r, fp_Inode r) = id ∧ fp_StartOffset r ≤ b < fp_EndOffset r.
Definition byte_in (ranges : list FilePosition) (id : string * Z * Z) (b : Z) : Prop :=
  ∃ r, r ∈ ranges ∧ holds_byte r id b.
Definition ordered (r : FilePosition) : Prop := fp_StartOffset r ≤ fp_EndOffset r.
Definition ranges_ok (ranges : list FilePosition) : Prop :=
  NoDup (fp_Generation <$> ranges) ∧ Forall ordered ranges.

Lemma byte_in_app l1 l2 id b : byte_in (l1 ++ l2) id b ↔ byte_in l1 id b ∨ byte_in l2 id b.
Proof. unfold byte_in. set_solver. Qed.
Lemma byte_in_one r id b : byte_in [r] id b ↔ holds_byte r id b.
Proof. unfold byte_in. set_solver. Qed.

Lemma byte_in_insert l i r r' id b :
  l !! i = Some r →
  byte_in (<[i := r']> l) id b ↔
    holds_byte r' id b ∨ ∃ j q, l !! j = Some q ∧ j ≠ i ∧ holds_byte q id b.
Proof.
  intros Hi. unfold byte_in. setoid_rewrite list_elem_of_lookup. split.
  - intros (q & (j & Hj) & Hq). destruct (decide (j = i)) as [->|Hne].
    + rewrite list_lookup_insert_eq in Hj by by eapply lookup_lt_Some. simplify_eq. by left.
    + rewrite list_lookup_insert_ne in Hj by done. right. eauto.
  - intros [Hq|(j & q & Hj & Hne & Hq)].
    + exists r'. split; [|done]. exists i. apply list_lookup_insert_eq. by eapply lookup_lt_Some.
    + exists q. split; [|done]. exists j. by rewrite list_lookup_insert_ne.
Qed.

Definition indices_ok (merged : list FilePosition) (indices : gmap string nat) : Prop :=
  ∀ g i, indices !! g = Some i ↔ ∃ f, merged !! i = Some f ∧ fp_Generation f = g.

Lemma index_generations_lookup n l idx g i :
  NoDup (fp_Generation <$> l) →
  index_generations n l idx !! g = Some i ↔
    (∃ k f, l !! k = Some f ∧ fp_Generation f = g ∧ i = (n + k)%nat) ∨
    ((g ∉ fp_Generation <$> l) ∧ idx !! g = Some i).
Proof.
  revert n idx. induction l as [|f l IH]; intros n idx Hnd; cbn [index_generations].
  { split; [intros H; right; split; [apply not_elem_of_nil|done]|].
    intros [(k & f & Hk & _)|[_ H]]; [by rewrite lookup_nil in Hk|done]. }
  apply NoDup_cons in Hnd as [Hnew Hnd]. rewrite IH by done. split.
  - intros [(k & q & Hk & Hq & ->)|[Hg H]].
    + left. exists (S k), q. split_and!; [done|done|lia].
    + destruct (decide (g = fp_Generation f)) as [->|Hne].
      * rewrite lookup_insert_eq in H. injection H as <-. left. exists 0%nat, f.
        split_and!; [done|done|lia].
      * rewrite lookup_insert_ne in H by done. right. split; [|done].
        rewrite fmap_cons. by apply not_elem_of_cons.
  - intros [([|k] & q & Hk & Hq & ->)|[Hg H]].
    + cbn in Hk. simplify_eq. right. split; [done|]. rewrite lookup_insert_eq. f_equal. lia.
    + left. exists k, q. split_and!; [done|done|lia].
    + rewrite fmap_cons in Hg. apply not_elem_of_cons in Hg as [Hne Hg]. right.
      split; [done|]. by rewrite lookup_insert_ne.
Qed.

Lemma indices_ok_init l : NoDup (fp_Generation <$> l) → indices_ok l (index_generations 0 l ∅).
Proof.
  intros Hnd g i. rewrite index_generations_lookup by done. split.
  - intros [(k & f & Hk & Hg & ->)|[_ H]]; [by exists f|by rewrite lookup_empty in H].
  - intros (f & Hf & Hg). left. by exists i, f.
Qed.

Lemma indices_ok_app l f idx :
  indices_ok l idx → idx !! fp_Generation f = None →
  indices_ok (l ++ [f]) (<[fp_Generation f := length l]> idx).
Proof.
  intros Hok Hnone g i. destruct (decide (g = fp_Generation f)) as [->|Hne].
  - rewrite lookup_insert_eq. split.
    + intros [= <-]. exists f. split; [by rewrite list_lookup_middle|done].
    + intros (q & Hq & Hg). apply lookup_app_Some in Hq as [Hq|[Hlen Hq]].
      * assert (idx !! fp_Generation f = Some i) by (apply Hok; eauto). congruence.
      * apply list_lookup_singleton_Some in Hq as [? _]. f_equal. lia.
  - rewrite lookup_insert_ne by done. rewrite (Hok g i). split.
    + intros (q & Hq & Hg). exists q. split; [by apply lookup_app_l_Some|done].
    + intros (q & Hq & Hg). apply lookup_app_Some in Hq as [Hq|[_ Hq]]; [eauto|].
      apply list_lookup_singleton_Some in Hq as [_ <-]. congruence.
Qed.

Lemma indices_ok_insert l i f f' idx :
  l !! i = Some f → fp_Generation f' = fp_Generation f → indices_ok l idx →
  indices_ok (<[i := f']> l) idx.
Proof.
  intros Hi Hg Hok g j. rewrite (Hok g j). destruct (decide (j = i)) as [->|Hne].
  - rewrite list_lookup_insert_eq by by eapply lookup_lt_Some. naive_solver congruence.
  - by rewrite list_lookup_insert_ne.
Qed.

Lemma gens_insert (l : list FilePosition) (i : nat) f f' :
  l !! i = Some f → fp_Generation f' = fp_Generation f →
  fp_Generation <$> (<[i := f']> l) = fp_Generation <$> l.
Proof.
  intros Hi Hg. rewrite list_fmap_insert, Hg. apply list_insert_id.
  by rewrite list_lookup_fmap, Hi.
Qed.

(** The merge keeps exactly the bytes of both lists, one range per generation. *)
Lemma merge_loop_spec next merged idx out :
  indices_ok merged idx → ranges_ok merged → Forall ordered next →
  merge_loop merged idx next = Ok out →
  ranges_ok out ∧ ∀ id b, byte_in out id b ↔ byte_in (merged ++ next) id b.
Proof.
  revert merged idx. induction next as [|f next IH]; intros merged idx Hidx Hok Hord H;
    cbn [merge_loop] in H.
  { inv_ok. by rewrite app_nil_r. }
  apply Forall_cons in Hord as [Hf Hord]. destruct Hok as [Hnd Hmo].
  destruct (idx !! fp_Generation f) as [i|] eqn:Hi.
  - apply Hidx in Hi as (l & Hl & Hg). rewrite Hl in H. inv_ok. gobool.
    destruct H0 as [[Hdev Hino] Hend].
    pose proof (Forall_lookup_1 _ _ _ _ Hmo Hl) as Hlo. unfold ordered in *.
    apply IH in H as [Hout Hbytes]; [|by eapply indices_ok_insert| |done].
    + split; [done|]. intros id b. rewrite Hbytes.
      change (f :: next) with ([f] ++ next). rewrite !byte_in_app, byte_in_one.
      rewrite (byte_in_insert _ _ l) by done.
      assert (byte_in merged id b ↔ holds_byte l id b ∨
               ∃ j q, merged !! j = Some q ∧ j ≠ i ∧ holds_byte q id b) as ->.
      { rewrite <- (list_insert_id merged i l Hl) at 1. by eapply byte_in_insert. }
      assert (holds_byte (with_EndOffset l (fp_EndOffset f)) id b ↔
              holds_byte l id b ∨ holds_byte f id b) as ->; [|tauto].
      unfold holds_byte. cbn. rewrite Hdev, Hino, Hg. split.
      * intros [-> Hb]. destruct (Z.lt_ge_cases b (fp_EndOffset l)); [left|right]; (split; [done|lia]).
      * intros [[-> Hb]|[-> Hb]]; (split; [done|lia]).
    + split; [by rewrite (gens_insert _ _ l)|]. apply Forall_insert; [done|]. cbn.
      unfold ordered. cbn. lia.
  - apply IH in H as [Hout Hbytes]; [|by apply indices_ok_app| |done].
    + split; [done|]. intros id b. rewrite Hbytes, <- app_assoc. done.
    + split; [|by apply Forall_app; split; [|constructor]].
      rewrite fmap_app. apply NoDup_app. split; [done|]. split; [|apply NoDup_singleton].
      intros g (q & -> & Hq)%list_elem_of_fmap. cbn. intros Hg%list_elem_of_singleton.
      apply list_elem_of_lookup in Hq as [k Hk].
      assert (idx !! fp_Generation f = Some k) by (apply Hidx; eauto). congruence.
Qed.

Lemma mergeFileRanges_spec previous next out :
  ranges_ok previous → Forall ordered next → mergeFileRanges previous next = Ok out →
  ranges_ok out ∧ ∀ id b, byte_in out id b ↔ byte_in previous id b ∨ byte_in next id b.
Proof.
  intros Hp Hn H. setoid_rewrite <- byte_in_app.
  eapply merge_loop_spec; [apply indices_ok_init, Hp|done..].
Qed.

(** ** The tracker against the history of accepted completions *)
Abbreviation completions := (gmap Z SourcePosition) (only parsing).

(** [k] is the highest sequence such that everything from [start] completed. *)
Definition contiguous (start k : Z) (H : completions) : Prop :=
  ∀ j, start ≤ j ≤ k → is_Some (H !! j).
Definition frontier (t : CompletionTracker) : Z :=
  if ct_exhausted t then max_uint64 else ct_next t - 1.

Definition history_ok (start : Z) (H : completions) : Prop :=
  map_Forall (λ k p, start ≤ k ≤ max_uint64 ∧ SourcePosition_Valid p = true) H.

Record tracker_inv (start : Z) (H : completions) (t : CompletionTracker) : Prop := {
  ti_history : history_ok start H;
  ti_start : 1 ≤ start ≤ max_uint64;
  ti_frontier : start - 1 ≤ frontier t ≤ max_uint64;
  ti_exhausted : ct_exhausted t = true ↔ frontier t = max_uint64;
  ti_contiguous : contiguous start (frontier t) H;
  ti_gap : H !! (frontier t + 1) = None;
  ti_later : ct_exhausted t = false → ∀ k, frontier t < k → ct_completed t !! k = H !! k;
  ti_earlier : ∀ k, k ≤ frontier t → ct_completed t !! k = None
}.

(** Bytes of the file positions completed in a range of sequences. *)
Definition completed_byte (H : completions) (lo hi : Z) (id : string * Z * Z) (b : Z) : Prop :=
  ∃ k f, lo ≤ k ≤ hi ∧ H !! k = Some (PositionFile f) ∧ holds_byte f id b.

Lemma completed_byte_split H lo mid hi id b :
  lo ≤ mid → mid - 1 ≤ hi →
  completed_byte H lo hi id b ↔ completed_byte H lo (mid - 1) id b ∨ completed_byte H mid hi id b.
Proof.
  intros H1 H2. unfold completed_byte. split.
  - intros (k & f & Hk & Hf). destruct (Z.lt_ge_cases k mid); [left|right]; exists k, f;
      (split; [lia|done]).
  - intros [(k & f & Hk & Hf)|(k & f & Hk & Hf)]; exists k, f; (split; [lia|done]).
Qed.

Lemma completed_byte_one H k id b :
  completed_byte H k k id b ↔ ∃ f, H !! k = Some (PositionFile f) ∧ holds_byte f id b.
Proof.
  unfold completed_byte. split.
  - intros (j & f & Hj & Hf). assert (j = k) as -> by lia. eauto.
  - intros (f & Hf). exists k, f. split; [lia|done].
Qed.

Lemma file_ordered p f :
  SourcePosition_Valid p = true → SourcePosition_File p = Some f → ordered f ∧ p = PositionFile f.
Proof.
  destruct p as [|f'|]; cbn; intros Hv [= ->]. gobool. unfold ordered. split; [lia|done].
Qed.

(** Completed sequences from [next] on: the measure of the scan. *)
Definition remaining (completed : completions) (next : Z) : nat :=
  size (base.filter (λ kp : Z * SourcePosition, next ≤ kp.1) completed).

Lemma remaining_step completed next p :
  completed !! next = Some p → (remaining completed (next + 1) < remaining completed next)%nat.
Proof.
  intros Hp. unfold remaining.
  assert (base.filter (λ kp : Z * SourcePosition, next ≤ kp.1) completed =
          <[next := p]> (base.filter (λ kp : Z * SourcePosition, next + 1 ≤ kp.1) completed)) as ->.
  { apply map_eq. intros k. destruct (decide (k = next)) as [->|Hne].
    - rewrite lookup_insert_eq, map_lookup_filter, Hp. cbn. by rewrite option_guard_True by lia.
    - rewrite lookup_insert_ne, !map_lookup_filter by done.
      destruct (completed !! k); [|done]. cbn.
      destruct (decide (next ≤ k)); [rewrite !option_guard_True by lia|rewrite !option_guard_False by lia];
        done. }
  rewrite map_size_insert_None; [lia|]. rewrite map_lookup_filter, Hp. cbn.
  by rewrite option_guard_False by lia.
Qed.

Lemma remaining_le completed next : (remaining completed next ≤ size completed)%nat.
Proof. apply map_size_filter. Qed.

(** What a scan that found [c] tells about the completed map. *)
Definition scan_result (src : SourceID) (completed : completions) (first : Z)
    (c : checkpointCandidate) : Prop :=
  cc_SourceID c = src ∧ first ≤ cc_ThroughSequence c ≤ max_uint64 ∧
  (∀ k, first ≤ k ≤ cc_ThroughSequence c → is_Some (completed !! k)) ∧
  completed !! cc_ThroughSequence c = Some (cc_Position c) ∧
  ranges_ok (cc_FileRanges c) ∧
  (∀ id b, byte_in (cc_FileRanges c) id b ↔
     completed_byte completed first (cc_ThroughSequence c) id b).

Lemma mark_scan_spec fuel src completed first next cand r :
  map_Forall (λ k p, k ≤ max_uint64 ∧ SourcePosition_Valid p = true) completed →
  (remaining completed next < fuel)%nat → first ≤ next →
  match cand with
  | None => next = first
  | Some c => scan_result src completed first c ∧ cc_ThroughSequence c = next - 1
  end →
  mark_scan fuel src completed next cand = Ok r →
  match r with
  | None => cand = None ∧ completed !! next = None
  | Some c => scan_result src completed first c ∧
      (cc_ThroughSequence c = max_uint64 ∨ completed !! (cc_ThroughSequence c + 1) = None)
  end.
Proof.
  intros Hmap. revert next cand. induction fuel as [|fuel IH]; intros next cand Hf Hle Hc H; [lia|].
  cbn [mark_scan] in H. destruct (completed !! next) as [p|] eqn:Hp.
  2:{ inv_ok. destruct r as [c|]; [|done]. destruct Hc as [Hc Ht]. split; [done|]. right.
      by replace (cc_ThroughSequence c + 1) with next by lia. }
  inv_ok. set (c' := MkCandidate src next p a) in *.
  destruct (Hmap _ _ Hp) as [Hmax Hvalid].
  assert (scan_result src completed first c') as Hc'.
  { set (rs := match cand with Some c => cc_FileRanges c | None => [] end) in *.
    assert (ranges_ok rs ∧ (∀ k, first ≤ k < next → is_Some (completed !! k)) ∧
            ∀ id b, byte_in rs id b ↔ completed_byte completed first (next - 1) id b)
      as (Hrs & Hall & Hbytes).
    { subst rs. destruct cand as [c|].
      - destruct Hc as [(_ & _ & Hk & _ & Hr & Hb) Ht]. rewrite Ht in *.
        split_and!; [done| |done]. intros k Hk'. apply Hk. lia.
      - subst next. split_and!; [split; constructor| intros k Hk; lia|]. intros id b. split.
        + intros (x & Hx & _). by apply not_elem_of_nil in Hx.
        + intros (k & f & Hk & _). lia. }
    assert (ranges_ok a ∧ ∀ id b, byte_in a id b ↔
              byte_in rs id b ∨ completed_byte completed next next id b) as [Ha Hab].
    { destruct (SourcePosition_File p) as [f|] eqn:Hpf.
      - destruct (file_ordered _ _ Hvalid Hpf) as [Hord Hpe]. subst p.
        apply mergeFileRanges_spec in H0 as [Ha Hab]; [|done|by constructor].
        split; [done|]. intros id b. rewrite Hab, byte_in_one, completed_byte_one, Hp.
        naive_solver.
      - inv_ok. split; [done|]. intros id b. rewrite completed_byte_one, Hp.
        destruct p; naive_solver. }
    split_and!; cbn; [done|lia|lia| |done|done|].
    - intros k Hk. destruct (decide (k = next)) as [->|]; [by rewrite Hp|]. apply Hall. lia.
    - intros id b. rewrite (completed_byte_split _ _ next) by lia. by rewrite Hab, Hbytes. }
  destruct (Z.eqb_spec next max_uint64) as [Hm|Hm].
  - inv_ok. split; [done|]. by left.
  - eapply (IH (next + 1) (Some c')) in H.
    + destruct r; [done|]. by destruct H.
    + pose proof (remaining_step _ _ _ Hp). lia.
    + lia.
    + split; [done|]. cbn. lia.
Qed.

Lemma mark_advance_spec fuel through t :
  ct_next t ≤ through ≤ max_uint64 → Z.of_nat fuel = through - ct_next t + 1 →
  let t' := mark_advance fuel through t in
  ct_sourceID t' = ct_sourceID t ∧
  (∀ k, ct_completed t' !! k =
     if decide (ct_next t ≤ k ≤ through) then None else ct_completed t !! k) ∧
  (ct_exhausted t = false →
   if decide (through = max_uint64) then ct_exhausted t' = true
   else ct_exhausted t' = false ∧ ct_next t' = through + 1).
Proof.
  revert t. induction fuel as [|fuel IH]; intros t Hle Hf; [lia|].
  cbn [mark_advance].
  assert (∀ k, delete (ct_next t) (ct_completed t) !! k =
            if decide (k = ct_next t) then None else ct_completed t !! k) as Hdel.
  { intros k. destruct (decide (k = ct_next t)) as [->|];
      [apply lookup_delete_eq|by apply lookup_delete_ne]. }
  destruct (Z.eqb_spec (ct_next t) max_uint64) as [Hm|Hm].
  { cbn. split_and!; [done| |].
    - intros k. rewrite Hdel. clear IH.
      destruct (decide (k = ct_next t)), (decide (ct_next t ≤ k ≤ through)); (done || lia).
    - intros _. rewrite decide_True by lia. done. }
  cbn [ct_next]. destruct (Z.ltb_spec through (ct_next t + 1)) as [Ht|Ht].
  { cbn. split_and!; [done| |].
    - intros k. rewrite Hdel. clear IH.
      destruct (decide (k = ct_next t)), (decide (ct_next t ≤ k ≤ through)); (done || lia).
    - intros He. rewrite decide_False by lia. split; [done|lia]. }
  specialize (IH (MkTracker (ct_sourceID t) (ct_next t + 1)
                   (delete (ct_next t) (ct_completed t)) (ct_exhausted t))).
  cbn [ct_next ct_sourceID ct_completed ct_exhausted] in IH.
  destruct IH as (H1 & H2 & H3); [lia|lia|]. split_and!; [done| |done].
  intros k. rewrite H2, Hdel.
  destruct (decide (k = ct_next t)), (decide (ct_next t ≤ k ≤ through)),
    (decide (ct_next t + 1 ≤ k ≤ through)); (done || lia).
Qed.

(** The history after a completion was accepted. *)
Definition record_completion (start : Z) (H : completions) (c : DurableCompletion) : completions :=
  match H !! dc_Sequence c with
  | Some _ => H
  | None => if start <=? dc_Sequence c then <[dc_Sequence c := dc_Position c]> H else H
  end.

Definition mark_result (H : completions) (t t' : CompletionTracker)
    (r : option checkpointCandidate) : Prop :=
  match r with
  | None => frontier t' = frontier t
  | Some c =>
    cc_SourceID c = ct_sourceID t ∧ cc_ThroughSequence c = frontier t' ∧ frontier t < frontier t' ∧
    H !! frontier t' = Some (cc_Position c) ∧ ranges_ok (cc_FileRanges c) ∧
    ∀ id b, byte_in (cc_FileRanges c) id b ↔ completed_byte H (frontier t + 1) (frontier t') id b
  end.

Lemma record_mono start H c : H ⊆ record_completion start H c.
Proof.
  unfold record_completion. destruct (H !! _) eqn:E; [done|]. destruct (_ <=? _); [|done].
  by apply insert_subseteq.
Qed.

Lemma Mark_fresh start H t c r t' :
  let completed := <[dc_Sequence c := dc_Position c]> (ct_completed t) in
  let H' := <[dc_Sequence c := dc_Position c]> H in
  tracker_inv start H t → ct_exhausted t = false →
  ct_next t ≤ dc_Sequence c ≤ max_uint64 → H !! dc_Sequence c = None →
  SourcePosition_Valid (dc_Position c) = true →
  mark_scan (S (size completed)) (ct_sourceID t) completed (ct_next t) None = Ok r →
  t' = (let t1 := MkTracker (ct_sourceID t) (ct_next t) completed (ct_exhausted t) in
        match r with
        | None => t1
        | Some c => mark_advance (Z.to_nat (cc_ThroughSequence c - ct_next t + 1))
                      (cc_ThroughSequence c) t1
        end) →
  tracker_inv start H' t' ∧ ct_sourceID t' = ct_sourceID t ∧ mark_result H' t t' r.
Proof.
  intros completed H' [Hh Hs Hfr Hex Hcon Hgap Hlater Hearlier] Hne Hseq Hnone Hv Hscan ->.
  assert (frontier t = ct_next t - 1) as Hft by (unfold frontier; by rewrite Hne).
  assert (∀ k, ct_next t ≤ k → completed !! k = H' !! k) as Hsame.
  { intros k Hk. unfold completed, H'. destruct (decide (k = dc_Sequence c)) as [->|Hk'].
    - by rewrite !lookup_insert_eq.
    - rewrite !lookup_insert_ne by done. apply Hlater; [done|lia]. }
  assert (history_ok start H') as Hh'.
  { apply map_Forall_insert_2; [split; [lia|done]|done]. }
  assert (map_Forall (λ k p, k ≤ max_uint64 ∧ SourcePosition_Valid p = true) completed) as Hmap.
  { intros k p Hp. destruct (Z.lt_ge_cases k (ct_next t)) as [Hk|Hk].
    - unfold completed in Hp. rewrite lookup_insert_ne, Hearlier in Hp by lia. done.
    - rewrite Hsame in Hp by lia. destruct (Hh' _ _ Hp). split; [lia|done]. }
  assert (contiguous start (frontier t) H') as Hcon'.
  { intros k Hk. unfold H'. rewrite lookup_insert_ne by lia. by apply Hcon. }
  eapply (mark_scan_spec _ _ _ (ct_next t)) in Hscan;
    [|done|pose proof (remaining_le completed (ct_next t)); lia|lia|done].
  destruct r as [cd|].
  2:{ destruct Hscan as [_ Hn]. cbn. split_and!; [|done|done].
      split; try done; unfold frontier; cbn [ct_exhausted ct_next ct_completed]; rewrite ?Hne.
      - replace (ct_next t - 1 + 1) with (ct_next t) by lia. by rewrite <- Hsame.
      - intros _ k Hk. apply Hsame. lia.
      - intros k Hk. unfold completed. rewrite lookup_insert_ne by lia. apply Hearlier. lia. }
  destruct Hscan as [(Hsrc & Hthr & Hall & Hpos & Hrok & Hbytes) Hend].
  set (t1 := MkTracker _ _ _ _).
  destruct (mark_advance_spec (Z.to_nat (cc_ThroughSequence cd - ct_next t + 1))
              (cc_ThroughSequence cd) t1) as (A1 & A2 & A3); [cbn; lia|cbn; lia|].
  specialize (A3 Hne). cbn [t1 ct_next ct_completed ct_sourceID] in A1, A2.
  set (t' := mark_advance _ _ t1) in *.
  assert (frontier t' = cc_ThroughSequence cd ∧
          (ct_exhausted t' = true ↔ cc_ThroughSequence cd = max_uint64)) as [Hf' He'].
  { unfold frontier. destruct (decide (cc_ThroughSequence cd = max_uint64)) as [Hm|Hm].
    - by rewrite A3.
    - destruct A3 as [-> ->]. split; [lia|done]. }
  assert (H' !! cc_ThroughSequence cd = Some (cc_Position cd)) as Hpos'.
  { by rewrite <- Hsame by lia. }
  split_and!; [|done|].
  - split; try done; rewrite ?Hf'; [lia|done|..].
    + intros k Hk. destruct (Z.lt_ge_cases k (ct_next t)) as [Hlt|Hge];
        [apply Hcon'; lia|]. rewrite <- Hsame by lia. apply Hall. lia.
    + destruct Hend as [Hm|Hn]; [|by rewrite <- Hsame by lia].
      destruct (H' !! (cc_ThroughSequence cd + 1)) as [p|] eqn:E; [|done].
      destruct (Hh' _ _ E). lia.
    + intros _ k Hk. rewrite A2, decide_False by lia. apply Hsame. lia.
    + intros k Hk. rewrite A2.
      destruct (decide (ct_next t ≤ k ≤ cc_ThroughSequence cd)) as [|Hk']; [done|].
      unfold completed. rewrite lookup_insert_ne by lia. apply Hearlier. lia.
  - cbn. rewrite Hf'. split_and!; [done|done|lia|done|done|].
    intros id b. rewrite Hbytes, Hft. replace (ct_next t - 1 + 1) with (ct_next t) by lia.
    unfold completed_byte. split; intros (k & f & Hk & Hkf & Hb); exists k, f;
      (split_and!; [lia|lia| |done]); [by rewrite <- Hsame by lia|by rewrite Hsame by lia].
Qed.

(** Mark keeps the invariant: the tracker stands exactly at the first sequence
    that has not completed, and a candidate covers exactly what it passed. *)
Lemma Mark_inv start H t c r t' :
  tracker_inv start H t → 0 ≤ dc_Sequence c ≤ max_uint64 → Mark c t = (Ok r, t') →
  let H' := record_completion start H c in
  tracker_inv start H' t' ∧ ct_sourceID t' = ct_sourceID t ∧ mark_result H' t t' r.
Proof.
  intros Hinv Hseq HM. unfold Mark in HM. destruct (negb _); [done|].
  destruct (_ || _) eqn:Hvalid; [done|]. gobool. destruct Hvalid as [_ Hv].
  destruct (ct_exhausted t) eqn:Hex; [done|].
  assert (frontier t = ct_next t - 1) as Hft by (unfold frontier; by rewrite Hex).
  pose proof (ti_frontier _ _ _ Hinv) as Hfr.
  destruct (Z.ltb_spec (dc_Sequence c) (ct_next t)) as [Hlt|Hge].
  { simplify_eq. cbn. assert (record_completion start H c = H) as ->; [|done].
    unfold record_completion. destruct (H !! dc_Sequence c) eqn:E; [done|].
    destruct (Z.leb_spec start (dc_Sequence c)); [|done].
    destruct (ti_contiguous _ _ _ Hinv (dc_Sequence c)) as [p Hp]; [lia|congruence]. }
  pose proof (ti_later _ _ _ Hinv Hex (dc_Sequence c) ltac:(lia)) as Hlater.
  unfold record_completion.
  destruct (ct_completed t !! dc_Sequence c) as [p|] eqn:Hc.
  { rewrite <- Hlater. destruct (negb _); [done|]. by simplify_eq. }
  rewrite <- Hlater. rewrite (proj2 (Z.leb_le _ _)) by lia.
  match goal with _ : match ?m with Ok _ => _ | Err _ => _ end = _ |- _ =>
    destruct m as [o|e] eqn:Hscan; [|done] end.
  eapply Mark_fresh; [done|done|lia|done|done| |].
  - assert (o = r) as <- by (destruct o; congruence). exact Hscan.
  - destruct o; simplify_eq; by rewrite Hex.
Qed.

(** ** The manager as a transition system

    [cp_inflight] is the candidate a Flush is saving ([flushMu] admits one),
    [cp_saved] what the store accepted, newest first, and [cp_history] every
    completion the tracker accepted. *)
Record cp_state := MkCp {
  cp_manager : CheckpointManager;
  cp_inflight : option checkpointCandidate;
  cp_saved : list checkpointCandidate;
  cp_history : completions
}.

Definition cp_init (t : CompletionTracker) : cp_state :=
  MkCp (NewCheckpointManager t) None [] ∅.

Definition history_after (start : Z) (c : DurableCompletion) (s : cp_state) : completions :=
  match cm_invalid (cp_manager s), (Mark c (cm_tracker (cp_manager s))).1 with
  | None, Ok _ => record_completion start (cp_history s) c
  | _, _ => cp_history s
  end.

Inductive cp_step (start : Z) : cp_state → cp_state → Prop :=
  | cp_complete c s :
      0 ≤ dc_Sequence c ≤ max_uint64 →
      cp_step start s (MkCp (Complete_locked c (cp_manager s)).2 (cp_inflight s) (cp_saved s)
                            (history_after start c s))
  | cp_flush_begin p s :
      cp_inflight s = None → Flush_begin (cp_manager s) = Ok (Some p) →
      cp_step start s (MkCp (cp_manager s) (Some p) (cp_saved s) (cp_history s))
  | cp_flush_saved p s :
      cp_inflight s = Some p →
      cp_step start s (MkCp (Flush_saved p (cp_manager s)) None (p :: cp_saved s) (cp_history s))
  | cp_flush_failed p s :
      cp_inflight s = Some p →
      cp_step start s (MkCp (cp_manager s) None (cp_saved s) (cp_history s)).

(** What a saved checkpoint may claim. *)
Record sound (start : Z) (src : SourceID) (H : completions) (c : checkpointCandidate) : Prop := {
  sd_source : cc_SourceID c = src;
  sd_start : start ≤ cc_ThroughSequence c;
  sd_contiguous : contiguous start (cc_ThroughSequence c) H;
  sd_position : H !! cc_ThroughSequence c = Some (cc_Position c);
  sd_bytes : ∀ id b, byte_in (cc_FileRanges c) id b →
    completed_byte H start (cc_ThroughSequence c) id b
}.

Definition last_saved (start : Z) (saved : list checkpointCandidate) : Z :=
  match saved with c :: _ => cc_ThroughSequence c | [] => start - 1 end.
Definition saved_byte (saved : list checkpointCandidate) (id : string * Z * Z) (b : Z) : Prop :=
  ∃ c, c ∈ saved ∧ byte_in (cc_FileRanges c) id b.
Definition newest_first (saved : list checkpointCandidate) : Prop :=
  StronglySorted (λ c d, cc_ThroughSequence d ≤ cc_ThroughSequence c) saved.

(** The state a healthy manager keeps. *)
Record healthy (start : Z) (src : SourceID) (s : cp_state) : Prop := {
  hl_tracker : tracker_inv start (cp_history s) (cm_tracker (cp_manager s));
  hl_source : ct_sourceID (cm_tracker (cp_manager s)) = src;
  hl_pending : match cm_pending (cp_manager s) with
    | None => cp_inflight s = None ∧
              last_saved start (cp_saved s) = frontier (cm_tracker (cp_manager s))
    | Some p =>
        sound start src (cp_history s) p ∧ ranges_ok (cc_FileRanges p) ∧
        cc_ThroughSequence p = frontier (cm_tracker (cp_manager s)) ∧
        last_saved start (cp_saved s) ≤ cc_ThroughSequence p ∧
        ∀ q, cp_inflight s = Some q →
          q = p ∨ (cc_ThroughSequence q < cc_ThroughSequence p ∧
                   ∀ id b, byte_in (cc_FileRanges q) id b → byte_in (cc_FileRanges p) id b)
    end;
  hl_bytes : ∀ id b,
    completed_byte (cp_history s) start (frontier (cm_tracker (cp_manager s))) id b →
    saved_byte (cp_saved s) id b ∨
    ∃ p, cm_pending (cp_manager s) = Some p ∧ byte_in (cc_FileRanges p) id b
}.

Record cp_inv (start : Z) (src : SourceID) (s : cp_state) : Prop := {
  cpi_saved : Forall (sound start src (cp_history s)) (cp_saved s);
  cpi_order : newest_first (cp_saved s);
  cpi_inflight : ∀ q, cp_inflight s = Some q →
    sound start src (cp_history s) q ∧ last_saved start (cp_saved s) ≤ cc_ThroughSequence q;
  cpi_healthy : cm_invalid (cp_manager s) = None → healthy start src s
}.

Lemma contiguous_mono start k H H' : H ⊆ H' → contiguous start k H → contiguous start k H'.
Proof.
  intros Hsub Hc j Hj. destruct (Hc j Hj) as [p Hp]. exists p. by eapply lookup_weaken.
Qed.
Lemma completed_byte_mono H H' lo hi hi' id b :
  H ⊆ H' → hi ≤ hi' → completed_byte H lo hi id b → completed_byte H' lo hi' id b.
Proof.
  intros Hsub Hle (k & f & Hk & Hf & Hb). exists k, f.
  split_and!; [lia|lia|by eapply lookup_weaken|done].
Qed.
Lemma sound_mono start src H H' c : H ⊆ H' → sound start src H c → sound start src H' c.
Proof.
  intros Hsub []. split; try done.
  - by eapply contiguous_mono.
  - by eapply lookup_weaken.
  - intros id b Hb. eapply completed_byte_mono; [done|reflexivity|auto].
Qed.

(** Below the frontier the history is settled. *)
Lemma completed_byte_settled start k H H' id b :
  H ⊆ H' → contiguous start k H → completed_byte H' start k id b → completed_byte H start k id b.
Proof.
  intros Hsub Hc (j & f & Hj & Hf & Hb). destruct (Hc j Hj) as [p Hp].
  exists j, f. split_and!; [lia|lia| |done]. rewrite Hp.
  by rewrite (lookup_weaken _ _ _ _ Hp Hsub) in Hf.
Qed.

Lemma history_after_mono start c s : cp_history s ⊆ history_after start c s.
Proof.
  unfold history_after. destruct (cm_invalid (cp_manager s)); [done|].
  destruct (Mark c (cm_tracker (cp_manager s))).1; [apply record_mono|done].
Qed.

Lemma ranges_ok_ordered l : ranges_ok l → Forall ordered l.
Proof. by intros []. Qed.

Lemma mark_sound start H t t' c src :
  tracker_inv start H t' → start - 1 ≤ frontier t → ct_sourceID t = src →
  mark_result H t t' (Some c) → sound start src H c.
Proof.
  intros Hinv Hfr Hsrc (Hs & Hthr & Hlt & Hpos & Hrok & Hb). split.
  - congruence.
  - lia.
  - rewrite Hthr. apply Hinv.
  - by rewrite Hthr.
  - intros id b (k & f & Hk & Hf)%Hb. exists k, f. split; [lia|done].
Qed.

Lemma complete_healthy start src c s :
  healthy start src s → cm_invalid (cp_manager s) = None →
  0 ≤ dc_Sequence c ≤ max_uint64 →
  let s' := MkCp (Complete_locked c (cp_manager s)).2 (cp_inflight s) (cp_saved s)
                 (history_after start c s) in
  cm_invalid (cp_manager s') = None → healthy start src s'.
Proof.
  intros [Htr Hsrc Hpend Hbytes] Hval Hseq. unfold history_after, Complete_locked. rewrite Hval.
  destruct (Mark c (cm_tracker (cp_manager s))) as [r t'] eqn:HM. cbn [fst].
  destruct r as [r|e]; [|done].
  pose proof (ti_frontier _ _ _ Htr) as Hfr. pose proof (ti_contiguous _ _ _ Htr) as Hcon.
  destruct (Mark_inv _ _ _ _ _ _ Htr Hseq HM) as (Htr' & Hsrc' & Hres).
  set (H := cp_history s) in *. set (H' := record_completion start H c) in *.
  assert (H ⊆ H') as Hsub by apply record_mono. set (t := cm_tracker (cp_manager s)) in *.
  destruct r as [cd|].
  2:{ cbn. intros _. cbn in Hres. split; cbn; [done|congruence| |].
      - destruct (cm_pending (cp_manager s)) as [p|]; rewrite Hres; [|done].
        destruct Hpend as (Hs & Hpend). split; [by eapply sound_mono|done].
      - intros id b Hb. rewrite Hres in Hb. apply Hbytes.
        by eapply completed_byte_settled. }
  pose proof (mark_sound _ _ _ _ _ _ Htr' (proj1 Hfr) Hsrc Hres) as Hcd.
  destruct Hres as (_ & Hthr & Hlt & _ & Hrok & Hcb).
  assert (∀ id b, completed_byte H' start (frontier t') id b →
            saved_byte (cp_saved s) id b ∨
            (∃ p, cm_pending (cp_manager s) = Some p ∧ byte_in (cc_FileRanges p) id b) ∨
            byte_in (cc_FileRanges cd) id b) as Hcov.
  { intros id b. rewrite (completed_byte_split _ _ (frontier t + 1)) by lia.
    rewrite Z.add_simpl_r, <- Hcb. intros [Hb|Hb]; [|by auto].
    apply completed_byte_settled with (H := H), Hbytes in Hb; [tauto|done|done]. }
  destruct (cm_pending (cp_manager s)) as [p|].
  - destruct Hpend as (Hsp & Hrp & Hthp & Hlast & Hinf).
    destruct (mergeFileRanges _ _) as [ranges|e] eqn:Hm; [|done]. intros _.
    apply mergeFileRanges_spec in Hm as [Hr Hmb]; [|done|by apply ranges_ok_ordered].
    split; cbn; [done|congruence| |].
    + destruct Hcd as [H1 H2 H3 H4 H5]. split_and!; [|done|done|lia|].
      * split; cbn; try done. intros id b [Hb|Hb]%Hmb; [|auto].
        eapply completed_byte_mono; [exact Hsub| |by apply Hsp]. lia.
      * intros q Hq. right. destruct (Hinf q Hq) as [->|[Hlt' Hqb]].
        -- split; [lia|]. intros id b Hb. apply Hmb. by left.
        -- split; [lia|]. intros id b Hb. apply Hmb. left. auto.
    + intros id b [Hb|[(q & Hq & Hb)|Hb]]%Hcov; [by left|right|right];
        eexists; (split; [done|]); cbn; apply Hmb; [left; congruence|by right].
  - destruct Hpend as [Hnone Hlast]. intros _.
    split; cbn; [done|congruence| |].
    + split_and!; [done|done|done|lia|]. intros q Hq. congruence.
    + intros id b [Hb|[(q & Hq & _)|Hb]]%Hcov; [by left|done|right; eauto].
Qed.

Lemma cp_step_inv start src s s' : cp_step start s s' → cp_inv start src s → cp_inv start src s'.
Proof.
  intros Hstep [Hsaved Hord Hinf Hh]. destruct Hstep as [c s Hseq|p s Hno Hb|p s Hp|p s Hp];
    cbn in *.
  - pose proof (history_after_mono start c s) as Hsub. split; cbn; [|done| |].
    + eapply Forall_impl; [done|]. intros d. by apply sound_mono.
    + intros q Hq. destruct (Hinf q Hq). split; [by eapply sound_mono|done].
    + intros Hv. destruct (cm_invalid (cp_manager s)) as [e|] eqn:Hval.
      { unfold Complete_locked in Hv. rewrite Hval in Hv. cbn in Hv. congruence. }
      apply complete_healthy; auto.
  - unfold Flush_begin in Hb. destruct (cm_invalid (cp_manager s)) eqn:Hval; [done|].
    injection Hb as Hb. destruct (Hh eq_refl) as [Htr Hsrc Hpend Hbytes]. rewrite Hb in Hpend.
    destruct Hpend as (Hsp & Hrp & Hthp & Hlast & _). split; cbn; [done|done| |].
    + intros q [= <-]. done.
    + intros _. split; cbn; [done|done| |done]. rewrite Hb. split_and!; try done.
      intros q [= <-]. by left.
  - destruct (Hinf p Hp) as [Hsp Hlast]. split; cbn; [by constructor| |done|].
    + constructor; [done|]. destruct (cp_saved s) as [|c l]; [constructor|]. cbn in Hlast.
      apply StronglySorted_inv in Hord as [_ Hall]. constructor; [done|].
      eapply Forall_impl; [done|]. cbn. lia.
    + assert (cm_invalid (Flush_saved p (cp_manager s)) = cm_invalid (cp_manager s)) as ->.
      { unfold Flush_saved. destruct (cm_pending _); [|done]. by destruct (_ =? _). }
      assert (cm_tracker (Flush_saved p (cp_manager s)) = cm_tracker (cp_manager s)) as Ht.
      { unfold Flush_saved. destruct (cm_pending _); [|done]. by destruct (_ =? _). }
      intros Hv. destruct (Hh Hv) as [Htr Hsrc Hpend Hbytes].
      destruct (cm_pending (cp_manager s)) as [p'|] eqn:Hpp.
      2:{ destruct Hpend as [Hpend _]. congruence. }
      destruct Hpend as (Hsp' & Hrp & Hthp & Hlast' & Hq). destruct (Hq p Hp) as [->|[Hlt Hqb]].
      * assert (Flush_saved p' (cp_manager s) =
                MkManager (cm_tracker (cp_manager s)) None (cm_invalid (cp_manager s))) as ->.
        { unfold Flush_saved. by rewrite Hpp, Z.eqb_refl. }
        split; cbn; [done|done|done|]. intros id b [(c & Hc & Hcb)|(q & [= <-] & Hb)]%Hbytes; left.
        -- exists c. split; [by right|done].
        -- exists p'. split; [by left|done].
      * assert (Flush_saved p (cp_manager s) = cp_manager s) as ->.
        { unfold Flush_saved. rewrite Hpp. destruct (Z.eqb_spec (cc_ThroughSequence p')
            (cc_ThroughSequence p)); [lia|done]. }
        split; cbn; [done|done| |].
        -- rewrite Hpp. split_and!; try done. lia.
        -- intros id b [(c & Hc & Hcb)|Hb]%Hbytes; [left|right; by rewrite Hpp].
           exists c. split; [by right|done].
  - split; cbn; [done|done|done|]. intros Hv. destruct (Hh Hv) as [Htr Hsrc Hpend Hbytes].
    split; cbn; [done|done| |done]. destruct (cm_pending (cp_manager s)); [|naive_solver].
    destruct Hpend as (? & ? & ? & ? & _). by split_and!.
Qed.

Lemma cp_init_inv start src t :
  NewCompletionTracker src start = Ok t → is_u64 start → cp_inv start src (cp_init t).
Proof.
  unfold NewCompletionTracker, is_u64. intros H Hs. inv_ok. gobool.
  split; cbn; [constructor|constructor|done|]. intros _.
  assert (start - 1 ≠ max_uint64) by lia.
  split; cbn; [split; cbn|done|done|]; unfold frontier; cbn; try done; try lia.
  - intros k Hk. lia.
  - intros id b (k & f & Hk & Hf & _). by rewrite lookup_empty in Hf.
Qed.

Lemma cp_reachable_inv start src t s :
  NewCompletionTracker src start = Ok t → is_u64 start →
  rtc (cp_step start) (cp_init t) s → cp_inv start src s.
Proof.
  intros Ht Hs Hr. assert (cp_inv start src (cp_init t)) as H0 by by apply cp_init_inv.
  clear Ht. induction Hr as [|a b c Hstep _ IH]; [done|]. eauto using cp_step_inv.
Qed.

(** Mark stands at the first sequence not completed: whatever the order of
    completions, after accepting one the tracker's frontier is the highest
    sequence with everything from the start completed, and the candidate it
    returns ends there, carries that sequence's position and exactly the file
    bytes of the sequences it newly passed. *)
Theorem Mark_exact start H t c r t' :
  tracker_inv start H t → is_u64 (dc_Sequence c) → Mark c t = (Ok r, t') →
  let H' := record_completion start H c in
  tracker_inv start H' t' ∧ contiguous start (frontier t') H' ∧
  H' !! (frontier t' + 1) = None ∧ frontier t ≤ frontier t' ∧ mark_result H' t t' r.
Proof.
  intros Hinv Hseq HM H'. destruct (Mark_inv _ _ _ _ _ _ Hinv Hseq HM) as (Hinv' & _ & Hres).
  split_and!; [done|apply Hinv'|apply Hinv'| |done].
  destruct r; cbn in Hres; [destruct_and?; lia|lia].
Qed.

(** C21: under any interleaving of completions and flushes, with saves failing
    at will, every checkpoint the store accepted belongs to the source, ends
    at a sequence up to which everything completed, carries that sequence's
    position and claims only bytes that completed; checkpoints are accepted in
    non-decreasing order. *)
Theorem checkpoints_safe start src t s :
  NewCompletionTracker src start = Ok t → is_u64 start →
  rtc (cp_step start) (cp_init t) s →
  Forall (sound start src (cp_history s)) (cp_saved s) ∧ newest_first (cp_saved s).
Proof. intros Ht Hs Hr. by destruct (cp_reachable_inv _ _ _ _ Ht Hs Hr). Qed.

(** nothing completed is lost: when the manager is healthy and has nothing
    pending, the last accepted checkpoint ends at the tracker's frontier, the
    next sequence has not completed, and every byte completed up to the
    frontier is in a range the store accepted. *)
Theorem checkpoints_complete start src t s :
  NewCompletionTracker src start = Ok t → is_u64 start →
  rtc (cp_step start) (cp_init t) s →
  cm_invalid (cp_manager s) = None → cm_pending (cp_manager s) = None →
  let k := frontier (cm_tracker (cp_manager s)) in
  last_saved start (cp_saved s) = k ∧ contiguous start k (cp_history s) ∧
  cp_history s !! (k + 1) = None ∧
  ∀ id b, completed_byte (cp_history s) start k id b ↔ saved_byte (cp_saved s) id b.
Proof.
  intros Ht Hs Hr Hv Hp k. destruct (cp_reachable_inv _ _ _ _ Ht Hs Hr) as [Hsaved Hord _ Hh].
  destruct (Hh Hv) as [Htr _ Hpend Hbytes]. rewrite Hp in Hpend.
  split_and!; [apply Hpend|apply Htr|apply Htr|]. intros id b. split.
  - intros [Hb|(p & Hpp & _)]%Hbytes; [done|congruence].
  - intros (c & Hc & Hb). rewrite Forall_forall in Hsaved.
    eapply completed_byte_mono; [done| |by apply (Hsaved c Hc)].
    unfold k. rewrite <- (proj2 Hpend). destruct (cp_saved s) as [|d l]; [by apply not_elem_of_nil in Hc|].
    apply StronglySorted_inv in Hord as [_ Hall]. cbn. apply elem_of_cons in Hc as [->|Hc]; [done|].
    rewrite Forall_forall in Hall. by apply Hall.
Qed.

(** ** Witnesses *)
Definition sample_generation : string := "0123456789abcdef0123456789abcdef".
Definition sample_file (lo hi : Z) : SourcePosition :=
  PositionFile (MkFilePosition sample_generation 1 2 lo hi).
Definition sample_completion (seq lo hi : Z) : DurableCompletion :=
  MkDurableCompletion "src"
    "dlv1_oghspfuq9jlm1q5pf1c5kktm4da0e053mn4dnotbd33jjf5be300"
    seq (sample_file lo hi).

Definition sample_tracker : CompletionTracker := MkTracker "src" 1 ∅ false.

(** Sequence 2 completes before sequence 1. *)
Definition sample_second : cp_state :=
  MkCp (Complete_locked (sample_completion 2 10 20) (NewCheckpointManager sample_tracker)).2 None []
    (history_after 1 (sample_completion 2 10 20) (cp_init sample_tracker)).
Definition sample_both : cp_state :=
  MkCp (Complete_locked (sample_completion 1 0 10) (cp_manager sample_second)).2 None []
    (history_after 1 (sample_completion 1 0 10) sample_second).
Definition sample_candidate : checkpointCandidate :=
  MkCandidate "src" 2 (sample_file 10 20) [MkFilePosition sample_generation 1 2 0 20].
Definition sample_flushing : cp_state :=
  MkCp (cp_manager sample_both) (Some sample_candidate) (cp_saved sample_both)
    (cp_history sample_both).
Definition sample_flushed : cp_state :=
  MkCp (Flush_saved sample_candidate (cp_manager sample_flushing)) None
    (sample_candidate :: cp_saved sample_flushing) (cp_history sample_flushing).

Lemma sample_flushed_reachable : rtc (cp_step 1) (cp_init sample_tracker) sample_flushed.
Proof.
  apply (rtc_l _ _ sample_second).
  { apply (cp_complete 1 (sample_completion 2 10 20) (cp_init sample_tracker)).
    vm_compute; split; discriminate. }
  apply (rtc_l _ _ sample_both).
  { apply (cp_complete 1 (sample_completion 1 0 10) sample_second). vm_compute; split; discriminate. }
  apply (rtc_l _ _ sample_flushing).
  { apply (cp_flush_begin 1 sample_candidate sample_both); vm_compute; reflexivity. }
  apply rtc_once. apply (cp_flush_saved 1 sample_candidate sample_flushing). reflexivity.
Qed.

Lemma Mark_exact_witness :
  ∃ t', Mark (sample_completion 2 10 20) sample_tracker = (Ok None, t') ∧
        frontier sample_tracker ≤ frontier t'.
Proof.
  eexists. split; [vm_compute; reflexivity|].
  eapply (Mark_exact 1 ∅ sample_tracker (sample_completion 2 10 20)).
  - apply (hl_tracker 1 "src" (cp_init sample_tracker)).
    apply (cpi_healthy 1 "src" (cp_init sample_tracker)); [|done].
    apply cp_init_inv; [reflexivity|vm_compute; split; discriminate].
  - vm_compute; split; discriminate.
  - vm_compute; reflexivity.
Defined.

Lemma checkpoints_safe_witness :
  length (cp_saved sample_flushed) = 1%nat ∧ newest_first (cp_saved sample_flushed).
Proof.
  split; [reflexivity|].
  apply (checkpoints_safe 1 "src" sample_tracker sample_flushed);
    [reflexivity|vm_compute; split; discriminate|apply sample_flushed_reachable].
Defined.

Lemma checkpoints_complete_witness :
  frontier (cm_tracker (cp_manager sample_flushed)) = 2 ∧ last_saved 1 (cp_saved sample_flushed) = 2.
Proof.
  split; [vm_compute; reflexivity|].
  etransitivity; [apply (checkpoints_complete 1 "src" sample_tracker sample_flushed)|];
    [reflexivity|vm_compute; split; discriminate|apply sample_flushed_reachable
    |vm_compute; reflexivity..].
Defined.
