(* ===== verification/Ledger.v ===== *)
(** * The detection ledger (internal/detection/window.go)

    Memberships become visible only when a reservation is confirmed after the
    durable commit. Reservations are named by a number, standing for the
    pointer the source compares; a window's guard channel of capacity one is a
    boolean, true while the token is in the channel. Every access to the
    shared maps runs under [mu], so each critical section is one step and
    goroutines interleave between them. *)

From S2P Require Import Prelude GoStd Netip Identity CoreModel.

Record ContributionKey := MkContributionKey {
  ck_EventID : EventID;
  ck_RuleID : RuleID;
  ck_RuleVersion : RuleVersion
}.
Record WindowKey := MkWindowKey {
  wk_RuleID : RuleID;
  wk_RuleVersion : RuleVersion;
  wk_GroupKey : string
}.
#[export] Instance ContributionKey_eq_dec : EqDecision ContributionKey.
Proof. solve_decision. Defined.
#[export] Instance WindowKey_eq_dec : EqDecision WindowKey.
Proof. solve_decision. Defined.
#[export] Instance ContributionKey_countable : Countable ContributionKey.
Proof.
  refine (inj_countable' (λ k, (ck_EventID k, ck_RuleID k, ck_RuleVersion k))
                         (λ t, MkContributionKey t.1.1 t.1.2 t.2) _). by intros [].
Defined.
#[export] Instance WindowKey_countable : Countable WindowKey.
Proof.
  refine (inj_countable' (λ k, (wk_RuleID k, wk_RuleVersion k, wk_GroupKey k))
                         (λ t, MkWindowKey t.1.1 t.1.2 t.2) _). by intros [].
Defined.

Record Candidate := MkDetectionCandidate {
  cd_DeliveryID : DeliveryID;
  cd_Key : ContributionKey;
  cd_Window : WindowKey;
  cd_DistinctKey : string;
  cd_ObservedAt : time
}.
Record Snapshot := MkSnapshot { sn_Count : Z; sn_DistinctCount : Z }.
Record Preview := MkPreview {
  pv_Candidate : Candidate;
  pv_Snapshot : Snapshot;
  pv_WillContribute : bool
}.

Record windowSlot := MkSlot {
  ws_guard : bool;
  ws_count : Z;
  ws_distinct : gmap string Z
}.
Record memberRecord := MkMember {
  mb_window : WindowKey;
  mb_distinctKey : string;
  mb_observedAt : time
}.

Abbreviation rid := nat (only parsing).

Record Ledger := MkLedger {
  lg_windows : gmap WindowKey windowSlot;
  lg_memberships : gmap ContributionKey memberRecord;
  lg_claims : gmap ContributionKey rid;
  lg_pending : gmap DeliveryID rid
}.
Definition NewLedger : Ledger := MkLedger ∅ ∅ ∅ ∅.

(** Where a PrepareBatch call and its reservation stand: taking guards,
    prepared (returned to the caller), or finished. *)
Inductive phase := Acquiring (todo : list WindowKey) | Prepared | Finished.
Record Reservation := MkReservation {
  rv_deliveryID : DeliveryID;
  rv_batch : list Candidate;
  rv_locked : list WindowKey;
  rv_candidates : list Candidate;
  rv_phase : phase
}.

(** ** Validation and canonical order *)
Definition bad_text (s : string) : bool := is_empty s || negb (ValidString s).

Definition validateWindowKey (key : WindowKey) : result unit :=
  fail_if (bad_text (wk_RuleID key)) (Errorf "rule id must be non-empty UTF-8");;
  fail_if (bad_text (wk_RuleVersion key)) (Errorf "rule version must be non-empty UTF-8");;
  fail_if (bad_text (wk_GroupKey key)) (Errorf "group key must be non-empty UTF-8").

Definition validateCandidate (deliveryID : DeliveryID) (c : Candidate) : result unit :=
  fail_if (negb (bool_decide (cd_DeliveryID c = deliveryID)))
          (Errorf "candidate delivery id differs from batch delivery");;
  fail_if (negb (ValidEventID (ck_EventID (cd_Key c)))) (Errorf "event id is not canonical");;
  validateWindowKey (cd_Window c);;
  fail_if (negb (bool_decide (ck_RuleID (cd_Key c) = wk_RuleID (cd_Window c)))
           || negb (bool_decide (ck_RuleVersion (cd_Key c) = wk_RuleVersion (cd_Window c))))
          (Errorf "membership rule identity differs from window");;
  fail_if (bad_text (cd_DistinctKey c)) (Errorf "distinct key must be non-empty UTF-8");;
  fail_if (IsZero (cd_ObservedAt c)) (Errorf "observed time is required").

Fixpoint validate_candidates (deliveryID : DeliveryID) (cs : list Candidate) : result unit :=
  match cs with
  | [] => Ok tt
  | c :: rest =>
    wrap "prepare window batch: candidate %d" (validateCandidate deliveryID c);;
    validate_candidates deliveryID rest
  end.

(** The less function of sort.Slice. *)
Definition window_less (a b : WindowKey) : bool :=
  if negb (bool_decide (wk_RuleID a = wk_RuleID b)) then String.ltb (wk_RuleID a) (wk_RuleID b)
  else if negb (bool_decide (wk_RuleVersion a = wk_RuleVersion b))
  then String.ltb (wk_RuleVersion a) (wk_RuleVersion b)
  else String.ltb (wk_GroupKey a) (wk_GroupKey b).

(** The map-as-set followed by sort.Slice: the sorted list of distinct keys. *)
Fixpoint insert_window (k : WindowKey) (l : list WindowKey) : list WindowKey :=
  match l with
  | [] => [k]
  | x :: r => if window_less x k then x :: insert_window k r else k :: x :: r
  end.
Definition uniqueSortedWindowKeys (cs : list Candidate) : list WindowKey :=
  foldr insert_window [] (elements (list_to_set (cd_Window <$> cs) : gset WindowKey)).

Definition sameCandidateMapping (l r : Candidate) : bool :=
  bool_decide (cd_Window l = cd_Window r) && bool_decide (cd_DistinctKey l = cd_DistinctKey r)
  && TimeEqual (cd_ObservedAt l) (cd_ObservedAt r).
Definition sameMemberMapping (m : memberRecord) (c : Candidate) : bool :=
  bool_decide (mb_window m = cd_Window c) && bool_decide (mb_distinctKey m = cd_DistinctKey c)
  && TimeEqual (mb_observedAt m) (cd_ObservedAt c).

(** ** Slots *)
Definition new_slot : windowSlot := MkSlot true 0 ∅.
Definition snapshotOf (slot : windowSlot) : Snapshot :=
  MkSnapshot (ws_count slot) (wrap64 (Z.of_nat (size (ws_distinct slot)))).
(** [slot.count++; slot.distinct[key]++] *)
Definition add_member (distinctKey : string) (slot : windowSlot) : windowSlot :=
  MkSlot (ws_guard slot) (wrap64 (ws_count slot + 1))
    (<[distinctKey := wrap64 (default 0 (ws_distinct slot !! distinctKey) + 1)]> (ws_distinct slot)).
Definition set_guard (g : bool) (slot : windowSlot) : windowSlot :=
  MkSlot g (ws_count slot) (ws_distinct slot).

(** l.window(key): the slot exists afterwards. *)
Definition window (key : WindowKey) (l : Ledger) : Ledger :=
  match lg_windows l !! key with
  | Some _ => l
  | None => MkLedger (<[key := new_slot]> (lg_windows l)) (lg_memberships l) (lg_claims l) (lg_pending l)
  end.

Definition with_windows (l : Ledger) (w : gmap WindowKey windowSlot) : Ledger :=
  MkLedger w (lg_memberships l) (lg_claims l) (lg_pending l).
Definition take_guard (key : WindowKey) (l : Ledger) : Ledger :=
  with_windows l (alter (set_guard false) key (lg_windows l)).
Definition releaseSlot (key : WindowKey) (l : Ledger) : Ledger :=
  with_windows l (alter (set_guard true) key (lg_windows l)).
(** Released from the last to the first. *)
Definition releaseSlots (keys : list WindowKey) (l : Ledger) : Ledger :=
  foldr releaseSlot l keys.

(** ** prepareLocked *)
Fixpoint check_batch (r : rid) (l : Ledger) (seen : gmap ContributionKey Candidate)
    (cs : list Candidate) : result unit :=
  match cs with
  | [] => Ok tt
  | c :: rest =>
    match seen !! cd_Key c with
    | Some prior =>
      fail_if (negb (sameCandidateMapping prior c))
              (Errorf "membership %q has inconsistent candidates in one batch");;
      check_batch r l seen rest
    | None =>
      let seen := <[cd_Key c := c]> seen in
      match lg_memberships l !! cd_Key c with
      | Some member =>
        fail_if (negb (sameMemberMapping member c))
                (Errorf "membership %q maps to a different window or value");;
        check_batch r l seen rest
      | None =>
        fail_if (match lg_claims l !! cd_Key c with
                 | Some owner => negb (owner =? r)%nat
                 | None => false
                 end) (Errorf "membership %q is reserved by another window");;
        check_batch r l seen rest
      end
    end
  end.

(** The second loop's variables. *)
Record projection_state := MkPS {
  ps_claims : gmap ContributionKey rid;
  ps_projected : gmap WindowKey windowSlot;
  ps_seen : gset ContributionKey;
  ps_previews : list Preview;
  ps_staged : list Candidate
}.

Definition project_one (r : rid) (l : Ledger) (c : Candidate) (p : projection_state)
    : projection_state :=
  let state := match ps_projected p !! cd_Window c with
               | Some st => st
               | None => default new_slot (lg_windows l !! cd_Window c)
               end in
  let contributes := negb (bool_decide (cd_Key c ∈ ps_seen p))
                     && is_nil (lg_memberships l !! cd_Key c) in
  let state' := if contributes then add_member (cd_DistinctKey c) state else state in
  MkPS (if contributes then <[cd_Key c := r]> (ps_claims p) else ps_claims p)
       (<[cd_Window c := state']> (ps_projected p))
       ({[cd_Key c]} ∪ ps_seen p)
       (ps_previews p ++ [MkPreview c (snapshotOf state') contributes])
       (if contributes then ps_staged p ++ [c] else ps_staged p).

Definition prepareLocked (r : rid) (cs : list Candidate) (l : Ledger)
    : result (list Preview * list Candidate) * Ledger :=
  match check_batch r l ∅ cs with
  | Err e => (Err e, l)
  | Ok _ =>
    let p := foldl (λ p c, project_one r l c p) (MkPS (lg_claims l) ∅ ∅ [] []) cs in
    (Ok (ps_previews p, ps_staged p),
     MkLedger (lg_windows l) (lg_memberships l) (ps_claims p) (lg_pending l))
  end.

(** ** Confirm, Abort, DeferResolution *)
Definition confirm_one (c : Candidate) (l : Ledger) : Ledger :=
  MkLedger (alter (add_member (cd_DistinctKey c)) (cd_Window c) (lg_windows l))
    (<[cd_Key c := MkMember (cd_Window c) (cd_DistinctKey c) (cd_ObservedAt c)]> (lg_memberships l))
    (delete (cd_Key c) (lg_claims l)) (lg_pending l).

Definition drop_pending (r : rid) (d : DeliveryID) (l : Ledger) : Ledger :=
  if bool_decide (lg_pending l !! d = Some r)
  then MkLedger (lg_windows l) (lg_memberships l) (lg_claims l) (delete d (lg_pending l)) else l.

Definition abort_one (r : rid) (c : Candidate) (l : Ledger) : Ledger :=
  if bool_decide (lg_claims l !! cd_Key c = Some r)
  then MkLedger (lg_windows l) (lg_memberships l) (delete (cd_Key c) (lg_claims l)) (lg_pending l)
  else l.

(** The bodies run under [once]; see [system] for the guard of repeated calls. *)
Definition confirm_body (r : rid) (v : Reservation) (l : Ledger) : Ledger :=
  releaseSlots (rv_locked v)
    (drop_pending r (rv_deliveryID v) (foldl (λ l c, confirm_one c l) l (rv_candidates v))).
Definition abort_body (r : rid) (v : Reservation) (l : Ledger) : Ledger :=
  releaseSlots (rv_locked v)
    (drop_pending r (rv_deliveryID v) (foldl (λ l c, abort_one r c l) l (rv_candidates v))).

Definition DeferResolution (r : rid) (v : Reservation) (l : Ledger) : Ledger :=
  match lg_pending l !! rv_deliveryID v with
  | None => MkLedger (lg_windows l) (lg_memberships l) (lg_claims l)
              (<[rv_deliveryID v := r]> (lg_pending l))
  | Some _ => l
  end.

(** ** The shared system *)
Record system := MkSystem {
  sy_ledger : Ledger;
  sy_res : gmap nat Reservation
}.
Definition new_system : system := MkSystem NewLedger ∅.

Definition with_phase (v : Reservation) (p : phase) : Reservation :=
  MkReservation (rv_deliveryID v) (rv_batch v) (rv_locked v) (rv_candidates v) p.

(** sync.Once: the first of Confirm and Abort runs its body. *)
Definition Confirm (r : rid) (s : system) : system :=
  match sy_res s !! r with
  | Some v => match rv_phase v with
              | Prepared => MkSystem (confirm_body r v (sy_ledger s))
                                     (<[r := with_phase v Finished]> (sy_res s))
              | _ => s
              end
  | None => s
  end.
Definition Abort_ (r : rid) (s : system) : system :=
  match sy_res s !! r with
  | Some v => match rv_phase v with
              | Prepared => MkSystem (abort_body r v (sy_ledger s))
                                     (<[r := with_phase v Finished]> (sy_res s))
              | _ => s
              end
  | None => s
  end.

Definition ResolveDeferred (d : DeliveryID) (committed : bool) (s : system) : bool * system :=
  match lg_pending (sy_ledger s) !! d with
  | None => (false, s)
  | Some r => (true, if committed then Confirm r s else Abort_ r s)
  end.

(** Ledger.Snapshot once the guard is free. *)
Definition SnapshotOp (key : WindowKey) (l : Ledger) : result (option Snapshot) :=
  wrap "snapshot window" (validateWindowKey key);;
  match lg_windows (window key l) !! key with
  | Some slot => if ws_guard slot then Ok (Some (snapshotOf slot)) else Ok None
  | None => Ok None
  end.

(** PrepareBatch, from its validation to the guards and prepareLocked. *)
Definition begin_batch (d : DeliveryID) (cs : list Candidate) : result Reservation :=
  fail_if (negb (ValidDeliveryID d)) (Errorf "prepare window batch: delivery id is not canonical");;
  validate_candidates d cs;;
  Ok (MkReservation d cs [] [] (Acquiring (uniqueSortedWindowKeys cs))).

Definition take_next (v : Reservation) (k : WindowKey) (todo : list WindowKey) : Reservation :=
  MkReservation (rv_deliveryID v) (rv_batch v) (rv_locked v ++ [k]) (rv_candidates v)
    (Acquiring todo).

Definition cancel (r : rid) (v : Reservation) (s : system) : system :=
  MkSystem (releaseSlots (rv_locked v) (sy_ledger s)) (<[r := with_phase v Finished]> (sy_res s)).

Definition finish_prepare (r : rid) (v : Reservation) (s : system)
    : result (list Preview) * system :=
  match prepareLocked r (rv_batch v) (sy_ledger s) with
  | (Err e, l) => (Err e, cancel r v (MkSystem l (sy_res s)))
  | (Ok (previews, staged), l) =>
    (Ok previews,
     MkSystem l (<[r := MkReservation (rv_deliveryID v) (rv_batch v) (rv_locked v) staged Prepared]>
                   (sy_res s)))
  end.

Inductive ledger_step : system → system → Prop :=
  | ls_begin r d cs v s :
      sy_res s !! r = None → begin_batch d cs = Ok v →
      ledger_step s (MkSystem (sy_ledger s) (<[r := v]> (sy_res s)))
  | ls_window k s : ledger_step s (MkSystem (window k (sy_ledger s)) (sy_res s))
  | ls_take r v k todo slot s :
      sy_res s !! r = Some v → rv_phase v = Acquiring (k :: todo) →
      lg_windows (sy_ledger s) !! k = Some slot → ws_guard slot = true →
      ledger_step s (MkSystem (take_guard k (sy_ledger s)) (<[r := take_next v k todo]> (sy_res s)))
  | ls_cancel r v todo s :
      sy_res s !! r = Some v → rv_phase v = Acquiring todo → ledger_step s (cancel r v s)
  | ls_prepare r v s :
      sy_res s !! r = Some v → rv_phase v = Acquiring [] →
      ledger_step s (finish_prepare r v s).2
  | ls_confirm r s : ledger_step s (Confirm r s)
  | ls_abort r s : ledger_step s (Abort_ r s)
  | ls_defer r v s :
      sy_res s !! r = Some v → rv_phase v = Prepared ∨ rv_phase v = Finished →
      ledger_step s (MkSystem (DeferResolution r v (sy_ledger s)) (sy_res s))
  | ls_resolve d committed s : ledger_step s (ResolveDeferred d committed s).2.

(** ** The canonical window order *)
Definition window_lt (a b : WindowKey) : Prop := window_less a b = true.

Lemma window_lt_iff a b :
  window_lt a b ↔
  String.le (wk_RuleID a) (wk_RuleID b) ∧
  (wk_RuleID a = wk_RuleID b →
     String.le (wk_RuleVersion a) (wk_RuleVersion b) ∧
     (wk_RuleVersion a = wk_RuleVersion b → String.le (wk_GroupKey a) (wk_GroupKey b))) ∧ a ≠ b.
Proof.
  unfold window_lt, window_less. destruct a as [a1 a2 a3], b as [b1 b2 b3]. cbn.
  assert (∀ s, String.le s s) by (intros s; apply (reflexivity (R := String.le))).
  repeat (case_bool_decide; cbn [negb]); rewrite string_ltb_iff; subst; naive_solver.
Qed.

#[export] Instance window_lt_strict : StrictOrder window_lt.
Proof.
  split.
  - intros a H. apply window_lt_iff in H as (_ & _ & []). done.
  - intros a b c. rewrite !window_lt_iff. intros (A1 & A2 & A3) (B1 & B2 & B3).
    assert (String.le (wk_RuleID a) (wk_RuleID c)) by by etrans.
    split; [done|]. 
    assert (wk_RuleID a = wk_RuleID c → wk_RuleID a = wk_RuleID b) as E1.
    { intros E. apply (anti_symm String.le); [done|by rewrite E]. }
    assert (wk_RuleID a = wk_RuleID c → wk_RuleVersion a = wk_RuleVersion c →
            wk_RuleVersion a = wk_RuleVersion b) as E2.
    { intros E E'. specialize (E1 E). destruct A2 as [A2 _]; [done|].
      destruct B2 as [B2 _]; [congruence|].
      apply (anti_symm String.le); [done|by rewrite E']. }
    split.
    + intros E. specialize (E1 E). destruct A2 as [A2 A2']; [done|].
      destruct B2 as [B2 B2']; [congruence|]. split; [by etrans|].
      intros E'. specialize (E2 E E'). etrans; [by apply A2'|apply B2'; congruence].
    + intros ->. pose proof (E1 eq_refl) as Ea. pose proof (E2 eq_refl eq_refl) as Eb.
      destruct A2 as [_ A2]; [done|]. destruct B2 as [_ B2]; [done|].
      specialize (A2 Eb). specialize (B2 (eq_sym Eb)). apply A3.
      destruct c as [c1 c2 c3], b as [b1 b2 b3]; cbn in *; subst. f_equal.
      by apply (anti_symm String.le).
Qed.

Lemma string_ltb_total a b : a ≠ b → String.ltb a b = false → String.ltb b a = true.
Proof.
  intros Hne Hf. apply string_ltb_iff. split; [|done].
  destruct (total String.le a b) as [H|H]; [|done].
  assert (String.ltb a b = true) by by apply string_ltb_iff. congruence.
Qed.

Lemma window_lt_total a b : a ≠ b → window_less a b = false → window_lt b a.
Proof.
  destruct a as [a1 a2 a3], b as [b1 b2 b3]. unfold window_lt, window_less. cbn.
  intros Hne Hf. destruct (decide (a1 = b1)) as [->|H1].
  - rewrite !bool_decide_true in * by done. cbn [negb] in *.
    destruct (decide (a2 = b2)) as [->|H2].
    + rewrite !bool_decide_true in * by done. cbn [negb] in *.
      apply string_ltb_total; congruence.
    + rewrite !bool_decide_false in * by congruence. cbn [negb] in *. by apply string_ltb_total.
  - rewrite !bool_decide_false in * by congruence. cbn [negb] in *. by apply string_ltb_total.
Qed.

Lemma elem_of_insert_window k l x : x ∈ insert_window k l ↔ x = k ∨ x ∈ l.
Proof.
  induction l as [|y l IH]; cbn [insert_window]; [set_solver|].
  destruct (window_less y k); set_solver.
Qed.

Lemma insert_window_sorted k l :
  k ∉ l → StronglySorted window_lt l → StronglySorted window_lt (insert_window k l).
Proof.
  intros Hk Hl. induction Hl as [|y l Hl IH Hy]; cbn [insert_window]; [repeat constructor|].
  apply not_elem_of_cons in Hk as [Hne Hk]. destruct (window_less y k) eqn:E.
  - constructor; [by apply IH|]. apply Forall_forall. intros x [->|Hx]%elem_of_insert_window; [done|].
    by eapply Forall_forall in Hy.
  - apply window_lt_total in E; [|done]. constructor; [by constructor|]. constructor; [done|].
    eapply Forall_impl; [exact Hy|]. intros x Hx. by transitivity y.
Qed.

(** Guards are requested in strictly increasing order, each once. *)
Lemma uniqueSortedWindowKeys_spec cs :
  StronglySorted window_lt (uniqueSortedWindowKeys cs) ∧
  ∀ k, k ∈ uniqueSortedWindowKeys cs ↔ ∃ c, c ∈ cs ∧ cd_Window c = k.
Proof.
  unfold uniqueSortedWindowKeys. set (W := list_to_set (cd_Window <$> cs) : gset WindowKey).
  assert (∀ k, k ∈ W ↔ ∃ c, c ∈ cs ∧ cd_Window c = k) as HW by (intros k; set_solver).
  setoid_rewrite <- HW. setoid_rewrite <- elem_of_elements.
  pose proof (NoDup_elements W) as Hnd. induction Hnd as [|k l Hk Hnd [IHs IHe]]; cbn.
  { split; [constructor|done]. }
  split; [apply insert_window_sorted; [by rewrite IHe|done]|].
  intros x. rewrite elem_of_insert_window, IHe, elem_of_cons. done.
Qed.

(** ** Counters count memberships *)
Definition in_window (w : WindowKey) (m : memberRecord) : Prop := mb_window m = w.
Definition in_cell (w : WindowKey) (d : string) (m : memberRecord) : Prop :=
  mb_window m = w ∧ mb_distinctKey m = d.
#[export] Instance in_window_dec w m : base.Decision (in_window w m).
Proof. unfold in_window. apply _. Defined.
#[export] Instance in_cell_dec w d m : base.Decision (in_cell w d m).
Proof. unfold in_cell. apply _. Defined.

Definition count_members (P : memberRecord → Prop) `{∀ m, base.Decision (P m)} (l : Ledger) : Z :=
  Z.of_nat (size (base.filter (λ km : ContributionKey * memberRecord, P km.2) (lg_memberships l))).

Definition slot_counts (l : Ledger) (w : WindowKey) (slot : windowSlot) : Prop :=
  ws_count slot = wrap64 (count_members (in_window w) l) ∧
  ∀ d, ws_distinct slot !! d =
         let n := count_members (in_cell w d) l in if n =? 0 then None else Some (wrap64 n).

Record counts_ok (l : Ledger) : Prop := {
  co_slots : ∀ w slot, lg_windows l !! w = Some slot → slot_counts l w slot;
  co_members : ∀ k m, lg_memberships l !! k = Some m → is_Some (lg_windows l !! mb_window m)
}.

Lemma count_members_insert P `{∀ m, base.Decision (P m)} l k m w c p :
  lg_memberships l !! k = None →
  count_members P (MkLedger w (<[k := m]> (lg_memberships l)) c p) =
    count_members P l + (if decide (P m) then 1 else 0).
Proof.
  intros Hk. unfold count_members. cbn [lg_memberships]. destruct (decide (P m)) as [HP|HP].
  - rewrite map_filter_insert_True by done. rewrite map_size_insert_None; [lia|].
    by rewrite map_lookup_filter, Hk.
  - rewrite map_filter_insert_False, delete_id by done. lia.
Qed.

Lemma count_members_nonneg P `{∀ m, base.Decision (P m)} l : 0 ≤ count_members P l.
Proof. unfold count_members. lia. Qed.

Lemma wrap64_add n : wrap64 (wrap64 n + 1) = wrap64 (n + 1).
Proof. unfold wrap64. by rewrite Z.add_mod_idemp_l. Qed.

Lemma count_members_ext P `{∀ m, base.Decision (P m)} l l' :
  lg_memberships l = lg_memberships l' → count_members P l = count_members P l'.
Proof. unfold count_members. by intros ->. Qed.

Lemma slot_counts_ext l l' w slot g :
  lg_memberships l = lg_memberships l' → slot_counts l w slot →
  slot_counts l' w (set_guard g slot).
Proof. unfold slot_counts, count_members. by intros ->. Qed.

Lemma counts_claims w m c p c' p' : counts_ok (MkLedger w m c p) → counts_ok (MkLedger w m c' p').
Proof. intros [H1 H2]. by split. Qed.

Lemma counts_alter_guard g k l :
  counts_ok l → counts_ok (with_windows l (alter (set_guard g) k (lg_windows l))).
Proof.
  intros [Hs Hm]. split; cbn.
  - intros w slot Hw. apply lookup_alter_Some in Hw as [(-> & s0 & Hs0 & ->)|[Hne Hw]].
    + eapply slot_counts_ext; [done|by apply Hs].
    + by apply Hs.
  - intros k' m Hk. destruct (Hm k' m Hk) as [s Hs']. destruct (decide (k = mb_window m)) as [->|].
    + rewrite lookup_alter_eq, Hs'. by eexists.
    + rewrite lookup_alter_ne by done. by eexists.
Qed.

Lemma counts_releaseSlots ks l : counts_ok l → counts_ok (releaseSlots ks l).
Proof. intros H. induction ks; cbn; [done|]. by apply counts_alter_guard. Qed.

Lemma counts_window k l : counts_ok l → counts_ok (window k l).
Proof.
  intros [Hs Hm]. unfold window. destruct (lg_windows l !! k) eqn:Hk; [done|].
  assert (∀ k' m, lg_memberships l !! k' = Some m → mb_window m ≠ k) as Hno.
  { intros k' m Hk' <-. destruct (Hm k' m Hk'). congruence. }
  split; cbn.
  - intros w slot Hw. apply lookup_insert_Some in Hw as [[<- <-]|[Hne Hw]]; [|by apply Hs].
    assert (∀ P `{∀ m, base.Decision (P m)}, (∀ m, P m → mb_window m = k) →
              count_members P l = 0) as Hz.
    { intros P ? HP. unfold count_members.
      assert (base.filter (λ km : ContributionKey * memberRecord, P km.2) (lg_memberships l) = ∅) as ->;
        [|done].
      apply map_empty. intros k'. apply map_lookup_filter_None. right. intros m Hk' HPm.
      by eapply Hno, HP. }
    split.
    + change (0 = wrap64 (count_members (in_window k) l)). by rewrite (Hz (in_window k)).
    + intros d. change ((∅ : gmap string Z) !! d = let n := count_members (in_cell k d) l in
                                 if n =? 0 then None else Some (wrap64 n)).
      rewrite (Hz (in_cell k d)), lookup_empty; [done|]. by intros m [].
  - intros k' m Hk'. pose proof (Hno _ _ Hk'). rewrite lookup_insert_ne by congruence. eauto.
Qed.

Lemma counts_confirm_one c l :
  counts_ok l → lg_memberships l !! cd_Key c = None → is_Some (lg_windows l !! cd_Window c) →
  counts_ok (confirm_one c l).
Proof.
  intros [Hs Hm] Hk [s0 Hw0]. unfold confirm_one. split; cbn.
  - intros w slot Hw. apply lookup_alter_Some in Hw as [(<- & s & Hs' & ->)|[Hne Hw]].
    + destruct (Hs _ _ Hs') as [Hc Hd]. split.
      * rewrite count_members_insert by done. cbn. rewrite Hc, wrap64_add.
        by rewrite decide_True by done.
      * intros d. cbn. rewrite count_members_insert by done.
        pose proof (count_members_nonneg (in_cell (cd_Window c) d) l).
        destruct (decide (d = cd_DistinctKey c)) as [->|Hne].
        -- rewrite lookup_insert_eq, decide_True by done.
           rewrite (proj2 (Z.eqb_neq _ 0)) by lia. rewrite Hd. cbn.
           destruct (Z.eqb_spec (count_members (in_cell (cd_Window c) (cd_DistinctKey c)) l) 0) as [->|];
             [done|]. cbn. by rewrite wrap64_add.
        -- rewrite lookup_insert_ne, decide_False by (done || by intros []). by rewrite Z.add_0_r.
    + destruct (Hs _ _ Hw) as [Hc Hd]. split.
      * rewrite count_members_insert by done. rewrite decide_False by (by intros <-).
        by rewrite Z.add_0_r.
      * intros d. rewrite count_members_insert by done. rewrite decide_False by (by intros [<- _]).
        by rewrite Z.add_0_r.
  - intros k m Hkm. apply lookup_insert_Some in Hkm as [[<- <-]|[Hne Hkm]]; cbn.
    + rewrite lookup_alter_eq, Hw0. by eexists.
    + destruct (Hm k m Hkm) as [s Hs']. destruct (decide (cd_Window c = mb_window m)) as [->|].
      * rewrite lookup_alter_eq, Hs'. by eexists.
      * rewrite lookup_alter_ne by done. by eexists.
Qed.

(** ** What the operations do to each part of the ledger *)
Definition guard_of (l : Ledger) (k : WindowKey) : option bool := ws_guard <$> lg_windows l !! k.
Definition confirm_all (cs : list Candidate) (l : Ledger) : Ledger :=
  foldl (λ l c, confirm_one c l) l cs.
Definition abort_all (r : rid) (cs : list Candidate) (l : Ledger) : Ledger :=
  foldl (λ l c, abort_one r c l) l cs.
Definition keys (cs : list Candidate) : list ContributionKey := cd_Key <$> cs.

Lemma guard_of_alter (f : windowSlot → windowSlot) l k k' :
  guard_of (with_windows l (alter f k (lg_windows l))) k' =
    if decide (k' = k) then (ws_guard ∘ f) <$> lg_windows l !! k else guard_of l k'.
Proof.
  unfold guard_of, with_windows. cbn. destruct (decide (k' = k)) as [->|].
  - by rewrite lookup_alter_eq, <- option_fmap_compose.
  - by rewrite lookup_alter_ne.
Qed.

Lemma releaseSlots_fields ks l :
  lg_memberships (releaseSlots ks l) = lg_memberships l ∧
  lg_claims (releaseSlots ks l) = lg_claims l ∧ lg_pending (releaseSlots ks l) = lg_pending l.
Proof. induction ks; cbn; [done|]. done. Qed.

Lemma guard_of_releaseSlots ks l k :
  guard_of (releaseSlots ks l) k =
    if decide (k ∈ ks) then (λ _, true) <$> guard_of l k else guard_of l k.
Proof.
  induction ks as [|x ks IH]; cbn [releaseSlots foldr].
  { by rewrite decide_False by apply not_elem_of_nil. }
  fold (releaseSlots ks l). unfold releaseSlot. rewrite guard_of_alter.
  destruct (decide (k = x)) as [->|Hne].
  - rewrite decide_True by by left. unfold guard_of in IH |- *.
    destruct (lg_windows l !! x), (lg_windows (releaseSlots ks l) !! x);
      cbn in *; destruct (decide (x ∈ ks)); done.
  - rewrite IH. destruct (decide (k ∈ ks)), (decide (k ∈ x :: ks)); set_solver.
Qed.

Lemma drop_pending_fields r d l :
  lg_windows (drop_pending r d l) = lg_windows l ∧
  lg_memberships (drop_pending r d l) = lg_memberships l ∧
  lg_claims (drop_pending r d l) = lg_claims l.
Proof. unfold drop_pending. by case_bool_decide. Qed.

Lemma drop_pending_guard r d l k : guard_of (drop_pending r d l) k = guard_of l k.
Proof. unfold guard_of. by destruct (drop_pending_fields r d l) as [-> _]. Qed.

Lemma confirm_all_guard cs l k : guard_of (confirm_all cs l) k = guard_of l k.
Proof.
  revert l. induction cs as [|c cs IH]; intros l; cbn; [done|]. fold (confirm_all cs (confirm_one c l)).
  rewrite IH. unfold guard_of, confirm_one. cbn. destruct (decide (cd_Window c = k)) as [->|].
  - rewrite lookup_alter_eq, <- option_fmap_compose. by destruct (lg_windows l !! k).
  - by rewrite lookup_alter_ne.
Qed.

Lemma confirm_all_claims cs l k :
  lg_claims (confirm_all cs l) !! k = if decide (k ∈ keys cs) then None else lg_claims l !! k.
Proof.
  revert l. induction cs as [|c cs IH]; intros l; cbn [confirm_all foldl keys fmap list_fmap].
  { by rewrite decide_False by apply not_elem_of_nil. }
  fold (confirm_all cs (confirm_one c l)). rewrite IH. unfold confirm_one. cbn [lg_claims].
  fold (keys cs). destruct (decide (k = cd_Key c)) as [->|Hne].
  - rewrite lookup_delete_eq, (decide_True (P := cd_Key c ∈ cd_Key c :: keys cs)) by by left.
    by destruct (decide _).
  - rewrite lookup_delete_ne by done.
    destruct (decide (k ∈ keys cs)), (decide (k ∈ cd_Key c :: keys cs)); set_solver.
Qed.

Lemma confirm_all_memberships cs l k :
  k ∉ keys cs → lg_memberships (confirm_all cs l) !! k = lg_memberships l !! k.
Proof.
  revert l. induction cs as [|c cs IH]; intros l Hk; cbn; [done|].
  fold (confirm_all cs (confirm_one c l)). cbn in Hk. apply not_elem_of_cons in Hk as [Hne Hk].
  rewrite IH by done. cbn. by rewrite lookup_insert_ne.
Qed.

(** A confirmed candidate is recorded with its window, value and time. *)
Lemma confirm_all_member cs l c :
  NoDup (keys cs) → c ∈ cs →
  lg_memberships (confirm_all cs l) !! cd_Key c =
    Some (MkMember (cd_Window c) (cd_DistinctKey c) (cd_ObservedAt c)).
Proof.
  revert l. induction cs as [|x cs IH]; intros l Hnd Hc; [by apply not_elem_of_nil in Hc|].
  cbn. fold (confirm_all cs (confirm_one x l)). cbn in Hnd. apply NoDup_cons in Hnd as [Hx Hnd].
  apply elem_of_cons in Hc as [->|Hc]; [|by apply IH].
  rewrite confirm_all_memberships by done. cbn. by rewrite lookup_insert_eq.
Qed.

Lemma confirm_all_window cs l w :
  lg_windows (confirm_all cs l) !! w =
    (λ slot, foldl (λ s c, if decide (cd_Window c = w) then add_member (cd_DistinctKey c) s else s)
               slot cs) <$> lg_windows l !! w.
Proof.
  revert l. induction cs as [|c cs IH]; intros l; cbn; [by destruct (_ !! w)|].
  fold (confirm_all cs (confirm_one c l)). rewrite IH. unfold confirm_one. cbn.
  destruct (decide (cd_Window c = w)) as [->|].
  - rewrite lookup_alter_eq. by destruct (lg_windows l !! w).
  - rewrite lookup_alter_ne by done. by destruct (lg_windows l !! w).
Qed.

Lemma counts_confirm_all cs l :
  counts_ok l → NoDup (keys cs) →
  (∀ c, c ∈ cs → lg_memberships l !! cd_Key c = None ∧ is_Some (lg_windows l !! cd_Window c)) →
  counts_ok (confirm_all cs l).
Proof.
  revert l. induction cs as [|c cs IH]; intros l Hok Hnd Hcs; cbn; [done|].
  fold (confirm_all cs (confirm_one c l)). cbn in Hnd. apply NoDup_cons in Hnd as [Hc Hnd].
  destruct (Hcs c) as [Hk Hw]; [by left|].
  apply IH; [by apply counts_confirm_one|done|].
  intros d Hd. destruct (Hcs d) as [Hkd Hwd]; [by right|]. cbn. split.
  - rewrite lookup_insert_ne; [done|]. intros E. apply Hc. rewrite E. by apply list_elem_of_fmap_2.
  - destruct (decide (cd_Window c = cd_Window d)) as [E|].
    + rewrite <- E, lookup_alter_eq. by apply fmap_is_Some.
    + by rewrite lookup_alter_ne.
Qed.

Lemma abort_all_fields r cs l :
  lg_windows (abort_all r cs l) = lg_windows l ∧
  lg_memberships (abort_all r cs l) = lg_memberships l ∧
  lg_pending (abort_all r cs l) = lg_pending l.
Proof.
  revert l. induction cs as [|c cs IH]; intros l; cbn; [done|].
  fold (abort_all r cs (abort_one r c l)). destruct (IH (abort_one r c l)) as (-> & -> & ->).
  unfold abort_one. by case_bool_decide.
Qed.

Lemma abort_all_claims r cs l k :
  (∀ c, c ∈ cs → lg_claims l !! cd_Key c = Some r) → NoDup (keys cs) →
  lg_claims (abort_all r cs l) !! k = if decide (k ∈ keys cs) then None else lg_claims l !! k.
Proof.
  revert l. induction cs as [|c cs IH]; intros l Hcs Hnd; cbn [abort_all foldl keys fmap list_fmap].
  { by rewrite decide_False by apply not_elem_of_nil. }
  cbn in Hnd. apply NoDup_cons in Hnd as [Hc Hnd]. fold (keys cs) in *.
  fold (abort_all r cs (abort_one r c l)).
  assert (lg_claims (abort_one r c l) = delete (cd_Key c) (lg_claims l)) as Hcl.
  { unfold abort_one. rewrite bool_decide_true; [done|]. apply Hcs. by left. }
  rewrite IH; [rewrite Hcl| |done].
  - destruct (decide (k = cd_Key c)) as [->|Hne].
    + rewrite lookup_delete_eq, (decide_True (P := cd_Key c ∈ cd_Key c :: keys cs)) by by left.
      by destruct (decide _).
    + rewrite lookup_delete_ne by done.
      destruct (decide (k ∈ keys cs)), (decide (k ∈ cd_Key c :: keys cs)); set_solver.
  - intros d Hd. rewrite Hcl, lookup_delete_ne; [apply Hcs; by right|].
    intros E. apply Hc. rewrite E. by apply list_elem_of_fmap_2.
Qed.

(** ** prepareLocked stages what Confirm will apply *)
Definition preview_of (w : WindowKey) (ps : list Preview) : option Snapshot :=
  pv_Snapshot <$> last (base.filter (λ p, cd_Window (pv_Candidate p) = w) ps).

Record projected_ok (r : rid) (l : Ledger) (pre : list Candidate) (p : projection_state) : Prop := {
  pj_seen : ∀ k, k ∈ ps_seen p ↔ k ∈ keys pre;
  pj_nodup : NoDup (keys (ps_staged p));
  pj_staged : ∀ c, c ∈ ps_staged p → c ∈ pre ∧ lg_memberships l !! cd_Key c = None;
  pj_new : ∀ c, c ∈ pre → lg_memberships l !! cd_Key c = None → cd_Key c ∈ keys (ps_staged p);
  pj_claims : ∀ k, ps_claims p !! k =
    if decide (k ∈ keys (ps_staged p)) then Some r else lg_claims l !! k;
  pj_projected : ∀ w slot, ps_projected p !! w = Some slot →
    lg_windows (confirm_all (ps_staged p) l) !! w = Some slot ∧
    preview_of w (ps_previews p) = Some (snapshotOf slot);
  pj_domain : ∀ w, ps_projected p !! w = None → ∀ c, c ∈ pre → cd_Window c ≠ w
}.

Lemma confirm_all_snoc cs c l : confirm_all (cs ++ [c]) l = confirm_one c (confirm_all cs l).
Proof. unfold confirm_all. by rewrite foldl_app. Qed.

Lemma preview_of_snoc w ps p :
  preview_of w (ps ++ [p]) =
    if decide (cd_Window (pv_Candidate p) = w) then Some (pv_Snapshot p) else preview_of w ps.
Proof.
  unfold preview_of. rewrite filter_app, filter_cons, filter_nil.
  destruct (decide _); [by rewrite last_snoc|by rewrite app_nil_r].
Qed.

Lemma keys_snoc cs c : keys (cs ++ [c]) = keys cs ++ [cd_Key c].
Proof. unfold keys. by rewrite fmap_app. Qed.

Lemma confirm_all_untouched cs l w :
  (∀ c, c ∈ cs → cd_Window c ≠ w) → lg_windows (confirm_all cs l) !! w = lg_windows l !! w.
Proof.
  intros Hcs. rewrite confirm_all_window. destruct (lg_windows l !! w) as [slot|]; [|done].
  cbn. f_equal. induction cs as [|c cs IH]; [done|]. cbn.
  rewrite decide_False by (apply Hcs; by left). apply IH. intros d Hd. apply Hcs. by right.
Qed.

Lemma project_one_ok r l pre c p :
  is_Some (lg_windows l !! cd_Window c) → projected_ok r l pre p →
  projected_ok r l (pre ++ [c]) (project_one r l c p).
Proof.
  intros [slot0 Hslot0] [Hseen Hnd Hst Hnew Hcl Hproj Hdom]. unfold project_one.
  set (state := match ps_projected p !! cd_Window c with Some st => st | None => _ end).
  assert (lg_windows (confirm_all (ps_staged p) l) !! cd_Window c = Some state) as Hstate.
  { unfold state. destruct (ps_projected p !! cd_Window c) as [st|] eqn:E.
    - by apply Hproj in E as [? _].
    - rewrite confirm_all_untouched, Hslot0; [done|].
      intros d [Hd _]%Hst. by eapply Hdom. }
  assert (∀ w sl, w ≠ cd_Window c → ps_projected p !! w = Some sl →
     lg_windows (confirm_all (ps_staged p) l) !! w = Some sl ∧
     preview_of w (ps_previews p) = Some (snapshotOf sl)) as Hold by auto.
  set (contributes := negb _ && _).
  assert (contributes = true → (cd_Key c ∉ keys (ps_staged p)) ∧ lg_memberships l !! cd_Key c = None)
    as Hcon.
  { unfold contributes. intros H. gobool. destruct H as [Hns Hm].
    split; [|done]. intros (d & Hd & Hin)%list_elem_of_fmap.
    apply Hns, Hseen. rewrite Hd. by apply list_elem_of_fmap_2, Hst. }
  assert (contributes = false → lg_memberships l !! cd_Key c = None → cd_Key c ∈ keys (ps_staged p))
    as Hncon.
  { unfold contributes. intros H Hm. rewrite Hm in H. cbn in H. rewrite andb_true_r in H.
    apply negb_false_iff, bool_decide_true_iff, Hseen in H.
    apply list_elem_of_fmap in H as (d & Hd & Hin). rewrite Hd. apply Hnew; [done|by rewrite <- Hd]. }
  destruct contributes.
  - destruct Hcon as [Hfresh Hmem]; [done|].
    split; cbn [ps_claims ps_projected ps_seen ps_previews ps_staged].
    + intros k. rewrite keys_snoc. set_solver.
    + rewrite keys_snoc. apply NoDup_app. split; [done|]. split; [set_solver|apply NoDup_singleton].
    + intros d [Hd|Hd]%elem_of_app; [|apply list_elem_of_singleton in Hd as ->; set_solver].
      destruct (Hst d Hd). split; [set_solver|done].
    + intros d [Hd|Hd]%elem_of_app Hm; rewrite keys_snoc; apply elem_of_app;
        [left; auto|right; set_solver].
    + intros k. rewrite keys_snoc. destruct (decide (k = cd_Key c)) as [->|Hne].
      * rewrite lookup_insert_eq, decide_True by set_solver. done.
      * rewrite lookup_insert_ne, Hcl by done.
        destruct (decide (k ∈ keys (ps_staged p))), (decide (k ∈ keys (ps_staged p) ++ [cd_Key c]));
          set_solver.
    + intros w sl Hw. rewrite confirm_all_snoc, preview_of_snoc.
      cbn [pv_Candidate pv_Snapshot confirm_one lg_windows].
      destruct (decide (cd_Window c = w)) as [<-|Hne].
      * rewrite lookup_insert_eq in Hw. injection Hw as <-.
        by rewrite lookup_alter_eq, Hstate.
      * rewrite lookup_insert_ne in Hw by done. rewrite lookup_alter_ne by done. by apply Hold.
    + intros w Hw d Hd E. destruct (decide (cd_Window c = w)) as [<-|Hne];
        [by rewrite lookup_insert_eq in Hw|]. rewrite lookup_insert_ne in Hw by done.
      apply elem_of_app in Hd as [Hd|Hd%list_elem_of_singleton]; [by eapply Hdom|congruence].
  - split; cbn [ps_claims ps_projected ps_seen ps_previews ps_staged]; try done.
    + intros k. rewrite keys_snoc. set_solver.
    + intros d Hd. destruct (Hst d Hd). split; [set_solver|done].
    + intros d [Hd|Hd%list_elem_of_singleton]%elem_of_app Hm; [auto|subst d; auto].
    + intros w sl Hw. rewrite preview_of_snoc. cbn.
      destruct (decide (cd_Window c = w)) as [<-|Hne].
      * rewrite lookup_insert_eq in Hw. injection Hw as <-. done.
      * rewrite lookup_insert_ne in Hw by done. by apply Hold.
    + intros w Hw d Hd E. destruct (decide (cd_Window c = w)) as [<-|Hne];
        [by rewrite lookup_insert_eq in Hw|]. rewrite lookup_insert_ne in Hw by done.
      apply elem_of_app in Hd as [Hd|Hd%list_elem_of_singleton]; [by eapply Hdom|congruence].
Qed.

Lemma project_all_ok r l cs :
  (∀ c, c ∈ cs → is_Some (lg_windows l !! cd_Window c)) →
  projected_ok r l cs (foldl (λ p c, project_one r l c p) (MkPS (lg_claims l) ∅ ∅ [] []) cs).
Proof.
  induction cs as [|c cs IH] using rev_ind; intros Hw.
  - split; cbn; try done; try constructor; try set_solver.
  - rewrite foldl_app. cbn. apply project_one_ok; [apply Hw; set_solver|].
    apply IH. intros d Hd. apply Hw. set_solver.
Qed.

(** What prepareLocked guarantees when it succeeds. *)
Lemma prepareLocked_Ok r cs l previews staged l' :
  (∀ c, c ∈ cs → is_Some (lg_windows l !! cd_Window c)) →
  prepareLocked r cs l = (Ok (previews, staged), l') →
  NoDup (keys staged) ∧
  (∀ c, c ∈ staged → c ∈ cs ∧ lg_memberships l !! cd_Key c = None) ∧
  (∀ k, lg_claims l' !! k = if decide (k ∈ keys staged) then Some r else lg_claims l !! k) ∧
  lg_windows l' = lg_windows l ∧ lg_memberships l' = lg_memberships l ∧ lg_pending l' = lg_pending l ∧
  (∀ c, c ∈ cs → ∃ slot, lg_windows (confirm_all staged l) !! cd_Window c = Some slot ∧
                         preview_of (cd_Window c) previews = Some (snapshotOf slot)).
Proof.
  intros Hw H. unfold prepareLocked in H. destruct (check_batch _ _ _ _); [|done].
  pose proof (project_all_ok r l cs Hw) as Hp. set (p := foldl _ _ _) in *. clearbody p.
  destruct Hp as [H1 H2 H3 H4 H5 H6 H7]. simplify_eq.
  split_and!; try done. intros c Hc.
  destruct (ps_projected p !! cd_Window c) as [slot|] eqn:E; [eauto|].
  by destruct (H7 _ E c Hc).
Qed.

Lemma check_batch_claims r l seen cs :
  check_batch r l seen cs = Ok tt → (∀ k, is_Some (seen !! k) → lg_memberships l !! k = None →
     lg_claims l !! k = None ∨ lg_claims l !! k = Some r) →
  ∀ c, c ∈ cs → lg_memberships l !! cd_Key c = None →
    lg_claims l !! cd_Key c = None ∨ lg_claims l !! cd_Key c = Some r.
Proof.
  revert seen. induction cs as [|x cs IH]; intros seen H Hseen c Hc Hm;
    [by apply not_elem_of_nil in Hc|].
  cbn [check_batch] in H. destruct (seen !! cd_Key x) as [prior|] eqn:Hp.
  { inv_ok. apply elem_of_cons in Hc as [->|Hc]; [by apply Hseen; [rewrite Hp|]|by eapply IH]. }
  assert (∀ k, is_Some (<[cd_Key x:=x]> seen !! k) → lg_memberships l !! k = None →
     k ≠ cd_Key x → lg_claims l !! k = None ∨ lg_claims l !! k = Some r) as Hseen'.
  { intros k Hk Hm' Hne. rewrite lookup_insert_ne in Hk by done. by apply Hseen. }
  destruct (lg_memberships l !! cd_Key x) as [m|] eqn:Hmx; inv_ok.
  - apply elem_of_cons in Hc as [->|Hc]; [congruence|]. eapply IH; [done| |done|done].
    intros k Hk Hm'. apply Hseen'; [done|done|congruence].
  - assert (lg_claims l !! cd_Key x = None ∨ lg_claims l !! cd_Key x = Some r) as Hx.
    { destruct (lg_claims l !! cd_Key x) as [o|]; [|by left]. right.
      apply negb_false_iff, Nat.eqb_eq in H0. by subst. }
    apply elem_of_cons in Hc as [->|Hc]; [done|]. eapply IH; [done| |done|done].
    intros k Hk Hm'. destruct (decide (k = cd_Key x)) as [->|]; [done|]. by apply Hseen'.
Qed.

(** ** The system invariant *)
Definition live (v : Reservation) : Prop := rv_phase v ≠ Finished.
Abbreviation reservations := (gmap nat Reservation) (only parsing).
Definition holds (rs : reservations) (r : rid) (k : WindowKey) : Prop :=
  ∃ v, rs !! r = Some v ∧ live v ∧ k ∈ rv_locked v.

(** Guards: taken exactly while a live reservation holds the window, by one
    reservation at a time, in canonical order. *)
Record guards_inv (l : Ledger) (rs : reservations) : Prop := {
  gi_held : ∀ k, guard_of l k = Some false ↔ ∃ r, holds rs r k;
  gi_excl : ∀ r1 r2 k, holds rs r1 k → holds rs r2 k → r1 = r2;
  gi_order : ∀ r v, rs !! r = Some v →
    match rv_phase v with
    | Acquiring todo => rv_locked v ++ todo = uniqueSortedWindowKeys (rv_batch v)
    | Prepared => rv_locked v = uniqueSortedWindowKeys (rv_batch v)
    | Finished => True
    end
}.

(** Claims: exactly the staged keys of prepared reservations. *)
Record claims_inv (claims : gmap ContributionKey rid)
    (members : gmap ContributionKey memberRecord) (rs : reservations) : Prop := {
  ci_staged : ∀ r v, rs !! r = Some v → rv_phase v = Prepared →
    NoDup (keys (rv_candidates v)) ∧
    ∀ c, c ∈ rv_candidates v →
      c ∈ rv_batch v ∧ claims !! cd_Key c = Some r ∧ members !! cd_Key c = None;
  ci_owner : ∀ k r, claims !! k = Some r →
    ∃ v, rs !! r = Some v ∧ rv_phase v = Prepared ∧ k ∈ keys (rv_candidates v)
}.

Record sys_inv (s : system) : Prop := {
  si_counts : counts_ok (sy_ledger s);
  si_guards : guards_inv (sy_ledger s) (sy_res s);
  si_claims : claims_inv (lg_claims (sy_ledger s)) (lg_memberships (sy_ledger s)) (sy_res s)
}.

Lemma holds_insert rs r v r' k :
  holds (<[r := v]> rs) r' k ↔
    (r' = r ∧ live v ∧ k ∈ rv_locked v) ∨ (r' ≠ r ∧ holds rs r' k).
Proof.
  unfold holds. destruct (decide (r' = r)) as [->|Hne].
  - rewrite lookup_insert_eq. naive_solver.
  - rewrite lookup_insert_ne by done. naive_solver.
Qed.

Lemma guards_ext l l' rs :
  (∀ k, guard_of l' k = Some false ↔ guard_of l k = Some false) → guards_inv l rs → guards_inv l' rs.
Proof. intros H [H1 H2 H3]. split; [intros k; by rewrite H|done..]. Qed.

(** A live reservation ends and returns its guards. *)
Lemma guards_finish l l' rs r v :
  guards_inv l rs → rs !! r = Some v → live v →
  (∀ k, guard_of l' k =
     if decide (k ∈ rv_locked v) then (λ _, true) <$> guard_of l k else guard_of l k) →
  guards_inv l' (<[r := with_phase v Finished]> rs).
Proof.
  intros [H1 H2 H3] Hr Hl Hg. split.
  - intros k. rewrite Hg. setoid_rewrite holds_insert.
    destruct (decide (k ∈ rv_locked v)) as [Hk|Hk].
    + split; [by destruct (guard_of l k)|]. intros (r' & [(_ & Hf & _)|[Hne Hh]]); [done|].
      destruct Hne. eapply H2; [done|]. by exists v.
    + rewrite H1. split.
      * intros (r' & Hh). exists r'. right. split; [|done]. intros ->.
        destruct Hh as (v' & Hv' & _ & Hin). congruence.
      * intros (r' & [(_ & Hf & _)|[_ Hh]]); [done|eauto].
  - intros r1 r2 k. rewrite !holds_insert.
    intros [(_ & Hf & _)|[_ Ha]] [(_ & Hf' & _)|[_ Hb]]; try done. by eapply H2.
  - intros r' v' Hv'. destruct (decide (r' = r)) as [->|Hne].
    + rewrite lookup_insert_eq in Hv'. by simplify_eq.
    + rewrite lookup_insert_ne in Hv' by done. by apply (H3 r').
Qed.

Lemma claims_finish claims claims' members members' rs r v :
  claims_inv claims members rs → rs !! r = Some v → rv_phase v = Prepared →
  (∀ k, claims' !! k = if decide (k ∈ keys (rv_candidates v)) then None else claims !! k) →
  (∀ k, k ∉ keys (rv_candidates v) → members' !! k = members !! k) →
  claims_inv claims' members' (<[r := with_phase v Finished]> rs).
Proof.
  intros [H1 H2] Hr Hp Hc Hm. destruct (H1 r v Hr Hp) as [_ Hrv].
  assert (∀ k r', claims !! k = Some r' → r' ≠ r → k ∉ keys (rv_candidates v)) as Hother.
  { intros k r' Hk Hne (c & -> & Hcin)%list_elem_of_fmap. destruct (Hrv c Hcin) as (_ & Hk' & _).
    congruence. }
  split.
  - intros r' v' Hv' Hp'. destruct (decide (r' = r)) as [->|Hne];
      [rewrite lookup_insert_eq in Hv'; by simplify_eq|].
    rewrite lookup_insert_ne in Hv' by done. destruct (H1 r' v' Hv' Hp') as [Hnd Hst].
    split; [done|]. intros c Hcin. destruct (Hst c Hcin) as (Hb & Hk & Hmm).
    pose proof (Hother _ _ Hk Hne) as Hno.
    by rewrite Hc, decide_False, Hm.
  - intros k r' Hk. rewrite Hc in Hk. destruct (decide (k ∈ keys (rv_candidates v))) as [|Hno]; [done|].
    destruct (H2 k r' Hk) as (v' & Hv' & Hp' & Hin). exists v'.
    assert (r' ≠ r) by (intros ->; congruence). by rewrite lookup_insert_ne.
Qed.

Lemma claims_new claims members rs r v :
  claims_inv claims members rs → rs !! r = None ∨ (∃ v0 todo, rs !! r = Some v0 ∧ rv_phase v0 = Acquiring todo) →
  rv_phase v ≠ Prepared → claims_inv claims members (<[r := v]> rs).
Proof.
  intros [H1 H2] Hr Hp. split.
  - intros r' v' Hv' Hp'. destruct (decide (r' = r)) as [->|Hne];
      [rewrite lookup_insert_eq in Hv'; by simplify_eq|].
    rewrite lookup_insert_ne in Hv' by done. eauto.
  - intros k r' Hk. destruct (H2 k r' Hk) as (v' & Hv' & Hp' & Hin). exists v'.
    assert (r' ≠ r) by (intros ->; naive_solver congruence). by rewrite lookup_insert_ne.
Qed.

Lemma live_windows s r v c :
  sys_inv s → sy_res s !! r = Some v → rv_phase v = Acquiring [] ∨ rv_phase v = Prepared →
  c ∈ rv_batch v →
  cd_Window c ∈ rv_locked v ∧ is_Some (lg_windows (sy_ledger s) !! cd_Window c).
Proof.
  intros Hinv Hr Hp Hc. pose proof (gi_order _ _ (si_guards _ Hinv) r v Hr) as Ho.
  assert (rv_locked v = uniqueSortedWindowKeys (rv_batch v)) as Hl.
  { destruct Hp as [Hp|Hp]; rewrite Hp in Ho; [by rewrite app_nil_r in Ho|done]. }
  assert (cd_Window c ∈ rv_locked v) as Hin.
  { rewrite Hl. apply uniqueSortedWindowKeys_spec. eauto. }
  split; [done|].
  assert (guard_of (sy_ledger s) (cd_Window c) = Some false) as Hg.
  { apply (gi_held _ _ (si_guards _ Hinv)). exists r, v. split_and!; [done| |done].
    unfold live. destruct Hp as [-> | ->]; done. }
  unfold guard_of in Hg. destruct (_ !! cd_Window c); [by eexists|done].
Qed.

Lemma counts_fields l l' :
  lg_windows l' = lg_windows l → lg_memberships l' = lg_memberships l →
  counts_ok l → counts_ok l'.
Proof. destruct l, l'. cbn. intros -> ->. apply counts_claims. Qed.

(** ** Each step keeps the invariant *)
Lemma cancel_inv s r v todo :
  sys_inv s → sy_res s !! r = Some v → rv_phase v = Acquiring todo → sys_inv (cancel r v s).
Proof.
  intros [Hc Hg Hcl] Hr Hp. unfold cancel.
  destruct (releaseSlots_fields (rv_locked v) (sy_ledger s)) as (Hm & Hclm & _). split; cbn.
  - by apply counts_releaseSlots.
  - eapply guards_finish; [done|done|by unfold live; rewrite Hp|].
    intros k. apply guard_of_releaseSlots.
  - rewrite Hm, Hclm. apply claims_new; [done|right; eauto|done].
Qed.

Lemma Confirm_inv s r : sys_inv s → sys_inv (Confirm r s).
Proof.
  intros Hinv. unfold Confirm. destruct (sy_res s !! r) as [v|] eqn:Hr; [|done].
  destruct (rv_phase v) eqn:Hp; try done. pose proof Hinv as [Hc Hg Hcl].
  destruct (ci_staged _ _ _ Hcl r v Hr Hp) as [Hnd Hst]. unfold confirm_body.
  fold (confirm_all (rv_candidates v) (sy_ledger s)).
  set (l1 := confirm_all (rv_candidates v) (sy_ledger s)).
  set (l2 := drop_pending r (rv_deliveryID v) l1).
  destruct (releaseSlots_fields (rv_locked v) l2) as (Hm & Hclm & _).
  destruct (drop_pending_fields r (rv_deliveryID v) l1) as (Hw2 & Hm2 & Hcl2). fold l2 in Hw2, Hm2, Hcl2.
  split; cbn.
  - apply counts_releaseSlots.
    apply (counts_fields l1); [done|done|].
    apply counts_confirm_all; [done|done|]. intros c Hcin. destruct (Hst c Hcin) as (Hb & _ & Hmm).
    split; [done|]. eapply live_windows; eauto.
  - eapply guards_finish; [done|done|by unfold live; rewrite Hp|].
    intros k. rewrite guard_of_releaseSlots. unfold l2, l1. by rewrite drop_pending_guard, confirm_all_guard.
  - rewrite Hm, Hclm, Hm2, Hcl2. eapply claims_finish; [done|done|done| |].
    + intros k. apply confirm_all_claims.
    + intros k Hk. by apply confirm_all_memberships.
Qed.

Lemma Abort_inv s r : sys_inv s → sys_inv (Abort_ r s).
Proof.
  intros Hinv. unfold Abort_. destruct (sy_res s !! r) as [v|] eqn:Hr; [|done].
  destruct (rv_phase v) eqn:Hp; try done. pose proof Hinv as [Hc Hg Hcl].
  destruct (ci_staged _ _ _ Hcl r v Hr Hp) as [Hnd Hst]. unfold abort_body.
  fold (abort_all r (rv_candidates v) (sy_ledger s)).
  set (l1 := abort_all r (rv_candidates v) (sy_ledger s)).
  set (l2 := drop_pending r (rv_deliveryID v) l1).
  destruct (releaseSlots_fields (rv_locked v) l2) as (Hm & Hclm & _).
  destruct (drop_pending_fields r (rv_deliveryID v) l1) as (Hw2 & Hm2 & Hcl2). fold l2 in Hw2, Hm2, Hcl2.
  destruct (abort_all_fields r (rv_candidates v) (sy_ledger s)) as (Hw1 & Hm1 & _).
  fold l1 in Hw1, Hm1. split; cbn.
  - apply counts_releaseSlots, (counts_fields (sy_ledger s)); [congruence|congruence|done].
  - eapply guards_finish; [done|done|by unfold live; rewrite Hp|].
    intros k. rewrite guard_of_releaseSlots. unfold guard_of. by rewrite Hw2, Hw1.
  - rewrite Hm, Hclm, Hm2, Hcl2, Hm1. eapply claims_finish; [done|done|done| |done].
    intros k. apply abort_all_claims; [|done]. intros c Hcin. by apply Hst.
Qed.

Lemma guards_insert l l' rs r v :
  guards_inv l rs →
  (∀ k, k ∈ rv_locked v → holds rs r k ∨ guard_of l k = Some true) →
  (∀ k, holds rs r k → k ∈ rv_locked v) → live v →
  (∀ k, guard_of l' k = Some false ↔ guard_of l k = Some false ∨ k ∈ rv_locked v) →
  match rv_phase v with
  | Acquiring todo => rv_locked v ++ todo = uniqueSortedWindowKeys (rv_batch v)
  | Prepared => rv_locked v = uniqueSortedWindowKeys (rv_batch v)
  | Finished => True
  end →
  guards_inv l' (<[r := v]> rs).
Proof.
  intros [H1 H2 H3] Hnew Hkeep Hl Hg Ho. split.
  - intros k. rewrite Hg, H1. setoid_rewrite holds_insert. split.
    + intros [(r' & Hh)|Hk]; [|eauto]. destruct (decide (r' = r)) as [->|]; [|eauto].
      exists r. left. auto.
    + intros (r' & [(-> & _ & Hk)|[_ Hh]]); eauto.
  - assert (∀ r' k, r' ≠ r → holds rs r' k → k ∉ rv_locked v) as Hno.
    { intros r' k Hne Hh [Hk|Hk]%Hnew; [by destruct Hne; eapply H2|].
      assert (guard_of l k = Some false) by (apply H1; eauto). congruence. }
    intros r1 r2 k. rewrite !holds_insert.
    intros [(-> & _ & Ha)|[Hn1 Ha]] [(-> & _ & Hb)|[Hn2 Hb]]; [done|..|by eapply H2];
      exfalso; by eapply Hno.
  - intros r' v' Hv'. destruct (decide (r' = r)) as [->|Hne].
    + rewrite lookup_insert_eq in Hv'. by simplify_eq.
    + rewrite lookup_insert_ne in Hv' by done. by apply (H3 r').
Qed.

Lemma finish_prepare_inv s r v :
  sys_inv s → sy_res s !! r = Some v → rv_phase v = Acquiring [] →
  sys_inv (finish_prepare r v s).2.
Proof.
  intros Hinv Hr Hp. unfold finish_prepare.
  destruct (prepareLocked r (rv_batch v) (sy_ledger s)) as [[[previews staged]|e] l'] eqn:HP; cbn [snd].
  2:{ assert (l' = sy_ledger s) as ->.
      { unfold prepareLocked in HP. destruct (check_batch _ _ _ _); by simplify_eq. }
      destruct s. by eapply cancel_inv. }
  assert (check_batch r (sy_ledger s) ∅ (rv_batch v) = Ok tt) as Hchk.
  { unfold prepareLocked in HP. by destruct (check_batch _ _ _ _) as [[]|]. }
  apply prepareLocked_Ok in HP as (Hnd & Hst & Hcl' & Hw & Hm & _ & _).
  2:{ intros c Hc. eapply live_windows; eauto. }
  pose proof Hinv as [Hc Hg Hcl]. split; cbn.
  - by apply (counts_fields (sy_ledger s)).
  - pose proof (gi_order _ _ Hg r v Hr) as Ho. rewrite Hp, app_nil_r in Ho.
    assert (∀ k, holds (sy_res s) r k ↔ k ∈ rv_locked v) as Hh.
    { intros k. unfold holds. split; [intros (v' & Hv' & _ & Hk); by simplify_eq|].
      intros Hk. exists v. split_and!; [done|by unfold live; rewrite Hp|done]. }
    eapply guards_insert; cbn; [done|intros k Hk; left; by apply Hh|by intros k ?%Hh|done| |done].
    intros k. unfold guard_of at 1. rewrite Hw. fold (guard_of (sy_ledger s) k).
    split; [by left|]. intros [?|Hk]; [done|]. apply (gi_held _ _ Hg). exists r. by apply Hh.
  - rewrite Hm.
    assert (∀ k, lg_claims (sy_ledger s) !! k ≠ Some r) as Hnone.
    { intros k Hk. destruct (ci_owner _ _ _ Hcl k r Hk) as (v' & Hv' & Hp' & _). congruence. }
    assert (∀ c, c ∈ staged → lg_claims (sy_ledger s) !! cd_Key c = None) as Hfree.
    { intros c Hcs. destruct (Hst c Hcs) as [Hb Hmm].
      destruct (check_batch_claims _ _ _ _ Hchk) with (c := c) as [|Hbad]; try done.
      - intros k [x Hx]. by rewrite lookup_empty in Hx.
      - by destruct (Hnone (cd_Key c)). }
    split.
    + intros r' v' Hv' Hp'. destruct (decide (r' = r)) as [->|Hne].
      * rewrite lookup_insert_eq in Hv'. injection Hv' as <-. cbn. split; [done|].
        intros c Hcs. destruct (Hst c Hcs). split_and!; [done| |done].
        rewrite Hcl', decide_True; [done|]. by apply list_elem_of_fmap_2.
      * rewrite lookup_insert_ne in Hv' by done. destruct (ci_staged _ _ _ Hcl r' v' Hv' Hp') as [Hnd' Hst'].
        split; [done|]. intros c Hcs. destruct (Hst' c Hcs) as (Hb & Hk & Hmm). split_and!; [done| |done].
        rewrite Hcl', decide_False; [done|]. intros (d & Hd & Hds)%list_elem_of_fmap.
        specialize (Hfree d Hds). congruence.
    + intros k r' Hk. rewrite Hcl' in Hk. destruct (decide (k ∈ keys staged)) as [Hin|Hin].
      * injection Hk as <-. eexists. by rewrite lookup_insert_eq.
      * destruct (ci_owner _ _ _ Hcl k r' Hk) as (v' & Hv' & Hp' & Hkin). exists v'.
        assert (r' ≠ r) by (intros ->; congruence). by rewrite lookup_insert_ne.
Qed.

Lemma take_inv s r v k todo slot :
  sys_inv s → sy_res s !! r = Some v → rv_phase v = Acquiring (k :: todo) →
  lg_windows (sy_ledger s) !! k = Some slot → ws_guard slot = true →
  sys_inv (MkSystem (take_guard k (sy_ledger s)) (<[r := take_next v k todo]> (sy_res s))).
Proof.
  intros [Hc Hg Hcl] Hr Hp Hk Hfree. pose proof (gi_order _ _ Hg r v Hr) as Ho. rewrite Hp in Ho.
  split; cbn [sy_ledger sy_res].
  - by apply counts_alter_guard.
  - assert (guard_of (sy_ledger s) k = Some true) as Hgk by (unfold guard_of; by rewrite Hk, <- Hfree).
    eapply guards_insert; [done| | | | |]; cbn [take_next rv_locked rv_phase rv_batch]; try done.
    + intros k' [Hk'|Hk'%list_elem_of_singleton]%elem_of_app; [left|right; by subst].
      exists v. split_and!; [done|by unfold live; rewrite Hp|done].
    + intros k' (v' & Hv' & _ & Hk'). simplify_eq. set_solver.
    + intros k'. unfold take_guard. rewrite guard_of_alter, Hk. cbn.
      destruct (decide (k' = k)) as [->|Hne]; [set_solver|].
      split; [by left|]. intros [?|[Hin|?%list_elem_of_singleton]%elem_of_app]; [done| |done].
      apply (gi_held _ _ Hg). exists r, v. split_and!; [done|by unfold live; rewrite Hp|done].
    + by rewrite <- app_assoc.
  - cbn. apply claims_new; [done|right; eauto|done].
Qed.

Lemma window_inv s k : sys_inv s → sys_inv (MkSystem (window k (sy_ledger s)) (sy_res s)).
Proof.
  intros [Hc Hg Hcl]. unfold window. destruct (lg_windows (sy_ledger s) !! k) eqn:Hk; [done|].
  split; cbn.
  - pose proof (counts_window k _ Hc) as H. unfold window in H. by rewrite Hk in H.
  - eapply guards_ext; [|done]. intros k'. unfold guard_of. cbn.
    destruct (decide (k = k')) as [<-|]; [rewrite lookup_insert_eq, Hk; by split|].
    by rewrite lookup_insert_ne.
  - done.
Qed.

Lemma begin_inv s r d cs v :
  sys_inv s → sy_res s !! r = None → begin_batch d cs = Ok v →
  sys_inv (MkSystem (sy_ledger s) (<[r := v]> (sy_res s))).
Proof.
  intros [Hc Hg Hcl] Hr H. unfold begin_batch in H. inv_ok. split; cbn; [done| |].
  - eapply guards_insert; cbn; [done| | |done| |done].
    + intros k Hk. by apply not_elem_of_nil in Hk.
    + intros k (v' & Hv' & _). congruence.
    + intros k. set_solver.
  - apply claims_new; [done|by left|done].
Qed.

Lemma defer_inv s r v :
  sys_inv s → sys_inv (MkSystem (DeferResolution r v (sy_ledger s)) (sy_res s)).
Proof.
  intros [Hc Hg Hcl]. unfold DeferResolution. destruct (lg_pending _ !! _); [done|].
  destruct (sy_ledger s) as [w m c p]. split; cbn in *; [|by apply (guards_ext (MkLedger w m c p))|done].
  by apply (counts_fields (MkLedger w m c p)).
Qed.

Lemma ledger_step_inv s s' : ledger_step s s' → sys_inv s → sys_inv s'.
Proof.
  intros Hstep Hinv. destruct Hstep.
  - by eapply begin_inv.
  - by apply window_inv.
  - by eapply take_inv.
  - by eapply cancel_inv.
  - by apply finish_prepare_inv.
  - by apply Confirm_inv.
  - by apply Abort_inv.
  - by apply defer_inv.
  - unfold ResolveDeferred. destruct (lg_pending _ !! d); [|done]. cbn.
    destruct committed; [by apply Confirm_inv|by apply Abort_inv].
Qed.

Lemma new_system_inv : sys_inv new_system.
Proof.
  split; [split; cbn|split|split]; cbn; try (intros *; by rewrite lookup_empty).
  - intros k. unfold guard_of. cbn. rewrite lookup_empty. split; [done|].
    intros (r & v & Hv & _). by rewrite lookup_empty in Hv.
  - intros r1 r2 k (v & Hv & _). by rewrite lookup_empty in Hv.
Qed.

Lemma ledger_reachable_inv s s' : rtc ledger_step s s' → sys_inv s → sys_inv s'.
Proof. induction 1; eauto using ledger_step_inv. Qed.

(** ** A prepared reservation's windows stay as it saw them *)
Lemma releaseSlots_untouched ks l k :
  k ∉ ks → lg_windows (releaseSlots ks l) !! k = lg_windows l !! k.
Proof.
  induction ks as [|x ks IH]; intros Hk; cbn; [done|]. apply not_elem_of_cons in Hk as [Hne Hk].
  rewrite lookup_alter_ne by done. by apply IH.
Qed.

Lemma prepared_live v : rv_phase v = Prepared → live v.
Proof. unfold live. congruence. Qed.
Lemma acquiring_live v todo : rv_phase v = Acquiring todo → live v.
Proof. unfold live. congruence. Qed.
#[local] Hint Resolve prepared_live acquiring_live : core.

Definition steady (r : rid) (v : Reservation) (s s' : system) : Prop :=
  sy_res s' !! r = Some v ∧
  ∀ k, k ∈ rv_locked v → lg_windows (sy_ledger s') !! k = lg_windows (sy_ledger s) !! k.
Definition ended (r : rid) (s : system) : Prop :=
  ∃ v, sy_res s !! r = Some v ∧ rv_phase v = Finished.

Lemma locked_disjoint s r v r' v' k :
  sys_inv s → sy_res s !! r = Some v → live v → sy_res s !! r' = Some v' → live v' → r' ≠ r →
  k ∈ rv_locked v → k ∉ rv_locked v'.
Proof.
  intros Hinv Hr Hl Hr' Hl' Hne Hk Hk'. apply Hne.
  eapply (gi_excl _ _ (si_guards _ Hinv)); [exists v'|exists v]; by split_and!.
Qed.

Lemma finish_steady s r v r' v' l' :
  sys_inv s → sy_res s !! r = Some v → live v → sy_res s !! r' = Some v' → live v' → r' ≠ r →
  (∀ k, k ∉ rv_locked v' → lg_windows l' !! k = lg_windows (sy_ledger s) !! k) →
  steady r v s (MkSystem l' (<[r' := with_phase v' Finished]> (sy_res s))).
Proof.
  intros Hinv Hr Hl Hr' Hl' Hne Hw. split; cbn.
  - by rewrite lookup_insert_ne.
  - intros k Hk. apply Hw. by apply (locked_disjoint s r v r' v').
Qed.

Lemma Confirm_steady s r v r' :
  sys_inv s → sy_res s !! r = Some v → rv_phase v = Prepared → r' ≠ r → steady r v s (Confirm r' s).
Proof.
  intros Hinv Hr Hp Hne. unfold Confirm. destruct (sy_res s !! r') as [v'|] eqn:Hr'; [|done].
  destruct (rv_phase v') eqn:Hp'; try done.
  eapply finish_steady; eauto.
  intros k Hk. unfold confirm_body. rewrite releaseSlots_untouched by done.
  destruct (drop_pending_fields r' (rv_deliveryID v')
    (foldl (λ l c, confirm_one c l) (sy_ledger s) (rv_candidates v'))) as [-> _].
  apply confirm_all_untouched. intros c Hc <-.
  destruct (ci_staged _ _ _ (si_claims _ Hinv) r' v' Hr' Hp') as [_ Hst].
  destruct (Hst c Hc) as [Hb _]. apply Hk. eapply live_windows; eauto.
Qed.

Lemma Abort_steady s r v r' :
  sys_inv s → sy_res s !! r = Some v → rv_phase v = Prepared → r' ≠ r → steady r v s (Abort_ r' s).
Proof.
  intros Hinv Hr Hp Hne. unfold Abort_. destruct (sy_res s !! r') as [v'|] eqn:Hr'; [|done].
  destruct (rv_phase v') eqn:Hp'; try done.
  eapply finish_steady; eauto.
  intros k Hk. unfold abort_body. rewrite releaseSlots_untouched by done.
  destruct (drop_pending_fields r' (rv_deliveryID v')
    (foldl (λ l c, abort_one r' c l) (sy_ledger s) (rv_candidates v'))) as [-> _].
  f_equal. apply (abort_all_fields r' (rv_candidates v') (sy_ledger s)).
Qed.

Lemma Confirm_ended s r v :
  sy_res s !! r = Some v → rv_phase v = Prepared → ended r (Confirm r s).
Proof.
  intros Hr Hp. unfold Confirm. rewrite Hr, Hp. eexists. cbn. by rewrite lookup_insert_eq.
Qed.
Lemma Abort_ended s r v :
  sy_res s !! r = Some v → rv_phase v = Prepared → ended r (Abort_ r s).
Proof.
  intros Hr Hp. unfold Abort_. rewrite Hr, Hp. eexists. cbn. by rewrite lookup_insert_eq.
Qed.

Lemma step_steady s s' r v :
  sys_inv s → ledger_step s s' → sy_res s !! r = Some v → rv_phase v = Prepared →
  steady r v s s' ∨ ended r s'.
Proof.
  intros Hinv Hstep Hr Hp. assert (live v) as Hl by auto.
  assert (∀ k, k ∈ rv_locked v → guard_of (sy_ledger s) k = Some false) as Hheld.
  { intros k Hk. apply (gi_held _ _ (si_guards _ Hinv)). by exists r, v. }
  destruct Hstep as [r' d cs v' s Hr' Hb|k s|r' v' k todo slot s Hr' Hp' Hk Hg|r' v' todo s Hr' Hp'
    |r' v' s Hr' Hp'|r' s|r' s|r' v' s Hr' Hp'|d committed s].
  - left. split; cbn; [|done]. by rewrite lookup_insert_ne by congruence.
  - left. split; [done|]. intros k' Hk'. cbn. specialize (Hheld k' Hk'). unfold guard_of in Hheld.
    unfold window. destruct (lg_windows (sy_ledger s) !! k) eqn:E; [done|]. cbn.
    rewrite lookup_insert_ne; [done|]. intros <-. by rewrite E in Hheld.
  - left. split; cbn; [by rewrite lookup_insert_ne by congruence|].
    intros k' Hk'. specialize (Hheld k' Hk'). rewrite lookup_alter_ne; [done|]. intros <-.
    unfold guard_of in Hheld. rewrite Hk in Hheld. cbn in Hheld. congruence.
  - left. eapply finish_steady; eauto; [congruence|].
    intros k Hk. by apply releaseSlots_untouched.
  - left. unfold finish_prepare.
    destruct (prepareLocked _ _ _) as [[[ps st]|e] l'] eqn:HP; cbn [snd].
    + split; cbn; [by rewrite lookup_insert_ne by congruence|]. intros k _.
      unfold prepareLocked in HP. by destruct (check_batch _ _ _ _); simplify_eq.
    + assert (l' = sy_ledger s) as ->.
      { unfold prepareLocked in HP. destruct (check_batch _ _ _ _); by simplify_eq. }
      unfold cancel. cbn [sy_ledger sy_res]. eapply finish_steady; eauto; [congruence|].
      intros k Hk. by apply releaseSlots_untouched.
  - destruct (decide (r' = r)) as [->|]; [right; by eapply Confirm_ended|left; by apply Confirm_steady].
  - destruct (decide (r' = r)) as [->|]; [right; by eapply Abort_ended|left; by apply Abort_steady].
  - left. split; cbn; [done|]. intros k _. unfold DeferResolution. by destruct (lg_pending _ !! _).
  - unfold ResolveDeferred. destruct (lg_pending _ !! d) as [r'|]; [|by left]. cbn.
    destruct committed; (destruct (decide (r' = r)) as [->|];
      [right; (by eapply Confirm_ended) || (by eapply Abort_ended)
      |left; (by apply Confirm_steady) || (by apply Abort_steady)]).
Qed.

(** Once finished, always finished. *)
Lemma step_ended s s' r : ledger_step s s' → ended r s → ended r s'.
Proof.
  intros Hstep (v & Hr & Hp).
  assert (∀ r' v', sy_res s !! r' = Some v' → rv_phase v' ≠ Finished → r' ≠ r) as Hne.
  { intros r' v' Hr' Hp' ->. congruence. }
  assert (∀ r' (f : system → system), (f = Confirm r' ∨ f = Abort_ r') → ended r (f s)) as Hfin.
  { intros r' f Hf. assert (ended r s) as He by by exists v.
    destruct Hf as [-> | ->]; unfold Confirm, Abort_;
      destruct (sy_res s !! r') as [v'|] eqn:Hr'; try done; destruct (rv_phase v') eqn:Hp'; try done;
      exists v; cbn; rewrite lookup_insert_ne by (eapply Hne; [done|congruence]); done. }
  destruct Hstep as [r' d cs v' s Hr' Hb|k s|r' v' k todo slot s Hr' Hp' Hk Hg|r' v' todo s Hr' Hp'
    |r' v' s Hr' Hp'|r' s|r' s|r' v' s Hr' Hp'|d committed s];
    try (by exists v); try (exists v; cbn; rewrite lookup_insert_ne by congruence; done).
  - unfold finish_prepare. destruct (prepareLocked _ _ _) as [[[ps st]|e] l']; exists v; cbn;
      rewrite lookup_insert_ne by congruence; done.
  - by apply (Hfin r'); left.
  - by apply (Hfin r'); right.
  - unfold ResolveDeferred. destruct (lg_pending _ !! d) as [r'|]; [|by exists v]. cbn.
    destruct committed; [apply (Hfin r'); by left|apply (Hfin r'); by right].
Qed.

Lemma steps_steady s s' r v :
  rtc ledger_step s s' → sys_inv s → sy_res s !! r = Some v → rv_phase v = Prepared →
  steady r v s s' ∨ ended r s'.
Proof.
  intros Hsteps. revert v. induction Hsteps as [|a b c Hab Hbc IH]; intros v Hinv Hr Hp; [by left|].
  pose proof (ledger_step_inv _ _ Hab Hinv) as Hinv'.
  destruct (step_steady a b r v Hinv Hab Hr Hp) as [[Hrb Hw]|Hend].
  - destruct (IH v Hinv' Hrb Hp) as [[Hrc Hwc]|]; [left|by right].
    split; [done|]. intros k Hk. by rewrite Hwc, Hw.
  - right. clear -Hend Hbc. induction Hbc; eauto using step_ended.
Qed.

(** Keys that acquiring reservations wait for. *)
Definition next_key (v : Reservation) : option WindowKey :=
  match rv_phase v with Acquiring (k :: _) => Some k | _ => None end.
Definition wanted (s : system) : gset WindowKey :=
  list_to_set (omap (λ rv : nat * Reservation, next_key rv.2) (map_to_list (sy_res s))).

Lemma elem_of_wanted s k :
  k ∈ wanted s ↔ ∃ r v todo, sy_res s !! r = Some v ∧ rv_phase v = Acquiring (k :: todo).
Proof.
  unfold wanted. rewrite elem_of_list_to_set, list_elem_of_omap. split.
  - intros ([r v] & Hin & Hk). apply elem_of_map_to_list in Hin. cbn in Hk. unfold next_key in Hk.
    destruct (rv_phase v) as [[|k' todo]| |] eqn:Hp; simplify_eq. eauto.
  - intros (r & v & todo & Hr & Hp). exists (r, v). split; [by apply elem_of_map_to_list|].
    cbn. unfold next_key. by rewrite Hp.
Qed.

Definition window_gt (a b : WindowKey) : Prop := window_lt b a.
#[export] Instance window_gt_dec a b : base.Decision (window_gt a b).
Proof. unfold window_gt, window_lt. apply _. Defined.
#[export] Instance window_gt_trans : Transitive window_gt.
Proof. intros a b c Hab Hbc. unfold window_gt in *. by transitivity b. Qed.

Lemma sorted_split_lt (l1 l2 : list WindowKey) a b :
  StronglySorted window_lt (l1 ++ b :: l2) → a ∈ l1 → window_lt a b.
Proof.
  intros Hs Ha. induction l1 as [|x l1 IH]; [by apply not_elem_of_nil in Ha|].
  cbn in Hs. apply StronglySorted_inv in Hs as [Hs Hx]. apply elem_of_cons in Ha as [->|Ha]; [|auto].
  rewrite Forall_forall in Hx. apply Hx. set_solver.
Qed.

Lemma releaseSlots_snapshot ks l w :
  snapshotOf <$> lg_windows (releaseSlots ks l) !! w = snapshotOf <$> lg_windows l !! w.
Proof.
  induction ks as [|k ks IH]; cbn [releaseSlots foldr]; [done|]. fold (releaseSlots ks l).
  unfold releaseSlot, with_windows. cbn [lg_windows]. destruct (decide (k = w)) as [->|].
  - rewrite lookup_alter_eq, <- IH. by destruct (lg_windows (releaseSlots ks l) !! w).
  - by rewrite lookup_alter_ne.
Qed.

(** A released window keeps its counters and is free. *)
Lemma releaseSlots_lookup ks l w slot :
  lg_windows l !! w = Some slot → w ∈ ks →
  ∃ slot', lg_windows (releaseSlots ks l) !! w = Some slot' ∧ ws_guard slot' = true ∧
           snapshotOf slot' = snapshotOf slot.
Proof.
  intros Hw Hin. pose proof (releaseSlots_snapshot ks l w) as Hs.
  pose proof (guard_of_releaseSlots ks l w) as Hg. rewrite decide_True in Hg by done.
  unfold guard_of in Hg. rewrite Hw in Hs, Hg.
  destruct (lg_windows (releaseSlots ks l) !! w) as [slot'|]; [|done].
  exists slot'. cbn [fmap option_fmap option_map] in *. split_and!; congruence.
Qed.

(** C23: in every reachable state, whatever the interleaving of batches,
    cancellations, confirmations and aborts, a window's counter is the number
    of recorded memberships of that window and its distinct map counts them
    per distinct key: no contribution is lost or counted twice. *)
Theorem ledger_counts_memberships s w slot :
  rtc ledger_step new_system s → lg_windows (sy_ledger s) !! w = Some slot →
  ws_count slot = wrap64 (count_members (in_window w) (sy_ledger s)) ∧
  ∀ d, ws_distinct slot !! d =
         let n := count_members (in_cell w d) (sy_ledger s) in if n =? 0 then None else Some (wrap64 n).
Proof.
  intros Hs Hw. pose proof (ledger_reachable_inv _ _ Hs new_system_inv) as [Hc _ _].
  by apply (co_slots _ Hc).
Qed.

(** previews tell the truth: if a batch was prepared with some previews
    and its reservation is still open after any steps of other goroutines,
    then confirming it leaves each window of the batch in exactly the state
    the last preview of that window showed, with its guard free again, and
    records every staged contribution. *)
Theorem preview_is_state_after_confirm s r v previews s1 s2 v2 :
  rtc ledger_step new_system s → sy_res s !! r = Some v → rv_phase v = Acquiring [] →
  finish_prepare r v s = (Ok previews, s1) →
  rtc ledger_step s1 s2 → sy_res s2 !! r = Some v2 → rv_phase v2 = Prepared →
  (∀ c, c ∈ rv_batch v →
     ∃ slot, lg_windows (sy_ledger (Confirm r s2)) !! cd_Window c = Some slot ∧ ws_guard slot = true ∧
             preview_of (cd_Window c) previews = Some (snapshotOf slot)) ∧
  (∀ c, c ∈ rv_candidates v2 → lg_memberships (sy_ledger (Confirm r s2)) !! cd_Key c =
     Some (MkMember (cd_Window c) (cd_DistinctKey c) (cd_ObservedAt c))).
Proof.
  intros Hs Hr Hp Hprep Hsteps Hr2 Hp2.
  pose proof (ledger_reachable_inv _ _ Hs new_system_inv) as Hinv.
  pose proof (finish_prepare_inv _ _ _ Hinv Hr Hp) as Hinv1. rewrite Hprep in Hinv1. cbn in Hinv1.
  pose proof (ledger_reachable_inv _ _ Hsteps Hinv1) as Hinv2.
  unfold finish_prepare in Hprep.
  destruct (prepareLocked r (rv_batch v) (sy_ledger s)) as [[[ps staged]|] l1] eqn:HP; simplify_eq.
  apply prepareLocked_Ok in HP as (_ & _ & _ & Hw & _ & _ & Hprev);
    [|intros c Hc; eapply live_windows; eauto].
  set (v1 := MkReservation _ _ (rv_locked v) staged Prepared) in *.
  destruct (steps_steady _ _ r v1 Hsteps Hinv1) as [[Hr2' Hkeep]|(v' & Hv' & Hp')];
    [cbn; by rewrite lookup_insert_eq|done| |congruence].
  assert (v2 = v1) as -> by congruence.
  destruct (ci_staged _ _ _ (si_claims _ Hinv2) r v1 Hr2 Hp2) as [Hnd _].
  unfold Confirm. rewrite Hr2, Hp2. cbn [sy_ledger]. unfold confirm_body.
  fold (confirm_all (rv_candidates v1) (sy_ledger s2)).
  set (l2 := confirm_all (rv_candidates v1) (sy_ledger s2)).
  destruct (drop_pending_fields r (rv_deliveryID v1) l2) as (Hdw & Hdm & _).
  split.
  - intros c Hc. destruct (Hprev c Hc) as (slot & Hslot & Hpv).
    destruct (live_windows s2 r v1 c Hinv2 Hr2 (or_intror Hp2) Hc) as [Hin _].
    assert (lg_windows l2 !! cd_Window c = Some slot) as Hl2.
    { unfold l2. rewrite confirm_all_window, (Hkeep _ Hin). cbn [sy_ledger].
      rewrite Hw, <- confirm_all_window. done. }
    destruct (releaseSlots_lookup (rv_locked v1) (drop_pending r (rv_deliveryID v1) l2)
                (cd_Window c) slot) as (slot' & H1 & H2 & H3); [by rewrite Hdw|done|].
    exists slot'. split_and!; [done|done|congruence].
  - intros c Hc. destruct (releaseSlots_fields (rv_locked v1) (drop_pending r (rv_deliveryID v1) l2)) as [-> _].
    rewrite Hdm. by apply confirm_all_member.
Qed.

(** Confirm and Abort take effect once: after either, both are no-ops for
    the reservation in every later state, and Abort changes neither a counter
    nor a membership. *)
Theorem reservation_resolves_once s r v s' :
  rtc ledger_step new_system s → sy_res s !! r = Some v → rv_phase v = Prepared →
  (rtc ledger_step (Confirm r s) s' ∨ rtc ledger_step (Abort_ r s) s') →
  Confirm r s' = s' ∧ Abort_ r s' = s' ∧
  lg_memberships (sy_ledger (Abort_ r s)) = lg_memberships (sy_ledger s) ∧
  ∀ w, snapshotOf <$> lg_windows (sy_ledger (Abort_ r s)) !! w =
       snapshotOf <$> lg_windows (sy_ledger s) !! w.
Proof.
  intros Hs Hr Hp Hsteps.
  assert (∀ a b, rtc ledger_step a b → ended r a → ended r b) as Hkeep.
  { clear. induction 1; eauto using step_ended. }
  assert (ended r s') as (v' & Hv' & Hp').
  { destruct Hsteps as [H|H]; eapply Hkeep; [done|by eapply Confirm_ended|done|by eapply Abort_ended]. }
  split; [unfold Confirm; by rewrite Hv', Hp'|]. split; [unfold Abort_; by rewrite Hv', Hp'|].
  unfold Abort_. rewrite Hr, Hp. cbn [sy_ledger]. unfold abort_body.
  fold (abort_all r (rv_candidates v) (sy_ledger s)).
  destruct (abort_all_fields r (rv_candidates v) (sy_ledger s)) as (Hw & Hm & _).
  set (l1 := abort_all r (rv_candidates v) (sy_ledger s)) in *.
  destruct (drop_pending_fields r (rv_deliveryID v) l1) as (Hw2 & Hm2 & _).
  set (l2 := drop_pending r (rv_deliveryID v) l1) in *.
  destruct (releaseSlots_fields (rv_locked v) l2) as (Hm3 & _ & _). split; [congruence|].
  intros w. by rewrite releaseSlots_snapshot, Hw2, Hw.
Qed.

(** batches cannot deadlock: because guards are requested in the canonical
    window order, whenever some PrepareBatch is still taking guards and no
    reservation is waiting for its caller, some PrepareBatch can go on (its
    next guard is free, or it holds all of them). *)
Theorem guards_no_deadlock s r0 v0 todo0 :
  rtc ledger_step new_system s → sy_res s !! r0 = Some v0 → rv_phase v0 = Acquiring todo0 →
  (∀ r v, sy_res s !! r = Some v → rv_phase v ≠ Prepared) →
  ∃ r v todo, sy_res s !! r = Some v ∧ rv_phase v = Acquiring todo ∧
    match todo with [] => True | k :: _ => guard_of (sy_ledger s) k ≠ Some false end.
Proof.
  intros Hs Hr0 Hp0 Hnp. pose proof (ledger_reachable_inv _ _ Hs new_system_inv) as [_ Hg _].
  destruct todo0 as [|k0 todo0]; [by exists r0, v0, []|].
  destruct (minimal_exists_elem_of_L window_gt (wanted s)) as (k & Hk & Hmin).
  { intros He. assert (k0 ∈ wanted s) by (apply elem_of_wanted; eauto). set_solver. }
  apply elem_of_wanted in Hk as (r & v & todo & Hr & Hp).
  destruct (decide (guard_of (sy_ledger s) k = Some false)) as [Hheld|Hfree]; [|by exists r, v, (k :: todo)].
  apply (gi_held _ _ Hg) in Hheld as (r' & v' & Hr' & Hl' & Hin).
  pose proof (gi_order _ _ Hg r' v' Hr') as Ho. unfold live in Hl'.
  destruct (rv_phase v') as [[|k' todo']| |] eqn:Hp'; [by exists r', v', []| |by destruct (Hnp r' v')|done].
  assert (window_lt k k') as Hlt.
  { eapply sorted_split_lt; [|done]. rewrite Ho. apply uniqueSortedWindowKeys_spec. }
  assert (k' ∈ wanted s) as Hk' by (apply elem_of_wanted; eauto).
  specialize (Hmin k' Hk' Hlt). unfold window_gt in Hmin.
  by destruct (irreflexivity window_lt k (transitivity Hlt Hmin)).
Qed.

(** ** Witnesses: one batch of one candidate, confirmed *)
Definition sample_delivery : DeliveryID := "dlv1_oghspfuq9jlm1q5pf1c5kktm4da0e053mn4dnotbd33jjf5be300".
Definition sample_window : WindowKey := MkWindowKey "ssh" "v1" "203.0.113.7".
Definition sample_contribution : Candidate :=
  MkDetectionCandidate sample_delivery
    (MkContributionKey "evt1_5i244qf55nhq4k9idbql46fd9djlhfgk0jtge69j3bl25ssqnjo0" "ssh" "v1")
    sample_window "root" sample_time.
Definition sample_begun : Reservation :=
  MkReservation sample_delivery [sample_contribution] [] [] (Acquiring [sample_window]).
Definition sample_held : Reservation := take_next sample_begun sample_window [].
Definition sample_staged : Reservation :=
  MkReservation sample_delivery [sample_contribution] [sample_window] [sample_contribution] Prepared.

Definition system_begun : system := MkSystem NewLedger (<[1%nat := sample_begun]> ∅).
Definition system_window : system := MkSystem (window sample_window NewLedger) (sy_res system_begun).
Definition system_held : system :=
  MkSystem (take_guard sample_window (sy_ledger system_window))
    (<[1%nat := sample_held]> (sy_res system_window)).
Definition system_prepared : system := (finish_prepare 1 sample_held system_held).2.

Lemma system_begun_reachable : rtc ledger_step new_system system_begun.
Proof. apply rtc_once, (ls_begin 1 sample_delivery [sample_contribution]); vm_compute; reflexivity. Qed.
Lemma system_held_reachable : rtc ledger_step new_system system_held.
Proof.
  transitivity system_begun; [apply system_begun_reachable|].
  apply (rtc_l _ _ system_window); [apply (ls_window sample_window system_begun)|].
  apply rtc_once, (ls_take 1 sample_begun sample_window [] new_slot system_window);
    vm_compute; reflexivity.
Qed.
Lemma system_prepared_reachable : rtc ledger_step new_system system_prepared.
Proof.
  eapply rtc_r; [apply system_held_reachable|].
  apply (ls_prepare 1 sample_held system_held); vm_compute; reflexivity.
Qed.

Lemma ledger_counts_memberships_witness :
  ∃ slot, lg_windows (sy_ledger (Confirm 1 system_prepared)) !! sample_window = Some slot ∧
    ws_count slot = 1 ∧
    ws_count slot = wrap64 (count_members (in_window sample_window) (sy_ledger (Confirm 1 system_prepared))).
Proof.
  eexists. split; [vm_compute; reflexivity|]. split; [reflexivity|].
  apply (ledger_counts_memberships (Confirm 1 system_prepared) sample_window).
  - eapply rtc_r; [apply system_prepared_reachable|apply ls_confirm].
  - vm_compute; reflexivity.
Defined.

Definition sample_previews : list Preview :=
  [MkPreview sample_contribution (MkSnapshot 1 1) true].

Lemma sample_prepare :
  finish_prepare 1 sample_held system_held = (Ok sample_previews, system_prepared).
Proof.
  assert ((finish_prepare 1 sample_held system_held).1 = Ok sample_previews) as <-
    by (vm_compute; reflexivity).
  apply surjective_pairing.
Qed.
Lemma sample_held_lookup : sy_res system_held !! 1%nat = Some sample_held.
Proof. vm_compute. reflexivity. Qed.
Lemma sample_staged_lookup : sy_res system_prepared !! 1%nat = Some sample_staged.
Proof. vm_compute. reflexivity. Qed.

Lemma preview_is_state_after_confirm_witness :
  finish_prepare 1 sample_held system_held = (Ok sample_previews, system_prepared) ∧
  lg_memberships (sy_ledger (Confirm 1 system_prepared)) !! cd_Key sample_contribution =
    Some (MkMember (cd_Window sample_contribution) (cd_DistinctKey sample_contribution)
            (cd_ObservedAt sample_contribution)).
Proof.
  split; [exact sample_prepare|].
  destruct (preview_is_state_after_confirm system_held 1 sample_held sample_previews system_prepared
    system_prepared sample_staged system_held_reachable sample_held_lookup eq_refl sample_prepare
    (rtc_refl _ _) sample_staged_lookup eq_refl) as [_ H].
  apply (H sample_contribution). left.
Defined.

Lemma reservation_resolves_once_witness :
  Confirm 1 (Confirm 1 system_prepared) = Confirm 1 system_prepared.
Proof.
  apply (reservation_resolves_once system_prepared 1 sample_staged (Confirm 1 system_prepared));
    [apply system_prepared_reachable|vm_compute; reflexivity|reflexivity|left; apply rtc_refl].
Defined.

Lemma guards_no_deadlock_witness :
  ∃ r v todo, sy_res system_begun !! r = Some v ∧ rv_phase v = Acquiring todo.
Proof.
  destruct (guards_no_deadlock system_begun 1 sample_begun [sample_window]) as (r & v & todo & Hr & Hp & _).
  - apply system_begun_reachable.
  - vm_compute; reflexivity.
  - reflexivity.
  - intros r v Hv. unfold system_begun in Hv. cbn [sy_res] in Hv.
    apply lookup_insert_Some in Hv as [[_ <-]|[_ Hv]]; [discriminate|by rewrite lookup_empty in Hv].
  - by exists r, v, todo.
Defined.
