(* ===== verification/DecisionTx.v ===== *)
(** * Decisions inside a transaction (internal/decision)

    The persistence ports of transaction.go, lifecycle.go, desired_state.go and
    policy.go as type classes over a transaction state [S], and the rules
    written against them: automatic and manual decisions, expiry, the
    projection rebuild, target materialization and policy replacement. The
    functions are parametric in [S]; file Refinement carries their results from
    the modelled tables to every store that refines them. *)

From S2P Require Import Prelude GoStd Sha256 Netip Identity CoreModel Enforcement PolicyResolution.
From S2P Require Import Projection MemoryService.

(** ** Audit payloads *)
Record AutomaticCreatedAudit := MkCreatedAudit {
  ac_ID : string; ac_IdempotencyKey : string; ac_DeliveryID : option DeliveryID;
  ac_NodeID : NodeID; ac_AlertID : AlertID; ac_DecisionID : DecisionID; ac_CreatedAt : time
}.
Record AutomaticSuppressedAudit := MkSuppressedAudit {
  as_ID : string; as_IdempotencyKey : string; as_DeliveryID : DeliveryID;
  as_NodeID : NodeID; as_AlertID : AlertID; as_DecisionID : DecisionID;
  as_RuleID : RuleID; as_RuleVersion : RuleVersion; as_EventID : EventID; as_CreatedAt : time
}.
Record LifecycleAudit := MkLifecycleAudit {
  la_ID : string; la_IdempotencyKey : string; la_NodeID : NodeID; la_Action : string;
  la_ActorType : string; la_DecisionID : DecisionID; la_ReplacementID : option DecisionID;
  la_CreatedAt : time
}.
Record PolicyWriteAudit := MkPolicyWriteAudit {
  pa_ID : string; pa_IdempotencyKey : string; pa_NodeID : NodeID; pa_ActorType : string;
  pa_PolicyRevision : Z; pa_RelationDigest : string; pa_CreatedAt : time
}.

(** ** The ports *)
Class ProjectionTransaction (S : Type) := {
  ListActiveDecisions : NodeID → Prefix → ST S (list Decision);
  FindDecisionProjection : NodeID → Prefix → ST S (option DesiredBanProjection);
  PutDecisionProjection : DesiredBanProjection → time → ST S unit
}.
Class AutomaticTransaction (S : Type) := {
  at_projection :: ProjectionTransaction S;
  InsertAutomaticDecision : Decision → ST S bool;
  at_FindDecisionByID : DecisionID → ST S (option Decision);
  FindActiveAutomaticDecision : NodeID → RuleID → Prefix → ST S (option Decision);
  SuppressAutomaticDecision : DecisionID → time → ST S Decision;
  AppendAutomaticCreatedAudit : AutomaticCreatedAudit → ST S unit;
  AppendAutomaticSuppressedAudit : AutomaticSuppressedAudit → ST S unit
}.
Class DesiredStateTransaction (S : Type) := {
  ds_projection :: ProjectionTransaction S;
  FindTargetEnforcementIntent : NodeID → Prefix → ST S (option NormalizedTargetEnforcementIntent);
  TargetEnforcementGenerationFloor : NodeID → Prefix → ST S (option Z);
  PutTargetEnforcementIntent : NormalizedTargetEnforcementIntent → ST S unit;
  ResetTargetReconcileState : NodeID → Prefix → Z → time → ST S unit;
  AdvanceSnapshotRevision : ST S Z
}.
Class LifecycleTransaction (S : Type) := {
  lt_desired :: DesiredStateTransaction S;
  RequireNodeIdentity : NodeID → ST S unit;
  InsertManualDecision : Decision → ST S bool;
  lt_FindDecisionByID : DecisionID → ST S (option Decision);
  FindActiveManualDecision : NodeID → Prefix → ST S (option Decision);
  RevokeActiveManualDecision : DecisionID → time → ST S Decision;
  ExpireDueActiveDecisions : NodeID → time → ST S (list Decision);
  AppendDecisionLifecycleAudit : LifecycleAudit → ST S unit
}.
Class PolicyTransaction (S : Type) := {
  pt_desired :: DesiredStateTransaction S;
  ListDecisionProjections : NodeID → ST S (list DesiredBanProjection);
  ReplaceManagedPolicy : NodeID → Z → ManagedPolicyIntent → time → ST S (Z * Z * bool);
  ResetPolicyReconcileState : Z → time → ST S unit;
  AppendPolicyWriteAudit : PolicyWriteAudit → ST S unit
}.
Class ManagedPolicyReader (S : Type) := {
  ReadManagedPolicy : NodeID → ST S (Z * ManagedPolicyIntent)
}.

(** ** Identity digests *)
Definition frame_part (part : string) : list Z :=
  be_bytes 4 (wrap32 (Z.of_nat (String.length part))) ++ string_bytes part.
Definition decisionIdentityDigest (parts : list string) : list Z :=
  Sum256 (parts ≫= frame_part).

Definition automaticCreatedAudit (r : AutomaticRequest) (alert : AlertID) : AutomaticCreatedAudit :=
  let hexDigest := hex_encode (Sum256 (string_bytes
                     ("automatic-decision-created:" +:+ ar_DecisionID r))) in
  MkCreatedAudit ("audit-decision-" +:+ hexDigest) ("decision-created:" +:+ hexDigest)
    (Some (ar_DeliveryID r)) (ar_NodeID r) alert (ar_DecisionID r) (ar_TriggeredAt r).

Definition automaticSuppressedAudit (r : AutomaticRequest) (alert : AlertID) (version : RuleVersion)
    (decisionID : DecisionID) : AutomaticSuppressedAudit :=
  let hexDigest := hex_encode (decisionIdentityDigest
    ["decision:suppress"; ar_DeliveryID r; ar_EventID r; ar_RuleID r; version]) in
  MkSuppressedAudit ("audit-suppression-" +:+ hexDigest) ("decision-suppressed:" +:+ hexDigest)
    (ar_DeliveryID r) (ar_NodeID r) alert decisionID (ar_RuleID r) version (ar_EventID r)
    (ar_TriggeredAt r).

Definition manualCreatedAudit (r : ManualRequest) : LifecycleAudit :=
  let hexDigest := hex_encode (decisionIdentityDigest ["decision:manual:create"; mr_DecisionID r]) in
  MkLifecycleAudit ("audit-manual-create-" +:+ hexDigest) ("manual-create:" +:+ hexDigest)
    (mr_NodeID r) "manual_create" "administrator" (mr_DecisionID r) None (mr_CreatedAt r).

Definition manualReplacedAudit (r : ManualRequest) (previousID : DecisionID) : LifecycleAudit :=
  let hexDigest := hex_encode (decisionIdentityDigest
    ["decision:manual:replace"; previousID; mr_DecisionID r]) in
  MkLifecycleAudit ("audit-manual-replace-" +:+ hexDigest) ("manual-replace:" +:+ hexDigest)
    (mr_NodeID r) "manual_replace" "administrator" previousID (Some (mr_DecisionID r))
    (mr_CreatedAt r).

Definition expiredAudit (value : Decision) (now : time) : LifecycleAudit :=
  let hexDigest := hex_encode (decisionIdentityDigest ["decision:expire"; d_ID value]) in
  MkLifecycleAudit ("audit-decision-expire-" +:+ hexDigest) ("decision-expire:" +:+ hexDigest)
    (d_NodeID value) "decision_expire" "system" (d_ID value) None now.

(** ** Projections *)
Definition sameProjectionContent (left right : DesiredBanProjection) : bool :=
  if negb (bool_decide (bp_NodeID left = bp_NodeID right))
     || negb (bool_decide (bp_CanonicalTarget left = bp_CanonicalTarget right))
     || negb (bool_decide (bp_State left = bp_State right))
     || negb (bp_ActiveCount left =? bp_ActiveCount right)
  then false
  else match bp_EffectiveUntil left, bp_EffectiveUntil right with
  | Some l, Some r => TimeEqual l r
  | None, None => true
  | _, _ => false
  end.

Definition with_Revision (p : DesiredBanProjection) (r : Z) : DesiredBanProjection :=
  MkProjection (bp_NodeID p) (bp_CanonicalTarget p) (bp_State p) (bp_ActiveCount p)
    (bp_EffectiveUntil p) r.

Definition rebuildProjection {S} `{ProjectionTransaction S} (nodeID : NodeID) (target : Prefix)
    (updatedAt : time) (forceRevision : bool) : ST S (DesiredBanProjection * bool) :=
  current ← FindDecisionProjection nodeID target;
  let revision := match current with Some c => bp_Revision c | None => 1 end in
  active ← ListActiveDecisions nodeID target;
  desired ← st_lift (AggregateProjection nodeID target revision active);
  match current with
  | Some c =>
    if negb forceRevision && sameProjectionContent c desired then mret (c, false)
    else if max_int64 <=? bp_Revision c then st_fail (Errorf "target projection revision overflow")
    else
      let desired := with_Revision desired (bp_Revision c + 1) in
      PutDecisionProjection desired updatedAt;;
      mret (desired, true)
  | None =>
    PutDecisionProjection desired updatedAt;;
    mret (desired, true)
  end.

(** ** Automatic decisions *)
Record TransactionAutomaticResult := MkTxAutomaticResult {
  tar_Decision : Decision;
  tar_Created : bool;
  tar_Projection : option DesiredBanProjection
}.

Definition RecordAutomaticInTransaction {S} `{AutomaticTransaction S} (request : AutomaticRequest)
    : ST S TransactionAutomaticResult :=
  match ar_RuleVersion request, ar_AlertID request with
  | Some version, Some alert =>
    if negb (ValidDeliveryID (ar_DeliveryID request)) || negb (ValidEventID (ar_EventID request))
    then st_fail (Errorf "automatic decision requires canonical delivery and event identities")
    else
      let candidate := automatic_candidate request in
      st_lift (wrap "validate automatic decision" (Decision_Validate candidate));;
      inserted ← InsertAutomaticDecision candidate;
      if negb inserted then
        byID ← at_FindDecisionByID (ar_DecisionID request);
        current ← FindActiveAutomaticDecision (ar_NodeID request) (ar_RuleID request)
                    (ar_Target request);
        match current with
        | None => st_fail (Wrapf "%w: %s" ErrDecisionIDConflict)
        | Some current =>
          if match byID with Some b => negb (bool_decide (d_ID b = d_ID current)) | None => false end
          then st_fail (Wrapf "%w: %s" ErrDecisionIDConflict)
          else if max_int64 <=? d_SuppressedCount current then st_fail ErrSuppressionOverflow
          else
            current ← SuppressAutomaticDecision (d_ID current) (ar_TriggeredAt request);
            '(projection, changed) ← rebuildProjection (ar_NodeID request) (ar_Target request)
                   (ar_TriggeredAt request) false;
            AppendAutomaticSuppressedAudit
              (automaticSuppressedAudit request alert version (d_ID current));;
            mret (MkTxAutomaticResult current false (if (changed : bool) then Some projection else None))
        end
      else
        '(projection, _) ← rebuildProjection (ar_NodeID request) (ar_Target request)
                             (ar_TriggeredAt request) true;
        AppendAutomaticCreatedAudit (automaticCreatedAudit request alert);;
        mret (MkTxAutomaticResult candidate true (Some projection))
  | _, _ => st_fail (Errorf "automatic decision requires rule version and alert")
  end.

(** ** Manual decisions *)
Definition RecordManualInTransaction {S} `{LifecycleTransaction S} (request : ManualRequest)
    (replace : bool) : ST S ManualResult :=
  let candidate := manual_candidate request in
  st_lift (wrap "validate manual decision" (Decision_Validate candidate));;
  inserted ← InsertManualDecision candidate;
  if (inserted : bool) then
    rebuildProjection (mr_NodeID request) (mr_Target request) (mr_CreatedAt request) true;;
    AppendDecisionLifecycleAudit (manualCreatedAudit request);;
    mret (MkManualResult None candidate false)
  else
    current ← FindActiveManualDecision (mr_NodeID request) (mr_Target request);
    match current, replace with
    | Some c, false => st_fail (AlreadyBannedError (d_ID c))
    | _, _ =>
      byID ← lt_FindDecisionByID (mr_DecisionID request);
      if negb (is_nil byID) then st_fail (Wrapf "%w: %s" ErrDecisionIDConflict)
      else match current with
      | None => st_fail (Errorf "active manual decision conflict was not found")
      | Some c =>
        if Before (mr_CreatedAt request) (d_CreatedAt c)
        then st_fail (Errorf "manual replacement precedes active decision")
        else
          previous ← RevokeActiveManualDecision (d_ID c) (mr_CreatedAt request);
          AppendDecisionLifecycleAudit (manualReplacedAudit request (d_ID previous));;
          inserted ← InsertManualDecision candidate;
          if negb inserted then st_fail (Wrapf "%w: %s" ErrDecisionIDConflict)
          else
            rebuildProjection (mr_NodeID request) (mr_Target request) (mr_CreatedAt request) true;;
            mret (MkManualResult (Some previous) candidate true)
      end
    end.

(** ** Expiry *)
Definition expired_less (a b : Decision) : bool :=
  if negb (bool_decide (d_NodeID a = d_NodeID b)) then String.ltb (d_NodeID a) (d_NodeID b)
  else if negb (bool_decide (d_CanonicalTarget a = d_CanonicalTarget b))
  then String.ltb (Prefix_String (d_CanonicalTarget a)) (Prefix_String (d_CanonicalTarget b))
  else String.ltb (d_ID a) (d_ID b).

(** Keys in order of first occurrence. *)
Fixpoint first_occurrences (seen : gset (NodeID * Prefix)) (ds : list Decision)
    : list (NodeID * Prefix) :=
  match ds with
  | [] => []
  | d :: rest =>
    let key := (d_NodeID d, d_CanonicalTarget d) in
    if bool_decide (key ∈ seen) then first_occurrences seen rest
    else key :: first_occurrences ({[key]} ∪ seen) rest
  end.

Record ExpirationResult := MkExpirationResult {
  er_Expired : list Decision;
  er_Projections : list DesiredBanProjection
}.

Fixpoint st_map {S A B} (f : A → ST S B) (xs : list A) : ST S (list B) :=
  match xs with
  | [] => mret []
  | x :: rest => y ← f x; ys ← st_map f rest; mret (y :: ys)
  end.

Definition ExpireInTransaction {S} `{LifecycleTransaction S} (nodeID : NodeID) (now : time)
    : ST S ExpirationResult :=
  if IsZero now then st_fail (Errorf "expiration time is required")
  else if is_empty nodeID then st_fail (Errorf "expiration node id is required")
  else
    due ← ExpireDueActiveDecisions nodeID now;
    let due := sort_slice expired_less due in
    st_each (λ expired, AppendDecisionLifecycleAudit (expiredAudit expired now)) due;;
    projections ← st_map (λ '(node, target),
                       '(projection, _) ← rebuildProjection node target now true; mret projection)
                    (first_occurrences ∅ due);
    mret (MkExpirationResult due projections).

(** ** Desired state materialization (desired_state.go) *)
Record TargetEnforcementChange := MkChange {
  ch_NodeID : NodeID;
  ch_Target : Prefix;
  ch_Generation : Z;
  ch_SnapshotRevision : Z
}.

Definition key_less (a b : NodeID * Prefix) : bool :=
  if negb (bool_decide (a.1 = b.1)) then String.ltb a.1 b.1
  else String.ltb (Prefix_String a.2) (Prefix_String b.2).

Definition projection_key (p : DesiredBanProjection) : NodeID * Prefix :=
  (bp_NodeID p, bp_CanonicalTarget p).

(** The keys of the map [final], sorted. *)
Definition final_keys (projections : list DesiredBanProjection) : list (NodeID * Prefix) :=
  sort_slice key_less (elements (list_to_set (projection_key <$> projections) : gset (NodeID * Prefix))).

Fixpoint validate_projections (ps : list DesiredBanProjection) : result unit :=
  match ps with
  | [] => Ok tt
  | p :: rest => wrap "validate affected projection" (Projection_Validate p);;
                 validate_projections rest
  end.

Section finalizer.
Context {S : Type} `{DesiredStateTransaction S}.
(** TargetPolicyResolver.ResolveTargetPolicy *)
Variable policies : DesiredBanProjection → ST S TargetPolicy.

(** One round of the loop over the keys. *)
Definition materialize_one (key : NodeID * Prefix) (updatedAt : time)
    : ST S (option TargetEnforcementChange) :=
  projection ← FindDecisionProjection key.1 key.2;
  match projection with
  | None => st_fail (Errorf "affected projection for %s was not materialized")
  | Some projection =>
    previous ← FindTargetEnforcementIntent key.1 key.2;
    policy ← st_wrap "resolve target policy for %s" (policies projection);
    '(intent, changed) ← st_lift (wrap "resolve target intent for %s"
                            (ResolveTarget projection policy previous));
    if negb changed then mret None
    else
      intent ← (match previous with
                | Some _ => mret intent
                | None =>
                  floor ← TargetEnforcementGenerationFloor key.1 key.2;
                  match floor with
                  | None => mret intent
                  | Some f => if max_int64 <=? f
                              then st_fail (Errorf "target generation is exhausted for %s")
                              else mret (with_Generation intent (f + 1))
                  end
                end);
      if max_int64 <? ti_Generation intent
      then st_fail (Errorf "target generation is exhausted for %s")
      else
        PutTargetEnforcementIntent intent;;
        ResetTargetReconcileState key.1 key.2 (ti_Generation intent) updatedAt;;
        mret (Some (MkChange key.1 key.2 (ti_Generation intent) 0))
  end.

Definition MaterializeTargets (projections : list DesiredBanProjection) (updatedAt : time)
    : ST S (list TargetEnforcementChange) :=
  if IsZero updatedAt then st_fail (Errorf "desired state update time is required")
  else
    st_lift (validate_projections projections);;
    changes ← st_map (λ key, materialize_one key updatedAt) (final_keys projections);
    mret (omap id changes).

Definition with_SnapshotRevision (revision : Z) (c : TargetEnforcementChange)
    : TargetEnforcementChange :=
  MkChange (ch_NodeID c) (ch_Target c) (ch_Generation c) revision.

Definition FinalizeTargets (projections : list DesiredBanProjection) (updatedAt : time)
    : ST S (list TargetEnforcementChange) :=
  changes ← MaterializeTargets projections updatedAt;
  match changes with
  | [] => mret []
  | _ => revision ← AdvanceSnapshotRevision;
         mret (with_SnapshotRevision revision <$> changes)
  end.
End finalizer.

Definition MaterializeNodeTargets {S} `{PolicyTransaction S}
    (policies : DesiredBanProjection → ST S TargetPolicy) (nodeID : NodeID) (updatedAt : time)
    : ST S (list TargetEnforcementChange) :=
  projections ← st_wrap "list policy projections" (ListDecisionProjections nodeID);
  MaterializeTargets policies projections updatedAt.

(** ** ManagedPolicyTargetResolver (managed_policy_resolver.go) *)
Record ManagedPolicyTargetResolver := MkResolver {
  mptr_scopes : Z;
  mptr_nativeTimeoutSupported : bool;
  mptr_backendAttributesDigest : string
}.

Definition is_hex_digit (b : Z) : bool := in_range 48 57 b || in_range 97 102 b.
(** [strings.Trim(s, hex) != ""]: some byte other than a hex digit remains
    between the trimmed ends. *)
Definition trimmed_nonempty (s : string) : bool := negb (forallb is_hex_digit (string_bytes s)).

Definition NewManagedPolicyTargetResolver (scopes : Z) (native : bool) (digest : string)
    : result ManagedPolicyTargetResolver :=
  fail_if (bad_scopes scopes) (Errorf "managed policy resolver scopes are invalid");;
  fail_if (negb (Z.of_nat (String.length digest) =? 64) || trimmed_nonempty digest)
          (Errorf "managed policy resolver backend attributes digest is invalid");;
  Ok (MkResolver scopes native digest).

Definition ResolveTargetPolicy {S} `{ManagedPolicyReader S} (r : ManagedPolicyTargetResolver)
    (projection : DesiredBanProjection) : ST S TargetPolicy :=
  '(_, policy) ← st_wrap "read managed policy" (ReadManagedPolicy (bp_NodeID projection));
  resolution ← st_lift (wrap "resolve managed policy relation" (ResolvePolicy
    (MkPolicyInput (bp_CanonicalTarget projection) (elems (mp_Allowlist policy))
                   (elems (mp_ProtectedTargets policy)))));
  mret (MkTargetPolicy (pres_Coverage resolution) (pres_RelationDigest resolution)
          (mptr_scopes r) (mptr_nativeTimeoutSupported r) (mptr_backendAttributesDigest r)).

(** ** Post-commit wakes *)
Definition ErrPostCommitWake := Errorf "post-commit target wake failed".
Definition PostCommitWakeError (failed : TargetEnforcementChange) (cause : error) : error :=
  Typed "PostCommitWakeError" [Prefix_String (ch_Target failed)] (Join ErrPostCommitWake cause).

(** WakeTarget is a sink with its own state; the pending suffix of the error is
    returned beside it. *)
Fixpoint WakeCommittedTargets {W} (WakeTarget : NodeID → Prefix → ST W unit)
    (changes : list TargetEnforcementChange) (w : W)
    : result unit * list TargetEnforcementChange * W :=
  match changes with
  | [] => (Ok tt, [], w)
  | change :: rest =>
    match WakeTarget (ch_NodeID change) (ch_Target change) w with
    | (Err e, w') => (Err (PostCommitWakeError change e), rest, w')
    | (Ok _, w') => WakeCommittedTargets WakeTarget rest w'
    end
  end.

(** excludeCommittedTargetChanges (expiration_scheduler.go) *)
Definition change_key (c : TargetEnforcementChange) : NodeID * Prefix * Z :=
  (ch_NodeID c, ch_Target c, ch_Generation c).
Definition excludeCommittedTargetChanges (pending committed : list TargetEnforcementChange)
    : list TargetEnforcementChange :=
  match pending, committed with
  | [], _ | _, [] => pending
  | _, _ =>
    let current := list_to_set (change_key <$> committed) : gset (NodeID * Prefix * Z) in
    base.filter (λ c, change_key c ∉ current) pending
  end.

(** ** The transaction runner (store/decision_lifecycle.go, RunDecisionTransaction
    and RunPolicyTransaction) *)
Definition ErrCommitUnknown := Errorf "decision transaction commit outcome is unknown".
Definition NewCommitUnknownError (cause : error) : error :=
  Typed "CommitUnknownError" [] ErrCommitUnknown.

(** How the commit of a transaction whose operation succeeded ends: committed,
    or an error that leaves open whether the writes persisted. *)
Inductive commit_outcome := CommitOk | CommitFailed (cause : error) (persisted : bool).

(** The operation's value is what the caller captured in its closure. *)
Definition RunTransaction {S A} (op : ST S A) (commit : commit_outcome) (s : S)
    : option A * option error * S :=
  match op s with
  | (Err e, _) => (None, Some (Wrapf "run transaction" e), s)
  | (Ok a, s') =>
    match commit with
    | CommitOk => (Some a, None, s')
    | CommitFailed cause persisted =>
      (Some a, Some (NewCommitUnknownError cause), if persisted then s' else s)
    end
  end.

(** ** LifecycleService *)
Section lifecycle_service.
Context {S W : Type} `{LifecycleTransaction S}.
Variable policies : DesiredBanProjection → ST S TargetPolicy.
Variable WakeTarget : NodeID → Prefix → ST W unit.
Variable service_node : NodeID.

Definition ban_operation (request : ManualRequest) (replace : bool)
    : ST S (ManualResult * list TargetEnforcementChange) :=
  RequireNodeIdentity service_node;;
  result ← RecordManualInTransaction request replace;
  projection ← FindDecisionProjection (mr_NodeID request) (mr_Target request);
  match projection with
  | None => st_fail (Errorf "manual decision projection was not materialized")
  | Some p => changes ← FinalizeTargets policies [p] (mr_CreatedAt request);
              mret (result, changes)
  end.

(** The value and error the method returns, and the states it leaves. *)
Definition finish_with_wake {A} (changes : A → list TargetEnforcementChange) (wake : bool)
    (outcome : option A * option error * S) (w : W) : option A * option error * S * W :=
  let '(value, err, s) := outcome in
  match err with
  | Some e => ((if errors_Is e ErrCommitUnknown then value else None), Some e, s, w)
  | None =>
    match value with
    | Some a =>
      if wake then
        let '(r, _, w') := WakeCommittedTargets WakeTarget (changes a) w in
        match r with
        | Err e => (Some a, Some e, s, w')
        | Ok _ => (Some a, None, s, w')
        end
      else (Some a, None, s, w)
    | None => (None, None, s, w)
    end
  end.

Definition LifecycleService_BanManual (request : ManualRequest) (replace : bool)
    (commit : commit_outcome) (s : S) (w : W) :=
  if negb (bool_decide (mr_NodeID request = service_node))
  then (None, Some (Errorf "manual decision node id does not match lifecycle node id"), s, w)
  else finish_with_wake snd true (RunTransaction (ban_operation request replace) commit s) w.

Definition expire_operation (now : time) : ST S (ExpirationResult * list TargetEnforcementChange) :=
  result ← ExpireInTransaction service_node now;
  changes ← FinalizeTargets policies (er_Projections result) now;
  mret (result, changes).

Definition LifecycleService_expire (now : time) (wake : bool) (commit : commit_outcome)
    (s : S) (w : W) :=
  finish_with_wake snd wake (RunTransaction (expire_operation now) commit s) w.
End lifecycle_service.

(** ** PolicyService (policy.go) *)
Record PolicyWriteRequest := MkPolicyWriteRequest {
  pw_NodeID : NodeID;
  pw_ExpectedPolicyRevision : Z;
  pw_Policy : ManagedPolicyIntent;
  pw_AuditID : string;
  pw_AuditIdempotencyKey : string;
  pw_ActorType : string;
  pw_UpdatedAt : time
}.
Record PolicyChange := MkPolicyChange {
  pc_NodeID : NodeID;
  pc_PolicyRevision : Z;
  pc_SnapshotRevision : Z;
  pc_TargetChanges : list TargetEnforcementChange;
  pc_Changed : bool
}.

Definition validatePolicyWriteRequest (r : PolicyWriteRequest) : result unit :=
  fail_if (is_empty (pw_NodeID r)) (Errorf "policy write node id is required");;
  wrap "validate policy write" (Policy_ValidateComplete (pw_Policy r));;
  fail_if (is_empty (pw_AuditID r) || is_empty (pw_AuditIdempotencyKey r)
           || is_empty (pw_ActorType r))
          (Errorf "policy write audit identity and actor type are required");;
  fail_if (IsZero (pw_UpdatedAt r) || (UnixMicro (pw_UpdatedAt r) <=? 0))
          (Errorf "policy write update time is required").

Definition sameManagedPolicy (left right : ManagedPolicyIntent) : bool :=
  bool_decide (mp_RelationDigest left = mp_RelationDigest right)
  && bool_decide (elems (mp_Allowlist left) = elems (mp_Allowlist right))
  && bool_decide (elems (mp_ProtectedTargets left) = elems (mp_ProtectedTargets right)).

Definition containsTargetGeneration (intents : list NormalizedTargetEnforcementIntent)
    (target : Prefix) (generation : Z) : bool :=
  existsb (λ i, bool_decide (ti_CanonicalTarget i = target) && (ti_Generation i =? generation)) intents.

Definition prove_committed (request : PolicyWriteRequest) (change : PolicyChange)
    (read : result DesiredFirewallState) : result unit :=
  state ← wrap "read back policy commit" read;
  fail_if (negb (ds_PolicyRevision state =? pc_PolicyRevision change)
           || negb (ds_SnapshotRevision state =? pc_SnapshotRevision change)
           || negb (sameManagedPolicy (ds_Policy state) (pw_Policy request)))
          (Errorf "read back policy commit does not prove requested desired state");;
  fail_if (negb (forallb (λ c, containsTargetGeneration (ds_Targets state) (ch_Target c)
                                 (ch_Generation c)) (pc_TargetChanges change)))
          (Errorf "read back policy commit does not prove target %s generation %d").

(** NewInitialManagedPolicyIntent (core/managed_policy_bootstrap.go) *)
Definition ErrManagedPolicyUninitialized := Errorf "managed policy is uninitialized".
Definition NewInitialManagedPolicyIntent : result ManagedPolicyIntent :=
  NewManagedPolicyIntent None (Some [loopback4; loopback6]).

Section policy_service.
Context {S W : Type} `{PolicyTransaction S}.
Variable policies : DesiredBanProjection → ST S TargetPolicy.
Variable LoadDesiredFirewallState : NodeID → S → result DesiredFirewallState.
Variable WakePolicy : NodeID → ST W unit.
Variable WakeTarget : NodeID → Prefix → ST W unit.

Definition policy_operation (request : PolicyWriteRequest) : ST S PolicyChange :=
  '(revision, snapshotRevision, changed) ←
    ReplaceManagedPolicy (pw_NodeID request) (pw_ExpectedPolicyRevision request)
      (pw_Policy request) (pw_UpdatedAt request);
  if negb changed
  then mret (MkPolicyChange (pw_NodeID request) revision snapshotRevision [] false)
  else
    changes ← MaterializeNodeTargets policies (pw_NodeID request) (pw_UpdatedAt request);
    ResetPolicyReconcileState revision (pw_UpdatedAt request);;
    AppendPolicyWriteAudit (MkPolicyWriteAudit (pw_AuditID request) (pw_AuditIdempotencyKey request)
      (pw_NodeID request) (pw_ActorType request) revision (mp_RelationDigest (pw_Policy request))
      (pw_UpdatedAt request));;
    mret (MkPolicyChange (pw_NodeID request) revision snapshotRevision
            (with_SnapshotRevision snapshotRevision <$> changes) true).

(** replace: the change and the error it returns. *)
Definition policy_replace (request : PolicyWriteRequest) (commit : commit_outcome) (s : S)
    : option PolicyChange * option error * S :=
  match validatePolicyWriteRequest request with
  | Err e => (None, Some e, s)
  | Ok _ =>
    let '(value, err, s') := RunTransaction (policy_operation request) commit s in
    match err, value with
    | None, _ => (value, None, s')
    | Some e, Some change =>
      if negb (errors_Is e ErrCommitUnknown) || negb (pc_Changed change) then (None, Some e, s')
      else match prove_committed request change (LoadDesiredFirewallState (pw_NodeID request) s') with
           | Err readback => (Some change, Some (Join e readback), s')
           | Ok _ => (Some change, None, s')
           end
    | Some e, None => (None, Some e, s')
    end
  end.

Definition Replace (request : PolicyWriteRequest) (commit : commit_outcome) (s : S) (w : W)
    : option PolicyChange * option error * S * W :=
  let '(value, err, s') := policy_replace request commit s in
  match err, value with
  | None, Some change =>
    if negb (pc_Changed change) then (Some change, None, s', w)
    else match WakePolicy (pc_NodeID change) w with
    | (Err e, w') =>
      (Some change, Some (Typed "PostCommitPolicyWakeError" []
          (Join (Errorf "post-commit policy wake failed") e)), s', w')
    | (Ok _, w') =>
      let '(r, _, w'') := WakeCommittedTargets WakeTarget (pc_TargetChanges change) w' in
      match r with
      | Err e => (Some change, Some e, s', w'')
      | Ok _ => (Some change, None, s', w'')
      end
    end
  | _, _ => (value, err, s', w)
  end.

Definition bootstrap_request (nodeID : NodeID) (policy : ManagedPolicyIntent) (updatedAt : time)
    : PolicyWriteRequest :=
  MkPolicyWriteRequest nodeID 0 policy ("audit-policy-bootstrap-" +:+ nodeID)
    ("policy-bootstrap:" +:+ nodeID) "system" updatedAt.

Definition BootstrapInitialManagedPolicy (nodeID : NodeID) (updatedAt : time)
    (commit : commit_outcome) (s : S) : option PolicyChange * option error * S :=
  if is_empty nodeID || IsZero updatedAt || (UnixMicro updatedAt <=? 0)
  then (None, Some (Errorf "policy bootstrap node id and update time are required"), s)
  else
    let existing state :=
      MkPolicyChange nodeID (ds_PolicyRevision state) (ds_SnapshotRevision state) [] false in
    match LoadDesiredFirewallState nodeID s with
    | Ok state => (Some (existing state), None, s)
    | Err e =>
      if negb (errors_Is e ErrManagedPolicyUninitialized)
      then (None, Some (Wrapf "read managed policy bootstrap state" e), s)
      else match NewInitialManagedPolicyIntent with
      | Err e => (None, Some (Wrapf "construct initial managed policy" e), s)
      | Ok policy =>
        let '(value, err, s') := policy_replace (bootstrap_request nodeID policy updatedAt) commit s in
        match err with
        | None => (value, None, s')
        | Some replaceErr =>
          match LoadDesiredFirewallState nodeID s' with
          | Ok state => (Some (existing state), None, s')
          | Err readErr =>
            (value, Some (Join replaceErr (Wrapf "read managed policy bootstrap outcome" readErr)), s')
          end
        end
      end
    end.
End policy_service.
