(* ===== verification/DecisionStore.v ===== *)
(** * The decision tables of the store (internal/store)

    UnitOfWork as the decision ports see it: uow_decision.go,
    decision_lifecycle.go, desired_state.go and policy_write.go over the rows
    of one transaction. Times are persisted as Unix microseconds, so a row
    holds truncated times. The primary key and the two partial unique indexes
    of the decisions table decide whether an insert conflicts; the
    [created_at_us > 0] check is kept, and the foreign keys, text lengths and
    I/O failures, which only make a call fail, are left to the refinement of
    file Refinement. A prefix column holds the prefix itself: its text form
    is written with String and read back with ParsePrefix. *)

From S2P Require Import Prelude GoStd Netip Identity CoreModel Enforcement Projection MemoryService.
From S2P Require Import DecisionTx.

(** time.UnixMicro(t.UTC().UnixMicro()).UTC() *)
Definition us (t : time) : time := unix_to_internal * second + UnixMicro t * microsecond.

Record policy_row := MkPolicyRow {
  pw_node : NodeID; pw_target : Prefix; pw_enabled : Z; pw_revision : Z
}.
Record target_reconcile_row := MkTargetRow {
  trr_generation : Z; trr_epoch : Z; trr_status : string; trr_attempts : Z; trr_updated : time
}.

Record db := MkDb {
  db_node : NodeID;
  db_decisions : list Decision;
  db_projections : gmap (NodeID * Prefix) DesiredBanProjection;
  db_intents : gmap (NodeID * Prefix) NormalizedTargetEnforcementIntent;
  db_target_reconcile : gmap (NodeID * Prefix) target_reconcile_row;
  db_probes : list (NodeID * Prefix * Z);
  db_snapshot : Z;
  db_allowlists : list policy_row;
  db_protected : list policy_row;
  db_policy_reconcile : option Z;
  db_audits : list (string * string)
}.

Definition set_decisions (d : db) (ds : list Decision) : db :=
  MkDb (db_node d) ds (db_projections d) (db_intents d) (db_target_reconcile d) (db_probes d)
    (db_snapshot d) (db_allowlists d) (db_protected d) (db_policy_reconcile d) (db_audits d).
Definition set_projections (d : db) p : db :=
  MkDb (db_node d) (db_decisions d) p (db_intents d) (db_target_reconcile d) (db_probes d)
    (db_snapshot d) (db_allowlists d) (db_protected d) (db_policy_reconcile d) (db_audits d).
Definition set_intents (d : db) i : db :=
  MkDb (db_node d) (db_decisions d) (db_projections d) i (db_target_reconcile d) (db_probes d)
    (db_snapshot d) (db_allowlists d) (db_protected d) (db_policy_reconcile d) (db_audits d).
Definition set_target_reconcile (d : db) t : db :=
  MkDb (db_node d) (db_decisions d) (db_projections d) (db_intents d) t (db_probes d)
    (db_snapshot d) (db_allowlists d) (db_protected d) (db_policy_reconcile d) (db_audits d).
Definition set_snapshot (d : db) n : db :=
  MkDb (db_node d) (db_decisions d) (db_projections d) (db_intents d) (db_target_reconcile d)
    (db_probes d) n (db_allowlists d) (db_protected d) (db_policy_reconcile d) (db_audits d).
Definition set_policy (d : db) a p n : db :=
  MkDb (db_node d) (db_decisions d) (db_projections d) (db_intents d) (db_target_reconcile d)
    (db_probes d) n a p (db_policy_reconcile d) (db_audits d).
Definition set_policy_reconcile (d : db) r : db :=
  MkDb (db_node d) (db_decisions d) (db_projections d) (db_intents d) (db_target_reconcile d)
    (db_probes d) (db_snapshot d) (db_allowlists d) (db_protected d) r (db_audits d).
Definition set_audits (d : db) a : db :=
  MkDb (db_node d) (db_decisions d) (db_projections d) (db_intents d) (db_target_reconcile d)
    (db_probes d) (db_snapshot d) (db_allowlists d) (db_protected d) (db_policy_reconcile d) a.

(** ** Decisions *)
(** The inserted row: active, without terminal fields, suppression count 0. *)
Definition decision_row (v : Decision) : Decision :=
  MkDecision (d_ID v) (d_NodeID v) (d_Source v) (d_RuleID v) (d_RuleVersion v) (d_AlertID v)
    (d_CanonicalTarget v) (us (d_CreatedAt v)) (us (d_UpdatedAt v)) (us (d_LastTriggeredAt v))
    (us <$> d_ExpiresAt v) None DecisionActive None 0.

(** The primary key and the two partial unique indexes. *)
Definition row_conflicts (rows : list Decision) (row : Decision) : bool :=
  decisionIDExistsLocked rows (d_ID row)
  || match slot row with
     | Some s => bool_decide (s ∈ omap slot rows)
     | None => false
     end.

Definition insert_decision (v : Decision) : ST db bool :=
  d ← st_get;
  let row := decision_row v in
  if UnixMicro (d_CreatedAt v) <=? 0 then st_fail (Errorf "CHECK constraint failed: created_at_us > 0")
  else if row_conflicts (db_decisions d) row then mret false
  else st_put (set_decisions d (db_decisions d ++ [row]));; mret true.

Definition uow_InsertAutomaticDecision (v : Decision) : ST db bool :=
  st_lift (wrap "insert automatic decision: validate" (Decision_Validate v));;
  if negb (bool_decide (d_Source v = DecisionSourceAutomatic)) || is_nil (d_RuleID v)
     || is_nil (d_RuleVersion v) || is_nil (d_AlertID v)
  then st_fail (Errorf "insert automatic decision: automatic references are required")
  else insert_decision v.

Definition uow_InsertManualDecision (v : Decision) : ST db bool :=
  st_lift (wrap "insert manual decision: validate" (Decision_Validate v));;
  if negb (bool_decide (d_Source v = DecisionSourceManual)) || negb (is_nil (d_RuleID v))
     || negb (is_nil (d_RuleVersion v)) || negb (is_nil (d_AlertID v))
  then st_fail (Errorf "insert manual decision: manual references must be empty")
  else insert_decision v.

(** decisionFromRow validates what it reads. *)
Definition read_row (found : option Decision) : ST db (option Decision) :=
  match found with
  | None => mret None
  | Some row => st_lift (wrap "validate persisted decision" (Decision_Validate row));; mret (Some row)
  end.

Definition uow_FindDecisionByID (id : DecisionID) : ST db (option Decision) :=
  d ← st_get; read_row (snd <$> list_find (λ r, d_ID r = id) (db_decisions d)).

Definition active_automatic (node : NodeID) (rule : RuleID) (target : Prefix) (r : Decision) : Prop :=
  d_NodeID r = node ∧ d_RuleID r = Some rule ∧ d_CanonicalTarget r = target ∧
  d_Source r = DecisionSourceAutomatic ∧ d_State r = DecisionActive.
Definition active_manual (node : NodeID) (target : Prefix) (r : Decision) : Prop :=
  d_NodeID r = node ∧ d_CanonicalTarget r = target ∧
  d_Source r = DecisionSourceManual ∧ d_State r = DecisionActive.
Definition active_for (node : NodeID) (target : Prefix) (r : Decision) : Prop :=
  d_NodeID r = node ∧ d_CanonicalTarget r = target ∧ d_State r = DecisionActive.
#[export] Instance active_automatic_dec n r t d : base.Decision (active_automatic n r t d).
Proof. unfold active_automatic. apply _. Defined.
#[export] Instance active_manual_dec n t d : base.Decision (active_manual n t d).
Proof. unfold active_manual. apply _. Defined.
#[export] Instance active_for_dec n t d : base.Decision (active_for n t d).
Proof. unfold active_for. apply _. Defined.

Definition uow_FindActiveAutomaticDecision (node : NodeID) (rule : RuleID) (target : Prefix)
    : ST db (option Decision) :=
  d ← st_get; read_row (snd <$> list_find (active_automatic node rule target) (db_decisions d)).
Definition uow_FindActiveManualDecision (node : NodeID) (target : Prefix) : ST db (option Decision) :=
  d ← st_get; read_row (snd <$> list_find (active_manual node target) (db_decisions d)).

Definition suppressed_row (r : Decision) (triggeredAt : time) : Decision :=
  MkDecision (d_ID r) (d_NodeID r) (d_Source r) (d_RuleID r) (d_RuleVersion r) (d_AlertID r)
    (d_CanonicalTarget r) (d_CreatedAt r) (d_UpdatedAt r)
    (if us triggeredAt <? d_LastTriggeredAt r then d_LastTriggeredAt r else us triggeredAt)
    (d_ExpiresAt r) (d_EndedAt r) (d_State r) (d_EndReason r) (d_SuppressedCount r + 1).

Definition uow_SuppressAutomaticDecision (id : DecisionID) (triggeredAt : time) : ST db Decision :=
  d ← st_get;
  match list_find (λ r, d_ID r = id ∧ d_Source r = DecisionSourceAutomatic ∧
                        d_State r = DecisionActive) (db_decisions d) with
  | None => st_fail ErrSuppressionOverflow
  | Some (i, row) =>
    if max_int64 <=? d_SuppressedCount row then st_fail ErrSuppressionOverflow
    else
      let row' := suppressed_row row triggeredAt in
      st_put (set_decisions d (<[i := row']> (db_decisions d)));;
      st_lift (wrap "validate persisted decision" (Decision_Validate row'));;
      mret row'
  end.

Definition uow_RevokeActiveManualDecision (id : DecisionID) (endedAt : time) : ST db Decision :=
  d ← st_get;
  match list_find (λ r, d_ID r = id ∧ d_Source r = DecisionSourceManual ∧
                        d_State r = DecisionActive ∧ d_CreatedAt r ≤ us endedAt) (db_decisions d) with
  | None => st_fail (Errorf "revoke active manual decision %q: active row changed")
  | Some (i, row) =>
    let row' := with_terminal row DecisionRevoked (us endedAt) EndReasonManualReplace in
    st_put (set_decisions d (<[i := row']> (db_decisions d)));;
    st_lift (wrap "validate persisted decision" (Decision_Validate row'));;
    mret row'
  end.

Fixpoint validate_rows (rows : list Decision) : result unit :=
  match rows with
  | [] => Ok tt
  | r :: rest => wrap "validate persisted decision" (Decision_Validate r);; validate_rows rest
  end.

Definition uow_ListActiveDecisions (node : NodeID) (target : Prefix) : ST db (list Decision) :=
  d ← st_get;
  let rows := sort_by d_ID (base.filter (active_for node target) (db_decisions d)) in
  st_lift (wrap "list active decisions: decode persisted row" (validate_rows rows));;
  mret rows.

Definition uow_RequireNodeIdentity (node : NodeID) : ST db unit :=
  d ← st_get;
  if is_empty node then st_fail (Errorf "require node identity: node id is required")
  else if negb (bool_decide (db_node d = node))
  then st_fail (Errorf "require node identity: persisted node does not match %q")
  else mret tt.

(** The rows with [expires_at_us <= now], each ended in place. *)
Definition due_row (node : NodeID) (now : time) (r : Decision) : bool :=
  bool_decide (d_NodeID r = node) && due (us now) r.
Definition expire_row (node : NodeID) (now : time) (r : Decision) : Decision :=
  if due_row node now r then with_terminal r DecisionExpired (us now) EndReasonExpired else r.

Definition uow_ExpireDueActiveDecisions (node : NodeID) (now : time) : ST db (list Decision) :=
  (if is_empty node then st_fail (Errorf "expire due active decisions: node id is required") else mret tt);;
  uow_RequireNodeIdentity node;;
  d ← st_get;
  let ended := expire_row node now <$> base.filter (λ r, due_row node now r = true) (db_decisions d) in
  st_put (set_decisions d (expire_row node now <$> db_decisions d));;
  st_lift (wrap "expire due active decisions: read returned decision" (validate_rows ended));;
  mret ended.

(** ** Projections *)
Definition projection_row (p : DesiredBanProjection) : DesiredBanProjection :=
  MkProjection (bp_NodeID p) (bp_CanonicalTarget p) (bp_State p) (bp_ActiveCount p)
    (us <$> bp_EffectiveUntil p) (bp_Revision p).

Definition uow_FindDecisionProjection (node : NodeID) (target : Prefix)
    : ST db (option DesiredBanProjection) :=
  d ← st_get;
  match db_projections d !! (node, target) with
  | None => mret None
  | Some p => st_lift (wrap "validate persisted projection" (Projection_Validate p));; mret (Some p)
  end.

Definition uow_PutProjection (p : DesiredBanProjection) (updatedAt : time) : ST db unit :=
  st_lift (wrap "put projection: validate" (Projection_Validate p));;
  if IsZero updatedAt then st_fail (Errorf "put projection: updated time is required")
  else
    d ← st_get;
    let row := projection_row p in
    match db_projections d !! projection_key p with
    | None => st_put (set_projections d (<[projection_key p := row]> (db_projections d)))
    | Some existing =>
      if bool_decide (existing = row) then mret tt
      else if bp_Revision row <=? bp_Revision existing
      then st_fail (Errorf "put projection %q: stale or conflicting revision %d")
      else st_put (set_projections d (<[projection_key p := row]> (db_projections d)))
    end.

Definition uow_ListDecisionProjections (node : NodeID) : ST db (list DesiredBanProjection) :=
  d ← st_get;
  let rows := base.filter (λ p, bp_NodeID p = node)
                (snd <$> map_to_list (db_projections d)) in
  let rows := sort_by (λ p, Prefix_String (bp_CanonicalTarget p)) rows in
  st_lift (wrap "list decision projections" (validate_projections rows));;
  mret rows.

(** ** Critical audit: unique id and idempotency key *)
Definition append_audit (id key : string) (node : NodeID) (createdAt : time) : ST db unit :=
  d ← st_get;
  if is_empty id || is_empty key || is_empty node
  then st_fail (Errorf "append critical audit: identity fields are required")
  else if IsZero createdAt
  then st_fail (Errorf "append critical audit: classification fields are required")
  else if existsb (λ a, bool_decide (a.1 = id) || bool_decide (a.2 = key)) (db_audits d)
  then st_fail (Errorf "append critical audit: UNIQUE constraint failed")
  else st_put (set_audits d (db_audits d ++ [(id, key)])).

(** ** Target intents, retry rows and the snapshot revision *)
Definition intent_row (i : NormalizedTargetEnforcementIntent) : NormalizedTargetEnforcementIntent :=
  MkIntent (ti_NodeID i) (ti_CanonicalTarget i) (ti_BanMembership i) (us <$> ti_EffectiveUntil i)
    (ti_TimeoutMode i) (ti_Scopes i) (ti_AddressFamily i) (ti_PolicyCoverage i)
    (ti_PolicyRelationDigest i) (ti_BackendAttributesDigest i) (ti_Generation i).
Definition intent_key (i : NormalizedTargetEnforcementIntent) : NodeID * Prefix :=
  (ti_NodeID i, ti_CanonicalTarget i).

Definition uow_FindTargetEnforcementIntent (node : NodeID) (target : Prefix)
    : ST db (option NormalizedTargetEnforcementIntent) :=
  d ← st_get;
  match db_intents d !! (node, target) with
  | None => mret None
  | Some i => st_lift (wrap "validate persisted target intent" (Intent_Validate i));; mret (Some i)
  end.

(** The largest generation among the retry row and the probe requirements. *)
Definition uow_TargetEnforcementGenerationFloor (node : NodeID) (target : Prefix)
    : ST db (option Z) :=
  d ← st_get;
  let start := trr_generation <$> db_target_reconcile d !! (node, target) in
  mret (foldl (λ floor probe,
          match floor with
          | None => Some probe
          | Some f => if f <? probe then Some probe else Some f
          end) start
        (snd <$> base.filter (λ p, p.1 = (node, target)) (db_probes d))).

Definition uow_PutTargetEnforcementIntent (i : NormalizedTargetEnforcementIntent) : ST db unit :=
  st_lift (wrap "put target enforcement intent: validate" (Intent_Validate i));;
  if max_int64 <? ti_Generation i
  then st_fail (Errorf "put target enforcement intent: generation is exhausted")
  else
    d ← st_get;
    let write := st_put (set_intents d (<[intent_key i := intent_row i]> (db_intents d))) in
    match db_intents d !! intent_key i with
    | None => write
    | Some persisted =>
      if ti_Generation persisted <? ti_Generation i then write
      else
        st_lift (wrap "validate persisted target intent" (Intent_Validate persisted));;
        if (ti_Generation persisted =? ti_Generation i) && Equivalent persisted i then mret tt
        else st_fail (Errorf "put target enforcement intent: stale or conflicting generation")
    end.

Definition uow_ResetTargetReconcileState (node : NodeID) (target : Prefix) (generation : Z)
    (updatedAt : time) : ST db unit :=
  if (generation =? 0) || (max_int64 <? generation)
  then st_fail (Errorf "reset target reconcile state: generation is invalid")
  else if IsZero updatedAt || (UnixMicro updatedAt <=? 0)
  then st_fail (Errorf "reset target reconcile state: update time is invalid")
  else
    d ← st_get;
    let write epoch := st_put (set_target_reconcile d
      (<[(node, target) := MkTargetRow generation epoch "pending" 0 (us updatedAt)]>
         (db_target_reconcile d))) in
    match db_target_reconcile d !! (node, target) with
    | None => write 0
    | Some row => if trr_generation row <? generation then write (trr_epoch row)
                  else st_fail (Errorf "reset target reconcile state: stale generation")
    end.

Definition uow_AdvanceSnapshotRevision : ST db Z :=
  d ← st_get;
  if max_int64 <=? db_snapshot d
  then st_fail (Errorf "advance snapshot revision: revision is exhausted")
  else st_put (set_snapshot d (db_snapshot d + 1));; mret (db_snapshot d + 1).

(** ** Managed policy rows *)
Definition rows_of (node : NodeID) (rows : list policy_row) : list policy_row :=
  sort_by (λ r, Prefix_String (pw_target r)) (base.filter (λ r, pw_node r = node) rows).

(** The consume closure: it keeps the one revision and the enabled prefixes. *)
Fixpoint consume_rows (revision : option Z) (acc : list Prefix) (rows : list policy_row)
    : result (option Z * list Prefix) :=
  match rows with
  | [] => Ok (revision, acc)
  | r :: rest =>
    fail_if (negb (pw_enabled r =? 0) && negb (pw_enabled r =? 1))
            (Errorf "policy row has invalid enabled flag");;
    fail_if (pw_revision r <=? 0) (Errorf "policy row has invalid revision");;
    fail_if (match revision with Some v => negb (v =? pw_revision r) | None => false end)
            (Errorf "policy rows have inconsistent revisions %d and %d");;
    fail_if (not_canonical (pw_target r)) (Errorf "policy row has non-canonical target");;
    consume_rows (Some (pw_revision r))
      (if pw_enabled r =? 0 then acc else acc ++ [pw_target r]) rest
  end.

Definition loadManagedPolicyIntent (node : NodeID) (d : db) : result (Z * ManagedPolicyIntent) :=
  '(revision, allow) ← consume_rows None [] (rows_of node (db_allowlists d));
  '(revision, protected) ← consume_rows revision [] (rows_of node (db_protected d));
  match revision with
  | None => Err (Wrapf "policy rows are missing" ErrManagedPolicyUninitialized)
  | Some rev =>
    policy ← wrap "construct managed policy intent"
               (NewManagedPolicyIntent (Some allow) (Some protected));
    Ok (rev, policy)
  end.

Definition uow_ReadManagedPolicy (node : NodeID) : ST db (Z * ManagedPolicyIntent) :=
  d ← st_get; st_lift (wrap "read managed policy" (loadManagedPolicyIntent node d)).

Definition require_identity (node : NodeID) (d : db) : result unit :=
  fail_if (negb (bool_decide (db_node d = node))) (Errorf "persisted node %q differs from %q").

Definition has_policy_rows (node : NodeID) (d : db) : bool :=
  existsb (λ r, bool_decide (pw_node r = node)) (db_allowlists d ++ db_protected d).
Definition hasDisabledManagedPolicyRows (node : NodeID) (d : db) : bool :=
  existsb (λ r, bool_decide (pw_node r = node) && (pw_enabled r =? 0))
    (db_allowlists d ++ db_protected d).

Definition new_rows (node : NodeID) (revision : Z) (prefixes : list Prefix) : list policy_row :=
  (λ p, MkPolicyRow node p 1 revision) <$> prefixes.
Definition other_rows (node : NodeID) (rows : list policy_row) : list policy_row :=
  base.filter (λ r, pw_node r ≠ node) rows.

(** The row triggers bump the counter inside the transaction; the last update
    publishes the previous value plus one. *)
Definition uow_ReplaceManagedPolicy (node : NodeID) (expected : Z) (policy : ManagedPolicyIntent)
    (updatedAt : time) : ST db (Z * Z * bool) :=
  st_lift (wrap "replace managed policy: validate" (Policy_ValidateComplete policy));;
  (if IsZero updatedAt || (UnixMicro updatedAt <=? 0)
   then st_fail (Errorf "replace managed policy: update time is invalid") else mret tt);;
  d ← st_get;
  st_lift (wrap "replace managed policy" (require_identity node d));;
  current ← (if has_policy_rows node d
             then st_lift (wrap "replace managed policy: read current policy"
                            (c ← loadManagedPolicyIntent node d; Ok (Some c)))
             else mret None);
  let currentRevision := match current with Some c => c.1 | None => 0 end in
  if negb (expected =? currentRevision)
  then st_fail (Errorf "replace managed policy: expected revision %d, current revision is %d")
  else if match current with
          | Some c => sameManagedPolicy c.2 policy && negb (hasDisabledManagedPolicyRows node d)
          | None => false
          end
  then mret (currentRevision, 0, false)
  else if max_int64 <=? currentRevision
  then st_fail (Errorf "replace managed policy: revision is exhausted")
  else if (db_snapshot d <? 0) || (max_int64 <=? db_snapshot d)
  then st_fail (Errorf "replace managed policy: snapshot revision is exhausted")
  else
    let next := currentRevision + 1 in
    st_put (set_policy d
      (other_rows node (db_allowlists d) ++ new_rows node next (elems (mp_Allowlist policy)))
      (other_rows node (db_protected d) ++ new_rows node next (elems (mp_ProtectedTargets policy)))
      (db_snapshot d + 1));;
    mret (next, db_snapshot d + 1, true).

Definition uow_ResetPolicyReconcileState (revision : Z) (updatedAt : time) : ST db unit :=
  if (revision =? 0) || (max_int64 <? revision)
  then st_fail (Errorf "reset policy reconcile state: revision is invalid")
  else if IsZero updatedAt || (UnixMicro updatedAt <=? 0)
  then st_fail (Errorf "reset policy reconcile state: update time is invalid")
  else
    d ← st_get;
    match db_policy_reconcile d with
    | Some r => if r <? revision then st_put (set_policy_reconcile d (Some revision))
                else st_fail (Errorf "reset policy reconcile state: stale revision")
    | None => st_put (set_policy_reconcile d (Some revision))
    end.

(** Store.LoadDesiredFirewallState *)
Definition LoadDesiredFirewallState (node : NodeID) (d : db) : result DesiredFirewallState :=
  fail_if (negb (isLowerHex128 node))
          (Errorf "load desired firewall state: node id must be 128-bit lowercase hex");;
  wrap "load desired firewall state" (require_identity node d);;
  '(revision, policy) ← wrap "load desired firewall state" (loadManagedPolicyIntent node d);
  let targets := sort_by (λ i, Prefix_String (ti_CanonicalTarget i))
    (base.filter (λ i, ti_NodeID i = node) (snd <$> map_to_list (db_intents d))) in
  fail_if (negb (forallb (λ i, is_ok (Intent_Validate i)) targets)) (Errorf "decode target intent");;
  Ok (MkDesiredState (db_snapshot d) revision policy targets).

(** Store.PendingTargetEnforcementChanges *)
Definition PendingTargetEnforcementChanges (node : NodeID) (d : db)
    : result (list TargetEnforcementChange) :=
  fail_if (negb (isLowerHex128 node))
          (Errorf "list pending target enforcement changes: node id must be 128-bit lowercase hex");;
  wrap "list pending target enforcement changes" (require_identity node d);;
  let rows := sort_by (λ kr, Prefix_String kr.1.2)
    (base.filter (λ kr : (NodeID * Prefix) * target_reconcile_row,
       kr.1.1 = node ∧ trr_status kr.2 = "pending" ∧ trr_attempts kr.2 = 0)
       (map_to_list (db_target_reconcile d))) in
  Ok (omap (λ kr : (NodeID * Prefix) * target_reconcile_row,
        match db_intents d !! kr.1 with
        | Some i => if ti_Generation i =? trr_generation kr.2
                    then Some (MkChange node kr.1.2 (trr_generation kr.2) (db_snapshot d)) else None
        | None => None
        end) rows).

(** ** UnitOfWork implements the ports *)
#[export] Instance uow_projection : ProjectionTransaction db := {|
  ListActiveDecisions := uow_ListActiveDecisions;
  FindDecisionProjection := uow_FindDecisionProjection;
  PutDecisionProjection := uow_PutProjection
|}.
#[export] Instance uow_automatic : AutomaticTransaction db := {|
  InsertAutomaticDecision := uow_InsertAutomaticDecision;
  at_FindDecisionByID := uow_FindDecisionByID;
  FindActiveAutomaticDecision := uow_FindActiveAutomaticDecision;
  SuppressAutomaticDecision := uow_SuppressAutomaticDecision;
  AppendAutomaticCreatedAudit := λ a,
    append_audit (ac_ID a) (ac_IdempotencyKey a) (ac_NodeID a) (ac_CreatedAt a);
  AppendAutomaticSuppressedAudit := λ a,
    append_audit (as_ID a) (as_IdempotencyKey a) (as_NodeID a) (as_CreatedAt a)
|}.
#[export] Instance uow_desired : DesiredStateTransaction db := {|
  FindTargetEnforcementIntent := uow_FindTargetEnforcementIntent;
  TargetEnforcementGenerationFloor := uow_TargetEnforcementGenerationFloor;
  PutTargetEnforcementIntent := uow_PutTargetEnforcementIntent;
  ResetTargetReconcileState := uow_ResetTargetReconcileState;
  AdvanceSnapshotRevision := uow_AdvanceSnapshotRevision
|}.
#[export] Instance uow_lifecycle : LifecycleTransaction db := {|
  RequireNodeIdentity := uow_RequireNodeIdentity;
  InsertManualDecision := uow_InsertManualDecision;
  lt_FindDecisionByID := uow_FindDecisionByID;
  FindActiveManualDecision := uow_FindActiveManualDecision;
  RevokeActiveManualDecision := uow_RevokeActiveManualDecision;
  ExpireDueActiveDecisions := uow_ExpireDueActiveDecisions;
  AppendDecisionLifecycleAudit := λ a,
    append_audit (la_ID a) (la_IdempotencyKey a) (la_NodeID a) (la_CreatedAt a)
|}.
#[export] Instance uow_policy : PolicyTransaction db := {|
  ListDecisionProjections := uow_ListDecisionProjections;
  ReplaceManagedPolicy := uow_ReplaceManagedPolicy;
  ResetPolicyReconcileState := uow_ResetPolicyReconcileState;
  AppendPolicyWriteAudit := λ a,
    append_audit (pa_ID a) (pa_IdempotencyKey a) (pa_NodeID a) (pa_CreatedAt a)
|}.
#[export] Instance uow_reader : ManagedPolicyReader db := {|
  ReadManagedPolicy := uow_ReadManagedPolicy
|}.
