(* ===== verification/Refinement.v ===== *)
(** * Stores that refine the modelled tables

    The decision rules are written against the ports of DecisionTx. A store
    with state [S] refines the tables when every successful call of one of its
    ports is, through [view], a call of the modelled store with the same
    result; a call may also fail on its own (I/O, a foreign key, a closed
    handle), which the ports report and the rules pass on. Every rule then
    refines its run over the tables, so what is proved of the tables holds of
    every such store. *)

From S2P Require Import Prelude GoStd Netip Identity CoreModel Enforcement PolicyResolution.
From S2P Require Import Projection MemoryService DecisionTx DecisionStore.

Definition refines {S A} (view : S → db) (m : ST S A) (m' : ST db A) : Prop :=
  ∀ s a s', m s = (Ok a, s') → m' (view s) = (Ok a, view s').

Create HintDb refines.

Section combinators.
Context {S : Type} (view : S → db).

Lemma refines_ret {A} (a : A) : refines view (mret a) (mret a).
Proof. by intros s a' s' [= -> ->]. Qed.
Lemma refines_lift {A} (m : result A) : refines view (st_lift m) (st_lift m).
Proof. intros s a s' [-> ->]%lift_Ok_inv. done. Qed.
Lemma refines_fail {A} e e' : refines view (st_fail e : ST S A) (st_fail e').
Proof. by intros s a s' H. Qed.
Lemma refines_bind {A B} (m : ST S A) m' (f : A → ST S B) f' :
  refines view m m' → (∀ a, refines view (f a) (f' a)) → refines view (m ≫= f) (m' ≫= f').
Proof.
  intros Hm Hf s b s' H. st_step H as a s1 E. erewrite bind_step by by apply Hm. by apply Hf.
Qed.
Lemma refines_wrap {A} msg (m : ST S A) m' :
  refines view m m' → refines view (st_wrap msg m) (st_wrap msg m').
Proof.
  intros Hm s a s'. unfold st_wrap. destruct (m s) as [[a'|e] s1] eqn:E; [|done].
  intros [= -> ->]. by rewrite (Hm _ _ _ E).
Qed.
Lemma refines_each {A} (f : A → ST S unit) f' xs :
  (∀ x, refines view (f x) (f' x)) → refines view (st_each f xs) (st_each f' xs).
Proof.
  intros Hf. induction xs as [|x xs IH]; [apply refines_ret|].
  by apply refines_bind.
Qed.
Lemma refines_map {A B} (f : A → ST S B) f' xs :
  (∀ x, refines view (f x) (f' x)) → refines view (st_map f xs) (st_map f' xs).
Proof.
  intros Hf. induction xs as [|x xs IH]; [apply refines_ret|].
  apply refines_bind; [done|]. intros y. apply refines_bind; [done|]. intros ys. apply refines_ret.
Qed.
End combinators.
#[export] Hint Resolve refines_ret refines_lift refines_fail refines_wrap refines_each refines_map
  : refines.

(** Rules already proved, tried before a definition is opened. *)
Ltac refine_rule := fail.

(** [refine_run] follows the control flow of a rule, whose conditions do not
    depend on the state type. *)
Ltac refine_run :=
  repeat first
    [ progress intros
    | progress cbn beta iota
    | solve [auto with refines]
    | refine_rule
    | apply refines_bind
    | apply refines_wrap
    | apply refines_each
    | apply refines_map
    | match goal with
      | |- refines _ (match ?x with _ => _ end) _ => destruct x
      end ].

(** ** The laws of the ports *)
Class RefinesProjection {S} (view : S → db) `{ProjectionTransaction S} : Prop := {
  rf_ListActive n t : refines view (ListActiveDecisions n t) (uow_ListActiveDecisions n t);
  rf_FindProjection n t : refines view (FindDecisionProjection n t) (uow_FindDecisionProjection n t);
  rf_PutProjection p at_ : refines view (PutDecisionProjection p at_) (uow_PutProjection p at_)
}.
Class RefinesAutomatic {S} (view : S → db) `{AutomaticTransaction S} : Prop := {
  rfa_projection :: RefinesProjection view (H := at_projection);
  rf_InsertAutomatic v : refines view (InsertAutomaticDecision v) (uow_InsertAutomaticDecision v);
  rf_FindByID id : refines view (at_FindDecisionByID id) (uow_FindDecisionByID id);
  rf_FindActiveAutomatic n r t :
    refines view (FindActiveAutomaticDecision n r t) (uow_FindActiveAutomaticDecision n r t);
  rf_Suppress id at_ : refines view (SuppressAutomaticDecision id at_) (uow_SuppressAutomaticDecision id at_);
  rf_CreatedAudit a : refines view (AppendAutomaticCreatedAudit a)
    (append_audit (ac_ID a) (ac_IdempotencyKey a) (ac_NodeID a) (ac_CreatedAt a));
  rf_SuppressedAudit a : refines view (AppendAutomaticSuppressedAudit a)
    (append_audit (as_ID a) (as_IdempotencyKey a) (as_NodeID a) (as_CreatedAt a))
}.
Class RefinesDesired {S} (view : S → db) `{DesiredStateTransaction S} : Prop := {
  rfd_projection :: RefinesProjection view (H := ds_projection);
  rf_FindIntent n t : refines view (FindTargetEnforcementIntent n t) (uow_FindTargetEnforcementIntent n t);
  rf_Floor n t :
    refines view (TargetEnforcementGenerationFloor n t) (uow_TargetEnforcementGenerationFloor n t);
  rf_PutIntent i : refines view (PutTargetEnforcementIntent i) (uow_PutTargetEnforcementIntent i);
  rf_ResetTarget n t g at_ :
    refines view (ResetTargetReconcileState n t g at_) (uow_ResetTargetReconcileState n t g at_);
  rf_Advance : refines view AdvanceSnapshotRevision uow_AdvanceSnapshotRevision
}.
Class RefinesLifecycle {S} (view : S → db) `{LifecycleTransaction S} : Prop := {
  rfl_desired :: RefinesDesired view (H := lt_desired);
  rf_RequireNode n : refines view (RequireNodeIdentity n) (uow_RequireNodeIdentity n);
  rf_InsertManual v : refines view (InsertManualDecision v) (uow_InsertManualDecision v);
  rf_FindByID_lt id : refines view (lt_FindDecisionByID id) (uow_FindDecisionByID id);
  rf_FindActiveManual n t :
    refines view (FindActiveManualDecision n t) (uow_FindActiveManualDecision n t);
  rf_Revoke id at_ :
    refines view (RevokeActiveManualDecision id at_) (uow_RevokeActiveManualDecision id at_);
  rf_ExpireDue n now : refines view (ExpireDueActiveDecisions n now) (uow_ExpireDueActiveDecisions n now);
  rf_LifecycleAudit a : refines view (AppendDecisionLifecycleAudit a)
    (append_audit (la_ID a) (la_IdempotencyKey a) (la_NodeID a) (la_CreatedAt a))
}.
Class RefinesPolicy {S} (view : S → db) `{PolicyTransaction S} : Prop := {
  rfp_desired :: RefinesDesired view (H := pt_desired);
  rf_ListProjections n : refines view (ListDecisionProjections n) (uow_ListDecisionProjections n);
  rf_Replace n rev p at_ :
    refines view (ReplaceManagedPolicy n rev p at_) (uow_ReplaceManagedPolicy n rev p at_);
  rf_ResetPolicy rev at_ :
    refines view (ResetPolicyReconcileState rev at_) (uow_ResetPolicyReconcileState rev at_);
  rf_PolicyAudit a : refines view (AppendPolicyWriteAudit a)
    (append_audit (pa_ID a) (pa_IdempotencyKey a) (pa_NodeID a) (pa_CreatedAt a))
}.
#[export] Hint Resolve rf_ListActive rf_FindProjection rf_PutProjection rf_InsertAutomatic rf_FindByID
  rf_FindActiveAutomatic rf_Suppress rf_CreatedAudit rf_SuppressedAudit rf_FindIntent rf_Floor
  rf_PutIntent rf_ResetTarget rf_Advance rf_RequireNode rf_InsertManual rf_FindByID_lt
  rf_FindActiveManual rf_Revoke rf_ExpireDue rf_LifecycleAudit
  rf_ListProjections rf_Replace rf_ResetPolicy rf_PolicyAudit : refines.

(** ** The rules refine their runs over the tables *)
Lemma refines_rebuild {S} (view : S → db) `{RefinesProjection S view} n t at_ force :
  refines view (rebuildProjection n t at_ force) (rebuildProjection n t at_ force).
Proof. unfold rebuildProjection. refine_run. Qed.
Ltac refine_rule ::= first [apply refines_rebuild; apply _ | apply rf_FindProjection].

Lemma refines_automatic {S} (view : S → db) `{RefinesAutomatic S view} r :
  refines view (RecordAutomaticInTransaction r) (RecordAutomaticInTransaction r).
Proof. unfold RecordAutomaticInTransaction. refine_run. Qed.

Lemma refines_manual {S} (view : S → db) `{RefinesLifecycle S view} r replace :
  refines view (RecordManualInTransaction r replace) (RecordManualInTransaction r replace).
Proof. unfold RecordManualInTransaction. refine_run. Qed.

Lemma refines_expire {S} (view : S → db) `{RefinesLifecycle S view} n now :
  refines view (ExpireInTransaction n now) (ExpireInTransaction n now).
Proof. unfold ExpireInTransaction. refine_run. Qed.

Section finalizer.
Context {S : Type} (view : S → db) `{RefinesDesired S view}.
Variables (policies : DesiredBanProjection → ST S TargetPolicy)
          (policies' : DesiredBanProjection → ST db TargetPolicy).
Hypothesis Hpolicies : ∀ p, refines view (policies p) (policies' p).

Lemma refines_materialize key at_ :
  refines view (materialize_one policies key at_) (materialize_one policies' key at_).
Proof. unfold materialize_one. refine_run. Qed.

Lemma refines_finalize ps at_ :
  refines view (FinalizeTargets policies ps at_) (FinalizeTargets policies' ps at_).
Proof.
  unfold FinalizeTargets, MaterializeTargets. apply refines_bind.
  - destruct (IsZero at_); [apply refines_fail|]. apply refines_bind; [apply refines_lift|]. intros _.
    apply refines_bind; [|intros; apply refines_ret].
    apply refines_map. intros key. apply refines_materialize.
  - intros []; refine_run.
Qed.
End finalizer.

Section operations.
Context {S : Type} (view : S → db).
Variables (policies : DesiredBanProjection → ST S TargetPolicy)
          (policies' : DesiredBanProjection → ST db TargetPolicy).
Hypothesis Hpolicies : ∀ p, refines view (policies p) (policies' p).

Lemma refines_ban `{RefinesLifecycle S view} node r replace :
  refines view (ban_operation policies node r replace) (ban_operation policies' node r replace).
Proof.
  unfold ban_operation. apply refines_bind; [apply rf_RequireNode|]. intros _.
  apply refines_bind; [by apply refines_manual|]. intros res.
  apply refines_bind; [apply rf_FindProjection|]. intros [p|]; [|apply refines_fail].
  apply refines_bind; [apply refines_finalize; [apply _|done]|]. intros. apply refines_ret.
Qed.

Lemma refines_sweep `{RefinesLifecycle S view} node now :
  refines view (expire_operation policies node now) (expire_operation policies' node now).
Proof.
  unfold expire_operation. apply refines_bind; [by apply refines_expire|]. intros res.
  apply refines_bind; [apply refines_finalize; [apply _|done]|]. intros. apply refines_ret.
Qed.

Lemma refines_policy `{RefinesPolicy S view} req :
  refines view (policy_operation policies req) (policy_operation policies' req).
Proof.
  unfold policy_operation. apply refines_bind; [apply rf_Replace|]. intros [[rev snap] changed].
  destruct changed; cbn [negb]; [|apply refines_ret].
  apply refines_bind; [unfold MaterializeNodeTargets, MaterializeTargets|].
  - apply refines_bind; [apply refines_wrap, rf_ListProjections|]. intros ps.
    destruct (IsZero _); [apply refines_fail|]. apply refines_bind; [apply refines_lift|]. intros _.
    apply refines_bind; [|intros; apply refines_ret].
    apply refines_map. intros key. by apply refines_materialize; [apply _|].
  - intros cs. apply refines_bind; [apply rf_ResetPolicy|]. intros _.
    apply refines_bind; [apply rf_PolicyAudit|]. intros _. apply refines_ret.
Qed.
End operations.

(** ** The tables refine themselves *)
Lemma refines_id {A} (m : ST db A) : refines id m m.
Proof. by intros s a s' H. Qed.
#[export] Instance tables_projection : RefinesProjection (id : db → db).
Proof. split; intros; apply refines_id. Qed.
#[export] Instance tables_automatic : RefinesAutomatic (id : db → db).
Proof. split; [apply tables_projection|..]; intros; apply refines_id. Qed.
#[export] Instance tables_desired : RefinesDesired (id : db → db).
Proof. split; [apply tables_projection|..]; intros; apply refines_id. Qed.
#[export] Instance tables_lifecycle : RefinesLifecycle (id : db → db).
Proof. split; [apply tables_desired|..]; intros; apply refines_id. Qed.
#[export] Instance tables_policy : RefinesPolicy (id : db → db).
Proof. split; [apply tables_desired|..]; intros; apply refines_id. Qed.

(** ** A store with failures: each call consumes one verdict of an oracle and
    fails on [false] *)
Definition faulty_store : Type := db * list bool.
Definition faulty {A} (m : ST db A) : ST faulty_store A := λ '(d, oracle),
  match oracle with
  | false :: rest => (Err (Errorf "database is locked"), (d, rest))
  | true :: rest => let '(r, d') := m d in (r, (d', rest))
  | [] => let '(r, d') := m d in (r, (d', []))
  end.
Lemma faulty_refines {A} (m : ST db A) : refines fst (faulty m) m.
Proof.
  intros [d [|[] oracle]] a s'; cbn; [| |done]; destruct (m d) as [r d'] eqn:E; by intros [= -> <-].
Qed.
#[export] Instance faulty_projection : ProjectionTransaction faulty_store := {|
  ListActiveDecisions n t := faulty (uow_ListActiveDecisions n t);
  FindDecisionProjection n t := faulty (uow_FindDecisionProjection n t);
  PutDecisionProjection p at_ := faulty (uow_PutProjection p at_)
|}.
#[export] Instance faulty_automatic : AutomaticTransaction faulty_store := {|
  InsertAutomaticDecision v := faulty (uow_InsertAutomaticDecision v);
  at_FindDecisionByID id := faulty (uow_FindDecisionByID id);
  FindActiveAutomaticDecision n r t := faulty (uow_FindActiveAutomaticDecision n r t);
  SuppressAutomaticDecision id at_ := faulty (uow_SuppressAutomaticDecision id at_);
  AppendAutomaticCreatedAudit a := faulty (AppendAutomaticCreatedAudit a);
  AppendAutomaticSuppressedAudit a := faulty (AppendAutomaticSuppressedAudit a)
|}.
#[export] Instance faulty_desired : DesiredStateTransaction faulty_store := {|
  FindTargetEnforcementIntent n t := faulty (uow_FindTargetEnforcementIntent n t);
  TargetEnforcementGenerationFloor n t := faulty (uow_TargetEnforcementGenerationFloor n t);
  PutTargetEnforcementIntent i := faulty (uow_PutTargetEnforcementIntent i);
  ResetTargetReconcileState n t g at_ := faulty (uow_ResetTargetReconcileState n t g at_);
  AdvanceSnapshotRevision := faulty uow_AdvanceSnapshotRevision
|}.
#[export] Instance faulty_lifecycle : LifecycleTransaction faulty_store := {|
  RequireNodeIdentity n := faulty (uow_RequireNodeIdentity n);
  InsertManualDecision v := faulty (uow_InsertManualDecision v);
  lt_FindDecisionByID id := faulty (uow_FindDecisionByID id);
  FindActiveManualDecision n t := faulty (uow_FindActiveManualDecision n t);
  RevokeActiveManualDecision id at_ := faulty (uow_RevokeActiveManualDecision id at_);
  ExpireDueActiveDecisions n now := faulty (uow_ExpireDueActiveDecisions n now);
  AppendDecisionLifecycleAudit a := faulty (AppendDecisionLifecycleAudit a)
|}.
#[export] Instance faulty_refines_projection : RefinesProjection (fst : faulty_store → db).
Proof. split; intros; apply faulty_refines. Qed.
#[export] Instance faulty_refines_automatic : RefinesAutomatic (fst : faulty_store → db).
Proof. split; [apply faulty_refines_projection|..]; intros; apply faulty_refines. Qed.
#[export] Instance faulty_refines_desired : RefinesDesired (fst : faulty_store → db).
Proof. split; [apply faulty_refines_projection|..]; intros; apply faulty_refines. Qed.
#[export] Instance faulty_refines_lifecycle : RefinesLifecycle (fst : faulty_store → db).
Proof. split; [apply faulty_refines_desired|..]; intros; apply faulty_refines. Qed.
