(* ===== verification/DecisionProofs.v ===== *)
(** * Correctness of the transactional decision rules

    The invariant of the decision tables: the rows form a valid history (the
    invariant of the in-memory service) and every target with a decision has
    the projection its rows call for. Each rule keeps it over the modelled
    tables, hence over every store that refines them. *)

From S2P Require Import Prelude GoStd Netip Identity CoreModel Enforcement PolicyResolution.
From S2P Require Import Projection MemoryService DecisionTx DecisionStore Refinement.

(** ** Microsecond times *)
Lemma us_alt t :
  us t = t - (t - unix_to_internal * second) mod microsecond.
Proof. unfold us, UnixMicro. pose proof (Z.div_mod (t - unix_to_internal * second) microsecond). unfold microsecond in *. lia. Qed.

Lemma us_le t : us t ≤ t.
Proof.
  rewrite us_alt. pose proof (Z.mod_pos_bound (t - unix_to_internal * second) microsecond).
  unfold microsecond in *. lia.
Qed.

Lemma us_mono t u : t ≤ u → us t ≤ us u.
Proof.
  intros H. unfold us, UnixMicro.
  pose proof (Z.div_le_mono (t - unix_to_internal * second) (u - unix_to_internal * second) microsecond).
  unfold microsecond in *. lia.
Qed.

Lemma us_idem t : us (us t) = us t.
Proof.
  unfold us at 1 3. f_equal. f_equal. unfold us, UnixMicro.
  rewrite Z.add_simpl_l, Z.div_mul; [done|unfold microsecond; lia].
Qed.

Lemma us_positive t : 0 < UnixMicro t → 0 < us t.
Proof. unfold us, unix_to_internal, second, microsecond. lia. Qed.

Definition us_time (t : time) : Prop := us t = t.
Record us_row (r : Decision) : Prop := {
  ur_created : us_time (d_CreatedAt r);
  ur_expires : ∀ e, d_ExpiresAt r = Some e → us_time e;
  ur_dated : dated r;
  ur_count : 0 ≤ d_SuppressedCount r ≤ max_int64
}.

Lemma decision_row_valid v :
  valid_decision v → d_State v = DecisionActive → 0 < UnixMicro (d_CreatedAt v) →
  valid_decision (decision_row v) ∧ us_row (decision_row v).
Proof.
  intros Hv Hs Hc. pose proof (us_positive _ Hc) as Hp.
  pose proof (Decision_Validate_common _ Hv) as [H1 H2 H3 H4 H5 H6 H7 H8]. split.
  - apply Decision_Validate_iff. split; [|by apply form_active].
    split; cbn; try done; [lia|by apply us_mono|by apply us_mono|].
    intros e He. destruct (d_ExpiresAt v) as [e'|] eqn:E; [|done]. injection He as <-.
    apply us_mono, H8. done.
  - split; cbn; [apply us_idem| |done|unfold max_int64; lia].
    intros e He. destruct (d_ExpiresAt v) as [e'|]; [|done]. injection He as <-. apply us_idem.
Qed.

(** ** The invariant *)
Definition rows_for (n : NodeID) (t : Prefix) (rows : list Decision) : list Decision :=
  base.filter (λ r, d_NodeID r = n ∧ d_CanonicalTarget r = t) rows.

Record rows_ok (d : db) : Prop := {
  ro_service : service_ok (db_decisions d);
  ro_rows : Forall us_row (db_decisions d)
}.

Definition projection_current (d : db) (k : NodeID * Prefix) : Prop :=
  match db_projections d !! k with
  | Some p => p = projection_spec k.1 k.2 (bp_Revision p) (rows_for k.1 k.2 (db_decisions d)) ∧
              1 ≤ bp_Revision p ≤ max_int64
  | None => rows_for k.1 k.2 (db_decisions d) = []
  end.

Definition projections_except (K : NodeID * Prefix → Prop) (d : db) : Prop :=
  ∀ k, ¬ K k → projection_current d k.
(** What holds of a stored projection even while it is stale. *)
Definition projections_keyed (d : db) : Prop :=
  ∀ k p, db_projections d !! k = Some p →
    projection_key p = k ∧ 1 ≤ bp_Revision p ≤ max_int64 ∧ Projection_Validate p = Ok tt.

Record db_inv_except (K : NodeID * Prefix → Prop) (d : db) : Prop := {
  die_rows : rows_ok d;
  die_projections : projections_except K d;
  die_keyed : projections_keyed d
}.
Definition db_inv : db → Prop := db_inv_except (λ _, False).
(** Row numbers stay below the counter's width. *)
Definition db_small (d : db) : Prop := Z.of_nat (length (db_decisions d)) ≤ max_uint64.

(** The projection depends on the states and expiries only. *)
Definition same_shape (r r' : Decision) : Prop :=
  d_State r' = d_State r ∧ d_ExpiresAt r' = d_ExpiresAt r ∧
  d_NodeID r' = d_NodeID r ∧ d_CanonicalTarget r' = d_CanonicalTarget r.

Lemma projection_spec_shape n t rev rows rows' :
  Forall2 same_shape rows rows' → projection_spec n t rev rows' = projection_spec n t rev rows.
Proof.
  intros Hf. assert (Forall2 same_shape (active rows) (active rows')) as Ha.
  { induction Hf as [|r r' rows rows' Hr Hf IH]; [constructor|]. rewrite !active_cons.
    unfold is_active. destruct Hr as (Hs & He & Hn & Ht). rewrite Hs.
    case_bool_decide; [constructor; [by split_and!|done]|done]. }
  unfold projection_spec, effective_until.
  assert (length (active rows') = length (active rows)) as -> by (symmetry; by eapply Forall2_length).
  assert (all_finite (active rows') = all_finite (active rows)) as ->.
  { unfold all_finite. clear Hf. induction Ha as [|r r' ? ? (_ & He & _) _ IH]; cbn; [done|]. by rewrite He, IH. }
  assert (latest_of (active rows') = latest_of (active rows)) as ->.
  { unfold latest_of. clear Hf. induction Ha as [|r r' ? ? (_ & He & _) _ IH]; cbn; [done|]. by rewrite He, IH. }
  assert (bool_decide (active rows' = []) = bool_decide (active rows = [])) as ->; [|done].
  apply bool_decide_ext. destruct Ha; split; done.
Qed.

Lemma rows_for_shape n t rows rows' :
  Forall2 same_shape rows rows' → Forall2 same_shape (rows_for n t rows) (rows_for n t rows').
Proof.
  induction 1 as [|r r' rows rows' Hr Hf IH]; [constructor|]. unfold rows_for in *.
  rewrite !filter_cons. destruct Hr as (Hs & He & Hn & Ht). rewrite Hn, Ht.
  case_decide; [constructor; [by split_and!|done]|done].
Qed.

(** What ListActiveDecisions returns carries the same projection as all the
    rows of the target. *)
Lemma projection_spec_listed n t rev rows :
  projection_spec n t rev (sort_by d_ID (base.filter (active_for n t) rows)) =
  projection_spec n t rev (rows_for n t rows).
Proof.
  rewrite (projection_spec_perm _ _ _ _ _ (sort_by_perm d_ID _)).
  assert (active (base.filter (active_for n t) rows) = active (rows_for n t rows)) as Ha.
  { unfold active, rows_for. rewrite !list_filter_filter. apply list_filter_iff. intros r.
    unfold is_active, active_for. rewrite bool_decide_true_iff. tauto. }
  unfold projection_spec. by rewrite Ha.
Qed.

(** ** Rebuilding a projection *)
Lemma validate_rows_ok rows : Forall valid_decision rows → validate_rows rows = Ok tt.
Proof. induction 1 as [|r rows Hr _ IH]; cbn; [done|]. unfold valid_decision in Hr. by rewrite Hr, IH. Qed.

Lemma sort_by_Forall {A} (key : A → string) (P : A → Prop) l : Forall P l → Forall P (sort_by key l).
Proof. by rewrite (sort_by_perm key l). Qed.

Lemma listed_rows n t rows :
  Forall valid_decision rows → Forall us_row rows →
  let listed := sort_by d_ID (base.filter (active_for n t) rows) in
  Forall (owned_by n t) listed ∧ Forall us_row listed.
Proof.
  intros Hv Hu. split; apply sort_by_Forall, Forall_forall; intros r [Hr Hin]%list_elem_of_filter.
  - rewrite Forall_forall in Hv. destruct Hr as (? & ? & _). split; [by apply Hv|done].
  - rewrite Forall_forall in Hu. by apply Hu.
Qed.

Lemma projection_row_spec n t rev rows :
  Forall valid_decision rows → Forall us_row rows →
  projection_row (projection_spec n t rev rows) = projection_spec n t rev rows.
Proof.
  intros Hv Hu. unfold projection_spec. case_bool_decide as Ha; [done|].
  unfold projection_row; cbn. f_equal. unfold effective_until.
  destruct (all_finite (active rows)) eqn:Hf; [|done]. cbn. f_equal.
  rewrite Forall_forall in Hv, Hu.
  destruct (latest_of_attained (active rows)) as (r & [_ Hin]%list_elem_of_filter & He); [done..| |].
  - intros r e [_ Hin]%list_elem_of_filter. apply expiry_pos; [by apply Hv|]. by destruct (Hu r Hin).
  - by apply (ur_expires r (Hu r Hin)).
Qed.

Lemma same_content_eq c p :
  sameProjectionContent c p = true → bp_Revision c = bp_Revision p → c = p.
Proof.
  unfold sameProjectionContent. destruct c as [n t s k e r], p as [n' t' s' k' e' r']; cbn.
  intros H ->. destruct (_ || _) eqn:Hb in H; [done|]. gobool. unfold TimeEqual in H.
  destruct_and?. destruct e, e'; gobool; try done; repeat f_equal; try done;
    match goal with H : ¬ _ ≠ _ |- _ => apply dec_stable in H end; done.
Qed.

Record rebuilt (n : NodeID) (t : Prefix) (force : bool) (d : db) (p : DesiredBanProjection)
    (changed : bool) (d' : db) : Prop := {
  rb_content : p = projection_spec n t (bp_Revision p) (rows_for n t (db_decisions d));
  rb_revision : bp_Revision p =
    match db_projections d !! (n, t) with
    | Some c => if changed then bp_Revision c + 1 else bp_Revision c
    | None => 1
    end;
  rb_bound : 1 ≤ bp_Revision p ≤ max_int64;
  rb_forced : force = true → changed = true;
  rb_state : d' = if changed then set_projections d (<[(n, t) := p]> (db_projections d)) else d;
  rb_stored : db_projections d' !! (n, t) = Some p
}.

Lemma run_find_projection n t d :
  projections_keyed d →
  uow_FindDecisionProjection n t d = (Ok (db_projections d !! (n, t)), d).
Proof.
  intros Hk. unfold uow_FindDecisionProjection. run.
  destruct (db_projections d !! (n, t)) as [p|] eqn:Hp; [|done].
  destruct (Hk _ _ Hp) as (_ & _ & Hv). by rewrite Hv.
Qed.

Lemma run_list_active n t d :
  rows_ok d →
  uow_ListActiveDecisions n t d =
    (Ok (sort_by d_ID (base.filter (active_for n t) (db_decisions d))), d).
Proof.
  intros [[Hv _ _] Hu]. unfold uow_ListActiveDecisions. run.
  rewrite validate_rows_ok; [done|].
  apply sort_by_Forall, Forall_forall. intros r [_ Hin]%list_elem_of_filter.
  rewrite Forall_forall in Hv. by apply Hv.
Qed.

Lemma run_aggregate n t rev d :
  rows_ok d → db_small d → isLowerHex128 n = true → canonical t → rev ≠ 0 →
  AggregateProjection n t rev (sort_by d_ID (base.filter (active_for n t) (db_decisions d))) =
    Ok (projection_spec n t rev (rows_for n t (db_decisions d))).
Proof.
  intros [[Hv _ _] Hu] Hsmall Hn Ht Hr.
  destruct (listed_rows n t (db_decisions d) Hv Hu) as [Ho Hlu].
  rewrite AggregateProjection_eq; [by rewrite projection_spec_listed|done..| |].
  - eapply Forall_impl; [exact Hlu|]. by intros r [].
  - rewrite (Permutation_length (sort_by_perm _ _)). unfold db_small in Hsmall.
    pose proof (length_filter (active_for n t) (db_decisions d)). lia.
Qed.

Lemma projection_spec_key n t rev rows : projection_key (projection_spec n t rev rows) = (n, t).
Proof. unfold projection_spec. by case_bool_decide. Qed.
Lemma projection_spec_revision n t rev rows : bp_Revision (projection_spec n t rev rows) = rev.
Proof. unfold projection_spec. by case_bool_decide. Qed.
Lemma projection_spec_with n t rev rev' rows :
  with_Revision (projection_spec n t rev rows) rev' = projection_spec n t rev' rows.
Proof. unfold projection_spec. by case_bool_decide. Qed.

Lemma projection_spec_valid n t rev d :
  rows_ok d → db_small d → isLowerHex128 n = true → canonical t → rev ≠ 0 →
  Projection_Validate (projection_spec n t rev (rows_for n t (db_decisions d))) = Ok tt.
Proof.
  intros Hro Hsm Hn Ht Hr. pose proof (run_aggregate n t rev d Hro Hsm Hn Ht Hr) as Ha.
  by apply AggregateProjection_owned in Ha as (_ & ? & _).
Qed.

Lemma rows_for_Forall (P : Decision → Prop) n t rows : Forall P rows → Forall P (rows_for n t rows).
Proof. intros H. apply Forall_forall. intros r [_ Hin]%list_elem_of_filter. rewrite Forall_forall in H. by apply H. Qed.

(** Storing the projection that the rows call for, at a higher revision. *)
Lemma run_put_projection n t rev at_ d :
  rows_ok d → db_small d → isLowerHex128 n = true → canonical t → rev ≠ 0 → at_ ≠ 0 →
  (∀ c, db_projections d !! (n, t) = Some c → bp_Revision c < rev) →
  let p := projection_spec n t rev (rows_for n t (db_decisions d)) in
  uow_PutProjection p at_ d = (Ok tt, set_projections d (<[(n, t) := p]> (db_projections d))).
Proof.
  intros Hro Hsm Hn Ht Hr Hat Hlt p. unfold uow_PutProjection, p.
  rewrite projection_spec_valid by done. cbn [wrap]. run.
  assert (IsZero at_ = false) as -> by (unfold IsZero; by gobool). run.
  destruct Hro as [[Hv _ _] Hu].
  rewrite projection_row_spec by by apply rows_for_Forall.
  rewrite projection_spec_key, projection_spec_revision.
  destruct (db_projections d !! (n, t)) as [c|] eqn:Hc; [|done].
  specialize (Hlt c eq_refl). rewrite bool_decide_false.
  - rewrite (proj2 (Z.leb_gt _ _) Hlt). done.
  - intros ->. rewrite projection_spec_revision in Hlt. lia.
Qed.

Lemma rebuild_spec n t at_ force d :
  rows_ok d → projections_keyed d → db_small d → isLowerHex128 n = true → canonical t → at_ ≠ 0 →
  (∃ p changed d',
    rebuildProjection n t at_ force d = (Ok (p, changed), d') ∧ rebuilt n t force d p changed d') ∨
  (∃ c e, db_projections d !! (n, t) = Some c ∧ max_int64 ≤ bp_Revision c ∧
    rebuildProjection n t at_ force d = (Err e, d)).
Proof.
  intros Hro Hk Hsm Hn Ht Hat.
  unfold rebuildProjection. cbn [FindDecisionProjection ListActiveDecisions PutDecisionProjection uow_projection].
  erewrite bind_step by by apply run_find_projection.
  erewrite bind_step by by apply run_list_active.
  destruct (db_projections d !! (n, t)) as [c|] eqn:Hc.
  - destruct (Hk _ _ Hc) as (Hkey & Hrev & _).
    rewrite run_aggregate by (done || lia). run.
    destruct (negb force && _) eqn:Hsame.
    { left. gobool. destruct Hsame as [-> Hsame].
      apply same_content_eq in Hsame; [|by rewrite projection_spec_revision].
      eexists c, false, d. split; [done|]. by split; rewrite ?Hc; try lia. }
    destruct (Z.leb_spec max_int64 (bp_Revision c)); [right; eauto|left].
    rewrite projection_spec_with.
    erewrite bind_step; [|apply run_put_projection; try done; [lia|]].
    2:{ intros c' Hc'. rewrite Hc in Hc'. injection Hc' as <-. lia. }
    eexists _, true, _. split; [done|]. split; rewrite ?projection_spec_revision, ?Hc; try (done || lia).
    cbn. by rewrite lookup_insert_eq.
  - left. rewrite run_aggregate by done. run. assert (1 ≤ max_int64) by done.
    erewrite bind_step; [|apply run_put_projection; try done; by rewrite Hc].
    eexists _, true, _. split; [done|]. split; rewrite ?projection_spec_revision, ?Hc; try (done || lia).
    cbn. by rewrite lookup_insert_eq.
Qed.

Lemma rebuild_inv n t at_ force d p changed d' :
  rows_ok d → projections_keyed d → db_small d → isLowerHex128 n = true → canonical t → at_ ≠ 0 →
  rebuildProjection n t at_ force d = (Ok (p, changed), d') → rebuilt n t force d p changed d'.
Proof.
  intros. destruct (rebuild_spec n t at_ force d) as [(? & ? & ? & E & ?)|(? & ? & _ & _ & E)]; [done..| |];
    rewrite E in *; by simplify_eq.
Qed.

(** A rebuild makes its own key current and touches no other. *)
Lemma rebuilt_except K n t force d p changed d' :
  db_inv_except K d → db_small d → isLowerHex128 n = true → canonical t →
  rebuilt n t force d p changed d' →
  db_inv_except (λ k, K k ∧ k ≠ (n, t)) d'.
Proof.
  intros [Hro Hpr Hk] Hsm Hn Ht [Hc Hr Hrev Hf Hst Hs].
  assert (db_decisions d' = db_decisions d) as Hdec by (rewrite Hst; by destruct changed).
  assert (∀ k, k ≠ (n, t) → db_projections d' !! k = db_projections d !! k) as Hother.
  { intros k Hne. rewrite Hst. destruct changed; [|done]. cbn. by rewrite lookup_insert_ne. }
  split.
  - destruct Hro. by split; rewrite Hdec.
  - intros k HK. unfold projection_current. rewrite Hdec.
    destruct (decide (k = (n, t))) as [->|Hne].
    + by rewrite Hs.
    + rewrite Hother by done. apply Hpr. tauto.
  - intros k q Hq. destruct (decide (k = (n, t))) as [->|Hne].
    + rewrite Hs in Hq. injection Hq as <-. split; [|split; [done|]].
      * rewrite Hc. apply projection_spec_key.
      * rewrite Hc. apply projection_spec_valid; [done..|lia].
    + apply Hk. by rewrite <- Hother.
Qed.

(** ** The row operations *)
Definition row_key (r : Decision) : NodeID * Prefix := (d_NodeID r, d_CanonicalTarget r).

Lemma db_inv_weaken (K K' : NodeID * Prefix → Prop) d :
  (∀ k, K k → K' k) → db_inv_except K d → db_inv_except K' d.
Proof. intros HK [? Hp ?]. split; [done| |done]. intros k Hk. apply Hp. auto. Qed.

(** Rewriting rows under the keys of [K] keeps what holds elsewhere. *)
Lemma set_decisions_except K d ds :
  db_inv_except K d → service_ok ds → Forall us_row ds →
  (∀ k, ¬ K k → Forall2 same_shape (rows_for k.1 k.2 (db_decisions d)) (rows_for k.1 k.2 ds)) →
  db_inv_except K (set_decisions d ds).
Proof.
  intros [Hro Hp Hk] Hok Hu Hsame. split; [by split|..|done].
  intros k HK. specialize (Hp k HK). specialize (Hsame k HK).
  unfold projection_current in *. cbn [db_projections db_decisions set_decisions].
  destruct (db_projections d !! k) as [p|].
  - destruct Hp as [Hp ?]. split; [|done]. by rewrite (projection_spec_shape _ _ _ _ _ Hsame).
  - rewrite Hp in Hsame. by inversion Hsame.
Qed.

Lemma same_shape_refl rows : Forall2 same_shape rows rows.
Proof. apply Forall_Forall2_diag, Forall_forall. intros r _. by split_and!. Qed.

Lemma rows_for_app n t xs ys : rows_for n t (xs ++ ys) = rows_for n t xs ++ rows_for n t ys.
Proof. apply filter_app. Qed.

Lemma rows_for_other n t (r : Decision) : row_key r ≠ (n, t) → rows_for n t [r] = [].
Proof.
  intros Hne. unfold rows_for. rewrite filter_cons, decide_False; [done|].
  intros [<- <-]. by destruct Hne.
Qed.

Lemma rows_for_update n t rows i r r' :
  rows !! i = Some r → row_key r ≠ (n, t) → row_key r' ≠ (n, t) →
  rows_for n t (<[i := r']> rows) = rows_for n t rows.
Proof.
  intros Hr Hne Hne'. rewrite (insert_take_drop _ _ _ (lookup_lt_Some _ _ _ Hr)).
  rewrite <- (take_drop_middle rows i r Hr) at 3.
  rewrite (cons_middle r'), (cons_middle r), !rows_for_app, !rows_for_other; done.
Qed.

Lemma inserted_except K v d d' :
  db_inv_except K d → valid_decision v → d_State v = DecisionActive → K (row_key v) →
  insert_decision v d = (Ok true, d') →
  d' = set_decisions d (db_decisions d ++ [decision_row v]) ∧
  row_conflicts (db_decisions d) (decision_row v) = false ∧ db_inv_except K d'.
Proof.
  intros Hinv Hv Ha HK. unfold insert_decision. run. destruct (Z.leb_spec (UnixMicro (d_CreatedAt v)) 0); [done|].
  destruct (row_conflicts _ _) eqn:Hc; [done|]. run. intros [= <-]. split_and!; [done|done|].
  destruct (decision_row_valid v) as [Hrv Hru]; [done..|].
  pose proof (die_rows _ _ Hinv) as [Hok Hu].
  unfold row_conflicts in Hc. gobool. destruct Hc as [Hid Hslot].
  apply set_decisions_except; [done|apply service_append; try done|by apply Forall_app; split; [|constructor]|].
  - by apply id_fresh.
  - intros s Hs. rewrite Hs in Hslot. by gobool.
  - intros k Hk. rewrite rows_for_app, (rows_for_other _ _ (decision_row v)), app_nil_r; [apply same_shape_refl|].
    intros He. apply Hk. destruct k as [n t]. cbn in He. by rewrite <- He.
Qed.

Lemma not_inserted v d d' :
  insert_decision v d = (Ok false, d') →
  d' = d ∧ row_conflicts (db_decisions d) (decision_row v) = true.
Proof.
  unfold insert_decision. run. destruct (_ <=? _); [done|]. destruct (row_conflicts _ _); run; [|done].
  by intros [= <-].
Qed.

Lemma insert_automatic_inv v d b d' :
  uow_InsertAutomaticDecision v d = (Ok b, d') → insert_decision v d = (Ok b, d').
Proof.
  unfold uow_InsertAutomaticDecision. destruct (Decision_Validate v); cbn [wrap]; run; [|done].
  by destruct (_ || _).
Qed.
Lemma insert_manual_inv v d b d' :
  uow_InsertManualDecision v d = (Ok b, d') → insert_decision v d = (Ok b, d').
Proof.
  unfold uow_InsertManualDecision. destruct (Decision_Validate v); cbn [wrap]; run; [|done].
  by destruct (_ || _).
Qed.

(** Replacing one row by an entry of the same identity. *)
Lemma updated_except K d i r r' :
  db_inv_except K d → db_decisions d !! i = Some r → valid_decision r' → us_row r' →
  d_ID r' = d_ID r → row_key r' = row_key r → slot r' = slot r ∨ slot r' = None →
  K (row_key r) ∨ same_shape r r' →
  db_inv_except K (set_decisions d (<[i := r']> (db_decisions d))).
Proof.
  intros Hinv Hr Hv Hu Hid Hkey Hslot HK. pose proof (die_rows _ _ Hinv) as [Hok Hus].
  apply set_decisions_except; [done|by eapply service_update|by apply Forall_insert|].
  intros k Hk. destruct HK as [HK|Hsh].
  - rewrite (rows_for_update _ _ _ _ r); [apply same_shape_refl|done|..]; rewrite ?Hkey; intros He;
      apply Hk; destruct k as [n t]; cbn in He; by rewrite <- He.
  - apply rows_for_shape. apply Forall2_same_length_lookup_2; [by rewrite length_insert|].
    intros j x y Hx Hy. destruct (decide (i = j)) as [<-|Hne].
    + rewrite list_lookup_insert_eq in Hy by by eapply lookup_lt_Some. by simplify_eq.
    + rewrite list_lookup_insert_ne in Hy by done. simplify_eq. by split_and!.
Qed.

Lemma terminal_us_row r s t reason : us_row r → us_row (with_terminal r s t reason).
Proof. intros []. by split. Qed.

(** ** Reading and auditing *)
Lemma run_read_row P `{∀ r, base.Decision (P r)} d :
  rows_ok d →
  read_row (snd <$> list_find P (db_decisions d)) d = (Ok (snd <$> list_find P (db_decisions d)), d).
Proof.
  intros [[Hv _ _] _]. destruct (list_find P (db_decisions d)) as [[i r]|] eqn:Hf; [|done]. cbn.
  apply list_find_Some in Hf as (Hr & _). eapply Forall_lookup_1 in Hv; [|done].
  unfold valid_decision in Hv. by rewrite Hv.
Qed.

Lemma audit_inv K id key n t d d' :
  db_inv_except K d → append_audit id key n t d = (Ok tt, d') →
  db_inv_except K d' ∧ db_decisions d' = db_decisions d ∧ db_projections d' = db_projections d.
Proof.
  intros [[Hs Hu] Hp Hk]. unfold append_audit. run. destruct (_ || _ || _); [done|].
  destruct (IsZero t); [done|]. destruct (existsb _ _); [done|]. intros [= <-]. by split_and!.
Qed.

(** ** Automatic decisions *)
Lemma suppressed_inv id at_ d row d' :
  db_inv d → uow_SuppressAutomaticDecision id at_ d = (Ok row, d') →
  ∃ i old, db_decisions d !! i = Some old ∧ d_ID old = id ∧
    d_Source old = DecisionSourceAutomatic ∧ d_State old = DecisionActive ∧
    row = suppressed_row old at_ ∧ d' = set_decisions d (<[i := row]> (db_decisions d)) ∧ db_inv d'.
Proof.
  intros Hinv. unfold uow_SuppressAutomaticDecision. run.
  destruct (list_find _ _) as [[i old]|] eqn:Hf; [|done].
  apply list_find_Some in Hf as (Hi & (Hid & Hs & Ha) & _).
  destruct (Z.leb_spec max_int64 (d_SuppressedCount old)); [done|]. run.
  destruct (Decision_Validate _) as [[]|] eqn:Hv; cbn [wrap]; run; [|done]. intros [= <- <-].
  exists i, old. split_and!; try done.
  pose proof (die_rows _ _ Hinv) as [_ Hu]. eapply Forall_lookup_1 in Hu; [|done].
  eapply updated_except; [done..| |done|done|by left|right; by split_and!].
  destruct Hu as [? ? ? ?]. split; cbn; try done. lia.
Qed.

Definition db_room (d : db) : Prop := Z.of_nat (length (db_decisions d)) < max_uint64.

(** Under the invariant an unforced rebuild of a target with rows changes
    nothing. *)
Lemma rebuild_unforced n t at_ d p :
  db_inv d → db_small d → isLowerHex128 n = true → canonical t →
  db_projections d !! (n, t) = Some p →
  rebuildProjection n t at_ false d = (Ok (p, false), d).
Proof.
  intros [Hro Hpr Hk] Hsm Hn Ht Hp. destruct (Hk _ _ Hp) as (_ & Hrev & _).
  pose proof (Hpr (n, t) (λ f, f)) as Hc. unfold projection_current in Hc. rewrite Hp in Hc.
  destruct Hc as [Hc _]. cbn [fst snd] in Hc.
  unfold rebuildProjection. cbn [FindDecisionProjection ListActiveDecisions PutDecisionProjection uow_projection].
  erewrite bind_step by by apply run_find_projection.
  erewrite bind_step by by apply run_list_active.
  rewrite Hp, run_aggregate by (done || lia). run. rewrite <- Hc.
  assert (sameProjectionContent p p = true) as ->; [|done].
  unfold sameProjectionContent. rewrite !bool_decide_true, Z.eqb_refl by done. cbn.
  destruct (bp_EffectiveUntil p); [|done]. unfold TimeEqual. apply Z.eqb_refl.
Qed.

Lemma row_has_projection d i r :
  db_inv d → db_decisions d !! i = Some r →
  ∃ p, db_projections d !! row_key r = Some p.
Proof.
  intros [_ Hp _] Hr. specialize (Hp (row_key r) (λ f, f)). unfold projection_current in Hp.
  destruct (db_projections d !! row_key r) as [p|]; [eauto|]. exfalso.
  assert (r ∈ rows_for (row_key r).1 (row_key r).2 (db_decisions d)) as Hin.
  { apply list_elem_of_filter. split; [done|]. by eapply list_elem_of_lookup_2. }
  rewrite Hp in Hin. by apply not_elem_of_nil in Hin.
Qed.

Lemma row_key_valid d i r :
  rows_ok d → db_decisions d !! i = Some r →
  isLowerHex128 (d_NodeID r) = true ∧ canonical (d_CanonicalTarget r).
Proof.
  intros [[Hv _ _] _] Hr. eapply Forall_lookup_1 in Hv; [|done].
  by apply Decision_Validate_common in Hv as [].
Qed.

Lemma id_unique ds i j r s :
  service_ok ds → ds !! i = Some r → ds !! j = Some s → d_ID r = d_ID s → i = j ∧ r = s.
Proof.
  intros [_ Hids _] Hr Hs He. assert (i = j) as ->; [|by simplify_eq].
  eapply (NoDup_lookup _ _ _ (d_ID r) Hids); rewrite list_lookup_fmap; [by rewrite Hr|rewrite Hs; cbn; congruence].
Qed.

Definition advanced (old : option DesiredBanProjection) (p : DesiredBanProjection) : Prop :=
  bp_Revision p = match old with Some c => bp_Revision c + 1 | None => 1 end.

Lemma rebuilt_closes n t d p d' :
  db_inv_except (λ k, k = (n, t)) d → db_small d → isLowerHex128 n = true → canonical t →
  rebuilt n t true d p true d' →
  db_inv d' ∧ advanced (db_projections d !! (n, t)) p ∧ db_projections d' !! (n, t) = Some p ∧
  db_decisions d' = db_decisions d.
Proof.
  intros Hinv Hsm Hn Ht Hb. split_and!.
  - eapply db_inv_weaken, rebuilt_except; [|done..]. cbn. tauto.
  - unfold advanced. by rewrite (rb_revision _ _ _ _ _ _ _ Hb).
  - apply Hb.
  - by rewrite (rb_state _ _ _ _ _ _ _ Hb).
Qed.

Lemma forced_rebuild n t at_ d p changed d' :
  db_inv_except (λ k, k = (n, t)) d → db_small d → isLowerHex128 n = true → canonical t → at_ ≠ 0 →
  rebuildProjection n t at_ true d = (Ok (p, changed), d') →
  db_inv d' ∧ advanced (db_projections d !! (n, t)) p ∧ db_projections d' !! (n, t) = Some p ∧
  db_decisions d' = db_decisions d.
Proof.
  intros Hinv Hsm Hn Ht Hat H. destruct (Hinv) as [? ? ?].
  apply rebuild_inv in H; [|done..]. assert (changed = true) as -> by by apply H.
  by apply rebuilt_closes in H.
Qed.

Lemma room_small d ds : db_room d → length ds = S (length (db_decisions d)) → db_small (set_decisions d ds).
Proof. unfold db_room, db_small. cbn [db_decisions set_decisions]. lia. Qed.

Lemma no_conflict rows row other s :
  row_conflicts rows row = false → slot row = Some s → other ∈ rows → slot other = Some s → False.
Proof.
  unfold row_conflicts. intros Hc Hs Hin Ho. rewrite Hs in Hc. gobool.
  destruct Hc as [_ Hc]. apply Hc, list_elem_of_omap. eauto.
Qed.

(** What a committed automatic trigger leaves. *)
Record automatic_recorded (r : AutomaticRequest) (d : db) (res : TransactionAutomaticResult)
    (d' : db) : Prop := {
  auto_inv : db_inv d';
  auto_created : tar_Created res = true →
    (∀ row, row ∈ db_decisions d →
       ¬ active_automatic (ar_NodeID r) (ar_RuleID r) (ar_Target r) row) ∧
    db_decisions d' = db_decisions d ++ [decision_row (automatic_candidate r)] ∧
    ∃ p, tar_Projection res = Some p ∧
      advanced (db_projections d !! (ar_NodeID r, ar_Target r)) p ∧
      db_projections d' !! (ar_NodeID r, ar_Target r) = Some p;
  auto_suppressed : tar_Created res = false →
    tar_Projection res = None ∧ db_projections d' = db_projections d ∧
    ∃ i old, db_decisions d !! i = Some old ∧
      active_automatic (ar_NodeID r) (ar_RuleID r) (ar_Target r) old ∧
      db_decisions d' = <[i := tar_Decision res]> (db_decisions d) ∧
      d_ID (tar_Decision res) = d_ID old ∧
      d_SuppressedCount (tar_Decision res) = d_SuppressedCount old + 1 ∧
      d_LastTriggeredAt old ≤ d_LastTriggeredAt (tar_Decision res)
}.

Lemma record_automatic_inv r d res d' :
  db_inv d → db_room d → RecordAutomaticInTransaction r d = (Ok res, d') →
  automatic_recorded r d res d'.
Proof.
  intros Hinv Hroom H. unfold RecordAutomaticInTransaction in H.
  destruct (ar_RuleVersion r) as [version|]; [|done]. destruct (ar_AlertID r) as [alert|]; [|done].
  destruct (_ || _); [done|].
  st_step H as [] d0 E. apply lift_Ok_inv in E as [Hv%wrap_Ok ->].
  pose proof (Decision_Validate_common _ Hv) as [_ Hn Ht _ Hat _ _ _]. cbn in Hn, Ht, Hat.
  st_step H as inserted d1 E. cbn [InsertAutomaticDecision uow_automatic] in E. apply insert_automatic_inv in E.
  destruct inserted; cbn [negb] in H.
  - assert (db_inv_except (λ k, k = (ar_NodeID r, ar_Target r)) d) as Hexc
      by (eapply db_inv_weaken; [|exact Hinv]; done).
    apply inserted_except with (K := λ k, k = (ar_NodeID r, ar_Target r)) in E as (-> & Hc & Hinv1); [|done..].
    st_step H as [p changed] d2 E.
    apply forced_rebuild in E as (Hinv2 & Hadv & Hp & Hd2); [|done|apply room_small; [done|]|done..].
    2:{ rewrite length_app. cbn. lia. }
    st_step H as [] d3 E. apply (audit_inv (λ _, False)) in E as (Hinv3 & Hd3 & Hp3); [|done].
    run. injection H as <- <-. split; [done| |done]. intros _.
    split_and!; [|by rewrite Hd3, Hd2|exists p; split_and!; [done|done|by rewrite Hp3]].
    intros row Hrow (? & ? & ? & ? & ?).
    eapply (no_conflict _ _ row _ Hc); [by apply (slot_automatic r)|done|by apply (slot_automatic r)].
  - apply not_inserted in E as [-> _].
    st_step H as byID d1 E. st_step H as current d2 E2.
    cbn [at_FindDecisionByID FindActiveAutomaticDecision uow_automatic] in E, E2.
    unfold uow_FindDecisionByID, uow_FindActiveAutomaticDecision in E, E2. run.
    rewrite run_read_row in E by apply Hinv. injection E as <- <-.
    rewrite run_read_row in E2 by apply Hinv. injection E2 as <- <-.
    destruct (list_find _ _) as [[i cur]|] eqn:Hf in H; cbn [fmap option_fmap option_map snd] in H; [|done].
    apply list_find_Some in Hf as (Hi & Hact & _).
    destruct (match _ with Some _ => _ | None => _ end); [done|]. destruct (_ <=? _); [done|].
    st_step H as row d1 E. cbn [SuppressAutomaticDecision uow_automatic] in E.
    apply suppressed_inv in E as (j & old & Hj & Hid & _ & _ & -> & -> & Hinv1); [|done].
    destruct (id_unique _ _ _ _ _ (ro_service _ (die_rows _ _ Hinv)) Hj Hi Hid) as [-> ->].
    destruct (row_has_projection d i cur Hinv Hi) as [p Hp].
    unfold row_key in Hp. destruct Hact as (Hno & Hrule & Hta & Hsrc & Hst). rewrite Hno, Hta in Hp.
    st_step H as [q changed] d2 E. rewrite (rebuild_unforced _ _ _ _ p) in E; [|done| |done..].
    2:{ unfold db_small, db_room in *. cbn. rewrite length_insert. lia. }
    injection E as <- <- <-.
    st_step H as [] d3 E. apply (audit_inv (λ _, False)) in E as (Hinv3 & Hd3 & Hp3); [|done].
    run. injection H as <- <-. split; [done|done|]. intros _.
    split_and!; [done|done|]. exists i, cur. split_and!; try done.
    cbn. destruct (Z.ltb_spec (us (ar_TriggeredAt r)) (d_LastTriggeredAt cur)); lia.
Qed.

(** C24: over any store that refines the tables, a committed automatic trigger
    keeps the decision tables consistent (valid rows, unique ids, one active
    row per slot, and for every target with rows the projection those rows call
    for). A created decision is appended and its target's projection advances
    by one revision; a suppressed one raises the count of the one active row by
    exactly one, never lowers its trigger time and leaves every projection
    untouched. *)
Theorem RecordAutomaticInTransaction_consistent {S} (view : S → db) `{RefinesAutomatic S view}
    r s res s' :
  db_inv (view s) → db_room (view s) → RecordAutomaticInTransaction r s = (Ok res, s') →
  automatic_recorded r (view s) res (view s').
Proof.
  intros Hinv Hroom Hr. apply (refines_automatic view) in Hr. by apply record_automatic_inv.
Qed.

(** ** Manual decisions *)
Definition replaced_row (old : Decision) (at_ : time) : Decision :=
  with_terminal old DecisionRevoked (us at_) EndReasonManualReplace.

Lemma revoked_inv K id at_ d row d' :
  db_inv_except K d → uow_RevokeActiveManualDecision id at_ d = (Ok row, d') →
  (∀ r, r ∈ db_decisions d → d_ID r = id → K (row_key r)) →
  ∃ i old, db_decisions d !! i = Some old ∧ d_ID old = id ∧
    row = replaced_row old at_ ∧ d' = set_decisions d (<[i := row]> (db_decisions d)) ∧
    db_inv_except K d'.
Proof.
  intros Hinv H HK. unfold uow_RevokeActiveManualDecision in H. run.
  destruct (list_find _ _) as [[i old]|] eqn:Hf; [|done]. run.
  apply list_find_Some in Hf as (Hi & (Hid & _) & _).
  destruct (Decision_Validate _) as [[]|] eqn:Hv; cbn [wrap] in H; run; [|done].
  injection H as <- <-. exists i, old. split_and!; try done.
  pose proof (die_rows _ _ Hinv) as [_ Hu]. eapply Forall_lookup_1 in Hu; [|done].
  eapply updated_except; [done..|by apply terminal_us_row|done|done|right; by apply slot_terminal|].
  left. apply HK; [by eapply list_elem_of_lookup_2|done].
Qed.

Lemma current_present d n t r p :
  db_inv d → db_projections d !! (n, t) = Some p → r ∈ db_decisions d → active_for n t r →
  bp_State p = BanProjectionPresent.
Proof.
  intros [_ Hp _] Hk Hin (Hn & Ht & Ha). specialize (Hp (n, t) (λ f, f)).
  unfold projection_current in Hp. rewrite Hk in Hp. destruct Hp as [-> _].
  unfold projection_spec. rewrite bool_decide_false; [done|]. intros Hnil.
  assert (r ∈ active (rows_for n t (db_decisions d))) as Hr.
  { apply list_elem_of_filter. split; [unfold is_active; by gobool|].
    by apply list_elem_of_filter. }
  cbn [fst snd] in Hnil. rewrite Hnil in Hr. by apply not_elem_of_nil in Hr.
Qed.

Definition manual_row (r : ManualRequest) : Decision := decision_row (manual_candidate r).

Lemma manual_row_active r : active_manual (mr_NodeID r) (mr_Target r) (manual_row r).
Proof. by split_and!. Qed.

Lemma active_manual_slot n t r : active_manual n t r → slot r = Some (n, t, None).
Proof. intros (<- & <- & Hs & Ha). unfold slot, is_active. by rewrite Hs, bool_decide_true. Qed.

(** What the last insertion of a manual ban leaves, whatever came before. *)
Record manual_outcome (r : ManualRequest) (d d' : db) : Prop := {
  mo_inv : db_inv d';
  mo_decisions : db_decisions d' = db_decisions d ++ [manual_row r];
  mo_advanced : ∃ p, db_projections d' !! (mr_NodeID r, mr_Target r) = Some p ∧
    bp_State p = BanProjectionPresent ∧ advanced (db_projections d !! (mr_NodeID r, mr_Target r)) p
}.

Lemma insert_and_rebuild r d d1 p changed d2 :
  db_inv_except (λ k, k = (mr_NodeID r, mr_Target r)) d → db_room d →
  valid_decision (manual_candidate r) →
  insert_decision (manual_candidate r) d = (Ok true, d1) →
  rebuildProjection (mr_NodeID r) (mr_Target r) (mr_CreatedAt r) true d1 = (Ok (p, changed), d2) →
  manual_outcome r d d2 ∧ row_conflicts (db_decisions d) (manual_row r) = false.
Proof.
  intros Hinv Hroom Hv E E2.
  pose proof (Decision_Validate_common _ Hv) as [_ Hn Ht _ Hat _ _ _]. cbn in Hn, Ht, Hat.
  apply inserted_except with (K := λ k, k = (mr_NodeID r, mr_Target r)) in E as (-> & Hc & Hinv1); [|done..].
  apply forced_rebuild in E2 as (Hinv2 & Hadv & Hp & Hd2); [|done|apply room_small; [done|]|done..].
  2:{ rewrite length_app. cbn. lia. }
  split; [|done]. split; [done|done|]. exists p. split_and!; [done| |done].
  eapply (current_present d2 _ _ (manual_row r)); [done..| |by split_and!].
  rewrite Hd2. cbn [db_decisions set_decisions]. set_solver.
Qed.

Lemma single_manual r d :
  db_inv d → manual_row r ∈ db_decisions d →
  ∀ row, row ∈ db_decisions d → active_manual (mr_NodeID r) (mr_Target r) row → row = manual_row r.
Proof.
  intros Hinv Hin row Hrow Ha. apply list_elem_of_lookup in Hin as [i Hi], Hrow as [j Hj].
  assert (i = j) as ->; [|by simplify_eq].
  eapply (slot_unique (db_decisions d)); [apply Hinv|done|done| |by apply active_manual_slot].
  apply active_manual_slot, manual_row_active.
Qed.

(** A committed manual ban keeps the decision tables consistent, its row is
    the only active manual row of its node and target, and the target's
    projection is present and one revision further. A previously active row is
    replaced only on request, kept as revoked, and returned as the previous
    decision. *)
Lemma RecordManualInTransaction_consistent r replace d res d' :
  db_inv d → db_room d → RecordManualInTransaction r replace d = (Ok res, d') →
  db_inv d' ∧ manual_row r ∈ db_decisions d' ∧
  (∀ row, row ∈ db_decisions d' →
     active_manual (mr_NodeID r) (mr_Target r) row → row = manual_row r) ∧
  (∃ p, db_projections d' !! (mr_NodeID r, mr_Target r) = Some p ∧
     bp_State p = BanProjectionPresent ∧
     advanced (db_projections d !! (mr_NodeID r, mr_Target r)) p) ∧
  (∀ old, old ∈ db_decisions d → active_manual (mr_NodeID r) (mr_Target r) old →
     replace = true ∧ mres_Previous res = Some (replaced_row old (mr_CreatedAt r)) ∧
     replaced_row old (mr_CreatedAt r) ∈ db_decisions d').
Proof.
  intros Hinv Hroom H. unfold RecordManualInTransaction in H.
  st_step H as [] d0 E. apply lift_Ok_inv in E as [Hv%wrap_Ok ->].
  assert (db_inv_except (λ k, k = (mr_NodeID r, mr_Target r)) d) as Hexc
    by (eapply db_inv_weaken; [|exact Hinv]; done).
  st_step H as inserted d1 E. cbn [InsertManualDecision uow_lifecycle] in E. apply insert_manual_inv in E.
  destruct inserted.
  - st_step H as [p changed] d2 E2.
    destruct (insert_and_rebuild r d d1 p changed d2) as [[Hinv2 Hd2 Hadv] Hc]; [done..|].
    st_step H as [] d3 E3. apply (audit_inv (λ _, False)) in E3 as (Hinv3 & Hd3 & Hp3); [|done].
    run. injection H as <- <-.
    assert (manual_row r ∈ db_decisions d3) by (rewrite Hd3, Hd2; set_solver).
    split_and!; [done|done|by apply single_manual|by rewrite Hp3|].
    intros old Hold Ha. exfalso. eapply (no_conflict _ _ old _ Hc); [|done|by apply active_manual_slot].
    apply active_manual_slot, manual_row_active.
  - apply not_inserted in E as [-> _].
    st_step H as current d1 E. cbn [FindActiveManualDecision uow_lifecycle] in E.
    unfold uow_FindActiveManualDecision in E. run.
    rewrite run_read_row in E by apply Hinv. injection E as <- <-.
    destruct (list_find _ _) as [[i cur]|] eqn:Hf in H; cbn [fmap option_fmap option_map snd] in H.
    2:{ st_step H as byID d1 E. destruct (negb _); done. }
    destruct replace; [|done]. apply list_find_Some in Hf as (Hi & Hact & _).
    st_step H as byID d1 E. cbn [lt_FindDecisionByID uow_lifecycle] in E. unfold uow_FindDecisionByID in E. run.
    rewrite run_read_row in E by apply Hinv. injection E as _ <-.
    destruct (negb _); [done|]. destruct (Before _ _); [done|].
    st_step H as previous d1 E. cbn [RevokeActiveManualDecision uow_lifecycle] in E.
    apply (revoked_inv (λ k, k = (mr_NodeID r, mr_Target r))) in E
      as (j & old & Hj & Hid & -> & -> & Hinv1); [|done|].
    2:{ intros x (k & Hk)%list_elem_of_lookup Hx.
        destruct (id_unique _ _ _ _ _ (ro_service _ (die_rows _ _ Hinv)) Hk Hi Hx) as [_ ->].
        unfold row_key. by destruct Hact as (-> & -> & _). }
    destruct (id_unique _ _ _ _ _ (ro_service _ (die_rows _ _ Hinv)) Hj Hi Hid) as [-> ->].
    st_step H as [] d2 E. eapply audit_inv in E as (Hinv2 & Hd2 & Hp2); [|done].
    st_step H as inserted d3 E. cbn [InsertManualDecision uow_lifecycle] in E. apply insert_manual_inv in E.
    destruct inserted; [|done]. cbn [negb] in H.
    st_step H as [p changed] d4 E4.
    destruct (insert_and_rebuild r d2 d3 p changed d4) as [[Hinv4 Hd4 Hadv] Hc]; [done| |done..|].
    { unfold db_room in *. rewrite Hd2. cbn. by rewrite length_insert. }
    run. injection H as <- <-. cbn [db_decisions set_decisions db_projections] in *.
    assert (manual_row r ∈ db_decisions d4) by (rewrite Hd4; set_solver).
    split_and!; [done|done|by apply single_manual|by rewrite Hp2 in Hadv|].
    intros old Hold Ha. apply list_elem_of_lookup in Hold as [k Hk].
    assert (i = k) as <-.
    { eapply (slot_unique (db_decisions d)); [apply Hinv|done|done| |]; by apply active_manual_slot. }
    simplify_eq. split_and!; [done|done|]. rewrite Hd4, Hd2.
    apply elem_of_app. left. apply list_elem_of_insert. by eapply lookup_lt_Some.
Qed.

(** ** Expiry *)
Definition affected (node : NodeID) (now : time) (rows : list Decision) (k : NodeID * Prefix) : Prop :=
  ∃ r, r ∈ rows ∧ due_row node now r = true ∧ row_key r = k.

Lemma expire_row_valid node now r :
  valid_decision r → valid_decision (expire_row node now r) ∧
  d_ID (expire_row node now r) = d_ID r ∧
  (slot (expire_row node now r) = slot r ∨ slot (expire_row node now r) = None).
Proof.
  intros Hr. unfold expire_row. destruct (due_row node now r) eqn:Hd; [|by auto].
  split_and!; [|done|right; by apply slot_terminal].
  unfold due_row in Hd. gobool. destruct Hd. by apply expired_valid.
Qed.

Lemma rows_for_cons n t r rows : rows_for n t (r :: rows) = rows_for n t [r] ++ rows_for n t rows.
Proof. apply (rows_for_app n t [r]). Qed.

Lemma rows_for_expire node now n t rows :
  ¬ affected node now rows (n, t) →
  rows_for n t (expire_row node now <$> rows) = rows_for n t rows.
Proof.
  intros Hna. induction rows as [|r rows IH]; [done|].
  rewrite fmap_cons, (rows_for_cons _ _ (expire_row _ _ r)), (rows_for_cons _ _ r), IH.
  2:{ intros (r' & Hin & H). apply Hna. exists r'. split; [by right|done]. }
  f_equal. unfold expire_row. destruct (due_row node now r) eqn:Hd; [|done].
  assert (row_key r ≠ (n, t)). { intros He. apply Hna. exists r. split; [left|done]. }
  rewrite (rows_for_other n t r), rows_for_other by done. done.
Qed.

Lemma expired_inv node now d due d' :
  db_inv d → uow_ExpireDueActiveDecisions node now d = (Ok due, d') →
  due = expire_row node now <$> base.filter (λ r, due_row node now r = true) (db_decisions d) ∧
  d' = set_decisions d (expire_row node now <$> db_decisions d) ∧
  db_inv_except (affected node now (db_decisions d)) d'.
Proof.
  intros Hinv H. unfold uow_ExpireDueActiveDecisions in H.
  st_step H as [] d0 E. assert (d0 = d) as -> by (destruct (is_empty node); [done|by injection E]).
  st_step H as [] d1 E1. unfold uow_RequireNodeIdentity in E1. run.
  destruct (is_empty node); [done|]. destruct (negb _); [done|]. run. injection E1 as <-.
  destruct (validate_rows _) as [[]|]; cbn [wrap] in H; run; [|done]. injection H as <- <-.
  split_and!; [done|done|]. pose proof (die_rows _ _ Hinv) as [Hok Hu].
  apply set_decisions_except.
  - eapply db_inv_weaken; [|exact Hinv]. done.
  - apply service_fmap; [|done]. apply expire_row_valid.
  - apply Forall_fmap. eapply Forall_impl; [done|]. intros r Hr. cbn. unfold expire_row.
    destruct (due_row node now r); [by apply terminal_us_row|done].
  - intros [n t] Hk. cbn. rewrite rows_for_expire by done. apply same_shape_refl.
Qed.

Lemma first_occurrences_keys seen ds :
  NoDup (first_occurrences seen ds) ∧
  (∀ k, k ∈ first_occurrences seen ds ↔ (k ∉ seen) ∧ k ∈ (row_key <$> ds)).
Proof.
  revert seen. induction ds as [|r ds IH]; intros seen; cbn [first_occurrences].
  { split; [constructor|]. set_solver. }
  fold (row_key r). case_bool_decide as Hin.
  - destruct (IH seen) as [Hn Hk]. split; [done|]. intros k. rewrite Hk, fmap_cons, elem_of_cons.
    split; [tauto|]. intros [Hns [->|Hk']]; [done|tauto].
  - destruct (IH ({[row_key r]} ∪ seen)) as [Hn Hk]. split.
    + constructor; [|done]. rewrite Hk. set_solver.
    + intros k. rewrite elem_of_cons, Hk, fmap_cons, elem_of_cons.
      destruct (decide (k = row_key r)) as [->|Hne]; [tauto|]. set_solver.
Qed.

Lemma audits_inv K now due d d' :
  db_inv_except K d →
  st_each (λ expired, AppendDecisionLifecycleAudit (expiredAudit expired now)) due d = (Ok tt, d') →
  db_inv_except K d' ∧ db_decisions d' = db_decisions d ∧ db_projections d' = db_projections d.
Proof.
  revert d. induction due as [|e due IH]; intros d Hinv H; cbn [st_each] in H; [run; by injection H as <-|].
  st_step H as [] d1 E. eapply audit_inv in E as (H1 & Hd1 & Hp1); [|done].
  destruct (IH d1 H1 H) as (H2 & Hd2 & Hp2). split_and!; [done|congruence..].
Qed.

Lemma rebuild_all at_ ks d ps d' :
  at_ ≠ 0 → NoDup ks → (∀ n t, (n, t) ∈ ks → isLowerHex128 n = true ∧ canonical t) →
  db_inv_except (.∈ ks) d → db_small d →
  st_map (λ '(node, target),
     '(projection, _) ← rebuildProjection node target at_ true; mret projection) ks d = (Ok ps, d') →
  db_inv d' ∧ db_decisions d' = db_decisions d ∧
  Forall2 (λ k p, projection_key p = k ∧ db_projections d' !! k = Some p ∧
                  advanced (db_projections d !! k) p) ks ps ∧
  (∀ k, k ∉ ks → db_projections d' !! k = db_projections d !! k).
Proof.
  intros Hat Hnd. revert d ps. induction Hnd as [|[n t] ks Hnin Hnd IH]; intros d ps Hks Hinv Hsm H;
    cbn [st_map] in H.
  { run. injection H as <- <-. split_and!; [|done|constructor|done].
    eapply db_inv_weaken; [|done]. intros k Hk. by apply not_elem_of_nil in Hk. }
  st_step H as p d1 E. st_step E as [p0 changed] d0 E0. run. injection E as -> ->.
  st_step H as qs d2 E2. run. injection H as <- <-.
  destruct (Hks n t) as [Hn Ht]; [left|]. destruct (Hinv) as [Hro _ Hk].
  apply rebuild_inv in E0; [|done..]. pose proof (rb_forced _ _ _ _ _ _ _ E0 eq_refl) as ->.
  pose proof (rb_state _ _ _ _ _ _ _ E0) as Hst.
  assert (db_decisions d1 = db_decisions d) as Hd1 by by rewrite Hst.
  assert (∀ k, k ≠ (n, t) → db_projections d1 !! k = db_projections d !! k) as Hoth.
  { intros k Hne. rewrite Hst. cbn. by rewrite lookup_insert_ne. }
  destruct (IH d1 qs) as (H1 & H2 & H3 & H4); [set_solver| |by unfold db_small in *; rewrite Hd1|done|].
  { eapply db_inv_weaken, rebuilt_except; [|done..]. cbn. intros k [Hin Hne]. set_solver. }
  split_and!; [done|congruence| |].
  - constructor.
    + split_and!.
      * rewrite (rb_content _ _ _ _ _ _ _ E0). apply projection_spec_key.
      * rewrite H4 by done. apply E0.
      * unfold advanced. by rewrite (rb_revision _ _ _ _ _ _ _ E0).
    + apply Forall2_same_length_lookup_2; [by eapply Forall2_length|]. intros i k q Hk1 Hq.
      destruct (Forall2_lookup_lr _ _ _ _ _ _ H3 Hk1 Hq) as (? & ? & Ha). split_and!; [done..|].
      rewrite Hoth in Ha; [exact Ha|]. intros ->. apply Hnin. by eapply list_elem_of_lookup_2.
  - intros k [Hne Hk1]%not_elem_of_cons. by rewrite H4, Hoth.
Qed.

Lemma affected_keys node now less rows k :
  affected node now rows k ↔
  k ∈ (row_key <$> sort_slice less
        (expire_row node now <$> base.filter (λ r, due_row node now r = true) rows)).
Proof.
  rewrite sort_slice_perm, <- list_fmap_compose, list_elem_of_fmap. unfold affected.
  setoid_rewrite list_elem_of_filter.
  assert (∀ r, row_key (expire_row node now r) = row_key r) as Hrk.
  { intros r. unfold expire_row. by destruct (due_row node now r). }
  cbn. setoid_rewrite Hrk. naive_solver.
Qed.

Lemma expire_row_done node now r : due_row node now (expire_row node now r) = false.
Proof.
  unfold expire_row. destruct (due_row node now r) eqn:Hd; [|done]. unfold due_row, MemoryService.due.
  apply andb_false_r.
Qed.

(** A committed expiry sweep keeps the decision tables consistent. It ends
    exactly the node's active rows whose expiry is not after the sweep time,
    leaves every other row as it was and no due row behind, returns the ended
    rows, and advances the projection of each affected target exactly once and
    of no other target. *)
Lemma ExpireInTransaction_consistent node now d res d' :
  db_inv d → db_small d → ExpireInTransaction node now d = (Ok res, d') →
  db_inv d' ∧ db_decisions d' = expire_row node now <$> db_decisions d ∧
  (∀ r, r ∈ db_decisions d' → due_row node now r = false) ∧
  er_Expired res ≡ₚ
    expire_row node now <$> base.filter (λ r, due_row node now r = true) (db_decisions d) ∧
  NoDup (projection_key <$> er_Projections res) ∧
  (∀ p, p ∈ er_Projections res →
     affected node now (db_decisions d) (projection_key p) ∧
     db_projections d' !! projection_key p = Some p ∧
     advanced (db_projections d !! projection_key p) p) ∧
  (∀ k, affected node now (db_decisions d) k → k ∈ (projection_key <$> er_Projections res)) ∧
  (∀ k, ¬ affected node now (db_decisions d) k → db_projections d' !! k = db_projections d !! k).
Proof.
  intros Hinv Hsm H. unfold ExpireInTransaction in H.
  destruct (IsZero now) eqn:Hz; [done|]. destruct (is_empty node); [done|].
  unfold IsZero in Hz. gobool.
  st_step H as due d1 E. cbn [ExpireDueActiveDecisions uow_lifecycle] in E.
  apply expired_inv in E as (-> & -> & Hinv1); [|done].
  st_step H as [] d2 E. eapply audits_inv in E as (Hinv2 & Hd2 & Hp2); [|done].
  st_step H as ps d3 E. run. injection H as <- <-. cbn [er_Expired er_Projections].
  set (ended := sort_slice _ _) in *. destruct (first_occurrences_keys ∅ ended) as [Hnd Hks].
  assert (∀ k, k ∈ first_occurrences ∅ ended ↔ affected node now (db_decisions d) k) as Hkeys.
  { intros k. rewrite Hks. unfold ended. rewrite <- affected_keys. set_solver. }
  apply rebuild_all in E as (Hinv3 & Hd3 & Hps & Hrest); [|done|done| | |].
  - assert (projection_key <$> ps = first_occurrences ∅ ended) as Hpk.
    { clear -Hps. induction Hps as [|k p ks ps (Hk & _) _ IH]; cbn; congruence. }
    cbn [db_decisions db_projections set_decisions] in *. split_and!.
    + done.
    + by rewrite Hd3, Hd2.
    + rewrite Hd3, Hd2. intros r (r' & -> & _)%list_elem_of_fmap. apply expire_row_done.
    + apply sort_slice_perm.
    + by rewrite Hpk.
    + intros p [i Hi]%list_elem_of_lookup. destruct (Forall2_lookup_r _ _ _ _ _ Hps Hi) as (k & Hk & <- & Hl & Ha).
      split_and!; [apply Hkeys; by eapply list_elem_of_lookup_2|done|by rewrite <- Hp2].
    + intros k Hk. rewrite Hpk. by apply Hkeys.
    + intros k Hk. rewrite Hrest by by rewrite Hkeys. by rewrite Hp2.
  - intros n t (r & Hin & _ & [= <- <-])%Hkeys. apply list_elem_of_lookup in Hin as [i Hi].
    by eapply row_key_valid; [apply Hinv|].
  - eapply db_inv_weaken; [|done]. intros k. apply Hkeys.
  - unfold db_small in *. rewrite Hd2. cbn. by rewrite length_fmap.
Qed.

(** ** Concrete tables *)
Definition empty_db (node : NodeID) : db := MkDb node [] ∅ ∅ ∅ [] 0 [] [] None [].
(** Tables with one decision and its projection at revision 1. *)
Definition one_row_db (r : Decision) : db :=
  set_projections (set_decisions (empty_db (d_NodeID r)) [r])
    {[ row_key r := projection_spec (d_NodeID r) (d_CanonicalTarget r) 1 [r] ]}.

Lemma one_row_inv r : valid_decision r → us_row r → db_inv (one_row_db r).
Proof.
  intros Hv Hu. pose proof (Decision_Validate_common _ Hv) as [_ Hn Ht _ _ _ _ _].
  assert (rows_for (d_NodeID r) (d_CanonicalTarget r) [r] = [r]) as Hrow.
  { unfold rows_for. by rewrite filter_cons, decide_True by done. }
  assert (rows_ok (one_row_db r)) as Hro.
  { split; [split|]; cbn; [by apply Forall_singleton|apply NoDup_singleton| |by apply Forall_singleton].
    destruct (slot r); [apply NoDup_singleton|apply NoDup_nil_2]. }
  assert (db_small (one_row_db r)) by done. assert (1 ≤ max_int64) by done.
  split; [done|..].
  - intros [n t] _. unfold projection_current, one_row_db.
    cbn [db_projections set_projections db_decisions set_decisions fst snd].
    destruct (decide (row_key r = (n, t))) as [He|Hne].
    + rewrite He, lookup_singleton_eq. injection He as <- <-.
      by rewrite projection_spec_revision, Hrow.
    + rewrite lookup_singleton_ne by done. by apply rows_for_other.
  - intros k p Hp. unfold one_row_db in Hp.
    cbn [db_projections set_projections] in Hp. apply lookup_singleton_Some in Hp as [<- <-]. rewrite projection_spec_revision.
    split; [apply projection_spec_key|]. split; [lia|].
    pose proof (projection_spec_valid (d_NodeID r) (d_CanonicalTarget r) 1 (one_row_db r)) as Hpv.
    unfold one_row_db in Hpv at 3. cbn [db_decisions set_decisions set_projections] in Hpv.
    rewrite Hrow in Hpv. by apply Hpv.
Qed.

Definition sample_db : db := one_row_db (sample_decision "m0" (Some (sample_time + minute))).
Lemma sample_db_inv : db_inv sample_db.
Proof.
  apply one_row_inv; [vm_compute; reflexivity|].
  split; [vm_compute; reflexivity| |vm_compute; reflexivity|vm_compute; split; discriminate].
  intros e [= <-]. vm_compute; reflexivity.
Qed.

Definition sample_trigger : AutomaticRequest :=
  MkAutomaticRequest "a1" (hashIdentity "dlv1_" []) (hashIdentity "evt1_" []) sample_node "ssh"
    (Some "v1") (Some "alert-1") sample_target (sample_time + second) None.

Lemma RecordAutomaticInTransaction_consistent_witness :
  ∃ res s', RecordAutomaticInTransaction sample_trigger (sample_db, [true; true]) = (Ok res, s') ∧
    tar_Created res = true ∧ db_inv s'.1.
Proof.
  assert (match (RecordAutomaticInTransaction sample_trigger (sample_db, [true; true])).1 with
          | Ok res => tar_Created res | Err _ => false end = true) as Hok
    by (vm_compute; reflexivity).
  destruct (RecordAutomaticInTransaction sample_trigger (sample_db, [true; true]))
    as [[res|e] s'] eqn:E; [|discriminate Hok].
  exists res, s'. split; [reflexivity|]. split; [exact Hok|].
  apply (RecordAutomaticInTransaction_consistent fst sample_trigger (sample_db, [true; true]) res s');
    [apply sample_db_inv|vm_compute; reflexivity|exact E].
Defined.
