(* ===== verification/DesiredState.v ===== *)
(** * Correctness of desired-state materialization (internal/decision/desired_state.go)

    FinalizeTargets over the modelled store with the managed-policy resolver:
    it brings the stored intent of every affected target to what its projection
    and the managed policy call for, numbers the changes, and advances the
    snapshot revision once when something changed. *)

From S2P Require Import Prelude GoStd Netip Identity CoreModel Enforcement PolicyResolution.
From S2P Require Import Projection MemoryService DecisionTx DecisionStore Refinement DecisionProofs.

(** ** The resolver reads the policy rows and changes nothing *)
Definition target_policy (r : ManagedPolicyTargetResolver) (p : DesiredBanProjection) (d : db)
    : result TargetPolicy := (ResolveTargetPolicy r p d).1.

Lemma run_resolver r p d : ResolveTargetPolicy r p d = (target_policy r p d, d).
Proof.
  unfold target_policy, ResolveTargetPolicy, mbind, st_bind, st_wrap. cbn [ReadManagedPolicy uow_reader].
  unfold uow_ReadManagedPolicy. run. destruct (loadManagedPolicyIntent _ _) as [[]|]; cbn [wrap]; [|done].
  unfold st_lift. by destruct (ResolvePolicy _).
Qed.

Definition same_policy_rows (d d' : db) : Prop :=
  db_allowlists d' = db_allowlists d ∧ db_protected d' = db_protected d.

Lemma target_policy_rows r p d d' :
  same_policy_rows d d' → target_policy r p d' = target_policy r p d.
Proof.
  intros [Ha Hp]. unfold target_policy, ResolveTargetPolicy, mbind, st_bind, st_wrap.
  cbn [ReadManagedPolicy uow_reader]. unfold uow_ReadManagedPolicy. run.
  unfold loadManagedPolicyIntent. rewrite Ha, Hp.
  destruct (_ ≫= _) as [[]|]; cbn [wrap]; [|done]. unfold st_lift. by destruct (ResolvePolicy _).
Qed.

(** ** Settled targets *)
(** The stored intent means what the stored projection and the policy call for. *)
Record settled_as (r : ManagedPolicyTargetResolver) (d : db) (key : NodeID * Prefix)
    (p : DesiredBanProjection) (policy : TargetPolicy) (i : NormalizedTargetEnforcementIntent) : Prop := {
  sa_projection : db_projections d !! key = Some p;
  sa_valid : Projection_Validate p = Ok tt;
  sa_policy : target_policy r p d = Ok policy;
  sa_good : good_policy policy;
  sa_intent : db_intents d !! key = Some i;
  sa_intent_valid : Intent_Validate i = Ok tt;
  sa_meaning : same_meaning i (base_intent p policy)
}.
Definition settled (r : ManagedPolicyTargetResolver) (d : db) (key : NodeID * Prefix) : Prop :=
  ∃ p policy i, settled_as r d key p policy i.

Lemma resolve_settled p policy i :
  Projection_Validate p = Ok tt → good_policy policy → Intent_Validate i = Ok tt →
  same_meaning i (base_intent p policy) → ResolveTarget p policy (Some i) = Ok (i, false).
Proof.
  intros Hp Hpol Hi Hm. pose proof Hi as Hi'. apply Intent_Validate_iff in Hi' as [].
  assert (i = with_Generation (base_intent p policy) (ti_Generation i)) as Hd.
  { rewrite <- (with_Generation_id i) at 1. by apply with_Generation_proper. }
  destruct Hpol as [Hs Hc]. unfold ResolveTarget. rewrite Hp. cbn [wrap mbind result_bind]. rewrite Hs.
  cbn [fail_if mbind result_bind].
  step_ok ltac:(apply fail_if_false; by destruct (tp_Coverage policy)).
  rewrite Hi. cbn [wrap mbind result_bind].
  step_ok ltac:(apply fail_if_false; gobool; rewrite Hd; done).
  rewrite Equivalent_with_Generation. unfold same_meaning in Hm. rewrite Hm.
  cbn [negb andb fail_if mbind result_bind]. rewrite <- Hd, Hi. done.
Qed.

(** A settled target stays as it is. *)
Lemma materialize_settled r key at_ d :
  settled r d key → materialize_one (ResolveTargetPolicy r) key at_ d = (Ok None, d).
Proof.
  intros (p & policy & i & [Hp Hpv Hpol Hg Hi Hiv Hm]). unfold materialize_one. destruct key as [n t].
  cbn [fst snd FindDecisionProjection FindTargetEnforcementIntent uow_desired uow_projection ds_projection].
  unfold uow_FindDecisionProjection, uow_FindTargetEnforcementIntent, st_wrap.
  unfold mbind, st_bind, st_get. rewrite Hp, Hpv. cbn [wrap]. unfold st_lift at 1. cbn.
  rewrite Hi, Hiv. cbn. rewrite run_resolver, Hpol. cbn [wrap].
  rewrite resolve_settled by done. done.
Qed.

(** ** One target *)
(** The write of one change. *)
Definition write_change (d : db) (key : NodeID * Prefix) (i : NormalizedTargetEnforcementIntent)
    (epoch : Z) (at_ : time) : db :=
  let d1 := set_intents d (<[key := i]> (db_intents d)) in
  set_target_reconcile d1
    (<[key := MkTargetRow (ti_Generation i) epoch "pending" 0 (us at_)]> (db_target_reconcile d)).

Record one_change (r : ManagedPolicyTargetResolver) (d : db) (key : NodeID * Prefix) (at_ : time)
    (c : TargetEnforcementChange) (d' : db) : Prop := {
  oc_intent : ∃ p policy i epoch,
    d' = write_change d key i epoch at_ ∧ settled_as r d' key p policy i ∧
    ti_Generation i = ch_Generation c;
  oc_key : (ch_NodeID c, ch_Target c) = key;
  oc_range : ch_Generation c ≤ max_int64;
  oc_newer : ∀ prev, db_intents d !! key = Some prev → ti_Generation prev < ch_Generation c;
  oc_newer_row : ∀ row, db_target_reconcile d !! key = Some row →
    trr_generation row < ch_Generation c
}.

Lemma find_intent_inv n t d prev d' :
  uow_FindTargetEnforcementIntent n t d = (Ok prev, d') → prev = db_intents d !! (n, t) ∧ d' = d.
Proof.
  unfold uow_FindTargetEnforcementIntent. run. destruct (db_intents d !! (n, t)) as [i|]; run.
  - destruct (Intent_Validate i); cbn [wrap]; run; [|done]. by intros [= <- <-].
  - by intros [= <- <-].
Qed.

Lemma floor_pure n t d : ∃ f, uow_TargetEnforcementGenerationFloor n t d = (Ok f, d).
Proof. unfold uow_TargetEnforcementGenerationFloor. run. eauto. Qed.

Lemma put_intent_inv i d d' :
  (∀ prev, db_intents d !! intent_key i = Some prev → ti_Generation prev < ti_Generation i) →
  uow_PutTargetEnforcementIntent i d = (Ok tt, d') →
  d' = set_intents d (<[intent_key i := intent_row i]> (db_intents d)).
Proof.
  intros Hnew. unfold uow_PutTargetEnforcementIntent.
  destruct (Intent_Validate i); cbn [wrap]; run; [|done]. destruct (_ <? _); [done|]. run.
  destruct (db_intents d !! intent_key i) as [prev|] eqn:Hp; [|by intros [= <-]].
  specialize (Hnew prev eq_refl). rewrite (proj2 (Z.ltb_lt _ _) Hnew). by intros [= <-].
Qed.

Lemma reset_inv n t g at_ d d' :
  uow_ResetTargetReconcileState n t g at_ d = (Ok tt, d') →
  (∀ row, db_target_reconcile d !! (n, t) = Some row → trr_generation row < g) ∧
  ∃ epoch, d' = set_target_reconcile d
    (<[(n, t) := MkTargetRow g epoch "pending" 0 (us at_)]> (db_target_reconcile d)).
Proof.
  unfold uow_ResetTargetReconcileState. destruct (_ || _); [done|]. destruct (_ || _); [done|]. run.
  destruct (db_target_reconcile d !! (n, t)) as [row|].
  - destruct (Z.ltb_spec (trr_generation row) g); [|done]. intros [= <-]. split; [|eauto].
    by intros ? [= <-].
  - intros [= <-]. split; [done|eauto].
Qed.

(** Projections of consistent tables carry stored times, so their intents do. *)
Lemma base_intent_row p policy g :
  projection_row p = p →
  intent_row (with_Generation (base_intent p policy) g) = with_Generation (base_intent p policy) g.
Proof.
  intros Hp. assert (us <$> bp_EffectiveUntil p = bp_EffectiveUntil p) as Hu.
  { rewrite <- Hp at 2. done. }
  unfold base_intent. case_bool_decide; [|done]. unfold intent_row; cbn. by rewrite Hu.
Qed.

Lemma base_intent_key p policy g :
  intent_key (with_Generation (base_intent p policy) g) = projection_key p.
Proof. unfold base_intent. by case_bool_decide. Qed.

Lemma inv_projection d key p :
  db_inv d → db_projections d !! key = Some p →
  projection_key p = key ∧ Projection_Validate p = Ok tt ∧ projection_row p = p.
Proof.
  intros [[[Hv _ _] Hu] Hp Hk] E. destruct (Hk _ _ E) as (? & _ & ?). split_and!; [done..|].
  specialize (Hp key (λ f, f)). unfold projection_current in Hp. rewrite E in Hp. destruct Hp as [-> _].
  by apply projection_row_spec; apply rows_for_Forall.
Qed.

Lemma write_change_settled r d key p policy g epoch at_ :
  db_projections d !! key = Some p → Projection_Validate p = Ok tt →
  target_policy r p d = Ok policy → good_policy policy → g ≠ 0 →
  let i := with_Generation (base_intent p policy) g in
  settled_as r (write_change d key i epoch at_) key p policy i.
Proof.
  intros Hp Hv Hpol Hg Hne i. split; try done.
  - by rewrite (target_policy_rows r p d).
  - unfold write_change. cbn [db_intents set_intents set_target_reconcile]. by rewrite lookup_insert_eq.
  - by apply base_intent_valid.
  - by apply Equivalent_iff.
Qed.

Lemma materialize_inv r key at_ d oc d' :
  db_inv d → materialize_one (ResolveTargetPolicy r) key at_ d = (Ok oc, d') →
  match oc with
  | None => d' = d ∧ settled r d key
  | Some c => one_change r d key at_ c d'
  end.
Proof.
  intros Hinv H. unfold materialize_one in H. destruct key as [n t]. cbn [fst snd] in H.
  st_step H as op d1 E. cbn in E. rewrite run_find_projection in E by apply Hinv. injection E as <- <-.
  destruct (db_projections d !! (n, t)) as [p|] eqn:Hp; [|done].
  destruct (inv_projection d (n, t) p Hinv Hp) as (Hkey & Hpv & Hrow).
  st_step H as previous d1 E. apply find_intent_inv in E as [-> ->].
  st_step H as policy d1 E. unfold st_wrap in E. rewrite run_resolver in E. injection E as Hpol%wrap_Ok <-.
  st_step H as [i changed] d1 E. apply lift_Ok_inv in E as [Hres%wrap_Ok ->].
  apply ResolveTarget_Ok in Hres as (_ & Hgood & Hiv & Hprev).
  destruct changed; cbn [negb] in H.
  2:{ run. injection H as <- <-. split; [done|]. destruct (db_intents d !! (n, t)) as [prev|] eqn:Hi; [|naive_solver].
      destruct Hprev as (Hv & Hch & ->). exists p, policy, prev. split; try done.
      unfold same_meaning. by destruct (Equivalent _ _). }
  assert (∃ g, i = with_Generation (base_intent p policy) g ∧
            ∀ prev, db_intents d !! (n, t) = Some prev → ti_Generation prev < g) as (g & -> & Hg).
  { destruct (db_intents d !! (n, t)) as [prev|].
    - destruct Hprev as (_ & _ & ->). eexists. split; [done|]. intros ? [= <-]. lia.
    - destruct Hprev as [_ ->]. by eexists. }
  st_step H as i d1 E0.
  assert (d1 = d ∧ ∃ g, i = with_Generation (base_intent p policy) g ∧
            ∀ prev, db_intents d !! (n, t) = Some prev → ti_Generation prev < g)
    as (-> & g' & -> & Hg').
  { destruct (db_intents d !! (n, t)) as [prev|].
    - run. injection E0 as <- <-. split; [done|]. by exists g.
    - st_step E0 as f d2 Ef. destruct (floor_pure n t d) as [f' Hf']. cbn in Ef. rewrite Hf' in Ef.
      injection Ef as <- <-. destruct f' as [f|]; [destruct (_ <=? _)|]; run; try done; injection E0 as <- <-;
        (split; [done|]); eexists; (split; [rewrite ?with_Generation_twice; done|done]). }
  destruct (Z.ltb_spec max_int64 (ti_Generation (with_Generation (base_intent p policy) g'))) as [|Hmax]; [done|].
  st_step H as [] d1 E. cbn [PutTargetEnforcementIntent uow_desired] in E.
  assert (g' ≠ 0) as Hg0.
  { unfold uow_PutTargetEnforcementIntent in E. destruct (Intent_Validate _) as [[]|] eqn:Hv; cbn [wrap] in E; run; [|done].
    apply Intent_Validate_iff in Hv as []. done. }
  apply put_intent_inv in E; rewrite base_intent_key, Hkey in *; [|done]. rewrite base_intent_row in E by done.
  st_step H as [] d2 E2. cbn [ResetTargetReconcileState uow_desired] in E2.
  apply reset_inv in E2 as [Hr [epoch ->]]. run. injection H as <- <-. subst d1.
  split; try done. exists p, policy, (with_Generation (base_intent p policy) g'), epoch.
  split_and!; [done| |done].
  by apply (write_change_settled r d (n, t) p policy g' epoch at_).
Qed.

(** ** All affected targets *)
Definition target_of (c : TargetEnforcementChange) : NodeID * Prefix := (ch_NodeID c, ch_Target c).

Record desired_frame (d d' : db) : Prop := {
  df_decisions : db_decisions d' = db_decisions d;
  df_projections : db_projections d' = db_projections d;
  df_policy : same_policy_rows d d';
  df_snapshot : db_snapshot d' = db_snapshot d
}.

#[export] Instance desired_frame_preorder : PreOrder desired_frame.
Proof.
  split; [intros d; by repeat split|]. intros a b c [? ? [? ?] ?] [? ? [? ?] ?].
  split; [congruence|congruence| |congruence]. split; congruence.
Qed.

Lemma db_inv_frame K d d' :
  db_decisions d' = db_decisions d → db_projections d' = db_projections d →
  db_inv_except K d → db_inv_except K d'.
Proof.
  intros Hd Hp [[Hs Hu] Hpr Hk]. split.
  - by split; rewrite Hd.
  - intros k HK. specialize (Hpr k HK). unfold projection_current in *. by rewrite Hp, Hd.
  - unfold projections_keyed. by rewrite Hp.
Qed.

Lemma settled_frame r d d' k :
  desired_frame d d' → db_intents d' !! k = db_intents d !! k → settled r d k → settled r d' k.
Proof.
  intros [_ Hp Hpol _] Hi (p & policy & i & []). exists p, policy, i.
  split; rewrite ?Hp, ?Hi, ?(target_policy_rows r p d); done.
Qed.

(** What a change says of the tables before and after. *)
Record change_ok (d d' : db) (c : TargetEnforcementChange) : Prop := {
  co_intent : ∃ i, db_intents d' !! target_of c = Some i ∧ ti_Generation i = ch_Generation c;
  co_retry : ∃ row, db_target_reconcile d' !! target_of c = Some row ∧
    trr_generation row = ch_Generation c ∧ trr_status row = "pending" ∧ trr_attempts row = 0;
  co_range : ch_Generation c ≤ max_int64;
  co_newer : ∀ prev, db_intents d !! target_of c = Some prev → ti_Generation prev < ch_Generation c;
  co_newer_row : ∀ row, db_target_reconcile d !! target_of c = Some row →
    trr_generation row < ch_Generation c
}.

Record materialized (r : ManagedPolicyTargetResolver) (ks : list (NodeID * Prefix)) (d : db)
    (cs : list TargetEnforcementChange) (d' : db) : Prop := {
  mz_frame : desired_frame d d';
  mz_settled : ∀ k, k ∈ ks → settled r d' k;
  mz_keys : ∀ c, c ∈ cs → target_of c ∈ ks;
  mz_nodup : NoDup (target_of <$> cs);
  mz_changes : ∀ c, c ∈ cs → change_ok d d' c;
  mz_intents : ∀ k, k ∉ target_of <$> cs → db_intents d' !! k = db_intents d !! k;
  mz_rows : ∀ k, k ∉ target_of <$> cs → db_target_reconcile d' !! k = db_target_reconcile d !! k
}.

Lemma one_change_frame r d key at_ c d' :
  one_change r d key at_ c d' →
  desired_frame d d' ∧ settled r d' key ∧ change_ok d d' c ∧
  (∀ k, k ≠ key → db_intents d' !! k = db_intents d !! k ∧
                  db_target_reconcile d' !! k = db_target_reconcile d !! k).
Proof.
  intros [(p & policy & i & epoch & -> & Hs & Hg) <- Hr Hn Hnr].
  split_and!; [by repeat split|by exists p, policy, i| |].
  - split; [exists i; split; [apply Hs|done]| |done..].
    eexists. split; [unfold write_change; cbn [db_target_reconcile set_target_reconcile];
      by rewrite lookup_insert_eq|]. done.
  - intros k Hk. unfold write_change.
    cbn [db_target_reconcile set_target_reconcile db_intents set_intents].
    by rewrite !lookup_insert_ne.
Qed.

Lemma materialize_all r at_ ks d ocs d' :
  NoDup ks → db_inv d →
  st_map (λ key, materialize_one (ResolveTargetPolicy r) key at_) ks d = (Ok ocs, d') →
  materialized r ks d (omap id ocs) d'.
Proof.
  intros Hnd. revert d ocs. induction Hnd as [|key ks Hnin Hnd IH]; intros d ocs Hinv H; cbn [st_map] in H.
  { run. injection H as <- <-. split; try done; [set_solver|set_solver|constructor|set_solver]. }
  st_step H as oc d1 E. st_step H as rest d2 E2. run. injection H as <- <-.
  apply materialize_inv in E; [|done].
  assert (desired_frame d d1) as Hf1.
  { destruct oc; [by apply one_change_frame in E as [? _]|by destruct E as [-> _]]. }
  specialize (IH d1 rest (db_inv_frame _ _ _ (df_decisions _ _ Hf1) (df_projections _ _ Hf1) Hinv) E2).
  destruct IH as [Hf Hs Hk Hn Hc Hi Hr].
  assert (key ∉ target_of <$> omap id rest) as Hkey.
  { intros (c & -> & Hin)%list_elem_of_fmap. by apply Hnin, Hk. }
  destruct oc as [c|]; cbn [omap list_omap id].
  - pose proof (oc_key _ _ _ _ _ _ E) as Hck. fold (target_of c) in Hck.
    apply one_change_frame in E as (_ & Hset & Hco & Hoth). split.
    + by etrans.
    + intros k [->|Hin]%elem_of_cons; [|by apply Hs]. eapply settled_frame; [done|by apply Hi|done].
    + intros c' [->|Hin]%elem_of_cons; [rewrite Hck; left|right; by apply Hk].
    + cbn. rewrite Hck. by constructor.
    + intros c' [->|Hin]%elem_of_cons.
      * destruct Hco. split; rewrite ?Hck in *; rewrite ?Hi, ?Hr by done; done.
      * destruct (Hc c' Hin). assert (target_of c' ≠ key) as Hne by (intros He; apply Hnin; rewrite <- He; by apply Hk).
        destruct (Hoth _ Hne) as [Ho1 Ho2]. split; rewrite <- ?Ho1, <- ?Ho2; done.
    + intros k [Hne Hk']%not_elem_of_cons. rewrite Hi by done. apply Hoth. congruence.
    + intros k [Hne Hk']%not_elem_of_cons. rewrite Hr by done. apply Hoth. congruence.
  - destruct E as [-> Hset]. split; try done.
    + intros k [->|Hin]%elem_of_cons; [|by apply Hs]. eapply settled_frame; [done|by apply Hi|done].
    + intros c Hin. right. by apply Hk.
Qed.

Lemma final_keys_spec ps :
  NoDup (final_keys ps) ∧ ∀ k, k ∈ final_keys ps ↔ k ∈ (projection_key <$> ps).
Proof.
  unfold final_keys. split; [rewrite sort_slice_perm; apply NoDup_elements|].
  intros k. by rewrite elem_of_sort_slice, elem_of_elements, elem_of_list_to_set.
Qed.

Lemma MaterializeTargets_inv r ps at_ d cs d' :
  db_inv d → MaterializeTargets (ResolveTargetPolicy r) ps at_ d = (Ok cs, d') →
  validate_projections ps = Ok tt ∧ materialized r (final_keys ps) d cs d'.
Proof.
  intros Hinv H. unfold MaterializeTargets in H. destruct (IsZero at_); [done|].
  st_step H as [] d1 E. apply lift_Ok_inv in E as [Hv ->].
  st_step H as ocs d1 E. run. injection H as <- <-. split; [done|].
  eapply materialize_all; [apply final_keys_spec|done..].
Qed.

(** FinalizeTargets is the materialization, then one snapshot step when
    something changed. *)
Lemma FinalizeTargets_inv r ps at_ d changes d' :
  db_inv d → FinalizeTargets (ResolveTargetPolicy r) ps at_ d = (Ok changes, d') →
  validate_projections ps = Ok tt ∧
  ∃ cs d1, materialized r (final_keys ps) d cs d1 ∧
    match cs with
    | [] => changes = [] ∧ d' = d1
    | _ => changes = with_SnapshotRevision (db_snapshot d + 1) <$> cs ∧
           d' = set_snapshot d1 (db_snapshot d + 1)
    end.
Proof.
  intros Hinv H. unfold FinalizeTargets in H. st_step H as cs d1 E.
  apply MaterializeTargets_inv in E as [Hv Hm]; [|done]. split; [done|]. exists cs, d1.
  split; [done|]. destruct cs as [|c cs]; [run; by injection H as <- <-|].
  st_step H as rev d2 E. cbn in E. unfold uow_AdvanceSnapshotRevision in E. run.
  destruct (_ <=? _); [done|]. run. rewrite <- (df_snapshot _ _ (mz_frame _ _ _ _ _ Hm)).
  injection E as <- <-. by injection H as <- <-.
Qed.

Lemma with_snapshot_target rev (cs : list TargetEnforcementChange) : target_of <$> (with_SnapshotRevision rev <$> cs) = target_of <$> cs.
Proof. rewrite <- list_fmap_compose. done. Qed.

Lemma settled_snapshot r d n k : settled r d k → settled r (set_snapshot d n) k.
Proof.
  intros (p & policy & i & []). exists p, policy, i. split; try done.
  by rewrite (target_policy_rows r p d).
Qed.

(** C25: materialization is exact. After a committed FinalizeTargets every
    affected target's stored intent means what its stored projection and the
    managed policy call for; each change names an affected target once, its
    generation is above every earlier generation of the intent and of the retry
    row, and the retry row is pending with no attempts at that generation; the
    rows of targets without a change are untouched; the snapshot revision
    advances by exactly one when there is a change, and else not at all. *)
Theorem FinalizeTargets_settles r ps at_ d changes d' :
  db_inv d → FinalizeTargets (ResolveTargetPolicy r) ps at_ d = (Ok changes, d') →
  db_inv d' ∧
  (∀ p, p ∈ ps → settled r d' (projection_key p)) ∧
  NoDup (target_of <$> changes) ∧
  (∀ c, c ∈ changes → target_of c ∈ (projection_key <$> ps) ∧ change_ok d d' c ∧
                      ch_SnapshotRevision c = db_snapshot d') ∧
  (∀ k, k ∉ target_of <$> changes →
     db_intents d' !! k = db_intents d !! k ∧
     db_target_reconcile d' !! k = db_target_reconcile d !! k) ∧
  db_snapshot d' = (if changes is [] then db_snapshot d else db_snapshot d + 1).
Proof.
  intros Hinv H. apply FinalizeTargets_inv in H as (_ & cs & d1 & Hm & Hend); [|done].
  destruct (final_keys_spec ps) as [_ Hks]. destruct Hm as [[Hd Hp Hpol Hsn] Hs Hk Hn Hc Hi Hr].
  assert (∀ p, p ∈ ps → projection_key p ∈ final_keys ps) as Hin
    by (intros p Hp'; apply Hks; set_solver).
  destruct cs as [|c0 cs0].
  - destruct Hend as [-> ->]. split_and!; try done; [by apply (db_inv_frame _ d)|auto|set_solver|auto].
  - destruct Hend as [-> ->]. set (cs := c0 :: cs0) in *. rewrite with_snapshot_target. split_and!.
    + by apply (db_inv_frame _ d).
    + intros p Hp'. apply settled_snapshot, Hs. auto.
    + done.
    + intros c (c' & -> & Hc')%list_elem_of_fmap. split_and!; [apply Hks; exact (Hk c' Hc')| |done].
      destruct (Hc c' Hc'). by split.
    + intros k Hk'. split; [by apply Hi|by apply Hr].
    + done.
Qed.

Lemma materialize_all_settled r at_ ks d :
  (∀ k, k ∈ ks → settled r d k) →
  st_map (λ key, materialize_one (ResolveTargetPolicy r) key at_) ks d =
    (Ok ((λ _, None) <$> ks), d).
Proof.
  induction ks as [|k ks IH]; intros Hs; [done|]. cbn [st_map].
  erewrite bind_step by (apply materialize_settled, Hs; left).
  erewrite bind_step by (apply IH; intros; apply Hs; by right). done.
Qed.

(** Settled targets are exactly the fixed points of materialization: on
    valid projections FinalizeTargets reports no change and writes nothing, not
    even a snapshot revision, if and only if every affected target is settled.
    With the previous property, repeating a materialization changes nothing. *)
Theorem FinalizeTargets_fixpoint r ps at_ d :
  db_inv d → validate_projections ps = Ok tt → at_ ≠ 0 →
  FinalizeTargets (ResolveTargetPolicy r) ps at_ d = (Ok [], d) ↔
  ∀ p, p ∈ ps → settled r d (projection_key p).
Proof.
  intros Hinv Hv Hat. destruct (final_keys_spec ps) as [_ Hks]. split.
  - intros H p Hp. apply FinalizeTargets_inv in H as (_ & cs & d1 & Hm & Hend); [|done].
    destruct cs; destruct Hend as [Hnil ->]; [|done].
    apply (mz_settled _ _ _ _ _ Hm), Hks. set_solver.
  - intros Hs. assert (∀ k, k ∈ final_keys ps → settled r d k) as Hs'.
    { intros k (p & -> & Hp)%Hks%list_elem_of_fmap. by apply Hs. }
    assert (∀ l : list (NodeID * Prefix),
      omap id ((λ _, None) <$> l) = ([] : list TargetEnforcementChange)) as Hnil.
    { induction l; by cbn. }
    unfold FinalizeTargets. rewrite (bind_step _ _ _ [] d); [done|]. unfold MaterializeTargets.
    assert (IsZero at_ = false) as -> by (unfold IsZero; by gobool).
    rewrite Hv. run. erewrite bind_step by (apply materialize_all_settled; exact Hs').
    by rewrite Hnil.
Qed.

(** ** Wakes *)
Definition wake_change {W} (WakeTarget : NodeID → Prefix → ST W unit) (c : TargetEnforcementChange) :=
  WakeTarget (ch_NodeID c) (ch_Target c).

(** Every change is woken in order; the first failure stops the rest, which is
    handed back as pending, and is reported as a post-commit failure. *)
Lemma WakeCommittedTargets_spec {W} (WakeTarget : NodeID → Prefix → ST W unit) changes w res pending w' :
  WakeCommittedTargets WakeTarget changes w = (res, pending, w') →
  match res with
  | Ok _ => pending = [] ∧ st_each (wake_change WakeTarget) changes w = (Ok tt, w')
  | Err e => errors_Is e ErrPostCommitWake = true ∧
      ∃ woken failed w1 cause, changes = woken ++ failed :: pending ∧
        st_each (wake_change WakeTarget) woken w = (Ok tt, w1) ∧
        wake_change WakeTarget failed w1 = (Err cause, w')
  end.
Proof.
  revert w. induction changes as [|c cs IH]; intros w; cbn [WakeCommittedTargets].
  { by intros [= <- <- <-]. }
  destruct (WakeTarget (ch_NodeID c) (ch_Target c) w) as [[[]|e] w1] eqn:E.
  - intros H. apply IH in H. destruct res as [u|e].
    + destruct H as [-> H]. split; [done|]. cbn [st_each]. by erewrite bind_step.
    + destruct H as (He & woken & failed & w2 & cause & -> & Hw & Hf). split; [done|].
      exists (c :: woken), failed, w2, cause. split_and!; [done| |done].
      cbn [st_each]. by erewrite bind_step.
  - intros [= <- <- <-]. split.
    + unfold PostCommitWakeError. cbn. by rewrite orb_true_r.
    + exists [], c, w, e. by split_and!.
Qed.

(** ** The lifecycle service *)
Section lifecycle.
Context {S W : Type} (WakeTarget : NodeID → Prefix → ST W unit).

(** What a caller learns once the writes persisted: the value is returned; on
    a known commit every change was woken in order or the failure is reported
    as post-commit; on an unknown one nobody was woken and the error says so. *)
Definition reported {A} (changes : list TargetEnforcementChange) (a : A) (commit : commit_outcome)
    (w : W) (value : option A) (err : option error) (w' : W) : Prop :=
  value = Some a ∧
  match commit, err with
  | CommitOk, None => st_each (wake_change WakeTarget) changes w = (Ok tt, w')
  | CommitOk, Some e => errors_Is e ErrPostCommitWake = true
  | CommitFailed _ _, Some e => errors_Is e ErrCommitUnknown = true ∧ w' = w
  | CommitFailed _ _, None => False
  end.

(** A call either leaves the tables and the sink alone and fails, or its
    operation ran to the end, persisted and is reported. *)
Lemma finish_cases {A} (op : ST S A) (changes : A → list TargetEnforcementChange) commit d w
    value err d' w' :
  finish_with_wake WakeTarget changes true (RunTransaction op commit d) w = (value, err, d', w') →
  (d' = d ∧ w' = w ∧ is_Some err) ∨
  ∃ a, op d = (Ok a, d') ∧ reported (changes a) a commit w value err w'.
Proof.
  unfold finish_with_wake, RunTransaction. destruct (op d) as [[a|e] d1] eqn:Hop.
  2:{ intros [= <- <- <- <-]. left. eauto. }
  destruct commit as [|cause persisted].
  - destruct (WakeCommittedTargets WakeTarget (changes a) w) as [[res pending] w1] eqn:Hw.
    apply WakeCommittedTargets_spec in Hw. destruct res as [[]|e]; intros [= <- <- <- <-]; right;
      exists a; (split; [done|]); split; try done; by destruct Hw.
  - assert (errors_Is (NewCommitUnknownError cause) ErrCommitUnknown = true) as Hu by done.
    cbn [errors_Is NewCommitUnknownError] in *. rewrite Hu. intros [= <- <- <- <-].
    destruct persisted; [right|left; by eauto]. exists a. split; [done|]. by split.
Qed.
End lifecycle.

(** What FinalizeTargets leaves for its callers. *)
Lemma finalized r ps at_ d changes d' :
  db_inv d → FinalizeTargets (ResolveTargetPolicy r) ps at_ d = (Ok changes, d') →
  db_inv d' ∧ db_decisions d' = db_decisions d ∧ db_projections d' = db_projections d ∧
  (∀ p, p ∈ ps → settled r d' (projection_key p)) ∧
  (∀ c, c ∈ changes → target_of c ∈ (projection_key <$> ps)).
Proof.
  intros Hinv H. apply FinalizeTargets_inv in H as (_ & cs & d1 & Hm & Hend); [|done].
  destruct (final_keys_spec ps) as [_ Hks]. destruct Hm as [[Hd Hp _ _] Hs Hk _ _ _ _].
  assert (∀ p, p ∈ ps → projection_key p ∈ final_keys ps) as Hin
    by (intros p Hp'; apply Hks; set_solver).
  destruct cs as [|c0 cs0]; destruct Hend as [-> ->].
  - split_and!; [by apply (db_inv_frame _ d)|done|done|auto|set_solver].
  - split_and!; [by apply (db_inv_frame _ d)|done|done| |].
    + intros p Hp'. apply settled_snapshot, Hs. auto.
    + intros c (c' & -> & Hc')%list_elem_of_fmap. apply Hks. exact (Hk c' Hc').
Qed.

(** The intent stored for a target whose projection is present bans it. *)
Definition banned (d : db) (key : NodeID * Prefix) : Prop :=
  ∃ i, db_intents d !! key = Some i ∧ ti_BanMembership i = BanPresent ∧ Intent_Validate i = Ok tt.

Lemma settled_banned r d key p :
  settled r d key → db_projections d !! key = Some p → bp_State p = BanProjectionPresent →
  banned d key.
Proof.
  intros (p' & policy & i & [Hp _ _ _ Hi Hv Hm]) E Hst. rewrite Hp in E. injection E as ->.
  exists i. split_and!; [done| |done]. apply Equivalent_iff in Hm. injection Hm as _ _ -> _ _ _ _ _ _ _.
  unfold base_intent. by rewrite bool_decide_true.
Qed.

(** What a persisted manual ban leaves. *)
Record ban_persisted (rv : ManagedPolicyTargetResolver) (r : ManualRequest) (replace : bool) (d : db)
    (res : ManualResult) (changes : list TargetEnforcementChange) (d' : db) : Prop := {
  bp_inv : db_inv d';
  bp_node : db_node d = mr_NodeID r;
  bp_row : manual_row r ∈ db_decisions d';
  bp_single : ∀ row, row ∈ db_decisions d' →
    active_manual (mr_NodeID r) (mr_Target r) row → row = manual_row r;
  bp_replaced : ∀ old, old ∈ db_decisions d → active_manual (mr_NodeID r) (mr_Target r) old →
    replace = true ∧ mres_Previous res = Some (replaced_row old (mr_CreatedAt r)) ∧
    replaced_row old (mr_CreatedAt r) ∈ db_decisions d';
  bp_banned : banned d' (mr_NodeID r, mr_Target r);
  bp_changes : ∀ c, c ∈ changes → target_of c = (mr_NodeID r, mr_Target r)
}.

Lemma ban_operation_inv rv r replace d res changes d' :
  db_inv d → db_room d →
  ban_operation (ResolveTargetPolicy rv) (mr_NodeID r) r replace d = (Ok (res, changes), d') →
  ban_persisted rv r replace d res changes d'.
Proof.
  intros Hinv Hroom Hop. unfold ban_operation in Hop. st_step Hop as [] d1 E. cbn in E.
  unfold uow_RequireNodeIdentity in E. run.
  destruct (is_empty _); [done|]. case_bool_decide as Hid; [|done]. injection E as <-.
  st_step Hop as res' d1 E.
  apply RecordManualInTransaction_consistent in E as (Hinv1 & Hin & Huniq & (p & Hp & Hst & _) & Hold); [|done..].
  st_step Hop as op d2 E. cbn in E. rewrite run_find_projection in E by apply Hinv1. injection E as <- <-.
  rewrite Hp in Hop. st_step Hop as cs d2 E. run. injection Hop as -> -> ->.
  apply finalized in E as (Hinv2 & Hd & Hpr & Hset & Hch); [|done].
  destruct (inv_projection d1 _ p Hinv1 Hp) as (Hkey & _ & _).
  split; rewrite ?Hd; try done.
  - eapply settled_banned; [rewrite <- Hkey; apply Hset; left|by rewrite Hpr|done].
  - intros c Hc. specialize (Hch c Hc). rewrite <- Hkey. set_solver.
Qed.

(** C18: over any store that refines the tables, a manual ban through the
    lifecycle service is all or nothing. Either the store and the wake sink are
    as before and an error is returned, or the whole operation persisted: the
    tables are consistent, the request's row is the only active manual row of
    its target, a replaced row is kept as revoked and was replaced on request
    only, the target's stored intent bans it, only that target can have
    changed, and the caller gets the result, with every change woken after the
    commit (or the failed wake or unknown commit reported as such). *)
Theorem LifecycleService_BanManual_atomic {S W} (view : S → db) `{RefinesLifecycle S view} rv policies
    (wake : NodeID → Prefix → ST W unit) node r replace commit s w value err s' w' :
  (∀ p, refines view (policies p) (ResolveTargetPolicy rv p)) →
  db_inv (view s) → db_room (view s) →
  LifecycleService_BanManual policies wake node r replace commit s w = (value, err, s', w') →
  (s' = s ∧ w' = w ∧ is_Some err) ∨
  ∃ res changes, node = mr_NodeID r ∧
    ban_persisted rv r replace (view s) res changes (view s') ∧
    reported wake changes (res, changes) commit w value err w'.
Proof.
  intros Hpol Hinv Hroom Hb. unfold LifecycleService_BanManual in Hb.
  case_bool_decide as Hnode; cbn [negb] in Hb; [|injection Hb as <- <- <- <-; by eauto].
  apply finish_cases in Hb as [?|([res changes] & Hop & Hrep)]; [by left|right].
  exists res, changes. split_and!; [done| |done]. subst node.
  apply ban_operation_inv; [done..|]. exact (refines_ban view policies _ Hpol _ _ _ _ _ _ Hop).
Qed.

(** What a persisted sweep leaves. *)
Record sweep_persisted (rv : ManagedPolicyTargetResolver) (node : NodeID) (now : time) (d : db)
    (res : ExpirationResult) (changes : list TargetEnforcementChange) (d' : db) : Prop := {
  sw_inv : db_inv d';
  sw_rows : db_decisions d' = expire_row node now <$> db_decisions d;
  sw_none_due : ∀ row, row ∈ db_decisions d' → due_row node now row = false;
  sw_expired : er_Expired res ≡ₚ
    expire_row node now <$> base.filter (λ r, due_row node now r = true) (db_decisions d);
  sw_once : NoDup (projection_key <$> er_Projections res);
  sw_affected : ∀ k, affected node now (db_decisions d) k → settled rv d' k ∧
    ∃ p, p ∈ er_Projections res ∧ projection_key p = k ∧ db_projections d' !! k = Some p ∧
         advanced (db_projections d !! k) p;
  sw_others : ∀ k, ¬ affected node now (db_decisions d) k →
    db_projections d' !! k = db_projections d !! k;
  sw_changes : ∀ c, c ∈ changes → affected node now (db_decisions d) (target_of c)
}.

Lemma expire_operation_inv rv node now d res changes d' :
  db_inv d → db_small d →
  expire_operation (ResolveTargetPolicy rv) node now d = (Ok (res, changes), d') →
  sweep_persisted rv node now d res changes d'.
Proof.
  intros Hinv Hsm Hop. unfold expire_operation in Hop. st_step Hop as res' d1 E.
  apply ExpireInTransaction_consistent in E
    as (Hinv1 & Hdec & Hdue & Hperm & Hnd & Hps & Haff & Hother); [|done..].
  st_step Hop as cs d2 E. run. injection Hop as -> -> ->.
  apply finalized in E as (Hinv2 & Hd & Hpr & Hset & Hch); [|done].
  split; rewrite ?Hd, ?Hpr; try done.
  - intros k Hk. pose proof (Haff k Hk) as (p & -> & Hp)%list_elem_of_fmap.
    destruct (Hps p Hp) as (_ & ? & ?). split; [by apply Hset|]. by exists p.
  - intros c Hc. specialize (Hch c Hc). apply list_elem_of_fmap in Hch as (p & -> & Hp).
    by apply Hps.
Qed.

(** C19: over any store that refines the tables, an expiry sweep through the
    lifecycle service is all or nothing. Either the store and the wake sink are
    as before and an error is returned, or exactly the node's due rows are
    ended, no due row is left, the tables are consistent, every affected
    target's projection advances exactly once and its stored intent matches it,
    only affected targets can have changed, and the caller gets the result with
    the changes woken after the commit. *)
Theorem LifecycleService_expire_atomic {S W} (view : S → db) `{RefinesLifecycle S view} rv policies
    (wake : NodeID → Prefix → ST W unit) node now commit s w value err s' w' :
  (∀ p, refines view (policies p) (ResolveTargetPolicy rv p)) →
  db_inv (view s) → db_small (view s) →
  LifecycleService_expire policies wake node now true commit s w = (value, err, s', w') →
  (s' = s ∧ w' = w ∧ is_Some err) ∨
  ∃ res changes, sweep_persisted rv node now (view s) res changes (view s') ∧
    reported wake changes (res, changes) commit w value err w'.
Proof.
  intros Hpol Hinv Hsm He. unfold LifecycleService_expire in He.
  apply finish_cases in He as [?|([res changes] & Hop & Hrep)]; [by left|right].
  exists res, changes. split; [|done].
  apply expire_operation_inv; [done..|]. exact (refines_sweep view policies _ Hpol _ _ _ _ _ Hop).
Qed.

(** ** Concrete runs *)
Definition sample_policy_rows : list policy_row := new_rows sample_node 1 [loopback4; loopback6].
Definition sample_tables : db := set_policy sample_db [] sample_policy_rows 1.
Definition sample_resolver : ManagedPolicyTargetResolver :=
  MkResolver 3 true "0000000000000000000000000000000000000000000000000000000000000000".
Definition sample_projection : DesiredBanProjection :=
  MkProjection sample_node sample_target BanProjectionPresent 1 (Some (sample_time + minute)) 1.
(** A sink that records the targets it is told of. *)
Definition record_wake (n : NodeID) (t : Prefix) : ST (list Prefix) unit :=
  st_modify (λ l, l ++ [t]).

Lemma sample_tables_inv : db_inv sample_tables.
Proof. apply (db_inv_frame _ sample_db); [done|done|apply sample_db_inv]. Qed.

Lemma FinalizeTargets_settles_witness :
  ∃ changes d', FinalizeTargets (ResolveTargetPolicy sample_resolver) [sample_projection] sample_time
                  sample_tables = (Ok changes, d') ∧
    length changes = 1%nat ∧ settled sample_resolver d' (sample_node, sample_target) ∧
    db_snapshot d' = 2.
Proof.
  assert (match (FinalizeTargets (ResolveTargetPolicy sample_resolver) [sample_projection] sample_time
                  sample_tables).1 with
          | Ok cs => length cs | Err _ => 0%nat end = 1%nat) as Hok by (vm_compute; reflexivity).
  destruct (FinalizeTargets (ResolveTargetPolicy sample_resolver) [sample_projection] sample_time
              sample_tables) as [[changes|e] d'] eqn:E; [|discriminate Hok].
  exists changes, d'. split; [reflexivity|]. split; [exact Hok|].
  destruct (FinalizeTargets_settles sample_resolver [sample_projection] sample_time sample_tables
              changes d' sample_tables_inv E) as (_ & Hs & _ & _ & _ & Hsn).
  split; [apply (Hs sample_projection); left|].
  destruct changes; [discriminate Hok|]. rewrite Hsn. reflexivity.
Defined.

(** The tables with the intent of their only target in place. *)
Definition sample_settled_tables : db :=
  (FinalizeTargets (ResolveTargetPolicy sample_resolver) [sample_projection] sample_time sample_tables).2.

Lemma FinalizeTargets_fixpoint_witness :
  FinalizeTargets (ResolveTargetPolicy sample_resolver) [sample_projection] (sample_time + second)
    sample_settled_tables = (Ok [], sample_settled_tables) ∧
  ¬ settled sample_resolver sample_tables (sample_node, sample_target).
Proof.
  split.
  - apply (FinalizeTargets_fixpoint sample_resolver [sample_projection] (sample_time + second));
      [|reflexivity|discriminate|].
    + assert (is_ok (FinalizeTargets (ResolveTargetPolicy sample_resolver) [sample_projection] sample_time
                      sample_tables).1 = true) as Hok by (vm_compute; reflexivity).
      unfold sample_settled_tables. destruct (FinalizeTargets _ _ _ sample_tables) as [[cs|e] d'] eqn:E;
        [|discriminate Hok].
      apply finalized in E as (Hinv & _); [exact Hinv|apply sample_tables_inv].
    + assert (is_ok (FinalizeTargets (ResolveTargetPolicy sample_resolver) [sample_projection] sample_time
                      sample_tables).1 = true) as Hok by (vm_compute; reflexivity).
      unfold sample_settled_tables. destruct (FinalizeTargets _ _ _ sample_tables) as [[cs|e] d'] eqn:E;
        [|discriminate Hok].
      apply finalized in E as (_ & _ & _ & Hs & _); [exact Hs|apply sample_tables_inv].
  - intros (p & policy & i & Hs). pose proof (sa_intent _ _ _ _ _ _ Hs) as Hi. discriminate Hi.
Defined.

(** The managed-policy resolver over the store with failures. *)
Definition faulty_policies (p : DesiredBanProjection) : ST faulty_store TargetPolicy :=
  faulty (ResolveTargetPolicy sample_resolver p).
Lemma faulty_policies_refine p :
  refines fst (faulty_policies p) (ResolveTargetPolicy sample_resolver p).
Proof. apply faulty_refines. Qed.

Lemma LifecycleService_BanManual_atomic_witness :
  ∃ value s' w', LifecycleService_BanManual faulty_policies record_wake sample_node
      (sample_manual "m1" (sample_time + second)) true CommitOk (sample_tables, [true]) []
      = (value, None, s', w') ∧
    w' = [sample_target] ∧ banned s'.1 (sample_node, sample_target).
Proof.
  assert (match LifecycleService_BanManual faulty_policies record_wake sample_node
      (sample_manual "m1" (sample_time + second)) true CommitOk (sample_tables, [true]) [] with
      | (_, None, _, w) => w | _ => [] end = [sample_target]) as Hok by (vm_compute; reflexivity).
  destruct (LifecycleService_BanManual faulty_policies record_wake sample_node
      (sample_manual "m1" (sample_time + second)) true CommitOk (sample_tables, [true]) [])
    as [[[value [e|]] s'] w'] eqn:E; [discriminate Hok|].
  exists value, s', w'. split; [reflexivity|]. split; [exact Hok|].
  apply (LifecycleService_BanManual_atomic fst sample_resolver) in E
    as [(_ & _ & [e He])|(res & changes & _ & Hb & _)];
    [discriminate He|exact (bp_banned _ _ _ _ _ _ _ Hb)|exact faulty_policies_refine
    |apply sample_tables_inv|vm_compute; reflexivity].
Defined.

Lemma LifecycleService_expire_atomic_witness :
  ∃ value s' w', LifecycleService_expire faulty_policies record_wake sample_node
      (sample_time + minute) true CommitOk (sample_tables, [true]) [] = (value, None, s', w') ∧
    w' = [sample_target] ∧
    db_decisions s'.1 = expire_row sample_node (sample_time + minute) <$> db_decisions sample_tables.
Proof.
  assert (match LifecycleService_expire faulty_policies record_wake sample_node
      (sample_time + minute) true CommitOk (sample_tables, [true]) [] with
      | (_, None, _, w) => w | _ => [] end = [sample_target]) as Hok by (vm_compute; reflexivity).
  destruct (LifecycleService_expire faulty_policies record_wake sample_node
      (sample_time + minute) true CommitOk (sample_tables, [true]) [])
    as [[[value [e|]] s'] w'] eqn:E; [discriminate Hok|].
  exists value, s', w'. split; [reflexivity|]. split; [exact Hok|].
  apply (LifecycleService_expire_atomic fst sample_resolver) in E
    as [(_ & _ & [e He])|(res & changes & Hd & _)];
    [discriminate He|exact (sw_rows _ _ _ _ _ _ _ Hd)|exact faulty_policies_refine
    |apply sample_tables_inv|vm_compute; discriminate].
Defined.
