(* ===== verification/PolicyWrite.v ===== *)
(** * Correctness of managed-policy replacement (internal/decision/policy.go)

    Replacing the managed policy of a node is a compare-and-swap on its
    revision. The stored rows read back as the written policy, and the service
    reports success only for a write that persisted, even when the outcome of
    the commit is unknown. *)

From S2P Require Import Prelude GoStd Netip Identity CoreModel Enforcement PolicyResolution.
From S2P Require Import Projection MemoryService DecisionTx DecisionStore Refinement DecisionProofs.
From S2P Require Import DesiredState.

(** ** Canonical policies *)
Record canonical_list (l : list Prefix) : Prop := {
  cl_canonical : existsb not_canonical l = false;
  cl_sorted : sort_by Prefix_String l = l;
  cl_distinct : adjacent_duplicate l = false
}.

Lemma canonicalPolicyPrefixes_list name l out :
  canonicalPolicyPrefixes name l = Ok out → canonical_list (elems out).
Proof.
  unfold canonicalPolicyPrefixes. destruct l as [l|]; intros H; inv_ok; [|done].
  assert (elems (clone_slice (Some (sort_by Prefix_String l))) = sort_by Prefix_String l) as ->.
  { unfold clone_slice. cbn. by destruct (sort_by Prefix_String l). }
  split; [|apply sort_by_idem|done].
  by rewrite (existsb_perm not_canonical _ l) by apply sort_by_perm.
Qed.

Lemma canonicalPolicyPrefixes_some name l :
  canonical_list l → canonicalPolicyPrefixes name (Some l) = Ok (clone_slice (Some l)).
Proof. intros [H1 H2 H3]. unfold canonicalPolicyPrefixes. by rewrite H1, H2, H3. Qed.

Lemma elems_clone {A} (l : list A) : elems (clone_slice (Some l)) = l.
Proof. by destruct l. Qed.

(** A complete policy is what the constructor makes of its own prefixes. *)
Lemma complete_policy i :
  Policy_ValidateComplete i = Ok tt →
  canonical_list (elems (mp_Allowlist i)) ∧ canonical_list (elems (mp_ProtectedTargets i)) ∧
  elems (mp_ProtectedTargets i) ≠ [] ∧
  ∃ q, NewManagedPolicyIntent (Some (elems (mp_Allowlist i))) (Some (elems (mp_ProtectedTargets i)))
         = Ok q ∧ sameManagedPolicy q i = true.
Proof.
  unfold Policy_ValidateComplete. intros H. inv_ok. rename a0 into v. unfold equalPolicyPrefixes in H.
  gobool. destruct H as [Ha Hp]. rename H1 into Hn, H2 into Hd. unfold NewManagedPolicyIntent in Hn.
  apply result_bind_Ok in Hn as (pa & Hpa & Hn). apply result_bind_Ok in Hn as (pp & Hpp & Hn). inv_ok.
  cbn in Ha, Hp, Hd. pose proof (canonicalPolicyPrefixes_list _ _ _ Hpa) as Hca.
  pose proof (canonicalPolicyPrefixes_list _ _ _ Hpp) as Hcp. rewrite Ha, Hp. split_and!; [done..| |].
  - intros He. rewrite He in *. done.
  - unfold NewManagedPolicyIntent. rewrite !canonicalPolicyPrefixes_some by done.
    cbn [mbind result_bind]. rewrite !elems_clone.
    repeat match goal with E : _ = false |- _ => rewrite E; clear E end. cbn [fail_if mbind result_bind].
    eexists. split; [done|]. unfold sameManagedPolicy. cbn. rewrite !elems_clone.
    rewrite !bool_decide_true; by (done || congruence).
Qed.

(** ** Stored rows *)
Lemma sort_by_fmap {A B} (key : B → string) (g : A → B) (l : list A) :
  sort_by key (g <$> l) = g <$> sort_by (λ a, key (g a)) l.
Proof.
  induction l as [|x l IH]; [done|].
  change (insert_by key (g x) (sort_by key (g <$> l)) =
          g <$> insert_by (λ a, key (g a)) x (sort_by (λ a, key (g a)) l)).
  rewrite IH. clear IH. induction (sort_by (λ a, key (g a)) l) as [|y r IHr]; [done|]. cbn.
  unfold key_le in *. case_decide; [done|]. cbn. f_equal. exact IHr.
Qed.

Lemma rows_of_written node next l others :
  canonical_list l →
  rows_of node (other_rows node others ++ new_rows node next l) = new_rows node next l.
Proof.
  intros [_ Hs _]. unfold rows_of. rewrite filter_app.
  rewrite (filter_none _ (other_rows node others)).
  2:{ apply Forall_forall. by intros x [Hx _]%list_elem_of_filter. }
  rewrite filter_all; [|by apply Forall_fmap, Forall_forall].
  cbn [app]. unfold new_rows. rewrite sort_by_fmap. f_equal. exact Hs.
Qed.

Lemma other_rows_written node n next l others :
  n ≠ node → rows_of n (other_rows node others ++ new_rows node next l) = rows_of n others.
Proof.
  intros Hne. unfold rows_of, other_rows. rewrite filter_app, list_filter_filter.
  rewrite (filter_none _ (new_rows _ _ _)), app_nil_r.
  - f_equal. apply list_filter_iff. intros r. split; [tauto|]. intros ->. auto.
  - apply Forall_fmap, Forall_forall. intros p _. cbn. auto.
Qed.

Lemma consume_written node next l rev acc :
  existsb not_canonical l = false → 0 < next → rev = None ∨ rev = Some next →
  consume_rows rev acc (new_rows node next l) =
    Ok (match l with [] => rev | _ => Some next end, acc ++ l).
Proof.
  intros Hc Hn. revert rev acc. induction l as [|p l IH]; intros rev acc Hrev; [by rewrite app_nil_r|].
  cbn [existsb] in Hc. apply orb_false_iff in Hc as [Hp Hl]. cbn [new_rows fmap list_fmap consume_rows].
  cbn [pw_enabled pw_revision pw_target]. cbn [Z.eqb negb andb fail_if mbind result_bind Pos.eqb].
  rewrite (proj2 (Z.leb_gt _ _) Hn), Hp.
  assert (match rev with Some v => negb (v =? next) | None => false end = false) as ->.
  { destruct Hrev as [-> | ->]; [done|]. by rewrite Z.eqb_refl. }
  cbn [fail_if mbind result_bind]. fold (new_rows node next l). rewrite IH by auto.
  rewrite <- app_assoc. by destruct l.
Qed.

(** What was written reads back: the new revision and the same policy. *)
Lemma written_policy node next policy d a p snap :
  Policy_ValidateComplete policy = Ok tt → 0 < next →
  a = other_rows node (db_allowlists d) ++ new_rows node next (elems (mp_Allowlist policy)) →
  p = other_rows node (db_protected d) ++ new_rows node next (elems (mp_ProtectedTargets policy)) →
  ∃ q, loadManagedPolicyIntent node (set_policy d a p snap) = Ok (next, q) ∧
       sameManagedPolicy q policy = true.
Proof.
  intros Hv Hn -> ->. destruct (complete_policy _ Hv) as (Ha & Hp & Hne & q & Hq & Hs).
  exists q. split; [|done]. unfold loadManagedPolicyIntent. cbn [db_allowlists db_protected set_policy].
  rewrite !rows_of_written by done. rewrite consume_written; [|apply Ha|done|by left].
  cbn [mbind result_bind app]. rewrite consume_written; [|apply Hp|done|destruct (elems (mp_Allowlist policy)); auto].
  cbn [mbind result_bind app]. destruct (elems (mp_ProtectedTargets policy)); [done|]. by rewrite Hq.
Qed.

Lemma consume_none rows rev acc out :
  consume_rows rev acc rows = Ok (None, out) → rev = None ∧ rows = [].
Proof.
  revert rev acc. induction rows as [|r rows IH]; intros rev acc H; cbn in H; [naive_solver|].
  inv_ok. by apply IH in H as [? _].
Qed.

Lemma consume_positive rows rev acc v out :
  consume_rows rev acc rows = Ok (Some v, out) → (∀ w, rev = Some w → 0 < w) → 0 < v.
Proof.
  revert rev acc. induction rows as [|r rows IH]; intros rev acc H Hr; cbn in H; [naive_solver|].
  inv_ok. gobool. eapply IH; [done|]. intros w [= <-]. done.
Qed.

Lemma loaded_positive node d rev q : loadManagedPolicyIntent node d = Ok (rev, q) → 0 < rev.
Proof.
  unfold loadManagedPolicyIntent. intros H.
  apply result_bind_Ok in H as ([r1 l1] & H1 & H). apply result_bind_Ok in H as ([r2 l2] & H2 & H).
  destruct r2 as [r2|]; [|done]. inv_ok. eapply consume_positive; [done|].
  intros w ->. eapply consume_positive; [done|]. done.
Qed.

(** ** ReplaceManagedPolicy *)
(** The revision a node's policy is at: 0 without rows. *)
Definition policy_revision (node : NodeID) (d : db) (rev : Z) : Prop :=
  (has_policy_rows node d = false ∧ rev = 0) ∨
  (has_policy_rows node d = true ∧ ∃ q, loadManagedPolicyIntent node d = Ok (rev, q)).

Record replaced (node : NodeID) (expected : Z) (policy : ManagedPolicyIntent) (d : db)
    (rev snap : Z) (changed : bool) (d' : db) : Prop := {
  rp_identity : db_node d = node;
  rp_expected : policy_revision node d expected;
  rp_positive : 0 < rev;
  rp_revision : rev = if changed then expected + 1 else expected;
  rp_readback : ∃ q, loadManagedPolicyIntent node d' = Ok (rev, q) ∧ sameManagedPolicy q policy = true;
  rp_state : if changed then
      snap = db_snapshot d + 1 ∧ snap ≤ max_int64 ∧ ∃ a p, d' = set_policy d a p snap ∧
      ∀ n, n ≠ node → rows_of n a = rows_of n (db_allowlists d) ∧ rows_of n p = rows_of n (db_protected d)
    else d' = d
}.

Lemma replace_inv node expected policy at_ d rev snap changed d' :
  uow_ReplaceManagedPolicy node expected policy at_ d = (Ok (rev, snap, changed), d') →
  replaced node expected policy d rev snap changed d'.
Proof.
  intros H. unfold uow_ReplaceManagedPolicy in H.
  st_step H as [] d0 E. apply lift_Ok_inv in E as [Hv%wrap_Ok ->].
  st_step H as [] d0 E. assert (d0 = d) as -> by (destruct (_ || _); [done|by injection E]).
  clear E. run. st_step H as [] d0 E. apply lift_Ok_inv in E as [Hid%wrap_Ok%fail_if_Ok ->]. gobool.
  st_step H as current d0 E.
  assert (d0 = d ∧ ∃ cur, cur = match current with Some c => c.1 | None => 0 end ∧
            policy_revision node d cur ∧ 0 ≤ cur ∧
            ∀ c, current = Some c → loadManagedPolicyIntent node d = Ok c)
    as (-> & cur & Hcur & Hrev & Hpos & Hload).
  { unfold policy_revision. destruct (has_policy_rows node d).
    - apply lift_Ok_inv in E as [E%wrap_Ok ->]. apply result_bind_Ok in E as ([rev' q] & Hl & [= <-]).
      split; [done|]. exists rev'. pose proof (loaded_positive _ _ _ _ Hl).
      split_and!; [done|right; eauto|lia|]. by intros ? [= <-].
    - run. injection E as <- <-. split; [done|]. exists 0. by split_and!; auto. }
  clear E. rewrite <- Hcur in H. destruct (Z.eqb_spec expected cur) as [->|]; cbn [negb] in H; [|done].
  destruct (match current with Some c => _ | None => _ end) eqn:Hsame in H.
  - run. injection H as <- <- <- <-. destruct current as [[r q]|]; [|done]. cbn in Hcur. subst r.
    gobool. destruct Hsame as [Hsame _]. specialize (Hload _ eq_refl).
    split; try done; [by apply loaded_positive in Hload|]. exists q. split; [done|].
    unfold sameManagedPolicy in *. gobool. by destruct_and?.
  - destruct (Z.leb_spec max_int64 cur); [done|]. destruct (_ || _) eqn:Hsn; [done|]. gobool. run.
    injection H as <- <- <- <-.
    destruct (written_policy node (cur + 1) policy d _ _ (db_snapshot d + 1) Hv ltac:(lia) eq_refl eq_refl)
      as (q & Hq & Hqs).
    split; try done; [lia|by exists q|]. split_and!; [done|lia|]. eexists _, _. split; [done|].
    intros n Hn. by rewrite !other_rows_written.
Qed.

(** The write is not visible at its revision before it happened. *)
Lemma replaced_fresh node expected policy d rev snap d' q :
  replaced node expected policy d rev snap true d' → loadManagedPolicyIntent node d ≠ Ok (rev, q).
Proof.
  intros [_ [[Hno ->]|[_ (q0 & Hl)]] _ -> _ _] Hload; [|rewrite Hl in Hload; injection Hload; lia].
  unfold loadManagedPolicyIntent in Hload.
  assert (∀ rows, (∀ r, r ∈ rows → r ∈ db_allowlists d ++ db_protected d) → rows_of node rows = []) as Hnil.
  { intros rows Hin. unfold rows_of. rewrite filter_none; [done|]. apply Forall_forall. intros r Hr He.
    unfold has_policy_rows in Hno. rewrite existsb_false_iff in Hno.
    specialize (Hno r (Hin r Hr)). by gobool. }
  rewrite !Hnil in Hload by set_solver. done.
Qed.

(** ** The transaction *)
Lemma load_rows node d d' :
  same_policy_rows d d' → loadManagedPolicyIntent node d' = loadManagedPolicyIntent node d.
Proof. intros [Ha Hp]. unfold loadManagedPolicyIntent. by rewrite Ha, Hp. Qed.

(** Every target of the node with a projection is settled. *)
Definition node_settled (rv : ManagedPolicyTargetResolver) (node : NodeID) (d : db) : Prop :=
  ∀ k p, db_projections d !! k = Some p → bp_NodeID p = node → settled rv d k.

Lemma materialize_node_inv rv node at_ d cs d' :
  db_inv d → MaterializeNodeTargets (ResolveTargetPolicy rv) node at_ d = (Ok cs, d') →
  desired_frame d d' ∧ node_settled rv node d' ∧ (∀ c, c ∈ cs → change_ok d d' c).
Proof.
  intros Hinv H. unfold MaterializeNodeTargets in H. st_step H as ps d1 E.
  unfold st_wrap in E. cbn in E. unfold uow_ListDecisionProjections in E. run.
  set (rows := sort_by _ _) in E.
  destruct (validate_projections rows) as [[]|]; cbn [wrap] in E; run; [|done]. injection E as <- <-.
  apply MaterializeTargets_inv in H as [_ [Hf Hs _ _ Hc _ _]]; [|done].
  split_and!; [done| |done]. intros k p Hp Hn. rewrite (df_projections _ _ Hf) in Hp.
  apply Hs. destruct (final_keys_spec rows) as [_ Hk]. apply Hk, list_elem_of_fmap.
  exists p. split; [by destruct (inv_projection d k p Hinv Hp)|].
  unfold rows. apply elem_of_sort_by, list_elem_of_filter. split; [done|].
  apply list_elem_of_fmap. exists (k, p). split; [done|]. by apply elem_of_map_to_list.
Qed.

Lemma reset_policy_inv rev at_ d d' :
  uow_ResetPolicyReconcileState rev at_ d = (Ok tt, d') → d' = set_policy_reconcile d (Some rev).
Proof.
  unfold uow_ResetPolicyReconcileState. destruct (_ || _); [done|]. destruct (_ || _); [done|]. run.
  destruct (db_policy_reconcile d) as [r|]; [|by intros [= <-]].
  destruct (_ <? _); by intros [= <-].
Qed.

Record policy_written (rv : ManagedPolicyTargetResolver) (req : PolicyWriteRequest) (d : db)
    (change : PolicyChange) (d' : db) : Prop := {
  pwn_node : pc_NodeID change = pw_NodeID req;
  pwn_revision : pc_PolicyRevision change =
    if pc_Changed change then pw_ExpectedPolicyRevision req + 1 else pw_ExpectedPolicyRevision req;
  pwn_current : policy_revision (pw_NodeID req) d (pw_ExpectedPolicyRevision req);
  pwn_readback : ∃ q, loadManagedPolicyIntent (pw_NodeID req) d' = Ok (pc_PolicyRevision change, q) ∧
    sameManagedPolicy q (pw_Policy req) = true;
  pwn_state : if pc_Changed change then
      db_snapshot d' = db_snapshot d + 1 ∧ pc_SnapshotRevision change = db_snapshot d' ∧
      db_policy_reconcile d' = Some (pc_PolicyRevision change) ∧
      node_settled rv (pw_NodeID req) d' ∧
      (∀ c, c ∈ pc_TargetChanges change →
         change_ok d d' c ∧ ch_SnapshotRevision c = db_snapshot d')
    else d' = d ∧ pc_TargetChanges change = []
}.

Lemma policy_operation_inv rv req d change d' :
  db_inv d → policy_operation (ResolveTargetPolicy rv) req d = (Ok change, d') →
  db_inv d' ∧ policy_written rv req d change d' ∧
  (pc_Changed change = true → ∀ q,
     loadManagedPolicyIntent (pw_NodeID req) d ≠ Ok (pc_PolicyRevision change, q)).
Proof.
  intros Hinv H. unfold policy_operation in H. st_step H as [[rev snap] changed] d1 E.
  cbn in E. apply replace_inv in E. pose proof E as [Hid Hexp Hpos Hrev Hrb Hst].
  destruct changed; cbn [negb] in H.
  2:{ run. injection H as <- <-. subst d1. split_and!; [done| |done]. by split. }
  destruct Hst as (-> & Hmax & a & p & -> & Hoth).
  assert (db_inv (set_policy d a p (db_snapshot d + 1))) as Hinv1 by by apply (db_inv_frame _ d).
  st_step H as cs d2 E2. apply materialize_node_inv in E2 as (Hf & Hns & Hco); [|done].
  st_step H as [] d3 E3. cbn in E3. apply reset_policy_inv in E3.
  st_step H as [] d4 E4. run. injection H as <- <-.
  assert (db_inv d3) as Hinv3.
  { subst d3. apply (db_inv_frame _ (set_policy d a p (db_snapshot d + 1))); [apply Hf..|done]. }
  assert (∃ l, d4 = set_audits d3 l) as [l ->].
  { clear -E4. cbn in E4. unfold append_audit in E4. run. destruct (_ || _ || _); [done|].
    destruct (IsZero _); [done|]. destruct (existsb _ _); [done|]. injection E4 as <-. eauto. }
  pose proof (df_policy _ _ Hf) as Hpol. pose proof (df_snapshot _ _ Hf) as Hsn.
  assert (desired_frame d2 (set_audits d3 l)) as Hf4 by by subst d3.
  split_and!; [by apply (db_inv_frame _ d3)| |].
  - split; cbn [pc_NodeID pc_PolicyRevision pc_Changed pc_TargetChanges pc_SnapshotRevision]; try done.
    + destruct Hrb as (q & Hq & Hqs). exists q. split; [|done].
      rewrite (load_rows _ d2 (set_audits d3 l)) by apply Hf4. by rewrite (load_rows _ _ _ Hpol).
    + subst d3. cbn in Hsn. split_and!; [done|done|done| |].
      * intros k q Hk Hn. apply (settled_frame rv d2); [done..|]. by apply (Hns k q).
      * intros c (c' & -> & Hc')%list_elem_of_fmap. split; [|done].
        destruct (Hco c' Hc'). by split.
  - intros _ q. cbn. by eapply replaced_fresh.
Qed.

(** ** The service *)
Lemma loaded_state node d state :
  LoadDesiredFirewallState node d = Ok state →
  loadManagedPolicyIntent node d = Ok (ds_PolicyRevision state, ds_Policy state).
Proof.
  unfold LoadDesiredFirewallState. intros H. inv_ok.
  match goal with E : loadManagedPolicyIntent _ _ = Ok ?x |- _ => destruct x as [rev q] end.
  by inv_ok.
Qed.

(** A store whose successful reads show its tables. *)
Definition reads_tables {S} (view : S → db) (load : NodeID → S → result DesiredFirewallState) : Prop :=
  ∀ n s state, load n s = Ok state → LoadDesiredFirewallState n (view s) = Ok state.

Lemma loaded_protects node d rev q :
  loadManagedPolicyIntent node d = Ok (rev, q) →
  loopback4 ∈ elems (mp_ProtectedTargets q) ∧ loopback6 ∈ elems (mp_ProtectedTargets q).
Proof.
  unfold loadManagedPolicyIntent. intros H.
  apply result_bind_Ok in H as ([r1 l1] & _ & H). apply result_bind_Ok in H as ([r2 l2] & _ & H).
  destruct r2; [|done]. inv_ok.
  match goal with E : NewManagedPolicyIntent _ _ = Ok _ |- _ => apply NewManagedPolicyIntent_protects in E end.
  tauto.
Qed.

Section service.
Context {S W : Type} (view : S → db) `{RefinesPolicy S view}.
Context (rv : ManagedPolicyTargetResolver) (policies : DesiredBanProjection → ST S TargetPolicy)
  (load : NodeID → S → result DesiredFirewallState).

(** A read-back that proves the commit shows the revision of the write. *)
Lemma proved_revision req change node s :
  reads_tables view load → prove_committed req change (load node s) = Ok tt →
  ∃ q, loadManagedPolicyIntent node (view s) = Ok (pc_PolicyRevision change, q).
Proof.
  unfold prove_committed. intros Hload Hp.
  apply result_bind_Ok in Hp as (state & Hl%wrap_Ok & Hp). inv_ok. gobool.
  apply Hload, loaded_state in Hl. destruct_and?. exists (ds_Policy state). congruence.
Qed.

Lemma policy_replace_cases req commit s value err s' :
  (∀ p, refines view (policies p) (ResolveTargetPolicy rv p)) → reads_tables view load →
  db_inv (view s) → policy_replace policies load req commit s = (value, err, s') →
  db_inv (view s') ∧
  ((view s' = view s ∧ is_Some err) ∨
   ∃ change, value = Some change ∧ policy_written rv req (view s) change (view s') ∧
     (∀ e, err = Some e →
        errors_Is e ErrCommitUnknown = true ∧ ∃ cause, commit = CommitFailed cause true)).
Proof.
  intros Hpol Hload Hinv Hr. unfold policy_replace in Hr.
  destruct (validatePolicyWriteRequest req); [|injection Hr as <- <- <-; by eauto].
  unfold RunTransaction in Hr.
  destruct (policy_operation policies req s) as [[change|e] s1] eqn:Hop;
    [|injection Hr as <- <- <-; by eauto].
  apply (refines_policy view policies _ Hpol) in Hop.
  apply policy_operation_inv in Hop as (Hinv1 & Hw & Hfresh); [|done].
  destruct commit as [|cause persisted].
  { injection Hr as <- <- <-. split; [done|right]. exists change. by split_and!. }
  assert (errors_Is (NewCommitUnknownError cause) ErrCommitUnknown = true) as Hu by done.
  rewrite Hu in Hr. cbn [negb orb] in Hr.
  destruct (pc_Changed change) eqn:Hch; cbn [negb] in Hr.
  - destruct (prove_committed req change _) as [[]|rb] eqn:Hpc in Hr; injection Hr as <- <- <-.
    + destruct persisted; [|exfalso; apply proved_revision in Hpc as (q & Hq); [by eapply Hfresh|done]].
      split; [done|right]. exists change. by split_and!.
    + destruct persisted; [|by eauto]. split; [done|right]. exists change. split_and!; [done..|].
      intros e [= <-]. split; [|by eauto]. cbn [errors_Is]. by rewrite Hu, orb_true_l, orb_true_r.
  - injection Hr as <- <- <-. pose proof (pwn_state _ _ _ _ _ Hw) as Hst. rewrite Hch in Hst.
    destruct Hst as [Hsame _]. destruct persisted; by eauto.
Qed.

(** C20: replacing the managed policy, over any store that refines the tables,
    is a compare-and-swap that is never misreported. Either the tables and the
    sinks are as before and an error is returned, or the write persisted on
    top of the expected revision: the rows read back as the requested policy
    at the next revision (or unchanged at the current one), the snapshot
    revision advanced by one, every target of the node is settled under the
    new policy, and the caller has the change. No error means the policy was
    woken, then every changed target; an error after a persisted write is an
    unknown commit or a failed wake. In particular an unknown commit that did
    not persist is never reported as a success. *)
Theorem PolicyService_Replace_outcome (WakePolicy : NodeID → ST W unit) WakeTarget req commit
    s w value err s' w' :
  (∀ p, refines view (policies p) (ResolveTargetPolicy rv p)) → reads_tables view load →
  db_inv (view s) →
  Replace policies load WakePolicy WakeTarget req commit s w = (value, err, s', w') →
  db_inv (view s') ∧
  ((view s' = view s ∧ w' = w ∧ is_Some err) ∨
   ∃ change, value = Some change ∧ policy_written rv req (view s) change (view s') ∧
     match err with
     | None =>
       if pc_Changed change
       then ∃ w1, WakePolicy (pw_NodeID req) w = (Ok tt, w1) ∧
                  st_each (wake_change WakeTarget) (pc_TargetChanges change) w1 = (Ok tt, w')
       else w' = w
     | Some e =>
       (errors_Is e ErrCommitUnknown = true ∧ w' = w ∧ ∃ cause, commit = CommitFailed cause true) ∨
       errors_As e "PostCommitPolicyWakeError" = true ∨ errors_Is e ErrPostCommitWake = true
     end).
Proof.
  intros Hpol Hload Hinv Hr. unfold Replace in Hr.
  destruct (policy_replace policies load req commit s) as [[v e] s1] eqn:Hc.
  apply policy_replace_cases in Hc as (Hinv1 & Hcases); [|done..].
  destruct Hcases as [(Hsame & [e' ->])|(change & -> & Hw & He)].
  { injection Hr as <- <- <- <-. by eauto. }
  destruct e as [e|].
  { injection Hr as <- <- <- <-. destruct (He e eq_refl). split; [done|right].
    exists change. split_and!; [done..|]. by left. }
  destruct (pc_Changed change) eqn:Hch; cbn [negb] in Hr.
  2:{ injection Hr as <- <- <- <-. split; [done|right]. exists change. split_and!; [done..|]. by rewrite Hch. }
  rewrite (pwn_node _ _ _ _ _ Hw) in Hr.
  destruct (WakePolicy (pw_NodeID req) w) as [[[]|e] w1] eqn:Hwp.
  2:{ injection Hr as <- <- <- <-. split; [done|right]. exists change. split_and!; [done..|]. by auto. }
  destruct (WakeCommittedTargets WakeTarget (pc_TargetChanges change) w1) as [[res pending] w2] eqn:Hwt.
  apply WakeCommittedTargets_spec in Hwt. destruct res as [[]|e]; injection Hr as <- <- <- <-;
    (split; [done|right]); exists change; (split_and!; [done..|]).
  - rewrite Hch. destruct Hwt as [_ Hwt]. by eauto.
  - destruct Hwt as [Hwt _]. by auto.
Qed.

(** bootstrapping succeeds only with a policy in place: whatever the commit
    outcome, no error means that the tables hold a policy of the node that
    protects both loopback ranges at the reported revision; an initialized
    node is left as it was, and a node without a policy whose rows were
    written gets revision 1. *)
Theorem BootstrapInitialManagedPolicy_initializes node at_ commit s value s' :
  (∀ p, refines view (policies p) (ResolveTargetPolicy rv p)) → reads_tables view load →
  db_inv (view s) →
  BootstrapInitialManagedPolicy policies load node at_ commit s = (value, None, s') →
  db_inv (view s') ∧
  ∃ change q, value = Some change ∧
    loadManagedPolicyIntent node (view s') = Ok (pc_PolicyRevision change, q) ∧
    loopback4 ∈ elems (mp_ProtectedTargets q) ∧ loopback6 ∈ elems (mp_ProtectedTargets q) ∧
    (∀ state, load node s = Ok state → s' = s ∧ pc_Changed change = false) ∧
    (pc_Changed change = true → pc_PolicyRevision change = 1).
Proof.
  intros Hpol Hload Hinv Hb. unfold BootstrapInitialManagedPolicy in Hb. destruct (_ || _ || _); [done|].
  destruct (load node s) as [state|e] eqn:Hl.
  { injection Hb as <- <-. split; [done|]. apply Hload, loaded_state in Hl.
    destruct (loaded_protects _ _ _ _ Hl). eexists _, _. split_and!; [done|done|done|done| |done].
    intros. by split. }
  destruct (negb _); [done|]. destruct NewInitialManagedPolicyIntent as [policy|]; [|done].
  destruct (policy_replace policies load _ commit s) as [[v err] s1] eqn:Hr.
  apply policy_replace_cases in Hr as [Hinv1 Hcases]; [|done..].
  destruct err as [err|].
  - destruct (load node s1) as [state|] eqn:Hl1; [|done].
    injection Hb as <- <-. split; [done|]. apply Hload, loaded_state in Hl1.
    destruct (loaded_protects _ _ _ _ Hl1). by eexists _, _; split_and!.
  - injection Hb as -> ->. destruct Hcases as [(_ & [? ?])|(change & -> & Hw & _)]; [done|].
    split; [done|]. destruct (pwn_readback _ _ _ _ _ Hw) as (q & Hq & _). cbn in Hq.
    destruct (loaded_protects _ _ _ _ Hq). exists change, q. split_and!; try done.
    intros Hch. pose proof (pwn_revision _ _ _ _ _ Hw) as Hrev. by rewrite Hch in Hrev.
Qed.
End service.

(** ** Concrete runs *)
Definition sample_policy : ManagedPolicyIntent :=
  match NewManagedPolicyIntent (Some [sample_network]) (Some [loopback4; loopback6]) with
  | Ok p => p | Err _ => MkPolicy EmptyString None None
  end.
Definition sample_write : PolicyWriteRequest :=
  MkPolicyWriteRequest sample_node 1 sample_policy "audit-1" "policy-1" "administrator" sample_time.
Definition record_policy_wake (n : NodeID) : ST (list Prefix) unit := st_modify (λ l, l ++ [loopback4]).

Lemma PolicyService_Replace_outcome_witness :
  ∃ value d' w', Replace (ResolveTargetPolicy sample_resolver) LoadDesiredFirewallState
      record_policy_wake record_wake sample_write (CommitFailed ErrCommitUnknown true) sample_tables []
      = (value, None, d', w') ∧
    w' = [loopback4; sample_target] ∧
    ∃ change, value = Some change ∧ policy_written sample_resolver sample_write sample_tables change d'.
Proof.
  assert (match Replace (ResolveTargetPolicy sample_resolver) LoadDesiredFirewallState
      record_policy_wake record_wake sample_write (CommitFailed ErrCommitUnknown true) sample_tables [] with
      | (_, None, _, w) => w | _ => [] end = [loopback4; sample_target]) as Hok by (vm_compute; reflexivity).
  destruct (Replace (ResolveTargetPolicy sample_resolver) LoadDesiredFirewallState
      record_policy_wake record_wake sample_write (CommitFailed ErrCommitUnknown true) sample_tables [])
    as [[[value [e|]] d'] w'] eqn:E; [discriminate Hok|].
  exists value, d', w'. split; [reflexivity|]. split; [exact Hok|].
  apply (PolicyService_Replace_outcome id sample_resolver) in E
    as (_ & [(_ & _ & [e He])|(change & Hv & Hw & _)]);
    [discriminate He|exists change; split; assumption|intros p; apply refines_id
    |intros n s state Hs; exact Hs|apply sample_tables_inv].
Defined.

Lemma BootstrapInitialManagedPolicy_initializes_witness :
  ∃ value d', BootstrapInitialManagedPolicy (ResolveTargetPolicy sample_resolver)
      LoadDesiredFirewallState sample_node sample_time CommitOk sample_db = (value, None, d') ∧
    ∃ change q, value = Some change ∧
      loadManagedPolicyIntent sample_node d' = Ok (pc_PolicyRevision change, q) ∧
      pc_PolicyRevision change = 1.
Proof.
  assert (match BootstrapInitialManagedPolicy (ResolveTargetPolicy sample_resolver)
      LoadDesiredFirewallState sample_node sample_time CommitOk sample_db with
      | (Some c, None, _) => pc_Changed c | _ => false end = true) as Hok by (vm_compute; reflexivity).
  destruct (BootstrapInitialManagedPolicy (ResolveTargetPolicy sample_resolver)
      LoadDesiredFirewallState sample_node sample_time CommitOk sample_db)
    as [[value [e|]] d'] eqn:E; [destruct value; discriminate Hok|].
  exists value, d'. split; [reflexivity|].
  apply (BootstrapInitialManagedPolicy_initializes id sample_resolver) in E
    as (_ & change & q & -> & Hq & _ & _ & _ & H1);
    [|intros p; apply refines_id|intros n s state Hs; exact Hs|apply sample_db_inv].
  exists change, q. split; [reflexivity|]. split; [exact Hq|]. apply H1, Hok.
Defined.
