(* ===== verification/GoFmt.v ===== *)
(** * Text formatting of the Go standard library

    strconv.Quote (the %q verb) and time.Time.Format(time.RFC3339Nano) in UTC,
    as the plan and snapshot digests use them. *)

From S2P Require Import Prelude GoStd.

(** ** strconv.Quote

    Which code points beyond ASCII are printable is a table of the Unicode
    version that the toolchain ships, so it is a parameter. *)
Class Unicode := { printable_beyond_ascii : Z → bool }.

Section quote.
Context {U : Unicode}.

Definition strconv_IsPrint (r : Z) : bool :=
  if r <? 0x80 then in_range 0x20 0x7e r else printable_beyond_ascii r.

Definition backslash : Z := 92.
Definition hex_digits (n : nat) (r : Z) : list Z := hex_digit <$> digits 16 n r.

(** appendEscapedRune for a rune [r] whose encoding is [bytes]. *)
Definition escape_rune (r : Z) (bytes : list Z) : list Z :=
  if (r =? 34) || (r =? backslash) then backslash :: bytes
  else if strconv_IsPrint r then bytes
  else if r =? 7 then [backslash; 97]
  else if r =? 8 then [backslash; 98]
  else if r =? 12 then [backslash; 102]
  else if r =? 10 then [backslash; 110]
  else if r =? 13 then [backslash; 114]
  else if r =? 9 then [backslash; 116]
  else if r =? 11 then [backslash; 118]
  else if (r <? 32) || (r =? 0x7f) then [backslash; 120] ++ hex_digits 2 r
  else if r <? 0x10000 then [backslash; 117] ++ hex_digits 4 r
  else [backslash; 85] ++ hex_digits 8 r.

(** A byte that starts no valid encoding is printed as \x and two digits. *)
Fixpoint quote_bytes (l : list Z) : list Z :=
  match l with
  | [] => []
  | b0 :: r =>
    let invalid := [backslash; 120] ++ hex_digits 2 b0 in
    if b0 <? 0x80 then escape_rune b0 [b0] ++ quote_bytes r
    else if in_range 0xC2 0xDF b0 then
      match r with
      | b1 :: r1 =>
        if utf8_cont b1
        then escape_rune ((b0 - 0xC0) * 0x40 + (b1 - 0x80)) [b0; b1] ++ quote_bytes r1
        else invalid ++ quote_bytes r
      | _ => invalid ++ quote_bytes r
      end
    else if in_range 0xE0 0xEF b0 then
      match r with
      | b1 :: b2 :: r2 =>
        if in_range (if b0 =? 0xE0 then 0xA0 else 0x80) (if b0 =? 0xED then 0x9F else 0xBF) b1
           && utf8_cont b2
        then escape_rune ((b0 - 0xE0) * 0x1000 + (b1 - 0x80) * 0x40 + (b2 - 0x80)) [b0; b1; b2]
             ++ quote_bytes r2
        else invalid ++ quote_bytes r
      | _ => invalid ++ quote_bytes r
      end
    else if in_range 0xF0 0xF4 b0 then
      match r with
      | b1 :: b2 :: b3 :: r3 =>
        if in_range (if b0 =? 0xF0 then 0x90 else 0x80) (if b0 =? 0xF4 then 0x8F else 0xBF) b1
           && utf8_cont b2 && utf8_cont b3
        then escape_rune ((b0 - 0xF0) * 0x40000 + (b1 - 0x80) * 0x1000 + (b2 - 0x80) * 0x40
                          + (b3 - 0x80)) [b0; b1; b2; b3]
             ++ quote_bytes r3
        else invalid ++ quote_bytes r
      | _ => invalid ++ quote_bytes r
      end
    else invalid ++ quote_bytes r
  end.

Definition Quote (s : string) : string :=
  string_of_bytes ([34] ++ quote_bytes (string_bytes s) ++ [34]).
End quote.

(** The table that no test input below reaches. *)
Definition ascii_only : Unicode := {| printable_beyond_ascii := λ _, false |}.

Example quote_plain : @Quote ascii_only "nftables" = string_of_bytes [34; 110; 102; 116; 97; 98; 108; 101; 115; 34].
Proof. reflexivity. Qed.
Example quote_escapes :
  @Quote ascii_only (string_of_bytes [34; 10; 92; 127; 0xC3; 0xC2; 0xA0])
  = string_of_bytes [34] +:+ "\" +:+ string_of_bytes [34] +:+ "\n\\\x7f\xc3\u00a0" +:+ string_of_bytes [34].
Proof. vm_compute. reflexivity. Qed.

(** ** time.RFC3339Nano in UTC *)
Definition day : duration := 86400 * second.

(** Year, month and day of a day count from 0001-01-01, in the proleptic
    Gregorian calendar: 400-year cycles that start on 1 March. *)
Definition civil (days : Z) : Z * Z * Z :=
  let z := days + 306 in
  let era := z / 146097 in
  let doe := z mod 146097 in
  let yoe := (doe - doe / 1460 + doe / 36524 - doe / 146096) / 365 in
  let doy := doe - (365 * yoe + yoe / 4 - yoe / 100) in
  let mp := (5 * doy + 2) / 153 in
  let d := doy - (153 * mp + 2) / 5 + 1 in
  let m := if mp <? 10 then mp + 3 else mp - 9 in
  let y := yoe + era * 400 in
  (if m <=? 2 then y + 1 else y, m, d).

(** appendInt: a sign and at least [n] digits. *)
Definition pad_int (n : nat) (x : Z) : string :=
  let text := itoa (Z.abs x) in
  (if x <? 0 then "-" else EmptyString)
  +:+ String.concat EmptyString (replicate (n - String.length text) "0") +:+ text.

Fixpoint trim_zeros (l : list Z) : list Z :=
  match l with
  | [] => []
  | d :: r => match trim_zeros r with [] => if d =? 0 then [] else [d] | r' => d :: r' end
  end.

Definition fraction (nanos : Z) : string :=
  match trim_zeros (digits 10 9 nanos) with
  | [] => EmptyString
  | l => "." +:+ string_of_bytes ((λ d, 48 + d) <$> l)
  end.

Definition FormatRFC3339Nano (t : time) : string :=
  let '(y, m, d) := civil (t / day) in
  let s := (t mod day) / second in
  pad_int 4 y +:+ "-" +:+ pad_int 2 m +:+ "-" +:+ pad_int 2 d +:+ "T"
  +:+ pad_int 2 (s / 3600) +:+ ":" +:+ pad_int 2 ((s / 60) mod 60) +:+ ":" +:+ pad_int 2 (s mod 60)
  +:+ fraction (t mod second) +:+ "Z".

Example format_epoch : FormatRFC3339Nano (unix_to_internal * second) = "1970-01-01T00:00:00Z".
Proof. vm_compute. reflexivity. Qed.
Example format_leap :
  FormatRFC3339Nano ((unix_to_internal + 1709210096) * second + 120000500) = "2024-02-29T12:34:56.1200005Z".
Proof. vm_compute. reflexivity. Qed.
Example format_zero_time : FormatRFC3339Nano 0 = "0001-01-01T00:00:00Z".
Proof. vm_compute. reflexivity. Qed.
