(* ===== verification/ObservedState.v ===== *)
(** * Observed firewall state and the durable retry ledger

    internal/core/observed_state.go and internal/core/reconcile_persistence.go:
    what a probe reports, as it is persisted, and the rows of the retry ledger. *)

From S2P Require Import Prelude GoStd Netip Identity CoreModel.

(** ** Observations (observed_state.go) *)
Inductive ObservedPresence :=
  | ObservedPresenceUnknown | ObservedPresenceAbsent | ObservedPresencePresent
  | ObservedPresenceOther (n : Z).
#[export] Instance ObservedPresence_eq_dec : EqDecision ObservedPresence.
Proof. solve_decision. Defined.

Record InfrastructureObservedState := MkInfraObserved {
  io_Presence : ObservedPresence;
  io_ObservedAt : time;
  io_Backend : string;
  io_OwnerVersion : string;
  io_Digest : string;
  io_ConfirmedRevision : Z;
  io_LastErrorCode : string
}.

Record PolicyObservedState := MkPolicyObserved {
  po_Presence : ObservedPresence;
  po_ObservedAt : time;
  po_RelationDigest : string;
  po_ConfirmedRevision : Z;
  po_LastErrorCode : string
}.

Record TargetObservedState := MkTargetObserved {
  to_Physical : PhysicalTargetObserved;
  to_ConfirmedGeneration : Z
}.

Record ObservedFirewallUpdate := MkObservedUpdate {
  ou_NodeID : NodeID;
  ou_Infrastructure : option InfrastructureObservedState;
  ou_Policy : option PolicyObservedState;
  ou_Targets : list TargetObservedState
}.

Record ObservedFirewallSnapshot := MkObservedSnapshot {
  os_NodeID : NodeID;
  os_Infrastructure : option InfrastructureObservedState;
  os_Policy : option PolicyObservedState;
  os_Targets : list TargetObservedState
}.

(** ** Validation *)
Definition not_empty (s : string) : bool := negb (is_empty s).

Definition validateObservedTime (observedAt : time) : result unit :=
  fail_if (IsZero observedAt || (UnixMicro observedAt <=? 0)) (Errorf "observed time is invalid").

Definition InfrastructureObserved_Validate (s : InfrastructureObservedState) : result unit :=
  validateObservedTime (io_ObservedAt s);;
  let physical := not_empty (io_Backend s) || not_empty (io_OwnerVersion s)
                  || not_empty (io_Digest s) in
  match io_Presence s with
  | ObservedPresenceUnknown =>
    fail_if (physical || negb (io_ConfirmedRevision s =? 0))
            (Errorf "unknown observation cannot contain physical or confirmed state");;
    fail_if (is_empty (io_LastErrorCode s)) (Errorf "unknown observation requires an error code")
  | ObservedPresenceAbsent =>
    fail_if (physical || negb (io_ConfirmedRevision s =? 0) || not_empty (io_LastErrorCode s))
            (Errorf "absent observation cannot contain physical, confirmed, or error state")
  | ObservedPresencePresent =>
    fail_if (is_empty (io_Backend s) || is_empty (io_OwnerVersion s) || is_empty (io_Digest s))
            (Errorf "present observation requires complete physical state");;
    fail_if (not_empty (io_LastErrorCode s))
            (Errorf "present observation cannot contain an error code")
  | ObservedPresenceOther _ => Err (Errorf "presence is invalid")
  end.

Definition PolicyObserved_Validate (s : PolicyObservedState) : result unit :=
  validateObservedTime (po_ObservedAt s);;
  match po_Presence s with
  | ObservedPresenceUnknown =>
    fail_if (not_empty (po_RelationDigest s) || negb (po_ConfirmedRevision s =? 0))
            (Errorf "unknown observation cannot contain physical or confirmed state");;
    fail_if (is_empty (po_LastErrorCode s)) (Errorf "unknown observation requires an error code")
  | ObservedPresenceAbsent =>
    fail_if (not_empty (po_RelationDigest s) || negb (po_ConfirmedRevision s =? 0)
             || not_empty (po_LastErrorCode s))
            (Errorf "absent observation cannot contain physical, confirmed, or error state")
  | ObservedPresencePresent =>
    fail_if (is_empty (po_RelationDigest s))
            (Errorf "present observation requires a relation digest");;
    fail_if (not_empty (po_LastErrorCode s))
            (Errorf "present observation cannot contain an error code")
  | ObservedPresenceOther _ => Err (Errorf "presence is invalid")
  end.

Definition validEvidence (p : PhysicalTargetObserved) : bool :=
  match pt_Evidence p with TargetObservationEvidenceOther _ => false | _ => true end.

Definition hasTargetPhysicalState (p : PhysicalTargetObserved) : bool :=
  not_empty (pt_Backend p) || negb (bool_decide (pt_PolicyCoverage p = ObservedPolicyUnknown))
  || not_empty (pt_PolicyRelationDigest p) || negb (bool_decide (pt_TimeoutMode p = TimeoutNone))
  || negb (is_nil (pt_NativeExpiry p)) || negb (pt_Scopes p =? 0)
  || negb (bool_decide (pt_AddressFamily p = AddressFamilyOther 0)) || not_empty (pt_OwnerVersion p).

Definition validatePresent (p : PhysicalTargetObserved) : result unit :=
  fail_if (negb (validEvidence p)) (Errorf "present observation has invalid evidence");;
  fail_if ((pt_Scopes p =? 0)
           || match pt_AddressFamily p with AddressFamilyOther _ => true | _ => false end)
          (Errorf "present observation requires target identity");;
  fail_if (negb (Z.ldiff (pt_Scopes p) (Z.lor ScopeInput ScopeForward) =? 0))
          (Errorf "present observation has unsupported enforcement scopes");;
  fail_if (negb (bool_decide (pt_AddressFamily p = family_of (pt_CanonicalTarget p))))
          (Errorf "present observation address family does not match target");;
  fail_if (match pt_TimeoutMode p with TimeoutModeOther _ => true | _ => false end)
          (Errorf "present observation has invalid timeout mode");;
  fail_if (negb (eqb (bool_decide (pt_TimeoutMode p = TimeoutNative)) (negb (is_nil (pt_NativeExpiry p)))))
          (Errorf "native timeout and expiry must be present together");;
  fail_if (match pt_NativeExpiry p with
           | Some expiry => IsZero expiry || (UnixMicro expiry <=? 0)
           | None => false
           end) (Errorf "native expiry is invalid");;
  fail_if (not_empty (pt_LastErrorCode p))
          (Errorf "present observation cannot contain an error code");;
  if bool_decide (pt_Evidence p = TargetObservationEvidenceManagedSnapshot) then
    fail_if (not_empty (pt_Backend p) || not_empty (pt_OwnerVersion p)
             || negb (bool_decide (pt_PolicyCoverage p = ObservedPolicyUnknown))
             || not_empty (pt_PolicyRelationDigest p))
            (Errorf "managed snapshot observation cannot contain inferred state")
  else
    fail_if (is_empty (pt_Backend p) || is_empty (pt_OwnerVersion p))
            (Errorf "present observation requires complete physical identity");;
    fail_if (match pt_PolicyCoverage p with
             | ObservedPolicyNone | ObservedPolicyPartial | ObservedPolicyFull => false
             | _ => true
             end) (Errorf "present observation has invalid policy coverage");;
    fail_if (bool_decide (pt_PolicyCoverage p = ObservedPolicyNone)
             && not_empty (pt_PolicyRelationDigest p))
            (Errorf "no policy coverage requires an empty relation digest");;
    fail_if (negb (bool_decide (pt_PolicyCoverage p = ObservedPolicyNone))
             && is_empty (pt_PolicyRelationDigest p))
            (Errorf "covered observation requires a relation digest").

Definition TargetObserved_Validate (s : TargetObservedState) : result unit :=
  let p := to_Physical s in
  fail_if (not_canonical (pt_CanonicalTarget p)) (Errorf "canonical target is invalid");;
  validateObservedTime (pt_ObservedAt p);;
  match pt_BanMembership p with
  | ObservedMembershipUnknown =>
    fail_if (negb (bool_decide (pt_Evidence p = TargetObservationEvidenceComplete))
             || hasTargetPhysicalState p || negb (to_ConfirmedGeneration s =? 0))
            (Errorf "unknown observation cannot contain physical or confirmed state");;
    fail_if (is_empty (pt_LastErrorCode p)) (Errorf "unknown observation requires an error code")
  | ObservedMembershipAbsent =>
    fail_if (negb (validEvidence p)) (Errorf "absent observation has invalid evidence");;
    fail_if (hasTargetPhysicalState p || not_empty (pt_LastErrorCode p))
            (Errorf "absent observation cannot contain physical or error state")
  | ObservedMembershipPresent => validatePresent p
  | ObservedMembershipOther _ => Err (Errorf "membership is invalid")
  end.

(** The loop over the sorted targets: each is validated, then compared with
    its predecessor. *)
Fixpoint validate_observed_targets (previous : option Prefix) (targets : list TargetObservedState)
    : result unit :=
  match targets with
  | [] => Ok tt
  | target :: rest =>
    wrap "target %d" (TargetObserved_Validate target);;
    fail_if (bool_decide (previous = Some (pt_CanonicalTarget (to_Physical target))))
            (Errorf "target %s is duplicated");;
    validate_observed_targets (Some (pt_CanonicalTarget (to_Physical target))) rest
  end.

Definition ObservedUpdate_Validate (u : ObservedFirewallUpdate) : result unit :=
  fail_if (negb (isLowerHex128 (ou_NodeID u))) (Errorf "node id must be 128-bit lowercase hex");;
  fail_if (is_nil (ou_Infrastructure u) && is_nil (ou_Policy u)
           && bool_decide (length (ou_Targets u) = 0%nat))
          (Errorf "at least one Observed domain update is required");;
  (match ou_Infrastructure u with
   | Some i => wrap "infrastructure" (InfrastructureObserved_Validate i)
   | None => Ok tt
   end);;
  (match ou_Policy u with
   | Some p => wrap "policy" (PolicyObserved_Validate p)
   | None => Ok tt
   end);;
  validate_observed_targets None
    (sort_by (λ t, Prefix_String (pt_CanonicalTarget (to_Physical t))) (ou_Targets u)).

(** ** The durable retry ledger (reconcile_persistence.go) *)
Definition ErrReconcileCommitUnknown : error :=
  Errorf "reconcile transition commit outcome is unknown".
Definition ErrReconcileStateRegression : error := Errorf "reconcile state would regress".
(** NewReconcileCommitUnknownError: Unwrap returns the sentinel. *)
Definition NewReconcileCommitUnknownError (cause : error) : error :=
  Typed "ReconcileCommitUnknownError" [] ErrReconcileCommitUnknown.

Inductive ReconcileDomain :=
  | ReconcileDomainInfrastructure | ReconcileDomainPolicy | ReconcileDomainTarget
  | ReconcileDomainOther (n : Z).
#[export] Instance ReconcileDomain_eq_dec : EqDecision ReconcileDomain.
Proof. solve_decision. Defined.

Record PersistedReconcileState := MkPersistedState {
  ps_NodeID : NodeID;
  ps_Domain : ReconcileDomain;
  ps_InfrastructureRevision : Z;
  ps_PolicyRevision : Z;
  ps_Target : Prefix;
  ps_TargetGeneration : Z;
  ps_RetryEpoch : Z;
  ps_RetryState : RetryState;
  ps_UpdatedAt : time
}.
#[export] Instance PersistedReconcileState_eq_dec : EqDecision PersistedReconcileState.
Proof. solve_decision. Defined.

Record PersistedProbeRequirement := MkPersistedProbe {
  pp_NodeID : NodeID;
  pp_Domain : ReconcileDomain;
  pp_InfrastructureRevision : Z;
  pp_PolicyRevision : Z;
  pp_Target : Prefix;
  pp_TargetGeneration : Z;
  pp_SnapshotRevision : Z;
  pp_FenceSnapshotRevision : bool;
  pp_RetryEpoch : Z;
  pp_AttemptCount : Z;
  pp_RecordedAt : time
}.
#[export] Instance PersistedProbeRequirement_eq_dec : EqDecision PersistedProbeRequirement.
Proof. solve_decision. Defined.

Record ReconcileStateTransition := MkTransition {
  rt_State : PersistedReconcileState;
  rt_UpsertProbe : option PersistedProbeRequirement;
  rt_DeleteProbe : option PersistedProbeRequirement;
  rt_Observed : option ObservedFirewallUpdate;
  rt_DeleteOnly : bool
}.

Record ReconcileRetryAudit := MkRetryAudit {
  ra_ID : string;
  ra_IdempotencyKey : string;
  ra_NodeID : NodeID;
  ra_ActorType : string;
  ra_PreviousEpoch : Z;
  ra_OccurredAt : time
}.

Record ReconcileRetryTransition := MkRetryTransition {
  rr_State : PersistedReconcileState;
  rr_Audit : ReconcileRetryAudit
}.

Record ReconcileRecoverySnapshot := MkRecovery {
  rc_States : list PersistedReconcileState;
  rc_ProbeRequirements : list PersistedProbeRequirement
}.

Record ReconcileRetryReadback := MkReadback {
  rb_Recovery : ReconcileRecoverySnapshot;
  rb_Applied : bool
}.

Definition zero_retry_state : RetryState :=
  MkRetryState (ReconcileStatusOther 0) 0 None None EmptyString.
Definition zero_persisted_state : PersistedReconcileState :=
  MkPersistedState EmptyString (ReconcileDomainOther 0) 0 0 zero_prefix 0 0 zero_retry_state 0.
