(* ===== verification/ReconcilePlan.v ===== *)
(** * Operation plans and physical snapshots (internal/reconcile/model/types.go)

    A plan binds one mutation of a failure domain to its fences and payload by
    a digest; a snapshot is what a probe of the firewall observed. *)

From S2P Require Import Prelude GoStd GoFmt Sha256 Netip Identity CoreModel ObservedState.

Inductive Domain :=
  | DomainInfrastructure | DomainPolicy | DomainTarget | DomainOther (n : Z).
#[export] Instance Domain_eq_dec : EqDecision Domain.
Proof. solve_decision. Defined.
Definition Domain_num (d : Domain) : Z :=
  match d with
  | DomainInfrastructure => 1 | DomainPolicy => 2 | DomainTarget => 3 | DomainOther n => n
  end.
#[export] Instance Domain_countable : Countable Domain.
Proof.
  refine (inj_countable'
    (λ d, match d with
          | DomainInfrastructure => inl 1 | DomainPolicy => inl 2 | DomainTarget => inl 3
          | DomainOther n => inr n
          end)
    (λ s : Z + Z, match s with
          | inl 1 => DomainInfrastructure | inl 2 => DomainPolicy | inl _ => DomainTarget
          | inr n => DomainOther n
          end) _).
  by intros [].
Defined.

Inductive ResultKind :=
  | ResultConfirmed | ResultRejected | ResultUnknown | ResultOther (n : Z).
#[export] Instance ResultKind_eq_dec : EqDecision ResultKind.
Proof. solve_decision. Defined.

Record PhysicalInfrastructure := MkPhysicalInfra {
  phi_Backend : string;
  phi_OwnerVersion : string;
  phi_Digest : string
}.
Record PhysicalPolicy := MkPhysicalPolicy { php_RelationDigest : string }.

Record OperationPlan := MkPlan {
  op_Domain : Domain;
  op_Target : Prefix;
  op_DesiredTarget : NormalizedTargetEnforcementIntent;
  op_DesiredInfrastructure : ManagedInfrastructureIntent;
  op_DesiredPolicy : ManagedPolicyIntent;
  op_ExpectedInfrastructureRevision : Z;
  op_ExpectedPolicyRevision : Z;
  op_ExpectedTargetGeneration : Z;
  op_ExpectedSnapshotRevision : Z;
  op_FenceSnapshotRevision : bool;
  op_BasisSnapshotDigest : string;
  op_Digest : string
}.

Record ApplyResult := MkApplyResult {
  ap_Kind : ResultKind;
  ap_Domain : Domain;
  ap_Target : Prefix;
  ap_Digest : string;
  ap_ErrorCode : string
}.

Record Snapshot := MkSnapshot {
  sn_BasisDigest : string;
  sn_Infrastructure : option PhysicalInfrastructure;
  sn_Policy : option PhysicalPolicy;
  sn_Targets : gmap Prefix PhysicalTargetObserved
}.

(** Numeric values of the enumerations, for the %d verbs of the digests. *)
Definition BanMembership_num (m : BanMembership) : Z :=
  match m with BanAbsent => 0 | BanPresent => 1 | BanMembershipOther n => n end.
Definition TimeoutMode_num (m : TimeoutMode) : Z :=
  match m with TimeoutNone => 0 | TimeoutNative => 1 | TimeoutModeOther n => n end.
Definition PolicyCoverage_num (c : PolicyCoverage) : Z :=
  match c with
  | PolicyCoverageNone => 0 | PolicyCoveragePartial => 1 | PolicyCoverageFull => 2
  | PolicyCoverageOther n => n
  end.
Definition AddressFamily_num (f : AddressFamily) : Z :=
  match f with AddressFamilyIPv4 => 1 | AddressFamilyIPv6 => 2 | AddressFamilyOther n => n end.
Definition ObservedMembership_num (m : ObservedMembership) : Z :=
  match m with
  | ObservedMembershipUnknown => 0 | ObservedMembershipAbsent => 1 | ObservedMembershipPresent => 2
  | ObservedMembershipOther n => n
  end.
Definition ObservedPolicy_num (c : ObservedPolicyCoverage) : Z :=
  match c with
  | ObservedPolicyUnknown => 0 | ObservedPolicyNone => 1 | ObservedPolicyPartial => 2
  | ObservedPolicyFull => 3 | ObservedPolicyOther n => n
  end.
Definition Evidence_num (e : TargetObservationEvidence) : Z :=
  match e with
  | TargetObservationEvidenceComplete => 0 | TargetObservationEvidenceManagedSnapshot => 1
  | TargetObservationEvidenceOther n => n
  end.

Section digests.
Context {U : Unicode}.

Definition writePlanTime (value : option time) : string :=
  match value with None => "nil" | Some t => FormatRFC3339Nano t end.

Definition snapshot_target_text (target : Prefix) (observed : PhysicalTargetObserved) : string :=
  "target:" +:+ Prefix_String target +:+ ":" +:+ itoa (ObservedMembership_num (pt_BanMembership observed))
  +:+ ":" +:+ itoa (ObservedPolicy_num (pt_PolicyCoverage observed))
  +:+ ":" +:+ Quote (pt_PolicyRelationDigest observed)
  +:+ ":" +:+ itoa (TimeoutMode_num (pt_TimeoutMode observed)) +:+ ":"
  +:+ writePlanTime (pt_NativeExpiry observed)
  +:+ ":" +:+ itoa (pt_Scopes observed) +:+ ":" +:+ itoa (AddressFamily_num (pt_AddressFamily observed))
  +:+ ":" +:+ Quote (pt_OwnerVersion observed)
  +:+ ":" +:+ itoa (Evidence_num (pt_Evidence observed)) +:+ newline.

(** The targets are visited in the order of their text. *)
Definition Snapshot_Digest (s : Snapshot) : string :=
  if negb (is_empty (sn_BasisDigest s)) then sn_BasisDigest s
  else
    let infra := match sn_Infrastructure s with
      | None => "infra:nil" +:+ newline
      | Some i => "infra:" +:+ Quote (phi_Backend i) +:+ ":" +:+ Quote (phi_OwnerVersion i)
                  +:+ ":" +:+ Quote (phi_Digest i) +:+ newline
      end in
    let policy := match sn_Policy s with
      | None => "policy:nil" +:+ newline
      | Some p => "policy:" +:+ Quote (php_RelationDigest p) +:+ newline
      end in
    let targets := sort_by (λ e, Prefix_String e.1) (map_to_list (sn_Targets s)) in
    hex_encode (Sum256 (string_bytes
      (infra +:+ policy
       +:+ String.concat EmptyString ((λ e, snapshot_target_text e.1 e.2) <$> targets)))).

Definition PlanDigest (plan : OperationPlan) : string :=
  let infra := op_DesiredInfrastructure plan in
  let intent := op_DesiredTarget plan in
  hex_encode (Sum256 (string_bytes
    ("domain:" +:+ itoa (Domain_num (op_Domain plan)) +:+ newline
     +:+ "target:" +:+ Prefix_String (op_Target plan) +:+ newline
     +:+ "infra-rev:" +:+ itoa (op_ExpectedInfrastructureRevision plan) +:+ newline
     +:+ "policy-rev:" +:+ itoa (op_ExpectedPolicyRevision plan) +:+ newline
     +:+ "target-gen:" +:+ itoa (op_ExpectedTargetGeneration plan) +:+ newline
     +:+ "snapshot-rev:" +:+ itoa (op_ExpectedSnapshotRevision plan) +:+ newline
     +:+ "fence-snapshot:" +:+ (if op_FenceSnapshotRevision plan then "true" else "false") +:+ newline
     +:+ "basis:" +:+ Quote (op_BasisSnapshotDigest plan) +:+ newline
     +:+ "infra:" +:+ Quote (mi_Backend infra) +:+ ":" +:+ Quote (mi_OwnerVersion infra)
     +:+ ":" +:+ Quote (mi_Digest infra) +:+ newline
     +:+ "policy:" +:+ Quote (mp_RelationDigest (op_DesiredPolicy plan)) +:+ newline
     +:+ "intent:" +:+ Quote (ti_NodeID intent) +:+ ":" +:+ Prefix_String (ti_CanonicalTarget intent)
     +:+ ":" +:+ itoa (BanMembership_num (ti_BanMembership intent)) +:+ ":"
     +:+ writePlanTime (ti_EffectiveUntil intent)
     +:+ ":" +:+ itoa (TimeoutMode_num (ti_TimeoutMode intent)) +:+ ":" +:+ itoa (ti_Scopes intent)
     +:+ ":" +:+ itoa (AddressFamily_num (ti_AddressFamily intent))
     +:+ ":" +:+ itoa (PolicyCoverage_num (ti_PolicyCoverage intent))
     +:+ ":" +:+ Quote (ti_PolicyRelationDigest intent)
     +:+ ":" +:+ Quote (ti_BackendAttributesDigest intent)
     +:+ ":" +:+ itoa (ti_Generation intent) +:+ newline))).

Definition ValidDomain (d : Domain) : bool :=
  match d with DomainOther _ => false | _ => true end.

Definition ValidatePlan (plan : OperationPlan) : result unit :=
  fail_if (negb (ValidDomain (op_Domain plan))) (Errorf "unknown failure domain %d");;
  fail_if (is_empty (op_Digest plan) || negb (bool_decide (op_Digest plan = PlanDigest plan)))
          (Errorf "plan digest does not bind its payload");;
  match op_Domain plan with
  | DomainInfrastructure =>
    let i := op_DesiredInfrastructure plan in
    fail_if (PrefixIsValid (op_Target plan) || (op_ExpectedInfrastructureRevision plan =? 0))
            (Errorf "infrastructure plan has an invalid fence or target");;
    fail_if (is_empty (mi_Backend i) || is_empty (mi_OwnerVersion i) || is_empty (mi_Digest i))
            (Errorf "infrastructure plan requires a complete desired payload")
  | DomainPolicy =>
    let p := op_DesiredPolicy plan in
    fail_if (PrefixIsValid (op_Target plan) || (op_ExpectedPolicyRevision plan =? 0))
            (Errorf "policy plan has an invalid fence or target");;
    fail_if (is_empty (mp_RelationDigest p)) (Errorf "policy plan requires a relation digest");;
    if negb (is_nil (mp_Allowlist p)) || negb (is_nil (mp_ProtectedTargets p))
    then wrap "policy plan requires a complete desired payload" (Policy_ValidateComplete p)
    else Ok tt
  | DomainTarget =>
    fail_if (not_canonical (op_Target plan)) (Errorf "target plan requires one canonical target");;
    fail_if (negb (bool_decide (ti_CanonicalTarget (op_DesiredTarget plan) = op_Target plan))
             || (op_ExpectedTargetGeneration plan =? 0)
             || negb (ti_Generation (op_DesiredTarget plan) =? op_ExpectedTargetGeneration plan))
            (Errorf "target plan payload generation does not match its fence");;
    wrap "validate desired target" (Intent_Validate (op_DesiredTarget plan))
  | DomainOther _ => Ok tt
  end.

(** The plan with a fresh basis, as Execute rebuilds it after a probe. *)
Definition with_basis (plan : OperationPlan) (basis : string) : OperationPlan :=
  let bind digest := MkPlan (op_Domain plan) (op_Target plan) (op_DesiredTarget plan)
    (op_DesiredInfrastructure plan) (op_DesiredPolicy plan) (op_ExpectedInfrastructureRevision plan)
    (op_ExpectedPolicyRevision plan) (op_ExpectedTargetGeneration plan)
    (op_ExpectedSnapshotRevision plan) (op_FenceSnapshotRevision plan) basis digest in
  bind (PlanDigest (bind (op_Digest plan))).
End digests.
