(* ===== verification/ObservedStore.v ===== *)
(** * Observed firewall state in the database (internal/store/observed_state.go)

    The rows of infrastructure_observed_state and policy_observed_state, the
    observed columns of enforcement_states, and the writes and reads of
    ObservedFirewallUpdate and ObservedFirewallSnapshot over them. Enumerations
    are stored as text and times as Unix microseconds; a canonical_target column
    holds the prefix that was written, ordered by its text. *)

From S2P Require Import Prelude GoStd Netip Identity CoreModel ObservedState.

(** time.UnixMicro(v).UTC() *)
Definition from_UnixMicro (v : Z) : time := unix_to_internal * second + v * microsecond.

(** ** Rows (observed_rows.go) *)
Record infrastructureObservedRow := MkInfraObservedRow {
  ior_Presence : string;
  ior_ObservedAtUS : Z;
  ior_Backend : string;
  ior_OwnerVersion : string;
  ior_Digest : string;
  ior_ConfirmedRevision : option Z;
  ior_LastErrorCode : string
}.
Record policyObservedRow := MkPolicyObservedRow {
  por_Presence : string;
  por_ObservedAtUS : Z;
  por_RelationDigest : string;
  por_ConfirmedRevision : option Z;
  por_LastErrorCode : string
}.
Record targetObservedRow := MkTargetObservedRow {
  tor_TargetGeneration : Z;
  tor_ObservedMembership : string;
  tor_ObservedAtUS : option Z;
  tor_ObservedEvidence : string;
  tor_ObservedBackend : string;
  tor_PolicyCoverage : string;
  tor_PolicyDigest : string;
  tor_TimeoutMode : string;
  tor_NativeExpiryUS : option Z;
  tor_Scopes : Z;
  tor_AddressFamily : Z;
  tor_OwnerVersion : string;
  tor_LastErrorCode : string;
  tor_ConfirmedGeneration : option Z
}.

Record observed_tables := MkObservedTables {
  ot_infra : option infrastructureObservedRow;
  ot_policy : option policyObservedRow;
  ot_targets : gmap (NodeID * Prefix) targetObservedRow
}.

(** ** Columns *)
Definition sqliteUint64 (value : Z) : result Z :=
  fail_if (max_int64 <? value) (Errorf "%s exceeds SQLite integer range");; Ok value.
Definition nullableObservedUint64 (value : Z) : option Z := if value =? 0 then None else Some value.
(** uint64(value.Int64), 0 for NULL *)
Definition nullInt64Value (value : option Z) : Z := wrap64 (default 0 value).
Definition encodeOptionalTime (value : option time) : option Z := UnixMicro <$> value.
Definition decodeOptionalTime (value : option Z) : option time := from_UnixMicro <$> value.

Definition encodeObservedPresence (value : ObservedPresence) : result string :=
  match value with
  | ObservedPresenceUnknown => Ok "unknown"
  | ObservedPresenceAbsent => Ok "absent"
  | ObservedPresencePresent => Ok "present"
  | ObservedPresenceOther _ => Err (Errorf "unsupported Observed presence %d")
  end.
Definition decodeObservedPresence (value : string) : result ObservedPresence :=
  if bool_decide (value = "unknown") then Ok ObservedPresenceUnknown
  else if bool_decide (value = "absent") then Ok ObservedPresenceAbsent
  else if bool_decide (value = "present") then Ok ObservedPresencePresent
  else Err (Errorf "unsupported persisted Observed presence %q").
Definition encodeObservedMembership (value : ObservedMembership) : result string :=
  match value with
  | ObservedMembershipUnknown => Ok "unknown"
  | ObservedMembershipAbsent => Ok "absent"
  | ObservedMembershipPresent => Ok "present"
  | ObservedMembershipOther _ => Err (Errorf "unsupported Observed membership %d")
  end.
Definition decodeObservedMembership (value : string) : result ObservedMembership :=
  if bool_decide (value = "unknown") then Ok ObservedMembershipUnknown
  else if bool_decide (value = "absent") then Ok ObservedMembershipAbsent
  else if bool_decide (value = "present") then Ok ObservedMembershipPresent
  else Err (Errorf "unsupported persisted Observed membership %q").
Definition encodeObservedPolicyCoverage (value : ObservedPolicyCoverage) : result string :=
  match value with
  | ObservedPolicyUnknown => Ok "unknown"
  | ObservedPolicyNone => Ok "none"
  | ObservedPolicyPartial => Ok "partial"
  | ObservedPolicyFull => Ok "full"
  | ObservedPolicyOther _ => Err (Errorf "unsupported Observed policy coverage %d")
  end.
Definition decodeObservedPolicyCoverage (value : string) : result ObservedPolicyCoverage :=
  if bool_decide (value = "unknown") then Ok ObservedPolicyUnknown
  else if bool_decide (value = "none") then Ok ObservedPolicyNone
  else if bool_decide (value = "partial") then Ok ObservedPolicyPartial
  else if bool_decide (value = "full") then Ok ObservedPolicyFull
  else Err (Errorf "unsupported persisted Observed policy coverage %q").
Definition encodeObservedTimeoutMode (value : TimeoutMode) : result string :=
  match value with
  | TimeoutNone => Ok "none"
  | TimeoutNative => Ok "native"
  | TimeoutModeOther _ => Err (Errorf "unsupported Observed timeout mode %d")
  end.
Definition decodeObservedTimeoutMode (value : string) : result TimeoutMode :=
  if bool_decide (value = "none") then Ok TimeoutNone
  else if bool_decide (value = "native") then Ok TimeoutNative
  else Err (Errorf "unsupported persisted Observed timeout mode %q").
Definition encodeObservedAddressFamily (value : AddressFamily) : Z :=
  match value with AddressFamilyIPv6 => 6 | AddressFamilyIPv4 => 4 | AddressFamilyOther _ => 0 end.
Definition decodeObservedAddressFamily (value : Z) : result AddressFamily :=
  if value =? 0 then Ok (AddressFamilyOther 0)
  else if value =? 4 then Ok AddressFamilyIPv4
  else if value =? 6 then Ok AddressFamilyIPv6
  else Err (Errorf "unsupported persisted Observed address family %d").
Definition encodeTargetObservationEvidence (value : TargetObservationEvidence) : string :=
  if bool_decide (value = TargetObservationEvidenceManagedSnapshot) then "managed_snapshot"
  else "complete".
Definition decodeTargetObservationEvidence (value : string) : result TargetObservationEvidence :=
  if bool_decide (value = "complete") then Ok TargetObservationEvidenceComplete
  else if bool_decide (value = "managed_snapshot") then Ok TargetObservationEvidenceManagedSnapshot
  else Err (Errorf "unsupported persisted target observation evidence %q").

(** ** Reading rows *)
Definition loadInfrastructureObserved (t : observed_tables) : result (option InfrastructureObservedState) :=
  match ot_infra t with
  | None => Ok None
  | Some row =>
    presence ← decodeObservedPresence (ior_Presence row);
    let observed := MkInfraObserved presence (from_UnixMicro (ior_ObservedAtUS row)) (ior_Backend row)
      (ior_OwnerVersion row) (ior_Digest row) (nullInt64Value (ior_ConfirmedRevision row))
      (ior_LastErrorCode row) in
    wrap "validate persisted infrastructure observation" (InfrastructureObserved_Validate observed);;
    Ok (Some observed)
  end.

Definition loadPolicyObserved (t : observed_tables) : result (option PolicyObservedState) :=
  match ot_policy t with
  | None => Ok None
  | Some row =>
    presence ← decodeObservedPresence (por_Presence row);
    let observed := MkPolicyObserved presence (from_UnixMicro (por_ObservedAtUS row))
      (por_RelationDigest row) (nullInt64Value (por_ConfirmedRevision row)) (por_LastErrorCode row) in
    wrap "validate persisted policy observation" (PolicyObserved_Validate observed);;
    Ok (Some observed)
  end.

(** decodeTargetObservedRow and decodeTargetObservedState; [observedAt] is the
    Int64 of the nullable column, 0 when it is NULL. *)
Definition decodeTargetObservedRow (target : Prefix) (row : targetObservedRow)
    : result TargetObservedState :=
  membership ← decodeObservedMembership (tor_ObservedMembership row);
  evidence ← decodeTargetObservationEvidence (tor_ObservedEvidence row);
  coverage ← decodeObservedPolicyCoverage (tor_PolicyCoverage row);
  timeout ← decodeObservedTimeoutMode (tor_TimeoutMode row);
  family ← decodeObservedAddressFamily (tor_AddressFamily row);
  let observed := MkTargetObserved
    (MkPhysicalTarget target (from_UnixMicro (default 0 (tor_ObservedAtUS row))) evidence
       (tor_ObservedBackend row) membership coverage (tor_PolicyDigest row) timeout
       (decodeOptionalTime (tor_NativeExpiryUS row)) (tor_Scopes row mod 2 ^ 8) family
       (tor_OwnerVersion row) (tor_LastErrorCode row))
    (nullInt64Value (tor_ConfirmedGeneration row)) in
  wrap "validate persisted target observation" (TargetObserved_Validate observed);;
  Ok observed.

Definition loadTargetObservedForUpdate (t : observed_tables) (node : NodeID) (target : Prefix)
    : result (Z * option TargetObservedState) :=
  match ot_targets t !! (node, target) with
  | None => Ok (0, None)
  | Some row =>
    match tor_ObservedAtUS row with
    | None => Ok (tor_TargetGeneration row, None)
    | Some _ => observed ← decodeTargetObservedRow target row; Ok (tor_TargetGeneration row, Some observed)
    end
  end.

(** ** Comparing observations *)
Definition samePersistedTime (left right : time) : bool := UnixMicro left =? UnixMicro right.
Definition equalOptionalPersistedTime (left right : option time) : bool :=
  match left, right with
  | None, None => true
  | Some l, Some r => samePersistedTime l r
  | _, _ => false
  end.
Definition equalInfrastructureObserved (l r : InfrastructureObservedState) : bool :=
  bool_decide (io_Presence l = io_Presence r) && samePersistedTime (io_ObservedAt l) (io_ObservedAt r)
  && bool_decide (io_Backend l = io_Backend r) && bool_decide (io_OwnerVersion l = io_OwnerVersion r)
  && bool_decide (io_Digest l = io_Digest r) && (io_ConfirmedRevision l =? io_ConfirmedRevision r)
  && bool_decide (io_LastErrorCode l = io_LastErrorCode r).
Definition equalPolicyObserved (l r : PolicyObservedState) : bool :=
  bool_decide (po_Presence l = po_Presence r) && samePersistedTime (po_ObservedAt l) (po_ObservedAt r)
  && bool_decide (po_RelationDigest l = po_RelationDigest r)
  && (po_ConfirmedRevision l =? po_ConfirmedRevision r)
  && bool_decide (po_LastErrorCode l = po_LastErrorCode r).
Definition equalTargetObserved (left right : TargetObservedState) : bool :=
  let l := to_Physical left in let r := to_Physical right in
  bool_decide (pt_CanonicalTarget l = pt_CanonicalTarget r)
  && samePersistedTime (pt_ObservedAt l) (pt_ObservedAt r)
  && bool_decide (pt_Backend l = pt_Backend r)
  && bool_decide (pt_BanMembership l = pt_BanMembership r)
  && bool_decide (pt_PolicyCoverage l = pt_PolicyCoverage r)
  && bool_decide (pt_Evidence l = pt_Evidence r)
  && bool_decide (pt_PolicyRelationDigest l = pt_PolicyRelationDigest r)
  && bool_decide (pt_TimeoutMode l = pt_TimeoutMode r)
  && equalOptionalPersistedTime (pt_NativeExpiry l) (pt_NativeExpiry r)
  && (pt_Scopes l =? pt_Scopes r) && bool_decide (pt_AddressFamily l = pt_AddressFamily r)
  && bool_decide (pt_OwnerVersion l = pt_OwnerVersion r)
  && bool_decide (pt_LastErrorCode l = pt_LastErrorCode r)
  && (to_ConfirmedGeneration left =? to_ConfirmedGeneration right).

Definition rejectObservedTimeConflict (next current : time) (exact : bool) : result unit :=
  if UnixMicro next <? UnixMicro current then Err (Errorf "%s observed time would regress")
  else if UnixMicro current <? UnixMicro next then Ok tt
  else if exact then Ok tt
  else Err (Errorf "%s observation conflicts at the same observed time").

(** ** Writing *)
Fixpoint validate_observed_ranges (targets : list TargetObservedState) : result unit :=
  match targets with
  | [] => Ok tt
  | target :: rest =>
    let p := to_Physical target in
    wrap "target %s" (sqliteUint64 (to_ConfirmedGeneration target));;
    (if negb (bool_decide (pt_BanMembership p = ObservedMembershipPresent)) then Ok tt
     else
       fail_if (negb (Z.ldiff (pt_Scopes p) (Z.lor ScopeInput ScopeForward) =? 0))
               (Errorf "target %s: unsupported observed scope %d");;
       fail_if (negb (bool_decide (pt_AddressFamily p = family_of (pt_CanonicalTarget p))))
               (Errorf "target %s: observed address family does not match target"));;
    validate_observed_ranges rest
  end.

Definition validateObservedFirewallUpdate (u : ObservedFirewallUpdate) : result unit :=
  ObservedUpdate_Validate u;;
  (match ou_Infrastructure u with
   | Some i => sqliteUint64 (io_ConfirmedRevision i);; Ok tt
   | None => Ok tt
   end);;
  (match ou_Policy u with
   | Some p => sqliteUint64 (po_ConfirmedRevision p);; Ok tt
   | None => Ok tt
   end);;
  validate_observed_ranges (ou_Targets u).

(** Insert, or update when the new observation is later; a row that neither
    changed is read back and compared. *)
Definition upsertInfrastructureObserved (observed : InfrastructureObservedState) (t : observed_tables)
    : result observed_tables :=
  presence ← encodeObservedPresence (io_Presence observed);
  let row := MkInfraObservedRow presence (UnixMicro (io_ObservedAt observed)) (io_Backend observed)
    (io_OwnerVersion observed) (io_Digest observed)
    (nullableObservedUint64 (io_ConfirmedRevision observed)) (io_LastErrorCode observed) in
  let written := MkObservedTables (Some row) (ot_policy t) (ot_targets t) in
  match ot_infra t with
  | None => Ok written
  | Some current =>
    if ior_ObservedAtUS current <? ior_ObservedAtUS row then Ok written
    else
      persisted ← wrap "read existing observation" (loadInfrastructureObserved t);
      match persisted with
      | None => Err (Errorf "existing observation disappeared")
      | Some p =>
        rejectObservedTimeConflict (io_ObservedAt observed) (io_ObservedAt p)
          (equalInfrastructureObserved observed p);;
        Ok t
      end
  end.

Definition upsertPolicyObserved (observed : PolicyObservedState) (t : observed_tables)
    : result observed_tables :=
  presence ← encodeObservedPresence (po_Presence observed);
  let row := MkPolicyObservedRow presence (UnixMicro (po_ObservedAt observed))
    (po_RelationDigest observed) (nullableObservedUint64 (po_ConfirmedRevision observed))
    (po_LastErrorCode observed) in
  let written := MkObservedTables (ot_infra t) (Some row) (ot_targets t) in
  match ot_policy t with
  | None => Ok written
  | Some current =>
    if por_ObservedAtUS current <? por_ObservedAtUS row then Ok written
    else
      persisted ← wrap "read existing observation" (loadPolicyObserved t);
      match persisted with
      | None => Err (Errorf "existing observation disappeared")
      | Some p =>
        rejectObservedTimeConflict (po_ObservedAt observed) (po_ObservedAt p)
          (equalPolicyObserved observed p);;
        Ok t
      end
  end.

Definition updateTargetObserved (node : NodeID) (observed : TargetObservedState) (t : observed_tables)
    : result observed_tables :=
  let p := to_Physical observed in
  let key := (node, pt_CanonicalTarget p) in
  '(desiredGeneration, persisted) ←
    wrap "read Desired fence and existing observation"
      (loadTargetObservedForUpdate t node (pt_CanonicalTarget p));
  fail_if (desiredGeneration =? 0) (Errorf "Desired target does not exist");;
  fail_if (negb (to_ConfirmedGeneration observed =? 0)
           && negb (to_ConfirmedGeneration observed =? desiredGeneration))
          (Errorf "confirmed generation %d differs from current Desired generation %d");;
  (match persisted with
   | None => Ok tt
   | Some q => rejectObservedTimeConflict (pt_ObservedAt p) (pt_ObservedAt (to_Physical q))
                 (equalTargetObserved observed q)
   end);;
  if match persisted with
     | None => false
     | Some q => UnixMicro (pt_ObservedAt p) =? UnixMicro (pt_ObservedAt (to_Physical q))
     end
  then Ok t
  else
    membership ← encodeObservedMembership (pt_BanMembership p);
    coverage ← encodeObservedPolicyCoverage (pt_PolicyCoverage p);
    timeout ← encodeObservedTimeoutMode (pt_TimeoutMode p);
    match ot_targets t !! key with
    | Some row =>
      if (tor_TargetGeneration row =? desiredGeneration)
         && match tor_ObservedAtUS row with None => true | Some at_ => at_ <? UnixMicro (pt_ObservedAt p) end
      then
        let row' := MkTargetObservedRow (tor_TargetGeneration row) membership
          (Some (UnixMicro (pt_ObservedAt p))) (encodeTargetObservationEvidence (pt_Evidence p))
          (pt_Backend p) coverage (pt_PolicyRelationDigest p) timeout
          (encodeOptionalTime (pt_NativeExpiry p)) (pt_Scopes p)
          (encodeObservedAddressFamily (pt_AddressFamily p)) (pt_OwnerVersion p) (pt_LastErrorCode p)
          (nullableObservedUint64 (to_ConfirmedGeneration observed)) in
        Ok (MkObservedTables (ot_infra t) (ot_policy t) (<[key := row']> (ot_targets t)))
      else Err (Errorf "Desired generation or observation changed concurrently")
    | None => Err (Errorf "Desired generation or observation changed concurrently")
    end.

Fixpoint update_targets (node : NodeID) (targets : list TargetObservedState) (t : observed_tables)
    : result observed_tables :=
  match targets with
  | [] => Ok t
  | target :: rest => t' ← wrap "write target %s" (updateTargetObserved node target t); update_targets node rest t'
  end.

Definition writeObservedFirewallUpdate (u : ObservedFirewallUpdate) (t : observed_tables)
    : result observed_tables :=
  t ← (match ou_Infrastructure u with
       | Some i => wrap "write infrastructure" (upsertInfrastructureObserved i t)
       | None => Ok t
       end);
  t ← (match ou_Policy u with
       | Some p => wrap "write policy" (upsertPolicyObserved p t)
       | None => Ok t
       end);
  update_targets (ou_NodeID u) (ou_Targets u) t.

(** ** Loading *)
Fixpoint decode_targets (rows : list (Prefix * targetObservedRow)) : result (list TargetObservedState) :=
  match rows with
  | [] => Ok []
  | (target, row) :: rest =>
    observed ← wrap "decode target" (decodeTargetObservedRow target row);
    others ← decode_targets rest;
    Ok (observed :: others)
  end.

(** The rows of the node that were observed, in the order of their text. *)
Definition observed_rows (node : NodeID) (t : observed_tables) : list (Prefix * targetObservedRow) :=
  sort_by (λ e, Prefix_String e.1)
    (omap (λ e, if bool_decide (e.1.1 = node) && negb (is_nil (tor_ObservedAtUS e.2))
                then Some (e.1.2, e.2) else None) (map_to_list (ot_targets t))).

Definition load_observed (node : NodeID) (t : observed_tables) : result ObservedFirewallSnapshot :=
  infrastructure ← wrap "infrastructure" (loadInfrastructureObserved t);
  policy ← wrap "policy" (loadPolicyObserved t);
  targets ← decode_targets (observed_rows node t);
  Ok (MkObservedSnapshot node infrastructure policy targets).
