(* ===== verification/ReconcileStore.v ===== *)
(** * The durable retry ledger (internal/store/reconcile_state.go)

    The rows of the three reconcile state tables, of reconcile_probe_requirements
    and of the retry audits, and the transactions over them that the reconcile
    controller uses through its store port. A transaction may fail to begin, may
    fail at a statement and be rolled back, or may fail at its commit, in which
    case the rows are there or not. As in file ObservedStore a canonical_target
    column holds the prefix that was written, and no prefix for the empty text. *)

From S2P Require Import Prelude GoStd Netip Identity CoreModel ObservedState ObservedStore.

(** ** Rows (gorm_reconcile_rows.go) *)
(** One row of the infrastructure, policy or target state table: the revision or
    generation and what the three tables have in common. *)
Record reconcileStateRow := MkStateRow {
  sr_Key : Z;
  sr_RetryEpoch : Z;
  sr_Status : string;
  sr_AttemptCount : Z;
  sr_LastAttemptAtUS : option Z;
  sr_NextAttemptAtUS : option Z;
  sr_LastErrorCode : option string;
  sr_UpdatedAtUS : Z
}.

Record reconcileProbeRequirementRow := MkProbeRow {
  qr_NodeID : string;
  qr_Domain : string;
  qr_CanonicalTarget : option Prefix;
  qr_InfrastructureRevision : Z;
  qr_PolicyRevision : Z;
  qr_TargetEnforcementGeneration : Z;
  qr_SnapshotRevision : Z;
  qr_FenceSnapshotRevision : Z;
  qr_RetryEpoch : Z;
  qr_AttemptCount : Z;
  qr_RecordedAtUS : Z
}.

Record reconcileRetryAuditRecord := MkAuditRecord {
  ar_ID : string; ar_IdempotencyKey : string; ar_NodeID : string; ar_Category : string;
  ar_Action : string; ar_Result : string; ar_Severity : string; ar_ActorType : string;
  ar_Details : string; ar_Critical : Z;
  ar_DeliveryID : option string; ar_AlertID : option string; ar_DecisionID : option string;
  ar_ErrorCode : option string; ar_CreatedAtUS : Z
}.
#[export] Instance reconcileRetryAuditRecord_eq_dec : EqDecision reconcileRetryAuditRecord.
Proof. solve_decision. Defined.

Record reconcile_db := MkReconcileDb {
  rd_node : option NodeID;
  rd_infra : option reconcileStateRow;
  rd_policy : option reconcileStateRow;
  rd_targets : gmap (NodeID * Prefix) reconcileStateRow;
  rd_probes : list reconcileProbeRequirementRow;
  rd_audits : list reconcileRetryAuditRecord;
  rd_observed : observed_tables
}.
Definition set_states (d : reconcile_db) infra policy targets : reconcile_db :=
  MkReconcileDb (rd_node d) infra policy targets (rd_probes d) (rd_audits d) (rd_observed d).
Definition set_probes (d : reconcile_db) probes : reconcile_db :=
  MkReconcileDb (rd_node d) (rd_infra d) (rd_policy d) (rd_targets d) probes (rd_audits d) (rd_observed d).
Definition set_audits (d : reconcile_db) audits : reconcile_db :=
  MkReconcileDb (rd_node d) (rd_infra d) (rd_policy d) (rd_targets d) (rd_probes d) audits (rd_observed d).
Definition set_observed (d : reconcile_db) observed : reconcile_db :=
  MkReconcileDb (rd_node d) (rd_infra d) (rd_policy d) (rd_targets d) (rd_probes d) (rd_audits d) observed.

(** ** Columns *)
Definition maxPersistedReconcileAttempts : Z := 6.
Definition max_uint32 : Z := 2 ^ 32 - 1.

Definition encodeReconcileDomainChecked (d : ReconcileDomain) : result string :=
  match d with
  | ReconcileDomainInfrastructure => Ok "infrastructure"
  | ReconcileDomainPolicy => Ok "policy"
  | ReconcileDomainTarget => Ok "target"
  | ReconcileDomainOther _ => Err (Errorf "unsupported reconcile domain %d")
  end.
Definition encodeReconcileDomain (d : ReconcileDomain) : string :=
  match encodeReconcileDomainChecked d with Ok s => s | Err _ => EmptyString end.
Definition decodeReconcileDomain (value : string) : result ReconcileDomain :=
  if bool_decide (value = "infrastructure") then Ok ReconcileDomainInfrastructure
  else if bool_decide (value = "policy") then Ok ReconcileDomainPolicy
  else if bool_decide (value = "target") then Ok ReconcileDomainTarget
  else Err (Errorf "unsupported persisted reconcile domain %q").
Definition encodeReconcileStatusChecked (s : ReconcileStatus) : result string :=
  match s with
  | ReconcilePending => Ok "pending"
  | ReconcileApplying => Ok "applying"
  | ReconcileConverged => Ok "converged"
  | ReconcileRetryWaiting => Ok "retry_waiting"
  | ReconcileDegraded => Ok "degraded"
  | ReconcileStatusOther _ => Err (Errorf "unsupported reconcile status %d")
  end.
Definition encodeReconcileStatus (s : ReconcileStatus) : string :=
  match encodeReconcileStatusChecked s with Ok t => t | Err _ => EmptyString end.
Definition decodeReconcileStatus (value : string) : result ReconcileStatus :=
  if bool_decide (value = "pending") then Ok ReconcilePending
  else if bool_decide (value = "applying") then Ok ReconcileApplying
  else if bool_decide (value = "converged") then Ok ReconcileConverged
  else if bool_decide (value = "retry_waiting") then Ok ReconcileRetryWaiting
  else if bool_decide (value = "degraded") then Ok ReconcileDegraded
  else Err (Errorf "unsupported persisted reconcile status %q").
Definition optionalTimePointer (value : option time) : option Z := UnixMicro <$> value.
Definition decodeOptionalTimePointer (value : option Z) : option time := from_UnixMicro <$> value.
Definition optionalTextPointer (value : string) : option string :=
  if is_empty value then None else Some value.
Definition valueOrEmpty (value : option string) : string := default EmptyString value.
Definition boolToInt (b : bool) : Z := if b then 1 else 0.

(** ** Validation *)
Definition validateReconcileKey (domain : ReconcileDomain) (infrastructure policy : Z) (target : Prefix)
    (generation : Z) : result unit :=
  match domain with
  | ReconcileDomainInfrastructure =>
    fail_if ((infrastructure =? 0) || negb (policy =? 0) || PrefixIsValid target || negb (generation =? 0))
            (Errorf "infrastructure domain requires only infrastructure revision");;
    sqliteUint64 infrastructure;; Ok tt
  | ReconcileDomainPolicy =>
    fail_if ((policy =? 0) || negb (infrastructure =? 0) || PrefixIsValid target || negb (generation =? 0))
            (Errorf "policy domain requires only policy revision");;
    sqliteUint64 policy;; Ok tt
  | ReconcileDomainTarget =>
    fail_if (negb (infrastructure =? 0) || negb (policy =? 0) || not_canonical target || (generation =? 0))
            (Errorf "target domain requires canonical target and generation only");;
    fail_if ((String.length (Prefix_String target) <? 3)%nat || (64 <? String.length (Prefix_String target))%nat)
            (Errorf "canonical target length is invalid");;
    sqliteUint64 generation;; Ok tt
  | ReconcileDomainOther _ => Err (Errorf "unsupported reconcile domain %d")
  end.

Definition bad_time (t : time) : bool := IsZero t || (UnixMicro t <=? 0).

Definition validatePersistedReconcileState (s : PersistedReconcileState) : result unit :=
  let r := ps_RetryState s in
  fail_if (negb (isLowerHex128 (ps_NodeID s))) (Errorf "node id must be 128-bit lowercase hex");;
  validateReconcileKey (ps_Domain s) (ps_InfrastructureRevision s) (ps_PolicyRevision s) (ps_Target s)
    (ps_TargetGeneration s);;
  sqliteUint64 (ps_RetryEpoch s);;
  fail_if (bad_time (ps_UpdatedAt s)) (Errorf "updated time is required");;
  fail_if (128 <? String.length (rs_LastErrorCode r))%nat (Errorf "last error code exceeds 128 bytes");;
  fail_if (maxPersistedReconcileAttempts <? rs_AttemptCount r)
          (Errorf "attempt count exceeds bounded retry budget");;
  encodeReconcileStatusChecked (rs_Status r);;
  (if rs_AttemptCount r =? 0
   then fail_if (negb (is_nil (rs_LastAttemptAt r)) || negb (is_nil (rs_NextAttemptAt r)))
                (Errorf "zero-attempt state cannot contain attempt times")
   else fail_if (is_nil (rs_LastAttemptAt r))
                (Errorf "nonzero-attempt state requires last attempt time"));;
  fail_if (match rs_LastAttemptAt r with Some t => bad_time t | None => false end)
          (Errorf "last attempt time is invalid");;
  (if bool_decide (rs_Status r = ReconcileRetryWaiting) then
     fail_if ((rs_AttemptCount r =? 0) || is_nil (rs_NextAttemptAt r))
             (Errorf "retry-waiting state requires attempt and next attempt time");;
     fail_if (match rs_LastAttemptAt r, rs_NextAttemptAt r with
              | Some last, Some next => negb (After next last)
              | _, _ => true
              end) (Errorf "next attempt time must follow last attempt time")
   else fail_if (negb (is_nil (rs_NextAttemptAt r)))
                (Errorf "next attempt time is only valid for retry-waiting state"));;
  fail_if (match rs_NextAttemptAt r with Some t => bad_time t | None => false end)
          (Errorf "next attempt time is invalid");;
  fail_if (bool_decide (rs_Status r = ReconcileApplying) && (rs_AttemptCount r =? 0))
          (Errorf "applying state requires a nonzero attempt").

Definition validateProbeRequirement (p : PersistedProbeRequirement) : result unit :=
  fail_if (negb (isLowerHex128 (pp_NodeID p))) (Errorf "node id must be 128-bit lowercase hex");;
  validateReconcileKey (pp_Domain p) (pp_InfrastructureRevision p) (pp_PolicyRevision p) (pp_Target p)
    (pp_TargetGeneration p);;
  sqliteUint64 (pp_SnapshotRevision p);;
  sqliteUint64 (pp_RetryEpoch p);;
  fail_if (negb (pp_FenceSnapshotRevision p) && negb (pp_SnapshotRevision p =? 0))
          (Errorf "snapshot revision requires its fence flag");;
  fail_if (pp_FenceSnapshotRevision p && (pp_SnapshotRevision p =? 0))
          (Errorf "snapshot fence requires a positive snapshot revision");;
  fail_if (negb (bool_decide (pp_Domain p = ReconcileDomainInfrastructure))
           && (negb (pp_SnapshotRevision p =? 0) || pp_FenceSnapshotRevision p))
          (Errorf "snapshot fencing is only valid for infrastructure");;
  fail_if (pp_AttemptCount p =? 0) (Errorf "probe attempt must be nonzero");;
  fail_if (maxPersistedReconcileAttempts <? pp_AttemptCount p)
          (Errorf "probe attempt exceeds bounded retry budget");;
  fail_if (bad_time (pp_RecordedAt p)) (Errorf "probe recorded time is required").

Definition sameReconcileKey (s : PersistedReconcileState) (p : PersistedProbeRequirement) : bool :=
  bool_decide (ps_NodeID s = pp_NodeID p) && bool_decide (ps_Domain s = pp_Domain p)
  && (ps_InfrastructureRevision s =? pp_InfrastructureRevision p)
  && (ps_PolicyRevision s =? pp_PolicyRevision p) && bool_decide (ps_Target s = pp_Target p)
  && (ps_TargetGeneration s =? pp_TargetGeneration p).

Definition validateReconcileTransition (t : ReconcileStateTransition) : result unit :=
  if rt_DeleteOnly t then
    fail_if (negb (bool_decide (rt_State t = zero_persisted_state)))
            (Errorf "delete-only transition cannot contain state");;
    match rt_UpsertProbe t, rt_DeleteProbe t with
    | None, Some p =>
      wrap "delete probe" (validateProbeRequirement p);;
      fail_if (negb (is_nil (rt_Observed t))) (Errorf "delete-only transition cannot contain Observed state")
    | _, _ => Err (Errorf "delete-only transition requires exactly one deleted probe")
    end
  else
    let s := rt_State t in
    let r := ps_RetryState s in
    validatePersistedReconcileState s;;
    (match rt_Observed t with
     | None => Ok tt
     | Some u =>
       wrap "Observed state" (validateObservedFirewallUpdate u);;
       fail_if (negb (bool_decide (ou_NodeID u = ps_NodeID s)))
               (Errorf "Observed state node does not match reconcile state")
     end);;
    (match rt_UpsertProbe t with
     | None => Ok tt
     | Some p =>
       wrap "upsert probe" (validateProbeRequirement p);;
       fail_if (negb (sameReconcileKey s p) || negb (ps_RetryEpoch s =? pp_RetryEpoch p)
                || negb (rs_AttemptCount r =? pp_AttemptCount p))
               (Errorf "upsert probe does not match state key, epoch, and attempt");;
       fail_if (negb (bool_decide (rs_Status r = ReconcileApplying ∨ rs_Status r = ReconcileRetryWaiting
                                   ∨ rs_Status r = ReconcileDegraded)))
               (Errorf "upsert probe requires applying, retry-waiting, or degraded state")
     end);;
    (match rt_DeleteProbe t with
     | None => Ok tt
     | Some p =>
       wrap "delete probe" (validateProbeRequirement p);;
       fail_if (negb (sameReconcileKey s p)) (Errorf "delete probe does not match state physical key")
     end);;
    match rt_UpsertProbe t, rt_DeleteProbe t with
    | Some u, Some d =>
      fail_if (negb (pp_SnapshotRevision u =? pp_SnapshotRevision d)
               || negb (eqb (pp_FenceSnapshotRevision u) (pp_FenceSnapshotRevision d)))
              (Errorf "replacement probes do not share the snapshot fence")
    | _, _ => Ok tt
    end.

Definition validateReconcileRetryTransition (t : ReconcileRetryTransition) : result unit :=
  let s := rr_State t in
  let r := ps_RetryState s in
  let a := rr_Audit t in
  validateReconcileTransition (MkTransition s None None None false);;
  fail_if (negb (bool_decide (rs_Status r = ReconcilePending)) || negb (rs_AttemptCount r =? 0)
           || negb (is_nil (rs_LastAttemptAt r)) || negb (is_nil (rs_NextAttemptAt r))
           || not_empty (rs_LastErrorCode r))
          (Errorf "administrator retry must create a clean Pending state");;
  fail_if (is_empty (ra_ID a) || (160 <? String.length (ra_ID a))%nat || is_empty (ra_IdempotencyKey a)
           || (256 <? String.length (ra_IdempotencyKey a))%nat)
          (Errorf "retry audit identity is invalid");;
  fail_if (is_empty (ra_NodeID a) || negb (bool_decide (ra_NodeID a = ps_NodeID s))
           || negb (bool_decide (ra_ActorType a = "administrator")))
          (Errorf "retry audit identity does not match administrator node");;
  fail_if (bad_time (ra_OccurredAt a) || negb (UnixMicro (ra_OccurredAt a) =? UnixMicro (ps_UpdatedAt s)))
          (Errorf "retry audit time does not match transition");;
  fail_if ((ps_RetryEpoch s =? 0) || negb (ps_RetryEpoch s =? wrap64 (ra_PreviousEpoch a + 1)))
          (Errorf "retry audit epoch does not advance exactly once").

(** ** Reading rows *)
Definition decodeReconcileState (node : NodeID) (domain : ReconcileDomain) (target : Prefix)
    (row : reconcileStateRow) : result PersistedReconcileState :=
  fail_if ((sr_Key row <? 0) || (sr_RetryEpoch row <? 0) || (sr_AttemptCount row <? 0)
           || (max_uint32 <? sr_AttemptCount row) || (sr_UpdatedAtUS row <=? 0))
          (Errorf "persisted numeric field is out of range");;
  status ← decodeReconcileStatus (sr_Status row);
  let retry := MkRetryState status (sr_AttemptCount row) (decodeOptionalTimePointer (sr_LastAttemptAtUS row))
    (decodeOptionalTimePointer (sr_NextAttemptAtUS row)) (valueOrEmpty (sr_LastErrorCode row)) in
  let updated := from_UnixMicro (sr_UpdatedAtUS row) in
  state ← (match domain with
    | ReconcileDomainInfrastructure =>
      Ok (MkPersistedState node domain (sr_Key row) 0 zero_prefix 0 (sr_RetryEpoch row) retry updated)
    | ReconcileDomainPolicy =>
      Ok (MkPersistedState node domain 0 (sr_Key row) zero_prefix 0 (sr_RetryEpoch row) retry updated)
    | ReconcileDomainTarget =>
      fail_if (not_canonical target) (Errorf "persisted target %q is not canonical");;
      Ok (MkPersistedState node domain 0 0 target (sr_Key row) (sr_RetryEpoch row) retry updated)
    | ReconcileDomainOther _ =>
      Ok (MkPersistedState node domain 0 0 zero_prefix 0 (sr_RetryEpoch row) retry updated)
    end);
  wrap "persisted state is invalid" (validatePersistedReconcileState state);;
  Ok state.

Definition loadSingletonReconcileState (node : NodeID) (domain : ReconcileDomain) (d : reconcile_db)
    : result (option PersistedReconcileState) :=
  match domain with
  | ReconcileDomainInfrastructure =>
    match rd_infra d with
    | None => Ok None
    | Some row => s ← decodeReconcileState node domain zero_prefix row; Ok (Some s)
    end
  | ReconcileDomainPolicy =>
    match rd_policy d with
    | None => Ok None
    | Some row => s ← decodeReconcileState node domain zero_prefix row; Ok (Some s)
    end
  | _ => Err (Errorf "unsupported domain %d")
  end.

Definition decodeProbeRequirement (node : NodeID) (row : reconcileProbeRequirementRow)
    : result PersistedProbeRequirement :=
  fail_if ((qr_InfrastructureRevision row <? 0) || (qr_PolicyRevision row <? 0)
           || (qr_TargetEnforcementGeneration row <? 0) || (qr_SnapshotRevision row <? 0)
           || (qr_RetryEpoch row <? 0) || (qr_AttemptCount row <=? 0)
           || (max_uint32 <? qr_AttemptCount row) || (qr_RecordedAtUS row <=? 0)
           || (negb (qr_FenceSnapshotRevision row =? 0) && negb (qr_FenceSnapshotRevision row =? 1)))
          (Errorf "persisted probe numeric field is out of range");;
  domain ← decodeReconcileDomain (qr_Domain row);
  target ← (match qr_CanonicalTarget row with
            | None => Ok zero_prefix
            | Some target =>
              fail_if (not_canonical target) (Errorf "persisted probe target %q is not canonical");;
              Ok target
            end);
  let probe := MkPersistedProbe node domain (qr_InfrastructureRevision row) (qr_PolicyRevision row)
    target (qr_TargetEnforcementGeneration row) (qr_SnapshotRevision row)
    (qr_FenceSnapshotRevision row =? 1) (qr_RetryEpoch row) (qr_AttemptCount row)
    (from_UnixMicro (qr_RecordedAtUS row)) in
  wrap "persisted probe requirement is invalid" (validateProbeRequirement probe);;
  Ok probe.

Definition requireNodeIdentity (node : NodeID) (d : reconcile_db) : result unit :=
  match rd_node d with
  | None => Err (Wrapf "read node identity" (Errorf "record not found"))
  | Some n => fail_if (negb (bool_decide (n = node))) (Errorf "persisted node %q differs from %q")
  end.

Definition column_less (l r : list (string + Z)) : bool :=
  (fix go l r :=
     match l, r with
     | inl a :: l', inl b :: r' => String.ltb a b || (bool_decide (a = b) && go l' r')
     | inr a :: l', inr b :: r' => (a <? b) || ((a =? b) && go l' r')
     | _, _ => false
     end) l r.
Definition target_text (target : option Prefix) : string :=
  match target with Some p => Prefix_String p | None => EmptyString end.
(** orderByColumns of the probe requirements. *)
Definition probe_order (r : reconcileProbeRequirementRow) : list (string + Z) :=
  [inl (qr_Domain r); inl (target_text (qr_CanonicalTarget r)); inr (qr_InfrastructureRevision r);
   inr (qr_PolicyRevision r); inr (qr_TargetEnforcementGeneration r); inr (qr_SnapshotRevision r);
   inr (qr_FenceSnapshotRevision r); inr (qr_RetryEpoch r); inr (qr_AttemptCount r)].

Definition target_rows (node : NodeID) (d : reconcile_db) : list (Prefix * reconcileStateRow) :=
  sort_by (λ e, Prefix_String e.1)
    (omap (λ e, if bool_decide (e.1.1 = node) then Some (e.1.2, e.2) else None) (map_to_list (rd_targets d))).
Definition probe_rows (node : NodeID) (d : reconcile_db) : list reconcileProbeRequirementRow :=
  sort_slice (λ a b, column_less (probe_order a) (probe_order b))
    (base.filter (λ r, qr_NodeID r = node) (rd_probes d)).

Fixpoint decode_all {A B} (f : A → result B) (l : list A) : result (list B) :=
  match l with
  | [] => Ok []
  | x :: rest => y ← f x; ys ← decode_all f rest; Ok (y :: ys)
  end.

Definition loadReconcileRecoveryInTx (node : NodeID) (d : reconcile_db) : result ReconcileRecoverySnapshot :=
  wrap "load reconcile recovery" (requireNodeIdentity node d);;
  infra ← wrap "load reconcile recovery: infrastructure state"
            (loadSingletonReconcileState node ReconcileDomainInfrastructure d);
  policy ← wrap "load reconcile recovery: policy state"
             (loadSingletonReconcileState node ReconcileDomainPolicy d);
  targets ← decode_all (λ e, wrap "load reconcile recovery: target state"
                               (decodeReconcileState node ReconcileDomainTarget e.1 e.2)) (target_rows node d);
  probes ← decode_all (λ r, wrap "load reconcile recovery: probe requirement"
                              (decodeProbeRequirement node r)) (probe_rows node d);
  Ok (MkRecovery (option_list infra ++ option_list policy ++ targets) probes).

(** ** Versions *)
Definition domainKey (s : PersistedReconcileState) : Z :=
  match ps_Domain s with
  | ReconcileDomainInfrastructure => ps_InfrastructureRevision s
  | ReconcileDomainPolicy => ps_PolicyRevision s
  | ReconcileDomainTarget => ps_TargetGeneration s
  | ReconcileDomainOther _ => 0
  end.
Definition compareReconcileVersion (left right : PersistedReconcileState) : Z :=
  if domainKey left <? domainKey right then -1
  else if domainKey right <? domainKey left then 1
  else if ps_RetryEpoch left <? ps_RetryEpoch right then -1
  else if ps_RetryEpoch right <? ps_RetryEpoch left then 1
  else if rs_AttemptCount (ps_RetryState left) <? rs_AttemptCount (ps_RetryState right) then -1
  else if rs_AttemptCount (ps_RetryState right) <? rs_AttemptCount (ps_RetryState left) then 1
  else 0.

(** The version columns of a target row, as the regression check reads them. *)
Definition target_version (target : Prefix) (row : reconcileStateRow) : PersistedReconcileState :=
  MkPersistedState EmptyString ReconcileDomainTarget 0 0 target (sr_Key row) (sr_RetryEpoch row)
    (MkRetryState (ReconcileStatusOther 0) (sr_AttemptCount row) None None EmptyString) 0.

(** A singleton row that cannot be decoded counts as absent: loadSingleton
    reports ok only without an error, and ok is tested before the error. *)
Definition rejectReconcileRegression (s : PersistedReconcileState) (d : reconcile_db) : result unit :=
  current ← (match ps_Domain s with
    | ReconcileDomainTarget =>
      match rd_targets d !! (ps_NodeID s, ps_Target s) with
      | None => Ok None
      | Some row =>
        fail_if ((sr_Key row <? 0) || (sr_RetryEpoch row <? 0) || (sr_AttemptCount row <? 0)
                 || (max_uint32 <? sr_AttemptCount row))
                (Errorf "persisted target version is out of range");;
        Ok (Some (target_version (ps_Target s) row))
      end
    | domain =>
      match loadSingletonReconcileState (ps_NodeID s) domain d with
      | Ok current => Ok current
      | Err _ => Ok None
      end
    end);
  match current with
  | None => Ok tt
  | Some current => fail_if (compareReconcileVersion s current <? 0) ErrReconcileStateRegression
  end.

Definition currentRetryEpoch (s : PersistedReconcileState) (d : reconcile_db) : result Z :=
  match ps_Domain s with
  | ReconcileDomainTarget =>
    match rd_targets d !! (ps_NodeID s, ps_Target s) with
    | None => Ok 0
    | Some row =>
      fail_if (sr_RetryEpoch row <? 0) (Errorf "persisted target retry epoch is out of range");;
      Ok (sr_RetryEpoch row)
    end
  | domain =>
    current ← wrap "read current retry epoch" (loadSingletonReconcileState (ps_NodeID s) domain d);
    Ok (match current with Some c => ps_RetryEpoch c | None => 0 end)
  end.

(** ** Writing *)
Definition state_row (s : PersistedReconcileState) : reconcileStateRow :=
  let r := ps_RetryState s in
  MkStateRow (domainKey s) (ps_RetryEpoch s) (encodeReconcileStatus (rs_Status r)) (rs_AttemptCount r)
    (optionalTimePointer (rs_LastAttemptAt r)) (optionalTimePointer (rs_NextAttemptAt r))
    (optionalTextPointer (rs_LastErrorCode r)) (UnixMicro (ps_UpdatedAt s)).

Definition upsertReconcileState (s : PersistedReconcileState) (d : reconcile_db) : reconcile_db :=
  match ps_Domain s with
  | ReconcileDomainInfrastructure => set_states d (Some (state_row s)) (rd_policy d) (rd_targets d)
  | ReconcileDomainPolicy => set_states d (rd_infra d) (Some (state_row s)) (rd_targets d)
  | _ => set_states d (rd_infra d) (rd_policy d) (<[(ps_NodeID s, ps_Target s) := state_row s]> (rd_targets d))
  end.

Definition reconcileProbeRequirementFromCore (p : PersistedProbeRequirement) : reconcileProbeRequirementRow :=
  MkProbeRow (pp_NodeID p) (encodeReconcileDomain (pp_Domain p))
    (if PrefixIsValid (pp_Target p) then Some (pp_Target p) else None)
    (pp_InfrastructureRevision p) (pp_PolicyRevision p) (pp_TargetGeneration p) (pp_SnapshotRevision p)
    (boolToInt (pp_FenceSnapshotRevision p)) (pp_RetryEpoch p) (pp_AttemptCount p)
    (UnixMicro (pp_RecordedAt p)).

(** The columns of the UNIQUE constraint, and of the primary key. *)
Definition probe_fence (r : reconcileProbeRequirementRow) :=
  (qr_NodeID r, qr_Domain r, qr_CanonicalTarget r, qr_InfrastructureRevision r, qr_PolicyRevision r,
   qr_TargetEnforcementGeneration r, qr_SnapshotRevision r, qr_FenceSnapshotRevision r).
Definition probe_key (r : reconcileProbeRequirementRow) := (probe_fence r, qr_RetryEpoch r, qr_AttemptCount r).

(** A row with the same key gets the new time; another row with the same fence
    violates the UNIQUE constraint. *)
Definition upsertProbeRequirement (p : PersistedProbeRequirement) (d : reconcile_db) : result reconcile_db :=
  let row := reconcileProbeRequirementFromCore p in
  if existsb (λ r, bool_decide (probe_key r = probe_key row)) (rd_probes d)
  then Ok (set_probes d ((λ r, if bool_decide (probe_key r = probe_key row) then row else r) <$> rd_probes d))
  else if existsb (λ r, bool_decide (probe_fence r = probe_fence row)) (rd_probes d)
  then Err (Errorf "UNIQUE constraint failed")
  else Ok (set_probes d (rd_probes d ++ [row])).

Definition deleteProbeRequirement (p : PersistedProbeRequirement) (d : reconcile_db) : result reconcile_db :=
  let row := reconcileProbeRequirementFromCore p in
  let rest := base.filter (λ r, probe_key r ≠ probe_key row) (rd_probes d) in
  fail_if (negb (length (rd_probes d) =? length rest + 1)%nat)
          (Errorf "exact probe requirement does not exist");;
  Ok (set_probes d rest).

(** ** Retry audits *)
Definition dquote : string := string_of_bytes [34].
Definition json_string (name value : string) : string :=
  dquote +:+ name +:+ dquote +:+ ":" +:+ dquote +:+ value +:+ dquote.
Definition json_number (name : string) (value : Z) : string :=
  dquote +:+ name +:+ dquote +:+ ":" +:+ itoa value.
Definition omit_zero (name : string) (value : Z) : list string :=
  if value =? 0 then [] else [json_number name value].

(** json.Marshal of the details: domain first, the omitempty fields, then the
    two epochs. *)
Definition retry_details (t : ReconcileRetryTransition) : string :=
  let s := rr_State t in
  let '(domain, fields) :=
    match ps_Domain s with
    | ReconcileDomainInfrastructure =>
      ("infrastructure", omit_zero "infrastructure_revision" (ps_InfrastructureRevision s))
    | ReconcileDomainPolicy => ("policy", omit_zero "policy_revision" (ps_PolicyRevision s))
    | ReconcileDomainTarget =>
      ("target", [json_string "canonical_target" (Prefix_String (ps_Target s))]
                 ++ omit_zero "target_enforcement_generation" (ps_TargetGeneration s))
    | ReconcileDomainOther _ => (EmptyString, [])
    end in
  "{" +:+ strings_Join "," ([json_string "domain" domain] ++ fields
     ++ [json_number "previous_retry_epoch" (ra_PreviousEpoch (rr_Audit t));
         json_number "new_retry_epoch" (ps_RetryEpoch s)]) +:+ "}".

Definition reconcileRetryAuditDetails (t : ReconcileRetryTransition) : reconcileRetryAuditRecord :=
  let a := rr_Audit t in
  MkAuditRecord (ra_ID a) (ra_IdempotencyKey a) (ra_NodeID a) "reconcile" "reconcile_retry" "success" "info"
    (ra_ActorType a) (retry_details t) 1 None None None None (UnixMicro (ra_OccurredAt a)).

(** audit_id is the primary key and idempotency_key is unique. *)
Definition writeReconcileRetryAudit (t : ReconcileRetryTransition) (d : reconcile_db) : result reconcile_db :=
  let record := reconcileRetryAuditDetails t in
  fail_if (existsb (λ r, bool_decide (ar_ID r = ar_ID record)
                         || bool_decide (ar_IdempotencyKey r = ar_IdempotencyKey record)) (rd_audits d))
          (Errorf "UNIQUE constraint failed");;
  Ok (set_audits d (rd_audits d ++ [record])).

Definition zero_audit : reconcileRetryAuditRecord :=
  MkAuditRecord EmptyString EmptyString EmptyString EmptyString EmptyString EmptyString EmptyString
    EmptyString EmptyString 0 None None None None 0.
(** A struct condition with an empty field has no condition on it, so an empty
    id reads the first row of the table. *)
Definition readReconcileRetryAudit (auditID : string) (d : reconcile_db) : reconcileRetryAuditRecord :=
  match list_find (λ r, is_empty auditID = true ∨ ar_ID r = auditID) (rd_audits d) with
  | Some (_, r) => r
  | None => zero_audit
  end.

Definition recoveryContainsState (recovery : ReconcileRecoverySnapshot) (expected : PersistedReconcileState)
    : bool :=
  existsb (λ s,
    bool_decide (ps_NodeID s = ps_NodeID expected) && bool_decide (ps_Domain s = ps_Domain expected)
    && (ps_InfrastructureRevision s =? ps_InfrastructureRevision expected)
    && (ps_PolicyRevision s =? ps_PolicyRevision expected)
    && bool_decide (ps_Target s = ps_Target expected)
    && (ps_TargetGeneration s =? ps_TargetGeneration expected)
    && (ps_RetryEpoch s =? ps_RetryEpoch expected)
    && bool_decide (rs_Status (ps_RetryState s) = rs_Status (ps_RetryState expected))
    && (rs_AttemptCount (ps_RetryState s) =? rs_AttemptCount (ps_RetryState expected))
    && (UnixMicro (ps_UpdatedAt s) =? UnixMicro (ps_UpdatedAt expected))) (rc_States recovery).

(** ** Transactions *)
(** What the driver does with the next transaction. *)
Inductive fault :=
  | NoFault
  | FailBegin (e : error)
  | FailStatement (e : error)
  | FailCommit (e : error) (persisted : bool).

Definition write_tx (op : string) (f : fault) (body : reconcile_db → result reconcile_db)
    (d : reconcile_db) : result unit * reconcile_db :=
  match f with
  | FailBegin e => (Err (Wrapf op (Wrapf "begin" e)), d)
  | FailStatement e => (Err (Wrapf op e), d)
  | _ =>
    match body d with
    | Err e => (Err (Wrapf op e), d)
    | Ok d' =>
      match f with
      | FailCommit e persisted =>
        (Err (NewReconcileCommitUnknownError (Wrapf op (Wrapf "commit" e))), if persisted then d' else d)
      | _ => (Ok tt, d')
      end
    end
  end.

Definition read_tx {A} (op : string) (f : fault) (body : reconcile_db → result A) (d : reconcile_db)
    : result A :=
  match f with
  | NoFault => body d
  | FailBegin e => Err (Wrapf op (Wrapf "begin read transaction" e))
  | FailStatement e => Err (Wrapf op e)
  | FailCommit e _ =>
    match body d with
    | Err e' => Err e'
    | Ok _ => Err (Wrapf op (Wrapf "commit read transaction" e))
    end
  end.

Definition apply_transition (t : ReconcileStateTransition) (d : reconcile_db) : result reconcile_db :=
  let node := if rt_DeleteOnly t
              then match rt_DeleteProbe t with Some p => pp_NodeID p | None => EmptyString end
              else ps_NodeID (rt_State t) in
  requireNodeIdentity node d;;
  (if rt_DeleteOnly t then Ok tt else rejectReconcileRegression (rt_State t) d);;
  d ← (match rt_DeleteProbe t with
       | Some p => wrap "delete probe requirement" (deleteProbeRequirement p d)
       | None => Ok d
       end);
  let d := if rt_DeleteOnly t then d else upsertReconcileState (rt_State t) d in
  d ← (match rt_UpsertProbe t with
       | Some p => wrap "upsert probe requirement" (upsertProbeRequirement p d)
       | None => Ok d
       end);
  match rt_Observed t with
  | Some u =>
    o ← wrap "write Observed state" (writeObservedFirewallUpdate u (rd_observed d));
    Ok (set_observed d o)
  | None => Ok d
  end.

Definition ApplyReconcileTransition (t : ReconcileStateTransition) (f : fault) (d : reconcile_db)
    : result unit * reconcile_db :=
  match validateReconcileTransition t with
  | Err e => (Err (Wrapf "apply reconcile transition" e), d)
  | Ok _ => write_tx "apply reconcile transition" f (apply_transition t) d
  end.

Definition apply_retry (t : ReconcileRetryTransition) (d : reconcile_db) : result reconcile_db :=
  let s := rr_State t in
  requireNodeIdentity (ps_NodeID s) d;;
  rejectReconcileRegression s d;;
  previous ← currentRetryEpoch s d;
  fail_if (negb (ra_PreviousEpoch (rr_Audit t) =? previous))
          (Errorf "audit previous epoch %d does not match durable epoch %d");;
  wrap "write audit" (writeReconcileRetryAudit t (upsertReconcileState s d)).

Definition ApplyReconcileRetryTransition (t : ReconcileRetryTransition) (f : fault) (d : reconcile_db)
    : result unit * reconcile_db :=
  match validateReconcileRetryTransition t with
  | Err e => (Err (Wrapf "apply reconcile retry transition" e), d)
  | Ok _ => write_tx "apply reconcile retry transition" f (apply_retry t) d
  end.

Definition read_retry (t : ReconcileRetryTransition) (d : reconcile_db) : result ReconcileRetryReadback :=
  recovery ← loadReconcileRecoveryInTx (ps_NodeID (rr_State t)) d;
  let row := readReconcileRetryAudit (ra_ID (rr_Audit t)) d in
  let stateApplied := recoveryContainsState recovery (rr_State t) in
  let auditApplied := bool_decide (row = reconcileRetryAuditDetails t) in
  fail_if (negb (eqb stateApplied auditApplied) || (not_empty (ar_ID row) && negb auditApplied))
          (Errorf "read reconcile retry transition: ledger and audit do not match atomically");;
  Ok (MkReadback recovery (stateApplied && auditApplied)).
Definition ReadReconcileRetryTransition (t : ReconcileRetryTransition) (f : fault) (d : reconcile_db)
    : result ReconcileRetryReadback :=
  read_tx "read reconcile retry transition" f (read_retry t) d.

Definition LoadReconcileRecovery (node : NodeID) (f : fault) (d : reconcile_db)
    : result ReconcileRecoverySnapshot :=
  if negb (isLowerHex128 node)
  then Err (Errorf "load reconcile recovery: node id must be 128-bit lowercase hex")
  else read_tx "load reconcile recovery" f (loadReconcileRecoveryInTx node) d.

(** ** Observations (observed_state.go) *)
Definition requireObservedNodeIdentity (node : NodeID) (d : reconcile_db) : result unit :=
  match rd_node d with
  | None => Err (Wrapf "read node identity" (Errorf "sql: no rows in result set"))
  | Some n => fail_if (negb (bool_decide (n = node))) (Errorf "persisted node %q differs from %q")
  end.

Definition ApplyObservedFirewallUpdate (u : ObservedFirewallUpdate) (f : fault) (d : reconcile_db)
    : result unit * reconcile_db :=
  match validateObservedFirewallUpdate u with
  | Err e => (Err (Wrapf "apply Observed firewall update" e), d)
  | Ok _ =>
    write_tx "apply Observed firewall update" f
      (λ d, requireObservedNodeIdentity (ou_NodeID u) d;;
            o ← writeObservedFirewallUpdate u (rd_observed d);
            Ok (set_observed d o)) d
  end.

Definition LoadObservedFirewallSnapshot (node : NodeID) (f : fault) (d : reconcile_db)
    : result ObservedFirewallSnapshot :=
  if negb (isLowerHex128 node)
  then Err (Errorf "load Observed firewall snapshot: node id must be 128-bit lowercase hex")
  else read_tx "load Observed firewall snapshot" f
         (λ d, wrap "load Observed firewall snapshot"
                 (requireObservedNodeIdentity node d;; load_observed node (rd_observed d))) d.
