(* ===== verification/Controller.v ===== *)
(** * The reconcile controller: state and ports

    internal/reconcile/controller.go, persistence.go and observed_state.go. The
    controller keeps the desired snapshot, a retry ledger per fence and the
    barrier of mutations whose outcome is not known, and drives the firewall
    backend.

    mutationMu serializes Execute, the probes and the administrator retries.
    SetDesiredSnapshot takes only stateMu, so it may run whenever stateMu is
    free; every critical section under stateMu is therefore preceded by the
    snapshots that other goroutines publish, as the scheduler port says. What
    the controller asks of its ports is recorded in a trace, newest first.

    An attemptRef of the source has the key of its own domain and zero keys for
    the others, so it is a sum here, and the three state maps are one map
    indexed by that sum. *)

From S2P Require Import Prelude GoStd GoFmt Sha256 Netip Identity CoreModel Enforcement.
From S2P Require Import ObservedState ReconcilePlan.

(** ** Constants *)
Definition ErrInvalidPlan : error := Errorf "operation plan is invalid".
Definition ErrStalePlan : error := Errorf "operation plan does not match current desired state".
Definition ErrStaleCompletion : error := Errorf "operation completed for a stale fence".
Definition ErrRetryNotReady : error := Errorf "retry backoff has not elapsed".
Definition ErrBudgetExhausted : error := Errorf "retry budget is exhausted".
Definition errTargetIntentExpired : error := Errorf "target enforcement intent has expired".

Definition maxMutationAttempts : Z := 6.
Definition retryBackoff : list duration :=
  [second; 5 * second; 30 * second; 5 * minute; 15 * minute].
Definition nativeExpirySnapshotTolerance : duration := 3 * second.
Definition probeFailureErrorCode : string := "backend_probe_failed".

(** ** State *)
Inductive attemptRef :=
  | InfrastructureRef (key : InfrastructureRetryKey)
  | PolicyRef (key : PolicyRetryKey)
  | TargetRef (key : TargetRetryKey)
  | InvalidRef (n : Z).
#[export] Instance attemptRef_eq_dec : EqDecision attemptRef.
Proof. solve_decision. Defined.
#[export] Instance attemptRef_countable : Countable attemptRef.
Proof.
  refine (inj_countable'
    (λ r, match r with
          | InfrastructureRef k => inl (inl k) | PolicyRef k => inl (inr k)
          | TargetRef k => inr (inl k) | InvalidRef n => inr (inr n)
          end)
    (λ s, match s with
          | inl (inl k) => InfrastructureRef k | inl (inr k) => PolicyRef k
          | inr (inl k) => TargetRef k | inr (inr n) => InvalidRef n
          end) _).
  by intros [].
Defined.
Definition ref_domain (r : attemptRef) : Domain :=
  match r with
  | InfrastructureRef _ => DomainInfrastructure | PolicyRef _ => DomainPolicy
  | TargetRef _ => DomainTarget | InvalidRef n => DomainOther n
  end.

Record pendingProbeKey := MkPending {
  pk_domain : Domain;
  pk_target : Prefix;
  pk_infrastructureRevision : Z;
  pk_policyRevision : Z;
  pk_targetGeneration : Z;
  pk_snapshotRevision : Z;
  pk_fenceSnapshotRevision : bool
}.
#[export] Instance pendingProbeKey_eq_dec : EqDecision pendingProbeKey.
Proof. solve_decision. Defined.
#[export] Instance pendingProbeKey_countable : Countable pendingProbeKey.
Proof.
  refine (inj_countable'
    (λ k, (pk_domain k, pk_target k, pk_infrastructureRevision k, pk_policyRevision k,
           pk_targetGeneration k, pk_snapshotRevision k, pk_fenceSnapshotRevision k))
    (λ '(a, b, c, d, e, f, g), MkPending a b c d e f g) _).
  by intros [].
Defined.

Record ReconcileKey := MkReconcileKey { rk_Domain : Domain; rk_Target : Prefix }.
#[export] Instance ReconcileKey_eq_dec : EqDecision ReconcileKey.
Proof. solve_decision. Defined.
#[export] Instance ReconcileKey_countable : Countable ReconcileKey.
Proof.
  refine (inj_countable' (λ k, (rk_Domain k, rk_Target k)) (λ t, MkReconcileKey t.1 t.2) _).
  by intros [].
Defined.

(** What a recovery replaces as one: the retry states, the barrier and the
    refs whose ledger row a later epoch overwrote. *)
Record RetryLedger := MkRetryLedger {
  lg_states : gmap attemptRef RetryState;
  lg_pendingProbes : gmap pendingProbeKey attemptRef;
  lg_syntheticRefs : gset attemptRef
}.
Definition empty_ledger : RetryLedger := MkRetryLedger ∅ ∅ ∅.

Record Controller := MkController {
  c_nodeID : NodeID;
  c_hasStore : bool;
  c_hasDesired : bool;
  c_desired : DesiredFirewallSnapshot;
  c_desiredTargets : gmap Prefix NormalizedTargetEnforcementIntent;
  c_infrastructureEpoch : Z;
  c_policyEpoch : Z;
  c_targetEpochs : gmap Prefix Z;
  c_ledger : RetryLedger;
  c_confirmedTargets : gmap Prefix Z;
  c_startupProbeRequired : bool;
  c_recoveryReloadNeeded : bool;
  c_lastObservedAt : time
}.

Definition zero_desired : DesiredFirewallSnapshot :=
  MkDesired 0 0 0 (MkInfrastructure EmptyString EmptyString EmptyString)
    (MkPolicy EmptyString None None) [].

(** NewController: the backend, the clock and the audit writer are the ports
    below, which are always present. *)
Definition NewController : Controller :=
  MkController EmptyString false false zero_desired ∅ 0 0 ∅ empty_ledger ∅ false false 0.

Definition set_desired (c : Controller) desired targets : Controller :=
  MkController (c_nodeID c) (c_hasStore c) true desired targets (c_infrastructureEpoch c)
    (c_policyEpoch c) (c_targetEpochs c) (c_ledger c) (c_confirmedTargets c)
    (c_startupProbeRequired c) (c_recoveryReloadNeeded c) (c_lastObservedAt c).
Definition set_epochs (c : Controller) infra policy targets : Controller :=
  MkController (c_nodeID c) (c_hasStore c) (c_hasDesired c) (c_desired c) (c_desiredTargets c)
    infra policy targets (c_ledger c) (c_confirmedTargets c)
    (c_startupProbeRequired c) (c_recoveryReloadNeeded c) (c_lastObservedAt c).
Definition set_ledger (c : Controller) ledger : Controller :=
  MkController (c_nodeID c) (c_hasStore c) (c_hasDesired c) (c_desired c) (c_desiredTargets c)
    (c_infrastructureEpoch c) (c_policyEpoch c) (c_targetEpochs c) ledger (c_confirmedTargets c)
    (c_startupProbeRequired c) (c_recoveryReloadNeeded c) (c_lastObservedAt c).
Definition set_confirmed (c : Controller) confirmed : Controller :=
  MkController (c_nodeID c) (c_hasStore c) (c_hasDesired c) (c_desired c) (c_desiredTargets c)
    (c_infrastructureEpoch c) (c_policyEpoch c) (c_targetEpochs c) (c_ledger c) confirmed
    (c_startupProbeRequired c) (c_recoveryReloadNeeded c) (c_lastObservedAt c).
Definition set_startup (c : Controller) startup : Controller :=
  MkController (c_nodeID c) (c_hasStore c) (c_hasDesired c) (c_desired c) (c_desiredTargets c)
    (c_infrastructureEpoch c) (c_policyEpoch c) (c_targetEpochs c) (c_ledger c)
    (c_confirmedTargets c) startup (c_recoveryReloadNeeded c) (c_lastObservedAt c).
Definition set_reload (c : Controller) reload : Controller :=
  MkController (c_nodeID c) (c_hasStore c) (c_hasDesired c) (c_desired c) (c_desiredTargets c)
    (c_infrastructureEpoch c) (c_policyEpoch c) (c_targetEpochs c) (c_ledger c)
    (c_confirmedTargets c) (c_startupProbeRequired c) reload (c_lastObservedAt c).
Definition set_observed_clock (c : Controller) t : Controller :=
  MkController (c_nodeID c) (c_hasStore c) (c_hasDesired c) (c_desired c) (c_desiredTargets c)
    (c_infrastructureEpoch c) (c_policyEpoch c) (c_targetEpochs c) (c_ledger c)
    (c_confirmedTargets c) (c_startupProbeRequired c) (c_recoveryReloadNeeded c) t.

Definition put_state (ref : attemptRef) (s : RetryState) (c : Controller) : Controller :=
  let l := c_ledger c in
  set_ledger c (MkRetryLedger (<[ref := s]> (lg_states l)) (lg_pendingProbes l) (lg_syntheticRefs l)).
Definition put_pending (key : pendingProbeKey) (ref : attemptRef) (c : Controller) : Controller :=
  let l := c_ledger c in
  set_ledger c (MkRetryLedger (lg_states l) (<[key := ref]> (lg_pendingProbes l)) (lg_syntheticRefs l)).
Definition delete_pending (key : pendingProbeKey) (c : Controller) : Controller :=
  let l := c_ledger c in
  set_ledger c (MkRetryLedger (lg_states l) (delete key (lg_pendingProbes l)) (lg_syntheticRefs l)).
Definition put_synthetic (refs : gset attemptRef) (c : Controller) : Controller :=
  let l := c_ledger c in set_ledger c (MkRetryLedger (lg_states l) (lg_pendingProbes l) refs).
Definition delete_synthetic (ref : attemptRef) (c : Controller) : Controller :=
  put_synthetic (lg_syntheticRefs (c_ledger c) ∖ {[ref]}) c.
Definition confirm_target (target : Prefix) (generation : Z) (c : Controller) : Controller :=
  set_confirmed c (<[target := generation]> (c_confirmedTargets c)).

(** ** Ports *)
Record CriticalAuditEvent := MkAuditEvent {
  ca_Action : string;
  ca_Domain : Domain;
  ca_Target : Prefix;
  ca_PreviousEpoch : Z;
  ca_NewEpoch : Z;
  ca_OccurredAt : time
}.

Class Backend (E : Type) := {
  env_Probe : ST E Snapshot;
  env_Apply : OperationPlan → ST E ApplyResult;
  (** whether the backend is a freshBasisBackend that requires a fresh basis *)
  env_RequiresFreshBasis : bool
}.
Class CriticalAuditWriter (E : Type) := { env_AppendCriticalAudit : CriticalAuditEvent → ST E unit }.
Class PersistentStateStore (E : Type) := {
  env_LoadReconcileRecovery : NodeID → ST E ReconcileRecoverySnapshot;
  env_ApplyReconcileTransition : ReconcileStateTransition → ST E unit;
  env_ApplyReconcileRetryTransition : ReconcileRetryTransition → ST E unit;
  env_ReadReconcileRetryTransition : ReconcileRetryTransition → ST E ReconcileRetryReadback;
  env_LoadObservedFirewallSnapshot : NodeID → ST E ObservedFirewallSnapshot;
  env_ApplyObservedFirewallUpdate : ObservedFirewallUpdate → ST E unit
}.
(** The Go scheduler and runtime: the snapshots other goroutines publish before
    the next critical section, and the order in which a map is ranged over (a
    list of positions to pick next). *)
Class Scheduler (E : Type) := {
  env_Published : E → list DesiredFirewallSnapshot * E;
  env_Picks : E → list nat * E
}.

Inductive event :=
  | EvProbe (r : result Snapshot)
  | EvApply (ref : attemptRef) (plan : OperationPlan) (r : result ApplyResult)
  | EvTransition (t : ReconcileStateTransition) (r : result unit)
  | EvRetry (t : ReconcileRetryTransition) (r : result unit)
  | EvAudit (a : CriticalAuditEvent) (r : result unit)
  | EvLoad (r : result ReconcileRecoverySnapshot)
  | EvPanic (msg : string).

Record world (E : Type) := MkWorld { w_c : Controller; w_e : E; w_trace : list event }.
Arguments MkWorld {E}. Arguments w_c {E}. Arguments w_e {E}. Arguments w_trace {E}.
Abbreviation M E := (ST (world E)).

(** A map ranged over in the order given by [picks]. *)
Fixpoint shuffle {A} (picks : list nat) (l : list A) : list A :=
  match picks with
  | [] => l
  | n :: picks =>
    match l !! (n `mod` length l)%nat with
    | None => l
    | Some x => x :: shuffle picks (delete (n `mod` length l)%nat l)
    end
  end.
Lemma shuffle_perm {A} picks (l : list A) : shuffle picks l ≡ₚ l.
Proof.
  revert l. induction picks as [|n picks IH]; intros l; cbn; [done|].
  destruct (l !! _) as [x|] eqn:Hx; [|done]. rewrite IH. symmetry. by apply delete_Permutation.
Qed.

Section ports.
Context {E : Type} `{Clock E, Backend E, CriticalAuditWriter E, PersistentStateStore E, Scheduler E}.

Definition get_c : M E Controller := st_gets w_c.
Definition modify_c (f : Controller → Controller) : M E unit :=
  st_modify (λ w, MkWorld (f (w_c w)) (w_e w) (w_trace w)).
Definition emit (ev : event) : M E unit :=
  st_modify (λ w, MkWorld (w_c w) (w_e w) (ev :: w_trace w)).
Definition ask {A} (f : E → A * E) : M E A := λ w,
  let '(a, e) := f (w_e w) in (Ok a, MkWorld (w_c w) e (w_trace w)).
(** A port call: its result is recorded. *)
Definition call {A} (ev : result A → event) (m : ST E A) : M E A := λ w,
  let '(r, e) := m (w_e w) in (r, MkWorld (w_c w) e (ev r :: w_trace w)).
Definition quiet {A} (m : ST E A) : M E A := λ w,
  let '(r, e) := m (w_e w) in (r, MkWorld (w_c w) e (w_trace w)).
Definition panic {A} (msg : string) : M E A := emit (EvPanic msg);; st_fail (Errorf msg).

Definition Now : M E time := ask env_Now.
Definition Probe : M E Snapshot := call EvProbe env_Probe.
Definition Apply (ref : attemptRef) (plan : OperationPlan) : M E ApplyResult :=
  call (EvApply ref plan) (env_Apply plan).
Definition LoadReconcileRecovery (node : NodeID) : M E ReconcileRecoverySnapshot :=
  call EvLoad (env_LoadReconcileRecovery node).
Definition LoadObservedFirewallSnapshot (node : NodeID) : M E ObservedFirewallSnapshot :=
  quiet (env_LoadObservedFirewallSnapshot node).
Definition ApplyObservedFirewallUpdate (u : ObservedFirewallUpdate) : M E unit :=
  quiet (env_ApplyObservedFirewallUpdate u).
Definition range {A} (l : list A) : M E (list A) := λ w,
  let '(picks, e) := env_Picks (w_e w) in (Ok (shuffle picks l), MkWorld (w_c w) e (w_trace w)).
End ports.

(** ** Desired state and fences (controller.go) *)
Definition policyIntentEqual (left right : ManagedPolicyIntent) : bool :=
  bool_decide (mp_RelationDigest left = mp_RelationDigest right)
  && bool_decide (elems (mp_Allowlist left) = elems (mp_Allowlist right))
  && bool_decide (elems (mp_ProtectedTargets left) = elems (mp_ProtectedTargets right)).

Fixpoint desired_target_map (targets : list NormalizedTargetEnforcementIntent)
    (acc : gmap Prefix NormalizedTargetEnforcementIntent)
    : result (gmap Prefix NormalizedTargetEnforcementIntent) :=
  match targets with
  | [] => Ok acc
  | intent :: rest =>
    fail_if (negb (is_nil (acc !! ti_CanonicalTarget intent))) (Errorf "duplicate desired target %s");;
    desired_target_map rest (<[ti_CanonicalTarget intent := intent]> acc)
  end.

Definition prepareDesired (snapshot : DesiredFirewallSnapshot)
    : result (DesiredFirewallSnapshot * gmap Prefix NormalizedTargetEnforcementIntent) :=
  prepared ← wrap "validate desired snapshot" (NewDesiredFirewallSnapshot snapshot);
  targets ← desired_target_map (fs_Targets prepared) ∅;
  Ok (prepared, targets).

(** The loop over the previous targets; its result is whether some meaning
    changed. The order of the map shows only in which error is reported. *)
Fixpoint transition_targets (next : gmap Prefix NormalizedTargetEnforcementIntent)
    (previous : list (Prefix * NormalizedTargetEnforcementIntent)) (changed : bool) : result bool :=
  match previous with
  | [] => Ok changed
  | (target, old) :: rest =>
    match next !! target with
    | None => Err (Errorf "target %s cannot disappear; publish an Absent intent generation")
    | Some new =>
      if negb (Equivalent old new) then
        fail_if (ti_Generation new <=? ti_Generation old)
                (Errorf "changed target %s must advance generation");;
        transition_targets next rest true
      else
        fail_if (negb (ti_Generation new =? ti_Generation old))
                (Errorf "unchanged target %s cannot advance generation");;
        transition_targets next rest changed
    end
  end.

Definition validateDesiredTransition (previous : DesiredFirewallSnapshot)
    (previousTargets : gmap Prefix NormalizedTargetEnforcementIntent)
    (next : DesiredFirewallSnapshot)
    (nextTargets : gmap Prefix NormalizedTargetEnforcementIntent) : result unit :=
  fail_if ((fs_SnapshotRevision next <? fs_SnapshotRevision previous)
           || (fs_InfrastructureRevision next <? fs_InfrastructureRevision previous)
           || (fs_PolicyRevision next <? fs_PolicyRevision previous))
          (Errorf "desired revisions cannot move backward");;
  let infraChanged := negb (bool_decide (fs_Infrastructure previous = fs_Infrastructure next)) in
  let policyChanged := negb (policyIntentEqual (fs_Policy previous) (fs_Policy next)) in
  fail_if (negb (eqb infraChanged (fs_InfrastructureRevision previous <? fs_InfrastructureRevision next)))
          (Errorf "infrastructure revision must change exactly with infrastructure intent");;
  fail_if (negb (eqb policyChanged (fs_PolicyRevision previous <? fs_PolicyRevision next)))
          (Errorf "policy revision must change exactly with policy intent");;
  externalChanged ← transition_targets nextTargets (map_to_list previousTargets)
                      (infraChanged || policyChanged);
  let added := existsb (λ e, is_nil (previousTargets !! e.1)) (map_to_list nextTargets) in
  fail_if (negb (eqb (externalChanged || added)
                     (fs_SnapshotRevision previous <? fs_SnapshotRevision next)))
          (Errorf "snapshot revision must change exactly with external desired state").

Definition planMatchesCurrentDesiredLocked (c : Controller) (plan : OperationPlan) : bool :=
  c_hasDesired c &&
  match op_Domain plan with
  | DomainInfrastructure =>
    (op_ExpectedInfrastructureRevision plan =? fs_InfrastructureRevision (c_desired c))
    && (negb (op_FenceSnapshotRevision plan)
        || (op_ExpectedSnapshotRevision plan =? fs_SnapshotRevision (c_desired c)))
    && bool_decide (op_DesiredInfrastructure plan = fs_Infrastructure (c_desired c))
  | DomainPolicy =>
    (op_ExpectedPolicyRevision plan =? fs_PolicyRevision (c_desired c))
    && policyIntentEqual (op_DesiredPolicy plan) (fs_Policy (c_desired c))
  | DomainTarget =>
    match c_desiredTargets c !! op_Target plan with
    | Some intent =>
      (op_ExpectedTargetGeneration plan =? ti_Generation intent)
      && (ti_Generation (op_DesiredTarget plan) =? ti_Generation intent)
      && Equivalent (op_DesiredTarget plan) intent
    | None => false
    end
  | DomainOther _ => false
  end.

Definition nativeExpiryMatchesIntent (observed : option time)
    (intent : NormalizedTargetEnforcementIntent) : bool :=
  match observed, NativeExpiryForIntent intent, ti_EffectiveUntil intent with
  | Some o, Some want, Some _ =>
    negb (Before o (want - nativeExpirySnapshotTolerance)) && negb (After o want)
  | o, want, _ => is_nil o && is_nil want
  end.

Definition timeout_matches (observed : PhysicalTargetObserved)
    (intent : NormalizedTargetEnforcementIntent) : bool :=
  if bool_decide (ti_TimeoutMode intent = TimeoutNative)
  then nativeExpiryMatchesIntent (pt_NativeExpiry observed) intent
  else is_nil (pt_NativeExpiry observed).

Definition want_coverage (c : PolicyCoverage) : ObservedPolicyCoverage :=
  match c with
  | PolicyCoveragePartial => ObservedPolicyPartial
  | PolicyCoverageFull => ObservedPolicyFull
  | _ => ObservedPolicyNone
  end.

Definition physicalTargetMatches (targets : gmap Prefix PhysicalTargetObserved)
    (intent : NormalizedTargetEnforcementIntent) : bool :=
  let observed := targets !! ti_CanonicalTarget intent in
  if bool_decide (ti_BanMembership intent = BanAbsent) then
    match observed with
    | None => true
    | Some o =>
      bool_decide (pt_CanonicalTarget o = ti_CanonicalTarget intent)
      && IsZero (pt_ObservedAt o) && is_empty (pt_Backend o)
      && bool_decide (pt_BanMembership o = ObservedMembershipAbsent)
      && bool_decide (pt_PolicyCoverage o = ObservedPolicyUnknown)
      && is_empty (pt_PolicyRelationDigest o)
      && bool_decide (pt_TimeoutMode o = TimeoutNone) && is_nil (pt_NativeExpiry o)
      && (pt_Scopes o =? 0) && bool_decide (pt_AddressFamily o = AddressFamilyOther 0)
      && is_empty (pt_OwnerVersion o) && is_empty (pt_LastErrorCode o)
    end
  else match observed with
  | None => false
  | Some o =>
    if negb (bool_decide (pt_BanMembership o = ObservedMembershipPresent))
       || negb (bool_decide (pt_TimeoutMode o = ti_TimeoutMode intent))
       || negb (pt_Scopes o =? ti_Scopes intent)
       || negb (bool_decide (pt_AddressFamily o = ti_AddressFamily intent))
    then false
    else if bool_decide (pt_Evidence o = TargetObservationEvidenceManagedSnapshot)
    then timeout_matches o intent
    else
      bool_decide (pt_Evidence o = TargetObservationEvidenceComplete)
      && bool_decide (pt_PolicyRelationDigest o = ti_PolicyRelationDigest intent)
      && bool_decide (pt_OwnerVersion o = ti_BackendAttributesDigest intent)
      && bool_decide (pt_PolicyCoverage o = want_coverage (ti_PolicyCoverage intent))
      && timeout_matches o intent
  end.

Definition snapshotMatchesCurrentDesiredLocked (c : Controller) (snapshot : Snapshot)
    (domain : Domain) (target : Prefix) : bool :=
  c_hasDesired c &&
  match domain with
  | DomainInfrastructure =>
    match sn_Infrastructure snapshot with
    | None => false
    | Some i => bool_decide (phi_Backend i = mi_Backend (fs_Infrastructure (c_desired c)))
                && bool_decide (phi_OwnerVersion i = mi_OwnerVersion (fs_Infrastructure (c_desired c)))
                && bool_decide (phi_Digest i = mi_Digest (fs_Infrastructure (c_desired c)))
    end
  | DomainPolicy =>
    match sn_Policy snapshot with
    | None => false
    | Some p => bool_decide (php_RelationDigest p = mp_RelationDigest (fs_Policy (c_desired c)))
    end
  | DomainTarget =>
    match c_desiredTargets c !! target with
    | None => false
    | Some intent => physicalTargetMatches (sn_Targets snapshot) intent
    end
  | DomainOther _ => false
  end.

Definition retryable (code : string) : bool :=
  negb (bool_decide (code = "ownership_conflict" ∨ code = "unsupported" ∨ code = "invalid_plan")).

Definition pendingProbeKeyForPlan (plan : OperationPlan) : pendingProbeKey :=
  MkPending (op_Domain plan) (op_Target plan) (op_ExpectedInfrastructureRevision plan)
    (op_ExpectedPolicyRevision plan) (op_ExpectedTargetGeneration plan)
    (op_ExpectedSnapshotRevision plan) (op_FenceSnapshotRevision plan).

Definition pendingKeyMatchesCurrentDesiredLocked (c : Controller) (key : pendingProbeKey) : bool :=
  match pk_domain key with
  | DomainInfrastructure =>
    (pk_infrastructureRevision key =? fs_InfrastructureRevision (c_desired c))
    && (negb (pk_fenceSnapshotRevision key)
        || (pk_snapshotRevision key =? fs_SnapshotRevision (c_desired c)))
  | DomainPolicy => pk_policyRevision key =? fs_PolicyRevision (c_desired c)
  | DomainTarget =>
    match c_desiredTargets c !! pk_target key with
    | Some intent => pk_targetGeneration key =? ti_Generation intent
    | None => false
    end
  | DomainOther _ => false
  end.

(** ** The ledger by fence *)
Definition target_epoch (c : Controller) (target : Prefix) : Z :=
  default 0 (c_targetEpochs c !! target).

Definition attempt_ref (c : Controller) (plan : OperationPlan) : attemptRef :=
  match op_Domain plan with
  | DomainInfrastructure =>
    InfrastructureRef (MkInfraKey (op_ExpectedInfrastructureRevision plan) (c_infrastructureEpoch c))
  | DomainPolicy => PolicyRef (MkPolicyKey (op_ExpectedPolicyRevision plan) (c_policyEpoch c))
  | DomainTarget =>
    TargetRef (MkTargetKey (op_Target plan) (op_ExpectedTargetGeneration plan)
                 (target_epoch c (op_Target plan)))
  | DomainOther n => InvalidRef n
  end.
Definition stateForRef (c : Controller) (ref : attemptRef) : option RetryState :=
  lg_states (c_ledger c) !! ref.
Definition attemptStateLocked (c : Controller) (plan : OperationPlan)
    : attemptRef * option RetryState :=
  (attempt_ref c plan, stateForRef c (attempt_ref c plan)).

Definition current_ref (c : Controller) (domain : Domain) (target : Prefix) : option attemptRef :=
  match domain with
  | DomainInfrastructure =>
    Some (InfrastructureRef (MkInfraKey (fs_InfrastructureRevision (c_desired c)) (c_infrastructureEpoch c)))
  | DomainPolicy => Some (PolicyRef (MkPolicyKey (fs_PolicyRevision (c_desired c)) (c_policyEpoch c)))
  | DomainTarget =>
    match c_desiredTargets c !! target with
    | None => None
    | Some intent => Some (TargetRef (MkTargetKey target (ti_Generation intent) (target_epoch c target)))
    end
  | DomainOther _ => None
  end.
Definition currentAttemptRefForKeyLocked (c : Controller) (key : ReconcileKey) : option attemptRef :=
  current_ref c (rk_Domain key) (rk_Target key).
Definition currentStateForPendingKeyLocked (c : Controller) (key : pendingProbeKey)
    : option (attemptRef * RetryState) :=
  ref ← current_ref c (pk_domain key) (pk_target key);
  state ← stateForRef c ref;
  Some (ref, state).

Definition sameAttemptPhysicalKey (left right : attemptRef) : bool :=
  match left, right with
  | InfrastructureRef l, InfrastructureRef r => ik_Revision l =? ik_Revision r
  | PolicyRef l, PolicyRef r => pk_Revision l =? pk_Revision r
  | TargetRef l, TargetRef r =>
    bool_decide (tk_Target l = tk_Target r) && (tk_Generation l =? tk_Generation r)
  | _, _ => false
  end.

Definition markPendingRefsSupersededLocked (current : attemptRef) (c : Controller) : Controller :=
  let l := c_ledger c in
  put_synthetic
    (foldr (λ e refs, if negb (bool_decide (e.2 = current)) && sameAttemptPhysicalKey e.2 current
                      then {[e.2]} ∪ refs else refs)
       (lg_syntheticRefs l) (map_to_list (lg_pendingProbes l))) c.

(** ** Hydration (persistence.go) *)
Definition max_epoch (epoch_of : attemptRef → option Z) (states : gmap attemptRef RetryState) : Z :=
  foldr (λ e acc, match epoch_of e.1 with Some n => Z.max n acc | None => acc end) 0
    (map_to_list states).
Definition infra_epoch_of (revision : Z) (r : attemptRef) : option Z :=
  match r with
  | InfrastructureRef k => if ik_Revision k =? revision then Some (ik_Epoch k) else None
  | _ => None
  end.
Definition policy_epoch_of (revision : Z) (r : attemptRef) : option Z :=
  match r with
  | PolicyRef k => if pk_Revision k =? revision then Some (pk_Epoch k) else None
  | _ => None
  end.
Definition target_epoch_of (target : Prefix) (generation : Z) (r : attemptRef) : option Z :=
  match r with
  | TargetRef k =>
    if bool_decide (tk_Target k = target) && (tk_Generation k =? generation)
    then Some (tk_Epoch k) else None
  | _ => None
  end.

Definition activateHydratedStateLocked (c : Controller) : Controller :=
  let states := lg_states (c_ledger c) in
  set_confirmed
    (set_epochs c
       (max_epoch (infra_epoch_of (fs_InfrastructureRevision (c_desired c))) states)
       (max_epoch (policy_epoch_of (fs_PolicyRevision (c_desired c))) states)
       (map_imap (λ target intent, Some (max_epoch (target_epoch_of target (ti_Generation intent)) states))
          (c_desiredTargets c) ∪ c_targetEpochs c))
    ∅.

Definition attemptRefFromPersistedState (p : PersistedReconcileState) : result attemptRef :=
  match ps_Domain p with
  | ReconcileDomainInfrastructure =>
    fail_if (ps_InfrastructureRevision p =? 0)
            (Errorf "infrastructure retry state has zero revision");;
    Ok (InfrastructureRef (MkInfraKey (ps_InfrastructureRevision p) (ps_RetryEpoch p)))
  | ReconcileDomainPolicy =>
    fail_if (ps_PolicyRevision p =? 0) (Errorf "policy retry state has zero revision");;
    Ok (PolicyRef (MkPolicyKey (ps_PolicyRevision p) (ps_RetryEpoch p)))
  | ReconcileDomainTarget =>
    fail_if (not_canonical (ps_Target p) || (ps_TargetGeneration p =? 0))
            (Errorf "target retry state has invalid key");;
    Ok (TargetRef (MkTargetKey (ps_Target p) (ps_TargetGeneration p) (ps_RetryEpoch p)))
  | ReconcileDomainOther _ => Err (Errorf "retry state has invalid domain %d")
  end.

Definition coreDomain (d : Domain) : ReconcileDomain :=
  match d with
  | DomainInfrastructure => ReconcileDomainInfrastructure
  | DomainPolicy => ReconcileDomainPolicy
  | DomainTarget => ReconcileDomainTarget
  | DomainOther _ => ReconcileDomainOther 0
  end.
Definition fakeDomain (d : ReconcileDomain) : Domain :=
  match d with
  | ReconcileDomainInfrastructure => DomainInfrastructure
  | ReconcileDomainPolicy => DomainPolicy
  | ReconcileDomainTarget => DomainTarget
  | ReconcileDomainOther _ => DomainOther 0
  end.

Definition pendingProbeFromPersisted (r : PersistedProbeRequirement)
    : result (pendingProbeKey * attemptRef) :=
  ref ← wrap "invalid Probe requirement" (attemptRefFromPersistedState
          (MkPersistedState (pp_NodeID r) (pp_Domain r) (pp_InfrastructureRevision r)
             (pp_PolicyRevision r) (pp_Target r) (pp_TargetGeneration r) (pp_RetryEpoch r)
             zero_retry_state 0));
  fail_if ((pp_AttemptCount r =? 0) || (maxMutationAttempts <? pp_AttemptCount r))
          (Errorf "Probe requirement has invalid attempt count");;
  Ok (MkPending (fakeDomain (pp_Domain r)) (pp_Target r) (pp_InfrastructureRevision r)
        (pp_PolicyRevision r) (pp_TargetGeneration r) (pp_SnapshotRevision r)
        (pp_FenceSnapshotRevision r), ref).

Definition validateRecoveredRetryState (s : RetryState) : result unit :=
  fail_if (match rs_Status s with ReconcileStatusOther _ => true | _ => false end)
          (Errorf "invalid status %d");;
  fail_if (maxMutationAttempts <? rs_AttemptCount s) (Errorf "attempt count exceeds %d");;
  fail_if ((rs_AttemptCount s =? 0) && negb (is_nil (rs_LastAttemptAt s)))
          (Errorf "zero attempts have a last-attempt time");;
  fail_if (bool_decide (rs_Status s = ReconcileApplying)
           && ((rs_AttemptCount s =? 0) || is_nil (rs_LastAttemptAt s)
               || negb (is_nil (rs_NextAttemptAt s))))
          (Errorf "applying state has inconsistent attempt fields");;
  fail_if (bool_decide (rs_Status s = ReconcileRetryWaiting)
           && ((rs_AttemptCount s =? 0) || is_nil (rs_LastAttemptAt s)
               || is_nil (rs_NextAttemptAt s)))
          (Errorf "retry-waiting state has inconsistent attempt fields");;
  fail_if (match rs_NextAttemptAt s, rs_LastAttemptAt s with
           | Some next, Some last => negb (After next last)
           | _, _ => false
           end) (Errorf "next-attempt time is not after last attempt");;
  fail_if (bool_decide (rs_Status s = ReconcileConverged ∨ rs_Status s = ReconcileDegraded)
           && negb (is_nil (rs_NextAttemptAt s)))
          (Errorf "terminal state has a next-attempt time").

(** [retryBackoff[attempts-1]]: out of range the program panics. *)
Definition backoff (attempts : Z) : option duration :=
  if attempts <? 1 then None else retryBackoff !! Z.to_nat (attempts - 1).

(** A crash left the attempt in flight: it is waiting, or out of budget. A nil
    last attempt or a count out of range would panic. *)
Definition recover_applying (s : RetryState) : option RetryState :=
  if negb (bool_decide (rs_Status s = ReconcileApplying)) then Some s
  else if maxMutationAttempts <=? rs_AttemptCount s
  then Some (MkRetryState ReconcileDegraded (rs_AttemptCount s) (rs_LastAttemptAt s) None
               (rs_LastErrorCode s))
  else match rs_LastAttemptAt s, backoff (rs_AttemptCount s) with
  | Some last, Some delay =>
    Some (MkRetryState ReconcileRetryWaiting (rs_AttemptCount s) (rs_LastAttemptAt s)
            (Some (last + delay)) (rs_LastErrorCode s))
  | _, _ => None
  end.

Definition errPanic : error := Typed "runtime.Error" [] (Errorf "panic").

Fixpoint hydrate_states (node : NodeID) (states : list PersistedReconcileState)
    (acc : gmap attemptRef RetryState) : result (gmap attemptRef RetryState) :=
  match states with
  | [] => Ok acc
  | p :: rest =>
    fail_if (negb (bool_decide (ps_NodeID p = node))) (Errorf "retry state belongs to node %q");;
    ref ← attemptRefFromPersistedState p;
    wrap "validate %s retry state" (validateRecoveredRetryState (ps_RetryState p));;
    match recover_applying (ps_RetryState p) with
    | None => Err errPanic
    | Some state => hydrate_states node rest (<[ref := state]> acc)
    end
  end.

Fixpoint hydrate_probes (node : NodeID) (probes : list PersistedProbeRequirement) (l : RetryLedger)
    : result RetryLedger :=
  match probes with
  | [] => Ok l
  | r :: rest =>
    fail_if (negb (bool_decide (pp_NodeID r = node))) (Errorf "Probe requirement belongs to node %q");;
    '(key, ref) ← pendingProbeFromPersisted r;
    fail_if (negb (is_nil (lg_pendingProbes l !! key))) (Errorf "duplicate Probe requirement for %s");;
    l' ← (match lg_states l !! ref with
          | Some state =>
            fail_if (negb (rs_AttemptCount state =? pp_AttemptCount r))
                    (Errorf "Probe requirement attempt does not match retry ledger for %s");;
            fail_if (negb (bool_decide (rs_Status state = ReconcileApplying ∨
                       rs_Status state = ReconcileRetryWaiting ∨ rs_Status state = ReconcileDegraded)))
                    (Errorf "Probe requirement has incompatible retry status for %s");;
            Ok l
          | None =>
            Ok (MkRetryLedger
                  (<[ref := MkRetryState ReconcileApplying (pp_AttemptCount r) None None EmptyString]>
                     (lg_states l))
                  (lg_pendingProbes l) ({[ref]} ∪ lg_syntheticRefs l))
          end);
    hydrate_probes node rest
      (MkRetryLedger (lg_states l') (<[key := ref]> (lg_pendingProbes l')) (lg_syntheticRefs l'))
  end.

Definition hasPendingRef (l : RetryLedger) (ref : attemptRef) : bool :=
  existsb (λ e, bool_decide (e.2 = ref)) (map_to_list (lg_pendingProbes l)).

Definition hydrateRecovery (node : NodeID) (recovery : ReconcileRecoverySnapshot)
    : result RetryLedger :=
  states ← hydrate_states node (rc_States recovery) ∅;
  l ← hydrate_probes node (rc_ProbeRequirements recovery) (MkRetryLedger states ∅ ∅);
  fail_if (existsb (λ p, bool_decide (rs_Status (ps_RetryState p) = ReconcileApplying)
                         && negb (match attemptRefFromPersistedState p with
                                  | Ok ref => hasPendingRef l ref
                                  | Err _ => hasPendingRef l (InvalidRef 0)
                                  end))
             (rc_States recovery))
          (Errorf "applying retry state is missing its Probe requirement");;
  Ok l.

Definition list_is_empty {A} (l : list A) : bool := match l with [] => true | _ => false end.

Definition replaceRecoveryLocked (c : Controller) (recovery : ReconcileRecoverySnapshot)
    : result Controller :=
  l ← hydrateRecovery (c_nodeID c) recovery;
  let c := set_startup (set_ledger c l)
             (negb (list_is_empty (rc_States recovery))
              || negb (list_is_empty (rc_ProbeRequirements recovery))) in
  Ok (if c_hasDesired c then activateHydratedStateLocked c else c).
