(* ===== verification/FakeBackend.v ===== *)
(** * The in-memory firewall (internal/firewall/fake/backend.go)

    A simulator of the external firewall state: probes return what is there, and
    an Apply validates its plan, takes the next queued outcome of its domain (a
    confirmed mutation when none is queued) and mutates when the outcome says so.
    The time of a mutation and whether the context was cancelled are arguments. *)

From S2P Require Import Prelude GoStd GoFmt Sha256 Netip Identity CoreModel Enforcement.
From S2P Require Import ObservedState ReconcilePlan Controller.

Record QueuedOutcome := MkOutcome {
  qo_Kind : ResultKind;
  qo_Mutate : bool;
  qo_ErrorCode : string
}.

Record FakeBackend := MkFake {
  fk_infrastructure : option PhysicalInfrastructure;
  fk_policy : option PhysicalPolicy;
  fk_targets : gmap Prefix PhysicalTargetObserved;
  fk_outcomes : gmap Domain (list QueuedOutcome);
  fk_probeCount : Z;
  fk_applyCount : Z
}.
Definition NewBackend : FakeBackend := MkFake None None ∅ ∅ 0 0.

Definition validateOutcome (o : QueuedOutcome) : result unit :=
  match qo_Kind o with
  | ResultConfirmed =>
    fail_if (negb (qo_Mutate o)) (Errorf "confirmed outcome must establish its postcondition")
  | ResultRejected => fail_if (qo_Mutate o) (Errorf "rejected outcome cannot mutate fake state")
  | ResultUnknown => Ok tt
  | ResultOther _ => Err (Errorf "unknown result kind %d")
  end.
Definition validDomain (d : Domain) : bool :=
  match d with DomainOther _ => false | _ => true end.

Definition QueueOutcome (domain : Domain) (o : QueuedOutcome) (b : FakeBackend) : result FakeBackend :=
  validateOutcome o;;
  fail_if (negb (validDomain domain)) (Errorf "unknown failure domain %d");;
  Ok (MkFake (fk_infrastructure b) (fk_policy b) (fk_targets b)
        (<[domain := default [] (fk_outcomes b !! domain) ++ [o]]> (fk_outcomes b))
        (fk_probeCount b) (fk_applyCount b)).

Definition snapshotLocked (b : FakeBackend) : Snapshot :=
  MkSnapshot EmptyString (fk_infrastructure b) (fk_policy b) (fk_targets b).

Definition Fake_Probe (cancelled : option error) (b : FakeBackend) : result Snapshot * FakeBackend :=
  match cancelled with
  | Some e => (Err e, b)
  | None => (Ok (snapshotLocked b),
             MkFake (fk_infrastructure b) (fk_policy b) (fk_targets b) (fk_outcomes b)
               (wrap64 (fk_probeCount b + 1)) (fk_applyCount b))
  end.

Definition physicalFromIntent (now : time) (i : NormalizedTargetEnforcementIntent) : PhysicalTargetObserved :=
  MkPhysicalTarget (ti_CanonicalTarget i) now TargetObservationEvidenceComplete "fake"
    ObservedMembershipPresent
    (match ti_PolicyCoverage i with
     | PolicyCoveragePartial => ObservedPolicyPartial
     | PolicyCoverageFull => ObservedPolicyFull
     | _ => ObservedPolicyNone
     end)
    (ti_PolicyRelationDigest i) (ti_TimeoutMode i)
    (if bool_decide (ti_TimeoutMode i = TimeoutNative) then NativeExpiryForIntent i else None)
    (ti_Scopes i) (ti_AddressFamily i) (ti_BackendAttributesDigest i) EmptyString.

Definition applyPhysicalLocked (now : time) (plan : OperationPlan) (b : FakeBackend) : FakeBackend :=
  match op_Domain plan with
  | DomainInfrastructure =>
    let i := op_DesiredInfrastructure plan in
    MkFake (Some (MkPhysicalInfra (mi_Backend i) (mi_OwnerVersion i) (mi_Digest i))) (fk_policy b)
      (fk_targets b) (fk_outcomes b) (fk_probeCount b) (fk_applyCount b)
  | DomainPolicy =>
    MkFake (fk_infrastructure b) (Some (MkPhysicalPolicy (mp_RelationDigest (op_DesiredPolicy plan))))
      (fk_targets b) (fk_outcomes b) (fk_probeCount b) (fk_applyCount b)
  | DomainTarget =>
    MkFake (fk_infrastructure b) (fk_policy b)
      (if bool_decide (ti_BanMembership (op_DesiredTarget plan) = BanAbsent)
       then delete (op_Target plan) (fk_targets b)
       else <[op_Target plan := physicalFromIntent now (op_DesiredTarget plan)]> (fk_targets b))
      (fk_outcomes b) (fk_probeCount b) (fk_applyCount b)
  | DomainOther _ => b
  end.

Definition SetPhysicalTarget (observed : PhysicalTargetObserved) (b : FakeBackend) : result FakeBackend :=
  fail_if (not_canonical (pt_CanonicalTarget observed)) (Errorf "physical target must be canonical");;
  fail_if (match pt_BanMembership observed with ObservedMembershipOther _ => true | _ => false end)
          (Errorf "physical target membership is invalid");;
  Ok (MkFake (fk_infrastructure b) (fk_policy b)
        (<[pt_CanonicalTarget observed := observed]> (fk_targets b)) (fk_outcomes b)
        (fk_probeCount b) (fk_applyCount b)).

Section apply.
Context {U : Unicode}.

Definition Fake_Apply (cancelled : option error) (now : time) (plan : OperationPlan) (b : FakeBackend)
    : result ApplyResult * FakeBackend :=
  match cancelled with
  | Some e => (Err e, b)
  | None =>
    match ValidatePlan plan with
    | Err e =>
      (if validDomain (op_Domain plan)
       then Ok (MkApplyResult ResultRejected (op_Domain plan) (op_Target plan) (op_Digest plan) "invalid_plan")
       else Err e, b)
    | Ok _ =>
      let b := MkFake (fk_infrastructure b) (fk_policy b) (fk_targets b) (fk_outcomes b)
                 (fk_probeCount b) (wrap64 (fk_applyCount b + 1)) in
      let '(outcome, b) :=
        match default [] (fk_outcomes b !! op_Domain plan) with
        | [] => (MkOutcome ResultConfirmed true EmptyString, b)
        | o :: rest =>
          (o, MkFake (fk_infrastructure b) (fk_policy b) (fk_targets b)
                (<[op_Domain plan := rest]> (fk_outcomes b)) (fk_probeCount b) (fk_applyCount b))
        end in
      let b := if qo_Mutate outcome then applyPhysicalLocked now plan b else b in
      (Ok (MkApplyResult (qo_Kind outcome) (op_Domain plan) (op_Target plan) (op_Digest plan)
             (qo_ErrorCode outcome)), b)
    end
  end.

(** What a mutation establishes *)
Lemma physicalFromIntent_matches now targets i j :
  Equivalent i j = true → bool_decide (ti_BanMembership i = BanAbsent) = false →
  physicalTargetMatches (<[ti_CanonicalTarget i := physicalFromIntent now i]> targets) j = true.
Proof.
  intros He Ha. pose proof He as He'. apply Equivalent_iff in He'.
  destruct i as [n t m u mode sc fam cov rel att g], j as [n' t' m' u' mode' sc' fam' cov' rel' att' g'].
  unfold with_Generation in He'. cbn in He'. injection He' as -> -> -> -> -> -> -> -> -> ->.
  unfold physicalTargetMatches. cbn [ti_BanMembership ti_CanonicalTarget] in *. rewrite Ha, lookup_insert_eq.
  unfold physicalFromIntent. cbn.
  rewrite (bool_decide_eq_false_2 (TargetObservationEvidenceComplete = _)) by done.
  rewrite (bool_decide_eq_true_2 (_ = want_coverage cov')) by by destruct cov'.
  rewrite !bool_decide_eq_true_2, !Z.eqb_refl by done. cbn.
  unfold timeout_matches, nativeExpiryMatchesIntent, NativeExpiryForIntent. cbn.
  destruct (bool_decide (mode' = TimeoutNative)); cbn; [|done].
  destruct u' as [until|]; cbn; [|done].
  unfold Before, After, nativeExpirySnapshotTolerance, second. gobool. lia.
Qed.

(** Queued outcomes were validated. *)
Definition outcomes_valid (b : FakeBackend) : Prop :=
  map_Forall (λ _ l, Forall (λ o, validateOutcome o = Ok tt) l) (fk_outcomes b).

Lemma QueueOutcome_valid domain o b b' :
  outcomes_valid b → QueueOutcome domain o b = Ok b' → outcomes_valid b'.
Proof.
  unfold QueueOutcome. intros Hb Hq. inv_ok. intros d l. cbn.
  destruct (decide (d = domain)) as [->|Hne]; [|by rewrite lookup_insert_ne by done; apply Hb].
  rewrite lookup_insert_eq. intros [= <-]. apply Forall_app. split; [|by constructor].
  destruct (fk_outcomes b !! domain) eqn:Hl; [by eapply Hb|constructor].
Qed.

Lemma applyPhysicalLocked_outcomes now plan b : fk_outcomes (applyPhysicalLocked now plan b) = fk_outcomes b.
Proof. unfold applyPhysicalLocked. by destruct (op_Domain plan). Qed.

Lemma Fake_Apply_valid cancelled now plan b :
  outcomes_valid b → outcomes_valid (Fake_Apply cancelled now plan b).2.
Proof.
  intros Hb. unfold Fake_Apply. destruct cancelled; [done|]. destruct (ValidatePlan plan); [|done].
  cbn [fk_outcomes]. destruct (fk_outcomes b !! op_Domain plan) as [[|o rest]|] eqn:Hl; cbn;
    try (intros d l; rewrite applyPhysicalLocked_outcomes; cbn; by apply Hb).
  assert (Forall (λ o, validateOutcome o = Ok tt) (o :: rest)) as Hf by by eapply Hb.
  inversion Hf; subst. destruct (qo_Mutate o); intros d l; rewrite ?applyPhysicalLocked_outcomes; cbn;
    (destruct (decide (d = op_Domain plan)) as [->|Hne];
      [rewrite lookup_insert_eq; by intros [= <-]|rewrite lookup_insert_ne by done; apply Hb]).
Qed.

Lemma applyPhysicalLocked_matches c now plan b :
  ValidatePlan plan = Ok tt → planMatchesCurrentDesiredLocked c plan = true →
  snapshotMatchesCurrentDesiredLocked c (snapshotLocked (applyPhysicalLocked now plan b))
    (op_Domain plan) (op_Target plan) = true.
Proof.
  intros Hv Hm. unfold planMatchesCurrentDesiredLocked in Hm.
  unfold snapshotMatchesCurrentDesiredLocked, applyPhysicalLocked.
  apply andb_true_iff in Hm as [-> Hm]. cbn [andb].
  unfold ValidatePlan in Hv. destruct (op_Domain plan); [| | |done]; cbn.
  - gobool. by destruct Hm as [_ ->].
  - apply andb_true_iff in Hm as [_ Hp]. unfold policyIntentEqual in Hp. gobool. tauto.
  - destruct (c_desiredTargets c !! op_Target plan) as [j|]; [|done].
    apply andb_true_iff in Hm as [_ He]. inv_ok. gobool.
    assert (ti_CanonicalTarget (op_DesiredTarget plan) = op_Target plan) as Ht by naive_solver.
    pose proof He as He'. apply Equivalent_iff in He'.
    destruct (bool_decide (ti_BanMembership (op_DesiredTarget plan) = BanAbsent)) eqn:Ha.
    + unfold physicalTargetMatches. unfold with_Generation in He'. injection He' as _ E1 E2 _.
      rewrite <- E2, Ha, <- E1, Ht, lookup_delete_eq. done.
    + rewrite <- Ht. by apply physicalFromIntent_matches.
Qed.
End apply.
