(* ===== verification/ControllerOps.v ===== *)
(** * The reconcile controller: operations

    The methods of Controller in internal/reconcile/controller.go,
    persistence.go and observed_state.go, over the world of file Controller. A
    method with the suffix Locked runs with stateMu held. *)

From S2P Require Import Prelude GoStd GoFmt Sha256 Netip Identity CoreModel Enforcement.
From S2P Require Import ObservedState ReconcilePlan Controller.

Section operations.
Context {U : Unicode} {E : Type}.
Context `{Clock E, Backend E, CriticalAuditWriter E, PersistentStateStore E, Scheduler E}.

(** ** Critical sections *)
Definition SetDesiredSnapshotLocked (snapshot : DesiredFirewallSnapshot) (c : Controller)
    : result Controller :=
  '(prepared, targets) ← prepareDesired snapshot;
  (if c_hasDesired c
   then validateDesiredTransition (c_desired c) (c_desiredTargets c) prepared targets
   else Ok tt);;
  Ok (activateHydratedStateLocked (set_desired c prepared targets)).

(** The calls of other goroutines; a refused snapshot changes nothing. *)
Definition publish (c : Controller) (snapshot : DesiredFirewallSnapshot) : Controller :=
  match SetDesiredSnapshotLocked snapshot c with Ok c' => c' | Err _ => c end.
Definition interleave : M E unit :=
  snapshots ← ask env_Published;
  modify_c (λ c, foldl publish c snapshots).
Definition locked {A} (m : M E A) : M E A := interleave;; m.

Definition SetDesiredSnapshot (snapshot : DesiredFirewallSnapshot) : M E unit :=
  interleave;;
  c ← get_c;
  c' ← st_lift (SetDesiredSnapshotLocked snapshot c);
  modify_c (λ _, c').

(** ** Ledger access *)
Definition getState (ref : attemptRef) : M E RetryState :=
  match ref with
  | InvalidRef _ => panic "invalid attempt domain"
  | _ => c ← get_c; mret (default zero_retry_state (stateForRef c ref))
  end.
Definition putState (ref : attemptRef) (state : RetryState) : M E unit :=
  match ref with
  | InvalidRef _ => panic "invalid attempt domain"
  | _ => modify_c (put_state ref state)
  end.

Definition with_status (s : RetryState) (status : ReconcileStatus) (code : string) : RetryState :=
  MkRetryState status (rs_AttemptCount s) (rs_LastAttemptAt s) None code.

(** ** Persistence (persistence.go) *)
Definition retryEpoch (ref : attemptRef) : Z :=
  match ref with
  | InfrastructureRef k => ik_Epoch k | PolicyRef k => pk_Epoch k | TargetRef k => tk_Epoch k
  | InvalidRef _ => 0
  end.

Definition persistedState (ref : attemptRef) (state : RetryState) : M E PersistedReconcileState :=
  now ← Now;
  c ← get_c;
  mret (match ref with
        | InfrastructureRef k =>
          MkPersistedState (c_nodeID c) ReconcileDomainInfrastructure (ik_Revision k) 0 zero_prefix 0
            (ik_Epoch k) state now
        | PolicyRef k =>
          MkPersistedState (c_nodeID c) ReconcileDomainPolicy 0 (pk_Revision k) zero_prefix 0
            (pk_Epoch k) state now
        | TargetRef k =>
          MkPersistedState (c_nodeID c) ReconcileDomainTarget 0 0 (tk_Target k) (tk_Generation k)
            (tk_Epoch k) state now
        | InvalidRef _ =>
          MkPersistedState (c_nodeID c) (ReconcileDomainOther 0) 0 0 zero_prefix 0 0 state now
        end).

Definition persistedProbe (key : pendingProbeKey) (ref : attemptRef) (attemptCount : Z)
    : M E PersistedProbeRequirement :=
  now ← Now;
  c ← get_c;
  mret (MkPersistedProbe (c_nodeID c) (coreDomain (pk_domain key)) (pk_infrastructureRevision key)
          (pk_policyRevision key) (pk_target key) (pk_targetGeneration key)
          (pk_snapshotRevision key) (pk_fenceSnapshotRevision key) (retryEpoch ref) attemptCount now).

Definition equalPersistedTime (left right : option time) : bool :=
  match left, right with
  | None, None => true
  | Some l, Some r => UnixMicro l =? UnixMicro r
  | _, _ => false
  end.

Definition samePersistedState (left right : PersistedReconcileState) : bool :=
  bool_decide (ps_NodeID left = ps_NodeID right) && bool_decide (ps_Domain left = ps_Domain right)
  && (ps_InfrastructureRevision left =? ps_InfrastructureRevision right)
  && (ps_PolicyRevision left =? ps_PolicyRevision right)
  && bool_decide (ps_Target left = ps_Target right)
  && (ps_TargetGeneration left =? ps_TargetGeneration right)
  && (ps_RetryEpoch left =? ps_RetryEpoch right)
  && bool_decide (rs_Status (ps_RetryState left) = rs_Status (ps_RetryState right))
  && (rs_AttemptCount (ps_RetryState left) =? rs_AttemptCount (ps_RetryState right))
  && equalPersistedTime (rs_LastAttemptAt (ps_RetryState left)) (rs_LastAttemptAt (ps_RetryState right))
  && equalPersistedTime (rs_NextAttemptAt (ps_RetryState left)) (rs_NextAttemptAt (ps_RetryState right))
  && bool_decide (rs_LastErrorCode (ps_RetryState left) = rs_LastErrorCode (ps_RetryState right)).

Definition same_probe (probe expected : PersistedProbeRequirement) : bool :=
  bool_decide (pp_NodeID probe = pp_NodeID expected)
  && bool_decide (pp_Domain probe = pp_Domain expected)
  && (pp_InfrastructureRevision probe =? pp_InfrastructureRevision expected)
  && (pp_PolicyRevision probe =? pp_PolicyRevision expected)
  && bool_decide (pp_Target probe = pp_Target expected)
  && (pp_TargetGeneration probe =? pp_TargetGeneration expected)
  && (pp_SnapshotRevision probe =? pp_SnapshotRevision expected)
  && eqb (pp_FenceSnapshotRevision probe) (pp_FenceSnapshotRevision expected)
  && (pp_RetryEpoch probe =? pp_RetryEpoch expected)
  && (pp_AttemptCount probe =? pp_AttemptCount expected).
Definition recoveryHasProbe (recovery : ReconcileRecoverySnapshot)
    (expected : PersistedProbeRequirement) : bool :=
  existsb (λ probe, same_probe probe expected) (rc_ProbeRequirements recovery).

Definition reconcileTransitionApplied (recovery : ReconcileRecoverySnapshot)
    (t : ReconcileStateTransition) : bool :=
  (rt_DeleteOnly t || existsb (λ s, samePersistedState s (rt_State t)) (rc_States recovery))
  && match rt_UpsertProbe t with Some p => recoveryHasProbe recovery p | None => true end
  && match rt_DeleteProbe t with Some p => negb (recoveryHasProbe recovery p) | None => true end.

(** ** Observations (observed_state.go) *)
Definition equalObservedTime (left right : time) : bool := UnixMicro left =? UnixMicro right.
Definition equalOptionalObservedTime (left right : option time) : bool :=
  match left, right with
  | None, None => true
  | Some l, Some r => equalObservedTime l r
  | _, _ => false
  end.

Definition sameInfrastructureObserved (l r : InfrastructureObservedState) : bool :=
  bool_decide (io_Presence l = io_Presence r) && equalObservedTime (io_ObservedAt l) (io_ObservedAt r)
  && bool_decide (io_Backend l = io_Backend r) && bool_decide (io_OwnerVersion l = io_OwnerVersion r)
  && bool_decide (io_Digest l = io_Digest r)
  && (io_ConfirmedRevision l =? io_ConfirmedRevision r)
  && bool_decide (io_LastErrorCode l = io_LastErrorCode r).

Definition samePolicyObserved (l r : PolicyObservedState) : bool :=
  bool_decide (po_Presence l = po_Presence r) && equalObservedTime (po_ObservedAt l) (po_ObservedAt r)
  && bool_decide (po_RelationDigest l = po_RelationDigest r)
  && (po_ConfirmedRevision l =? po_ConfirmedRevision r)
  && bool_decide (po_LastErrorCode l = po_LastErrorCode r).

Definition sameTargetObserved (left right : TargetObservedState) : bool :=
  let l := to_Physical left in let r := to_Physical right in
  bool_decide (pt_CanonicalTarget l = pt_CanonicalTarget r)
  && equalObservedTime (pt_ObservedAt l) (pt_ObservedAt r)
  && bool_decide (pt_Backend l = pt_Backend r)
  && bool_decide (pt_BanMembership l = pt_BanMembership r)
  && bool_decide (pt_PolicyCoverage l = pt_PolicyCoverage r)
  && bool_decide (pt_PolicyRelationDigest l = pt_PolicyRelationDigest r)
  && bool_decide (pt_TimeoutMode l = pt_TimeoutMode r)
  && equalOptionalObservedTime (pt_NativeExpiry l) (pt_NativeExpiry r)
  && (pt_Scopes l =? pt_Scopes r) && bool_decide (pt_AddressFamily l = pt_AddressFamily r)
  && bool_decide (pt_OwnerVersion l = pt_OwnerVersion r)
  && bool_decide (pt_LastErrorCode l = pt_LastErrorCode r)
  && (to_ConfirmedGeneration left =? to_ConfirmedGeneration right).

(** The first stored entry of the target decides. *)
Definition observedUpdateApplied (snapshot : ObservedFirewallSnapshot) (update : ObservedFirewallUpdate)
    : bool :=
  bool_decide (os_NodeID snapshot = ou_NodeID update)
  && match ou_Infrastructure update with
     | None => true
     | Some u => match os_Infrastructure snapshot with
                 | None => false | Some s => sameInfrastructureObserved s u end
     end
  && match ou_Policy update with
     | None => true
     | Some u => match os_Policy snapshot with
                 | None => false | Some s => samePolicyObserved s u end
     end
  && forallb (λ expected,
       match list_find (λ actual, pt_CanonicalTarget (to_Physical actual)
                                  = pt_CanonicalTarget (to_Physical expected)) (os_Targets snapshot) with
       | None => false
       | Some (_, actual) => sameTargetObserved actual expected
       end) (ou_Targets update).

Definition nextObservedAtLocked : M E time :=
  t ← Now;
  c ← get_c;
  let now := Truncate t microsecond in
  let now := if negb (After now (c_lastObservedAt c)) then c_lastObservedAt c + microsecond else now in
  modify_c (λ c, set_observed_clock c now);;
  mret now.

Definition sorted_targets (c : Controller) : list Prefix :=
  sort_by Prefix_String ((map_to_list (c_desiredTargets c)).*1).

Definition observed_physical (p : PhysicalTargetObserved) (target : Prefix) (at_ : time)
    : PhysicalTargetObserved :=
  MkPhysicalTarget target at_ (pt_Evidence p) (pt_Backend p) (pt_BanMembership p)
    (pt_PolicyCoverage p) (pt_PolicyRelationDigest p) (pt_TimeoutMode p) (pt_NativeExpiry p)
    (pt_Scopes p) (pt_AddressFamily p) (pt_OwnerVersion p) (pt_LastErrorCode p).
Definition bare_physical (target : Prefix) (at_ : time) (m : ObservedMembership) (code : string)
    : PhysicalTargetObserved :=
  MkPhysicalTarget target at_ TargetObservationEvidenceComplete EmptyString m ObservedPolicyUnknown
    EmptyString TimeoutNone None 0 (AddressFamilyOther 0) EmptyString code.

Definition snapshot_update (c : Controller) (snapshot : Snapshot) (observedAt : time)
    : ObservedFirewallUpdate :=
  let matches := snapshotMatchesCurrentDesiredLocked c snapshot in
  MkObservedUpdate (c_nodeID c)
    (Some (match sn_Infrastructure snapshot with
           | None => MkInfraObserved ObservedPresenceAbsent observedAt EmptyString EmptyString
                       EmptyString 0 EmptyString
           | Some i => MkInfraObserved ObservedPresencePresent observedAt (phi_Backend i)
                         (phi_OwnerVersion i) (phi_Digest i)
                         (if matches DomainInfrastructure zero_prefix
                          then fs_InfrastructureRevision (c_desired c) else 0) EmptyString
           end))
    (Some (match sn_Policy snapshot with
           | None => MkPolicyObserved ObservedPresenceAbsent observedAt EmptyString 0 EmptyString
           | Some p => MkPolicyObserved ObservedPresencePresent observedAt (php_RelationDigest p)
                         (if matches DomainPolicy zero_prefix
                          then fs_PolicyRevision (c_desired c) else 0) EmptyString
           end))
    ((λ target,
        MkTargetObserved
          (match sn_Targets snapshot !! target with
           | None => bare_physical target observedAt ObservedMembershipAbsent EmptyString
           | Some physical => observed_physical physical target observedAt
           end)
          (if matches DomainTarget target
           then match c_desiredTargets c !! target with Some i => ti_Generation i | None => 0 end
           else 0)) <$> sorted_targets c).

Definition observedUpdateForSnapshotLocked (snapshot : Snapshot)
    : M E (option ObservedFirewallUpdate) :=
  c ← get_c;
  if negb (c_hasStore c) || negb (c_hasDesired c) then mret None
  else
    observedAt ← nextObservedAtLocked;
    c ← get_c;
    let update := snapshot_update c snapshot observedAt in
    st_lift (wrap "construct Observed firewall update" (ObservedUpdate_Validate update));;
    mret (Some update).

Definition unknown_infra (at_ : time) (code : string) : InfrastructureObservedState :=
  MkInfraObserved ObservedPresenceUnknown at_ EmptyString EmptyString EmptyString 0 code.
Definition unknown_policy (at_ : time) (code : string) : PolicyObservedState :=
  MkPolicyObserved ObservedPresenceUnknown at_ EmptyString 0 code.
Definition unknown_target (at_ : time) (code : string) (target : Prefix) : TargetObservedState :=
  MkTargetObserved (bare_physical target at_ ObservedMembershipUnknown code) 0.

Definition unknownObservedUpdateLocked (domain : Domain) (target : Prefix) (code : string)
    : M E (option ObservedFirewallUpdate) :=
  c ← get_c;
  if negb (c_hasStore c) || negb (c_hasDesired c) then mret None
  else
    let code := if is_empty code then probeFailureErrorCode else code in
    observedAt ← nextObservedAtLocked;
    update ← (match domain with
      | DomainInfrastructure =>
        mret (MkObservedUpdate (c_nodeID c) (Some (unknown_infra observedAt code)) None [])
      | DomainPolicy =>
        mret (MkObservedUpdate (c_nodeID c) None (Some (unknown_policy observedAt code)) [])
      | DomainTarget =>
        match c_desiredTargets c !! target with
        | None => st_fail (Errorf "construct Target Observed failure: target %s is not Desired")
        | Some _ => mret (MkObservedUpdate (c_nodeID c) None None [unknown_target observedAt code target])
        end
      | DomainOther _ => st_fail (Errorf "construct Observed failure: unknown domain %d")
      end);
    st_lift (wrap "construct Observed failure update" (ObservedUpdate_Validate update));;
    mret (Some update).

Definition allUnknownObservedUpdateLocked (code : string) : M E (option ObservedFirewallUpdate) :=
  c ← get_c;
  if negb (c_hasStore c) || negb (c_hasDesired c) then mret None
  else
    let code := if is_empty code then probeFailureErrorCode else code in
    observedAt ← nextObservedAtLocked;
    let update := MkObservedUpdate (c_nodeID c) (Some (unknown_infra observedAt code))
      (Some (unknown_policy observedAt code)) (unknown_target observedAt code <$> sorted_targets c) in
    st_lift (wrap "construct failed Probe Observed update" (ObservedUpdate_Validate update));;
    mret (Some update).

Definition persistObservedLocked (update : option ObservedFirewallUpdate) : M E unit :=
  c ← get_c;
  match update with
  | None => mret tt
  | Some update =>
    if negb (c_hasStore c) then mret tt
    else
      r ← st_try (ApplyObservedFirewallUpdate update);
      match r with
      | Ok _ => mret tt
      | Err e =>
        if negb (errors_Is e ErrReconcileCommitUnknown) then st_fail e
        else
          loaded ← st_try (LoadObservedFirewallSnapshot (c_nodeID c));
          match loaded with
          | Err e' => st_fail (Join e (Wrapf "read back indeterminate Observed commit" e'))
          | Ok snapshot => if observedUpdateApplied snapshot update then mret tt else st_fail e
          end
      end
  end.

Definition recordAllUnknownObserved (code : string) : M E unit :=
  locked (
    update ← allUnknownObservedUpdateLocked code;
    st_wrap "persist failed Probe observation" (persistObservedLocked update)).

(** ** Transitions (persistence.go) *)
Definition modify_reload (b : bool) : M E unit := modify_c (λ c, set_reload c b).

(** replaceRecoveryLocked and, when it succeeds, recoveryReloadNeeded = false. *)
Definition adoptRecoveryLocked (recovery : ReconcileRecoverySnapshot) : M E unit :=
  c ← get_c;
  c' ← st_lift (replaceRecoveryLocked c recovery);
  modify_c (λ _, set_reload c' false).

(** The readback of a commit whose outcome is unknown: what the database
    holds, and whether it shows the transition. *)
Definition read_back (t : ReconcileStateTransition) (e : error)
    : M E (ReconcileRecoverySnapshot * bool) :=
  c ← get_c;
  loaded ← st_try (LoadReconcileRecovery (c_nodeID c));
  match loaded with
  | Err e' =>
    modify_reload true;;
    st_fail (Join e (Wrapf "read back indeterminate reconcile commit" e'))
  | Ok recovery =>
    match rt_Observed t with
    | None => mret (recovery, reconcileTransitionApplied recovery t)
    | Some update =>
      observed ← st_try (LoadObservedFirewallSnapshot (c_nodeID c));
      match observed with
      | Err e' =>
        modify_reload true;;
        st_fail (Join e (Wrapf "read back indeterminate Observed commit" e'))
      | Ok snapshot =>
        mret (recovery,
              reconcileTransitionApplied recovery t && observedUpdateApplied snapshot update)
      end
    end
  end.

Definition applyTransitionLocked (t : ReconcileStateTransition) : M E unit :=
  r ← st_try (call (EvTransition t) (env_ApplyReconcileTransition t));
  match r with
  | Ok _ => mret tt
  | Err e =>
    if negb (errors_Is e ErrReconcileCommitUnknown) then st_fail e
    else
      '(recovery, applied) ← read_back t e;
      replaced ← st_try (adoptRecoveryLocked recovery);
      match replaced with
      | Err e' =>
        modify_reload true;;
        st_fail (Join e (Wrapf "replace state after indeterminate reconcile commit" e'))
      | Ok _ => if (applied : bool) then mret tt else st_fail e
      end
  end.

Definition reloadRecoveryIfNeeded : M E unit :=
  locked (
    c ← get_c;
    if negb (c_recoveryReloadNeeded c) then mret tt
    else
      recovery ← st_wrap "reload indeterminate reconcile state" (LoadReconcileRecovery (c_nodeID c));
      st_wrap "replace indeterminate reconcile state" (adoptRecoveryLocked recovery)).

Definition persistApplyingStateLocked (ref : attemptRef) (state : RetryState) (key : pendingProbeKey)
    (previous : option attemptRef) : M E unit :=
  c ← get_c;
  if negb (c_hasStore c) then mret tt
  else
    persisted ← persistedState ref state;
    upsert ← persistedProbe key ref (rs_AttemptCount state);
    delete ← (match previous with
      | None => mret None
      | Some previousRef =>
        match stateForRef c previousRef with
        | None => st_fail (Errorf "pending Probe retry state is missing")
        | Some s => probe ← persistedProbe key previousRef (rs_AttemptCount s); mret (Some probe)
        end
      end);
    applyTransitionLocked (MkTransition persisted (Some upsert) delete None false).

Definition persist_probe (key : option pendingProbeKey) (ref : attemptRef) (count : Z)
    : M E (option PersistedProbeRequirement) :=
  match key with
  | None => mret None
  | Some key => probe ← persistedProbe key ref count; mret (Some probe)
  end.

Definition persistStateWithObservedLocked (ref : attemptRef) (state : RetryState)
    (upsertKey deleteKey : option pendingProbeKey) (observed : option ObservedFirewallUpdate)
    : M E unit :=
  c ← get_c;
  if negb (c_hasStore c) then mret tt
  else
    persisted ← persistedState ref state;
    upsert ← persist_probe upsertKey ref (rs_AttemptCount state);
    delete ← persist_probe deleteKey ref (rs_AttemptCount state);
    applyTransitionLocked (MkTransition persisted upsert delete observed false).
Definition persistStateLocked (ref : attemptRef) (state : RetryState)
    (upsertKey deleteKey : option pendingProbeKey) : M E unit :=
  persistStateWithObservedLocked ref state upsertKey deleteKey None.

Definition persistStateAndClearProbeLocked (stateRef : attemptRef) (state : RetryState)
    (key : pendingProbeKey) (pendingRef : attemptRef) : M E unit :=
  c ← get_c;
  if negb (c_hasStore c) then mret tt
  else match stateForRef c pendingRef with
  | None => st_fail (Errorf "pending Probe retry state is missing")
  | Some pendingState =>
    persisted ← persistedState stateRef state;
    delete ← persistedProbe key pendingRef (rs_AttemptCount pendingState);
    applyTransitionLocked (MkTransition persisted None (Some delete) None false)
  end.

Definition clearProbeLocked (key : pendingProbeKey) (pendingRef : attemptRef) : M E unit :=
  c ← get_c;
  if negb (c_hasStore c) then mret tt
  else match stateForRef c pendingRef with
  | None => st_fail (Errorf "pending Probe retry state is missing")
  | Some pendingState =>
    delete ← persistedProbe key pendingRef (rs_AttemptCount pendingState);
    applyTransitionLocked (MkTransition zero_persisted_state None (Some delete) None true)
  end.

(** ** Completing an attempt (controller.go) *)
Definition finishFailureLocked (ref : attemptRef) (key : pendingProbeKey) (code : string)
    (canRetry requireProbe : bool) (observed : option ObservedFirewallUpdate) : M E unit :=
  state ← getState ref;
  state' ← (if negb canRetry || (maxMutationAttempts <=? rs_AttemptCount state)
            then mret (with_status state ReconcileDegraded code)
            else
              now ← Now;
              match backoff (rs_AttemptCount state) with
              | None => panic "index out of range"
              | Some delay =>
                mret (MkRetryState ReconcileRetryWaiting (rs_AttemptCount state)
                        (rs_LastAttemptAt state) (Some (now + delay)) code)
              end);
  r ← st_try (persistStateWithObservedLocked ref state'
                (if requireProbe then Some key else None) (if requireProbe then None else Some key)
                observed);
  match r with
  | Err e =>
    modify_c (put_pending key ref);;
    st_fail (Wrapf "persist reconcile failure" e)
  | Ok _ =>
    putState ref state';;
    modify_c (if requireProbe then put_pending key ref else delete_pending key)
  end.

Definition finishFailure (ref : attemptRef) (key : pendingProbeKey) (code : string)
    (canRetry : bool) : M E unit :=
  locked (finishFailureLocked ref key code canRetry false None).

Definition finishFailureAndRequireProbeObserved (ref : attemptRef) (key : pendingProbeKey)
    (code : string) (allDomains : bool) : M E unit :=
  locked (
    observed ← (if allDomains then allUnknownObservedUpdateLocked code
                else unknownObservedUpdateLocked (pk_domain key) (pk_target key) code);
    finishFailureLocked ref key code true true observed).

Definition finishStaleLocked (ref : attemptRef) (key : pendingProbeKey) : M E unit :=
  s ← getState ref;
  c ← get_c;
  let state := with_status s ReconcilePending "stale_completion" in
  let '(stateRef, persisted) :=
    match currentStateForPendingKeyLocked c key with
    | Some (currentRef, currentState) =>
      if bool_decide (currentRef = ref) then (ref, state) else (currentRef, currentState)
    | None => (ref, state)
    end in
  let synthetic := bool_decide (ref ∈ lg_syntheticRefs (c_ledger c)) in
  st_wrap "persist stale completion"
    (if (synthetic && bool_decide (stateRef = ref)) || negb (sameAttemptPhysicalKey ref stateRef)
     then clearProbeLocked key ref
     else persistStateAndClearProbeLocked stateRef persisted key ref);;
  putState ref state;;
  modify_c (delete_synthetic ref).

Definition confirm_plan (plan : OperationPlan) : M E unit :=
  if bool_decide (op_Domain plan = DomainTarget)
  then modify_c (confirm_target (op_Target plan) (op_ExpectedTargetGeneration plan))
  else mret tt.

Definition finishConvergedLocked (ref : attemptRef) (plan : OperationPlan) (key : pendingProbeKey)
    (observed : option ObservedFirewallUpdate) : M E unit :=
  s ← getState ref;
  let state := with_status s ReconcileConverged EmptyString in
  st_wrap "persist converged state" (persistStateWithObservedLocked ref state None (Some key) observed);;
  putState ref state;;
  confirm_plan plan.

Definition pending_state : RetryState := MkRetryState ReconcilePending 0 None None EmptyString.

Definition finishRecoveredByProbeLocked (plan : OperationPlan) (key : pendingProbeKey)
    (pendingRef : attemptRef) : M E unit :=
  c ← get_c;
  let '(ref, found) := attemptStateLocked c plan in
  let state := with_status (default pending_state found) ReconcileConverged EmptyString in
  st_wrap "persist observation-only convergence"
    (persistStateAndClearProbeLocked ref state key pendingRef);;
  putState ref state;;
  modify_c (delete_synthetic pendingRef);;
  confirm_plan plan.

Definition finishRecoveredPendingLocked (ref : attemptRef) (key : pendingProbeKey) : M E unit :=
  c ← get_c;
  '(stateRef, s) ← (match currentStateForPendingKeyLocked c key with
                    | Some rs => mret rs
                    | None => s ← getState ref; mret (ref, s)
                    end);
  let state := with_status s ReconcileConverged EmptyString in
  st_wrap "persist Probe recovery" (persistStateAndClearProbeLocked stateRef state key ref);;
  putState stateRef state;;
  modify_c (delete_synthetic ref);;
  if bool_decide (pk_domain key = DomainTarget)
  then modify_c (confirm_target (pk_target key) (pk_targetGeneration key))
  else mret tt.

Definition reloadSupersededTargetCompletionLocked (plan : OperationPlan) (persistErr : error)
    : M E bool :=
  c ← get_c;
  if negb (c_hasStore c) || negb (bool_decide (op_Domain plan = DomainTarget))
     || negb (errors_Is persistErr ErrReconcileStateRegression)
  then mret false
  else
    recovery ← st_wrap "reload Target generation after reconcile regression"
                 (LoadReconcileRecovery (c_nodeID c));
    let advanced := existsb (λ s,
      bool_decide (ps_NodeID s = c_nodeID c) && bool_decide (ps_Domain s = ReconcileDomainTarget)
      && bool_decide (ps_Target s = op_Target plan)
      && (op_ExpectedTargetGeneration plan <? ps_TargetGeneration s)) (rc_States recovery) in
    if negb advanced then mret false
    else
      st_wrap "replace Target generation after reconcile regression" (adoptRecoveryLocked recovery);;
      mret true.

Definition commitConfirmed (ref : attemptRef) (plan : OperationPlan) (snapshot : Snapshot)
    (key : pendingProbeKey) : M E unit :=
  locked (
    observed ← observedUpdateForSnapshotLocked snapshot;
    c ← get_c;
    if negb (planMatchesCurrentDesiredLocked c plan) then
      r ← st_try (st_wrap "persist stale completion observation" (persistObservedLocked observed);;
                  finishStaleLocked ref key);
      match r with
      | Err e => modify_c (put_pending key ref);; st_fail e
      | Ok _ => st_fail ErrStaleCompletion
      end
    else if negb (snapshotMatchesCurrentDesiredLocked c snapshot (op_Domain plan) (op_Target plan))
    then finishFailureLocked ref key "postcondition_mismatch" true false observed
    else
      r ← st_try (finishConvergedLocked ref plan key observed);
      match r with
      | Ok _ => modify_c (delete_pending key)
      | Err e =>
        superseded ← st_try (reloadSupersededTargetCompletionLocked plan e);
        match superseded with
        | Err e' => modify_c (put_pending key ref);; st_fail (Join e e')
        | Ok true => st_fail ErrStaleCompletion
        | Ok false => modify_c (put_pending key ref);; st_fail e
        end
      end).

Definition markInvalidPlan (plan : OperationPlan) : M E unit :=
  locked (
    c ← get_c;
    if negb (c_hasDesired c) then mret tt
    else
      let '(ref, found) := attemptStateLocked c plan in
      match ref with
      | InvalidRef _ => mret tt
      | _ =>
        let state := with_status (default zero_retry_state found) ReconcileDegraded "invalid_plan" in
        st_wrap "persist invalid plan" (persistStateLocked ref state None None);;
        putState ref state
      end).

(** ** Beginning an attempt (controller.go) *)
Definition targetExpirationFenceLocked (plan : OperationPlan) : M E unit :=
  let intent := op_DesiredTarget plan in
  match ti_EffectiveUntil intent with
  | Some until =>
    if negb (bool_decide (op_Domain plan = DomainTarget))
       || negb (bool_decide (ti_BanMembership intent = BanPresent))
    then mret tt
    else
      now ← Now;
      if After until now then mret tt
      else
        c ← get_c;
        if negb (planMatchesCurrentDesiredLocked c plan) then st_fail ErrStalePlan
        else st_fail errTargetIntentExpired
  | None => mret tt
  end.
Definition targetExpirationFence (plan : OperationPlan) : M E unit :=
  locked (targetExpirationFenceLocked plan).

Definition beginAttemptLocked (plan : OperationPlan) : M E attemptRef :=
  targetExpirationFenceLocked plan;;
  c ← get_c;
  let '(ref, found) := attemptStateLocked c plan in
  let state := default pending_state found in
  now ← Now;
  if bool_decide (rs_Status state = ReconcileDegraded) || (maxMutationAttempts <=? rs_AttemptCount state)
  then st_fail ErrBudgetExhausted
  else if bool_decide (rs_Status state = ReconcileRetryWaiting)
          && match rs_NextAttemptAt state with Some next => Before now next | None => false end
  then st_fail ErrRetryNotReady
  else
    let state' := MkRetryState ReconcileApplying (rs_AttemptCount state + 1) (Some now) None EmptyString in
    let key := pendingProbeKeyForPlan plan in
    let previous := lg_pendingProbes (c_ledger c) !! key in
    st_wrap "persist applying attempt" (persistApplyingStateLocked ref state' key previous);;
    putState ref state';;
    modify_c (put_pending key ref);;
    (match previous with
     | Some previousRef => modify_c (delete_synthetic previousRef)
     | None => mret tt
     end);;
    mret ref.

Definition beginAttempt (plan : OperationPlan) : M E attemptRef :=
  locked (
    c ← get_c;
    if negb (planMatchesCurrentDesiredLocked c plan) then st_fail ErrStalePlan
    else beginAttemptLocked plan).

(** The loops over the pending probes visit the entries the map had when the
    loop began: a recovery may replace the map meanwhile, and a body deletes
    only its own key. *)
Definition resolve_one (snapshot : Snapshot) (currentKey : pendingProbeKey) (plan : OperationPlan)
    (entry : pendingProbeKey * attemptRef) (recovered : bool) : M E bool :=
  let '(key, ref) := entry in
  c ← get_c;
  if negb (pendingKeyMatchesCurrentDesiredLocked c key) then
    finishStaleLocked ref key;; modify_c (delete_pending key);; mret recovered
  else if negb (snapshotMatchesCurrentDesiredLocked c snapshot (pk_domain key) (pk_target key))
  then mret recovered
  else if bool_decide (key = currentKey) then
    finishRecoveredByProbeLocked plan key ref;; modify_c (delete_pending key);; mret true
  else
    finishRecoveredPendingLocked ref key;; modify_c (delete_pending key);; mret recovered.

Fixpoint st_fold {S A B} (f : A → B → ST S B) (l : list A) (acc : B) : ST S B :=
  match l with
  | [] => mret acc
  | x :: rest => acc' ← f x acc; st_fold f rest acc'
  end.

Definition resolvePendingProbesLocked (snapshot : Snapshot) (currentKey : pendingProbeKey)
    (currentPlan : OperationPlan) : M E bool :=
  c ← get_c;
  entries ← range (map_to_list (lg_pendingProbes (c_ledger c)));
  st_fold (resolve_one snapshot currentKey currentPlan) entries false.

(** The result is the new attempt, or None when the probe already showed the
    desired state. *)
Definition beginAfterRequiredProbe (plan : OperationPlan) (snapshot : Snapshot)
    (key : pendingProbeKey) : M E (option attemptRef) :=
  locked (
    c ← get_c;
    if negb (planMatchesCurrentDesiredLocked c plan) then st_fail ErrStalePlan
    else
      targetExpirationFenceLocked plan;;
      observed ← observedUpdateForSnapshotLocked snapshot;
      st_wrap "persist required Probe observation" (persistObservedLocked observed);;
      recovered ← resolvePendingProbesLocked snapshot key plan;
      if (recovered : bool) then mret None
      else ref ← beginAttemptLocked plan; mret (Some ref)).

Definition beginAfterStartupProbe (plan : OperationPlan) (snapshot : Snapshot)
    : M E (option attemptRef) :=
  locked (
    c ← get_c;
    if negb (planMatchesCurrentDesiredLocked c plan) then st_fail ErrStalePlan
    else
      targetExpirationFenceLocked plan;;
      observed ← observedUpdateForSnapshotLocked snapshot;
      st_wrap "persist startup Probe observation" (persistObservedLocked observed);;
      c ← get_c;
      if negb (snapshotMatchesCurrentDesiredLocked c snapshot (op_Domain plan) (op_Target plan)) then
        ref ← beginAttemptLocked plan;
        modify_c (λ c, set_startup c false);;
        mret (Some ref)
      else
        let '(ref, found) := attemptStateLocked c plan in
        let state := with_status (default pending_state found) ReconcileConverged EmptyString in
        st_wrap "persist startup Probe recovery" (persistStateLocked ref state None None);;
        putState ref state;;
        modify_c (λ c, set_startup c false);;
        confirm_plan plan;;
        mret None).

(** ** Execute *)
Record ExecutionResult := MkExecution { er_Apply : ApplyResult; er_RecoveredByProbe : bool }.
Definition zero_apply : ApplyResult :=
  MkApplyResult (ResultOther 0) (DomainOther 0) zero_prefix EmptyString EmptyString.
Definition zero_execution : ExecutionResult := MkExecution zero_apply false.

Definition backendOperationFailure (operation : string) (backendErr : error)
    (persist : result unit) : error :=
  match persist with
  | Err persistErr => Join (Wrapf operation backendErr) persistErr
  | Ok _ => Typed "backendOperationError" [operation] backendErr
  end.

(** A probe whose failure is recorded as an unknown observation. *)
Definition probe_or_record (operation : string) : M E Snapshot :=
  r ← st_try Probe;
  match r with
  | Ok snapshot => mret snapshot
  | Err e =>
    persisted ← st_try (recordAllUnknownObserved probeFailureErrorCode);
    st_fail (backendOperationFailure operation e persisted)
  end.

Definition hasPendingProbes : M E bool :=
  locked (c ← get_c; mret (negb (bool_decide (lg_pendingProbes (c_ledger c) = ∅)))).
Definition requiresStartupProbe : M E bool :=
  locked (c ← get_c; mret (c_startupProbeRequired c)).

(** The part of Execute that ends with an attempt (and the plan rebuilt on a
    fresh basis), with a recovery by the probe, or with an error. *)
Definition begin_execution (plan : OperationPlan) : M E (option (attemptRef * OperationPlan)) :=
  let key := pendingProbeKeyForPlan plan in
  pending ← hasPendingProbes;
  if (pending : bool) then
    snapshot ← probe_or_record "required probe";
    let plan := with_basis plan (Snapshot_Digest snapshot) in
    attempt ← beginAfterRequiredProbe plan snapshot key;
    mret ((λ ref, (ref, plan)) <$> attempt)
  else
    startup ← requiresStartupProbe;
    if (startup : bool) then
      snapshot ← probe_or_record "startup recovery probe";
      let plan := with_basis plan (Snapshot_Digest snapshot) in
      attempt ← beginAfterStartupProbe plan snapshot;
      mret ((λ ref, (ref, plan)) <$> attempt)
    else
      plan ← (if env_RequiresFreshBasis
              then snapshot ← probe_or_record "pre-apply probe";
                   mret (with_basis plan (Snapshot_Digest snapshot))
              else mret plan);
      ref ← beginAttempt plan;
      mret (Some (ref, plan)).

Definition error_code (code fallback : string) : string := if is_empty code then fallback else code.

(** What Execute does with a begun attempt; the error comes with the outcome
    of the mutation. *)
Definition outcome (r : result unit) : option error := match r with Ok _ => None | Err e => Some e end.

Definition apply_attempt (ref : attemptRef) (plan : OperationPlan) (key : pendingProbeKey)
    : M E (ExecutionResult * option error) :=
  fence ← st_try (targetExpirationFence plan);
  match fence with
  | Err e =>
    let code := if errors_Is e ErrStalePlan then "stale_before_apply" else "expired_before_apply" in
    persisted ← st_try (finishFailure ref key code false);
    mret (zero_execution, Some (match persisted with Err e' => e' | Ok _ => e end))
  | Ok _ =>
    applied ← st_try (Apply ref plan);
    match applied with
    | Err e =>
      persisted ← st_try (finishFailureAndRequireProbeObserved ref key "backend_error" false);
      mret (zero_execution, Some (backendOperationFailure "apply plan" e persisted))
    | Ok value =>
      let execution := MkExecution value false in
      match ap_Kind value with
      | ResultUnknown =>
        r ← st_try (finishFailureAndRequireProbeObserved ref key
                      (error_code (ap_ErrorCode value) "unknown_result") false);
        mret (execution, outcome r)
      | ResultRejected =>
        let code := error_code (ap_ErrorCode value) "rejected" in
        r ← st_try (finishFailure ref key code (retryable code));
        mret (execution, outcome r)
      | ResultConfirmed =>
        probed ← st_try Probe;
        match probed with
        | Err e =>
          persisted ← st_try (finishFailureAndRequireProbeObserved ref key "confirm_probe_failed" true);
          mret (execution, Some (backendOperationFailure "confirm probe" e persisted))
        | Ok snapshot =>
          r ← st_try (commitConfirmed ref plan snapshot key);
          mret (execution, outcome r)
        end
      | ResultOther _ =>
        persisted ← st_try (finishFailure ref key "invalid_apply_result" false);
        mret (execution, Some (errors_Join (Errorf "unsupported apply result %d") persisted))
      end
    end
  end.

Definition Execute (plan : OperationPlan) : M E (ExecutionResult * option error) :=
  reloaded ← st_try reloadRecoveryIfNeeded;
  match reloaded with
  | Err e => mret (zero_execution, Some e)
  | Ok _ =>
    match ValidatePlan plan with
    | Err e =>
      persisted ← st_try (markInvalidPlan plan);
      mret (MkExecution (MkApplyResult ResultRejected (op_Domain plan) (op_Target plan)
                           (op_Digest plan) "invalid_plan") false,
            Some (errors_Join (Wrapf "%w: %v" ErrInvalidPlan) persisted))
    | Ok _ =>
      begun ← st_try (targetExpirationFence plan;; begin_execution plan);
      match begun with
      | Err e => mret (zero_execution, Some e)
      | Ok None => mret (MkExecution zero_apply true, None)
      | Ok (Some (ref, plan')) => apply_attempt ref plan' (pendingProbeKeyForPlan plan)
      end
    end
  end.

(** ** Recovery probes *)
Record probeRecoveryOutcome := MkRecoveryOutcome {
  pr_resolved : Z;
  pr_unresolved : list ReconcileKey;
  pr_backendErr : option error
}.

Definition add_unresolved (key : ReconcileKey) (l : list ReconcileKey) : list ReconcileKey :=
  if bool_decide (key ∈ l) then l else l ++ [key].

(** A recovery probe: the snapshot, or the outcome to return when the backend
    failed and the failure was recorded. *)
Definition recovery_probe (operation : string) : M E (Snapshot + probeRecoveryOutcome) :=
  r ← st_try Probe;
  match r with
  | Ok snapshot => mret (inl snapshot)
  | Err e =>
    persisted ← st_try (recordAllUnknownObserved probeFailureErrorCode);
    match persisted with
    | Err _ => st_fail (backendOperationFailure operation e persisted)
    | Ok _ => mret (inr (MkRecoveryOutcome 0 [] (Some (backendOperationFailure operation e (Ok tt)))))
    end
  end.

Definition recover_one (snapshot : Snapshot) (entry : pendingProbeKey * attemptRef)
    (acc : gset ReconcileKey * Z * list ReconcileKey) : M E (gset ReconcileKey * Z * list ReconcileKey) :=
  let '(key, ref) := entry in
  let '(resolved, count, unresolved) := acc in
  let dispatchKey := MkReconcileKey (pk_domain key) (pk_target key) in
  c ← get_c;
  if negb (pendingKeyMatchesCurrentDesiredLocked c key) then
    finishStaleLocked ref key;; modify_c (delete_pending key);; mret acc
  else if negb (snapshotMatchesCurrentDesiredLocked c snapshot (pk_domain key) (pk_target key))
  then mret (resolved, count, add_unresolved dispatchKey unresolved)
  else
    finishRecoveredPendingLocked ref key;; modify_c (delete_pending key);;
    mret ({[dispatchKey]} ∪ resolved, count + 1, unresolved).

Definition recover_pending (snapshot : Snapshot) : M E (gset ReconcileKey * Z * list ReconcileKey) :=
  c ← get_c;
  entries ← range (map_to_list (lg_pendingProbes (c_ledger c)));
  st_fold (recover_one snapshot) entries (∅, 0, []).

Definition probeRecovery (probeTimeout : duration) : M E probeRecoveryOutcome :=
  if probeTimeout <=? 0 then st_fail (Errorf "Probe timeout must be positive")
  else
    reloadRecoveryIfNeeded;;
    probed ← recovery_probe "backend recovery probe";
    match probed with
    | inr early => mret early
    | inl snapshot =>
      locked (
        c ← get_c;
        if negb (c_hasDesired c) then mret (MkRecoveryOutcome 0 [] None)
        else
          observed ← observedUpdateForSnapshotLocked snapshot;
          st_wrap "persist recovery Probe observation" (persistObservedLocked observed);;
          '(_, count, unresolved) ← recover_pending snapshot;
          mret (MkRecoveryOutcome count unresolved None))
    end.

Definition startup_one (snapshot : Snapshot) (resolved : gset ReconcileKey) (key : ReconcileKey)
    (unresolved : list ReconcileKey) : M E (list ReconcileKey) :=
  c ← get_c;
  if bool_decide (key ∈ resolved) then mret unresolved
  else if negb (snapshotMatchesCurrentDesiredLocked c snapshot (rk_Domain key) (rk_Target key))
  then mret (add_unresolved key unresolved)
  else match currentAttemptRefForKeyLocked c key with
  | None => mret unresolved
  | Some ref =>
    s ← getState ref;
    let state := with_status s ReconcileConverged EmptyString in
    st_wrap "persist startup Probe recovery" (persistStateLocked ref state None None);;
    putState ref state;;
    (match ref with
     | TargetRef k => modify_c (confirm_target (rk_Target key) (tk_Generation k))
     | _ => mret tt
     end);;
    mret unresolved
  end.

Definition probeStartupRecovery (keys : list ReconcileKey) (probeTimeout : duration)
    : M E probeRecoveryOutcome :=
  if probeTimeout <=? 0 then st_fail (Errorf "Probe timeout must be positive")
  else
    reloadRecoveryIfNeeded;;
    probed ← recovery_probe "startup recovery probe";
    match probed with
    | inr early => mret early
    | inl snapshot =>
      locked (
        c ← get_c;
        if negb (c_hasDesired c) then
          modify_c (λ c, set_startup c false);; mret (MkRecoveryOutcome 0 [] None)
        else
          observed ← observedUpdateForSnapshotLocked snapshot;
          st_wrap "persist startup Probe observation" (persistObservedLocked observed);;
          '(resolved, _, unresolved) ← recover_pending snapshot;
          unresolved ← st_fold (startup_one snapshot resolved) keys unresolved;
          modify_c (λ c, set_startup c false);;
          mret (MkRecoveryOutcome 0 unresolved None))
    end.

(** ** Administrator retries *)
Definition reconcileDomain_num (d : ReconcileDomain) : Z :=
  match d with
  | ReconcileDomainInfrastructure => 1 | ReconcileDomainPolicy => 2 | ReconcileDomainTarget => 3
  | ReconcileDomainOther n => n
  end.
(** The source's format string holds a backslash and an n, not a newline. *)
Definition retry_sep : string := "\n".

Definition reconcileRetryAudit (state : PersistedReconcileState) (previous : Z) : ReconcileRetryAudit :=
  let frame := "guard-reconcile-retry/v1" +:+ retry_sep +:+ ps_NodeID state
    +:+ retry_sep +:+ itoa (reconcileDomain_num (ps_Domain state))
    +:+ retry_sep +:+ itoa (ps_InfrastructureRevision state)
    +:+ retry_sep +:+ itoa (ps_PolicyRevision state)
    +:+ retry_sep +:+ Prefix_String (ps_Target state)
    +:+ retry_sep +:+ itoa (ps_TargetGeneration state)
    +:+ retry_sep +:+ itoa previous +:+ retry_sep +:+ itoa (ps_RetryEpoch state) in
  let hexDigest := hex_encode (Sum256 (string_bytes frame)) in
  MkRetryAudit ("audit-reconcile-retry-" +:+ hexDigest) ("reconcile-retry:" +:+ hexDigest)
    (ps_NodeID state) "administrator" previous (ps_UpdatedAt state).

Definition persistRetryLocked (ref : attemptRef) (state : RetryState) (previous : Z) : M E unit :=
  persisted ← persistedState ref state;
  c ← get_c;
  let audit := reconcileRetryAudit persisted previous in
  if negb (c_hasStore c) then
    let event := MkAuditEvent "reconcile_retry" (ref_domain ref) (ps_Target persisted) previous
                   (ps_RetryEpoch persisted) (ra_OccurredAt audit) in
    call (EvAudit event) (env_AppendCriticalAudit event)
  else
    let t := MkRetryTransition persisted audit in
    r ← st_try (call (EvRetry t) (env_ApplyReconcileRetryTransition t));
    match r with
    | Ok _ => mret tt
    | Err e =>
      if negb (errors_Is e ErrReconcileCommitUnknown) then st_fail e
      else
        readback ← st_try (quiet (env_ReadReconcileRetryTransition t));
        match readback with
        | Err e' =>
          modify_reload true;;
          st_fail (Join e (Wrapf "read back indeterminate retry commit" e'))
        | Ok rb =>
          replaced ← st_try (adoptRecoveryLocked (rb_Recovery rb));
          match replaced with
          | Err e' =>
            modify_reload true;;
            st_fail (Join e (Wrapf "replace state after indeterminate retry commit" e'))
          | Ok _ => if rb_Applied rb then mret tt else st_fail e
          end
        end
    end.

Definition RetryInfrastructure : M E InfrastructureRetryKey :=
  reloadRecoveryIfNeeded;;
  locked (
    c ← get_c;
    if negb (c_hasDesired c) then st_fail (Errorf "desired snapshot is not initialized")
    else
      let previous := c_infrastructureEpoch c in
      let next := wrap64 (previous + 1) in
      if next =? 0 then st_fail (Errorf "infrastructure retry epoch overflow")
      else
        let key := MkInfraKey (fs_InfrastructureRevision (c_desired c)) next in
        st_wrap "persist infrastructure retry epoch"
          (persistRetryLocked (InfrastructureRef key) pending_state previous);;
        modify_c (markPendingRefsSupersededLocked (InfrastructureRef key));;
        modify_c (λ c, set_epochs c next (c_policyEpoch c) (c_targetEpochs c));;
        modify_c (put_state (InfrastructureRef key) pending_state);;
        mret key).

Definition RetryPolicy : M E PolicyRetryKey :=
  reloadRecoveryIfNeeded;;
  locked (
    c ← get_c;
    if negb (c_hasDesired c) then st_fail (Errorf "desired snapshot is not initialized")
    else
      let previous := c_policyEpoch c in
      let next := wrap64 (previous + 1) in
      if next =? 0 then st_fail (Errorf "policy retry epoch overflow")
      else
        let key := MkPolicyKey (fs_PolicyRevision (c_desired c)) next in
        st_wrap "persist policy retry epoch"
          (persistRetryLocked (PolicyRef key) pending_state previous);;
        modify_c (markPendingRefsSupersededLocked (PolicyRef key));;
        modify_c (λ c, set_epochs c (c_infrastructureEpoch c) next (c_targetEpochs c));;
        modify_c (put_state (PolicyRef key) pending_state);;
        mret key).

Definition RetryTarget (target : Prefix) : M E TargetRetryKey :=
  reloadRecoveryIfNeeded;;
  locked (
    c ← get_c;
    match c_desiredTargets c !! target with
    | None => st_fail (Errorf "target has no current desired intent")
    | Some intent =>
      let previous := target_epoch c target in
      let next := wrap64 (previous + 1) in
      if next =? 0 then st_fail (Errorf "target retry epoch overflow")
      else
        let key := MkTargetKey target (ti_Generation intent) next in
        st_wrap "persist target retry epoch"
          (persistRetryLocked (TargetRef key) pending_state previous);;
        modify_c (markPendingRefsSupersededLocked (TargetRef key));;
        modify_c (λ c, set_epochs c (c_infrastructureEpoch c) (c_policyEpoch c)
                         (<[target := next]> (c_targetEpochs c)));;
        modify_c (put_state (TargetRef key) pending_state);;
        mret key
    end).

(** ** Construction over a store (persistence.go, observed_state.go) *)
Definition observedSnapshotHasState (s : ObservedFirewallSnapshot) : bool :=
  negb (is_nil (os_Infrastructure s)) || negb (is_nil (os_Policy s))
  || negb (list_is_empty (os_Targets s)).

Definition seedObservedClock (c : Controller) (s : ObservedFirewallSnapshot) : Controller :=
  let times := (match os_Infrastructure s with Some i => [io_ObservedAt i] | None => [] end)
    ++ (match os_Policy s with Some p => [po_ObservedAt p] | None => [] end)
    ++ ((λ t, pt_ObservedAt (to_Physical t)) <$> os_Targets s) in
  foldl (λ c t, let value := Truncate t microsecond in
                if After value (c_lastObservedAt c) then set_observed_clock c value else c) c times.

Definition NewPersistentController (node : NodeID) : M E Controller :=
  if is_empty node then st_fail (Errorf "node id is required")
  else
    recovery ← st_wrap "load reconcile recovery" (LoadReconcileRecovery node);
    l ← st_lift (wrap "hydrate reconcile recovery" (hydrateRecovery node recovery));
    observed ← st_wrap "load Observed firewall snapshot" (LoadObservedFirewallSnapshot node);
    if negb (is_empty (os_NodeID observed)) && negb (bool_decide (os_NodeID observed = node))
    then st_fail (Errorf "Observed firewall snapshot belongs to node %q")
    else
      let c := MkController node true false zero_desired ∅ 0 0 ∅ l ∅ false false 0 in
      let c := seedObservedClock c observed in
      mret (set_startup c (negb (list_is_empty (rc_States recovery))
                           || negb (list_is_empty (rc_ProbeRequirements recovery))
                           || observedSnapshotHasState observed)).

(** ** Views *)
Definition InfrastructureState (c : Controller) : InfrastructureRetryKey * option RetryState :=
  let key := MkInfraKey (fs_InfrastructureRevision (c_desired c)) (c_infrastructureEpoch c) in
  (key, stateForRef c (InfrastructureRef key)).
Definition PolicyState (c : Controller) : PolicyRetryKey * option RetryState :=
  let key := MkPolicyKey (fs_PolicyRevision (c_desired c)) (c_policyEpoch c) in
  (key, stateForRef c (PolicyRef key)).
Definition TargetState (c : Controller) (target : Prefix) : option (TargetRetryKey * option RetryState) :=
  match c_desiredTargets c !! target with
  | None => None
  | Some intent =>
    let key := MkTargetKey target (ti_Generation intent) (target_epoch c target) in
    Some (key, stateForRef c (TargetRef key))
  end.
Definition ConfirmedTarget (c : Controller) (target : Prefix) : option Z :=
  c_confirmedTargets c !! target.
Definition ProbeRequired (c : Controller) : bool :=
  negb (bool_decide (lg_pendingProbes (c_ledger c) = ∅)).

(** ** Steps: what a goroutine may do next with the controller *)
Inductive operation :=
  | OpExecute (plan : OperationPlan)
  | OpSetDesired (snapshot : DesiredFirewallSnapshot)
  | OpProbeRecovery (timeout : duration)
  | OpStartupRecovery (keys : list ReconcileKey) (timeout : duration)
  | OpRetryInfrastructure
  | OpRetryPolicy
  | OpRetryTarget (target : Prefix).

Definition run_op (o : operation) (w : world E) : world E :=
  match o with
  | OpExecute plan => (Execute plan w).2
  | OpSetDesired snapshot => (SetDesiredSnapshot snapshot w).2
  | OpProbeRecovery timeout => (probeRecovery timeout w).2
  | OpStartupRecovery keys timeout => (probeStartupRecovery keys timeout w).2
  | OpRetryInfrastructure => (RetryInfrastructure w).2
  | OpRetryPolicy => (RetryPolicy w).2
  | OpRetryTarget target => (RetryTarget target w).2
  end.
End operations.
