(* ===== verification/ControllerFences.v ===== *)
(** * Fences of the reconcile controller

    A revision or generation names one intent: while a controller runs, the
    desired snapshots it accepts never move a fence backwards, and two snapshots
    with the same fence have the same intent, so comparing fences is enough to
    tell a stale plan from a current one. *)

From S2P Require Import Prelude GoStd GoFmt Sha256 Netip Identity CoreModel Enforcement.
From S2P Require Import ObservedState ReconcilePlan Controller ControllerOps.

(** ** Meanings *)
Definition meaning (i : NormalizedTargetEnforcementIntent) : NormalizedTargetEnforcementIntent :=
  with_Generation i 0.
Definition policy_meaning (p : ManagedPolicyIntent) : string * list Prefix * list Prefix :=
  (mp_RelationDigest p, elems (mp_Allowlist p), elems (mp_ProtectedTargets p)).

Lemma policyIntentEqual_iff l r :
  policyIntentEqual l r = true ↔ policy_meaning l = policy_meaning r.
Proof.
  unfold policyIntentEqual, policy_meaning. gobool.
  split; [intros [[-> ->] ->]; done|by intros [= -> -> ->]].
Qed.

(** One target from one snapshot to a later one. *)
Definition target_le (i i' : NormalizedTargetEnforcementIntent) : Prop :=
  ti_Generation i ≤ ti_Generation i' ∧ (ti_Generation i = ti_Generation i' → meaning i = meaning i').
Definition target_same (i i' : NormalizedTargetEnforcementIntent) : Prop :=
  ti_Generation i = ti_Generation i' ∧ meaning i = meaning i'.

#[export] Instance target_le_preorder : PreOrder target_le.
Proof.
  split; [done|]. intros a b c [H1 H2] [H3 H4]. split; [lia|].
  intros. rewrite H2, H4 by lia. done.
Qed.

(** From one desired state to a later one. *)
Record desired_le (c c' : Controller) : Prop := {
  dl_has : c_hasDesired c = true → c_hasDesired c' = true;
  dl_snapshot : c_hasDesired c = true →
    fs_SnapshotRevision (c_desired c) ≤ fs_SnapshotRevision (c_desired c');
  dl_infra : c_hasDesired c = true →
    fs_InfrastructureRevision (c_desired c) ≤ fs_InfrastructureRevision (c_desired c') ∧
    (fs_InfrastructureRevision (c_desired c) = fs_InfrastructureRevision (c_desired c') →
     fs_Infrastructure (c_desired c) = fs_Infrastructure (c_desired c'));
  dl_policy : c_hasDesired c = true →
    fs_PolicyRevision (c_desired c) ≤ fs_PolicyRevision (c_desired c') ∧
    (fs_PolicyRevision (c_desired c) = fs_PolicyRevision (c_desired c') →
     policy_meaning (fs_Policy (c_desired c)) = policy_meaning (fs_Policy (c_desired c')));
  dl_targets : c_hasDesired c = true → ∀ t i, c_desiredTargets c !! t = Some i →
    ∃ i', c_desiredTargets c' !! t = Some i' ∧ target_le i i';
  dl_same : c_hasDesired c = true →
    fs_SnapshotRevision (c_desired c) = fs_SnapshotRevision (c_desired c') →
    fs_InfrastructureRevision (c_desired c) = fs_InfrastructureRevision (c_desired c') ∧
    fs_PolicyRevision (c_desired c) = fs_PolicyRevision (c_desired c') ∧
    ∀ t, option_Forall2 target_same (c_desiredTargets c !! t) (c_desiredTargets c' !! t)
}.

Lemma target_same_trans a b c : target_same a b → target_same b c → target_same a c.
Proof. unfold target_same. intuition congruence. Qed.

#[export] Instance desired_le_preorder : PreOrder desired_le.
Proof.
  split.
  - intros c. split; try done; intros; eauto.
    + exists i. by split.
    + split_and!; try done. intros t. by destruct (_ !! t); constructor.
  - intros a b c [H1 H2 H3 H4 H5 H6] [K1 K2 K3 K4 K5 K6].
    split; intros Ha; pose proof (H1 Ha) as Hb;
      specialize (H2 Ha); specialize (H3 Ha); specialize (H4 Ha); specialize (H5 Ha);
      specialize (H6 Ha); specialize (K2 Hb); specialize (K3 Hb); specialize (K4 Hb);
      specialize (K5 Hb); specialize (K6 Hb).
    + auto.
    + lia.
    + split; [lia|]. intros. rewrite (proj2 H3), (proj2 K3) by lia. done.
    + split; [lia|]. intros. rewrite (proj2 H4), (proj2 K4) by lia. done.
    + intros t i Hi. destruct (H5 t i Hi) as (i' & Hi' & Hle).
      destruct (K5 t i' Hi') as (i'' & Hi'' & Hle'). exists i''. split; [done|].
      by transitivity i'.
    + intros Heq. destruct H6 as (? & ? & HF); [lia|]. destruct K6 as (? & ? & KF); [lia|].
      split_and!; [lia..|]. intros t. specialize (HF t). specialize (KF t).
      destruct HF; inversion KF; constructor. by eapply target_same_trans.
Qed.

(** ** An accepted transition *)
Lemma Equivalent_meaning l r : Equivalent l r = true ↔ meaning l = meaning r.
Proof. apply Equivalent_iff. Qed.

Lemma transition_targets_spec next prev changed b :
  transition_targets next prev changed = Ok b →
  (∀ t i, (t, i) ∈ prev → ∃ i', next !! t = Some i' ∧ target_le i i') ∧
  (b = false → changed = false ∧
     ∀ t i, (t, i) ∈ prev → ∃ i', next !! t = Some i' ∧ target_same i i').
Proof.
  revert changed. induction prev as [|[t i] prev IH]; intros changed Hb; cbn in Hb.
  - inv_ok. split; [|split; [done|]]; intros ?? Hin; by apply elem_of_nil in Hin.
  - destruct (next !! t) as [i'|] eqn:Ht; [|done].
    destruct (Equivalent i i') eqn:He; cbn in Hb; inv_ok; gobool;
      apply IH in Hb as [Hle Hsame].
    + apply Equivalent_meaning in He. split.
      * intros t' j [[= -> ->]|Hin]%elem_of_cons; [|by apply Hle].
        exists i'. split; [done|]. split; [lia|done].
      * intros ->. destruct (Hsame eq_refl) as [-> Hs]. split; [done|].
        intros t' j [[= -> ->]|Hin]%elem_of_cons; [|by apply Hs].
        exists i'. split; [done|]. by split.
    + split.
      * intros t' j [[= -> ->]|Hin]%elem_of_cons; [|by apply Hle].
        exists i'. split; [done|]. split; [lia|lia].
      * intros ->. by destruct (Hsame eq_refl).
Qed.

Lemma validateDesiredTransition_le c d targets :
  validateDesiredTransition (c_desired c) (c_desiredTargets c) d targets = Ok tt →
  desired_le c (set_desired c d targets).
Proof.
  unfold validateDesiredTransition. intros Hv. inv_ok. gobool.
  apply transition_targets_spec in Hv3 as [Hle Hsame].
  apply eqb_prop in Hv1, Hv2, Hv.
  destruct (bool_decide_reflect (fs_Infrastructure (c_desired c) = fs_Infrastructure d)) as [Hi|Hi];
    cbn in Hv1; symmetry in Hv1;
  (destruct (policyIntentEqual (fs_Policy (c_desired c)) (fs_Policy d)) eqn:Hp;
    cbn in Hv2; symmetry in Hv2); gobool.
  all: split; cbn; intros _; [done|lia|..].
  all: try (split; [lia|intros; first [done|lia|by apply policyIntentEqual_iff]]).
  all: try (intros t i Ht; by apply Hle, elem_of_map_to_list).
  all: intros Heq; rewrite Heq, Z.ltb_irrefl in Hv; gobool; destruct Hv as [-> Hadd];
    destruct (Hsame eq_refl) as [Hch Hs]; gobool; destruct Hch; try congruence.
  split_and!; [lia..|]. intros t.
  destruct (c_desiredTargets c !! t) as [i|] eqn:Ht.
  - destruct (Hs t i) as (i' & -> & ?); [by apply elem_of_map_to_list|]. by constructor.
  - destruct (targets !! t) as [i'|] eqn:Ht'; [|constructor].
    rewrite existsb_false_iff in Hadd.
    specialize (Hadd (t, i')). cbn in Hadd. rewrite Ht in Hadd.
    discriminate Hadd. by apply elem_of_map_to_list.
Qed.

(** ** Every operation moves along the fences *)
Definition not_apply (ev : event) : bool := match ev with EvApply _ _ _ => false | _ => true end.

(** Only a controller with a store can need to reload its ledger. *)
Definition reload_ok (c : Controller) : Prop :=
  c_recoveryReloadNeeded c = true → c_hasStore c = true.

(** What an operation may do to the controller apart from its ledger; the
    reload flag is left open while [strict] is false. *)
Record cframe (strict : bool) (c c' : Controller) : Prop := {
  cf_desired : desired_le c c';
  cf_store : c_hasStore c' = c_hasStore c;
  cf_node : c_nodeID c' = c_nodeID c;
  cf_reload : strict = true → reload_ok c → reload_ok c'
}.
#[export] Instance cframe_preorder strict : PreOrder (cframe strict).
Proof.
  split; [done|]. intros a b c [] []. split; [by etransitivity|congruence..|auto].
Qed.

(** A change that leaves the desired state alone. *)
Definition same_desired (c c' : Controller) : Prop :=
  c_hasDesired c' = c_hasDesired c ∧ c_desired c' = c_desired c ∧
  c_desiredTargets c' = c_desiredTargets c ∧ c_hasStore c' = c_hasStore c ∧ c_nodeID c' = c_nodeID c.
Lemma same_desired_cframe strict c c' :
  same_desired c c' → (strict = true → reload_ok c → reload_ok c') → cframe strict c c'.
Proof.
  intros (H1 & H2 & H3 & H4 & H5) Hre. split; try done.
  pose proof (reflexivity c : desired_le c c) as [].
  split; rewrite ?H1, ?H2, ?H3; done.
Qed.

Lemma SetDesiredSnapshotLocked_cframe s c c' : SetDesiredSnapshotLocked s c = Ok c' → cframe true c c'.
Proof.
  unfold SetDesiredSnapshotLocked. intros Hs. inv_ok. destruct a as [d targets]. inv_ok.
  destruct (c_hasDesired c) eqn:Hd.
  - apply validateDesiredTransition_le in Hs1. split; [|done..].
    destruct Hs1. split; done.
  - split; [|done..]. split; rewrite Hd; done.
Qed.

Lemma replaceRecoveryLocked_same c r c' : replaceRecoveryLocked c r = Ok c' → same_desired c c'.
Proof.
  unfold replaceRecoveryLocked. intros Hr. inv_ok. cbn.
  by destruct (c_hasDesired c) eqn:?; subst; unfold same_desired; cbn.
Qed.
Lemma cframe_strict c c' : cframe true c c' → ∀ strict, cframe strict c c'.
Proof. intros [] strict. split; auto. Qed.

Lemma seedObservedClock_same c s : same_desired c (seedObservedClock c s).
Proof.
  unfold seedObservedClock. generalize (match os_Infrastructure s with Some i => [io_ObservedAt i] | None => [] end
    ++ (match os_Policy s with Some p => [po_ObservedAt p] | None => [] end)
    ++ ((λ t, pt_ObservedAt (to_Physical t)) <$> os_Targets s)).
  intros l. assert (∀ c0, same_desired c c0 → same_desired c (foldl (λ c t,
    let value := Truncate t microsecond in
    if After value (c_lastObservedAt c) then set_observed_clock c value else c) c0 l)) as H; [|by apply H].
  induction l as [|t l IH]; intros c0 Hc; cbn; [done|]. apply IH. by case_match.
Qed.

Section frames.
Context {U : Unicode} {E : Type}.
Context `{Clock E, Backend E, CriticalAuditWriter E, PersistentStateStore E, Scheduler E}.

(** [frame allow]: the trace grows by events that [allow] admits. *)
Record frame (allow : event → bool) (strict : bool) (w w' : world E) : Prop := {
  fr_trace : ∃ evs, w_trace w' = evs ++ w_trace w ∧ Forall (λ ev, allow ev = true) evs;
  fr_c : cframe strict (w_c w) (w_c w')
}.
#[export] Instance frame_preorder allow strict : PreOrder (frame allow strict).
Proof.
  split.
  - intros w. split; [exists []; by split|done].
  - intros a b c [(e1 & T1 & F1) C1] [(e2 & T2 & F2) C2]. split; [|by etransitivity].
    exists (e2 ++ e1). rewrite T2, T1, app_assoc. split; [done|]. by apply Forall_app.
Qed.

Context (allow : event → bool) (Hallow : ∀ ev, not_apply ev = true → allow ev = true).
Context (strict : bool).

Lemma frame_modify f : (∀ c, cframe strict c (f c)) → keeps (frame allow strict) (modify_c f).
Proof. intros Hf. apply keeps_modify. intros w. split; [by exists []|apply Hf]. Qed.
Lemma frame_ask {A} (f : E → A * E) : keeps (frame allow strict) (ask f).
Proof. intros w. unfold ask. destruct (f (w_e w)). split; [by exists []|done]. Qed.
Lemma frame_quiet {A} (m : ST E A) : keeps (frame allow strict) (quiet m).
Proof. intros w. unfold quiet. destruct (m (w_e w)). split; [by exists []|done]. Qed.
Lemma frame_call {A} ev (m : ST E A) :
  (∀ r, allow (ev r) = true) → keeps (frame allow strict) (call ev m).
Proof.
  intros Hev w. unfold call. destruct (m (w_e w)) as [r e]. split; [|done].
  exists [ev r]. split; [done|]. by repeat constructor.
Qed.
Lemma frame_range {A} (l : list A) : keeps (frame allow strict) (range l).
Proof. intros w. unfold range. destruct (env_Picks _). split; [by exists []|done]. Qed.
Lemma frame_panic {A} msg : keeps (frame allow strict) (panic msg : M E A).
Proof.
  apply keeps_bind; [apply _| |intros; by apply keeps_fail, _].
  intros w. split; [|done]. exists [EvPanic msg]. split; [done|]. repeat constructor. by apply Hallow.
Qed.
Lemma frame_get : keeps (frame allow strict) (get_c : M E Controller).
Proof. by apply keeps_gets, _. Qed.
Lemma frame_fold {A B} (f : A → B → M E B) l acc :
  (∀ a b, keeps (frame allow strict) (f a b)) → keeps (frame allow strict) (st_fold f l acc).
Proof.
  intros Hf. revert acc. induction l as [|a l IH]; intros acc; cbn;
    [by apply keeps_ret, _|apply keeps_bind; [apply _|apply Hf|intros; apply IH]].
Qed.

Lemma publish_cframe c snapshots : cframe true c (foldl publish c snapshots).
Proof.
  revert c. induction snapshots as [|s l IH]; intros c; cbn; [done|].
  etransitivity; [|apply IH]. unfold publish.
  destruct (SetDesiredSnapshotLocked s c) eqn:Hs; [|done]. by eapply SetDesiredSnapshotLocked_cframe.
Qed.
End frames.

Create HintDb frame.
#[export] Hint Resolve frame_ask frame_quiet frame_range frame_panic frame_get : frame.
#[export] Hint Extern 2 (keeps (frame _ _) (modify_c _)) =>
  apply frame_modify; intros; apply same_desired_cframe;
  [solve [done | unfold same_desired; cbn; auto]|solve [done]] : frame.
#[export] Hint Extern 2 (keeps (frame _ _) (call _ _)) => apply frame_call; intros; solve [auto] : frame.
(** [frame_tac]: close [keeps (frame allow) m] by walking through [m]. *)
Ltac frame_tac := keeps_tac ltac:(solve [eauto 3 with frame nocore]).

Section frames2.
Context {U : Unicode} {E : Type}.
Context `{Clock E, Backend E, CriticalAuditWriter E, PersistentStateStore E, Scheduler E}.
Context (allow : event → bool) (Hallow : ∀ ev, not_apply ev = true → allow ev = true).
Local Hint Resolve Hallow : frame core.
Section strictness.
Context (strict : bool).
Abbreviation keeps_frame m := (keeps (frame (E:=E) allow strict) m).

Lemma frame_interleave : keeps_frame interleave.
Proof. unfold interleave. frame_tac. apply frame_modify. intros c. apply cframe_strict, publish_cframe. Qed.
Lemma frame_locked {A} (m : M E A) : keeps_frame m → keeps_frame (locked m).
Proof. intros Hm. unfold locked. apply keeps_bind; [apply _|apply frame_interleave|done]. Qed.
Local Hint Resolve frame_interleave frame_locked : frame.

Lemma frame_getState ref : keeps_frame (getState ref).
Proof. unfold getState. frame_tac. Qed.
Lemma frame_putState ref s : keeps_frame (putState ref s).
Proof. unfold putState. frame_tac. Qed.
Lemma frame_Now : keeps_frame Now.
Proof. unfold Now. frame_tac. Qed.
Lemma frame_Load n : keeps_frame (LoadReconcileRecovery n).
Proof. unfold LoadReconcileRecovery. frame_tac. Qed.
Lemma frame_Probe : keeps_frame Probe.
Proof. unfold Probe. frame_tac. Qed.
Local Hint Resolve frame_getState frame_putState frame_Now frame_Load frame_Probe : frame.
(** A recovery that was read back replaces the ledger only. *)
Lemma frame_adoptRecoveryLocked r : keeps_frame (adoptRecoveryLocked r).
Proof.
  intros w. unfold adoptRecoveryLocked, get_c. run.
  destruct (replaceRecoveryLocked (w_c w) r) as [c'|e] eqn:Hr; run; [|reflexivity].
  split; [by exists []|]. apply same_desired_cframe; [|done]. by apply replaceRecoveryLocked_same in Hr.
Qed.
Local Hint Resolve frame_adoptRecoveryLocked : frame.
Lemma frame_persistedState ref s : keeps_frame (persistedState ref s).
Proof. unfold persistedState. frame_tac. Qed.
Local Hint Resolve frame_persistedState : frame.
Lemma frame_persistedProbe k r n : keeps_frame (persistedProbe k r n).
Proof. unfold persistedProbe. frame_tac. Qed.
Local Hint Resolve frame_persistedProbe : frame.
Lemma frame_persist_probe k r n : keeps_frame (persist_probe k r n).
Proof. unfold persist_probe. frame_tac. Qed.
Local Hint Resolve frame_persist_probe : frame.
Lemma frame_nextObservedAtLocked : keeps_frame nextObservedAtLocked.
Proof. unfold nextObservedAtLocked. frame_tac. Qed.
Local Hint Resolve frame_nextObservedAtLocked : frame.
Lemma frame_observedUpdateForSnapshotLocked sn : keeps_frame (observedUpdateForSnapshotLocked sn).
Proof. unfold observedUpdateForSnapshotLocked. frame_tac. Qed.
Local Hint Resolve frame_observedUpdateForSnapshotLocked : frame.
Lemma frame_unknownObservedUpdateLocked d t code : keeps_frame (unknownObservedUpdateLocked d t code).
Proof. unfold unknownObservedUpdateLocked. frame_tac. Qed.
Local Hint Resolve frame_unknownObservedUpdateLocked : frame.
Lemma frame_allUnknownObservedUpdateLocked code : keeps_frame (allUnknownObservedUpdateLocked code).
Proof. unfold allUnknownObservedUpdateLocked. frame_tac. Qed.
Local Hint Resolve frame_allUnknownObservedUpdateLocked : frame.
Lemma frame_ApplyObservedFirewallUpdate u : keeps_frame (ApplyObservedFirewallUpdate u).
Proof. unfold ApplyObservedFirewallUpdate. frame_tac. Qed.
Local Hint Resolve frame_ApplyObservedFirewallUpdate : frame.
Lemma frame_LoadObservedFirewallSnapshot n : keeps_frame (LoadObservedFirewallSnapshot n).
Proof. unfold LoadObservedFirewallSnapshot. frame_tac. Qed.
Local Hint Resolve frame_LoadObservedFirewallSnapshot : frame.
Lemma frame_persistObservedLocked u : keeps_frame (persistObservedLocked u).
Proof. unfold persistObservedLocked. frame_tac. Qed.
Local Hint Resolve frame_persistObservedLocked : frame.
Lemma frame_recordAllUnknownObserved code : keeps_frame (recordAllUnknownObserved code).
Proof. unfold recordAllUnknownObserved. frame_tac. Qed.
Local Hint Resolve frame_recordAllUnknownObserved : frame.
End strictness.
#[local] Hint Resolve frame_interleave frame_locked frame_getState frame_putState frame_Now frame_Load
  frame_Probe frame_adoptRecoveryLocked frame_persistedState frame_persistedProbe frame_persist_probe
  frame_nextObservedAtLocked frame_observedUpdateForSnapshotLocked frame_unknownObservedUpdateLocked
  frame_allUnknownObservedUpdateLocked frame_ApplyObservedFirewallUpdate
  frame_LoadObservedFirewallSnapshot frame_persistObservedLocked frame_recordAllUnknownObserved : frame.

(** Setting the reload flag is loose, and strict again behind the test that
    there is a store. *)
Lemma loose_modify_reload b : keeps (frame (E:=E) allow false) (modify_reload b).
Proof. apply frame_modify. intros c. by apply same_desired_cframe. Qed.
Local Hint Resolve loose_modify_reload : frame.
Lemma loose_read_back t e : keeps (frame (E:=E) allow false) (read_back t e).
Proof. unfold read_back. frame_tac. Qed.
Local Hint Resolve loose_read_back : frame.
Lemma loose_applyTransitionLocked t : keeps (frame (E:=E) allow false) (applyTransitionLocked t).
Proof. unfold applyTransitionLocked. frame_tac. Qed.
Local Hint Resolve loose_applyTransitionLocked : frame.
Lemma frame_loose w w' : c_hasStore (w_c w) = true → frame (E:=E) allow false w w' → frame allow true w w'.
Proof.
  intros Hs [Ht [Hd Hst Hn _]]. split; [done|]. split; try done. intros _ _ _. by rewrite Hst.
Qed.
Lemma frame_guard {A} (m1 : M E A) (m2 : Controller → M E A) :
  keeps (frame allow true) m1 → (∀ c, keeps (frame allow false) (m2 c)) →
  keeps (frame allow true) (c ← get_c; if negb (c_hasStore c) then m1 else m2 c).
Proof.
  intros K1 K2 w. unfold get_c. run. destruct (c_hasStore (w_c w)) eqn:Hs; [|apply K1].
  apply frame_loose; [done|apply K2].
Qed.

Abbreviation keeps_frame m := (keeps (frame (E:=E) allow true) m).
Lemma frame_reloadRecoveryIfNeeded : keeps_frame reloadRecoveryIfNeeded.
Proof. unfold reloadRecoveryIfNeeded. frame_tac. Qed.
Local Hint Resolve frame_reloadRecoveryIfNeeded : frame.
Lemma frame_persistApplyingStateLocked r s k p : keeps_frame (persistApplyingStateLocked r s k p).
Proof. apply frame_guard; intros; frame_tac. Qed.
Local Hint Resolve frame_persistApplyingStateLocked : frame.
Lemma frame_persistStateWithObservedLocked r s u d o : keeps_frame (persistStateWithObservedLocked r s u d o).
Proof. apply frame_guard; intros; frame_tac. Qed.
Local Hint Resolve frame_persistStateWithObservedLocked : frame.
Lemma frame_persistStateLocked r s u d : keeps_frame (persistStateLocked r s u d).
Proof. unfold persistStateLocked. frame_tac. Qed.
Local Hint Resolve frame_persistStateLocked : frame.
Lemma frame_persistStateAndClearProbeLocked r s k p : keeps_frame (persistStateAndClearProbeLocked r s k p).
Proof. apply frame_guard; intros; frame_tac. Qed.
Local Hint Resolve frame_persistStateAndClearProbeLocked : frame.
Lemma frame_clearProbeLocked k r : keeps_frame (clearProbeLocked k r).
Proof. apply frame_guard; intros; frame_tac. Qed.
Local Hint Resolve frame_clearProbeLocked : frame.
Lemma frame_finishFailureLocked r k c b b' o : keeps_frame (finishFailureLocked r k c b b' o).
Proof. unfold finishFailureLocked. frame_tac. Qed.
Local Hint Resolve frame_finishFailureLocked : frame.
Lemma frame_finishFailure r k c b : keeps_frame (finishFailure r k c b).
Proof. unfold finishFailure. frame_tac. Qed.
Local Hint Resolve frame_finishFailure : frame.
Lemma frame_finishFailureAndRequireProbeObserved r k c b : keeps_frame (finishFailureAndRequireProbeObserved r k c b).
Proof. unfold finishFailureAndRequireProbeObserved. frame_tac. Qed.
Local Hint Resolve frame_finishFailureAndRequireProbeObserved : frame.
Lemma frame_finishStaleLocked r k : keeps_frame (finishStaleLocked r k).
Proof. unfold finishStaleLocked. frame_tac. Qed.
Local Hint Resolve frame_finishStaleLocked : frame.
Lemma frame_confirm_plan p : keeps_frame (confirm_plan p).
Proof. unfold confirm_plan. frame_tac. Qed.
Local Hint Resolve frame_confirm_plan : frame.
Lemma frame_finishConvergedLocked r p k o : keeps_frame (finishConvergedLocked r p k o).
Proof. unfold finishConvergedLocked. frame_tac. Qed.
Local Hint Resolve frame_finishConvergedLocked : frame.
Lemma frame_finishRecoveredByProbeLocked p k r : keeps_frame (finishRecoveredByProbeLocked p k r).
Proof. unfold finishRecoveredByProbeLocked. frame_tac. Qed.
Local Hint Resolve frame_finishRecoveredByProbeLocked : frame.
Lemma frame_finishRecoveredPendingLocked r k : keeps_frame (finishRecoveredPendingLocked r k).
Proof. unfold finishRecoveredPendingLocked. frame_tac. Qed.
Local Hint Resolve frame_finishRecoveredPendingLocked : frame.
Lemma frame_reloadSupersededTargetCompletionLocked p e : keeps_frame (reloadSupersededTargetCompletionLocked p e).
Proof. unfold reloadSupersededTargetCompletionLocked. frame_tac. Qed.
Local Hint Resolve frame_reloadSupersededTargetCompletionLocked : frame.
Lemma frame_commitConfirmed r p s k : keeps_frame (commitConfirmed r p s k).
Proof. unfold commitConfirmed. frame_tac. Qed.
Local Hint Resolve frame_commitConfirmed : frame.
Lemma frame_markInvalidPlan p : keeps_frame (markInvalidPlan p).
Proof. unfold markInvalidPlan. frame_tac. Qed.
Local Hint Resolve frame_markInvalidPlan : frame.
Lemma frame_targetExpirationFenceLocked p : keeps_frame (targetExpirationFenceLocked p).
Proof. unfold targetExpirationFenceLocked. frame_tac. Qed.
Local Hint Resolve frame_targetExpirationFenceLocked : frame.
Lemma frame_targetExpirationFence p : keeps_frame (targetExpirationFence p).
Proof. unfold targetExpirationFence. frame_tac. Qed.
Local Hint Resolve frame_targetExpirationFence : frame.
Lemma frame_beginAttemptLocked p : keeps_frame (beginAttemptLocked p).
Proof. unfold beginAttemptLocked. frame_tac. Qed.
Local Hint Resolve frame_beginAttemptLocked : frame.
Lemma frame_beginAttempt p : keeps_frame (beginAttempt p).
Proof. unfold beginAttempt. frame_tac. Qed.
Local Hint Resolve frame_beginAttempt : frame.
Lemma frame_resolve_one s k p e b : keeps_frame (resolve_one s k p e b).
Proof. unfold resolve_one. frame_tac. Qed.
Local Hint Resolve frame_resolve_one : frame.
Lemma frame_resolvePendingProbesLocked s k p : keeps_frame (resolvePendingProbesLocked s k p).
Proof. unfold resolvePendingProbesLocked. frame_tac; apply frame_fold; intros; frame_tac. Qed.
Local Hint Resolve frame_resolvePendingProbesLocked : frame.
Lemma frame_beginAfterRequiredProbe p s k : keeps_frame (beginAfterRequiredProbe p s k).
Proof. unfold beginAfterRequiredProbe. frame_tac. Qed.
Local Hint Resolve frame_beginAfterRequiredProbe : frame.
Lemma frame_beginAfterStartupProbe p s : keeps_frame (beginAfterStartupProbe p s).
Proof. unfold beginAfterStartupProbe. frame_tac. Qed.
Local Hint Resolve frame_beginAfterStartupProbe : frame.
Lemma frame_probe_or_record o : keeps_frame (probe_or_record o).
Proof. unfold probe_or_record. frame_tac. Qed.
Local Hint Resolve frame_probe_or_record : frame.
Lemma frame_hasPendingProbes : keeps_frame hasPendingProbes.
Proof. unfold hasPendingProbes. frame_tac. Qed.
Local Hint Resolve frame_hasPendingProbes : frame.
Lemma frame_requiresStartupProbe : keeps_frame requiresStartupProbe.
Proof. unfold requiresStartupProbe. frame_tac. Qed.
Local Hint Resolve frame_requiresStartupProbe : frame.
Lemma frame_begin_execution p : keeps_frame (begin_execution p).
Proof. unfold begin_execution. frame_tac. Qed.
Local Hint Resolve frame_begin_execution : frame.
Lemma frame_recovery_probe o : keeps_frame (recovery_probe o).
Proof. unfold recovery_probe. frame_tac. Qed.
Local Hint Resolve frame_recovery_probe : frame.
Lemma frame_recover_one s e a : keeps_frame (recover_one s e a).
Proof. unfold recover_one. frame_tac. Qed.
Local Hint Resolve frame_recover_one : frame.
Lemma frame_recover_pending s : keeps_frame (recover_pending s).
Proof. unfold recover_pending. frame_tac; apply frame_fold; intros; frame_tac. Qed.
Local Hint Resolve frame_recover_pending : frame.
Lemma frame_probeRecovery t : keeps_frame (probeRecovery t).
Proof. unfold probeRecovery. frame_tac. Qed.
Local Hint Resolve frame_probeRecovery : frame.
Lemma frame_startup_one s r k u : keeps_frame (startup_one s r k u).
Proof. unfold startup_one. frame_tac. Qed.
Local Hint Resolve frame_startup_one : frame.
Lemma frame_probeStartupRecovery k t : keeps_frame (probeStartupRecovery k t).
Proof. unfold probeStartupRecovery. frame_tac; apply frame_fold; intros; frame_tac. Qed.
Local Hint Resolve frame_probeStartupRecovery : frame.
Lemma frame_persistRetryLocked r s n : keeps_frame (persistRetryLocked r s n).
Proof.
  unfold persistRetryLocked. apply keeps_bind; [apply _|frame_tac|intros persisted].
  apply frame_guard; intros; frame_tac.
Qed.
Local Hint Resolve frame_persistRetryLocked : frame.
Lemma frame_RetryInfrastructure : keeps_frame RetryInfrastructure.
Proof. unfold RetryInfrastructure. frame_tac. Qed.
Local Hint Resolve frame_RetryInfrastructure : frame.
Lemma frame_RetryPolicy : keeps_frame RetryPolicy.
Proof. unfold RetryPolicy. frame_tac. Qed.
Local Hint Resolve frame_RetryPolicy : frame.
Lemma frame_RetryTarget t : keeps_frame (RetryTarget t).
Proof. unfold RetryTarget. frame_tac. Qed.
Local Hint Resolve frame_RetryTarget : frame.
Lemma frame_NewPersistentController n : keeps_frame (NewPersistentController n).
Proof. unfold NewPersistentController. frame_tac. Qed.
Local Hint Resolve frame_NewPersistentController : frame.
End frames2.
#[export] Hint Resolve frame_interleave frame_locked frame_getState frame_putState frame_Now
  frame_Load frame_Probe frame_adoptRecoveryLocked frame_persistedState frame_persistedProbe
  frame_persist_probe frame_nextObservedAtLocked frame_observedUpdateForSnapshotLocked
  frame_unknownObservedUpdateLocked frame_allUnknownObservedUpdateLocked
  frame_ApplyObservedFirewallUpdate frame_LoadObservedFirewallSnapshot
  frame_persistObservedLocked frame_recordAllUnknownObserved frame_reloadRecoveryIfNeeded
  frame_persistApplyingStateLocked frame_persistStateWithObservedLocked frame_persistStateLocked
  frame_persistStateAndClearProbeLocked frame_clearProbeLocked frame_finishFailureLocked
  frame_finishFailure frame_finishFailureAndRequireProbeObserved frame_finishStaleLocked
  frame_confirm_plan frame_finishConvergedLocked frame_finishRecoveredByProbeLocked
  frame_finishRecoveredPendingLocked frame_reloadSupersededTargetCompletionLocked
  frame_commitConfirmed frame_markInvalidPlan frame_targetExpirationFenceLocked
  frame_targetExpirationFence frame_beginAttemptLocked frame_beginAttempt frame_resolve_one
  frame_resolvePendingProbesLocked frame_beginAfterRequiredProbe frame_beginAfterStartupProbe
  frame_probe_or_record frame_hasPendingProbes frame_requiresStartupProbe frame_begin_execution
  frame_recovery_probe frame_recover_one frame_recover_pending frame_probeRecovery
  frame_startup_one frame_probeStartupRecovery frame_persistRetryLocked
  frame_RetryInfrastructure frame_RetryPolicy frame_RetryTarget frame_NewPersistentController : frame.

(** ** Whole operations *)
Section whole.
Context {U : Unicode} {E : Type}.
Context `{Clock E, Backend E, CriticalAuditWriter E, PersistentStateStore E, Scheduler E}.
Abbreviation anything := (λ _ : event, true).
Abbreviation keeps_all m := (keeps (frame (E:=E) anything true) m).
Local Lemma all_allowed ev : not_apply ev = true → anything ev = true.
Proof. done. Qed.
Local Hint Resolve all_allowed : frame core.

Lemma all_Apply ref plan : keeps_all (Apply ref plan).
Proof. unfold Apply. by apply frame_call. Qed.
Local Hint Resolve all_Apply : frame.
Lemma all_apply_attempt ref plan key : keeps_all (apply_attempt ref plan key).
Proof. unfold apply_attempt. frame_tac. Qed.
Local Hint Resolve all_apply_attempt : frame.
Lemma all_Execute plan : keeps_all (Execute plan).
Proof. unfold Execute. frame_tac. Qed.
Lemma all_SetDesiredSnapshot snapshot : keeps_all (SetDesiredSnapshot snapshot).
Proof.
  unfold SetDesiredSnapshot. apply keeps_bind; [apply _|frame_tac|intros _].
  intros w. unfold get_c. run.
  destruct (SetDesiredSnapshotLocked snapshot (w_c w)) as [c'|] eqn:Hs; run; [|reflexivity].
  split; [by exists []|]. cbn. by eapply SetDesiredSnapshotLocked_cframe.
Qed.
Local Hint Resolve all_Execute all_SetDesiredSnapshot : frame.

Lemma run_op_frame (o : operation) (w : world E) : frame anything true w (run_op o w).
Proof.
  destruct o; cbn [run_op].
  - apply all_Execute.
  - apply all_SetDesiredSnapshot.
  - by apply frame_probeRecovery.
  - by apply frame_probeStartupRecovery.
  - by apply frame_RetryInfrastructure.
  - by apply frame_RetryPolicy.
  - by apply frame_RetryTarget.
Qed.

Definition run_ops (ops : list operation) (w : world E) : world E := foldl (λ w o, run_op o w) w ops.
Lemma run_ops_frame ops w : frame anything true w (run_ops ops w).
Proof.
  unfold run_ops. revert w. induction ops as [|o ops IH]; intros w; cbn; [reflexivity|].
  etransitivity; [apply run_op_frame|apply IH].
Qed.

(** A fence that is still current names the payload the plan was built from. *)
Lemma desired_le_plan c c' plan :
  desired_le c c' → planMatchesCurrentDesiredLocked c plan = true →
  planMatchesCurrentDesiredLocked c' plan
  = pendingKeyMatchesCurrentDesiredLocked c' (pendingProbeKeyForPlan plan).
Proof.
  intros [Dh Ds Di Dp Dt _] Hm. unfold planMatchesCurrentDesiredLocked in *. gobool.
  destruct Hm as [Hc Hm]. rewrite (Dh Hc). destruct (Di Hc) as [_ Hi]. destruct (Dp Hc) as [_ Hp].
  specialize (Dt Hc). unfold pendingKeyMatchesCurrentDesiredLocked, pendingProbeKeyForPlan.
  cbn [andb pk_domain pk_infrastructureRevision pk_policyRevision pk_targetGeneration pk_target
       pk_snapshotRevision pk_fenceSnapshotRevision].
  destruct (op_Domain plan); try done.
  - gobool. destruct Hm as [[Hr _] Hpay].
    destruct (op_ExpectedInfrastructureRevision plan =? _) eqn:Hrev; [|done]. apply Z.eqb_eq in Hrev. cbn [andb].
    rewrite bool_decide_eq_true_2 by (rewrite Hpay; apply Hi; lia). by rewrite andb_true_r.
  - gobool. destruct Hm as [Hr Hpay].
    destruct (op_ExpectedPolicyRevision plan =? _) eqn:Hrev; [|done]. apply Z.eqb_eq in Hrev. cbn [andb].
    apply policyIntentEqual_iff in Hpay. apply policyIntentEqual_iff.
    rewrite Hpay. apply Hp. lia.
  - destruct (c_desiredTargets c !! op_Target plan) as [i|] eqn:Ht; [|done]. gobool.
    destruct Hm as [[Hg Hg'] Hpay]. destruct (Dt _ _ Ht) as (i' & -> & Hle & Hsame).
    destruct (op_ExpectedTargetGeneration plan =? _) eqn:Hrev; [|done]. apply Z.eqb_eq in Hrev. cbn [andb].
    replace (ti_Generation (op_DesiredTarget plan) =? ti_Generation i') with true by lia.
    apply Equivalent_meaning in Hpay. apply Equivalent_meaning. rewrite Hpay. apply Hsame. lia.
Qed.

(** Comparing fences is as good as comparing intents: whatever operations
    run between two moments, the desired revisions and target generations only
    move forwards, and a plan that was built for the desired state of the first
    moment is current at the second exactly when its fence (the revision or
    generation it expects) still is; a stale plan is never taken for a current
    one because an intent changed under an unchanged fence. *)
Theorem fence_identifies_plan ops w plan :
  planMatchesCurrentDesiredLocked (w_c w) plan = true →
  let w' := run_ops ops w in
  desired_le (w_c w) (w_c w') ∧
  planMatchesCurrentDesiredLocked (w_c w') plan
  = pendingKeyMatchesCurrentDesiredLocked (w_c w') (pendingProbeKeyForPlan plan).
Proof.
  intros Hm w'. assert (desired_le (w_c w) (w_c w')) as Hd by apply run_ops_frame.
  split; [done|by eapply desired_le_plan].
Qed.
End whole.
