(* ===== verification/ControllerBarrier.v ===== *)
(** * The barrier of the reconcile controller

    No mutation is sent to the firewall while the outcome of an earlier one is
    not known: between two Apply calls the first of which failed, was unknown
    or was not confirmed yet, a probe succeeded. The property holds for any
    backend, clock and interleaving; for a controller with a store it also
    survives failed and unknown commits and restarts, given what the store
    promises about its probe requirements. *)

From S2P Require Import Prelude GoStd GoFmt Sha256 Netip Identity CoreModel Enforcement.
From S2P Require Import ObservedState ReconcilePlan Controller ControllerOps ControllerFences.

(** ** What a store promises *)
Definition required (r : ReconcileRecoverySnapshot) : Prop := rc_ProbeRequirements r ≠ [].

(** The probe requirements after a transition that was applied. *)
Definition probes_applied (t : ReconcileStateTransition) (d d' : ReconcileRecoverySnapshot) : Prop :=
  (rt_UpsertProbe t ≠ None → required d') ∧ (rt_DeleteProbe t = None → required d → required d').

(** [durable node e] is what the database holds for the node. A transition is
    applied as a whole, not at all, or, when the commit error says so, either
    way; loads return what is held; and nothing else writes the ledger. *)
Class DurableStore (E : Type) `{Clock E, Backend E, CriticalAuditWriter E,
    PersistentStateStore E, Scheduler E} := {
  durable : NodeID → E → ReconcileRecoverySnapshot;
  durable_Now n e : durable n (env_Now e).2 = durable n e;
  durable_Probe n e : durable n (env_Probe e).2 = durable n e;
  durable_Apply n p e : durable n (env_Apply p e).2 = durable n e;
  durable_Audit n a e : durable n (env_AppendCriticalAudit a e).2 = durable n e;
  durable_Published n e : durable n (env_Published e).2 = durable n e;
  durable_Picks n e : durable n (env_Picks e).2 = durable n e;
  durable_LoadObserved n m e : durable n (env_LoadObservedFirewallSnapshot m e).2 = durable n e;
  durable_ApplyObserved n u e : durable n (env_ApplyObservedFirewallUpdate u e).2 = durable n e;
  durable_Load n m e : durable n (env_LoadReconcileRecovery m e).2 = durable n e;
  durable_Load_Ok n e r : (env_LoadReconcileRecovery n e).1 = Ok r → r = durable n e;
  durable_ReadRetry n t e : durable n (env_ReadReconcileRetryTransition t e).2 = durable n e;
  durable_ReadRetry_Ok t e r :
    (env_ReadReconcileRetryTransition t e).1 = Ok r → rb_Recovery r = durable (ps_NodeID (rr_State t)) e;
  durable_Retry n t e :
    required (durable n e) → required (durable n (env_ApplyReconcileRetryTransition t e).2);
  durable_Transition n t e :
    (match rt_UpsertProbe t with Some p => pp_NodeID p = n | None => True end) →
    let '(r, e') := env_ApplyReconcileTransition t e in
    match r with
    | Ok _ => probes_applied t (durable n e) (durable n e')
    | Err x =>
      durable n e' = durable n e ∨
      (errors_Is x ErrReconcileCommitUnknown = true ∧ probes_applied t (durable n e) (durable n e'))
    end
}.

(** ** Traces *)
(** The outcome of the last mutation, if any, is not known. *)
Definition unsettled_result (r : result ApplyResult) : bool :=
  match r with
  | Err _ => true
  | Ok a => match ap_Kind a with ResultUnknown | ResultConfirmed => true | _ => false end
  end.
Fixpoint unsettled (trace : list event) : bool :=
  match trace with
  | [] => false
  | EvProbe (Ok _) :: _ => false
  | EvApply _ _ r :: _ => unsettled_result r
  | _ :: earlier => unsettled earlier
  end.
(** Every mutation was sent when the outcome of the one before was known. *)
Fixpoint settled_applies (trace : list event) : bool :=
  match trace with
  | [] => true
  | EvApply _ _ _ :: earlier => negb (unsettled earlier) && settled_applies earlier
  | _ :: earlier => settled_applies earlier
  end.

Lemma unsettled_app evs trace :
  Forall (λ ev, not_apply ev = true) evs → unsettled trace = false → unsettled (evs ++ trace) = false.
Proof.
  intros Hev Ht. induction Hev as [|ev evs Hev _ IH]; [done|]. cbn.
  destruct ev as [[]| | | | | |]; done.
Qed.
Lemma settled_applies_app evs trace :
  Forall (λ ev, not_apply ev = true) evs → settled_applies (evs ++ trace) = settled_applies trace.
Proof.
  intros Hev. induction Hev as [|ev evs Hev _ IH]; [done|]. cbn. by destruct ev.
Qed.

(** ** Hydration keeps the requirements *)
Ltac destruct_pair k r :=
  match goal with x : (pendingProbeKey * attemptRef)%type |- _ => destruct x as [k r] end.

Lemma hydrate_probes_mono node probes l l' key :
  hydrate_probes node probes l = Ok l' → lg_pendingProbes l !! key ≠ None →
  lg_pendingProbes l' !! key ≠ None.
Proof.
  revert l. induction probes as [|r probes IH]; intros l Hh Hk; cbn in Hh; [by inv_ok|].
  inv_ok. destruct_pair k ref. inv_ok. apply IH in Hh; [done|]. cbn.
  destruct (decide (k = key)) as [->|Hne]; [by rewrite lookup_insert_eq|].
  rewrite lookup_insert_ne by done.
  destruct (lg_states l !! ref); inv_ok; done.
Qed.

Lemma hydrateRecovery_pending node r l :
  hydrateRecovery node r = Ok l → required r → lg_pendingProbes l ≠ ∅.
Proof.
  unfold hydrateRecovery, required. intros Hh Hne. inv_ok. subst.
  destruct (rc_ProbeRequirements r) as [|p probes]; [done|]. cbn in Hh1. inv_ok.
  destruct_pair key ref. inv_ok. intros Hempty.
  apply hydrate_probes_mono with (key := key) in Hh1; [by rewrite Hempty, lookup_empty in Hh1|].
  cbn. by rewrite lookup_insert_eq.
Qed.

Lemma replaceRecoveryLocked_pending c r c' :
  replaceRecoveryLocked c r = Ok c' → required r →
  lg_pendingProbes (c_ledger c') ≠ ∅.
Proof.
  unfold replaceRecoveryLocked. intros Hr Hne. inv_ok.
  apply hydrateRecovery_pending in Hr0; [|done]. by destruct (c_hasDesired _); subst.
Qed.

Lemma seedObservedClock_ledger c s :
  let c' := seedObservedClock c s in
  c_nodeID c' = c_nodeID c ∧ c_hasStore c' = c_hasStore c ∧
  c_recoveryReloadNeeded c' = c_recoveryReloadNeeded c ∧ c_ledger c' = c_ledger c.
Proof.
  unfold seedObservedClock. generalize (match os_Infrastructure s with Some i => [io_ObservedAt i] | None => [] end
    ++ (match os_Policy s with Some p => [po_ObservedAt p] | None => [] end)
    ++ ((λ t, pt_ObservedAt (to_Physical t)) <$> os_Targets s)) as l.
  intros l. revert c. induction l as [|t l IH]; intros c; [done|].
  cbn [foldl]. cbv zeta. destruct (After _ _); [|apply IH].
  destruct (IH (set_observed_clock c (Truncate t microsecond))) as (-> & -> & -> & ->). done.
Qed.

Section barrier.
Context {U : Unicode} {E : Type} `{DurableStore E}.
Implicit Types w : world E.

Definition held w : ReconcileRecoverySnapshot := durable (c_nodeID (w_c w)) (w_e w).
Definition stored w : Prop := c_hasStore (w_c w) = true → required (held w).
Definition raised w : Prop :=
  (lg_pendingProbes (c_ledger (w_c w)) ≠ ∅ ∨ c_recoveryReloadNeeded (w_c w) = true) ∧ stored w.
(** The barrier stands, and a computation keeps it standing. *)
Definition barrier w : Prop := raised w ∧ reload_ok (w_c w).
Definition barrier_le w w' : Prop := barrier w → barrier w'.
#[export] Instance barrier_le_preorder : PreOrder barrier_le.
Proof. unfold barrier_le. split; red; auto. Qed.

(** ** Calm computations: the ledger and the database are as before *)
Record calm w w' : Prop := {
  cm_ledger : c_ledger (w_c w') = c_ledger (w_c w);
  cm_reload : c_recoveryReloadNeeded (w_c w') = c_recoveryReloadNeeded (w_c w);
  cm_store : c_hasStore (w_c w') = c_hasStore (w_c w);
  cm_node : c_nodeID (w_c w') = c_nodeID (w_c w);
  cm_durable n : durable n (w_e w') = durable n (w_e w)
}.
#[export] Instance calm_preorder : PreOrder calm.
Proof.
  split; [by split|]. intros ??? [a1 a2 a3 a4 a5] [b1 b2 b3 b4 b5].
  split; [congruence..|]. intros n. by rewrite b5, a5.
Qed.

Lemma calm_barrier w w' : calm w w' → barrier_le w w'.
Proof.
  intros [H1' H2' H3' H4' H6'].
  unfold barrier_le, barrier, reload_ok, raised, stored, held.
  rewrite H1', H2', H3', H4', H6'. tauto.
Qed.

Lemma calm_modify f :
  (∀ c, c_ledger (f c) = c_ledger c ∧ c_recoveryReloadNeeded (f c) = c_recoveryReloadNeeded c ∧
        c_hasStore (f c) = c_hasStore c ∧ c_nodeID (f c) = c_nodeID c) →
  keeps calm (modify_c f).
Proof. intros Hf. apply keeps_modify. intros w. destruct (Hf (w_c w)) as (? & ? & ? & ?). by split. Qed.
Lemma calm_ask {A} (f : E → A * E) :
  (∀ n e, durable n (f e).2 = durable n e) → keeps calm (ask f).
Proof.
  intros Hf w. unfold ask. specialize (λ n, Hf n (w_e w)). destruct (f (w_e w)). by split.
Qed.
Lemma calm_range {A} (l : list A) : keeps calm (range l).
Proof.
  intros w. unfold range. pose proof (λ n, durable_Picks n (w_e w)) as Hp.
  destruct (env_Picks (w_e w)). by split.
Qed.
Lemma calm_get : keeps calm (get_c : M E Controller).
Proof. by apply keeps_gets, _. Qed.
Lemma publish_calm c snapshots :
  let c' := foldl publish c snapshots in
  c_ledger c' = c_ledger c ∧ c_recoveryReloadNeeded c' = c_recoveryReloadNeeded c ∧
  c_hasStore c' = c_hasStore c ∧ c_nodeID c' = c_nodeID c.
Proof.
  revert c. induction snapshots as [|s l IH]; intros c; cbn; [done|].
  destruct (IH (publish c s)) as (-> & -> & -> & ->). unfold publish.
  destruct (SetDesiredSnapshotLocked s c) as [c'|] eqn:Hs; [|done].
  unfold SetDesiredSnapshotLocked in Hs. inv_ok. destruct a as [d targets]. by inv_ok.
Qed.
Lemma calm_interleave : keeps calm interleave.
Proof.
  unfold interleave. apply keeps_bind; [apply _|apply calm_ask, durable_Published|].
  intros l. apply calm_modify. intros c. apply publish_calm.
Qed.
Lemma calm_Now : keeps calm Now.
Proof. apply calm_ask, durable_Now. Qed.
Lemma calm_call {A} ev (m : ST E A) :
  (∀ n e, durable n (m e).2 = durable n e) → keeps calm (call ev m).
Proof.
  intros Hf w. unfold call. specialize (λ n, Hf n (w_e w)). destruct (m (w_e w)). by split.
Qed.
Lemma calm_quiet {A} (m : ST E A) : (∀ n e, durable n (m e).2 = durable n e) → keeps calm (quiet m).
Proof.
  intros Hf w. unfold quiet. specialize (λ n, Hf n (w_e w)). destruct (m (w_e w)). by split.
Qed.
Lemma calm_Load n : keeps calm (LoadReconcileRecovery n).
Proof. apply calm_call. intros; apply durable_Load. Qed.
Lemma calm_Probe : keeps calm Probe.
Proof. apply calm_call, durable_Probe. Qed.
Lemma calm_Apply ref plan : keeps calm (Apply ref plan).
Proof. apply calm_call. intros; apply durable_Apply. Qed.
Lemma calm_LoadObserved n : keeps calm (LoadObservedFirewallSnapshot n).
Proof. apply calm_quiet. intros; apply durable_LoadObserved. Qed.
Lemma calm_ApplyObserved u : keeps calm (ApplyObservedFirewallUpdate u).
Proof. apply calm_quiet. intros; apply durable_ApplyObserved. Qed.
End barrier.

Create HintDb calm.
#[export] Hint Resolve calm_range calm_get calm_interleave calm_Now calm_Load calm_Probe
  calm_LoadObserved calm_ApplyObserved : calm.
#[export] Hint Extern 2 (keeps calm (modify_c _)) => apply calm_modify; solve [done] : calm.
Ltac calm_tac := keeps_tac ltac:(solve [eauto 3 with calm nocore]).

Section calm_operations.
Context {U : Unicode} {E : Type} `{DurableStore E}.
Abbreviation keeps_calm m := (keeps (calm (E:=E)) m).

Lemma calm_locked {A} (m : M E A) : keeps_calm m → keeps_calm (locked m).
Proof. intros Hm. apply keeps_bind; [apply _|apply calm_interleave|done]. Qed.
Local Hint Resolve calm_locked : calm.
Lemma calm_targetExpirationFence plan : keeps_calm (targetExpirationFence plan).
Proof. unfold targetExpirationFence, targetExpirationFenceLocked. apply calm_locked. calm_tac. Qed.
Lemma calm_nextObservedAtLocked : keeps_calm nextObservedAtLocked.
Proof. unfold nextObservedAtLocked. calm_tac. Qed.
Local Hint Resolve calm_nextObservedAtLocked : calm.
Lemma calm_unknown d t code : keeps_calm (unknownObservedUpdateLocked d t code).
Proof. unfold unknownObservedUpdateLocked. calm_tac. Qed.
Lemma calm_allUnknown code : keeps_calm (allUnknownObservedUpdateLocked code).
Proof. unfold allUnknownObservedUpdateLocked. calm_tac. Qed.
Local Hint Resolve calm_unknown calm_allUnknown : calm.
Lemma calm_persistObserved u : keeps_calm (persistObservedLocked u).
Proof.
  unfold persistObservedLocked. calm_tac.
Qed.
Local Hint Resolve calm_persistObserved : calm.
Lemma calm_recordAllUnknown code : keeps_calm (recordAllUnknownObserved code).
Proof. unfold recordAllUnknownObserved. apply calm_locked. calm_tac. Qed.
End calm_operations.
#[export] Hint Resolve calm_locked calm_targetExpirationFence calm_nextObservedAtLocked calm_unknown
  calm_allUnknown calm_persistObserved calm_recordAllUnknown : calm.

(** ** Transitions *)
Lemma probes_applied_nonempty t d d' :
  probes_applied t d d' → rt_DeleteProbe t = None ∨ rt_UpsertProbe t ≠ None →
  required d → required d'.
Proof. intros [Hup Hkeep] [|]; auto. Qed.

Lemma recoveryHasProbe_nonempty r p : recoveryHasProbe r p = true → required r.
Proof.
  unfold recoveryHasProbe. rewrite existsb_true_iff. intros (q & Hq & _) Hnil.
  rewrite Hnil in Hq. by apply elem_of_nil in Hq.
Qed.

Section transitions.
Context {U : Unicode} {E : Type} `{DurableStore E}.
Implicit Types w : world E.

Lemma adopt_barrier r w :
  required r → barrier w → barrier (adoptRecoveryLocked r w).2.
Proof.
  intros Hr [[Hp Hst] Hre]. unfold adoptRecoveryLocked, get_c. run.
  destruct (replaceRecoveryLocked (w_c w) r) as [c'|e] eqn:Hc; run.
  - pose proof (replaceRecoveryLocked_same _ _ _ Hc) as (_ & _ & _ & Hs & Hn).
    apply replaceRecoveryLocked_pending in Hc; [|done].
    split; [split; [by left|]|done]. unfold stored, held. cbn. by rewrite Hs, Hn.
  - by repeat split.
Qed.

(** The two ways a call changes a world: the database, and one more event. *)
Lemma barrier_call c e e' tr tr' :
  (c_hasStore c = true → required (durable (c_nodeID c) e) →
   required (durable (c_nodeID c) e')) →
  barrier (MkWorld c e tr) → barrier (MkWorld c e' tr').
Proof. intros He [[Hp Hst] Hre]. refine (conj (conj Hp _) Hre). intros Hs. by apply He, Hst. Qed.
Lemma barrier_reload c e tr : c_hasStore c = true →
  barrier (MkWorld c e tr) → barrier (MkWorld (set_reload c true) e tr).
Proof. intros Hs [[Hp Hst] Hre]. split; [split; [by right|exact Hst]|]. intros _. exact Hs. Qed.

Definition node_probe (t : ReconcileStateTransition) w : Prop :=
  match rt_UpsertProbe t with Some p => pp_NodeID p = c_nodeID (w_c w) | None => True end.

(** What the readback leaves: the recovery it returns is what is held, and a
    transition it calls applied has its requirement there. *)
Lemma read_back_spec t x w :
  c_hasStore (w_c w) = true →
  wp (read_back t x) (λ r w',
    (barrier w → barrier w') ∧ c_hasStore (w_c w') = true ∧
    ∀ rec applied, r = Ok (rec, applied) → rec = held w' ∧
      (applied = true → rt_UpsertProbe t ≠ None → required rec)) w.
Proof.
  intros Hs. unfold read_back, get_c, modify_reload, modify_c. wp_tac. apply wp_intro. intros loaded w1 Hl.
  pose proof (calm_Load (c_nodeID (w_c w)) w) as Hc. rewrite Hl in Hc. cbn in Hc.
  pose proof (calm_barrier _ _ Hc) as Hb. destruct Hc as [_ _ Hs1 Hn1 Hd1]. rewrite Hs in Hs1.
  destruct loaded as [rec|e']; wp_tac.
  - assert (rec = held w1) as Hrec.
    { unfold held. rewrite Hn1, Hd1. apply durable_Load_Ok.
      unfold LoadReconcileRecovery, call in Hl.
      destruct (env_LoadReconcileRecovery _ _) as [r e]. by injection Hl as -> _. }
    assert (reconcileTransitionApplied rec t = true → rt_UpsertProbe t ≠ None →
            required rec) as Happ.
    { unfold reconcileTransitionApplied. gobool. intros [[_ Hup] _] Hne.
      destruct (rt_UpsertProbe t); [|done]. by eapply recoveryHasProbe_nonempty. }
    destruct (rt_Observed t) as [u|]; wp_tac.
    + eapply wp_keeps; [apply calm_LoadObserved|]. intros [sn|e'] w2 Hc2;
        pose proof (calm_barrier _ _ Hc2) as Hb2; destruct Hc2 as [_ _ Hs2 Hn2 Hd2]; wp_tac.
      * split_and!; [by auto|by rewrite Hs2|]. intros ? ? [= <- <-]. split.
        -- rewrite Hrec. unfold held. by rewrite Hn2, Hd2.
        -- gobool. intros [? _]. by apply Happ.
      * split_and!; [|cbn; by rewrite Hs2|done]. intros Hw. destruct w2 as [c2 e2 tr2].
        apply barrier_reload; [cbn in *; congruence|]. by apply Hb2, Hb.
    + split_and!; [done|done|]. by intros ? ? [= <- <-].
  - split_and!; [|done|done]. intros Hw. destruct w1 as [c1 e1 tr1].
    apply barrier_reload; [done|]. by apply Hb.
Qed.

(** A transition that does not only delete keeps the barrier, and one that
    upserts and succeeds has stored its requirement. *)
Lemma applyTransition_spec t w :
  c_hasStore (w_c w) = true → node_probe t w → rt_DeleteProbe t = None ∨ rt_UpsertProbe t ≠ None →
  wp (applyTransitionLocked t) (λ r w',
    (barrier w → barrier w') ∧ (r = Ok tt → rt_UpsertProbe t ≠ None → stored w')) w.
Proof.
  intros Hs Hn Hor. destruct w as [c e tr].
  pose proof (durable_Transition (c_nodeID c) t e Hn) as Hlaw.
  unfold applyTransitionLocked, modify_reload, modify_c. wp_tac. apply wp_intro. intros r w1 Hcall. unfold call in Hcall.
  cbn in Hcall. destruct (env_ApplyReconcileTransition t e) as [r' e1].
  injection Hcall as -> <-.
  assert (barrier (MkWorld c e tr) → barrier (MkWorld c e1 (EvTransition t r :: tr))) as Hb.
  { apply barrier_call. intros _. destruct r as [[]|x]; [by eapply probes_applied_nonempty|].
    destruct Hlaw as [->|[_ Ha]]; [done|by eapply probes_applied_nonempty]. }
  destruct r as [[]|x]; wp_tac.
  { split; [done|]. intros _ Hup _. by apply (proj1 Hlaw). }
  destruct (errors_Is x ErrReconcileCommitUnknown); cbn; wp_tac; [|done].
  eapply wp_mono; [by apply read_back_spec|]. intros [[rec applied]|e'] w2 (Hb2 & Hs2 & Hrec); wp_tac;
    [|split; [by auto|done]].
  destruct (Hrec _ _ eq_refl) as [-> Happ].
  assert (barrier (MkWorld c e tr) → barrier (adoptRecoveryLocked (held w2) w2).2) as Hb3.
  { intros Hw. apply Hb, Hb2 in Hw. apply adopt_barrier; [|done]. by apply Hw. }
  apply wp_intro. intros r3 w3 Had. rewrite Had in Hb3. cbn in Hb3.
  unfold adoptRecoveryLocked, get_c in Had. autorewrite with st in Had.
  destruct (replaceRecoveryLocked (w_c w2) (held w2)) as [c'|] eqn:Hc;
    autorewrite with st in Had; injection Had as <- <-.
  - destruct applied; wp_tac; split; try done. intros _ Hup _.
    pose proof (replaceRecoveryLocked_same _ _ _ Hc) as (_ & _ & _ & _ & Hn').
    unfold held. cbn. rewrite Hn'. by apply Happ.
  - wp_tac. split; [|done]. intros Hw. destruct w2. by apply barrier_reload, Hb3.
Qed.

(** A change of the controller outside the barrier. *)
Lemma barrier_modify f :
  (∀ c, (lg_pendingProbes (c_ledger c) ≠ ∅ → lg_pendingProbes (c_ledger (f c)) ≠ ∅) ∧
        c_recoveryReloadNeeded (f c) = c_recoveryReloadNeeded c ∧
        c_hasStore (f c) = c_hasStore c ∧ c_nodeID (f c) = c_nodeID c) →
  keeps barrier_le (modify_c (E:=E) f).
Proof.
  intros Hf. apply keeps_modify. intros w. destruct (Hf (w_c w)) as (Hp & Hr & Hs & Hn).
  unfold barrier_le, barrier, reload_ok, raised, stored, held. cbn. rewrite Hr, Hs, Hn. tauto.
Qed.
Lemma calm_keeps_barrier {A} (m : M E A) : keeps calm m → keeps barrier_le m.
Proof. intros Hm w. apply calm_barrier, Hm. Qed.
Lemma calm_panic {A} msg : keeps calm (panic msg : M E A).
Proof. intros w. by split. Qed.
End transitions.
#[export] Hint Resolve calm_panic : calm.

Create HintDb barrier.
#[export] Hint Extern 2 (keeps barrier_le (modify_c _)) => apply barrier_modify; solve [done] : barrier.
#[export] Hint Extern 3 (keeps barrier_le _) =>
  apply calm_keeps_barrier; solve [eauto 3 with calm nocore] : barrier.
Ltac barrier_tac := keeps_tac ltac:(solve [eauto 3 with barrier nocore]).

Section barrier_operations.
Context {U : Unicode} {E : Type} `{DurableStore E}.
Implicit Types w : world E.
Abbreviation keeps_barrier m := (keeps (barrier_le (E:=E)) m).

Lemma barrier_getState ref : keeps_barrier (getState ref).
Proof. unfold getState. barrier_tac. Qed.
Lemma barrier_putState ref st : keeps_barrier (putState ref st).
Proof. unfold putState. barrier_tac. Qed.
Lemma barrier_put_pending key ref : keeps_barrier (modify_c (put_pending key ref)).
Proof. apply barrier_modify. intros c. split_and!; [|done..]. intros _. cbn. apply insert_non_empty. Qed.
Local Hint Resolve barrier_getState barrier_putState barrier_put_pending : barrier.

Lemma calm_persistedState ref st : keeps calm (persistedState ref st : M E _).
Proof. unfold persistedState. calm_tac. Qed.
Lemma persistedState_spec ref st w :
  wp (persistedState ref st) (λ r w', calm w w' ∧
    match r with Ok p => ps_NodeID p = c_nodeID (w_c w') | Err _ => True end) w.
Proof.
  unfold persistedState, get_c. wp_tac. eapply wp_keeps; [apply calm_Now|].
  intros [t|e] w1 Hc; wp_tac; [|done]. split; [done|]. by destruct ref.
Qed.
Lemma persistedProbe_spec key ref n w :
  wp (persistedProbe key ref n) (λ r w', calm w w' ∧
    match r with Ok p => pp_NodeID p = c_nodeID (w_c w) | Err _ => True end) w.
Proof.
  unfold persistedProbe. wp_tac. eapply wp_keeps; [apply calm_Now|]. intros [t|e] w1 Hc; wp_tac; [|done].
  unfold get_c. wp_tac. split; [done|]. apply Hc.
Qed.
Lemma persist_probe_spec key ref n w :
  wp (persist_probe key ref n) (λ r w', calm w w' ∧
    match r with
    | Ok p => is_nil p = is_nil key ∧
              match p with Some p => pp_NodeID p = c_nodeID (w_c w) | None => True end
    | Err _ => True
    end) w.
Proof.
  unfold persist_probe. destruct key as [key|]; wp_tac; [|done].
  eapply wp_mono; [apply persistedProbe_spec|]. intros [p|e] w1 [Hc Hp]; wp_tac; done.
Qed.

Lemma barrier_persistState ref st up observed :
  keeps_barrier (persistStateWithObservedLocked ref st up None observed).
Proof.
  apply keeps_wp. intros w. unfold persistStateWithObservedLocked, get_c. wp_tac.
  destruct (c_hasStore (w_c w)) eqn:Hs; cbn; wp_tac; [|done].
  eapply wp_keeps; [apply calm_persistedState|]. intros [ps|e] w1 C1; wp_tac; [|by apply calm_barrier].
  eapply wp_mono; [apply persist_probe_spec|].
  intros [p1|e] w2 [C2 Hp1]; wp_tac; [|by apply calm_barrier; transitivity w1].
  assert (calm w w2) as C2' by by transitivity w1.
  eapply wp_mono; [apply applyTransition_spec|].
  - by rewrite (cm_store _ _ C2').
  - unfold node_probe. cbn. destruct p1; [|done]. by rewrite (proj2 Hp1), (cm_node _ _ C2).
  - by left.
  - intros r w4 [Hb _] Hw. apply Hb. by apply (calm_barrier _ _ C2').
Qed.
Local Hint Resolve barrier_persistState : barrier.

Lemma persistApplying_spec ref st key previous w :
  wp (persistApplyingStateLocked ref st key previous) (λ r w', r = Ok tt → stored w') w.
Proof.
  unfold persistApplyingStateLocked, get_c. wp_tac.
  destruct (c_hasStore (w_c w)) eqn:Hs; cbn; wp_tac; [|intros _; unfold stored; by rewrite Hs].
  eapply wp_keeps; [apply calm_persistedState|]. intros [ps|e] w1 C1; wp_tac; [|done].
  eapply wp_mono; [apply persistedProbe_spec|]. intros [up|e] w2 [C2 Hup]; wp_tac; [|done].
  apply wp_mono with (P := λ r w3, calm w2 w3).
  { destruct previous as [pr|]; wp_tac; [|done]. destruct (stateForRef (w_c w) pr); wp_tac; [|done].
    eapply wp_mono; [apply persistedProbe_spec|]. by intros [dp|e] w3 [C3 _]; wp_tac. }
  intros [del|e] w3 C3; wp_tac; [|done].
  eapply wp_mono; [apply applyTransition_spec|].
  - by rewrite (cm_store _ _ C3), (cm_store _ _ C2), (cm_store _ _ C1).
  - unfold node_probe. cbn. by rewrite Hup, (cm_node _ _ C3), (cm_node _ _ C2).
  - by right.
  - intros r w4 [_ Hst] Hr. by apply Hst.
Qed.

Lemma barrier_finishFailureLocked ref key code b observed :
  keeps_barrier (finishFailureLocked ref key code b true observed).
Proof. unfold finishFailureLocked. cbn iota. barrier_tac. Qed.
Local Hint Resolve barrier_finishFailureLocked : barrier.
Lemma barrier_locked {A} (m : M E A) : keeps_barrier m → keeps_barrier (locked m).
Proof. intros Hm. apply keeps_bind; [apply _|barrier_tac|done]. Qed.
Lemma barrier_finishFailureAndRequireProbe ref key code all :
  keeps_barrier (finishFailureAndRequireProbeObserved ref key code all).
Proof. unfold finishFailureAndRequireProbeObserved. apply barrier_locked. barrier_tac. Qed.
Lemma barrier_markInvalidPlan plan : keeps_barrier (markInvalidPlan plan).
Proof.
  unfold markInvalidPlan, persistStateLocked. apply barrier_locked. barrier_tac.
Qed.

Lemma load_held w : wp (LoadReconcileRecovery (c_nodeID (w_c w))) (λ r w',
  calm w w' ∧ ∀ rec, r = Ok rec → rec = held w') w.
Proof.
  apply wp_intro. intros r w' Hl. pose proof (calm_Load (c_nodeID (w_c w)) w) as Hc.
  rewrite Hl in Hc. split; [done|]. intros rec ->.
  destruct Hc as [_ _ _ Hn Hd]. cbn in Hn, Hd. unfold held. rewrite Hn, Hd. apply durable_Load_Ok.
  unfold LoadReconcileRecovery, call in Hl.
  destruct (env_LoadReconcileRecovery _ _) as [r e]. by injection Hl as -> _.
Qed.

(** After a reload the ledger is the database's, and no reload is pending. *)
Lemma reload_spec w :
  wp reloadRecoveryIfNeeded (λ r w', (barrier w → barrier w') ∧
    (r = Ok tt → c_recoveryReloadNeeded (w_c w') = false)) w.
Proof.
  unfold reloadRecoveryIfNeeded, locked. wp_tac. eapply wp_keeps; [apply calm_interleave|].
  intros [[]|e] w1 C1; unfold get_c; wp_tac; pose proof (calm_barrier _ _ C1) as B1; [|done].
  destruct (c_recoveryReloadNeeded (w_c w1)) eqn:Hre; cbn; wp_tac; [|done].
  eapply wp_mono; [apply load_held|]. intros [rec|e] w2 [C2 Hrec]; wp_tac;
    pose proof (calm_barrier _ _ C2) as B2; [|cbn; split; [by auto|done]].
  specialize (Hrec _ eq_refl) as ->. cbn [wrap]. wp_tac.
  apply wp_intro. intros r w3 Had.
  assert (barrier w → barrier w3) as B3.
  { intros Hw. apply B1, B2 in Hw.
    pose proof (adopt_barrier (held w2) w2) as Ha. rewrite Had in Ha. apply Ha; [|done].
    apply Hw. rewrite (cm_store _ _ C2). destruct Hw as [_ Hok].
    rewrite <- (cm_store _ _ C2). apply Hok. by rewrite (cm_reload _ _ C2). }
  unfold adoptRecoveryLocked, get_c in Had. autorewrite with st in Had.
  destruct (replaceRecoveryLocked (w_c w2) (held w2)); autorewrite with st in Had;
    injection Had as <- <-; cbn; split; done.
Qed.

Lemma adopt_wp r w :
  wp (adoptRecoveryLocked r) (λ x w', (required r → barrier w → barrier w') ∧
    c_hasStore (w_c w') = c_hasStore (w_c w)) w.
Proof.
  split; [intros; by apply adopt_barrier|]. unfold adoptRecoveryLocked, get_c. run.
  destruct (replaceRecoveryLocked (w_c w) r) eqn:Hr; run; [|done]. cbn.
  by apply replaceRecoveryLocked_same in Hr as (_ & _ & _ & -> & _).
Qed.

(** An administrator's retry leaves the requirements in the database. *)
Lemma barrier_persistRetry ref st previous : keeps_barrier (persistRetryLocked ref st previous).
Proof.
  apply keeps_wp. intros w. unfold persistRetryLocked, get_c, modify_reload, modify_c. wp_tac.
  eapply wp_mono; [apply persistedState_spec|]. intros [ps|e] w1 [C1 Hn]; wp_tac;
    pose proof (calm_barrier _ _ C1) as B1; [|done].
  destruct (c_hasStore (w_c w1)) eqn:Hs; cbn [negb].
  2: { eapply wp_keeps; [apply calm_call; intros; apply durable_Audit|]. intros _ w2 C2.
       by transitivity w1; [|apply calm_barrier]. }
  wp_tac. set (t := MkRetryTransition _ _). destruct w1 as [c1 e1 tr1]. cbn in Hs.
  pose proof (durable_Retry (c_nodeID c1) t e1) as Hlaw.
  apply wp_intro. intros r w2 Hcall. unfold call in Hcall. cbn in Hcall.
  destruct (env_ApplyReconcileRetryTransition t e1) as [r' e2]. cbn in Hlaw. injection Hcall as -> <-.
  assert (barrier_le w (MkWorld c1 e2 (EvRetry t r :: tr1))) as B2.
  { intros Hw. eapply barrier_call; [|by apply B1]. by intros _. }
  destruct r as [[]|x]; wp_tac; [done|].
  destruct (errors_Is x ErrReconcileCommitUnknown); cbn [negb]; wp_tac; [|done].
  apply wp_intro. intros rb w3 Hread. unfold quiet in Hread. cbn in Hread.
  pose proof (λ n, durable_ReadRetry n t e2) as Hd. pose proof (durable_ReadRetry_Ok t e2) as Hok.
  destruct (env_ReadReconcileRetryTransition t e2) as [rb' e3]. cbn in Hd, Hok.
  injection Hread as -> <-.
  assert (barrier_le w (MkWorld c1 e3 (EvRetry t (Err x) :: tr1))) as B3.
  { intros Hw. eapply barrier_call; [|by apply B2]. intros _. by rewrite Hd. }
  destruct rb as [rb|e']; wp_tac; [|by intros Hw; apply barrier_reload, B3].
  eapply wp_mono; [apply adopt_wp|]. intros r4 w4 [Had Hs4]. cbn in Hs4.
  assert (barrier_le w w4) as B4.
  { intros Hw. apply B3 in Hw. apply Had; [|done]. rewrite (Hok _ eq_refl), <- Hd.
    cbn. rewrite Hn. destruct Hw as [[_ Hst] _]. by apply Hst. }
  destruct r4 as [[]|e']; wp_tac; [by destruct (rb_Applied rb); wp_tac|].
  intros Hw. destruct w4. apply barrier_reload; [cbn in *; congruence|by apply B4].
Qed.
Lemma barrier_superseded ref : keeps_barrier (modify_c (markPendingRefsSupersededLocked ref)).
Proof. by apply barrier_modify. Qed.
Local Hint Resolve barrier_persistRetry barrier_superseded : barrier.
Lemma barrier_reloadRecovery : keeps_barrier reloadRecoveryIfNeeded.
Proof. apply keeps_wp. intros w. eapply wp_mono; [apply reload_spec|]. by intros r w' [? _]. Qed.
Local Hint Resolve barrier_reloadRecovery barrier_locked : barrier.
Lemma barrier_RetryInfrastructure : keeps_barrier RetryInfrastructure.
Proof. unfold RetryInfrastructure. barrier_tac. Qed.
Lemma barrier_RetryPolicy : keeps_barrier RetryPolicy.
Proof. unfold RetryPolicy. barrier_tac. Qed.
Lemma barrier_RetryTarget t : keeps_barrier (RetryTarget t).
Proof. unfold RetryTarget. barrier_tac. Qed.
End barrier_operations.
