(* ===== verification/ControllerSafety.v ===== *)
(** * Mutations of the firewall are never sent blindly

    The systems built on the reconcile controller: a controller in memory or
    over a store, the operations goroutines call on it, and restarts over the
    same store. A crash in the middle of an operation is a run in which every
    port call fails from some point on, followed by a restart. *)

From S2P Require Import Prelude GoStd GoFmt Sha256 Netip Identity CoreModel Enforcement.
From S2P Require Import ObservedState ReconcilePlan Controller ControllerOps ControllerFences.
From S2P Require Import ControllerBarrier.

Section systems.
Context {U : Unicode} {E : Type}.
Context `{Clock E, Backend E, CriticalAuditWriter E, PersistentStateStore E, Scheduler E}.

Inductive reachable : world E → Prop :=
  | reach_memory e : reachable (MkWorld NewController e [])
  | reach_open node e c w :
      NewPersistentController node (MkWorld NewController e []) = (Ok c, w) →
      reachable (MkWorld c (w_e w) (w_trace w))
  | reach_op o w : reachable w → reachable (run_op o w)
  | reach_restart w c w' :
      reachable w → c_hasStore (w_c w) = true →
      NewPersistentController (c_nodeID (w_c w)) w = (Ok c, w') →
      reachable (MkWorld c (w_e w') (w_trace w')).
End systems.

Section safety.
Context {U : Unicode} {E : Type} `{DurableStore E}.
Implicit Types w : world E.
Abbreviation quiet_frame := (frame (E:=E) not_apply true).
Local Lemma not_apply_allowed ev : not_apply ev = true → not_apply ev = true.
Proof. done. Qed.
Local Hint Resolve not_apply_allowed : frame core.

(** The outcome of the last mutation is known, or the barrier stands. *)
Record guarded w : Prop := {
  gd_settled : settled_applies (w_trace w) = true;
  gd_reload : reload_ok (w_c w);
  gd_barrier : unsettled (w_trace w) = true → barrier w
}.
Definition known w : Prop := guarded w ∧ unsettled (w_trace w) = false.

Lemma quiet_unsettled w w' :
  quiet_frame w w' → unsettled (w_trace w) = false → unsettled (w_trace w') = false.
Proof. intros [(evs & -> & Hev) _]. by apply unsettled_app. Qed.
Lemma guarded_quiet w w' : guarded w → quiet_frame w w' → barrier_le w w' → guarded w'.
Proof.
  intros [Hs Hr Hb] Hf Hle. split.
  - destruct Hf as [(evs & -> & Hev) _]. by rewrite settled_applies_app.
  - by apply Hf.
  - intros Hu. apply Hle, Hb. destruct (unsettled (w_trace w)) eqn:Hw; [done|].
    by rewrite (quiet_unsettled w w') in Hu.
Qed.
Lemma known_quiet w w' : known w → quiet_frame w w' → known w'.
Proof.
  intros [[Hs Hr Hb] Hu] Hf. pose proof (quiet_unsettled _ _ Hf Hu) as Hu'. split; [|done]. split.
  - destruct Hf as [(evs & -> & Hev) _]. by rewrite settled_applies_app.
  - by apply Hf.
  - congruence.
Qed.
Lemma wp_guarded {A} (m : M E A) w :
  keeps quiet_frame m → keeps barrier_le m → guarded w → wp m (λ _, guarded) w.
Proof. intros Hf Hb Hw. by eapply guarded_quiet; [|apply Hf|apply Hb]. Qed.
Lemma wp_known {A} (m : M E A) w : keeps quiet_frame m → known w → wp m (λ _, known) w.
Proof. intros Hf Hw. by eapply known_quiet; [|apply Hf]. Qed.

(** A probe that succeeds settles the outcome. *)
Lemma Probe_spec w : guarded w → wp Probe (λ r w', calm w w' ∧ guarded w' ∧ (is_ok r = true → known w')) w.
Proof.
  intros Hw. apply wp_intro. intros r w' Hp.
  assert (calm w w') as Hc by (pose proof (calm_Probe w) as Hc; by rewrite Hp in Hc).
  assert (guarded w') as Hg.
  { eapply guarded_quiet; [done| |by apply calm_barrier].
    pose proof (frame_Probe not_apply (λ _ a, a) true w) as Hf. by rewrite Hp in Hf. }
  split_and!; [done..|]. intros Hr. split; [done|].
  unfold Probe, call in Hp. destruct (env_Probe (w_e w)) as [[s|e] e1]; by injection Hp as <- <-.
Qed.

Lemma beginAttemptLocked_spec plan w :
  wp (beginAttemptLocked plan) (λ r w', is_ok r = true → raised w') w.
Proof.
  unfold beginAttemptLocked. wp_tac. apply wp_intro. intros [[]|e] w1 _; [|done].
  unfold get_c, attemptStateLocked. wp_tac. cbn beta iota zeta. wp_tac.
  apply wp_intro. intros [now|e] w2 _; wp_tac; [|done].
  break_if; wp_tac; [done|]. break_if; wp_tac; [done|].
  eapply wp_mono; [apply persistApplying_spec|]. intros [[]|e] w3 Hst; cbn [wrap]; wp_tac; [|done].
  specialize (Hst eq_refl). apply wp_intro. intros [[]|e] w4 Hput; wp_tac; [|done].
  assert (stored w4) as Hst4.
  { unfold putState in Hput. destruct (attempt_ref _ _); inversion Hput; subst; exact Hst. }
  unfold modify_c. wp_tac.
  assert (raised (MkWorld (put_pending (pendingProbeKeyForPlan plan) (attempt_ref (w_c w1) plan) (w_c w4))
            (w_e w4) (w_trace w4))) as Hr.
  { split; [left; cbn; apply insert_non_empty|exact Hst4]. }
  destruct (lg_pendingProbes _ !! _); wp_tac; done.
Qed.

(** An attempt begins only when the outcome of the last one is known, and
    leaves the barrier standing. *)
Definition begun {A} (r : result (option A)) w : Prop :=
  guarded w ∧ match r with Ok (Some _) => known w ∧ barrier w | _ => True end.

Lemma begun_of_known {A} (m : M E (option A)) w :
  keeps quiet_frame m → known w →
  wp m (λ r w', match r with Ok (Some _) => raised w' | _ => True end) w → wp m begun w.
Proof.
  intros Hf Hk Hm. pose proof (wp_known m w Hf Hk) as Hk'. unfold wp in *.
  split; [apply Hk'|]. destruct (m w).1 as [[x|]|]; try done. split; [done|].
  split; [done|]. apply Hk'.
Qed.

Lemma beginAfterRequiredProbe_spec plan snapshot key w :
  wp (beginAfterRequiredProbe plan snapshot key)
    (λ r w', match r with Ok (Some _) => raised w' | _ => True end) w.
Proof.
  unfold beginAfterRequiredProbe, locked, get_c. wp_tac. apply wp_intro. intros [[]|e] w1 _; wp_tac; [|done].
  break_if; wp_tac; [done|]. apply wp_intro. intros [[]|e] w2 _; wp_tac; [|done].
  apply wp_intro. intros [u|e] w3 _; wp_tac; [|done].
  apply wp_intro. intros [[]|e] w4 _; cbn [wrap]; wp_tac; [|done].
  apply wp_intro. intros [[]|e] w5 _; wp_tac; [done| |done].
  eapply wp_mono; [apply beginAttemptLocked_spec|]. intros [ref|e] w6 Hr; wp_tac; auto.
Qed.
Lemma beginAfterStartupProbe_spec plan snapshot w :
  wp (beginAfterStartupProbe plan snapshot)
    (λ r w', match r with Ok (Some _) => raised w' | _ => True end) w.
Proof.
  unfold beginAfterStartupProbe, locked, get_c. wp_tac. apply wp_intro. intros [[]|e] w1 _; wp_tac; [|done].
  break_if; wp_tac; [done|]. apply wp_intro. intros [[]|e] w2 _; wp_tac; [|done].
  apply wp_intro. intros [u|e] w3 _; wp_tac; [|done].
  apply wp_intro. intros [[]|e] w4 _; cbn [wrap]; wp_tac; [|done].
  break_if; wp_tac.
  - eapply wp_mono; [apply beginAttemptLocked_spec|]. intros [ref|e] w5 Hr; unfold modify_c; wp_tac; [|done].
    by apply Hr.
  - apply wp_intro. intros [r|e] w5 Hrun; [|done].
    unfold attemptStateLocked in Hrun. repeat (st_step Hrun as ? ? _).
    by injection Hrun as <- _.
Qed.
Lemma beginAttempt_spec plan w :
  wp (beginAttempt plan) (λ r w', is_ok r = true → raised w') w.
Proof.
  unfold beginAttempt, locked, get_c. wp_tac. apply wp_intro. intros [[]|e] w1 _; wp_tac; [|done].
  break_if; wp_tac; [done|]. apply beginAttemptLocked_spec.
Qed.

Lemma guarded_calm w w' : guarded w → quiet_frame w w' → calm w w' → guarded w'.
Proof. intros Hg Hf Hc. eapply guarded_quiet; [done..|]. by apply calm_barrier. Qed.

Lemma probe_or_record_spec operation w : guarded w →
  wp (probe_or_record operation) (λ r w', guarded w' ∧ (is_ok r = true → known w')) w.
Proof.
  intros Hw. unfold probe_or_record. wp_tac. eapply wp_mono; [by apply Probe_spec|].
  intros [s|e] w1 (_ & Hg & Hk); wp_tac; [auto|].
  apply wp_mono with (P := λ _, guarded); [|intros r w2 Hg2; wp_tac; done].
  apply wp_guarded; [frame_tac|barrier_tac|done].
Qed.

(** Between the reload and the test of the barrier only snapshots are published. *)
Lemma hasPendingProbes_spec w : guarded w → c_recoveryReloadNeeded (w_c w) = false →
  wp hasPendingProbes (λ r w', guarded w' ∧ (r = Ok false → known w')) w.
Proof.
  intros Hg Hre. unfold hasPendingProbes, locked, get_c. wp_tac.
  apply wp_intro. intros r w1 Hi.
  assert (calm w w1) as Hc by (pose proof (calm_interleave w) as Hc; by rewrite Hi in Hc).
  assert (guarded w1) as Hg1.
  { eapply guarded_calm; [done| |done].
    pose proof (frame_interleave not_apply true w) as Hf. by rewrite Hi in Hf. }
  destruct r as [[]|e]; wp_tac; [|done]. split; [done|]. intros [= Hp]. gobool. split; [done|].
  destruct (unsettled (w_trace w1)) eqn:Hu; [|done].
  destruct (gd_barrier _ Hg1 Hu) as [[[Hne|Hr] _] _]; [done|].
  rewrite (cm_reload _ _ Hc) in Hr. congruence.
Qed.

Lemma begin_execution_spec plan w : guarded w → c_recoveryReloadNeeded (w_c w) = false →
  wp (begin_execution plan) begun w.
Proof.
  intros Hg Hre. unfold begin_execution. wp_tac.
  eapply wp_mono; [by apply hasPendingProbes_spec|]. intros [[]|e] w1 [Hg1 Hk1]; wp_tac; [| |done].
  - eapply wp_mono; [by apply probe_or_record_spec|]. intros [sn|e] w2 [Hg2 Hk2]; wp_tac; [|done].
    specialize (Hk2 eq_refl). eapply wp_mono; [apply begun_of_known;
      [frame_tac|done|apply beginAfterRequiredProbe_spec]|].
    intros [[ref|]|e] w3 Hb; wp_tac; done.
  - specialize (Hk1 eq_refl). eapply wp_mono; [apply wp_known; [frame_tac|done]|].
    intros [[]|e] w2 Hk2; wp_tac; [| |split; [apply Hk2|done]].
    + eapply wp_mono; [apply probe_or_record_spec, Hk2|]. intros [sn|e] w3 [Hg3 Hk3]; wp_tac; [|done].
      specialize (Hk3 eq_refl). eapply wp_mono; [apply begun_of_known;
        [frame_tac|done|apply beginAfterStartupProbe_spec]|].
      intros [[ref|]|e] w4 Hb; wp_tac; done.
    + eapply wp_mono with (P := λ _, known).
      { apply wp_known; [frame_tac|done]. }
      intros [plan'|e] w3 Hk3; wp_tac; [|split; [apply Hk3|done]].
      eapply wp_mono; [apply wp_and; [apply wp_known; [frame_tac|done]|apply beginAttempt_spec]|].
      intros [ref|e] w4 [Hk4 Hr4]; wp_tac; [|split; [apply Hk4|done]].
      split; [apply Hk4|]. split; [done|]. split; [by apply Hr4|apply Hk4].
Qed.

(** The mutation itself: the barrier stands when it is sent. *)
Lemma Apply_spec ref plan w : known w → barrier w →
  wp (Apply ref plan) (λ r w', guarded w' ∧ barrier w' ∧ unsettled (w_trace w') = unsettled_result r) w.
Proof.
  intros [[Hs Hr _] Hu] Hb. apply wp_intro. intros r w' Ha.
  assert (barrier w') as Hb'.
  { pose proof (calm_Apply ref plan w) as Hc. rewrite Ha in Hc. by apply (calm_barrier _ _ Hc). }
  unfold Apply, call in Ha. destruct (env_Apply plan (w_e w)) as [r' e']. injection Ha as <- <-.
  split_and!; [|done|done]. split; [|apply Hb'|done]. cbn. by rewrite Hu, Hs.
Qed.

Lemma after_require_probe ref key code all w : guarded w →
  wp (finishFailureAndRequireProbeObserved ref key code all) (λ _, guarded) w.
Proof. intros Hw. apply wp_guarded; [frame_tac|apply barrier_finishFailureAndRequireProbe|done]. Qed.
Lemma after_known {A} (m : M E A) w : keeps quiet_frame m → known w → wp m (λ _, guarded) w.
Proof. intros Hf Hk. eapply wp_mono; [by apply wp_known|]. by intros r w' [? _]. Qed.

Lemma apply_attempt_spec ref plan key w : known w → barrier w →
  wp (apply_attempt ref plan key) (λ _, guarded) w.
Proof.
  intros Hk Hb. unfold apply_attempt. wp_tac.
  eapply wp_mono; [apply wp_and; [apply (wp_keeps barrier_le); [barrier_tac|intros r w' Hle; exact (Hle Hb)]|
    apply wp_known; [frame_tac|done]]|].
  intros [[]|e] w1 [Hb1 Hk1]; wp_tac.
  2: { eapply wp_mono; [apply after_known; [frame_tac|done]|]. intros r w2 Hg; by wp_tac. }
  eapply wp_mono; [by apply Apply_spec|]. intros [value|e] w2 (Hg2 & Hb2 & Hu2); wp_tac.
  2: { eapply wp_mono; [by apply after_require_probe|]. intros r w3 Hg; by wp_tac. }
  cbn in Hu2. destruct (ap_Kind value); wp_tac.
  - eapply wp_mono; [by apply Probe_spec|]. intros [sn|e] w3 (_ & Hg3 & Hk3); wp_tac.
    + eapply wp_mono; [apply after_known; [frame_tac|by apply Hk3]|]. intros r w4 Hg; by wp_tac.
    + eapply wp_mono; [by apply after_require_probe|]. intros r w4 Hg; by wp_tac.
  - eapply wp_mono; [apply after_known; [frame_tac|done]|]. intros r w3 Hg; by wp_tac.
  - eapply wp_mono; [by apply after_require_probe|]. intros r w3 Hg; by wp_tac.
  - eapply wp_mono; [apply after_known; [frame_tac|done]|]. intros r w3 Hg; by wp_tac.
Qed.

Lemma reload_guarded w : guarded w →
  wp reloadRecoveryIfNeeded (λ r w', guarded w' ∧ (r = Ok tt → c_recoveryReloadNeeded (w_c w') = false)) w.
Proof.
  intros Hg. eapply wp_mono; [apply wp_and; [apply reload_spec|apply wp_guarded;
    [frame_tac|apply barrier_reloadRecovery|done]]|].
  by intros r w' [[_ Hr] Hg'].
Qed.

Lemma Execute_guarded plan w : guarded w → wp (Execute plan) (λ _, guarded) w.
Proof.
  intros Hg. unfold Execute. wp_tac. eapply wp_mono; [by apply reload_guarded|].
  intros [[]|e] w1 [Hg1 Hr1]; wp_tac; [|done]. specialize (Hr1 eq_refl).
  destruct (ValidatePlan plan); wp_tac.
  2: { eapply wp_mono; [apply wp_guarded; [frame_tac|apply barrier_markInvalidPlan|done]|].
       intros r w2 Hg2; by wp_tac. }
  eapply wp_mono; [apply (wp_and _ (λ _ w2, calm w1 w2)); [apply (wp_keeps calm); [calm_tac|by intros]|
    apply wp_guarded; [frame_tac|barrier_tac|done]]|].
  intros [[]|e] w2 [Hc2 Hg2]; wp_tac; [|done].
  eapply wp_mono; [apply begin_execution_spec; [done|by rewrite (cm_reload _ _ Hc2)]|].
  intros [[[ref plan']|]|e] w3 [Hg3 Hk3]; wp_tac; [|done..]. destruct Hk3; by apply apply_attempt_spec.
Qed.

Lemma SetDesired_guarded snapshot w : guarded w → wp (SetDesiredSnapshot snapshot) (λ _, guarded) w.
Proof.
  intros Hg. unfold SetDesiredSnapshot, get_c. wp_tac.
  eapply wp_mono; [apply wp_guarded; [apply frame_interleave|barrier_tac|done]|].
  intros [[]|e] w1 Hg1; wp_tac; [|done].
  destruct (SetDesiredSnapshotLocked snapshot (w_c w1)) as [c'|e] eqn:Hs; unfold modify_c; wp_tac; [|done].
  pose proof (publish_calm (w_c w1) [snapshot]) as Hp. cbn in Hp. unfold publish in Hp.
  rewrite Hs in Hp. destruct Hp as (P1 & P2 & P3 & P4).
  eapply guarded_calm; [done| |by split]. split; [by exists []|].
  by eapply SetDesiredSnapshotLocked_cframe.
Qed.

Lemma recovery_probe_spec operation w : guarded w →
  wp (recovery_probe operation) (λ r w', guarded w' ∧ match r with Ok (inl _) => known w' | _ => True end) w.
Proof.
  intros Hw. unfold recovery_probe. wp_tac. eapply wp_mono; [by apply Probe_spec|].
  intros [s|e] w1 (_ & Hg & Hk); wp_tac; [auto|].
  apply wp_mono with (P := λ _, guarded); [apply wp_guarded; [frame_tac|barrier_tac|done]|].
  intros [[]|e'] w2 Hg2; by wp_tac.
Qed.
Lemma probeRecovery_guarded timeout w : guarded w → wp (probeRecovery timeout) (λ _, guarded) w.
Proof.
  intros Hg. unfold probeRecovery. break_if; wp_tac; [done|].
  eapply wp_mono; [by apply reload_guarded|]. intros [[]|e] w1 [Hg1 _]; wp_tac; [|done].
  eapply wp_mono; [by apply recovery_probe_spec|]. intros [[sn|early]|e] w2 [Hg2 Hk2]; wp_tac; [|done..].
  apply after_known; [frame_tac|done].
Qed.
Lemma probeStartupRecovery_guarded keys timeout w :
  guarded w → wp (probeStartupRecovery keys timeout) (λ _, guarded) w.
Proof.
  intros Hg. unfold probeStartupRecovery. break_if; wp_tac; [done|].
  eapply wp_mono; [by apply reload_guarded|]. intros [[]|e] w1 [Hg1 _]; wp_tac; [|done].
  eapply wp_mono; [by apply recovery_probe_spec|]. intros [[sn|early]|e] w2 [Hg2 Hk2]; wp_tac; [|done..].
  apply after_known; [frame_tac; apply frame_fold; intros; frame_tac|done].
Qed.

Lemma run_op_guarded o w : guarded w → guarded (run_op o w).
Proof.
  intros Hg. destruct o; cbn [run_op].
  - by apply Execute_guarded.
  - by apply SetDesired_guarded.
  - by apply probeRecovery_guarded.
  - by apply probeStartupRecovery_guarded.
  - apply (wp_guarded RetryInfrastructure); [frame_tac|apply barrier_RetryInfrastructure|done].
  - apply (wp_guarded RetryPolicy); [frame_tac|apply barrier_RetryPolicy|done].
  - apply (wp_guarded (RetryTarget target)); [frame_tac|apply barrier_RetryTarget|done].
Qed.

(** A new controller takes its barrier from the database. *)
Lemma NewPersistentController_spec node w c w' :
  NewPersistentController node w = (Ok c, w') →
  calm w w' ∧ quiet_frame w w' ∧ c_nodeID c = node ∧ c_hasStore c = true ∧
  c_recoveryReloadNeeded c = false ∧
  (required (durable node (w_e w)) → lg_pendingProbes (c_ledger c) ≠ ∅).
Proof.
  intros Hn.
  assert (calm w w') as Hc.
  { assert (keeps calm (NewPersistentController node : M E _)) as Hk
      by (unfold NewPersistentController; calm_tac). specialize (Hk w). by rewrite Hn in Hk. }
  assert (quiet_frame w w') as Hf.
  { pose proof (frame_NewPersistentController not_apply (λ _ a, a) node w) as Hf. by rewrite Hn in Hf. }
  split; [done|]. split; [done|].
  unfold NewPersistentController in Hn. destruct (is_empty node); [done|].
  st_step Hn as recovery w1 Hload. st_step Hn as l w2 Hhyd. st_step Hn as observed w3 Hobs.
  apply lift_Ok_inv in Hhyd as [Hhyd ->]. inv_ok.
  destruct (_ && _); [done|]. injection Hn as <- <-.
  assert (recovery = durable node (w_e w)) as ->.
  { apply durable_Load_Ok. unfold st_wrap, LoadReconcileRecovery, call in Hload.
    destruct (env_LoadReconcileRecovery node (w_e w)) as [[r|e] e1]; [|done]. by injection Hload as <- _. }
  destruct (seedObservedClock_ledger (MkController node true false zero_desired ∅ 0 0 ∅ l ∅ false false 0)
    observed) as (Q1 & Q2 & Q3 & Q4).
  cbn [set_startup c_nodeID c_hasStore c_recoveryReloadNeeded c_ledger]. rewrite Q1, Q2, Q3, Q4.
  split_and!; try done. intros. by eapply hydrateRecovery_pending.
Qed.

Lemma reachable_guarded w : reachable w → guarded w.
Proof.
  induction 1 as [e|node e c w Hn|o w _ IH|w c w' _ IH Hs Hn].
  - by split.
  - apply NewPersistentController_spec in Hn as (Hc & Hf & Hnode & Hst & Hr & Hp).
    destruct Hf as [(evs & Ht & Hev) _]. cbn in Ht. rewrite app_nil_r in Ht. split; cbn.
    + rewrite Ht, <- (app_nil_r evs), settled_applies_app; done.
    + unfold reload_ok. by rewrite Hr.
    + rewrite Ht, <- (app_nil_r evs), unsettled_app; done.
  - by apply run_op_guarded.
  - apply NewPersistentController_spec in Hn as (Hc & Hf & Hnode & Hst & Hr & Hp).
    pose proof (quiet_unsettled _ _ Hf) as Hu. destruct IH as [G1 G2 G3].
    split; cbn.
    + destruct Hf as [(evs & -> & Hev) _]. by rewrite settled_applies_app.
    + unfold reload_ok. by rewrite Hr.
    + intros Hu'. destruct (unsettled (w_trace w)) eqn:Hw; [|by rewrite Hu in Hu'].
      destruct (G3 eq_refl) as [[_ Hstored] _]. specialize (Hstored Hs).
      split; [split; [left; by apply Hp|]|unfold reload_ok; cbn; by rewrite Hr].
      intros _. unfold held in *. cbn. rewrite Hnode, (cm_durable _ _ Hc). done.
Qed.

(** C1: No mutation is ever sent while the outcome of an earlier one is open:
    in every system built on the controller, in memory or over a store that
    keeps its promises, whatever the backend answers, whatever other goroutines
    publish meanwhile, through failed commits, commits of unknown outcome and
    restarts, two Apply calls the first of which failed, was unknown or was
    confirmed always have a successful Probe between them. *)
Theorem applies_are_settled w : reachable w → settled_applies (w_trace w) = true.
Proof. intros Hw. apply (gd_settled _ (reachable_guarded w Hw)). Qed.
End safety.
