(* ===== verification/ControllerBudget.v ===== *)
(** * The retry budget of a controller in memory

    Each fence has at most six mutations per retry epoch: the ledger counts an
    attempt before its mutation is sent, a count never falls, an administrator's
    retry opens an epoch that was never used, and no index into the backoff
    table or nil time can be hit. *)

From S2P Require Import Prelude GoStd GoFmt Sha256 Netip Identity CoreModel Enforcement.
From S2P Require Import ObservedState ReconcilePlan Controller ControllerOps ControllerFences.

(** ** Counts *)
Definition attempts (c : Controller) (ref : attemptRef) : Z :=
  match stateForRef c ref with Some s => rs_AttemptCount s | None => 0 end.
Definition valid_ref (ref : attemptRef) : bool := match ref with InvalidRef _ => false | _ => true end.
(** An attempt of the ref has begun. *)
Definition begun (c : Controller) (ref : attemptRef) : Prop := valid_ref ref = true ∧ 1 ≤ attempts c ref.

(** The mutations sent for a ref. *)
Definition applied_for (ref : attemptRef) (ev : event) : bool :=
  match ev with EvApply r _ _ => bool_decide (r = ref) | _ => false end.
Definition applied (trace : list event) (ref : attemptRef) : Z :=
  Z.of_nat (length (List.filter (applied_for ref) trace)).
Definition panicked (trace : list event) : bool :=
  existsb (λ ev, match ev with EvPanic _ => true | _ => false end) trace.

(** ** Epochs: none above the current one of a current fence *)
Definition below_current (c : Controller) (ref : attemptRef) : Prop :=
  match ref with
  | InfrastructureRef k =>
    ik_Revision k = fs_InfrastructureRevision (c_desired c) → ik_Epoch k ≤ c_infrastructureEpoch c
  | PolicyRef k => pk_Revision k = fs_PolicyRevision (c_desired c) → pk_Epoch k ≤ c_policyEpoch c
  | TargetRef k =>
    ∀ i, c_desiredTargets c !! tk_Target k = Some i → tk_Generation k = ti_Generation i →
         tk_Epoch k ≤ target_epoch c (tk_Target k)
  | InvalidRef _ => True
  end.
Definition epoch_ok (c : Controller) (ref : attemptRef) : Prop :=
  retryEpoch ref ≤ max_uint64 ∧ below_current c ref.
(** The current epochs are unsigned 64-bit numbers. *)
Definition epochs_u64 (c : Controller) : Prop :=
  is_u64 (c_infrastructureEpoch c) ∧ is_u64 (c_policyEpoch c) ∧ ∀ t, is_u64 (target_epoch c t).

Record ledger_ok (sent : attemptRef → Z) (c : Controller) : Prop := {
  lk_memory : c_hasStore c = false;
  lk_reload : c_recoveryReloadNeeded c = false;
  lk_sent ref : sent ref ≤ attempts c ref;
  lk_budget ref : 0 ≤ attempts c ref ≤ maxMutationAttempts;
  lk_pending key ref : lg_pendingProbes (c_ledger c) !! key = Some ref → begun c ref;
  lk_epochs ref : stateForRef c ref ≠ None → epoch_ok c ref;
  lk_u64 : epochs_u64 c
}.

(** ** Changes of the controller that keep the ledger in order *)
(** The counts and pending refs are as before, or fewer are pending. *)
Definition same_counts (c c' : Controller) : Prop :=
  c_hasStore c' = c_hasStore c ∧ c_recoveryReloadNeeded c' = c_recoveryReloadNeeded c ∧
  (∀ ref, attempts c' ref = attempts c ref) ∧
  (∀ key ref, lg_pendingProbes (c_ledger c') !! key = Some ref →
     lg_pendingProbes (c_ledger c) !! key = Some ref ∨ begun c ref).
Lemma ledger_ok_same sent c c' :
  ledger_ok sent c → same_counts c c' → (∀ ref, stateForRef c' ref ≠ None → epoch_ok c' ref) →
  epochs_u64 c' → ledger_ok sent c'.
Proof.
  intros [H1 H2 H3 H4 H5 H6 H7] (S1 & S2 & S3 & S4) He Hu. split; try done.
  - by rewrite S1.
  - by rewrite S2.
  - intros ref. by rewrite S3.
  - intros ref. by rewrite S3.
  - intros key ref Hp. unfold begun. rewrite S3. destruct (S4 _ _ Hp) as [Hp'|]; [by eapply H5|done].
Qed.

Lemma begun_state c ref : begun c ref → stateForRef c ref ≠ None.
Proof. unfold begun, attempts. destruct (stateForRef c ref); [done|lia]. Qed.

Lemma attempts_put_state ref s c r :
  attempts (put_state ref s c) r = if decide (r = ref) then rs_AttemptCount s else attempts c r.
Proof.
  unfold attempts, stateForRef. cbn. destruct (decide (r = ref)) as [->|Hne].
  - by rewrite lookup_insert_eq.
  - by rewrite lookup_insert_ne.
Qed.

Lemma put_state_ok sent c ref s :
  ledger_ok sent c → epoch_ok c ref → rs_AttemptCount s = attempts c ref →
  ledger_ok sent (put_state ref s c).
Proof.
  intros Hl He Hs. apply ledger_ok_same with c; [done| | |].
  - split_and!; [done|done| |by left].
    intros r. rewrite attempts_put_state. destruct (decide (r = ref)) as [->|]; done.
  - intros r Hr. assert (epoch_ok c r) as Hc; [|by destruct r].
    unfold stateForRef in Hr. cbn in Hr. destruct (decide (r = ref)) as [->|Hne]; [done|].
    rewrite lookup_insert_ne in Hr by done. by apply (lk_epochs _ _ Hl).
  - apply (lk_u64 _ _ Hl).
Qed.

(** The ledger under a change of pending probes, synthetic refs, confirmed
    targets, the startup flag or the observation clock. *)
Definition ledger_frame (c c' : Controller) : Prop :=
  lg_states (c_ledger c') = lg_states (c_ledger c) ∧ c_desired c' = c_desired c ∧
  c_desiredTargets c' = c_desiredTargets c ∧ c_infrastructureEpoch c' = c_infrastructureEpoch c ∧
  c_policyEpoch c' = c_policyEpoch c ∧ c_targetEpochs c' = c_targetEpochs c ∧
  c_hasStore c' = c_hasStore c ∧ c_recoveryReloadNeeded c' = c_recoveryReloadNeeded c.
Lemma ledger_frame_ok sent c c' :
  ledger_ok sent c → ledger_frame c c' →
  (∀ key ref, lg_pendingProbes (c_ledger c') !! key = Some ref →
     lg_pendingProbes (c_ledger c) !! key = Some ref ∨ begun c ref) →
  ledger_ok sent c'.
Proof.
  intros Hl (F1 & F2 & F3 & F4 & F5 & F6 & F7 & F8) Hp.
  assert (∀ ref, stateForRef c' ref = stateForRef c ref) as Hs by (intros; unfold stateForRef; by rewrite F1).
  apply ledger_ok_same with c; [done| | |].
  - split_and!; try done. intros ref. unfold attempts. by rewrite Hs.
  - intros ref Hr. rewrite Hs in Hr. apply (lk_epochs _ _ Hl) in Hr.
    destruct ref; unfold epoch_ok in *; cbn in *; unfold target_epoch in *;
      rewrite ?F2, ?F3, ?F4, ?F5, ?F6; done.
  - destruct (lk_u64 _ _ Hl) as (U1 & U2 & U3). unfold epochs_u64, target_epoch in *.
    by rewrite F4, F5, F6.
Qed.

(** ** A new desired state: the epochs are recomputed from the ledger *)
Lemma max_epoch_ge epoch_of states ref n :
  states !! ref ≠ (None : option RetryState) → epoch_of ref = Some n → n ≤ max_epoch epoch_of states.
Proof.
  intros Hs He. unfold max_epoch. destruct (states !! ref) as [s|] eqn:Hr; [|done].
  apply elem_of_map_to_list in Hr. revert Hr. generalize (map_to_list states) as l.
  induction l as [|e l IH]; intros Hin; [by apply elem_of_nil in Hin|]. cbn.
  apply elem_of_cons in Hin as [<-|Hin]; [cbn; rewrite He; lia|].
  specialize (IH Hin). destruct (epoch_of e.1); lia.
Qed.

Lemma max_epoch_u64 (epoch_of : attemptRef → option Z) states :
  (∀ ref n, states !! ref ≠ (None : option RetryState) → epoch_of ref = Some n → n ≤ max_uint64) →
  is_u64 (max_epoch epoch_of states).
Proof.
  intros Hall. unfold max_epoch.
  assert (∀ e, e ∈ map_to_list states → ∀ n, epoch_of e.1 = Some n → n ≤ max_uint64) as Hl.
  { intros [ref s] Hin%elem_of_map_to_list n. apply Hall. cbn. by rewrite Hin. }
  revert Hl. generalize (map_to_list states) as l.
  induction l as [|e l IH]; intros Hl; cbn; [unfold is_u64, max_uint64; lia|].
  assert (is_u64 (foldr (λ e acc, match epoch_of e.1 with Some n => n `max` acc | None => acc end) 0 l)) as Hr
    by (apply IH; intros; eapply Hl; [by right|done]).
  destruct (epoch_of e.1) as [n|] eqn:He; [|done]. pose proof (Hl e ltac:(by left) n He).
  unfold is_u64 in *. lia.
Qed.

Lemma activate_epochs c ref :
  stateForRef c ref ≠ None → retryEpoch ref ≤ max_uint64 → epoch_ok (activateHydratedStateLocked c) ref.
Proof.
  intros Hs Hr. split; [done|]. destruct ref as [k|k|k|n]; cbn; [..|done].
  - intros Hk. eapply max_epoch_ge; [exact Hs|]. cbn. by rewrite Hk, Z.eqb_refl.
  - intros Hk. eapply max_epoch_ge; [exact Hs|]. cbn. by rewrite Hk, Z.eqb_refl.
  - intros i Hi Hg. unfold target_epoch. cbn. rewrite lookup_union, map_lookup_imap, Hi. cbn.
    rewrite union_Some_l. cbn. eapply max_epoch_ge; [exact Hs|]. cbn.
    by rewrite bool_decide_eq_true_2, Hg, Z.eqb_refl.
Qed.
Lemma activate_u64 c :
  (∀ ref, stateForRef c ref ≠ None → retryEpoch ref ≤ max_uint64) → epochs_u64 c →
  epochs_u64 (activateHydratedStateLocked c).
Proof.
  intros Hall (U1 & U2 & U3). unfold epochs_u64, target_epoch. cbn.
  split_and!; [apply max_epoch_u64..|].
  - intros ref n Hs. specialize (Hall ref Hs). destruct ref; try done. cbn in *. case_match; [|done].
    by intros [= <-].
  - intros ref n Hs. specialize (Hall ref Hs). destruct ref; try done. cbn in *. case_match; [|done].
    by intros [= <-].
  - intros t. rewrite lookup_union, map_lookup_imap. destruct (c_desiredTargets c !! t) as [i|]; cbn.
    + rewrite union_Some_l. cbn. apply max_epoch_u64.
      intros ref n Hs. specialize (Hall ref Hs). destruct ref; try done. cbn in *. case_match; [|done].
      by intros [= <-].
    + rewrite (left_id_L None (∪)). apply U3.
Qed.

Lemma SetDesired_ok sent s c c' :
  ledger_ok sent c → SetDesiredSnapshotLocked s c = Ok c' →
  ledger_ok sent c' ∧ c_ledger c' = c_ledger c.
Proof.
  unfold SetDesiredSnapshotLocked. intros Hl Hs. inv_ok. destruct a as [d targets]. inv_ok. split; [|done].
  assert (∀ ref, stateForRef c ref ≠ None → retryEpoch ref ≤ max_uint64) as Hr
    by (intros ref Hr; apply (lk_epochs _ _ Hl ref Hr)).
  apply ledger_ok_same with c; [done|by split_and!; auto| |].
  - intros ref Hs'. apply activate_epochs; [done|]. by apply Hr.
  - apply activate_u64; [done|]. apply (lk_u64 _ _ Hl).
Qed.
Lemma publish_ok sent c snapshots :
  ledger_ok sent c → ledger_ok sent (foldl publish c snapshots) ∧
  c_ledger (foldl publish c snapshots) = c_ledger c.
Proof.
  revert c. induction snapshots as [|s l IH]; intros c Hc; cbn; [done|].
  unfold publish at 2 4. destruct (SetDesiredSnapshotLocked s c) as [c'|] eqn:Hs; [|by apply IH].
  apply (SetDesired_ok sent) in Hs as [Hc' Hl]; [|done]. destruct (IH c' Hc') as [? ->]. by rewrite Hl.
Qed.

(** ** Worlds *)
Section budget.
Context {U : Unicode} {E : Type}.
Context `{Clock E, Backend E, CriticalAuditWriter E, PersistentStateStore E, Scheduler E}.
Implicit Types w : world E.

Record orderly w : Prop := {
  or_ledger : ledger_ok (applied (w_trace w)) (w_c w);
  or_panic : panicked (w_trace w) = false
}.
(** A computation keeps the ledger in order and what has begun. *)
Definition steady w w' : Prop :=
  orderly w → orderly w' ∧ ∀ ref, begun (w_c w) ref → begun (w_c w') ref.
#[export] Instance steady_preorder : PreOrder steady.
Proof.
  split; [by intros w Hw|]. intros a b c Hab Hbc Ha. destruct (Hab Ha) as [Hb Mab].
  destruct (Hbc Hb) as [Hc Mbc]. auto.
Qed.

Lemma steady_modify f :
  (∀ sent c, ledger_ok sent c → ledger_ok sent (f c) ∧ ∀ ref, begun c ref → begun (f c) ref) →
  keeps steady (modify_c (E:=E) f).
Proof. intros Hf w [Hl Hp]. destruct (Hf _ _ Hl) as [L B]. split; [by split|exact B]. Qed.
Lemma steady_env w c e : w_c w = c → steady w (MkWorld c e (w_trace w)).
Proof. intros <- [Hl Hp]. split; [by split|done]. Qed.
Lemma steady_ask {A} (f : E → A * E) : keeps steady (ask f).
Proof. intros w. unfold ask. destruct (f (w_e w)). by apply steady_env. Qed.
Lemma steady_range {A} (l : list A) : keeps steady (range l).
Proof. intros w. unfold range. destruct (env_Picks (w_e w)). by apply steady_env. Qed.
Lemma steady_quiet {A} (m : ST E A) : keeps steady (quiet m).
Proof. intros w. unfold quiet. destruct (m (w_e w)). by apply steady_env. Qed.
Lemma steady_get : keeps steady (get_c : M E Controller).
Proof. by apply keeps_gets, _. Qed.
Lemma steady_Now : keeps steady Now.
Proof. apply steady_ask. Qed.
(** Events other than mutations and panics. *)
Definition mild (ev : event) : bool := match ev with EvApply _ _ _ | EvPanic _ => false | _ => true end.
Lemma steady_call {A} ev (m : ST E A) : (∀ r, mild (ev r) = true) → keeps steady (call ev m).
Proof.
  intros Hev w [Hl Hp]. unfold call. destruct (m (w_e w)) as [r e]. cbn. specialize (Hev r).
  split; [|done]. split; cbn.
  - replace (applied (ev r :: w_trace w)) with (applied (w_trace w)); [done|].
    unfold applied. cbn. by destruct (ev r).
  - by destruct (ev r).
Qed.
Lemma steady_Probe : keeps steady Probe.
Proof. by apply steady_call. Qed.
Lemma steady_interleave : keeps steady interleave.
Proof.
  unfold interleave. apply keeps_bind; [apply _|apply steady_ask|]. intros l.
  apply steady_modify. intros sent c Hc. destruct (publish_ok sent c l Hc) as [Hc' Hl]. split; [done|].
  intros ref. unfold begun, attempts, stateForRef. by rewrite Hl.
Qed.
Lemma steady_locked {A} (m : M E A) : keeps steady m → keeps steady (locked m).
Proof. intros Hm. apply keeps_bind; [apply _|apply steady_interleave|done]. Qed.

(** A computation may use that the ledger is in order. *)
Lemma steady_wp {A} (m : M E A) w :
  (orderly w → wp m (λ _ w', orderly w' ∧ ∀ ref, begun (w_c w) ref → begun (w_c w') ref) w) →
  steady w (m w).2.
Proof. done. Qed.
Lemma wp_steady {A} (m : M E A) (Q : result A → world E → Prop) w :
  orderly w → keeps steady m →
  (∀ r w', orderly w' → (∀ ref, begun (w_c w) ref → begun (w_c w') ref) → Q r w') → wp m Q w.
Proof. intros Hw Hm HQ. destruct (Hm w Hw). by apply HQ. Qed.

(** *** Without a store nothing is persisted *)
Section memory.
Context (w : world E) (Hmem : c_hasStore (w_c w) = false).
Lemma mem_persistState ref s up del o : persistStateWithObservedLocked ref s up del o w = (Ok tt, w).
Proof. unfold persistStateWithObservedLocked, get_c. run. by rewrite Hmem. Qed.
Lemma mem_persistApplying ref s key prev : persistApplyingStateLocked ref s key prev w = (Ok tt, w).
Proof. unfold persistApplyingStateLocked, get_c. run. by rewrite Hmem. Qed.
Lemma mem_persistClear ref s key p : persistStateAndClearProbeLocked ref s key p w = (Ok tt, w).
Proof. unfold persistStateAndClearProbeLocked, get_c. run. by rewrite Hmem. Qed.
Lemma mem_clearProbe key p : clearProbeLocked key p w = (Ok tt, w).
Proof. unfold clearProbeLocked, get_c. run. by rewrite Hmem. Qed.
Lemma mem_persistObserved o : persistObservedLocked o w = (Ok tt, w).
Proof. unfold persistObservedLocked, get_c. run. rewrite Hmem. by destruct o. Qed.
Lemma mem_observed sn : observedUpdateForSnapshotLocked sn w = (Ok None, w).
Proof. unfold observedUpdateForSnapshotLocked, get_c. run. by rewrite Hmem. Qed.
Lemma mem_unknown d t code : unknownObservedUpdateLocked d t code w = (Ok None, w).
Proof. unfold unknownObservedUpdateLocked, get_c. run. by rewrite Hmem. Qed.
Lemma mem_allUnknown code : allUnknownObservedUpdateLocked code w = (Ok None, w).
Proof. unfold allUnknownObservedUpdateLocked, get_c. run. by rewrite Hmem. Qed.
End memory.

Lemma wp_pure {A} (m : M E A) (Q : result A → world E → Prop) w a :
  m w = (Ok a, w) → Q (Ok a) w → wp m Q w.
Proof. unfold wp. by intros ->. Qed.
End budget.

Create HintDb steady.
#[export] Hint Resolve steady_ask steady_range steady_quiet steady_get steady_Now steady_Probe
  steady_interleave steady_locked : steady.
Ltac steady_tac := keeps_tac ltac:(solve [eauto 3 with steady nocore]).
(** [mem_tac]: the next persistence call of a wp goal does nothing. *)
Ltac mem_tac :=
  first [ eapply wp_pure; [apply mem_persistState; assumption|]
        | eapply wp_pure; [apply mem_persistApplying; assumption|]
        | eapply wp_pure; [apply mem_persistClear; assumption|]
        | eapply wp_pure; [apply mem_clearProbe; assumption|]
        | eapply wp_pure; [apply mem_persistObserved; assumption|]
        | eapply wp_pure; [apply mem_observed; assumption|]
        | eapply wp_pure; [apply mem_unknown; assumption|]
        | eapply wp_pure; [apply mem_allUnknown; assumption|] ]; cbn [wrap]; wp_tac.

Section steady_operations.
Context {U : Unicode} {E : Type}.
Context `{Clock E, Backend E, CriticalAuditWriter E, PersistentStateStore E, Scheduler E}.
Implicit Types w : world E.
Definition with_c w (c : Controller) : world E := MkWorld c (w_e w) (w_trace w).

Lemma steady_put_state w ref s :
  (orderly w → epoch_ok (w_c w) ref ∧ rs_AttemptCount s = attempts (w_c w) ref) →
  steady w (with_c w (put_state ref s (w_c w))).
Proof.
  intros Hs Hw. destruct (Hs Hw) as [He Hc]. split.
  - split; [|apply Hw]. apply put_state_ok; [apply Hw|done..].
  - intros r [Hv Hb]. split; [done|]. cbn. rewrite attempts_put_state.
    destruct (decide (r = ref)) as [->|]; lia.
Qed.
Lemma steady_frame w c' :
  ledger_frame (w_c w) c' →
  (∀ key ref, lg_pendingProbes (c_ledger c') !! key = Some ref →
     lg_pendingProbes (c_ledger (w_c w)) !! key = Some ref ∨ begun (w_c w) ref) →
  steady w (with_c w c').
Proof.
  intros Hf Hp Hw. split.
  - split; [|apply Hw]. by eapply ledger_frame_ok; [apply Hw|..].
  - intros ref. unfold begun, attempts, stateForRef. cbn. by rewrite (proj1 Hf).
Qed.
Lemma steady_put_pending w key ref :
  begun (w_c w) ref → steady w (with_c w (put_pending key ref (w_c w))).
Proof.
  intros Hb. apply steady_frame; [done|]. intros k r. cbn. destruct (decide (k = key)) as [->|Hne].
  - rewrite lookup_insert_eq. intros [= <-]. by right.
  - rewrite lookup_insert_ne by done. by left.
Qed.
Lemma steady_delete_pending w key : steady w (with_c w (delete_pending key (w_c w))).
Proof. apply steady_frame; [done|]. intros k r. cbn. intros Hk%lookup_delete_Some. left. tauto. Qed.
Lemma steady_plain w c' :
  ledger_frame (w_c w) c' → lg_pendingProbes (c_ledger c') = lg_pendingProbes (c_ledger (w_c w)) →
  steady w (with_c w c').
Proof. intros Hf Hp. apply steady_frame; [done|]. intros k r. rewrite Hp. by left. Qed.

Lemma wp_getState ref (Q : result RetryState → world E → Prop) w :
  valid_ref ref = true → Q (Ok (default zero_retry_state (stateForRef (w_c w) ref))) w → wp (getState ref) Q w.
Proof. by destruct ref. Qed.
Lemma wp_putState ref s (Q : result unit → world E → Prop) w :
  valid_ref ref = true → Q (Ok tt) (with_c w (put_state ref s (w_c w))) → wp (putState ref s) Q w.
Proof. by destruct ref. Qed.
Lemma count_default c ref : rs_AttemptCount (default zero_retry_state (stateForRef c ref)) = attempts c ref.
Proof. unfold attempts. by destruct (stateForRef c ref). Qed.
Lemma count_pending c ref : rs_AttemptCount (default pending_state (stateForRef c ref)) = attempts c ref.
Proof. unfold attempts. by destruct (stateForRef c ref). Qed.
Lemma begun_epoch_ok w ref : orderly w → begun (w_c w) ref → epoch_ok (w_c w) ref.
Proof. intros Hw Hb. apply (lk_epochs _ _ (or_ledger _ Hw)), begun_state, Hb. Qed.
(** The current ref of a plan or key has the current epoch. *)
Lemma attempt_ref_epoch_ok c plan : epochs_u64 c → epoch_ok c (attempt_ref c plan).
Proof.
  intros (U1 & U2 & U3). unfold attempt_ref, epoch_ok. destruct (op_Domain plan); cbn; (split; [|done]).
  - apply U1.
  - apply U2.
  - apply U3.
  - unfold max_uint64. lia.
Qed.
Lemma current_ref_ok c d t ref :
  epochs_u64 c → current_ref c d t = Some ref → epoch_ok c ref ∧ valid_ref ref = true.
Proof.
  intros (U1 & U2 & U3). unfold current_ref, epoch_ok. destruct d; [..|done].
  - intros [= <-]. split; [|done]. split; [apply U1|by cbn].
  - intros [= <-]. split; [|done]. split; [apply U2|by cbn].
  - destruct (c_desiredTargets c !! t); [|done]. intros [= <-]. split; [|done]. split; [apply U3|by cbn].
Qed.
Lemma currentState_ok c key ref s :
  epochs_u64 c → currentStateForPendingKeyLocked c key = Some (ref, s) →
  epoch_ok c ref ∧ valid_ref ref = true ∧ stateForRef c ref = Some s.
Proof.
  intros Hu. unfold currentStateForPendingKeyLocked.
  destruct (current_ref c (pk_domain key) (pk_target key)) as [r|] eqn:Hr; [|done]. cbn.
  destruct (stateForRef c r) as [s'|] eqn:Hs; [|done]. cbn. intros [= <- <-].
  by apply current_ref_ok in Hr as [? ?].
Qed.

Abbreviation steadily m w := (wp m (λ _ w', steady w w') w).

Lemma backoff_in_budget n : 1 ≤ n < maxMutationAttempts → backoff n ≠ None.
Proof.
  unfold maxMutationAttempts. intros Hn.
  assert (n = 1 ∨ n = 2 ∨ n = 3 ∨ n = 4 ∨ n = 5) as [->|[->|[->|[->| ->]]]] by lia; done.
Qed.

Lemma finishFailureLocked_steady ref key code can req w :
  orderly w → begun (w_c w) ref → steadily (finishFailureLocked ref key code can req None) w.
Proof.
  intros Hw Hb. pose proof (lk_memory _ _ (or_ledger _ Hw)) as Hmem.
  unfold finishFailureLocked. wp_tac. apply wp_getState; [apply Hb|]. wp_tac.
  set (s := default zero_retry_state _).
  assert (rs_AttemptCount s = attempts (w_c w) ref) as Hs by apply count_default.
  (* the new state has the old count *)
  apply wp_mono with (P := λ r w1, ∃ s' e1, r = Ok s' ∧ rs_AttemptCount s' = attempts (w_c w) ref ∧
    w1 = MkWorld (w_c w) e1 (w_trace w)).
  { destruct (negb can || (maxMutationAttempts <=? rs_AttemptCount s)) eqn:Hc; wp_tac.
    - exists (with_status s ReconcileDegraded code), (w_e w). by destruct w.
    - gobool. destruct Hc as [_ Hc]. unfold Now, ask, wp. cbn. destruct (env_Now (w_e w)) as [now e1]. cbn.
      destruct (backoff (rs_AttemptCount s)) as [delay|] eqn:Hd.
      + eexists _, e1. by split_and!.
      + exfalso. apply (backoff_in_budget (rs_AttemptCount s)); [|done]. destruct Hb. lia. }
  intros r w1 (s' & e1 & -> & Hs' & ->). wp_tac. mem_tac.
  apply wp_putState; [apply Hb|]. unfold modify_c. wp_tac.
  set (w1 := MkWorld (w_c w) e1 (w_trace w)).
  assert (steady w w1) as S1 by by apply steady_env.
  assert (steady w1 (with_c w1 (put_state ref s' (w_c w1)))) as S2.
  { apply steady_put_state. intros Hw1. split; [|done]. by apply begun_epoch_ok. }
  transitivity w1; [done|]. etransitivity; [exact S2|].
  destruct req; [|apply steady_delete_pending]. apply steady_put_pending.
  apply S2; [|done]. by apply S1.
Qed.

(** A computation after a steady one. *)
Lemma steadily_after {A B} (m : M E A) (f : A → M E B) w :
  orderly w → keeps steady m →
  (∀ a w1, orderly w1 → (∀ ref, begun (w_c w) ref → begun (w_c w1) ref) → steadily (f a) w1) →
  steadily (m ≫= f) w.
Proof.
  intros Hw Hm Hf. apply wp_bind. apply wp_intro. intros r w1 Hr.
  assert (steady w w1) as S by (specialize (Hm w); by rewrite Hr in Hm).
  destruct (S Hw) as [Hw1 Hb]. destruct r as [a|e]; [|done].
  eapply wp_mono; [by apply Hf|]. intros r w2 S2. by transitivity w1.
Qed.
Lemma steadily_locked {A} (m : M E A) w :
  orderly w →
  (∀ w1, orderly w1 → (∀ ref, begun (w_c w) ref → begun (w_c w1) ref) → steadily m w1) →
  steadily (locked m) w.
Proof. intros Hw Hm. apply steadily_after; [done|apply steady_interleave|]. intros _. apply Hm. Qed.

Lemma finishFailure_steady ref key code can w :
  orderly w → begun (w_c w) ref → steadily (finishFailure ref key code can) w.
Proof.
  intros Hw Hb. apply steadily_locked; [done|]. intros w1 Hw1 Hm. apply finishFailureLocked_steady; auto.
Qed.
Lemma finishFailureAndRequireProbe_steady ref key code all w :
  orderly w → begun (w_c w) ref → steadily (finishFailureAndRequireProbeObserved ref key code all) w.
Proof.
  intros Hw Hb. apply steadily_locked; [done|]. intros w1 Hw1 Hm.
  pose proof (lk_memory _ _ (or_ledger _ Hw1)) as Hmem. wp_tac.
  destruct all; mem_tac; apply finishFailureLocked_steady; auto.
Qed.

Lemma finishStaleLocked_steady ref key w :
  orderly w → begun (w_c w) ref → steadily (finishStaleLocked ref key) w.
Proof.
  intros Hw Hb. pose proof (lk_memory _ _ (or_ledger _ Hw)) as Hmem.
  unfold finishStaleLocked, get_c, modify_c. wp_tac. apply wp_getState; [apply Hb|]. wp_tac.
  destruct (match currentStateForPendingKeyLocked _ _ with Some _ => _ | None => _ end) as [sr p].
  wp_tac. apply wp_mono with (P := λ r w1, r = Ok tt ∧ w1 = w).
  { destruct (_ || _); mem_tac; done. }
  intros r w1 [-> ->]. cbn [wrap]. wp_tac. apply wp_putState; [apply Hb|]. wp_tac.
  etransitivity; [|by apply steady_plain].
  apply steady_put_state. intros _. split; [by apply begun_epoch_ok|apply count_default].
Qed.

Lemma steady_confirm_plan plan : keeps steady (confirm_plan plan : M E unit).
Proof. unfold confirm_plan. case_bool_decide; [|by apply keeps_ret, _]. intros w. by apply steady_plain. Qed.
Lemma confirm_plan_Ok plan w : ∃ w', (confirm_plan plan : M E unit) w = (Ok tt, w').
Proof. unfold confirm_plan. case_bool_decide; eauto. Qed.

Lemma finishConvergedLocked_steady ref plan key w :
  orderly w → begun (w_c w) ref → steadily (finishConvergedLocked ref plan key None) w.
Proof.
  intros Hw Hb. pose proof (lk_memory _ _ (or_ledger _ Hw)) as Hmem.
  unfold finishConvergedLocked. wp_tac. apply wp_getState; [apply Hb|]. wp_tac. mem_tac.
  apply wp_putState; [apply Hb|]. eapply wp_keeps; [apply steady_confirm_plan|].
  intros r w' S. etransitivity; [|exact S]. apply steady_put_state. intros _.
  split; [by apply begun_epoch_ok|apply count_default].
Qed.

Lemma finishRecoveredByProbeLocked_steady plan key pendingRef w :
  orderly w → valid_ref (attempt_ref (w_c w) plan) = true →
  steadily (finishRecoveredByProbeLocked plan key pendingRef) w.
Proof.
  intros Hw Hv. pose proof (lk_memory _ _ (or_ledger _ Hw)) as Hmem.
  unfold finishRecoveredByProbeLocked, get_c, attemptStateLocked, modify_c. wp_tac. cbn beta iota zeta. wp_tac.
  mem_tac. apply wp_putState; [done|]. wp_tac.
  eapply wp_keeps; [apply steady_confirm_plan|]. intros r w' S. etransitivity; [|exact S].
  etransitivity; [|by apply steady_plain].
  apply steady_put_state. intros _. split; [eapply attempt_ref_epoch_ok, lk_u64, or_ledger; eassumption|apply count_pending].
Qed.

Lemma finishRecoveredPendingLocked_steady ref key w :
  orderly w → begun (w_c w) ref → steadily (finishRecoveredPendingLocked ref key) w.
Proof.
  intros Hw Hb. pose proof (lk_memory _ _ (or_ledger _ Hw)) as Hmem.
  unfold finishRecoveredPendingLocked, get_c, modify_c. wp_tac.
  apply wp_mono with (P := λ r w1, ∃ sr s, r = Ok (sr, s) ∧ w1 = w ∧ valid_ref sr = true ∧
    epoch_ok (w_c w) sr ∧ rs_AttemptCount s = attempts (w_c w) sr).
  { destruct (currentStateForPendingKeyLocked (w_c w) key) as [[sr s]|] eqn:Hc; wp_tac.
    - apply currentState_ok in Hc as (He & Hv & Hs); [|apply (lk_u64 _ _ (or_ledger _ Hw))]. exists sr, s. split_and!; try done.
      unfold attempts. by rewrite Hs.
    - apply wp_getState; [apply Hb|]. wp_tac. eexists _, _. split_and!; try done; [apply Hb|by apply begun_epoch_ok|].
      apply count_default. }
  intros r w1 (sr & s & -> & -> & Hv & He & Hs). wp_tac. mem_tac. apply wp_putState; [done|]. wp_tac.
  assert (steady w (with_c w (put_state sr (with_status s ReconcileConverged EmptyString) (w_c w)))) as S.
  { by apply steady_put_state. }
  case_bool_decide; wp_tac; (etransitivity; [exact S|]).
  - etransitivity; [|by apply steady_plain]. by apply steady_plain.
  - by apply steady_plain.
Qed.

Lemma steadily_bind {A B} (m : M E A) (f : A → M E B) w :
  orderly w → steadily m w →
  (∀ a w1, orderly w1 → (∀ ref, begun (w_c w) ref → begun (w_c w1) ref) → steadily (f a) w1) →
  steadily (m ≫= f) w.
Proof.
  intros Hw Hm Hf. apply wp_bind. eapply wp_mono; [exact Hm|]. intros r w1 S. cbn beta in S.
  destruct (S Hw) as [Hw1 Hb]. destruct r as [a|e]; [|done].
  eapply wp_mono; [by apply Hf|]. intros r w2 S2. by transitivity w1.
Qed.
Lemma steadily_try {A} (m : M E A) w : steadily m w → steadily (st_try m) w.
Proof. intros Hm. by apply wp_try. Qed.
Lemma steadily_wrap {A} msg (m : M E A) w : steadily m w → steadily (st_wrap msg m) w.
Proof. intros Hm. by apply wp_wrap. Qed.
Lemma steadily_keeps {A} (m : M E A) w : keeps steady m → steadily m w.
Proof. intros Hm. apply Hm. Qed.
Lemma steadily_modify f w : steady w (with_c w (f (w_c w))) → steadily (modify_c f) w.
Proof. done. Qed.

Lemma steadily_pending_fail {A} key ref e w :
  orderly w → begun (w_c w) ref → steadily (modify_c (put_pending key ref);; st_fail e : M E A) w.
Proof. intros Hw Hb. unfold modify_c. wp_tac. by apply steady_put_pending. Qed.

Lemma commitConfirmed_steady ref plan snapshot key w :
  orderly w → begun (w_c w) ref → steadily (commitConfirmed ref plan snapshot key) w.
Proof.
  intros Hw0 Hb0. unfold commitConfirmed. apply steadily_locked; [done|]. intros w1 Hw Hm.
  pose proof (Hm _ Hb0) as Hb. clear Hw0 Hb0 Hm w.
  pose proof (lk_memory _ _ (or_ledger _ Hw)) as Hmem. wp_tac. mem_tac. unfold get_c. wp_tac.
  break_if; [|break_if].
  - apply steadily_bind; [done| |].
    + apply steadily_try, steadily_bind; [done|apply steadily_wrap; by mem_tac|].
      intros _ w2 Hw2 Hm. apply finishStaleLocked_steady; auto.
    + intros r w2 Hw2 Hm. destruct r; [by wp_tac|]. apply steadily_pending_fail; auto.
  - by apply finishFailureLocked_steady.
  - apply steadily_bind; [done|by apply steadily_try, finishConvergedLocked_steady|].
    intros r w2 Hw2 Hm. destruct r; [apply steadily_modify, steady_delete_pending|].
    apply steadily_bind; [done| |].
    + apply steadily_try. unfold reloadSupersededTargetCompletionLocked, get_c. wp_tac.
      by rewrite (lk_memory _ _ (or_ledger _ Hw2)).
    + intros r w3 Hw3 Hm3. destruct r as [[]|]; [by wp_tac|apply steadily_pending_fail; auto..].
Qed.

Lemma markInvalidPlan_steady plan w : orderly w → steadily (markInvalidPlan plan) w.
Proof.
  intros Hw0. unfold markInvalidPlan. apply steadily_locked; [done|]. intros w1 Hw _. clear Hw0 w.
  pose proof (lk_memory _ _ (or_ledger _ Hw)) as Hmem.
  unfold get_c, attemptStateLocked, persistStateLocked. wp_tac. destruct (c_hasDesired (w_c w1)); cbn [negb]; wp_tac; [|done].
  pose proof (attempt_ref_epoch_ok (w_c w1) plan (lk_u64 _ _ (or_ledger _ Hw))) as He.
  destruct (attempt_ref (w_c w1) plan) eqn:Hr; wp_tac; [..|done]; cbn beta iota zeta; wp_tac; mem_tac;
    (apply wp_putState; [done|]); apply steady_put_state; intros _; split; try done; apply count_default.
Qed.

Lemma startup_one_steady snapshot resolved key unresolved w :
  orderly w → steadily (startup_one snapshot resolved key unresolved) w.
Proof.
  intros Hw. pose proof (lk_memory _ _ (or_ledger _ Hw)) as Hmem.
  unfold startup_one, get_c, persistStateLocked, currentAttemptRefForKeyLocked. wp_tac.
  break_if; wp_tac; [done|]. break_if; wp_tac; [done|].
  destruct (current_ref _ _ _) as [ref|] eqn:Hc; wp_tac; [|done].
  apply current_ref_ok in Hc as [He Hv]; [|apply (lk_u64 _ _ (or_ledger _ Hw))]. apply wp_getState; [done|]. wp_tac. mem_tac.
  apply wp_putState; [done|]. wp_tac.
  set (w2 := with_c w _). assert (steady w w2) as S.
  { apply steady_put_state. intros _. split; [done|apply count_default]. }
  destruct ref; unfold modify_c; wp_tac; try done.
  etransitivity; [exact S|]. by apply steady_plain.
Qed.

(** *** Loops over the pending probes *)
Lemma fold_steady {A B} (f : (A * attemptRef) → B → M E B) l acc w :
  orderly w → Forall (λ e, begun (w_c w) e.2) l →
  (∀ e acc w1, orderly w1 → begun (w_c w1) e.2 → steadily (f e acc) w1) →
  steadily (st_fold f l acc) w.
Proof.
  intros Hw Hl Hf. revert acc w Hw Hl. induction l as [|e l IH]; intros acc w Hw Hl; cbn; [by wp_tac|].
  apply Forall_cons in Hl as [He Hl]. apply steadily_bind; [done|by apply Hf|].
  intros acc' w1 Hw1 Hm. apply IH; [done|]. eapply Forall_impl; [exact Hl|]. intros x. apply Hm.
Qed.
Lemma pending_fold_steady {B} (f : (pendingProbeKey * attemptRef) → B → M E B) acc w :
  orderly w → (∀ e acc w1, orderly w1 → begun (w_c w1) e.2 → steadily (f e acc) w1) →
  steadily (c ← get_c; entries ← range (map_to_list (lg_pendingProbes (c_ledger c)));
            st_fold f entries acc) w.
Proof.
  intros Hw Hf. unfold get_c. wp_tac. unfold range. apply wp_intro. intros r w1 Hr. cbn in Hr.
  destruct (env_Picks (w_e w)) as [picks e1]. injection Hr as <- <-.
  assert (steady w (MkWorld (w_c w) e1 (w_trace w))) as S by by apply steady_env.
  eapply wp_mono; [apply fold_steady; [by apply S| |exact Hf]|].
  - apply Forall_forall. intros [key ref] Hin. rewrite shuffle_perm in Hin.
    apply elem_of_map_to_list in Hin. by apply (lk_pending _ _ (or_ledger _ Hw)) in Hin.
  - intros r w2 S2. etransitivity; [exact S|exact S2].
Qed.

Lemma steadily_then_delete {B} (m : M E unit) key (b : B) w :
  orderly w → steadily m w → steadily (m;; modify_c (delete_pending key);; mret b) w.
Proof.
  intros Hw Hm. apply steadily_bind; [done..|]. intros _ w1 Hw1 _.
  unfold modify_c. wp_tac. apply steady_delete_pending.
Qed.
Lemma valid_attempt_ref c plan : valid_ref (attempt_ref c plan) = ValidDomain (op_Domain plan).
Proof. unfold attempt_ref. by destruct (op_Domain plan). Qed.

Lemma resolve_one_steady snapshot key plan e b w :
  ValidDomain (op_Domain plan) = true → orderly w → begun (w_c w) e.2 →
  steadily (resolve_one snapshot key plan e b) w.
Proof.
  intros Hd Hw Hb. destruct e as [k ref]. cbn in Hb. unfold resolve_one, get_c. wp_tac.
  break_if; [by apply steadily_then_delete, finishStaleLocked_steady|].
  break_if; [by wp_tac|]. break_if; apply steadily_then_delete; try done.
  - apply finishRecoveredByProbeLocked_steady; [done|]. by rewrite valid_attempt_ref.
  - by apply finishRecoveredPendingLocked_steady.
Qed.
Lemma recover_one_steady snapshot e acc w :
  orderly w → begun (w_c w) e.2 → steadily (recover_one snapshot e acc) w.
Proof.
  intros Hw Hb. destruct e as [k ref], acc as [[resolved count] unresolved]. cbn in Hb.
  unfold recover_one, get_c. wp_tac.
  break_if; [by apply steadily_then_delete, finishStaleLocked_steady|].
  break_if; [by wp_tac|]. by apply steadily_then_delete, finishRecoveredPendingLocked_steady.
Qed.
Lemma resolvePending_steady snapshot key plan w :
  ValidDomain (op_Domain plan) = true → orderly w →
  steadily (resolvePendingProbesLocked snapshot key plan) w.
Proof. intros Hd Hw. apply pending_fold_steady; [done|]. intros. by apply resolve_one_steady. Qed.
Lemma recover_pending_steady snapshot w : orderly w → steadily (recover_pending snapshot) w.
Proof. intros Hw. apply pending_fold_steady; [done|]. intros. by apply recover_one_steady. Qed.

(** *** Beginning an attempt *)
(** The ledger counts one attempt of the ref that has not been sent. *)
Definition ready (ref : attemptRef) w : Prop :=
  orderly w ∧ begun (w_c w) ref ∧ applied (w_trace w) ref < attempts (w_c w) ref.
Definition begins w (r : result attemptRef) w' : Prop :=
  steady w w' ∧ match r with Ok ref => ready ref w' | Err _ => True end.

Lemma steady_fenceLocked plan : keeps steady (targetExpirationFenceLocked plan : M E unit).
Proof. unfold targetExpirationFenceLocked. steady_tac. Qed.

Lemma begin_put_state w ref s :
  orderly w → epoch_ok (w_c w) ref → rs_AttemptCount s = attempts (w_c w) ref + 1 →
  attempts (w_c w) ref < maxMutationAttempts → valid_ref ref = true →
  let w' := with_c w (put_state ref s (w_c w)) in steady w w' ∧ ready ref w'.
Proof.
  intros Hw He Hs Hlt Hv w'. set (c' := put_state ref s (w_c w)) in *.
  pose proof (or_ledger _ Hw) as Hl.
  assert (∀ r, attempts c' r = if decide (r = ref) then attempts (w_c w) ref + 1 else attempts (w_c w) r) as Ha.
  { intros r. unfold c'. rewrite attempts_put_state, Hs. done. }
  assert (∀ r, begun (w_c w) r → begun c' r) as Hm.
  { intros r [Hvr Hb]. split; [done|]. rewrite Ha. destruct (decide (r = ref)) as [->|]; lia. }
  assert (orderly w') as Hw'.
  { split; [|apply Hw]. split; cbn.
    - apply Hl.
    - apply Hl.
    - intros r. pose proof (lk_sent _ _ Hl r). change (applied (w_trace w) r ≤ attempts c' r). rewrite Ha.
      destruct (decide (r = ref)) as [->|]; lia.
    - intros r. pose proof (lk_budget _ _ Hl r). change (0 ≤ attempts c' r ≤ maxMutationAttempts). rewrite Ha.
      destruct (decide (r = ref)) as [->|]; lia.
    - intros k r Hk. apply Hm. by apply (lk_pending _ _ Hl) in Hk.
    - intros r Hr. assert (epoch_ok (w_c w) r) as Hc; [|by destruct r].
      unfold stateForRef in Hr. cbn in Hr. destruct (decide (r = ref)) as [->|Hne]; [done|].
      rewrite lookup_insert_ne in Hr by done. by apply (lk_epochs _ _ Hl).
    - apply (lk_u64 _ _ Hl). }
  split; [by intros _|]. split; [done|].
  pose proof (lk_sent _ _ Hl ref). pose proof (lk_budget _ _ Hl ref).
  assert (attempts c' ref = attempts (w_c w) ref + 1) as Hr by (rewrite Ha; by rewrite decide_True).
  split; [split; [done|]|]; change (attempts (w_c w') ref) with (attempts c' ref); rewrite Hr; [lia|].
  change (w_trace w') with (w_trace w). lia.
Qed.

Lemma ready_frame ref w c' :
  ready ref w → steady w (with_c w c') → attempts c' ref = attempts (w_c w) ref → ready ref (with_c w c').
Proof.
  intros (Hw & Hb & Ha) S He. destruct (S Hw) as [Hw' Hm]. split; [done|]. split; [by apply Hm|].
  cbn. by rewrite He.
Qed.

Lemma begins_after {A} (m : M E A) (f : A → M E attemptRef) w :
  orderly w → keeps steady m → (∀ a w1, orderly w1 → wp (f a) (begins w1) w1) → wp (m ≫= f) (begins w) w.
Proof.
  intros Hw Hm Hf. apply wp_bind. apply wp_intro. intros r w1 Hr.
  assert (steady w w1) as S by (specialize (Hm w); by rewrite Hr in Hm).
  destruct (S Hw) as [Hw1 _]. destruct r as [a|e]; [|by split].
  eapply wp_mono; [by apply Hf|]. intros r w2 [S2 Hr2]. split; [by transitivity w1|done].
Qed.

Lemma beginAttemptLocked_begins plan w :
  ValidDomain (op_Domain plan) = true → orderly w → wp (beginAttemptLocked plan) (begins w) w.
Proof.
  intros Hd Hw0. unfold beginAttemptLocked. apply begins_after; [done|apply steady_fenceLocked|].
  intros _ w1 Hw1. clear Hw0 w. unfold get_c, attemptStateLocked. wp_tac. cbn beta iota zeta. wp_tac.
  unfold Now, ask. apply wp_intro. intros r w2 Hr. cbn in Hr. destruct (env_Now (w_e w1)) as [now e2].
  injection Hr as <- <-. wp_tac.
  set (w2 := MkWorld (w_c w1) e2 (w_trace w1)) in *.
  assert (steady w1 w2) as S1 by by apply steady_env. destruct (S1 Hw1) as [Hw2 _].
  set (ref := attempt_ref (w_c w1) plan) in *.
  assert (rs_AttemptCount (default pending_state (stateForRef (w_c w1) ref)) = attempts (w_c w2) ref) as Hc
    by apply count_pending.
  rewrite !Hc. break_if; wp_tac; [by split|]. break_if; wp_tac; [by split|].
  pose proof (lk_memory _ _ (or_ledger _ Hw2)) as Hmem. mem_tac.
  assert (valid_ref ref = true) as Hv by by rewrite <- Hd, <- (valid_attempt_ref (w_c w1)).
  apply wp_putState; [done|]. unfold modify_c. wp_tac. gobool.
  set (s := MkRetryState ReconcileApplying _ _ _ _).
  destruct (begin_put_state w2 ref s) as [S2 Hr2]; try done; [eapply attempt_ref_epoch_ok, lk_u64, or_ledger; eassumption|lia|].
  set (w3 := with_c w2 (put_state ref s (w_c w2))) in *.
  set (key := pendingProbeKeyForPlan plan).
  assert (steady w3 (with_c w3 (put_pending key ref (w_c w3)))) as S3 by apply steady_put_pending, Hr2.
  assert (ready ref (with_c w3 (put_pending key ref (w_c w3)))) as Hr3 by by apply ready_frame.
  assert (steady w1 (with_c w3 (put_pending key ref (w_c w3)))) as S.
  { etransitivity; [exact S1|]. etransitivity; [exact S2|exact S3]. }
  destruct (lg_pendingProbes (c_ledger (w_c w1)) !! key); wp_tac; [|by split].
  set (w4 := with_c w3 _) in *.
  assert (steady w4 (with_c w4 (delete_synthetic a (w_c w4)))) as S4 by by apply steady_plain.
  split; [etransitivity; [exact S|exact S4]|]. by apply ready_frame.
Qed.

Lemma planMatches_domain c plan : planMatchesCurrentDesiredLocked c plan = true → ValidDomain (op_Domain plan) = true.
Proof. unfold planMatchesCurrentDesiredLocked. destruct (op_Domain plan); try done. by rewrite andb_false_r. Qed.

Lemma beginAttempt_begins plan w : orderly w → wp (beginAttempt plan) (begins w) w.
Proof.
  intros Hw. unfold beginAttempt. apply begins_after; [done|apply steady_interleave|]. intros _ w1 Hw1.
  unfold get_c. wp_tac. break_if; wp_tac; [by split|]. gobool.
  apply beginAttemptLocked_begins; [by eapply planMatches_domain|done].
Qed.

Definition begins_opt w (r : result (option attemptRef)) w' : Prop :=
  steady w w' ∧ match r with Ok (Some ref) => ready ref w' | _ => True end.
Lemma begins_opt_after {A} (m : M E A) (f : A → M E (option attemptRef)) w :
  orderly w → steadily m w → (∀ a w1, orderly w1 → wp (f a) (begins_opt w1) w1) →
  wp (m ≫= f) (begins_opt w) w.
Proof.
  intros Hw Hm Hf. apply wp_bind. eapply wp_mono; [exact Hm|]. intros r w1 S. cbn beta in S.
  destruct (S Hw) as [Hw1 _]. destruct r as [a|e]; [|by split].
  eapply wp_mono; [by apply Hf|]. intros r w2 [S2 Hr2]. split; [by transitivity w1|done].
Qed.

Lemma observed_steady sn w : orderly w → steadily (observedUpdateForSnapshotLocked sn) w.
Proof. intros Hw. pose proof (lk_memory _ _ (or_ledger _ Hw)) as Hmem. by mem_tac. Qed.
Lemma persistObserved_steady o w : orderly w → steadily (persistObservedLocked o) w.
Proof. intros Hw. pose proof (lk_memory _ _ (or_ledger _ Hw)) as Hmem. by mem_tac. Qed.

Lemma beginAfterRequiredProbe_begins plan snapshot key w :
  orderly w → wp (beginAfterRequiredProbe plan snapshot key) (begins_opt w) w.
Proof.
  intros Hw. unfold beginAfterRequiredProbe. apply begins_opt_after; [done|apply steadily_keeps, steady_interleave|].
  intros _ w1 Hw1. unfold get_c. wp_tac. break_if; [wp_tac; by split|]. gobool. apply planMatches_domain in Heqb.
  apply begins_opt_after; [done|apply steadily_keeps, steady_fenceLocked|]. intros _ w2 Hw2.
  apply begins_opt_after; [done|by apply observed_steady|]. intros o w2' Hw2'.
  apply begins_opt_after; [done|by apply steadily_wrap, persistObserved_steady|]. intros _ w2'' Hw2''.
  apply begins_opt_after; [done|by apply resolvePending_steady|]. intros [] w3 Hw3; wp_tac; [by split|].
  eapply wp_mono; [by apply beginAttemptLocked_begins|]. intros [ref|e] w4 [S4 Hr4]; wp_tac; by split.
Qed.

Lemma steady_startup b : keeps steady (modify_c (E:=E) (λ c, set_startup c b)).
Proof. intros w. by apply steady_plain. Qed.

Lemma beginAfterStartupProbe_begins plan snapshot w :
  orderly w → wp (beginAfterStartupProbe plan snapshot) (begins_opt w) w.
Proof.
  intros Hw. unfold beginAfterStartupProbe. apply begins_opt_after; [done|apply steadily_keeps, steady_interleave|].
  intros _ w1 Hw1. unfold get_c. wp_tac. break_if; [wp_tac; by split|]. gobool. apply planMatches_domain in Heqb.
  apply begins_opt_after; [done|apply steadily_keeps, steady_fenceLocked|]. intros _ w2 Hw2.
  pose proof (lk_memory _ _ (or_ledger _ Hw2)) as Hmem. wp_tac. mem_tac. mem_tac.
  unfold attemptStateLocked, persistStateLocked. break_if; cbn beta iota zeta; wp_tac.
  - eapply wp_mono; [by apply beginAttemptLocked_begins|]. intros [ref|e] w4 [S4 Hr4]; unfold modify_c; wp_tac; [|by split].
    assert (steady w4 (with_c w4 (set_startup (w_c w4) false))) as S5 by by apply steady_plain.
    split; [etransitivity; [exact S4|exact S5]|]. by apply ready_frame.
  - mem_tac. apply wp_putState; [by rewrite valid_attempt_ref|]. unfold modify_c. wp_tac.
    eapply wp_mono; [apply (wp_keeps steady); [apply steady_confirm_plan|intros r w6 S6; exact S6]|].
    intros r w6 S6. assert (steady w2 w6) as S.
    { etransitivity; [apply steady_put_state|etransitivity; [|exact S6]; by apply steady_plain].
      intros _. split; [eapply attempt_ref_epoch_ok, lk_u64, or_ledger; eassumption|apply count_pending]. }
    destruct r; wp_tac; by split.
Qed.

(** *** Executing a plan *)
Lemma reload_steady w : orderly w → steadily reloadRecoveryIfNeeded w.
Proof.
  intros Hw. apply steadily_locked; [done|]. intros w1 Hw1 _. unfold get_c. wp_tac.
  by rewrite (lk_reload _ _ (or_ledger _ Hw1)).
Qed.
Lemma recordAllUnknown_steady code w : orderly w → steadily (recordAllUnknownObserved code) w.
Proof.
  intros Hw. apply steadily_locked; [done|]. intros w1 Hw1 _.
  pose proof (lk_memory _ _ (or_ledger _ Hw1)) as Hmem. wp_tac. mem_tac. by mem_tac.
Qed.
Lemma probe_or_record_steady operation w : orderly w → steadily (probe_or_record operation) w.
Proof.
  intros Hw. apply steadily_bind; [done|apply steadily_try, steadily_keeps, steady_Probe|].
  intros [s|e] w1 Hw1 _; [by wp_tac|].
  apply steadily_bind; [done|by apply steadily_try, recordAllUnknown_steady|]. by intros; wp_tac.
Qed.
Lemma steady_hasPending : keeps steady (hasPendingProbes : M E bool).
Proof. unfold hasPendingProbes. steady_tac. Qed.
Lemma steady_requiresStartup : keeps steady (requiresStartupProbe : M E bool).
Proof. unfold requiresStartupProbe. steady_tac. Qed.

Definition begins_plan w (r : result (option (attemptRef * OperationPlan))) w' : Prop :=
  steady w w' ∧ match r with Ok (Some (ref, _)) => ready ref w' | _ => True end.
Lemma begins_plan_after {A} (m : M E A) (f : A → M E (option (attemptRef * OperationPlan))) w :
  orderly w → steadily m w → (∀ a w1, orderly w1 → wp (f a) (begins_plan w1) w1) →
  wp (m ≫= f) (begins_plan w) w.
Proof.
  intros Hw Hm Hf. apply wp_bind. eapply wp_mono; [exact Hm|]. intros r w1 S. cbn beta in S.
  destruct (S Hw) as [Hw1 _]. destruct r as [a|e]; [|by split].
  eapply wp_mono; [by apply Hf|]. intros r w2 [S2 Hr2]. split; [by transitivity w1|done].
Qed.
Lemma begins_plan_opt (m : M E (option attemptRef)) (plan : OperationPlan) w :
  wp m (begins_opt w) w →
  wp (attempt ← m; mret ((λ ref, (ref, plan)) <$> attempt)) (begins_plan w) w.
Proof.
  intros Hm. wp_tac. eapply wp_mono; [exact Hm|]. intros [[ref|]|e] w1 [S Hr]; wp_tac; by split.
Qed.

Lemma begin_execution_begins plan w : orderly w → wp (begin_execution plan) (begins_plan w) w.
Proof.
  intros Hw. unfold begin_execution.
  apply begins_plan_after; [done|apply steadily_keeps, steady_hasPending|]. intros pending w1 Hw1.
  destruct pending.
  - apply begins_plan_after; [done|by apply probe_or_record_steady|]. intros sn w2 Hw2.
    by apply begins_plan_opt, beginAfterRequiredProbe_begins.
  - apply begins_plan_after; [done|apply steadily_keeps, steady_requiresStartup|]. intros startup w2 Hw2.
    destruct startup.
    + apply begins_plan_after; [done|by apply probe_or_record_steady|]. intros sn w3 Hw3.
      by apply begins_plan_opt, beginAfterStartupProbe_begins.
    + apply begins_plan_after; [done| |].
      * destruct env_RequiresFreshBasis; [|by wp_tac].
        apply steadily_bind; [done|by apply probe_or_record_steady|]. by intros; wp_tac.
      * intros plan' w3 Hw3. wp_tac. eapply wp_mono; [by apply beginAttempt_begins|].
        intros [ref|e] w4 [S Hr]; wp_tac; by split.
Qed.

(** Publishing snapshots and reading the clock leave the ledger as it is. *)
Definition hushed w w' : Prop :=
  steady w w' ∧ c_ledger (w_c w') = c_ledger (w_c w) ∧ w_trace w' = w_trace w.
#[export] Instance hushed_preorder : PreOrder hushed.
Proof.
  split; [by intros w; split|]. intros a b c (S1 & L1 & T1) (S2 & L2 & T2).
  split; [by transitivity b|]. by rewrite L2, T2.
Qed.
Lemma hushed_ask {A} (f : E → A * E) : keeps hushed (ask f).
Proof. intros w. split; [apply steady_ask|]. unfold ask. by destruct (f (w_e w)). Qed.
Lemma hushed_get : keeps hushed (get_c : M E Controller).
Proof. by apply keeps_gets, _. Qed.
Lemma publish_ledger c snapshots : c_ledger (foldl publish c snapshots) = c_ledger c.
Proof.
  revert c. induction snapshots as [|s l IH]; intros c; cbn; [done|]. rewrite IH. unfold publish.
  destruct (SetDesiredSnapshotLocked s c) as [c'|] eqn:Hs; [|done].
  unfold SetDesiredSnapshotLocked in Hs. inv_ok. destruct a as [d targets]. by inv_ok.
Qed.
Lemma hushed_fence plan : keeps hushed (targetExpirationFence plan : M E unit).
Proof.
  unfold targetExpirationFence, locked, targetExpirationFenceLocked. apply keeps_bind; [apply _| |intros _].
  - intros w. split; [apply steady_interleave|]. unfold interleave, ask, modify_c, mbind, st_bind.
    destruct (env_Published (w_e w)). cbn. split; [apply publish_ledger|done].
  - keeps_tac ltac:(solve [apply hushed_get | apply hushed_ask]).
Qed.
Lemma hushed_ready ref w w' : ready ref w → hushed w w' → ready ref w'.
Proof.
  intros (Hw & Hb & Ha) (S & L & T). destruct (S Hw) as [Hw' Hm]. split; [done|]. split; [by apply Hm|].
  rewrite T. unfold attempts, stateForRef in *. by rewrite L.
Qed.

(** The mutation that was counted is sent. *)
Lemma Apply_steady ref plan w : ready ref w →
  wp (Apply ref plan) (λ _ w', steady w w') w.
Proof.
  intros (Hw & Hb & Ha). apply wp_intro. intros r w' Hr. unfold Apply, call in Hr.
  destruct (env_Apply plan (w_e w)) as [r' e']. injection Hr as <- <-. intros _.
  pose proof (or_ledger _ Hw) as Hl. split; [|done].
  split; [|apply Hw]. split; try apply Hl. intros x. cbn -[applied].
  unfold applied in *. cbn [List.filter applied_for]. pose proof (lk_sent _ _ Hl x) as Hx. unfold applied in Hx.
  case_bool_decide as He; [subst x; cbn [length]; lia|done].
Qed.

Lemma steadily_try_ret {A B} (m : M E A) (f : result A → B) w :
  orderly w → steadily m w → steadily (r ← st_try m; mret (f r)) w.
Proof. intros Hw Hm. apply steadily_bind; [done|by apply steadily_try|]. by intros; wp_tac. Qed.

Lemma apply_attempt_steady ref plan key w : ready ref w → steadily (apply_attempt ref plan key) w.
Proof.
  intros Hr. unfold apply_attempt. wp_tac. eapply wp_keeps; [apply hushed_fence|]. intros f w1 Hf.
  pose proof (hushed_ready _ _ _ Hr Hf) as Hr1. destruct Hf as [S1 _].
  pose proof Hr1 as (Hw1 & Hb1 & _).
  apply wp_mono with (P := λ _ w', steady w1 w'); [|intros r w' S; by transitivity w1].
  destruct f as [[]|e]; cbn beta iota zeta.
  2: { by apply steadily_try_ret, finishFailure_steady. }
  apply steadily_bind; [done|by apply steadily_try, Apply_steady|]. intros applied w2 Hw2 Hm2.
  pose proof (Hm2 _ Hb1) as Hb2.
  destruct applied as [value|e]; [|by apply steadily_try_ret, finishFailureAndRequireProbe_steady].
  destruct (ap_Kind value).
  - apply steadily_bind; [done|apply steadily_try, steadily_keeps, steady_Probe|].
    intros [sn|e] w3 Hw3 Hm3; pose proof (Hm3 _ Hb2) as Hb3.
    + by apply steadily_try_ret, commitConfirmed_steady.
    + by apply steadily_try_ret, finishFailureAndRequireProbe_steady.
  - by apply steadily_try_ret, finishFailure_steady.
  - by apply steadily_try_ret, finishFailureAndRequireProbe_steady.
  - by apply steadily_try_ret, finishFailure_steady.
Qed.

Lemma Execute_steady plan w : orderly w → steadily (Execute plan) w.
Proof.
  intros Hw. unfold Execute. apply steadily_bind; [done|by apply steadily_try, reload_steady|].
  intros [[]|e] w1 Hw1 _; [|by wp_tac].
  destruct (ValidatePlan plan); [|by apply steadily_try_ret, markInvalidPlan_steady].
  wp_tac. eapply wp_keeps; [apply hushed_fence|]. intros [[]|e] w2 [S2 _]; wp_tac; [|done].
  destruct (S2 Hw1) as [Hw2 _].
  eapply wp_mono; [by apply begin_execution_begins|].
  intros [[[ref plan']|]|e] w3 [S3 Hr3]; wp_tac; try by transitivity w2.
  eapply wp_mono; [by apply apply_attempt_steady|]. intros r w4 S4.
  etransitivity; [exact S2|]. etransitivity; [exact S3|exact S4].
Qed.

(** *** Administrator retries *)
Lemma next_epoch previous :
  is_u64 previous → wrap64 (previous + 1) ≠ 0 →
  wrap64 (previous + 1) = previous + 1 ∧ is_u64 (previous + 1).
Proof.
  unfold is_u64, wrap64, max_uint64. intros Hp Hn. destruct (decide (previous = 2 ^ 64 - 1)) as [->|Hne]; [done|].
  rewrite Z.mod_small by lia. lia.
Qed.

Lemma steady_raise w i p t :
  c_infrastructureEpoch (w_c w) ≤ i → c_policyEpoch (w_c w) ≤ p →
  (∀ x, target_epoch (w_c w) x ≤ default 0 (t !! x)) →
  epochs_u64 (set_epochs (w_c w) i p t) → steady w (with_c w (set_epochs (w_c w) i p t)).
Proof.
  intros Hi Hp Ht Hu Hw. pose proof (or_ledger _ Hw) as Hl. split; [|done].
  split; [|apply Hw]. apply ledger_ok_same with (w_c w); [done|by split_and!; auto| |done].
  intros ref Hr. destruct (lk_epochs _ _ Hl ref Hr) as [Hm Hb]. split; [done|].
  destruct ref as [k|k|k|n]; cbn in *; [..|done].
  - intros Hk. specialize (Hb Hk). lia.
  - intros Hk. specialize (Hb Hk). lia.
  - intros i' Hi' Hg. specialize (Hb i' Hi' Hg). specialize (Ht (tk_Target k)). unfold target_epoch at 1. cbn. lia.
Qed.

Lemma attempts_fresh w ref :
  orderly w → ¬ below_current (w_c w) ref → attempts (w_c w) ref = 0.
Proof.
  intros Hw Hn. unfold attempts. destruct (stateForRef (w_c w) ref) eqn:Hs; [|done].
  exfalso. apply Hn, (lk_epochs _ _ (or_ledger _ Hw)). by rewrite Hs.
Qed.

(** A retry ref above the current epochs, and the epochs raised to it. *)
Lemma open_epoch w ref i p t :
  orderly w → ¬ below_current (w_c w) ref →
  c_infrastructureEpoch (w_c w) ≤ i → c_policyEpoch (w_c w) ≤ p →
  (∀ x, target_epoch (w_c w) x ≤ default 0 (t !! x)) →
  epochs_u64 (set_epochs (w_c w) i p t) → epoch_ok (set_epochs (w_c w) i p t) ref →
  steady w (with_c w (put_state ref pending_state
    (set_epochs (markPendingRefsSupersededLocked ref (w_c w)) i p t))).
Proof.
  intros Hw Hn Hi Hp Ht Hu He. pose proof (attempts_fresh _ _ Hw Hn) as Ha.
  set (w1 := with_c w (markPendingRefsSupersededLocked ref (w_c w))).
  assert (steady w w1) as S1 by by apply steady_plain.
  set (w2 := with_c w1 (set_epochs (w_c w1) i p t)).
  assert (steady w1 w2) as S2 by by apply steady_raise.
  assert (steady w2 (with_c w2 (put_state ref pending_state (w_c w2)))) as S3.
  { apply steady_put_state. intros _. split; [|symmetry; exact Ha]. destruct He as [He1 He2]. split; [done|].
    by destruct ref. }
  etransitivity; [exact S1|]. etransitivity; [exact S2|exact S3].
Qed.

Lemma persistRetry_steady ref s previous w : orderly w →
  wp (persistRetryLocked ref s previous) (λ _ w', steady w w' ∧ w_c w' = w_c w) w.
Proof.
  intros Hw. unfold persistRetryLocked, persistedState, get_c. wp_tac.
  unfold Now, ask. apply wp_intro. intros r w1 Hr. cbn in Hr. destruct (env_Now (w_e w)) as [now e1].
  injection Hr as <- <-. wp_tac. cbn [w_c].
  rewrite (lk_memory _ _ (or_ledger _ Hw)). cbn [negb].
  apply wp_mono with (P := λ _ w', steady (MkWorld (w_c w) e1 (w_trace w)) w' ∧ w_c w' = w_c w).
  - split; [by apply steady_call|]. unfold call. by destruct (env_AppendCriticalAudit _ _).
  - intros r w' [S Hc]. split; [|done]. transitivity (MkWorld (w_c w) e1 (w_trace w)); [by apply steady_env|exact S].
Qed.

Lemma retry_steady {K} (key : K) msg ref previous f w :
  orderly w → (∀ w1, orderly w1 → w_c w1 = w_c w → steady w1 (with_c w1 (put_state ref pending_state
    (f (markPendingRefsSupersededLocked ref (w_c w1)))))) →
  steadily (st_wrap msg (persistRetryLocked ref pending_state previous);;
            modify_c (markPendingRefsSupersededLocked ref);; modify_c f;;
            modify_c (put_state ref pending_state);; mret key) w.
Proof.
  intros Hw Hf. unfold modify_c. wp_tac. eapply wp_mono; [by apply persistRetry_steady|].
  intros [[]|e] w1 [S Hc]; cbn [wrap]; wp_tac; [|done].
  etransitivity; [exact S|]. apply Hf; [by apply S|done].
Qed.

Lemma RetryInfrastructure_steady w : orderly w → steadily RetryInfrastructure w.
Proof.
  intros Hw. unfold RetryInfrastructure. apply steadily_bind; [done|by apply reload_steady|]. intros _ w1 Hw1 _.
  apply steadily_locked; [done|]. intros w2 Hw2 _. unfold get_c. wp_tac.
  break_if; [by wp_tac|]. cbn zeta. break_if; [by wp_tac|]. gobool.
  destruct (lk_u64 _ _ (or_ledger _ Hw2)) as (U1 & U2 & U3).
  destruct (next_epoch _ U1 Heqb0) as [-> Hn].
  apply retry_steady; [done|]. intros w3 Hw3 Hc.
  apply (open_epoch w3 _ _ (c_policyEpoch (w_c w3)) (c_targetEpochs (w_c w3))); try done;
    rewrite Hc; try (cbn; lia); [|split; [apply Hn|cbn; lia]].
  split_and!; try done.
Qed.
Lemma RetryPolicy_steady w : orderly w → steadily RetryPolicy w.
Proof.
  intros Hw. unfold RetryPolicy. apply steadily_bind; [done|by apply reload_steady|]. intros _ w1 Hw1 _.
  apply steadily_locked; [done|]. intros w2 Hw2 _. unfold get_c. wp_tac.
  break_if; [by wp_tac|]. cbn zeta. break_if; [by wp_tac|]. gobool.
  destruct (lk_u64 _ _ (or_ledger _ Hw2)) as (U1 & U2 & U3).
  destruct (next_epoch _ U2 Heqb0) as [-> Hn].
  apply retry_steady; [done|]. intros w3 Hw3 Hc.
  apply (open_epoch w3 _ (c_infrastructureEpoch (w_c w3)) _ (c_targetEpochs (w_c w3))); try done;
    rewrite Hc; try (cbn; lia); [|split; [apply Hn|cbn; lia]].
  split_and!; try done.
Qed.
Lemma RetryTarget_steady target w : orderly w → steadily (RetryTarget target) w.
Proof.
  intros Hw. unfold RetryTarget. apply steadily_bind; [done|by apply reload_steady|]. intros _ w1 Hw1 _.
  apply steadily_locked; [done|]. intros w2 Hw2 _. unfold get_c. wp_tac.
  destruct (c_desiredTargets (w_c w2) !! target) as [i|] eqn:Hi; [|by wp_tac]. cbn zeta.
  break_if; [by wp_tac|]. gobool.
  destruct (lk_u64 _ _ (or_ledger _ Hw2)) as (U1 & U2 & U3).
  destruct (next_epoch _ (U3 target) Heqb) as [-> Hn].
  apply retry_steady; [done|]. intros w3 Hw3 Hc.
  assert (∀ x, default 0 (<[target := target_epoch (w_c w2) target + 1]> (c_targetEpochs (w_c w2)) !! x)
    = if decide (x = target) then target_epoch (w_c w2) target + 1 else target_epoch (w_c w2) x) as Ht.
  { intros x. destruct (decide (x = target)) as [->|Hne]; [by rewrite lookup_insert_eq|].
    by rewrite lookup_insert_ne. }
  apply (open_epoch w3 _ (c_infrastructureEpoch (w_c w3)) (c_policyEpoch (w_c w3))
    (<[target := target_epoch (w_c w2) target + 1]> (c_targetEpochs (w_c w3)))); try done; rewrite Hc.
  - cbn. intros Hb. specialize (Hb i Hi eq_refl). lia.
  - intros x. rewrite Ht. destruct (decide (x = target)) as [->|]; lia.
  - split_and!; try done. intros x. unfold target_epoch at 1. cbn. rewrite Ht.
    destruct (decide (x = target)); [done|apply U3].
  - split; [apply Hn|]. cbn. intros i' _ _. unfold target_epoch at 2. cbn. rewrite Ht.
    by rewrite decide_True.
Qed.

(** *** Recovery probes *)
Lemma recovery_probe_steady operation w : orderly w → steadily (recovery_probe operation) w.
Proof.
  intros Hw. apply steadily_bind; [done|apply steadily_try, steadily_keeps, steady_Probe|].
  intros [s|e] w1 Hw1 _; [by wp_tac|].
  apply steadily_bind; [done|by apply steadily_try, recordAllUnknown_steady|].
  by intros [] w2 Hw2 _; wp_tac.
Qed.
Lemma probeRecovery_steady timeout w : orderly w → steadily (probeRecovery timeout) w.
Proof.
  intros Hw. unfold probeRecovery. break_if; [by wp_tac|].
  apply steadily_bind; [done|by apply reload_steady|]. intros _ w1 Hw1 _.
  apply steadily_bind; [done|by apply recovery_probe_steady|]. intros [sn|early] w2 Hw2 _; [|by wp_tac].
  apply steadily_locked; [done|]. intros w3 Hw3 _. unfold get_c. wp_tac. break_if; [by wp_tac|].
  apply steadily_bind; [done|by apply observed_steady|]. intros o w4 Hw4 _.
  apply steadily_bind; [done|by apply steadily_wrap, persistObserved_steady|]. intros _ w5 Hw5 _.
  apply steadily_bind; [done|by apply recover_pending_steady|]. intros [[? ?] ?] w6 Hw6 _. by wp_tac.
Qed.
Lemma startup_fold_steady snapshot resolved keys acc w :
  orderly w → steadily (st_fold (startup_one snapshot resolved) keys acc) w.
Proof.
  intros Hw. revert acc w Hw. induction keys as [|k keys IH]; intros acc w Hw; cbn; [by wp_tac|].
  apply steadily_bind; [done|by apply startup_one_steady|]. intros acc' w1 Hw1 _. by apply IH.
Qed.
Lemma probeStartupRecovery_steady keys timeout w : orderly w → steadily (probeStartupRecovery keys timeout) w.
Proof.
  intros Hw. unfold probeStartupRecovery. break_if; [by wp_tac|].
  apply steadily_bind; [done|by apply reload_steady|]. intros _ w1 Hw1 _.
  apply steadily_bind; [done|by apply recovery_probe_steady|]. intros [sn|early] w2 Hw2 _; [|by wp_tac].
  apply steadily_locked; [done|]. intros w3 Hw3 _. unfold get_c. wp_tac. break_if.
  { apply steadily_bind; [done|apply steadily_keeps, steady_startup|]. by intros; wp_tac. }
  apply steadily_bind; [done|by apply observed_steady|]. intros o w4 Hw4 _.
  apply steadily_bind; [done|by apply steadily_wrap, persistObserved_steady|]. intros _ w5 Hw5 _.
  apply steadily_bind; [done|by apply recover_pending_steady|]. intros [[? ?] ?] w6 Hw6 _.
  apply steadily_bind; [done|by apply startup_fold_steady|]. intros u w7 Hw7 _.
  apply steadily_bind; [done|apply steadily_keeps, steady_startup|]. by intros; wp_tac.
Qed.

Lemma SetDesired_steady snapshot w : orderly w → steadily (SetDesiredSnapshot snapshot) w.
Proof.
  intros Hw. unfold SetDesiredSnapshot. apply steadily_bind; [done|apply steadily_keeps, steady_interleave|].
  intros _ w1 Hw1 _. unfold get_c, modify_c. wp_tac.
  destruct (SetDesiredSnapshotLocked snapshot (w_c w1)) as [c'|] eqn:Hs; wp_tac; [|done].
  apply (SetDesired_ok (applied (w_trace w1))) in Hs as [Hc Hl]; [|apply Hw1].
  intros _. split; [split; [done|apply Hw1]|]. intros ref.
  unfold begun, attempts, stateForRef. cbn. by rewrite Hl.
Qed.

Lemma run_op_orderly o w : orderly w → orderly (run_op o w).
Proof.
  intros Hw. destruct o; cbn [run_op].
  - by apply (Execute_steady plan w Hw).
  - by apply (SetDesired_steady snapshot w Hw).
  - by apply (probeRecovery_steady timeout w Hw).
  - by apply (probeStartupRecovery_steady keys timeout w Hw).
  - by apply (RetryInfrastructure_steady w Hw).
  - by apply (RetryPolicy_steady w Hw).
  - by apply (RetryTarget_steady target w Hw).
Qed.
Lemma run_ops_orderly ops w : orderly w → orderly (run_ops ops w).
Proof.
  unfold run_ops. revert w. induction ops as [|o ops IH]; intros w Hw; cbn; [done|].
  by apply IH, run_op_orderly.
Qed.
Lemma new_orderly (e : E) : orderly (MkWorld NewController e []).
Proof. split; [|done]. split; try done. Qed.

(** C3: A controller in memory never spends more than its budget and never
    panics: whatever the operations, the backend's answers, the clock and the
    interleaved publications, at most six mutations are sent for one revision,
    policy revision or target generation within one retry epoch. *)
Theorem mutation_budget (ops : list operation) (e : E) ref :
  let w := run_ops ops (MkWorld NewController e []) in
  applied (w_trace w) ref ≤ maxMutationAttempts ∧ panicked (w_trace w) = false.
Proof.
  intros w. destruct (run_ops_orderly ops _ (new_orderly e)) as [Hl Hp]. fold w in Hl, Hp. split; [|done].
  pose proof (lk_sent _ _ Hl ref). pose proof (lk_budget _ _ Hl ref). lia.
Qed.
End steady_operations.
