(* ===== verification/ControllerConfirm.v ===== *)
(** * Confirmed targets were seen in the firewall

    A target is confirmed for a generation only on the evidence of a probe: in
    every reachable state, memory or store, a confirmed generation is the current
    desired one and some probe of the run returned a snapshot that matches it. *)

From S2P Require Import Prelude GoStd GoFmt Sha256 Netip Identity CoreModel Enforcement.
From S2P Require Import ObservedState ReconcilePlan Controller ControllerOps ControllerFences.
From S2P Require Import ControllerBarrier ControllerSafety.

Definition same_intents (c c' : Controller) : Prop :=
  c_hasDesired c' = c_hasDesired c ∧ c_desired c' = c_desired c ∧ c_desiredTargets c' = c_desiredTargets c.

(** What the matching of a snapshot looks at. *)
Lemma snapshotMatches_same c c' sn d t :
  same_intents c c' →
  snapshotMatchesCurrentDesiredLocked c' sn d t = snapshotMatchesCurrentDesiredLocked c sn d t.
Proof. intros (H1 & H2 & H3). unfold snapshotMatchesCurrentDesiredLocked. by rewrite H1, H2, H3. Qed.

Section confirm.
Context {U : Unicode} {E : Type}.
Context `{Clock E, Backend E, CriticalAuditWriter E, PersistentStateStore E, Scheduler E}.
Implicit Types w : world E.

(** Generation [g] of [t] is desired, and a probe of the run showed it. *)
Definition shown w (t : Prefix) (g : Z) : Prop :=
  (∃ sn, EvProbe (Ok sn) ∈ w_trace w ∧
         snapshotMatchesCurrentDesiredLocked (w_c w) sn DomainTarget t = true) ∧
  (∃ i, c_desiredTargets (w_c w) !! t = Some i ∧ ti_Generation i = g).
Definition backed w : Prop := ∀ t g, ConfirmedTarget (w_c w) t = Some g → shown w t g.

(** Under the lock: the desired state stays, the trace grows. *)
Record kept w w' : Prop := {
  kp_intents : same_intents (w_c w) (w_c w');
  kp_trace : ∃ evs, w_trace w' = evs ++ w_trace w;
  kp_backed : backed w → backed w'
}.
#[export] Instance kept_preorder : PreOrder kept.
Proof.
  split.
  - intros w. split; [done|by exists []|done].
  - intros a b c [(A1 & A2 & A3) [e1 T1] B1] [(A4 & A5 & A6) [e2 T2] B2]. split; [|..|auto].
    + split_and!; congruence.
    + exists (e2 ++ e1). by rewrite T2, T1, app_assoc.
Qed.
Definition backed_le w w' : Prop := backed w → backed w'.
#[export] Instance backed_le_preorder : PreOrder backed_le.
Proof. unfold backed_le. split; red; auto. Qed.

Lemma shown_kept w w' t g :
  same_intents (w_c w) (w_c w') → (∃ evs, w_trace w' = evs ++ w_trace w) → shown w t g → shown w' t g.
Proof.
  intros Hs [evs Ht] [(sn & Hsn & Hm) Hi]. split.
  - exists sn. rewrite Ht, (snapshotMatches_same _ _ _ _ _ Hs). split; [|done]. apply elem_of_app. by right.
  - by rewrite (proj2 (proj2 Hs)).
Qed.
(** A change that keeps the desired state and forgets confirmations or keeps them. *)
Lemma kept_intro w w' :
  same_intents (w_c w) (w_c w') → (∃ evs, w_trace w' = evs ++ w_trace w) →
  c_confirmedTargets (w_c w') = c_confirmedTargets (w_c w) ∨ c_confirmedTargets (w_c w') = ∅ → kept w w'.
Proof.
  intros Hs Ht Hc. split; [done..|]. intros Hb t g. unfold ConfirmedTarget.
  destruct Hc as [-> | ->]; [|by rewrite lookup_empty]. intros Hg. by eapply shown_kept, Hb.
Qed.

Lemma kept_modify f :
  (∀ c, same_intents c (f c) ∧
        (c_confirmedTargets (f c) = c_confirmedTargets c ∨ c_confirmedTargets (f c) = ∅)) →
  keeps kept (modify_c (E:=E) f).
Proof. intros Hf. apply keeps_modify. intros w. destruct (Hf (w_c w)). apply kept_intro; [done|by exists []|done]. Qed.
Lemma kept_ask {A} (f : E → A * E) : keeps kept (ask f).
Proof. intros w. unfold ask. destruct (f (w_e w)). apply kept_intro; [done|by exists []|by left]. Qed.
Lemma kept_range {A} (l : list A) : keeps kept (range l).
Proof. intros w. unfold range. destruct (env_Picks _). apply kept_intro; [done|by exists []|by left]. Qed.
Lemma kept_quiet {A} (m : ST E A) : keeps kept (quiet m).
Proof. intros w. unfold quiet. destruct (m (w_e w)). apply kept_intro; [done|by exists []|by left]. Qed.
Lemma kept_call {A} ev (m : ST E A) : keeps kept (call ev m).
Proof. intros w. unfold call. destruct (m (w_e w)) as [r e]. apply kept_intro; [done|by exists [ev r]|by left]. Qed.
Lemma kept_get : keeps kept (get_c : M E Controller).
Proof. by apply keeps_gets, _. Qed.
Lemma kept_panic {A} msg : keeps kept (panic msg : M E A).
Proof. intros w. apply kept_intro; [done|by exists [EvPanic msg]|by left]. Qed.
Lemma kept_adopt r : keeps kept (adoptRecoveryLocked r : M E unit).
Proof.
  intros w. unfold adoptRecoveryLocked, get_c. run.
  destruct (replaceRecoveryLocked (w_c w) r) as [c'|e] eqn:Hr; run; [|reflexivity].
  pose proof (replaceRecoveryLocked_same _ _ _ Hr) as (H1' & H2' & H3' & _).
  apply kept_intro; [done|by exists []|]. unfold replaceRecoveryLocked in Hr. inv_ok.
  cbn. destruct (c_hasDesired (w_c w)); subst; auto.
Qed.

Lemma publish_backed c e tr snapshots :
  backed (MkWorld c e tr) → backed (MkWorld (foldl publish c snapshots) e tr).
Proof.
  revert c. induction snapshots as [|s l IH]; intros c Hb; cbn; [done|]. apply IH. unfold publish.
  destruct (SetDesiredSnapshotLocked s c) as [c'|] eqn:Hs; [|done].
  unfold SetDesiredSnapshotLocked in Hs. inv_ok. destruct a as [d targets]. inv_ok.
  intros t g. unfold ConfirmedTarget. cbn. by rewrite lookup_empty.
Qed.
Lemma backed_interleave : keeps backed_le interleave.
Proof.
  intros w Hb. unfold interleave, ask, modify_c, mbind, st_bind.
  destruct (env_Published (w_e w)) as [l e]. cbn. apply publish_backed. by destruct w.
Qed.
Lemma kept_backed {A} (m : M E A) : keeps kept m → keeps backed_le m.
Proof. intros Hm w. exact (kp_backed _ _ (Hm w)). Qed.
Lemma backed_locked {A} (m : M E A) : keeps backed_le m → keeps backed_le (locked m).
Proof. intros Hm. apply keeps_bind; [apply _|apply backed_interleave|done]. Qed.
End confirm.

Create HintDb kept.
#[export] Hint Resolve kept_ask kept_range kept_quiet kept_call kept_get kept_panic kept_adopt : kept.
#[export] Hint Extern 2 (keeps kept (modify_c _)) =>
  apply kept_modify; intros; split; [solve [done]|solve [left; done]] : kept.
Ltac kept_tac := keeps_tac ltac:(solve [eauto 3 with kept nocore]).

Section kept_operations.
Context {U : Unicode} {E : Type}.
Context `{Clock E, Backend E, CriticalAuditWriter E, PersistentStateStore E, Scheduler E}.
Abbreviation keeps_kept m := (keeps (kept (E:=E)) m).

Lemma kept_getState ref : keeps_kept (getState ref).
Proof. unfold getState. kept_tac. Qed.
Lemma kept_putState ref s : keeps_kept (putState ref s).
Proof. unfold putState. kept_tac. Qed.
Lemma kept_persistedState ref s : keeps_kept (persistedState ref s).
Proof. unfold persistedState, Now. kept_tac. Qed.
Lemma kept_persistedProbe k r n : keeps_kept (persistedProbe k r n).
Proof. unfold persistedProbe, Now. kept_tac. Qed.
Local Hint Resolve kept_getState kept_putState kept_persistedState kept_persistedProbe : kept.
Lemma kept_persist_probe k r n : keeps_kept (persist_probe k r n).
Proof. unfold persist_probe. kept_tac. Qed.
Lemma kept_nextObservedAt : keeps_kept nextObservedAtLocked.
Proof. unfold nextObservedAtLocked, Now. kept_tac. Qed.
Local Hint Resolve kept_persist_probe kept_nextObservedAt : kept.
Lemma kept_observedUpdate sn : keeps_kept (observedUpdateForSnapshotLocked sn).
Proof. unfold observedUpdateForSnapshotLocked. kept_tac. Qed.
Lemma kept_unknownObserved d t code : keeps_kept (unknownObservedUpdateLocked d t code).
Proof. unfold unknownObservedUpdateLocked. kept_tac. Qed.
Lemma kept_allUnknownObserved code : keeps_kept (allUnknownObservedUpdateLocked code).
Proof. unfold allUnknownObservedUpdateLocked. kept_tac. Qed.
Lemma kept_persistObserved u : keeps_kept (persistObservedLocked u).
Proof.
  unfold persistObservedLocked, ApplyObservedFirewallUpdate, LoadObservedFirewallSnapshot. kept_tac.
Qed.
Lemma kept_read_back t e : keeps_kept (read_back t e).
Proof.
  unfold read_back, LoadReconcileRecovery, LoadObservedFirewallSnapshot, modify_reload. kept_tac.
Qed.
Local Hint Resolve kept_observedUpdate kept_unknownObserved kept_allUnknownObserved kept_persistObserved
  kept_read_back : kept.
Lemma kept_applyTransition t : keeps_kept (applyTransitionLocked t).
Proof. unfold applyTransitionLocked, modify_reload. kept_tac. Qed.
Local Hint Resolve kept_applyTransition : kept.
Lemma kept_persistApplying r s k p : keeps_kept (persistApplyingStateLocked r s k p).
Proof. unfold persistApplyingStateLocked. kept_tac. Qed.
Lemma kept_persistState r s u d o : keeps_kept (persistStateWithObservedLocked r s u d o).
Proof. unfold persistStateWithObservedLocked. kept_tac. Qed.
Lemma kept_persistClear r s k p : keeps_kept (persistStateAndClearProbeLocked r s k p).
Proof. unfold persistStateAndClearProbeLocked. kept_tac. Qed.
Lemma kept_clearProbe k r : keeps_kept (clearProbeLocked k r).
Proof. unfold clearProbeLocked. kept_tac. Qed.
Local Hint Resolve kept_persistApplying kept_persistState kept_persistClear kept_clearProbe : kept.
Lemma kept_put_pending k r : keeps_kept (modify_c (put_pending k r)).
Proof. kept_tac. Qed.
Lemma kept_finishFailureLocked r k c b b' o : keeps_kept (finishFailureLocked r k c b b' o).
Proof. unfold finishFailureLocked, Now. destruct b'; kept_tac. Qed.
Lemma kept_finishStale r k : keeps_kept (finishStaleLocked r k).
Proof. unfold finishStaleLocked. kept_tac. Qed.
Lemma kept_reloadSuperseded p e : keeps_kept (reloadSupersededTargetCompletionLocked p e).
Proof. unfold reloadSupersededTargetCompletionLocked, LoadReconcileRecovery. kept_tac. Qed.
Lemma kept_fenceLocked p : keeps_kept (targetExpirationFenceLocked p).
Proof. unfold targetExpirationFenceLocked, Now. kept_tac. Qed.
Local Hint Resolve kept_finishFailureLocked kept_finishStale kept_reloadSuperseded kept_fenceLocked : kept.
Lemma kept_beginAttemptLocked p : keeps_kept (beginAttemptLocked p).
Proof. unfold beginAttemptLocked, Now. kept_tac. Qed.
Lemma kept_persistRetry r s n : keeps_kept (persistRetryLocked r s n).
Proof. unfold persistRetryLocked, modify_reload. kept_tac. Qed.
End kept_operations.
#[export] Hint Resolve kept_getState kept_putState kept_persistedState kept_persistedProbe
  kept_persist_probe kept_nextObservedAt kept_observedUpdate kept_unknownObserved kept_allUnknownObserved
  kept_persistObserved kept_read_back kept_applyTransition kept_persistApplying kept_persistState
  kept_persistClear kept_clearProbe kept_finishFailureLocked kept_finishStale kept_reloadSuperseded
  kept_fenceLocked kept_beginAttemptLocked kept_persistRetry : kept.

Section evidence.
Context {U : Unicode} {E : Type}.
Context `{Clock E, Backend E, CriticalAuditWriter E, PersistentStateStore E, Scheduler E}.
Implicit Types w : world E.
Abbreviation keptly m w := (wp m (λ _ w', kept w w') w).

Lemma keptly_bind {A B} (m : M E A) (f : A → M E B) w :
  keptly m w → (∀ a w1, kept w w1 → keptly (f a) w1) → keptly (m ≫= f) w.
Proof.
  intros Hm Hf. apply wp_bind. eapply wp_mono; [exact Hm|]. intros [a|e] w1 K1; [|done].
  eapply wp_mono; [by apply Hf|]. intros r w2 K2. by transitivity w1.
Qed.
Lemma keptly_keeps {A} (m : M E A) w : keeps kept m → keptly m w.
Proof. intros Hm. apply Hm. Qed.
Lemma keptly_wrap {A} msg (m : M E A) w : keptly m w → keptly (st_wrap msg m) w.
Proof. intros Hm. by apply wp_wrap. Qed.
Lemma keptly_try {A} (m : M E A) w : keptly m w → keptly (st_try m) w.
Proof. intros Hm. by apply wp_try. Qed.

Lemma kept_shown w w' t g : kept w w' → shown w t g → shown w' t g.
Proof. intros [Hs Ht _]. by apply shown_kept. Qed.
Lemma keptly_confirm t g w : shown w t g → keptly (modify_c (confirm_target t g)) w.
Proof.
  intros Hg. split; [done|by exists []|]. intros Hb t' g'. unfold ConfirmedTarget. cbn.
  destruct (decide (t' = t)) as [->|Hne].
  - rewrite lookup_insert_eq. intros [= <-]. exact Hg.
  - rewrite lookup_insert_ne by done. apply Hb.
Qed.

(** A snapshot of the run that matches a plan or a pending key is evidence. *)
Lemma plan_shown w plan sn :
  EvProbe (Ok sn) ∈ w_trace w → planMatchesCurrentDesiredLocked (w_c w) plan = true →
  snapshotMatchesCurrentDesiredLocked (w_c w) sn (op_Domain plan) (op_Target plan) = true →
  op_Domain plan = DomainTarget → shown w (op_Target plan) (op_ExpectedTargetGeneration plan).
Proof.
  intros Hsn Hp Hm Hd. rewrite Hd in Hm. split; [eauto|].
  unfold planMatchesCurrentDesiredLocked in Hp. rewrite Hd in Hp.
  destruct (c_desiredTargets (w_c w) !! op_Target plan) as [i|]; gobool; [|naive_solver].
  exists i. split; [done|]. naive_solver.
Qed.
Lemma key_shown w key sn :
  EvProbe (Ok sn) ∈ w_trace w → pendingKeyMatchesCurrentDesiredLocked (w_c w) key = true →
  snapshotMatchesCurrentDesiredLocked (w_c w) sn (pk_domain key) (pk_target key) = true →
  pk_domain key = DomainTarget → shown w (pk_target key) (pk_targetGeneration key).
Proof.
  intros Hsn Hp Hm Hd. rewrite Hd in Hm. split; [eauto|].
  unfold pendingKeyMatchesCurrentDesiredLocked in Hp. rewrite Hd in Hp.
  destruct (c_desiredTargets (w_c w) !! pk_target key) as [i|]; gobool; [|done]. by exists i.
Qed.

Lemma confirm_plan_kept plan w :
  (op_Domain plan = DomainTarget → shown w (op_Target plan) (op_ExpectedTargetGeneration plan)) →
  keptly (confirm_plan plan) w.
Proof.
  intros Hg. unfold confirm_plan. case_bool_decide as Hd; [|by wp_tac]. by apply keptly_confirm, Hg.
Qed.
Lemma finishConverged_kept ref plan key o w :
  (op_Domain plan = DomainTarget → shown w (op_Target plan) (op_ExpectedTargetGeneration plan)) →
  keptly (finishConvergedLocked ref plan key o) w.
Proof.
  intros Hg. unfold finishConvergedLocked. apply keptly_bind; [apply keptly_keeps; kept_tac|]. intros s w1 K1.
  apply keptly_bind; [apply keptly_keeps; kept_tac|]. intros _ w2 K2.
  apply keptly_bind; [apply keptly_keeps; kept_tac|]. intros _ w3 K3.
  apply confirm_plan_kept. intros Hd. by apply (kept_shown w2), (kept_shown w1), (kept_shown w), Hg.
Qed.
Lemma finishRecoveredByProbe_kept plan key ref w :
  (op_Domain plan = DomainTarget → shown w (op_Target plan) (op_ExpectedTargetGeneration plan)) →
  keptly (finishRecoveredByProbeLocked plan key ref) w.
Proof.
  intros Hg. unfold finishRecoveredByProbeLocked. apply keptly_bind; [apply keptly_keeps; kept_tac|].
  intros c w1 K1. destruct (attemptStateLocked c plan) as [r found]. cbn beta iota zeta.
  apply keptly_bind; [apply keptly_keeps; kept_tac|]. intros _ w2 K2.
  apply keptly_bind; [apply keptly_keeps; kept_tac|]. intros _ w3 K3.
  apply keptly_bind; [apply keptly_keeps; kept_tac|]. intros _ w4 K4.
  apply confirm_plan_kept. intros Hd.
  by apply (kept_shown w3), (kept_shown w2), (kept_shown w1), (kept_shown w), Hg.
Qed.
Lemma finishRecoveredPending_kept ref key w :
  (pk_domain key = DomainTarget → shown w (pk_target key) (pk_targetGeneration key)) →
  keptly (finishRecoveredPendingLocked ref key) w.
Proof.
  intros Hg. unfold finishRecoveredPendingLocked. apply keptly_bind; [apply keptly_keeps; kept_tac|].
  intros c w1 K1. apply keptly_bind; [apply keptly_keeps; kept_tac|]. intros [sr s] w2 K2.
  apply keptly_bind; [apply keptly_keeps; kept_tac|]. intros _ w3 K3.
  apply keptly_bind; [apply keptly_keeps; kept_tac|]. intros _ w4 K4.
  apply keptly_bind; [apply keptly_keeps; kept_tac|]. intros _ w5 K5.
  case_bool_decide as Hd; [|by wp_tac]. apply keptly_confirm.
  by apply (kept_shown w4), (kept_shown w3), (kept_shown w2), (kept_shown w1), (kept_shown w), Hg.
Qed.

(** *** Loops *)
Lemma fold_kept {A B} (f : A → B → M E B) l acc w (P : world E → Prop) :
  (∀ w1 w2, kept w1 w2 → P w1 → P w2) → P w →
  (∀ a b w1, P w1 → keptly (f a b) w1) → keptly (st_fold f l acc) w.
Proof.
  intros HP Hw Hf. revert acc w Hw. induction l as [|a l IH]; intros acc w Hw; cbn; [by wp_tac|].
  apply keptly_bind; [by apply Hf|]. intros b w1 K1. apply IH. by eapply HP.
Qed.
Definition probed (sn : Snapshot) w : Prop := EvProbe (Ok sn) ∈ w_trace w.
Lemma kept_probed sn w w' : kept w w' → probed sn w → probed sn w'.
Proof. intros [_ [evs Ht] _] Hp. unfold probed. rewrite Ht. apply elem_of_app. by right. Qed.

Lemma kept_delete_pending {B} key (b : B) w : keptly (modify_c (delete_pending key);; mret b) w.
Proof. apply keptly_keeps. kept_tac. Qed.

(** The plan of an attempt stays the same along a loop. *)
Lemma kept_planMatches w w' plan :
  kept w w' → planMatchesCurrentDesiredLocked (w_c w') plan = planMatchesCurrentDesiredLocked (w_c w) plan.
Proof. intros [(H1' & H2' & H3') _ _]. unfold planMatchesCurrentDesiredLocked. by rewrite H1', H2', H3'. Qed.

Lemma resolve_one_kept sn key plan e b w :
  probed sn w → planMatchesCurrentDesiredLocked (w_c w) plan = true → key = pendingProbeKeyForPlan plan →
  keptly (resolve_one sn key plan e b) w.
Proof.
  intros Hsn Hp ->. destruct e as [k ref]. unfold resolve_one, get_c. wp_tac.
  break_if; [apply keptly_bind; [apply keptly_keeps; kept_tac|]; intros; apply kept_delete_pending|].
  break_if; [by wp_tac|]. gobool. break_if; (apply keptly_bind; [|intros; apply kept_delete_pending]).
  - gobool. subst k. apply finishRecoveredByProbe_kept. by apply plan_shown with sn.
  - apply finishRecoveredPending_kept. by apply key_shown with sn.
Qed.
Lemma resolvePending_kept sn key plan w :
  probed sn w → planMatchesCurrentDesiredLocked (w_c w) plan = true → key = pendingProbeKeyForPlan plan →
  keptly (resolvePendingProbesLocked sn key plan) w.
Proof.
  intros Hsn Hp Hk. unfold resolvePendingProbesLocked, get_c. wp_tac.
  eapply wp_keeps; [apply kept_range|]. intros [l|e] w1 K1; [|done].
  eapply wp_mono; [|intros r w2 K2; transitivity w1; [exact K1|exact K2]].
  apply fold_kept with (P := λ w, probed sn w ∧ planMatchesCurrentDesiredLocked (w_c w) plan = true).
  - intros w2 w3 K [H1' H2']. split; [by eapply kept_probed|]. by rewrite (kept_planMatches _ _ _ K).
  - split; [by eapply kept_probed|]. by rewrite (kept_planMatches _ _ _ K1).
  - intros a b w2 [H1' H2']. by apply resolve_one_kept.
Qed.
Lemma recover_one_kept sn e acc w : probed sn w → keptly (recover_one sn e acc) w.
Proof.
  intros Hsn. destruct e as [k ref], acc as [[resolved count] unresolved]. unfold recover_one, get_c. wp_tac.
  break_if; [apply keptly_bind; [apply keptly_keeps; kept_tac|]; intros; apply kept_delete_pending|].
  break_if; [by wp_tac|]. gobool. apply keptly_bind; [|intros; apply kept_delete_pending].
  apply finishRecoveredPending_kept. by apply key_shown with sn.
Qed.
Lemma recover_pending_kept sn w : probed sn w → keptly (recover_pending sn) w.
Proof.
  intros Hsn. unfold recover_pending, get_c. wp_tac. eapply wp_keeps; [apply kept_range|].
  intros [l|e] w1 K1; [|done]. eapply wp_mono; [|intros r w2 K2; transitivity w1; [exact K1|exact K2]].
  apply fold_kept with (P := probed sn); [intros ?? ?; by apply kept_probed|by eapply kept_probed|].
  intros. by apply recover_one_kept.
Qed.

Lemma startup_one_kept sn resolved key acc w : probed sn w → keptly (startup_one sn resolved key acc) w.
Proof.
  intros Hsn. unfold startup_one, get_c, persistStateLocked, currentAttemptRefForKeyLocked. wp_tac.
  break_if; [by wp_tac|]. break_if; [by wp_tac|]. gobool.
  destruct (current_ref _ _ _) as [ref|] eqn:Hc; [|by wp_tac].
  apply keptly_bind; [apply keptly_keeps; kept_tac|]. intros s w1 K1.
  apply keptly_bind; [apply keptly_keeps; kept_tac|]. intros _ w2 K2.
  apply keptly_bind; [apply keptly_keeps; kept_tac|]. intros _ w3 K3.
  apply keptly_bind; [|intros; by wp_tac]. destruct ref as [k|k|k|n]; try by wp_tac.
  apply keptly_confirm, (kept_shown w2), (kept_shown w1), (kept_shown w); try done.
  unfold current_ref in Hc. destruct (rk_Domain key); try done.
  destruct (c_desiredTargets (w_c w) !! rk_Target key) as [i|] eqn:Hi; [|done]. injection Hc as <-.
  split; [eauto|]. by exists i.
Qed.

(** *** Whole operations *)
Abbreviation backedly m w := (wp m (λ _ w', backed w') w).
Lemma keptly_backed {A} (m : M E A) w : backed w → keptly m w → backedly m w.
Proof. intros Hb Hm. eapply wp_mono; [exact Hm|]. intros r w1 K. by apply K. Qed.
Lemma backedly_keeps {A} (m : M E A) w : backed w → keeps backed_le m → backedly m w.
Proof. intros Hb Hm. by apply Hm. Qed.
Lemma backedly_bind {A B} (m : M E A) (f : A → M E B) w :
  backedly m w → (∀ a w1, backed w1 → backedly (f a) w1) → backedly (m ≫= f) w.
Proof.
  intros Hm Hf. apply wp_bind. eapply wp_mono; [exact Hm|]. intros [a|e] w1 Hb; [by apply Hf|done].
Qed.
Lemma backedly_locked sn {A} (m : M E A) w :
  backed w → probed sn w → (∀ w1, backed w1 → probed sn w1 → backedly m w1) → backedly (locked m) w.
Proof.
  intros Hb Hs Hm. unfold locked. wp_tac. unfold interleave, ask, modify_c. wp_tac.
  apply wp_intro. intros r w1 Hr. cbn in Hr. destruct (env_Published (w_e w)) as [l e].
  injection Hr as <- <-. wp_tac. apply Hm; [|done]. cbn. apply publish_backed. by destruct w.
Qed.
Lemma Probe_probed w : backed w → wp Probe (λ r w', backed w' ∧ ∀ sn, r = Ok sn → probed sn w') w.
Proof.
  intros Hb. split; [by apply (kept_backed Probe (kept_call _ _) w)|]. intros sn Hr. unfold probed, Probe, call in *.
  destruct (env_Probe (w_e w)) as [r e]. cbn in *. subst. left.
Qed.

Lemma commitConfirmed_backed ref plan sn key w :
  backed w → probed sn w → backedly (commitConfirmed ref plan sn key) w.
Proof.
  intros Hb0 Hs0. unfold commitConfirmed. apply (backedly_locked sn); [done..|]. clear w Hb0 Hs0. intros w Hb Hs.
  apply keptly_backed; [done|]. apply keptly_bind; [apply keptly_keeps; kept_tac|]. intros o w1 K1.
  apply (kept_probed sn _ _ K1) in Hs. unfold get_c. wp_tac.
  break_if; [apply keptly_keeps; kept_tac|]. break_if; [apply keptly_keeps; kept_tac|]. gobool.
  apply keptly_bind; [apply keptly_try, finishConverged_kept; by apply plan_shown with sn|].
  intros r w2 K2. apply keptly_keeps. kept_tac.
Qed.

Lemma backed_recordAllUnknown code : keeps backed_le (recordAllUnknownObserved code : M E unit).
Proof. unfold recordAllUnknownObserved. apply backed_locked, kept_backed. kept_tac. Qed.
Lemma probe_or_record_backed operation w : backed w →
  wp (probe_or_record operation) (λ r w', backed w' ∧ ∀ sn, r = Ok sn → probed sn w') w.
Proof.
  intros Hb. unfold probe_or_record. wp_tac. eapply wp_mono; [by apply Probe_probed|].
  intros [sn|e] w1 [Hb1 Hp1]; wp_tac; [split; [done|]; intros ? [= <-]; by apply Hp1|].
  eapply wp_mono; [apply backedly_keeps; [done|apply backed_recordAllUnknown]|]. intros r w2 Hb2. by wp_tac.
Qed.

Lemma backed_reload : keeps backed_le (reloadRecoveryIfNeeded : M E unit).
Proof. unfold reloadRecoveryIfNeeded, LoadReconcileRecovery. apply backed_locked, kept_backed. kept_tac. Qed.
Lemma backed_fence plan : keeps backed_le (targetExpirationFence plan : M E unit).
Proof. unfold targetExpirationFence. apply backed_locked, kept_backed. kept_tac. Qed.
Lemma backed_finishFailure r k c b : keeps backed_le (finishFailure r k c b : M E unit).
Proof. unfold finishFailure. apply backed_locked, kept_backed. kept_tac. Qed.
Lemma backed_finishRequire r k c b : keeps backed_le (finishFailureAndRequireProbeObserved r k c b : M E unit).
Proof. unfold finishFailureAndRequireProbeObserved. apply backed_locked, kept_backed. kept_tac. Qed.
Lemma backed_markInvalid plan : keeps backed_le (markInvalidPlan plan : M E unit).
Proof. unfold markInvalidPlan, persistStateLocked. apply backed_locked, kept_backed. kept_tac. Qed.
Lemma backed_beginAttempt plan : keeps backed_le (beginAttempt plan : M E attemptRef).
Proof. unfold beginAttempt. apply backed_locked, kept_backed. kept_tac. Qed.
Lemma backed_hasPending : keeps backed_le (hasPendingProbes : M E bool).
Proof. unfold hasPendingProbes. apply backed_locked, kept_backed. kept_tac. Qed.
Lemma backed_requiresStartup : keeps backed_le (requiresStartupProbe : M E bool).
Proof. unfold requiresStartupProbe. apply backed_locked, kept_backed. kept_tac. Qed.

Lemma beginAfterRequiredProbe_backed plan sn key w :
  backed w → probed sn w → key = pendingProbeKeyForPlan plan →
  backedly (beginAfterRequiredProbe plan sn key) w.
Proof.
  intros Hb0 Hs0 Hk. unfold beginAfterRequiredProbe. apply (backedly_locked sn); [done..|].
  clear w Hb0 Hs0. intros w Hb Hs. apply keptly_backed; [done|]. unfold get_c. wp_tac.
  break_if; [by wp_tac|]. gobool.
  apply keptly_bind; [apply keptly_keeps; kept_tac|]. intros _ w1 K1.
  apply keptly_bind; [apply keptly_keeps; kept_tac|]. intros o w2 K2.
  apply keptly_bind; [apply keptly_keeps; kept_tac|]. intros _ w3 K3.
  assert (kept w w3) as K by (transitivity w2; [transitivity w1|]; done).
  apply keptly_bind; [apply resolvePending_kept; [by eapply kept_probed|by rewrite (kept_planMatches _ _ _ K)|done]|].
  intros b w4 K4. apply keptly_keeps. kept_tac.
Qed.
Lemma beginAfterStartupProbe_backed plan sn w :
  backed w → probed sn w → backedly (beginAfterStartupProbe plan sn) w.
Proof.
  intros Hb0 Hs0. unfold beginAfterStartupProbe, persistStateLocked. apply (backedly_locked sn); [done..|].
  clear w Hb0 Hs0. intros w Hb Hs. apply keptly_backed; [done|]. unfold get_c. wp_tac.
  break_if; [by wp_tac|]. gobool.
  apply keptly_bind; [apply keptly_keeps; kept_tac|]. intros _ w1 K1.
  apply keptly_bind; [apply keptly_keeps; kept_tac|]. intros o w2 K2.
  apply keptly_bind; [apply keptly_keeps; kept_tac|]. intros _ w3 K3.
  assert (kept w w3) as K by (transitivity w2; [transitivity w1|]; done).
  wp_tac. break_if; [apply keptly_keeps; kept_tac|]. gobool.
  destruct (attemptStateLocked (w_c w3) plan) as [r found]. cbn beta iota zeta.
  apply keptly_bind; [apply keptly_keeps; kept_tac|]. intros _ w4 K4.
  apply keptly_bind; [apply keptly_keeps; kept_tac|]. intros _ w5 K5.
  apply keptly_bind; [apply keptly_keeps; kept_tac|]. intros _ w6 K6.
  apply keptly_bind; [|intros; by wp_tac]. apply confirm_plan_kept. intros Hd.
  apply (kept_shown w5), (kept_shown w4), (kept_shown w3); try done.
  apply plan_shown with sn; try done; [by eapply kept_probed|by rewrite (kept_planMatches _ _ _ K)].
Qed.

Lemma begin_execution_backed plan w : backed w → backedly (begin_execution plan) w.
Proof.
  intros Hb. unfold begin_execution.
  apply backedly_bind; [apply backedly_keeps; [done|apply backed_hasPending]|]. intros pending w1 Hb1.
  destruct pending.
  { wp_tac. eapply wp_mono; [by apply probe_or_record_backed|]. intros [sn|e] w2 [Hb2 Hs2]; [|done].
    apply backedly_bind; [|by intros; wp_tac]. apply beginAfterRequiredProbe_backed; auto. }
  apply backedly_bind; [apply backedly_keeps; [done|apply backed_requiresStartup]|]. intros startup w2 Hb2.
  destruct startup.
  { wp_tac. eapply wp_mono; [by apply probe_or_record_backed|]. intros [sn|e] w3 [Hb3 Hs3]; [|done].
    apply backedly_bind; [|by intros; wp_tac]. apply beginAfterStartupProbe_backed; auto. }
  apply backedly_bind.
  - destruct env_RequiresFreshBasis; [|by wp_tac]. wp_tac.
    eapply wp_mono; [by apply probe_or_record_backed|]. by intros [sn|e] w3 [Hb3 _]; wp_tac.
  - intros plan' w3 Hb3. apply backedly_bind; [|by intros; wp_tac].
    apply backedly_keeps; [done|apply backed_beginAttempt].
Qed.

Lemma backedly_try_ret {A B} (m : M E A) (f : result A → B) w :
  backedly m w → backedly (r ← st_try m; mret (f r)) w.
Proof. intros Hm. apply backedly_bind; [by apply wp_try|]. by intros; wp_tac. Qed.

Lemma apply_attempt_backed ref plan key w : backed w → backedly (apply_attempt ref plan key) w.
Proof.
  intros Hb. unfold apply_attempt.
  apply backedly_bind; [apply wp_try, backedly_keeps; [done|apply backed_fence]|]. intros f w1 Hb1.
  destruct f; cbn zeta; [|apply backedly_try_ret, backedly_keeps; [done|apply backed_finishFailure]].
  apply backedly_bind; [apply wp_try, backedly_keeps; [done|apply kept_backed, kept_call]|]. intros r w2 Hb2.
  destruct r as [value|e]; [|apply backedly_try_ret, backedly_keeps; [done|apply backed_finishRequire]].
  destruct (ap_Kind value);
    try (apply backedly_try_ret, backedly_keeps; [done|apply backed_finishFailure]);
    try (apply backedly_try_ret, backedly_keeps; [done|apply backed_finishRequire]).
  wp_tac. eapply wp_mono; [by apply Probe_probed|]. intros [sn|e] w3 [Hb3 Hs3].
  - apply (backedly_try_ret (commitConfirmed ref plan sn key)). apply commitConfirmed_backed; auto.
  - apply backedly_try_ret, backedly_keeps; [done|apply backed_finishRequire].
Qed.

Lemma Execute_backed plan w : backed w → backedly (Execute plan) w.
Proof.
  intros Hb. unfold Execute.
  apply backedly_bind; [apply wp_try, backedly_keeps; [done|apply backed_reload]|]. intros r w1 Hb1.
  destruct r; [|by wp_tac].
  destruct (ValidatePlan plan); [|apply backedly_try_ret, backedly_keeps; [done|apply backed_markInvalid]].
  apply backedly_bind.
  - apply wp_try, backedly_bind; [apply backedly_keeps; [done|apply backed_fence]|].
    intros _ w2 Hb2. by apply begin_execution_backed.
  - intros [[[ref plan']|]|e] w2 Hb2; [by apply apply_attempt_backed|by wp_tac..].
Qed.

Lemma SetDesired_backed snapshot w : backed w → backedly (SetDesiredSnapshot snapshot) w.
Proof.
  intros Hb. unfold SetDesiredSnapshot. apply backedly_bind; [apply backedly_keeps; [done|apply backed_interleave]|].
  intros _ w1 Hb1. unfold get_c, modify_c. wp_tac.
  destruct (SetDesiredSnapshotLocked snapshot (w_c w1)) as [c'|] eqn:Hs; wp_tac; [|done].
  pose proof (publish_backed (w_c w1) (w_e w1) (w_trace w1) [snapshot]) as Hp. cbn in Hp. unfold publish in Hp.
  rewrite Hs in Hp. apply Hp. by destruct w1.
Qed.

Lemma recovery_probe_backed operation w : backed w →
  wp (recovery_probe operation) (λ r w', backed w' ∧ ∀ sn, r = Ok (inl sn) → probed sn w') w.
Proof.
  intros Hb. unfold recovery_probe. wp_tac. eapply wp_mono; [by apply Probe_probed|].
  intros [sn|e] w1 [Hb1 Hp1]; wp_tac; [split; [done|]; intros ? [= <-]; by apply Hp1|].
  eapply wp_mono; [apply backedly_keeps; [done|apply backed_recordAllUnknown]|].
  intros [] w2 Hb2; by wp_tac.
Qed.
Lemma probeRecovery_backed timeout w : backed w → backedly (probeRecovery timeout) w.
Proof.
  intros Hb. unfold probeRecovery. break_if; [by wp_tac|].
  apply backedly_bind; [apply backedly_keeps; [done|apply backed_reload]|]. intros _ w1 Hb1. wp_tac.
  eapply wp_mono; [by apply recovery_probe_backed|]. intros [[sn|early]|e] w2 [Hb2 Hs2]; [|by wp_tac|done].
  apply (backedly_locked sn); auto. intros w3 Hb3 Hs3. apply keptly_backed; [done|].
  unfold get_c. wp_tac. break_if; [by wp_tac|].
  apply keptly_bind; [apply keptly_keeps; kept_tac|]. intros o w4 K4.
  apply keptly_bind; [apply keptly_keeps; kept_tac|]. intros _ w5 K5.
  apply keptly_bind; [apply recover_pending_kept; by eapply kept_probed, kept_probed|].
  intros [[? ?] ?] w6 K6. by wp_tac.
Qed.
Lemma probeStartupRecovery_backed keys timeout w : backed w → backedly (probeStartupRecovery keys timeout) w.
Proof.
  intros Hb. unfold probeStartupRecovery. break_if; [by wp_tac|].
  apply backedly_bind; [apply backedly_keeps; [done|apply backed_reload]|]. intros _ w1 Hb1. wp_tac.
  eapply wp_mono; [by apply recovery_probe_backed|]. intros [[sn|early]|e] w2 [Hb2 Hs2]; [|by wp_tac|done].
  apply (backedly_locked sn); auto. intros w3 Hb3 Hs3. apply keptly_backed; [done|].
  unfold get_c. wp_tac. break_if; [apply keptly_keeps; kept_tac|].
  apply keptly_bind; [apply keptly_keeps; kept_tac|]. intros o w4 K4.
  apply keptly_bind; [apply keptly_keeps; kept_tac|]. intros _ w5 K5.
  assert (probed sn w5) as Hs5 by by eapply kept_probed, kept_probed.
  apply keptly_bind; [by apply recover_pending_kept|]. intros [[resolved ?] unresolved] w6 K6.
  apply keptly_bind.
  - apply fold_kept with (P := probed sn); [intros ?? ?; by apply kept_probed|by eapply kept_probed|].
    intros. by apply startup_one_kept.
  - intros u w7 K7. apply keptly_keeps. kept_tac.
Qed.

Lemma backed_retry {K} (m : M E K) : keeps kept m → keeps backed_le (reloadRecoveryIfNeeded;; locked m).
Proof.
  intros Hm. apply keeps_bind; [apply _|apply backed_reload|intros _]. by apply backed_locked, kept_backed.
Qed.
Lemma run_op_backed o w : backed w → backed (run_op o w).
Proof.
  intros Hb. destruct o; cbn [run_op].
  - by apply (Execute_backed plan w).
  - by apply (SetDesired_backed snapshot w).
  - by apply (probeRecovery_backed timeout w).
  - by apply (probeStartupRecovery_backed keys timeout w).
  - unfold RetryInfrastructure. apply backed_retry; [kept_tac|done].
  - unfold RetryPolicy. apply backed_retry; [kept_tac|done].
  - unfold RetryTarget. apply backed_retry; [kept_tac|done].
Qed.

(** A new controller has confirmed nothing. *)
Lemma seedObservedClock_confirmed c s : c_confirmedTargets (seedObservedClock c s) = c_confirmedTargets c.
Proof.
  unfold seedObservedClock. generalize (match os_Infrastructure s with Some i => [io_ObservedAt i] | None => [] end
    ++ (match os_Policy s with Some p => [po_ObservedAt p] | None => [] end)
    ++ ((λ t, pt_ObservedAt (to_Physical t)) <$> os_Targets s)) as l.
  intros l. revert c. induction l as [|t l IH]; intros c; [done|]. cbn [foldl]. cbv zeta. rewrite IH.
  by destruct (After _ _).
Qed.
Lemma NewPersistentController_confirmed node w c w' :
  NewPersistentController node w = (Ok c, w') → c_confirmedTargets c = ∅.
Proof.
  unfold NewPersistentController. destruct (is_empty node); [done|]. intros Hn.
  st_step Hn as recovery w1 Hload. st_step Hn as l w2 Hhyd. st_step Hn as observed w3 Hobs.
  destruct (_ && _); [done|]. injection Hn as <- <-. cbn. by rewrite seedObservedClock_confirmed.
Qed.
Lemma unconfirmed_backed w : c_confirmedTargets (w_c w) = ∅ → backed w.
Proof. intros Hc t g. unfold ConfirmedTarget. by rewrite Hc, lookup_empty. Qed.

(** C2: A confirmation always rests on an observation: in every reachable state
    of the controller, in memory or over any store, a target that is confirmed
    for a generation is desired at exactly that generation, and some probe of
    the run returned a physical state that matches the current intent. *)
Theorem confirmed_targets_were_probed w t g :
  reachable w → ConfirmedTarget (w_c w) t = Some g → shown w t g.
Proof.
  intros Hr. revert t g. change (backed w). induction Hr as [e|node e c w Hn|o w _ IH|w c w' _ IH Hs Hn].
  - by apply unconfirmed_backed.
  - by eapply unconfirmed_backed, NewPersistentController_confirmed.
  - by apply run_op_backed.
  - by eapply unconfirmed_backed, NewPersistentController_confirmed.
Qed.
End evidence.
