(* ===== verification/ReconcileLedger.v ===== *)
(** * Properties of the durable retry ledger

    What a reader of the ledger sees after a transaction of file ReconcileStore:
    target rows never move back, and reading back a commit whose outcome is
    unknown tells whether it happened. *)

From S2P Require Import Prelude GoStd Netip Identity CoreModel ObservedState ObservedStore ReconcileStore.
From S2P Require Import GoFmt ReconcilePlan Controller ControllerOps.

(** ** Transactions *)
Lemma read_tx_Ok {A} op f (body : reconcile_db → result A) d a : read_tx op f body d = Ok a → body d = Ok a.
Proof. unfold read_tx. destruct f; try done. by destruct (body d). Qed.
Lemma write_tx_cases op f body d r d' :
  write_tx op f body d = (r, d') →
  match r with
  | Ok _ => body d = Ok d'
  | Err x => d' = d ∨ (errors_Is x ErrReconcileCommitUnknown = true ∧ body d = Ok d')
  end.
Proof.
  unfold write_tx. destruct f as [|e|e|e []]; try (intros [= <- <-]; by left);
    destruct (body d) as [d1|e1]; intros [= <- <-]; auto.
Qed.
(** A transaction either leaves the database as it was or runs its body. *)
Lemma write_tx_db op f body d : (write_tx op f body d).2 = d ∨ body d = Ok (write_tx op f body d).2.
Proof.
  destruct (write_tx op f body d) as [r d'] eqn:Hw. apply write_tx_cases in Hw. cbn.
  destruct r; [auto|tauto].
Qed.

Lemma decode_all_elem {A B} (f : A → result B) l ys y :
  decode_all f l = Ok ys → y ∈ ys ↔ ∃ x, x ∈ l ∧ f x = Ok y.
Proof.
  revert ys. induction l as [|x l IH]; intros ys Hd; cbn in Hd; inv_ok.
  - split; [by intros ?%elem_of_nil|by intros (? & ?%elem_of_nil & ?)].
  - rewrite elem_of_cons, (IH _ Hd1). split.
    + intros [->|(x' & Hx & Hf)]; [exists x; split; [left|done]|exists x'; split; [by right|done]].
    + intros (x' & [->|Hx]%elem_of_cons & Hf); [left; congruence|right; eauto].
Qed.

Lemma decode_all_total {A B} (f : A → result B) l ys x :
  decode_all f l = Ok ys → x ∈ l → ∃ y, f x = Ok y.
Proof.
  revert ys. induction l as [|x' l IH]; intros ys Hd; cbn in Hd; inv_ok; [by intros ?%elem_of_nil|].
  intros [->|Hx]%elem_of_cons; eauto.
Qed.

(** ** What a recovery holds *)
(** The row of one key; the singleton tables have no target column. *)
Definition stored (node : NodeID) (d : reconcile_db) (domain : ReconcileDomain) (target : Prefix)
    (row : reconcileStateRow) : Prop :=
  match domain with
  | ReconcileDomainInfrastructure => target = zero_prefix ∧ rd_infra d = Some row
  | ReconcileDomainPolicy => target = zero_prefix ∧ rd_policy d = Some row
  | ReconcileDomainTarget => rd_targets d !! (node, target) = Some row
  | ReconcileDomainOther _ => False
  end.

Lemma elem_of_target_rows node d t row : (t, row) ∈ target_rows node d ↔ rd_targets d !! (node, t) = Some row.
Proof.
  unfold target_rows. rewrite elem_of_sort_by, list_elem_of_omap. split.
  - intros ([[n t'] row'] & Hin & Hf). cbn in Hf. case_bool_decide; [|done]. injection Hf as -> ->. subst n.
    by apply elem_of_map_to_list in Hin.
  - intros Hl. exists ((node, t), row). split; [by apply elem_of_map_to_list|].
    cbn. by rewrite bool_decide_eq_true_2.
Qed.

Lemma recovery_states node d r s :
  loadReconcileRecoveryInTx node d = Ok r →
  s ∈ rc_States r ↔ ∃ domain target row,
    stored node d domain target row ∧ decodeReconcileState node domain target row = Ok s.
Proof.
  unfold loadReconcileRecoveryInTx. intros Hl. inv_ok. cbn. rewrite !elem_of_app.
  match goal with H : decode_all _ (target_rows _ _) = _ |- _ => pose proof (decode_all_elem _ _ _ s H) as Ht end.
  assert (∀ domain o row', loadSingletonReconcileState node domain d = Ok o →
    (domain = ReconcileDomainInfrastructure ∧ rd_infra d = row' ∨ domain = ReconcileDomainPolicy ∧ rd_policy d = row') →
    s ∈ option_list o ↔ ∃ row, row' = Some row ∧ decodeReconcileState node domain zero_prefix row = Ok s) as Hsing.
  { intros domain o row' Ho [[-> <-]|[-> <-]]; cbn in Ho;
      [destruct (rd_infra d) as [row|]|destruct (rd_policy d) as [row|]]; inv_ok; cbn;
      rewrite ?list_elem_of_singleton; try (split; [by intros ?%elem_of_nil|by intros (? & ? & ?)]);
      (split; [intros ->; eauto|intros (row1 & [= <-] & ?); congruence]). }
  rewrite (Hsing ReconcileDomainInfrastructure a0 (rd_infra d)), (Hsing ReconcileDomainPolicy a1 (rd_policy d)) by auto.
  rewrite Ht. split.
  - intros [(row & Hr & Hs)|[(row & Hr & Hs)|([t row] & Hr & Hs)]].
    + by exists ReconcileDomainInfrastructure, zero_prefix, row.
    + by exists ReconcileDomainPolicy, zero_prefix, row.
    + inv_ok. exists ReconcileDomainTarget, t, row. split; [by apply elem_of_target_rows|done].
  - intros (domain & target & row & Hst & Hs). destruct domain; cbn in Hst; [destruct Hst as [-> Hst]..| |done].
    + left. eauto.
    + right. left. eauto.
    + right. right. exists (target, row). split; [by apply elem_of_target_rows|]. cbn. by rewrite Hs.
Qed.

Lemma recovery_decodes node d r domain target row :
  loadReconcileRecoveryInTx node d = Ok r → stored node d domain target row →
  ∃ s, decodeReconcileState node domain target row = Ok s ∧ s ∈ rc_States r.
Proof.
  intros Hl Hs. cut (∃ s, decodeReconcileState node domain target row = Ok s).
  { intros [s Hd]. exists s. split; [done|]. apply (recovery_states _ _ _ _ Hl). eauto. }
  unfold loadReconcileRecoveryInTx in Hl. inv_ok. destruct domain; cbn in Hs; [destruct Hs as [-> Hs]..| |done].
  - cbn in Hl1. rewrite Hs in Hl1. inv_ok. eauto.
  - cbn in Hl2. rewrite Hs in Hl2. inv_ok. eauto.
  - apply elem_of_target_rows in Hs. destruct (decode_all_total _ _ _ _ Hl3 Hs) as [s Hd]. inv_ok. eauto.
Qed.
Lemma recovery_decodes_probe node d r row :
  loadReconcileRecoveryInTx node d = Ok r → row ∈ rd_probes d → qr_NodeID row = node →
  ∃ p, decodeProbeRequirement node row = Ok p.
Proof.
  unfold loadReconcileRecoveryInTx. intros Hl Hr Hn. inv_ok.
  match goal with H : decode_all _ (probe_rows _ _) = _ |- _ => destruct (decode_all_total _ _ _ row H) as [p Hp] end.
  - by apply elem_of_sort_slice, list_elem_of_filter.
  - inv_ok. eauto.
Qed.

Lemma recovery_probes node d r p :
  loadReconcileRecoveryInTx node d = Ok r →
  p ∈ rc_ProbeRequirements r ↔ ∃ row,
    row ∈ rd_probes d ∧ qr_NodeID row = node ∧ decodeProbeRequirement node row = Ok p.
Proof.
  unfold loadReconcileRecoveryInTx. intros Hl. inv_ok. cbn.
  match goal with H : decode_all _ (probe_rows _ _) = _ |- _ => rewrite (decode_all_elem _ _ _ p H) end.
  unfold probe_rows. split.
  - intros (row & [Hn Hr]%elem_of_sort_slice%list_elem_of_filter & Hd). inv_ok. eauto.
  - intros (row & Hr & Hn & Hd). exists row. split; [by apply elem_of_sort_slice, list_elem_of_filter|].
    by rewrite Hd.
Qed.

(** ** Codecs *)
Lemma UnixMicro_from v : UnixMicro (from_UnixMicro v) = v.
Proof. unfold UnixMicro, from_UnixMicro. rewrite Z.add_simpl_l. by apply Z.div_mul. Qed.
Lemma equalPersistedTime_from t :
  equalPersistedTime (decodeOptionalTimePointer (optionalTimePointer t)) t = true.
Proof. destruct t as [t|]; [|done]. cbn. rewrite UnixMicro_from. apply Z.eqb_refl. Qed.
Lemma valueOrEmpty_from s : valueOrEmpty (optionalTextPointer s) = s.
Proof. by destruct s. Qed.
Lemma decode_status st st' : decodeReconcileStatus (encodeReconcileStatus st) = Ok st' → st' = st.
Proof. by destruct st; intros [= <-]. Qed.
Lemma decode_domain s dom : decodeReconcileDomain s = Ok dom → s = encodeReconcileDomain dom.
Proof.
  unfold decodeReconcileDomain. repeat (case_bool_decide; [by intros [= <-]|]). done.
Qed.
Lemma decode_encode_domain dom s : encodeReconcileDomainChecked dom = Ok s →
  decodeReconcileDomain (encodeReconcileDomain dom) = Ok dom.
Proof. by destruct dom. Qed.

(** The states and probes of the controller have no target outside the target
    domain. *)
Definition plain (domain : ReconcileDomain) (target : Prefix) : Prop :=
  domain = ReconcileDomainTarget ∨ target = zero_prefix.

Lemma decode_written s s' :
  validateReconcileKey (ps_Domain s) (ps_InfrastructureRevision s) (ps_PolicyRevision s) (ps_Target s)
    (ps_TargetGeneration s) = Ok tt →
  plain (ps_Domain s) (ps_Target s) →
  decodeReconcileState (ps_NodeID s) (ps_Domain s) (ps_Target s) (state_row s) = Ok s' →
  samePersistedState s' s = true ∧ UnixMicro (ps_UpdatedAt s') = UnixMicro (ps_UpdatedAt s).
Proof.
  intros Hk Hp Hd. unfold decodeReconcileState in Hd. inv_ok. cbn in Hd1.
  match goal with H : decodeReconcileStatus _ = Ok _ |- _ => apply decode_status in H; cbn in H; subst end.
  unfold samePersistedState. destruct (ps_Domain s) eqn:Hdom; unfold validateReconcileKey in Hk;
    inv_ok; gobool; destruct Hp as [?|Hp]; try done; cbn;
    (split; [|apply UnixMicro_from]); rewrite !equalPersistedTime_from, valueOrEmpty_from; gobool;
    repeat split; try done; try (by symmetry); try (unfold domainKey; by rewrite Hdom); intuition lia.
Qed.

Lemma stored_written s d :
  plain (ps_Domain s) (ps_Target s) → (∀ n, ps_Domain s ≠ ReconcileDomainOther n) →
  stored (ps_NodeID s) (upsertReconcileState s d) (ps_Domain s) (ps_Target s) (state_row s).
Proof.
  intros Hp Hd. unfold upsertReconcileState. destruct (ps_Domain s) eqn:Hdom; cbn;
    try (destruct Hp as [?|Hp]; [done|by split]); [|by eapply Hd].
  by rewrite lookup_insert_eq.
Qed.

Lemma probe_row_fields node row p :
  decodeProbeRequirement node row = Ok p →
  qr_Domain row = encodeReconcileDomain (pp_Domain p) ∧
  pp_NodeID p = node ∧ pp_InfrastructureRevision p = qr_InfrastructureRevision row ∧
  pp_PolicyRevision p = qr_PolicyRevision row ∧ pp_TargetGeneration p = qr_TargetEnforcementGeneration row ∧
  pp_SnapshotRevision p = qr_SnapshotRevision row ∧
  boolToInt (pp_FenceSnapshotRevision p) = qr_FenceSnapshotRevision row ∧
  pp_RetryEpoch p = qr_RetryEpoch row ∧ pp_AttemptCount p = qr_AttemptCount row ∧
  (if PrefixIsValid (pp_Target p) then Some (pp_Target p) else None) = qr_CanonicalTarget row ∧
  (qr_CanonicalTarget row = None → pp_Target p = zero_prefix).
Proof.
  unfold decodeProbeRequirement. intros Hd. inv_ok. cbn [pp_Domain pp_NodeID pp_InfrastructureRevision
    pp_PolicyRevision pp_TargetGeneration pp_SnapshotRevision pp_FenceSnapshotRevision pp_RetryEpoch
    pp_AttemptCount pp_Target].
  repeat (split; [by eauto using decode_domain|]). split; [|split; [done|split; [done|]]].
  - gobool. unfold boolToInt. destruct Hd0 as [_ [->| ->]]; done.
  - destruct (qr_CanonicalTarget row); inv_ok; [|done]. split; [|done]. unfold not_canonical in *. gobool.
    by match goal with H : PrefixIsValid _ = true ∧ _ |- _ => destruct H as [-> _] end.
Qed.

Lemma decode_probe_key node row p :
  decodeProbeRequirement node row = Ok p → qr_NodeID row = node →
  probe_key row = probe_key (reconcileProbeRequirementFromCore p).
Proof.
  intros (Hdm & Hn & Hi & Hp & Hg & Hs & Hf & He & Ha & Ht & Hz)%probe_row_fields Hnode.
  unfold probe_key, probe_fence, reconcileProbeRequirementFromCore. cbn. congruence.
Qed.
Lemma same_probe_key p q : same_probe p q = true →
  probe_key (reconcileProbeRequirementFromCore p) = probe_key (reconcileProbeRequirementFromCore q).
Proof.
  unfold same_probe. gobool. rewrite eqb_true_iff.
  intros [[[[[[[[[Hn Hd] Hi] Hp] Ht] Hg] Hs] Hf] He] Ha].
  unfold probe_key, probe_fence, reconcileProbeRequirementFromCore. cbn.
  by rewrite Hn, Hd, Hi, Hp, Ht, Hg, Hs, Hf, He, Ha.
Qed.
Lemma decode_written_probe p p' :
  plain (pp_Domain p) (pp_Target p) →
  validateReconcileKey (pp_Domain p) (pp_InfrastructureRevision p) (pp_PolicyRevision p) (pp_Target p)
    (pp_TargetGeneration p) = Ok tt →
  decodeProbeRequirement (pp_NodeID p) (reconcileProbeRequirementFromCore p) = Ok p' →
  same_probe p' p = true.
Proof.
  intros Hpl Hv (Hdm & Hn & Hi & Hp & Hg & Hs & Hf & He & Ha & Ht & Hz)%probe_row_fields. cbn in *.
  unfold same_probe. gobool. rewrite eqb_true_iff.
  assert (pp_Domain p' = pp_Domain p) as Hdom
    by (destruct (pp_Domain p), (pp_Domain p'); try done; cbn in Hv; done).
  repeat split; try done.
  - destruct (PrefixIsValid (pp_Target p')) eqn:Hv', (PrefixIsValid (pp_Target p)) eqn:Hv2; try congruence.
    destruct Hpl as [Htd| ->]; [|by auto]. rewrite Htd in Hv. cbn in Hv. unfold not_canonical in Hv. inv_ok.
    gobool. intuition congruence.
  - by destruct (pp_FenceSnapshotRevision p'), (pp_FenceSnapshotRevision p).
Qed.

(** ** Commits of unknown outcome *)
Lemma stored_set_probes node d l domain t row :
  stored node (set_probes d l) domain t row = stored node d domain t row.
Proof. done. Qed.
Lemma deleteProbe_rows p d d' :
  deleteProbeRequirement p d = Ok d' →
  d' = set_probes d (base.filter (λ r, probe_key r ≠ probe_key (reconcileProbeRequirementFromCore p)) (rd_probes d)).
Proof. unfold deleteProbeRequirement. intros Hd. by inv_ok. Qed.
Lemma upsertProbe_set p d d' :
  upsertProbeRequirement p d = Ok d' →
  ∃ l, d' = set_probes d l ∧ reconcileProbeRequirementFromCore p ∈ l ∧
       ∀ r, r ∈ l → r ∈ rd_probes d ∨ r = reconcileProbeRequirementFromCore p.
Proof.
  unfold upsertProbeRequirement. set (row := reconcileProbeRequirementFromCore p).
  destruct (existsb (λ r, bool_decide (probe_key r = probe_key row)) (rd_probes d)) eqn:Hk.
  - intros [= <-]. eexists. split; [done|]. apply existsb_true_iff in Hk as (r0 & Hr0 & Hk0). gobool. split.
    + apply list_elem_of_fmap. exists r0. by rewrite bool_decide_eq_true_2.
    + intros r (r1 & -> & Hr1)%list_elem_of_fmap. case_bool_decide; auto.
  - clear Hk. cbn iota. destruct (existsb _ _); [done|]. intros [= <-]. eexists. split; [done|]. split.
    + apply elem_of_app. right. by left.
    + intros r [Hr|Hr%list_elem_of_singleton]%elem_of_app; auto.
Qed.

(** What a transition leaves in the tables. *)
Lemma apply_transition_effect t d d' :
  apply_transition t d = Ok d' →
  (∀ node domain tg row, stored node d' domain tg row ↔
     stored node (if rt_DeleteOnly t then d else upsertReconcileState (rt_State t) d) domain tg row) ∧
  (∀ p, rt_UpsertProbe t = Some p → reconcileProbeRequirementFromCore p ∈ rd_probes d') ∧
  (∀ q r, rt_DeleteProbe t = Some q → r ∈ rd_probes d' →
     probe_key r ≠ probe_key (reconcileProbeRequirementFromCore q) ∨
     ∃ p, rt_UpsertProbe t = Some p ∧ r = reconcileProbeRequirementFromCore p).
Proof.
  unfold apply_transition. intros Ha.
  apply result_bind_Ok in Ha as (? & _ & Ha). apply result_bind_Ok in Ha as (? & _ & Ha).
  apply result_bind_Ok in Ha as (d1 & Hdel & Ha). cbv zeta in Ha. apply result_bind_Ok in Ha as (d3 & Hup & Ha).
  set (d2 := if rt_DeleteOnly t then d1 else upsertReconcileState (rt_State t) d1) in *.
  assert (∃ o, d' = set_observed d3 o) as [o ->].
  { destruct (rt_Observed t); inv_ok; [by eexists|]. exists (rd_observed d'). by destruct d'. }
  assert (∃ l, d1 = set_probes d l ∧ ∀ q r, rt_DeleteProbe t = Some q → r ∈ l →
    probe_key r ≠ probe_key (reconcileProbeRequirementFromCore q)) as (l & -> & Hl).
  { destruct (rt_DeleteProbe t) as [q|]; inv_ok.
    - apply deleteProbe_rows in Hdel as ->. eexists. split; [done|].
      by intros ? r [= <-] [Hr _]%list_elem_of_filter.
    - exists (rd_probes d1). split; [by destruct d1|done]. }
  assert (∃ l', d3 = set_probes d2 l' ∧ (∀ p, rt_UpsertProbe t = Some p → reconcileProbeRequirementFromCore p ∈ l') ∧
    ∀ r, r ∈ l' → r ∈ rd_probes d2 ∨ ∃ p, rt_UpsertProbe t = Some p ∧ r = reconcileProbeRequirementFromCore p)
    as (l' & -> & Hu & Hl').
  { destruct (rt_UpsertProbe t) as [p|]; inv_ok.
    - apply upsertProbe_set in Hup as (l' & -> & Hin & Hor). exists l'. split; [done|]. split; [by intros ? [= <-]|].
      intros r Hr. destruct (Hor r Hr); eauto.
    - exists (rd_probes d2). split; [by destruct d2|]. split; [done|]. auto. }
  split; [|split].
  - intros node domain tg row. unfold d2. destruct (rt_DeleteOnly t); [by destruct domain|].
    unfold upsertReconcileState. destruct domain, (ps_Domain (rt_State t)); reflexivity.
  - intros p Hp. by apply Hu.
  - intros q r Hq Hr. destruct (Hl' r Hr) as [Hr2|Hp]; [left|by right]. apply (Hl q r Hq).
    unfold d2 in Hr2. destruct (rt_DeleteOnly t); [done|].
    unfold upsertReconcileState in Hr2. by destruct (ps_Domain (rt_State t)).
Qed.

(** The transitions that the controller builds: no target outside the target
    domain, and a probe requirement is replaced by one of another attempt. *)
Record controller_transition (t : ReconcileStateTransition) : Prop := {
  ct_state : plain (ps_Domain (rt_State t)) (ps_Target (rt_State t));
  ct_upsert p : rt_UpsertProbe t = Some p → plain (pp_Domain p) (pp_Target p);
  ct_replace p q : rt_UpsertProbe t = Some p → rt_DeleteProbe t = Some q →
    probe_key (reconcileProbeRequirementFromCore p) ≠ probe_key (reconcileProbeRequirementFromCore q)
}.
Definition transition_node (t : ReconcileStateTransition) : NodeID :=
  if rt_DeleteOnly t then match rt_DeleteProbe t with Some p => pp_NodeID p | None => EmptyString end
  else ps_NodeID (rt_State t).

Lemma validated_state t :
  validateReconcileTransition t = Ok tt → rt_DeleteOnly t = false →
  validatePersistedReconcileState (rt_State t) = Ok tt.
Proof. unfold validateReconcileTransition. intros Hv Hd. rewrite Hd in Hv. by inv_ok. Qed.
Lemma validated_key s :
  validatePersistedReconcileState s = Ok tt →
  validateReconcileKey (ps_Domain s) (ps_InfrastructureRevision s) (ps_PolicyRevision s) (ps_Target s)
    (ps_TargetGeneration s) = Ok tt ∧ ∀ n, ps_Domain s ≠ ReconcileDomainOther n.
Proof.
  unfold validatePersistedReconcileState. intros Hv. apply result_bind_Ok in Hv as ([] & _ & Hv).
  apply result_bind_Ok in Hv as ([] & Hk & _). split; [done|]. intros n Hn. by rewrite Hn in Hk.
Qed.
Lemma validated_upsert t p :
  validateReconcileTransition t = Ok tt → rt_UpsertProbe t = Some p →
  rt_DeleteOnly t = false ∧ pp_NodeID p = ps_NodeID (rt_State t) ∧
  validateReconcileKey (pp_Domain p) (pp_InfrastructureRevision p) (pp_PolicyRevision p) (pp_Target p)
    (pp_TargetGeneration p) = Ok tt.
Proof.
  unfold validateReconcileTransition. intros Hv Hp. rewrite Hp in Hv.
  destruct (rt_DeleteOnly t); [by inv_ok|]. split; [done|].
  do 2 apply result_bind_Ok in Hv as (? & _ & Hv). apply result_bind_Ok in Hv as ([] & Hu & _).
  apply result_bind_Ok in Hu as ([] & Hvp & Hu). apply wrap_Ok in Hvp.
  unfold validateProbeRequirement in Hvp. apply result_bind_Ok in Hvp as ([] & _ & Hvp).
  apply result_bind_Ok in Hvp as ([] & Hk & _). split; [|done].
  apply result_bind_Ok in Hu as ([] & Hs & _). unfold sameReconcileKey in Hs. inv_ok. gobool. naive_solver.
Qed.

(** C27: The read-back of an indeterminate commit recognises a commit that
    happened: when a transition of the controller did take effect although its
    commit reported an error, and the ledger can be read, then the loaded
    recovery shows the transition as applied, its state at the stored precision,
    its new probe requirement there and the deleted one gone. *)
Theorem readback_recognises_commit t e d d' r :
  controller_transition t →
  ApplyReconcileTransition t NoFault d = (Ok tt, d') →
  loadReconcileRecoveryInTx (transition_node t) d' = Ok r →
  (ApplyReconcileTransition t (FailCommit e true) d).2 = d' ∧ reconcileTransitionApplied r t = true.
Proof.
  intros [Cs Cu Cr] Ha Hr. unfold ApplyReconcileTransition in *.
  destruct (validateReconcileTransition t) as [[]|] eqn:Hv; [|done]. cbn in *.
  destruct (apply_transition t d) as [d1|] eqn:Hb; [|done]. injection Ha as ->. split; [done|].
  apply apply_transition_effect in Hb as (Hst & Hup & Hdel). unfold reconcileTransitionApplied. gobool. split; [split|].
  - destruct (rt_DeleteOnly t) eqn:Hd; [by left|right]. unfold transition_node in Hr. rewrite Hd in Hr.
    destruct (validated_key _ (validated_state _ Hv Hd)) as [Hk Ho].
    pose proof (proj2 (Hst _ _ _ _) (stored_written _ d Cs Ho)) as Hstored.
    destruct (recovery_decodes _ _ _ _ _ _ Hr Hstored) as (s' & Hdec & Hin).
    apply existsb_true_iff. exists s'. split; [done|]. by apply (decode_written _ s').
  - destruct (rt_UpsertProbe t) as [p|] eqn:Hp; [|done].
    destruct (validated_upsert _ _ Hv Hp) as (Hd & Hn & Hk).
    unfold transition_node in Hr. rewrite Hd, <- Hn in Hr. specialize (Hup p eq_refl).
    destruct (recovery_decodes_probe _ _ _ _ Hr Hup eq_refl) as [p' Hdec].
    apply existsb_true_iff. exists p'. split; [apply (recovery_probes _ _ _ _ Hr); eauto|].
    by apply decode_written_probe; [apply Cu|..].
  - destruct (rt_DeleteProbe t) as [q|] eqn:Hq; [|done]. gobool. unfold recoveryHasProbe.
    apply existsb_false_iff. intros p' (row & Hrow & Hn & Hdec)%(recovery_probes _ _ _ _ Hr).
    apply not_true_is_false. intros Hsame%same_probe_key.
    rewrite <- (decode_probe_key _ _ _ Hdec Hn) in Hsame.
    destruct (Hdel q row eq_refl Hrow) as [Hne|(p & Hp & ->)]; [done|]. by apply (Cr p q Hp eq_refl).
Qed.

(** ** Administrator retries *)
Lemma decoded_fields node domain target row s :
  decodeReconcileState node domain target row = Ok s →
  ps_Domain s = domain ∧ ps_RetryEpoch s = sr_RetryEpoch row ∧ (domain = ReconcileDomainTarget → ps_Target s = target).
Proof. unfold decodeReconcileState. intros Hd. inv_ok. destruct domain; inv_ok; naive_solver. Qed.

Lemma recoveryContains_same r s s' :
  s' ∈ rc_States r → samePersistedState s' s = true → UnixMicro (ps_UpdatedAt s') = UnixMicro (ps_UpdatedAt s) →
  recoveryContainsState r s = true.
Proof.
  intros Hin Hs Hu. apply existsb_true_iff. exists s'. split; [done|]. unfold samePersistedState in Hs. gobool. tauto.
Qed.
Lemma recovery_epoch d r s :
  loadReconcileRecoveryInTx (ps_NodeID s) d = Ok r → recoveryContainsState r s = true →
  currentRetryEpoch s d = Ok (ps_RetryEpoch s).
Proof.
  intros Hl (s' & Hin & Hs)%existsb_true_iff. gobool.
  apply (recovery_states _ _ _ _ Hl) in Hin as (domain & target & row & Hst & Hd).
  destruct (decoded_fields _ _ _ _ _ Hd) as (Hdom & He & Ht).
  assert (domain = ps_Domain s) as -> by (rewrite <- Hdom; tauto).
  assert (ps_RetryEpoch s = sr_RetryEpoch row) as -> by (rewrite <- He; symmetry; tauto).
  unfold currentRetryEpoch. destruct (ps_Domain s) eqn:HD; cbn in Hst; [destruct Hst as [-> Hst]..| |done]; cbn.
  - rewrite Hst, Hd. cbn. by rewrite He.
  - rewrite Hst, Hd. cbn. by rewrite He.
  - replace (ps_Target s) with target by (rewrite <- Ht by done; tauto). rewrite Hst.
    unfold decodeReconcileState in Hd. inv_ok. gobool. unfold fail_if.
    replace (sr_RetryEpoch row <? 0) with false by lia. done.
Qed.

Lemma readAudit_written t d :
  ra_ID (rr_Audit t) ≠ EmptyString →
  (∀ x, x ∈ rd_audits d → ar_ID x ≠ ra_ID (rr_Audit t)) →
  readReconcileRetryAudit (ra_ID (rr_Audit t)) d = zero_audit ∧
  ∀ d', rd_audits d' = rd_audits d ++ [reconcileRetryAuditDetails t] →
    readReconcileRetryAudit (ra_ID (rr_Audit t)) d' = reconcileRetryAuditDetails t.
Proof.
  intros Hne Hno. unfold readReconcileRetryAudit.
  assert (list_find (λ r, is_empty (ra_ID (rr_Audit t)) = true ∨ ar_ID r = ra_ID (rr_Audit t)) (rd_audits d) = None)
    as Hnone.
  { apply list_find_None, Forall_forall. intros x Hx [He|He]; [by destruct (ra_ID (rr_Audit t))|by eapply Hno]. }
  rewrite Hnone. split; [done|]. intros d' ->. rewrite list_find_app_r by done. cbn.
  rewrite decide_True by auto. done.
Qed.

Lemma validated_retry t :
  validateReconcileRetryTransition t = Ok tt →
  validatePersistedReconcileState (rr_State t) = Ok tt ∧ ra_ID (rr_Audit t) ≠ EmptyString ∧
  ps_RetryEpoch (rr_State t) = wrap64 (ra_PreviousEpoch (rr_Audit t) + 1).
Proof.
  unfold validateReconcileRetryTransition. intros Hv. apply result_bind_Ok in Hv as ([] & Hs & Hv).
  apply validated_state in Hs; [|done]. inv_ok. gobool. split; [done|]. split; [|tauto].
  intros He. rewrite He in *. cbn in *. naive_solver.
Qed.
Lemma wrap64_succ_ne n : wrap64 (n + 1) ≠ n.
Proof. unfold wrap64. rewrite Z.mod_eq by done. intros H. lia. Qed.

(** What a retry transition leaves in the tables. *)
Lemma apply_retry_effect t d d' :
  apply_retry t d = Ok d' →
  currentRetryEpoch (rr_State t) d = Ok (ra_PreviousEpoch (rr_Audit t)) ∧
  (∀ x, x ∈ rd_audits d → ar_ID x ≠ ra_ID (rr_Audit t)) ∧
  d' = set_audits (upsertReconcileState (rr_State t) d) (rd_audits d ++ [reconcileRetryAuditDetails t]).
Proof.
  unfold apply_retry, writeReconcileRetryAudit. intros Ha. inv_ok. gobool.
  assert (rd_audits (upsertReconcileState (rr_State t) d) = rd_audits d) as Hau
    by (unfold upsertReconcileState; by destruct (ps_Domain (rr_State t))).
  rewrite Hau in *. split; [by rewrite Ha2, Ha3|]. split; [|done].
  intros x Hx He. match goal with H : existsb _ _ = false |- _ => rewrite existsb_false_iff in H; specialize (H x Hx) end.
  gobool. tauto.
Qed.

(** The read-back of an indeterminate administrator retry is exact: when the
    commit of a valid retry transition reports an error, then whether or not the
    transaction took effect, a ledger that can be read answers with the stored
    recovery and with Applied set exactly when the new epoch and its audit record
    were written; the two are never reported apart. *)
Theorem retry_readback_exact t e persisted d d1 r :
  plain (ps_Domain (rr_State t)) (ps_Target (rr_State t)) →
  ApplyReconcileRetryTransition t NoFault d = (Ok tt, d1) →
  let d' := (ApplyReconcileRetryTransition t (FailCommit e persisted) d).2 in
  loadReconcileRecoveryInTx (ps_NodeID (rr_State t)) d' = Ok r →
  ReadReconcileRetryTransition t NoFault d' = Ok (MkReadback r persisted).
Proof.
  intros Hp Ha. unfold ApplyReconcileRetryTransition in *.
  destruct (validateReconcileRetryTransition t) as [[]|] eqn:Hv; [|done]. cbn in *.
  destruct (apply_retry t d) as [d2|] eqn:Hb; [|done]. injection Ha as ->. cbn. intros Hr.
  apply validated_retry in Hv as (Hs & Hid & He). apply apply_retry_effect in Hb as (Hcur & Hno & ->).
  destruct (readAudit_written t d Hid Hno) as [Hzero Hwritten]. unfold read_retry. rewrite Hr. cbn [mbind result_bind].
  destruct persisted; cbn in Hr |- *.
  - destruct (validated_key _ Hs) as [Hk Ho]. pose proof (stored_written _ d Hp Ho) as Hst.
    assert (stored (ps_NodeID (rr_State t)) (set_audits (upsertReconcileState (rr_State t) d)
      (rd_audits d ++ [reconcileRetryAuditDetails t])) (ps_Domain (rr_State t)) (ps_Target (rr_State t))
      (state_row (rr_State t))) as Hst' by (by destruct (ps_Domain (rr_State t))).
    destruct (recovery_decodes _ _ _ _ _ _ Hr Hst') as (s' & Hdec & Hin).
    destruct (decode_written _ _ Hk Hp Hdec) as [Hsame Hup].
    rewrite (recoveryContains_same _ _ _ Hin Hsame Hup), Hwritten, bool_decide_eq_true_2 by done.
    cbn. by rewrite andb_false_r.
  - rewrite Hzero. destruct (recoveryContainsState r (rr_State t)) eqn:Hc.
    { apply (recovery_epoch _ _ _ Hr) in Hc. rewrite Hc in Hcur. injection Hcur as Hcur.
      exfalso. apply (wrap64_succ_ne (ra_PreviousEpoch (rr_Audit t))). congruence. }
    rewrite bool_decide_eq_false_2; [done|]. intros Hz. apply (f_equal ar_ID) in Hz. cbn in Hz. by destruct Hid.
Qed.

(** ** Versions of the target rows *)
(** Generation, retry epoch and attempt, compared in this order. *)
Definition version (row : reconcileStateRow) : Z * Z * Z :=
  (sr_Key row, sr_RetryEpoch row, sr_AttemptCount row).
Definition version_le (a b : Z * Z * Z) : Prop :=
  let '(g, e, n) := a in let '(g', e', n') := b in
  g < g' ∨ (g = g' ∧ (e < e' ∨ (e = e' ∧ n ≤ n'))).
#[export] Instance version_le_preorder : PreOrder version_le.
Proof. split; [intros [[]]|intros [[]] [[]] [[]]]; cbn; lia. Qed.

(** Every target row stays, with a version that is not smaller. *)
Definition targets_le (d d' : reconcile_db) : Prop :=
  ∀ k row, rd_targets d !! k = Some row →
  ∃ row', rd_targets d' !! k = Some row' ∧ version_le (version row) (version row').
#[export] Instance targets_le_preorder : PreOrder targets_le.
Proof.
  split; [by intros d k row ?; exists row|].
  intros a b c Hab Hbc k row Hr. destruct (Hab k row Hr) as (r1 & H1 & L1).
  destruct (Hbc k r1 H1) as (r2 & H2 & L2). exists r2. split; [done|by etransitivity].
Qed.

Lemma upsert_targets_le s d :
  rejectReconcileRegression s d = Ok tt → (∀ n, ps_Domain s ≠ ReconcileDomainOther n) →
  targets_le d (upsertReconcileState s d).
Proof.
  intros Hrej Ho. unfold upsertReconcileState. destruct (ps_Domain s) eqn:Hd;
    try (by edestruct Ho); intros k row Hrow; try (exists row; split; [exact Hrow|reflexivity]).
  cbn [rd_targets set_states]. destruct (decide (k = (ps_NodeID s, ps_Target s))) as [->|Hne];
    [|exists row; split; [by rewrite lookup_insert_ne by congruence|reflexivity]].
  exists (state_row s). rewrite lookup_insert_eq. split; [done|].
  unfold rejectReconcileRegression in Hrej. rewrite Hd, Hrow in Hrej. inv_ok. gobool.
  unfold compareReconcileVersion, domainKey in Hrej. rewrite Hd in Hrej. cbn in Hrej.
  unfold version, version_le, state_row, domainKey. rewrite Hd. cbn.
  repeat (break_if; try lia).
Qed.

(** A call of the store with what the driver does to its transaction. *)
Inductive ledger_call :=
  | CallTransition (t : ReconcileStateTransition) (f : fault)
  | CallRetry (t : ReconcileRetryTransition) (f : fault)
  | CallObserved (u : ObservedFirewallUpdate) (f : fault).
Definition call_db (c : ledger_call) (d : reconcile_db) : reconcile_db :=
  match c with
  | CallTransition t f => (ApplyReconcileTransition t f d).2
  | CallRetry t f => (ApplyReconcileRetryTransition t f d).2
  | CallObserved u f => (ReconcileStore.ApplyObservedFirewallUpdate u f d).2
  end.
Definition call_dbs (calls : list ledger_call) (d : reconcile_db) : reconcile_db :=
  foldl (λ d c, call_db c d) d calls.

Lemma targets_le_stored d d' :
  (∀ node tg row, stored node d' ReconcileDomainTarget tg row ↔ stored node d ReconcileDomainTarget tg row) →
  targets_le d d'.
Proof. intros Hs [node tg] row Hr. exists row. split; [by apply (Hs node tg row)|done]. Qed.

Lemma call_db_targets_le c d : targets_le d (call_db c d).
Proof.
  destruct c as [t f|t f|u f]; cbn.
  - unfold ApplyReconcileTransition. destruct (validateReconcileTransition t) as [[]|] eqn:Hv; [|done].
    destruct (write_tx_db "apply reconcile transition" f (apply_transition t) d) as [->|Hb]; [done|].
    destruct (apply_transition_effect _ _ _ Hb) as [Hst _]. destruct (rt_DeleteOnly t) eqn:Hd.
    { apply targets_le_stored. intros. apply Hst. }
    etransitivity; [apply upsert_targets_le|apply targets_le_stored; intros; apply Hst].
    + unfold apply_transition in Hb. rewrite Hd in Hb. inv_ok. done.
    + by apply validated_key, validated_state.
  - unfold ApplyReconcileRetryTransition. destruct (validateReconcileRetryTransition t) as [[]|] eqn:Hv; [|done].
    destruct (write_tx_db "apply reconcile retry transition" f (apply_retry t) d) as [->|Hb]; [done|].
    pose proof (apply_retry_effect _ _ _ Hb) as (_ & _ & Heq). rewrite Heq.
    etransitivity; [apply (upsert_targets_le (rr_State t))|apply targets_le_stored; reflexivity].
    + unfold apply_retry in Hb. inv_ok. done.
    + by apply validated_key, validated_retry.
  - unfold ReconcileStore.ApplyObservedFirewallUpdate. destruct (validateObservedFirewallUpdate u); [|done].
    edestruct write_tx_db as [Hd|Hd]; [by rewrite Hd|]. cbn beta in Hd. inv_ok.
    match goal with H : set_observed _ _ = _ |- _ => rewrite <- H end. apply targets_le_stored. reflexivity.
Qed.

(** C26: The durable ledger of a target never moves back: over any sequence of
    transitions, administrator retries and observed updates, each committed,
    refused, rolled back or of unknown outcome, a target row stays in the table
    and its generation, retry epoch and attempt number never decrease in this
    lexicographic order. *)
Theorem target_ledger_never_regresses calls d : targets_le d (call_dbs calls d).
Proof.
  unfold call_dbs. revert d. induction calls as [|c calls IH]; intros d; cbn; [done|].
  etransitivity; [apply call_db_targets_le|apply IH].
Qed.
