(* ===== verification/Lab.v ===== *)
(** * A complete system around the reconcile controller

    The in-memory firewall, the SQLite retry ledger and a clock as the ports of
    the controller. What the outside decides (cancelled calls, transaction
    faults, published snapshots, ticks of the clock) is a list of choices; a
    list that has run out means that nothing unusual happens. *)

From S2P Require Import Prelude GoStd GoFmt Sha256 Netip Identity CoreModel Enforcement.
From S2P Require Import ObservedState ReconcilePlan ObservedStore ReconcileStore Controller FakeBackend.
From S2P Require Import ControllerOps ControllerFences ControllerBarrier ControllerSafety ControllerConfirm ReconcileLedger.

Record lab := MkLab {
  lb_now : time;
  lb_ticks : list duration;
  lb_fake : FakeBackend;
  lb_cancelled : list (option error);
  lb_db : reconcile_db;
  lb_faults : list fault;
  lb_audits : list CriticalAuditEvent;
  lb_published : list (list DesiredFirewallSnapshot);
  lb_picks : list (list nat)
}.
Definition next {A} (l : list A) (otherwise : A) : A * list A :=
  match l with [] => (otherwise, []) | x :: rest => (x, rest) end.

Definition set_fake (e : lab) fake cancelled : lab :=
  MkLab (lb_now e) (lb_ticks e) fake cancelled (lb_db e) (lb_faults e) (lb_audits e) (lb_published e) (lb_picks e).
Definition set_db (e : lab) db faults : lab :=
  MkLab (lb_now e) (lb_ticks e) (lb_fake e) (lb_cancelled e) db faults (lb_audits e) (lb_published e) (lb_picks e).

(** The clock: each reading is one tick later, a second unless the list says. *)
#[export] Instance lab_clock : Clock lab := {|
  env_Now e :=
    let '(tick, ticks) := next (lb_ticks e) second in
    (lb_now e, MkLab (lb_now e + tick) ticks (lb_fake e) (lb_cancelled e) (lb_db e) (lb_faults e)
                 (lb_audits e) (lb_published e) (lb_picks e))
|}.
#[export] Instance lab_audit : CriticalAuditWriter lab := {|
  env_AppendCriticalAudit a e :=
    (Ok tt, MkLab (lb_now e) (lb_ticks e) (lb_fake e) (lb_cancelled e) (lb_db e) (lb_faults e)
              (lb_audits e ++ [a]) (lb_published e) (lb_picks e))
|}.
#[export] Instance lab_scheduler : Scheduler lab := {|
  env_Published e :=
    let '(l, rest) := next (lb_published e) [] in
    (l, MkLab (lb_now e) (lb_ticks e) (lb_fake e) (lb_cancelled e) (lb_db e) (lb_faults e)
          (lb_audits e) rest (lb_picks e));
  env_Picks e :=
    let '(l, rest) := next (lb_picks e) [] in
    (l, MkLab (lb_now e) (lb_ticks e) (lb_fake e) (lb_cancelled e) (lb_db e) (lb_faults e)
          (lb_audits e) (lb_published e) rest)
|}.

Definition read_lab {A} (read : fault → reconcile_db → result A) : ST lab A := λ e,
  let '(f, rest) := next (lb_faults e) NoFault in (read f (lb_db e), set_db e (lb_db e) rest).
Definition write_lab (write : fault → reconcile_db → result unit * reconcile_db) : ST lab unit := λ e,
  let '(f, rest) := next (lb_faults e) NoFault in
  let '(r, d) := write f (lb_db e) in (r, set_db e d rest).

#[export] Instance lab_store : PersistentStateStore lab := {|
  env_LoadReconcileRecovery node := read_lab (ReconcileStore.LoadReconcileRecovery node);
  env_ApplyReconcileTransition t := write_lab (ApplyReconcileTransition t);
  env_ApplyReconcileRetryTransition t := write_lab (ApplyReconcileRetryTransition t);
  env_ReadReconcileRetryTransition t := read_lab (ReadReconcileRetryTransition t);
  env_LoadObservedFirewallSnapshot node := read_lab (ReconcileStore.LoadObservedFirewallSnapshot node);
  env_ApplyObservedFirewallUpdate u := write_lab (ReconcileStore.ApplyObservedFirewallUpdate u)
|}.

Section backend.
Context {U : Unicode}.
#[export] Instance lab_backend : Backend lab := {|
  env_Probe e :=
    let '(cancelled, rest) := next (lb_cancelled e) None in
    let '(r, b) := Fake_Probe cancelled (lb_fake e) in (r, set_fake e b rest);
  env_Apply plan e :=
    let '(cancelled, rest) := next (lb_cancelled e) None in
    let '(r, b) := Fake_Apply cancelled (lb_now e) plan (lb_fake e) in (r, set_fake e b rest);
  env_RequiresFreshBasis := false
|}.
End backend.

(** ** The ledger keeps its requirements *)
(** What the tables of a node hold; rows that do not decode are still rows. *)
Definition raw_probe (r : reconcileProbeRequirementRow) : PersistedProbeRequirement :=
  MkPersistedProbe (qr_NodeID r) (ReconcileDomainOther 0) (qr_InfrastructureRevision r)
    (qr_PolicyRevision r) (default zero_prefix (qr_CanonicalTarget r)) (qr_TargetEnforcementGeneration r)
    (qr_SnapshotRevision r) (qr_FenceSnapshotRevision r =? 1) (qr_RetryEpoch r) (qr_AttemptCount r)
    (from_UnixMicro (qr_RecordedAtUS r)).
Definition stored_recovery (node : NodeID) (d : reconcile_db) : ReconcileRecoverySnapshot :=
  match loadReconcileRecoveryInTx node d with
  | Ok r => r
  | Err _ => MkRecovery [] (raw_probe <$> probe_rows node d)
  end.
Definition has_row (node : NodeID) (d : reconcile_db) : Prop :=
  ∃ r, r ∈ rd_probes d ∧ qr_NodeID r = node.

Lemma decode_all_length {A B} (f : A → result B) l ys : decode_all f l = Ok ys → length ys = length l.
Proof.
  revert ys. induction l as [|x l IH]; intros ys Hd; cbn in Hd; inv_ok; [done|].
  cbn. by rewrite (IH _ Hd1).
Qed.
Lemma probe_rows_iff node d : probe_rows node d ≠ [] ↔ has_row node d.
Proof.
  unfold probe_rows, has_row. split.
  - intros Hne. destruct (sort_slice _ _) as [|r l] eqn:Hs; [done|]. exists r.
    assert (r ∈ base.filter (λ r, qr_NodeID r = node) (rd_probes d)) as Hr
      by (eapply elem_of_sort_slice; rewrite Hs; left).
    apply list_elem_of_filter in Hr. tauto.
  - intros (r & Hr & Hn) Hnil.
    assert (r ∈ base.filter (λ r, qr_NodeID r = node) (rd_probes d)) as Hf by by apply list_elem_of_filter.
    apply elem_of_sort_slice with (less := λ a b, column_less (probe_order a) (probe_order b)) in Hf.
    rewrite Hnil in Hf. by apply elem_of_nil in Hf.
Qed.
Lemma required_iff node d : required (stored_recovery node d) ↔ has_row node d.
Proof.
  rewrite <- probe_rows_iff. unfold required, stored_recovery.
  destruct (loadReconcileRecoveryInTx node d) as [r|e] eqn:Hl; cbn.
  - unfold loadReconcileRecoveryInTx in Hl. inv_ok. cbn.
    match goal with H : decode_all _ (probe_rows _ _) = _ |- _ => apply decode_all_length in H end.
    rewrite <- !length_zero_iff_nil. lia.
  - by rewrite <- !length_zero_iff_nil, length_fmap.
Qed.

Lemma upsertReconcileState_probes s d : rd_probes (upsertReconcileState s d) = rd_probes d.
Proof. unfold upsertReconcileState. by destruct (ps_Domain s). Qed.
Lemma upsertProbe_rows p d d' node :
  upsertProbeRequirement p d = Ok d' →
  (pp_NodeID p = node → has_row node d') ∧ (has_row node d → has_row node d').
Proof.
  unfold upsertProbeRequirement, has_row. set (row := reconcileProbeRequirementFromCore p).
  destruct (existsb (λ r, bool_decide (probe_key r = probe_key row)) (rd_probes d)) eqn:Hk.
  - intros [= <-]. cbn. apply existsb_true_iff in Hk as (r0 & Hr0 & Hk0). gobool. split.
    + intros <-. exists row. split; [|done]. apply list_elem_of_fmap. exists r0.
      by rewrite bool_decide_eq_true_2.
    + intros (r & Hr & Hn).
      exists (if bool_decide (probe_key r = probe_key row) then row else r). split.
      * apply list_elem_of_fmap. eauto.
      * case_bool_decide as He; [|done]. unfold probe_key, probe_fence in He. congruence.
  - clear Hk. cbn iota. destruct (existsb _ _); [done|]. intros [= <-]. cbn. split.
    + intros <-. exists row. split; [|done]. apply elem_of_app. right. by left.
    + intros (r & Hr & Hn). exists r. split; [|done]. apply elem_of_app. by left.
Qed.

Lemma apply_transition_rows t d d' node :
  apply_transition t d = Ok d' → match rt_UpsertProbe t with Some p => pp_NodeID p = node | None => True end →
  (rt_UpsertProbe t ≠ None → has_row node d') ∧ (rt_DeleteProbe t = None → has_row node d → has_row node d').
Proof.
  unfold apply_transition. intros Ha Hn.
  apply result_bind_Ok in Ha as (? & _ & Ha). apply result_bind_Ok in Ha as (? & _ & Ha).
  apply result_bind_Ok in Ha as (d1 & Hdel & Ha). apply result_bind_Ok in Ha as (d2 & Hup & Ha).
  assert (rd_probes d' = rd_probes d2) as Hp by (destruct (rt_Observed t); inv_ok; by subst).
  set (d1' := if rt_DeleteOnly t then d1 else upsertReconcileState (rt_State t) d1) in *.
  assert (rd_probes d1' = rd_probes d1) as Hp1
    by (unfold d1'; destruct (rt_DeleteOnly t); [done|apply upsertReconcileState_probes]).
  unfold has_row in *. rewrite Hp. destruct (rt_UpsertProbe t) as [p|]; inv_ok.
  - apply (upsertProbe_rows _ _ _ node) in Hup as [Hu Hk]. split; [intros _; by apply Hu|].
    intros Hd. rewrite Hd in Hdel. inv_ok. unfold has_row in Hk. rewrite Hp1 in Hk. done.
  - split; [done|]. intros Hd. rewrite Hd in Hdel. inv_ok. by rewrite Hp1.
Qed.

(** The store is a durable store. *)
Section durable.
Context {U : Unicode}.
#[export] Instance lab_durable : DurableStore lab.
Proof.
  refine {| durable node e := stored_recovery node (lb_db e) |}.
  - intros n e. cbn. by destruct (next _ _).
  - intros n e. cbn. destruct (next _ _). by destruct (Fake_Probe _ _).
  - intros n p e. cbn. destruct (next _ _). by destruct (Fake_Apply _ _ _ _).
  - done.
  - intros n e. cbn. by destruct (next _ _).
  - intros n e. cbn. by destruct (next _ _).
  - intros n m e. cbn. unfold read_lab. by destruct (next _ _).
  - intros n u e. cbn. unfold write_lab. destruct (next _ _) as [f rest].
    destruct (ReconcileStore.ApplyObservedFirewallUpdate u f (lb_db e)) as [r d'] eqn:Ha. cbn.
    assert (d' = lb_db e ∨ ∃ o, d' = set_observed (lb_db e) o) as [->|[o ->]]; [|done|].
    { unfold ReconcileStore.ApplyObservedFirewallUpdate in Ha.
      destruct (validateObservedFirewallUpdate u); [|injection Ha as <- <-; by left].
      apply write_tx_cases in Ha.
      assert (∀ d1, (requireObservedNodeIdentity (ou_NodeID u) (lb_db e);;
        o ← writeObservedFirewallUpdate u (rd_observed (lb_db e)); Ok (set_observed (lb_db e) o)) = Ok d1 →
        ∃ o, d1 = set_observed (lb_db e) o) as Hb by (intros d1 Hb; inv_ok; eauto).
      destruct r; [right; by apply Hb|]. destruct Ha as [|[_ Ha]]; [by left|right; by apply Hb]. }
    done.
  - intros n m e. cbn. unfold read_lab. by destruct (next _ _).
  - intros n e r. cbn. unfold read_lab. destruct (next _ _) as [f rest]. cbn.
    unfold ReconcileStore.LoadReconcileRecovery. destruct (negb _); [done|].
    intros Hr%read_tx_Ok. unfold stored_recovery. by rewrite Hr.
  - intros n t e. cbn. unfold read_lab. by destruct (next _ _).
  - intros t e r. cbn. unfold read_lab. destruct (next _ _) as [f rest]. cbn.
    intros Hr%read_tx_Ok. unfold read_retry in Hr. inv_ok. cbn. unfold stored_recovery.
    by rewrite Hr0.
  - intros n t e. cbn. unfold write_lab. destruct (next _ _) as [f rest].
    destruct (ApplyReconcileRetryTransition t f (lb_db e)) as [r d'] eqn:Ha. cbn.
    rewrite !required_iff. intros (row & Hrow & Hn). exists row. split; [|done].
    assert (rd_probes d' = rd_probes (lb_db e)) as ->; [|done].
    unfold ApplyReconcileRetryTransition in Ha.
    destruct (validateReconcileRetryTransition t); [|by injection Ha as <- <-].
    apply write_tx_cases in Ha.
    assert (∀ d1, apply_retry t (lb_db e) = Ok d1 → rd_probes d1 = rd_probes (lb_db e)) as Hb.
    { intros d1 Hb. unfold apply_retry, writeReconcileRetryAudit in Hb. inv_ok. cbn.
      apply upsertReconcileState_probes. }
    destruct r; [by apply Hb|]. destruct Ha as [->|[_ Ha]]; [done|by apply Hb].
  - intros n t e Hn. cbn. unfold write_lab. destruct (next _ _) as [f rest].
    destruct (ApplyReconcileTransition t f (lb_db e)) as [r d'] eqn:Ha. cbn.
    unfold ApplyReconcileTransition in Ha.
    destruct (validateReconcileTransition t); [|injection Ha as <- <-; by left].
    apply write_tx_cases in Ha.
    assert (∀ d1, apply_transition t (lb_db e) = Ok d1 →
      probes_applied t (stored_recovery n (lb_db e)) (stored_recovery n d1)) as Hb.
    { intros d1 Hb. unfold probes_applied. rewrite !required_iff. by apply apply_transition_rows. }
    destruct r as [[]|x]; [by apply Hb|].
    destruct Ha as [->|[Hx Ha]]; [by left|right; split; [done|by apply Hb]].
Defined.
End durable.

(** ** Runs *)
Section runs.
Context {U : Unicode}.

(** An operation, or a restart of the process over the same database. *)
Inductive lab_step := Run (o : operation) | Restart.
Definition lab_do (w : world lab) (s : lab_step) : world lab :=
  match s with
  | Run o => run_op o w
  | Restart =>
    if c_hasStore (w_c w) then
      match NewPersistentController (c_nodeID (w_c w)) w with
      | (Ok c, w') => MkWorld c (w_e w') (w_trace w')
      | (Err _, _) => w
      end
    else w
  end.
Definition lab_run (w : world lab) (steps : list lab_step) : world lab := foldl lab_do w steps.
Definition lab_open (node : NodeID) (e : lab) : world lab :=
  match NewPersistentController node (MkWorld NewController e []) with
  | (Ok c, w) => MkWorld c (w_e w) (w_trace w)
  | (Err _, _) => MkWorld NewController e []
  end.

Lemma lab_open_reachable node e : reachable (lab_open node e).
Proof.
  unfold lab_open. destruct (NewPersistentController _ _) as [[c|] w] eqn:Hn; [|constructor].
  by eapply reach_open.
Qed.
Lemma lab_run_reachable w steps : reachable w → reachable (lab_run w steps).
Proof.
  unfold lab_run. revert w. induction steps as [|s steps IH]; intros w Hw; cbn; [done|].
  apply IH. destruct s as [o|]; cbn; [by constructor|].
  destruct (c_hasStore (w_c w)) eqn:Hs; [|done].
  destruct (NewPersistentController _ _) as [[c|] w'] eqn:Hn; [|done]. by eapply reach_restart.
Qed.
End runs.

(** ** A sample: one target, a database with its desired row *)
Definition lab_intent : NormalizedTargetEnforcementIntent :=
  MkIntent sample_node sample_target BanPresent None TimeoutNone 3 AddressFamilyIPv4 PolicyCoverageNone
    EmptyString "owner" 1.
Definition lab_desired : DesiredFirewallSnapshot :=
  MkDesired 1 1 1 (MkInfrastructure "nftables" "owner" "digest") (MkPolicy "relation" None None)
    [lab_intent].
Definition empty_observed : targetObservedRow :=
  MkTargetObservedRow 1 "unknown" None "complete" EmptyString "unknown" EmptyString "none" None 0 0
    EmptyString EmptyString None.
Definition lab_db0 : reconcile_db :=
  MkReconcileDb (Some sample_node) None None ∅ [] []
    (MkObservedTables None None {[(sample_node, sample_target) := empty_observed]}).
Definition lab_env (fake : FakeBackend) (faults : list fault) : lab :=
  MkLab sample_time [] fake [] lab_db0 faults [] [] [].

Definition bind_plan (p : OperationPlan) : OperationPlan := @with_basis ascii_only p EmptyString.
Definition target_plan : OperationPlan :=
  bind_plan (MkPlan DomainTarget sample_target lab_intent
    (MkInfrastructure EmptyString EmptyString EmptyString) (MkPolicy EmptyString None None)
    0 0 (ti_Generation lab_intent) 0 false EmptyString EmptyString).
(** A backend whose next answers for targets are unknown. *)
Definition unknown_fake (mutates : list bool) : FakeBackend :=
  MkFake None None ∅ {[DomainTarget := (λ m, MkOutcome ResultUnknown m EmptyString) <$> mutates]} 0 0.

Definition is_apply (ev : event) : bool := negb (not_apply ev).
Definition applies (w : world lab) : list event := List.filter is_apply (w_trace w).

Section scenarios.
Local Existing Instance ascii_only.

(** A mutation of unknown outcome, its recording lost at the commit, a restart,
    and the retry, which probes first. *)
Definition blind_run : world lab :=
  lab_run (lab_open sample_node (lab_env (unknown_fake [false])
             [NoFault; NoFault; NoFault; FailCommit (Errorf "disk I/O error") false]))
    [Run (OpSetDesired lab_desired); Run (OpExecute target_plan); Restart;
     Run (OpSetDesired lab_desired); Run (OpExecute target_plan)].

Lemma applies_are_settled_witness :
  length (applies blind_run) = 2%nat ∧ settled_applies (w_trace blind_run) = true.
Proof.
  split; [vm_compute; reflexivity|].
  apply (applies_are_settled blind_run), lab_run_reachable, lab_open_reachable.
Defined.

(** A healthy backend: one Apply confirms the target. *)
Definition healthy_fake : FakeBackend := MkFake None None ∅ ∅ 0 0.
Definition healthy_run : world lab :=
  lab_run (lab_open sample_node (lab_env healthy_fake []))
    [Run (OpSetDesired lab_desired); Run (OpExecute target_plan)].

Lemma confirmed_targets_were_probed_witness :
  ConfirmedTarget (w_c healthy_run) sample_target = Some 1 ∧ shown healthy_run sample_target 1.
Proof.
  assert (ConfirmedTarget (w_c healthy_run) sample_target = Some 1) as Hc by (vm_compute; reflexivity).
  split; [exact Hc|]. apply (confirmed_targets_were_probed healthy_run sample_target 1); [|exact Hc].
  apply lab_run_reachable, lab_open_reachable.
Defined.

(** The plan of generation 1 and a snapshot with one scope less at generation 2. *)
Definition lab_desired2 : DesiredFirewallSnapshot :=
  MkDesired 2 1 1 (fs_Infrastructure lab_desired) (fs_Policy lab_desired)
    [MkIntent sample_node sample_target BanPresent None TimeoutNone 1 AddressFamilyIPv4 PolicyCoverageNone
       EmptyString "owner" 2].
Definition desired_run : world lab :=
  run_ops [OpSetDesired lab_desired] (lab_open sample_node (lab_env healthy_fake [])).
Definition moved_run : world lab := run_ops [OpExecute target_plan; OpSetDesired lab_desired2] desired_run.

Lemma fence_identifies_plan_witness :
  planMatchesCurrentDesiredLocked (w_c moved_run) target_plan = false ∧
  desired_le (w_c desired_run) (w_c moved_run).
Proof.
  assert (planMatchesCurrentDesiredLocked (w_c desired_run) target_plan = true) as Hm by (vm_compute; reflexivity).
  destruct (fence_identifies_plan [OpExecute target_plan; OpSetDesired lab_desired2] desired_run target_plan Hm)
    as [Hd Hp].
  split; [|exact Hd]. etransitivity; [exact Hp|]. vm_compute. reflexivity.
Defined.
End scenarios.

(** ** Transitions of the ledger *)
Definition ledger_state (status : ReconcileStatus) (epoch attempt : Z) (next : option time) : PersistedReconcileState :=
  MkPersistedState sample_node ReconcileDomainTarget 0 0 sample_target 1 epoch
    (MkRetryState status attempt (if attempt =? 0 then None else Some sample_time) next EmptyString) sample_time.
Definition ledger_probe : PersistedProbeRequirement :=
  MkPersistedProbe sample_node ReconcileDomainTarget 0 0 sample_target 1 0 false 0 1 sample_time.
Definition ledger_transition : ReconcileStateTransition :=
  MkTransition (ledger_state ReconcileApplying 0 1 None) (Some ledger_probe) None None false.
Definition ledger_retry : ReconcileRetryTransition :=
  MkRetryTransition (ledger_state ReconcilePending 1 0 None)
    (MkRetryAudit "audit" "key" sample_node "administrator" 0 sample_time).

Lemma readback_recognises_commit_witness :
  let d' := (ApplyReconcileTransition ledger_transition NoFault lab_db0).2 in
  ∃ r, loadReconcileRecoveryInTx sample_node d' = Ok r ∧ length (rc_ProbeRequirements r) = 1%nat ∧
       reconcileTransitionApplied r ledger_transition = true.
Proof.
  eexists. split; [vm_compute; reflexivity|]. split; [reflexivity|].
  apply (readback_recognises_commit ledger_transition (Errorf "disk I/O error") lab_db0
           (ApplyReconcileTransition ledger_transition NoFault lab_db0).2).
  - split; [by left|by intros p [= <-]; left|done].
  - vm_compute. reflexivity.
  - vm_compute. reflexivity.
Defined.

Lemma retry_readback_exact_witness :
  let d' := (ApplyReconcileRetryTransition ledger_retry (FailCommit (Errorf "disk I/O error") true) lab_db0).2 in
  ∃ r, length (rc_States r) = 1%nat ∧
       ReadReconcileRetryTransition ledger_retry NoFault d' = Ok (MkReadback r true).
Proof.
  eexists (MkRecovery [ledger_state ReconcilePending 1 0 None] []). split; [reflexivity|].
  apply (retry_readback_exact ledger_retry (Errorf "disk I/O error") true lab_db0
           (ApplyReconcileRetryTransition ledger_retry NoFault lab_db0).2).
  - by left.
  - vm_compute. reflexivity.
  - vm_compute. reflexivity.
Defined.

(** A next attempt that follows the last one by less than a microsecond is
    accepted and stored, and the ledger cannot be read afterwards; the row that
    cannot be read no longer stops an older infrastructure revision. *)
Definition infra_state (revision : Z) (status : ReconcileStatus) (next : option time) : PersistedReconcileState :=
  MkPersistedState sample_node ReconcileDomainInfrastructure revision 0 zero_prefix 0 0
    (MkRetryState status 1 (Some sample_time) next EmptyString) sample_time.
Definition infra_transition (s : PersistedReconcileState) : ReconcileStateTransition := MkTransition s None None None false.
Lemma submicrosecond_wait_unreadable :
  let waiting := infra_transition (infra_state 9 ReconcileRetryWaiting (Some (sample_time + 1))) in
  let older := infra_transition (infra_state 1 ReconcileDegraded None) in
  let '(r1, d1) := ApplyReconcileTransition waiting NoFault lab_db0 in
  let '(r2, d2) := ApplyReconcileTransition older NoFault d1 in
  r1 = Ok tt ∧ (∃ e, ReconcileStore.LoadReconcileRecovery sample_node NoFault d1 = Err e) ∧
  r2 = Ok tt ∧ sr_Key <$> rd_infra d1 = Some 9 ∧ sr_Key <$> rd_infra d2 = Some 1.
Proof. vm_compute. split; [done|]. split; [by eexists|done]. Qed.
