(* ===== verification/Convergence.v ===== *)
(** * Convergence of the reconcile controller

    What Execute achieves when nothing goes wrong: an in-memory controller over a
    healthy simulated firewall brings the firewall to the desired state in one
    mutation and records it as converged. *)

From S2P Require Import Prelude GoStd GoFmt Sha256 Netip Identity CoreModel Enforcement.
From S2P Require Import ObservedState ReconcilePlan ObservedStore ReconcileStore Controller FakeBackend.
From S2P Require Import ControllerOps Lab.

Section convergence.
Context {U : Unicode}.

(** A laboratory in which nothing unusual happens: no call is cancelled and no
    snapshot is published meanwhile. *)
Record undisturbed (e : lab) : Prop := {
  ud_ticks : lb_ticks e = [];
  ud_cancelled : lb_cancelled e = [];
  ud_published : lb_published e = []
}.

(** The plan may be executed: it is valid and current, no probe is required, its
    budget is not spent, its next attempt is due and its target does not expire
    within the four readings of the clock. *)
Record ready (w : world lab) (plan : OperationPlan) : Prop := {
  ry_memory : c_hasStore (w_c w) = false;
  ry_reload : c_recoveryReloadNeeded (w_c w) = false;
  ry_pending : lg_pendingProbes (c_ledger (w_c w)) = ∅;
  ry_startup : c_startupProbeRequired (w_c w) = false;
  ry_valid : ValidatePlan plan = Ok tt;
  ry_current : planMatchesCurrentDesiredLocked (w_c w) plan = true;
  ry_alive : match ti_EffectiveUntil (op_DesiredTarget plan) with
             | Some until => lb_now (w_e w) + 4 * second < until
             | None => True
             end;
  ry_budget : let s := default pending_state (attemptStateLocked (w_c w) plan).2 in
    rs_Status s ≠ ReconcileDegraded ∧ rs_AttemptCount s < maxMutationAttempts ∧
    match rs_NextAttemptAt s with Some next => next ≤ lb_now (w_e w) | None => True end;
  ry_env : undisturbed (w_e w);
  ry_healthy : fk_outcomes (lb_fake (w_e w)) !! op_Domain plan = None
}.

(** Only the clock moved. *)
Definition ticked (n : Z) (w w' : world lab) : Prop :=
  w_c w' = w_c w ∧ w_trace w' = w_trace w ∧ undisturbed (w_e w') ∧ lb_fake (w_e w') = lb_fake (w_e w) ∧
  lb_now (w_e w) ≤ lb_now (w_e w') ≤ lb_now (w_e w) + n * second.

Lemma interleave_undisturbed w : undisturbed (w_e w) → interleave w = (Ok tt, w).
Proof.
  destruct w as [c [now ticks fake cancelled db faults audits published picks] tr]. by intros [_ _ [= ->]].
Qed.
Lemma locked_undisturbed {A} (m : M lab A) w : undisturbed (w_e w) → locked m w = m w.
Proof. intros Hu. unfold locked. by rewrite (bind_step _ _ _ _ _ (interleave_undisturbed w Hu)). Qed.
Lemma Now_undisturbed w : undisturbed (w_e w) →
  ∃ w', Now w = (Ok (lb_now (w_e w)), w') ∧ ticked 1 w w'.
Proof.
  destruct w as [c [now ticks fake cancelled db faults audits published picks] tr].
  intros [[= ->] [= ->] [= ->]]. eexists. split; [done|]. repeat split; cbn; unfold second; lia.
Qed.

Lemma fence_undisturbed plan w :
  undisturbed (w_e w) →
  match ti_EffectiveUntil (op_DesiredTarget plan) with Some until => lb_now (w_e w) < until | None => True end →
  ∃ w', targetExpirationFenceLocked plan w = (Ok tt, w') ∧ ticked 1 w w'.
Proof.
  intros Hu Ha. unfold targetExpirationFenceLocked.
  assert (ticked 1 w w) as Hsame by (repeat split; unfold second; try apply Hu; lia).
  destruct (ti_EffectiveUntil (op_DesiredTarget plan)) as [until|]; [|by eauto].
  destruct (_ || _); [by eauto|]. destruct (Now_undisturbed w Hu) as (w' & Hn & Ht). exists w'.
  rewrite (bind_step _ _ _ _ _ Hn). unfold After. replace (lb_now (w_e w) <? until) with true by lia. done.
Qed.

Lemma ticked_trans n m w1 w2 w3 : ticked n w1 w2 → ticked m w2 w3 → ticked (n + m) w1 w3.
Proof.
  intros (C1 & T1 & U1 & F1 & B1) (C2 & T2 & U2 & F2 & B2).
  split; [congruence|]. split; [congruence|]. split; [done|]. split; [congruence|]. lia.
Qed.

Definition applying_state (s : RetryState) (now : time) : RetryState :=
  MkRetryState ReconcileApplying (rs_AttemptCount s + 1) (Some now) None EmptyString.

Lemma planMatches_known_domain c plan n : planMatchesCurrentDesiredLocked c plan = true → op_Domain plan ≠ DomainOther n.
Proof. unfold planMatchesCurrentDesiredLocked. intros Hm Hd. rewrite Hd in Hm. by rewrite andb_false_r in Hm. Qed.
Lemma putState_valid c plan s (w : world lab) :
  planMatchesCurrentDesiredLocked c plan = true →
  putState (attempt_ref (w_c w) plan) s w
  = (Ok tt, MkWorld (put_state (attempt_ref (w_c w) plan) s (w_c w)) (w_e w) (w_trace w)).
Proof.
  intros Hm. pose proof (planMatches_known_domain _ _ 0 Hm) as Hd. unfold attempt_ref, putState.
  destruct (op_Domain plan) eqn:Hdom; try done. by eapply planMatches_known_domain in Hm.
Qed.

(** A controller in memory persists nothing. *)
Lemma memory_persist ref state up down observed (w : world lab) :
  c_hasStore (w_c w) = false → persistStateWithObservedLocked ref state up down observed w = (Ok tt, w).
Proof. intros Hm. unfold persistStateWithObservedLocked, get_c. run. by rewrite Hm. Qed.
Lemma memory_applying ref state key previous (w : world lab) :
  c_hasStore (w_c w) = false → persistApplyingStateLocked ref state key previous w = (Ok tt, w).
Proof. intros Hm. unfold persistApplyingStateLocked, get_c. run. by rewrite Hm. Qed.
Lemma memory_observed sn (w : world lab) :
  c_hasStore (w_c w) = false → observedUpdateForSnapshotLocked sn w = (Ok None, w).
Proof. intros Hm. unfold observedUpdateForSnapshotLocked, get_c. run. by rewrite Hm. Qed.
Lemma wrap_step {A} msg (m : M lab A) w a w' : m w = (Ok a, w') → st_wrap msg m w = (Ok a, w').
Proof. unfold st_wrap. by intros ->. Qed.
Lemma try_step {A} (m : M lab A) w r w' : m w = (r, w') → st_try m w = (Ok r, w').
Proof. unfold st_try. by intros ->. Qed.

(** The controller after the attempt has begun, with the time of its start. *)
Definition begun (c : Controller) (plan : OperationPlan) (now : time) : Controller :=
  put_pending (pendingProbeKeyForPlan plan) (attempt_ref c plan)
    (put_state (attempt_ref c plan)
       (applying_state (default pending_state (attemptStateLocked c plan).2) now) c).

Lemma beginAttempt_ready plan w :
  ready w plan → ∀ w0, ticked 1 w w0 →
  ∃ now w', beginAttempt plan w0 = (Ok (attempt_ref (w_c w) plan), w') ∧ w_c w' = begun (w_c w) plan now ∧
    w_trace w' = w_trace w ∧ undisturbed (w_e w') ∧ lb_fake (w_e w') = lb_fake (w_e w) ∧
    lb_now (w_e w') ≤ lb_now (w_e w) + 3 * second.
Proof.
  intros [Hm Hre Hp Hst Hv Hc Ha Hb He Hh] w0 (C0 & T0 & U0 & F0 & B0).
  unfold beginAttempt. rewrite locked_undisturbed by done. unfold get_c. run. rewrite C0, Hc. cbn [negb].
  unfold beginAttemptLocked.
  destruct (fence_undisturbed plan w0 U0) as (w1 & Hf & C1 & T1 & U1 & F1 & B1).
  { destruct (ti_EffectiveUntil _); [|done]. unfold second in *. lia. }
  rewrite (bind_step _ _ _ _ _ Hf). unfold get_c. run.
  destruct (attemptStateLocked (w_c w1) plan) as [ref found] eqn:Hs. rewrite C1, C0 in Hs.
  destruct (Now_undisturbed w1 U1) as (w2 & Hn & C2 & T2 & U2 & F2 & B2).
  rewrite (bind_step _ _ _ _ _ Hn). rewrite Hs in Hb. cbn [snd] in Hb. cbv zeta in Hb |- *.
  destruct Hb as (Hd & Hbud & Hnext).
  rewrite (bool_decide_eq_false_2 (rs_Status _ = ReconcileDegraded)) by done.
  replace (maxMutationAttempts <=? rs_AttemptCount (default pending_state found)) with false by lia. cbn [orb].
  replace (bool_decide _ && _) with false.
  2: { symmetry. apply andb_false_intro2. destruct (rs_NextAttemptAt _) as [next|]; [|done].
       unfold Before. apply Z.ltb_ge. unfold second in *. lia. }
  unfold attemptStateLocked in Hs. injection Hs as <- <-. rewrite C1, C0, Hp, lookup_empty.
  exists (lb_now (w_e w1)).
  rewrite (bind_step _ _ _ tt w2) by (apply wrap_step, memory_applying; by rewrite C2, C1, C0).
  assert (w_c w2 = w_c w) as Cw by congruence.
  pose proof (putState_valid (w_c w) plan
    (applying_state (default pending_state (stateForRef (w_c w) (attempt_ref (w_c w) plan))) (lb_now (w_e w1))) w2 Hc) as Hput.
  rewrite Cw in Hput. rewrite (bind_step _ _ _ _ _ Hput). unfold modify_c. run. eexists. split; [done|]. cbn.
  split; [done|]. split; [congruence|]. split; [done|]. split; [congruence|]. unfold second in *. lia.
Qed.

(** A healthy firewall carries the plan out, and a probe shows it. *)
Lemma Apply_undisturbed ref plan w :
  undisturbed (w_e w) → ValidatePlan plan = Ok tt → fk_outcomes (lb_fake (w_e w)) !! op_Domain plan = None →
  ∃ w' now b, Apply ref plan w = (Ok (MkApplyResult ResultConfirmed (op_Domain plan) (op_Target plan)
                                        (op_Digest plan) EmptyString), w') ∧
    w_c w' = w_c w ∧ undisturbed (w_e w') ∧ lb_fake (w_e w') = applyPhysicalLocked now plan b ∧
    ∃ r, w_trace w' = EvApply ref plan r :: w_trace w.
Proof.
  destruct w as [c [now ticks fake cancelled db faults audits published picks] tr]. cbn.
  intros [[= ->] [= ->] [= ->]] Hv Ho. unfold Apply, call. cbn. unfold Fake_Apply. rewrite Hv. cbn. rewrite Ho. cbn.
  do 3 eexists. split; [done|]. cbn. split; [done|]. split; [done|]. split; [done|]. by eexists.
Qed.
Lemma Probe_undisturbed (w : world lab) :
  undisturbed (w_e w) →
  ∃ w', Probe w = (Ok (snapshotLocked (lb_fake (w_e w))), w') ∧ w_c w' = w_c w ∧ undisturbed (w_e w') ∧
    snapshotLocked (lb_fake (w_e w')) = snapshotLocked (lb_fake (w_e w)) ∧
    ∃ r, w_trace w' = EvProbe r :: w_trace w.
Proof.
  destruct w as [c [now ticks fake cancelled db faults audits published picks] tr]. cbn.
  intros [[= ->] [= ->] [= ->]]. eexists. split; [done|]. cbn. split; [done|]. split; [done|].
  split; [done|]. by eexists.
Qed.

Lemma getState_begun c plan now (w : world lab) :
  planMatchesCurrentDesiredLocked c plan = true → w_c w = begun c plan now →
  getState (attempt_ref c plan) w
  = (Ok (applying_state (default pending_state (attemptStateLocked c plan).2) now), w).
Proof.
  intros Hm Hw. unfold getState. destruct (attempt_ref c plan) eqn:Hr.
  4: { exfalso. unfold attempt_ref in Hr. destruct (op_Domain plan) eqn:Hd; try done.
       by eapply planMatches_known_domain in Hm. }
  all: unfold get_c; run; rewrite Hw; unfold stateForRef, begun; cbn [put_pending put_state set_ledger c_ledger lg_states];
    rewrite Hr; rewrite lookup_insert_eq; done.
Qed.

(** The controller after the confirmation. *)
Definition converged (c : Controller) (plan : OperationPlan) (now : time) : Controller :=
  let ref := attempt_ref c plan in
  let s := applying_state (default pending_state (attemptStateLocked c plan).2) now in
  let c1 := put_state ref (with_status s ReconcileConverged EmptyString) (begun c plan now) in
  delete_pending (pendingProbeKeyForPlan plan)
    (if bool_decide (op_Domain plan = DomainTarget)
     then confirm_target (op_Target plan) (op_ExpectedTargetGeneration plan) c1 else c1).

Lemma commitConfirmed_begun c plan now sn (w : world lab) :
  c_hasStore c = false → planMatchesCurrentDesiredLocked c plan = true →
  undisturbed (w_e w) → w_c w = begun c plan now →
  snapshotMatchesCurrentDesiredLocked c sn (op_Domain plan) (op_Target plan) = true →
  commitConfirmed (attempt_ref c plan) plan sn (pendingProbeKeyForPlan plan) w
  = (Ok tt, MkWorld (converged c plan now) (w_e w) (w_trace w)).
Proof.
  intros Hm Hc Hu Hw Hs. unfold commitConfirmed. rewrite locked_undisturbed by done.
  assert (c_hasStore (w_c w) = false) as Hm' by (by rewrite Hw).
  rewrite (bind_step _ _ _ _ _ (memory_observed sn w Hm')). unfold get_c. run. rewrite Hw.
  change (planMatchesCurrentDesiredLocked (begun c plan now) plan) with (planMatchesCurrentDesiredLocked c plan).
  change (snapshotMatchesCurrentDesiredLocked (begun c plan now) sn (op_Domain plan) (op_Target plan))
    with (snapshotMatchesCurrentDesiredLocked c sn (op_Domain plan) (op_Target plan)).
  rewrite Hc, Hs. cbn [negb].
  assert (finishConvergedLocked (attempt_ref c plan) plan (pendingProbeKeyForPlan plan) None w
    = (Ok tt, MkWorld (let c1 := put_state (attempt_ref c plan)
          (with_status (applying_state (default pending_state (attemptStateLocked c plan).2) now)
             ReconcileConverged EmptyString) (begun c plan now) in
        if bool_decide (op_Domain plan = DomainTarget)
        then confirm_target (op_Target plan) (op_ExpectedTargetGeneration plan) c1 else c1) (w_e w) (w_trace w))) as Hf.
  { unfold finishConvergedLocked. rewrite (bind_step _ _ _ _ _ (getState_begun c plan now w Hc Hw)).
    rewrite (bind_step _ _ _ tt w) by by apply wrap_step, memory_persist.
    pose proof (putState_valid c plan (with_status (applying_state (default pending_state
      (attemptStateLocked c plan).2) now) ReconcileConverged EmptyString) w Hc) as Hput.
    rewrite Hw in Hput. change (attempt_ref (begun c plan now) plan) with (attempt_ref c plan) in Hput.
    rewrite (bind_step _ _ _ _ _ Hput). unfold confirm_plan, modify_c.
    by destruct (bool_decide (op_Domain plan = DomainTarget)). }
  rewrite (bind_step _ _ _ _ _ (try_step _ _ _ _ Hf)). unfold modify_c, converged. cbv zeta.
  by destruct (bool_decide (op_Domain plan = DomainTarget)).
Qed.

(** The calls of Execute before the mutation. *)
Lemma begin_ready w plan :
  ready w plan →
  ∃ now w', (targetExpirationFence plan;; begin_execution plan) w
      = (Ok (Some (attempt_ref (w_c w) plan, plan)), w') ∧ w_c w' = begun (w_c w) plan now ∧
    w_trace w' = w_trace w ∧ undisturbed (w_e w') ∧ lb_fake (w_e w') = lb_fake (w_e w) ∧
    lb_now (w_e w') ≤ lb_now (w_e w) + 3 * second.
Proof.
  intros Hry. pose proof Hry as [Hm Hre Hp Hst Hv Hc Ha Hb He Hh].
  unfold targetExpirationFence. destruct (fence_undisturbed plan w He) as (w1 & Hf & Ht).
  { destruct (ti_EffectiveUntil _); [|done]. unfold second in *. lia. }
  rewrite <- (locked_undisturbed (targetExpirationFenceLocked plan) w He) in Hf. rewrite (bind_step _ _ _ _ _ Hf).
  destruct (beginAttempt_ready plan w Hry w1 Ht) as (now & w' & Hba & Hrest).
  destruct Ht as (C1 & T1 & U1 & F1 & B1). exists now, w'. split; [|done]. unfold begin_execution.
  assert (hasPendingProbes w1 = (Ok false, w1)) as Hhp.
  { unfold hasPendingProbes. rewrite locked_undisturbed by done. unfold get_c. run. by rewrite C1, Hp. }
  rewrite (bind_step _ _ _ _ _ Hhp). cbn beta iota.
  assert (requiresStartupProbe w1 = (Ok false, w1)) as Hrs.
  { unfold requiresStartupProbe. rewrite locked_undisturbed by done. unfold get_c. run. by rewrite C1, Hst. }
  rewrite (bind_step _ _ _ _ _ Hrs). cbn beta iota.
  change (@env_RequiresFreshBasis lab lab_backend) with false. cbn beta iota. run.
  by rewrite (bind_step _ _ _ _ _ Hba).
Qed.

(** C28: With a healthy firewall an in-memory controller converges at once. Let
    the controller have no store, no pending or startup probe and no recovery to
    reload, let no call be cancelled and no snapshot be published during the
    execution, and let the simulated firewall confirm what it is sent. Then
    executing a valid, current plan that is due, within its budget and not about
    to expire succeeds without an error, sends exactly one mutation, leaves no
    probe requirement, records the attempt as converged, confirms the target at
    the generation of the plan, and the firewall then shows the desired state. *)
Theorem healthy_execute_converges w plan :
  ready w plan →
  ∃ execution w', Execute plan w = (Ok (execution, None), w') ∧
    ap_Kind (er_Apply execution) = ResultConfirmed ∧
    lg_pendingProbes (c_ledger (w_c w')) = ∅ ∧
    rs_Status <$> (attemptStateLocked (w_c w') plan).2 = Some ReconcileConverged ∧
    (op_Domain plan = DomainTarget →
     ConfirmedTarget (w_c w') (op_Target plan) = Some (op_ExpectedTargetGeneration plan)) ∧
    snapshotMatchesCurrentDesiredLocked (w_c w') (snapshotLocked (lb_fake (w_e w')))
      (op_Domain plan) (op_Target plan) = true ∧
    (∃ r sn, w_trace w' = EvProbe sn :: EvApply (attempt_ref (w_c w) plan) plan r :: w_trace w).
Proof.
  intros Hry. pose proof Hry as [Hm Hre Hp Hst Hv Hc Ha Hb He Hh]. unfold Execute.
  assert (reloadRecoveryIfNeeded w = (Ok tt, w)) as Hrl.
  { unfold reloadRecoveryIfNeeded. rewrite locked_undisturbed by done. unfold get_c. run. by rewrite Hre. }
  rewrite (bind_step _ _ _ _ _ (try_step _ _ _ _ Hrl)), Hv.
  destruct (begin_ready w plan Hry) as (now & w1 & Hbe & C1 & T1 & U1 & F1 & B1).
  rewrite (bind_step _ _ _ _ _ (try_step _ _ _ _ Hbe)). unfold apply_attempt.
  destruct (fence_undisturbed plan w1 U1) as (w2 & Hf & C2 & T2 & U2 & F2 & B2).
  { destruct (ti_EffectiveUntil _); [|done]. unfold second in *. lia. }
  rewrite <- (locked_undisturbed _ w1 U1) in Hf. rewrite (bind_step _ _ _ _ _ (try_step _ _ _ _ Hf)).
  destruct (Apply_undisturbed (attempt_ref (w_c w) plan) plan w2 U2 Hv) as (w3 & at_ & b & Hap & C3 & U3 & F3 & r & T3);
    [by rewrite F2, F1|].
  rewrite (bind_step _ _ _ _ _ (try_step _ _ _ _ Hap)). cbn [ap_Kind]. cbv zeta.
  destruct (Probe_undisturbed w3 U3) as (w4 & Hpr & C4 & U4 & F4 & sn & T4).
  rewrite (bind_step _ _ _ _ _ (try_step _ _ _ _ Hpr)).
  assert (w_c w4 = begun (w_c w) plan now) as Hw4 by congruence.
  pose proof (applyPhysicalLocked_matches (w_c w) at_ plan b Hv Hc) as Hmatch. rewrite <- F3 in Hmatch.
  rewrite (bind_step _ _ _ _ _ (try_step _ _ _ _ (commitConfirmed_begun _ _ _ _ w4 Hm Hc U4 Hw4 Hmatch))).
  do 2 eexists. split; [reflexivity|]. cbn [w_c w_e w_trace]. split; [done|]. unfold converged. cbv zeta.
  repeat split.
  - destruct (bool_decide _); cbn; rewrite Hp; by rewrite insert_empty, delete_singleton_eq.
  - assert (∀ c, attempt_ref c plan = attempt_ref (w_c w) plan →
      lg_states (c_ledger c) !! attempt_ref (w_c w) plan = Some (with_status (applying_state
        (default pending_state (attemptStateLocked (w_c w) plan).2) now) ReconcileConverged EmptyString) →
      rs_Status <$> (attemptStateLocked c plan).2 = Some ReconcileConverged) as Hcut
      by (intros c Href Hl; unfold attemptStateLocked, stateForRef; cbn; by rewrite Href, Hl).
    apply Hcut; destruct (bool_decide _); try reflexivity; apply lookup_insert_eq.
  - intros Hd. rewrite bool_decide_eq_true_2 by done. unfold ConfirmedTarget. cbn. apply lookup_insert_eq.
  - rewrite F4. by destruct (bool_decide _).
  - exists r, sn. congruence.
Qed.
End convergence.

Section witness.
Local Existing Instance ascii_only.
Definition memory_world : world lab :=
  run_op (OpSetDesired lab_desired) (MkWorld NewController (lab_env healthy_fake []) []).

Lemma healthy_execute_converges_witness :
  ready memory_world target_plan ∧
  ∃ execution w', Execute target_plan memory_world = (Ok (execution, None), w') ∧
    ConfirmedTarget (w_c w') sample_target = Some 1.
Proof.
  assert (ready memory_world target_plan) as Hr.
  { split; try (vm_compute; reflexivity); try exact I; [|by split].
    vm_compute. split; [discriminate|split; [reflexivity|exact I]]. }
  split; [exact Hr|].
  destruct (healthy_execute_converges memory_world target_plan Hr) as (x & w' & Hx & _ & _ & _ & Hc & _).
  exists x, w'. split; [exact Hx|]. apply Hc. vm_compute. reflexivity.
Defined.
End witness.
