(* ===== verification/Json.v ===== *)
(** * encoding/json: what json.Marshal writes

    JSON values with their members in the order in which the program writes
    them, and the compact text of json.Marshal with its escapes. *)

From S2P Require Import Prelude GoStd.

Inductive json :=
  | JNull
  | JBool (b : bool)
  | JInt (n : Z)
  | JString (s : string)
  | JArray (l : list json)
  | JObject (members : list (string * json)).

(** ** Strings *)
Definition json_backslash : Z := 92.
Definition json_u (r : Z) : list Z := [json_backslash; 117] ++ (hex_digit <$> digits 16 4 r).

(** An ASCII byte: the quote, the backslash, control characters and the three
    characters that HTML escaping covers. *)
Definition json_escape_ascii (b : Z) : list Z :=
  if (b =? 34) || (b =? json_backslash) then [json_backslash; b]
  else if b =? 8 then [json_backslash; 98]
  else if b =? 12 then [json_backslash; 102]
  else if b =? 10 then [json_backslash; 110]
  else if b =? 13 then [json_backslash; 114]
  else if b =? 9 then [json_backslash; 116]
  else if (b <? 0x20) || (b =? 60) || (b =? 62) || (b =? 38) then json_u b
  else [b].

(** A valid encoding stays as it is, except for the line and paragraph
    separators; a byte that starts no valid encoding becomes the replacement
    character. *)
Fixpoint json_escape (l : list Z) : list Z :=
  match l with
  | [] => []
  | b0 :: r =>
    let invalid := json_u 0xfffd in
    if b0 <? 0x80 then json_escape_ascii b0 ++ json_escape r
    else if in_range 0xC2 0xDF b0 then
      match r with
      | b1 :: r1 => if utf8_cont b1 then [b0; b1] ++ json_escape r1 else invalid ++ json_escape r
      | _ => invalid ++ json_escape r
      end
    else if in_range 0xE0 0xEF b0 then
      match r with
      | b1 :: b2 :: r2 =>
        if in_range (if b0 =? 0xE0 then 0xA0 else 0x80) (if b0 =? 0xED then 0x9F else 0xBF) b1
           && utf8_cont b2
        then let rune := (b0 - 0xE0) * 0x1000 + (b1 - 0x80) * 0x40 + (b2 - 0x80) in
             (if (rune =? 0x2028) || (rune =? 0x2029) then json_u rune else [b0; b1; b2]) ++ json_escape r2
        else invalid ++ json_escape r
      | _ => invalid ++ json_escape r
      end
    else if in_range 0xF0 0xF4 b0 then
      match r with
      | b1 :: b2 :: b3 :: r3 =>
        if in_range (if b0 =? 0xF0 then 0x90 else 0x80) (if b0 =? 0xF4 then 0x8F else 0xBF) b1
           && utf8_cont b2 && utf8_cont b3
        then [b0; b1; b2; b3] ++ json_escape r3
        else invalid ++ json_escape r
      | _ => invalid ++ json_escape r
      end
    else invalid ++ json_escape r
  end.
Definition json_text (s : string) : list Z := [34] ++ json_escape (string_bytes s) ++ [34].

(** ** Values *)
Definition json_int (n : Z) : list Z :=
  if n <? 0 then 45 :: string_bytes (itoa (- n)) else string_bytes (itoa n).

(** Elements separated by commas. *)
Fixpoint commas (l : list (list Z)) : list Z :=
  match l with
  | [] => []
  | [x] => x
  | x :: rest => x ++ [44] ++ commas rest
  end.

Fixpoint json_Marshal (v : json) : list Z :=
  match v with
  | JNull => string_bytes "null"
  | JBool b => string_bytes (if b then "true" else "false")
  | JInt n => json_int n
  | JString s => json_text s
  | JArray l => [91] ++ commas (json_Marshal <$> l) ++ [93]
  | JObject members =>
    [123] ++ commas ((λ m, json_text m.1 ++ [58] ++ json_Marshal m.2) <$> members) ++ [125]
  end.

Definition json_strings (l : list string) : json := JArray (JString <$> l).
(** A nil pointer is null. *)
Definition json_option (f : Z → json) (v : option Z) : json :=
  match v with Some n => f n | None => JNull end.

Definition dq : string := string_of_bytes [34].
Example marshal_object :
  string_of_bytes (json_Marshal (JObject [("a", JInt (-5)); ("b", JArray [JBool true; JNull; JString "x<y"])]))
  = "{" +:+ dq +:+ "a" +:+ dq +:+ ":-5," +:+ dq +:+ "b" +:+ dq +:+ ":[true,null,"
    +:+ dq +:+ "x\u003cy" +:+ dq +:+ "]}".
Proof. vm_compute. reflexivity. Qed.
