(* ===== verification/Firewall.v ===== *)
(** * Firewall authorities (internal/firewall)

    Capabilities (capabilities.go), managed snapshots (snapshot.go) and the
    authorization of mutations (mutation.go). A string type with a closed set of
    constants is a string, as in the code. *)

From S2P Require Import Prelude GoStd Sha256 Netip Identity CoreModel Json.

(** ** Capabilities (capabilities.go) *)
Abbreviation BackendKind := string.
Definition BackendKindNftablesNative : BackendKind := "nftables-native".
Definition BackendKindIptablesNFT : BackendKind := "iptables-nft".
Definition BackendKindIptablesLegacy : BackendKind := "iptables-legacy".
Definition maxToolVersionBytes : nat := 128.

Definition one_of (s : string) (l : list string) : bool := bool_decide (s ∈ l).
Definition validBackendKind (kind : BackendKind) : bool :=
  one_of kind [BackendKindNftablesNative; BackendKindIptablesNFT; BackendKindIptablesLegacy].

(** strings.TrimSpace changes an ASCII text exactly when it begins or ends with
    white space; a text with other bytes fails the test of its bytes. *)
Definition is_space (b : Z) : bool := in_range 9 13 b || (b =? 32).
Definition trimmed (l : list Z) : bool :=
  match head l, last l with
  | Some a, Some b => negb (is_space a) && negb (is_space b)
  | _, _ => true
  end.
Definition validToolVersion (version : string) : bool :=
  let l := string_bytes version in
  negb (is_empty version) && (String.length version <=? maxToolVersionBytes)%nat && trimmed l
  && forallb (in_range 0x20 0x7e) l.

(** FirewallCapabilities and its constructor input have the same fields. *)
Record FirewallCapabilities := MkCapabilities {
  fc_backend : BackendKind;
  fc_toolVersion : string;
  fc_ipv4 : bool; fc_ipv6 : bool; fc_cidr : bool; fc_nativeSet : bool; fc_nativeTimeout : bool;
  fc_crashSafeExpiry : bool; fc_atomicBatch : bool; fc_hostInput : bool; fc_forward : bool;
  fc_ufwIntegrationProven : bool; fc_dockerIntegrationProven : bool; fc_ownershipProven : bool;
  fc_mutationReady : bool
}.

Definition invalidCapabilitiesError : error := Errorf "firewall capabilities are invalid".
Definition Capabilities_Validate (c : FirewallCapabilities) : result unit :=
  fail_if (negb (validBackendKind (fc_backend c)) || negb (validToolVersion (fc_toolVersion c))
           || (negb (fc_ipv4 c) && negb (fc_ipv6 c)) || (negb (fc_hostInput c) && negb (fc_forward c))
           || (fc_nativeTimeout c && negb (fc_nativeSet c))
           || (fc_crashSafeExpiry c && negb (fc_nativeTimeout c))
           || (fc_dockerIntegrationProven c && negb (fc_forward c))
           || (fc_mutationReady c && (negb (fc_ownershipProven c) || negb (fc_cidr c)))
           || (bool_decide (fc_backend c = BackendKindNftablesNative) && fc_mutationReady c
               && (negb (fc_nativeSet c) || negb (fc_atomicBatch c))))
          invalidCapabilitiesError.
Definition NewFirewallCapabilities (spec : FirewallCapabilities) : result FirewallCapabilities :=
  Capabilities_Validate spec;; Ok spec.

(** ** Snapshots (snapshot.go) *)
Definition ManagedOwnerVersionV1 : string := "guard/v1".
Definition ManagedInfrastructureSchemaVersionV1 : Z := 1.
Definition MaxManagedSnapshotTargets : nat := 1024.

Abbreviation ManagedScope := string.
Definition ManagedScopeInput : ManagedScope := "input".
Definition ManagedScopeForward : ManagedScope := "forward".
Abbreviation ManagedTimeoutMode := string.
Definition ManagedTimeoutNone : ManagedTimeoutMode := "none".
Definition ManagedTimeoutNative : ManagedTimeoutMode := "native".

Definition invalidManagedSnapshotError : error := Errorf "managed firewall snapshot is invalid".
Definition invalid_if (bad : bool) : result unit := fail_if bad invalidManagedSnapshotError.

Definition lower_hex (b : Z) : bool := in_range 48 57 b || in_range 97 102 b.
(** A text of 64 bytes that are all ASCII has 64 runes. *)
Definition validSnapshotDigest (digest : string) : bool :=
  (String.length digest =? 64)%nat && forallb lower_hex (string_bytes digest).

Record InfrastructureObservation := MkInfraObservation {
  ob_backend : BackendKind;
  ob_ownerVersion : string;
  ob_schemaVersion : Z;
  ob_infraDigest : string;
  ob_infraValid : bool
}.
Definition InfraObservation_Validate (o : InfrastructureObservation) : result unit :=
  invalid_if (negb (ob_infraValid o) || negb (validBackendKind (ob_backend o))
              || negb (bool_decide (ob_ownerVersion o = ManagedOwnerVersionV1))
              || negb (ob_schemaVersion o =? ManagedInfrastructureSchemaVersionV1)
              || negb (validSnapshotDigest (ob_infraDigest o))).
Definition NewInfrastructureObservation (backend : BackendKind) (ownerVersion : string)
    (schemaVersion : Z) (digest : string) : result InfrastructureObservation :=
  let o := MkInfraObservation backend ownerVersion schemaVersion digest true in
  InfraObservation_Validate o;; Ok o.

Record PolicyObservation := MkPolicyObservation { ob_relationDigest : string; ob_policyValid : bool }.
Definition PolicyObservation_Validate (o : PolicyObservation) : result unit :=
  invalid_if (negb (ob_policyValid o) || negb (validSnapshotDigest (ob_relationDigest o))).
Definition NewPolicyObservation (relationDigest : string) : result PolicyObservation :=
  let o := MkPolicyObservation relationDigest true in
  PolicyObservation_Validate o;; Ok o.

Fixpoint scan_scopes (scopes : list ManagedScope) (input forward : bool) : option (bool * bool) :=
  match scopes with
  | [] => Some (input, forward)
  | s :: rest =>
    if bool_decide (s = ManagedScopeInput) then if input then None else scan_scopes rest true forward
    else if bool_decide (s = ManagedScopeForward) then if forward then None else scan_scopes rest input true
    else None
  end.
(** The second result of canonicalManagedScopes is whether there is a list. *)
Definition canonicalManagedScopes (scopes : list ManagedScope) : option (list ManagedScope) :=
  match scan_scopes scopes false false with
  | Some (input, forward) =>
    match (if input then [ManagedScopeInput] else []) ++ (if forward then [ManagedScopeForward] else []) with
    | [] => None
    | l => Some l
    end
  | None => None
  end.

Definition loopback4 : Prefix := MkPrefix (ip4 127 0 0 0) 9.
Definition loopback6 : Prefix := MkPrefix (ip6 1) 129.
Definition validManagedTarget (target : Prefix) : bool :=
  negb (not_canonical target) && negb (Overlaps target loopback4) && negb (Overlaps target loopback6).

(** The fixed array of two scopes with its count is a list. *)
Record TargetObservation := MkTargetObservation {
  ob_target : Prefix;
  ob_timeoutMode : ManagedTimeoutMode;
  ob_effectiveUntil : option Z;
  ob_scopes : list ManagedScope;
  ob_targetValid : bool
}.
Definition TargetObservation_Validate (o : TargetObservation) : result unit :=
  invalid_if (negb (ob_targetValid o) || negb (validManagedTarget (ob_target o))
              || (length (ob_scopes o) <? 1)%nat || (2 <? length (ob_scopes o))%nat);;
  invalid_if (is_nil (canonicalManagedScopes (ob_scopes o)));;
  if bool_decide (ob_timeoutMode o = ManagedTimeoutNone) then invalid_if (negb (is_nil (ob_effectiveUntil o)))
  else if bool_decide (ob_timeoutMode o = ManagedTimeoutNative)
  then invalid_if (match ob_effectiveUntil o with Some t => t <=? 0 | None => true end)
  else Err invalidManagedSnapshotError.
Definition NewTargetObservation (target : Prefix) (mode : ManagedTimeoutMode) (until : option Z)
    (scopes : list ManagedScope) : result TargetObservation :=
  match canonicalManagedScopes scopes with
  | None => Err invalidManagedSnapshotError
  | Some canonical =>
    let o := MkTargetObservation target mode until canonical true in
    TargetObservation_Validate o;; Ok o
  end.

Record ManagedState := MkManagedState {
  ms_infrastructure : option InfrastructureObservation;
  ms_policy : option PolicyObservation;
  ms_targets : list TargetObservation;
  ms_valid : bool
}.
(** The loop over the targets; [previous] is the target before. *)
Fixpoint validate_state_targets (previous : option Prefix) (targets : list TargetObservation) : result unit :=
  match targets with
  | [] => Ok tt
  | t :: rest =>
    TargetObservation_Validate t;;
    invalid_if (match previous with
                | Some p => bool_decide (p = ob_target t)
                            || String.ltb (Prefix_String (ob_target t)) (Prefix_String p)
                | None => false
                end);;
    validate_state_targets (Some (ob_target t)) rest
  end.
Definition ManagedState_Validate (s : ManagedState) : result unit :=
  invalid_if (negb (ms_valid s) || (MaxManagedSnapshotTargets <? length (ms_targets s))%nat);;
  (match ms_infrastructure s with Some o => InfraObservation_Validate o | None => Ok tt end);;
  (match ms_policy s with Some o => PolicyObservation_Validate o | None => Ok tt end);;
  validate_state_targets None (ms_targets s).
Definition NewManagedState (infrastructure : option InfrastructureObservation)
    (policy : option PolicyObservation) (targets : list TargetObservation) : result ManagedState :=
  let s := MkManagedState infrastructure policy
             (sort_slice (λ a b, String.ltb (Prefix_String (ob_target a)) (Prefix_String (ob_target b))) targets)
             true in
  ManagedState_Validate s;; Ok s.

Record ForeignContext := MkForeign { fx_digest : string; fx_valid : bool }.
Definition ForeignContext_Validate (c : ForeignContext) : result unit :=
  invalid_if (negb (fx_valid c) || negb (validSnapshotDigest (fx_digest c))).
Definition NewForeignContext (digest : string) : result ForeignContext :=
  let c := MkForeign digest true in ForeignContext_Validate c;; Ok c.

(** snapshotDigestWire *)
Definition target_wire (t : TargetObservation) : json :=
  JObject [("target", JString (Prefix_String (ob_target t)));
           ("timeout_mode", JString (ob_timeoutMode t));
           ("effective_until_unix_us", json_option JInt (ob_effectiveUntil t));
           ("scopes", json_strings (ob_scopes t))].
Definition snapshot_wire (s : ManagedState) (foreign : ForeignContext) : json :=
  JObject [("format", JString "guard-managed-snapshot/v1");
           ("infrastructure", match ms_infrastructure s with
              | Some o => JObject [("backend", JString (ob_backend o));
                                   ("owner_version", JString (ob_ownerVersion o));
                                   ("schema_version", JInt (ob_schemaVersion o));
                                   ("digest", JString (ob_infraDigest o))]
              | None => JNull
              end);
           ("policy", match ms_policy s with
              | Some o => JObject [("relation_digest", JString (ob_relationDigest o))]
              | None => JNull
              end);
           ("targets", JArray (target_wire <$> ms_targets s));
           ("foreign_digest", JString (fx_digest foreign))].
Definition computeManagedSnapshotDigest (s : ManagedState) (foreign : ForeignContext) : string :=
  hex_encode (Sum256 (json_Marshal (snapshot_wire s foreign))).

Record ManagedSnapshot := MkManagedSnapshot {
  sp_managedState : ManagedState;
  sp_foreignContext : ForeignContext;
  sp_digest : string;
  sp_valid : bool
}.
Definition NewManagedSnapshot (s : ManagedState) (foreign : ForeignContext) : result ManagedSnapshot :=
  ManagedState_Validate s;; ForeignContext_Validate foreign;;
  Ok (MkManagedSnapshot s foreign (computeManagedSnapshotDigest s foreign) true).
Definition ManagedSnapshot_Validate (s : ManagedSnapshot) : result unit :=
  invalid_if (negb (sp_valid s) || negb (validSnapshotDigest (sp_digest s))
              || negb (is_ok (ManagedState_Validate (sp_managedState s)))
              || negb (is_ok (ForeignContext_Validate (sp_foreignContext s))));;
  invalid_if (negb (bool_decide (computeManagedSnapshotDigest (sp_managedState s) (sp_foreignContext s)
                                 = sp_digest s))).
Definition NewOwnershipConflictError : error :=
  Typed "OwnershipConflictError" [] (Errorf "firewall ownership conflict").

(** ** Mutations (mutation.go) *)
Abbreviation MutationOperation := string.
Definition MutationOperationApply : MutationOperation := "apply".
Definition MutationOperationRemove : MutationOperation := "remove".
Abbreviation MutationDomain := string.
Definition MutationDomainInfrastructure : MutationDomain := "infrastructure".
Definition MutationDomainPolicy : MutationDomain := "policy".
Definition MutationDomainTarget : MutationDomain := "target".
Abbreviation TargetMembership := string.
Definition TargetMembershipPresent : TargetMembership := "present".
Definition TargetMembershipAbsent : TargetMembership := "absent".

Record operationPlanBase := MkPlanBase {
  mb_capabilities : FirewallCapabilities;
  mb_ownerVersion : string;
  mb_basisSnapshotDigest : string;
  mb_revision : Z;
  mb_digest : string
}.
Record infrastructureOperationPlan := MkInfraPlan { ip_base : operationPlanBase; ip_schemaVersion : Z }.
Record policyOperationPlan := MkPolicyPlan {
  py_base : operationPlanBase;
  py_allowlist : list Prefix;
  py_protectedTargets : list Prefix
}.
Record targetOperationPlan := MkTargetPlan {
  tp_base : operationPlanBase;
  tp_target : Prefix;
  tp_membership : TargetMembership;
  tp_timeoutMode : ManagedTimeoutMode;
  tp_effectiveUntilUnixMicro : Z;
  tp_hasEffectiveUntil : bool;
  tp_scopes : list ManagedScope
}.
Record removalAuthorization := MkRemoval {
  rm_capabilities : FirewallCapabilities;
  rm_ownerVersion : string;
  rm_basisSnapshotDigest : string;
  rm_digest : string
}.
(** The plans, a closed interface; None is a nil pointer of the type. *)
Inductive OperationPlan :=
  | InfrastructurePlanOf (p : option infrastructureOperationPlan)
  | PolicyPlanOf (p : option policyOperationPlan)
  | TargetPlanOf (p : option targetOperationPlan).
Inductive AuthorizedMutation :=
  | ApplyMutation (plan : OperationPlan)
  | RemoveMutation (r : option removalAuthorization).

Definition plan_base (p : OperationPlan) : option operationPlanBase :=
  match p with
  | InfrastructurePlanOf p => ip_base <$> p
  | PolicyPlanOf p => py_base <$> p
  | TargetPlanOf p => tp_base <$> p
  end.
Definition zero_capabilities : FirewallCapabilities :=
  MkCapabilities EmptyString EmptyString false false false false false false false false false false false
    false false.
(** The methods of the plans; on a nil pointer they return the zero value. *)
Definition plan_Domain (p : OperationPlan) : MutationDomain :=
  match p with
  | InfrastructurePlanOf _ => MutationDomainInfrastructure
  | PolicyPlanOf _ => MutationDomainPolicy
  | TargetPlanOf _ => MutationDomainTarget
  end.
Definition plan_Capabilities (p : OperationPlan) : FirewallCapabilities :=
  match plan_base p with Some b => mb_capabilities b | None => zero_capabilities end.
Definition plan_OwnerVersion (p : OperationPlan) : string :=
  match plan_base p with Some b => mb_ownerVersion b | None => EmptyString end.
Definition plan_BasisSnapshotDigest (p : OperationPlan) : string :=
  match plan_base p with Some b => mb_basisSnapshotDigest b | None => EmptyString end.
Definition plan_Revision (p : OperationPlan) : Z :=
  match plan_base p with Some b => mb_revision b | None => 0 end.
Definition plan_Digest (p : OperationPlan) : string :=
  match plan_base p with Some b => mb_digest b | None => EmptyString end.
Definition mutation_Operation (m : AuthorizedMutation) : MutationOperation :=
  match m with ApplyMutation _ => MutationOperationApply | RemoveMutation _ => MutationOperationRemove end.
Definition mutation_Digest (m : AuthorizedMutation) : string :=
  match m with
  | ApplyMutation p => plan_Digest p
  | RemoveMutation (Some r) => rm_digest r
  | RemoveMutation None => EmptyString
  end.

(** *** Authorization errors *)
Abbreviation MutationAuthorizationErrorCode := string.
Definition MutationAuthorizationErrorInvalidPlan : MutationAuthorizationErrorCode := "invalid_plan".
Definition MutationAuthorizationErrorOwnershipConflict : MutationAuthorizationErrorCode := "ownership_conflict".
Definition MutationAuthorizationErrorUnsupported : MutationAuthorizationErrorCode := "unsupported".
Definition MutationAuthorizationErrorNotReady : MutationAuthorizationErrorCode := "not_ready".
Definition MutationAuthorizationErrorSnapshotMismatch : MutationAuthorizationErrorCode := "snapshot_mismatch".
Definition mutationAuthorizationError (code : MutationAuthorizationErrorCode) : error :=
  Typed "MutationAuthorizationError" [code] (Errorf "firewall mutation authorization failed").

(** *** Checks *)
Definition validateMutationAuthority (capabilities : FirewallCapabilities) (snapshot : ManagedSnapshot)
    (requestedBasisDigest : string) : result unit :=
  fail_if (negb (is_ok (Capabilities_Validate capabilities)) || negb (is_ok (ManagedSnapshot_Validate snapshot))
           || negb (fc_mutationReady capabilities) || negb (fc_ownershipProven capabilities))
          (mutationAuthorizationError MutationAuthorizationErrorNotReady);;
  fail_if (match ms_infrastructure (sp_managedState snapshot) with
           | Some i => negb (bool_decide (ob_backend i = fc_backend capabilities))
           | None => false
           end) (mutationAuthorizationError MutationAuthorizationErrorNotReady);;
  fail_if (negb (is_empty requestedBasisDigest)
           && negb (bool_decide (requestedBasisDigest = sp_digest snapshot)))
          (mutationAuthorizationError MutationAuthorizationErrorSnapshotMismatch).

Definition supportsPrefix (capabilities : FirewallCapabilities) (prefix : Prefix) : bool :=
  let ip := prefix_ip prefix in
  if (bool_decide (addr_kind ip = z4) && negb (fc_ipv4 capabilities))
     || (bool_decide (addr_kind ip = z6) && negb (fc_ipv6 capabilities))
  then false
  else (Bits prefix =? BitLen ip) || fc_cidr capabilities.
Definition supportsPrefixes (capabilities : FirewallCapabilities) (prefixes : list Prefix) : bool :=
  forallb (supportsPrefix capabilities) prefixes.
Definition supportsScopes (capabilities : FirewallCapabilities) (scopes : list ManagedScope) : bool :=
  forallb (λ s, negb ((bool_decide (s = ManagedScopeInput) && negb (fc_hostInput capabilities))
                      || (bool_decide (s = ManagedScopeForward) && negb (fc_forward capabilities)))) scopes.

(** Canonical prefixes whose texts increase strictly. *)
Fixpoint canonical_list (previous : option Prefix) (prefixes : list Prefix) : bool :=
  match prefixes with
  | [] => true
  | p :: rest =>
    negb (not_canonical p)
    && match previous with
       | Some q => String.ltb (Prefix_String q) (Prefix_String p)
       | None => true
       end
    && canonical_list (Some p) rest
  end.
Definition validCanonicalPrefixList (prefixes : list Prefix) : bool := canonical_list None prefixes.
Definition hasMandatoryProtectedTargets (prefixes : list Prefix) : bool :=
  bool_decide (loopback4 ∈ prefixes) && bool_decide (loopback6 ∈ prefixes).
Definition validTargetTimeout (membership : TargetMembership) (mode : ManagedTimeoutMode) (expiry : Z)
    (hasExpiry : bool) : bool :=
  if bool_decide (membership = TargetMembershipAbsent)
  then bool_decide (mode = ManagedTimeoutNone) && negb hasExpiry && (expiry =? 0)
  else if bool_decide (mode = ManagedTimeoutNone) then negb hasExpiry && (expiry =? 0)
  else if bool_decide (mode = ManagedTimeoutNative) then hasExpiry && (0 <? expiry)
  else false.
Definition validMutationDomain (domain : MutationDomain) : bool :=
  one_of domain [MutationDomainInfrastructure; MutationDomainPolicy; MutationDomainTarget].

(** *** Digests *)
Definition capabilitiesDigest (c : FirewallCapabilities) : json :=
  JObject [("tool_version", JString (fc_toolVersion c)); ("ipv4", JBool (fc_ipv4 c));
           ("ipv6", JBool (fc_ipv6 c)); ("cidr", JBool (fc_cidr c)); ("native_set", JBool (fc_nativeSet c));
           ("native_timeout", JBool (fc_nativeTimeout c)); ("crash_safe_expiry", JBool (fc_crashSafeExpiry c));
           ("atomic_batch", JBool (fc_atomicBatch c)); ("host_input", JBool (fc_hostInput c));
           ("forward", JBool (fc_forward c)); ("ufw_integration_proven", JBool (fc_ufwIntegrationProven c));
           ("docker_integration_proven", JBool (fc_dockerIntegrationProven c));
           ("ownership_proven", JBool (fc_ownershipProven c)); ("mutation_ready", JBool (fc_mutationReady c))].
Definition digestMutation (wire : json) : string := hex_encode (Sum256 (json_Marshal wire)).
Definition prefixStrings (prefixes : list Prefix) : list string := Prefix_String <$> prefixes.

(** The members that every plan digest begins with. *)
Definition plan_wire (domain : MutationDomain) (b : operationPlanBase) (rest : list (string * json)) : json :=
  JObject ([("format", JString "guard-firewall-mutation/v1"); ("operation", JString MutationOperationApply);
            ("domain", JString domain); ("backend", JString (fc_backend (mb_capabilities b)));
            ("capabilities", capabilitiesDigest (mb_capabilities b));
            ("owner_version", JString (mb_ownerVersion b));
            ("basis_snapshot_digest", JString (mb_basisSnapshotDigest b));
            ("revision", JInt (mb_revision b))] ++ rest).
Definition newOperationPlanBase (capabilities : FirewallCapabilities) (basis : string) (revision : Z)
    : operationPlanBase := MkPlanBase capabilities ManagedOwnerVersionV1 basis revision EmptyString.
Definition with_digest (b : operationPlanBase) (digest : string) : operationPlanBase :=
  MkPlanBase (mb_capabilities b) (mb_ownerVersion b) (mb_basisSnapshotDigest b) (mb_revision b) digest.

(** *** Authorization *)
Definition invalid_plan_if (bad : bool) : result unit :=
  fail_if bad (mutationAuthorizationError MutationAuthorizationErrorInvalidPlan).
Definition not_ready_if (bad : bool) : result unit :=
  fail_if bad (mutationAuthorizationError MutationAuthorizationErrorNotReady).
Definition unsupported_if (bad : bool) : result unit :=
  fail_if bad (mutationAuthorizationError MutationAuthorizationErrorUnsupported).

Definition AuthorizeInfrastructureMutation (capabilities : FirewallCapabilities) (snapshot : ManagedSnapshot)
    (requestedBasisDigest : string) (revision : Z) : result OperationPlan :=
  invalid_plan_if (negb (validSnapshotDigest requestedBasisDigest) || (revision <=? 0));;
  validateMutationAuthority capabilities snapshot requestedBasisDigest;;
  let base := newOperationPlanBase capabilities requestedBasisDigest revision in
  let digest := digestMutation (plan_wire MutationDomainInfrastructure base
                  [("schema_version", JInt ManagedInfrastructureSchemaVersionV1)]) in
  Ok (InfrastructurePlanOf (Some (MkInfraPlan (with_digest base digest) ManagedInfrastructureSchemaVersionV1))).

Definition AuthorizePolicyMutation (capabilities : FirewallCapabilities) (snapshot : ManagedSnapshot)
    (requestedBasisDigest : string) (revision : Z) (allowlist protectedTargets : list Prefix)
    : result OperationPlan :=
  invalid_plan_if (negb (validSnapshotDigest requestedBasisDigest) || (revision <=? 0)
    || (MaxManagedSnapshotTargets <? length allowlist + length protectedTargets)%nat
    || (length protectedTargets <? 2)%nat || negb (validCanonicalPrefixList allowlist)
    || negb (validCanonicalPrefixList protectedTargets)
    || negb (hasMandatoryProtectedTargets protectedTargets));;
  validateMutationAuthority capabilities snapshot requestedBasisDigest;;
  not_ready_if (is_nil (ms_infrastructure (sp_managedState snapshot)));;
  unsupported_if (negb (supportsPrefixes capabilities allowlist)
                  || negb (supportsPrefixes capabilities protectedTargets));;
  let base := newOperationPlanBase capabilities requestedBasisDigest revision in
  let digest := digestMutation (plan_wire MutationDomainPolicy base
                  [("allowlist", json_strings (prefixStrings allowlist));
                   ("protected_targets", json_strings (prefixStrings protectedTargets))]) in
  Ok (PolicyPlanOf (Some (MkPolicyPlan (with_digest base digest) allowlist protectedTargets))).

Definition AuthorizeTargetMutation (capabilities : FirewallCapabilities) (snapshot : ManagedSnapshot)
    (requestedBasisDigest : string) (revision : Z) (target : Prefix) (membership : TargetMembership)
    (timeoutMode : ManagedTimeoutMode) (effectiveUntilUnixMicro : Z) (hasEffectiveUntil : bool)
    (scopeInput : list ManagedScope) : result OperationPlan :=
  invalid_plan_if (negb (validSnapshotDigest requestedBasisDigest) || (revision <=? 0)
    || negb (validManagedTarget target)
    || (negb (bool_decide (membership = TargetMembershipPresent))
        && negb (bool_decide (membership = TargetMembershipAbsent))));;
  scopes ← (match canonicalManagedScopes scopeInput with
            | Some scopes =>
              invalid_plan_if (negb (bool_decide (scopes = scopeInput))
                || negb (validTargetTimeout membership timeoutMode effectiveUntilUnixMicro hasEffectiveUntil));;
              Ok scopes
            | None => Err (mutationAuthorizationError MutationAuthorizationErrorInvalidPlan)
            end);
  validateMutationAuthority capabilities snapshot requestedBasisDigest;;
  let state := sp_managedState snapshot in
  not_ready_if (is_nil (ms_infrastructure state));;
  not_ready_if (bool_decide (membership = TargetMembershipPresent) && is_nil (ms_policy state));;
  unsupported_if (negb (supportsPrefix capabilities target) || negb (supportsScopes capabilities scopes)
    || (bool_decide (timeoutMode = ManagedTimeoutNative)
        && (negb (fc_nativeTimeout capabilities) || negb (fc_crashSafeExpiry capabilities))));;
  let base := newOperationPlanBase capabilities requestedBasisDigest revision in
  let expiry := if hasEffectiveUntil then Some effectiveUntilUnixMicro else None in
  let digest := digestMutation (plan_wire MutationDomainTarget base
                  [("target", JString (Prefix_String target)); ("membership", JString membership);
                   ("timeout_mode", JString timeoutMode);
                   ("effective_until_unix_us", json_option JInt expiry);
                   ("scopes", json_strings scopes)]) in
  Ok (TargetPlanOf (Some (MkTargetPlan (with_digest base digest) target membership timeoutMode
                            effectiveUntilUnixMicro hasEffectiveUntil scopes))).

(** None is alreadyAbsent: nothing is left to remove. *)
Definition AuthorizeManagedRemoval (capabilities : FirewallCapabilities) (snapshot : ManagedSnapshot)
    (expectedOwnerVersion : string) : result (option removalAuthorization) :=
  fail_if (negb (bool_decide (expectedOwnerVersion = ManagedOwnerVersionV1)))
          (mutationAuthorizationError MutationAuthorizationErrorOwnershipConflict);;
  validateMutationAuthority capabilities snapshot EmptyString;;
  let state := sp_managedState snapshot in
  if is_nil (ms_infrastructure state) && is_nil (ms_policy state) && (length (ms_targets state) =? 0)%nat
  then Ok None
  else
    let wire := JObject [("format", JString "guard-firewall-mutation/v1");
                         ("operation", JString MutationOperationRemove);
                         ("backend", JString (fc_backend capabilities));
                         ("capabilities", capabilitiesDigest capabilities);
                         ("owner_version", JString expectedOwnerVersion);
                         ("basis_snapshot_digest", JString (sp_digest snapshot))] in
    Ok (Some (MkRemoval capabilities expectedOwnerVersion (sp_digest snapshot) (digestMutation wire))).

(** *** Results *)
Abbreviation MutationStatus := string.
Definition MutationStatusConfirmed : MutationStatus := "confirmed".
Definition MutationStatusRejected : MutationStatus := "rejected".
Definition MutationStatusUnknown : MutationStatus := "unknown".
Abbreviation MutationErrorCode := string.
Definition MutationErrorInvalidPlan : MutationErrorCode := "invalid_plan".
Definition MutationErrorOwnershipConflict : MutationErrorCode := "ownership_conflict".
Definition MutationErrorUnsupported : MutationErrorCode := "unsupported".
Definition MutationErrorNotReady : MutationErrorCode := "not_ready".
Definition MutationErrorBackendRejected : MutationErrorCode := "backend_rejected".
Definition MutationErrorUnknownResult : MutationErrorCode := "unknown_result".

Record MutationResult := MkMutationResult {
  mr_operation : MutationOperation;
  mr_domain : MutationDomain;
  mr_hasDomain : bool;
  mr_mutationDigest : string;
  mr_status : MutationStatus;
  mr_errorCode : MutationErrorCode;
  mr_hasErrorCode : bool;
  mr_valid : bool
}.

Definition validRejectedMutationCode (code : MutationErrorCode) : bool :=
  one_of code [MutationErrorInvalidPlan; MutationErrorOwnershipConflict; MutationErrorUnsupported;
               MutationErrorNotReady; MutationErrorBackendRejected].
Definition validMutationResultState (operation : MutationOperation) (status : MutationStatus)
    (code : MutationErrorCode) (hasCode : bool) : bool :=
  if negb (one_of operation [MutationOperationApply; MutationOperationRemove]) then false
  else if bool_decide (status = MutationStatusConfirmed) then negb hasCode && is_empty code
  else if bool_decide (status = MutationStatusUnknown)
  then hasCode && bool_decide (code = MutationErrorUnknownResult)
  else if bool_decide (status = MutationStatusRejected)
  then if negb hasCode || bool_decide (code = MutationErrorUnknownResult) || negb (validRejectedMutationCode code)
       then false
       else bool_decide (operation = MutationOperationApply) || negb (bool_decide (code = MutationErrorInvalidPlan))
  else false.

Definition validOperationPlan (plan : OperationPlan) : bool :=
  bool_decide (plan_OwnerVersion plan = ManagedOwnerVersionV1)
  && is_ok (Capabilities_Validate (plan_Capabilities plan))
  && validSnapshotDigest (plan_BasisSnapshotDigest plan) && (0 <? plan_Revision plan)
  && validMutationDomain (plan_Domain plan) && validSnapshotDigest (plan_Digest plan).

(** mutationIdentity: the operation, the domain and the digest of a mutation
    that is not a nil pointer and is complete. A nil interface is no mutation. *)
Definition mutationIdentity (m : option AuthorizedMutation)
    : option (MutationOperation * option MutationDomain * string) :=
  match m with
  | Some (ApplyMutation plan) =>
    if is_nil (plan_base plan) || negb (validOperationPlan plan) then None
    else Some (MutationOperationApply, Some (plan_Domain plan), plan_Digest plan)
  | Some (RemoveMutation (Some r)) =>
    if negb (bool_decide (rm_ownerVersion r = ManagedOwnerVersionV1))
       || negb (validSnapshotDigest (rm_basisSnapshotDigest r))
       || negb (is_ok (Capabilities_Validate (rm_capabilities r))) || negb (validSnapshotDigest (rm_digest r))
    then None
    else Some (MutationOperationRemove, None, rm_digest r)
  | _ => None
  end.

Definition invalidMutationResultError : error := Errorf "firewall mutation result is invalid".
Definition newMutationResult (m : option AuthorizedMutation) (status : MutationStatus)
    (code : MutationErrorCode) (hasCode : bool) : result MutationResult :=
  match mutationIdentity m with
  | Some (operation, domain, digest) =>
    fail_if (negb (validMutationResultState operation status code hasCode)) invalidMutationResultError;;
    Ok (MkMutationResult operation (default EmptyString domain) (negb (is_nil domain)) digest status code
          hasCode true)
  | None => Err invalidMutationResultError
  end.
Definition NewConfirmedMutationResult (m : option AuthorizedMutation) : result MutationResult :=
  newMutationResult m MutationStatusConfirmed EmptyString false.
Definition NewRejectedMutationResult (m : option AuthorizedMutation) (code : MutationErrorCode)
    : result MutationResult := newMutationResult m MutationStatusRejected code true.
Definition NewUnknownMutationResult (m : option AuthorizedMutation) : result MutationResult :=
  newMutationResult m MutationStatusUnknown MutationErrorUnknownResult true.

Definition MutationResult_Validate (r : MutationResult) : result unit :=
  fail_if (negb (mr_valid r) || negb (validSnapshotDigest (mr_mutationDigest r))
           || negb (validMutationResultState (mr_operation r) (mr_status r) (mr_errorCode r) (mr_hasErrorCode r))
           || negb (eqb (bool_decide (mr_operation r = MutationOperationApply)) (mr_hasDomain r))
           || (mr_hasDomain r && negb (validMutationDomain (mr_domain r))))
          invalidMutationResultError.
