(* ===== verification/Ipc.v ===== *)
(** * IPC requests and responses (internal/ipc)

    The closed sets of requests (request.go) and of mutation responses
    (response.go) that the agent and the enforcer exchange, with the constructors
    of the responses. A nil pointer inside an interface is None. *)

From S2P Require Import Prelude GoStd Netip Identity CoreModel Json Firewall.

Module ipc.
(** ** Requests (request.go) *)
Definition ownerVersionV1 : string := "guard/v1".
Abbreviation Operation := string.
Definition OperationProbeCapabilities : Operation := "ProbeCapabilities".
Definition OperationSnapshotManaged : Operation := "SnapshotManaged".
Definition OperationApplyManagedPlan : Operation := "ApplyManagedPlan".
Definition OperationRemoveManagedInfrastructure : Operation := "RemoveManagedInfrastructure".
Abbreviation Domain := string.
Definition DomainInfrastructure : Domain := "infrastructure".
Definition DomainPolicy : Domain := "policy".
Definition DomainTarget : Domain := "target".
Abbreviation Membership := string.
Definition MembershipPresent : Membership := "present".
Definition MembershipAbsent : Membership := "absent".
Abbreviation TimeoutMode := string.
Definition TimeoutModeNone : TimeoutMode := "none".
Definition TimeoutModeNative : TimeoutMode := "native".
Abbreviation Scope := string.
Definition ScopeInput : Scope := "input".
Definition ScopeForward : Scope := "forward".

Record planBase := MkPlanBase {
  pb_ownerVersion : string;
  pb_basisSnapshotDigest : string;
  pb_revision : Z
}.
Record infrastructurePlan := MkInfrastructurePlan { il_base : planBase; il_schemaVersion : Z }.
Record policyPlan := MkPolicyPlan {
  pl_base : planBase;
  pl_allowlist : list Prefix;
  pl_protectedTargets : list Prefix
}.
Record targetPlan := MkTargetPlan {
  tl_base : planBase;
  tl_target : Prefix;
  tl_membership : Membership;
  tl_timeoutMode : TimeoutMode;
  tl_effectiveUntilUnixMicro : Z;
  tl_hasEffectiveUntil : bool;
  tl_scopes : list Scope
}.
Inductive ManagedPlan :=
  | InfrastructurePlan (p : option infrastructurePlan)
  | PolicyPlan (p : option policyPlan)
  | TargetPlan (p : option targetPlan).

Definition base (p : ManagedPlan) : option planBase :=
  match p with
  | InfrastructurePlan p => il_base <$> p
  | PolicyPlan p => pl_base <$> p
  | TargetPlan p => tl_base <$> p
  end.
(** The methods of the plans; on a nil pointer they return the zero value. *)
Definition plan_Domain (p : ManagedPlan) : Domain :=
  match p with InfrastructurePlan _ => DomainInfrastructure | PolicyPlan _ => DomainPolicy | TargetPlan _ => DomainTarget end.
Definition OwnerVersion (p : ManagedPlan) : string :=
  match base p with Some b => pb_ownerVersion b | None => EmptyString end.
Definition BasisSnapshotDigest (p : ManagedPlan) : string :=
  match base p with Some b => pb_basisSnapshotDigest b | None => EmptyString end.
Definition Revision (p : ManagedPlan) : Z :=
  match base p with Some b => pb_revision b | None => 0 end.
Definition zero_base : planBase := MkPlanBase EmptyString EmptyString 0.
Definition policy_of (p : option policyPlan) : policyPlan := default (MkPolicyPlan zero_base [] []) p.
Definition target_of (p : option targetPlan) : targetPlan :=
  default (MkTargetPlan zero_base zero_prefix EmptyString EmptyString 0 false []) p.
Definition schemaVersion_of (p : option infrastructurePlan) : Z :=
  match p with Some p => il_schemaVersion p | None => 0 end.

(** The mutation requests: a plan that may be nil inside a request that may be
    a nil pointer, and the removal with its expected owner. *)
Inductive MutationRequest :=
  | ApplyManagedPlanRequest (r : option (option ManagedPlan))
  | RemoveManagedInfrastructureRequest (r : option string).
Definition Plan (r : option (option ManagedPlan)) : option ManagedPlan := mjoin r.
Definition ExpectedOwnerVersion (r : option string) : string := default EmptyString r.
Definition NewRemoveManagedInfrastructureRequest : MutationRequest :=
  RemoveManagedInfrastructureRequest (Some ownerVersionV1).

(** ** Mutation responses (response.go) *)
Abbreviation MutationStatus := string.
Definition MutationStatusConfirmed : MutationStatus := "confirmed".
Definition MutationStatusRejected : MutationStatus := "rejected".
Definition MutationStatusUnknown : MutationStatus := "unknown".
Abbreviation MutationErrorCode := string.
Definition MutationErrorCodeInvalidPlan : MutationErrorCode := "invalid_plan".
Definition MutationErrorCodeOwnershipConflict : MutationErrorCode := "ownership_conflict".
Definition MutationErrorCodeUnsupported : MutationErrorCode := "unsupported".
Definition MutationErrorCodeNotReady : MutationErrorCode := "not_ready".
Definition MutationErrorCodeBackendRejected : MutationErrorCode := "backend_rejected".
Definition MutationErrorCodeUnknownResult : MutationErrorCode := "unknown_result".

Record mutationResponseBase := MkResponseBase {
  rb_status : MutationStatus;
  rb_errorCode : MutationErrorCode;
  rb_hasErrorCode : bool
}.
Inductive MutationResponse :=
  | ApplyManagedPlanResponse (b : mutationResponseBase) (domain : Domain)
  | RemoveManagedInfrastructureResponse (b : mutationResponseBase).
Definition response_base (r : MutationResponse) : mutationResponseBase :=
  match r with ApplyManagedPlanResponse b _ => b | RemoveManagedInfrastructureResponse b => b end.
Definition Status (r : MutationResponse) : MutationStatus := rb_status (response_base r).

Definition validMutationDomain (domain : Domain) : bool :=
  one_of domain [DomainInfrastructure; DomainPolicy; DomainTarget].
Definition validApplyRejectedErrorCode (code : MutationErrorCode) : bool :=
  one_of code [MutationErrorCodeInvalidPlan; MutationErrorCodeOwnershipConflict; MutationErrorCodeUnsupported;
               MutationErrorCodeNotReady; MutationErrorCodeBackendRejected].
Definition validRemoveRejectedErrorCode (code : MutationErrorCode) : bool :=
  one_of code [MutationErrorCodeOwnershipConflict; MutationErrorCodeUnsupported;
               MutationErrorCodeNotReady; MutationErrorCodeBackendRejected].
Definition valid_state (rejected : MutationErrorCode → bool) (status : MutationStatus)
    (code : MutationErrorCode) (hasCode : bool) : bool :=
  if bool_decide (status = MutationStatusConfirmed) then negb hasCode && is_empty code
  else if bool_decide (status = MutationStatusRejected) then hasCode && rejected code
  else if bool_decide (status = MutationStatusUnknown)
  then hasCode && bool_decide (code = MutationErrorCodeUnknownResult)
  else false.
Definition validApplyResponseState := valid_state validApplyRejectedErrorCode.
Definition validRemoveResponseState := valid_state validRemoveRejectedErrorCode.

Definition mutationResponseError (code : string) : error :=
  Typed "MutationResponseError" [code] (Errorf "ipc mutation response rejected").
Definition newApplyManagedPlanResponse (domain : Domain) (status : MutationStatus)
    (code : MutationErrorCode) (hasCode : bool) : result MutationResponse :=
  fail_if (negb (validMutationDomain domain) || negb (validApplyResponseState status code hasCode))
          (mutationResponseError "schema_rejected");;
  Ok (ApplyManagedPlanResponse (MkResponseBase status code hasCode) domain).
Definition NewApplyManagedPlanConfirmedResponse (domain : Domain) : result MutationResponse :=
  newApplyManagedPlanResponse domain MutationStatusConfirmed EmptyString false.
Definition NewApplyManagedPlanRejectedResponse (domain : Domain) (code : MutationErrorCode)
    : result MutationResponse := newApplyManagedPlanResponse domain MutationStatusRejected code true.
Definition NewApplyManagedPlanUnknownResponse (domain : Domain) : result MutationResponse :=
  newApplyManagedPlanResponse domain MutationStatusUnknown MutationErrorCodeUnknownResult true.
Definition NewRemoveManagedInfrastructureConfirmedResponse : MutationResponse :=
  RemoveManagedInfrastructureResponse (MkResponseBase MutationStatusConfirmed EmptyString false).
Definition NewRemoveManagedInfrastructureRejectedResponse (code : MutationErrorCode) : result MutationResponse :=
  fail_if (negb (validRemoveRejectedErrorCode code)) (mutationResponseError "schema_rejected");;
  Ok (RemoveManagedInfrastructureResponse (MkResponseBase MutationStatusRejected code true)).
Definition NewRemoveManagedInfrastructureUnknownResponse : MutationResponse :=
  RemoveManagedInfrastructureResponse
    (MkResponseBase MutationStatusUnknown MutationErrorCodeUnknownResult true).
End ipc.
