(* ===== verification/Enforcer.v ===== *)
(** * The privileged enforcer (internal/enforcer)

    The bridge from IPC requests to firewall authorities (mutation.go) and the
    executor that observes, authorizes and applies one mutation per request
    (mutation_executor.go). *)

From S2P Require Import Prelude GoStd Sha256 Netip Identity CoreModel Json Firewall Ipc.

(** ** The bridge (mutation.go) *)
Definition BridgeErrorInvalidPlan : string := "invalid_plan".
Definition BridgeErrorOwnershipConflict : string := "ownership_conflict".
Definition BridgeErrorUnsupported : string := "unsupported".
Definition BridgeErrorNotReady : string := "not_ready".
Definition BridgeErrorSnapshotMismatch : string := "snapshot_mismatch".
Definition BridgeErrorResultMismatch : string := "result_mismatch".
Definition bridgeError (code : string) : error :=
  Typed "BridgeError" [code] (Errorf "enforcer mutation bridge failed").

Definition mapAuthorizationError (e : error) : error :=
  match e with
  | Typed t [code] _ =>
    if negb (bool_decide (t = "MutationAuthorizationError")) then bridgeError BridgeErrorNotReady
    else if bool_decide (code = MutationAuthorizationErrorInvalidPlan) then bridgeError BridgeErrorInvalidPlan
    else if bool_decide (code = MutationAuthorizationErrorOwnershipConflict)
    then bridgeError BridgeErrorOwnershipConflict
    else if bool_decide (code = MutationAuthorizationErrorUnsupported) then bridgeError BridgeErrorUnsupported
    else if bool_decide (code = MutationAuthorizationErrorNotReady) then bridgeError BridgeErrorNotReady
    else if bool_decide (code = MutationAuthorizationErrorSnapshotMismatch)
    then bridgeError BridgeErrorSnapshotMismatch
    else bridgeError BridgeErrorNotReady
  | _ => bridgeError BridgeErrorNotReady
  end.
Definition map_error {A} (m : result A) : result A :=
  match m with Ok a => Ok a | Err e => Err (mapAuthorizationError e) end.

Definition mapMembership (value : ipc.Membership) : option TargetMembership :=
  if bool_decide (value = ipc.MembershipPresent) then Some TargetMembershipPresent
  else if bool_decide (value = ipc.MembershipAbsent) then Some TargetMembershipAbsent
  else None.
Definition mapTimeoutMode (value : ipc.TimeoutMode) : option ManagedTimeoutMode :=
  if bool_decide (value = ipc.TimeoutModeNone) then Some ManagedTimeoutNone
  else if bool_decide (value = ipc.TimeoutModeNative) then Some ManagedTimeoutNative
  else None.
Definition mapScopes (values : list ipc.Scope) : option (list ManagedScope) :=
  mapM (λ s : ipc.Scope, if bool_decide (s = ipc.ScopeInput) then Some ManagedScopeInput
             else if bool_decide (s = ipc.ScopeForward) then Some ManagedScopeForward
             else None) values.
Definition mapResultDomain (domain : MutationDomain) : option ipc.Domain :=
  if bool_decide (domain = MutationDomainInfrastructure) then Some ipc.DomainInfrastructure
  else if bool_decide (domain = MutationDomainPolicy) then Some ipc.DomainPolicy
  else if bool_decide (domain = MutationDomainTarget) then Some ipc.DomainTarget
  else None.
Definition mapResultErrorCode (code : MutationErrorCode) : option ipc.MutationErrorCode :=
  if bool_decide (code = MutationErrorInvalidPlan) then Some ipc.MutationErrorCodeInvalidPlan
  else if bool_decide (code = MutationErrorOwnershipConflict) then Some ipc.MutationErrorCodeOwnershipConflict
  else if bool_decide (code = MutationErrorUnsupported) then Some ipc.MutationErrorCodeUnsupported
  else if bool_decide (code = MutationErrorNotReady) then Some ipc.MutationErrorCodeNotReady
  else if bool_decide (code = MutationErrorBackendRejected) then Some ipc.MutationErrorCodeBackendRejected
  else None.

(** Authorization holds a mutation or an immediate response. *)
Inductive Authorization :=
  | Authorized (mutation : AuthorizedMutation)
  | Immediate (response : ipc.MutationResponse).

Definition or_invalid {A} (o : option A) : result A :=
  match o with Some a => Ok a | None => Err (bridgeError BridgeErrorInvalidPlan) end.
Definition authorizeApplyPlan (plan : option ipc.ManagedPlan) (capabilities : FirewallCapabilities)
    (snapshot : ManagedSnapshot) : result AuthorizedMutation :=
  plan ← or_invalid plan;
  fail_if (negb (bool_decide (ipc.OwnerVersion plan = ManagedOwnerVersionV1))
           || is_empty (ipc.BasisSnapshotDigest plan) || (ipc.Revision plan <=? 0))
          (bridgeError BridgeErrorInvalidPlan);;
  let basis := ipc.BasisSnapshotDigest plan in
  let revision := ipc.Revision plan in
  match plan with
  | ipc.InfrastructurePlan p =>
    fail_if (negb (ipc.schemaVersion_of p =? ManagedInfrastructureSchemaVersionV1))
            (bridgeError BridgeErrorInvalidPlan);;
    m ← map_error (AuthorizeInfrastructureMutation capabilities snapshot basis revision);
    Ok (ApplyMutation m)
  | ipc.PolicyPlan p =>
    m ← map_error (AuthorizePolicyMutation capabilities snapshot basis revision
                     (ipc.pl_allowlist (ipc.policy_of p)) (ipc.pl_protectedTargets (ipc.policy_of p)));
    Ok (ApplyMutation m)
  | ipc.TargetPlan p =>
    let t := ipc.target_of p in
    membership ← or_invalid (mapMembership (ipc.tl_membership t));
    timeoutMode ← or_invalid (mapTimeoutMode (ipc.tl_timeoutMode t));
    scopes ← or_invalid (mapScopes (ipc.tl_scopes t));
    m ← map_error (AuthorizeTargetMutation capabilities snapshot basis revision (ipc.tl_target t) membership
                     timeoutMode (ipc.tl_effectiveUntilUnixMicro t) (ipc.tl_hasEffectiveUntil t) scopes);
    Ok (ApplyMutation m)
  end.

Definition AuthorizeMutationRequest (request : ipc.MutationRequest) (capabilities : FirewallCapabilities)
    (snapshot : ManagedSnapshot) : result Authorization :=
  match request with
  | ipc.ApplyManagedPlanRequest r =>
    m ← authorizeApplyPlan (ipc.Plan r) capabilities snapshot; Ok (Authorized m)
  | ipc.RemoveManagedInfrastructureRequest r =>
    fail_if (is_empty (ipc.ExpectedOwnerVersion r)) (bridgeError BridgeErrorInvalidPlan);;
    removal ← map_error (AuthorizeManagedRemoval capabilities snapshot (ipc.ExpectedOwnerVersion r));
    Ok (match removal with
        | None => Immediate ipc.NewRemoveManagedInfrastructureConfirmedResponse
        | Some r => Authorized (RemoveMutation (Some r))
        end)
  end.

Definition or_mismatch {A} (o : option A) : result A :=
  match o with Some a => Ok a | None => Err (bridgeError BridgeErrorResultMismatch) end.
Definition mapApplyResult (domain : ipc.Domain) (outcome : MutationResult) : result ipc.MutationResponse :=
  if bool_decide (mr_status outcome = MutationStatusConfirmed)
  then ipc.NewApplyManagedPlanConfirmedResponse domain
  else if bool_decide (mr_status outcome = MutationStatusUnknown)
  then ipc.NewApplyManagedPlanUnknownResponse domain
  else if bool_decide (mr_status outcome = MutationStatusRejected)
  then fail_if (negb (mr_hasErrorCode outcome)) (bridgeError BridgeErrorResultMismatch);;
       code ← or_mismatch (mapResultErrorCode (mr_errorCode outcome));
       ipc.NewApplyManagedPlanRejectedResponse domain code
  else Err (bridgeError BridgeErrorResultMismatch).
Definition mapRemovalResult (outcome : MutationResult) : result ipc.MutationResponse :=
  if bool_decide (mr_status outcome = MutationStatusConfirmed)
  then Ok ipc.NewRemoveManagedInfrastructureConfirmedResponse
  else if bool_decide (mr_status outcome = MutationStatusUnknown)
  then Ok ipc.NewRemoveManagedInfrastructureUnknownResponse
  else if bool_decide (mr_status outcome = MutationStatusRejected)
  then fail_if (negb (mr_hasErrorCode outcome) || bool_decide (mr_errorCode outcome = MutationErrorInvalidPlan))
               (bridgeError BridgeErrorResultMismatch);;
       code ← or_mismatch (mapResultErrorCode (mr_errorCode outcome));
       ipc.NewRemoveManagedInfrastructureRejectedResponse code
  else Err (bridgeError BridgeErrorResultMismatch).

Definition MapMutationResult (expected : Authorization) (outcome : MutationResult)
    : result ipc.MutationResponse :=
  let mismatch := bridgeError BridgeErrorResultMismatch in
  match expected with
  | Immediate _ => Err mismatch
  | Authorized mutation =>
    fail_if (negb (is_ok (MutationResult_Validate outcome))
             || negb (bool_decide (mr_operation outcome = mutation_Operation mutation))
             || negb (bool_decide (mr_mutationDigest outcome = mutation_Digest mutation))) mismatch;;
    match mutation with
    | ApplyMutation plan =>
      fail_if (negb (mr_hasDomain outcome) || negb (bool_decide (mr_domain outcome = plan_Domain plan))) mismatch;;
      domain ← or_mismatch (mapResultDomain (mr_domain outcome));
      mapApplyResult domain outcome
    | RemoveMutation _ =>
      fail_if (mr_hasDomain outcome) mismatch;;
      mapRemovalResult outcome
    end
  end.

(** ** The executor (mutation_executor.go) *)
Definition ErrMutationBackendUnsupported : error := Errorf "enforcer mutation backend is unsupported".
Definition ErrMutationBackendNotReady : error := Errorf "enforcer mutation backend is not ready".
Definition ErrMutationBackendOwnershipConflict : error := Errorf "enforcer mutation backend ownership conflict".

(** The privileged port, the context and the gate: ctx.Err() at its next test,
    and whether the gate is taken before the context is done. *)
Class MutationBackend (E : Type) := {
  be_Probe : ST E FirewallCapabilities;
  be_Snapshot : ST E ManagedSnapshot;
  be_Apply : OperationPlan → E → MutationResult * E;
  be_RemoveManagedInfrastructure : option removalAuthorization → E → MutationResult * E;
  be_Cancelled : E → bool * E;
  be_Gate : E → bool * E
}.

Inductive backend_event :=
  | SawProbe (r : result FirewallCapabilities)
  | SawSnapshot (r : result ManagedSnapshot)
  | SawMutation (m : AuthorizedMutation) (outcome : MutationResult).
(** The environment and the calls of the backend, the latest first. *)
Record executor (E : Type) := MkExecutor { ex_env : E; ex_trace : list backend_event }.
Arguments MkExecutor {E}. Arguments ex_env {E}. Arguments ex_trace {E}.

Definition correlatableMutationRequest (request : ipc.MutationRequest) : bool :=
  match request with
  | ipc.ApplyManagedPlanRequest r => negb (is_nil (ipc.Plan r))
  | ipc.RemoveManagedInfrastructureRequest r =>
    bool_decide (ipc.ExpectedOwnerVersion r = ManagedOwnerVersionV1)
  end.

Definition mutationObservationErrorCode (e : error) : ipc.MutationErrorCode :=
  if errors_Is e ErrMutationBackendUnsupported then ipc.MutationErrorCodeUnsupported
  else if errors_Is e ErrMutationBackendOwnershipConflict || errors_As e "OwnershipConflictError"
  then ipc.MutationErrorCodeOwnershipConflict
  else ipc.MutationErrorCodeNotReady.

(** errors.As for a BridgeError, and its code. *)
Fixpoint bridge_code (e : error) : option string :=
  match e with
  | Errorf _ => None
  | Wrapf _ c => bridge_code c
  | Typed t fields c =>
    if bool_decide (t = "BridgeError") then match fields with [code] => Some code | _ => None end
    else bridge_code c
  | Join l r => match bridge_code l with Some code => Some code | None => bridge_code r end
  end.
Definition mutationAuthorizationErrorCode (e : error) : ipc.MutationErrorCode :=
  match bridge_code e with
  | None => ipc.MutationErrorCodeNotReady
  | Some code =>
    if bool_decide (code = BridgeErrorInvalidPlan) then ipc.MutationErrorCodeInvalidPlan
    else if bool_decide (code = BridgeErrorOwnershipConflict) then ipc.MutationErrorCodeOwnershipConflict
    else if bool_decide (code = BridgeErrorUnsupported) then ipc.MutationErrorCodeUnsupported
    else ipc.MutationErrorCodeNotReady
  end.

Definition from_result {A} (r : result A) : option A := match r with Ok a => Some a | Err _ => None end.
Definition rejectedMutationResponse (request : ipc.MutationRequest) (code : ipc.MutationErrorCode)
    : option ipc.MutationResponse :=
  match request with
  | ipc.ApplyManagedPlanRequest r =>
    match ipc.Plan r with
    | None => None
    | Some plan => from_result (ipc.NewApplyManagedPlanRejectedResponse (ipc.plan_Domain plan) code)
    end
  | ipc.RemoveManagedInfrastructureRequest _ =>
    let code := if bool_decide (code = ipc.MutationErrorCodeInvalidPlan)
                then ipc.MutationErrorCodeNotReady else code in
    from_result (ipc.NewRemoveManagedInfrastructureRejectedResponse code)
  end.

Section executor.
Context {E : Type} `{MutationBackend E}.
Abbreviation X := (ST (executor E)).

Definition observe {A} (ev : result A → backend_event) (m : ST E A) : X (result A) := λ w,
  let '(r, e) := m (ex_env w) in (Ok r, MkExecutor e (ev r :: ex_trace w)).
Definition consult (f : E → bool * E) : X bool := λ w,
  let '(b, e) := f (ex_env w) in (Ok b, MkExecutor e (ex_trace w)).
Definition mutate (m : AuthorizedMutation) : X MutationResult := λ w,
  let '(r, e) := match m with
                 | ApplyMutation plan => be_Apply plan (ex_env w)
                 | RemoveMutation r => be_RemoveManagedInfrastructure r (ex_env w)
                 end in (Ok r, MkExecutor e (SawMutation m r :: ex_trace w)).

(** What the executor answers to the outcome of a mutation: an outcome that does
    not belong to the mutation becomes unknown. *)
Definition respond (m : AuthorizedMutation) (outcome : MutationResult) : option ipc.MutationResponse :=
  match MapMutationResult (Authorized m) outcome with
  | Ok response => Some response
  | Err _ =>
    match NewUnknownMutationResult (Some m) with
    | Ok unknown => from_result (MapMutationResult (Authorized m) unknown)
    | Err _ => None
    end
  end.

(** [m] if the context is not done at this test. *)
Definition unless_cancelled (request : ipc.MutationRequest) (m : X (option ipc.MutationResponse))
    : X (option ipc.MutationResponse) :=
  cancelled ← consult be_Cancelled;
  if (cancelled : bool) then mret (rejectedMutationResponse request ipc.MutationErrorCodeNotReady) else m.

(** [missing]: a nil context, executor or backend. *)
Definition Execute (missing : bool) (request : ipc.MutationRequest) : X (option ipc.MutationResponse) :=
  let not_ready := mret (rejectedMutationResponse request ipc.MutationErrorCodeNotReady) in
  if negb (correlatableMutationRequest request) then mret None
  else if missing then not_ready
  else unless_cancelled request (
    taken ← consult be_Gate;
    if negb taken then not_ready
    else unless_cancelled request (
      probed ← observe SawProbe be_Probe;
      match probed with
      | Err e => mret (rejectedMutationResponse request (mutationObservationErrorCode e))
      | Ok capabilities =>
        if negb (is_ok (Capabilities_Validate capabilities)) || negb (fc_mutationReady capabilities)
           || negb (fc_ownershipProven capabilities)
        then not_ready
        else unless_cancelled request (
          seen ← observe SawSnapshot be_Snapshot;
          match seen with
          | Err e => mret (rejectedMutationResponse request (mutationObservationErrorCode e))
          | Ok snapshot =>
            if negb (is_ok (ManagedSnapshot_Validate snapshot)) then not_ready
            else unless_cancelled request (
              match AuthorizeMutationRequest request capabilities snapshot with
              | Err e => mret (rejectedMutationResponse request (mutationAuthorizationErrorCode e))
              | Ok (Immediate response) => mret (Some response)
              | Ok (Authorized mutation) =>
                unless_cancelled request (
                  outcome ← mutate mutation;
                  mret (respond mutation outcome))
              end)
          end)
      end)).
End executor.

(** ** What an authorization guarantees *)
Definition mutation_capabilities (m : AuthorizedMutation) : FirewallCapabilities :=
  match m with
  | ApplyMutation p => plan_Capabilities p
  | RemoveMutation r => match r with Some r => rm_capabilities r | None => zero_capabilities end
  end.
Definition mutation_basis (m : AuthorizedMutation) : string :=
  match m with
  | ApplyMutation p => plan_BasisSnapshotDigest p
  | RemoveMutation r => match r with Some r => rm_basisSnapshotDigest r | None => EmptyString end
  end.
(** No address of the prefix is a loopback address. *)
Definition spares_loopback (p : Prefix) : Prop :=
  ∀ a, Addr_wf a → Contains p a = true → Contains loopback4 a = false ∧ Contains loopback6 a = false.
Definition domain_safe (s : ManagedState) (m : AuthorizedMutation) : Prop :=
  match m with
  | ApplyMutation (InfrastructurePlanOf p) => p ≠ None
  | ApplyMutation (PolicyPlanOf p) =>
    ms_infrastructure s ≠ None ∧
    ∃ p', p = Some p' ∧ loopback4 ∈ py_protectedTargets p' ∧ loopback6 ∈ py_protectedTargets p'
  | ApplyMutation (TargetPlanOf p) =>
    ms_infrastructure s ≠ None ∧
    ∃ p', p = Some p' ∧ not_canonical (tp_target p') = false ∧
      (Prefix_wf (tp_target p') → spares_loopback (tp_target p')) ∧
      (tp_membership p' = TargetMembershipPresent → ms_policy s ≠ None)
  | RemoveMutation r => r ≠ None ∧ (ms_infrastructure s ≠ None ∨ ms_policy s ≠ None ∨ ms_targets s ≠ [])
  end.
(** The mutation was authorized for just this observation. *)
Record authority (c : FirewallCapabilities) (s : ManagedSnapshot) (m : AuthorizedMutation) : Prop := {
  au_capabilities : Capabilities_Validate c = Ok tt;
  au_ready : fc_mutationReady c = true ∧ fc_ownershipProven c = true;
  au_snapshot : ManagedSnapshot_Validate s = Ok tt;
  au_backend i : ms_infrastructure (sp_managedState s) = Some i → ob_backend i = fc_backend c;
  au_mine : mutation_capabilities m = c ∧ mutation_basis m = sp_digest s;
  au_complete : ∃ domain, mutationIdentity (Some m)
                          = Some (mutation_Operation m, domain, mutation_Digest m);
  au_domain : domain_safe (sp_managedState s) m
}.

Lemma hex_encode_valid l : length l = 32%nat → Forall is_byte l → validSnapshotDigest (hex_encode l) = true.
Proof.
  intros Hl Hb. unfold validSnapshotDigest, hex_encode.
  assert (Forall is_byte (l ≫= λ b, [hex_digit (b / 16); hex_digit (b mod 16)])) as Hbytes.
  { apply Forall_bind. eapply Forall_impl; [exact Hb|]. intros b [Hb1 Hb2].
    assert (0 ≤ b / 16 < 16) by (split; [apply Z.div_pos|apply Z.div_lt_upper_bound]; lia).
    pose proof (Z.mod_pos_bound b 16). unfold hex_digit, is_byte.
    repeat constructor; repeat break_if; lia. }
  rewrite <- length_string_bytes, string_bytes_of_bytes by done. gobool. split.
  - assert (∀ f : Z → list Z, (∀ x, length (f x) = 2%nat) → length (l ≫= f) = (2 * length l)%nat) as Hlen.
    { intros f Hf. clear -Hf. induction l as [|y r IH]; [done|]. cbn. rewrite length_app, Hf, IH. lia. }
    by rewrite Hlen, Hl.
  - apply forallb_forall. intros x Hx. apply list_elem_of_In, list_elem_of_bind in Hx as (b & Hx & Hin).
    rewrite Forall_forall in Hb. destruct (Hb b Hin) as [Hb1 Hb2].
    assert (0 ≤ b / 16 < 16) by (split; [apply Z.div_pos|apply Z.div_lt_upper_bound]; lia).
    pose proof (Z.mod_pos_bound b 16). unfold lower_hex, in_range, hex_digit in *.
    apply elem_of_cons in Hx as [->|[->|[]%elem_of_nil]%elem_of_cons]; repeat break_if; gobool; lia.
Qed.
Lemma digestMutation_valid wire : validSnapshotDigest (digestMutation wire) = true.
Proof. apply hex_encode_valid; [apply length_Sum256|apply Sum256_range]. Qed.
#[local] Opaque digestMutation computeManagedSnapshotDigest.

Lemma is_ok_true (r : result unit) : is_ok r = true ↔ r = Ok tt.
Proof. destruct r as [[]|]; split; done. Qed.
Lemma map_error_Ok {A} (r : result A) a : map_error r = Ok a → r = Ok a.
Proof. by destruct r. Qed.

Lemma validateMutationAuthority_Ok c s basis :
  validateMutationAuthority c s basis = Ok tt →
  Capabilities_Validate c = Ok tt ∧ ManagedSnapshot_Validate s = Ok tt ∧
  (fc_mutationReady c = true ∧ fc_ownershipProven c = true) ∧
  (∀ i, ms_infrastructure (sp_managedState s) = Some i → ob_backend i = fc_backend c) ∧
  (basis ≠ EmptyString → basis = sp_digest s).
Proof.
  unfold validateMutationAuthority. intros Hv. inv_ok. gobool. rewrite !is_ok_true in *.
  split; [tauto|]. split; [tauto|]. split; [tauto|]. split.
  - intros i Hi. rewrite Hi in *. gobool. done.
  - intros Hb. destruct basis; [done|]. cbn in *. naive_solver.
Qed.

Lemma snapshot_digest_valid s : ManagedSnapshot_Validate s = Ok tt → validSnapshotDigest (sp_digest s) = true.
Proof. unfold ManagedSnapshot_Validate, invalid_if. intros Hv. inv_ok. gobool. tauto. Qed.
Lemma valid_digest_nonempty d : validSnapshotDigest d = true → d ≠ EmptyString.
Proof. by intros Hv ->. Qed.

Lemma managed_target_spares p :
  validManagedTarget p = true → not_canonical p = false ∧ (Prefix_wf p → spares_loopback p).
Proof.
  unfold validManagedTarget. gobool. intros [[Hc H4] H6]. split; [done|]. intros Hwf a Ha Hin.
  assert (PrefixIsValid p = true) as Hv by by apply canonical_valid.
  assert (Prefix_wf loopback4 ∧ Prefix_wf loopback6) as [W4 W6].
  { unfold Prefix_wf, Addr_wf. vm_compute. intuition discriminate. }
  split; apply not_true_is_false; intros Hl.
  - assert (Overlaps p loopback4 = true) by (apply Overlaps_iff; eauto). congruence.
  - assert (Overlaps p loopback6 = true) by (apply Overlaps_iff; eauto). congruence.
Qed.

(** A plan of the executor is complete. *)
Lemma plan_complete c d basis revision p :
  Capabilities_Validate c = Ok tt → validSnapshotDigest basis = true → 0 < revision →
  plan_base p = Some (with_digest (newOperationPlanBase c basis revision) d) → validSnapshotDigest d = true →
  mutationIdentity (Some (ApplyMutation p))
  = Some (MutationOperationApply, Some (plan_Domain p), mutation_Digest (ApplyMutation p)).
Proof.
  intros Hc Hb Hr Hp Hd. unfold mutationIdentity, validOperationPlan, plan_OwnerVersion, plan_Capabilities,
    plan_BasisSnapshotDigest, plan_Revision, mutation_Digest, plan_Digest. rewrite Hp. cbn.
  rewrite Hc, Hb, Hd. replace (0 <? revision) with true by lia. cbn. by destruct p.
Qed.

Lemma infrastructure_authority c s basis revision p :
  AuthorizeInfrastructureMutation c s basis revision = Ok p → authority c s (ApplyMutation p).
Proof.
  unfold AuthorizeInfrastructureMutation, invalid_plan_if. intros Ha. inv_ok. gobool. destruct Ha0 as [Hb Hr].
  destruct (validateMutationAuthority_Ok _ _ _ Ha1) as (Hc & Hs & Hrd & Hbk & Hd).
  split; try done.
  - split; [done|]. cbn. by apply Hd, valid_digest_nonempty.
  - eexists. eapply plan_complete; eauto using digestMutation_valid.
Qed.

Lemma policy_authority c s basis revision allow protected p :
  AuthorizePolicyMutation c s basis revision allow protected = Ok p → authority c s (ApplyMutation p).
Proof.
  unfold AuthorizePolicyMutation, invalid_plan_if, not_ready_if, unsupported_if. intros Ha. inv_ok. gobool.
  destruct (validateMutationAuthority_Ok _ _ _ Ha1) as (Hc & Hs & Hrd & Hbk & Hd).
  assert (validSnapshotDigest basis = true ∧ 0 < revision) as [Hb Hr] by naive_solver.
  split; try done.
  - split; [done|]. cbn. by apply Hd, valid_digest_nonempty.
  - eexists. eapply plan_complete; eauto using digestMutation_valid.
  - cbn. split; [by destruct (ms_infrastructure (sp_managedState s))|]. eexists. split; [done|]. cbn.
    unfold hasMandatoryProtectedTargets in *. gobool. naive_solver.
Qed.

Lemma target_authority c s basis revision target membership mode until has scopes p :
  AuthorizeTargetMutation c s basis revision target membership mode until has scopes = Ok p →
  authority c s (ApplyMutation p).
Proof.
  unfold AuthorizeTargetMutation, invalid_plan_if, not_ready_if, unsupported_if. intros Ha.
  apply result_bind_Ok in Ha as ([] & Hv%fail_if_Ok & Ha). apply result_bind_Ok in Ha as (sc & _ & Ha).
  inv_ok. gobool. destruct (validateMutationAuthority_Ok _ _ _ Ha0) as (Hc & Hs & Hrd & Hbk & Hd).
  assert (validSnapshotDigest basis = true ∧ 0 < revision ∧ validManagedTarget target = true) as (Hb & Hr & Ht)
    by naive_solver.
  split; try done.
  - split; [done|]. cbn. by apply Hd, valid_digest_nonempty.
  - eexists. eapply plan_complete; eauto using digestMutation_valid.
  - cbn. split; [by destruct (ms_infrastructure (sp_managedState s))|]. eexists. split; [done|]. cbn.
    destruct (managed_target_spares _ Ht) as [Hcn Hsp]. split; [done|]. split; [done|].
    intros ->. destruct (ms_policy (sp_managedState s)); [done|]. cbn in *. naive_solver.
Qed.

Lemma removal_authority c s owner r :
  AuthorizeManagedRemoval c s owner = Ok (Some r) → authority c s (RemoveMutation (Some r)).
Proof.
  unfold AuthorizeManagedRemoval. intros Ha. inv_ok. gobool. subst.
  destruct (validateMutationAuthority_Ok _ _ _ Ha1) as (Hc & Hs & Hrd & Hbk & _).
  destruct (is_nil _ && _ && _) eqn:Hempty; [done|]. injection Ha as <-. split; try done.
  - eexists. cbn. rewrite (snapshot_digest_valid _ Hs), Hc, digestMutation_valid. done.
  - split; [done|]. gobool. destruct (ms_infrastructure (sp_managedState s)); [by left|].
    destruct (ms_policy (sp_managedState s)); [by right; left|]. right. right.
    intros Ht. rewrite Ht in Hempty. cbn in Hempty. naive_solver.
Qed.

(** Every mutation that the bridge authorizes has the authority of the
    observation it was given. *)
Lemma authorized_mutation request c s m :
  AuthorizeMutationRequest request c s = Ok (Authorized m) → authority c s m.
Proof.
  unfold AuthorizeMutationRequest. destruct request as [r|r]; intros Ha.
  - apply result_bind_Ok in Ha as (m' & Hm & [= <-]). unfold authorizeApplyPlan in Hm.
    apply result_bind_Ok in Hm as (plan & _ & Hm). apply result_bind_Ok in Hm as (? & _ & Hm).
    destruct plan as [p|p|p]; cbv zeta in Hm.
    + apply result_bind_Ok in Hm as (? & _ & Hm). apply result_bind_Ok in Hm as (q & Hq%map_error_Ok & [= <-]).
      exact (infrastructure_authority _ _ _ _ _ Hq).
    + apply result_bind_Ok in Hm as (q & Hq%map_error_Ok & [= <-]). exact (policy_authority _ _ _ _ _ _ _ Hq).
    + do 3 apply result_bind_Ok in Hm as (? & _ & Hm).
      apply result_bind_Ok in Hm as (q & Hq%map_error_Ok & [= <-]).
      exact (target_authority _ _ _ _ _ _ _ _ _ _ _ Hq).
  - apply result_bind_Ok in Ha as ([] & _ & Ha). apply result_bind_Ok in Ha as (o & Ho%map_error_Ok & Ha).
    destruct o as [r'|]; [|done]. injection Ha as <-. exact (removal_authority _ _ _ _ Ho).
Qed.

(** ** One request *)
Definition quiet_event (ev : backend_event) : bool := match ev with SawMutation _ _ => false | _ => true end.
Definition no_mutation (evs : list backend_event) : Prop := Forall (λ ev, quiet_event ev = true) evs.

(** What one request makes of the backend, the latest call first, and its
    answer: refused without a mutation, answered at once, or one mutation that
    was authorized by the probe and the snapshot before it. *)
Inductive handled (request : ipc.MutationRequest) : list backend_event → option ipc.MutationResponse → Prop :=
  | handled_malformed : correlatableMutationRequest request = false → handled request [] None
  | handled_refused evs code :
      correlatableMutationRequest request = true → no_mutation evs →
      ipc.validApplyRejectedErrorCode code = true →
      handled request evs (rejectedMutationResponse request code)
  | handled_at_once c s response :
      AuthorizeMutationRequest request c s = Ok (Immediate response) →
      handled request [SawSnapshot (Ok s); SawProbe (Ok c)] (Some response)
  | handled_mutation c s m outcome :
      AuthorizeMutationRequest request c s = Ok (Authorized m) →
      handled request [SawMutation m outcome; SawSnapshot (Ok s); SawProbe (Ok c)] (respond m outcome).

Lemma observation_code_valid e : ipc.validApplyRejectedErrorCode (mutationObservationErrorCode e) = true.
Proof. unfold mutationObservationErrorCode. by repeat case_match. Qed.
Lemma authorization_code_valid e : ipc.validApplyRejectedErrorCode (mutationAuthorizationErrorCode e) = true.
Proof. unfold mutationAuthorizationErrorCode. by repeat case_match. Qed.

Section one_request.
Context {E : Type} `{MutationBackend E}.
Implicit Types w : executor E.

(** From [w], with the events [before] of the request already seen, [m] ends in
    a handled request. *)
Definition handles request before (m : ST (executor E) (option ipc.MutationResponse)) : Prop :=
  ∀ w, ∃ r evs w', m w = (Ok r, w') ∧ ex_trace w' = evs ++ ex_trace w ∧ handled request (evs ++ before) r.

Lemma handles_refused request before code :
  correlatableMutationRequest request = true → no_mutation before →
  ipc.validApplyRejectedErrorCode code = true →
  handles request before (mret (rejectedMutationResponse request code)).
Proof. intros Hc Hn Hv w. eexists _, [], w. split; [done|]. split; [done|]. by constructor. Qed.
Lemma handles_consult request before f g :
  (∀ b, handles request before (g b)) → handles request before (b ← consult f; g b).
Proof.
  intros Hg w. destruct (f (ex_env w)) as [b e] eqn:Hf.
  destruct (Hg b (MkExecutor e (ex_trace w))) as (r & evs & w' & Hr & Ht & Hh). exists r, evs, w'.
  rewrite (bind_step _ _ _ b (MkExecutor e (ex_trace w))) by (unfold consult; by rewrite Hf). done.
Qed.
Lemma handles_observe {A} request before ev (m : ST E A) g :
  (∀ r, handles request (ev r :: before) (g r)) → handles request before (r ← observe ev m; g r).
Proof.
  intros Hg w. destruct (m (ex_env w)) as [r e] eqn:Hm.
  destruct (Hg r (MkExecutor e (ev r :: ex_trace w))) as (x & evs & w' & Hr & Ht & Hh). exists x, (evs ++ [ev r]), w'.
  rewrite (bind_step _ _ _ r (MkExecutor e (ev r :: ex_trace w))) by (unfold observe; by rewrite Hm).
  split; [done|]. rewrite <- !app_assoc. done.
Qed.
Lemma handles_unless request before m :
  correlatableMutationRequest request = true → no_mutation before →
  handles request before m → handles request before (unless_cancelled request m).
Proof.
  intros Hc Hn Hm. apply handles_consult. intros []; [by apply handles_refused|done].
Qed.

(** The executor handles every request so, whatever the backend, the context
    and the gate do. *)
Lemma Execute_handles missing request : handles request [] (Execute missing request).
Proof.
  unfold Execute. destruct (correlatableMutationRequest request) eqn:Hc; cbn [negb].
  2: { intros w. eexists _, [], w. split; [done|]. split; [done|]. by constructor. }
  assert (no_mutation []) as N0 by constructor.
  destruct missing; [by apply handles_refused|].
  apply handles_unless; [done..|]. apply handles_consult. intros []; cbn [negb]; [|by apply handles_refused].
  apply handles_unless; [done..|]. apply handles_observe. intros [c|e].
  2: { apply handles_refused; [done|by repeat constructor|apply observation_code_valid]. }
  assert (no_mutation [SawProbe (Ok c)]) as N1 by by repeat constructor.
  destruct (_ || _ || _); [by apply handles_refused|].
  apply handles_unless; [done..|]. apply handles_observe. intros [s|e].
  2: { apply handles_refused; [done|by repeat constructor|apply observation_code_valid]. }
  assert (no_mutation [SawSnapshot (Ok s); SawProbe (Ok c)]) as N2 by by repeat constructor.
  destruct (negb _); [by apply handles_refused|]. apply handles_unless; [done..|].
  destruct (AuthorizeMutationRequest request c s) as [[m|response]|e] eqn:Ha.
  - apply handles_unless; [done..|]. intros w. unfold mutate.
    unfold mbind, st_bind. destruct (match m with ApplyMutation plan => _ | RemoveMutation r => _ end) as [o e].
    eexists _, [SawMutation m o], _. split; [done|]. split; [done|]. by constructor.
  - intros w. eexists _, [], w. split; [done|]. split; [done|]. by constructor.
  - by apply handles_refused, authorization_code_valid.
Qed.
End one_request.

(** ** What the executor answers *)
(** The response is of the request's operation and domain. *)
Definition correlated (request : ipc.MutationRequest) (r : ipc.MutationResponse) : Prop :=
  match request, r with
  | ipc.ApplyManagedPlanRequest q, ipc.ApplyManagedPlanResponse _ domain =>
    ipc.plan_Domain <$> ipc.Plan q = Some domain
  | ipc.RemoveManagedInfrastructureRequest _, ipc.RemoveManagedInfrastructureResponse _ => True
  | _, _ => False
  end.
(** The request's own mutation came back with this valid outcome. *)
Definition came_back (evs : list backend_event) (status : MutationStatus) : Prop :=
  ∃ m outcome rest, evs = SawMutation m outcome :: rest ∧ MutationResult_Validate outcome = Ok tt ∧
    mr_mutationDigest outcome = mutation_Digest m ∧ mr_status outcome = status.
Definition nothing_managed (evs : list backend_event) : Prop :=
  ∃ s c, evs = [SawSnapshot (Ok s); SawProbe (Ok c)] ∧ ms_infrastructure (sp_managedState s) = None ∧
    ms_policy (sp_managedState s) = None ∧ ms_targets (sp_managedState s) = [].
Definition truthful (request : ipc.MutationRequest) (evs : list backend_event)
    (r : option ipc.MutationResponse) : Prop :=
  match r with
  | None => correlatableMutationRequest request = false ∧ evs = []
  | Some r =>
    correlated request r ∧
    ((ipc.Status r = ipc.MutationStatusConfirmed ∧
      (came_back evs MutationStatusConfirmed ∨
       nothing_managed evs ∧ r = ipc.NewRemoveManagedInfrastructureConfirmedResponse)) ∨
     (ipc.Status r = ipc.MutationStatusRejected ∧
      (no_mutation evs ∨ came_back evs MutationStatusRejected)) ∨
     (ipc.Status r = ipc.MutationStatusUnknown ∧ ¬ no_mutation evs))
  end.

(** The bridge authorizes a mutation of the request's kind. *)
Definition kindred (request : ipc.MutationRequest) (m : AuthorizedMutation) : Prop :=
  match request, m with
  | ipc.ApplyManagedPlanRequest q, ApplyMutation p =>
    mapResultDomain (plan_Domain p) = ipc.plan_Domain <$> ipc.Plan q
  | ipc.RemoveManagedInfrastructureRequest _, RemoveMutation _ => True
  | _, _ => False
  end.
Lemma authorized_kindred request c s m : AuthorizeMutationRequest request c s = Ok (Authorized m) → kindred request m.
Proof.
  unfold AuthorizeMutationRequest. destruct request as [r|r]; intros Ha.
  - apply result_bind_Ok in Ha as (m' & Hm & [= <-]). unfold authorizeApplyPlan in Hm.
    destruct (ipc.Plan r) as [plan|] eqn:Hp; [|done].
    apply result_bind_Ok in Hm as (p & [= <-] & Hm). apply result_bind_Ok in Hm as (? & _ & Hm).
    destruct plan as [p|p|p]; cbv zeta in Hm.
    + apply result_bind_Ok in Hm as (? & _ & Hm). apply result_bind_Ok in Hm as (q & Hq%map_error_Ok & [= <-]).
      unfold AuthorizeInfrastructureMutation in Hq. inv_ok. cbn. by rewrite Hp.
    + apply result_bind_Ok in Hm as (q & Hq%map_error_Ok & [= <-]).
      unfold AuthorizePolicyMutation in Hq. inv_ok. cbn. by rewrite Hp.
    + do 3 apply result_bind_Ok in Hm as (? & _ & Hm).
      apply result_bind_Ok in Hm as (q & Hq%map_error_Ok & [= <-]).
      unfold AuthorizeTargetMutation in Hq. inv_ok. cbn. by rewrite Hp.
  - apply result_bind_Ok in Ha as ([] & _ & Ha). apply result_bind_Ok in Ha as (o & Ho%map_error_Ok & Ha).
    destruct o as [r'|]; [|done]. by injection Ha as <-.
Qed.

(** A mapped outcome is valid, is of the mutation, and keeps its status. *)
Lemma MapMutationResult_Ok request m o r :
  MapMutationResult (Authorized m) o = Ok r → kindred request m →
  MutationResult_Validate o = Ok tt ∧ mr_mutationDigest o = mutation_Digest m ∧
  correlated request r ∧ ipc.Status r = mr_status o ∧
  mr_status o ∈ [MutationStatusConfirmed; MutationStatusRejected; MutationStatusUnknown].
Proof.
  cbn [MapMutationResult]. intros Hm Hk. apply result_bind_Ok in Hm as ([] & Hv%fail_if_Ok & Hm).
  gobool. rewrite is_ok_true in Hv. destruct Hv as [[Hv _] Hd]. split; [done|]. split; [done|].
  destruct m as [p|x]; cbn [kindred] in Hk.
  - apply result_bind_Ok in Hm as ([] & Hp%fail_if_Ok & Hm). gobool. destruct Hp as [_ Hp]. rewrite Hp in Hm.
    destruct request as [q|]; [|done]. rewrite Hk in Hm. cbn [correlated].
    apply result_bind_Ok in Hm as (d & Hd' & Hm). destruct (_ <$> _) as [d'|]; [|done]. injection Hd' as ->.
    unfold mapApplyResult, ipc.NewApplyManagedPlanConfirmedResponse, ipc.NewApplyManagedPlanUnknownResponse,
      ipc.NewApplyManagedPlanRejectedResponse, ipc.newApplyManagedPlanResponse in Hm.
    repeat case_bool_decide; inv_ok; cbn; (split; [done|]); (split; [done|]); set_solver.
  - destruct request as [|q]; [done|]. apply result_bind_Ok in Hm as ([] & _ & Hm).
    unfold mapRemovalResult, ipc.NewRemoveManagedInfrastructureRejectedResponse in Hm.
    repeat case_bool_decide; inv_ok; cbn; (split; [done|]); (split; [done|]); set_solver.
Qed.

(** Every authorized mutation has its unknown result, which maps to a response. *)
Lemma unknown_maps request c s m :
  AuthorizeMutationRequest request c s = Ok (Authorized m) →
  ∃ u r, NewUnknownMutationResult (Some m) = Ok u ∧ MapMutationResult (Authorized m) u = Ok r ∧
         mr_status u = MutationStatusUnknown.
Proof.
  intros Ha. destruct (au_complete _ _ _ (authorized_mutation _ _ _ _ Ha)) as [d Hd].
  unfold NewUnknownMutationResult, newMutationResult. rewrite Hd.
  assert (validSnapshotDigest (mutation_Digest m) = true) as Hv.
  { unfold mutationIdentity, validOperationPlan in Hd.
    destruct m as [p|[r|]]; [..|done]; case_match eqn:Hg; gobool; try done; naive_solver. }
  assert (d = match m with ApplyMutation p => Some (plan_Domain p) | RemoveMutation _ => None end) as ->.
  { destruct m as [p|[r|]]; cbn in Hd; [case_match; congruence..|done]. }
  clear Hd Ha. unfold MapMutationResult, MutationResult_Validate.
  generalize dependent (mutation_Digest m). intros digest Hv.
  destruct m as [[p|p|p]|r]; eexists _, _; (split; [done|]); (split; [|done]); cbn; rewrite Hv; cbn;
    by rewrite (bool_decide_true (digest = digest)) by done.
Qed.

Lemma rejected_truthful request evs code :
  correlatableMutationRequest request = true → no_mutation evs → ipc.validApplyRejectedErrorCode code = true →
  truthful request evs (rejectedMutationResponse request code).
Proof.
  intros Hc Hn Hv. destruct request as [q|q]; cbn in Hc |- *.
  - destruct (ipc.Plan q) as [plan|] eqn:Hp; [|done].
    unfold ipc.NewApplyManagedPlanRejectedResponse, ipc.newApplyManagedPlanResponse,
      ipc.validApplyResponseState, ipc.valid_state. rewrite Hv.
    replace (ipc.validMutationDomain (ipc.plan_Domain plan)) with true by by destruct plan.
    split; [cbn; by rewrite Hp|]. right. left. auto.
  - set (code' := if bool_decide _ then _ else _).
    assert (ipc.validRemoveRejectedErrorCode code' = true) as Hr.
    { unfold code'. destruct (bool_decide (code = _)) eqn:Hi; [done|]. gobool.
      unfold ipc.validApplyRejectedErrorCode, ipc.validRemoveRejectedErrorCode, one_of in *. gobool. set_solver. }
    unfold ipc.NewRemoveManagedInfrastructureRejectedResponse. rewrite Hr. cbn. split; [done|].
    right. left. auto.
Qed.

Lemma immediate_truthful request c s r :
  AuthorizeMutationRequest request c s = Ok (Immediate r) →
  truthful request [SawSnapshot (Ok s); SawProbe (Ok c)] (Some r).
Proof.
  destruct request as [q|q]; cbn [AuthorizeMutationRequest]; intros Ha.
  { apply result_bind_Ok in Ha as (? & _ & [=]). }
  apply result_bind_Ok in Ha as ([] & _ & Ha). apply result_bind_Ok in Ha as (o & Ho%map_error_Ok & Ha).
  destruct o; [done|]. injection Ha as <-. split; [done|]. left. split; [done|]. right. split; [|done].
  exists s, c. split; [done|]. unfold AuthorizeManagedRemoval in Ho. inv_ok.
  destruct (is_nil _ && _ && _) eqn:He; [|done]. gobool. destruct He as [[H1 H2] H3].
  destruct (ms_infrastructure _), (ms_policy _), (ms_targets _); done.
Qed.

Lemma respond_truthful request c s m outcome rest :
  AuthorizeMutationRequest request c s = Ok (Authorized m) →
  truthful request (SawMutation m outcome :: rest) (respond m outcome).
Proof.
  intros Ha. pose proof (authorized_kindred _ _ _ _ Ha) as Hk.
  assert (¬ no_mutation (SawMutation m outcome :: rest)) as Hn.
  { intros Hn. by inversion Hn. }
  unfold respond. destruct (MapMutationResult (Authorized m) outcome) as [r|e] eqn:Hm.
  - destruct (MapMutationResult_Ok _ _ _ _ Hm Hk) as (Hv & Hd & Hc & Hs & Hin). split; [done|].
    rewrite Hs. assert (∀ st, mr_status outcome = st → came_back (SawMutation m outcome :: rest) st)
      as Hb by (intros st <-; by exists m, outcome, rest).
    rewrite !elem_of_cons in Hin. destruct Hin as [Hin|[Hin|[Hin|[]%elem_of_nil]]]; rewrite Hin; eauto 6.
  - destruct (unknown_maps _ _ _ _ Ha) as (u & r & -> & Hu & Hs). rewrite Hu.
    destruct (MapMutationResult_Ok _ _ _ _ Hu Hk) as (_ & _ & Hc & Hr & _). split; [done|].
    right. right. by rewrite Hr, Hs.
Qed.

Lemma handled_truthful request evs r : handled request evs r → truthful request evs r.
Proof.
  intros []; [done|by apply rejected_truthful|by eapply immediate_truthful|by eapply respond_truthful].
Qed.

Section claims.
Context {E : Type} `{MutationBackend E}.

(** C34: For every request and whatever the backend, the context and the gate do,
    the executor either calls no mutation of the backend, or exactly one, and
    then as the last of just three calls: a probe, a snapshot and the mutation.
    The mutation carries the authority of that probe and that snapshot: the
    capabilities are valid, ready and proven owned, the snapshot is valid, of
    the same backend and the mutation's basis, a policy protects loopback, a
    target spares every loopback address and a removal has something to
    remove. *)
Theorem executor_mutates_with_fresh_authority missing request (w : executor E) :
  ∃ evs, ex_trace (Execute missing request w).2 = evs ++ ex_trace w ∧
    (no_mutation evs ∨
     ∃ m outcome s c, evs = [SawMutation m outcome; SawSnapshot (Ok s); SawProbe (Ok c)] ∧
       AuthorizeMutationRequest request c s = Ok (Authorized m) ∧ authority c s m).
Proof.
  destruct (Execute_handles missing request w) as (r & evs & w' & -> & Ht & Hh).
  exists evs. split; [done|]. rewrite app_nil_r in Hh. destruct Hh as [| |c s ? Ha|c s m o Ha].
  - left. constructor.
  - by left.
  - left. by repeat constructor.
  - right. exists m, o, s, c. eauto using authorized_mutation.
Qed.

(** C35: The executor answers every request, and truthfully: only a request it
    cannot correlate gets no answer, and then nothing was called; every other
    answer is of the request's operation and domain, and says confirmed only
    after the backend's own valid confirmation of that very mutation (or a
    removal where nothing was managed), rejected only when no mutation was sent
    or the backend validly rejected it, and unknown only when a mutation was
    sent. *)
Theorem executor_answers_truthfully missing request (w : executor E) :
  ∃ r evs w', Execute missing request w = (Ok r, w') ∧ ex_trace w' = evs ++ ex_trace w ∧
    truthful request evs r.
Proof.
  destruct (Execute_handles missing request w) as (r & evs & w' & Hr & Ht & Hh).
  exists r, evs, w'. rewrite app_nil_r in Hh. eauto using handled_truthful.
Qed.
End claims.

(** ** A backend that confirms what it applies *)
Module confirming.
Definition capabilities : FirewallCapabilities :=
  MkCapabilities BackendKindNftablesNative "nftables v1.0.9" true true true true true true true true true
    false false true true.
Definition foreign : ForeignContext :=
  MkForeign "9f86d081884c7d659a2feaa0c55ad015a3bf4f1b2b0b822cd15d6c15b0f00a08" true.
Definition empty_state : ManagedState := MkManagedState None None [] true.
Definition snapshot : ManagedSnapshot :=
  MkManagedSnapshot empty_state foreign (computeManagedSnapshotDigest empty_state foreign) true.
Definition zero_result : MutationResult :=
  MkMutationResult EmptyString EmptyString false EmptyString EmptyString EmptyString false false.
Definition confirm (m : AuthorizedMutation) : MutationResult :=
  match NewConfirmedMutationResult (Some m) with Ok r => r | Err _ => zero_result end.
#[export] Instance backend : MutationBackend unit := {
  be_Probe := λ e, (Ok capabilities, e);
  be_Snapshot := λ e, (Ok snapshot, e);
  be_Apply := λ plan e, (confirm (ApplyMutation plan), e);
  be_RemoveManagedInfrastructure := λ r e, (confirm (RemoveMutation r), e);
  be_Cancelled := λ e, (false, e);
  be_Gate := λ e, (true, e)
}.
(** A request to build the infrastructure over the given basis. *)
Definition request (basis : string) : ipc.MutationRequest :=
  ipc.ApplyManagedPlanRequest (Some (Some (ipc.InfrastructurePlan (Some
    (ipc.MkInfrastructurePlan (ipc.MkPlanBase ManagedOwnerVersionV1 basis 1) 1))))).
Definition run (r : ipc.MutationRequest) := Execute (E := unit) false r (MkExecutor tt []).
Definition answer (r : ipc.MutationRequest) : option (ipc.MutationStatus * nat) :=
  match run r with (Ok (Some a), w) => Some (ipc.Status a, length (ex_trace w)) | _ => None end.
End confirming.

(** The executor confirms a plan over the snapshot it takes, in three calls; a
    plan over another basis is rejected after two, and so is never applied; and
    a removal is confirmed without a mutation, since nothing is managed. *)
Example executor_on_confirming_backend :
  confirming.answer (confirming.request (sp_digest confirming.snapshot)) = Some (ipc.MutationStatusConfirmed, 3%nat) ∧
  confirming.answer (confirming.request (fx_digest confirming.foreign)) = Some (ipc.MutationStatusRejected, 2%nat) ∧
  confirming.answer ipc.NewRemoveManagedInfrastructureRequest = Some (ipc.MutationStatusConfirmed, 2%nat).
Proof. vm_compute. done. Qed.
