(* ===== verification/NetipParse.v ===== *)
(** * net/netip: ParseAddr and ParsePrefix

    The parsers of the standard library on the bytes of a text, and that they
    read back what Addr.String and Prefix.String write. *)

From S2P Require Import Prelude GoStd Netip Identity.

(** ** Parsers *)
Definition is_digit (c : Z) : bool := in_range 48 57 c.
Definition hex_value (c : Z) : option Z :=
  if is_digit c then Some (c - 48)
  else if in_range 97 102 c then Some (c - 87)
  else if in_range 65 70 c then Some (c - 55)
  else None.

(** parseIPv4Fields: [val] and [digLen] are of the current field. A dot at the
    start or after a dot is one before which the field has no digit. *)
Fixpoint parse4 (s : list Z) (val digLen : Z) (fields : list Z) : result (list Z) :=
  match s with
  | [] => if (length fields <? 3)%nat then Err (Errorf "IPv4 address too short") else Ok (fields ++ [val])
  | c :: r =>
    if is_digit c then
      if (digLen =? 1) && (val =? 0) then Err (Errorf "IPv4 field has octet with leading zero")
      else let val := val * 10 + (c - 48) in
      if 255 <? val then Err (Errorf "IPv4 field has value >255") else parse4 r val (digLen + 1) fields
    else if c =? 46 then
      if (digLen =? 0) || bool_decide (r = []) then Err (Errorf "IPv4 field must have at least one digit")
      else if (length fields =? 3)%nat then Err (Errorf "IPv4 address too long")
      else parse4 r 0 0 (fields ++ [val])
    else Err (Errorf "unexpected character")
  end.
Definition parseIPv4Fields (s : list Z) : result (list Z) := parse4 s 0 0 [].
Definition parseIPv4 (s : list Z) : result Addr :=
  fields ← parseIPv4Fields s; Ok (MkAddr z4 (be_value fields)).

(** The hexadecimal digits of a group: its value, their number and the rest. *)
Fixpoint hex_group (s : list Z) (off acc : Z) : result (Z * Z * list Z) :=
  match s with
  | [] => Ok (acc, off, [])
  | c :: r =>
    match hex_value c with
    | None => Ok (acc, off, s)
    | Some d =>
      let acc := acc * 16 + d in
      if 3 <? off then Err (Errorf "each group must have 4 or fewer digits")
      else if 65535 <? acc then Err (Errorf "IPv6 field has value >=2^16")
      else hex_group r (off + 1) acc
    end
  end.

(** The loop over the groups: [ip] holds the bytes so far, [fuel] is half of the
    bytes that are left. *)
Fixpoint parse6 (fuel : nat) (s ip : list Z) (ellipsis : option nat)
    : result (list Z * option nat * list Z) :=
  match fuel with
  | O => Ok (ip, ellipsis, s)
  | S f =>
    g ← hex_group s 0 0;
    let '(acc, off, rest) := g in
    if off =? 0 then Err (Errorf "each colon-separated field must have at least one digit")
    else if match rest with c :: _ => c =? 46 | [] => false end then
      if bool_decide (ellipsis = None) && negb (length ip =? 12)%nat
      then Err (Errorf "embedded IPv4 address must replace the final 2 fields of the address")
      else if (16 <? length ip + 4)%nat
      then Err (Errorf "too many hex fields to fit an embedded IPv4 at the end of the address")
      else fields ← parseIPv4Fields s; Ok (ip ++ fields, ellipsis, [])
    else
      let ip := ip ++ [acc / 256; acc mod 256] in
      match rest with
      | [] => Ok (ip, ellipsis, [])
      | c :: r =>
        if negb (c =? 58) then Err (Errorf "unexpected character, want colon")
        else match r with
        | [] => Err (Errorf "colon must be followed by more characters")
        | c' :: r' =>
          if c' =? 58 then
            match ellipsis with
            | Some _ => Err (Errorf "multiple :: in address")
            | None => match r' with
                      | [] => Ok (ip, Some (length ip), [])
                      | _ => parse6 f r' ip (Some (length ip))
                      end
            end
          else parse6 f r ip ellipsis
        end
      end
  end.

(** What follows the loop: the ellipsis expands to the bytes that are missing. *)
Definition expand6 (p : list Z * option nat * list Z) : result Addr :=
  let '(ip, ellipsis, rest) := p in
  if negb (bool_decide (rest = [])) then Err (Errorf "trailing garbage after address")
  else if (length ip <? 16)%nat then
    match ellipsis with
    | None => Err (Errorf "address string too short")
    | Some e => Ok (MkAddr z6 (be_value (take e ip ++ replicate (16 - length ip) 0 ++ drop e ip)))
    end
  else if bool_decide (ellipsis = None) then Ok (MkAddr z6 (be_value ip))
  else Err (Errorf "the :: must expand to at least one field of zeros").

(** The text before the first [c], and the text after it. *)
Fixpoint cut (c : Z) (s : list Z) : option (list Z * list Z) :=
  match s with
  | [] => None
  | x :: r => if x =? c then Some ([], r) else (λ p, (x :: p.1, p.2)) <$> cut c r
  end.

Definition leading_ellipsis (s : list Z) : option (list Z) :=
  match s with
  | a :: b :: r => if (a =? 58) && (b =? 58) then Some r else None
  | _ => None
  end.

(** parseIPv6, with the zone. *)
Definition parseIPv6 (s : list Z) : result (Addr * list Z) :=
  let '(s, zone, bad) := match cut 37 s with
                         | Some (s, zone) => (s, zone, bool_decide (zone = []))
                         | None => (s, [], false)
                         end in
  fail_if bad (Errorf "zone must be a non-empty string");;
  match leading_ellipsis s with
  | Some [] => Ok (MkAddr z6 0, zone)
  | Some r => p ← parse6 8 r [] (Some 0%nat); a ← expand6 p; Ok (a, zone)
  | None => p ← parse6 8 s [] None; a ← expand6 p; Ok (a, zone)
  end.

(** ParseAddr: the first dot, colon or percent sign decides. *)
Fixpoint addr_kind_of (s : list Z) : option Z :=
  match s with
  | [] => None
  | c :: r => if (c =? 46) || (c =? 58) || (c =? 37) then Some c else addr_kind_of r
  end.
Definition ParseAddr (s : list Z) : result (Addr * list Z) :=
  match addr_kind_of s with
  | Some c =>
    if c =? 46 then a ← parseIPv4 s; Ok (a, [])
    else if c =? 58 then parseIPv6 s
    else Err (Errorf "missing IPv6 address")
  | None => Err (Errorf "unable to parse IP")
  end.

(** The text before the last [c], and the text after it. *)
Fixpoint cut_last (c : Z) (s : list Z) : option (list Z * list Z) :=
  match s with
  | [] => None
  | x :: r =>
    match cut_last c r with
    | Some (a, b) => Some (x :: a, b)
    | None => if x =? c then Some ([], r) else None
    end
  end.

(** strconv.Atoi on a text that has no sign. *)
Definition Atoi (s : list Z) : result Z :=
  if bool_decide (s = []) || negb (forallb is_digit s) then Err (Errorf "invalid syntax")
  else let n := undigits 10 ((λ c, c - 48) <$> s) in
  if max_int64 <? n then Err (Errorf "value out of range") else Ok n.

Definition ParsePrefix (text : string) : result Prefix :=
  match cut_last 47 (string_bytes text) with
  | None => Err (Errorf "no '/'")
  | Some (ip, bits) =>
    p ← ParseAddr ip;
    let '(ip, zone) := p in
    fail_if (negb (Is4 ip) && negb (bool_decide (zone = [])))
            (Errorf "IPv6 zones cannot be present in a prefix");;
    fail_if (match bits with c :: _ :: _ => negb (in_range 49 57 c) | _ => false end)
            (Errorf "bad bits after slash");;
    n ← Atoi bits;
    fail_if ((n <? 0) || ((if Is4 ip then 32 else 128) <? n)) (Errorf "prefix length out of range");;
    Ok (PrefixFrom ip n)
  end.

Example parse_v4 : ParsePrefix "192.0.2.10/32" = Ok (PrefixFrom (ip4 192 0 2 10) 32).
Proof. reflexivity. Qed.
Example parse_v6 :
  ParsePrefix "2001:db8::1:0:0:1/64" = Ok (PrefixFrom (ip6 0x20010db8000000000001000000000001) 64).
Proof. reflexivity. Qed.
Example parse_mapped : ParsePrefix "::ffff:192.0.2.1/128" = Ok (PrefixFrom (ip6 0xffffc0000201) 128).
Proof. reflexivity. Qed.
Example parse_rejects :
  Forall (λ s, is_ok (ParsePrefix s) = false)
    ["192.0.2.010/32"; "1.2.3/8"; "1.2.3.4/033"; "1.2.3.4/33"; "fe80::1%eth0/64"; "::1::/128"; "1:2:3:4:5:6:7:8::/9";
     "12345::/16"; "1.2.3.4."; "1.2.3.4/"; "1.2.3.4/+8"; "::/129"; ":1::/12"].
Proof. repeat constructor. Qed.

(** ** Reading back a text *)
Lemma undigits_snoc b l d : undigits b (l ++ [d]) = undigits b l * b + d.
Proof.
  induction l as [|x l IH]; [cbn; lia|]. cbn [app undigits]. rewrite IH, length_app.
  cbn [length]. rewrite Nat2Z.inj_add, Z.pow_add_r, Z.pow_1_r by lia. lia.
Qed.
Lemma undigits_app b l1 l2 : undigits b (l1 ++ l2) = undigits b l1 * b ^ Z.of_nat (length l2) + undigits b l2.
Proof.
  induction l1 as [|x l IH]; [cbn; lia|]. cbn [app undigits]. rewrite IH, length_app.
  rewrite Nat2Z.inj_add, Z.pow_add_r by lia. lia.
Qed.

(** The decimal digits of strconv.Itoa. *)
Lemma itoa_fuel_spec f n :
  0 ≤ n < 10 ^ Z.of_nat f → (0 < f)%nat →
  let s := string_bytes (itoa_fuel f n) in
  undigits 10 ((λ c, c - 48) <$> s) = n ∧ Forall (λ c, is_digit c = true) s ∧ s ≠ [] ∧
  (length s ≤ f)%nat ∧ (n = 0 → s = [48]) ∧ (0 < n → ∃ c r, s = c :: r ∧ in_range 49 57 c = true).
Proof.
  revert n. induction f as [|f IH]; intros n Hn Hf; [lia|]. cbn zeta. cbn [itoa_fuel].
  assert (∀ d, 0 ≤ d < 10 → string_bytes (digit_string d) = [48 + d]) as Hd.
  { intros d ?. apply string_bytes_of_bytes. constructor; [split; lia|done]. }
  rewrite Nat2Z.inj_succ, Z.pow_succ_r in Hn by lia.
  destruct (Z.ltb_spec n 10) as [Hl|Hl].
  - rewrite Hd by lia. cbn [fmap list_fmap undigits length]. unfold is_digit, in_range.
    split; [cbn; lia|]. split; [by repeat constructor; lia|]. split; [done|]. split; [lia|].
    split; [by intros ->|]. intros. exists (48 + n), []. split; [done|lia].
  - assert (0 < f)%nat as Hf' by (destruct f; [cbn in Hn; lia|lia]).
    assert (0 ≤ n / 10 < 10 ^ Z.of_nat f) as Hq by (split; [apply Z.div_pos|apply Z.div_lt_upper_bound]; lia).
    assert (0 < n / 10) by (apply Z.div_str_pos; lia).
    pose proof (Z.mod_pos_bound n 10). pose proof (Z.div_mod n 10).
    destruct (IH (n / 10) Hq Hf') as (Hv & Hall & Hne & Hlen & _ & Hhd).
    rewrite string_bytes_app, Hd, fmap_app by lia. cbn [fmap list_fmap].
    rewrite undigits_snoc. split; [lia|]. split.
    { apply Forall_app. split; [done|]. constructor; [|done]. unfold is_digit, in_range. lia. }
    split; [by intros [? ?]%app_eq_nil|]. rewrite length_app. split; [cbn; lia|]. split; [lia|].
    intros _. destruct Hhd as (c & r & -> & Hc); [lia|]. exists c, (r ++ [48 + n mod 10]). done.
Qed.
Lemma itoa_digits n :
  0 ≤ n ≤ max_uint64 →
  let s := string_bytes (itoa n) in
  undigits 10 ((λ c, c - 48) <$> s) = n ∧ Forall (λ c, is_digit c = true) s ∧ s ≠ [] ∧
  (n = 0 → s = [48]) ∧ (0 < n → ∃ c r, s = c :: r ∧ in_range 49 57 c = true).
Proof.
  intros Hn. destruct (itoa_fuel_spec 20 n) as (H1 & H2 & H3 & _ & H4 & H5); [|lia|done].
  unfold max_uint64 in Hn. cbn. lia.
Qed.

Lemma Atoi_itoa n : 0 ≤ n ≤ max_int64 → Atoi (string_bytes (itoa n)) = Ok n.
Proof.
  intros Hn. destruct (itoa_digits n) as (Hv & Hall & Hne & _); [unfold max_int64, max_uint64 in *; lia|].
  unfold Atoi. rewrite bool_decide_false by done.
  replace (forallb is_digit (string_bytes (itoa n))) with true.
  2: { symmetry. apply forallb_true_iff. by apply Forall_forall. }
  cbn [orb negb]. rewrite Hv. replace (max_int64 <? n) with false by lia. done.
Qed.

(** *** IPv4 *)
Lemma octet_range v i : 0 ≤ octet v i < 256.
Proof. unfold octet. by apply Z.mod_pos_bound. Qed.

Lemma parse4_octet d rest fields :
  0 ≤ d < 256 → match rest with c :: _ => is_digit c = false | [] => True end →
  ∃ k, 0 < k ∧ parse4 (string_bytes (itoa d) ++ rest) 0 0 fields = parse4 rest d k fields.
Proof.
  intros Hd Hr.
  assert (∀ l val k, Forall (λ c, is_digit c = true) l → 0 ≤ val → 0 ≤ k → (val = 0 → k = 0 ∨ l = []) →
    undigits 10 ((λ c, c - 48) <$> l) + val * 10 ^ Z.of_nat (length l) < 256 →
    parse4 (l ++ rest) val k fields
    = parse4 rest (undigits 10 ((λ c, c - 48) <$> l) + val * 10 ^ Z.of_nat (length l)) (k + Z.of_nat (length l)) fields
    ∨ (val = 0 ∧ ∃ r, l = 48 :: r ∧ r ≠ [])) as Hloop.
  { clear Hd d. induction l as [|c l IH]; intros val k Hall Hv Hk Hz Hb.
    { left. cbn. f_equal; lia. }
    apply Forall_cons in Hall as [Hc Hall]. pose proof Hc as Hc'.
    unfold is_digit, in_range in Hc'. gobool.
    destruct (decide (val = 0 ∧ c = 48 ∧ l ≠ [])) as [(-> & -> & Hl)|Hnz]; [right; eauto|left].
    cbn [fmap list_fmap undigits length] in Hb |- *. rewrite length_fmap in Hb |- *.
    rewrite Nat2Z.inj_succ, Z.pow_succ_r in Hb |- * by lia.
    assert (0 < 10 ^ Z.of_nat (length l)) by (apply Z.pow_pos_nonneg; lia).
    assert (0 ≤ undigits 10 ((λ c, c - 48) <$> l)) as Hu.
    { apply (undigits_range 10); [lia|]. apply Forall_fmap. eapply Forall_impl; [exact Hall|].
      intros x Hx. unfold is_digit, in_range in Hx. cbn. gobool. lia. }
    cbn [app parse4]. rewrite Hc.
    replace ((k =? 1) && (val =? 0)) with false by (destruct (Z.eqb_spec val 0); naive_solver lia).
    replace (255 <? val * 10 + (c - 48)) with false by nia.
    destruct (IH (val * 10 + (c - 48)) (k + 1)) as [->|(H0 & r & -> & Hr')]; [done|lia|lia| | | |].
    - intros Hzero. right. destruct (decide (l = [])); [done|]. exfalso. apply Hnz. split; [lia|]. split; [lia|done].
    - nia.
    - f_equal; [nia|lia].
    - exfalso. apply Hnz. split; [lia|]. split; [lia|done]. }
  destruct (itoa_digits d) as (Hv & Hall & Hne & H0 & Hp); [unfold max_uint64; lia|].
  exists (Z.of_nat (length (string_bytes (itoa d)))). split; [destruct (string_bytes (itoa d)); [done|cbn; lia]|].
  destruct (Hloop (string_bytes (itoa d)) 0 0) as [->|(_ & r & Hs & Hr')]; [done|lia|lia|by left|lia| |].
  - f_equal; lia.
  - exfalso. destruct (decide (d = 0)) as [Hz|Hz].
    + rewrite (H0 Hz) in Hs. by injection Hs as <-.
    + destruct Hp as (c & r0 & Hs' & Hc); [lia|]. rewrite Hs in Hs'. injection Hs' as <- _. done.
Qed.

Lemma parse_string4 v : parseIPv4Fields (string_bytes (string4 v)) = Ok [octet v 0; octet v 1; octet v 2; octet v 3].
Proof.
  unfold parseIPv4Fields, string4. rewrite !string_bytes_app. change (string_bytes ".") with [46].
  cbn [app]. rewrite <- (app_nil_r (string_bytes (itoa (octet v 3)))).
  assert (∀ d rest fields, 0 ≤ d < 256 → rest ≠ [] → (length fields < 3)%nat →
    parse4 (string_bytes (itoa d) ++ 46 :: rest) 0 0 fields = parse4 rest 0 0 (fields ++ [d])) as Hdot.
  { intros d rest fields Hd Hr Hf. destruct (parse4_octet d (46 :: rest) fields Hd eq_refl) as (k & Hk & ->).
    cbn [parse4]. replace (is_digit 46) with false by done. cbn [Z.eqb Pos.eqb].
    replace (k =? 0) with false by lia. rewrite bool_decide_false by done. cbn [orb].
    replace (length fields =? 3)%nat with false; [done|]. symmetry. apply Nat.eqb_neq. lia. }
  assert (∀ d l, string_bytes (itoa (octet v d)) ++ l ≠ []) as Hne.
  { intros d l [He _]%app_eq_nil. destruct (itoa_digits (octet v d)) as (_ & _ & H & _); [|done].
    pose proof (octet_range v d). unfold max_uint64. lia. }
  rewrite !Hdot by (apply octet_range || done || cbn; lia).
  destruct (parse4_octet (octet v 3) [] ([] ++ [octet v 0] ++ [octet v 1] ++ [octet v 2])) as (k & Hk & Hp);
    [apply octet_range|done|]. cbn [app] in Hp |- *. rewrite Hp. done.
Qed.
Lemma octets_value v : 0 ≤ v < 2 ^ 32 → be_value [octet v 0; octet v 1; octet v 2; octet v 3] = v.
Proof.
  intros Hv. unfold be_value. change [octet v 0; octet v 1; octet v 2; octet v 3] with (digits 256 4 v).
  rewrite undigits_digits by lia. apply Z.mod_small. lia.
Qed.

(** *** IPv6 *)
Definition group_text (g : Z) : list Z := string_bytes (append_hex g).
Fixpoint groups_text (gs : list Z) : list Z :=
  match gs with
  | [] => []
  | [g] => group_text g
  | g :: r => group_text g ++ 58 :: groups_text r
  end.
Definition group_bytes (g : Z) : list Z := [g / 256; g mod 256].
Definition groups_bytes (gs : list Z) : list Z := gs ≫= group_bytes.
Lemma length_groups_bytes gs : length (groups_bytes gs) = (2 * length gs)%nat.
Proof.
  induction gs as [|g gs IH]; [done|].
  change (groups_bytes (g :: gs)) with (group_bytes g ++ groups_bytes gs). rewrite length_app, IH. cbn. lia.
Qed.
Definition is_group (g : Z) : Prop := 0 ≤ g < 65536.

Lemma hex_value_digit d : 0 ≤ d < 16 → hex_value (hex_digit d) = Some d.
Proof.
  intros Hd. unfold hex_value, hex_digit, is_digit, in_range.
  destruct (Z.ltb_spec d 10); repeat break_if; gobool; (f_equal; lia) || lia.
Qed.
Lemma hex_digit_byte d : 0 ≤ d < 16 → is_byte (hex_digit d).
Proof. unfold hex_digit, is_byte. break_if; lia. Qed.

Lemma hex_fuel_bytes f n :
  0 ≤ n < 16 ^ Z.of_nat f → (0 < f)%nat →
  ∃ ds, string_bytes (hex_fuel f n) = hex_digit <$> ds ∧ Forall (λ d, 0 ≤ d < 16) ds ∧ ds ≠ [] ∧
    (length ds ≤ f)%nat ∧ undigits 16 ds = n.
Proof.
  revert n. induction f as [|f IH]; intros n Hn Hf; [lia|]. cbn [hex_fuel].
  rewrite Nat2Z.inj_succ, Z.pow_succ_r in Hn by lia.
  assert (∀ d, 0 ≤ d < 16 → string_bytes (string_of_bytes [hex_digit d]) = [hex_digit d]) as Hd.
  { intros d ?. apply string_bytes_of_bytes. constructor; [by apply hex_digit_byte|done]. }
  destruct (Z.ltb_spec n 16) as [Hl|Hl].
  - exists [n]. rewrite Hd by lia. split; [done|]. split; [by repeat constructor; lia|]. cbn. split; [done|]. lia.
  - assert (0 < f)%nat as Hf' by (destruct f; [cbn in Hn; lia|lia]).
    assert (0 ≤ n / 16 < 16 ^ Z.of_nat f) as Hq by (split; [apply Z.div_pos|apply Z.div_lt_upper_bound]; lia).
    pose proof (Z.mod_pos_bound n 16). pose proof (Z.div_mod n 16).
    destruct (IH (n / 16) Hq Hf') as (ds & Hs & Hall & Hne & Hlen & Hv). exists (ds ++ [n mod 16]).
    rewrite string_bytes_app, Hs, Hd, fmap_app by lia. split; [done|].
    split; [apply Forall_app; split; [done|constructor; [lia|done]]|].
    split; [by intros [? ?]%app_eq_nil|]. rewrite length_app, undigits_snoc. cbn. lia.
Qed.

(** A text that does not go on with a hexadecimal digit. *)
Definition no_hex (s : list Z) : Prop := match s with c :: _ => hex_value c = None | [] => True end.

Lemma hex_group_digits ds rest off acc :
  Forall (λ d, 0 ≤ d < 16) ds → no_hex rest → 0 ≤ acc → 0 ≤ off → off + Z.of_nat (length ds) ≤ 4 →
  acc < 16 ^ off →
  hex_group ((hex_digit <$> ds) ++ rest) off acc
  = Ok (acc * 16 ^ Z.of_nat (length ds) + undigits 16 ds, off + Z.of_nat (length ds), rest).
Proof.
  intros Hall Hr. revert off acc. induction Hall as [|d ds Hd Hall IH]; intros off acc Ha Ho Hl Hb.
  - cbn [length fmap list_fmap app undigits Z.of_nat]. rewrite Z.pow_0_r, Z.mul_1_r, !Z.add_0_r.
    destruct rest as [|c r]; [done|]. cbn in Hr |- *. by rewrite Hr.
  - cbn [length] in Hl. cbn [fmap list_fmap app hex_group]. rewrite hex_value_digit by done.
    replace (3 <? off) with false by lia.
    assert (acc * 16 + d < 16 ^ (off + 1)) as Hb' by (rewrite Z.pow_add_r by lia; lia).
    assert (16 ^ (off + 1) ≤ 16 ^ 4) by (apply Z.pow_le_mono_r; lia).
    replace (65535 <? acc * 16 + d) with false by lia.
    change (hex_digit <$> ds) with (fmap hex_digit ds). rewrite IH by lia.
    cbn [length undigits]. rewrite Nat2Z.inj_succ, Z.pow_succ_r by lia. do 3 f_equal; lia.
Qed.
Lemma hex_group_text g rest :
  is_group g → no_hex rest → ∃ off, 0 < off ∧ hex_group (group_text g ++ rest) 0 0 = Ok (g, off, rest).
Proof.
  intros Hg Hr. unfold group_text, append_hex.
  destruct (hex_fuel_bytes 4 g) as (ds & Hs & Hall & Hne & Hlen & Hv); [unfold is_group in Hg; cbn; lia|lia|].
  exists (Z.of_nat (length ds)). split; [destruct ds; [done|cbn; lia]|].
  rewrite Hs, hex_group_digits by (done || lia). rewrite Hv. do 3 f_equal; lia.
Qed.
Lemma group_text_head g : is_group g → ∃ c r d, group_text g = c :: r ∧ hex_value c = Some d.
Proof.
  intros Hg. unfold group_text, append_hex.
  destruct (hex_fuel_bytes 4 g) as (ds & -> & Hall & Hne & _); [unfold is_group in Hg; cbn; lia|lia|].
  destruct ds as [|d ds]; [done|]. apply Forall_cons in Hall as [Hd _].
  exists (hex_digit d), (hex_digit <$> ds), d. split; [done|by apply hex_value_digit].
Qed.
Lemma groups_text_head gs : Forall is_group gs → gs ≠ [] → ∃ c r d, groups_text gs = c :: r ∧ hex_value c = Some d.
Proof.
  intros Hall Hne. destruct gs as [|g [|g' gs]]; [done|..]; apply Forall_cons in Hall as [Hg _];
    destruct (group_text_head g Hg) as (c & r & d & He & Hc); cbn [groups_text]; rewrite He; cbn [app]; eauto.
Qed.
Lemma hex_not_colon c d : hex_value c = Some d → (c =? 58) = false ∧ (c =? 46) = false.
Proof. unfold hex_value, is_digit, in_range. repeat break_if; gobool; naive_solver lia. Qed.

(** The groups up to the end of the text, or up to an ellipsis. *)
Lemma parse6_groups gs fuel tail ip e :
  Forall is_group gs → gs ≠ [] → (length gs ≤ fuel)%nat →
  tail = [] ∨ (∃ post, tail = 58 :: 58 :: post ∧ e = None) →
  parse6 fuel (groups_text gs ++ tail) ip e
  = match tail with
    | _ :: _ :: c :: r =>
      parse6 (fuel - length gs) (c :: r) (ip ++ groups_bytes gs) (Some (length (ip ++ groups_bytes gs)))
    | _ :: _ :: [] => Ok (ip ++ groups_bytes gs, Some (length (ip ++ groups_bytes gs)), [])
    | _ => Ok (ip ++ groups_bytes gs, e, [])
    end.
Proof.
  intros Hall Hne Hf Ht. revert ip fuel Hf Hne. induction Hall as [|g gs Hg Hall IH]; intros ip fuel Hf Hne; [done|].
  destruct fuel as [|fuel]; [cbn in Hf; lia|]. cbn [length] in Hf.
  destruct gs as [|g' gs].
  - cbn [groups_text parse6 mbind list_bind app length].
    assert (no_hex tail) as Hno by (destruct Ht as [->|(post & -> & _)]; done).
    destruct (hex_group_text g tail Hg Hno) as (off & Ho & ->). cbn [mbind result_bind].
    replace (off =? 0) with false by lia.
    destruct Ht as [->|(post & -> & ->)]; [done|]. cbn [Z.eqb Pos.eqb negb].
    change (groups_bytes [g]) with (group_bytes g). destruct post; [done|]. by replace (S fuel - 1)%nat with fuel by lia.
  - destruct (groups_text_head (g' :: gs)) as (c & r & d & Hc & Hd); [done..|].
    destruct (hex_not_colon c d Hd) as [Hc58 _].
    change (groups_text (g :: g' :: gs)) with (group_text g ++ 58 :: groups_text (g' :: gs)).
    rewrite <- app_assoc. cbn [app parse6].
    destruct (hex_group_text g (58 :: groups_text (g' :: gs) ++ tail) Hg eq_refl) as (off & Ho & ->).
    cbn [mbind result_bind]. replace (off =? 0) with false by lia. cbn [Z.eqb Pos.eqb negb].
    rewrite Hc. cbn [app]. rewrite Hc58.
    change (c :: r ++ tail) with ((c :: r) ++ tail). rewrite <- Hc.
    rewrite IH by (done || cbn [length] in *; lia).
    change (groups_bytes (g :: g' :: gs)) with (group_bytes g ++ groups_bytes (g' :: gs)).
    rewrite app_assoc. done.
Qed.

(** The eight groups of an address. *)
Definition groups_of (v : Z) : list Z := (λ i, v6u16 v i) <$> [0; 1; 2; 3; 4; 5; 6; 7].
Lemma groups_of_digits v : groups_of v = digits 65536 8 v.
Proof. reflexivity. Qed.
Lemma groups_of_range v : Forall is_group (groups_of v).
Proof. rewrite groups_of_digits. by apply digits_range. Qed.
Lemma group_bytes_value gs : Forall is_group gs → be_value (groups_bytes gs) = undigits 65536 gs.
Proof.
  unfold be_value. induction 1 as [|g gs Hg _ IH]; [done|].
  change (groups_bytes (g :: gs)) with (group_bytes g ++ groups_bytes gs).
  rewrite undigits_app, IH, length_groups_bytes. cbn [undigits group_bytes length].
  replace (256 ^ Z.of_nat (2 * length gs)) with (65536 ^ Z.of_nat (length gs)).
  2: { rewrite Nat2Z.inj_mul, Z.pow_mul_r by lia. done. }
  pose proof (Z.div_mod g 256). cbn [Z.of_nat]. rewrite Z.pow_1_r, Z.pow_0_r. f_equal. f_equal. lia.
Qed.
Lemma groups_value v : 0 ≤ v < 2 ^ 128 → be_value (groups_bytes (groups_of v)) = v.
Proof.
  intros Hv. rewrite group_bytes_value by apply groups_of_range.
  rewrite groups_of_digits, undigits_digits by lia. apply Z.mod_small. exact Hv.
Qed.

Ltac text_of_groups :=
  match goal with |- string_bytes ?t = _ =>
    let t' := eval cbv -[append_hex v6u16 String.append] in t in change t with t' end;
  rewrite ?string_bytes_app; change (string_bytes ":") with [58]; change (string_bytes "::") with [58; 58];
  change (string_bytes "") with (@nil Z); cbn [groups_text take drop groups_of fmap list_fmap app];
  rewrite ?app_nil_r; repeat (rewrite <- app_assoc; cbn [app]); reflexivity.
Lemma groups6_plain v : string_bytes (groups6 9 v 0 None) = groups_text (groups_of v).
Proof. text_of_groups. Qed.
Lemma groups6_span v s e :
  (s < e ≤ 8)%nat →
  string_bytes (groups6 9 v 0 (Some (Z.of_nat s, Z.of_nat e)))
  = groups_text (take s (groups_of v)) ++ 58 :: 58 :: groups_text (drop e (groups_of v)).
Proof.
  intros He. do 8 (destruct s as [|s];
    [do 9 (destruct e as [|e]; [first [lia|text_of_groups]|]); lia|]). lia.
Qed.

Lemma zero_run_spec f v i :
  0 ≤ i ≤ 8 → let l := zero_run f v i in
  0 ≤ l ∧ i + l ≤ 8 ∧ ∀ j, i ≤ j < i + l → v6u16 v j = 0.
Proof.
  revert i. induction f as [|f IH]; intros i Hi; cbn zeta; cbn [zero_run]; [split; [lia|]; split; intros; lia|].
  destruct ((i <? 8) && (v6u16 v i =? 0)) eqn:Hz; [|split; [lia|]; split; intros; lia].
  gobool. destruct (IH (i + 1)) as (H1 & H2 & H3); [lia|]. split; [lia|]. split; [lia|].
  intros j Hj. destruct (decide (j = i)) as [->|]; [tauto|]. apply H3. lia.
Qed.
Definition zero_groups (v : Z) (span : option (Z * Z)) : Prop :=
  match span with
  | None => True
  | Some (s, e) => 0 ≤ s ∧ s + 2 ≤ e ≤ 8 ∧ ∀ j, s ≤ j < e → v6u16 v j = 0
  end.
Lemma zero_span_spec v : zero_groups v (zero_span v).
Proof.
  unfold zero_span. assert (zero_groups v None) as H0 by done. revert H0. generalize (None : option (Z * Z)).
  assert (Forall (λ i, 0 ≤ i ≤ 8) [0; 1; 2; 3; 4; 5; 6; 7]) as Hall.
  { repeat (apply Forall_cons; split; [cbv beta; lia|]). by apply Forall_nil. }
  revert Hall. generalize [0; 1; 2; 3; 4; 5; 6; 7]. induction 1 as [|i l Hi _ IH]; intros best Hb; [done|].
  cbn [foldl]. apply IH. destruct (zero_run_spec 8 v i Hi) as (H1 & H2 & H3).
  break_if; [|done]. gobool. cbn [zero_groups].  split; [lia|]. split; [lia|]. exact H3.
Qed.

Definition hex_or_colon (c : Z) : Prop := hex_value c ≠ None ∨ c = 58.
Lemma group_text_chars g : is_group g → Forall hex_or_colon (group_text g).
Proof.
  intros Hg. unfold group_text, append_hex.
  destruct (hex_fuel_bytes 4 g) as (ds & -> & Hall & _); [unfold is_group in Hg; cbn; lia|lia|].
  apply Forall_fmap. eapply Forall_impl; [exact Hall|]. intros d Hd. left. cbn. by rewrite hex_value_digit.
Qed.
Lemma groups_text_chars gs : Forall is_group gs → Forall hex_or_colon (groups_text gs).
Proof.
  induction 1 as [|g gs Hg _ IH]; [constructor|]. destruct gs as [|g' gs]; [by apply group_text_chars|].
  change (groups_text (g :: g' :: gs)) with (group_text g ++ 58 :: groups_text (g' :: gs)).
  apply Forall_app. split; [by apply group_text_chars|]. constructor; [by right|done].
Qed.
Lemma cut_None c s : Forall (λ x, x ≠ c) s → cut c s = None.
Proof. induction 1 as [|x s Hx _ IH]; [done|]. cbn. replace (x =? c) with false by lia. by rewrite IH. Qed.
Lemma addr_kind_colon s : Forall hex_or_colon s → 58 ∈ s → addr_kind_of s = Some 58.
Proof.
  induction 1 as [|x s Hx _ IH]; intros Hin; [by apply elem_of_nil in Hin|]. cbn.
  destruct (decide (x = 58)) as [->|Hne]; [done|]. apply elem_of_cons in Hin as [Heq|Hin]; [congruence|].
  destruct Hx as [Hx|]; [|done]. replace ((x =? 46) || (x =? 58) || (x =? 37)) with false; [by apply IH|].
  symmetry. unfold hex_value, is_digit, in_range in Hx. repeat break_if; gobool; lia || (exfalso; by apply Hx).
Qed.
Lemma no_percent s : Forall hex_or_colon s → Forall (λ x, x ≠ 37) s.
Proof.
  intros Hs. eapply Forall_impl; [exact Hs|]. intros x [Hx| ->]; [|done]. intros ->. by apply Hx.
Qed.
Lemma leading_hex s c r d : s = c :: r → hex_value c = Some d → leading_ellipsis s = None.
Proof.
  intros -> Hc. destruct (hex_not_colon c d Hc) as [H _]. cbn. rewrite H. by destruct r.
Qed.

(** An address of eight groups with the groups of a span left out. *)
Lemma expand6_span v s e :
  0 ≤ v < 2 ^ 128 → (s < e ≤ 8)%nat → (∀ j, Z.of_nat s ≤ j < Z.of_nat e → v6u16 v j = 0) →
  expand6 (groups_bytes (take s (groups_of v)) ++ groups_bytes (drop e (groups_of v)),
           Some (2 * s)%nat, []) = Ok (ip6 v).
Proof.
  intros Hv He Hz. set (gs := groups_of v).
  assert (length gs = 8%nat) as H8 by done.
  assert (gs = take s gs ++ replicate (e - s) 0 ++ drop e gs) as Hgs.
  { rewrite <- (take_drop s gs) at 1. f_equal. rewrite <- (take_drop (e - s) (drop s gs)) at 1. f_equal.
    - apply list_eq. intros i. destruct (decide (i < e - s)%nat) as [Hi|Hi].
      + rewrite lookup_take_lt, lookup_drop by lia. rewrite lookup_replicate_2 by lia.
        unfold gs, groups_of. rewrite list_lookup_fmap.
        assert ([0; 1; 2; 3; 4; 5; 6; 7] !! (s + i)%nat = Some (Z.of_nat (s + i))) as ->.
        { assert (s + i < 8)%nat as Hb by lia. revert Hb. generalize (s + i)%nat.
          intros k Hk. do 8 (destruct k as [|k]; [done|]). lia. }
        cbn. rewrite Hz by lia. done.
      + rewrite lookup_take_ge by lia. symmetry. apply lookup_ge_None_2. rewrite length_replicate. lia.
    - rewrite drop_drop. f_equal. lia. }
  cbn [expand6]. rewrite bool_decide_true by done. cbn [negb].
  rewrite length_app, !length_groups_bytes, length_take, length_drop, H8.
  replace (_ <? 16)%nat with true by (symmetry; apply Nat.ltb_lt; lia).
  rewrite take_app_length', drop_app_length' by (rewrite length_groups_bytes, length_take, H8; lia).
  unfold ip6. do 2 f_equal. transitivity (be_value (groups_bytes gs)); [|by apply groups_value].
  transitivity (be_value (groups_bytes (take s gs ++ replicate (e - s) 0 ++ drop e gs))); [|by do 2 f_equal].
  unfold groups_bytes at 3. rewrite !bind_app. do 3 f_equal.
  replace (16 - (2 * (s `min` 8) + 2 * (8 - e)))%nat with (2 * (e - s))%nat by lia.
  generalize (e - s)%nat. clear. intros n. induction n as [|n IH]; [done|].
  replace (2 * S n)%nat with (S (S (2 * n))) by lia. cbn [replicate]. rewrite IH. done.
Qed.

(** All eight groups. *)
Lemma parse_groups6_plain v :
  0 ≤ v < 2 ^ 128 → ParseAddr (string_bytes (groups6 9 v 0 None)) = Ok (ip6 v, []).
Proof.
  intros Hv. pose proof (groups_of_range v) as Hg. unfold ParseAddr, parseIPv6.
  rewrite groups6_plain. pose proof (groups_text_chars _ Hg) as Hc.
  rewrite addr_kind_colon, cut_None by (done || by apply no_percent || (cbn; set_solver)).
  cbn [Z.eqb Pos.eqb mbind result_bind fail_if].
  destruct (groups_text_head (groups_of v)) as (c & r & d & Ht & Hd); [done..|].
  rewrite (leading_hex _ c r d) by done. rewrite <- (app_nil_r (groups_text (groups_of v))).
  rewrite parse6_groups by (done || (cbn; lia) || by left). cbn [mbind result_bind].
  rewrite app_nil_l. unfold expand6. rewrite bool_decide_true by done. cbn [negb].
  replace (length (groups_bytes (groups_of v)) <? 16)%nat with false by done.
  rewrite bool_decide_true by done. rewrite groups_value by done. done.
Qed.

(** The groups before and after an ellipsis. *)
Lemma parse6_post post fuel ip e :
  Forall is_group post → (length post ≤ fuel)%nat → post ≠ [] →
  parse6 fuel (groups_text post) ip e = Ok (ip ++ groups_bytes post, e, []).
Proof.
  intros Hg Hf Hne. rewrite <- (app_nil_r (groups_text post)). rewrite parse6_groups by auto. done.
Qed.
Lemma parse_around pre post :
  Forall is_group pre → Forall is_group post → (length pre + length post < 8)%nat →
  ParseAddr (groups_text pre ++ 58 :: 58 :: groups_text post)
  = (a ← expand6 (groups_bytes pre ++ groups_bytes post, Some (2 * length pre)%nat, []); Ok (a, [])).
Proof.
  intros Hpre Hpost Hl. unfold ParseAddr, parseIPv6.
  assert (Forall hex_or_colon (groups_text pre ++ 58 :: 58 :: groups_text post)) as Hc.
  { apply Forall_app. split; [by apply groups_text_chars|].
    repeat (constructor; [by right|]). by apply groups_text_chars. }
  rewrite addr_kind_colon, cut_None by (done || by apply no_percent || set_solver).
  cbn [Z.eqb Pos.eqb mbind result_bind fail_if].
  destruct pre as [|g pre].
  - cbn [groups_text app leading_ellipsis Z.eqb Pos.eqb andb]. destruct post as [|g post]; [done|].
    destruct (groups_text_head (g :: post)) as (c & r & d & Ht & _); [done..|].
    rewrite Ht. rewrite <- Ht. rewrite parse6_post by (done || cbn in *; lia). done.
  - destruct (groups_text_head (g :: pre)) as (c & r & d & Ht & Hd); [done..|].
    rewrite (leading_hex _ c (r ++ 58 :: 58 :: groups_text post) d) by (by rewrite ?Ht).
    rewrite parse6_groups by (done || (cbn in *; lia) || eauto).
    rewrite app_nil_l, length_groups_bytes. destruct post as [|g' post].
    + change (groups_bytes []) with (@nil Z). rewrite app_nil_r. done.
    + destruct (groups_text_head (g' :: post)) as (c' & r' & d' & Ht' & _); [done..|].
      rewrite Ht'. rewrite <- Ht'. rewrite parse6_post by (done || cbn in *; lia). done.
Qed.
Lemma parse_groups6 v :
  0 ≤ v < 2 ^ 128 → ParseAddr (string_bytes (groups6 9 v 0 (zero_span v))) = Ok (ip6 v, []).
Proof.
  intros Hv. pose proof (zero_span_spec v) as Hz. pose proof (groups_of_range v) as Hg.
  destruct (zero_span v) as [[s e]|]; [|by apply parse_groups6_plain].
  destruct Hz as (Hs & He & Hz). rewrite <- (Z2Nat.id s), <- (Z2Nat.id e) in Hz |- * by lia.
  assert (Z.to_nat s < Z.to_nat e ≤ 8)%nat as Hse by lia. revert Hse Hz.
  generalize (Z.to_nat s) (Z.to_nat e). clear s e Hs He. intros s e He Hz.
  assert (length (take s (groups_of v)) = s ∧ length (drop e (groups_of v)) = (8 - e)%nat) as [Ls Le].
  { rewrite length_take, length_drop. change (length (groups_of v)) with 8%nat. lia. }
  rewrite groups6_span, parse_around by (try apply Forall_take; try apply Forall_drop; done || lia).
  rewrite Ls, expand6_span by done. done.
Qed.

(** *** Addresses and prefixes *)
Lemma string4_chars v : Forall (λ c, is_digit c = true ∨ c = 46) (string_bytes (string4 v)).
Proof.
  unfold string4. rewrite !string_bytes_app. change (string_bytes ".") with [46].
  assert (∀ i, Forall (λ c, is_digit c = true ∨ c = 46) (string_bytes (itoa (octet v i)))) as Hd.
  { intros i. destruct (itoa_digits (octet v i)) as (_ & Hall & _).
    - pose proof (octet_range v i). unfold max_uint64. lia.
    - eapply Forall_impl; [exact Hall|]. auto. }
  repeat (apply Forall_app; split); auto; constructor; auto.
Qed.
Lemma addr_kind_dot s :
  Forall (λ c, is_digit c = true ∨ c = 46) s → 46 ∈ s → addr_kind_of s = Some 46.
Proof.
  induction 1 as [|x s Hx _ IH]; intros Hin; [by apply elem_of_nil in Hin|]. cbn.
  destruct (decide (x = 46)) as [->|Hne]; [done|]. apply elem_of_cons in Hin as [Heq|Hin]; [congruence|].
  destruct Hx as [Hx|]; [|done]. unfold is_digit, in_range in Hx. gobool.
  replace ((x =? 46) || (x =? 58) || (x =? 37)) with false by lia. by apply IH.
Qed.
Lemma octet_length d : 0 ≤ d < 256 → (length (string_bytes (itoa d)) ≤ 3)%nat.
Proof.
  intros Hd. assert (forallb (λ n, length (string_bytes (itoa n)) <=? 3)%nat (seqZ 0 256) = true) as Hall
    by by vm_compute.
  rewrite forallb_true_iff in Hall. apply Nat.leb_le, (Hall d). apply elem_of_seqZ. lia.
Qed.
Lemma digits_as_hex l : Forall (λ c, is_digit c = true) l → hex_digit <$> ((λ c, c - 48) <$> l) = l.
Proof.
  induction 1 as [|c l Hc _ IH]; [done|]. rewrite !fmap_cons, IH. f_equal.
  unfold is_digit, in_range in Hc. gobool. unfold hex_digit. break_if; lia.
Qed.
(** A hexadecimal group scan stops at the first dot of an IPv4 text. *)
Lemma hex_group_string4 w :
  ∃ acc off rest, 0 < off ∧ hex_group (string_bytes (string4 w)) 0 0 = Ok (acc, off, 46 :: rest).
Proof.
  unfold string4. rewrite !string_bytes_app. change (string_bytes ".") with [46]. cbn [app].
  destruct (itoa_digits (octet w 0)) as (_ & Hall & Hne & _).
  { pose proof (octet_range w 0). unfold max_uint64. lia. }
  pose proof (octet_length _ (octet_range w 0)) as Hlen. set (s := string_bytes (itoa (octet w 0))) in *.
  set (ds := (λ c, c - 48) <$> s).
  assert (s = hex_digit <$> ds) as Hs by (symmetry; by apply digits_as_hex).
  rewrite Hs, hex_group_digits.
  - eexists _, _, _. split; [|done]. unfold ds. rewrite length_fmap. destruct s; [done|cbn; lia].
  - unfold ds. apply Forall_fmap. eapply Forall_impl; [exact Hall|]. intros c Hc.
    unfold is_digit, in_range in Hc. gobool. cbn. lia.
  - done.
  - lia.
  - lia.
  - unfold ds. rewrite length_fmap. lia.
  - done.
Qed.
Lemma string4_head w : ∃ c r, string_bytes (string4 w) = c :: r ∧ is_digit c = true.
Proof.
  unfold string4. rewrite string_bytes_app. destruct (itoa_digits (octet w 0)) as (_ & Hall & Hne & _).
  { pose proof (octet_range w 0). unfold max_uint64. lia. }
  destruct (string_bytes (itoa (octet w 0))) as [|c r]; [done|]. apply Forall_cons in Hall as [Hc _].
  rewrite <- app_comm_cons. eauto.
Qed.
Lemma parse_mapped4 w :
  0 ≤ w < 2 ^ 32 →
  ParseAddr (58 :: 58 :: group_text 0xffff ++ 58 :: string_bytes (string4 w)) = Ok (ip6 (0xffff * 2 ^ 32 + w), []).
Proof.
  intros Hw. unfold ParseAddr. cbn [addr_kind_of Z.eqb Pos.eqb orb]. unfold parseIPv6.
  rewrite cut_None.
  2: { change (58 :: 58 :: group_text 0xffff ++ 58 :: string_bytes (string4 w))
         with ([58; 58; 102; 102; 102; 102; 58] ++ string_bytes (string4 w)).
       apply Forall_app. split; [by repeat constructor|]. eapply Forall_impl; [apply string4_chars|]. intros c [Hc| ->]; [|done].
       unfold is_digit, in_range in Hc. gobool. lia. }
  cbn [fail_if mbind result_bind leading_ellipsis Z.eqb Pos.eqb andb].
  destruct (string4_head w) as (c & r & Hs & Hc). unfold is_digit, in_range in Hc. gobool.
  assert (parse6 8 (group_text 0xffff ++ 58 :: string_bytes (string4 w)) [] (Some 0%nat)
          = Ok ([255; 255; octet w 0; octet w 1; octet w 2; octet w 3], Some 0%nat, [])) as Hp.
  { cbn [parse6]. destruct (hex_group_text 0xffff (58 :: string_bytes (string4 w))) as (off & Ho & ->); [done..|].
    cbn [mbind result_bind]. replace (off =? 0) with false by lia. cbn [Z.eqb Pos.eqb negb].
    rewrite Hs. replace (c =? 58) with false by lia. rewrite <- Hs.
    destruct (hex_group_string4 w) as (acc & off' & rest & Ho' & ->). cbn [mbind result_bind].
    replace (off' =? 0) with false by lia. cbn [Z.eqb Pos.eqb].
    rewrite parse_string4. done. }
  destruct (group_text_head 0xffff) as (c' & r' & d' & Ht & _); [done|].
  rewrite Ht in Hp |- *. cbn [app] in Hp |- *. rewrite Hp. cbn [mbind result_bind expand6].
  rewrite bool_decide_true by done. cbn [negb length Nat.ltb Nat.leb take drop].
  unfold ip6. do 3 f_equal. unfold be_value.
  change [255; 255; octet w 0; octet w 1; octet w 2; octet w 3]
    with ([255; 255] ++ [octet w 0; octet w 1; octet w 2; octet w 3]).
  rewrite app_nil_l, undigits_app, undigits_app. fold (be_value [octet w 0; octet w 1; octet w 2; octet w 3]).
  rewrite octets_value by done. done.
Qed.
Lemma ParseAddr_String a : Addr_wf a → addr_kind a ≠ z0 → ParseAddr (string_bytes (Addr_String a)) = Ok (a, []).
Proof.
  destruct a as [[] v]; unfold Addr_wf, Addr_String, BitLen; cbn [addr_kind addr_val]; intros Hv Hk; [done|..].
  - unfold ParseAddr. rewrite addr_kind_dot by (apply string4_chars || unfold string4; rewrite !string_bytes_app; set_solver).
    cbn [Z.eqb Pos.eqb]. unfold parseIPv4. rewrite parse_string4. cbn [mbind result_bind].
    rewrite octets_value by done. done.
  - unfold Is4In6. cbn [addr_kind addr_val]. rewrite bool_decide_true by done. cbn [andb].
    destruct (Z.eqb_spec (v / 2 ^ 32) 0xffff) as [Hm|Hm]; [|by apply parse_groups6].
    pose proof (Z.mod_pos_bound v (2 ^ 32)). pose proof (Z.div_mod v (2 ^ 32)).
    rewrite string_bytes_app.
    replace (string_bytes "::ffff:" ++ string_bytes (string4 (v mod 2 ^ 32)))
      with (58 :: 58 :: group_text 0xffff ++ 58 :: string_bytes (string4 (v mod 2 ^ 32))) by reflexivity.
    rewrite parse_mapped4 by (apply Z.mod_pos_bound; lia). unfold ip6. do 3 f_equal. lia.
Qed.

Lemma cut_last_app c s t : Forall (λ x, x ≠ c) t → cut_last c (s ++ c :: t) = Some (s, t).
Proof.
  intros Ht. assert (cut_last c t = None) as Hn.
  { induction Ht as [|x t Hx _ IH]; [done|]. cbn. rewrite IH. by replace (x =? c) with false by lia. }
  induction s as [|x s IH]; cbn; [by rewrite Hn, Z.eqb_refl|]. by rewrite IH.
Qed.
(** ParsePrefix reads back what Prefix.String writes. *)
Lemma ParsePrefix_String p : Prefix_wf p → PrefixIsValid p = true → ParsePrefix (Prefix_String p) = Ok p.
Proof.
  intros Hwf Hv. destruct (valid_bits p Hwf Hv) as [Hb Hk]. destruct Hwf as (Ha & Hr & _).
  unfold ParsePrefix, Prefix_String. rewrite Hv. cbn [negb]. rewrite !string_bytes_app.
  change (string_bytes "/") with [47]. cbn [app].
  assert (0 ≤ Bits p ≤ 128) as Hb' by (unfold BitLen in Hb; destruct (addr_kind (prefix_ip p)); lia).
  destruct (itoa_digits (Bits p)) as (_ & Hall & Hne & H0 & Hp); [unfold max_uint64; lia|].
  rewrite cut_last_app.
  2: { eapply Forall_impl; [exact Hall|]. intros c Hc. unfold is_digit, in_range in Hc. gobool. lia. }
  rewrite ParseAddr_String by done. cbn [mbind result_bind].
  rewrite (bool_decide_true ([] = [])) by done. rewrite andb_false_r. cbn [fail_if].
  rewrite Atoi_itoa by (unfold max_int64; lia).
  replace (match string_bytes (itoa (Bits p)) with c :: _ :: _ => negb (in_range 49 57 c) | _ => false end) with false.
  2: { destruct (decide (Bits p = 0)) as [Hz|Hz]; [by rewrite (H0 Hz)|].
       destruct Hp as (c & r & -> & Hc); [lia|]. destruct r; [done|]. by rewrite Hc. }
  cbn [fail_if mbind result_bind].
  replace ((Bits p <? 0) || ((if Is4 (prefix_ip p) then 32 else 128) <? Bits p)) with false.
  2: { unfold Is4, BitLen in *. destruct (addr_kind (prefix_ip p)); [done| |];
       [rewrite bool_decide_true by done|rewrite bool_decide_false by done]; lia. }
  cbn [fail_if mbind result_bind]. f_equal. unfold PrefixFrom. rewrite bool_decide_false by done.
  replace (0 <=? Bits p) with true by lia. replace (Bits p <=? BitLen (prefix_ip p)) with true by lia.
  cbn [negb andb]. unfold Bits. destruct p as [ip b]. cbn. f_equal. lia.
Qed.

(** ** Parsed values are well formed *)
Lemma parse4_range s val k fields r :
  Forall is_byte fields → 0 ≤ val ≤ 255 → (length fields ≤ 3)%nat → parse4 s val k fields = Ok r →
  Forall is_byte r ∧ length r = 4%nat.
Proof.
  revert val k fields. induction s as [|c s IH]; intros val k fields Hf Hv Hl; cbn [parse4].
  - destruct (Nat.ltb_spec (length fields) 3); [done|]. intros [= <-]. rewrite length_app. cbn. split; [|lia].
    apply Forall_app. split; [done|]. constructor; [unfold is_byte; lia|done].
  - unfold is_digit, in_range. destruct ((48 <=? c) && (c <=? 57)) eqn:Hd.
    + gobool. destruct ((k =? 1) && (val =? 0)); [done|].
      destruct (Z.ltb_spec 255 (val * 10 + (c - 48))); [done|]. apply IH; [done|lia|done].
    + destruct (c =? 46); [|done]. destruct (_ || _); [done|].
      destruct (Nat.eqb_spec (length fields) 3); [done|]. apply IH; [|lia|rewrite length_app; cbn; lia].
      apply Forall_app. split; [done|]. constructor; [unfold is_byte; lia|done].
Qed.
Lemma hex_value_range c d : hex_value c = Some d → 0 ≤ d < 16.
Proof. unfold hex_value, is_digit, in_range. repeat break_if; gobool; naive_solver lia. Qed.
Lemma hex_group_range s off acc a o r : 0 ≤ acc ≤ 65535 → hex_group s off acc = Ok (a, o, r) → 0 ≤ a ≤ 65535.
Proof.
  revert off acc. induction s as [|c s IH]; intros off acc Ha; cbn [hex_group]; [by intros [= <- <- <-]|].
  destruct (hex_value c) as [d|] eqn:Hd; [|by intros [= <- <- <-]]. apply hex_value_range in Hd.
  destruct (3 <? off); [done|]. destruct (Z.ltb_spec 65535 (acc * 16 + d)); [done|]. apply IH. lia.
Qed.

(** The bytes that the loop of parseIPv6 collects. *)
Definition collected (fuel : nat) (ip : list Z) (e : option nat) : Prop :=
  Forall is_byte ip ∧ (length ip + 2 * fuel = 16)%nat ∧ match e with Some n => (n ≤ length ip)%nat | None => True end.
Lemma parse6_range fuel s ip e ip' e' r :
  collected fuel ip e → parse6 fuel s ip e = Ok (ip', e', r) →
  Forall is_byte ip' ∧ (length ip' ≤ 16)%nat ∧ match e' with Some n => (n ≤ length ip')%nat | None => True end.
Proof.
  revert s ip e. induction fuel as [|f IH]; intros s ip e (Hb & Hl & He); cbn [parse6].
  - intros [= <- <- _]. split; [done|]. split; [lia|done].
  - intros Hp. apply result_bind_Ok in Hp as ([[acc off] rest] & Hg & Hp).
    apply hex_group_range in Hg; [|lia]. destruct (off =? 0); [done|].
    destruct (match rest with c :: _ => c =? 46 | [] => false end).
    + destruct (_ && _); [done|]. destruct (Nat.ltb_spec 16 (length ip + 4)); [done|].
      apply result_bind_Ok in Hp as (fields & Hf & [= <- <- _]).
      destruct (parse4_range s 0 0 [] fields) as [Hfb Hfl]; [done|lia|cbn; lia|exact Hf|].
      rewrite length_app. split; [by apply Forall_app|]. split; [lia|]. destruct e; [lia|done].
    + assert (collected f (ip ++ [acc / 256; acc mod 256]) e) as Hc.
      { pose proof (Z.mod_pos_bound acc 256). pose proof (Z.div_mod acc 256).
        split; [|rewrite length_app; cbn; split; [lia|destruct e; [lia|done]]].
        apply Forall_app. split; [done|]. repeat constructor; lia. }
      set (ip2 := ip ++ _) in *. destruct Hc as (Hb2 & Hl2 & He2).
      destruct rest as [|c rest]; [injection Hp as <- <- _; split; [done|]; split; [lia|done]|].
      destruct (c =? 58); cbn [negb] in Hp; [|done]. destruct rest as [|c' r']; [done|].
      destruct (c' =? 58); [|eapply IH; [|exact Hp]; done].
      destruct e; [done|]. destruct r' as [|c2 r2]; [injection Hp as <- <- _; split; [done|]; split; lia|].
      eapply IH; [|exact Hp]. split; [done|]. split; [done|]. lia.
Qed.
Lemma be_value_range l : Forall is_byte l → 0 ≤ be_value l < 256 ^ Z.of_nat (length l).
Proof. apply undigits_range. lia. Qed.
Lemma expand6_wf p a :
  match p with (ip, e, _) =>
    Forall is_byte ip ∧ (length ip ≤ 16)%nat ∧ match e with Some n => (n ≤ length ip)%nat | None => True end end →
  expand6 p = Ok a → Addr_wf a ∧ addr_kind a = z6.
Proof.
  destruct p as [[ip e] rest]. intros (Hb & Hl & He). unfold expand6.
  assert (∀ l, Forall is_byte l → length l = 16%nat → Addr_wf (MkAddr z6 (be_value l))) as Hw.
  { intros l Hlb Hll. pose proof (be_value_range l Hlb) as Hr. rewrite Hll in Hr. exact Hr. }
  destruct (negb _); [done|]. destruct (Nat.ltb_spec (length ip) 16).
  - destruct e as [n|]; [|done]. intros [= <-]. split; [|done]. apply Hw.
    + apply Forall_app. split; [by apply Forall_take|]. apply Forall_app. split; [|by apply Forall_drop].
      apply Forall_replicate. split; lia.
    + rewrite !length_app, length_take, length_replicate, length_drop. lia.
  - destruct (bool_decide _); [|done]. intros [= <-]. split; [|done]. apply Hw; [done|lia].
Qed.
Lemma ParseAddr_wf s a z : ParseAddr s = Ok (a, z) → Addr_wf a ∧ addr_kind a ≠ z0.
Proof.
  assert (∀ s e z0', (e = None ∨ e = Some 0%nat) →
    (p ← parse6 8 s [] e; a ← expand6 p; Ok (a, z0')) = Ok (a, z) → Addr_wf a ∧ addr_kind a ≠ z0) as H6.
  { intros s' e z0' He Hp. apply result_bind_Ok in Hp as ([[ip e'] r] & Hp & Ha).
    apply result_bind_Ok in Ha as (a' & Ha & [= -> _]).
    assert (collected 8 [] e) as Hc by (split; [done|]; split; [done|]; by destruct He as [->| ->]).
    pose proof (parse6_range 8 s' [] e ip e' r Hc Hp) as Hr.
    destruct (expand6_wf (ip, e', r) a Hr Ha) as [Hw Hk].
    split; [done|]. by rewrite Hk. }
  unfold ParseAddr. destruct (addr_kind_of s) as [c|]; [|done]. destruct (c =? 46).
  - intros Hp. apply result_bind_Ok in Hp as (a' & Ha & [= -> _]).
    unfold parseIPv4 in Ha. apply result_bind_Ok in Ha as (fields & Hf & [= <-]).
    destruct (parse4_range s 0 0 [] fields) as [Hfb Hfl]; [done|lia|cbn; lia|exact Hf|].
    pose proof (be_value_range fields Hfb) as Hr. rewrite Hfl in Hr. done.
  - destruct (c =? 58); [|done]. unfold parseIPv6.
    destruct (match cut 37 s with Some (s, zone) => _ | None => _ end) as [[s' zone] bad].
    intros Hp. apply result_bind_Ok in Hp as ([] & _ & Hp).
    destruct (leading_ellipsis s') as [[|c' r]|]; [|apply (H6 _ _ _ (or_intror eq_refl) Hp)|apply (H6 _ _ _ (or_introl eq_refl) Hp)].
    injection Hp as <- _. split; [|done]. unfold Addr_wf, BitLen. cbn [addr_val addr_kind]. lia.
Qed.
Lemma ParsePrefix_wf s p : ParsePrefix s = Ok p → Prefix_wf p ∧ PrefixIsValid p = true.
Proof.
  unfold ParsePrefix. destruct (cut_last 47 (string_bytes s)) as [[ip bits]|]; [|done]. intros Hp.
  apply result_bind_Ok in Hp as ([a z] & Ha & Hp). destruct (ParseAddr_wf _ _ _ Ha) as [Hw Hk].
  apply result_bind_Ok in Hp as ([] & _ & Hp). apply result_bind_Ok in Hp as ([] & _ & Hp).
  apply result_bind_Ok in Hp as (n & _ & Hp). apply result_bind_Ok in Hp as ([] & Hn%fail_if_Ok & [= <-]).
  gobool. assert (0 ≤ n ≤ BitLen a) as Hb.
  { unfold Is4, BitLen in *. destruct (addr_kind a); [done| |];
      [rewrite bool_decide_true in Hn by done|rewrite bool_decide_false in Hn by done]; lia. }
  unfold PrefixFrom, Prefix_wf, PrefixIsValid. rewrite bool_decide_false by done.
  replace (0 <=? n) with true by lia. replace (n <=? BitLen a) with true by lia. cbn [negb andb prefix_ip bitsPlusOne].
  split; [split; [done|]; split; [lia|done]|lia].
Qed.
