(* ===== verification/JsonDecode.v ===== *)
(** * encoding/json: the Decoder

    The token stream of json.Decoder (Token and More, with its token states),
    and Decode into an any with UseNumber, on the bytes of a text. Callers have
    checked that the text is valid UTF-8, so the bytes of a string stand for
    themselves. The parsers call one another at most twice before a byte is
    read, so a fuel above twice the length of the text is enough, and more
    changes nothing ([parse_value_fuel]). *)

From S2P Require Import Prelude GoStd NetipParse Json.

Inductive value :=
  | VNull
  | VBool (b : bool)
  | VNumber (text : string)
  | VString (s : string)
  | VArray (l : list value)
  | VObject (members : list (string * value)).

(** ** Scalars *)
Definition json_space (c : Z) : bool := (c =? 32) || (c =? 9) || (c =? 13) || (c =? 10).
Fixpoint skip_space (s : list Z) : list Z :=
  match s with
  | c :: r => if json_space c then skip_space r else s
  | [] => []
  end.

(** utf8.EncodeRune on a rune that is valid. *)
Definition utf8_encode (r : Z) : list Z :=
  if r <? 0x80 then [r]
  else if r <? 0x800 then [0xC0 + r / 64; 0x80 + r mod 64]
  else if r <? 0x10000 then [0xE0 + r / 4096; 0x80 + (r / 64) mod 64; 0x80 + r mod 64]
  else [0xF0 + r / 262144; 0x80 + (r / 4096) mod 64; 0x80 + (r / 64) mod 64; 0x80 + r mod 64].
Definition hex4 (a b c d : Z) : option Z :=
  a ← hex_value a; b ← hex_value b; c ← hex_value c; d ← hex_value d;
  Some (a * 4096 + b * 256 + c * 16 + d).
Definition simple_escape (c : Z) : option Z :=
  if (c =? 34) || (c =? 92) || (c =? 47) then Some c
  else if c =? 98 then Some 8
  else if c =? 102 then Some 12
  else if c =? 110 then Some 10
  else if c =? 114 then Some 13
  else if c =? 116 then Some 9
  else None.
(** utf16.DecodeRune for a pair of surrogates. *)
Definition surrogate_pair (r1 r2 : Z) : option Z :=
  if in_range 0xD800 0xDBFF r1 && in_range 0xDC00 0xDFFF r2
  then Some ((r1 - 0xD800) * 1024 + (r2 - 0xDC00) + 0x10000) else None.
(** The second half of a pair that follows. *)
Definition next_escape (s : list Z) : option (Z * list Z) :=
  match s with
  | b :: u :: h1 :: h2 :: h3 :: h4 :: r =>
    if (b =? 92) && (u =? 117) then (λ x, (x, r)) <$> hex4 h1 h2 h3 h4 else None
  | _ => None
  end.

(** The contents of a string literal after its opening quote, and what follows
    its closing quote. *)
Fixpoint scan_string (fuel : nat) (s : list Z) : option (list Z * list Z) :=
  match fuel with
  | O => None
  | S f =>
    match s with
    | [] => None
    | c :: r =>
      if c =? 34 then Some ([], r)
      else if c =? 92 then
        match r with
        | [] => None
        | e :: r1 =>
          match simple_escape e with
          | Some b => (λ p, (b :: p.1, p.2)) <$> scan_string f r1
          | None =>
            if negb (e =? 117) then None
            else match r1 with
            | h1 :: h2 :: h3 :: h4 :: r2 =>
              u ← hex4 h1 h2 h3 h4;
              if in_range 0xD800 0xDFFF u then
                match next_escape r2 with
                | Some (u2, r3) =>
                  match surrogate_pair u u2 with
                  | Some rune => (λ p, (utf8_encode rune ++ p.1, p.2)) <$> scan_string f r3
                  | None => (λ p, (utf8_encode 0xFFFD ++ p.1, p.2)) <$> scan_string f r2
                  end
                | None => (λ p, (utf8_encode 0xFFFD ++ p.1, p.2)) <$> scan_string f r2
                end
              else (λ p, (utf8_encode u ++ p.1, p.2)) <$> scan_string f r2
            | _ => None
            end
          end
        end
      else if c <? 32 then None
      else (λ p, (c :: p.1, p.2)) <$> scan_string f r
    end
  end.

Fixpoint span_digits (s : list Z) : list Z * list Z :=
  match s with
  | c :: r => if is_digit c then let '(a, b) := span_digits r in (c :: a, b) else ([], s)
  | [] => ([], [])
  end.
(** One digit or more. *)
Definition some_digits (s : list Z) : option (list Z * list Z) :=
  match span_digits s with ([], _) => None | p => Some p end.
Definition scan_int (s : list Z) : option (list Z * list Z) :=
  match s with
  | c :: r => if c =? 48 then Some ([48], r) else if in_range 49 57 c then some_digits s else None
  | [] => None
  end.
Definition scan_frac (s : list Z) : option (list Z * list Z) :=
  match s with
  | c :: r => if c =? 46 then (λ p, (46 :: p.1, p.2)) <$> some_digits r else Some ([], s)
  | [] => Some ([], [])
  end.
Definition scan_exp (s : list Z) : option (list Z * list Z) :=
  match s with
  | c :: r =>
    if (c =? 101) || (c =? 69) then
      match r with
      | g :: r' => if (g =? 43) || (g =? 45) then (λ p, (c :: g :: p.1, p.2)) <$> some_digits r'
                   else (λ p, (c :: p.1, p.2)) <$> some_digits r
      | [] => None
      end
    else Some ([], s)
  | [] => Some ([], [])
  end.
Definition scan_number (s : list Z) : option (list Z * list Z) :=
  let '(sign, s) := match s with
                    | c :: r => if c =? 45 then ([45], r) else ([], s)
                    | [] => ([], [])
                    end in
  i ← scan_int s;
  f ← scan_frac i.2;
  e ← scan_exp f.2;
  Some (sign ++ i.1 ++ f.1 ++ e.1, e.2).

Fixpoint after (prefix s : list Z) : option (list Z) :=
  match prefix, s with
  | [], _ => Some s
  | a :: p, b :: r => if a =? b then after p r else None
  | _, [] => None
  end.
Definition parse_string (s : list Z) : option (string * list Z) :=
  match s with
  | c :: r => if c =? 34 then (λ p, (string_of_bytes p.1, p.2)) <$> scan_string (S (length r)) r else None
  | [] => None
  end.
Definition parse_scalar (s : list Z) : option (value * list Z) :=
  match s with
  | [] => None
  | c :: _ =>
    if c =? 34 then (λ p, (VString p.1, p.2)) <$> parse_string s
    else if c =? 116 then (λ r, (VBool true, r)) <$> after (string_bytes "true") s
    else if c =? 102 then (λ r, (VBool false, r)) <$> after (string_bytes "false") s
    else if c =? 110 then (λ r, (VNull, r)) <$> after (string_bytes "null") s
    else (λ p, (VNumber (string_of_bytes p.1), p.2)) <$> scan_number s
  end.

(** ** The token stream *)
Inductive tokenState :=
  | tokenTopValue | tokenArrayStart | tokenArrayValue | tokenArrayComma
  | tokenObjectStart | tokenObjectKey | tokenObjectColon | tokenObjectValue | tokenObjectComma.
#[export] Instance tokenState_eq_dec : EqDecision tokenState.
Proof. solve_decision. Defined.
Definition same_state (a b : tokenState) : bool := bool_decide (a = b).
Record decoder := MkDecoder {
  dec_buf : list Z;
  dec_tokenState : tokenState;
  dec_tokenStack : list tokenState
}.
Inductive token := Delim (c : Z) | Scalar (v : value).
(** io.EOF, another error, or a token. *)
Inductive read := EOF | Bad | Tok (t : token) (d : decoder).

Definition tokenValueAllowed (st : tokenState) : bool :=
  match st with tokenTopValue | tokenArrayStart | tokenArrayValue | tokenObjectValue => true | _ => false end.
Definition tokenValueEnd (st : tokenState) : tokenState :=
  match st with
  | tokenArrayStart | tokenArrayValue => tokenArrayComma
  | tokenObjectValue => tokenObjectComma
  | _ => st
  end.
Definition open_delim (c : Z) (start : tokenState) (st : tokenState) (stack : list tokenState) (r : list Z) : read :=
  if tokenValueAllowed st then Tok (Delim c) (MkDecoder r start (st :: stack)) else Bad.
Definition close_delim (c : Z) (start comma st : tokenState) (stack : list tokenState) (r : list Z) : read :=
  if same_state st start || same_state st comma then
    match stack with
    | top :: rest => Tok (Delim c) (MkDecoder r (tokenValueEnd top) rest)
    | [] => Bad
    end
  else Bad.

Fixpoint Token_at (st : tokenState) (stack : list tokenState) (s : list Z) : read :=
  match s with
  | [] => EOF
  | c :: r =>
    if json_space c then Token_at st stack r
    else if c =? 91 then open_delim 91 tokenArrayStart st stack r
    else if c =? 93 then close_delim 93 tokenArrayStart tokenArrayComma st stack r
    else if c =? 123 then open_delim 123 tokenObjectStart st stack r
    else if c =? 125 then close_delim 125 tokenObjectStart tokenObjectComma st stack r
    else if c =? 58 then
      if same_state st tokenObjectColon then Token_at tokenObjectValue stack r else Bad
    else if c =? 44 then
      match st with
      | tokenArrayComma => Token_at tokenArrayValue stack r
      | tokenObjectComma => Token_at tokenObjectKey stack r
      | _ => Bad
      end
    else if (c =? 34) && (same_state st tokenObjectStart || same_state st tokenObjectKey) then
      match parse_string s with
      | Some (key, rest) => Tok (Scalar (VString key)) (MkDecoder rest tokenObjectColon stack)
      | None => Bad
      end
    else if negb (tokenValueAllowed st) then Bad
    else match parse_scalar s with
         | Some (v, rest) => Tok (Scalar v) (MkDecoder rest (tokenValueEnd st) stack)
         | None => Bad
         end
  end.
Definition Token (d : decoder) : read := Token_at (dec_tokenState d) (dec_tokenStack d) (dec_buf d).
Definition More (d : decoder) : bool :=
  match skip_space (dec_buf d) with
  | c :: _ => negb (c =? 93) && negb (c =? 125)
  | [] => false
  end.
Definition NewDecoder (raw : list Z) : decoder := MkDecoder raw tokenTopValue [].

(** ** Decode *)
(** Assignment to a map: a later member replaces an earlier one. *)
Fixpoint map_put (k : string) (v : value) (m : list (string * value)) : list (string * value) :=
  match m with
  | [] => [(k, v)]
  | (k', v') :: r => if bool_decide (k = k') then (k, v) :: r else (k', v') :: map_put k v r
  end.
Fixpoint field (k : string) (m : list (string * value)) : option value :=
  match m with
  | [] => None
  | (k', v) :: r => if bool_decide (k = k') then Some v else field k r
  end.

Fixpoint parse_value (fuel : nat) (s : list Z) : option (value * list Z) :=
  match fuel with
  | O => None
  | S f =>
    match skip_space s with
    | [] => None
    | c :: r =>
      if c =? 91 then
        match skip_space r with
        | c' :: r' => if c' =? 93 then Some (VArray [], r')
                      else (λ p, (VArray p.1, p.2)) <$> parse_items f r
        | [] => None
        end
      else if c =? 123 then
        match skip_space r with
        | c' :: r' => if c' =? 125 then Some (VObject [], r')
                      else (λ p, (VObject (foldl (λ m kv, map_put kv.1 kv.2 m) [] p.1), p.2)) <$> parse_members f r
        | [] => None
        end
      else parse_scalar (c :: r)
    end
  end
(** The items of an array up to its bracket. *)
with parse_items (fuel : nat) (s : list Z) : option (list value * list Z) :=
  match fuel with
  | O => None
  | S f =>
    v ← parse_value f s;
    match skip_space v.2 with
    | c :: r => if c =? 93 then Some ([v.1], r)
                else if c =? 44 then (λ p, (v.1 :: p.1, p.2)) <$> parse_items f r
                else None
    | [] => None
    end
  end
(** The members of an object up to its brace. *)
with parse_members (fuel : nat) (s : list Z) : option (list (string * value) * list Z) :=
  match fuel with
  | O => None
  | S f =>
    k ← parse_string (skip_space s);
    match skip_space k.2 with
    | c :: r =>
      if negb (c =? 58) then None
      else
        v ← parse_value f r;
        match skip_space v.2 with
        | c' :: r' => if c' =? 125 then Some ([(k.1, v.1)], r')
                      else if c' =? 44 then (λ p, ((k.1, v.1) :: p.1, p.2)) <$> parse_members f r'
                      else None
        | [] => None
        end
    | [] => None
    end
  end.
Definition json_fuel (raw : list Z) : nat := S (2 * length raw).
(** Decode reads one value and leaves what follows it. *)
Definition Decode (raw : list Z) : option value := fst <$> parse_value (json_fuel raw) raw.

Definition json_bytes (s : string) : list Z := (λ c, if c =? 39 then 34 else c) <$> string_bytes s.
Example decode_example :
  Decode (json_bytes " {'a' : [1, -2.5e+3, true,null ,'x\u00e9\ud83d\ude00\ud83d\n'] , 'b':{}, 'a':[]} ")
  = Some (VObject [("a", VArray []); ("b", VObject [])]) ∧
  Decode (json_bytes "['\u00e9\ud83d\ude00\ud83d\n']")
  = Some (VArray [VString (string_of_bytes [195; 169; 240; 159; 152; 128; 239; 191; 189; 10])]).
Proof. vm_compute. done. Qed.
Example decode_rejects :
  Forall (λ s, match parse_value 100 (json_bytes s) with None => True | Some _ => False end)
    ["[1,]"; "{'a'}"; "{'a':}"; "tru"; "-"; "1."; "1e"; "'\u12'"; "'\x'"; "{,}"; "[1 2]"; "{1:2}"; "[01]"; "["; "'a"].
Proof. repeat constructor. Qed.

(** ** Reading back what Marshal writes *)
(** Printable ASCII, and the part of it that Marshal writes without an escape. *)
Definition printable_byte (b : Z) : bool := in_range 32 126 b.
Definition escaped_byte (b : Z) : bool := (b =? 34) || (b =? 92) || (b =? 60) || (b =? 62) || (b =? 38).
Definition plain_byte (b : Z) : bool := printable_byte b && negb (escaped_byte b).
Definition printable (s : string) : Prop := Forall (λ b, printable_byte b = true) (string_bytes s).
Definition plain (s : string) : Prop := Forall (λ b, plain_byte b = true) (string_bytes s).
#[export] Instance printable_dec s : Decision (printable s).
Proof. unfold printable. apply _. Defined.
#[export] Instance plain_dec s : Decision (plain s).
Proof. unfold plain. apply _. Defined.
Lemma plain_printable s : plain s → printable s.
Proof. intros Hs. eapply Forall_impl; [exact Hs|]. by intros b [? _]%andb_true_iff. Qed.

Section json_induction.
Context (P : json → Prop) (Hnull : P JNull) (Hbool : ∀ b, P (JBool b)) (Hint : ∀ n, P (JInt n))
  (Hstring : ∀ s, P (JString s)) (Harray : ∀ l, Forall P l → P (JArray l))
  (Hobject : ∀ m, Forall (λ kv, P kv.2) m → P (JObject m)).
Fixpoint json_nested_ind (v : json) : P v :=
  match v with
  | JNull => Hnull
  | JBool b => Hbool b
  | JInt n => Hint n
  | JString s => Hstring s
  | JArray l => Harray l ((fix go l := match l return Forall P l with
      | [] => Forall_nil_2 _ | x :: r => Forall_cons_2 _ x r (json_nested_ind x) (go r) end) l)
  | JObject m => Hobject m ((fix go m := match m return Forall (λ kv, P kv.2) m with
      | [] => Forall_nil_2 _ | kv :: r => Forall_cons_2 (λ kv, P kv.2) kv r (json_nested_ind kv.2) (go r) end) m)
  end.
End json_induction.

(** Values whose strings are printable, whose integers are natural and whose keys
    differ. *)
Inductive plain_json : json → Prop :=
  | plain_null : plain_json JNull
  | plain_bool b : plain_json (JBool b)
  | plain_int n : 0 ≤ n ≤ max_int64 → plain_json (JInt n)
  | plain_string s : printable s → plain_json (JString s)
  | plain_array l : Forall plain_json l → plain_json (JArray l)
  | plain_object m :
      NoDup m.*1 → Forall (λ kv, printable kv.1) m → Forall (λ kv, plain_json kv.2) m → plain_json (JObject m).

Fixpoint value_of (v : json) : value :=
  match v with
  | JNull => VNull
  | JBool b => VBool b
  | JInt n => VNumber (string_of_bytes (json_int n))
  | JString s => VString s
  | JArray l => VArray (value_of <$> l)
  | JObject m => VObject ((λ kv, (kv.1, value_of kv.2)) <$> m)
  end.

Lemma json_text_head s : json_text s = 34 :: json_escape (string_bytes s) ++ [34].
Proof. done. Qed.
Lemma printable_cases b : printable_byte b = true →
  (escaped_byte b = false ∧ json_escape_ascii b = [b] ∧ (b =? 34) = false ∧ (b =? 92) = false ∧ (b <? 32) = false) ∨
  (escaped_byte b = true ∧ b ∈ [34; 92; 60; 62; 38]).
Proof.
  unfold printable_byte, in_range. intros Hb. gobool. destruct (escaped_byte b) eqn:He.
  - right. split; [done|]. unfold escaped_byte in He. gobool. set_solver.
  - left. unfold escaped_byte in He. gobool. split; [done|]. split; [|lia]. unfold json_escape_ascii, json_backslash.
    replace ((b =? 34) || (b =? 92)) with false by lia. replace (b =? 8) with false by lia.
    replace (b =? 12) with false by lia. replace (b =? 10) with false by lia. replace (b =? 13) with false by lia.
    replace (b =? 9) with false by lia.
    replace ((b <? 32) || (b =? 60) || (b =? 62) || (b =? 38)) with false by lia. done.
Qed.
Lemma json_escape_printable b l :
  printable_byte b = true → json_escape (b :: l) = json_escape_ascii b ++ json_escape l.
Proof. unfold printable_byte, in_range. intros Hb. gobool. cbn [json_escape]. by replace (b <? 128) with true by lia. Qed.
(** How much longer than the string its text is: an escape has at most six
    bytes. *)
Definition escapes (s : string) : nat := length (filter (λ b, escaped_byte b = true) (string_bytes s)).
Arguments escapes : simpl never.
Lemma json_escape_length l : Forall (λ b, printable_byte b = true) l →
  (length (json_escape l) ≤ length l + 5 * length (filter (λ b, escaped_byte b = true) l))%nat ∧
  Forall (λ b, printable_byte b = true) (json_escape l).
Proof.
  induction 1 as [|b l Hb _ [IH1 IH2]]; [split; [done|constructor]|].
  rewrite json_escape_printable, filter_cons by done. destruct (printable_cases b Hb) as [(He & -> & _)|(He & Hin)].
  - rewrite decide_False by congruence. cbn [app length]. split; [lia|by constructor].
  - rewrite decide_True by done. rewrite !elem_of_cons, elem_of_nil in Hin.
    destruct Hin as [->|[->|[->|[->|[->|[]]]]]]; rewrite length_app; cbn [length];
      (split; [cbn [json_escape_ascii json_u length]; vm_compute (length (json_escape_ascii _)); lia|]);
      (apply Forall_app; split; [by repeat constructor|done]).
Qed.
Lemma plain_escapes s : plain s → escapes s = 0%nat.
Proof.
  unfold plain, escapes. induction 1 as [|b l Hb _ IH]; [done|]. rewrite filter_cons.
  apply andb_true_iff in Hb as [_ Hb]. by destruct (escaped_byte b).
Qed.
(** No escapes in the plain strings of a goal. *)
Ltac plain_const := apply (bool_decide_unpack _); by vm_compute.
Ltac no_escapes :=
  repeat match goal with |- context [escapes ?s] => rewrite (plain_escapes s) by (assumption || plain_const) end.
Lemma json_text_length s :
  printable s → (length (json_text s) ≤ 2 + String.length s + 5 * escapes s)%nat.
Proof.
  intros Hs. rewrite json_text_head. cbn [length]. rewrite length_app. cbn [length].
  pose proof (proj1 (json_escape_length _ Hs)) as Hl. rewrite length_string_bytes in Hl. unfold escapes. lia.
Qed.
Lemma scan_string_printable l rest fuel :
  Forall (λ b, printable_byte b = true) l → (length (json_escape l) < fuel)%nat →
  scan_string fuel (json_escape l ++ 34 :: rest) = Some (l, rest).
Proof.
  intros Hl. revert fuel. induction Hl as [|b l Hb _ IH]; intros fuel Hf; (destruct fuel as [|f]; [cbn in Hf; lia|]); [done|].
  rewrite json_escape_printable in Hf |- * by done. rewrite length_app in Hf.
  destruct (printable_cases b Hb) as [(_ & Ha & H1 & H2 & H3)|[_ Hin]].
  - rewrite Ha in Hf |- *. cbn [app scan_string]. rewrite H1, H2, H3. rewrite IH by (cbn in Hf; lia). done.
  - rewrite !elem_of_cons, elem_of_nil in Hin.
    destruct Hin as [->|[->|[->|[->|[->|[]]]]]]; cbn [json_escape_ascii] in Hf |- *;
      cbn -[json_escape scan_string] in Hf |- *; cbn [scan_string]; cbn -[json_escape scan_string];
      (rewrite IH by (cbn in Hf; lia)); done.
Qed.
Lemma parse_string_text s rest : printable s → parse_string (json_text s ++ rest) = Some (s, rest).
Proof.
  intros Hs. rewrite json_text_head. cbn [app parse_string Z.eqb Pos.eqb]. rewrite <- app_assoc. cbn [app].
  rewrite scan_string_printable by (done || rewrite length_app; cbn; lia).
  cbn [fmap option_fmap option_map fst snd]. by rewrite string_of_string_bytes.
Qed.

(** What follows a value in a text. *)
Definition stops (rest : list Z) : Prop :=
  match rest with [] => True | c :: _ => c = 44 ∨ c = 93 ∨ c = 125 end.
Lemma span_digits_all l rest :
  Forall (λ c, is_digit c = true) l → stops rest → span_digits (l ++ rest) = (l, rest).
Proof.
  intros Hl Hr. induction Hl as [|c l Hc _ IH]; cbn [app span_digits].
  - destruct rest as [|c r]; [done|]. by destruct Hr as [->|[->| ->]].
  - by rewrite Hc, IH.
Qed.
Lemma scan_number_int n rest :
  0 ≤ n ≤ max_int64 → stops rest →
  scan_number (string_bytes (itoa n) ++ rest) = Some (string_bytes (itoa n), rest).
Proof.
  intros Hn Hr. destruct (itoa_digits n) as (_ & Hall & Hne & H0 & Hp); [unfold max_int64, max_uint64 in *; lia|].
  assert (scan_int (string_bytes (itoa n) ++ rest) = Some (string_bytes (itoa n), rest)) as Hi.
  { destruct (decide (n = 0)) as [Hz|Hz]; [by rewrite (H0 Hz)|].
    destruct Hp as (c & r & Hs & Hc); [lia|]. pose proof (span_digits_all _ rest Hall Hr) as Hsp.
    rewrite Hs in Hsp |- *. cbn [app scan_int]. unfold in_range in Hc. gobool.
    replace (c =? 48) with false by lia. unfold in_range. replace (49 <=? c) with true by lia.
    replace (c <=? 57) with true by lia. cbn [andb]. unfold some_digits. cbn [app] in Hsp. by rewrite Hsp. }
  destruct (string_bytes (itoa n)) as [|c r] eqn:Hs; [done|].
  unfold scan_number. cbn [app]. apply Forall_cons in Hall as [Hc _]. unfold is_digit, in_range in Hc. gobool.
  replace (c =? 45) with false by lia. cbn [app] in Hi. rewrite Hi. cbn [mbind option_bind fst snd].
  assert (scan_frac rest = Some ([], rest) ∧ scan_exp rest = Some ([], rest)) as [-> He].
  { destruct rest as [|d rest]; [done|]. by destruct Hr as [->|[->| ->]]. }
  cbn [mbind option_bind fst snd]. rewrite He. cbn. by rewrite !app_nil_r.
Qed.

(** The first byte of a value. *)
Definition value_byte (c : Z) : Prop := c ∈ [110; 116; 102; 34; 91; 123] ∨ is_digit c = true.
Lemma marshal_head v : plain_json v → ∃ c r, json_Marshal v = c :: r ∧ value_byte c.
Proof.
  intros [|b|n Hn|s Hs|l Hl|m Hk Hp Hm]; cbn [json_Marshal].
  - exists 110, (string_bytes "ull"). split; [done|]. left. set_solver.
  - destruct b; eexists _, _; (split; [done|]); left; set_solver.
  - unfold json_int. replace (n <? 0) with false by lia.
    destruct (itoa_digits n) as (_ & Hall & Hne & _); [unfold max_int64, max_uint64 in *; lia|].
    destruct (string_bytes (itoa n)) as [|c r]; [done|]. apply Forall_cons in Hall as [Hc _].
    exists c, r. split; [done|by right].
  - rewrite json_text_head. eexists _, _. split; [done|]. left. set_solver.
  - eexists _, _. split; [done|]. left. set_solver.
  - eexists _, _. split; [done|]. left. set_solver.
Qed.
Lemma value_byte_tests c :
  value_byte c → json_space c = false ∧ (c =? 93) = false ∧ (c =? 125) = false ∧ (c =? 58) = false ∧ (c =? 44) = false.
Proof.
  unfold value_byte, is_digit, in_range, json_space. rewrite !elem_of_cons, elem_of_nil. gobool. lia.
Qed.

Lemma skip_space_value c r : value_byte c → skip_space (c :: r) = c :: r.
Proof. intros Hc. cbn. by destruct (value_byte_tests c Hc) as [-> _]. Qed.
Lemma skip_space_marshal v rest : plain_json v → skip_space (json_Marshal v ++ rest) = json_Marshal v ++ rest.
Proof. intros Hv. destruct (marshal_head v Hv) as (c & r & -> & Hc). by apply skip_space_value. Qed.

Definition is_scalar (v : json) : bool := match v with JArray _ | JObject _ => false | _ => true end.
Lemma parse_scalar_marshal v rest :
  plain_json v → is_scalar v = true → stops rest →
  parse_scalar (json_Marshal v ++ rest) = Some (value_of v, rest).
Proof.
  intros Hv Hs Hr. destruct Hv as [|b|n Hn|s Hp| |]; try done; cbn [json_Marshal value_of].
  - by destruct b.
  - unfold json_int. replace (n <? 0) with false by lia. pose proof (scan_number_int n rest Hn Hr) as Hsc.
    destruct (itoa_digits n) as (_ & Hall & Hne & _); [unfold max_int64, max_uint64 in *; lia|].
    destruct (string_bytes (itoa n)) as [|c r] eqn:Htxt; [done|]. apply Forall_cons in Hall as [Hc _].
    unfold is_digit, in_range in Hc. gobool. cbn [app parse_scalar] in Hsc |- *.
    replace (c =? 34) with false by lia. replace (c =? 116) with false by lia. replace (c =? 102) with false by lia.
    replace (c =? 110) with false by lia. rewrite Hsc. done.
  - pose proof (parse_string_text s rest Hp) as Hst. rewrite json_text_head in Hst |- *.
    cbn [app parse_scalar Z.eqb Pos.eqb] in Hst |- *. rewrite Hst. done.
Qed.
Lemma scalar_not_open v : plain_json v → is_scalar v = true →
  ∃ c r, json_Marshal v = c :: r ∧ value_byte c ∧ (c =? 91) = false ∧ (c =? 123) = false.
Proof.
  intros Hv Hs. destruct Hv as [|b|n Hn|s Hp| |]; try done; cbn [json_Marshal].
  - eexists _, _. split; [done|]. split; [|done]. left. set_solver.
  - destruct b; eexists _, _; (split; [done|]); (split; [|done]); left; set_solver.
  - destruct (marshal_head (JInt n)) as (c & r & Hh & Hc); [by constructor|]. cbn in Hh.
    unfold json_int in *. replace (n <? 0) with false in * by lia.
    destruct (itoa_digits n) as (_ & Hall & Hne & _); [unfold max_int64, max_uint64 in *; lia|].
    destruct (string_bytes (itoa n)) as [|c' r'] eqn:Htxt; [done|]. apply Forall_cons in Hall as [Hd _].
    exists c', r'. split; [done|]. split; [by right|]. unfold is_digit, in_range in Hd. gobool. lia.
  - rewrite json_text_head. eexists _, _. split; [done|]. split; [|done]. left. set_solver.
Qed.

Lemma map_put_fresh m k v : k ∉ m.*1 → map_put k v m = m ++ [(k, v)].
Proof.
  induction m as [|[k' v'] m IH]; intros Hk; [done|]. cbn in Hk |- *. apply not_elem_of_cons in Hk as [Hk Hm].
  rewrite bool_decide_false by done. by rewrite IH.
Qed.
Lemma build_map m1 m2 :
  NoDup (m1 ++ m2).*1 → foldl (λ m kv, map_put kv.1 kv.2 m) m1 m2 = m1 ++ m2.
Proof.
  revert m1. induction m2 as [|[k v] m2 IH]; intros m1 Hn; [by rewrite app_nil_r|]. cbn [foldl fst snd].
  rewrite map_put_fresh.
  - rewrite IH by by rewrite <- app_assoc. by rewrite <- app_assoc.
  - rewrite fmap_app in Hn. apply NoDup_app in Hn as (_ & Hd & _). intros Hin. apply (Hd k Hin). left.
Qed.

Definition reads_back (v : json) : Prop := plain_json v → ∀ fuel rest,
  (length (json_Marshal v) < fuel)%nat → stops rest →
  parse_value fuel (json_Marshal v ++ rest) = Some (value_of v, rest).

Lemma parse_items_marshal l fuel rest :
  Forall reads_back l → Forall plain_json l → l ≠ [] → (length (commas (json_Marshal <$> l)) + 1 < fuel)%nat →
  parse_items fuel (commas (json_Marshal <$> l) ++ 93 :: rest) = Some (value_of <$> l, rest).
Proof.
  intros Hrb. revert fuel. induction Hrb as [|v l Hv _ IH]; intros fuel Hp Hne Hf; [done|].
  apply Forall_cons in Hp as [Hpv Hpl]. destruct fuel as [|f]; [lia|]. cbn [parse_items].
  destruct l as [|v' l].
  - cbn [fmap list_fmap commas] in Hf |- *. rewrite (Hv Hpv) by (lia || by right; left). done.
  - change (commas (json_Marshal <$> v :: v' :: l)) with (json_Marshal v ++ [44] ++ commas (json_Marshal <$> v' :: l)) in Hf |- *.
    rewrite !length_app in Hf. cbn [length] in Hf. rewrite <- !app_assoc.
    destruct (marshal_head v Hpv) as (c & r & Hh & _). assert (0 < length (json_Marshal v))%nat by (rewrite Hh; cbn; lia).
    rewrite (Hv Hpv) by (lia || by left). cbn [mbind option_bind snd fst app skip_space].
    change (json_space 44) with false. cbn [Z.eqb Pos.eqb]. rewrite IH by (done || lia). done.
Qed.

Definition member_text (kv : string * json) : list Z := json_text kv.1 ++ [58] ++ json_Marshal kv.2.
Lemma parse_members_marshal m fuel rest :
  Forall (λ kv, reads_back kv.2) m → Forall (λ kv, printable kv.1) m → Forall (λ kv, plain_json kv.2) m → m ≠ [] →
  (length (commas (member_text <$> m)) + 1 < fuel)%nat →
  parse_members fuel (commas (member_text <$> m) ++ 125 :: rest) = Some ((λ kv, (kv.1, value_of kv.2)) <$> m, rest).
Proof.
  intros Hrb. revert fuel. induction Hrb as [|[k v] m Hv _ IH]; intros fuel Hk Hp Hne Hf; [done|].
  apply Forall_cons in Hp as [Hpv Hpl], Hk as [Hkk Hkm]. cbn [fst snd] in *. destruct fuel as [|f]; [lia|]. cbn [parse_members].
  assert (∀ t, skip_space (member_text (k, v) ++ t) = member_text (k, v) ++ t) as Hsk.
  { intros t. unfold member_text. cbn [fst]. by rewrite json_text_head. }
  assert (length (json_Marshal v) + 1 ≤ length (member_text (k, v)))%nat as Hlen.
  { unfold member_text. rewrite !length_app. cbn [snd length]. lia. }
  destruct m as [|[k' v'] m].
  - cbn [fmap list_fmap commas] in Hf |- *. rewrite Hsk. unfold member_text. cbn [fst snd]. rewrite <- !app_assoc.
    rewrite parse_string_text by done. cbn [mbind option_bind snd fst app skip_space].
    change (json_space 58) with false. cbn [Z.eqb Pos.eqb negb].
    rewrite (Hv Hpv) by (lia || by right; right). done.
  - change (commas (member_text <$> (k, v) :: (k', v') :: m))
      with (member_text (k, v) ++ [44] ++ commas (member_text <$> (k', v') :: m)) in Hf |- *.
    rewrite !length_app in Hf. cbn [length] in Hf. rewrite <- !app_assoc, Hsk. unfold member_text at 1. cbn [fst snd].
    rewrite <- !app_assoc, parse_string_text by done. cbn [mbind option_bind snd fst app skip_space].
    change (json_space 58) with false. cbn [Z.eqb Pos.eqb negb].
    rewrite (Hv Hpv) by (lia || by left). cbn [mbind option_bind snd fst app skip_space].
    change (json_space 44) with false. cbn [Z.eqb Pos.eqb]. rewrite IH by (done || lia). done.
Qed.

(** Decode reads back the text of a value, wherever it stands. *)
Lemma parse_value_marshal v : reads_back v.
Proof.
  assert (∀ v, is_scalar v = true → reads_back v) as Hsc.
  { intros w Hs Hw fuel rest Hf Hr. destruct fuel as [|f]; [lia|]. cbn [parse_value].
    rewrite skip_space_marshal by done. pose proof (parse_scalar_marshal w rest Hw Hs Hr) as Hp.
    destruct (scalar_not_open w Hw Hs) as (c & r & Hh & _ & H1 & H2). rewrite Hh in Hp |- *.
    cbn [app] in Hp |- *. by rewrite H1, H2. }
  induction v as [| | | |l IH|m IH] using json_nested_ind; try by apply Hsc.
  - intros Hv fuel rest Hf Hr. inversion Hv as [| | | |? Hl|]; subst. destruct fuel as [|f]; [lia|].
    cbn [json_Marshal] in Hf |- *. rewrite !length_app in Hf. cbn [length] in Hf. rewrite <- !app_assoc.
    cbn [app parse_value skip_space]. change (json_space 91) with false. cbn [Z.eqb Pos.eqb].
    destruct l as [|v l]; [done|]. apply Forall_cons in Hl as [Hv1 Hl].
    pose proof (parse_items_marshal (v :: l) f rest IH ltac:(by constructor) ltac:(done) ltac:(lia)) as Hi.
    destruct (marshal_head v Hv1) as (c & r & Hh & Hc).
    assert (∃ t, commas (json_Marshal <$> v :: l) = c :: t) as [t Ht].
    { destruct l; cbn [fmap list_fmap commas]; rewrite Hh; cbn [app]; eauto. }
    rewrite Ht in Hi |- *. cbn [app] in Hi |- *. rewrite skip_space_value by done.
    destruct (value_byte_tests c Hc) as (_ & -> & _). rewrite Hi. done.
  - intros Hv fuel rest Hf Hr. inversion Hv as [| | | | |? Hn Hk Hm]; subst. destruct fuel as [|f]; [lia|].
    change (json_Marshal (JObject m)) with ([123] ++ commas (member_text <$> m) ++ [125]) in Hf |- *.
    rewrite !length_app in Hf. cbn [length] in Hf. rewrite <- !app_assoc.
    cbn [app parse_value skip_space]. change (json_space 123) with false. cbn [Z.eqb Pos.eqb].
    destruct m as [|[k v] m]; [done|].
    pose proof (parse_members_marshal ((k, v) :: m) f rest IH Hk Hm ltac:(done) ltac:(lia)) as Hi.
    apply Forall_cons in Hk as [Hk _].
    assert (∃ t, commas (member_text <$> (k, v) :: m) = 34 :: t) as [t Ht].
    { destruct m; cbn [fmap list_fmap commas]; unfold member_text; cbn [fst]; rewrite json_text_head;
        cbn [app]; eauto. }
    rewrite Ht in Hi |- *. cbn [app] in Hi |- *. rewrite skip_space_value by (left; set_solver).
    cbn [Z.eqb Pos.eqb]. rewrite Hi. cbn [value_of]. set (l := _ <$> (k, v) :: m).
    assert (NoDup l.*1) as Hnd by (unfold l; rewrite <- list_fmap_compose; exact Hn).
    cbn [fmap option_fmap option_map fst snd]. by rewrite (build_map [] l Hnd).
Qed.
Lemma Decode_marshal v : plain_json v → Decode (json_Marshal v) = Some (value_of v).
Proof.
  intros Hv. unfold Decode. rewrite <- (app_nil_r (json_Marshal v)) at 2.
  rewrite parse_value_marshal by (done || unfold json_fuel; lia). done.
Qed.

(** ** Fuel *)
(** What a parser leaves is shorter than what it was given. *)
Definition shrinks {A} (s : list Z) (o : option (A * list Z)) : Prop :=
  match o with Some (_, r) => (length r < length s)%nat | None => True end.
Lemma shrinks_fmap {A B} (g : A → B) (s : list Z) (o : option (A * list Z)) :
  shrinks s o → shrinks s ((λ p, (g p.1, p.2)) <$> o).
Proof. by destruct o as [[]|]. Qed.
Lemma shrinks_le {A} (s s' : list Z) (o : option (A * list Z)) :
  shrinks s o → (length s ≤ length s')%nat → shrinks s' o.
Proof. destruct o as [[a r]|]; cbn; [lia|done]. Qed.
Lemma skip_space_length s : (length (skip_space s) ≤ length s)%nat.
Proof. induction s as [|c s IH]; cbn; [done|]. destruct (json_space c); cbn; lia. Qed.

Lemma scan_string_shrinks f s : shrinks s (scan_string f s).
Proof.
  revert s. induction f as [|f IH]; intros s; [done|]. cbn [scan_string]. destruct s as [|c r]; [done|].
  assert (∀ (t : list Z) (g : list Z → list Z), (length t ≤ length r)%nat → shrinks (c :: r) ((λ p : list Z * list Z, (g p.1, p.2)) <$> scan_string f t)) as Hstep.
  { intros t g Ht. apply (shrinks_fmap g). eapply shrinks_le; [apply IH|]. cbn. lia. }
  destruct (c =? 34); [cbn; lia|]. destruct (c =? 92).
  - destruct r as [|e r1]; [done|]. destruct (simple_escape e); [apply Hstep; cbn; lia|].
    destruct (negb _); [done|]. destruct r1 as [|h1 [|h2 [|h3 [|h4 r2]]]]; try done.
    destruct (hex4 h1 h2 h3 h4) as [u|]; [|done]. cbn [mbind option_bind].
    destruct (in_range _ _ u); [|apply Hstep; cbn; lia].
    destruct (next_escape r2) as [[u2 r3]|] eqn:Hn; [|apply Hstep; cbn; lia].
    assert (length r3 ≤ length r2)%nat.
    { unfold next_escape in Hn. repeat case_match; simplify_option_eq; cbn; lia. }
    destruct (surrogate_pair u u2); apply Hstep; cbn; lia.
  - destruct (c <? 32); [done|]. apply Hstep. done.
Qed.
Lemma parse_string_shrinks s : shrinks s (parse_string s).
Proof.
  destruct s as [|c r]; [done|]. unfold parse_string. destruct (c =? 34); [|done].
  apply (shrinks_fmap string_of_bytes). eapply shrinks_le; [apply scan_string_shrinks|]. cbn. lia.
Qed.
Lemma span_digits_length s a b : span_digits s = (a, b) → (length a + length b = length s)%nat.
Proof.
  revert a b. induction s as [|c r IH]; intros a b; cbn; [by intros [= <- <-]|].
  destruct (is_digit c); [|by intros [= <- <-]]. destruct (span_digits r) as [a' b']. intros [= <- <-].
  cbn. rewrite <- (IH a' b' eq_refl). lia.
Qed.
Lemma some_digits_shrinks s : shrinks s (some_digits s).
Proof.
  unfold some_digits. destruct (span_digits s) as [[|d a] b] eqn:Hs; [done|].
  apply span_digits_length in Hs. cbn in *. lia.
Qed.
Lemma scan_number_shrinks s : shrinks s (scan_number s).
Proof.
  unfold scan_number.
  assert (∀ t i, scan_int t = Some i → (length i.2 < length t)%nat) as Hint.
  { intros [|c r] i; [done|]. cbn [scan_int]. destruct (c =? 48); [intros [= <-]; cbn; lia|].
    destruct (in_range _ _ _); [|done]. intros Hi. pose proof (some_digits_shrinks (c :: r)) as Hs.
    rewrite Hi in Hs. by destruct i. }
  assert (∀ t i, scan_frac t = Some i → (length i.2 ≤ length t)%nat) as Hfrac.
  { intros [|c r] i; cbn [scan_frac]; [by intros [= <-]|]. destruct (c =? 46); [|by intros [= <-]].
    pose proof (some_digits_shrinks r) as Hs. destruct (some_digits r) as [[]|]; [|done]. intros [= <-]. cbn in *. lia. }
  assert (∀ t i, scan_exp t = Some i → (length i.2 ≤ length t)%nat) as Hexp.
  { intros [|c r] i; cbn [scan_exp]; [by intros [= <-]|]. destruct (_ || _); [|by intros [= <-]].
    destruct r as [|g r']; [done|]. pose proof (some_digits_shrinks r') as Hs.
    pose proof (some_digits_shrinks (g :: r')) as Hs'. destruct (_ || _).
    - destruct (some_digits r') as [[]|]; [|done]. intros [= <-]. cbn in *. lia.
    - destruct (some_digits (g :: r')) as [[]|]; [|done]. intros [= <-]. cbn in *. lia. }
  assert (∃ sign t, match s with c :: r => if c =? 45 then ([45], r) else ([], s) | [] => ([], []) end = (sign, t)
    ∧ (length t ≤ length s)%nat) as (sign & t & -> & Ht).
  { destruct s as [|c r]; [by exists [], []|]. destruct (c =? 45); eexists _, _; (split; [done|]); cbn; lia. }
  destruct (scan_int t) as [i|] eqn:Hi; [|done]. cbn [mbind option_bind].
  destruct (scan_frac i.2) as [f|] eqn:Hf; [|done]. cbn [mbind option_bind].
  destruct (scan_exp f.2) as [e|] eqn:He; [|done]. cbn.
  apply Hint in Hi. apply Hfrac in Hf. apply Hexp in He. lia.
Qed.
Lemma after_length p s r : after p s = Some r → (length r + length p = length s)%nat.
Proof.
  revert s. induction p as [|a p IH]; intros s; cbn; [intros [= <-]; lia|].
  destruct s as [|b s]; [done|]. destruct (a =? b); [|done]. intros Hr%IH. cbn. lia.
Qed.
Lemma parse_scalar_shrinks s : shrinks s (parse_scalar s).
Proof.
  destruct s as [|c r]; [done|]. unfold parse_scalar.
  assert (∀ w v, w ≠ [] → shrinks (c :: r) ((λ t, (v : value, t)) <$> after w (c :: r))) as Hafter.
  { intros w v Hw. destruct (after w (c :: r)) as [t|] eqn:Ha; [|done]. apply after_length in Ha.
    destruct w; [done|]. cbn in *. lia. }
  repeat case_match; try by apply Hafter.
  - apply (shrinks_fmap VString), parse_string_shrinks.
  - apply (shrinks_fmap (λ t, VNumber (string_of_bytes t))), scan_number_shrinks.
Qed.

(** What the three parsers read, whatever their fuel. *)
Lemma parse_shrinks f :
  (∀ s, shrinks s (parse_value f s)) ∧ (∀ s, shrinks s (parse_items f s)) ∧ (∀ s, shrinks s (parse_members f s)).
Proof.
  induction f as [|f (IHv & IHi & IHm)]; [done|]. split_and!; intros s; cbn [parse_value parse_items parse_members].
  - pose proof (skip_space_length s) as Hs. destruct (skip_space s) as [|c r]; [done|]. cbn in Hs.
    pose proof (skip_space_length r) as Hr. destruct (c =? 91).
    { destruct (skip_space r) as [|c' r']; [done|]. cbn in Hr. destruct (c' =? 93); [cbn; lia|].
      apply (shrinks_fmap VArray). eapply shrinks_le; [apply IHi|lia]. }
    destruct (c =? 123); [|eapply shrinks_le; [apply parse_scalar_shrinks|cbn; lia]].
    destruct (skip_space r) as [|c' r']; [done|]. cbn in Hr. destruct (c' =? 125); [cbn; lia|].
    apply (shrinks_fmap (λ m, VObject (foldl (λ m kv, map_put kv.1 kv.2 m) [] m))). eapply shrinks_le; [apply IHm|lia].
  - specialize (IHv s). destruct (parse_value f s) as [[v t]|]; [|done]. cbn in IHv |- *.
    pose proof (skip_space_length t). destruct (skip_space t) as [|c r]; [done|]. cbn in *.
    destruct (c =? 93); [cbn; lia|]. destruct (c =? 44); [|done].
    apply (shrinks_fmap (cons v)). eapply shrinks_le; [apply IHi|lia].
  - pose proof (skip_space_length s). pose proof (parse_string_shrinks (skip_space s)) as Hk.
    destruct (parse_string (skip_space s)) as [[k t]|]; [|done]. cbn in Hk |- *.
    pose proof (skip_space_length t). destruct (skip_space t) as [|c r]; [done|]. cbn in *.
    destruct (negb _); [done|]. specialize (IHv r). destruct (parse_value f r) as [[v u]|]; [|done]. cbn in IHv |- *.
    pose proof (skip_space_length u). destruct (skip_space u) as [|c' r']; [done|]. cbn in *.
    destruct (c' =? 125); [cbn; lia|]. destruct (c' =? 44); [|done].
    apply (shrinks_fmap (cons (k, v))). eapply shrinks_le; [apply IHm|lia].
Qed.

(** Beyond twice the length of the text, the fuel does not matter. *)
Lemma parse_fuel f :
  (∀ s f', 2 * length s < f → 2 * length s < f' → parse_value f s = parse_value f' s)%nat ∧
  (∀ s f', 2 * length s + 1 < f → 2 * length s + 1 < f' → parse_items f s = parse_items f' s)%nat ∧
  (∀ s f', 2 * length s + 1 < f → 2 * length s + 1 < f' → parse_members f s = parse_members f' s)%nat.
Proof.
  induction f as [|f (IHv & IHi & IHm)]; [split_and!; intros; lia|].
  split_and!; intros s [|f'] Hf Hf'; try lia; cbn [parse_value parse_items parse_members].
  - pose proof (skip_space_length s) as Hs. destruct (skip_space s) as [|c r]; [done|]. cbn in Hs.
    rewrite (IHi r f'), (IHm r f') by lia. done.
  - rewrite (IHv s f') by lia. pose proof (proj1 (parse_shrinks f') s) as Hl.
    destruct (parse_value f' s) as [[v t]|]; [|done]. cbn in Hl |- *.
    pose proof (skip_space_length t). destruct (skip_space t) as [|c r]; [done|]. cbn in *.
    by rewrite (IHi r f') by lia.
  - pose proof (skip_space_length s). pose proof (parse_string_shrinks (skip_space s)) as Hk.
    destruct (parse_string (skip_space s)) as [[k t]|]; [|done]. cbn in Hk |- *.
    pose proof (skip_space_length t). destruct (skip_space t) as [|c r]; [done|]. cbn in *.
    rewrite (IHv r f') by lia. pose proof (proj1 (parse_shrinks f') r) as Hl.
    destruct (negb _); [done|]. destruct (parse_value f' r) as [[v u]|]; [|done]. cbn in Hl |- *.
    pose proof (skip_space_length u). destruct (skip_space u) as [|c' r']; [done|]. cbn in *.
    by rewrite (IHm r' f') by lia.
Qed.
Lemma parse_value_fuel raw f :
  (json_fuel raw ≤ f)%nat → parse_value f raw = parse_value (json_fuel raw) raw.
Proof. unfold json_fuel. intros Hf. apply (proj1 (parse_fuel f)); lia. Qed.

(** Each token reads a byte. *)
Lemma Token_shrinks d t d' : Token d = Tok t d' → (length (dec_buf d') < length (dec_buf d))%nat.
Proof.
  unfold Token. generalize (dec_tokenState d), (dec_tokenStack d). generalize (dec_buf d).
  induction l as [|c r IH]; intros st stack; [done|]. cbn [Token_at].
  assert (∀ st stack, Token_at st stack r = Tok t d' → (length (dec_buf d') < length (c :: r))%nat) as IH'.
  { intros st' stack' ?%IH. cbn. lia. }
  unfold open_delim, close_delim.
  destruct (json_space c); [apply IH'|]. destruct (c =? 91); [destruct (tokenValueAllowed st); [|done]; intros [= <- <-]; cbn; lia|].
  destruct (c =? 93); [destruct (_ || _); [|done]; destruct stack; [done|]; intros [= <- <-]; cbn; lia|].
  destruct (c =? 123); [destruct (tokenValueAllowed st); [|done]; intros [= <- <-]; cbn; lia|].
  destruct (c =? 125); [destruct (_ || _); [|done]; destruct stack; [done|]; intros [= <- <-]; cbn; lia|].
  destruct (c =? 58); [destruct (same_state _ _); [apply IH'|done]|].
  destruct (c =? 44); [destruct st; done || apply IH'|].
  destruct (_ && _).
  - pose proof (parse_string_shrinks (c :: r)) as Hs. destruct (parse_string (c :: r)) as [[k u]|]; [|done].
    intros [= <- <-]. exact Hs.
  - destruct (negb _); [done|]. pose proof (parse_scalar_shrinks (c :: r)) as Hs.
    destruct (parse_scalar (c :: r)) as [[v u]|]; [|done]. intros [= <- <-]. exact Hs.
Qed.
