(* ===== verification/IpcCodec.v ===== *)
(** * The IPC request codec (internal/ipc/request.go)

    The constructors of the mutation requests, their JSON text, and the strict
    decoder with its token scan. A function that returns an ErrorCode next to its
    value is a result whose error carries the code. *)

From S2P Require Import Prelude GoStd Sha256 Netip Identity NetipParse CoreModel Json JsonDecode Firewall Ipc.

(** ** Limits and errors *)
Definition maxRequestBytes : Z := 64 * 1024.
Definition maxJSONDepth : Z := 8.
Definition maxJSONTokens : Z := 4096.
Definition maxPlanPrefixes : nat := 1024.
Abbreviation ErrorCode := string.
Definition ErrorCodeRequestTooLarge : ErrorCode := "request_too_large".
Definition ErrorCodeInvalidUTF8 : ErrorCode := "invalid_utf8".
Definition ErrorCodeDuplicateKey : ErrorCode := "duplicate_key".
Definition ErrorCodeMaxDepthExceeded : ErrorCode := "max_depth_exceeded".
Definition ErrorCodeTokenLimitExceeded : ErrorCode := "token_limit_exceeded".
Definition ErrorCodeInvalidJSON : ErrorCode := "invalid_json".
Definition ErrorCodeSchemaRejected : ErrorCode := "schema_rejected".
Definition ErrorCodePrefixLimit : ErrorCode := "prefix_limit".
Definition ErrorCodeNoncanonicalPrefix : ErrorCode := "noncanonical_prefix".
Definition ErrorCodeNoncanonicalOrder : ErrorCode := "noncanonical_order".
Definition ErrorCodeProtectedPolicyMissing : ErrorCode := "protected_policy_missing".
Definition ErrorCodeInvalidTimeout : ErrorCode := "invalid_timeout".
Definition ErrorCodeProtectedTarget : ErrorCode := "protected_target".
Definition ErrorCodeInvalidScope : ErrorCode := "invalid_scope".
Definition validationError (code : ErrorCode) : error :=
  Typed "ValidationError" [code] (Errorf "ipc request validation failed").
Definition reject_if (bad : bool) (code : ErrorCode) : result unit := fail_if bad (validationError code).
Definition schema_if (bad : bool) : result unit := reject_if bad ErrorCodeSchemaRejected.

(** ** Constructors of the requests *)
Definition validDigest (value : string) : bool :=
  (String.length value =? 64)%nat && forallb lower_hex (string_bytes value).
Definition newPlanBase (basisSnapshotDigest : string) (revision : Z) : result ipc.planBase :=
  schema_if (negb (validDigest basisSnapshotDigest) || (revision <=? 0));;
  Ok (ipc.MkPlanBase ipc.ownerVersionV1 basisSnapshotDigest revision).
Definition canonicalPrefix (value : string) : result Prefix :=
  match ParsePrefix value with
  | Err _ => Err (validationError ErrorCodeNoncanonicalPrefix)
  | Ok prefix =>
    reject_if (negb (bool_decide (prefix = Masked prefix)) || negb (bool_decide (Prefix_String prefix = value)))
              ErrorCodeNoncanonicalPrefix;;
    Ok prefix
  end.

(** The loop of validatedPrefixList: [seen] holds the texts before, the latest
    first. *)
Fixpoint validate_prefixes (seen : list string) (values : list Prefix) : result (list Prefix) :=
  match values with
  | [] => Ok []
  | value :: rest =>
    prefix ← canonicalPrefix (Prefix_String value);
    let text := Prefix_String prefix in
    schema_if (bool_decide (text ∈ seen));;
    reject_if (match seen with previous :: _ => String.ltb text previous | [] => false end)
              ErrorCodeNoncanonicalOrder;;
    prefixes ← validate_prefixes (text :: seen) rest;
    Ok (prefix :: prefixes)
  end.
Definition validatedPrefixList (values : list Prefix) : result (list Prefix) := validate_prefixes [] values.

Definition validScope (s : ipc.Scope) : bool := one_of s [ipc.ScopeInput; ipc.ScopeForward].
Definition scopes_out_of_order (scopes : list ipc.Scope) : bool :=
  match scopes with
  | [a; b] => negb (bool_decide (a = ipc.ScopeInput)) || negb (bool_decide (b = ipc.ScopeForward))
  | _ => false
  end.
Definition validatedScopeList (values : list ipc.Scope) : result (list ipc.Scope) :=
  schema_if ((length values <? 1)%nat || (2 <? length values)%nat);;
  schema_if (negb (forallb validScope values) || negb (bool_decide (NoDup values)));;
  reject_if (scopes_out_of_order values) ErrorCodeInvalidScope;;
  Ok values.

Definition NewApplyInfrastructureRequest (basisSnapshotDigest : string) (infrastructureRevision : Z)
    : result ipc.infrastructurePlan :=
  base ← newPlanBase basisSnapshotDigest infrastructureRevision;
  Ok (ipc.MkInfrastructurePlan base 1).
Definition NewApplyPolicyRequest (basisSnapshotDigest : string) (policyRevision : Z)
    (allowlist protectedTargets : list Prefix) : result ipc.policyPlan :=
  base ← newPlanBase basisSnapshotDigest policyRevision;
  schema_if ((maxPlanPrefixes <? length allowlist)%nat || (length protectedTargets <? 2)%nat
             || (maxPlanPrefixes <? length protectedTargets)%nat);;
  reject_if (maxPlanPrefixes <? length allowlist + length protectedTargets)%nat ErrorCodePrefixLimit;;
  validatedAllowlist ← validatedPrefixList allowlist;
  validatedProtected ← validatedPrefixList protectedTargets;
  reject_if (negb (hasMandatoryProtectedTargets validatedProtected)) ErrorCodeProtectedPolicyMissing;;
  Ok (ipc.MkPolicyPlan base validatedAllowlist validatedProtected).

Definition invalid_timeout (membership : ipc.Membership) (timeoutMode : ipc.TimeoutMode) (hasExpiry : bool) : bool :=
  (bool_decide (membership = ipc.MembershipAbsent)
   && (negb (bool_decide (timeoutMode = ipc.TimeoutModeNone)) || hasExpiry))
  || (bool_decide (timeoutMode = ipc.TimeoutModeNative) && negb hasExpiry)
  || (bool_decide (timeoutMode = ipc.TimeoutModeNone) && hasExpiry).
Definition protects_loopback (target : Prefix) : bool := Overlaps target loopback4 || Overlaps target loopback6.
Definition NewApplyTargetRequest (basisSnapshotDigest : string) (targetGeneration : Z) (target : Prefix)
    (membership : ipc.Membership) (timeoutMode : ipc.TimeoutMode) (effectiveUntilUnixMicro : Z)
    (hasEffectiveUntil : bool) (scopes : list ipc.Scope) : result ipc.targetPlan :=
  base ← newPlanBase basisSnapshotDigest targetGeneration;
  canonicalTarget ← canonicalPrefix (Prefix_String target);
  reject_if (protects_loopback canonicalTarget) ErrorCodeProtectedTarget;;
  schema_if (negb (one_of membership [ipc.MembershipPresent; ipc.MembershipAbsent]));;
  schema_if (negb (one_of timeoutMode [ipc.TimeoutModeNone; ipc.TimeoutModeNative]));;
  schema_if (hasEffectiveUntil && (effectiveUntilUnixMicro <=? 0));;
  reject_if (negb hasEffectiveUntil && negb (effectiveUntilUnixMicro =? 0)) ErrorCodeInvalidTimeout;;
  validatedScopes ← validatedScopeList scopes;
  reject_if (invalid_timeout membership timeoutMode hasEffectiveUntil) ErrorCodeInvalidTimeout;;
  Ok (ipc.MkTargetPlan base canonicalTarget membership timeoutMode effectiveUntilUnixMicro hasEffectiveUntil
        validatedScopes).

(** ** The wire form of a mutation request *)
Definition request_wire (operation : ipc.Operation) (payload : json) : json :=
  JObject [("version", JInt 1); ("operation", JString operation); ("payload", payload)].
Definition plan_payload (domain : ipc.Domain) (base : ipc.planBase) (revision : string) (operation : json) : json :=
  JObject [("domain", JString domain); ("owner_version", JString (ipc.pb_ownerVersion base));
           ("basis_snapshot_digest", JString (ipc.pb_basisSnapshotDigest base));
           (revision, JInt (ipc.pb_revision base)); ("operations", JArray [operation])].
Definition infrastructureOperation (p : ipc.infrastructurePlan) : json :=
  JObject [("kind", JString "ensure_infrastructure"); ("schema_version", JInt (ipc.il_schemaVersion p))].
Definition policyOperation (p : ipc.policyPlan) : json :=
  JObject [("kind", JString "replace_policy"); ("allowlist", json_strings (prefixStrings (ipc.pl_allowlist p)));
           ("protected_targets", json_strings (prefixStrings (ipc.pl_protectedTargets p)))].
Definition targetOperation (p : ipc.targetPlan) : json :=
  JObject [("kind", JString "set_target"); ("target", JString (Prefix_String (ipc.tl_target p)));
           ("membership", JString (ipc.tl_membership p)); ("timeout_mode", JString (ipc.tl_timeoutMode p));
           ("effective_until_unix_us", if ipc.tl_hasEffectiveUntil p then JInt (ipc.tl_effectiveUntilUnixMicro p)
                                       else JNull);
           ("scopes", json_strings (ipc.tl_scopes p))].

Definition schema_rejected {A} : result A := Err (validationError ErrorCodeSchemaRejected).
Definition applyRequestToWire (plan : ipc.ManagedPlan) : result json :=
  match plan with
  | ipc.InfrastructurePlan (Some p) =>
    let b := ipc.il_base p in
    schema_if (negb (bool_decide (ipc.pb_ownerVersion b = ipc.ownerVersionV1)) || negb (ipc.il_schemaVersion p =? 1));;
    validated ← NewApplyInfrastructureRequest (ipc.pb_basisSnapshotDigest b) (ipc.pb_revision b);
    Ok (request_wire ipc.OperationApplyManagedPlan
          (plan_payload ipc.DomainInfrastructure (ipc.il_base validated) "infrastructure_revision"
             (infrastructureOperation validated)))
  | ipc.PolicyPlan (Some p) =>
    let b := ipc.pl_base p in
    schema_if (negb (bool_decide (ipc.pb_ownerVersion b = ipc.ownerVersionV1)));;
    validated ← NewApplyPolicyRequest (ipc.pb_basisSnapshotDigest b) (ipc.pb_revision b) (ipc.pl_allowlist p)
                  (ipc.pl_protectedTargets p);
    Ok (request_wire ipc.OperationApplyManagedPlan
          (plan_payload ipc.DomainPolicy (ipc.pl_base validated) "policy_revision" (policyOperation validated)))
  | ipc.TargetPlan (Some p) =>
    let b := ipc.tl_base p in
    schema_if (negb (bool_decide (ipc.pb_ownerVersion b = ipc.ownerVersionV1)));;
    validated ← NewApplyTargetRequest (ipc.pb_basisSnapshotDigest b) (ipc.pb_revision b) (ipc.tl_target p)
                  (ipc.tl_membership p) (ipc.tl_timeoutMode p) (ipc.tl_effectiveUntilUnixMicro p)
                  (ipc.tl_hasEffectiveUntil p) (ipc.tl_scopes p);
    Ok (request_wire ipc.OperationApplyManagedPlan
          (plan_payload ipc.DomainTarget (ipc.tl_base validated) "target_generation" (targetOperation validated)))
  | _ => schema_rejected
  end.
Definition mutationRequestToWire (request : ipc.MutationRequest) : result json :=
  match request with
  | ipc.ApplyManagedPlanRequest (Some (Some plan)) => applyRequestToWire plan
  | ipc.RemoveManagedInfrastructureRequest (Some expectedOwnerVersion) =>
    schema_if (negb (bool_decide (expectedOwnerVersion = ipc.ownerVersionV1)));;
    Ok (request_wire ipc.OperationRemoveManagedInfrastructure
          (JObject [("expected_owner_version", JString ipc.ownerVersionV1)]))
  | _ => schema_rejected
  end.

(** ** The token scan *)
(** scanJSON and scanMutationResponseJSON are the same code with their own
    limits and error type. *)
Record scan_limits := MkLimits { lim_depth : Z; lim_tokens : Z; lim_error : string → error }.
Definition request_limits : scan_limits := MkLimits maxJSONDepth maxJSONTokens validationError.

Section scan.
Context (L : scan_limits).

(** One token, counted. *)
Definition next_token (d : decoder) (tokens : Z) : result (token * decoder * Z) :=
  match Token d with
  | Tok t d' =>
    fail_if (lim_tokens L <? tokens + 1) (lim_error L ErrorCodeTokenLimitExceeded);;
    Ok (t, d', tokens + 1)
  | _ => Err (lim_error L ErrorCodeInvalidJSON)
  end.
Definition is_delim (t : token) (c : Z) : bool := match t with Delim x => x =? c | Scalar _ => false end.

Fixpoint scan_value (fuel : nat) (parentDepth : Z) (d : decoder) (tokens : Z) : result (decoder * Z) :=
  match fuel with
  | O => Err (lim_error L ErrorCodeInvalidJSON)
  | S f =>
    x ← next_token d tokens;
    let '(t, d, tokens) := x in
    match t with
    | Scalar _ => Ok (d, tokens)
    | Delim c =>
      let depth := parentDepth + 1 in
      fail_if (lim_depth L <? depth) (lim_error L ErrorCodeMaxDepthExceeded);;
      r ← (if c =? 123 then scan_members f depth d tokens []
           else if c =? 91 then scan_items f depth d tokens
           else Err (lim_error L ErrorCodeInvalidJSON));
      y ← next_token r.1 r.2;
      let '(closing, d, tokens) := y in
      fail_if (negb (is_delim closing (if c =? 91 then 93 else 125))) (lim_error L ErrorCodeInvalidJSON);;
      Ok (d, tokens)
    end
  end
with scan_members (fuel : nat) (depth : Z) (d : decoder) (tokens : Z) (seen : list string) : result (decoder * Z) :=
  match fuel with
  | O => Err (lim_error L ErrorCodeInvalidJSON)
  | S f =>
    if More d then
      x ← next_token d tokens;
      let '(t, d, tokens) := x in
      match t with
      | Scalar (VString key) =>
        fail_if (bool_decide (key ∈ seen)) (lim_error L ErrorCodeDuplicateKey);;
        r ← scan_value f depth d tokens;
        scan_members f depth r.1 r.2 (key :: seen)
      | _ => Err (lim_error L ErrorCodeInvalidJSON)
      end
    else Ok (d, tokens)
  end
with scan_items (fuel : nat) (depth : Z) (d : decoder) (tokens : Z) : result (decoder * Z) :=
  match fuel with
  | O => Err (lim_error L ErrorCodeInvalidJSON)
  | S f =>
    if More d then
      r ← scan_value f depth d tokens;
      scan_items f depth r.1 r.2
    else Ok (d, tokens)
  end.

Definition scan_json (raw : list Z) : result unit :=
  r ← scan_value (json_fuel raw) 0 (NewDecoder raw) 0;
  match Token r.1 with EOF => Ok tt | _ => Err (lim_error L ErrorCodeInvalidJSON) end.
End scan.
Definition scanJSONValue := scan_value request_limits.
Definition scanJSON (raw : list Z) : result unit := scan_json request_limits raw.

(** ** Decoding a request *)
(** big.Rat.SetString on the text of a json.Number, as a numerator and a
    denominator; exponents that are out of range or large are refused. *)
Definition rat_exponent (s : list Z) : option Z :=
  match s with
  | [] => Some 0
  | c :: r =>
    if negb ((c =? 101) || (c =? 69)) then None
    else
      let '(negative, digits) := match r with
                                 | g :: r' => if g =? 45 then (true, r') else if g =? 43 then (false, r') else (false, r)
                                 | [] => (false, [])
                                 end in
      if bool_decide (digits = []) || negb (forallb is_digit digits) then None
      else
        let n := undigits 10 ((λ c, c - 48) <$> digits) in
        let n := if (negative : bool) then - n else n in
        if (n <? - 2 ^ 63) || (max_int64 <? n) then None else Some n
  end.
Definition Rat_SetString (text : string) : option (Z * Z) :=
  let s := string_bytes text in
  let '(negative, s) := match s with c :: r => if c =? 45 then (true, r) else (false, s) | [] => (false, []) end in
  let '(int, s) := span_digits s in
  let '(frac, s) := match s with c :: r => if c =? 46 then span_digits r else ([], s) | [] => ([], []) end in
  exp ← rat_exponent s;
  let mantissa := undigits 10 ((λ c, c - 48) <$> int ++ frac) in
  let exp5 := exp - Z.of_nat (length frac) in
  if mantissa =? 0 then Some (0, 1)
  else if 1000000 <? Z.abs exp5 then None
  else
    let signed := if (negative : bool) then - mantissa else mantissa in
    Some (if 0 <=? exp5 then (signed * 10 ^ exp5, 1) else (signed, 10 ^ (- exp5))).

(** A value that is asserted to be of a dynamic type; an absent member is nil. *)
Definition as_string (v : option value) : option string :=
  match v with Some (VString s) => Some s | _ => None end.
Definition as_object (v : option value) : option (list (string * value)) :=
  match v with Some (VObject m) => Some m | _ => None end.
Definition as_array (v : option value) : option (list value) :=
  match v with Some (VArray l) => Some l | _ => None end.
Definition positiveInt64 (v : option value) : option Z :=
  match v with
  | Some (VNumber text) =>
    q ← Rat_SetString text;
    if negb (q.1 mod q.2 =? 0) then None
    else let n := q.1 / q.2 in
    if (n <? - 2 ^ 63) || (max_int64 <? n) || (n <=? 0) then None else Some n
  | _ => None
  end.
(** The integer, or nil. *)
Definition nullablePositiveInt64 (v : option value) : option (option Z) :=
  match v with
  | None | Some VNull => Some None
  | _ => Some <$> positiveInt64 v
  end.

Definition objectShape (m : list (string * value)) (required : list string) : bool :=
  (length m =? length required)%nat && forallb (λ name, negb (is_nil (field name m))) required.
Definition singleOperation (v : option value) : option (list (string * value)) :=
  match as_array v with Some [o] => as_object (Some o) | _ => None end.

(** The characters of a prefix text; its first bytes up to the last slash are of
    an address. *)
Definition address_byte (c : Z) : bool :=
  is_digit c || in_range 65 70 c || in_range 97 102 c || (c =? 58) || (c =? 46).
Definition schemaPrefixString (v : value) : option string :=
  text ← as_string (Some v);
  if (String.length text <? 3)%nat || (64 <? String.length text)%nat then None
  else match cut_last 47 (string_bytes text) with
  | None => None
  | Some (address, bits) =>
    if is_nil (head address) || is_nil (head bits) || (3 <? length bits)%nat
       || negb (forallb address_byte address) || negb (forallb is_digit bits)
    then None else Some text
  end.
(** The loop of schemaPrefixStrings. *)
Fixpoint schema_prefixes (seen : list string) (items : list value) : option (list string) :=
  match items with
  | [] => Some []
  | item :: rest =>
    text ← schemaPrefixString item;
    if bool_decide (text ∈ seen) then None else cons text <$> schema_prefixes (text :: seen) rest
  end.
Definition schemaPrefixStrings (v : option value) (minimum maximum : nat) : option (list string) :=
  items ← as_array v;
  if (length items <? minimum)%nat || (maximum <? length items)%nat then None else schema_prefixes [] items.
Fixpoint schema_scopes (seen : list ipc.Scope) (items : list value) : option (list ipc.Scope) :=
  match items with
  | [] => Some []
  | item :: rest =>
    scope ← as_string (Some item);
    if negb (validScope scope) || bool_decide (scope ∈ seen) then None
    else cons scope <$> schema_scopes (scope :: seen) rest
  end.
Definition schemaScopes (v : option value) : option (list ipc.Scope) :=
  items ← as_array v;
  if (length items <? 1)%nat || (2 <? length items)%nat then None else schema_scopes [] items.

(** sort.StringsAreSorted *)
Fixpoint StringsAreSorted (l : list string) : bool :=
  match l with
  | a :: (b :: _) as r => negb (String.ltb b a) && StringsAreSorted r
  | _ => true
  end.
Definition canonicalPrefixList (values : list string) : result (list Prefix) :=
  reject_if (negb (StringsAreSorted values)) ErrorCodeNoncanonicalOrder;;
  mapM canonicalPrefix values.

Definition or_schema {A} (o : option A) : result A := match o with Some a => Ok a | None => schema_rejected end.
Definition decodePlanBase (payload : list (string * value)) (revisionField : string) : option ipc.planBase :=
  owner ← as_string (field "owner_version" payload);
  digest ← as_string (field "basis_snapshot_digest" payload);
  revision ← positiveInt64 (field revisionField payload);
  if negb (bool_decide (owner = ipc.ownerVersionV1)) || negb (validDigest digest) then None
  else Some (ipc.MkPlanBase owner digest revision).
Definition plan_fields (revision : string) : list string :=
  ["domain"; "owner_version"; "basis_snapshot_digest"; revision; "operations"].
Definition decodeInfrastructurePlan (payload : list (string * value)) : result ipc.ManagedPlan :=
  schema_if (negb (objectShape payload (plan_fields "infrastructure_revision")));;
  base ← or_schema (decodePlanBase payload "infrastructure_revision");
  operation ← or_schema (singleOperation (field "operations" payload));
  schema_if (negb (objectShape operation ["kind"; "schema_version"]));;
  kind ← or_schema (as_string (field "kind" operation));
  schemaVersion ← or_schema (positiveInt64 (field "schema_version" operation));
  schema_if (negb (bool_decide (kind = "ensure_infrastructure")) || negb (schemaVersion =? 1));;
  Ok (ipc.InfrastructurePlan (Some (ipc.MkInfrastructurePlan base schemaVersion))).
Definition decodePolicyPlan (payload : list (string * value)) : result ipc.ManagedPlan :=
  schema_if (negb (objectShape payload (plan_fields "policy_revision")));;
  base ← or_schema (decodePlanBase payload "policy_revision");
  operation ← or_schema (singleOperation (field "operations" payload));
  schema_if (negb (objectShape operation ["kind"; "allowlist"; "protected_targets"]));;
  kind ← or_schema (as_string (field "kind" operation));
  allowlist ← or_schema (schemaPrefixStrings (field "allowlist" operation) 0 maxPlanPrefixes);
  protected ← or_schema (schemaPrefixStrings (field "protected_targets" operation) 2 maxPlanPrefixes);
  schema_if (negb (bool_decide (kind = "replace_policy")));;
  reject_if (maxPlanPrefixes <? length allowlist + length protected)%nat ErrorCodePrefixLimit;;
  parsedAllowlist ← canonicalPrefixList allowlist;
  parsedProtected ← canonicalPrefixList protected;
  reject_if (negb (bool_decide ("127.0.0.0/8" ∈ protected)) || negb (bool_decide ("::1/128" ∈ protected)))
            ErrorCodeProtectedPolicyMissing;;
  Ok (ipc.PolicyPlan (Some (ipc.MkPolicyPlan base parsedAllowlist parsedProtected))).
Definition decodeTargetPlan (payload : list (string * value)) : result ipc.ManagedPlan :=
  schema_if (negb (objectShape payload (plan_fields "target_generation")));;
  base ← or_schema (decodePlanBase payload "target_generation");
  operation ← or_schema (singleOperation (field "operations" payload));
  schema_if (negb (objectShape operation
    ["kind"; "target"; "membership"; "timeout_mode"; "effective_until_unix_us"; "scopes"]));;
  kind ← or_schema (as_string (field "kind" operation));
  targetText ← or_schema (item ← field "target" operation; schemaPrefixString item);
  membership ← or_schema (as_string (field "membership" operation));
  timeoutMode ← or_schema (as_string (field "timeout_mode" operation));
  expiry ← or_schema (nullablePositiveInt64 (field "effective_until_unix_us" operation));
  scopes ← or_schema (schemaScopes (field "scopes" operation));
  schema_if (negb (bool_decide (kind = "set_target")));;
  schema_if (negb (one_of membership [ipc.MembershipPresent; ipc.MembershipAbsent]));;
  schema_if (negb (one_of timeoutMode [ipc.TimeoutModeNone; ipc.TimeoutModeNative]));;
  target ← canonicalPrefix targetText;
  reject_if (protects_loopback target) ErrorCodeProtectedTarget;;
  reject_if (scopes_out_of_order scopes) ErrorCodeInvalidScope;;
  reject_if (invalid_timeout membership timeoutMode (negb (is_nil expiry))) ErrorCodeInvalidTimeout;;
  Ok (ipc.TargetPlan (Some (ipc.MkTargetPlan base target membership timeoutMode (default 0 expiry)
                              (negb (is_nil expiry)) scopes))).
Definition decodeManagedPlan (payload : list (string * value)) : result ipc.ManagedPlan :=
  domain ← or_schema (as_string (field "domain" payload));
  if bool_decide (domain = ipc.DomainInfrastructure) then decodeInfrastructurePlan payload
  else if bool_decide (domain = ipc.DomainPolicy) then decodePolicyPlan payload
  else if bool_decide (domain = ipc.DomainTarget) then decodeTargetPlan payload
  else schema_rejected.

(** The decoded requests. *)
Inductive Request :=
  | ProbeCapabilities
  | SnapshotManaged
  | Mutation (r : ipc.MutationRequest).
Definition decodeRequestObject (root : list (string * value)) : result Request :=
  schema_if (negb (objectShape root ["version"; "operation"; "payload"]));;
  version ← or_schema (positiveInt64 (field "version" root));
  schema_if (negb (version =? 1));;
  operation ← or_schema (as_string (field "operation" root));
  payload ← or_schema (as_object (field "payload" root));
  if bool_decide (operation = ipc.OperationProbeCapabilities) then
    schema_if (negb (length payload =? 0)%nat);; Ok ProbeCapabilities
  else if bool_decide (operation = ipc.OperationSnapshotManaged) then
    schema_if (negb (length payload =? 0)%nat);; Ok SnapshotManaged
  else if bool_decide (operation = ipc.OperationApplyManagedPlan) then
    plan ← decodeManagedPlan payload;
    Ok (Mutation (ipc.ApplyManagedPlanRequest (Some (Some plan))))
  else if bool_decide (operation = ipc.OperationRemoveManagedInfrastructure) then
    schema_if (negb (objectShape payload ["expected_owner_version"]));;
    owner ← or_schema (as_string (field "expected_owner_version" payload));
    schema_if (negb (bool_decide (owner = ipc.ownerVersionV1)));;
    Ok (Mutation (ipc.RemoveManagedInfrastructureRequest (Some owner)))
  else schema_rejected.
Definition DecodeRequest (raw : list Z) : result Request :=
  reject_if (maxRequestBytes <? Z.of_nat (length raw)) ErrorCodeRequestTooLarge;;
  reject_if (negb (utf8_valid raw)) ErrorCodeInvalidUTF8;;
  scanJSON raw;;
  match Decode raw with
  | None => Err (validationError ErrorCodeInvalidJSON)
  | Some (VObject root) => decodeRequestObject root
  | Some _ => schema_rejected
  end.

Definition EncodeMutationRequest (request : ipc.MutationRequest) : result (list Z) :=
  wire ← mutationRequestToWire request;
  let raw := json_Marshal wire in
  decoded ← DecodeRequest raw;
  match decoded with
  | Mutation _ => Ok raw
  | _ => schema_rejected
  end.

Definition sample_digest : string := "9f86d081884c7d659a2feaa0c55ad015a3bf4f1b2b0b822cd15d6c15b0f00a08".
Definition sample_target : ipc.MutationRequest :=
  ipc.ApplyManagedPlanRequest (Some (Some (ipc.TargetPlan (Some
    (ipc.MkTargetPlan (ipc.MkPlanBase ipc.ownerVersionV1 sample_digest 7)
       (PrefixFrom (ip6 0x20010db8000000000000000000000000) 64) ipc.MembershipPresent ipc.TimeoutModeNative
       1700000000000000 true [ipc.ScopeInput; ipc.ScopeForward]))))).
Example encode_sample :
  (raw ← EncodeMutationRequest sample_target; DecodeRequest raw) = Ok (Mutation sample_target).
Proof. vm_compute. reflexivity. Qed.
Definition quoted (s : string) : result Request := DecodeRequest (json_bytes s).
Example decode_errors :
  quoted "{'version':1.0e0,'operation':'ProbeCapabilities','payload':{}}" = Ok ProbeCapabilities ∧
  quoted "{'version':1,'operation':'ProbeCapabilities','payload':{},'version':1}"
    = Err (validationError ErrorCodeDuplicateKey) ∧
  quoted "[[[[[[[[[1]]]]]]]]]" = Err (validationError ErrorCodeMaxDepthExceeded) ∧
  quoted "{'version':1,'operation':'ProbeCapabilities','payload':{}} x" = Err (validationError ErrorCodeInvalidJSON) ∧
  quoted "{'version':0.5,'operation':'ProbeCapabilities','payload':{}}" = Err (validationError ErrorCodeSchemaRejected).
Proof. vm_compute. repeat split. Qed.
