(* ===== verification/IpcRoundtrip.v ===== *)
(** * Round trips of the IPC codec

    The strict decoder accepts what the encoders write and reads back the same
    message, and it accepts nothing that the encoders would not write. *)

From S2P Require Import Prelude GoStd Sha256 Netip Identity NetipParse CoreModel Json JsonDecode Firewall Ipc IpcCodec.

(** ** The token scan of a text that Marshal writes *)
Fixpoint tokens_of (v : json) : Z :=
  match v with
  | JArray l => 2 + foldr Z.add 0 (tokens_of <$> l)
  | JObject m => 2 + foldr Z.add 0 ((λ kv, 1 + tokens_of kv.2) <$> m)
  | _ => 1
  end.
Fixpoint depth_of (v : json) : Z :=
  match v with
  | JArray l => 1 + foldr Z.max 0 (depth_of <$> l)
  | JObject m => 1 + foldr Z.max 0 ((λ kv, depth_of kv.2) <$> m)
  | _ => 0
  end.

(** Elements with a comma before each. *)
Definition comma_text (l : list (list Z)) : list Z := l ≫= λ y, 44 :: y.
Lemma comma_text_cons x l : comma_text (x :: l) = 44 :: x ++ comma_text l.
Proof. done. Qed.
Lemma stops_tail l c rest : c = 93 ∨ c = 125 → stops (comma_text l ++ c :: rest).
Proof. intros Hc. destruct l; [by right|by left]. Qed.
Lemma commas_cons x l : commas (x :: l) = x ++ comma_text l.
Proof.
  revert x. induction l as [|y l IH]; intros x; [by rewrite app_nil_r|].
  change (commas (x :: y :: l)) with (x ++ [44] ++ commas (y :: l)). by rewrite IH.
Qed.

Section scan.
Context (L : scan_limits).
Implicit Types (st : tokenState) (stack : list tokenState).

Lemma scan_value_comma f pd st st' stack s n c :
  (c = 44 ∧ st = tokenArrayComma ∧ st' = tokenArrayValue) ∨ (c = 58 ∧ st = tokenObjectColon ∧ st' = tokenObjectValue) →
  scan_value L f pd (MkDecoder (c :: s) st stack) n = scan_value L f pd (MkDecoder s st' stack) n.
Proof. destruct f as [|f]; [done|]. by intros [(-> & -> & ->)|(-> & -> & ->)]. Qed.

(** Beyond twice the bytes that are left, the fuel of the scan does not matter:
    each token reads a byte. *)
Lemma next_token_shrinks d n t d' n' :
  next_token L d n = Ok (t, d', n') → (length (dec_buf d') < length (dec_buf d))%nat.
Proof.
  unfold next_token. destruct (Token d) as [| |t0 d0] eqn:Ht; [done|done|].
  intros (u & _ & Hr)%result_bind_Ok. injection Hr as -> -> _. by eapply Token_shrinks.
Qed.
Definition scan_shrinks (d : decoder) (o : result (decoder * Z)) (k : nat) : Prop :=
  match o with Ok (d', _) => (length (dec_buf d') + k ≤ length (dec_buf d))%nat | Err _ => True end.
Lemma scan_shrinks_all f :
  (∀ pd d n, scan_shrinks d (scan_value L f pd d n) 1) ∧
  (∀ pd d n seen, scan_shrinks d (scan_members L f pd d n seen) 0) ∧
  (∀ pd d n, scan_shrinks d (scan_items L f pd d n) 0).
Proof.
  induction f as [|f (IHv & IHm & IHi)]; [done|]. split_and!; intros *; cbn [scan_value scan_members scan_items].
  - destruct (next_token L d n) as [[[t d1] n1]|] eqn:Ht; [|done]. apply next_token_shrinks in Ht.
    cbn [mbind result_bind]. destruct t as [c|v]; [|cbn; lia].
    destruct (fail_if _ _) as [[]|]; [|done]. cbn [mbind result_bind].
    assert (scan_shrinks d1 (if c =? 123 then scan_members L f (pd + 1) d1 n1 []
      else if c =? 91 then scan_items L f (pd + 1) d1 n1 else Err (lim_error L ErrorCodeInvalidJSON)) 0) as Hr.
    { destruct (c =? 123); [apply IHm|]. destruct (c =? 91); [apply IHi|done]. }
    destruct (if c =? 123 then _ else _) as [[d2 n2]|]; [|done]. cbn in Hr |- *.
    destruct (next_token L d2 n2) as [[[t3 d3] n3]|] eqn:Ht'; [|done]. apply next_token_shrinks in Ht'.
    cbn. destruct (fail_if _ _) as [[]|]; [|done]. cbn. lia.
  - destruct (More d); [|cbn; lia]. destruct (next_token L d n) as [[[t d1] n1]|] eqn:Ht; [|done].
    apply next_token_shrinks in Ht. cbn [mbind result_bind]. destruct t as [c|[]]; try done.
    destruct (fail_if _ _) as [[]|]; [|done]. cbn [mbind result_bind]. specialize (IHv pd d1 n1).
    destruct (scan_value L f pd d1 n1) as [[d2 n2]|]; [|done]. cbn in IHv |- *.
    specialize (IHm pd d2 n2 (s :: seen)). destruct (scan_members L f pd d2 n2 _) as [[d3 n3]|]; [|done]. cbn in *. lia.
  - destruct (More d); [|cbn; lia]. specialize (IHv pd d n).
    destruct (scan_value L f pd d n) as [[d2 n2]|]; [|done]. cbn in IHv |- *.
    specialize (IHi pd d2 n2). destruct (scan_items L f pd d2 n2) as [[d3 n3]|]; [|done]. cbn in *. lia.
Qed.
Lemma scan_fuel f :
  (∀ pd d n f', 2 * length (dec_buf d) < f → 2 * length (dec_buf d) < f' →
     scan_value L f pd d n = scan_value L f' pd d n)%nat ∧
  (∀ pd d n seen f', 2 * length (dec_buf d) + 1 < f → 2 * length (dec_buf d) + 1 < f' →
     scan_members L f pd d n seen = scan_members L f' pd d n seen)%nat ∧
  (∀ pd d n f', 2 * length (dec_buf d) + 1 < f → 2 * length (dec_buf d) + 1 < f' →
     scan_items L f pd d n = scan_items L f' pd d n)%nat.
Proof.
  induction f as [|f (IHv & IHm & IHi)]; [split_and!; intros; lia|].
  split_and!; intros *; (destruct f' as [|f']; [lia|]); intros Hf Hf'; cbn [scan_value scan_members scan_items].
  - destruct (next_token L d n) as [[[t d1] n1]|] eqn:Ht; [|done]. apply next_token_shrinks in Ht.
    cbn [mbind result_bind]. destruct t as [c|v]; [|done]. rewrite (IHm _ d1 _ _ f'), (IHi _ d1 _ f') by lia. done.
  - destruct (More d); [|done]. destruct (next_token L d n) as [[[t d1] n1]|] eqn:Ht; [|done].
    apply next_token_shrinks in Ht. cbn [mbind result_bind]. destruct t as [c|[]]; try done.
    rewrite (IHv _ d1 _ f') by lia. pose proof (proj1 (scan_shrinks_all f') pd d1 n1) as Hs.
    destruct (fail_if _ _) as [[]|]; [|done]. cbn [mbind result_bind].
    destruct (scan_value L f' pd d1 n1) as [[d2 n2]|]; [|done]. cbn in Hs |- *. by rewrite (IHm _ d2 _ _ f') by lia.
  - destruct (More d); [|done]. rewrite (IHv _ d _ f') by lia.
    pose proof (proj1 (scan_shrinks_all f') pd d n) as Hs.
    destruct (scan_value L f' pd d n) as [[d2 n2]|]; [|done]. cbn in Hs |- *. by rewrite (IHi _ d2 _ f') by lia.
Qed.
Lemma scan_json_fuel raw f pd n :
  (json_fuel raw ≤ f)%nat → scan_value L f pd (NewDecoder raw) n = scan_value L (json_fuel raw) pd (NewDecoder raw) n.
Proof. unfold json_fuel. intros Hf. apply (proj1 (scan_fuel f)); cbn [NewDecoder dec_buf]; lia. Qed.

Definition scans (v : json) : Prop := plain_json v → ∀ fuel pd st stack rest n,
  (length (json_Marshal v) < fuel)%nat → tokenValueAllowed st = true → stops rest →
  pd + depth_of v ≤ lim_depth L → n + tokens_of v ≤ lim_tokens L →
  scan_value L fuel pd (MkDecoder (json_Marshal v ++ rest) st stack) n
  = Ok (MkDecoder rest (tokenValueEnd st) stack, n + tokens_of v).

Lemma tokens_of_pos v : 0 < tokens_of v.
Proof.
  induction v as [| | | |l IH|m IH] using json_nested_ind; cbn [tokens_of]; try lia.
  - assert (0 ≤ foldr Z.add 0 (tokens_of <$> l)); [|lia].
    induction IH as [|v l Hv _ IHl]; [done|]. cbn [fmap list_fmap foldr]. change (list_fmap _ _ tokens_of l) with (tokens_of <$> l). lia.
  - assert (0 ≤ foldr Z.add 0 ((λ kv, 1 + tokens_of kv.2) <$> m)); [|lia].
    induction IH as [|kv m Hv _ IHm]; [done|]. rewrite fmap_cons. cbn [foldr]. lia.
Qed.
Lemma tokens_sum_nonneg l : 0 ≤ foldr Z.add 0 (tokens_of <$> l).
Proof. induction l as [|x l IH]; [done|]. rewrite fmap_cons. cbn [foldr]. pose proof (tokens_of_pos x). lia. Qed.
Lemma members_sum_nonneg (m : list (string * json)) : 0 ≤ foldr Z.add 0 ((λ kv, 1 + tokens_of kv.2) <$> m).
Proof. induction m as [|x m IH]; [done|]. rewrite fmap_cons. cbn [foldr]. pose proof (tokens_of_pos x.2). lia. Qed.
Lemma next_token_Tok d n t d' :
  Token d = Tok t d' → n + 1 ≤ lim_tokens L → next_token L d n = Ok (t, d', n + 1).
Proof. intros Ht Hn. unfold next_token. rewrite Ht. by replace (lim_tokens L <? n + 1) with false by lia. Qed.

Lemma scan_scalar v : is_scalar v = true → scans v.
Proof.
  intros Hs Hv fuel pd st stack rest n Hf Hst Hr _ Hn. destruct fuel as [|f]; [lia|].
  assert (tokens_of v = 1) as Ht by by destruct v. cbn [scan_value].
  rewrite (next_token_Tok _ _ (Scalar (value_of v)) (MkDecoder rest (tokenValueEnd st) stack)); [by rewrite Ht| |lia].
  pose proof (parse_scalar_marshal v rest Hv Hs Hr) as Hp.
  destruct (scalar_not_open v Hv Hs) as (c & r & Hh & Hc & H1 & H2).
  destruct (value_byte_tests c Hc) as (Hsp & H3 & H4 & H5 & H6).
  unfold Token. cbn [dec_buf dec_tokenState dec_tokenStack]. rewrite Hh in Hp |- *. cbn [app Token_at] in Hp |- *.
  rewrite Hsp, H1, H2, H3, H4, H5, H6, Hst. cbn [negb].
  replace (same_state st tokenObjectStart || same_state st tokenObjectKey) with false by by destruct st.
  by rewrite andb_false_r, Hp.
Qed.

(** A key where one is expected. *)
Lemma key_token k rest st stack :
  printable k → st = tokenObjectStart ∨ st = tokenObjectKey →
  Token_at st stack (json_text k ++ 58 :: rest)
  = Tok (Scalar (VString k)) (MkDecoder (58 :: rest) tokenObjectColon stack).
Proof.
  intros Hk Hst. pose proof (parse_string_text k (58 :: rest) Hk) as Hp.
  rewrite json_text_head in Hp |- *. cbn [app Token_at] in Hp |- *. change (json_space 34) with false.
  cbn [Z.eqb Pos.eqb andb]. rewrite Hp. by destruct Hst as [->| ->].
Qed.

Lemma scan_items_tail l fuel pd stack rest n :
  Forall scans l → Forall plain_json l → (length (comma_text (json_Marshal <$> l)) < fuel)%nat →
  pd + foldr Z.max 0 (depth_of <$> l) ≤ lim_depth L → n + foldr Z.add 0 (tokens_of <$> l) ≤ lim_tokens L →
  scan_items L fuel pd (MkDecoder (comma_text (json_Marshal <$> l) ++ 93 :: rest) tokenArrayComma stack) n
  = Ok (MkDecoder (93 :: rest) tokenArrayComma stack, n + foldr Z.add 0 (tokens_of <$> l)).
Proof.
  intros Hsc. revert fuel n. induction Hsc as [|v l Hv _ IH]; intros fuel n Hp Hf Hd Hn; (destruct fuel as [|f]; [cbn in Hf; lia|]).
  - cbn. by rewrite Z.add_0_r.
  - apply Forall_cons in Hp as [Hpv Hpl]. rewrite fmap_cons, comma_text_cons in Hf |- *.
    cbn [length] in Hf. rewrite length_app in Hf. rewrite !fmap_cons in Hd, Hn |- *. cbn [foldr] in Hd, Hn |- *.
    pose proof (tokens_of_pos v). pose proof (tokens_sum_nonneg l).
    cbn [app scan_items]. rewrite <- app_assoc. unfold More. cbn [dec_buf skip_space].
    change (json_space 44) with false. cbn [Z.eqb Pos.eqb negb andb].
    rewrite (scan_value_comma _ _ _ tokenArrayValue) by auto.
    rewrite (Hv Hpv) by (try done; try lia; apply stops_tail; auto).
    cbn [mbind result_bind fst snd tokenValueEnd]. rewrite IH by (done || lia). do 2 f_equal. lia.
Qed.

Lemma scan_members_tail m fuel pd stack rest n seen :
  Forall (λ kv, scans kv.2) m → Forall (λ kv, printable kv.1) m → Forall (λ kv, plain_json kv.2) m →
  NoDup m.*1 → (∀ k, k ∈ m.*1 → k ∉ seen) →
  (length (comma_text (member_text <$> m)) < fuel)%nat →
  pd + foldr Z.max 0 ((λ kv, depth_of kv.2) <$> m) ≤ lim_depth L →
  n + foldr Z.add 0 ((λ kv, 1 + tokens_of kv.2) <$> m) ≤ lim_tokens L →
  scan_members L fuel pd (MkDecoder (comma_text (member_text <$> m) ++ 125 :: rest) tokenObjectComma stack) n seen
  = Ok (MkDecoder (125 :: rest) tokenObjectComma stack, n + foldr Z.add 0 ((λ kv, 1 + tokens_of kv.2) <$> m)).
Proof.
  intros Hsc. revert fuel n seen.
  induction Hsc as [|[k v] m Hv _ IH]; intros fuel n seen Hk Hp Hnd Hs Hf Hd Hn; (destruct fuel as [|f]; [cbn in Hf; lia|]).
  - cbn. by rewrite Z.add_0_r.
  - apply Forall_cons in Hp as [Hpv Hpl], Hk as [Hkk Hkm]. apply NoDup_cons in Hnd as [Hk0 Hnd]. cbn [fst snd] in *.
    rewrite fmap_cons, comma_text_cons in Hf. rewrite fmap_cons in Hd. rewrite fmap_cons in Hn.
    rewrite !fmap_cons, comma_text_cons. cbn [foldr snd length] in Hf, Hd, Hn |- *.
    rewrite length_app in Hf. pose proof (tokens_of_pos v). pose proof (members_sum_nonneg m).
    assert (length (json_Marshal v) + 1 ≤ length (member_text (k, v)))%nat as Hlen.
    { unfold member_text. rewrite !length_app. cbn [snd length]. lia. }
    cbn [app scan_members]. rewrite <- app_assoc. unfold More. cbn [dec_buf skip_space].
    change (json_space 44) with false. cbn [Z.eqb Pos.eqb negb andb].
    set (tail := comma_text _ ++ 125 :: rest).
    rewrite (next_token_Tok _ _ (Scalar (VString k)) (MkDecoder (58 :: json_Marshal v ++ tail) tokenObjectColon stack)).
    2: { unfold Token, member_text. cbn [dec_buf dec_tokenState dec_tokenStack fst snd Token_at].
         change (json_space 44) with false. cbn [Z.eqb Pos.eqb]. rewrite <- !app_assoc.
         apply key_token; [done|]. by right. }
    2: lia.
    cbn [mbind result_bind]. rewrite bool_decide_false by (apply Hs; left). cbn [fail_if mbind result_bind].
    rewrite (scan_value_comma _ _ _ tokenObjectValue) by auto. unfold tail.
    rewrite (Hv Hpv) by (try done; try lia; apply stops_tail; auto).
    cbn [mbind result_bind fst snd tokenValueEnd]. rewrite IH; [do 2 f_equal; lia|done|done|done| |lia..].
    intros k' Hk' [->|Hin]%elem_of_cons; [done|]. apply (Hs k'); [by right|done].
Qed.

Lemma closing_token {B} c start comma st top stack rest n (f : _ → result B) :
  (c = 93 ∧ start = tokenArrayStart ∧ comma = tokenArrayComma) ∨
  (c = 125 ∧ start = tokenObjectStart ∧ comma = tokenObjectComma) →
  st = start ∨ st = comma → n + 1 ≤ lim_tokens L →
  (y ← next_token L (MkDecoder (c :: rest) st (top :: stack)) n; f y)
  = f (Delim c, MkDecoder rest (tokenValueEnd top) stack, n + 1).
Proof.
  intros Hc Hst Hn.
  rewrite (next_token_Tok _ _ (Delim c) (MkDecoder rest (tokenValueEnd top) stack)); [done| |done].
  by destruct Hc as [(-> & -> & ->)|(-> & -> & ->)], Hst as [->| ->].
Qed.
Lemma opening_token {B} c start st stack rest n (f : _ → result B) :
  (c = 91 ∧ start = tokenArrayStart) ∨ (c = 123 ∧ start = tokenObjectStart) →
  tokenValueAllowed st = true → n + 1 ≤ lim_tokens L →
  (x ← next_token L (MkDecoder (c :: rest) st stack) n; f x)
  = f (Delim c, MkDecoder rest start (st :: stack), n + 1).
Proof.
  intros Hc Hst Hn.
  rewrite (next_token_Tok _ _ (Delim c) (MkDecoder rest start (st :: stack))); [done| |done].
  destruct Hc as [(-> & ->)|(-> & ->)]; unfold Token; cbn; unfold open_delim; by rewrite Hst.
Qed.

Lemma scan_array l : Forall scans l → scans (JArray l).
Proof.
  intros Hsc Hv fuel pd st stack rest n Hf Hst Hr Hd Hn. inversion Hv as [| | | |? Hl|]; subst.
  destruct fuel as [|f]; [lia|]. cbn [json_Marshal] in Hf |- *. rewrite !length_app in Hf. cbn [length] in Hf.
  cbn [depth_of tokens_of] in Hd, Hn |- *. pose proof (tokens_sum_nonneg l).
  assert (0 ≤ foldr Z.max 0 (depth_of <$> l)) by (clear; induction l; cbn in *; lia).
  rewrite <- !app_assoc. cbn [app scan_value]. rewrite (opening_token _ tokenArrayStart) by (auto || lia).
  cbn [Z.eqb Pos.eqb]. replace (lim_depth L <? pd + 1) with false by lia. cbn [fail_if mbind result_bind].
  destruct l as [|v l].
  - destruct f as [|f]; [cbn in Hf; lia|]. cbn [fmap list_fmap commas app scan_items].
    unfold More. cbn [dec_buf skip_space]. change (json_space 93) with false. cbn [Z.eqb Pos.eqb negb andb mbind result_bind fst snd].
    rewrite (closing_token _ tokenArrayStart tokenArrayComma) by (auto || (cbn in Hn; lia)). cbn. do 2 f_equal. lia.
  - rewrite fmap_cons, commas_cons in Hf |- *. apply Forall_cons in Hl as [Hpv Hpl], Hsc as [Hv1 Hsl].
    rewrite fmap_cons in Hd, Hn |- *. cbn [foldr] in Hd, Hn |- *. rewrite length_app in Hf.
    pose proof (tokens_of_pos v). pose proof (tokens_sum_nonneg l).
    destruct (marshal_head v Hpv) as (c & r & Hh & Hc). destruct (value_byte_tests c Hc) as (Hsp & H3 & H4 & _).
    assert (0 < length (json_Marshal v))%nat by (rewrite Hh; cbn; lia). destruct f as [|f]; [lia|].
    rewrite <- app_assoc. cbn [scan_items]. unfold More at 1. rewrite Hh at 1. cbn [dec_buf app skip_space].
    rewrite Hsp, H3, H4. cbn [negb andb]. rewrite (Hv1 Hpv) by (try done; try lia; apply stops_tail; auto).
    cbn [mbind result_bind fst snd tokenValueEnd].
    rewrite scan_items_tail by (done || lia). cbn [mbind result_bind fst snd].
    rewrite (closing_token _ tokenArrayStart tokenArrayComma) by (auto || lia). cbn. do 2 f_equal. lia.
Qed.
Lemma scan_object m : Forall (λ kv, scans kv.2) m → scans (JObject m).
Proof.
  intros Hsc Hv fuel pd st stack rest n Hf Hst Hr Hd Hn. inversion Hv as [| | | | |? Hnd Hk Hp]; subst.
  destruct fuel as [|f]; [lia|].
  change (json_Marshal (JObject m)) with ([123] ++ commas (member_text <$> m) ++ [125]) in Hf |- *.
  rewrite !length_app in Hf. cbn [length] in Hf.
  cbn [depth_of tokens_of] in Hd, Hn |- *. pose proof (members_sum_nonneg m).
  assert (0 ≤ foldr Z.max 0 ((λ kv, depth_of kv.2) <$> m)) by (clear; induction m; cbn in *; lia).
  rewrite <- !app_assoc. cbn [app scan_value]. rewrite (opening_token _ tokenObjectStart) by (auto || lia).
  cbn [Z.eqb Pos.eqb]. replace (lim_depth L <? pd + 1) with false by lia. cbn [fail_if mbind result_bind].
  destruct m as [|[k v] m].
  - destruct f as [|f]; [cbn in Hf; lia|]. cbn [fmap list_fmap commas app scan_members].
    unfold More. cbn [dec_buf skip_space]. change (json_space 125) with false. cbn [Z.eqb Pos.eqb negb andb mbind result_bind fst snd].
    rewrite (closing_token _ tokenObjectStart tokenObjectComma) by (auto || (cbn in Hn; lia)). cbn. do 2 f_equal. lia.
  - rewrite fmap_cons, commas_cons in Hf |- *. apply Forall_cons in Hp as [Hpv Hpl], Hsc as [Hv1 Hsl], Hk as [Hkk Hkm].
    apply NoDup_cons in Hnd as [Hk0 Hnd]. cbn [fst snd] in *.
    rewrite fmap_cons in Hd. rewrite fmap_cons in Hn. rewrite fmap_cons. cbn [foldr snd] in Hd, Hn |- *. rewrite length_app in Hf.
    pose proof (tokens_of_pos v). pose proof (members_sum_nonneg m).
    assert (length (json_Marshal v) + 1 ≤ length (member_text (k, v)))%nat as Hlen.
    { unfold member_text. rewrite !length_app. cbn [snd length]. lia. }
    destruct f as [|f]; [lia|]. rewrite <- app_assoc. cbn [scan_members].
    replace (More _) with true.
    2: { unfold More, member_text. cbn [fst dec_buf]. by rewrite json_text_head. }
    set (tail := comma_text _ ++ 125 :: rest).
    rewrite (next_token_Tok _ _ (Scalar (VString k))
              (MkDecoder (58 :: json_Marshal v ++ tail) tokenObjectColon (st :: stack))).
    2: { unfold Token, member_text. cbn [dec_buf dec_tokenState dec_tokenStack fst snd]. rewrite <- !app_assoc.
         apply key_token; [done|]. by left. }
    2: lia.
    cbn [mbind result_bind]. rewrite bool_decide_false by apply not_elem_of_nil. cbn [fail_if mbind result_bind].
    rewrite (scan_value_comma _ _ _ tokenObjectValue) by auto. unfold tail.
    rewrite (Hv1 Hpv) by (try done; try lia; apply stops_tail; auto). cbn [mbind result_bind fst snd tokenValueEnd].
    rewrite scan_members_tail; [|done..| |lia|lia|lia].
    2: { intros k' Hk' [->|[]%elem_of_nil]%elem_of_cons. done. }
    cbn [mbind result_bind fst snd].
    rewrite (closing_token _ tokenObjectStart tokenObjectComma) by (auto || lia). cbn. do 2 f_equal. lia.
Qed.
Lemma scan_marshal v : scans v.
Proof.
  induction v as [| | | |l IH|m IH] using json_nested_ind;
    [by apply scan_scalar..|by apply scan_array|by apply scan_object].
Qed.
Lemma scan_json_marshal v :
  plain_json v → depth_of v ≤ lim_depth L → tokens_of v ≤ lim_tokens L → scan_json L (json_Marshal v) = Ok tt.
Proof.
  intros Hv Hd Ht. unfold scan_json, NewDecoder. rewrite <- (app_nil_r (json_Marshal v)) at 2.
  rewrite scan_marshal by (done || unfold json_fuel; lia). done.
Qed.
End scan.

(** ** The text of a prefix *)
Definition address_text (s : list Z) : Prop := Forall (λ c, address_byte c = true) s ∧ (1 ≤ length s ≤ 39)%nat.

Lemma group_text_length g : is_group g → (1 ≤ length (group_text g) ≤ 4)%nat.
Proof.
  intros Hg. unfold group_text, append_hex.
  destruct (hex_fuel_bytes 4 g) as (ds & -> & _ & Hne & Hl & _); [unfold is_group in Hg; cbn; lia|lia|].
  rewrite length_fmap. destruct ds; [done|cbn in *; lia].
Qed.
Lemma groups_text_length gs : Forall is_group gs → (length (groups_text gs) + 1 ≤ 5 * length gs + if is_nil (head gs) then 1 else 0)%nat.
Proof.
  induction 1 as [|g gs Hg _ IH]; [done|]. pose proof (group_text_length g Hg).
  destruct gs as [|g' gs]; [cbn [groups_text length head is_nil]; lia|].
  change (groups_text (g :: g' :: gs)) with (group_text g ++ 58 :: groups_text (g' :: gs)).
  rewrite length_app. cbn [length head is_nil] in *. lia.
Qed.
Lemma hex_or_colon_address c : hex_or_colon c → address_byte c = true.
Proof.
  unfold hex_or_colon, address_byte, hex_value, is_digit, in_range. intros [Hc| ->]; [|done].
  repeat break_if; gobool; try lia. by exfalso; apply Hc.
Qed.
Lemma string4_text v : Forall (λ c, address_byte c = true) (string_bytes (string4 v)) ∧ (1 ≤ length (string_bytes (string4 v)) ≤ 15)%nat.
Proof.
  split.
  - eapply Forall_impl; [apply string4_chars|]. intros c [Hc| ->]; [|done]. unfold address_byte. by rewrite Hc.
  - destruct (string4_head v) as (c & r & Hs & _). split; [rewrite Hs; cbn; lia|].
    unfold string4. rewrite !string_bytes_app, !length_app. change (string_bytes ".") with [46]. cbn [length].
    pose proof (octet_length _ (octet_range v 0)). pose proof (octet_length _ (octet_range v 1)).
    pose proof (octet_length _ (octet_range v 2)). pose proof (octet_length _ (octet_range v 3)). lia.
Qed.
Lemma groups6_address v : address_text (string_bytes (groups6 9 v 0 (zero_span v))).
Proof.
  pose proof (zero_span_spec v) as Hz. pose proof (groups_of_range v) as Hg. destruct (zero_span v) as [[s e]|].
  - destruct Hz as (Hs & He & _). rewrite <- (Z2Nat.id s), <- (Z2Nat.id e) by lia.
    assert (Z.to_nat s < Z.to_nat e ≤ 8)%nat as Hse by lia.
    assert (length (take (Z.to_nat s) (groups_of v)) = Z.to_nat s ∧
            length (drop (Z.to_nat e) (groups_of v)) = (8 - Z.to_nat e)%nat) as [Ls Le].
    { rewrite length_take, length_drop. change (length (groups_of v)) with 8%nat. lia. }
    rewrite groups6_span by lia.
    pose proof (Forall_take _ (Z.to_nat s) _ Hg) as H1. pose proof (Forall_drop _ (Z.to_nat e) _ Hg) as H2.
    pose proof (groups_text_length _ H1). pose proof (groups_text_length _ H2). split.
    + apply Forall_app. split; [eapply Forall_impl; [by apply groups_text_chars|apply hex_or_colon_address]|].
      repeat (constructor; [done|]). eapply Forall_impl; [by apply groups_text_chars|apply hex_or_colon_address].
    + rewrite length_app. cbn [length]. repeat case_match; lia.
  - rewrite groups6_plain. pose proof (groups_text_length _ Hg) as Hl.
    destruct (groups_text_head _ Hg ltac:(done)) as (c & r & d & Ht & _). split.
    + eapply Forall_impl; [by apply groups_text_chars|apply hex_or_colon_address].
    + cbn [groups_of fmap list_fmap head is_nil length] in Hl. split; [rewrite Ht; cbn; lia|].
      change (length (groups_text (groups_of v)) + 1 ≤ 40 + 0)%nat in Hl. lia.
Qed.
Lemma Addr_String_text a : Addr_wf a → addr_kind a ≠ z0 → address_text (string_bytes (Addr_String a)).
Proof.
  destruct a as [[] v]; intros Hw Hk; unfold Addr_String; cbn [addr_kind addr_val]; [done|..].
  - destruct (string4_text v) as [H1 H2]. split; [done|lia].
  - destruct (Is4In6 _); [|apply groups6_address]. rewrite string_bytes_app.
    destruct (string4_text (v mod 2 ^ 32)) as [H1 H2]. split.
    + apply Forall_app. split; [by repeat constructor|done].
    + rewrite length_app. change (length (string_bytes "::ffff:")) with 7%nat. lia.
Qed.

(** The two parts of a prefix text. *)
Lemma Prefix_String_text p :
  Prefix_wf p → PrefixIsValid p = true →
  ∃ address bits, string_bytes (Prefix_String p) = address ++ 47 :: bits ∧ address_text address ∧
    Forall (λ c, is_digit c = true) bits ∧ (1 ≤ length bits ≤ 3)%nat.
Proof.
  intros Hwf Hv. destruct (valid_bits p Hwf Hv) as [Hb Hk]. destruct Hwf as (Ha & _).
  assert (0 ≤ Bits p < 256) as Hr by (unfold BitLen in Hb; destruct (addr_kind (prefix_ip p)); lia).
  destruct (itoa_digits (Bits p)) as (_ & Hall & Hne & _); [unfold max_uint64; lia|].
  pose proof (octet_length _ Hr) as Hl.
  exists (string_bytes (Addr_String (prefix_ip p))), (string_bytes (itoa (Bits p))).
  unfold Prefix_String. rewrite Hv. cbn [negb]. rewrite !string_bytes_app. split; [done|].
  split; [by apply Addr_String_text|]. split; [done|]. destruct (string_bytes (itoa (Bits p))); [done|cbn in *; lia].
Qed.
Lemma address_byte_plain c : address_byte c = true → plain_byte c = true.
Proof. unfold address_byte, plain_byte, printable_byte, escaped_byte, is_digit, in_range. intros Hc. gobool. lia. Qed.
Lemma digit_plain c : is_digit c = true → plain_byte c = true.
Proof. unfold plain_byte, printable_byte, escaped_byte, is_digit, in_range. intros Hc. gobool. lia. Qed.
Lemma Prefix_String_plain p :
  Prefix_wf p → PrefixIsValid p = true →
  plain (Prefix_String p) ∧ (length (string_bytes (Prefix_String p)) ≤ 43)%nat ∧
  schemaPrefixString (VString (Prefix_String p)) = Some (Prefix_String p).
Proof.
  intros Hwf Hv. destruct (Prefix_String_text p Hwf Hv) as (a & b & Hs & (Ha & Hl) & Hb & Hlb).
  assert (plain (Prefix_String p)) as Hp.
  { unfold plain. rewrite Hs. apply Forall_app. split; [eapply Forall_impl; [exact Ha|apply address_byte_plain]|].
    constructor; [done|]. eapply Forall_impl; [exact Hb|apply digit_plain]. }
  split; [done|]. split; [rewrite Hs, length_app; cbn [length]; lia|].
  unfold schemaPrefixString. cbn [as_string mbind option_bind]. rewrite <- length_string_bytes, Hs, length_app.
  cbn [length]. replace ((_ <? 3)%nat || _) with false.
  2: { symmetry. apply orb_false_iff. split; apply Nat.ltb_ge; lia. }
  rewrite cut_last_app by (eapply Forall_impl; [exact Hb|]; intros c; unfold is_digit, in_range; gobool; lia).
  replace (forallb address_byte a) with true by (symmetry; apply forallb_true_iff; by apply Forall_forall).
  replace (forallb is_digit b) with true by (symmetry; apply forallb_true_iff; by apply Forall_forall).
  replace (3 <? length b)%nat with false by (symmetry; apply Nat.ltb_ge; lia).
  destruct a; [cbn in Hl; lia|]. destruct b; [cbn in Hlb; lia|]. done.
Qed.

(** ** Texts that pass the first checks of the decoder *)
Definition is_ascii (b : Z) : Prop := 0 ≤ b < 128.
Lemma utf8_ascii l : Forall is_ascii l → utf8_valid l = true.
Proof.
  induction 1 as [|b l Hb _ IH]; [done|]. unfold is_ascii in Hb. cbn [utf8_valid].
  by replace (b <? 128) with true by lia.
Qed.
Lemma commas_ascii l : Forall (Forall is_ascii) l → Forall is_ascii (commas l).
Proof.
  destruct 1 as [|x l Hx Hl]; [constructor|]. rewrite commas_cons. apply Forall_app. split; [done|].
  unfold comma_text. apply Forall_bind. eapply Forall_impl; [exact Hl|]. intros y Hy. constructor; [done|done].
Qed.
Lemma json_text_ascii s : printable s → Forall is_ascii (json_text s).
Proof.
  intros Hs. rewrite json_text_head. constructor; [done|]. apply Forall_app. split; [|by repeat constructor].
  eapply Forall_impl; [apply json_escape_length, Hs|]. intros b Hb. unfold printable_byte, in_range in Hb.
  gobool. unfold is_ascii. lia.
Qed.
Lemma marshal_ascii v : plain_json v → Forall is_ascii (json_Marshal v).
Proof.
  induction v as [|b|n|s|l IH|m IH] using json_nested_ind; intros Hv; inversion Hv; subst; cbn [json_Marshal].
  - by repeat constructor.
  - by destruct b; repeat constructor.
  - unfold json_int. replace (n <? 0) with false by lia. destruct (itoa_digits n) as (_ & Hall & _).
    { unfold max_int64, max_uint64 in *. lia. }
    eapply Forall_impl; [exact Hall|]. intros c Hc. unfold is_digit, in_range in Hc. gobool. unfold is_ascii. lia.
  - by apply json_text_ascii.
  - constructor; [done|]. apply Forall_app. split; [|by repeat constructor]. apply commas_ascii, Forall_fmap.
    rewrite Forall_forall in *. intros v Hv'. apply IH; [done|]. by apply H0.
  - constructor; [done|]. apply Forall_app. split; [|by repeat constructor]. apply commas_ascii, Forall_fmap.
    rewrite !Forall_forall in *. intros [k v] Hkv. cbn [fst snd]. apply Forall_app.
    split; [apply json_text_ascii, (H1 (k, v)), Hkv|].
    constructor; [done|]. apply (IH (k, v)); [done|]. by apply (H2 (k, v)).
Qed.

Lemma DecodeRequest_marshal m :
  plain_json (JObject m) → depth_of (JObject m) ≤ maxJSONDepth → tokens_of (JObject m) ≤ maxJSONTokens →
  Z.of_nat (length (json_Marshal (JObject m))) ≤ maxRequestBytes →
  DecodeRequest (json_Marshal (JObject m)) = decodeRequestObject ((λ kv, (kv.1, value_of kv.2)) <$> m).
Proof.
  intros Hp Hd Ht Hl. unfold DecodeRequest, reject_if, scanJSON.
  replace (maxRequestBytes <? _) with false by lia. rewrite utf8_ascii by by apply marshal_ascii.
  cbn [fail_if negb mbind result_bind]. rewrite scan_json_marshal by done. cbn [mbind result_bind].
  by rewrite Decode_marshal.
Qed.

(** Numbers of the wire. *)
Lemma positiveInt64_int n :
  0 < n ≤ max_int64 → positiveInt64 (Some (VNumber (string_of_bytes (json_int n)))) = Some n.
Proof.
  intros Hn. unfold positiveInt64, Rat_SetString, json_int. replace (n <? 0) with false by lia.
  rewrite string_of_string_bytes.
  destruct (itoa_digits n) as (Hv & Hall & Hne & _ & Hp); [unfold max_int64, max_uint64 in *; lia|].
  destruct Hp as (c & r & Hs & Hc); [lia|]. unfold in_range in Hc. gobool.
  pose proof (span_digits_all (string_bytes (itoa n)) [] Hall I) as Hsp. rewrite app_nil_r in Hsp.
  rewrite Hs in *. replace (c =? 45) with false by lia. rewrite Hsp. cbn [rat_exponent mbind option_bind].
  rewrite app_nil_r, Hv. replace (n =? 0) with false by lia.
  change (0 - Z.of_nat (length [])) with 0. change (1000000 <? Z.abs 0) with false. change (0 <=? 0) with true.
  cbn [mbind option_bind fst snd].
  rewrite Z.pow_0_r, Z.mul_1_r, Z.mod_1_r, Z.div_1_r. cbn [Z.eqb negb].
  replace (_ || _ || _) with false; [done|]. unfold max_int64 in *. lia.
Qed.
Lemma positiveInt64_range v n : positiveInt64 v = Some n → 0 < n ≤ max_int64.
Proof.
  unfold positiveInt64. destruct v as [[]|]; try done. destruct (Rat_SetString text) as [q|]; [|done]. cbn [mbind option_bind].
  destruct (negb _); [done|]. destruct (_ || _ || _) eqn:Hg; [done|]. intros [= <-]. gobool. lia.
Qed.

(** Prefixes of the wire. *)
Lemma canonicalPrefix_Ok text p :
  canonicalPrefix text = Ok p → Prefix_wf p ∧ canonical p ∧ Prefix_String p = text.
Proof.
  unfold canonicalPrefix. destruct (ParsePrefix text) as [q|] eqn:Hq; [|done]. intros Hp.
  apply result_bind_Ok in Hp as ([] & Hc%fail_if_Ok & [= <-]). gobool.
  destruct (ParsePrefix_wf _ _ Hq) as [Hw Hv]. split; [done|]. split; [|tauto].
  unfold canonical, not_canonical. gobool. tauto.
Qed.
Lemma canonicalPrefix_String p : Prefix_wf p → canonical p → canonicalPrefix (Prefix_String p) = Ok p.
Proof.
  intros Hw Hc. unfold canonicalPrefix. rewrite ParsePrefix_String by (done || by apply canonical_valid).
  unfold canonical, not_canonical in Hc. gobool. destruct Hc as [_ Hm].
  rewrite (bool_decide_true (p = Masked p)), bool_decide_true by done. done.
Qed.
Lemma canonicalPrefix_inv p q : Prefix_wf p → canonicalPrefix (Prefix_String p) = Ok q → q = p ∧ canonical p.
Proof.
  intros Hw Hq. destruct (canonicalPrefix_Ok _ _ Hq) as (Hwq & Hcq & Hs).
  destruct (PrefixIsValid p) eqn:Hv.
  - pose proof (ParsePrefix_String p Hw Hv) as H1. pose proof (ParsePrefix_String q Hwq (canonical_valid q Hcq)) as H2.
    rewrite Hs, H1 in H2. injection H2 as ->. done.
  - unfold Prefix_String in Hq. rewrite Hv in Hq. by vm_compute in Hq.
Qed.

(** *** Lists of prefixes *)
Abbreviation texts ps := (Prefix_String <$> ps).
Definition sorted_after (seen l : list string) : bool :=
  StringsAreSorted (match seen with previous :: _ => previous :: l | [] => l end).
Lemma sorted_after_cons seen t l :
  sorted_after seen (t :: l) = true ↔
    match seen with previous :: _ => String.ltb t previous | [] => false end = false ∧ sorted_after (t :: seen) l = true.
Proof.
  unfold sorted_after. destruct seen as [|previous seen]; [tauto|]. cbn [StringsAreSorted]. gobool. tauto.
Qed.
(** validatedPrefixList accepts just the canonical lists, and changes nothing. *)
Lemma validate_prefixes_iff seen ps out :
  Forall Prefix_wf ps →
  validate_prefixes seen ps = Ok out ↔
    out = ps ∧ Forall canonical ps ∧ NoDup (texts ps) ∧ (∀ t, t ∈ texts ps → t ∉ seen) ∧
    sorted_after seen (texts ps) = true.
Proof.
  intros Hw. revert seen out. induction Hw as [|p ps Hp _ IH]; intros seen out.
  { split; [|by intros (-> & _)]. cbn. intros [= <-]. split; [done|]. split; [done|]. split; [constructor|].
    split; [set_solver|]. by destruct seen. }
  cbn [validate_prefixes]. rewrite fmap_cons, sorted_after_cons, Forall_cons, NoDup_cons. split.
  - intros Hv. apply result_bind_Ok in Hv as (q & Hq & Hv). apply canonicalPrefix_inv in Hq as [-> Hc]; [|done].
    apply result_bind_Ok in Hv as ([] & Hd%fail_if_Ok & Hv). apply result_bind_Ok in Hv as ([] & Ho%fail_if_Ok & Hv).
    apply result_bind_Ok in Hv as (qs & Hqs & [= <-]). apply IH in Hqs as (-> & Hcs & Hnd & Hns & Hso). gobool.
    split; [done|]. split; [done|]. split; [split; [|done]; intros Hin; by apply (Hns _ Hin); left|].
    split; [|done]. intros t [->|Ht]%elem_of_cons; [done|]. specialize (Hns t Ht). set_solver.
  - intros (-> & [Hc Hcs] & [Hni Hnd] & Hns & Ho & Hso). rewrite canonicalPrefix_String by done. cbn [mbind result_bind].
    unfold schema_if, reject_if. rewrite bool_decide_false by (apply Hns; left). rewrite Ho. cbn [fail_if mbind result_bind].
    rewrite (proj2 (IH _ ps)); [done|]. split; [done|]. split; [done|]. split; [done|]. split; [|done].
    intros t Ht [->|Hin]%elem_of_cons; [done|]. apply (Hns t); [by right|done].
Qed.

Lemma schema_prefixes_texts seen l :
  Forall (λ t, schemaPrefixString (VString t) = Some t) l → NoDup l → (∀ t, t ∈ l → t ∉ seen) →
  schema_prefixes seen (VString <$> l) = Some l.
Proof.
  intros Hl. revert seen. induction Hl as [|t l Ht _ IH]; intros seen Hnd Hns; [done|].
  apply NoDup_cons in Hnd as [Hni Hnd]. rewrite fmap_cons. cbn [schema_prefixes]. rewrite Ht. cbn [mbind option_bind].
  rewrite bool_decide_false by (apply Hns; left). rewrite IH; [done|done|].
  intros t' Ht' [->|Hin]%elem_of_cons; [done|]. apply (Hns t'); [by right|done].
Qed.
Lemma schema_prefixes_NoDup seen items l :
  schema_prefixes seen items = Some l → NoDup l ∧ ∀ t, t ∈ l → t ∉ seen.
Proof.
  revert seen l. induction items as [|v items IH]; intros seen l; cbn [schema_prefixes].
  { intros [= <-]. split; [constructor|set_solver]. }
  destruct (schemaPrefixString v) as [t|]; [|done]. cbn [mbind option_bind]. case_bool_decide as Hs; [done|].
  destruct (schema_prefixes (t :: seen) items) as [l'|] eqn:Hl; [|done]. intros [= <-].
  apply IH in Hl as [Hnd Hns]. split.
  - apply NoDup_cons. split; [|done]. intros Hin. apply (Hns t Hin). left.
  - intros t' [->|Hin]%elem_of_cons; [done|]. specialize (Hns t' Hin). set_solver.
Qed.
Lemma schema_prefixes_length seen items l : schema_prefixes seen items = Some l → length l = length items.
Proof.
  revert seen l. induction items as [|v items IH]; intros seen l; cbn [schema_prefixes]; [by intros [= <-]|].
  destruct (schemaPrefixString v) as [t|]; [|done]. cbn [mbind option_bind]. case_bool_decide; [done|].
  destruct (schema_prefixes (t :: seen) items) eqn:Hl; [|done]. intros [= <-]. cbn. f_equal. by eapply IH.
Qed.

Lemma mapM_canonical l ps :
  mapM canonicalPrefix l = Ok ps ↔ texts ps = l ∧ Forall Prefix_wf ps ∧ Forall canonical ps.
Proof.
  revert ps. induction l as [|t l IH]; intros ps.
  { cbn. split; [intros [= <-]; done|]. intros (Ht & _). by destruct ps. }
  change (mapM canonicalPrefix (t :: l))
    with (p ← canonicalPrefix t; qs ← mapM canonicalPrefix l; mret (p :: qs)). split.
  - intros Hm. apply result_bind_Ok in Hm as (p & Hp & Hm). apply result_bind_Ok in Hm as (qs & Hqs & [= <-]).
    apply IH in Hqs as (Hl & Hw & Hc). apply canonicalPrefix_Ok in Hp as (Hwp & Hcp & Hs).
    rewrite fmap_cons, Hl, Hs. auto.
  - intros (Ht & Hw & Hc). destruct ps as [|p ps]; [done|]. rewrite fmap_cons in Ht. injection Ht as <- Ht.
    apply Forall_cons in Hw as [Hwp Hw], Hc as [Hcp Hc]. rewrite canonicalPrefix_String by done. cbn [mbind result_bind].
    by rewrite (proj2 (IH ps)).
Qed.
(** Both lists agree on what a canonical list is. *)
Definition canonical_prefixes (ps : list Prefix) : Prop :=
  Forall Prefix_wf ps ∧ Forall canonical ps ∧ NoDup (texts ps) ∧ StringsAreSorted (texts ps) = true.
Lemma validatedPrefixList_iff ps out :
  Forall Prefix_wf ps → validatedPrefixList ps = Ok out ↔ out = ps ∧ canonical_prefixes ps.
Proof.
  intros Hw. unfold validatedPrefixList. rewrite validate_prefixes_iff by done. unfold canonical_prefixes, sorted_after.
  split; [tauto|]. intros (-> & _ & Hc & Hn & Hs). split; [done|]. split; [done|]. split; [done|].
  split; [set_solver|done].
Qed.
Lemma schema_list_texts ps minimum :
  canonical_prefixes ps → (minimum ≤ length ps ≤ maxPlanPrefixes)%nat →
  schemaPrefixStrings (Some (value_of (json_strings (texts ps)))) minimum maxPlanPrefixes = Some (texts ps) ∧
  canonicalPrefixList (texts ps) = Ok ps.
Proof.
  intros (Hw & Hc & Hn & Hs) Hl. split.
  - unfold schemaPrefixStrings, json_strings. cbn [value_of as_array mbind option_bind].
    rewrite <- list_fmap_compose. change (value_of ∘ JString) with VString. rewrite !length_fmap.
    replace ((_ <? _)%nat || _) with false by (symmetry; apply orb_false_iff; split; apply Nat.ltb_ge; lia).
    apply schema_prefixes_texts; [|done|set_solver]. apply Forall_fmap. rewrite Forall_forall in *. intros p Hp.
    by apply Prefix_String_plain; [apply Hw|apply canonical_valid, Hc].
  - unfold canonicalPrefixList, reject_if. rewrite Hs. cbn [negb fail_if mbind result_bind]. by apply mapM_canonical.
Qed.
Lemma schema_list_inv v minimum l ps :
  schemaPrefixStrings v minimum maxPlanPrefixes = Some l → canonicalPrefixList l = Ok ps →
  l = texts ps ∧ canonical_prefixes ps ∧ (minimum ≤ length ps ≤ maxPlanPrefixes)%nat.
Proof.
  unfold schemaPrefixStrings. destruct (as_array v) as [items|]; [|done]. cbn [mbind option_bind].
  destruct ((_ <? _)%nat || _) eqn:Hg; [done|]. intros Hl Hc. apply orb_false_iff in Hg as [H1%Nat.ltb_ge H2%Nat.ltb_ge].
  apply result_bind_Ok in Hc as ([] & Hs%fail_if_Ok & Hm). apply negb_false_iff in Hs.
  apply mapM_canonical in Hm as (<- & Hw & Hcn). pose proof (schema_prefixes_NoDup _ _ _ Hl) as [Hn _].
  pose proof (schema_prefixes_length _ _ _ Hl) as Hlen. rewrite length_fmap in Hlen.
  split; [done|]. split; [done|]. lia.
Qed.

(** *** Sizes *)
Fixpoint size_of (v : json) : Z :=
  match v with
  | JNull => 4
  | JBool _ => 5
  | JInt _ => 20
  | JString s => 2 + Z.of_nat (String.length s) + 5 * Z.of_nat (escapes s)
  | JArray l => 2 + foldr Z.add 0 ((λ v, size_of v + 1) <$> l)
  | JObject m => 2 + foldr Z.add 0 ((λ kv, Z.of_nat (String.length kv.1) + 5 * Z.of_nat (escapes kv.1) + 4 + size_of kv.2) <$> m)
  end.
Lemma commas_length {A} (f : A → list Z) (bound : A → Z) l :
  Forall (λ x, Z.of_nat (length (f x)) + 1 ≤ bound x) l →
  Z.of_nat (length (commas (f <$> l))) ≤ foldr Z.add 0 (bound <$> l).
Proof.
  induction 1 as [|x l Hx _ IH]; [done|]. destruct l as [|y l].
  - cbn [fmap list_fmap commas foldr]. lia.
  - change (commas (f <$> x :: y :: l)) with (f x ++ [44] ++ commas (f <$> y :: l)).
    rewrite (fmap_cons bound). cbn [foldr]. rewrite !length_app. cbn [length]. lia.
Qed.
Lemma marshal_length v : plain_json v → Z.of_nat (length (json_Marshal v)) ≤ size_of v.
Proof.
  induction v as [|b|n|s|l IH|m IH] using json_nested_ind; intros Hv; inversion Hv as [| |? Hn|? Hs|? Hl|? _ Hk Hm]; subst.
  - cbn; lia.
  - by destruct b.
  - cbn [json_Marshal size_of]. unfold json_int. replace (n <? 0) with false by lia.
    destruct (itoa_fuel_spec 20 n) as (_ & _ & _ & Hl & _); [unfold max_int64 in *; cbn; lia|lia|].
    change (itoa_fuel 20 n) with (itoa n) in Hl. lia.
  - cbn [json_Marshal size_of]. pose proof (json_text_length s Hs). lia.
  - cbn [json_Marshal size_of]. rewrite !length_app. cbn [length].
    pose proof (commas_length json_Marshal (λ v, size_of v + 1) l) as Hc. rewrite !Forall_forall in *.
    assert (∀ x, x ∈ l → Z.of_nat (length (json_Marshal x)) + 1 ≤ size_of x + 1) as Hb.
    { intros x Hx. specialize (IH x Hx (Hl x Hx)). lia. }
    specialize (Hc Hb). lia.
  - change (json_Marshal (JObject m)) with ([123] ++ commas (member_text <$> m) ++ [125]). cbn [size_of].
    rewrite !length_app. cbn [length].
    pose proof (commas_length member_text (λ kv, Z.of_nat (String.length kv.1) + 5 * Z.of_nat (escapes kv.1) + 4 + size_of kv.2) m) as Hc.
    rewrite !Forall_forall in *.
    assert (∀ x, x ∈ m → Z.of_nat (length (member_text x)) + 1 ≤ Z.of_nat (String.length x.1) + 5 * Z.of_nat (escapes x.1) + 4 + size_of x.2) as Hb.
    { intros x Hx. specialize (IH x Hx (Hm x Hx)). unfold member_text. rewrite !length_app. cbn [length].
      pose proof (json_text_length x.1 (Hk x Hx)). lia. }
    specialize (Hc Hb). lia.
Qed.

(** ** Valid requests *)
Definition valid_base (b : ipc.planBase) : Prop :=
  ipc.pb_ownerVersion b = ipc.ownerVersionV1 ∧ validDigest (ipc.pb_basisSnapshotDigest b) = true ∧
  0 < ipc.pb_revision b ≤ max_int64.
Definition valid_plan (plan : ipc.ManagedPlan) : Prop :=
  match plan with
  | ipc.InfrastructurePlan (Some p) => valid_base (ipc.il_base p) ∧ ipc.il_schemaVersion p = 1
  | ipc.PolicyPlan (Some p) =>
    valid_base (ipc.pl_base p) ∧ canonical_prefixes (ipc.pl_allowlist p) ∧ canonical_prefixes (ipc.pl_protectedTargets p) ∧
    (length (ipc.pl_allowlist p) + length (ipc.pl_protectedTargets p) ≤ maxPlanPrefixes)%nat ∧
    (2 ≤ length (ipc.pl_protectedTargets p))%nat ∧
    loopback4 ∈ ipc.pl_protectedTargets p ∧ loopback6 ∈ ipc.pl_protectedTargets p
  | ipc.TargetPlan (Some p) =>
    valid_base (ipc.tl_base p) ∧ Prefix_wf (ipc.tl_target p) ∧ canonical (ipc.tl_target p) ∧
    protects_loopback (ipc.tl_target p) = false ∧
    ipc.tl_membership p ∈ [ipc.MembershipPresent; ipc.MembershipAbsent] ∧
    ipc.tl_timeoutMode p ∈ [ipc.TimeoutModeNone; ipc.TimeoutModeNative] ∧
    (if ipc.tl_hasEffectiveUntil p then 0 < ipc.tl_effectiveUntilUnixMicro p ≤ max_int64
     else ipc.tl_effectiveUntilUnixMicro p = 0) ∧
    invalid_timeout (ipc.tl_membership p) (ipc.tl_timeoutMode p) (ipc.tl_hasEffectiveUntil p) = false ∧
    ipc.tl_scopes p ∈ [[ipc.ScopeInput]; [ipc.ScopeForward]; [ipc.ScopeInput; ipc.ScopeForward]]
  | _ => False
  end.
Definition valid_request (r : ipc.MutationRequest) : Prop :=
  match r with
  | ipc.ApplyManagedPlanRequest (Some (Some plan)) => valid_plan plan
  | ipc.RemoveManagedInfrastructureRequest (Some owner) => owner = ipc.ownerVersionV1
  | _ => False
  end.
(** What the Go types of a request guarantee: prefixes are values of netip, and
    numbers are int64. *)
Definition typed_plan (plan : ipc.ManagedPlan) : Prop :=
  ipc.Revision plan ≤ max_int64 ∧
  match plan with
  | ipc.PolicyPlan (Some p) => Forall Prefix_wf (ipc.pl_allowlist p) ∧ Forall Prefix_wf (ipc.pl_protectedTargets p)
  | ipc.TargetPlan (Some p) => Prefix_wf (ipc.tl_target p) ∧ ipc.tl_effectiveUntilUnixMicro p ≤ max_int64
  | _ => True
  end.
Definition typed_request (r : ipc.MutationRequest) : Prop :=
  match r with ipc.ApplyManagedPlanRequest (Some (Some plan)) => typed_plan plan | _ => True end.

(** The wire form of a valid request. *)
Definition plan_wire_of (plan : ipc.ManagedPlan) : json :=
  match plan with
  | ipc.InfrastructurePlan (Some p) =>
    plan_payload ipc.DomainInfrastructure (ipc.il_base p) "infrastructure_revision" (infrastructureOperation p)
  | ipc.PolicyPlan (Some p) => plan_payload ipc.DomainPolicy (ipc.pl_base p) "policy_revision" (policyOperation p)
  | ipc.TargetPlan (Some p) => plan_payload ipc.DomainTarget (ipc.tl_base p) "target_generation" (targetOperation p)
  | _ => JNull
  end.
Definition wire_of (r : ipc.MutationRequest) : json :=
  match r with
  | ipc.ApplyManagedPlanRequest (Some (Some plan)) => request_wire ipc.OperationApplyManagedPlan (plan_wire_of plan)
  | _ => request_wire ipc.OperationRemoveManagedInfrastructure
           (JObject [("expected_owner_version", JString ipc.ownerVersionV1)])
  end.

Lemma newPlanBase_iff digest revision b :
  newPlanBase digest revision = Ok b ↔
  b = ipc.MkPlanBase ipc.ownerVersionV1 digest revision ∧ validDigest digest = true ∧ 0 < revision.
Proof.
  unfold newPlanBase, schema_if, reject_if, fail_if. destruct (negb _ || _) eqn:Hg; gobool.
  - split; [done|]. intros (_ & Hd & Hr). destruct Hg; [congruence|lia].
  - split; [intros [= <-]; split; [done|]; split; [tauto|lia]|]. by intros (-> & _).
Qed.
Lemma valid_scopes scopes :
  scopes ∈ [[ipc.ScopeInput]; [ipc.ScopeForward]; [ipc.ScopeInput; ipc.ScopeForward]] ↔
  validatedScopeList scopes = Ok scopes.
Proof.
  split; [rewrite !elem_of_cons, elem_of_nil; by intros [->|[->|[->|[]]]]|].
  unfold validatedScopeList, schema_if, reject_if. intros Hs.
  apply result_bind_Ok in Hs as ([] & Hl%fail_if_Ok & Hs). apply result_bind_Ok in Hs as ([] & Hv%fail_if_Ok & Hs).
  apply result_bind_Ok in Hs as ([] & Ho%fail_if_Ok & _).
  apply orb_false_iff in Hv as [Hv%negb_false_iff Hn%negb_false_iff]. apply bool_decide_true_iff in Hn.
  rewrite forallb_true_iff in Hv. unfold validScope, one_of in Hv.
  assert (∀ x, x ∈ scopes → x = ipc.ScopeInput ∨ x = ipc.ScopeForward) as Hx.
  { intros x Hx. specialize (Hv x Hx). apply bool_decide_true_iff in Hv. set_solver. }
  destruct scopes as [|a [|b [|c scopes]]]; [done| | |done].
  - destruct (Hx a) as [->| ->]; [left|set_solver|set_solver].
  - cbn [scopes_out_of_order] in Ho. gobool. destruct Ho as [-> ->]. set_solver.
Qed.

(** The encoder accepts just the valid requests. *)
Lemma NewApplyPolicy_iff digest revision allow protected p :
  Forall Prefix_wf allow → Forall Prefix_wf protected → revision ≤ max_int64 →
  NewApplyPolicyRequest digest revision allow protected = Ok p ↔
  p = ipc.MkPolicyPlan (ipc.MkPlanBase ipc.ownerVersionV1 digest revision) allow protected ∧
  valid_plan (ipc.PolicyPlan (Some p)).
Proof.
  intros Hwa Hwp Hr. unfold NewApplyPolicyRequest, schema_if, reject_if. split.
  - intros Hp. apply result_bind_Ok in Hp as (b & Hb & Hp). apply newPlanBase_iff in Hb as (-> & Hd & Hpos).
    apply result_bind_Ok in Hp as ([] & H1%fail_if_Ok & Hp). apply result_bind_Ok in Hp as ([] & H2%fail_if_Ok & Hp).
    apply result_bind_Ok in Hp as (va & Ha & Hp). apply validatedPrefixList_iff in Ha as [-> Ha]; [|done].
    apply result_bind_Ok in Hp as (vp & Hv & Hp). apply validatedPrefixList_iff in Hv as [-> Hv]; [|done].
    apply result_bind_Ok in Hp as ([] & H3%fail_if_Ok & [= <-]). split; [done|]. cbn.
    unfold hasMandatoryProtectedTargets in H3. apply negb_false_iff, andb_true_iff in H3 as [H3 H4].
    apply bool_decide_true_iff in H3, H4. apply Nat.ltb_ge in H2. apply orb_false_iff in H1 as [H1 _].
    apply orb_false_iff in H1 as [_ H1%Nat.ltb_ge].
    split; [done|]. auto 10.
  - intros [-> ((_ & Hd & Hpos) & Ha & Hv & Hl & H2 & H3 & H4)].
    cbn [ipc.pl_base ipc.pl_allowlist ipc.pl_protectedTargets ipc.pb_basisSnapshotDigest ipc.pb_revision] in *.
    rewrite (proj2 (newPlanBase_iff _ _ (ipc.MkPlanBase ipc.ownerVersionV1 digest revision))) by (split; [done|]; split; [done|lia]).
    cbn [mbind result_bind]. replace (_ || _ || _) with false.
    2: { symmetry. rewrite !orb_false_iff, !Nat.ltb_ge. lia. }
    replace (maxPlanPrefixes <? _)%nat with false by (symmetry; apply Nat.ltb_ge; lia). cbn [fail_if mbind result_bind].
    rewrite (proj2 (validatedPrefixList_iff allow allow Hwa)) by done.
    rewrite (proj2 (validatedPrefixList_iff protected protected Hwp)) by done. cbn [mbind result_bind].
    unfold hasMandatoryProtectedTargets. rewrite !bool_decide_true by done. done.
Qed.
Lemma NewApplyTarget_iff digest revision target membership mode until has scopes p :
  Prefix_wf target → revision ≤ max_int64 → until ≤ max_int64 →
  NewApplyTargetRequest digest revision target membership mode until has scopes = Ok p ↔
  p = ipc.MkTargetPlan (ipc.MkPlanBase ipc.ownerVersionV1 digest revision) target membership mode until has scopes ∧
  valid_plan (ipc.TargetPlan (Some p)).
Proof.
  intros Hw Hr Hu. unfold NewApplyTargetRequest, schema_if, reject_if. split.
  - intros Hp. apply result_bind_Ok in Hp as (b & Hb & Hp). apply newPlanBase_iff in Hb as (-> & Hd & Hpos).
    apply result_bind_Ok in Hp as (q & Hq & Hp). apply canonicalPrefix_inv in Hq as [-> Hc]; [|done].
    do 5 (let H := fresh "G" in apply result_bind_Ok in Hp as ([] & H%fail_if_Ok & Hp)).
    apply result_bind_Ok in Hp as (vs & Hs & Hp). apply result_bind_Ok in Hp as ([] & Ht%fail_if_Ok & [= <-]).
    assert (vs = scopes) as ->.
    { unfold validatedScopeList in Hs. do 3 apply result_bind_Ok in Hs as ([] & _ & Hs). by injection Hs. }
    split; [done|]. unfold one_of in *. apply negb_false_iff, bool_decide_true_iff in G0, G1.
    cbn. split; [done|]. split; [done|]. split; [done|]. split; [done|]. split; [done|]. split; [done|].
    split; [destruct has; gobool; naive_solver lia|]. split; [done|]. by apply valid_scopes.
  - intros [-> ((_ & Hd & Hpos) & _ & Hc & Hl & Hm & Ht & Hx & Hi & Hs)].
    cbn [ipc.tl_base ipc.tl_target ipc.tl_membership ipc.tl_timeoutMode ipc.tl_effectiveUntilUnixMicro
         ipc.tl_hasEffectiveUntil ipc.tl_scopes ipc.pb_basisSnapshotDigest ipc.pb_revision] in *.
    rewrite (proj2 (newPlanBase_iff _ _ (ipc.MkPlanBase ipc.ownerVersionV1 digest revision))) by (split; [done|]; split; [done|lia]).
    cbn [mbind result_bind]. rewrite canonicalPrefix_String by done. cbn [mbind result_bind]. rewrite Hl.
    unfold one_of. rewrite !bool_decide_true by done. cbn [negb fail_if mbind result_bind].
    replace (has && (until <=? 0)) with false by (destruct has; [lia|done]).
    replace (negb has && negb (until =? 0)) with false by (destruct has; [done|lia]). cbn [fail_if mbind result_bind].
    apply valid_scopes in Hs. rewrite Hs. cbn [mbind result_bind]. by rewrite Hi.
Qed.
Lemma toWire_iff r wire :
  typed_request r → mutationRequestToWire r = Ok wire ↔ wire = wire_of r ∧ valid_request r.
Proof.
  assert (∀ b : ipc.planBase, ipc.pb_ownerVersion b = ipc.ownerVersionV1 →
    ipc.MkPlanBase ipc.ownerVersionV1 (ipc.pb_basisSnapshotDigest b) (ipc.pb_revision b) = b) as Hbase.
  { intros [o d n] Ho. cbn in Ho. by rewrite <- Ho. }
  destruct r as [[[plan|]|]|[owner|]]; cbn [typed_request mutationRequestToWire valid_request wire_of];
    [|intros _; split; [done|by intros [_ []]]..| |intros _; split; [done|by intros [_ []]]].
  2: { intros _. unfold schema_if, reject_if. case_bool_decide as Ho; cbn; [|split; [done|by intros [_ ?]]].
       split; [by intros [= <-]|by intros [-> _]]. }
  destruct plan as [[p|]|[p|]|[p|]]; intros [Hr Ht]; cbn [applyRequestToWire valid_plan plan_wire_of];
    try (split; [done|by intros [_ []]]); unfold ipc.Revision in Hr; cbn in Hr; unfold schema_if, reject_if.
  - destruct p as [b v]. cbn in *. case_bool_decide as Ho; cbn; [|split; [done|intros [_ [[? _] _]]; done]].
    destruct (Z.eqb_spec v 1) as [->|Hv]; cbn; [|split; [done|by intros [_ [_ ?]]]].
    unfold NewApplyInfrastructureRequest. split.
    + intros Hp. apply result_bind_Ok in Hp as (p & Hp & [= <-]). apply result_bind_Ok in Hp as (b' & Hb & [= <-]).
      apply newPlanBase_iff in Hb as (-> & Hd & Hpos). rewrite Hbase by done. done.
    + intros [-> [(_ & Hd & Hpos) _]].
      rewrite (proj2 (newPlanBase_iff _ _ (ipc.MkPlanBase ipc.ownerVersionV1 (ipc.pb_basisSnapshotDigest b) (ipc.pb_revision b)))) by (split; [done|]; split; [done|lia]).
      cbn. by rewrite Hbase.
  - destruct p as [b a pr]. cbn [ipc.pl_base ipc.pl_allowlist ipc.pl_protectedTargets] in *. destruct Ht as [Ha Hp].
    case_bool_decide as Ho; cbn [negb fail_if mbind result_bind]; [|split; [done|intros [_ [[? _] _]]; done]]. split.
    + intros Hw. apply result_bind_Ok in Hw as (p & Hn & [= <-]). apply NewApplyPolicy_iff in Hn as [-> Hv]; [|done..].
      rewrite Hbase in Hv |- * by done. done.
    + intros [-> Hv]. rewrite (proj2 (NewApplyPolicy_iff _ _ _ _ (ipc.MkPolicyPlan b a pr) Ha Hp Hr)) by (by rewrite Hbase). done.
  - destruct p as [b t m md u h s]. cbn [ipc.tl_base ipc.tl_target ipc.tl_membership ipc.tl_timeoutMode
      ipc.tl_effectiveUntilUnixMicro ipc.tl_hasEffectiveUntil ipc.tl_scopes] in *. destruct Ht as [Hw Hu].
    case_bool_decide as Ho; cbn [negb fail_if mbind result_bind]; [|split; [done|intros [_ [[? _] _]]; done]]. split.
    + intros Hp. apply result_bind_Ok in Hp as (p & Hn & [= <-]). apply NewApplyTarget_iff in Hn as [-> Hv]; [|done..].
      rewrite Hbase in Hv |- * by done. done.
    + intros [-> Hv].
      rewrite (proj2 (NewApplyTarget_iff _ _ _ _ _ _ _ _ (ipc.MkTargetPlan b t m md u h s) Hw Hr Hu)) by (by rewrite Hbase). done.
Qed.

(** *** Reading back a valid request *)
Lemma validDigest_plain d : validDigest d = true → plain d ∧ String.length d = 64%nat.
Proof.
  unfold validDigest. intros [Hl%Nat.eqb_eq Hd]%andb_true_iff. split; [|done]. unfold plain.
  rewrite forallb_true_iff in Hd. apply Forall_forall. intros b Hb. specialize (Hd b Hb).
  unfold lower_hex, plain_byte, printable_byte, escaped_byte, in_range in *. gobool. lia.
Qed.
Lemma plain_payload domain b revision operation :
  valid_base b → plain domain → plain revision → NoDup ["domain"; "owner_version"; "basis_snapshot_digest"; revision; "operations"] →
  plain_json operation → plain_json (plan_payload domain b revision operation).
Proof.
  intros (Ho & Hd & Hr) Hdom Hrev Hn Hop. destruct (validDigest_plain _ Hd) as [Hp _]. unfold plan_payload. apply plain_object.
  - done.
  - repeat (apply Forall_cons; split; [first [by apply plain_printable | plain_const]|]). by apply Forall_nil.
  - repeat (apply Forall_cons; split; [cbn [snd]|]); [..|by apply Forall_nil].
    + by constructor; apply plain_printable.
    + constructor. rewrite Ho. plain_const.
    + by constructor; apply plain_printable.
    + constructor. lia.
    + constructor. by repeat constructor.
Qed.
Lemma plain_strings l : Forall printable l → plain_json (json_strings l).
Proof. intros Hl. unfold json_strings. constructor. apply Forall_fmap. eapply Forall_impl; [exact Hl|]. by constructor. Qed.
Lemma plain_texts ps : canonical_prefixes ps → Forall printable (texts ps).
Proof.
  intros (Hw & Hc & _). apply Forall_fmap. rewrite Forall_forall in *. intros p Hp. apply plain_printable.
  by apply Prefix_String_plain; [apply Hw|apply canonical_valid, Hc].
Qed.
Ltac plain_members :=
  apply plain_object; [plain_const|repeat (apply Forall_cons; split; [plain_const|]); by apply Forall_nil|
    repeat (apply Forall_cons; split; [cbn [snd]|]); [..|by apply Forall_nil]].
Lemma plain_operation plan :
  valid_plan plan → plain_json (plan_wire_of plan).
Proof.
  destruct plan as [[p|]|[p|]|[p|]]; try done; cbn [plan_wire_of].
  - intros [Hb Hv]. apply plain_payload; [done|plain_const..|]. unfold infrastructureOperation. plain_members.
    + constructor. plain_const.
    + rewrite Hv. by constructor.
  - intros (Hb & Ha & Hp & _). apply plain_payload; [done|plain_const..|]. unfold policyOperation. plain_members.
    + constructor. plain_const.
    + by apply plain_strings, plain_texts.
    + by apply plain_strings, plain_texts.
  - intros (Hb & Hw & Hc & _ & Hm & Ht & Hx & _ & Hs). apply plain_payload; [done|plain_const..|].
    unfold targetOperation. plain_members.
    + constructor. plain_const.
    + constructor. apply plain_printable. by apply Prefix_String_plain; [|apply canonical_valid].
    + constructor. rewrite !elem_of_cons, elem_of_nil in Hm. destruct Hm as [->|[->|[]]]; plain_const.
    + constructor. rewrite !elem_of_cons, elem_of_nil in Ht. destruct Ht as [->|[->|[]]]; plain_const.
    + destruct (ipc.tl_hasEffectiveUntil p); constructor. lia.
    + apply plain_strings. rewrite !elem_of_cons, elem_of_nil in Hs. destruct Hs as [->|[->|[->|[]]]];
        repeat constructor; plain_const.
Qed.
Lemma valid_wire_plain r : valid_request r → plain_json (wire_of r).
Proof.
  destruct r as [[[plan|]|]|[owner|]]; try done; cbn [valid_request wire_of]; intros Hv; unfold request_wire; plain_members.
  - by constructor.
  - constructor. plain_const.
  - by apply plain_operation.
  - by constructor.
  - constructor. plain_const.
  - plain_members. constructor. plain_const.
Qed.

(** The sizes of a valid request are within the limits of the decoder. *)
Lemma strings_tokens l : tokens_of (json_strings l) = 2 + Z.of_nat (length l) ∧ depth_of (json_strings l) = 1.
Proof.
  unfold json_strings. cbn [tokens_of depth_of]. induction l as [|s l [IH1 IH2]]; [done|].
  rewrite fmap_cons, (fmap_cons tokens_of), (fmap_cons depth_of). cbn [foldr tokens_of depth_of length]. lia.
Qed.
Lemma texts_size ps : canonical_prefixes ps → size_of (json_strings (texts ps)) ≤ 2 + 46 * Z.of_nat (length ps).
Proof.
  intros (Hw & Hc & _). unfold json_strings. cbn [size_of]. induction ps as [|p ps IH]; [done|].
  apply Forall_cons in Hw as [Hwp Hw], Hc as [Hcp Hc]. specialize (IH Hw Hc).
  destruct (Prefix_String_plain p Hwp (canonical_valid p Hcp)) as (Hp & Hl & _). rewrite length_string_bytes in Hl.
  rewrite !fmap_cons. cbn [foldr size_of length]. rewrite (plain_escapes _ Hp). lia.
Qed.
Lemma payload_limits domain b revision operation :
  valid_base b → plain domain → plain revision → (String.length domain ≤ 20)%nat → (String.length revision ≤ 30)%nat → 0 ≤ depth_of operation →
  depth_of (request_wire ipc.OperationApplyManagedPlan (plan_payload domain b revision operation)) = 3 + depth_of operation ∧
  tokens_of (request_wire ipc.OperationApplyManagedPlan (plan_payload domain b revision operation)) = 20 + tokens_of operation ∧
  size_of (request_wire ipc.OperationApplyManagedPlan (plan_payload domain b revision operation)) ≤ 400 + size_of operation.
Proof.
  intros (Ho & Hd & _) Hpd Hpr Hdom Hrev Hop. destruct (validDigest_plain _ Hd) as [Hp Hl].
  unfold request_wire, plan_payload. cbn [depth_of tokens_of size_of fmap list_fmap foldr snd fst].
  rewrite Ho, Hl. no_escapes.
  cbn [String.length ipc.ownerVersionV1]. split; [lia|]. split; [lia|]. cbn. lia.
Qed.
Lemma wire_limits r :
  valid_request r →
  depth_of (wire_of r) ≤ maxJSONDepth ∧ tokens_of (wire_of r) ≤ maxJSONTokens ∧ size_of (wire_of r) ≤ maxRequestBytes.
Proof.
  unfold maxJSONDepth, maxJSONTokens, maxRequestBytes.
  destruct r as [[[plan|]|]|[owner|]]; try done; cbn [valid_request wire_of].
  destruct plan as [[p|]|[p|]|[p|]]; try done; cbn [valid_plan plan_wire_of].
  - intros [Hb _]. destruct (payload_limits ipc.DomainInfrastructure (ipc.il_base p) "infrastructure_revision"
      (infrastructureOperation p)) as (-> & -> & Hs); [done|plain_const|plain_const|cbn; lia..|]. revert Hs. unfold infrastructureOperation.
    cbn [depth_of tokens_of size_of fmap list_fmap foldr snd fst]. no_escapes. cbn. lia.
  - intros (Hb & Ha & Hp & Hl & _). destruct (payload_limits ipc.DomainPolicy (ipc.pl_base p) "policy_revision"
      (policyOperation p)) as (-> & -> & Hs); [done|plain_const|plain_const|cbn; lia|cbn; lia| |].
    { unfold policyOperation. cbn [depth_of fmap list_fmap foldr snd]. lia. }
    revert Hs. unfold policyOperation, prefixStrings. cbn [depth_of tokens_of size_of fmap list_fmap foldr snd fst].
    change (list_fmap _ _ Prefix_String ?x) with (texts x).
    destruct (strings_tokens (texts (ipc.pl_allowlist p))) as [-> ->].
    destruct (strings_tokens (texts (ipc.pl_protectedTargets p))) as [-> ->]. rewrite !length_fmap.
    pose proof (texts_size _ Ha). pose proof (texts_size _ Hp). unfold maxPlanPrefixes in Hl. no_escapes. cbn [String.length]. lia.
  - intros (Hb & Hw & Hc & _ & Hm & Ht & Hx & _ & Hs). destruct (payload_limits ipc.DomainTarget (ipc.tl_base p)
      "target_generation" (targetOperation p)) as (-> & -> & Hz); [done|plain_const|plain_const|cbn; lia|cbn; lia| |].
    { unfold targetOperation. cbn [depth_of fmap list_fmap foldr snd]. lia. }
    destruct (Prefix_String_plain _ Hw (canonical_valid _ Hc)) as (Htx & Hl & _). rewrite length_string_bytes in Hl.
    revert Hz. unfold targetOperation. cbn [depth_of tokens_of size_of fmap list_fmap foldr snd fst].
    destruct (strings_tokens (ipc.tl_scopes p)) as [-> ->].
    assert (∀ s a b : string, s ∈ [a; b] → plain a → plain b →
      (String.length a ≤ 10)%nat → (String.length b ≤ 10)%nat → (String.length s ≤ 10)%nat ∧ plain s) as Hone.
    { intros s a b. rewrite !elem_of_cons, elem_of_nil. by intros [->|[->|[]]]. }
    destruct (Hone _ _ _ Hm) as [H1 Hpm]; [plain_const|plain_const|cbn; lia|cbn; lia|].
    destruct (Hone _ _ _ Ht) as [H2 Hpt]; [plain_const|plain_const|cbn; lia|cbn; lia|].
    assert (Z.of_nat (length (ipc.tl_scopes p)) ≤ 2 ∧ size_of (json_strings (ipc.tl_scopes p)) ≤ 30) as [H3 H4].
    { revert Hs. rewrite !elem_of_cons, elem_of_nil. intros [->|[->|[->|[]]]]; vm_compute; split; congruence. }
    no_escapes. cbn [String.length]. destruct (ipc.tl_hasEffectiveUntil p); cbn [depth_of tokens_of size_of]; lia.
Qed.

(** The members of a payload, as the decoder reads them. *)
Lemma decode_base b domain revision operation :
  valid_base b → revision ∈ ["infrastructure_revision"; "policy_revision"; "target_generation"] →
  let payload := (λ kv, (kv.1, value_of kv.2)) <$>
    [("domain", JString domain); ("owner_version", JString (ipc.pb_ownerVersion b));
     ("basis_snapshot_digest", JString (ipc.pb_basisSnapshotDigest b)); (revision, JInt (ipc.pb_revision b));
     ("operations", JArray [operation])] in
  objectShape payload (plan_fields revision) = true ∧ decodePlanBase payload revision = Some b ∧
  field "domain" payload = Some (VString domain) ∧ field "operations" payload = Some (VArray [value_of operation]).
Proof.
  intros (Ho & Hd & Hr) Hrev. cbn zeta. rewrite !elem_of_cons, elem_of_nil in Hrev.
  pose proof (positiveInt64_int (ipc.pb_revision b) ltac:(lia)) as Hi.
  destruct b as [o d n]. cbn [ipc.pb_ownerVersion ipc.pb_basisSnapshotDigest ipc.pb_revision] in *. subst o.
  set (payload := _ <$> _).
  assert (objectShape payload (plan_fields revision) = true ∧ field "owner_version" payload = Some (VString ipc.ownerVersionV1) ∧
    field "basis_snapshot_digest" payload = Some (VString d) ∧
    field revision payload = Some (VNumber (string_of_bytes (json_int n))) ∧
    field "domain" payload = Some (VString domain) ∧ field "operations" payload = Some (VArray [value_of operation]))
    as (H1 & H2 & H3 & H4 & H5 & H6) by (unfold payload; by destruct Hrev as [->|[->|[->|[]]]]).
  clearbody payload. split; [done|]. split; [|done]. unfold decodePlanBase. rewrite H2, H3, H4.
  cbn [as_string mbind option_bind]. rewrite Hi. cbn [mbind option_bind]. rewrite bool_decide_true by done. by rewrite Hd.
Qed.

Definition members_of (v : json) : list (string * value) :=
  match v with JObject m => (λ kv, (kv.1, value_of kv.2)) <$> m | _ => [] end.
Lemma decode_plan_infrastructure p :
  valid_plan (ipc.InfrastructurePlan (Some p)) →
  decodeManagedPlan (members_of (plan_wire_of (ipc.InfrastructurePlan (Some p)))) = Ok (ipc.InfrastructurePlan (Some p)).
Proof.
  intros [Hb Hv]. destruct p as [b v]. cbn in Hb, Hv. subst v.
  destruct (decode_base b ipc.DomainInfrastructure "infrastructure_revision"
    (infrastructureOperation (ipc.MkInfrastructurePlan b 1))) as (H1 & H2 & H3 & H4); [done|set_solver|].
  unfold members_of, plan_wire_of, plan_payload. cbn [ipc.il_base]. set (payload := _ <$> _) in *. clearbody payload.
  unfold decodeManagedPlan. rewrite H3. cbn [as_string or_schema mbind result_bind].
  rewrite bool_decide_true by done. unfold decodeInfrastructurePlan. rewrite H1, H2, H4. done.
Qed.
Lemma decode_plan_policy p :
  valid_plan (ipc.PolicyPlan (Some p)) →
  decodeManagedPlan (members_of (plan_wire_of (ipc.PolicyPlan (Some p)))) = Ok (ipc.PolicyPlan (Some p)).
Proof.
  intros (Hb & Ha & Hp & Hl & H2' & Hl4 & Hl6). destruct p as [b allow protected].
  cbn [ipc.pl_base ipc.pl_allowlist ipc.pl_protectedTargets] in *.
  destruct (decode_base b ipc.DomainPolicy "policy_revision"
    (policyOperation (ipc.MkPolicyPlan b allow protected))) as (H1 & H2 & H3 & H4); [done|set_solver|].
  unfold members_of, plan_wire_of, plan_payload. cbn [ipc.pl_base]. set (payload := _ <$> _) in *. clearbody payload.
  unfold decodeManagedPlan. rewrite H3. cbn [as_string or_schema mbind result_bind].
  rewrite bool_decide_false, bool_decide_true by done. unfold decodePolicyPlan, schema_if, reject_if. rewrite H1, H2, H4.
  cbn [negb fail_if or_schema mbind result_bind singleOperation as_array].
  destruct (schema_list_texts allow 0 Ha) as [Ha1 Ha2]; [lia|].
  destruct (schema_list_texts protected 2 Hp) as [Hp1 Hp2]; [lia|].
  set (operation := value_of _).
  assert (∃ o, as_object (Some operation) = Some o ∧ objectShape o ["kind"; "allowlist"; "protected_targets"] = true ∧
    field "kind" o = Some (VString "replace_policy") ∧ field "allowlist" o = Some (value_of (json_strings (texts allow))) ∧
    field "protected_targets" o = Some (value_of (json_strings (texts protected)))) as (o & -> & G1 & G2 & G3 & G4)
    by (eexists; split; [reflexivity|]; repeat split).
  cbn [or_schema mbind result_bind]. rewrite G1, G2, G3, G4, Ha1, Hp1. cbn [negb fail_if or_schema mbind result_bind as_string].
  rewrite (bool_decide_true ("replace_policy" = "replace_policy")) by done. cbn [negb fail_if mbind result_bind]. rewrite !length_fmap.
  replace (maxPlanPrefixes <? _)%nat with false by (symmetry; apply Nat.ltb_ge; lia). cbn [fail_if mbind result_bind].
  rewrite Ha2, Hp2. cbn [mbind result_bind]. rewrite !bool_decide_true; [done|..].
  - change "::1/128" with (Prefix_String loopback6). by apply list_elem_of_fmap_2.
  - change "127.0.0.0/8" with (Prefix_String loopback4). by apply list_elem_of_fmap_2.
Qed.
Lemma schema_scopes_valid scopes :
  scopes ∈ [[ipc.ScopeInput]; [ipc.ScopeForward]; [ipc.ScopeInput; ipc.ScopeForward]] →
  schemaScopes (Some (value_of (json_strings scopes))) = Some scopes ∧ scopes_out_of_order scopes = false.
Proof. rewrite !elem_of_cons, elem_of_nil. by intros [->|[->|[->|[]]]]. Qed.
Lemma decode_plan_target p :
  valid_plan (ipc.TargetPlan (Some p)) →
  decodeManagedPlan (members_of (plan_wire_of (ipc.TargetPlan (Some p)))) = Ok (ipc.TargetPlan (Some p)).
Proof.
  intros (Hb & Hw & Hc & Hl & Hm & Ht & Hx & Hi & Hs). destruct p as [b t m md u h s].
  cbn [ipc.tl_base ipc.tl_target ipc.tl_membership ipc.tl_timeoutMode ipc.tl_effectiveUntilUnixMicro
       ipc.tl_hasEffectiveUntil ipc.tl_scopes] in *.
  destruct (decode_base b ipc.DomainTarget "target_generation"
    (targetOperation (ipc.MkTargetPlan b t m md u h s))) as (H1 & H2 & H3 & H4); [done|set_solver|].
  unfold members_of, plan_wire_of, plan_payload. cbn [ipc.tl_base]. set (payload := _ <$> _) in *. clearbody payload.
  unfold decodeManagedPlan. rewrite H3. cbn [as_string or_schema mbind result_bind].
  rewrite bool_decide_false, bool_decide_false, bool_decide_true by done.
  unfold decodeTargetPlan, schema_if, reject_if. rewrite H1, H2, H4.
  cbn [negb fail_if or_schema mbind result_bind singleOperation as_array].
  destruct (Prefix_String_plain t Hw (canonical_valid t Hc)) as (_ & _ & Hsp).
  destruct (schema_scopes_valid s Hs) as [Hs1 Hs2].
  set (operation := value_of _).
  assert (∃ o, as_object (Some operation) = Some o ∧
    objectShape o ["kind"; "target"; "membership"; "timeout_mode"; "effective_until_unix_us"; "scopes"] = true ∧
    field "kind" o = Some (VString "set_target") ∧ field "target" o = Some (VString (Prefix_String t)) ∧
    field "membership" o = Some (VString m) ∧ field "timeout_mode" o = Some (VString md) ∧
    field "effective_until_unix_us" o = Some (value_of (if h then JInt u else JNull)) ∧
    field "scopes" o = Some (value_of (json_strings s))) as (o & -> & G1 & G2 & G3 & G4 & G5 & G6 & G7)
    by (eexists; split; [reflexivity|]; repeat split).
  assert (nullablePositiveInt64 (Some (value_of (if h then JInt u else JNull))) = Some (if h then Some u else None)) as Hn.
  { destruct h; [|done]. cbn [value_of nullablePositiveInt64]. by rewrite positiveInt64_int. }
  cbn [or_schema mbind result_bind]. rewrite G1, G2, G3, G4, G5, G6, G7. cbn [mbind option_bind]. rewrite Hsp, Hs1, Hn.
  cbn [negb fail_if or_schema mbind result_bind as_string]. unfold one_of. rewrite !bool_decide_true by done.
  cbn [negb fail_if mbind result_bind]. rewrite canonicalPrefix_String by done. cbn [mbind result_bind].
  rewrite Hl, Hs2. cbn [fail_if mbind result_bind]. destruct h; cbn [is_nil negb default]; rewrite Hi; [done|].
  rewrite Hx. done.
Qed.

(** The decoder reads back every valid request. *)
Lemma valid_decodes r : valid_request r → DecodeRequest (json_Marshal (wire_of r)) = Ok (Mutation r).
Proof.
  intros Hv. pose proof (valid_wire_plain r Hv) as Hp. destruct (wire_limits r Hv) as (Hd & Ht & Hs).
  pose proof (marshal_length _ Hp) as Hl.
  destruct r as [[[plan|]|]|[owner|]]; try done; cbn [valid_request wire_of] in *.
  - unfold request_wire in *. rewrite DecodeRequest_marshal by (done || lia).
    assert (∃ m, plan_wire_of plan = JObject m) as [m Hm] by by destruct plan as [[]|[]|[]]; try done; eexists.
    assert (decodeManagedPlan (members_of (plan_wire_of plan)) = Ok plan) as Hdec.
    { destruct plan as [[p|]|[p|]|[p|]]; try done;
        [by apply decode_plan_infrastructure|by apply decode_plan_policy|by apply decode_plan_target]. }
    rewrite Hm in Hdec |- *. unfold decodeRequestObject.
    set (root := _ <$> _).
    assert (objectShape root ["version"; "operation"; "payload"] = true ∧ positiveInt64 (field "version" root) = Some 1 ∧
      as_string (field "operation" root) = Some ipc.OperationApplyManagedPlan ∧
      as_object (field "payload" root) = Some (members_of (JObject m))) as (-> & -> & -> & ->) by done.
    cbn [or_schema mbind result_bind negb Z.eqb Pos.eqb schema_if reject_if fail_if].
    rewrite bool_decide_false, bool_decide_false, bool_decide_true by done. by rewrite Hdec.
  - subst owner. by vm_compute.
Qed.

(** ** Every decoded request is valid *)
Lemma or_schema_Ok {A} (o : option A) a : or_schema o = Ok a → o = Some a.
Proof. destruct o; [by intros [= <-]|done]. Qed.
Lemma decodePlanBase_valid payload revision b : decodePlanBase payload revision = Some b → valid_base b.
Proof.
  unfold decodePlanBase. destruct (as_string (field "owner_version" payload)) as [o|]; [|done]. cbn [mbind option_bind].
  destruct (as_string (field "basis_snapshot_digest" payload)) as [d|]; [|done]. cbn [mbind option_bind].
  destruct (positiveInt64 (field revision payload)) as [n|] eqn:Hn; [|done]. cbn [mbind option_bind].
  destruct (_ || _) eqn:Hg; [done|]. intros [= <-]. gobool. apply positiveInt64_range in Hn.
  destruct Hg. by split.
Qed.
(** Inversion of the checks of a decoder. *)
Ltac inv_decode H :=
  repeat match type of H with
  | (schema_if _ ≫= _) = Ok _ =>
      let G := fresh "G" in apply result_bind_Ok in H as ([] & G & H); apply fail_if_Ok in G
  | (reject_if _ _ ≫= _) = Ok _ =>
      let G := fresh "G" in apply result_bind_Ok in H as ([] & G & H); apply fail_if_Ok in G
  | (or_schema _ ≫= _) = Ok _ =>
      let x := fresh "x" in let G := fresh "G" in apply result_bind_Ok in H as (x & G & H); apply or_schema_Ok in G
  end.
Lemma decoded_infrastructure payload plan : decodeInfrastructurePlan payload = Ok plan → valid_plan plan.
Proof.
  unfold decodeInfrastructurePlan. intros Hd. inv_decode Hd. injection Hd as <-.
  apply decodePlanBase_valid in G0. split; [done|]. cbn. gobool. tauto.
Qed.
Lemma mandatory_text t p ps : canonicalPrefix t = Ok p → t ∈ texts ps → canonical_prefixes ps → p ∈ ps.
Proof.
  intros Hp (q & -> & Hin)%list_elem_of_fmap (Hw & Hc & _). rewrite Forall_forall in Hw, Hc.
  rewrite canonicalPrefix_String in Hp by auto. by injection Hp as <-.
Qed.
Lemma decoded_policy payload plan : decodePolicyPlan payload = Ok plan → valid_plan plan.
Proof.
  unfold decodePolicyPlan. intros Hd. inv_decode Hd.
  apply result_bind_Ok in Hd as (ps & Hps & Hd). apply result_bind_Ok in Hd as (qs & Hqs & Hd). inv_decode Hd.
  injection Hd as <-. apply decodePlanBase_valid in G0.
  destruct (schema_list_inv _ _ _ _ G4 Hps) as (-> & Hcp & _). destruct (schema_list_inv _ _ _ _ G5 Hqs) as (-> & Hcq & Hl).
  rewrite !length_fmap in G7. apply Nat.ltb_ge in G7. gobool. destruct G8 as [H4 H6].
  split; [done|]. split; [done|]. split; [done|]. split; [done|]. split; [cbn; lia|]. cbn.
  split; eapply mandatory_text; [|exact H4|done| |exact H6|done]; by vm_compute.
Qed.
Lemma schema_scopes_sound seen items l :
  schema_scopes seen items = Some l →
  Forall (λ s, validScope s = true) l ∧ NoDup l ∧ (∀ s, s ∈ l → s ∉ seen) ∧ length l = length items.
Proof.
  revert seen l. induction items as [|v items IH]; intros seen l; cbn [schema_scopes].
  { intros [= <-]. split; [done|]. split; [constructor|]. split; [set_solver|done]. }
  destruct (as_string (Some v)) as [s|]; [|done]. cbn [mbind option_bind]. destruct (_ || _) eqn:Hg; [done|]. gobool.
  destruct (schema_scopes (s :: seen) items) as [l'|] eqn:Hl; [|done]. intros [= <-].
  apply IH in Hl as (Hv & Hn & Hs & Hlen). destruct Hg as [Hg1 Hg2]. split; [by constructor|]. split; [|split].
  - apply NoDup_cons. split; [|done]. intros Hin. apply (Hs s Hin). left.
  - intros s' [->|Hin]%elem_of_cons; [done|]. specialize (Hs s' Hin). set_solver.
  - cbn. by rewrite Hlen.
Qed.
Lemma schemaScopes_valid v scopes :
  schemaScopes v = Some scopes → scopes_out_of_order scopes = false →
  scopes ∈ [[ipc.ScopeInput]; [ipc.ScopeForward]; [ipc.ScopeInput; ipc.ScopeForward]].
Proof.
  unfold schemaScopes. destruct (as_array v) as [items|]; [|done]. cbn [mbind option_bind].
  destruct (_ || _) eqn:Hg; [done|]. intros Hs Ho. apply schema_scopes_sound in Hs as (Hv & Hn & _ & Hl).
  apply valid_scopes. unfold validatedScopeList, schema_if, reject_if. rewrite Hl, Hg, Ho.
  replace (forallb validScope scopes) with true by (symmetry; apply forallb_true_iff; by apply Forall_forall).
  by rewrite bool_decide_true.
Qed.
Lemma decoded_target payload plan : decodeTargetPlan payload = Ok plan → valid_plan plan.
Proof.
  unfold decodeTargetPlan. intros Hd. inv_decode Hd. apply result_bind_Ok in Hd as (t & Ht & Hd). inv_decode Hd.
  injection Hd as <-. apply decodePlanBase_valid in G0. apply canonicalPrefix_Ok in Ht as (Hw & Hc & _).
  unfold one_of in *. apply negb_false_iff, bool_decide_true_iff in G10, G11.
  split; [done|]. split; [done|]. split; [done|]. split; [done|]. split; [done|]. split; [done|]. cbn.
  split; [|split; [done|by eapply schemaScopes_valid]].
  destruct x5 as [n|]; [|done]. cbn. unfold nullablePositiveInt64 in G7.
  destruct (field "effective_until_unix_us" x0) as [[]|] eqn:Hf; try done;
    (destruct (positiveInt64 _) as [n'|] eqn:Hn; [|done]); injection G7 as ->; by apply positiveInt64_range in Hn.
Qed.
Lemma decoded_valid raw r : DecodeRequest raw = Ok (Mutation r) → valid_request r.
Proof.
  unfold DecodeRequest. intros Hd. inv_decode Hd. apply result_bind_Ok in Hd as ([] & _ & Hd).
  destruct (Decode raw) as [[]|]; try done. unfold decodeRequestObject in Hd. inv_decode Hd.
  destruct (bool_decide _) in Hd; [inv_decode Hd; done|]. destruct (bool_decide _) in Hd; [inv_decode Hd; done|].
  destruct (bool_decide _) in Hd.
  - apply result_bind_Ok in Hd as (plan & Hp & [= <-]). unfold decodeManagedPlan in Hp. inv_decode Hp. cbn.
    destruct (bool_decide _) in Hp; [by eapply decoded_infrastructure|].
    destruct (bool_decide _) in Hp; [by eapply decoded_policy|].
    destruct (bool_decide _) in Hp; [by eapply decoded_target|done].
  - destruct (bool_decide _) in Hd; [|done]. inv_decode Hd. injection Hd as <-. cbn. gobool. done.
Qed.

Lemma valid_typed r : valid_request r → typed_request r.
Proof.
  destruct r as [[[plan|]|]|]; try done. cbn. destruct plan as [[p|]|[p|]|[p|]]; try done; cbn.
  - intros [(_ & _ & Hr) _]. split; [cbn; lia|done].
  - intros ((_ & _ & Hr) & (Ha & _) & (Hp & _) & _). split; [cbn; lia|done].
  - intros ((_ & _ & Hr) & Hw & _ & _ & _ & _ & Hx & _). split; [cbn; lia|]. split; [done|].
    destruct (ipc.tl_hasEffectiveUntil p); [lia|]. unfold max_int64. lia.
Qed.

(** C37: The codec of mutation requests. A request whose Go types are respected
    is encoded exactly when it is valid (so no valid plan, not even one with
    1,024 prefixes, exceeds a limit of the decoder on bytes, depth or tokens),
    and its bytes decode to the very same request. *)
Theorem mutation_request_roundtrip r :
  typed_request r →
  (valid_request r ↔ ∃ raw, EncodeMutationRequest r = Ok raw) ∧
  ∀ raw, EncodeMutationRequest r = Ok raw → DecodeRequest raw = Ok (Mutation r).
Proof.
  intros Ht. unfold EncodeMutationRequest.
  assert (valid_request r → mutationRequestToWire r = Ok (wire_of r)) as Hw by (intros Hv; by apply toWire_iff).
  split.
  - split; [|by intros (raw & (w & [_ ?]%toWire_iff & _)%result_bind_Ok)].
    intros Hv. rewrite Hw by done. cbn [mbind result_bind]. rewrite valid_decodes by done. by eexists.
  - intros raw Hr. apply result_bind_Ok in Hr as (w & Hwire & Hr). apply toWire_iff in Hwire as [-> Hv]; [|done].
    rewrite valid_decodes in Hr by done. injection Hr as <-. by apply valid_decodes.
Qed.

(** C38: Whatever bytes arrive, a decoded mutation request is valid: its prefixes
    are canonical, sorted and without duplicates, a policy protects both
    loopback ranges and holds at most 1,024 prefixes, a target overlaps neither
    loopback range and its expiry fits its mode; and re-encoding it gives bytes
    that decode to it again. *)
Theorem decoded_requests_are_valid raw r :
  DecodeRequest raw = Ok (Mutation r) →
  valid_request r ∧ ∃ raw', EncodeMutationRequest r = Ok raw' ∧ DecodeRequest raw' = Ok (Mutation r).
Proof.
  intros Hd. pose proof (decoded_valid raw r Hd) as Hv. split; [done|].
  exists (json_Marshal (wire_of r)). pose proof (valid_decodes r Hv) as Hdec. split; [|done].
  unfold EncodeMutationRequest. rewrite (proj2 (toWire_iff r (wire_of r) (valid_typed r Hv))) by done.
  cbn [mbind result_bind]. by rewrite Hdec.
Qed.

(** The bytes of the sample request. *)
Definition sample_bytes : list Z :=
  match EncodeMutationRequest sample_target with Ok raw => raw | Err _ => [] end.

Lemma mutation_request_roundtrip_witness :
  valid_request sample_target ∧ DecodeRequest sample_bytes = Ok (Mutation sample_target).
Proof.
  assert (typed_request sample_target) as Ht.
  { split; [|split; [repeat split|]]; vm_compute; congruence. }
  destruct (mutation_request_roundtrip sample_target Ht) as [[_ Hv] Hd].
  split; [apply Hv; exists sample_bytes; vm_compute; reflexivity|apply Hd; vm_compute; reflexivity].
Defined.

Lemma decoded_requests_are_valid_witness :
  DecodeRequest sample_bytes = Ok (Mutation sample_target) ∧ valid_request sample_target.
Proof.
  assert (DecodeRequest sample_bytes = Ok (Mutation sample_target)) as Hd by (vm_compute; reflexivity).
  split; [exact Hd|]. exact (proj1 (decoded_requests_are_valid sample_bytes sample_target Hd)).
Defined.
