(* ===== verification/IpcResponses.v ===== *)
(** * The codecs of IPC responses (internal/ipc: response.go, probe_response.go, snapshot_response.go)

    The JSON text of the responses to a mutation, to a capability probe and to
    a snapshot, and their strict decoders; with the fixed requests of
    probe_request.go and snapshot_request.go. A response that is nil, or whose
    pointer is, is [None]. The three decoders begin with the same code, each with
    its own limits and error type. *)

From S2P Require Import Prelude GoStd Sha256 Netip Identity NetipParse CoreModel Json JsonDecode Firewall Ipc IpcCodec.

(** ** The fixed requests *)
Definition empty_request (operation : ipc.Operation) : json := request_wire operation (JObject []).
(** EncodeProbeCapabilitiesRequest and EncodeSnapshotManagedRequest; the request
    is a pointer to an empty struct. *)
Definition encode_empty_request (operation : ipc.Operation) (request : option unit) : result (list Z) :=
  schema_if (is_nil request);;
  let raw := json_Marshal (empty_request operation) in
  reject_if (maxRequestBytes <? Z.of_nat (length raw)) ErrorCodeRequestTooLarge;;
  Ok raw.
Definition EncodeProbeCapabilitiesRequest := encode_empty_request ipc.OperationProbeCapabilities.
Definition EncodeSnapshotManagedRequest := encode_empty_request ipc.OperationSnapshotManaged.
Definition NewProbeCapabilitiesRequest : option unit := Some tt.
Definition NewSnapshotManagedRequest : option unit := Some tt.

(** ** What the decoders share *)
Definition as_bool (v : option value) : option bool :=
  match v with Some (VBool b) => Some b | _ => None end.
(** The error of a codec from its code. *)
Section codec.
Context (maxBytes : Z) (L : scan_limits).
Definition codec_if (bad : bool) (code : string) : result unit := fail_if bad (lim_error L code).
Definition or_code {A} (o : option A) (code : string) : result A :=
  match o with Some a => Ok a | None => Err (lim_error L code) end.
(** An error is replaced by the codec's own. *)
Definition or_semantic {A} (r : result A) : result A :=
  match r with Ok a => Ok a | Err _ => Err (lim_error L "semantic_rejected") end.
(** Size, encoding, token scan, and the object at the root. *)
Definition decode_root (raw : list Z) : result (list (string * value)) :=
  codec_if (maxBytes <? Z.of_nat (length raw)) "response_too_large";;
  codec_if (negb (utf8_valid raw)) "invalid_utf8";;
  scan_json L raw;;
  match Decode raw with
  | None => Err (lim_error L "invalid_json")
  | Some v => or_code (as_object (Some v)) "schema_rejected"
  end.
Definition encode_root (wire : json) : result (list Z) :=
  let raw := json_Marshal wire in
  codec_if (maxBytes <? Z.of_nat (length raw)) "response_too_large";;
  Ok raw.
Definition version_1 (root : list (string * value)) : bool :=
  match positiveInt64 (field "version" root) with Some v => v =? 1 | None => false end.
(** A payload or an error code; the operation is fixed. *)
Definition decode_payload {A} (operation : ipc.Operation) (success : option value → result A)
    (failure : string → result A) (raw : list Z) : result A :=
  root ← decode_root raw;
  codec_if (negb (version_1 root)) "schema_rejected";;
  codec_if (negb (bool_decide (as_string (field "operation" root) = Some operation))) "schema_rejected";;
  if objectShape root ["version"; "operation"; "payload"] then success (field "payload" root)
  else if objectShape root ["version"; "operation"; "error_code"] then
    code ← or_code (as_string (field "error_code" root)) "schema_rejected"; failure code
  else Err (lim_error L "schema_rejected").
End codec.
Definition failure_wire (operation : ipc.Operation) (code : string) : json :=
  JObject [("version", JInt 1); ("operation", JString operation); ("error_code", JString code)].

(** ** Mutation responses (response.go) *)
Definition maxMutationResponseBytes : Z := 4 * 1024.
Definition maxMutationResponseDepth : Z := 2.
Definition maxMutationResponseTokens : Z := 32.
Definition mutation_response_limits : scan_limits :=
  MkLimits maxMutationResponseDepth maxMutationResponseTokens ipc.mutationResponseError.
Definition scanMutationResponseValue := scan_value mutation_response_limits.
Definition scanMutationResponseJSON (raw : list Z) : result unit := scan_json mutation_response_limits raw.

Definition error_member (b : ipc.mutationResponseBase) : list (string * json) :=
  if ipc.rb_hasErrorCode b then [("error_code", JString (ipc.rb_errorCode b))] else [].
Definition mutation_response_wire (r : ipc.MutationResponse) : json :=
  match r with
  | ipc.ApplyManagedPlanResponse b domain =>
    JObject ([("version", JInt 1); ("operation", JString ipc.OperationApplyManagedPlan);
              ("status", JString (ipc.rb_status b)); ("domain", JString domain)] ++ error_member b)
  | ipc.RemoveManagedInfrastructureResponse b =>
    JObject ([("version", JInt 1); ("operation", JString ipc.OperationRemoveManagedInfrastructure);
              ("status", JString (ipc.rb_status b))] ++ error_member b)
  end.
Definition response_valid (r : ipc.MutationResponse) : bool :=
  match r with
  | ipc.ApplyManagedPlanResponse b domain =>
    ipc.validMutationDomain domain
    && ipc.validApplyResponseState (ipc.rb_status b) (ipc.rb_errorCode b) (ipc.rb_hasErrorCode b)
  | ipc.RemoveManagedInfrastructureResponse b =>
    ipc.validRemoveResponseState (ipc.rb_status b) (ipc.rb_errorCode b) (ipc.rb_hasErrorCode b)
  end.
Definition EncodeMutationResponse (response : option ipc.MutationResponse) : result (list Z) :=
  match response with
  | None => Err (ipc.mutationResponseError "schema_rejected")
  | Some r =>
    fail_if (negb (response_valid r)) (ipc.mutationResponseError "schema_rejected");;
    encode_root maxMutationResponseBytes mutation_response_limits (mutation_response_wire r)
  end.

(** The error code that a status requires: the code and whether there is one. *)
Definition decode_status (root : list (string * value)) (status : ipc.MutationStatus) (fields : list string)
    : option (ipc.MutationErrorCode * bool) :=
  if bool_decide (status = ipc.MutationStatusConfirmed) then
    if objectShape root fields then Some (EmptyString, false) else None
  else if bool_decide (status = ipc.MutationStatusRejected) || bool_decide (status = ipc.MutationStatusUnknown) then
    if negb (objectShape root (fields ++ ["error_code"])) then None
    else code ← as_string (field "error_code" root); Some (code, true)
  else None.
Definition decodeApplyManagedPlanResponse (root : list (string * value)) (status : ipc.MutationStatus)
    : option ipc.MutationResponse :=
  c ← decode_status root status ["version"; "operation"; "status"; "domain"];
  domain ← as_string (field "domain" root);
  match ipc.newApplyManagedPlanResponse domain status c.1 c.2 with Ok r => Some r | Err _ => None end.
Definition decodeRemoveManagedInfrastructureResponse (root : list (string * value)) (status : ipc.MutationStatus)
    : option ipc.MutationResponse :=
  c ← decode_status root status ["version"; "operation"; "status"];
  if negb (ipc.validRemoveResponseState status c.1 c.2) then None
  else Some (ipc.RemoveManagedInfrastructureResponse (ipc.MkResponseBase status c.1 c.2)).
Definition decodeMutationResponseObject (root : list (string * value)) : option ipc.MutationResponse :=
  if negb (version_1 root) then None
  else
    operation ← as_string (field "operation" root);
    status ← as_string (field "status" root);
    if bool_decide (operation = ipc.OperationApplyManagedPlan) then decodeApplyManagedPlanResponse root status
    else if bool_decide (operation = ipc.OperationRemoveManagedInfrastructure)
    then decodeRemoveManagedInfrastructureResponse root status
    else None.
Definition DecodeMutationResponse (raw : list Z) : result ipc.MutationResponse :=
  root ← decode_root maxMutationResponseBytes mutation_response_limits raw;
  or_code mutation_response_limits (decodeMutationResponseObject root) "schema_rejected".

(** ** Probe responses (probe_response.go) *)
Definition maxProbeCapabilitiesResponseBytes : Z := 4 * 1024.
Definition maxProbeCapabilitiesResponseDepth : Z := 2.
Definition maxProbeCapabilitiesResponseTokens : Z := 64.
Abbreviation ProbeCapabilitiesFailureCode := string.
Definition ProbeCapabilitiesFailureCodeUnsupported : ProbeCapabilitiesFailureCode := "unsupported".
Definition ProbeCapabilitiesFailureCodeNotReady : ProbeCapabilitiesFailureCode := "not_ready".
Definition probeCapabilitiesResponseError (code : string) : error :=
  Typed "ProbeCapabilitiesResponseError" [code] (Errorf "ipc probe capabilities response rejected").
Definition probe_limits : scan_limits :=
  MkLimits maxProbeCapabilitiesResponseDepth maxProbeCapabilitiesResponseTokens probeCapabilitiesResponseError.
Definition scanProbeCapabilitiesResponseValue := scan_value probe_limits.
Definition scanProbeCapabilitiesResponseJSON (raw : list Z) : result unit := scan_json probe_limits raw.

Inductive ProbeCapabilitiesResponse :=
  | probeCapabilitiesSuccessResponse (capabilities : FirewallCapabilities)
  | probeCapabilitiesFailureResponse (failureCode : ProbeCapabilitiesFailureCode).
Definition validProbeCapabilitiesFailureCode (code : ProbeCapabilitiesFailureCode) : bool :=
  one_of code [ProbeCapabilitiesFailureCodeUnsupported; ProbeCapabilitiesFailureCodeNotReady].
Definition NewProbeCapabilitiesSuccessResponse (c : FirewallCapabilities) : result ProbeCapabilitiesResponse :=
  fail_if (negb (is_ok (Capabilities_Validate c))) (probeCapabilitiesResponseError "semantic_rejected");;
  Ok (probeCapabilitiesSuccessResponse c).
Definition NewProbeCapabilitiesFailureResponse (code : ProbeCapabilitiesFailureCode) : result ProbeCapabilitiesResponse :=
  fail_if (negb (validProbeCapabilitiesFailureCode code)) (probeCapabilitiesResponseError "schema_rejected");;
  Ok (probeCapabilitiesFailureResponse code).

(** The fields of probeCapabilitiesPayloadWire that are booleans. *)
Definition capability_flags (c : FirewallCapabilities) : list (string * bool) :=
  [("ipv4", fc_ipv4 c); ("ipv6", fc_ipv6 c); ("cidr", fc_cidr c); ("native_set", fc_nativeSet c);
   ("native_timeout", fc_nativeTimeout c); ("crash_safe_expiry", fc_crashSafeExpiry c);
   ("atomic_batch", fc_atomicBatch c); ("host_input", fc_hostInput c); ("forward", fc_forward c);
   ("ufw_integration_proven", fc_ufwIntegrationProven c);
   ("docker_integration_proven", fc_dockerIntegrationProven c);
   ("ownership_proven", fc_ownershipProven c); ("mutation_ready", fc_mutationReady c)].
Definition probeCapabilitiesPayloadFromDomain (c : FirewallCapabilities) : json :=
  JObject ([("backend", JString (fc_backend c)); ("tool_version", JString (fc_toolVersion c))]
           ++ ((λ f, (f.1, JBool f.2)) <$> capability_flags c)).
Definition EncodeProbeCapabilitiesResponse (response : option ProbeCapabilitiesResponse) : result (list Z) :=
  match response with
  | Some (probeCapabilitiesSuccessResponse c) =>
    fail_if (negb (is_ok (Capabilities_Validate c))) (probeCapabilitiesResponseError "semantic_rejected");;
    encode_root maxProbeCapabilitiesResponseBytes probe_limits
      (request_wire ipc.OperationProbeCapabilities (probeCapabilitiesPayloadFromDomain c))
  | Some (probeCapabilitiesFailureResponse code) =>
    fail_if (negb (validProbeCapabilitiesFailureCode code)) (probeCapabilitiesResponseError "schema_rejected");;
    encode_root maxProbeCapabilitiesResponseBytes probe_limits
      (failure_wire ipc.OperationProbeCapabilities code)
  | None => Err (probeCapabilitiesResponseError "schema_rejected")
  end.

Definition validProbeCapabilitiesWireBackend (backend : string) : bool :=
  one_of backend [BackendKindNftablesNative; BackendKindIptablesNFT; BackendKindIptablesLegacy].
Definition validProbeCapabilitiesWireToolVersion (version : string) : bool :=
  let l := string_bytes version in
  match head l, last l with
  | Some a, Some b => (String.length version <=? 128)%nat && negb (a =? 32) && negb (b =? 32) && forallb (in_range 0x20 0x7e) l
  | _, _ => false
  end.
Definition decodeProbeCapabilitiesSuccess (v : option value) : result ProbeCapabilitiesResponse :=
  let schema {A} (o : option A) := or_code probe_limits o "schema_rejected" in
  payload ← schema (as_object v);
  codec_if probe_limits (negb (objectShape payload
    (["backend"; "tool_version"] ++ (capability_flags zero_capabilities).*1))) "schema_rejected";;
  backend ← schema (as_string (field "backend" payload));
  toolVersion ← schema (as_string (field "tool_version" payload));
  let flag name := schema (as_bool (field name payload)) in
  ipv4 ← flag "ipv4"; ipv6 ← flag "ipv6"; cidr ← flag "cidr"; nativeSet ← flag "native_set";
  nativeTimeout ← flag "native_timeout"; crashSafeExpiry ← flag "crash_safe_expiry";
  atomicBatch ← flag "atomic_batch"; hostInput ← flag "host_input"; forward ← flag "forward";
  ufw ← flag "ufw_integration_proven"; docker ← flag "docker_integration_proven";
  ownership ← flag "ownership_proven"; mutationReady ← flag "mutation_ready";
  codec_if probe_limits (negb (validProbeCapabilitiesWireBackend backend)
                         || negb (validProbeCapabilitiesWireToolVersion toolVersion)) "schema_rejected";;
  c ← or_semantic probe_limits (NewFirewallCapabilities
        (MkCapabilities backend toolVersion ipv4 ipv6 cidr nativeSet nativeTimeout crashSafeExpiry atomicBatch
           hostInput forward ufw docker ownership mutationReady));
  Ok (probeCapabilitiesSuccessResponse c).
Definition DecodeProbeCapabilitiesResponse (raw : list Z) : result ProbeCapabilitiesResponse :=
  decode_payload maxProbeCapabilitiesResponseBytes probe_limits ipc.OperationProbeCapabilities
    decodeProbeCapabilitiesSuccess NewProbeCapabilitiesFailureResponse raw.

(** ** Snapshot responses (snapshot_response.go) *)
Definition maxSnapshotManagedResponseBytes : Z := 2 ^ 20.
Definition maxSnapshotManagedResponseDepth : Z := 4.
Definition maxSnapshotManagedResponseTokens : Z := 32768.
Definition snapshotManagedMembershipPresent : string := "present".
Abbreviation SnapshotManagedFailureCode := string.
Definition SnapshotManagedFailureCodeUnsupported : SnapshotManagedFailureCode := "unsupported".
Definition SnapshotManagedFailureCodeNotReady : SnapshotManagedFailureCode := "not_ready".
Definition SnapshotManagedFailureCodeOwnershipConflict : SnapshotManagedFailureCode := "ownership_conflict".
Definition snapshotManagedResponseError (code : string) : error :=
  Typed "SnapshotManagedResponseError" [code] (Errorf "ipc managed snapshot response rejected").
Definition snapshot_limits : scan_limits :=
  MkLimits maxSnapshotManagedResponseDepth maxSnapshotManagedResponseTokens snapshotManagedResponseError.
Definition scanSnapshotManagedResponseValue := scan_value snapshot_limits.
Definition scanSnapshotManagedResponseJSON (raw : list Z) : result unit := scan_json snapshot_limits raw.

Inductive SnapshotManagedResponse :=
  | snapshotManagedSuccessResponse (snapshot : ManagedSnapshot)
  | snapshotManagedFailureResponse (failureCode : SnapshotManagedFailureCode).
Definition validSnapshotManagedFailureCode (code : SnapshotManagedFailureCode) : bool :=
  one_of code [SnapshotManagedFailureCodeUnsupported; SnapshotManagedFailureCodeNotReady;
               SnapshotManagedFailureCodeOwnershipConflict].
Definition NewSnapshotManagedSuccessResponse (s : ManagedSnapshot) : result SnapshotManagedResponse :=
  fail_if (negb (is_ok (ManagedSnapshot_Validate s))) (snapshotManagedResponseError "semantic_rejected");;
  Ok (snapshotManagedSuccessResponse s).
Definition NewSnapshotManagedFailureResponse (code : SnapshotManagedFailureCode) : result SnapshotManagedResponse :=
  fail_if (negb (validSnapshotManagedFailureCode code)) (snapshotManagedResponseError "schema_rejected");;
  Ok (snapshotManagedFailureResponse code).

Definition snapshotInfrastructureWire (o : InfrastructureObservation) : json :=
  JObject [("backend", JString (ob_backend o)); ("owner_version", JString (ob_ownerVersion o));
           ("schema_version", JInt (ob_schemaVersion o)); ("digest", JString (ob_infraDigest o))].
Definition snapshotPolicyWire (o : PolicyObservation) : json :=
  JObject [("relation_digest", JString (ob_relationDigest o))].
Definition snapshotTargetWire (o : TargetObservation) : json :=
  JObject [("target", JString (Prefix_String (ob_target o)));
           ("membership", JString snapshotManagedMembershipPresent);
           ("timeout_mode", JString (ob_timeoutMode o));
           ("effective_until_unix_us", json_option JInt (ob_effectiveUntil o));
           ("input", JBool (bool_decide (ManagedScopeInput ∈ ob_scopes o)));
           ("forward", JBool (bool_decide (ManagedScopeForward ∈ ob_scopes o)))].
Definition or_null {A} (f : A → json) (o : option A) : json := match o with Some a => f a | None => JNull end.
Definition snapshotManagedPayloadFromDomain (s : ManagedSnapshot) : json :=
  let state := sp_managedState s in
  JObject [("snapshot_digest", JString (sp_digest s));
           ("infrastructure", or_null snapshotInfrastructureWire (ms_infrastructure state));
           ("policy", or_null snapshotPolicyWire (ms_policy state));
           ("targets", JArray (snapshotTargetWire <$> ms_targets state));
           ("foreign_context_digest", JString (fx_digest (sp_foreignContext s)))].
Definition EncodeSnapshotManagedResponse (response : option SnapshotManagedResponse) : result (list Z) :=
  match response with
  | Some (snapshotManagedSuccessResponse s) =>
    fail_if (negb (is_ok (ManagedSnapshot_Validate s))) (snapshotManagedResponseError "semantic_rejected");;
    encode_root maxSnapshotManagedResponseBytes snapshot_limits
      (request_wire ipc.OperationSnapshotManaged (snapshotManagedPayloadFromDomain s))
  | Some (snapshotManagedFailureResponse code) =>
    fail_if (negb (validSnapshotManagedFailureCode code)) (snapshotManagedResponseError "schema_rejected");;
    encode_root maxSnapshotManagedResponseBytes snapshot_limits
      (failure_wire ipc.OperationSnapshotManaged code)
  | None => Err (snapshotManagedResponseError "schema_rejected")
  end.

Definition validSnapshotManagedDigest (digest : string) : bool :=
  (String.length digest =? 64)%nat && forallb lower_hex (string_bytes digest).
Definition snapshot_schema {A} (o : option A) : result A := or_code snapshot_limits o "schema_rejected".
Definition decodeSnapshotInfrastructure (v : option value) : result (option InfrastructureObservation) :=
  match v with
  | None | Some VNull => Ok None
  | _ =>
    object ← snapshot_schema (as_object v);
    codec_if snapshot_limits (negb (objectShape object ["backend"; "owner_version"; "schema_version"; "digest"]))
      "schema_rejected";;
    backend ← snapshot_schema (as_string (field "backend" object));
    owner ← snapshot_schema (as_string (field "owner_version" object));
    schemaVersion ← snapshot_schema (positiveInt64 (field "schema_version" object));
    digest ← snapshot_schema (as_string (field "digest" object));
    codec_if snapshot_limits (negb (validSnapshotManagedDigest digest)) "schema_rejected";;
    o ← or_semantic snapshot_limits (NewInfrastructureObservation backend owner schemaVersion digest);
    Ok (Some o)
  end.
Definition decodeSnapshotPolicy (v : option value) : result (option PolicyObservation) :=
  match v with
  | None | Some VNull => Ok None
  | _ =>
    object ← snapshot_schema (as_object v);
    codec_if snapshot_limits (negb (objectShape object ["relation_digest"])) "schema_rejected";;
    digest ← snapshot_schema (as_string (field "relation_digest" object));
    codec_if snapshot_limits (negb (validSnapshotManagedDigest digest)) "schema_rejected";;
    o ← or_semantic snapshot_limits (NewPolicyObservation digest);
    Ok (Some o)
  end.
(** One turn of the loop: the target and its text. *)
Definition decode_snapshot_target (previous : string) (item : value) : result (TargetObservation * string) :=
  object ← snapshot_schema (as_object (Some item));
  codec_if snapshot_limits (negb (objectShape object
    ["target"; "membership"; "timeout_mode"; "effective_until_unix_us"; "input"; "forward"])) "schema_rejected";;
  targetText ← snapshot_schema (as_string (field "target" object));
  membership ← snapshot_schema (as_string (field "membership" object));
  timeoutText ← snapshot_schema (as_string (field "timeout_mode" object));
  input ← snapshot_schema (as_bool (field "input" object));
  forward ← snapshot_schema (as_bool (field "forward" object));
  codec_if snapshot_limits (negb (bool_decide (membership = snapshotManagedMembershipPresent))) "schema_rejected";;
  codec_if snapshot_limits (negb input && negb forward) "semantic_rejected";;
  prefix ← or_semantic snapshot_limits (ParsePrefix targetText);
  codec_if snapshot_limits (negb (bool_decide (Prefix_String prefix = targetText))
                            || (negb (is_empty previous) && negb (String.ltb previous targetText)))
    "semantic_rejected";;
  expiry ← snapshot_schema (nullablePositiveInt64 (field "effective_until_unix_us" object));
  o ← or_semantic snapshot_limits (NewTargetObservation prefix timeoutText expiry
        ((if (input : bool) then [ManagedScopeInput] else []) ++ (if (forward : bool) then [ManagedScopeForward] else [])));
  Ok (o, targetText).
Fixpoint decode_snapshot_targets (previous : string) (items : list value) : result (list TargetObservation) :=
  match items with
  | [] => Ok []
  | item :: rest =>
    o ← decode_snapshot_target previous item;
    os ← decode_snapshot_targets o.2 rest;
    Ok (o.1 :: os)
  end.
Definition decodeSnapshotTargets (v : option value) : result (list TargetObservation) :=
  array ← snapshot_schema (as_array v);
  codec_if snapshot_limits (MaxManagedSnapshotTargets <? length array)%nat "schema_rejected";;
  decode_snapshot_targets EmptyString array.
Definition decodeSnapshotManagedSuccess (v : option value) : result SnapshotManagedResponse :=
  payload ← snapshot_schema (as_object v);
  codec_if snapshot_limits (negb (objectShape payload
    ["snapshot_digest"; "infrastructure"; "policy"; "targets"; "foreign_context_digest"])) "schema_rejected";;
  snapshotDigest ← snapshot_schema (as_string (field "snapshot_digest" payload));
  foreignDigest ← snapshot_schema (as_string (field "foreign_context_digest" payload));
  codec_if snapshot_limits (negb (validSnapshotManagedDigest snapshotDigest)
                            || negb (validSnapshotManagedDigest foreignDigest)) "schema_rejected";;
  infrastructure ← decodeSnapshotInfrastructure (field "infrastructure" payload);
  policy ← decodeSnapshotPolicy (field "policy" payload);
  targets ← decodeSnapshotTargets (field "targets" payload);
  state ← or_semantic snapshot_limits (NewManagedState infrastructure policy targets);
  foreign ← or_semantic snapshot_limits (NewForeignContext foreignDigest);
  snapshot ← or_semantic snapshot_limits (NewManagedSnapshot state foreign);
  codec_if snapshot_limits (negb (bool_decide (sp_digest snapshot = snapshotDigest))) "semantic_rejected";;
  Ok (snapshotManagedSuccessResponse snapshot).
Definition DecodeSnapshotManagedResponse (raw : list Z) : result SnapshotManagedResponse :=
  decode_payload maxSnapshotManagedResponseBytes snapshot_limits ipc.OperationSnapshotManaged
    decodeSnapshotManagedSuccess NewSnapshotManagedFailureResponse raw.
