(* ===== verification/IpcCodecs.v ===== *)
(** * The IPC codecs are faithful

    The interface that a codec offers to the transport, and its instances: the
    requests, and the responses to a mutation, a probe and a snapshot. *)

From S2P Require Import Prelude GoStd Sha256 Netip Identity NetipParse CoreModel Json JsonDecode Firewall Ipc IpcCodec IpcRoundtrip IpcResponses.

(** What one end writes, and what the other reads. [well_typed] holds of every
    value that the Go types and the constructors of the packages allow. *)
Class Codec (A : Type) := {
  encode : A → result (list Z);
  decode : list Z → result A;
  max_payload : Z;
  well_typed : A → Prop;
  well_formed : A → Prop
}.
(** A value is encoded exactly when it is well formed, its text is within the
    decoder's limit and decodes to it; and only well-formed values are decoded. *)
Class LawfulCodec (A : Type) `{!Codec A} : Prop := {
  encode_iff a : well_typed a → (well_formed a ↔ ∃ raw, encode a = Ok raw);
  encode_size a raw : well_typed a → encode a = Ok raw → Z.of_nat (length raw) ≤ max_payload;
  decode_encode a raw : well_typed a → encode a = Ok raw → decode raw = Ok a;
  decode_sound raw a : decode raw = Ok a → well_typed a ∧ well_formed a
}.
Lemma recode {A} `{LawfulCodec A} raw a : decode raw = Ok a → ∃ raw', encode a = Ok raw' ∧ decode raw' = Ok a.
Proof.
  intros [Ht Hf]%decode_sound. apply encode_iff in Hf as [raw' Hr]; [|done]. eauto using decode_encode.
Qed.

(** ** Requests *)
Definition encode_request (r : Request) : result (list Z) :=
  match r with
  | ProbeCapabilities => EncodeProbeCapabilitiesRequest NewProbeCapabilitiesRequest
  | SnapshotManaged => EncodeSnapshotManagedRequest NewSnapshotManagedRequest
  | Mutation m => EncodeMutationRequest m
  end.
#[export] Instance request_codec : Codec Request := {
  encode := encode_request;
  decode := DecodeRequest;
  max_payload := maxRequestBytes;
  well_typed r := match r with Mutation m => typed_request m | _ => True end;
  well_formed r := match r with Mutation m => valid_request m | _ => True end
}.
Lemma encode_mutation m raw :
  typed_request m → EncodeMutationRequest m = Ok raw ↔ valid_request m ∧ raw = json_Marshal (wire_of m).
Proof.
  intros Ht. unfold EncodeMutationRequest. split.
  - intros (w & Hw & Hr)%result_bind_Ok. apply toWire_iff in Hw as [-> Hv]; [|done].
    rewrite valid_decodes in Hr by done. by injection Hr as <-.
  - intros [Hv ->]. rewrite (proj2 (toWire_iff m (wire_of m) Ht)) by done. cbn [mbind result_bind].
    by rewrite valid_decodes.
Qed.
#[export] Instance request_codec_lawful : LawfulCodec Request.
Proof.
  split; unfold encode, decode, max_payload, well_typed, well_formed, request_codec.
  - intros [| |m] Ht; cbn [encode_request]; [split; [intros _; eexists; vm_compute; reflexivity|done]..|]. split.
    + intros Hv. eexists. by apply encode_mutation.
    + by intros [raw [? _]%encode_mutation].
  - intros [| |m] raw Ht; cbn [encode_request]; [intros Hr; vm_compute in Hr; injection Hr as <-; vm_compute; congruence..|].
    intros Hr. apply encode_mutation in Hr as [Hv ->]; [|done].
    pose proof (marshal_length _ (valid_wire_plain m Hv)). destruct (wire_limits m Hv) as (_ & _ & ?). lia.
  - intros [| |m] raw Ht; cbn [encode_request]; [intros Hr; vm_compute in Hr; injection Hr as <-; vm_compute; reflexivity..|].
    intros Hr. apply encode_mutation in Hr as [Hv ->]; [|done]. by apply valid_decodes.
  - intros raw [| |m]; [done..|]. intros Hd%decoded_valid. split; [by apply valid_typed|done].
Qed.

(** ** Roots *)
Definition values (m : list (string * json)) : list (string * value) := (λ kv, (kv.1, value_of kv.2)) <$> m.
Definition fits (maxBytes : Z) (L : scan_limits) (v : json) : Prop :=
  plain_json v ∧ depth_of v ≤ lim_depth L ∧ tokens_of v ≤ lim_tokens L ∧ size_of v ≤ maxBytes.
Lemma encode_root_fits maxBytes L v : fits maxBytes L v → encode_root maxBytes L v = Ok (json_Marshal v).
Proof.
  intros (Hp & _ & _ & Hs). unfold encode_root, codec_if. pose proof (marshal_length v Hp).
  by replace (maxBytes <? _) with false by lia.
Qed.
Lemma decode_root_fits maxBytes L m :
  fits maxBytes L (JObject m) → decode_root maxBytes L (json_Marshal (JObject m)) = Ok (values m).
Proof.
  intros (Hp & Hd & Ht & Hs). unfold decode_root, codec_if. pose proof (marshal_length _ Hp).
  replace (maxBytes <? _) with false by lia. rewrite utf8_ascii by by apply marshal_ascii.
  cbn [fail_if negb mbind result_bind]. rewrite scan_json_marshal by done. cbn [mbind result_bind].
  by rewrite Decode_marshal.
Qed.

(** ** Mutation responses *)
#[export] Instance mutation_response_codec : Codec ipc.MutationResponse := {
  encode r := EncodeMutationResponse (Some r);
  decode := DecodeMutationResponse;
  max_payload := maxMutationResponseBytes;
  well_typed _ := True;
  well_formed r := response_valid r = true
}.
Lemma one_of_iff s l : one_of s l = true ↔ s ∈ l.
Proof. apply bool_decide_true_iff. Qed.
(** The valid responses, one by one. *)
Definition all_states (rejected : list ipc.MutationErrorCode) : list ipc.mutationResponseBase :=
  [ipc.MkResponseBase ipc.MutationStatusConfirmed EmptyString false;
   ipc.MkResponseBase ipc.MutationStatusUnknown ipc.MutationErrorCodeUnknownResult true]
  ++ ((λ code, ipc.MkResponseBase ipc.MutationStatusRejected code true) <$> rejected).
Definition remove_codes : list ipc.MutationErrorCode :=
  [ipc.MutationErrorCodeOwnershipConflict; ipc.MutationErrorCodeUnsupported; ipc.MutationErrorCodeNotReady;
   ipc.MutationErrorCodeBackendRejected].
Definition all_responses : list ipc.MutationResponse :=
  (domain ← [ipc.DomainInfrastructure; ipc.DomainPolicy; ipc.DomainTarget];
   (λ b, ipc.ApplyManagedPlanResponse b domain) <$> all_states (ipc.MutationErrorCodeInvalidPlan :: remove_codes))
  ++ (ipc.RemoveManagedInfrastructureResponse <$> all_states remove_codes).
Lemma valid_state_in rejected codes b :
  (∀ c, rejected c = true → c ∈ codes) →
  ipc.valid_state rejected (ipc.rb_status b) (ipc.rb_errorCode b) (ipc.rb_hasErrorCode b) = true → b ∈ all_states codes.
Proof.
  intros Hc. destruct b as [st code has]. unfold ipc.valid_state. cbn [ipc.rb_status ipc.rb_errorCode ipc.rb_hasErrorCode].
  unfold all_states. rewrite elem_of_app, list_elem_of_fmap. case_bool_decide as H1; [|case_bool_decide as H2; [|case_bool_decide as H3]].
  - intros [Hh He%bool_decide_true_iff]%andb_true_iff. destruct has; [done|]. subst. left. left.
  - intros [Hh He]%andb_true_iff. destruct has; [|done]. subst. right. exists code. auto.
  - intros [Hh He%bool_decide_true_iff]%andb_true_iff. destruct has; [|done]. subst. left. right. left.
  - done.
Qed.
Lemma all_responses_complete r : response_valid r = true → r ∈ all_responses.
Proof.
  unfold all_responses. rewrite elem_of_app. destruct r as [b domain|b]; cbn [response_valid].
  - intros [Hd%one_of_iff Hs]%andb_true_iff. left. apply list_elem_of_bind. exists domain. split; [|done].
    apply list_elem_of_fmap. exists b. split; [done|]. eapply valid_state_in; [|exact Hs]. by intros c ?%one_of_iff.
  - intros Hs. right. apply list_elem_of_fmap. exists b. split; [done|].
    eapply valid_state_in; [|exact Hs]. by intros c ?%one_of_iff.
Qed.
Lemma responses_decode r :
  response_valid r = true → ∃ raw, EncodeMutationResponse (Some r) = Ok raw ∧ DecodeMutationResponse raw = Ok r ∧
    Z.of_nat (length raw) ≤ maxMutationResponseBytes.
Proof.
  intros Hr%all_responses_complete. revert r Hr. apply Forall_forall.
  repeat (apply Forall_cons; split; [eexists; split; [vm_compute; reflexivity|split; vm_compute; congruence]|]).
  by apply Forall_nil.
Qed.
Lemma encode_response_valid r raw : EncodeMutationResponse (Some r) = Ok raw → response_valid r = true.
Proof. cbn [EncodeMutationResponse]. destruct (response_valid r); done. Qed.
Lemma decoded_response_valid raw r : DecodeMutationResponse raw = Ok r → response_valid r = true.
Proof.
  unfold DecodeMutationResponse. intros (root & _ & Hd)%result_bind_Ok.
  destruct (decodeMutationResponseObject root) as [r'|] eqn:Ho; [|done]. injection Hd as ->.
  unfold decodeMutationResponseObject in Ho. destruct (negb _); [done|].
  apply bind_Some in Ho as (operation & _ & Ho). apply bind_Some in Ho as (status & _ & Ho).
  case_bool_decide; [|case_bool_decide; [|done]].
  - apply bind_Some in Ho as (c & _ & Ho). apply bind_Some in Ho as (domain & _ & Ho).
    unfold ipc.newApplyManagedPlanResponse in Ho. destruct (_ || _) eqn:Hb; [done|]. injection Ho as <-.
    apply orb_false_iff in Hb as [?%negb_false_iff ?%negb_false_iff]. cbn. by apply andb_true_iff.
  - apply bind_Some in Ho as (c & _ & Ho). destruct (negb _) eqn:Hb; [done|]. injection Ho as <-.
    by apply negb_false_iff in Hb.
Qed.
#[export] Instance mutation_response_codec_lawful : LawfulCodec ipc.MutationResponse.
Proof.
  split; unfold encode, decode, max_payload, well_typed, well_formed, mutation_response_codec.
  - intros r _. split; [|by intros [raw ?%encode_response_valid]]. intros (raw & Hr & _)%responses_decode. eauto.
  - intros r raw _ He. pose proof (encode_response_valid r raw He) as (raw' & He' & _ & Hs)%responses_decode.
    rewrite He in He'. by injection He' as ->.
  - intros r raw _ He. pose proof (encode_response_valid r raw He) as (raw' & He' & Hd & _)%responses_decode.
    rewrite He in He'. by injection He' as ->.
  - intros raw r Hd. split; [done|]. by eapply decoded_response_valid.
Qed.

(** ** Payloads and failures *)
Lemma failure_fits maxBytes L operation code :
  plain operation → plain code → (String.length operation ≤ 40)%nat → (String.length code ≤ 40)%nat →
  1 ≤ lim_depth L → 8 ≤ lim_tokens L → 200 ≤ maxBytes → fits maxBytes L (failure_wire operation code).
Proof.
  intros Ho Hc Hlo Hlc Hd Ht Hb. unfold failure_wire. split; [|split; [cbn; lia|split; [cbn; lia|]]].
  - plain_members; [by constructor|constructor; by apply plain_printable..].
  - cbn [size_of fmap list_fmap foldr snd fst]. no_escapes. cbn [String.length]. lia.
Qed.
Section payloads.
Context {A : Type} (maxBytes : Z) (L : scan_limits) (operation : ipc.Operation)
  (success : option value → result A) (failure : string → result A).
Lemma decode_failure code :
  fits maxBytes L (failure_wire operation code) →
  decode_payload maxBytes L operation success failure (json_Marshal (failure_wire operation code)) = failure code.
Proof.
  intros Hf. unfold decode_payload, failure_wire in *. rewrite decode_root_fits by done. cbn [mbind result_bind].
  replace (version_1 _) with true by (symmetry; vm_compute; reflexivity).
  change (field "operation" _) with (Some (VString operation)). cbn [as_string].
  rewrite bool_decide_true by done. done.
Qed.
Lemma decode_success payload :
  fits maxBytes L (request_wire operation payload) →
  decode_payload maxBytes L operation success failure (json_Marshal (request_wire operation payload))
  = success (Some (value_of payload)).
Proof.
  intros Hf. unfold decode_payload, request_wire in *. rewrite decode_root_fits by done. cbn [mbind result_bind].
  replace (version_1 _) with true by (symmetry; vm_compute; reflexivity).
  change (field "operation" _) with (Some (VString operation)). cbn [as_string].
  rewrite bool_decide_true by done. done.
Qed.
Lemma decode_payload_Ok raw a :
  decode_payload maxBytes L operation success failure raw = Ok a →
  (∃ v, success v = Ok a) ∨ ∃ code, failure code = Ok a.
Proof.
  unfold decode_payload. intros (root & _ & H)%result_bind_Ok. apply result_bind_Ok in H as (_ & _ & H).
  apply result_bind_Ok in H as (_ & _ & H). destruct (objectShape _ _); [by left; eexists|].
  destruct (objectShape _ _); [|done]. apply result_bind_Ok in H as (code & _ & H). right. by exists code.
Qed.
End payloads.

(** ** Probe responses *)
Definition probe_valid (r : ProbeCapabilitiesResponse) : bool :=
  match r with
  | probeCapabilitiesSuccessResponse c => is_ok (Capabilities_Validate c)
  | probeCapabilitiesFailureResponse code => validProbeCapabilitiesFailureCode code
  end.
#[export] Instance probe_response_codec : Codec ProbeCapabilitiesResponse := {
  encode r := EncodeProbeCapabilitiesResponse (Some r);
  decode := DecodeProbeCapabilitiesResponse;
  max_payload := maxProbeCapabilitiesResponseBytes;
  well_typed _ := True;
  well_formed r := probe_valid r = true
}.
Definition probe_wire (r : ProbeCapabilitiesResponse) : json :=
  match r with
  | probeCapabilitiesSuccessResponse c =>
    request_wire ipc.OperationProbeCapabilities (probeCapabilitiesPayloadFromDomain c)
  | probeCapabilitiesFailureResponse code => failure_wire ipc.OperationProbeCapabilities code
  end.
Lemma capabilities_texts c :
  is_ok (Capabilities_Validate c) = true →
  fc_backend c ∈ [BackendKindNftablesNative; BackendKindIptablesNFT; BackendKindIptablesLegacy] ∧
  printable (fc_toolVersion c) ∧ (String.length (fc_toolVersion c) ≤ 128)%nat ∧
  validProbeCapabilitiesWireToolVersion (fc_toolVersion c) = true.
Proof.
  unfold Capabilities_Validate. destruct (_ || _) eqn:Hb; [done|]. intros _.
  do 7 apply orb_false_iff in Hb as [Hb _]. apply orb_false_iff in Hb as [Hk%negb_false_iff%one_of_iff Hv%negb_false_iff].
  unfold validToolVersion in Hv. apply andb_true_iff in Hv as [Hv Hp]. apply andb_true_iff in Hv as [Hv Ht].
  apply andb_true_iff in Hv as [He Hl%Nat.leb_le]. split; [done|].
  split; [apply Forall_forall; rewrite forallb_true_iff in Hp; exact Hp|]. split; [done|].
  unfold validProbeCapabilitiesWireToolVersion, trimmed in *.
  assert (string_bytes (fc_toolVersion c) ≠ []) as Hn.
  { destruct (fc_toolVersion c); [done|]. done. }
  destruct (string_bytes (fc_toolVersion c)) as [|a l] eqn:Hs; [done|]. cbn [head].
  rewrite last_cons in Ht |- *. rewrite (proj2 (Nat.leb_le _ 128) Hl).
  destruct (last l); apply andb_true_iff in Ht as [[_ H1]%negb_true_iff%orb_false_iff [_ H2]%negb_true_iff%orb_false_iff];
    by rewrite ?H1, ?H2.
Qed.
Lemma probe_fits r : probe_valid r = true → fits maxProbeCapabilitiesResponseBytes probe_limits (probe_wire r).
Proof.
  destruct r as [c|code]; cbn [probe_valid probe_wire].
  - intros (Hk & Hp & Hl & _)%capabilities_texts.
    assert (plain (fc_backend c) ∧ String.length (fc_backend c) ≤ 20)%nat as [Hkp Hkl].
    { revert Hk. rewrite !elem_of_cons, elem_of_nil. intros [->|[->|[->|[]]]]; (split; [plain_const|cbn; lia]). }
    assert (escapes (fc_toolVersion c) ≤ 128)%nat as He.
    { unfold escapes. rewrite length_filter, length_string_bytes. lia. }
    destruct c as [k t b1 b2 b3 b4 b5 b6 b7 b8 b9 b10 b11 b12 b13]; cbn [fc_backend fc_toolVersion] in *.
    unfold request_wire, probeCapabilitiesPayloadFromDomain, capability_flags.
    cbn [fmap list_fmap fst snd app fc_backend fc_toolVersion fc_ipv4 fc_ipv6 fc_cidr fc_nativeSet fc_nativeTimeout
      fc_crashSafeExpiry fc_atomicBatch fc_hostInput fc_forward fc_ufwIntegrationProven fc_dockerIntegrationProven
      fc_ownershipProven fc_mutationReady].
    split; [|split; [vm_compute; congruence|split; [vm_compute; congruence|]]].
    + plain_members; [by constructor|constructor; plain_const|]. plain_members; try by constructor.
      constructor. by apply plain_printable.
    + cbn [size_of fmap list_fmap foldr snd fst]. no_escapes. unfold ipc.OperationProbeCapabilities, maxProbeCapabilitiesResponseBytes.
      cbn [String.length]. lia.
  - intros Hc%one_of_iff. assert (plain code ∧ String.length code ≤ 40)%nat as [Hp Hl].
    { revert Hc. rewrite !elem_of_cons, elem_of_nil. intros [->|[->|[]]]; (split; [plain_const|cbn; lia]). }
    apply failure_fits; try done; plain_const || (vm_compute; congruence) || (cbn; lia).
Qed.
Lemma decode_probe_payload c :
  is_ok (Capabilities_Validate c) = true →
  decodeProbeCapabilitiesSuccess (Some (value_of (probeCapabilitiesPayloadFromDomain c)))
  = Ok (probeCapabilitiesSuccessResponse c).
Proof.
  intros Hv. destruct (capabilities_texts c Hv) as (Hk & _ & _ & Ht).
  assert (validProbeCapabilitiesWireBackend (fc_backend c) = true) as Hb by by apply one_of_iff.
  assert (NewFirewallCapabilities c = Ok c) as Hn.
  { unfold NewFirewallCapabilities. destruct (Capabilities_Validate c) as [[]|]; done. }
  revert Hb Ht Hn. unfold decodeProbeCapabilitiesSuccess.
  generalize validProbeCapabilitiesWireBackend, validProbeCapabilitiesWireToolVersion, NewFirewallCapabilities.
  intros backend tool new. destruct c as [k t b1 b2 b3 b4 b5 b6 b7 b8 b9 b10 b11 b12 b13]. cbn [fc_backend fc_toolVersion]. intros Hb Ht Hn.
  lazy -[or_semantic probe_limits orb negb]. rewrite Hb, Ht. cbn [negb orb]. rewrite Hn. done.
Qed.
Lemma encode_probe_valid r raw :
  EncodeProbeCapabilitiesResponse (Some r) = Ok raw ↔ probe_valid r = true ∧ raw = json_Marshal (probe_wire r).
Proof.
  destruct (probe_valid r) eqn:Hv.
  - pose proof (encode_root_fits _ _ _ (probe_fits r Hv)) as He. destruct r; cbn in Hv; unfold EncodeProbeCapabilitiesResponse;
      rewrite Hv; cbn [negb fail_if mbind result_bind]; cbn [probe_wire] in *; rewrite He;
      (split; [by intros [= <-]|by intros [_ ->]]).
  - split; [|by intros [? _]]. destruct r; cbn in Hv; unfold EncodeProbeCapabilitiesResponse; by rewrite Hv.
Qed.
Lemma probe_decodes r : probe_valid r = true → DecodeProbeCapabilitiesResponse (json_Marshal (probe_wire r)) = Ok r.
Proof.
  intros Hv. pose proof (probe_fits r Hv) as Hf. unfold DecodeProbeCapabilitiesResponse.
  destruct r; cbn [probe_wire probe_valid] in *.
  - rewrite decode_success by done. by apply decode_probe_payload.
  - rewrite decode_failure by done. unfold NewProbeCapabilitiesFailureResponse. by rewrite Hv.
Qed.
Lemma or_semantic_Ok {A} L (r : result A) a : or_semantic L r = Ok a → r = Ok a.
Proof. by destruct r. Qed.
(** A decoder that has succeeded has succeeded at each step. *)
Ltac inv_codec H :=
  repeat match type of H with
  | (_ ≫= _) = Ok _ => apply result_bind_Ok in H as (? & ?G & H)
  end.
Lemma decoded_probe_valid raw r : DecodeProbeCapabilitiesResponse raw = Ok r → probe_valid r = true.
Proof.
  intros [(v & Hd)|(code & Hd)]%decode_payload_Ok.
  - unfold decodeProbeCapabilitiesSuccess in Hd. inv_codec Hd. injection Hd as <-.
    match goal with H : or_semantic _ _ = Ok _ |- _ => apply or_semantic_Ok, result_bind_Ok in H as ([] & Hc & [= <-]) end.
    cbn [probe_valid]. by rewrite Hc.
  - unfold NewProbeCapabilitiesFailureResponse in Hd.
    destruct (validProbeCapabilitiesFailureCode code) eqn:Hc; [|done]. by injection Hd as <-.
Qed.
#[export] Instance probe_response_codec_lawful : LawfulCodec ProbeCapabilitiesResponse.
Proof.
  split; unfold encode, decode, max_payload, well_typed, well_formed, probe_response_codec.
  - intros r _. split; [intros Hv; eexists; by apply encode_probe_valid|by intros [raw [? _]%encode_probe_valid]].
  - intros r raw _ [Hv ->]%encode_probe_valid. destruct (probe_fits r Hv) as (Hp & _ & _ & Hs).
    pose proof (marshal_length _ Hp). lia.
  - intros r raw _ [Hv ->]%encode_probe_valid. by apply probe_decodes.
  - intros raw r Hd. split; [done|]. by eapply decoded_probe_valid.
Qed.

(** ** Snapshot responses *)
(** What netip, int64 and NewTargetObservation guarantee. *)
Definition typed_target (o : TargetObservation) : Prop :=
  Prefix_wf (ob_target o) ∧ match ob_effectiveUntil o with Some t => t ≤ max_int64 | None => True end ∧
  ob_scopes o ∈ [[ManagedScopeInput]; [ManagedScopeForward]; [ManagedScopeInput; ManagedScopeForward]].
Definition snapshot_valid (r : SnapshotManagedResponse) : bool :=
  match r with
  | snapshotManagedSuccessResponse s => is_ok (ManagedSnapshot_Validate s)
  | snapshotManagedFailureResponse code => validSnapshotManagedFailureCode code
  end.
#[export] Instance snapshot_response_codec : Codec SnapshotManagedResponse := {
  encode r := EncodeSnapshotManagedResponse (Some r);
  decode := DecodeSnapshotManagedResponse;
  max_payload := maxSnapshotManagedResponseBytes;
  well_typed r := match r with
    | snapshotManagedSuccessResponse s => Forall typed_target (ms_targets (sp_managedState s))
    | _ => True
    end;
  well_formed r := snapshot_valid r = true
}.
Definition snapshot_response_wire (r : SnapshotManagedResponse) : json :=
  match r with
  | snapshotManagedSuccessResponse s =>
    request_wire ipc.OperationSnapshotManaged (snapshotManagedPayloadFromDomain s)
  | snapshotManagedFailureResponse code => failure_wire ipc.OperationSnapshotManaged code
  end.

Lemma validDigest_snapshot d : validSnapshotManagedDigest d = true → plain d ∧ String.length d = 64%nat.
Proof. apply validDigest_plain. Qed.
(** A valid target. *)
Lemma target_valid o :
  TargetObservation_Validate o = Ok tt → ob_targetValid o = true ∧ canonical (ob_target o) ∧
  match ob_effectiveUntil o with Some t => 0 < t | None => True end ∧
  (ob_timeoutMode o = ManagedTimeoutNone ∨ ob_timeoutMode o = ManagedTimeoutNative).
Proof.
  unfold TargetObservation_Validate. intros (? & Ha%fail_if_Ok & H)%result_bind_Ok.
  apply result_bind_Ok in H as (? & _ & H). unfold validManagedTarget in Ha. unfold canonical. gobool.
  destruct Ha as (((Hv & Hc) & _) & _). split; [done|]. split; [tauto|].
  case_bool_decide as H1; [|case_bool_decide as H2; [|done]].
  - unfold invalid_if in H. apply fail_if_Ok in H. destruct (ob_effectiveUntil o); [done|]. auto.
  - unfold invalid_if in H. apply fail_if_Ok in H. destruct (ob_effectiveUntil o); [|done]. gobool. auto.
Qed.
(** Valid targets are sorted by their texts, strictly. *)
Definition text_of (o : TargetObservation) : string := Prefix_String (ob_target o).
Lemma targets_valid previous l :
  validate_state_targets previous l = Ok tt →
  Forall (λ o, TargetObservation_Validate o = Ok tt) l ∧
  match previous, l with Some p, o :: _ => p ≠ ob_target o ∧ String.ltb (text_of o) (Prefix_String p) = false | _, _ => True end ∧
  match l with o :: rest => validate_state_targets (Some (ob_target o)) rest = Ok tt | [] => True end.
Proof.
  revert previous. induction l as [|o l IH]; intros previous; cbn [validate_state_targets]; [by destruct previous|].
  intros ([] & Ho & H)%result_bind_Ok. apply result_bind_Ok in H as (? & Hp%fail_if_Ok & H).
  destruct (IH _ H) as [Hall _]. split; [by constructor|]. split; [|done].
  destruct previous; [|done]. gobool. tauto.
Qed.
Lemma sort_slice_targets previous l :
  validate_state_targets previous l = Ok tt →
  sort_slice (λ a b, String.ltb (Prefix_String (ob_target a)) (Prefix_String (ob_target b))) l = l.
Proof.
  revert previous. induction l as [|o l IH]; intros previous Hv; [done|].
  apply targets_valid in Hv as (_ & _ & Hv). change (sort_slice ?less (o :: l)) with (insert_less less o (sort_slice less l)).
  rewrite (IH _ Hv). apply targets_valid in Hv as (_ & Hn & _). destruct l as [|o' l]; [done|].
  cbn [insert_less]. destruct Hn as [_ Hn]. unfold text_of in Hn. by rewrite Hn.
Qed.

Lemma text_ltb_total a b : String.ltb a b = false → a ≠ b → String.ltb b a = true.
Proof.
  unfold String.ltb. rewrite (String.compare_antisym b a). destruct (String.compare a b) eqn:Hc; cbn; [|done|done].
  intros _ Hn. apply String.compare_eq_iff in Hc. by subst.
Qed.
Lemma Prefix_String_inj p q :
  Prefix_wf p → Prefix_wf q → canonical p → canonical q → Prefix_String p = Prefix_String q → p = q.
Proof.
  intros Hp Hq Hcp Hcq Hs. pose proof (ParsePrefix_String p Hp (canonical_valid p Hcp)) as H1.
  rewrite Hs, ParsePrefix_String in H1 by (done || by apply canonical_valid). by injection H1.
Qed.
Lemma Prefix_String_nonempty p : Prefix_wf p → canonical p → Prefix_String p ≠ EmptyString.
Proof.
  intros Hw Hc He. pose proof (ParsePrefix_String p Hw (canonical_valid p Hc)) as Hp. rewrite He in Hp. by vm_compute in Hp.
Qed.
Lemma nullable_int o :
  match o with Some t => 0 < t ≤ max_int64 | None => True end →
  nullablePositiveInt64 (Some (value_of (json_option JInt o))) = Some o.
Proof.
  destruct o as [t|]; [|done]. intros Ht. cbn [json_option value_of nullablePositiveInt64].
  by rewrite positiveInt64_int.
Qed.

Lemma new_target o :
  typed_target o → TargetObservation_Validate o = Ok tt →
  NewTargetObservation (ob_target o) (ob_timeoutMode o) (ob_effectiveUntil o)
    ((if bool_decide (ManagedScopeInput ∈ ob_scopes o) then [ManagedScopeInput] else [])
     ++ (if bool_decide (ManagedScopeForward ∈ ob_scopes o) then [ManagedScopeForward] else [])) = Ok o.
Proof.
  intros (_ & _ & Hs) Hv. destruct (target_valid o Hv) as [Hval _]. destruct o as [t m u s v].
  cbn [ob_targetValid ob_target ob_timeoutMode ob_effectiveUntil ob_scopes] in *. subst v.
  rewrite !elem_of_cons, elem_of_nil in Hs. unfold NewTargetObservation.
  set (l := _ ++ _). assert (canonicalManagedScopes l = Some s) as ->.
  { unfold l. by destruct Hs as [->|[->|[->|[]]]]; vm_compute. }
  by rewrite Hv.
Qed.
Lemma decode_target previous o :
  typed_target o → TargetObservation_Validate o = Ok tt →
  previous = EmptyString ∨ String.ltb previous (text_of o) = true →
  decode_snapshot_target previous (value_of (snapshotTargetWire o)) = Ok (o, text_of o).
Proof.
  intros Ht Hv Hp. destruct (target_valid o Hv) as (_ & Hc & Hu & _). pose proof (new_target o Ht Hv) as Hn.
  destruct Ht as (Hw & Hm & Hs). unfold decode_snapshot_target.
  change (value_of (snapshotTargetWire o)) with (VObject (members_of (snapshotTargetWire o))).
  set (object := members_of _). cbn [as_object]. unfold snapshot_schema. cbn [or_code mbind result_bind].
  assert (objectShape object ["target"; "membership"; "timeout_mode"; "effective_until_unix_us"; "input"; "forward"] = true ∧
    field "target" object = Some (VString (text_of o)) ∧ field "membership" object = Some (VString "present") ∧
    field "timeout_mode" object = Some (VString (ob_timeoutMode o)) ∧
    field "effective_until_unix_us" object = Some (value_of (json_option JInt (ob_effectiveUntil o))) ∧
    field "input" object = Some (VBool (bool_decide (ManagedScopeInput ∈ ob_scopes o))) ∧
    field "forward" object = Some (VBool (bool_decide (ManagedScopeForward ∈ ob_scopes o))))
    as (-> & -> & -> & -> & -> & -> & ->) by done.
  cbn [as_object as_string as_bool snapshot_schema or_code mbind result_bind negb codec_if fail_if].
  rewrite (bool_decide_true (_ = snapshotManagedMembershipPresent)) by done.
  rewrite nullable_int by (destruct (ob_effectiveUntil o); [lia|done]).
  unfold text_of in *. rewrite ParsePrefix_String by (done || by apply canonical_valid).
  cbn [or_semantic or_code mbind result_bind negb codec_if fail_if]. rewrite Hn.
  rewrite (bool_decide_true (Prefix_String _ = _)) by done.
  replace (negb (bool_decide (ManagedScopeInput ∈ ob_scopes o)) && negb (bool_decide (ManagedScopeForward ∈ ob_scopes o)))
    with false by (symmetry; rewrite !elem_of_cons, elem_of_nil in Hs; by destruct Hs as [->|[->|[->|[]]]]).
  replace (negb (is_empty previous) && negb (String.ltb previous (Prefix_String (ob_target o)))) with false; [done|].
  destruct Hp as [->| ->]; [done|]. by rewrite andb_false_r.
Qed.
Lemma decode_targets previous p l :
  Forall typed_target l → validate_state_targets p l = Ok tt →
  match p with
  | None => previous = EmptyString
  | Some p => previous = Prefix_String p ∧ Prefix_wf p ∧ canonical p
  end →
  decode_snapshot_targets previous (value_of ∘ snapshotTargetWire <$> l) = Ok l.
Proof.
  intros Ht. revert p previous. induction Ht as [|o l Ho _ IH]; intros p previous Hv Hp; [done|].
  apply targets_valid in Hv as (Hall & Hn & Hv). apply Forall_cons in Hall as [Hvo _].
  pose proof (target_valid o Hvo) as (_ & Hc & _). pose proof Ho as (Hw & _).
  rewrite fmap_cons. cbn [decode_snapshot_targets compose]. rewrite decode_target; [|done|done|].
  - cbn [mbind result_bind snd fst]. by rewrite (IH (Some (ob_target o)) _ Hv).
  - destruct p as [p|]; [|by left]. destruct Hp as (-> & Hwp & Hcp), Hn as [Hne Hlt]. right.
    apply text_ltb_total; [done|]. intros He. by apply Hne, Prefix_String_inj.
Qed.

(** A valid snapshot, piece by piece. *)
Record snapshot_parts (s : ManagedSnapshot) : Prop := {
  parts_valid : sp_valid s = true;
  parts_digest : validSnapshotDigest (sp_digest s) = true;
  parts_computed : computeManagedSnapshotDigest (sp_managedState s) (sp_foreignContext s) = sp_digest s;
  parts_state : ManagedState_Validate (sp_managedState s) = Ok tt;
  parts_foreign : ForeignContext_Validate (sp_foreignContext s) = Ok tt
}.
Lemma snapshot_parts_iff s : is_ok (ManagedSnapshot_Validate s) = true ↔ snapshot_parts s.
Proof.
  rewrite is_ok_iff. unfold ManagedSnapshot_Validate, invalid_if. split.
  - intros ([] & (? & H1%fail_if_Ok & H2%fail_if_Ok)%result_bind_Ok). gobool. destruct H1 as (((? & ?) & H3) & H4).
    apply is_ok_iff in H3 as [[] ?], H4 as [[] ?]. by split.
  - intros [-> -> H -> ->]. exists tt. cbn [is_ok negb orb fail_if mbind result_bind].
    by rewrite bool_decide_true.
Qed.
Lemma state_valid st : ManagedState_Validate st = Ok tt → ms_valid st = true ∧
  (length (ms_targets st) ≤ MaxManagedSnapshotTargets)%nat ∧
  match ms_infrastructure st with Some o => InfraObservation_Validate o = Ok tt | None => True end ∧
  match ms_policy st with Some o => PolicyObservation_Validate o = Ok tt | None => True end ∧
  validate_state_targets None (ms_targets st) = Ok tt.
Proof.
  unfold ManagedState_Validate. intros (? & H1%fail_if_Ok & H)%result_bind_Ok.
  apply result_bind_Ok in H as ([] & H2 & H). apply result_bind_Ok in H as ([] & H3 & H). gobool.
  destruct H1 as [? ?%Nat.ltb_ge]. split; [done|]. split; [done|].
  split; [by destruct (ms_infrastructure st)|]. split; [by destruct (ms_policy st)|done].
Qed.
Lemma infra_valid o : InfraObservation_Validate o = Ok tt → ob_infraValid o = true ∧
  validBackendKind (ob_backend o) = true ∧ ob_ownerVersion o = ManagedOwnerVersionV1 ∧ ob_schemaVersion o = 1 ∧
  validSnapshotDigest (ob_infraDigest o) = true.
Proof.
  unfold InfraObservation_Validate. intros H%fail_if_Ok. unfold ManagedInfrastructureSchemaVersionV1 in H. gobool. tauto.
Qed.
Lemma policy_valid o : PolicyObservation_Validate o = Ok tt → ob_policyValid o = true ∧
  validSnapshotDigest (ob_relationDigest o) = true.
Proof. unfold PolicyObservation_Validate. intros H%fail_if_Ok. gobool. tauto. Qed.

(** *** Its text *)
Definition bounded (v : json) (depth tokens size : Z) : Prop :=
  plain_json v ∧ depth_of v ≤ depth ∧ tokens_of v ≤ tokens ∧ size_of v ≤ size.
Ltac bounded_sizes :=
  cbn [depth_of tokens_of size_of fmap list_fmap foldr snd fst]; no_escapes; cbn [String.length].
Lemma target_bounded o :
  typed_target o → TargetObservation_Validate o = Ok tt → bounded (snapshotTargetWire o) 1 14 300.
Proof.
  intros (Hw & Hm & _) Hv. destruct (target_valid o Hv) as (_ & Hc & Hu & Ht).
  destruct (Prefix_String_plain _ Hw (canonical_valid _ Hc)) as (Hp & Hl & _). rewrite length_string_bytes in Hl.
  assert (plain (ob_timeoutMode o) ∧ String.length (ob_timeoutMode o) ≤ 10)%nat as [Htp Htl].
  { destruct Ht as [->| ->]; (split; [plain_const|cbn; lia]). }
  assert (plain snapshotManagedMembershipPresent ∧ String.length snapshotManagedMembershipPresent = 7)%nat as [Hpp Hpl].
  { split; [plain_const|done]. }
  unfold snapshotTargetWire. split; [|split; [|split]].
  - plain_members; try by constructor.
    + constructor. by apply plain_printable.
    + constructor. by apply plain_printable.
    + constructor. by apply plain_printable.
    + destruct (ob_effectiveUntil o); constructor. lia.
  - bounded_sizes. destruct (ob_effectiveUntil o); cbn; lia.
  - bounded_sizes. destruct (ob_effectiveUntil o); cbn; lia.
  - bounded_sizes. rewrite Hpl. destruct (ob_effectiveUntil o); cbn [size_of json_option]; lia.
Qed.
Lemma list_bounded {A} (f : A → json) l d t s :
  0 ≤ d → Forall (λ a, bounded (f a) d t s) l →
  bounded (JArray (f <$> l)) (1 + d) (2 + Z.of_nat (length l) * t) (2 + Z.of_nat (length l) * (s + 1)).
Proof.
  intros H0 Hl. split; [constructor; apply Forall_fmap; eapply Forall_impl; [exact Hl|]; by intros a [? _]|].
  cbn [depth_of tokens_of size_of]. induction Hl as [|a l (_ & Hd & Ht & Hs) _ (IH1 & IH2 & IH3)]; [cbn; lia|].
  rewrite fmap_cons, !(fmap_cons _ (f a)). cbn [foldr length]. lia.
Qed.
Lemma infra_bounded o : InfraObservation_Validate o = Ok tt → bounded (snapshotInfrastructureWire o) 1 10 300.
Proof.
  intros (_ & Hk%one_of_iff & Ho & Hsv & Hd)%infra_valid. apply validDigest_plain in Hd as [Hp Hl].
  assert (plain (ob_backend o) ∧ String.length (ob_backend o) ≤ 20)%nat as [Hkp Hkl].
  { revert Hk. rewrite !elem_of_cons, elem_of_nil. intros [->|[->|[->|[]]]]; (split; [plain_const|cbn; lia]). }
  unfold snapshotInfrastructureWire. rewrite Ho, Hsv. split; [|split; [|split]].
  - plain_members; [constructor; by apply plain_printable|constructor; plain_const|by constructor|].
    constructor. by apply plain_printable.
  - cbn. lia.
  - cbn. lia.
  - bounded_sizes. rewrite Hl. unfold ManagedOwnerVersionV1. cbn [String.length]. lia.
Qed.
Lemma policy_bounded o : PolicyObservation_Validate o = Ok tt → bounded (snapshotPolicyWire o) 1 10 300.
Proof.
  intros (_ & [Hp Hl]%validDigest_plain)%policy_valid. unfold snapshotPolicyWire. split; [|split; [|split]].
  - plain_members. constructor. by apply plain_printable.
  - cbn. lia.
  - cbn. lia.
  - bounded_sizes. rewrite Hl. lia.
Qed.
Lemma null_bounded {A} (f : A → json) (P : A → Prop) o :
  (∀ a, P a → bounded (f a) 1 10 300) → match o with Some a => P a | None => True end → bounded (or_null f o) 1 10 300.
Proof. intros Hf. destruct o as [a|]; [apply Hf|]. intros _. split; [constructor|]. cbn. lia. Qed.

Lemma snapshot_fits r :
  well_typed r → snapshot_valid r = true →
  fits maxSnapshotManagedResponseBytes snapshot_limits (snapshot_response_wire r).
Proof.
  destruct r as [s|code]; cbn [snapshot_valid snapshot_response_wire].
  - intros Ht [_ [Hdp Hdl]%validDigest_plain _ Hst Hfx]%snapshot_parts_iff. unfold well_typed, snapshot_response_codec in Ht.
    apply fail_if_Ok in Hfx. gobool. destruct Hfx as [_ [Hfp Hfl]%validDigest_plain].
    destruct (state_valid _ Hst) as (_ & Hn & Hi & Hpo & Hts).
    destruct (null_bounded _ _ _ infra_bounded Hi) as (I1 & I2 & I3 & I4).
    destruct (null_bounded _ _ _ policy_bounded Hpo) as (P1 & P2 & P3 & P4).
    destruct (list_bounded snapshotTargetWire (ms_targets (sp_managedState s)) 1 14 300) as (T1 & T2 & T3 & T4); [lia| |].
    { apply targets_valid in Hts as (Hall & _). rewrite Forall_forall in *. intros o Ho. by apply target_bounded; auto. }
    unfold request_wire, snapshotManagedPayloadFromDomain, fits. cbv zeta. split; [|split; [|split]].
    + plain_members; [by constructor|constructor; plain_const|].
      plain_members; try done; constructor; by apply plain_printable.
    + revert T2. set (a := JArray _). clearbody a. bounded_sizes. cbn [snapshot_limits lim_depth].
      unfold maxSnapshotManagedResponseDepth. lia.
    + revert T3. set (a := JArray _). clearbody a. bounded_sizes. cbn [snapshot_limits lim_tokens].
      unfold maxSnapshotManagedResponseTokens, MaxManagedSnapshotTargets in *. lia.
    + revert T4. set (a := JArray _). clearbody a. bounded_sizes. rewrite Hdl, Hfl.
      unfold maxSnapshotManagedResponseBytes, MaxManagedSnapshotTargets, ipc.OperationSnapshotManaged in *. cbn [String.length]. lia.
  - intros _ Hc%one_of_iff. assert (plain code ∧ String.length code ≤ 40)%nat as [Hp Hl].
    { revert Hc. rewrite !elem_of_cons, elem_of_nil. intros [->|[->|[->|[]]]]; (split; [plain_const|cbn; lia]). }
    apply failure_fits; try done; plain_const || (vm_compute; congruence) || (cbn; lia).
Qed.

(** *** Reading it back *)
Lemma decode_infrastructure o :
  match o with Some o => InfraObservation_Validate o = Ok tt | None => True end →
  decodeSnapshotInfrastructure (Some (value_of (or_null snapshotInfrastructureWire o))) = Ok o.
Proof.
  destruct o as [o|]; [|done]. intros Hv. destruct (infra_valid o Hv) as (Hok & _ & _ & Hsv & Hd).
  cbn [or_null decodeSnapshotInfrastructure].
  change (value_of (snapshotInfrastructureWire o)) with (VObject (members_of (snapshotInfrastructureWire o))).
  set (object := members_of _). cbn [as_object]. unfold snapshot_schema. cbn [or_code mbind result_bind].
  assert (objectShape object ["backend"; "owner_version"; "schema_version"; "digest"] = true ∧
    field "backend" object = Some (VString (ob_backend o)) ∧ field "owner_version" object = Some (VString (ob_ownerVersion o)) ∧
    field "schema_version" object = Some (value_of (JInt (ob_schemaVersion o))) ∧
    field "digest" object = Some (VString (ob_infraDigest o))) as (-> & -> & -> & -> & ->) by done.
  change (validSnapshotManagedDigest (ob_infraDigest o)) with (validSnapshotDigest (ob_infraDigest o)).
  cbn [as_string or_code mbind result_bind negb codec_if fail_if value_of].
  rewrite positiveInt64_int by (rewrite Hsv; done). cbn [or_code mbind result_bind].
  change (validSnapshotManagedDigest (ob_infraDigest o)) with (validSnapshotDigest (ob_infraDigest o)).
  rewrite Hd. cbn [negb codec_if fail_if mbind result_bind].
  unfold NewInfrastructureObservation. destruct o as [k w v d ok]; cbn [ob_infraValid ob_backend ob_ownerVersion
    ob_schemaVersion ob_infraDigest] in *. subst ok. rewrite Hv. done.
Qed.
Lemma decode_policy o :
  match o with Some o => PolicyObservation_Validate o = Ok tt | None => True end →
  decodeSnapshotPolicy (Some (value_of (or_null snapshotPolicyWire o))) = Ok o.
Proof.
  destruct o as [o|]; [|done]. intros Hv. destruct (policy_valid o Hv) as (Hok & Hd).
  cbn [or_null decodeSnapshotPolicy].
  change (value_of (snapshotPolicyWire o)) with (VObject (members_of (snapshotPolicyWire o))).
  set (object := members_of _). cbn [as_object]. unfold snapshot_schema. cbn [or_code mbind result_bind].
  assert (objectShape object ["relation_digest"] = true ∧
    field "relation_digest" object = Some (VString (ob_relationDigest o))) as (-> & ->) by done.
  cbn [as_string or_code mbind result_bind negb codec_if fail_if].
  change (validSnapshotManagedDigest (ob_relationDigest o)) with (validSnapshotDigest (ob_relationDigest o)).
  rewrite Hd. cbn [negb codec_if fail_if mbind result_bind].
  unfold NewPolicyObservation. destruct o as [d ok]; cbn [ob_policyValid ob_relationDigest] in *. subst ok. rewrite Hv. done.
Qed.
Lemma decode_snapshot s :
  Forall typed_target (ms_targets (sp_managedState s)) → snapshot_parts s →
  decodeSnapshotManagedSuccess (Some (value_of (snapshotManagedPayloadFromDomain s))) = Ok (snapshotManagedSuccessResponse s).
Proof.
  intros Ht [Hv Hd Hcomp Hst Hfx]. destruct (state_valid _ Hst) as (Hmv & Hn & Hi & Hp & Hts).
  pose proof Hfx as Hfx'. apply fail_if_Ok in Hfx'. gobool. destruct Hfx' as [Hfv Hfd].
  unfold decodeSnapshotManagedSuccess.
  change (value_of (snapshotManagedPayloadFromDomain s)) with (VObject (members_of (snapshotManagedPayloadFromDomain s))).
  set (payload := members_of _). cbn [as_object]. unfold snapshot_schema. cbn [or_code mbind result_bind].
  assert (objectShape payload ["snapshot_digest"; "infrastructure"; "policy"; "targets"; "foreign_context_digest"] = true ∧
    field "snapshot_digest" payload = Some (VString (sp_digest s)) ∧
    field "foreign_context_digest" payload = Some (VString (fx_digest (sp_foreignContext s))) ∧
    field "infrastructure" payload = Some (value_of (or_null snapshotInfrastructureWire (ms_infrastructure (sp_managedState s)))) ∧
    field "policy" payload = Some (value_of (or_null snapshotPolicyWire (ms_policy (sp_managedState s)))) ∧
    field "targets" payload = Some (VArray (value_of <$> (snapshotTargetWire <$> ms_targets (sp_managedState s)))))
    as (-> & -> & -> & -> & -> & ->) by done.
  rewrite decode_infrastructure, decode_policy by done.
  cbn [as_string or_code mbind result_bind negb codec_if fail_if].
  change (validSnapshotManagedDigest (sp_digest s)) with (validSnapshotDigest (sp_digest s)).
  change (validSnapshotManagedDigest (fx_digest ?x)) with (validSnapshotDigest (fx_digest x)).
  rewrite Hd, Hfd. unfold decodeSnapshotTargets. cbn [snapshot_schema as_array or_code].
  cbn [or_code mbind result_bind negb orb codec_if fail_if]. rewrite !length_fmap.
  replace (MaxManagedSnapshotTargets <? _)%nat with false by (symmetry; by apply Nat.ltb_ge).
  rewrite <- list_fmap_compose, (decode_targets _ None) by done. cbn [codec_if mbind result_bind fail_if].
  destruct s as [[mi mp mt mv] [fd fv] d v]. unfold NewManagedState, NewForeignContext, NewManagedSnapshot.
  cbn [sp_managedState sp_foreignContext sp_digest sp_valid ms_infrastructure ms_policy ms_targets ms_valid fx_digest fx_valid] in *.
  subst mv fv v. rewrite (sort_slice_targets None) by done. 
  cbn [mbind result_bind fail_if]. rewrite Hst. cbn [mbind result_bind or_semantic]. rewrite Hfx.
  cbn [mbind result_bind or_semantic]. rewrite Hst. cbn [mbind result_bind]. rewrite Hfx.
  cbn [mbind result_bind or_semantic sp_digest].
  rewrite Hcomp, bool_decide_true by done. done.
Qed.

(** *** Only valid snapshots *)
Lemma or_code_Ok {A} L (o : option A) code a : or_code L o code = Ok a → o = Some a.
Proof. destruct o; [|done]. by intros [= ->]. Qed.
Lemma nullable_range v e :
  nullablePositiveInt64 v = Some e → match e with Some t => t ≤ max_int64 | None => True end.
Proof.
  destruct v as [[]|]; try (by intros [= <-]); unfold nullablePositiveInt64;
    (destruct (positiveInt64 _) as [n|] eqn:Hr; [|done]); intros [= <-]; apply positiveInt64_range in Hr; lia.
Qed.
Lemma decoded_target_typed previous item o : decode_snapshot_target previous item = Ok o → typed_target o.1.
Proof.
  unfold decode_snapshot_target, snapshot_schema. intros Hd. inv_codec Hd. injection Hd as <-.
  repeat match goal with H : or_semantic _ _ = Ok _ |- _ => apply or_semantic_Ok in H end.
  match goal with H : ParsePrefix _ = Ok _ |- _ => apply ParsePrefix_wf in H as [Hw _] end.
  match goal with H : NewTargetObservation _ _ _ _ = Ok _ |- _ =>
    unfold NewTargetObservation in H; set (l := _ ++ _) in H;
    destruct (canonicalManagedScopes l) as [c|] eqn:Hc; [|done];
    apply result_bind_Ok in H as (_ & _ & [= <-]) end.
  cbn [fst typed_target ob_target ob_effectiveUntil ob_scopes]. split; [done|]. split.
  - match goal with H : or_code _ (nullablePositiveInt64 _) _ = Ok _ |- _ => apply or_code_Ok, nullable_range in H; exact H end.
  - unfold l in Hc. rewrite !elem_of_cons, elem_of_nil.
    match type of Hc with canonicalManagedScopes ((if ?a then _ else _) ++ (if ?b then _ else _)) = _ => destruct a, b end;
      vm_compute in Hc; first [discriminate Hc|injection Hc as <-; auto].
Qed.
Lemma decoded_targets_typed previous items l : decode_snapshot_targets previous items = Ok l → Forall typed_target l.
Proof.
  revert previous l. induction items as [|i items IH]; intros previous l; cbn [decode_snapshot_targets]; [intros [= <-]; constructor|].
  intros (o & Ho%decoded_target_typed & H)%result_bind_Ok. apply result_bind_Ok in H as (os & Hos & [= <-]).
  constructor; [done|]. by eapply IH.
Qed.
Lemma decoded_snapshot_valid raw r :
  DecodeSnapshotManagedResponse raw = Ok r → well_typed r ∧ snapshot_valid r = true.
Proof.
  intros [(v & Hd)|(code & Hd)]%decode_payload_Ok.
  - unfold decodeSnapshotManagedSuccess in Hd. inv_codec Hd. injection Hd as <-.
    repeat match goal with
    | H : or_semantic _ _ = Ok _ |- _ => apply or_semantic_Ok in H
    | H : codec_if _ _ _ = Ok _ |- _ => apply fail_if_Ok in H
    | H : NewManagedState _ _ _ = Ok _ |- _ => apply result_bind_Ok in H as ([] & ?Hst & [= <-])
    | H : NewForeignContext _ = Ok _ |- _ => apply result_bind_Ok in H as ([] & ?Hfx & [= <-])
    | H : NewManagedSnapshot _ _ = Ok _ |- _ =>
      apply result_bind_Ok in H as ([] & _ & H); apply result_bind_Ok in H as ([] & _ & [= <-])
    end.
    cbn [snapshot_valid]. unfold well_typed, snapshot_response_codec. cbn [sp_managedState ms_targets]. split.
    + match goal with H : decodeSnapshotTargets _ = Ok _ |- _ => unfold decodeSnapshotTargets in H; inv_codec H;
        apply decoded_targets_typed in H; rewrite Forall_forall in H |- * end.
      intros o Ho%elem_of_sort_slice. auto.
    + apply snapshot_parts_iff. cbn [sp_digest] in *. gobool. split; try done. cbn [sp_digest].
      match goal with H : computeManagedSnapshotDigest _ _ = _ |- _ => rewrite H end. tauto.
  - unfold NewSnapshotManagedFailureResponse in Hd.
    destruct (validSnapshotManagedFailureCode code) eqn:Hc; [|done]. by injection Hd as <-.
Qed.
Lemma encode_snapshot_valid r raw :
  well_typed r → EncodeSnapshotManagedResponse (Some r) = Ok raw ↔
  snapshot_valid r = true ∧ raw = json_Marshal (snapshot_response_wire r).
Proof.
  intros Ht. destruct (snapshot_valid r) eqn:Hv.
  - pose proof (encode_root_fits _ _ _ (snapshot_fits r Ht Hv)) as He. destruct r; cbn [snapshot_valid snapshot_response_wire] in *;
      unfold EncodeSnapshotManagedResponse; rewrite Hv; cbn [negb fail_if mbind result_bind]; rewrite He;
      (split; [by intros [= <-]|by intros [_ ->]]).
  - split; [|by intros [? _]]. destruct r; cbn [snapshot_valid] in Hv; unfold EncodeSnapshotManagedResponse; by rewrite Hv.
Qed.
Lemma snapshot_decodes r :
  well_typed r → snapshot_valid r = true → DecodeSnapshotManagedResponse (json_Marshal (snapshot_response_wire r)) = Ok r.
Proof.
  intros Ht Hv. pose proof (snapshot_fits r Ht Hv) as Hf. unfold DecodeSnapshotManagedResponse.
  destruct r; cbn [snapshot_response_wire snapshot_valid] in *.
  - rewrite decode_success by done. apply decode_snapshot; [done|by apply snapshot_parts_iff].
  - rewrite decode_failure by done. unfold NewSnapshotManagedFailureResponse. by rewrite Hv.
Qed.
#[export] Instance snapshot_response_codec_lawful : LawfulCodec SnapshotManagedResponse.
Proof.
  split.
  - intros r Ht. split; [intros Hv; eexists; by apply encode_snapshot_valid|by intros [raw [? _]%encode_snapshot_valid]].
  - intros r raw Ht [Hv ->]%encode_snapshot_valid; [|done]. destruct (snapshot_fits r Ht Hv) as (Hp & _ & _ & Hs).
    pose proof (marshal_length _ Hp). unfold max_payload, snapshot_response_codec. lia.
  - intros r raw Ht [Hv ->]%encode_snapshot_valid; [|done]. by apply snapshot_decodes.
  - intros raw r Hd. by eapply decoded_snapshot_valid.
Qed.
