(* ===== verification/IpcFrames.v ===== *)
(** * IPC frames (internal/ipc: frame.go, request_frame.go, response_frame.go and their siblings)

    A message on the stream is its length as four bytes, the most significant
    first, and its JSON text. A reader is the bytes that arrive before its
    stream ends or fails. A writer is any implementation of io.Writer, which may
    accept a part of the bytes or fail at any call. *)

From S2P Require Import Prelude GoStd Netip NetipParse CoreModel Json JsonDecode Firewall Ipc IpcCodec IpcRoundtrip IpcResponses IpcCodecs.

Definition maxFrameBytes : Z := 2 ^ 20.
Abbreviation FrameErrorCode := string.
Definition FrameErrorCodeTruncatedLength : FrameErrorCode := "truncated_length".
Definition FrameErrorCodeFrameTooLarge : FrameErrorCode := "frame_too_large".
Definition FrameErrorCodeTruncatedPayload : FrameErrorCode := "truncated_payload".
Definition FrameErrorCodeWriteFailed : FrameErrorCode := "write_failed".
Definition frameError (code : FrameErrorCode) : error := Typed "FrameError" [code] (Errorf "ipc frame rejected").

(** ** Reading *)
(** io.ReadFull: the bytes and what is left, or an error. *)
Definition ReadFull (n : nat) (s : list Z) : option (list Z * list Z) :=
  if (length s <? n)%nat then None else Some (take n s, drop n s).
(** binary.BigEndian *)
Definition Uint32 (b : list Z) : Z := foldl (λ n c, n * 256 + c) 0 b.
Definition PutUint32 (n : Z) : list Z := [n / 2 ^ 24 mod 256; n / 2 ^ 16 mod 256; n / 2 ^ 8 mod 256; n mod 256].

Definition decode_frame {A} (maxPayload : Z) (tooLarge : error) (decode : list Z → result A) (reader : list Z)
    : result A * list Z :=
  match ReadFull 4 reader with
  | None => (Err (frameError FrameErrorCodeTruncatedLength), [])
  | Some (header, rest) =>
    let payloadLength := Uint32 header in
    if maxFrameBytes <? payloadLength then (Err (frameError FrameErrorCodeFrameTooLarge), rest)
    else if maxPayload <? payloadLength then (Err tooLarge, rest)
    else match ReadFull (Z.to_nat payloadLength) rest with
         | None => (Err (frameError FrameErrorCodeTruncatedPayload), [])
         | Some (payload, rest) => (decode payload, rest)
         end
  end.
Definition DecodeFrame : list Z → result Request * list Z :=
  decode_frame maxRequestBytes (validationError ErrorCodeRequestTooLarge) DecodeRequest.
Definition DecodeMutationResponseFrame : list Z → result ipc.MutationResponse * list Z :=
  decode_frame maxMutationResponseBytes (ipc.mutationResponseError "response_too_large") DecodeMutationResponse.
Definition DecodeProbeCapabilitiesResponseFrame : list Z → result ProbeCapabilitiesResponse * list Z :=
  decode_frame maxProbeCapabilitiesResponseBytes (probeCapabilitiesResponseError "response_too_large")
    DecodeProbeCapabilitiesResponse.
Definition DecodeSnapshotManagedResponseFrame : list Z → result SnapshotManagedResponse * list Z :=
  decode_frame maxSnapshotManagedResponseBytes (snapshotManagedResponseError "response_too_large")
    DecodeSnapshotManagedResponse.

(** ** Writing *)
(** io.Writer: the count that Write reports and whether it reports an error; and
    the bytes that the writer has let through. *)
Class Writer (W : Type) := {
  Write : list Z → W → Z * bool * W;
  contents : W → list Z
}.
(** The contract of io.Writer: the count is of the bytes that were written, from
    the beginning of the slice. *)
Class LawfulWriter (W : Type) `{!Writer W} : Prop := {
  Write_count p w n failed w' : Write p w = (n, failed, w') →
    0 ≤ n ≤ Z.of_nat (length p) ∧ contents w' = contents w ++ take (Z.to_nat n) p
}.

Section writing.
Context {W : Type} `{!Writer W}.

(** Each turn of the loop writes a byte at least, so the length is fuel enough. *)
Fixpoint write_all (fuel : nat) (remaining : list Z) (w : W) : bool * W :=
  match remaining, fuel with
  | [], _ => (true, w)
  | _, O => (false, w)
  | _, S f =>
    let '(written, failed, w) := Write remaining w in
    if (written <? 0) || (Z.of_nat (length remaining) <? written) then (false, w)
    else if failed || (written =? 0) then (false, w)
    else write_all f (drop (Z.to_nat written) remaining) w
  end.
Definition writeAll (remaining : list Z) (w : W) : bool * W := write_all (length remaining) remaining w.

(** A nil writer is [None]. *)
Definition writeFramePayload (payload : list Z) (writer : option W) : result unit * option W :=
  if maxFrameBytes <? Z.of_nat (length payload) then (Err (frameError FrameErrorCodeFrameTooLarge), writer)
  else match writer with
  | None => (Err (frameError FrameErrorCodeWriteFailed), None)
  | Some w =>
    let '(ok, w) := writeAll (PutUint32 (Z.of_nat (length payload))) w in
    if negb ok then (Err (frameError FrameErrorCodeWriteFailed), Some w)
    else
      let '(ok, w) := writeAll payload w in
      if negb ok then (Err (frameError FrameErrorCodeWriteFailed), Some w) else (Ok tt, Some w)
  end.
(** Encoding completes before the first write. *)
Definition write_frame (encoded : result (list Z)) (writer : option W) : result unit * option W :=
  match encoded with
  | Err e => (Err e, writer)
  | Ok payload => writeFramePayload payload writer
  end.
Definition WriteMutationRequestFrame (r : ipc.MutationRequest) := write_frame (EncodeMutationRequest r).
Definition WriteProbeCapabilitiesRequestFrame (r : option unit) := write_frame (EncodeProbeCapabilitiesRequest r).
Definition WriteSnapshotManagedRequestFrame (r : option unit) := write_frame (EncodeSnapshotManagedRequest r).
Definition WriteMutationResponseFrame (r : option ipc.MutationResponse) := write_frame (EncodeMutationResponse r).
Definition WriteProbeCapabilitiesResponseFrame (r : option ProbeCapabilitiesResponse) :=
  write_frame (EncodeProbeCapabilitiesResponse r).
Definition WriteSnapshotManagedResponseFrame (r : option SnapshotManagedResponse) :=
  write_frame (EncodeSnapshotManagedResponse r).
End writing.

(** ** The bytes of a frame *)
Definition frame (payload : list Z) : list Z := PutUint32 (Z.of_nat (length payload)) ++ payload.
Lemma Uint32_PutUint32 n : 0 ≤ n < 2 ^ 32 → Uint32 (PutUint32 n) = n.
Proof.
  intros Hn. unfold Uint32, PutUint32. cbn [foldl].
  Z.div_mod_to_equations. lia.
Qed.

Lemma ReadFull_app n a b : length a = n → ReadFull n (a ++ b) = Some (a, b).
Proof.
  intros <-. unfold ReadFull. rewrite length_app. replace (_ <? _)%nat with false by (symmetry; apply Nat.ltb_ge; lia).
  by rewrite take_app_length, drop_app_length.
Qed.
Section frames.
Context {A : Type} (maxPayload : Z) (tooLarge : error) (decode : list Z → result A).
Lemma decode_frame_app payload rest :
  Z.of_nat (length payload) ≤ maxPayload → Z.of_nat (length payload) ≤ maxFrameBytes →
  decode_frame maxPayload tooLarge decode (frame payload ++ rest) = (decode payload, rest).
Proof.
  intros Hm Hf. unfold decode_frame, frame. rewrite <- app_assoc, ReadFull_app by done.
  unfold maxFrameBytes in *. rewrite Uint32_PutUint32 by lia.
  replace (2 ^ 20 <? _) with false by lia. replace (maxPayload <? _) with false by lia.
  by rewrite Nat2Z.id, ReadFull_app.
Qed.
(** A frame that is cut short is refused. *)
Lemma decode_frame_cut payload k :
  Z.of_nat (length payload) ≤ maxFrameBytes → (k < length (frame payload))%nat →
  ∃ e, (decode_frame maxPayload tooLarge decode (take k (frame payload))).1 = Err e.
Proof.
  intros Hf Hk. unfold frame in *. rewrite length_app in Hk. change (length (PutUint32 _)) with 4%nat in Hk.
  unfold decode_frame. destruct (Nat.ltb_spec k 4).
  - unfold ReadFull. rewrite length_take. replace (_ <? 4)%nat with true; [by eexists|].
    symmetry. apply Nat.ltb_lt. lia.
  - rewrite take_app_ge by (cbn; lia). rewrite ReadFull_app by done. change (length (PutUint32 _)) with 4%nat.
    unfold maxFrameBytes in *. rewrite Uint32_PutUint32 by lia.
    destruct (_ <? _); [by eexists|]. destruct (_ <? _); [by eexists|]. unfold ReadFull at 1.
    rewrite length_take, Nat2Z.id. replace (_ <? _)%nat with true; [by eexists|]. symmetry. apply Nat.ltb_lt. lia.
Qed.
End frames.

Section written.
Context {W : Type} `{LawfulWriter W}.
Lemma write_all_spec fuel p w ok w' :
  (length p ≤ fuel)%nat → write_all fuel p w = (ok, w') →
  ∃ k, contents w' = contents w ++ take k p ∧ (ok = true → (length p ≤ k)%nat).
Proof.
  revert p w. induction fuel as [|f IH]; intros p w Hl; (destruct p as [|b p]; [intros [= <- <-]; exists 0%nat; by rewrite app_nil_r|]).
  { cbn in Hl. lia. }
  cbn [write_all]. destruct (Write (b :: p) w) as [[n failed] w1] eqn:Hw. apply Write_count in Hw as [Hn Hc].
  replace ((n <? 0) || _) with false by (symmetry; apply orb_false_iff; lia).
  destruct (failed || (n =? 0)) eqn:Hbad; [intros [= <- <-]; by eexists|]. apply orb_false_iff in Hbad as [_ Hz%Z.eqb_neq].
  intros (k & Hk & Hok)%IH; [|rewrite length_drop; cbn [length] in *; lia].
  exists (Z.to_nat n + k)%nat. rewrite Hk, Hc, <- app_assoc, take_take_drop. split; [done|].
  intros Ht%Hok. rewrite length_drop in Ht. lia.
Qed.
Lemma write_frame_spec payload w r w' :
  writeFramePayload payload (Some w) = (r, w') →
  ∃ w1 k, w' = Some w1 ∧ contents w1 = contents w ++ take k (frame payload) ∧
    (r = Ok tt → contents w1 = contents w ++ frame payload ∧ Z.of_nat (length payload) ≤ maxFrameBytes).
Proof.
  unfold writeFramePayload. destruct (Z.ltb_spec maxFrameBytes (Z.of_nat (length payload))) as [Hs|Hs].
  { intros [= <- <-]. exists w, 0%nat. by rewrite app_nil_r. }
  unfold writeAll, frame. destruct (write_all _ _ w) as [ok w1] eqn:H1.
  apply write_all_spec in H1 as (k1 & Hk1 & Hok1); [|done]. destruct ok; cbn [negb].
  - destruct (write_all _ payload w1) as [ok w2] eqn:H2. apply write_all_spec in H2 as (k2 & Hk2 & Hok2); [|done].
    rewrite take_ge in Hk1 by auto. rewrite Hk1, <- app_assoc in Hk2.
    destruct ok; cbn [negb]; intros [= <- <-].
    + exists w2, (length (PutUint32 (Z.of_nat (length payload))) + k2)%nat.
      rewrite take_app_add. rewrite Hk2. split; [done|]. split; [done|]. intros _. split; [|done].
      by rewrite (take_ge payload) by auto.
    + exists w2, (length (PutUint32 (Z.of_nat (length payload))) + k2)%nat. rewrite take_app_add. done.
  - intros [= <- <-]. exists w1, (k1 `min` 4)%nat. split; [done|]. split; [|done].
    rewrite take_app_le by (cbn; lia). rewrite Hk1. f_equal.
    destruct (Nat.le_gt_cases k1 4); [by rewrite Nat.min_l|]. rewrite Nat.min_r by lia. by rewrite !take_ge by (cbn; lia).
Qed.
End written.

(** ** Delivery *)
(** The bytes that a writer lets through between two states are a frame that
    the reader decodes to the message, leaves what follows, and refuses when
    any byte is missing. *)
Definition delivers {A W} `{!Writer W} (reader : list Z → result A * list Z) (a : A) (w w' : W) : Prop :=
  ∃ bytes, contents w' = contents w ++ bytes ∧
    (∀ rest, reader (bytes ++ rest) = (Ok a, rest)) ∧
    ∀ k, (k < length bytes)%nat → ∃ e, (reader (take k bytes)).1 = Err e.

Section delivery.
Context {A W : Type} `{LawfulCodec A} `{LawfulWriter W} (tooLarge : error).
Lemma encoded_frame a raw :
  max_payload ≤ maxFrameBytes → well_typed a → encode a = Ok raw →
  (∀ rest, decode_frame max_payload tooLarge decode (frame raw ++ rest) = (Ok a, rest)) ∧
  ∀ k, (k < length (frame raw))%nat → ∃ e, (decode_frame max_payload tooLarge decode (take k (frame raw))).1 = Err e.
Proof.
  intros Hm Ht He. pose proof (encode_size a raw Ht He) as Hs. split; intros.
  - rewrite decode_frame_app by lia. by rewrite (decode_encode a raw Ht He).
  - apply decode_frame_cut; [lia|done].
Qed.
Lemma frame_delivered a (w : W) w' :
  max_payload ≤ maxFrameBytes → well_typed a → write_frame (encode a) (Some w) = (Ok tt, w') →
  ∃ w1, w' = Some w1 ∧ delivers (decode_frame max_payload tooLarge decode) a w w1.
Proof.
  intros Hm Ht. unfold write_frame. destruct (encode a) as [raw|] eqn:He; [|done].
  intros (w1 & k & -> & _ & Hok)%write_frame_spec. destruct (Hok eq_refl) as [Hc _].
  exists w1. split; [done|]. exists (frame raw). split; [done|]. by apply encoded_frame.
Qed.
End delivery.

(** C39: The frame functions deliver. Whatever io.Writer the frame goes to, however
    the writer splits it and wherever it fails: when a write of a mutation
    request, or of a mutation, probe or snapshot response reports success, the
    bytes that went through are one frame which the matching reader decodes to
    the very message, leaving the bytes that follow; and the reader refuses
    every proper prefix of it. *)
Theorem frames_deliver {W} `{LawfulWriter W} (w : W) w' :
  (∀ r, typed_request r → WriteMutationRequestFrame r (Some w) = (Ok tt, Some w') →
     delivers DecodeFrame (Mutation r) w w') ∧
  (∀ r, WriteMutationResponseFrame (Some r) (Some w) = (Ok tt, Some w') →
     delivers DecodeMutationResponseFrame r w w') ∧
  (∀ r, WriteProbeCapabilitiesResponseFrame (Some r) (Some w) = (Ok tt, Some w') →
     delivers DecodeProbeCapabilitiesResponseFrame r w w') ∧
  (∀ r, well_typed r → WriteSnapshotManagedResponseFrame (Some r) (Some w) = (Ok tt, Some w') →
     delivers DecodeSnapshotManagedResponseFrame r w w').
Proof.
  split_and!.
  - intros r Ht Hw.
    assert (max_payload (A := Request) ≤ maxFrameBytes) as Hm by (vm_compute; congruence).
    destruct (frame_delivered (A := Request) (validationError ErrorCodeRequestTooLarge) (Mutation r) w (Some w') Hm Ht Hw)
      as (w1 & [= <-] & Hd). exact Hd.
  - intros r Hw.
    assert (max_payload (A := ipc.MutationResponse) ≤ maxFrameBytes) as Hm by (vm_compute; congruence).
    destruct (frame_delivered (A := ipc.MutationResponse) (ipc.mutationResponseError "response_too_large") r w (Some w') Hm I Hw)
      as (w1 & [= <-] & Hd). exact Hd.
  - intros r Hw.
    assert (max_payload (A := ProbeCapabilitiesResponse) ≤ maxFrameBytes) as Hm by (vm_compute; congruence).
    destruct (frame_delivered (A := ProbeCapabilitiesResponse) (probeCapabilitiesResponseError "response_too_large") r w (Some w') Hm I Hw)
      as (w1 & [= <-] & Hd). exact Hd.
  - intros r Ht Hw.
    assert (max_payload (A := SnapshotManagedResponse) ≤ maxFrameBytes) as Hm by (vm_compute; congruence).
    destruct (frame_delivered (A := SnapshotManagedResponse) (snapshotManagedResponseError "response_too_large") r w (Some w') Hm Ht Hw)
      as (w1 & [= <-] & Hd). exact Hd.
Qed.

(** ** A pipe *)
(** It takes a limited number of bytes and then fails. *)
Record pipe := MkPipe { pipe_bytes : list Z; pipe_room : nat }.
#[export] Instance pipe_writer : Writer pipe := {
  Write p w :=
    let n := Nat.min (length p) (pipe_room w) in
    (Z.of_nat n, (n <? length p)%nat, MkPipe (pipe_bytes w ++ take n p) (pipe_room w - n));
  contents := pipe_bytes
}.
#[export] Instance pipe_lawful : LawfulWriter pipe.
Proof. split. intros p w n failed w' [= <- <- <-]. split; [lia|]. by rewrite Nat2Z.id. Qed.

Definition sample_response : ipc.MutationResponse :=
  ipc.ApplyManagedPlanResponse (ipc.MkResponseBase ipc.MutationStatusRejected ipc.MutationErrorCodeNotReady true)
    ipc.DomainTarget.
Definition sample_sent : pipe :=
  match WriteMutationResponseFrame (Some sample_response) (Some (MkPipe [7] 1000)) with
  | (_, Some w) => w
  | _ => MkPipe [] 0
  end.
Lemma frames_deliver_witness :
  WriteMutationResponseFrame (Some sample_response) (Some (MkPipe [7] 1000)) = (Ok tt, Some sample_sent) ∧
  delivers DecodeMutationResponseFrame sample_response (MkPipe [7] 1000) sample_sent.
Proof.
  assert (WriteMutationResponseFrame (Some sample_response) (Some (MkPipe [7] 1000)) = (Ok tt, Some sample_sent)) as Hw
    by (vm_compute; reflexivity).
  split; [exact Hw|]. exact (proj1 (proj2 (frames_deliver (MkPipe [7] 1000) sample_sent)) sample_response Hw).
Defined.
