(* ===== verification/IpcTransport.v ===== *)
(** * Clients, server and handlers of the IPC (internal/ipc and internal/enforcer, the *_linux.go files)

    One exchange over a Unix connection: the client of client_linux.go (and its
    two siblings), the serve loop of enforcer_loop_linux.go, and the handlers of
    handlers_linux.go over the executor. What the operating system and the
    contexts answer is given by records of answers, one per point of the code
    that asks; a context that is not done is [None]. A connection is closed
    after the exchange, whatever happens. *)

From S2P Require Import Prelude GoStd Netip NetipParse CoreModel Json JsonDecode Firewall Ipc Enforcer IpcCodec IpcRoundtrip IpcResponses IpcCodecs IpcFrames.

(** ** Contexts and peers *)
Inductive context_end := Canceled | DeadlineExceeded.
Definition context_cause (c : context_end) : error :=
  match c with Canceled => Errorf "context canceled" | DeadlineExceeded => Errorf "context deadline exceeded" end.
Definition context_code (c : context_end) : string :=
  match c with Canceled => "context_canceled" | DeadlineExceeded => "context_deadline_exceeded" end.
(** An error type with a code and, for a context that is done, its cause. *)
Definition coded (type_name code : string) : error := Typed type_name [code] (Errorf type_name).
Definition context_error (type_name : string) (c : context_end) : error :=
  Typed type_name [context_code c] (context_cause c).
(** The tests [if contextErr := ...; contextErr != nil { return contextErr }]. *)
Definition unless_done (type_name : string) (c : option context_end) : result unit :=
  match c with Some c => Err (context_error type_name c) | None => Ok tt end.
Definition or_done (type_name : string) (c : option context_end) (e : error) : error :=
  match c with Some c => context_error type_name c | None => e end.
Definition contextTerminationError := unless_done "ListenerError".

(** The first error in the chain of the type, and its code. *)
Fixpoint error_code (type_name : string) (e : error) : option string :=
  match e with
  | Errorf _ => None
  | Wrapf _ c => error_code type_name c
  | Typed t fields c =>
    if bool_decide (t = type_name) then match fields with [code] => Some code | _ => None end
    else error_code type_name c
  | Join l r => match error_code type_name l with Some code => Some code | None => error_code type_name r end
  end.

Definition PeerErrorCodeCredentialUnavailable : string := "peer_credential_unavailable".
Definition PeerErrorCodeUIDMismatch : string := "peer_uid_mismatch".
(** The user of the other end, if the system tells. *)
Definition verifyUnixPeerUID (peer : option Z) (expectedUID : Z) : result unit :=
  match peer with
  | None => Err (coded "PeerError" PeerErrorCodeCredentialUnavailable)
  | Some uid => fail_if (negb (uid =? expectedUID)) (coded "PeerError" PeerErrorCodeUIDMismatch)
  end.
Definition DecodeUnixFrame (peer : option Z) (expectedUID : Z) (reader : list Z) : result Request :=
  verifyUnixPeerUID peer expectedUID;; (DecodeFrame reader).1.

(** ** The clients *)
(** The answers to one round trip: the context at each test, whether the dial
    gives a Unix connection, the peer, and whether the deadline is set. *)
Record dialing := MkDialing {
  d_context : nat → option context_end;
  d_dial : bool;
  d_peer : option Z;
  d_deadline : bool
}.
Definition mutationResponseMatchesRequest (request : ipc.MutationRequest) (response : option ipc.MutationResponse) : bool :=
  match request, response with
  | ipc.ApplyManagedPlanRequest r, Some (ipc.ApplyManagedPlanResponse _ domain) =>
    match ipc.Plan r with Some plan => bool_decide (domain = ipc.plan_Domain plan) | None => false end
  | ipc.RemoveManagedInfrastructureRequest r, Some (ipc.RemoveManagedInfrastructureResponse _) => negb (is_nil r)
  | _, _ => false
  end.

Section client.
Context {A B W : Type} `{!Writer W} (type_name : string) (encoded : result (list Z))
  (decodeFrame : list Z → result A * list Z) (finish : A → result B).

(** What precedes the first write. *)
Definition connect (env : dialing) (expectedServerUID : Z) : result unit :=
  encoded;;
  unless_done type_name (d_context env 0);;
  fail_if (negb (d_dial env)) (or_done type_name (d_context env 1) (coded type_name "dial_failed"));;
  verifyUnixPeerUID (d_peer env) expectedServerUID;;
  fail_if (negb (d_deadline env)) (or_done type_name (d_context env 2) (coded type_name "deadline_failed"));;
  unless_done type_name (d_context env 3).
(** [reply]: what can be read once these bytes have gone through. *)
Definition round_trip_at (env : dialing) (expectedServerUID : Z) (reply : list Z → list Z) (w : W) : result B * W :=
  match connect env expectedServerUID with
  | Err e => (Err e, w)
  | Ok _ =>
    let '(sent, w') := write_frame encoded (Some w) in
    let w' := default w w' in
    match sent with
    | Err e => (Err (or_done type_name (d_context env 4) e), w')
    | Ok _ =>
      match (decodeFrame (reply (contents w'))).1 with
      | Err e => (Err (or_done type_name (d_context env 5) e), w')
      | Ok a => (finish a, w')
      end
    end
  end.
End client.

Section clients.
Context {W : Type} `{!Writer W}.
Definition roundTripMutationAt (request : ipc.MutationRequest)
    : dialing → Z → (list Z → list Z) → W → result ipc.MutationResponse * W :=
  round_trip_at "MutationClientError" (EncodeMutationRequest request) DecodeMutationResponseFrame
    (λ response, fail_if (negb (mutationResponseMatchesRequest request (Some response)))
                   (coded "MutationClientError" "response_mismatch");; Ok response).
Definition roundTripProbeCapabilitiesAt : dialing → Z → (list Z → list Z) → W → result FirewallCapabilities * W :=
  round_trip_at "ProbeClientError" (EncodeProbeCapabilitiesRequest NewProbeCapabilitiesRequest)
    DecodeProbeCapabilitiesResponseFrame
    (λ response, match response with
                 | probeCapabilitiesSuccessResponse c =>
                   fail_if (negb (is_ok (Capabilities_Validate c))) (coded "ProbeClientError" "response_mismatch");; Ok c
                 | probeCapabilitiesFailureResponse code => Err (coded "ProbeCapabilitiesRemoteError" code)
                 end).
Definition roundTripSnapshotManagedAt : dialing → Z → (list Z → list Z) → W → result ManagedSnapshot * W :=
  round_trip_at "SnapshotClientError" (EncodeSnapshotManagedRequest NewSnapshotManagedRequest)
    DecodeSnapshotManagedResponseFrame
    (λ response, match response with
                 | snapshotManagedSuccessResponse s =>
                   fail_if (negb (is_ok (ManagedSnapshot_Validate s))) (coded "SnapshotClientError" "response_mismatch");; Ok s
                 | snapshotManagedFailureResponse code => Err (coded "SnapshotManagedRemoteError" code)
                 end).
End clients.

(** ** The server *)
(** The handlers act on a state and answer; a nil answer is [None]. *)
Record EnforcerHandlers (S : Type) := MkHandlers {
  h_ProbeCapabilities : ST S (option ProbeCapabilitiesResponse);
  h_SnapshotManaged : ST S (option SnapshotManagedResponse);
  h_Mutation : ipc.MutationRequest → ST S (option ipc.MutationResponse)
}.
Arguments h_ProbeCapabilities {S}. Arguments h_SnapshotManaged {S}. Arguments h_Mutation {S}.
Definition enforcerServerError (code : string) : error := coded "EnforcerServerError" code.

(** The answers to one connection: the context at each test, the deadline, the
    peer, and the bytes that arrive. *)
Record accepted := MkAccepted {
  a_context : nat → option context_end;
  a_deadline : bool;
  a_peer : option Z;
  a_incoming : list Z
}.
Record enforcerConnectionResult := MkConnectionResult { cr_err : option error; cr_requestLocal : bool }.
Definition localEnforcerConnectionFailure (e : error) : enforcerConnectionResult := MkConnectionResult (Some e) true.
Definition fatalEnforcerConnectionFailure (e : error) : enforcerConnectionResult := MkConnectionResult (Some e) false.

Definition enforcerDecodeFailureIsRequestLocal (e : error) : bool :=
  if errors_As e "PeerError" then bool_decide (error_code "PeerError" e = Some PeerErrorCodeUIDMismatch)
  else if errors_As e "FrameError" then
    match error_code "FrameError" e with
    | Some code => one_of code [FrameErrorCodeTruncatedLength; FrameErrorCodeFrameTooLarge; FrameErrorCodeTruncatedPayload]
    | None => false
    end
  else errors_As e "ValidationError".
Definition enforcerWriteFailureIsRequestLocal (e : error) : bool :=
  bool_decide (error_code "FrameError" e = Some FrameErrorCodeWriteFailed).

Section server.
Context {S W : Type} `{!Writer W} (handlers : EnforcerHandlers S).

Definition encodeEnforcerServerPayload (context : option context_end) (request : Request) : ST S (list Z) :=
  match request with
  | ProbeCapabilities =>
    response ← h_ProbeCapabilities handlers;
    st_lift (contextTerminationError context);; st_lift (EncodeProbeCapabilitiesResponse response)
  | SnapshotManaged =>
    response ← h_SnapshotManaged handlers;
    st_lift (contextTerminationError context);; st_lift (EncodeSnapshotManagedResponse response)
  | Mutation r =>
    response ← h_Mutation handlers r;
    st_lift (contextTerminationError context);;
    st_lift (fail_if (negb (mutationResponseMatchesRequest r response)) (enforcerServerError "response_mismatch"));;
    st_lift (EncodeMutationResponse response)
  end.
Definition writeEnforcerServerPayload (context : option context_end) (payload : list Z) (w : W) : result unit * W :=
  let '(r, w') := writeFramePayload payload (Some w) in
  (match r with Ok _ => Ok tt | Err e => Err (or_done "ListenerError" context e) end, default w w').

Definition serveEnforcerConnection (c : accepted) (expectedGuardUID : Z) (w : W) (s : S)
    : enforcerConnectionResult * W * S :=
  if negb (a_deadline c) then
    (match a_context c 0 with
     | Some d => localEnforcerConnectionFailure (context_error "ListenerError" d)
     | None => fatalEnforcerConnectionFailure (enforcerServerError "unavailable")
     end, w, s)
  else
    let request := DecodeUnixFrame (a_peer c) expectedGuardUID (a_incoming c) in
    match a_context c 1 with
    | Some d => (localEnforcerConnectionFailure (context_error "ListenerError" d), w, s)
    | None =>
      match request with
      | Err e => ((if enforcerDecodeFailureIsRequestLocal e then localEnforcerConnectionFailure e
                   else fatalEnforcerConnectionFailure e), w, s)
      | Ok request =>
        let '(payload, s') := encodeEnforcerServerPayload (a_context c 2) request s in
        match a_context c 3 with
        | Some d => (localEnforcerConnectionFailure (context_error "ListenerError" d), w, s')
        | None =>
          match payload with
          | Err e => (fatalEnforcerConnectionFailure e, w, s')
          | Ok payload =>
            let '(r, w') := writeEnforcerServerPayload (a_context c 4) payload w in
            match r with
            | Ok _ => (MkConnectionResult None false, w', s')
            | Err e =>
              (match a_context c 5 with
               | Some d => localEnforcerConnectionFailure (context_error "ListenerError" d)
               | None => if enforcerWriteFailureIsRequestLocal e then localEnforcerConnectionFailure e
                         else fatalEnforcerConnectionFailure e
               end, w', s')
            end
          end
        end
      end
    end.

(** The serve loop: what acceptUnix gives at each turn (a connection with its
    writer, or an error), and the parent context after the attempt. It ends
    with its error, the failures it has reported, and the state; the list is
    exhausted while the loop would wait in accept. *)
Fixpoint serve_loop (expectedGuardUID : Z) (turns : list (result (accepted * W) * option context_end)) (s : S)
    : option error * list error * S :=
  match turns with
  | [] => (None, [], s)
  | (Err e, _) :: _ => (Some e, [], s)
  | (Ok (c, w), parent) :: rest =>
    let '(r, _, s') := serveEnforcerConnection c expectedGuardUID w s in
    match contextTerminationError parent with
    | Err e => (Some e, [], s')
    | Ok _ =>
      match cr_err r with
      | None => serve_loop expectedGuardUID rest s'
      | Some e =>
        if negb (cr_requestLocal r) then (Some e, [], s')
        else let '(ended, failures, s'') := serve_loop expectedGuardUID rest s' in (ended, e :: failures, s'')
      end
    end
  end.
End server.

(** ** The handlers (handlers_linux.go) *)
Section handlers.
Context {E : Type} `{MutationBackend E}.
Abbreviation X := (ST (executor E)).

(** The gate, unless the context is done before or right after. *)
Definition acquire : X bool :=
  taken ← consult be_Gate;
  if (taken : bool) then cancelled ← consult be_Cancelled; mret (negb cancelled) else mret false.
Definition probeFailureCode (e : error) : ProbeCapabilitiesFailureCode :=
  if errors_Is e ErrMutationBackendUnsupported then ProbeCapabilitiesFailureCodeUnsupported
  else ProbeCapabilitiesFailureCodeNotReady.
Definition snapshotFailureCode (e : error) : SnapshotManagedFailureCode :=
  if errors_Is e ErrMutationBackendUnsupported then SnapshotManagedFailureCodeUnsupported
  else if errors_Is e ErrMutationBackendOwnershipConflict || errors_As e "OwnershipConflictError"
  then SnapshotManagedFailureCodeOwnershipConflict
  else SnapshotManagedFailureCodeNotReady.
Definition newProbeFailure (code : ProbeCapabilitiesFailureCode) : option ProbeCapabilitiesResponse :=
  from_result (NewProbeCapabilitiesFailureResponse code).
Definition newSnapshotFailure (code : SnapshotManagedFailureCode) : option SnapshotManagedResponse :=
  from_result (NewSnapshotManagedFailureResponse code).

Definition probeCapabilities : X (option ProbeCapabilitiesResponse) :=
  let not_ready := mret (newProbeFailure ProbeCapabilitiesFailureCodeNotReady) in
  acquired ← acquire;
  if negb acquired then not_ready
  else
    probed ← observe SawProbe be_Probe;
    cancelled ← consult be_Cancelled;
    if (cancelled : bool) then not_ready
    else match probed with
    | Err e => mret (newProbeFailure (probeFailureCode e))
    | Ok c => match NewProbeCapabilitiesSuccessResponse c with Ok r => mret (Some r) | Err _ => not_ready end
    end.
Definition snapshotManaged : X (option SnapshotManagedResponse) :=
  let not_ready := mret (newSnapshotFailure SnapshotManagedFailureCodeNotReady) in
  acquired ← acquire;
  if negb acquired then not_ready
  else
    seen ← observe SawSnapshot be_Snapshot;
    cancelled ← consult be_Cancelled;
    if (cancelled : bool) then not_ready
    else match seen with
    | Err e => mret (newSnapshotFailure (snapshotFailureCode e))
    | Ok s => match NewSnapshotManagedSuccessResponse s with Ok r => mret (Some r) | Err _ => not_ready end
    end.
Definition mutation (request : ipc.MutationRequest) : X (option ipc.MutationResponse) :=
  acquired ← acquire;
  if negb acquired then mret (rejectedMutationResponse request ipc.MutationErrorCodeNotReady)
  else Execute false request.
Definition NewEnforcerHandlers : EnforcerHandlers (executor E) :=
  MkHandlers _ probeCapabilities snapshotManaged mutation.
End handlers.

(** ** One mutation, end to end *)
(** What happens to an exchange: the answers on both ends, and how many bytes
    of what was sent arrive. *)
Record link := MkLink {
  l_client : dialing;
  l_context : nat → option context_end;
  l_deadline : bool;
  l_peer : option Z;
  l_request_arrives : nat;
  l_reply_arrives : nat
}.
Definition l_accepted (l : link) (sent : list Z) : accepted :=
  MkAccepted (l_context l) (l_deadline l) (l_peer l) (take (l_request_arrives l) sent).
Section exchange.
Context {E W1 W2 : Type} `{MutationBackend E} `{!Writer W1} `{!Writer W2}.
Definition served (l : link) (guardUID : Z) (w : W2) (s : executor E) (sent : list Z) :=
  serveEnforcerConnection NewEnforcerHandlers (l_accepted l sent) guardUID w s.
Definition exchange (l : link) (serverUID guardUID : Z) (r : ipc.MutationRequest) (w1 : W1) (w2 : W2) (s : executor E)
    : result ipc.MutationResponse * executor E :=
  let reply sent := take (l_reply_arrives l) (contents (served l guardUID w2 s sent).1.2) in
  let '(response, w1') := roundTripMutationAt r (l_client l) serverUID reply w1 in
  (response, (served l guardUID w2 s (contents w1')).2).
End exchange.

(** *** The handler *)
Lemma newApply_valid domain status code has r :
  ipc.newApplyManagedPlanResponse domain status code has = Ok r → response_valid r = true.
Proof.
  unfold ipc.newApplyManagedPlanResponse. intros ([] & Hc%fail_if_Ok & [= <-])%result_bind_Ok.
  apply orb_false_iff in Hc as [?%negb_false_iff ?%negb_false_iff]. cbn [response_valid]. by apply andb_true_iff.
Qed.
Lemma newRemove_valid code r : ipc.NewRemoveManagedInfrastructureRejectedResponse code = Ok r → response_valid r = true.
Proof.
  unfold ipc.NewRemoveManagedInfrastructureRejectedResponse. intros ([] & Hc%fail_if_Ok & [= <-])%result_bind_Ok.
  by apply negb_false_iff in Hc.
Qed.
Lemma from_result_Some {A} (m : result A) a : from_result m = Some a → m = Ok a.
Proof. destruct m; [|done]. by intros [= ->]. Qed.
Lemma mapped_valid m outcome r : MapMutationResult (Authorized m) outcome = Ok r → response_valid r = true.
Proof.
  unfold MapMutationResult. intros (? & _ & Hr)%result_bind_Ok. destruct m.
  - apply result_bind_Ok in Hr as (? & _ & Hr). apply result_bind_Ok in Hr as (domain & _ & Hr). unfold mapApplyResult in Hr.
    repeat (case_bool_decide; [try by eapply newApply_valid|]); [|done].
    apply result_bind_Ok in Hr as (? & _ & Hr). apply result_bind_Ok in Hr as (code & _ & Hr). by eapply newApply_valid.
  - apply result_bind_Ok in Hr as (? & _ & Hr). unfold mapRemovalResult in Hr.
    case_bool_decide; [by injection Hr as <-|]. case_bool_decide; [by injection Hr as <-|]. case_bool_decide; [|done].
    apply result_bind_Ok in Hr as (? & _ & Hr). apply result_bind_Ok in Hr as (code & _ & Hr). by eapply newRemove_valid.
Qed.
Lemma handled_valid request evs r : handled request evs (Some r) → response_valid r = true.
Proof.
  remember (Some r) as answer eqn:Ha. intros Hh. revert Ha.
  destruct Hh as [|evs' code _ _ Hc|c s response Hi|c s m outcome Hm]; intros Ha.
  - done.
  - unfold rejectedMutationResponse in Ha. destruct request as [q|q].
    + destruct (ipc.Plan q); [|done]. by apply from_result_Some, newApply_valid in Ha.
    + by apply from_result_Some, newRemove_valid in Ha.
  - injection Ha as ->. unfold AuthorizeMutationRequest in Hi. destruct request as [q|q].
    + apply result_bind_Ok in Hi as (? & _ & ?). done.
    + apply result_bind_Ok in Hi as (? & _ & Hi). apply result_bind_Ok in Hi as ([removal|] & _ & Hi); [done|].
      by injection Hi as <-.
  - unfold respond in Ha. destruct (MapMutationResult (Authorized m) outcome) as [x|] eqn:Hx.
    + injection Ha as ->. by eapply mapped_valid.
    + destruct (NewUnknownMutationResult (Some m)); [|done]. by apply from_result_Some, mapped_valid in Ha.
Qed.

Section handler.
Context {E : Type} `{MutationBackend E}.
Implicit Types s : executor E.
Lemma acquire_quiet s : ∃ b s', acquire s = (Ok b, s') ∧ ex_trace s' = ex_trace s.
Proof.
  unfold acquire, consult, mbind, st_bind. destruct (be_Gate (ex_env s)) as [[] e]; [|by eexists _, _].
  cbn [ex_env ex_trace]. destruct (be_Cancelled e) as [c e']. by eexists _, _.
Qed.
Lemma mutation_handled r s :
  correlatableMutationRequest r = true →
  ∃ answer evs s', mutation r s = (Ok answer, s') ∧ ex_trace s' = evs ++ ex_trace s ∧ handled r evs answer.
Proof.
  intros Hc. destruct (acquire_quiet s) as (b & s1 & Ha & Ht). unfold mutation. rewrite (bind_step _ _ _ b s1) by done.
  destruct b; cbn [negb].
  - destruct (Execute_handles false r s1) as (x & evs & s2 & Hx & Ht2 & Hh). exists x, evs, s2.
    rewrite app_nil_r in Hh. by rewrite <- Ht.
  - eexists _, [], s1. split; [done|]. split; [done|]. constructor; [done|constructor|done].
Qed.
End handler.
Lemma valid_correlatable r : valid_request r → correlatableMutationRequest r = true.
Proof. destruct r as [[[plan|]|]|[owner|]]; try done. cbn. intros ->. done. Qed.
Lemma correlated_matches r resp : valid_request r → correlated r resp → mutationResponseMatchesRequest r (Some resp) = true.
Proof.
  destruct r as [[[plan|]|]|[owner|]], resp as [b domain|b]; try done. cbn. intros _ [= <-]. by apply bool_decide_true.
Qed.
Lemma truthful_Some r evs answer :
  correlatableMutationRequest r = true → truthful r evs answer → ∃ resp, answer = Some resp ∧ correlated r resp.
Proof. destruct answer as [resp|]; [|intros Hc [Hn _]; congruence]. intros _ [Hr _]. eauto. Qed.

(** *** Both ends *)
Lemma take_cut {A} (i j : nat) (l : list A) :
  take i (take j l) = l ∨ ∃ k, (k < length l)%nat ∧ take i (take j l) = take k l.
Proof.
  rewrite take_take. destruct (decide (length l ≤ i `min` j)%nat); [left; by apply take_ge|right].
  exists (i `min` j)%nat. split; [lia|done].
Qed.
Section ends.
Context {E W1 W2 : Type} `{MutationBackend E} `{LawfulWriter W1} `{LawfulWriter W2}.
Implicit Types s : executor E.

(** A request that does not decode is not handled, and not answered. *)
Lemma serve_undecoded c guardUID (w2 : W2) s e :
  (DecodeFrame (a_incoming c)).1 = Err e →
  let '(_, w2', s') := serveEnforcerConnection NewEnforcerHandlers c guardUID w2 s in w2' = w2 ∧ s' = s.
Proof.
  intros He. unfold serveEnforcerConnection, DecodeUnixFrame. rewrite He.
  destruct (negb _); [done|]. destruct (a_context c 1); [done|]. by destruct (verifyUnixPeerUID _ _).
Qed.
(** What the server may have written for an answer. *)
Definition wrote (answer : option ipc.MutationResponse) (bytes : list Z) : Prop :=
  bytes = [] ∨ ∃ payload j, EncodeMutationResponse answer = Ok payload ∧ bytes = take j (frame payload).
Lemma serve_decoded c guardUID (w2 : W2) s r :
  valid_request r → contents w2 = [] → (DecodeFrame (a_incoming c)).1 = Ok (Mutation r) →
  let '(_, w2', s') := serveEnforcerConnection NewEnforcerHandlers c guardUID w2 s in
  (s' = s ∧ contents w2' = []) ∨
  ∃ answer evs, ex_trace s' = evs ++ ex_trace s ∧ handled r evs answer ∧ wrote answer (contents w2').
Proof.
  intros Hv Hw Hd. unfold serveEnforcerConnection, DecodeUnixFrame. rewrite Hd.
  destruct (negb (a_deadline c)); [by left|]. destruct (a_context c 1); [by left|].
  destruct (verifyUnixPeerUID _ _) as [[]|]; [|by left]. cbn [mbind result_bind encodeEnforcerServerPayload NewEnforcerHandlers h_Mutation].
  destruct (mutation_handled r s (valid_correlatable r Hv)) as (answer & evs & s' & Hm & Ht & Hh).
  rewrite (bind_step _ _ _ answer s') by done. unfold mbind, st_bind, st_lift.
  assert (∀ w2', wrote answer (contents w2') → (s' = s ∧ contents w2' = []) ∨
    ∃ answer evs, ex_trace s' = evs ++ ex_trace s ∧ handled r evs answer ∧ wrote answer (contents w2')) as Hdone by eauto 6.
  destruct (contextTerminationError _); [|destruct (a_context c 3); apply Hdone; by left].
  destruct (fail_if _ _); [|destruct (a_context c 3); apply Hdone; by left].
  destruct (a_context c 3); [apply Hdone; by left|].
  destruct (EncodeMutationResponse answer) as [payload|] eqn:He; [|apply Hdone; by left].
  unfold writeEnforcerServerPayload. destruct (writeFramePayload payload (Some w2)) as [res w2'] eqn:Hwr.
  apply write_frame_spec in Hwr as (w3 & j & -> & Hc & _). cbn [default from_option id]. rewrite Hw in Hc. cbn [app] in Hc.
  assert (wrote answer (contents w3)) as Hj by (right; eauto). destruct res; by apply Hdone.
Qed.
(** What the client makes of it. *)
Lemma reply_read answer bytes i resp :
  wrote answer bytes → (DecodeMutationResponseFrame (take i bytes)).1 = Ok resp → answer = Some resp.
Proof.
  intros [->|(payload & j & He & ->)] Hd; [by rewrite take_nil in Hd|].
  destruct answer as [a|]; [|done]. unfold DecodeMutationResponseFrame in Hd.
  destruct (encoded_frame (A := ipc.MutationResponse) (ipc.mutationResponseError "response_too_large") a payload)
    as [Hok Hcut]; [vm_compute; congruence|done|done|].
  destruct (take_cut i j (frame payload)) as [Hf|(k & Hk & Hf)]; rewrite Hf in Hd.
  - specialize (Hok []). rewrite app_nil_r in Hok. unfold max_payload, decode, mutation_response_codec in Hok.
    rewrite Hok in Hd. by injection Hd as ->.
  - destruct (Hcut k Hk) as [e He']. unfold max_payload, decode, mutation_response_codec in He'. by rewrite He' in Hd.
Qed.
(** What the client has sent. *)
Lemma client_sent r l serverUID reply (w1 : W1) :
  typed_request r → contents w1 = [] →
  let '(res, w1') := roundTripMutationAt r l serverUID reply w1 in
  (contents w1' = [] ∧ ∃ e, res = Err e) ∨
  ∃ raw k, valid_request r ∧ encode (Mutation r) = Ok raw ∧ contents w1' = take k (frame raw) ∧
    ∀ resp, res = Ok resp → (DecodeMutationResponseFrame (reply (contents w1'))).1 = Ok resp.
Proof.
  intros Ht Hw. unfold roundTripMutationAt, round_trip_at. destruct (connect _ _ _ _) as [[]|] eqn:Hc; [|left; eauto].
  apply result_bind_Ok in Hc as (raw & He & _). rewrite He. cbn [write_frame].
  destruct (writeFramePayload raw (Some w1)) as [sent w'] eqn:Hwr.
  apply write_frame_spec in Hwr as (w2 & k & -> & Hk & _). cbn [default from_option id]. rewrite Hw in Hk. cbn [app] in Hk.
  pose proof (proj1 (proj1 (encode_mutation r raw Ht) He)) as Hv.
  destruct sent as [[]|]; [|right; exists raw, k; by split_and!].
  destruct (DecodeMutationResponseFrame (reply (contents w2))).1 as [resp|] eqn:Hd; right; exists raw, k.
  - split_and!; [done..|]. intros resp' (? & _ & [= ->])%result_bind_Ok. done.
  - by split_and!.
Qed.
Lemma request_arrives r raw k i :
  valid_request r → encode (Mutation r) = Ok raw →
  let incoming := take i (take k (frame raw)) in
  (DecodeFrame incoming).1 = Ok (Mutation r) ∨ ∃ e, (DecodeFrame incoming).1 = Err e.
Proof.
  intros Hv He. cbn zeta.
  destruct (encoded_frame (A := Request) (validationError ErrorCodeRequestTooLarge) (Mutation r) raw) as [Hok Hcut];
    [vm_compute; congruence|by apply valid_typed|done|].
  destruct (take_cut i k (frame raw)) as [->|(j & Hj & ->)].
  - left. specialize (Hok []). rewrite app_nil_r in Hok. unfold max_payload, decode, request_codec in Hok. unfold DecodeFrame. by rewrite Hok.
  - right. by apply Hcut.
Qed.
End ends.

(** *** The mutation of a request *)
(** The plan asks for what the request asks for. *)
Definition same_plan (plan : ipc.ManagedPlan) (p : OperationPlan) : Prop :=
  plan_OwnerVersion p = ipc.OwnerVersion plan ∧ plan_BasisSnapshotDigest p = ipc.BasisSnapshotDigest plan ∧
  plan_Revision p = ipc.Revision plan ∧
  match plan, p with
  | ipc.InfrastructurePlan q, InfrastructurePlanOf (Some p) => ip_schemaVersion p = ipc.schemaVersion_of q
  | ipc.PolicyPlan q, PolicyPlanOf (Some p) =>
    py_allowlist p = ipc.pl_allowlist (ipc.policy_of q) ∧
    py_protectedTargets p = ipc.pl_protectedTargets (ipc.policy_of q)
  | ipc.TargetPlan q, TargetPlanOf (Some p) =>
    let t := ipc.target_of q in
    tp_target p = ipc.tl_target t ∧ mapMembership (ipc.tl_membership t) = Some (tp_membership p) ∧
    mapTimeoutMode (ipc.tl_timeoutMode t) = Some (tp_timeoutMode p) ∧
    tp_effectiveUntilUnixMicro p = ipc.tl_effectiveUntilUnixMicro t ∧
    tp_hasEffectiveUntil p = ipc.tl_hasEffectiveUntil t ∧ mapScopes (ipc.tl_scopes t) = Some (tp_scopes p)
  | _, _ => False
  end.
Definition carries (r : ipc.MutationRequest) (m : AuthorizedMutation) : Prop :=
  match r, m with
  | ipc.ApplyManagedPlanRequest q, ApplyMutation p => ∃ plan, ipc.Plan q = Some plan ∧ same_plan plan p
  | ipc.RemoveManagedInfrastructureRequest q, RemoveMutation (Some a) =>
    rm_ownerVersion a = ipc.ExpectedOwnerVersion q
  | _, _ => False
  end.
Lemma authorized_carries r c s m : AuthorizeMutationRequest r c s = Ok (Authorized m) → carries r m.
Proof.
  unfold AuthorizeMutationRequest. destruct r as [q|q]; intros Ha.
  - apply result_bind_Ok in Ha as (m' & Hm & [= <-]). unfold authorizeApplyPlan in Hm.
    apply result_bind_Ok in Hm as (plan & Hplan & Hm). unfold or_invalid in Hplan.
    destruct (ipc.Plan q) as [plan'|] eqn:Hq; [|done]. injection Hplan as ->.
    apply result_bind_Ok in Hm as ([] & Hg%fail_if_Ok & Hm). gobool. destruct Hg as [[Hown _] _].
    cbv zeta in Hm. destruct plan as [p|p|p].
    + apply result_bind_Ok in Hm as ([] & Hs%fail_if_Ok & Hm). apply result_bind_Ok in Hm as (o & Ho%map_error_Ok & [= <-]).
      unfold AuthorizeInfrastructureMutation in Ho. inv_ok. exists (ipc.InfrastructurePlan p). split; [done|].
      split; [done|]. split; [done|]. split; [done|]. cbn. gobool. lia.
    + apply result_bind_Ok in Hm as (o & Ho%map_error_Ok & [= <-]). unfold AuthorizePolicyMutation in Ho. inv_ok.
      exists (ipc.PolicyPlan p). split; [done|]. by repeat split.
    + apply result_bind_Ok in Hm as (membership & Hms & Hm). apply result_bind_Ok in Hm as (mode & Hmd & Hm).
      apply result_bind_Ok in Hm as (scopes & Hsc & Hm). apply result_bind_Ok in Hm as (o & Ho%map_error_Ok & [= <-]).
      unfold or_invalid in Hms, Hmd, Hsc. destruct (mapMembership _) as [x|] eqn:Ex; [|done]. injection Hms as ->.
      destruct (mapTimeoutMode _) as [y|] eqn:Ey; [|done]. injection Hmd as ->.
      destruct (mapScopes _) as [z|] eqn:Ez; [|done]. injection Hsc as ->.
      unfold AuthorizeTargetMutation in Ho. apply result_bind_Ok in Ho as ([] & _ & Ho).
      apply result_bind_Ok in Ho as (canonical & Hcan & Ho).
      assert (canonical = scopes) as ->.
      { destruct (canonicalManagedScopes scopes); [|done]. unfold invalid_plan_if in Hcan. inv_ok. gobool. tauto. }
      inv_ok. exists (ipc.TargetPlan p). split; [done|]. split; [done|]. split; [done|]. split; [done|].
      cbn. rewrite Ex, Ey, Ez. done.
  - apply result_bind_Ok in Ha as ([] & _ & Ha). apply result_bind_Ok in Ha as (o & Ho%map_error_Ok & Ha).
    destruct o as [a|]; [|done]. injection Ha as <-. unfold AuthorizeManagedRemoval in Ho. inv_ok.
    destruct (_ && _ && _); [done|]. by injection Ho as <-.
Qed.
(** The backend's calls for a request: no mutation, or a probe, a snapshot and
    then the one mutation of the request with their authority. *)
Definition acted_on (r : ipc.MutationRequest) (evs : list backend_event) : Prop :=
  no_mutation evs ∨
  ∃ m outcome s c, evs = [SawMutation m outcome; SawSnapshot (Ok s); SawProbe (Ok c)] ∧ carries r m ∧ authority c s m.
Lemma handled_acted r evs answer : handled r evs answer → acted_on r evs.
Proof.
  intros [| |c s ? Ha|c s m o Ha]; [by left; constructor|by left|left; by repeat constructor|].
  right. exists m, o, s, c. eauto using authorized_carries, authorized_mutation.
Qed.

(** C36: One mutation, end to end, whatever fails: the contexts, the dial, the
    peer checks, the writers, and a stream that breaks after any number of
    bytes in either direction. The enforcer mutates its backend at most once, for
    exactly what the client's request asks: the same plan, over the same basis and
    revision, with the authority of the probe and the snapshot just before; and
    the client reports a response only if it is the enforcer's own truthful answer
    to that request: confirmed only after the backend's valid confirmation of that
    very mutation (or a removal where nothing was managed), rejected only when no
    mutation was sent or the backend rejected it, unknown only when one was
    sent. *)
Theorem mutation_exchange_truthful {E W1 W2} `{MutationBackend E} `{LawfulWriter W1} `{LawfulWriter W2}
    (l : link) serverUID guardUID r (w1 : W1) (w2 : W2) (s : executor E) :
  typed_request r → contents w1 = [] → contents w2 = [] →
  let '(res, s') := exchange l serverUID guardUID r w1 w2 s in
  (s' = s ∧ ∃ e, res = Err e) ∨
  ∃ evs answer, ex_trace s' = evs ++ ex_trace s ∧ acted_on r evs ∧ truthful r evs answer ∧
    ∀ resp, res = Ok resp → answer = Some resp.
Proof.
  intros Ht Hw1 Hw2. unfold exchange. set (reply := λ sent, _).
  pose proof (client_sent r (l_client l) serverUID reply w1 Ht Hw1) as Hc.
  destruct (roundTripMutationAt _ _ _ _ w1) as [res w1'].
  destruct Hc as [[Hs He]|(raw & k & Hv & He & Hs & Hres)].
  - left. split; [|done]. rewrite Hs. unfold served.
    pose proof (serve_undecoded (l_accepted l []) guardUID w2 s (frameError FrameErrorCodeTruncatedLength)) as Hu.
    destruct (serveEnforcerConnection _ _ _ _ _) as [[? ?] s'']. cbn [l_accepted a_incoming] in Hu. rewrite take_nil in Hu. by apply Hu.
  - destruct (request_arrives r raw k (l_request_arrives l) Hv He) as [Ha|[e Ha]]; rewrite <- Hs in Ha.
    + pose proof (serve_decoded (l_accepted l (contents w1')) guardUID w2 s r Hv Hw2 Ha) as Hd.
      unfold reply, served in Hres |- *. destruct (serveEnforcerConnection _ _ _ _ _) as [[? w2'] s''].
      cbn [fst snd] in Hres |- *. destruct Hd as [[-> Hn]|(answer & evs & Htr & Hh & Hwr)].
      * left. split; [done|]. destruct res as [resp|e1]; [|eauto]. specialize (Hres resp eq_refl).
        rewrite Hn, take_nil in Hres. by vm_compute in Hres.
      * right. exists evs, answer. split; [done|]. split; [by eapply handled_acted|]. split; [by apply handled_truthful|].
        intros resp Hr%Hres. by eapply reply_read.
    + pose proof (serve_undecoded (l_accepted l (contents w1')) guardUID w2 s e Ha) as Hu.
      unfold reply, served in Hres |- *. destruct (serveEnforcerConnection _ _ _ _ _) as [[? w2'] s''].
      cbn [fst snd] in Hres |- *. destruct Hu as [-> ->]. left. split; [done|].
      destruct res as [resp|e']; [|eauto]. specialize (Hres resp eq_refl). rewrite Hw2, take_nil in Hres. by vm_compute in Hres.
Qed.

(** *** Without faults *)
(** Every write goes through. *)
Definition reliable (W : Type) `{!Writer W} : Prop :=
  ∀ p (w : W), ∃ w', Write p w = (Z.of_nat (length p), false, w').
Record faultless (l : link) (serverUID guardUID : Z) : Prop := {
  no_client_end n : d_context (l_client l) n = None;
  dial_works : d_dial (l_client l) = true;
  server_peer : d_peer (l_client l) = Some serverUID;
  client_deadline : d_deadline (l_client l) = true;
  no_server_end n : l_context l n = None;
  server_deadline : l_deadline l = true;
  client_peer : l_peer l = Some guardUID;
  request_whole : maxFrameBytes + 4 ≤ Z.of_nat (l_request_arrives l);
  reply_whole : maxFrameBytes + 4 ≤ Z.of_nat (l_reply_arrives l)
}.
Section completion.
Context {W : Type} `{LawfulWriter W} (Hreliable : reliable W).
Lemma write_reliable payload (w : W) :
  Z.of_nat (length payload) ≤ maxFrameBytes →
  ∃ w', writeFramePayload payload (Some w) = (Ok tt, Some w') ∧ contents w' = contents w ++ frame payload.
Proof.
  assert (∀ p (w : W), ∃ w', writeAll p w = (true, w')) as Hall.
  { intros p v. unfold writeAll. destruct p as [|b p]; [by exists v|]. cbn [length write_all].
    destruct (Hreliable (b :: p) v) as [v' ->]. exists v'.
    rewrite (proj2 (Z.ltb_ge _ 0)), Z.ltb_irrefl by lia. cbn [orb].
    rewrite (proj2 (Z.eqb_neq _ 0)) by (cbn [length]; lia). rewrite Nat2Z.id, drop_all. by destruct (length p). }
  intros Hs. destruct (writeFramePayload payload (Some w)) as [r w'] eqn:Hw. pose proof Hw as Hspec.
  apply write_frame_spec in Hspec as (w1 & k & -> & _ & Hok). exists w1. unfold writeFramePayload in Hw.
  replace (maxFrameBytes <? _) with false in Hw by lia.
  destruct (Hall (PutUint32 (Z.of_nat (length payload))) w) as [v1 Hv1]. rewrite Hv1 in Hw. cbn [negb] in Hw.
  destruct (Hall payload v1) as [v2 Hv2]. rewrite Hv2 in Hw. cbn [negb] in Hw. injection Hw as <- <-.
  split; [done|]. by apply Hok.
Qed.
End completion.

(** Without faults an exchange completes: a valid request over a working
    connection is handled by the enforcer exactly once, and the client gets the
    enforcer's answer, whatever the backend does. *)
Theorem mutation_exchange_completes {E W1 W2} `{MutationBackend E} `{LawfulWriter W1} `{LawfulWriter W2}
    (l : link) serverUID guardUID r (w1 : W1) (w2 : W2) (s : executor E) :
  reliable W1 → reliable W2 → faultless l serverUID guardUID →
  valid_request r → contents w1 = [] → contents w2 = [] →
  ∃ resp evs s', exchange l serverUID guardUID r w1 w2 s = (Ok resp, s') ∧
    ex_trace s' = evs ++ ex_trace s ∧ handled r evs (Some resp).
Proof.
  intros Hr1 Hr2 [Hcc Hdial Hsp Hcd Hsc Hsd Hcp Hreq Hrep] Hv Hw1 Hw2.
  assert (well_typed (Mutation r)) as Ht by by apply valid_typed.
  assert (∃ raw, encode (Mutation r) = Ok raw) as [raw He] by by apply encode_iff.
  pose proof (encode_size (A := Request) _ _ Ht He) as Hsize. unfold max_payload, request_codec, maxRequestBytes in Hsize.
  destruct (encoded_frame (A := Request) (validationError ErrorCodeRequestTooLarge) (Mutation r) raw) as [Hok _];
    [vm_compute; congruence|done|done|].
  destruct (write_reliable Hr1 raw w1) as (w1' & Hwrite & Hsent); [unfold maxFrameBytes; lia|].
  rewrite Hw1 in Hsent. cbn [app] in Hsent.
  destruct (mutation_handled r s (valid_correlatable r Hv)) as (answer & evs & s' & Hm & Htr & Hh).
  destruct (truthful_Some r evs answer) as (resp & -> & Hcor); [by apply valid_correlatable|by apply handled_truthful|].
  pose proof (correlated_matches r resp Hv Hcor) as Hmatch.
  destruct (responses_decode resp) as (payload & Hep & Hdp & Hps); [by eapply handled_valid|].
  unfold maxMutationResponseBytes in Hps.
  destruct (write_reliable Hr2 payload w2) as (w2' & Hwrite2 & Hsent2); [unfold maxFrameBytes; lia|].
  rewrite Hw2 in Hsent2. cbn [app] in Hsent2.
  assert (served l guardUID w2 s (frame raw) = (MkConnectionResult None false, w2', s')) as Hserved.
  { unfold served, serveEnforcerConnection, DecodeUnixFrame, l_accepted. cbn [a_deadline a_context a_peer a_incoming].
    rewrite Hsd, Hcp, !Hsc. cbn [negb verifyUnixPeerUID]. rewrite Z.eqb_refl. cbn [negb fail_if mbind result_bind].
    rewrite take_ge by (unfold frame, maxFrameBytes in *; rewrite length_app; cbn [length PutUint32]; lia).
    specialize (Hok []). rewrite app_nil_r in Hok. unfold max_payload, decode, request_codec in Hok. unfold DecodeFrame.
    rewrite Hok. cbn [fst encodeEnforcerServerPayload NewEnforcerHandlers h_Mutation].
    rewrite (bind_step _ _ _ (Some resp) s') by done. unfold mbind, st_bind, st_lift. rewrite Hmatch.
    cbn [contextTerminationError unless_done negb fail_if]. rewrite Hep. unfold writeEnforcerServerPayload. by rewrite Hwrite2. }
  exists resp, evs, s'. split; [|done]. unfold exchange, roundTripMutationAt, round_trip_at, connect.
  cbn [encode request_codec encode_request] in He. rewrite He, Hdial, Hsp, Hcd, !Hcc.
  cbn [mbind result_bind negb unless_done fail_if verifyUnixPeerUID]. rewrite Z.eqb_refl.
  cbn [mbind result_bind negb fail_if write_frame]. rewrite Hwrite. cbn [default from_option id].
  rewrite Hsent, Hserved. cbn [fst snd]. rewrite Hsent2.
  rewrite take_ge by (unfold frame, maxFrameBytes in *; rewrite length_app; cbn [length PutUint32]; lia).
  rewrite <- (app_nil_r (frame payload)). unfold DecodeMutationResponseFrame.
  rewrite decode_frame_app by (unfold maxMutationResponseBytes, maxFrameBytes; lia). cbn [fst]. rewrite Hdp, Hmatch. by rewrite Hsent, Hserved.
Qed.

(** ** A working exchange *)
(** A buffer takes everything. *)
Record buffer := MkBuffer { buffer_bytes : list Z }.
#[export] Instance buffer_writer : Writer buffer := {
  Write p w := (Z.of_nat (length p), false, MkBuffer (buffer_bytes w ++ p));
  contents := buffer_bytes
}.
#[export] Instance buffer_lawful : LawfulWriter buffer.
Proof. split. intros p w n failed w' [= <- <- <-]. split; [lia|]. by rewrite Nat2Z.id, take_ge. Qed.
Lemma buffer_reliable : reliable buffer.
Proof. intros p w. by eexists. Qed.
#[local] Existing Instance confirming.backend.
Definition working_link : link :=
  MkLink (MkDialing (λ _, None) true (Some 0) true) (λ _, None) true (Some 998) (Z.to_nat (maxFrameBytes + 4))
    (Z.to_nat (maxFrameBytes + 4)).
Definition build_request : ipc.MutationRequest := confirming.request (sp_digest confirming.snapshot).
Definition idle : executor unit := MkExecutor tt [].
Lemma build_request_valid : valid_request build_request.
Proof. vm_compute. repeat split; congruence. Qed.
Lemma working_link_faultless : faultless working_link 0 998.
Proof.
  assert (maxFrameBytes + 4 ≤ Z.of_nat (Z.to_nat (maxFrameBytes + 4))) by (rewrite Z2Nat.id; unfold maxFrameBytes; lia).
  by split.
Qed.

Lemma mutation_exchange_completes_witness : ∃ resp evs s',
  exchange working_link 0 998 build_request (MkBuffer []) (MkBuffer []) idle = (Ok resp, s') ∧
  ex_trace s' = evs ++ [] ∧ handled build_request evs (Some resp).
Proof.
  exact (mutation_exchange_completes working_link 0 998 build_request (MkBuffer []) (MkBuffer []) idle
    buffer_reliable buffer_reliable working_link_faultless build_request_valid eq_refl eq_refl).
Defined.

(** A connection that breaks after the first forty bytes of the reply: the
    enforcer has acted, and the client has an error. *)
Definition broken_link : link :=
  MkLink (MkDialing (λ _, None) true (Some 0) true) (λ _, None) true (Some 998) (Z.to_nat (maxFrameBytes + 4)) 40.
Lemma mutation_exchange_truthful_witness :
  let '(res, s') := exchange broken_link 0 998 build_request (MkBuffer []) (MkBuffer []) idle in
  (s' = idle ∧ ∃ e, res = Err e) ∨
  ∃ evs answer, ex_trace s' = evs ++ [] ∧ acted_on build_request evs ∧ truthful build_request evs answer ∧ ∀ resp, res = Ok resp → answer = Some resp.
Proof.
  exact (mutation_exchange_truthful broken_link 0 998 build_request (MkBuffer []) (MkBuffer []) idle
    (valid_typed _ build_request_valid) eq_refl eq_refl).
Defined.
(** Here the enforcer has acted three times on its backend: the mutation is
    confirmed there while the client only knows that the reply was cut. *)
Example broken_exchange :
  (let '(res, s') := exchange broken_link 0 998 build_request (MkBuffer []) (MkBuffer []) idle in
   (is_ok res, length (ex_trace s'))) = (false, 3%nat) ∧
  (let '(res, s') := exchange working_link 0 998 build_request (MkBuffer []) (MkBuffer []) idle in
   (match res with Ok r => Some (ipc.Status r) | Err _ => None end, length (ex_trace s')))
  = (Some ipc.MutationStatusConfirmed, 3%nat).
Proof. vm_compute. done. Qed.
