(* ===== verification/JsonRaw.v ===== *)
(** * encoding/json: json.Unmarshal into typed values

    Values as trees whose literals keep their text, as json.RawMessage does, and
    the decoding of a tree into strings, integers, pointers, slices, maps and
    structs. json.Unmarshal stores what it can and reports a mismatch of types at
    the end; a decoder here returns the value it has stored into and whether there
    was a mismatch. A struct field is found by its name without regard to case.
    Two members with the same key store one after the other: an element of a slice
    into the element that is there. The limit of 10000 nested values is not
    modelled; the fuel of the parser is enough ([parse_raw_fuel]). *)

From S2P Require Import Prelude GoStd NetipParse Json JsonDecode.

Inductive raw :=
  | RLit (text : list Z)
  | RArr (items : list raw)
  | RObj (members : list (string * raw)).

(** ** Parsing *)
(** A byte that starts no valid encoding becomes the replacement character. *)
Fixpoint coerce_utf8 (l : list Z) : list Z :=
  match l with
  | [] => []
  | b0 :: r =>
    let invalid := utf8_encode 0xfffd in
    if b0 <? 0x80 then b0 :: coerce_utf8 r
    else if in_range 0xC2 0xDF b0 then
      match r with
      | b1 :: r1 => if utf8_cont b1 then [b0; b1] ++ coerce_utf8 r1 else invalid ++ coerce_utf8 r
      | _ => invalid ++ coerce_utf8 r
      end
    else if in_range 0xE0 0xEF b0 then
      match r with
      | b1 :: b2 :: r2 =>
        if in_range (if b0 =? 0xE0 then 0xA0 else 0x80) (if b0 =? 0xED then 0x9F else 0xBF) b1
           && utf8_cont b2
        then [b0; b1; b2] ++ coerce_utf8 r2 else invalid ++ coerce_utf8 r
      | _ => invalid ++ coerce_utf8 r
      end
    else if in_range 0xF0 0xF4 b0 then
      match r with
      | b1 :: b2 :: b3 :: r3 =>
        if in_range (if b0 =? 0xF0 then 0x90 else 0x80) (if b0 =? 0xF4 then 0x8F else 0xBF) b1
           && utf8_cont b2 && utf8_cont b3
        then [b0; b1; b2; b3] ++ coerce_utf8 r3 else invalid ++ coerce_utf8 r
      | _ => invalid ++ coerce_utf8 r
      end
    else invalid ++ coerce_utf8 r
  end.
Definition coerce_string (s : string) : string := string_of_bytes (coerce_utf8 (string_bytes s)).

Fixpoint parse_raw (fuel : nat) (s : list Z) : option (raw * list Z) :=
  match fuel with
  | O => None
  | S f =>
    match skip_space s with
    | [] => None
    | c :: r =>
      if c =? 91 then
        match skip_space r with
        | c' :: r' => if c' =? 93 then Some (RArr [], r')
                      else (λ p, (RArr p.1, p.2)) <$> parse_raw_items f r
        | [] => None
        end
      else if c =? 123 then
        match skip_space r with
        | c' :: r' => if c' =? 125 then Some (RObj [], r')
                      else (λ p, (RObj p.1, p.2)) <$> parse_raw_members f r
        | [] => None
        end
      else (λ p, (RLit (take (length (c :: r) - length p.2) (c :: r)), p.2)) <$> parse_scalar (c :: r)
    end
  end
with parse_raw_items (fuel : nat) (s : list Z) : option (list raw * list Z) :=
  match fuel with
  | O => None
  | S f =>
    v ← parse_raw f s;
    match skip_space v.2 with
    | c :: r => if c =? 93 then Some ([v.1], r)
                else if c =? 44 then (λ p, (v.1 :: p.1, p.2)) <$> parse_raw_items f r
                else None
    | [] => None
    end
  end
with parse_raw_members (fuel : nat) (s : list Z) : option (list (string * raw) * list Z) :=
  match fuel with
  | O => None
  | S f =>
    k ← parse_string (skip_space s);
    match skip_space k.2 with
    | c :: r =>
      if negb (c =? 58) then None
      else
        v ← parse_raw f r;
        match skip_space v.2 with
        | c' :: r' => if c' =? 125 then Some ([(coerce_string k.1, v.1)], r')
                      else if c' =? 44 then (λ p, ((coerce_string k.1, v.1) :: p.1, p.2)) <$> parse_raw_members f r'
                      else None
        | [] => None
        end
    | [] => None
    end
  end.
(** One value, and white space around it. *)
Definition raw_of (text : list Z) : option raw :=
  match parse_raw (json_fuel text) text with
  | Some (v, rest) => match skip_space rest with [] => Some v | _ => None end
  | None => None
  end.

(** ** Decoding *)
Definition is_null_lit (r : raw) : bool :=
  match r with RLit t => bool_decide (t = string_bytes "null") | _ => false end.
(** A decoder stores into a value; true is a mismatch of types. *)
Definition dec (A : Type) := raw → A → A * bool.
Definition dec_string : dec string := λ r a,
  match r with
  | RLit t =>
    match parse_string t with
    | Some (s, _) => (coerce_string s, false)
    | None => (a, negb (is_null_lit r))
    end
  | _ => (a, true)
  end.
(** strconv.ParseInt of a number literal. *)
Definition int_literal (t : list Z) : option Z :=
  let '(negative, digits) := match t with c :: r => if c =? 45 then (true, r) else (false, t) | [] => (false, t) end in
  if bool_decide (digits = []) || negb (forallb is_digit digits) then None
  else let n := undigits 10 ((λ c, c - 48) <$> digits) in
       let v := if negative then - n else n in
       if (v <? - 2 ^ 63) || (max_int64 <? v) then None else Some v.
Definition dec_int : dec Z := λ r a,
  match r with
  | RLit t => match int_literal t with Some v => (v, false) | None => (a, negb (is_null_lit r)) end
  | _ => (a, true)
  end.
(** A pointer: null is nil. *)
Definition dec_ptr {A} (zero : A) (d : dec A) : dec (option A) := λ r a,
  if is_null_lit r then (None, false)
  else let '(v, e) := d r (default zero a) in (Some v, e).
Definition dec_raw : dec (option raw) := λ r _, (Some r, false).
(** A slice: null is nil. *)
Definition dec_list {A} (zero : A) (d : dec A) : dec (option (list A)) := λ r a,
  match r with
  | RArr items =>
    let l := imap (λ i r, d r (default zero (default [] a !! i))) items in (Some l.*1, existsb snd l)
  | _ => if is_null_lit r then (None, false) else (a, true)
  end.
Definition dec_map : dec (option (gmap string raw)) := λ r a,
  match r with
  | RObj members => (Some (foldl (λ m kv, <[kv.1 := kv.2]> m) (default ∅ a) members), false)
  | _ => if is_null_lit r then (None, false) else (a, true)
  end.

(** The fold of a key: of the characters beyond ASCII, the long s and the Kelvin
    sign fold to ASCII letters. *)
Definition lower_byte (b : Z) : Z := if in_range 65 90 b then b + 32 else b.
Fixpoint fold_bytes (l : list Z) : list Z :=
  match l with
  | 0xC5 :: 0xBF :: r => 115 :: fold_bytes r
  | 0xE2 :: 0x84 :: 0xAA :: r => 107 :: fold_bytes r
  | b :: r => lower_byte b :: fold_bytes r
  | [] => []
  end.
Definition field_of {A} (fields : list (string * dec A)) (key : string) : option (dec A) :=
  snd <$> find (λ f, bool_decide (string_bytes f.1 = fold_bytes (string_bytes key))) fields.
Definition dec_struct {A} (fields : list (string * dec A)) : dec A := λ r a,
  match r with
  | RObj members =>
    foldl (λ s kv, match field_of fields kv.1 with
                   | Some d => let '(v, e) := d kv.2 s.1 in (v, s.2 || e)
                   | None => s
                   end) (a, false) members
  | _ => (a, negb (is_null_lit r))
  end.
(** A field, by its getter and its setter. *)
Definition at_field {A B} (get : A → B) (set : B → A → A) (d : dec B) : dec A := λ r a,
  let '(v, e) := d r (get a) in (set v a, e).
(** json.Unmarshal of a raw message, which may be empty. *)
Definition unmarshal {A} (d : dec A) (zero : A) (r : option raw) : A * bool :=
  match r with Some r => d r zero | None => (zero, true) end.

(** ** json.Marshal of raw messages *)
(** The HTML escaping of compact; the text is compact already. *)
Fixpoint html_escape (l : list Z) : list Z :=
  match l with
  | 0xE2 :: 0x80 :: 0xA8 :: r => json_u 0x2028 ++ html_escape r
  | 0xE2 :: 0x80 :: 0xA9 :: r => json_u 0x2029 ++ html_escape r
  | b :: r => (if (b =? 60) || (b =? 62) || (b =? 38) then json_u b else [b]) ++ html_escape r
  | [] => []
  end.
Definition marshal_array (l : list (list Z)) : list Z := [91] ++ commas (html_escape <$> l) ++ [93].
(** A map is written in the order of its keys. *)
Definition marshal_map (m : list (string * list Z)) : list Z :=
  [123] ++ commas ((λ kv, json_text kv.1 ++ [58] ++ html_escape kv.2) <$> sort_by fst m) ++ [125].

Example raw_nested :
  raw_of (json_bytes " {'a': [1, {'b': null}], 'A':'x'} ")
  = Some (RObj [("a", RArr [RLit [49]; RObj [("b", RLit (string_bytes "null"))]]); ("A", RLit (json_bytes "'x'"))]).
Proof. vm_compute. reflexivity. Qed.

(** *** The fuel is enough *)
Lemma raw_shrinks f :
  (∀ s, shrinks s (parse_raw f s)) ∧ (∀ s, shrinks s (parse_raw_items f s)) ∧ (∀ s, shrinks s (parse_raw_members f s)).
Proof.
  induction f as [|f (IHv & IHi & IHm)]; [done|]. split_and!; intros s; cbn [parse_raw parse_raw_items parse_raw_members].
  - pose proof (skip_space_length s) as Hs. destruct (skip_space s) as [|c r]; [done|]. cbn in Hs.
    pose proof (skip_space_length r) as Hr. destruct (c =? 91).
    { destruct (skip_space r) as [|c' r']; [done|]. cbn in Hr. destruct (c' =? 93); [cbn; lia|].
      apply (shrinks_fmap RArr). eapply shrinks_le; [apply IHi|lia]. }
    destruct (c =? 123).
    + destruct (skip_space r) as [|c' r']; [done|]. cbn in Hr. destruct (c' =? 125); [cbn; lia|].
      apply (shrinks_fmap RObj). eapply shrinks_le; [apply IHm|lia].
    + eapply (shrinks_le (c :: r)); [|cbn; lia]. pose proof (parse_scalar_shrinks (c :: r)) as Hp.
      by destruct (parse_scalar (c :: r)) as [[v t]|].
  - specialize (IHv s). destruct (parse_raw f s) as [[v t]|]; [|done]. cbn in IHv |- *.
    pose proof (skip_space_length t). destruct (skip_space t) as [|c r]; [done|]. cbn in *.
    destruct (c =? 93); [cbn; lia|]. destruct (c =? 44); [|done].
    apply (shrinks_fmap (cons v)). eapply shrinks_le; [apply IHi|lia].
  - pose proof (skip_space_length s). pose proof (parse_string_shrinks (skip_space s)) as Hk.
    destruct (parse_string (skip_space s)) as [[k t]|]; [|done]. cbn in Hk |- *.
    pose proof (skip_space_length t). destruct (skip_space t) as [|c r]; [done|]. cbn in *.
    destruct (negb _); [done|]. specialize (IHv r). destruct (parse_raw f r) as [[v u]|]; [|done]. cbn in IHv |- *.
    pose proof (skip_space_length u). destruct (skip_space u) as [|c' r']; [done|]. cbn in *.
    destruct (c' =? 125); [cbn; lia|]. destruct (c' =? 44); [|done].
    apply (shrinks_fmap (cons (coerce_string k, v))). eapply shrinks_le; [apply IHm|lia].
Qed.
Lemma raw_fuel f :
  (∀ s f', 2 * length s < f → 2 * length s < f' → parse_raw f s = parse_raw f' s)%nat ∧
  (∀ s f', 2 * length s + 1 < f → 2 * length s + 1 < f' → parse_raw_items f s = parse_raw_items f' s)%nat ∧
  (∀ s f', 2 * length s + 1 < f → 2 * length s + 1 < f' → parse_raw_members f s = parse_raw_members f' s)%nat.
Proof.
  induction f as [|f (IHv & IHi & IHm)]; [split_and!; intros; lia|].
  split_and!; intros s [|f'] Hf Hf'; try lia; cbn [parse_raw parse_raw_items parse_raw_members].
  - pose proof (skip_space_length s) as Hs. destruct (skip_space s) as [|c r]; [done|]. cbn in Hs.
    by rewrite (IHi r f'), (IHm r f') by lia.
  - rewrite (IHv s f') by lia. pose proof (proj1 (raw_shrinks f') s) as Hl.
    destruct (parse_raw f' s) as [[v t]|]; [|done]. cbn in Hl |- *.
    pose proof (skip_space_length t). destruct (skip_space t) as [|c r]; [done|]. cbn in *.
    by rewrite (IHi r f') by lia.
  - pose proof (skip_space_length s). pose proof (parse_string_shrinks (skip_space s)) as Hk.
    destruct (parse_string (skip_space s)) as [[k t]|]; [|done]. cbn in Hk |- *.
    pose proof (skip_space_length t). destruct (skip_space t) as [|c r]; [done|]. cbn in *.
    rewrite (IHv r f') by lia. pose proof (proj1 (raw_shrinks f') r) as Hl.
    destruct (negb _); [done|]. destruct (parse_raw f' r) as [[v u]|]; [|done]. cbn in Hl |- *.
    pose proof (skip_space_length u). destruct (skip_space u) as [|c' r']; [done|]. cbn in *.
    by rewrite (IHm r' f') by lia.
Qed.
Lemma parse_raw_fuel text f :
  (json_fuel text ≤ f)%nat → parse_raw f text = parse_raw (json_fuel text) text.
Proof. unfold json_fuel. intros Hf. apply (proj1 (raw_fuel f)); lia. Qed.
