(* ===== verification/NftRuleset.v ===== *)
(** * The ruleset of nft (internal/firewall/nftables/backend_linux.go)

    What the backend reads of [nft --json list ruleset]: the objects of its own
    table with their strict layout, the elements of its sets, the rest as a
    digest, and the managed state that results. Go iterates over a map in any
    order: where the result may depend on it, the order is an argument. *)

From S2P Require Import Prelude GoStd Sha256 Netip NetipParse Identity CoreModel Json JsonDecode JsonRaw Firewall.

(** ** The fixed layout *)
Definition managedFamily : string := "inet".
Definition managedTable : string := "guard".
Definition infrastructureComment : string := "guard/v1 infrastructure/v1".
Definition policyComment : string := "guard/v1 policy/v1".
Definition infrastructureV : string := "guard-nftables-infrastructure/v1".
Definition errNftNotReady : error := Errorf "nftables-native is not ready".
Definition managedSets : list string :=
  ["allow_v4"; "allow_v6"; "protected_v4"; "protected_v6";
   "ban_input_v4"; "ban_input_v6"; "ban_forward_v4"; "ban_forward_v6"].
Definition managedChains : list string := ["input"; "forward"; "guard_policy"].
Definition sha256hex (value : list Z) : string := hex_encode (Sum256 value).
Definition contains (values : list string) (wanted : string) : bool := bool_decide (wanted ∈ values).

Definition has_suffix (s suffix : string) : bool :=
  bool_decide (drop (String.length s - String.length suffix) (string_bytes s) = string_bytes suffix).
Definition trim_prefix (prefix s : string) : string :=
  if has_prefix prefix s then string_of_bytes (drop (String.length prefix) (string_bytes s)) else s.

(** ** Objects *)
Record nftHeader := MkHeader {
  nh_family : string; nh_table : string; nh_name : string; nh_chain : string; nh_comment : string;
  nh_chainType : string; nh_hook : string; nh_policy : string; nh_priority : Z; nh_handle : Z
}.
Definition no_header : nftHeader :=
  MkHeader EmptyString EmptyString EmptyString EmptyString EmptyString EmptyString EmptyString EmptyString 0 0.
Definition header_fields : list (string * dec nftHeader) :=
  let set_family v h := MkHeader v (nh_table h) (nh_name h) (nh_chain h) (nh_comment h) (nh_chainType h) (nh_hook h) (nh_policy h) (nh_priority h) (nh_handle h) in
  let set_table v h := MkHeader (nh_family h) v (nh_name h) (nh_chain h) (nh_comment h) (nh_chainType h) (nh_hook h) (nh_policy h) (nh_priority h) (nh_handle h) in
  let set_name v h := MkHeader (nh_family h) (nh_table h) v (nh_chain h) (nh_comment h) (nh_chainType h) (nh_hook h) (nh_policy h) (nh_priority h) (nh_handle h) in
  let set_chain v h := MkHeader (nh_family h) (nh_table h) (nh_name h) v (nh_comment h) (nh_chainType h) (nh_hook h) (nh_policy h) (nh_priority h) (nh_handle h) in
  let set_comment v h := MkHeader (nh_family h) (nh_table h) (nh_name h) (nh_chain h) v (nh_chainType h) (nh_hook h) (nh_policy h) (nh_priority h) (nh_handle h) in
  let set_type v h := MkHeader (nh_family h) (nh_table h) (nh_name h) (nh_chain h) (nh_comment h) v (nh_hook h) (nh_policy h) (nh_priority h) (nh_handle h) in
  let set_hook v h := MkHeader (nh_family h) (nh_table h) (nh_name h) (nh_chain h) (nh_comment h) (nh_chainType h) v (nh_policy h) (nh_priority h) (nh_handle h) in
  let set_policy v h := MkHeader (nh_family h) (nh_table h) (nh_name h) (nh_chain h) (nh_comment h) (nh_chainType h) (nh_hook h) v (nh_priority h) (nh_handle h) in
  let set_prio v h := MkHeader (nh_family h) (nh_table h) (nh_name h) (nh_chain h) (nh_comment h) (nh_chainType h) (nh_hook h) (nh_policy h) v (nh_handle h) in
  let set_handle v h := MkHeader (nh_family h) (nh_table h) (nh_name h) (nh_chain h) (nh_comment h) (nh_chainType h) (nh_hook h) (nh_policy h) (nh_priority h) v in
  [("family", at_field nh_family set_family dec_string); ("table", at_field nh_table set_table dec_string);
   ("name", at_field nh_name set_name dec_string); ("chain", at_field nh_chain set_chain dec_string);
   ("comment", at_field nh_comment set_comment dec_string); ("type", at_field nh_chainType set_type dec_string);
   ("hook", at_field nh_hook set_hook dec_string); ("prio", at_field nh_priority set_prio dec_int);
   ("policy", at_field nh_policy set_policy dec_string); ("handle", at_field nh_handle set_handle dec_int)].
(** A mismatch of types is ignored. *)
Definition nftHead (body : raw) : nftHeader := (dec_struct header_fields body no_header).1.
Definition nftObject (entry : option (gmap string raw)) : option (string * raw) :=
  match map_to_list (default ∅ entry) with [kv] => Some kv | _ => None end.

(** ** Elements *)
Record element := MkElement { el_prefix : Prefix; el_expires : option Z }.
Definition parseElementPrefix (text : string) (length : Z) : option Prefix :=
  prefix ← (match ParsePrefix text with
            | Ok p => Some p
            | Err _ =>
              match ParseAddr (string_bytes text) with
              | Ok (address, _) => Some (PrefixFrom address (BitLen address))
              | Err _ => None
              end
            end);
  prefix ← (if negb (length =? 0) then
              if (length <? 0) || (BitLen (prefix_ip prefix) <? length) then None
              else Some (PrefixFrom (prefix_ip prefix) length)
            else Some prefix);
  if negb (bool_decide (prefix = Masked prefix)) then None else Some prefix.

Record structured := MkStructured {
  sd_val : string; sd_addr : string; sd_prefix : option (string * Z); sd_expires : option Z
}.
Definition prefix_fields : list (string * dec (string * Z)) :=
  [("addr", at_field fst (λ v p, (v, p.2)) dec_string); ("len", at_field snd (λ v p, (p.1, v)) dec_int)].
Definition structured_fields : list (string * dec structured) :=
  [("val", at_field sd_val (λ v s, MkStructured v (sd_addr s) (sd_prefix s) (sd_expires s)) dec_string);
   ("addr", at_field sd_addr (λ v s, MkStructured (sd_val s) v (sd_prefix s) (sd_expires s)) dec_string);
   ("prefix", at_field sd_prefix (λ v s, MkStructured (sd_val s) (sd_addr s) v (sd_expires s))
                (dec_ptr (EmptyString, 0) (dec_struct prefix_fields)));
   ("expires", at_field sd_expires (λ v s, MkStructured (sd_val s) (sd_addr s) (sd_prefix s) v) (dec_ptr 0 dec_int))].
(** The prefix of an element and its remaining time. *)
Definition canonicalElementPrefix (r : option raw) : option (Prefix * option Z) :=
  match unmarshal dec_string EmptyString r with
  | (text, false) => (λ p, (p, None)) <$> parseElementPrefix text 0
  | (_, true) =>
    match unmarshal (dec_struct structured_fields) (MkStructured EmptyString EmptyString None None) r with
    | (_, true) => None
    | (s, false) =>
      match sd_prefix s with
      | Some (addr, len) => (λ p, (p, sd_expires s)) <$> parseElementPrefix addr len
      | None => (λ p, (p, sd_expires s)) <$>
                  parseElementPrefix (if is_empty (sd_val s) then sd_addr s else sd_val s) 0
      end
    end
  end.
Definition wrapped_fields : list (string * dec (option raw * option Z)) :=
  [("elem", at_field fst (λ v p, (v, p.2)) dec_raw); ("expires", at_field snd (λ v p, (p.1, v)) (dec_ptr 0 dec_int))].
Definition canonicalSetElement (r : raw) : option (Prefix * option Z) :=
  match canonicalElementPrefix (Some r) with
  | Some p => Some p
  | None =>
    match dec_struct wrapped_fields r (None, None) with
    | (_, true) | ((None, _), _) => None
    | ((Some elem, expires), false) =>
      (λ p, (p.1, match expires with Some _ => expires | None => p.2 end)) <$> canonicalElementPrefix (Some elem)
    end
  end.
(** int64 arithmetic on durations wraps. *)
Definition wrap_int64 (z : Z) : Z := wrap64 (z + 2 ^ 63) - 2 ^ 63.
Definition expiryUnixMicro (now : time) (remainingSeconds : Z) : Z :=
  UnixMicro (Truncate now second + wrap_int64 (remainingSeconds * second)).
Definition nftElement (body : raw) (now : time) : option element :=
  match dec_struct wrapped_fields body (None, None) with
  | (_, true) => None
  | ((elem, expires), false) =>
    '(prefix, nestedExpires) ← canonicalElementPrefix elem;
    match (match expires with Some _ => expires | None => nestedExpires end) with
    | None => Some (MkElement prefix None)
    | Some remaining =>
      let until := expiryUnixMicro now remaining in
      if 0 <? until then Some (MkElement prefix (Some until)) else None
    end
  end.
Fixpoint set_elements (items : list raw) (now : time) : option (list element) :=
  match items with
  | [] => Some []
  | r :: rest =>
    '(prefix, expires) ← canonicalSetElement r;
    x ← (match expires with
         | None => Some (MkElement prefix None)
         | Some remaining =>
           let until := expiryUnixMicro now remaining in
           if until <=? 0 then None else Some (MkElement prefix (Some until))
         end);
    (cons x) <$> set_elements rest now
  end.
Definition elem_fields : list (string * dec (option raw)) := [("elem", dec_raw)].
Definition nftSetElements (body : raw) (now : time) : option (list element) :=
  match dec_struct elem_fields body None with
  | (_, true) | (None, _) => Some []
  | (Some elem, false) =>
    if is_null_lit elem then Some []
    else match dec_list None dec_raw elem None with
    | (_, true) => None
    | (items, false) => set_elements (omap id (default [] items)) now
    end
  end.

(** ** The strict layout *)
Definition set_fields : list (string * dec (string * option (list string))) :=
  [("type", at_field fst (λ v p, (v, p.2)) dec_string);
   ("flags", at_field snd (λ v p, (p.1, v)) (dec_list EmptyString dec_string))].
Definition validManagedSet (head : nftHeader) (body : raw) : bool :=
  match dec_struct set_fields body (EmptyString, None) with
  | (_, true) => false
  | ((type, flags), false) =>
    bool_decide (type = if has_suffix (nh_name head) "_v4" then "ipv4_addr" else "ipv6_addr")
    && bool_decide (flags = Some ("interval" :: (if has_prefix "ban_" (nh_name head) then ["timeout"] else [])))
  end.
Definition validManagedChain (head : nftHeader) : bool :=
  if bool_decide (nh_name head = "guard_policy")
  then is_empty (nh_chainType head) && is_empty (nh_hook head) && is_empty (nh_policy head)
  else if contains ["input"; "forward"] (nh_name head)
  then bool_decide (nh_chainType head = "filter") && bool_decide (nh_hook head = nh_name head)
       && (nh_priority head =? 0) && bool_decide (nh_policy head = "accept")
  else false.

Record match_expr := MkMatchExpr { me_op : string; me_protocol : string; me_field : string; me_right : string }.
Definition payload_fields : list (string * dec match_expr) :=
  [("protocol", at_field me_protocol (λ v m, MkMatchExpr (me_op m) v (me_field m) (me_right m)) dec_string);
   ("field", at_field me_field (λ v m, MkMatchExpr (me_op m) (me_protocol m) v (me_right m)) dec_string)].
Definition match_fields : list (string * dec match_expr) :=
  [("op", at_field me_op (λ v m, MkMatchExpr v (me_protocol m) (me_field m) (me_right m)) dec_string);
   ("left", dec_struct [("payload", dec_struct payload_fields)]);
   ("right", at_field me_right (λ v m, MkMatchExpr (me_op m) (me_protocol m) (me_field m) v) dec_string)].
Definition expected_verdicts : list (string * string) :=
  [("allow_v4", "return"); ("allow_v6", "return"); ("protected_v4", "return"); ("protected_v6", "return");
   ("ban_input_v4", "drop"); ("ban_input_v6", "drop"); ("ban_forward_v4", "drop"); ("ban_forward_v6", "drop")].
Definition verdict_of (name : string) : string :=
  default EmptyString (snd <$> find (λ kv, bool_decide (kv.1 = name)) expected_verdicts).
Definition expectedRule (chain : string) (body : raw) : option (string * string) :=
  match dec_struct [("expr", dec_list None dec_raw)] body None with
  | (Some [Some first; Some second], false) =>
    match dec_struct [("match", dec_ptr (MkMatchExpr EmptyString EmptyString EmptyString EmptyString)
                                  (dec_struct match_fields))] first None with
    | (Some m, false) =>
      if negb (bool_decide (me_op m = "==")) || negb (bool_decide (me_field m = "saddr"))
         || negb (contains ["ip"; "ip6"] (me_protocol m)) || negb (has_prefix "@" (me_right m))
      then None
      else match dec_map second None with
      | (_, true) => None
      | (verdicts, false) =>
        let present key := bool_decide (is_Some (default ∅ verdicts !! key)) in
        let verdict := if present "drop" then "drop" else if present "return" then "return" else EmptyString in
        let name := trim_prefix "@" (me_right m) in
        if (has_suffix name "_v4" && negb (bool_decide (me_protocol m = "ip")))
           || (has_suffix name "_v6" && negb (bool_decide (me_protocol m = "ip6")))
        then None
        else if negb (bool_decide (verdict_of name = verdict))
                || (bool_decide (chain = "input") && has_prefix "ban_forward" name)
                || (bool_decide (chain = "forward") && has_prefix "ban_input" name)
        then None
        else Some (name, verdict)
      end
    | _ => None
    end
  | _ => None
  end.
Definition validManagedRule (head : nftHeader) (body : raw) : bool :=
  if bool_decide (nh_chain head = "guard_policy") then
    contains [infrastructureComment; policyComment] (nh_comment head)
    && match dec_struct [("expr", dec_list None dec_map)] body None with
       | (Some [e], false) => bool_decide (is_Some (default ∅ e !! "counter"))
       | _ => false
       end
  else match expectedRule (nh_chain head) body with
       | Some (set, verdict) => negb (is_empty set) && negb (is_empty verdict)
       | None => false
       end.
Definition expectedInput : list string :=
  ["allow_v4:return"; "protected_v4:return"; "ban_input_v4:drop"; "allow_v6:return"; "protected_v6:return"; "ban_input_v6:drop"].
Definition expectedForward : list string :=
  ["allow_v4:return"; "protected_v4:return"; "ban_forward_v4:drop"; "allow_v6:return"; "protected_v6:return"; "ban_forward_v6:drop"].
Definition count_of (m : gmap string nat) (key : string) : nat := default 0%nat (m !! key).
Definition validManagedRuleCounts (rules : gmap string nat) (sequences : gmap string (list string))
    (markers : gmap string nat) : bool :=
  Nat.eqb (count_of rules "guard_policy") (1 + count_of markers policyComment)
  && Nat.eqb (count_of markers infrastructureComment) 1 && Nat.leb (count_of markers policyComment) 1
  && Nat.eqb (count_of rules "input") (length expectedInput)
  && Nat.eqb (count_of rules "forward") (length expectedForward) && Nat.eqb (size rules) 3
  && bool_decide (sequences !! "input" = Some expectedInput)
  && bool_decide (sequences !! "forward" = Some expectedForward).
Definition isForeignPacketPath (kind : string) (head : nftHeader) : bool :=
  bool_decide (kind = "chain") && bool_decide (nh_chainType head = "filter")
  && contains ["input"; "forward"] (nh_hook head).
(** strings.ToLower, as far as the two names can tell: beyond ASCII only the
    Kelvin sign becomes one of their letters. *)
Fixpoint lower_bytes (l : list Z) : list Z :=
  match l with
  | 0xE2 :: 0x84 :: 0xAA :: r => 107 :: lower_bytes r
  | b :: r => lower_byte b :: lower_bytes r
  | [] => []
  end.
Fixpoint strings_Contains (text part : list Z) : bool :=
  negb (is_nil (after part text)) || match text with [] => false | _ :: r => strings_Contains r part end.
Definition knownManager (head : nftHeader) : string :=
  let text := lower_bytes (string_bytes (nh_table head +:+ "/" +:+ nh_name head +:+ "/" +:+ nh_chain head)) in
  if strings_Contains text (string_bytes "ufw") then "ufw"
  else if strings_Contains text (string_bytes "docker") then "docker"
  else EmptyString.

(** ** The state of a ruleset *)
Record rulesetState := MkRuleset {
  rs_managed : bool; rs_strictLayout : bool; rs_infrastructureMarker : bool; rs_ownershipConflict : bool;
  rs_policy : bool; rs_hasUFW : bool; rs_hasDocker : bool; rs_hasUnknownPacketPath : bool;
  rs_sets : gmap string (list element);
  rs_rules : gmap string nat;
  rs_ruleSequence : gmap string (list string);
  rs_markers : gmap string nat;
  rs_foreignDigest : string
}.
Definition empty_ruleset : rulesetState :=
  MkRuleset false false false false false false false false ∅ ∅ ∅ ∅ EmptyString.
(** Assignments to its fields. *)
Definition own_table (strict : bool) (s : rulesetState) : rulesetState :=
  let 'MkRuleset m sl im oc p u d k ss rr sq mk fd := s in MkRuleset (true) (strict) im oc p u d k ss rr sq mk fd.
Definition conflict_if (bad : bool) (s : rulesetState) : rulesetState :=
  let 'MkRuleset m sl im oc p u d k ss rr sq mk fd := s in MkRuleset m sl im (oc || bad) p u d k ss rr sq mk fd.
Definition append_elements (name : string) (l : list element) (s : rulesetState) : rulesetState :=
  let 'MkRuleset m sl im oc p u d k ss rr sq mk fd := s in MkRuleset m sl im oc p u d k (<[name := default [] (ss !! name) ++ l]> ss) rr sq mk fd.
Definition count_rule (chain : string) (s : rulesetState) : rulesetState :=
  let 'MkRuleset m sl im oc p u d k ss rr sq mk fd := s in MkRuleset m sl im oc p u d k ss (<[chain := S (count_of rr chain)]> rr) sq mk fd.
Definition append_sequence (chain entry : string) (s : rulesetState) : rulesetState :=
  let 'MkRuleset m sl im oc p u d k ss rr sq mk fd := s in MkRuleset m sl im oc p u d k ss rr (<[chain := default [] (sq !! chain) ++ [entry]]> sq) mk fd.
Definition count_marker (comment : string) (s : rulesetState) : rulesetState :=
  let 'MkRuleset m sl im oc p u d k ss rr sq mk fd := s in MkRuleset m sl (im || bool_decide (comment = infrastructureComment)) oc (p || bool_decide (comment = policyComment)) u d k ss rr sq (<[comment := S (count_of mk comment)]> mk) fd.
Definition see_foreign (manager : string) (path : bool) (s : rulesetState) : rulesetState :=
  let 'MkRuleset m sl im oc p u d k ss rr sq mk fd := s in MkRuleset m sl im oc p (u || bool_decide (manager = "ufw")) (d || bool_decide (manager = "docker")) (k || path) ss rr sq mk fd.
Definition set_foreignDigest (digest : string) (s : rulesetState) : rulesetState :=
  let 'MkRuleset m sl im oc p u d k ss rr sq mk fd := s in MkRuleset m sl im oc p u d k ss rr sq mk (digest).

(** ** Its parse *)
(** One object of the managed table, and the objects seen. *)
Definition managed_rule (head : nftHeader) (body : raw) (s : rulesetState) : rulesetState :=
  let s := conflict_if (rs_strictLayout s && negb (validManagedRule head body)) s in
  let s := count_rule (nh_chain head) s in
  let s := if rs_strictLayout s && contains ["input"; "forward"] (nh_chain head) then
             match expectedRule (nh_chain head) body with
             | None => conflict_if true s
             | Some (set, verdict) => append_sequence (nh_chain head) (set +:+ ":" +:+ verdict) s
             end
           else s in
  if bool_decide (nh_chain head = "guard_policy") then count_marker (nh_comment head) s else s.
Definition managed_object (kind : string) (head : nftHeader) (body : raw) (now : time)
    (s : rulesetState) (objects : gset (string * string)) : rulesetState * gset (string * string) :=
  let s := conflict_if (negb (rs_managed s)) s in
  if bool_decide (kind = "set") then
    let s := conflict_if (rs_strictLayout s && negb (validManagedSet head body)) s in
    (match nftSetElements body now with
     | None => conflict_if true s
     | Some elements => append_elements (nh_name head) elements s
     end, {[ (kind, nh_name head) ]} ∪ objects)
  else if bool_decide (kind = "chain") then
    (conflict_if (rs_strictLayout s && negb (validManagedChain head)) s, {[ (kind, nh_name head) ]} ∪ objects)
  else if bool_decide (kind = "rule") then (managed_rule head body s, objects)
  else if contains ["element"; "elem"; "setelem"] kind then
    (match nftElement body now with
     | None => conflict_if true s
     | Some e => append_elements (nh_name head) [e] s
     end, objects)
  else (s, objects).

(** The loop over the entries; the keys of [objects] are pairs. *)
Record scan := MkScan {
  sc_state : rulesetState;
  sc_objects : gset (string * string);
  sc_filtered : list (string * raw)
}.
Definition scan_entry (now : time) (c : scan) (entry : string * raw) : scan :=
  let '(kind, body) := entry in
  let head := nftHead body in
  if bool_decide (kind = "table") && bool_decide (nh_family head = managedFamily)
     && bool_decide (nh_name head = managedTable)
  then MkScan (own_table (0 <? nh_handle head) (sc_state c)) (sc_objects c) (sc_filtered c)
  else if bool_decide (nh_family head = managedFamily) && bool_decide (nh_table head = managedTable)
  then let '(s, objects) := managed_object kind head body now (sc_state c) (sc_objects c) in
       MkScan s objects (sc_filtered c)
  else MkScan (see_foreign (knownManager head) (isForeignPacketPath kind head) (sc_state c)) (sc_objects c)
         (sc_filtered c ++ [entry]).
(** The objects a managed table has and no others. *)
Definition complete_objects (objects : gset (string * string)) : bool :=
  forallb (λ n, bool_decide (("set", n) ∈ objects)) managedSets
  && forallb (λ n, bool_decide (("chain", n) ∈ objects)) managedChains
  && forallb (λ o, negb ((bool_decide (o.1 = "set") && negb (contains managedSets o.2))
                         || (bool_decide (o.1 = "chain") && negb (contains managedChains o.2))))
             (elements objects).
Definition check_managed (objects : gset (string * string)) (s : rulesetState) : rulesetState :=
  if rs_managed s then
    conflict_if (negb (rs_infrastructureMarker s) || negb (complete_objects objects)
                 || (rs_strictLayout s
                     && negb (validManagedRuleCounts (rs_rules s) (rs_ruleSequence s) (rs_markers s)))) s
  else s.

(** *** The digest of what is not managed *)
Fixpoint canonicalNftJSON (r : raw) (counter sortElements : bool) : list Z :=
  match r with
  | RLit text => text
  | RArr items =>
    let canonical := (fix go l := match l with
                      | [] => []
                      | v :: rest => canonicalNftJSON v false false :: go rest
                      end) items in
    marshal_array (if sortElements then sort_by string_of_bytes canonical else canonical)
  | RObj members =>
    let normalized := (fix go l := match l with
                       | [] => []
                       | (key, v) :: rest =>
                         (key, canonicalNftJSON v (bool_decide (key = "counter"))
                                 (sortElements && bool_decide (key = "elem"))) :: go rest
                       end) members in
    marshal_map (filter (λ kv, negb (bool_decide (kv.1 = "handle")
                                     || (counter && contains ["packets"; "bytes"] kv.1)))
                   (map_to_list (list_to_map (reverse normalized) : gmap string (list Z))))
  end.
Definition canonical_entry (kind : string) (body : raw) : list Z :=
  marshal_map [(kind, canonicalNftJSON body false
                        (contains ["set"; "map"; "element"; "elem"; "setelem"] kind))].
Definition chain_key (head : nftHeader) : string :=
  nh_family head +:+ String Ascii.zero (nh_table head +:+ String Ascii.zero (nh_chain head)).
Definition canonicalForeignDigest (entries : list (string * raw)) : string :=
  let rule e := bool_decide (e.1 = "rule") in
  let unordered := (λ e, canonical_entry e.1 e.2) <$> filter (λ e, negb (rule e)) entries in
  let rulesByChain : gmap string (list (list Z)) :=
    foldl (λ m e, let key := chain_key (nftHead e.2) in
                  <[key := default [] (m !! key) ++ [canonical_entry e.1 e.2]]> m)
          ∅ (filter rule entries) in
  let canonical := sort_by string_of_bytes unordered ++ concat (sort_by fst (map_to_list rulesByChain)).*2 in
  sha256hex ([123] ++ json_text "nftables" ++ [58] ++ marshal_array canonical ++ [125]).

Definition document_fields : list (string * dec (option (list (option (gmap string raw))))) :=
  [("nftables", dec_list None dec_map)].
(** The objects of a listing; an entry with no or several of them is refused. *)
Definition ruleset_entries (text : list Z) : option (list (string * raw)) :=
  r ← raw_of text;
  match dec_struct document_fields r None with
  | (Some entries, false) => mapM nftObject entries
  | _ => None
  end.
Definition parseRuleset (text : list Z) (now : time) : result rulesetState :=
  match ruleset_entries text with
  | None => Err errNftNotReady
  | Some entries =>
    let c := foldl (scan_entry now) (MkScan empty_ruleset ∅ []) entries in
    Ok (set_foreignDigest (canonicalForeignDigest (sc_filtered c)) (check_managed (sc_objects c) (sc_state c)))
  end.

(** ** The managed state *)
Definition policy_sets : list string := ["allow_v4"; "allow_v6"; "protected_v4"; "protected_v6"].
Definition policyDigest (sets : gmap string (list element)) : string :=
  let parts := concat ((λ name, (λ item, name +:+ ":" +:+ Prefix_String (el_prefix item))
                                <$> default [] (sets !! name)) <$> policy_sets) in
  sha256hex (string_bytes ("guard-nftables-policy/v1" +:+ newline +:+ strings_Join newline (sort_strings parts))).

Definition set_scope (name : string) : option ManagedScope :=
  if contains ["ban_input_v4"; "ban_input_v6"] name then Some ManagedScopeInput
  else if contains ["ban_forward_v4"; "ban_forward_v6"] name then Some ManagedScopeForward
  else None.
Record observed := MkObserved { od_scopes : list ManagedScope; od_expires : option Z }.
Definition observe_element (scope : ManagedScope) (all : gmap Prefix observed) (value : element) : gmap Prefix observed :=
  let prior := default (MkObserved [] None) (all !! el_prefix value) in
  <[el_prefix value := MkObserved (od_scopes prior ++ [scope])
                         (match el_expires value with Some t => Some t | None => od_expires prior end)]> all.
(** [order]: the order in which the range statement visits the sets. *)
Definition observe_sets (sets : gmap string (list element)) (order : list string) : gmap Prefix observed :=
  foldl (λ all name, match set_scope name with
                     | None => all
                     | Some scope => foldl (observe_element scope) all (default [] (sets !! name))
                     end) ∅ order.
Definition observation (prefix : Prefix) (value : observed) : option TargetObservation :=
  match NewTargetObservation prefix (if is_nil (od_expires value) then ManagedTimeoutNone else ManagedTimeoutNative)
          (od_expires value) (od_scopes value) with
  | Ok o => Some o
  | Err _ => None
  end.
Definition targetObservations (sets : gmap string (list element)) (order : list string) : list TargetObservation :=
  sort_by (Prefix_String ∘ ob_target)
    (omap (λ pv, observation pv.1 pv.2) (map_to_list (observe_sets sets order))).
Definition managedState (s : rulesetState) (order : list string) : result ManagedState :=
  if rs_managed s then
    infrastructure ← NewInfrastructureObservation BackendKindNftablesNative ManagedOwnerVersionV1
                       ManagedInfrastructureSchemaVersionV1 (sha256hex (string_bytes infrastructureV));
    policy ← (if rs_policy s
              then p ← NewPolicyObservation (policyDigest (rs_sets s)); Ok (Some p)
              else Ok None);
    NewManagedState (Some infrastructure) policy (targetObservations (rs_sets s) order)
  else NewManagedState None None [].
