(* ===== verification/NftBackend.v ===== *)
(** * The nftables backend (internal/firewall/nftables)

    Probe, Snapshot, Apply and RemoveManagedInfrastructure of backend_linux.go
    over the nft binary, and the desired state its fixed layout stands for
    (desired_infrastructure_linux.go, desired_target_policy_linux.go). The binary,
    the context, the clock and the order of a range over a map are a port; the
    backend keeps the commands it has run. *)

From S2P Require Import Prelude GoStd Sha256 Netip NetipParse Identity CoreModel Json JsonDecode Firewall Enforcer DecisionTx.
From S2P Require Import JsonRaw NftRuleset.

(** ** The port *)
Class NftRunner (E : Type) := {
  (** stdin and the arguments; the output or an error *)
  nr_run : list Z → list string → ST E (list Z);
  (** ctx.Err() is not nil *)
  nr_Done : E → bool * E;
  nr_Now : E → time * E;
  (** the order in which a range statement visits these keys *)
  nr_Order : list string → E → list string * E
}.
Record nft_call := MkCall { nc_stdin : list Z; nc_args : list string; nc_result : result (list Z) }.
(** The environment and the commands run, the latest first. *)
Record nft (E : Type) := MkNft { nf_env : E; nf_trace : list nft_call }.
Arguments MkNft {E}. Arguments nf_env {E}. Arguments nf_trace {E}.

(** strings.TrimSpace *)
Definition space_runes : list (list Z) :=
  ((λ c, [c]) <$> [9; 10; 11; 12; 13; 32])
  ++ (utf8_encode <$> ([0x85; 0xA0; 0x1680] ++ seqZ 0x2000 11 ++ [0x2028; 0x2029; 0x202f; 0x205f; 0x3000])).

Fixpoint trim_start (fuel : nat) (spaces : list (list Z)) (l : list Z) : list Z :=
  match fuel with
  | O => l
  | S f => match omap (λ r, after r l) spaces with rest :: _ => trim_start f spaces rest | [] => l end
  end.
Definition TrimSpace (l : list Z) : list Z :=
  let l := trim_start (length l) space_runes l in
  reverse (trim_start (length l) (reverse <$> space_runes) (reverse l)).

(** ** Batches *)
Definition line (s : string) : string := s +:+ newline.
Definition quoted (s : string) : string := string_of_bytes ([34] ++ string_bytes s ++ [34]).
Definition marker_rule (comment : string) : string :=
  line ("add rule inet guard guard_policy counter comment " +:+ quoted comment).
Definition infrastructureBatch : string :=
  String.concat EmptyString
   ((line <$> ["add table inet guard";
      "add set inet guard allow_v4 { type ipv4_addr; flags interval; }";
      "add set inet guard allow_v6 { type ipv6_addr; flags interval; }";
      "add set inet guard protected_v4 { type ipv4_addr; flags interval; }";
      "add set inet guard protected_v6 { type ipv6_addr; flags interval; }";
      "add set inet guard ban_input_v4 { type ipv4_addr; flags interval,timeout; }";
      "add set inet guard ban_input_v6 { type ipv6_addr; flags interval,timeout; }";
      "add set inet guard ban_forward_v4 { type ipv4_addr; flags interval,timeout; }";
      "add set inet guard ban_forward_v6 { type ipv6_addr; flags interval,timeout; }";
      "add chain inet guard guard_policy"])
    ++ [marker_rule infrastructureComment]
    ++ (line <$> ["add chain inet guard input { type filter hook input priority 0; policy accept; }";
      "add chain inet guard forward { type filter hook forward priority 0; policy accept; }";
      "add rule inet guard input ip saddr @allow_v4 return";
      "add rule inet guard input ip saddr @protected_v4 return";
      "add rule inet guard input ip saddr @ban_input_v4 drop";
      "add rule inet guard input ip6 saddr @allow_v6 return";
      "add rule inet guard input ip6 saddr @protected_v6 return";
      "add rule inet guard input ip6 saddr @ban_input_v6 drop";
      "add rule inet guard forward ip saddr @allow_v4 return";
      "add rule inet guard forward ip saddr @protected_v4 return";
      "add rule inet guard forward ip saddr @ban_forward_v4 drop";
      "add rule inet guard forward ip6 saddr @allow_v6 return";
      "add rule inet guard forward ip6 saddr @protected_v6 return";
      "add rule inet guard forward ip6 saddr @ban_forward_v6 drop"])).

Definition family (prefixes : list Prefix) (v4 : bool) : list Prefix :=
  filter (λ p, eqb (Is4 (prefix_ip p)) v4) prefixes.
Definition ipv4 (prefixes : list Prefix) : list Prefix := family prefixes true.
Definition ipv6 (prefixes : list Prefix) : list Prefix := family prefixes false.
Definition writeElements (set : string) (prefixes : list Prefix) (suffix : string) : string :=
  match prefixes with
  | [] => EmptyString
  | _ => line ("add element inet guard " +:+ set +:+ " { " +:+ strings_Join ", " (Prefix_String <$> prefixes)
               +:+ suffix +:+ " }")
  end.
Definition policyBatch (plan : policyOperationPlan) : string :=
  String.concat EmptyString
    ((line <$> ["flush set inet guard allow_v4"; "flush set inet guard allow_v6";
                "flush set inet guard protected_v4"; "flush set inet guard protected_v6";
                "flush chain inet guard guard_policy"])
     ++ [writeElements "allow_v4" (ipv4 (py_allowlist plan)) EmptyString;
         writeElements "allow_v6" (ipv6 (py_allowlist plan)) EmptyString;
         writeElements "protected_v4" (ipv4 (py_protectedTargets plan)) EmptyString;
         writeElements "protected_v6" (ipv6 (py_protectedTargets plan)) EmptyString;
         marker_rule infrastructureComment; marker_rule policyComment]).
Definition policyElements (plan : policyOperationPlan) : gmap string (list element) :=
  foldl (λ sets entry,
           foldl (λ sets prefix, <[entry.1 := default [] (sets !! entry.1) ++ [MkElement prefix None]]> sets)
                 sets entry.2)
    ∅ [("allow_v4", ipv4 (py_allowlist plan)); ("allow_v6", ipv6 (py_allowlist plan));
       ("protected_v4", ipv4 (py_protectedTargets plan)); ("protected_v6", ipv6 (py_protectedTargets plan))].

Definition targetSets (target : Prefix) (scopes : list ManagedScope) : list string :=
  let family := if Is4 (prefix_ip target) then "v4" else "v6" in
  omap (λ scope, if bool_decide (scope = ManagedScopeInput) then Some ("ban_input_" +:+ family)
                 else if bool_decide (scope = ManagedScopeForward) then Some ("ban_forward_" +:+ family)
                 else None) scopes.
Definition observed_target (targets : list TargetObservation) (target : Prefix) : option TargetObservation :=
  find (λ o, bool_decide (ob_target o = target)) targets.
Definition targetPresent (targets : list TargetObservation) (target : Prefix) : bool :=
  negb (is_nil (observed_target targets target)).
Definition scopesForTarget (targets : list TargetObservation) (target : Prefix) : list ManagedScope :=
  match observed_target targets target with Some o => ob_scopes o | None => [] end.
Definition delete_element (set : string) (target : Prefix) : string :=
  line ("delete element inet guard " +:+ set +:+ " { " +:+ Prefix_String target +:+ " }").
Definition add_element (set : string) (target : Prefix) (timeout : string) : string :=
  line ("add element inet guard " +:+ set +:+ " { " +:+ Prefix_String target +:+ timeout +:+ " }").
(** time.UnixMicro and Duration.Milliseconds *)
Definition of_UnixMicro (micros : Z) : time := micros * microsecond + unix_to_internal * second.
Definition Milliseconds (d : duration) : Z := Z.quot d 1000000.

(** reflect.DeepEqual of capabilities *)
#[export] Instance FirewallCapabilities_eq_dec : EqDecision FirewallCapabilities.
Proof. solve_decision. Defined.

Section backend.
Context {E : Type} `{NftRunner E}.
Abbreviation N := (ST (nft E)).

(** One set of a batch that adds a target; the clock is read for each. *)
Fixpoint add_elements (plan : targetOperationPlan) (sets : list string) (w : nft E) : option string * nft E :=
  match sets with
  | [] => (Some EmptyString, w)
  | set :: rest =>
    let '(timeout, w) :=
      if tp_hasEffectiveUntil plan then
        let '(now, e) := nr_Now (nf_env w) in
        let remaining := TimeSub (of_UnixMicro (tp_effectiveUntilUnixMicro plan)) now in
        (if remaining <=? 0 then None
         else Some (" timeout " +:+ itoa (Z.max 1 (Milliseconds remaining)) +:+ "ms"), MkNft e (nf_trace w))
      else (Some EmptyString, w) in
    match timeout with
    | None => (None, w)
    | Some timeout =>
      let '(lines, w) := add_elements plan rest w in
      ((λ l, add_element set (tp_target plan) timeout +:+ l) <$> lines, w)
    end
  end.
Definition targetBatch (plan : targetOperationPlan) (observed : list TargetObservation) (w : nft E)
    : string * nft E :=
  let prior := targetSets (tp_target plan) (scopesForTarget observed (tp_target plan)) in
  let deletes := String.concat EmptyString ((λ s, delete_element s (tp_target plan)) <$> prior) in
  if bool_decide (tp_membership plan = TargetMembershipAbsent) then (deletes, w)
  else
    match targetSets (tp_target plan) (tp_scopes plan) with
    | [] => (EmptyString, w)
    | sets =>
      let '(lines, w) := add_elements plan sets w in
      (match lines with
       | None => EmptyString
       | Some l => (if bool_decide (tp_membership plan = TargetMembershipPresent) then deletes else EmptyString) +:+ l
       end, w)
    end.

(** ** Observations *)
(** A run of nft and then ctx.Err(): its output, or this error. *)
Definition run_or (failure : error) (stdin : list Z) (args : list string) : N (list Z) := λ w,
  let '(r, e) := nr_run stdin args (nf_env w) in
  let trace := MkCall stdin args r :: nf_trace w in
  match r with
  | Err _ => (Err failure, MkNft e trace)
  | Ok out =>
    let '(done, e) := nr_Done e in
    (if (done : bool) then Err failure else Ok out, MkNft e trace)
  end.
Definition read_now : N time := λ w,
  let '(now, e) := nr_Now (nf_env w) in (Ok now, MkNft e (nf_trace w)).
Definition read_order (keys : list string) : N (list string) := λ w,
  let '(order, e) := nr_Order keys (nf_env w) in (Ok order, MkNft e (nf_trace w)).
Definition or_fail {A} (failure : error) (m : result A) : N A :=
  st_lift (match m with Ok a => Ok a | Err _ => Err failure end).
(** The ruleset as nft lists it, parsed at the time of the read. *)
Definition read_ruleset : N rulesetState :=
  text ← run_or ErrMutationBackendNotReady [] ["--json"; "list"; "ruleset"];
  now ← read_now;
  state ← or_fail ErrMutationBackendNotReady (parseRuleset text now);
  if rs_ownershipConflict state then st_fail ErrMutationBackendOwnershipConflict else mret state.

(** [missing]: a nil backend, runner or context. *)
Definition Probe (missing : bool) : N FirewallCapabilities :=
  if missing then st_fail ErrMutationBackendNotReady
  else
    version ← run_or ErrMutationBackendUnsupported [] ["--version"];
    let toolVersion := string_of_bytes (TrimSpace version) in
    state ← read_ruleset;
    let coexisting := negb (rs_hasUFW state) && negb (rs_hasDocker state) && negb (rs_hasUnknownPacketPath state) in
    or_fail ErrMutationBackendNotReady
      (NewFirewallCapabilities (MkCapabilities BackendKindNftablesNative toolVersion true true true true true true
         true true true coexisting coexisting true coexisting)).
Definition Snapshot (missing : bool) : N ManagedSnapshot :=
  if missing then st_fail ErrMutationBackendNotReady
  else
    state ← read_ruleset;
    foreign ← or_fail ErrMutationBackendNotReady (NewForeignContext (rs_foreignDigest state));
    order ← (if rs_managed state then read_order (map_to_list (rs_sets state)).*1 else mret []);
    managed ← or_fail ErrMutationBackendNotReady (managedState state order);
    or_fail ErrMutationBackendNotReady (NewManagedSnapshot managed foreign).

(** ** Mutations *)
Definition hasInfrastructure (s : ManagedState) : bool := negb (is_nil (ms_infrastructure s)).
Definition zero_result : MutationResult :=
  MkMutationResult EmptyString EmptyString false EmptyString EmptyString EmptyString false false.
Definition or_zero (r : result MutationResult) : MutationResult :=
  match r with Ok r => r | Err _ => zero_result end.
Definition confirmed (m : AuthorizedMutation) : MutationResult := or_zero (NewConfirmedMutationResult (Some m)).
Definition rejected (m : AuthorizedMutation) (code : MutationErrorCode) : MutationResult :=
  or_zero (NewRejectedMutationResult (Some m) code).
Definition unknown (m : AuthorizedMutation) : MutationResult := or_zero (NewUnknownMutationResult (Some m)).

Definition ready_capabilities (c : FirewallCapabilities) : bool :=
  is_ok (Capabilities_Validate c) && fc_mutationReady c && fc_ownershipProven c.
Definition validOperationPlan (plan : OperationPlan) : bool :=
  negb (is_nil (plan_base plan))
  && bool_decide (fc_backend (plan_Capabilities plan) = BackendKindNftablesNative)
  && bool_decide (plan_OwnerVersion plan = ManagedOwnerVersionV1) && negb (is_empty (plan_Digest plan))
  && (0 <? plan_Revision plan) && ready_capabilities (plan_Capabilities plan).
Definition validRemoval (r : removalAuthorization) : bool :=
  bool_decide (fc_backend (rm_capabilities r) = BackendKindNftablesNative)
  && bool_decide (rm_ownerVersion r = ManagedOwnerVersionV1) && negb (is_empty (rm_digest r))
  && ready_capabilities (rm_capabilities r).

Definition applyPostcondition (state : ManagedState) (plan : OperationPlan) (w : nft E) : bool * nft E :=
  match plan with
  | InfrastructurePlanOf _ => (hasInfrastructure state, w)
  | PolicyPlanOf (Some value) =>
    (match ms_policy state with
     | Some policy => bool_decide (ob_relationDigest policy = policyDigest (policyElements value))
     | None => false
     end, w)
  | TargetPlanOf (Some value) =>
    let absent := bool_decide (tp_membership value = TargetMembershipAbsent) in
    match observed_target (ms_targets state) (tp_target value) with
    | None => (absent, w)
    | Some observed =>
      if absent then (false, w)
      else if negb (bool_decide (ob_timeoutMode observed = tp_timeoutMode value))
              || negb (bool_decide (ob_scopes observed = tp_scopes value)) then (false, w)
      else if negb (tp_hasEffectiveUntil value) then (true, w)
      else match ob_effectiveUntil observed with
           | None => (false, w)
           | Some got =>
             let '(now, e) := nr_Now (nf_env w) in
             ((UnixMicro now <? got) && (got <=? tp_effectiveUntilUnixMicro value), MkNft e (nf_trace w))
           end
    end
  | _ => (false, w)
  end.

(** The fresh observation a mutation depends on: the capabilities and the basis
    it was authorized with. *)
Definition fresh (missing : bool) (capabilities : FirewallCapabilities) (basis : string) : N ManagedSnapshot :=
  observed ← Probe missing;
  st_lift (fail_if (negb (bool_decide (observed = capabilities))) errNftNotReady);;
  snapshot ← Snapshot missing;
  st_lift (fail_if (negb (bool_decide (sp_digest snapshot = basis))) errNftNotReady);;
  mret snapshot.
(** The one batch, and the observation after it. *)
Definition dispatch (missing : bool) (m : AuthorizedMutation) (batch : string) (before : ManagedSnapshot)
    (post : ManagedState → nft E → bool * nft E) (w : nft E) : MutationResult * nft E :=
  match run_or errNftNotReady (string_bytes batch) ["--file"; "-"] w with
  | (Err _, w) => (unknown m, w)
  | (Ok _, w) =>
    match Snapshot missing w with
    | (Err _, w) => (unknown m, w)
    | (Ok after, w) =>
      if negb (bool_decide (fx_digest (sp_foreignContext after) = fx_digest (sp_foreignContext before)))
      then (unknown m, w)
      else let '(held, w) := post (sp_managedState after) w in
           ((if (held : bool) then confirmed m else unknown m), w)
    end
  end.
Definition done (w : nft E) : bool * nft E := let '(b, e) := nr_Done (nf_env w) in (b, MkNft e (nf_trace w)).

(** [nil_backend]: a nil backend or runner; [nil_ctx]: a nil context. *)
Definition Apply (nil_backend nil_ctx : bool) (plan : OperationPlan) (w : nft E) : MutationResult * nft E :=
  let m := ApplyMutation plan in
  if negb (validOperationPlan plan) || nil_ctx then (rejected m MutationErrorInvalidPlan, w)
  else
    let '(cancelled, w) := done w in
    if (cancelled : bool) then (rejected m MutationErrorInvalidPlan, w)
    else
      match fresh nil_backend (plan_Capabilities plan) (plan_BasisSnapshotDigest plan) w with
      | (Err _, w) => (rejected m MutationErrorNotReady, w)
      | (Ok snapshot, w) =>
        let state := sp_managedState snapshot in
        let send batch w :=
          if is_empty batch then (rejected m MutationErrorInvalidPlan, w)
          else dispatch nil_backend m batch snapshot (λ s, applyPostcondition s plan) w in
        match plan with
        | InfrastructurePlanOf _ =>
          if hasInfrastructure state then (confirmed m, w) else send infrastructureBatch w
        | PolicyPlanOf (Some value) =>
          if negb (hasInfrastructure state) then (rejected m MutationErrorNotReady, w)
          else send (policyBatch value) w
        | TargetPlanOf (Some value) =>
          if bool_decide (tp_membership value = TargetMembershipAbsent)
             && negb (targetPresent (ms_targets state) (tp_target value))
          then (confirmed m, w)
          else let '(batch, w) := targetBatch value (ms_targets state) w in send batch w
        | _ => (rejected m MutationErrorInvalidPlan, w)
        end
      end.
Definition removal_batch : string := line "delete table inet guard".
Definition RemoveManagedInfrastructure (nil_backend nil_ctx : bool) (authorization : option removalAuthorization)
    (w : nft E) : MutationResult * nft E :=
  let m := RemoveMutation authorization in
  match authorization with
  | None => (rejected m MutationErrorOwnershipConflict, w)
  | Some r =>
    if negb (validRemoval r) || nil_ctx then (rejected m MutationErrorOwnershipConflict, w)
    else
      let '(cancelled, w) := done w in
      if (cancelled : bool) then (rejected m MutationErrorOwnershipConflict, w)
      else
        match fresh nil_backend (rm_capabilities r) (rm_basisSnapshotDigest r) w with
        | (Err _, w) => (rejected m MutationErrorNotReady, w)
        | (Ok snapshot, w) =>
          if negb (hasInfrastructure (sp_managedState snapshot)) then (confirmed m, w)
          else dispatch nil_backend m removal_batch snapshot (λ s w, (negb (hasInfrastructure s), w)) w
        end
  end.
End backend.

(** ** The desired state of the fixed layout *)
Definition fixedInfrastructureRevision : Z := 1.
Definition FixedDesiredInfrastructure : Z * ManagedInfrastructureIntent :=
  (fixedInfrastructureRevision,
   MkInfrastructure BackendKindNftablesNative ManagedOwnerVersionV1 (sha256hex (string_bytes infrastructureV))).
Definition MatchesFixedDesiredInfrastructure (revision : Z) (intent : ManagedInfrastructureIntent) : bool :=
  (revision =? FixedDesiredInfrastructure.1) && bool_decide (intent = FixedDesiredInfrastructure.2).
Definition MatchesFixedInfrastructureObservation (o : InfrastructureObservation) : bool :=
  let intent := FixedDesiredInfrastructure.2 in
  bool_decide (ob_backend o = BackendKindNftablesNative) && bool_decide (ob_ownerVersion o = mi_OwnerVersion intent)
  && (ob_schemaVersion o =? ManagedInfrastructureSchemaVersionV1)
  && bool_decide (ob_infraDigest o = mi_Digest intent).
Definition NewFixedManagedPolicyTargetResolver : result ManagedPolicyTargetResolver :=
  NewManagedPolicyTargetResolver (Z.lor ScopeInput ScopeForward) true (mi_Digest FixedDesiredInfrastructure.2).
