(* ===== verification/NftProofs.v ===== *)
(** * The nftables backend: what it does to the host

    Every command that changes the host is one nft batch. A mutation runs at most
    one, over the capabilities and the basis it was authorized with, observed just
    before; what it answers is what it observed. *)

From S2P Require Import Prelude GoStd Sha256 Netip NetipParse Identity CoreModel Json JsonDecode Ipc Firewall Enforcer.
From S2P Require Import DecisionTx JsonRaw NftRuleset NftBackend.

(** ** Commands *)
Definition is_batch (c : nft_call) : bool := bool_decide (nc_args c = ["--file"; "-"]).
(** What was fed to nft as a batch, the latest first. *)
Definition batches {E} (w : nft E) : list (list Z) := nc_stdin <$> filter is_batch (nf_trace w).
Definition same_batches {E} (w w' : nft E) : Prop := batches w' = batches w.
#[export] Instance same_batches_preorder {E} : PreOrder (same_batches (E := E)).
Proof. split; [done|]. unfold same_batches. intros x y z -> ->. done. Qed.

Section mutations.
Context {E : Type} `{NftRunner E}.
Implicit Types w : nft E.

Lemma run_or_reads failure stdin args : args ≠ ["--file"; "-"] → keeps same_batches (run_or (E := E) failure stdin args).
Proof.
  intros Ha w. unfold run_or, same_batches. destruct (nr_run _ _ _) as [r e].
  assert (∀ e' : E, batches (MkNft e' (MkCall stdin args r :: nf_trace w)) = batches w) as Hs.
  { intros e'. unfold batches. cbn [nf_trace]. rewrite filter_cons_False; [done|]. unfold is_batch. cbn. by rewrite bool_decide_spec. }
  destruct r; [destruct (nr_Done e) as [[] e']|]; apply Hs.
Qed.
Lemma read_now_reads : keeps same_batches (read_now (E := E)).
Proof. intros w. unfold read_now. by destruct (nr_Now _). Qed.
Lemma read_order_reads keys : keeps same_batches (read_order (E := E) keys).
Proof. intros w. unfold read_order. by destruct (nr_Order _ _). Qed.
Lemma or_fail_reads {A} e (r : result A) : keeps same_batches (or_fail (E := E) e r).
Proof. apply keeps_lift, _. Qed.
Ltac reads :=
  keeps_tac ltac:(idtac; first [apply run_or_reads; done | apply read_now_reads | apply read_order_reads | apply or_fail_reads]).
Lemma read_ruleset_reads : keeps same_batches (read_ruleset (E := E)).
Proof. unfold read_ruleset. reads. Qed.
Lemma Probe_reads missing : keeps same_batches (Probe (E := E) missing).
Proof. unfold Probe. destruct missing; [reads|]. repeat (reads || apply read_ruleset_reads). Qed.
Lemma Snapshot_reads missing : keeps same_batches (Snapshot (E := E) missing).
Proof. unfold Snapshot. destruct missing; [reads|]. repeat (reads || apply read_ruleset_reads). Qed.
Lemma fresh_reads missing c basis : keeps same_batches (fresh (E := E) missing c basis).
Proof. unfold fresh. repeat (reads || apply Probe_reads || apply Snapshot_reads). Qed.
Lemma add_elements_reads plan sets w : same_batches w (add_elements plan sets w).2.
Proof.
  revert w. induction sets as [|s r IH]; intros w; [done|]. cbn [add_elements].
  destruct (tp_hasEffectiveUntil plan).
  - destruct (nr_Now _) as [now e]. destruct (_ <=? 0); [done|].
    specialize (IH (MkNft e (nf_trace w))). destruct (add_elements _ _ _) as [l w']. exact IH.
  - specialize (IH w). destruct (add_elements _ _ _) as [l w']. exact IH.
Qed.
Lemma targetBatch_reads plan observed w : same_batches w (targetBatch plan observed w).2.
Proof.
  unfold targetBatch. case_bool_decide; [done|]. destruct (targetSets _ _) as [|s r]; [done|].
  pose proof (add_elements_reads plan (s :: r) w) as Hr. destruct (add_elements _ _ _) as [l w']. exact Hr.
Qed.
Lemma applyPostcondition_reads state plan w : same_batches w (applyPostcondition state plan w).2.
Proof. unfold applyPostcondition. repeat case_match; done. Qed.
Lemma done_reads w : same_batches w (done w).2.
Proof. unfold done. by destruct (nr_Done _). Qed.

(** ** One mutation *)
Definition send (nb nc : bool) (m : AuthorizedMutation) (w : nft E) : MutationResult * nft E :=
  match m with
  | ApplyMutation plan => Apply nb nc plan w
  | RemoveMutation r => RemoveManagedInfrastructure nb nc r w
  end.
(** The state already is what the mutation asks for. *)
Definition satisfied (m : AuthorizedMutation) (s : ManagedState) : bool :=
  match m with
  | ApplyMutation (InfrastructurePlanOf _) => hasInfrastructure s
  | ApplyMutation (TargetPlanOf (Some p)) =>
    bool_decide (tp_membership p = TargetMembershipAbsent) && negb (targetPresent (ms_targets s) (tp_target p))
  | RemoveMutation _ => negb (hasInfrastructure s)
  | _ => false
  end.
(** The batch of the mutation over what was observed; the batch of a target
    reads the clock. *)
Definition prepared (m : AuthorizedMutation) (s : ManagedState) (w : nft E) (batch : string) (w' : nft E) : Prop :=
  match m with
  | ApplyMutation (InfrastructurePlanOf _) => hasInfrastructure s = false ∧ batch = infrastructureBatch ∧ w' = w
  | ApplyMutation (PolicyPlanOf p) => ∃ p', p = Some p' ∧ hasInfrastructure s = true ∧ batch = policyBatch p' ∧ w' = w
  | ApplyMutation (TargetPlanOf p) =>
    ∃ p', p = Some p' ∧ targetBatch p' (ms_targets s) w = (batch, w') ∧ batch ≠ EmptyString
  | RemoveMutation _ => hasInfrastructure s = true ∧ batch = removal_batch ∧ w' = w
  end.
(** There is no batch for it: no infrastructure for the policy to go into, or no
    set to add the target to, or a target that has already expired. *)
Definition unsendable (m : AuthorizedMutation) (s : ManagedState) (w : nft E) (code : MutationErrorCode) (w' : nft E) : Prop :=
  match m with
  | ApplyMutation (PolicyPlanOf _) => hasInfrastructure s = false ∧ code = MutationErrorNotReady ∧ w' = w
  | ApplyMutation (TargetPlanOf p) =>
    ∃ p', p = Some p' ∧ targetBatch p' (ms_targets s) w = (EmptyString, w') ∧ code = MutationErrorInvalidPlan
  | _ => False
  end.
Definition sent (batch : string) (w : nft E) (answer : result (list Z)) (w' : nft E) : Prop :=
  run_or errNftNotReady (string_bytes batch) ["--file"; "-"] w = (answer, w').
Definition postcondition (m : AuthorizedMutation) (s : ManagedState) (w : nft E) : bool * nft E :=
  match m with
  | ApplyMutation plan => applyPostcondition s plan w
  | RemoveMutation _ => (negb (hasInfrastructure s), w)
  end.
(** From [w], a probe with just the mutation's capabilities and then a snapshot
    [s] that is its basis. *)
Definition observed_fresh (nb : bool) (m : AuthorizedMutation) (w : nft E) (s : ManagedSnapshot) (w' : nft E) : Prop :=
  ∃ w1, Probe nb w = (Ok (mutation_capabilities m), w1) ∧ Snapshot nb w1 = (Ok s, w') ∧
        sp_digest s = mutation_basis m.
(** A code with which the mutation may be rejected. *)
Definition code_for (m : AuthorizedMutation) (code : MutationErrorCode) : Prop :=
  match m with
  | ApplyMutation _ => code ∈ [MutationErrorInvalidPlan; MutationErrorNotReady]
  | RemoveMutation _ => code ∈ [MutationErrorOwnershipConflict; MutationErrorNotReady]
  end.
Definition inadmissible_code (m : AuthorizedMutation) : MutationErrorCode :=
  match m with ApplyMutation _ => MutationErrorInvalidPlan | RemoveMutation _ => MutationErrorOwnershipConflict end.
Definition admissible (m : AuthorizedMutation) : bool :=
  match m with
  | ApplyMutation plan => validOperationPlan plan
  | RemoveMutation r => match r with Some r => validRemoval r | None => false end
  end.

(** Why a mutation is refused. *)
Inductive refusal (nb nc : bool) (m : AuthorizedMutation) (w : nft E) : MutationErrorCode → nft E → Prop :=
  | refused_inadmissible : admissible m = false ∨ nc = true → refusal nb nc m w (inadmissible_code m) w
  | refused_cancelled w' : done w = (true, w') → refusal nb nc m w (inadmissible_code m) w'
  | refused_stale e w' :
      fresh nb (mutation_capabilities m) (mutation_basis m) (done w).2 = (Err e, w') →
      refusal nb nc m w MutationErrorNotReady w'
  | refused_unsendable s w1 code w' :
      observed_fresh nb m (done w).2 s w1 → unsendable m (sp_managedState s) w1 code w' →
      refusal nb nc m w code w'.
(** Why a mutation that was sent is not confirmed. *)
Inductive unconfirmed (nb : bool) (m : AuthorizedMutation) (before : ManagedSnapshot) (w : nft E)
    : result (list Z) → nft E → Prop :=
  | unconfirmed_run e : unconfirmed nb m before w (Err e) w
  | unconfirmed_snapshot out e w' : Snapshot nb w = (Err e, w') → unconfirmed nb m before w (Ok out) w'
  | unconfirmed_foreign out after w' :
      Snapshot nb w = (Ok after, w') →
      fx_digest (sp_foreignContext after) ≠ fx_digest (sp_foreignContext before) →
      unconfirmed nb m before w (Ok out) w'
  | unconfirmed_state out after w1 w' :
      Snapshot nb w = (Ok after, w1) → postcondition m (sp_managedState after) w1 = (false, w') →
      unconfirmed nb m before w (Ok out) w'.

Inductive mutation_outcome (nb nc : bool) (m : AuthorizedMutation) (w : nft E) : MutationResult → nft E → Prop :=
  | out_refused code w' :
      refusal nb nc m w code w' → code_for m code → batches w' = batches w →
      mutation_outcome nb nc m w (rejected m code) w'
  | out_satisfied s w' :
      observed_fresh nb m (done w).2 s w' → satisfied m (sp_managedState s) = true →
      batches w' = batches w → mutation_outcome nb nc m w (confirmed m) w'
  | out_unknown s w1 batch w2 answer w3 w' :
      observed_fresh nb m (done w).2 s w1 → prepared m (sp_managedState s) w1 batch w2 → sent batch w2 answer w3 →
      unconfirmed nb m s w3 answer w' →
      batches w' = string_bytes batch :: batches w → mutation_outcome nb nc m w (unknown m) w'
  | out_confirmed s w1 batch w2 out w3 after w4 w' :
      observed_fresh nb m (done w).2 s w1 → prepared m (sp_managedState s) w1 batch w2 → sent batch w2 (Ok out) w3 →
      Snapshot nb w3 = (Ok after, w4) →
      fx_digest (sp_foreignContext after) = fx_digest (sp_foreignContext s) →
      postcondition m (sp_managedState after) w4 = (true, w') →
      batches w' = string_bytes batch :: batches w → mutation_outcome nb nc m w (confirmed m) w'.

Lemma fresh_Ok nb m w s w' :
  fresh nb (mutation_capabilities m) (mutation_basis m) w = (Ok s, w') → observed_fresh nb m w s w'.
Proof.
  unfold fresh, mbind, st_bind. destruct (Probe nb w) as [[c|] w1] eqn:Hp; [|done].
  unfold st_lift, fail_if at 1. case_bool_decide as Hc; [|done]. cbn [negb]. subst c.
  destruct (Snapshot nb w1) as [[s1|] w2] eqn:Hs; [|done]. unfold fail_if. case_bool_decide as Hd; [|done].
  cbn. intros [= -> ->]. by exists w1.
Qed.
Lemma fresh_same nb c basis w r w' : fresh nb c basis w = (r, w') → batches w' = batches w.
Proof. intros Hf. pose proof (fresh_reads nb c basis w) as Hk. by rewrite Hf in Hk. Qed.
Lemma snapshot_same nb w r w' : Snapshot nb w = (r, w') → batches w' = batches w.
Proof. intros Hf. pose proof (Snapshot_reads nb w) as Hk. by rewrite Hf in Hk. Qed.
Lemma postcondition_same m s w : batches (postcondition m s w).2 = batches w.
Proof. destruct m; [apply applyPostcondition_reads|done]. Qed.
Lemma batch_sent failure batch w :
  batches (run_or failure (string_bytes batch) ["--file"; "-"] w).2 = string_bytes batch :: batches w.
Proof. unfold run_or. repeat case_match; done. Qed.

Lemma dispatch_outcome nb nc m batch s (w w1 w2 : nft E) r w' :
  observed_fresh nb m (done w).2 s w1 → prepared m (sp_managedState s) w1 batch w2 → batches w2 = batches w →
  dispatch nb m batch s (postcondition m) w2 = (r, w') → mutation_outcome nb nc m w r w'.
Proof.
  intros Hf Hb H2. unfold dispatch. pose proof (batch_sent errNftNotReady batch w2) as Hs.
  destruct (run_or _ _ _ _) as [[out|e] w3] eqn:Hrun; cbn [snd] in Hs; rewrite H2 in Hs.
  2: { intros [= <- <-]. by eapply out_unknown; [..|apply unconfirmed_run|]. }
  destruct (Snapshot nb w3) as [[after|e] w4] eqn:Ha; pose proof (snapshot_same _ _ _ _ Ha) as H4; rewrite Hs in H4.
  2: { intros [= <- <-]. by eapply out_unknown; [..|eapply unconfirmed_snapshot|]. }
  case_bool_decide as Hd; cbn [negb].
  2: { intros [= <- <-]. by eapply out_unknown; [..|eapply unconfirmed_foreign|]. }
  pose proof (postcondition_same m (sp_managedState after) w4) as H5.
  destruct (postcondition m _ w4) as [[] w5] eqn:Hp; cbn [snd] in H5; rewrite H4 in H5; intros [= <- <-].
  - by eapply out_confirmed.
  - by eapply out_unknown; [..|eapply unconfirmed_state|].
Qed.

Lemma infrastructureBatch_nonempty : is_empty infrastructureBatch = false.
Proof. done. Qed.
Lemma policyBatch_nonempty p : is_empty (policyBatch p) = false.
Proof. done. Qed.

Lemma is_empty_nil (text : string) : is_empty text = true → text = EmptyString.
Proof. by destruct text. Qed.

Lemma Apply_outcome nb nc plan w r w' :
  Apply nb nc plan w = (r, w') → mutation_outcome nb nc (ApplyMutation plan) w r w'.
Proof.
  unfold Apply. destruct (negb _ || _) eqn:Hv.
  { intros [= <- <-]. apply out_refused; [|cbn; set_solver|done].
    apply (refused_inadmissible nb nc (ApplyMutation plan)). gobool. cbn. tauto. }
  pose proof (done_reads w) as Hd. destruct (done w) as [[] w0] eqn:Hw; cbn in Hd.
  { intros [= <- <-]. apply out_refused; [|cbn; set_solver|done].
    by apply (refused_cancelled nb nc (ApplyMutation plan)). }
  assert ((done w).2 = w0) as Hw0 by by rewrite Hw.
  destruct (fresh _ _ _ w0) as [[s|e] w1] eqn:Hf; pose proof (fresh_same _ _ _ _ _ _ Hf) as H1; rewrite Hd in H1.
  2: { intros [= <- <-]. apply out_refused; [|cbn; set_solver|done]. rewrite <- Hw0 in Hf.
    by eapply (refused_stale nb nc (ApplyMutation plan)). }
  apply (fresh_Ok nb (ApplyMutation plan)) in Hf. rewrite <- Hw0 in Hf.
  assert (∀ batch w2, batches w2 = batches w → prepared (ApplyMutation plan) (sp_managedState s) w1 batch w2 →
    dispatch nb (ApplyMutation plan) batch s (λ s, applyPostcondition s plan) w2 = (r, w') →
    mutation_outcome nb nc (ApplyMutation plan) w r w') as Hsend.
  { intros batch w2 H2 Hb Hr. by eapply (dispatch_outcome nb nc (ApplyMutation plan)). }
  destruct plan as [p|[p|]|[p|]].
  - rewrite infrastructureBatch_nonempty. destruct (hasInfrastructure _) eqn:Hi.
    + intros [= <- <-]. by eapply out_satisfied.
    + by apply Hsend.
  - destruct (hasInfrastructure _) eqn:Hi; cbn [negb].
    + rewrite policyBatch_nonempty. apply Hsend; [done|]. by exists p.
    + intros [= <- <-]. apply out_refused; [|cbn; set_solver|done]. by eapply refused_unsendable.
  - done.
  - destruct (_ && _) eqn:Hs; [intros [= <- <-]; by eapply out_satisfied|].
    pose proof (targetBatch_reads p (ms_targets (sp_managedState s)) w1) as H2.
    destruct (targetBatch _ _ w1) as [batch w2] eqn:Hb. unfold same_batches in H2. cbn [snd] in H2. rewrite H1 in H2.
    destruct (is_empty batch) eqn:He.
    + intros [= <- <-]. apply is_empty_nil in He as ->. apply out_refused; [|cbn; set_solver|done].
      eapply refused_unsendable; [done|]. by exists p.
    + apply Hsend; [done|]. exists p. split; [done|]. split; [done|]. by intros ->.
  - done.
Qed.
Lemma Remove_outcome nb nc a w r w' :
  RemoveManagedInfrastructure nb nc a w = (r, w') → mutation_outcome nb nc (RemoveMutation a) w r w'.
Proof.
  unfold RemoveManagedInfrastructure. destruct a as [a|].
  2: { intros [= <- <-]. apply out_refused; [|cbn; set_solver|done].
    apply (refused_inadmissible nb nc (RemoveMutation None)). by left. }
  destruct (negb _ || _) eqn:Hv.
  { intros [= <- <-]. apply out_refused; [|cbn; set_solver|done].
    apply (refused_inadmissible nb nc (RemoveMutation (Some a))). gobool. cbn. tauto. }
  pose proof (done_reads w) as Hd. destruct (done w) as [[] w0] eqn:Hw; cbn in Hd.
  { intros [= <- <-]. apply out_refused; [|cbn; set_solver|done].
    by apply (refused_cancelled nb nc (RemoveMutation (Some a))). }
  assert ((done w).2 = w0) as Hw0 by by rewrite Hw.
  destruct (fresh _ _ _ w0) as [[s|e] w1] eqn:Hf; pose proof (fresh_same _ _ _ _ _ _ Hf) as H1; rewrite Hd in H1.
  2: { intros [= <- <-]. apply out_refused; [|cbn; set_solver|done]. rewrite <- Hw0 in Hf.
    by eapply (refused_stale nb nc (RemoveMutation (Some a))). }
  apply (fresh_Ok nb (RemoveMutation (Some a))) in Hf. rewrite <- Hw0 in Hf.
  destruct (hasInfrastructure _) eqn:Hi; cbn [negb].
  - intros Hr. by eapply (dispatch_outcome nb nc (RemoveMutation (Some a))).
  - intros [= <- <-]. eapply out_satisfied; [done| |done]. cbn. by rewrite Hi.
Qed.
Lemma send_outcome nb nc m w : mutation_outcome nb nc m w (send nb nc m w).1 (send nb nc m w).2.
Proof.
  destruct m; cbn [send]; [apply Apply_outcome|apply Remove_outcome]; apply surjective_pairing.
Qed.
End mutations.


(** ** The enforcer over the backend *)
Section enforcer.
Context {E : Type} `{NftRunner E} (gate : E → bool * E).
#[local] Instance nft_backend : MutationBackend (nft E) := {
  be_Probe := Probe false;
  be_Snapshot := Snapshot false;
  be_Apply := Apply false false;
  be_RemoveManagedInfrastructure := RemoveManagedInfrastructure false false;
  be_Cancelled := done;
  be_Gate := λ w, let '(b, e) := gate (nf_env w) in (b, MkNft e (nf_trace w))
}.
Implicit Types w : executor (nft E).

(** The batches of a mutation by its outcome. *)
Definition mutation_batches (m : AuthorizedMutation) (o : MutationResult) (b b' : list (list Z)) : Prop :=
  (b' = b ∧ ((∃ code, code_for m code ∧ o = rejected m code) ∨ o = confirmed m)) ∨
  (∃ x, b' = x :: b ∧ (o = unknown m ∨ o = confirmed m)).
Lemma outcome_batches nb nc m (v : nft E) r (v' : nft E) :
  mutation_outcome nb nc m v r v' → mutation_batches m r (batches v) (batches v').
Proof. intros []; [left; eauto 6|left; auto|right; eauto|right; eauto]. Qed.

(** The batches that the calls of the backend account for. *)
Inductive accounts : list backend_event → list (list Z) → list (list Z) → Prop :=
  | accounts_nil b : accounts [] b b
  | accounts_quiet ev evs b b' : quiet_event ev = true → accounts evs b b' → accounts (ev :: evs) b b'
  | accounts_mutation m o evs b b' b'' :
      accounts evs b b' → mutation_batches m o b' b'' → accounts (SawMutation m o :: evs) b b''.
Definition accounted w w' : Prop :=
  ∃ evs, ex_trace w' = evs ++ ex_trace w ∧ accounts evs (batches (ex_env w)) (batches (ex_env w')).
Lemma accounts_app evs2 evs1 b0 b1 b2 :
  accounts evs2 b1 b2 → accounts evs1 b0 b1 → accounts (evs2 ++ evs1) b0 b2.
Proof. induction 1; cbn; intros; eauto using accounts. Qed.
#[local] Instance accounted_preorder : PreOrder accounted.
Proof.
  split.
  - intros w. exists []. split; [done|constructor].
  - intros x y z (e1 & H1 & A1) (e2 & H2 & A2). exists (e2 ++ e1). split; [by rewrite H2, H1, app_assoc|].
    by eapply accounts_app.
Qed.
Lemma accounts_no_mutation evs b b' : accounts evs b b' → no_mutation evs → b' = b.
Proof. induction 1; inversion 1; subst; [done|auto|done]. Qed.

Lemma keeps_consult (f : nft E → bool * nft E) :
  (∀ v, batches (f v).2 = batches v) → keeps accounted (consult f).
Proof.
  intros Hf w. exists []. unfold consult. specialize (Hf (ex_env w)). destruct (f _) as [b e]. cbn in *.
  split; [done|]. rewrite Hf. constructor.
Qed.
Lemma keeps_observe {A} (ev : result A → backend_event) (m : ST (nft E) A) :
  (∀ r, quiet_event (ev r) = true) → keeps same_batches m → keeps accounted (observe ev m).
Proof.
  intros Hq Hm w. unfold observe. specialize (Hm (ex_env w)). destruct (m _) as [r e]. cbn in *. exists [ev r].
  split; [done|]. cbn. rewrite Hm. apply accounts_quiet; [done|constructor].
Qed.
Lemma keeps_mutate m : keeps accounted (mutate (E := nft E) m).
Proof.
  intros w. pose proof (send_outcome false false m (ex_env w)) as Ho. unfold mutate.
  change (match m with ApplyMutation plan => be_Apply plan (ex_env w)
          | RemoveMutation r => be_RemoveManagedInfrastructure r (ex_env w) end)
    with (send false false m (ex_env w)).
  destruct (send _ _ _ _) as [o e]. cbn in *. exists [SawMutation m o]. split; [done|].
  eapply accounts_mutation; [constructor|]. by eapply outcome_batches.
Qed.
Lemma keeps_unless request m : keeps accounted m → keeps accounted (unless_cancelled (E := nft E) request m).
Proof.
  intros Hm. apply keeps_bind; [apply _|apply keeps_consult, done_reads|]. intros []; [|done].
  apply keeps_ret, _.
Qed.
Lemma Execute_accounted missing request : keeps accounted (Execute (E := nft E) missing request).
Proof.
  unfold Execute. cbv zeta.
  keeps_tac ltac:(idtac; first [ apply keeps_unless | apply keeps_mutate
    | apply keeps_observe; [done|apply Probe_reads] | apply keeps_observe; [done|apply Snapshot_reads]
    | apply keeps_consult; intros v; cbn; by destruct (gate _) ]).
Qed.

(** The results that the backend makes of a mutation. *)
Inductive own_result (m : AuthorizedMutation) : MutationStatus → MutationErrorCode → bool → Prop :=
  | own_confirmed : own_result m MutationStatusConfirmed EmptyString false
  | own_unknown : own_result m MutationStatusUnknown MutationErrorUnknownResult true
  | own_rejected code : code_for m code → own_result m MutationStatusRejected code true.
Lemma authorized_identity request c s m :
  AuthorizeMutationRequest request c s = Ok (Authorized m) →
  validSnapshotDigest (mutation_Digest m) = true ∧
  mutationIdentity (Some m)
  = Some (mutation_Operation m, match m with ApplyMutation p => Some (plan_Domain p) | RemoveMutation _ => None end,
          mutation_Digest m).
Proof.
  intros Ha. destruct (au_complete _ _ _ (authorized_mutation _ _ _ _ Ha)) as [d Hd]. rewrite Hd. split.
  - unfold mutationIdentity, Firewall.validOperationPlan in Hd.
    destruct m as [p|[r|]]; [..|done]; case_match eqn:Hg; gobool; try done; naive_solver.
  - do 3 f_equal. destruct m as [p|[r|]]; cbn in Hd; [case_match; congruence..|done].
Qed.
Lemma own_result_answered request c s m status code has :
  AuthorizeMutationRequest request c s = Ok (Authorized m) → own_result m status code has →
  ipc.Status <$> respond m (or_zero (newMutationResult (Some m) status code has)) = Some status.
Proof.
  intros Ha Ho. destruct (authorized_identity _ _ _ _ Ha) as [Hv Hi]. unfold newMutationResult. rewrite Hi.
  assert (∃ r, MapMutationResult (Authorized m)
                 (MkMutationResult (mutation_Operation m)
                    (default EmptyString (match m with ApplyMutation p => Some (plan_Domain p) | RemoveMutation _ => None end))
                    (match m with ApplyMutation _ => true | RemoveMutation _ => false end)
                    (mutation_Digest m) status code has true) = Ok r ∧ ipc.Status r = status) as (r & Hr & Hs).
  { clear Hi Ha. unfold MapMutationResult, MutationResult_Validate. generalize dependent (mutation_Digest m).
    intros digest Hv. cbn [mr_valid mr_mutationDigest mr_operation mr_domain mr_hasDomain mr_status mr_errorCode mr_hasErrorCode].
    rewrite Hv, !(bool_decide_true (digest = digest)), !(bool_decide_true (mutation_Operation m = mutation_Operation m)) by done.
    destruct m as [[p|p|p]|r], Ho as [| |code Hc];
      try (cbn in Hc; rewrite !elem_of_cons, elem_of_nil in Hc; destruct Hc as [->|[->|[]]]); eexists; split; done. }
  replace (validMutationResultState _ _ _ _) with true.
  2: { destruct m as [[p|p|p]|], Ho as [| |code Hc];
      try (cbn in Hc; rewrite !elem_of_cons, elem_of_nil in Hc; destruct Hc as [->|[->|[]]]); done. }
  cbn [negb fail_if mbind result_bind or_zero]. unfold respond.
  destruct m; cbn [is_nil negb default] in *; rewrite Hr; by rewrite <- Hs.
Qed.

(** One request of the agent to the privileged enforcer over nftables runs at
    most one nft batch, whatever the binary, the context, the clock and the gate
    do: an answer rejected means that none was run and nothing changed, an answer
    unknown that exactly one was run. *)
Theorem enforcer_runs_one_batch missing request w :
  ∃ r w', Execute (E := nft E) missing request w = (Ok r, w') ∧
    let b := batches (ex_env w) in let b' := batches (ex_env w') in
    match ipc.Status <$> r with
    | None => b' = b
    | Some status =>
      (status = ipc.MutationStatusRejected ∧ b' = b) ∨
      (status = ipc.MutationStatusUnknown ∧ ∃ x, b' = x :: b) ∨
      (status = ipc.MutationStatusConfirmed ∧ (b' = b ∨ ∃ x, b' = x :: b))
    end.
Proof.
  destruct (Execute_handles missing request w) as (r & evs & w' & Hr & Ht & Hh). exists r, w'. split; [done|].
  destruct (Execute_accounted missing request w) as (evs' & Ht' & Ha). rewrite Hr in Ht', Ha. cbn [snd] in Ht', Ha.
  rewrite Ht in Ht'. apply app_inv_tail in Ht' as <-. rewrite app_nil_r in Hh. cbv zeta.
  pose proof (handled_truthful _ _ _ Hh) as Htr.
  destruct Hh as [|evs code Hc Hn Hv|c s response Hm|c s m o Hm].
  - by inversion Ha.
  - pose proof (accounts_no_mutation _ _ _ Ha Hn) as ->. destruct (rejectedMutationResponse _ _) as [x|]; [|done].
    cbn [fmap option_fmap option_map]. destruct Htr as (_ & [(-> & _)|[(-> & _)|(-> & Hb)]]); auto. done.
  - assert (no_mutation [SawSnapshot (Ok s); SawProbe (Ok c)]) as Hn by by repeat constructor.
    pose proof (accounts_no_mutation _ _ _ Ha Hn) as ->.
    cbn [fmap option_fmap option_map]. destruct Htr as (_ & [(-> & _)|[(-> & _)|(-> & Hb)]]); auto. done.
  - inversion Ha as [| |? ? ? ? b1 ? Hq Hb]; subst; [done|].
    apply accounts_no_mutation in Hq as ->; [|by repeat constructor].
    destruct Hb as [[-> [(code & Hc & ->)| ->]]|(x & -> & [-> | ->])];
      unfold confirmed, rejected, unknown, NewConfirmedMutationResult, NewRejectedMutationResult,
        NewUnknownMutationResult;
      erewrite own_result_answered by (done || eauto using own_result); cbn; eauto 10.
Qed.
End enforcer.
