(* ===== verification/NftLayout.v ===== *)
(** * The managed layout: what an accepted ruleset does to packets

    A listing that is accepted as managed has just the rules of the fixed layout,
    in their order; read as nft reads a chain, they never drop a source that is
    allowed or protected, and of the others drop those that are banned. *)

From S2P Require Import Prelude GoStd Sha256 Netip NetipParse Identity CoreModel Json JsonDecode JsonRaw Firewall NftRuleset.















