(* ===== verification/NftObservation.v ===== *)
(** * The nftables backend: what its observations mean

    The digest of an observed policy is the one the agent derives from the policy
    it wants; and the observed targets do not depend on the order in which Go
    visits the sets, unless one target has two expiries. *)

From S2P Require Import Prelude GoStd Sha256 Netip NetipParse Identity CoreModel Json JsonDecode Firewall Enforcer IpcCodecs.
From S2P Require Import DecisionTx JsonRaw NftRuleset NftBackend.

(** ** The policy *)
Section policy.
Implicit Types sets : gmap string (list element).
Lemma append_all sets name prefixes :
  foldl (λ sets prefix, <[name := default [] (sets !! name) ++ [MkElement prefix None]]> sets) sets prefixes !! name
  = match prefixes with
    | [] => sets !! name
    | _ => Some (default [] (sets !! name) ++ ((λ p, MkElement p None) <$> prefixes))
    end.
Proof.
  revert sets. induction prefixes as [|p r IH]; intros sets; [done|]. cbn [foldl]. rewrite IH, lookup_insert_eq.
  destruct r; [done|]. cbn. by rewrite <- app_assoc.
Qed.
Lemma append_all_ne sets name name' prefixes :
  name ≠ name' →
  foldl (λ sets prefix, <[name := default [] (sets !! name) ++ [MkElement prefix None]]> sets) sets prefixes !! name'
  = sets !! name'.
Proof.
  intros Hn. revert sets. induction prefixes as [|p r IH]; intros sets; [done|]. cbn [foldl].
  by rewrite IH, lookup_insert_ne.
Qed.
Lemma policyElements_lookup plan name prefixes :
  (name, prefixes) ∈ [("allow_v4", ipv4 (py_allowlist plan)); ("allow_v6", ipv6 (py_allowlist plan));
    ("protected_v4", ipv4 (py_protectedTargets plan)); ("protected_v6", ipv6 (py_protectedTargets plan))] →
  default [] (policyElements plan !! name) = (λ p, MkElement p None) <$> prefixes.
Proof.
  unfold policyElements. cbn [foldl fst snd]. rewrite !elem_of_cons, elem_of_nil.
  intros [[= -> ->]|[[= -> ->]|[[= -> ->]|[[= -> ->]|[]]]]];
    rewrite ?(append_all_ne _ "protected_v6"), ?(append_all_ne _ "protected_v4"), ?(append_all_ne _ "allow_v6") by done;
    rewrite append_all, ?append_all_ne by done; by case_match.
Qed.
Lemma family_parts name prefixes :
  ((λ p, name +:+ "_v4:" +:+ Prefix_String p) <$> ipv4 prefixes)
  ++ ((λ p, name +:+ "_v6:" +:+ Prefix_String p) <$> ipv6 prefixes) ≡ₚ policy_parts name prefixes.
Proof.
  unfold ipv4, ipv6, family, policy_parts. induction prefixes as [|p r IH]; [done|].
  rewrite !filter_cons, fmap_cons, <- IH. clear IH. destruct (Is4 (prefix_ip p)) eqn:H4; cbn [eqb].
  - by rewrite decide_True, decide_False by (done || by intros []).
  - rewrite decide_False, decide_True by (done || by intros []). by rewrite fmap_cons, <- Permutation_middle.
Qed.
Lemma policy_digest_agrees plan :
  policyDigest (policyElements plan) = managedPolicyRelationDigest (py_allowlist plan) (py_protectedTargets plan).
Proof.
  unfold policyDigest, managedPolicyRelationDigest, sha256hex. do 6 f_equal. apply sort_by_unique; [done|].
  cbn [policy_sets fmap list_fmap concat]. 
  rewrite (policyElements_lookup plan "allow_v4" (ipv4 (py_allowlist plan))),
    (policyElements_lookup plan "allow_v6" (ipv6 (py_allowlist plan))),
    (policyElements_lookup plan "protected_v4" (ipv4 (py_protectedTargets plan))),
    (policyElements_lookup plan "protected_v6" (ipv6 (py_protectedTargets plan))) by set_solver.
  rewrite <- !list_fmap_compose, app_nil_r. unfold compose. cbn [el_prefix].
  rewrite <- (family_parts "allow"), <- (family_parts "protected"). by rewrite <- !app_assoc.
Qed.
End policy.

(** ** The targets *)
Lemma scan_scopes_perm l k i f : l ≡ₚ k → scan_scopes l i f = scan_scopes k i f.
Proof.
  intros Hp. revert i f. induction Hp as [|x l k _ IH|x y l|l k m _ IH1 _ IH2]; intros i f; cbn [scan_scopes].
  - done.
  - by rewrite !IH.
  - repeat case_bool_decide; subst; try done; by destruct i, f.
  - by rewrite IH1.
Qed.
Lemma canonical_scopes_perm l k : l ≡ₚ k → canonicalManagedScopes l = canonicalManagedScopes k.
Proof. intros Hp. unfold canonicalManagedScopes. by rewrite (scan_scopes_perm l k). Qed.

Section targets.
Context (sets : gmap string (list element)).

(** The elements of the ban sets with their scopes, in the order of a visit. *)
Definition visited (order : list string) : list (ManagedScope * element) :=
  order ≫= λ name, match set_scope name with
                   | None => []
                   | Some scope => (λ e, (scope, e)) <$> default [] (sets !! name)
                   end.
Definition of_prefix (p : Prefix) (l : list (ManagedScope * element)) : list (ManagedScope * element) :=
  filter (λ x, el_prefix x.2 = p) l.

Lemma observe_sets_visited order :
  observe_sets sets order = foldl (λ all x, observe_element x.1 all x.2) ∅ (visited order).
Proof.
  unfold observe_sets, visited. generalize (∅ : gmap Prefix observed).
  induction order as [|name r IH]; intros all; [done|]. cbn [foldl]. rewrite bind_cons, foldl_app, IH. f_equal.
  destruct (set_scope name) as [scope|]; [|done]. generalize (default [] (sets !! name)). clear. intros l. revert all.
  induction l as [|e l IH]; intros all; [done|]. cbn. apply IH.
Qed.
Lemma observe_lookup (l : list (ManagedScope * element)) p :
  foldl (λ all x, observe_element x.1 all x.2) (∅ : gmap Prefix observed) l !! p
  = match of_prefix p l with
    | [] => None
    | k => Some (MkObserved k.*1 (last (omap (λ x, el_expires x.2) k)))
    end.
Proof.
  induction l as [|x l IH] using rev_ind; [done|]. rewrite foldl_snoc. unfold observe_element at 1. unfold of_prefix in *.
  rewrite filter_app, filter_cons, filter_nil. case_decide as Hp.
  - rewrite <- Hp, lookup_insert_eq. rewrite Hp, IH. destruct (filter _ l) as [|y k] eqn:Hf.
    + cbn. by destruct (el_expires x.2).
    + cbn [app default od_scopes od_expires]. f_equal. f_equal.
      * rewrite !fmap_cons, fmap_app. done.
      * rewrite app_comm_cons, omap_app, last_app. cbn. by destruct (el_expires x.2).
  - rewrite lookup_insert_ne by done. by rewrite app_nil_r.
Qed.

(** One expiry for each target. *)
Definition one_expiry (order : list string) : Prop :=
  ∀ x y, x ∈ visited order → y ∈ visited order → el_prefix x.2 = el_prefix y.2 → el_expires x.2 = el_expires y.2.
Lemma last_same (k : list (ManagedScope * element)) e :
  k ≠ [] → (∀ x, x ∈ k → el_expires x.2 = e) → last (omap (λ x, el_expires x.2) k) = e.
Proof.
  intros Hk. induction k as [|x k _] using rev_ind; [done|]. intros He.
  rewrite omap_app, last_app. cbn. rewrite (He x) by set_solver. destruct e; [done|].
  assert (omap (λ x, el_expires x.2) k = []) as ->; [|done].
  assert (∀ y, y ∈ k → el_expires y.2 = None) as Hn by (intros y Hy; apply He; set_solver).
  clear -Hn. induction k as [|y k IH]; [done|]. cbn. rewrite (Hn y) by set_solver. apply IH. set_solver.
Qed.

(** An observation of a prefix depends on the visited elements up to their order. *)
Definition observed_as (order : list string) (p : Prefix) : option TargetObservation :=
  observe_sets sets order !! p ≫= observation p.
Lemma observed_as_perm o1 o2 p : one_expiry o1 → o1 ≡ₚ o2 → observed_as o1 p = observed_as o2 p.
Proof.
  intros Ho Hp. unfold observed_as. rewrite !observe_sets_visited, !observe_lookup.
  assert (of_prefix p (visited o1) ≡ₚ of_prefix p (visited o2)) as Hv.
  { unfold of_prefix, visited. by rewrite Hp. }
  destruct (of_prefix p (visited o1)) as [|x k] eqn:H1.
  { apply Permutation_nil in Hv. by rewrite Hv. }
  destruct (of_prefix p (visited o2)) as [|x' k'] eqn:H2; [by apply Permutation_nil_r in Hv|].
  assert (∀ y, y ∈ x :: k → el_expires y.2 = el_expires x.2) as He.
  { intros y Hy. assert (x ∈ x :: k) as Hx by set_solver. rewrite <- H1 in Hx, Hy. unfold of_prefix in Hx, Hy.
    apply list_elem_of_filter in Hx as [Hx1 Hx2], Hy as [Hy1 Hy2]. apply Ho; [done..|congruence]. }
  cbn [mbind option_bind]. rewrite (last_same (x :: k) (el_expires x.2)) by done.
  rewrite (last_same (x' :: k') (el_expires x.2)) by (done || intros y Hy; apply He; by rewrite Hv).
  unfold observation, NewTargetObservation. cbn [od_scopes od_expires].
  by rewrite (canonical_scopes_perm (x :: k).*1 (x' :: k').*1) by (by rewrite Hv).
Qed.
End targets.

(** *** The prefixes of a listing *)
Definition element_wf (e : element) : Prop := Prefix_wf (el_prefix e).
Definition sets_wf (sets : gmap string (list element)) : Prop := map_Forall (λ _ l, Forall element_wf l) sets.

Lemma PrefixFrom_wf a n : Addr_wf a → addr_kind a ≠ z0 → Prefix_wf (PrefixFrom a n).
Proof.
  intros Ha Hk. unfold PrefixFrom, Prefix_wf. rewrite bool_decide_false by done. cbn [prefix_ip bitsPlusOne negb andb].
  split; [done|]. split; [|done]. assert (0 ≤ BitLen a) by (unfold BitLen; by destruct (addr_kind a)). case_match; lia.
Qed.
Lemma parseElementPrefix_wf text n p : parseElementPrefix text n = Some p → Prefix_wf p.
Proof.
  unfold parseElementPrefix. intros Hp. apply bind_Some in Hp as (q & Hq & Hp).
  assert (Prefix_wf q ∧ addr_kind (prefix_ip q) ≠ z0) as [Hw Hk].
  { destruct (ParsePrefix text) as [q'|] eqn:He.
    - injection Hq as <-. apply ParsePrefix_wf in He as [Hw Hv]. split; [done|]. intros Hz.
      destruct Hw as (_ & _ & Hw). specialize (Hw Hz). unfold PrefixIsValid in Hv. lia.
    - destruct (ParseAddr _) as [[a z]|] eqn:Ha; [|done]. injection Hq as <-. apply ParseAddr_wf in Ha as [Hw Hk].
      split; [by apply PrefixFrom_wf|done]. }
  apply bind_Some in Hp as (q' & Hq' & Hp). case_match; [done|]. injection Hp as <-.
  case_match; [|by injection Hq' as <-]. case_match; [done|]. injection Hq' as <-. by apply PrefixFrom_wf; [apply Hw|].
Qed.
Lemma canonicalElementPrefix_wf r x : canonicalElementPrefix r = Some x → Prefix_wf x.1.
Proof.
  unfold canonicalElementPrefix. intros Hx.
  repeat (case_match; simplify_eq); apply fmap_Some in Hx as (p & Hp%parseElementPrefix_wf & ->); done.
Qed.
Lemma canonicalSetElement_wf r x : canonicalSetElement r = Some x → Prefix_wf x.1.
Proof.
  unfold canonicalSetElement. destruct (canonicalElementPrefix (Some r)) as [y|] eqn:Hy.
  { intros [= <-]. by eapply canonicalElementPrefix_wf. }
  intros Hx. repeat (case_match; simplify_eq).
  all: apply fmap_Some in Hx as (p & Hp%canonicalElementPrefix_wf & ->); done.
Qed.
Lemma set_elements_wf items now l : set_elements items now = Some l → Forall element_wf l.
Proof.
  revert l. induction items as [|r rest IH]; cbn; intros l Hl; [by injection Hl as <-|].
  apply bind_Some in Hl as ([p e] & Hp%canonicalSetElement_wf & Hl). apply bind_Some in Hl as (x & Hx & Hl).
  apply fmap_Some in Hl as (l' & Hl' & ->). constructor; [|by apply IH].
  repeat (case_match; simplify_eq); done.
Qed.
Lemma nftSetElements_wf body now l : nftSetElements body now = Some l → Forall element_wf l.
Proof.
  unfold nftSetElements. intros Hl. repeat (case_match; simplify_eq); try constructor. by eapply set_elements_wf.
Qed.
Lemma nftElement_wf body now e : nftElement body now = Some e → element_wf e.
Proof.
  unfold nftElement. intros He. case_match; case_match. case_match; [done|].
  apply bind_Some in He as ([q n] & Hp%canonicalElementPrefix_wf & He). repeat (case_match; simplify_eq); done.
Qed.
Lemma append_elements_wf name l s :
  Forall element_wf l → sets_wf (rs_sets s) → sets_wf (rs_sets (append_elements name l s)).
Proof.
  intros Hl Hs. destruct s as [m sl im oc p u d k ss rr sq mk fd]. cbn. apply map_Forall_insert_2; [|done].
  apply Forall_app. split; [|done]. destruct (ss !! name) as [l'|] eqn:Hn; [|constructor]. exact (Hs _ _ Hn).
Qed.
Lemma managed_rule_sets head body s : rs_sets (managed_rule head body s) = rs_sets s.
Proof.
  destruct s as [m sl im oc p u d k ss rr sq mk fd]. unfold managed_rule. cbn [conflict_if count_rule rs_strictLayout].
  by repeat case_match.
Qed.
Lemma conflict_if_sets b s : rs_sets (conflict_if b s) = rs_sets s.
Proof. by destruct s. Qed.
Lemma scan_entry_wf now c e : sets_wf (rs_sets (sc_state c)) → sets_wf (rs_sets (sc_state (scan_entry now c e))).
Proof.
  intros Hs. destruct e as [kind body]. unfold scan_entry, managed_object.
  destruct (_ && _ && bool_decide (nh_name _ = _)); [by destruct (sc_state c)|].
  destruct (_ && _); [|by destruct (sc_state c)].
  case_bool_decide; [|case_bool_decide; [|case_bool_decide; [|destruct (contains _ _)]]]; cbn [sc_state];
    rewrite ?managed_rule_sets, ?conflict_if_sets; try done.
  - destruct (nftSetElements body now) as [l|] eqn:Hl; rewrite ?conflict_if_sets; [|done].
    apply append_elements_wf; [by eapply nftSetElements_wf|by rewrite !conflict_if_sets].
  - destruct (nftElement body now) as [x|] eqn:Hx; rewrite ?conflict_if_sets; [|done].
    apply append_elements_wf; [|by rewrite conflict_if_sets]. constructor; [by eapply nftElement_wf|constructor].
Qed.
Lemma parseRuleset_wf text now s : parseRuleset text now = Ok s → sets_wf (rs_sets s).
Proof.
  unfold parseRuleset. destruct (ruleset_entries text) as [entries|]; [|done]. intros [= <-].
  assert (sets_wf (rs_sets (sc_state (foldl (scan_entry now) (MkScan empty_ruleset ∅ []) entries)))) as Hw.
  { induction entries as [|e l IH] using rev_ind; [apply map_Forall_empty|]. rewrite foldl_snoc. by apply scan_entry_wf. }
  destruct (foldl _ _ _) as [st objects filtered]. cbn [sc_state sc_objects sc_filtered] in *. generalize (canonicalForeignDigest filtered). intros digest. unfold check_managed.
  by destruct st as [[] ? ? ? ? ? ? ? ? ? ? ? ?].
Qed.

(** *** The order of the visit *)
Section order.
Context (sets : gmap string (list element)) (Hwf : sets_wf sets).

Definition observations (order : list string) : list TargetObservation :=
  omap (λ pv, observation pv.1 pv.2) (map_to_list (observe_sets sets order)).
Lemma observation_target p v o : observation p v = Some o → ob_target o = p ∧ canonical p.
Proof.
  unfold observation, NewTargetObservation. intros Ho. destruct (canonicalManagedScopes _) as [scopes|]; [|done].
  destruct (TargetObservation_Validate _) as [u|] eqn:Hv; [|done]. cbn in Ho. injection Ho as <-. split; [done|].
  unfold TargetObservation_Validate in Hv. cbn [ob_target ob_targetValid negb orb] in Hv.
  destruct (validManagedTarget p) eqn:Hn; [|done]. unfold validManagedTarget in Hn. unfold canonical.
  by destruct (not_canonical p).
Qed.
Lemma observations_elem order o : o ∈ observations order ↔ observed_as sets order (ob_target o) = Some o.
Proof.
  unfold observations, observed_as. rewrite list_elem_of_omap. split.
  - intros ([p v] & Hin & Ho). apply elem_of_map_to_list in Hin. destruct (observation_target _ _ _ Ho) as [Ht _].
    cbn in Ht. by rewrite Ht, Hin.
  - intros (v & Hv & Ho)%bind_Some. exists (ob_target o, v). split; [by apply elem_of_map_to_list|done].
Qed.
Lemma observations_NoDup order : NoDup (observations order).
Proof.
  apply (NoDup_fmap_1 ob_target). unfold observations. pose proof (NoDup_fst_map_to_list (observe_sets sets order)) as Hn.
  induction (map_to_list _) as [|[p v] l IH]; [constructor|]. cbn in *. apply NoDup_cons in Hn as [Hp Hn].
  destruct (observation p v) as [o|] eqn:Ho; [|by apply IH]. cbn. constructor; [|by apply IH].
  destruct (observation_target _ _ _ Ho) as [-> _]. contradict Hp. apply list_elem_of_fmap in Hp as (o' & -> & Hin).
  apply list_elem_of_omap in Hin as ([q u] & Hin & Ho'). destruct (observation_target _ _ _ Ho') as [-> _].
  apply list_elem_of_fmap. by exists (q, u).
Qed.
Lemma observed_wf order p o : observed_as sets order p = Some o → Prefix_wf p ∧ canonical p.
Proof.
  unfold observed_as. intros (v & Hv & Ho)%bind_Some. destruct (observation_target _ _ _ Ho) as [_ Hc].
  split; [|done]. rewrite observe_sets_visited, observe_lookup in Hv.
  destruct (of_prefix p (visited sets order)) as [|x k] eqn:Hf; [done|].
  assert (x ∈ of_prefix p (visited sets order)) as Hx by (rewrite Hf; set_solver).
  unfold of_prefix, visited in Hx. apply list_elem_of_filter in Hx as [<- Hx].
  apply list_elem_of_bind in Hx as (name & Hx & _). destruct (set_scope name); [|by apply elem_of_nil in Hx].
  apply list_elem_of_fmap in Hx as (e & -> & He). destruct (sets !! name) as [l|] eqn:Hl; [|by apply elem_of_nil in He].
  by eapply Forall_forall in He; [|apply (Hwf name l Hl)].
Qed.

(** While each target has one expiry, the observed targets do not depend on the
    order in which the sets are visited. *)
Theorem targetObservations_order o1 o2 :
  one_expiry sets o1 → o1 ≡ₚ o2 → targetObservations sets o1 = targetObservations sets o2.
Proof.
  intros Hone Hp. apply sort_by_unique.
  - intros x y Hx%observations_elem Hy%observations_elem Hk.
    destruct (observed_wf _ _ _ Hx) as [Wx Cx], (observed_wf _ _ _ Hy) as [Wy Cy].
    apply Prefix_String_inj in Hk; [|done..]. rewrite Hk in Hx. congruence.
  - apply NoDup_Permutation; [apply (observations_NoDup o1)|apply (observations_NoDup o2)|]. intros o.
    fold (observations o1) (observations o2). rewrite !observations_elem. by rewrite (observed_as_perm sets o1 o2).
Qed.
End order.
