(* ===== verification/NftLab.v ===== *)
(** * The nftables backend on a ruleset

    A host with the managed table, as nft 1.0.6 lists it, and a runner that
    answers with listings: what the backend observes, sends and answers. *)

From S2P Require Import Prelude GoStd Sha256 Netip NetipParse Identity CoreModel Json JsonDecode Firewall Enforcer JsonRaw.
From S2P Require Import NftRuleset NftBackend NftLayout.

Module nft_lab.
Definition obj (kind body : string) : string := "{'" +:+ kind +:+ "': {'family': 'inet', 'table': 'guard', " +:+ body +:+ "}}".
Definition set_ (name type flags elem : string) : string :=
  obj "set" ("'name': '" +:+ name +:+ "', 'handle': 3, 'type': '" +:+ type +:+ "', 'flags': [" +:+ flags +:+ "]" +:+ elem).
Definition chain_ (name hook : string) : string := obj "chain" ("'name': '" +:+ name +:+ "', 'handle': 2" +:+ hook).
Definition hook_ (name : string) : string := ", 'type': 'filter', 'hook': '" +:+ name +:+ "', 'prio': 0, 'policy': 'accept'".
Definition rule_ (chain protocol set verdict : string) : string :=
  obj "rule" ("'chain': '" +:+ chain +:+ "', 'handle': 9, 'expr': [{'match': {'op': '==', 'left': {'payload': {'protocol': '"
    +:+ protocol +:+ "', 'field': 'saddr'}}, 'right': '@" +:+ set +:+ "'}}, {'" +:+ verdict +:+ "': null}]").
Definition marker_ (comment : string) : string :=
  obj "rule" ("'chain': 'guard_policy', 'handle': 8, 'comment': '" +:+ comment +:+ "', 'expr': [{'counter': {'packets': 7, 'bytes': 420}}]").
Definition rules_ (chain : string) : list string :=
  let ban := "ban_" +:+ chain in
  [rule_ chain "ip" "allow_v4" "return"; rule_ chain "ip" "protected_v4" "return"; rule_ chain "ip" (ban +:+ "_v4") "drop";
   rule_ chain "ip6" "allow_v6" "return"; rule_ chain "ip6" "protected_v6" "return"; rule_ chain "ip6" (ban +:+ "_v6") "drop"].
(** [v4] and [v6] are the protected elements, [banned] those of ban_input_v4. *)
Definition guard_table (markers : list string) (v4 v6 banned_input banned_forward : string) : list string :=
  ["{'table': {'family': 'inet', 'name': 'guard', 'handle': 1}}";
   set_ "allow_v4" "ipv4_addr" "'interval'" ""; set_ "allow_v6" "ipv6_addr" "'interval'" "";
   set_ "protected_v4" "ipv4_addr" "'interval'" v4; set_ "protected_v6" "ipv6_addr" "'interval'" v6;
   set_ "ban_input_v4" "ipv4_addr" "'interval', 'timeout'" banned_input;
   set_ "ban_input_v6" "ipv6_addr" "'interval', 'timeout'" "";
   set_ "ban_forward_v4" "ipv4_addr" "'interval', 'timeout'" banned_forward;
   set_ "ban_forward_v6" "ipv6_addr" "'interval', 'timeout'" "";
   chain_ "guard_policy" ""; chain_ "input" (hook_ "input"); chain_ "forward" (hook_ "forward")]
  ++ (marker_ <$> markers) ++ rules_ "input" ++ rules_ "forward".
Definition metainfo : string := "{'metainfo': {'version': '1.0.6', 'json_schema_version': 1}}".
Definition listing (objects : list string) : list Z :=
  json_bytes ("{'nftables': [" +:+ strings_Join ", " (metainfo :: objects) +:+ "]}").
Definition now : time := of_UnixMicro 1700000000250000.
Definition ban (expires : string) : string :=
  ", 'elem': [{'elem': {'val': '203.0.113.7', 'timeout': 600, 'expires': " +:+ expires +:+ "}}]".

(** A host that shows one listing until a batch is run, and another one after. *)
Record host := MkHost { before : list Z; after : list Z; ran : bool }.
#[local] Instance host_runner : NftRunner host := {
  nr_run := λ stdin args h,
    if bool_decide (args = ["--version"]) then (Ok (string_bytes ("nftables v1.0.6 (Lester Gooch #5)" +:+ newline)), h)
    else if bool_decide (args = ["--file"; "-"]) then (Ok [], MkHost (before h) (after h) true)
    else (Ok (if ran h then after h else before h), h);
  nr_Done := λ h, (false, h);
  nr_Now := λ h, (now, h);
  nr_Order := λ keys h, (keys, h)
}.
Definition bare : list Z := listing [].
Definition installed : list Z := listing (guard_table [infrastructureComment] "" "" "" "").
Definition fresh_host : nft host := MkNft (MkHost bare installed false) [].
(** The agent observes the host, is authorized and applies; and the commands. *)
Definition install (h : nft host) : option (string * list (list Z)) :=
  match Probe false h with
  | (Ok c, h) =>
    match Snapshot false h with
    | (Ok s, h) =>
      match AuthorizeInfrastructureMutation c s (sp_digest s) 1 with
      | Ok plan => let '(r, h) := Apply false false plan h in Some (mr_status r, nc_stdin <$> nf_trace h)
      | Err _ => None
      end
    | _ => None
    end
  | _ => None
  end.
(** A ban whose remaining time is listed with one second more in one of the sets. *)
Definition uneven : gmap string (list element) :=
  match parseRuleset (listing (guard_table [infrastructureComment; policyComment] "" "" (ban "599") (ban "600"))) now with
  | Ok s => rs_sets s
  | Err _ => ∅
  end.
End nft_lab.

(** The infrastructure is installed with the one batch, between five readings
    before it and one after. *)
Example lab_install :
  nft_lab.install nft_lab.fresh_host
  = Some (MutationStatusConfirmed, [[]; string_bytes infrastructureBatch; []; []; []; []; []; []]).
Proof. vm_compute. reflexivity. Qed.

(** The order in which Go visits the sets shows in the observed targets when
    the two sets of a target were listed with different expiries, which the
    digest of the snapshot then depends on. *)
Theorem observation_depends_on_map_order :
  targetObservations nft_lab.uneven managedSets ≠ targetObservations nft_lab.uneven (reverse managedSets)
  ∧ managedSets ≡ₚ reverse managedSets.
Proof. split; [vm_compute; discriminate|symmetry; apply reverse_Permutation]. Qed.

(** Every address of the network 0.0.0.0/0 listed with its length reads as the
    one address 0.0.0.0. *)
Theorem zero_length_prefix_is_a_host :
  canonicalElementPrefix (raw_of (json_bytes "{'prefix': {'addr': '0.0.0.0', 'len': 0}}"))
  = Some (PrefixFrom (ip4 0 0 0 0) 32, None).
Proof. vm_compute. reflexivity. Qed.


