(* ===== verification/WakeQueue.v ===== *)
(** * The dispatcher's wake queue (internal/reconcile/dispatcher.go: Wake, Run, markDequeued)

    Goroutines that call Wake and the single worker of Run, interleaved at every
    lock and channel operation. A reservation is shared between the goroutines
    that wake the same key; it is open until its owner closes it with an error
    or nil. The worker receives a key only when its ready list is empty, marks it
    dequeued under the lock, and dispatches the keys of the ready list in order;
    startup, health recovery, retry deadlines and reruns add to that list too
    (MakeReady). It neither receives nor dispatches while the startup recovery is
    pending or the backend is degraded. *)

From S2P Require Import Prelude GoStd GoFmt Netip Identity CoreModel ReconcilePlan Controller.

Definition ErrDispatcherStopped : error := Errorf "reconcile dispatcher is stopped".
Definition reconcileKeyName (key : ReconcileKey) : string :=
  match rk_Domain key with
  | DomainTarget => "target/" +:+ Prefix_String (rk_Target key)
  | domain => "domain/" +:+ itoa (Domain_num domain)
  end.
Definition validateReconcileKey (key : ReconcileKey) : result unit :=
  match rk_Domain key with
  | DomainInfrastructure | DomainPolicy =>
    fail_if (PrefixIsValid (rk_Target key)) (Errorf (reconcileKeyName key +:+ " key must not include a target"))
  | DomainTarget =>
    fail_if (not_canonical (rk_Target key)) (Errorf "target reconcile key must contain one canonical target")
  | DomainOther n => Err (Errorf ("reconcile key has invalid domain " +:+ itoa n))
  end.

(** A call of Wake. [since]: how often its key had been dispatched when the call
    began. *)
Inductive phase :=
  | Looking
  | Waiting (reservation : nat)
  | Sending (reservation : nat)
  | Closing (reservation : nat) (err : option error)
  | Returned (err : option error).
Record call := MkCall { wk_key : ReconcileKey; wk_since : nat; wk_phase : phase }.

Record wakes := MkWakes {
  wq_capacity : nat;
  wq_queue : list ReconcileKey;
  wq_queued : gmap ReconcileKey nat;
  wq_closed : gmap nat (option error);
  wq_next : nat;
  wq_calls : gmap nat call;
  wq_hand : option ReconcileKey;
  wq_ready : list ReconcileKey;
  wq_dispatched : ReconcileKey → nat;
  wq_stopped : bool;
  wq_done : bool
}.
Definition newWakes (capacity : nat) : wakes := MkWakes capacity [] ∅ ∅ 0 ∅ None [] (λ _, 0%nat) false false.

Definition set_calls (s : wakes) (calls : gmap nat call) : wakes :=
  MkWakes (wq_capacity s) (wq_queue s) (wq_queued s) (wq_closed s) (wq_next s) calls (wq_hand s) (wq_ready s)
    (wq_dispatched s) (wq_stopped s) (wq_done s).
Definition set_queued (s : wakes) (queued : gmap ReconcileKey nat) : wakes :=
  MkWakes (wq_capacity s) (wq_queue s) queued (wq_closed s) (wq_next s) (wq_calls s) (wq_hand s) (wq_ready s)
    (wq_dispatched s) (wq_stopped s) (wq_done s).
(** The keys on their way to a dispatch: the channel, the worker's hand and its
    ready list. *)
Definition set_way (s : wakes) (queue : list ReconcileKey) (hand : option ReconcileKey) (ready : list ReconcileKey) : wakes :=
  MkWakes (wq_capacity s) queue (wq_queued s) (wq_closed s) (wq_next s) (wq_calls s) hand ready
    (wq_dispatched s) (wq_stopped s) (wq_done s).
Definition set_end (s : wakes) (stopped done : bool) : wakes :=
  MkWakes (wq_capacity s) (wq_queue s) (wq_queued s) (wq_closed s) (wq_next s) (wq_calls s) (wq_hand s) (wq_ready s)
    (wq_dispatched s) stopped done.
Definition markDequeued (key : ReconcileKey) (s : wakes) : wakes := set_queued s (delete key (wq_queued s)).
Definition enter (p : nat) (c : call) (ph : phase) (s : wakes) : wakes :=
  set_calls s (<[p := MkCall (wk_key c) (wk_since c) ph]> (wq_calls s)).

(** What happens next: a call of Wake by goroutine [p], or a step of one; a step
    of the worker; or its end. *)
Inductive wake_action :=
  | CallWake (p : nat) (key : ReconcileKey)
  | Lookup (p : nat)
  | SeeClosed (p : nat)
  | Cancelled (p : nat) (err : error)
  | SeeDone (p : nat)
  | Send (p : nat)
  | Close (p : nat)
  | Receive
  | MarkDequeued
  | MakeReady (key : ReconcileKey)
  | Dispatch
  | SetStopped
  | CloseDone.

(** The queue, the calls of Wake and what a step of the worker does to them; when
    the worker may take a step is decided below. *)
Definition queue_step (a : wake_action) (s : wakes) : option wakes :=
  match a with
  | CallWake p key =>
    match wq_calls s !! p with
    | Some (MkCall _ _ (Returned _)) | None =>
      let returned e := set_calls s (<[p := MkCall key (wq_dispatched s key) (Returned (Some e))]> (wq_calls s)) in
      match validateReconcileKey key with
      | Err e => Some (returned e)
      | Ok _ =>
        if wq_stopped s then Some (returned ErrDispatcherStopped)
        else Some (set_calls s (<[p := MkCall key (wq_dispatched s key) Looking]> (wq_calls s)))
      end
    | _ => None
    end
  | Lookup p =>
    c ← wq_calls s !! p;
    match wk_phase c with
    | Looking =>
      match wq_queued s !! wk_key c with
      | Some reservation => Some (enter p c (Waiting reservation) s)
      | None =>
        Some (MkWakes (wq_capacity s) (wq_queue s) (<[wk_key c := wq_next s]> (wq_queued s)) (wq_closed s)
                (S (wq_next s)) (<[p := MkCall (wk_key c) (wk_since c) (Sending (wq_next s))]> (wq_calls s))
                (wq_hand s) (wq_ready s) (wq_dispatched s) (wq_stopped s) (wq_done s))
      end
    | _ => None
    end
  | SeeClosed p =>
    c ← wq_calls s !! p;
    match wk_phase c with
    | Waiting reservation =>
      err ← wq_closed s !! reservation;
      Some (enter p c (match err with None => Returned None | Some _ => Looking end) s)
    | _ => None
    end
  | Cancelled p e =>
    c ← wq_calls s !! p;
    match wk_phase c with
    | Waiting _ => Some (enter p c (Returned (Some e)) s)
    | Sending reservation => Some (enter p c (Closing reservation (Some e)) s)
    | _ => None
    end
  | SeeDone p =>
    c ← wq_calls s !! p;
    if negb (wq_done s) then None
    else match wk_phase c with
    | Waiting _ => Some (enter p c (Returned (Some ErrDispatcherStopped)) s)
    | Sending reservation => Some (enter p c (Closing reservation (Some ErrDispatcherStopped)) s)
    | _ => None
    end
  | Send p =>
    c ← wq_calls s !! p;
    match wk_phase c with
    | Sending reservation =>
      if (length (wq_queue s) <? wq_capacity s)%nat
      then Some (enter p c (Closing reservation None)
                   (set_way s (wq_queue s ++ [wk_key c]) (wq_hand s) (wq_ready s)))
      else None
    | _ => None
    end
  | Close p =>
    c ← wq_calls s !! p;
    match wk_phase c with
    | Closing reservation err =>
      let queued :=
        if bool_decide (wq_queued s !! wk_key c = Some reservation) && negb (is_nil err)
        then delete (wk_key c) (wq_queued s) else wq_queued s in
      Some (MkWakes (wq_capacity s) (wq_queue s) queued (<[reservation := err]> (wq_closed s)) (wq_next s)
              (<[p := MkCall (wk_key c) (wk_since c) (Returned err)]> (wq_calls s))
              (wq_hand s) (wq_ready s) (wq_dispatched s) (wq_stopped s) (wq_done s))
    | _ => None
    end
  | Receive =>
    match wq_hand s, wq_ready s, wq_queue s with
    | None, [], key :: rest => if wq_stopped s then None else Some (set_way s rest (Some key) [])
    | _, _, _ => None
    end
  | MarkDequeued =>
    key ← wq_hand s;
    Some (set_way (markDequeued key s) (wq_queue s) None (wq_ready s ++ [key]))
  | MakeReady key =>
    match wq_hand s with
    | None => if wq_stopped s then None else Some (set_way s (wq_queue s) None (wq_ready s ++ [key]))
    | Some _ => None
    end
  | Dispatch =>
    match wq_hand s, wq_ready s with
    | None, key :: rest =>
      if wq_stopped s then None
      else Some (MkWakes (wq_capacity s) (wq_queue s) (wq_queued s) (wq_closed s) (wq_next s) (wq_calls s)
                   None rest (λ k, (wq_dispatched s k + if bool_decide (k = key) then 1 else 0)%nat)
                   false (wq_done s))
    | _, _ => None
    end
  | SetStopped =>
    match wq_hand s with
    | None => Some (set_end s true (wq_done s))
    | Some _ => None
    end
  | CloseDone => if wq_stopped s && negb (wq_done s) then Some (set_end s true true) else None
  end.
Fixpoint run_wakes (actions : list wake_action) (s : wakes) : option wakes :=
  match actions with
  | [] => Some s
  | a :: rest => s' ← queue_step a s; run_wakes rest s'
  end.

(** ** The worker's gate (Run)

    [gt_select]: the worker is in its select, with the case of the queue open or
    not; otherwise it is at the top of its loop or in a case. [gt_token]: the
    healthChanged channel holds a token. *)
Record gate := MkGate { gt_startupPending : bool; gt_degraded : bool; gt_token : bool; gt_select : option bool }.
Record wake_state := MkWakeState { ws_wakes : wakes; ws_gate : gate }.
(** Until the startup recovery is through it is pending. *)
Definition newWakeState (capacity : nat) : wake_state := MkWakeState (newWakes capacity) (MkGate true false false None).
Definition gate_open (g : gate) : bool := negb (gt_startupPending g) && negb (gt_degraded g).
Definition in_select (g : gate) : bool := negb (is_nil (gt_select g)).
Definition set_select (g : gate) (select : option bool) : gate :=
  MkGate (gt_startupPending g) (gt_degraded g) (gt_token g) select.
(** A dispatch looks at the health again, under the lock it then holds. *)
Definition admits (a : wake_action) (g : gate) : bool :=
  match a with
  | Receive => bool_decide (gt_select g = Some true)
  | Dispatch => negb (in_select g) && gate_open g
  | MarkDequeued | MakeReady _ => negb (in_select g)
  | _ => true
  end.

Inductive wake_event :=
  | Step (a : wake_action)
  | TopOfLoop
  | TakeToken
  | Timer
  | StartupRecovered (probed : bool)
  | RecordHealth (degraded notify : bool).
Definition wake_step (x : wake_event) (s : wake_state) : option wake_state :=
  let w := ws_wakes s in let g := ws_gate s in
  match x with
  | Step a =>
    if negb (admits a g) then None
    else w' ← queue_step a w;
         Some (MkWakeState w' (match a with Receive => set_select g None | _ => g end))
  | TopOfLoop =>
    if in_select g || wq_stopped w || negb (is_nil (wq_hand w)) then None
    else if gate_open g && negb (bool_decide (wq_ready w = [])) then None
    else Some (MkWakeState w (set_select g (Some (gate_open g))))
  | TakeToken =>
    if in_select g && gt_token g
    then Some (MkWakeState w (MkGate (gt_startupPending g) (gt_degraded g) false None)) else None
  | Timer => if in_select g then Some (MkWakeState w (set_select g None)) else None
  | StartupRecovered probed =>
    if in_select g || negb (is_nil (wq_hand w)) || wq_stopped w then None
    else Some (MkWakeState w (MkGate false (gt_degraded g && negb probed) (gt_token g) None))
  | RecordHealth degraded notify =>
    if negb notify && in_select g then None
    else Some (MkWakeState w (MkGate (gt_startupPending g) degraded (gt_token g || notify) (gt_select g)))
  end.
Fixpoint run_events (events : list wake_event) (s : wake_state) : option wake_state :=
  match events with
  | [] => Some s
  | x :: rest => s' ← wake_step x s; run_events rest s'
  end.

(** ** The wake sinks (target_wake.go): a sink of one node turns a wake into a call
    of Wake by the same goroutine. *)
Definition NewWakeSink (nodeID : NodeID) (what : string) : result NodeID :=
  fail_if (is_empty nodeID) (Errorf ("dispatcher " +:+ what +:+ " wake node id is required"));; Ok nodeID.
Definition WakeTarget (sink nodeID : NodeID) (target : Prefix) (p : nat) : result wake_action :=
  fail_if (negb (bool_decide (nodeID = sink))) (Errorf "dispatcher target wake node mismatch");;
  Ok (CallWake p (MkReconcileKey DomainTarget target)).
Definition WakePolicy (sink nodeID : NodeID) (p : nat) : result wake_action :=
  fail_if (negb (bool_decide (nodeID = sink))) (Errorf "dispatcher policy wake node mismatch");;
  Ok (CallWake p (MkReconcileKey DomainPolicy zero_prefix)).

(** ** The invariant *)

(** Keys sent and not yet marked dequeued. *)
Definition sent (s : wakes) : list ReconcileKey := option_list (wq_hand s) ++ wq_queue s.
(** A call whose reservation can still fail, and one whose reservation is open. *)
Definition owns (c : call) (r : nat) : Prop :=
  match wk_phase c with Sending r' | Closing r' (Some _) => r' = r | _ => False end.
Definition holds (c : call) (r : nat) : Prop :=
  match wk_phase c with Sending r' | Closing r' _ => r' = r | _ => False end.
(** The key is on its way to a dispatch, or was dispatched more than [n] times. *)
Definition served (s : wakes) (key : ReconcileKey) (n : nat) : Prop :=
  key ∈ sent s ++ wq_ready s ∨ (n < wq_dispatched s key)%nat.
Definition promised (s : wakes) (c : call) : Prop :=
  match wk_phase c with
  | Closing _ None | Returned None => served s (wk_key c) (wk_since c)
  | Waiting r =>
    served s (wk_key c) (wk_since c) ∨ (∃ e, wq_closed s !! r = Some (Some e))
    ∨ ∃ q d, wq_calls s !! q = Some d ∧ wk_key d = wk_key c ∧ owns d r
  | _ => True
  end.

Record wake_inv (s : wakes) : Prop := {
  wi_bound : (length (wq_queue s) ≤ wq_capacity s)%nat;
  wi_nodup : NoDup (sent s);
  wi_sent : ∀ k, k ∈ sent s → is_Some (wq_queued s !! k);
  wi_open : ∀ p c r, wq_calls s !! p = Some c → holds c r → (r < wq_next s)%nat ∧ wq_closed s !! r = None;
  wi_one : ∀ p q c d r, wq_calls s !! p = Some c → wq_calls s !! q = Some d → holds c r → holds d r → p = q;
  wi_own : ∀ p c r, wq_calls s !! p = Some c → owns c r → wq_queued s !! wk_key c = Some r ∧ wk_key c ∉ sent s;
  wi_queued : ∀ k r, wq_queued s !! k = Some r →
    k ∈ sent s ∨ ∃ p c, wq_calls s !! p = Some c ∧ wk_key c = k ∧ owns c r;
  wi_closed : ∀ r e, wq_closed s !! r = Some e → (r < wq_next s)%nat;
  wi_since : ∀ p c, wq_calls s !! p = Some c → (wk_since c ≤ wq_dispatched s (wk_key c))%nat;
  wi_promised : ∀ p c, wq_calls s !! p = Some c → promised s c
}.

Lemma newWakes_inv capacity : wake_inv (newWakes capacity).
Proof. split; cbn; intros; rewrite ?lookup_empty in *; try done; [lia | constructor | set_solver]. Qed.

Lemma owns_holds c r : owns c r → holds c r.
Proof. unfold owns, holds. by destruct (wk_phase c) as [| | |? []|]. Qed.

(** ** Steps of one call *)

(** A call without a reservation that stays without one. *)
Lemma inv_free_call s p c :
  wake_inv s → (∀ c0, wq_calls s !! p = Some c0 → ∀ r, ¬ owns c0 r) →
  (∀ r, ¬ holds c r) → (wk_since c ≤ wq_dispatched s (wk_key c))%nat → promised s c →
  wake_inv (set_calls s (<[p := c]> (wq_calls s))).
Proof.
  intros [] Hold Hfree Hsince Hp.
  assert (Hin : ∀ k r, (∃ q d, wq_calls s !! q = Some d ∧ wk_key d = k ∧ owns d r) →
      ∃ q d, <[p := c]> (wq_calls s) !! q = Some d ∧ wk_key d = k ∧ owns d r).
  { intros k r (q & d & Hq & Hk & Ho). exists q, d. rewrite lookup_insert_ne; [done|].
    intros <-. by apply (Hold _ Hq r). }
  assert (Hpr : ∀ d, promised s d → promised (set_calls s (<[p := c]> (wq_calls s))) d).
  { intros d. unfold promised. destruct (wk_phase d) as [|r| |? []|[]]; try done.
    intros [?|[?|?]]; eauto. }
  split; cbn; try done.
  - intros q d r [[-> <-]|[_ ?]]%lookup_insert_Some Hd; [by destruct (Hfree r) | eauto].
  - intros q q' d d' r [[-> <-]|[_ ?]]%lookup_insert_Some [[-> <-]|[_ ?]]%lookup_insert_Some Hd Hd';
      try by destruct (Hfree r). eauto.
  - intros q d r [[-> <-]|[_ ?]]%lookup_insert_Some Hd; [by destruct (Hfree r (owns_holds _ _ Hd)) | eauto].
  - intros k r [?|?]%wi_queued0; eauto.
  - intros q d [[-> <-]|[_ ?]]%lookup_insert_Some; eauto.
  - intros q d [[-> <-]|[_ ?]]%lookup_insert_Some; eauto.
Qed.

Ltac at_call := intros * [[<- <-]|[? ?]]%lookup_insert_Some.

(** A call that keeps its reservation. *)
Lemma inv_own_call s p c0 c r :
  wake_inv s → wq_calls s !! p = Some c0 → wk_key c = wk_key c0 → wk_since c = wk_since c0 →
  owns c0 r → owns c r → wake_inv (set_calls s (<[p := c]> (wq_calls s))).
Proof.
  intros [] Hc0 Hk Hs Ho0 Ho.
  assert (Hh : ∀ r', holds c r' → r' = r).
  { intros r'. revert Ho. unfold owns, holds. destruct (wk_phase c) as [| | |? []|]; naive_solver. }
  assert (Hin : ∀ k r', (∃ q d, wq_calls s !! q = Some d ∧ wk_key d = k ∧ owns d r') →
      ∃ q d, <[p := c]> (wq_calls s) !! q = Some d ∧ wk_key d = k ∧ owns d r').
  { intros k r' (q & d & Hq & Hkd & Hod). destruct (decide (p = q)) as [<-|Hne].
    - assert (d = c0) as -> by congruence. exists p, c. rewrite lookup_insert_eq. split; [done|]. split; [congruence|].
      revert Ho Ho0 Hod. unfold owns. destruct (wk_phase c) as [| | |? []|], (wk_phase c0) as [| | |? []|]; naive_solver.
    - exists q, d. by rewrite lookup_insert_ne. }
  pose proof (owns_holds _ _ Ho0) as Hh0.
  split; cbn; try done.
  - at_call; intros Hd; [rewrite (Hh _ Hd)|]; eauto.
  - intros q q' d d' r' [[<- <-]|[? Hq]]%lookup_insert_Some [[<- <-]|[? Hq']]%lookup_insert_Some Hd Hd'; [done| | |].
    + rewrite (Hh _ Hd) in Hd'. eauto.
    + rewrite (Hh _ Hd') in Hd. eauto.
    + eauto.
  - at_call; intros Hd; [rewrite Hk, (Hh _ (owns_holds _ _ Hd))|]; eauto.
  - intros k r' [?|?]%wi_queued0; eauto.
  - at_call; [rewrite Hk, Hs|]; eauto.
  - at_call.
    + revert Ho. unfold owns, promised. destruct (wk_phase c) as [| | |? []|]; naive_solver.
    + specialize (wi_promised0 _ _ H0). revert wi_promised0. unfold promised.
      destruct (wk_phase c1) as [| | |? []|[]]; try done. intros [?|[?|?]]; eauto.
Qed.

(** The first wake of a key reserves it. *)
Lemma inv_reserve s p c :
  wake_inv s → wq_calls s !! p = Some c → wk_phase c = Looking → wq_queued s !! wk_key c = None →
  wake_inv (MkWakes (wq_capacity s) (wq_queue s) (<[wk_key c := wq_next s]> (wq_queued s)) (wq_closed s)
              (S (wq_next s)) (<[p := MkCall (wk_key c) (wk_since c) (Sending (wq_next s))]> (wq_calls s))
              (wq_hand s) (wq_ready s) (wq_dispatched s) (wq_stopped s) (wq_done s)).
Proof.
  intros [] Hc Hph Hnone.
  assert (Hnext : wq_closed s !! wq_next s = None).
  { destruct (wq_closed s !! wq_next s) eqn:He; [|done]. apply wi_closed0 in He. lia. }
  assert (Hns : wk_key c ∉ sent s). { intros [? ?]%wi_sent0. congruence. }
  assert (Hin : ∀ k r, (∃ q d, wq_calls s !! q = Some d ∧ wk_key d = k ∧ owns d r) →
      ∃ q d, <[p := MkCall (wk_key c) (wk_since c) (Sending (wq_next s))]> (wq_calls s) !! q = Some d
             ∧ wk_key d = k ∧ owns d r).
  { intros k r (q & d & Hq & Hk & Ho). exists q, d. rewrite lookup_insert_ne; [done|].
    intros <-. revert Ho. simplify_eq. unfold owns. by rewrite Hph. }
  split; cbn; try done.
  - intros k Hk. rewrite lookup_insert_ne; [by apply wi_sent0|]. intros <-. done.
  - at_call; cbn; intros Hd; [subst; split; [lia|done]|]. destruct (wi_open0 _ _ _ H0 Hd). split; [lia|done].
  - intros q q' d d' r [[<- <-]|[? Hq]]%lookup_insert_Some [[<- <-]|[? Hq']]%lookup_insert_Some Hd Hd'; [done| | |].
    + cbn in Hd. subst. destruct (wi_open0 _ _ _ Hq' Hd'). lia.
    + cbn in Hd'. subst. destruct (wi_open0 _ _ _ Hq Hd). lia.
    + eauto.
  - at_call; cbn; intros Hd; [subst; by rewrite lookup_insert_eq|].
    destruct (wi_own0 _ _ _ H0 Hd) as [Hl ?]. split; [|done]. rewrite lookup_insert_ne; [done|]. congruence.
  - intros k r [[<- <-]|[? Hk]]%lookup_insert_Some.
    + right. exists p, (MkCall (wk_key c) (wk_since c) (Sending (wq_next s))). by rewrite lookup_insert_eq.
    + destruct (wi_queued0 _ _ Hk); eauto.
  - intros r e Hr%wi_closed0. lia.
  - at_call; eauto. cbn. eauto.
  - at_call; [done|]. specialize (wi_promised0 _ _ H0). revert wi_promised0. unfold promised.
    destruct (wk_phase c0) as [| | |? []|[]]; try done. intros [?|[?|?]]; eauto.
Qed.

(** The send. *)
Lemma inv_send s p c r :
  wake_inv s → wq_calls s !! p = Some c → wk_phase c = Sending r →
  (length (wq_queue s) < wq_capacity s)%nat →
  wake_inv (enter p c (Closing r None) (set_way s (wq_queue s ++ [wk_key c]) (wq_hand s) (wq_ready s))).
Proof.
  intros [] Hc Hph Hlen.
  assert (Ho : owns c r) by (unfold owns; by rewrite Hph).
  destruct (wi_own0 _ _ _ Hc Ho) as [Hq Hns].
  set (s' := enter _ _ _ _).
  assert (Hsent : sent s' = sent s ++ [wk_key c]) by (unfold sent; cbn; by rewrite app_assoc).
  assert (Hserved : ∀ k n, served s k n → served s' k n).
  { intros k n. unfold served. rewrite Hsent. cbn. set_solver. }
  assert (Hin : ∀ k r', (∃ q d, wq_calls s !! q = Some d ∧ wk_key d = k ∧ owns d r') → k ∈ sent s' ∨
      ∃ q d, wq_calls s' !! q = Some d ∧ wk_key d = k ∧ owns d r').
  { intros k r' (q & d & Hqd & Hk & Hod). destruct (decide (p = q)) as [<-|Hne].
    - left. rewrite Hsent. simplify_eq. set_solver.
    - right. exists q, d. cbn. by rewrite lookup_insert_ne. }
  assert (Hh : ∀ r', holds (MkCall (wk_key c) (wk_since c) (Closing r None)) r' → holds c r').
  { intros r'. unfold holds. by rewrite Hph. }
  split; try done.
  - cbn. rewrite length_app. cbn. lia.
  - rewrite Hsent. apply NoDup_app. split; [done|]. split; [|apply NoDup_singleton]. set_solver.
  - intros k. rewrite Hsent. cbn. intros [?|Hk%list_elem_of_singleton]%elem_of_app; [|rewrite Hk]; eauto.
  - cbn. at_call; intros Hd; eauto.
  - cbn. intros q q' d d' r' [[<- <-]|[? Hq1]]%lookup_insert_Some [[<- <-]|[? Hq2]]%lookup_insert_Some Hd Hd';
      [done|apply Hh in Hd|apply Hh in Hd'|]; eauto.
  - cbn. at_call; intros Hd; [done|]. destruct (wi_own0 _ _ _ H0 Hd) as [Hl ?]. split; [done|].
    rewrite Hsent. intros [?|Heq%list_elem_of_singleton]%elem_of_app; [done|].
    apply H. apply (wi_one0 _ _ _ _ r Hc H0); [by apply owns_holds|].
    rewrite Heq in Hl. assert (r0 = r) as -> by congruence. by apply owns_holds.
  - intros k r' [?|?]%wi_queued0; [left; rewrite Hsent; set_solver|eauto].
  - cbn. at_call; eauto. cbn. eauto.
  - cbn [wq_calls s' enter set_calls]. at_call.
    + unfold promised, served; cbn. left. fold s'. rewrite Hsent. set_solver.
    + specialize (wi_promised0 _ _ H0). revert wi_promised0. unfold promised.
      destruct (wk_phase c0) as [| | |? []|[]]; try by eauto.
      intros [?|[?|Hex]]; [eauto|eauto|]. destruct (Hin _ _ Hex) as [?|?]; [|eauto].
      left. left. set_solver.
Qed.

(** Closing the reservation: a failed one is withdrawn first. *)
Lemma inv_close s p c r err :
  wake_inv s → wq_calls s !! p = Some c → wk_phase c = Closing r err →
  wake_inv (MkWakes (wq_capacity s) (wq_queue s)
    (if bool_decide (wq_queued s !! wk_key c = Some r) && negb (is_nil err)
     then delete (wk_key c) (wq_queued s) else wq_queued s)
    (<[r := err]> (wq_closed s)) (wq_next s)
    (<[p := MkCall (wk_key c) (wk_since c) (Returned err)]> (wq_calls s))
    (wq_hand s) (wq_ready s) (wq_dispatched s) (wq_stopped s) (wq_done s)).
Proof.
  intros [] Hc Hph.
  assert (Hhold : holds c r) by (unfold holds; by rewrite Hph).
  destruct (wi_open0 _ _ _ Hc Hhold) as [Hlt Hopen].
  set (queued := if _ && _ then _ else _).
  (* another call's key keeps its reservation, and other keys theirs *)
  assert (Hkeep : ∀ q d r', q ≠ p → wq_calls s !! q = Some d → owns d r' →
      r' ≠ r ∧ queued !! wk_key d = Some r').
  { intros q d r' Hne Hd Ho. destruct (wi_own0 _ _ _ Hd Ho) as [Hl _].
    assert (r' ≠ r) by (intros ->; apply Hne; eauto using owns_holds).
    split; [done|]. subst queued. case_match; [|done]. rewrite lookup_delete_ne; [done|].
    intros Heq. rewrite andb_true_iff, bool_decide_eq_true in H0. destruct H0 as [H0 _].
    rewrite Heq in H0. congruence. }
  assert (Hsub : ∀ k r', queued !! k = Some r' → wq_queued s !! k = Some r').
  { intros k r'. subst queued. case_match; [|done]. by intros [_ ?]%lookup_delete_Some. }
  assert (Hsent : ∀ k, k ∈ sent s → is_Some (queued !! k)).
  { intros k Hk. subst queued. case_match; [|eauto]. rewrite lookup_delete_ne; [eauto|].
    intros <-. rewrite andb_true_iff in H. destruct H as [_ He]. destruct err as [e|]; [|done].
    destruct (wi_own0 _ _ r Hc); [unfold owns; by rewrite Hph|done]. }
  split; cbn; try done.
  - at_call; cbn; intros Hd; [done|]. destruct (wi_open0 _ _ _ H0 Hd). split; [done|].
    rewrite lookup_insert_ne; [done|]. intros <-. apply H. eauto.
  - intros q q' d d' r' [[<- <-]|[? Hq1]]%lookup_insert_Some [[<- <-]|[? Hq2]]%lookup_insert_Some Hd Hd'; try done. eauto.
  - at_call; cbn; intros Hd; [done|]. destruct (Hkeep _ _ _ (not_eq_sym H) H0 Hd).
    split; [done|]. by destruct (wi_own0 _ _ _ H0 Hd).
  - intros k r' Hk. destruct (wi_queued0 _ _ (Hsub _ _ Hk)) as [?|(q & d & Hq & <- & Ho)]; [by left|].
    destruct (decide (q = p)) as [->|Hne].
    + exfalso. assert (d = c) as -> by congruence. revert Ho. unfold owns. rewrite Hph.
      destruct err as [e|]; [|done]. intros <-. subst queued.
      rewrite bool_decide_eq_true_2 in Hk by eauto. cbn in Hk. by rewrite lookup_delete_eq in Hk.
    + right. exists q, d. by rewrite lookup_insert_ne.
  - intros r' e [[<- <-]|[? ?]]%lookup_insert_Some; eauto.
  - at_call; cbn; eauto.
  - at_call.
    + specialize (wi_promised0 _ _ Hc). revert wi_promised0. unfold promised. cbn. rewrite Hph. by destruct err.
    + specialize (wi_promised0 _ _ H0). revert wi_promised0. unfold promised.
      destruct (wk_phase c0) as [|r'| |? []|[]]; try done. cbn. intros [?|[[e He]|(q & d & Hq & Hk & Ho)]]; [eauto| |].
      * right; left. exists e. rewrite lookup_insert_ne; [done|]. congruence.
      * destruct (decide (q = p)) as [->|Hne].
        -- assert (d = c) as -> by congruence. revert Ho. unfold owns. rewrite Hph. destruct err as [e|]; [|done].
           intros <-. right; left. exists e. by rewrite lookup_insert_eq.
        -- right; right. exists q, d. by rewrite lookup_insert_ne.
Qed.

(** ** Steps of the worker *)
Lemma promised_mono s s' c :
  (∀ k n, served s k n → served s' k n) → wq_closed s' = wq_closed s → wq_calls s' = wq_calls s →
  promised s c → promised s' c.
Proof.
  intros Hs Hcl Hca. unfold promised. rewrite Hcl, Hca.
  destruct (wk_phase c) as [| | |? []|[]]; try done; try apply Hs. intros [?|?]; eauto.
Qed.

Lemma inv_way s queue hand ready :
  wake_inv s → (length queue ≤ wq_capacity s)%nat → option_list hand ++ queue ≡ₚ sent s →
  (∀ k, k ∈ wq_ready s → k ∈ ready) → wake_inv (set_way s queue hand ready).
Proof.
  intros [] Hlen Hperm Hready.
  assert (Hk : ∀ k, k ∈ sent (set_way s queue hand ready) ↔ k ∈ sent s).
  { intros k. change (sent (set_way s queue hand ready)) with (option_list hand ++ queue). by rewrite Hperm. }
  split; try done.
  - change (NoDup (option_list hand ++ queue)). by rewrite Hperm.
  - intros k. rewrite Hk. eauto.
  - intros p c r Hc Ho. rewrite Hk. eauto.
  - intros k r. rewrite Hk. cbn. eauto.
  - intros p c Hc. apply (promised_mono s); [|done|done|eauto].
    intros k n. unfold served. rewrite !elem_of_app, Hk. cbn. naive_solver.
Qed.

Lemma inv_dequeue s key :
  wake_inv s → wq_hand s = Some key →
  wake_inv (set_way (set_queued s (delete key (wq_queued s))) (wq_queue s) None (wq_ready s ++ [key])).
Proof.
  intros [] Hhand.
  assert (Hsent : sent s = key :: wq_queue s) by (unfold sent; by rewrite Hhand).
  rewrite Hsent in *. apply NoDup_cons in wi_nodup0 as [Hkq Hnd].
  set (s' := set_way _ _ _ _).
  assert (Hsent' : sent s' = wq_queue s) by done.
  assert (Hserved : ∀ k n, served s k n → served s' k n).
  { intros k n. unfold served. rewrite Hsent, Hsent'. cbn. set_solver. }
  split; try done.
  - intros k. rewrite Hsent'. cbn. intros Hk. rewrite lookup_delete_ne; [set_solver|]. intros <-. done.
  - intros p c r Hc Ho. destruct (wi_own0 _ _ _ Hc Ho). rewrite Hsent'. cbn. split; [|set_solver].
    rewrite lookup_delete_ne; [done|set_solver].
  - intros k r. rewrite Hsent'. cbn. intros [? Hk]%lookup_delete_Some.
    destruct (wi_queued0 _ _ Hk); [left; set_solver|eauto].
  - intros p c Hc. apply (promised_mono s); eauto.
Qed.

Lemma inv_dispatch s key rest :
  wake_inv s → wq_hand s = None → wq_ready s = key :: rest →
  wake_inv (MkWakes (wq_capacity s) (wq_queue s) (wq_queued s) (wq_closed s) (wq_next s) (wq_calls s)
              None rest (λ k, (wq_dispatched s k + if bool_decide (k = key) then 1 else 0)%nat)
              false (wq_done s)).
Proof.
  intros Hinv Hhand Hready. set (s' := MkWakes _ _ _ _ _ _ _ _ _ _ _).
  assert (Hsent : sent s' = sent s) by (unfold sent; by rewrite Hhand).
  assert (Hdisp : ∀ k, (wq_dispatched s k ≤ wq_dispatched s' k)%nat) by (intros; cbn; lia).
  destruct Hinv. split; rewrite ?Hsent; try done.
  - intros p c Hc. specialize (wi_since0 _ _ Hc). specialize (Hdisp (wk_key c)). lia.
  - intros p c Hc. specialize (wi_promised0 _ _ Hc). specialize (wi_since0 _ _ Hc).
    assert (Hserved : served s (wk_key c) (wk_since c) → served s' (wk_key c) (wk_since c)).
    { unfold served. rewrite Hsent, Hready. specialize (Hdisp (wk_key c)).
      rewrite !elem_of_app, elem_of_cons. intros [[?|[Heq|?]]|?]; [set_solver| |set_solver|right; lia].
      right. cbn. rewrite bool_decide_eq_true_2 by done. lia. }
    revert wi_promised0. unfold promised. destruct (wk_phase c) as [| | |? []|[]]; try done.
    intros [?|?]; eauto.
Qed.

(** ** Every step *)
Lemma not_owning s p c : wq_calls s !! p = Some c →
  match wk_phase c with Looking | Waiting _ | Returned _ => True | _ => False end →
  ∀ c0, wq_calls s !! p = Some c0 → ∀ r, ¬ owns c0 r.
Proof. intros Hc Hph c0 Hc0 r. assert (c0 = c) as -> by congruence. revert Hph. unfold owns. destruct (wk_phase c) as [| | |? []|]; tauto. Qed.
Lemma not_holding k n ph :
  match ph with Looking | Waiting _ | Returned _ => True | _ => False end → ∀ r, ¬ holds (MkCall k n ph) r.
Proof. unfold holds. cbn. destruct ph; tauto. Qed.

Lemma inv_returned s p c e : wake_inv s → wq_calls s !! p = Some c →
  match wk_phase c with Looking | Waiting _ | Returned _ => True | _ => False end →
  wake_inv (enter p c (Returned (Some e)) s).
Proof.
  intros Hinv Hc Hph. apply inv_free_call; cbn; eauto using not_owning, not_holding, wi_since.
Qed.

Lemma inv_call s p key ph :
  wake_inv s → (∀ c0, wq_calls s !! p = Some c0 → ∀ r, ¬ owns c0 r) →
  match ph with Looking | Returned (Some _) => True | _ => False end →
  wake_inv (set_calls s (<[p := MkCall key (wq_dispatched s key) ph]> (wq_calls s))).
Proof.
  intros Hinv Hfree Hph. apply inv_free_call; cbn; [done|done| |lia|].
  - apply not_holding. by destruct ph as [| | | |[]].
  - unfold promised. cbn. by destruct ph as [| | | |[]].
Qed.

Lemma inv_wait s p c r : wake_inv s → wq_calls s !! p = Some c → wk_phase c = Looking →
  wq_queued s !! wk_key c = Some r → wake_inv (enter p c (Waiting r) s).
Proof.
  intros Hinv Hc Hph Hq. apply inv_free_call; [done| | |exact (wi_since s Hinv p c Hc)|].
  - apply (not_owning _ _ _ Hc). by rewrite Hph.
  - by apply not_holding.
  - unfold promised. cbn. destruct (wi_queued s Hinv _ _ Hq) as [?|?]; [|eauto]. left; left. set_solver.
Qed.

Lemma inv_see_closed s p c r err : wake_inv s → wq_calls s !! p = Some c → wk_phase c = Waiting r →
  wq_closed s !! r = Some err →
  wake_inv (enter p c (match err with None => Returned None | Some _ => Looking end) s).
Proof.
  intros Hinv Hc Hph Hcl. apply inv_free_call; [done| | |exact (wi_since s Hinv p c Hc)|].
  - apply (not_owning _ _ _ Hc). by rewrite Hph.
  - apply not_holding. by destruct err.
  - pose proof (wi_promised s Hinv _ _ Hc) as Hp. revert Hp. unfold promised. rewrite Hph. cbn.
    destruct err as [e|]; [done|]. intros [?|[[e ?]|(q & d & Hq & _ & Ho)]]; [done|congruence|].
    destruct (wi_open s Hinv _ _ _ Hq (owns_holds _ _ Ho)). congruence.
Qed.

Lemma queue_step_inv a s s' : wake_inv s → queue_step a s = Some s' → wake_inv s'.
Proof.
  intros Hinv Hstep. destruct a as [p key|p|p|p e|p|p|p| | |key| | |]; cbn -[Nat.ltb] in Hstep.
  - destruct (wq_calls s !! p) as [[k n ph]|] eqn:Hc.
    + destruct ph; simplify_eq. destruct (validateReconcileKey key) as [[]|]; [destruct (wq_stopped s)|];
        simplify_eq; apply inv_call; try done; by apply (not_owning _ _ _ Hc).
    + destruct (validateReconcileKey key) as [[]|]; [destruct (wq_stopped s)|];
        simplify_eq; apply inv_call; try done; intros ? ?; congruence.
  - destruct (wq_calls s !! p) as [c|] eqn:Hc; [|done]. cbn -[Nat.ltb] in Hstep.
    destruct (wk_phase c) eqn:Hph; try done.
    destruct (wq_queued s !! wk_key c) eqn:Hq; simplify_eq; [by apply inv_wait|by apply inv_reserve].
  - destruct (wq_calls s !! p) as [c|] eqn:Hc; [|done]. cbn -[Nat.ltb] in Hstep.
    destruct (wk_phase c) as [|r| | |] eqn:Hph; try done.
    destruct (wq_closed s !! r) as [err|] eqn:Hcl; [|done]. cbn -[Nat.ltb] in Hstep. simplify_eq. by eapply inv_see_closed.
  - destruct (wq_calls s !! p) as [c|] eqn:Hc; [|done]. cbn -[Nat.ltb] in Hstep.
    destruct (wk_phase c) as [|r|r| |] eqn:Hph; simplify_eq.
    + apply inv_returned; [done|done|by rewrite Hph].
    + apply (inv_own_call _ _ c _ r); try done. unfold owns. by rewrite Hph.
  - destruct (wq_calls s !! p) as [c|] eqn:Hc; [|done]. cbn -[Nat.ltb] in Hstep. destruct (negb (wq_done s)); [done|].
    destruct (wk_phase c) as [|r|r| |] eqn:Hph; simplify_eq.
    + apply inv_returned; [done|done|by rewrite Hph].
    + apply (inv_own_call _ _ c _ r); try done. unfold owns. by rewrite Hph.
  - destruct (wq_calls s !! p) as [c|] eqn:Hc; [|done]. cbn -[Nat.ltb] in Hstep.
    destruct (wk_phase c) as [| |r| |] eqn:Hph; try done.
    destruct (length (wq_queue s) <? wq_capacity s)%nat eqn:Hlt; simplify_eq.
    apply inv_send; try done. by apply Nat.ltb_lt.
  - destruct (wq_calls s !! p) as [c|] eqn:Hc; [|done]. cbn -[Nat.ltb] in Hstep.
    destruct (wk_phase c) as [| | |r err|] eqn:Hph; try discriminate Hstep.
    injection Hstep as <-. by apply inv_close.
  - destruct (wq_hand s) eqn:Hh, (wq_ready s) eqn:Hr, (wq_queue s) as [|k rest] eqn:Hq; try done.
    destruct (wq_stopped s); simplify_eq. apply inv_way; [done| | |by rewrite Hr].
    + pose proof (wi_bound s Hinv). rewrite Hq in *. cbn in *. lia.
    + unfold sent. by rewrite Hh, Hq.
  - destruct (wq_hand s) eqn:Hh; simplify_eq/=. by apply inv_dequeue.
  - destruct (wq_hand s) eqn:Hh, (wq_stopped s); simplify_eq. apply inv_way; [done|by apply wi_bound| |set_solver].
    unfold sent. by rewrite Hh.
  - destruct (wq_hand s) eqn:Hh, (wq_ready s) as [|k rest] eqn:Hr; try done.
    destruct (wq_stopped s); simplify_eq. by eapply inv_dispatch.
  - destruct (wq_hand s); simplify_eq. by destruct Hinv; split.
  - destruct (wq_stopped s && negb (wq_done s)); simplify_eq. by destruct Hinv; split.
Qed.

Lemma run_wakes_inv actions s s' : wake_inv s → run_wakes actions s = Some s' → wake_inv s'.
Proof.
  revert s. induction actions as [|a actions IH]; intros s Hinv Hrun; cbn in Hrun; [by simplify_eq|].
  destruct (queue_step a s) as [s1|] eqn:Hs; [|done]. eauto using queue_step_inv.
Qed.

Lemma queue_step_capacity a s s' : queue_step a s = Some s' → wq_capacity s' = wq_capacity s.
Proof.
  intros Hstep. destruct a; cbn -[Nat.ltb] in Hstep; repeat case_match; try discriminate Hstep;
    try (destruct (wq_calls s !! p) as [c|]; [cbn -[Nat.ltb] in Hstep|discriminate Hstep]);
    try (destruct (wq_hand s); [cbn in Hstep|discriminate Hstep]);
    repeat case_match; try discriminate Hstep;
    try (destruct (wq_closed s !! _); [cbn in Hstep|discriminate Hstep]); by injection Hstep as <-.
Qed.
Lemma run_wakes_capacity actions s s' : run_wakes actions s = Some s' → wq_capacity s' = wq_capacity s.
Proof.
  revert s. induction actions as [|a actions IH]; intros s Hrun; cbn in Hrun; [by simplify_eq|].
  destruct (queue_step a s) as [s1|] eqn:Hs; [|done]. rewrite (IH _ Hrun). by eapply queue_step_capacity.
Qed.

(** ** Runs with the gate *)
Definition gate_inv (s : wake_state) : Prop :=
  match gt_select (ws_gate s) with
  | None => True
  | Some true => wq_hand (ws_wakes s) = None ∧ wq_ready (ws_wakes s) = []
  | Some false => wq_hand (ws_wakes s) = None ∧
    (gt_startupPending (ws_gate s) = true ∨ gt_degraded (ws_gate s) = true ∨ gt_token (ws_gate s) = true)
  end.
Lemma wake_step_queue x s s' : wake_step x s = Some s' → ∃ actions, run_wakes actions (ws_wakes s) = Some (ws_wakes s').
Proof.
  intros Hs. destruct x as [a| | | |probed|degraded notify]; cbn in Hs.
  - destruct (negb _); [done|]. destruct (queue_step a (ws_wakes s)) as [w|] eqn:Hq; [|done]. injection Hs as <-.
    exists [a]. cbn. by rewrite Hq.
  - repeat (destruct (_ || _) || destruct (_ && _)); simplify_eq; by exists [].
  - destruct (_ && _); simplify_eq. by exists [].
  - destruct (in_select _); simplify_eq. by exists [].
  - destruct (_ || _); simplify_eq. by exists [].
  - destruct (_ && _); simplify_eq. by exists [].
Qed.
Lemma run_wakes_app l1 l2 s : run_wakes (l1 ++ l2) s = run_wakes l1 s ≫= run_wakes l2.
Proof. revert s. induction l1 as [|a l IH]; intros s; [done|]. cbn. destruct (queue_step a s); [apply IH|done]. Qed.
Lemma run_events_queue events s s' :
  run_events events s = Some s' → ∃ actions, run_wakes actions (ws_wakes s) = Some (ws_wakes s').
Proof.
  revert s. induction events as [|x l IH]; intros s Hr; cbn in Hr; [injection Hr as <-; by exists []|].
  destruct (wake_step x s) as [s1|] eqn:Hx; [|done]. destruct (wake_step_queue _ _ _ Hx) as [l1 H1].
  destruct (IH _ Hr) as [l2 H2]. exists (l1 ++ l2). by rewrite run_wakes_app, H1.
Qed.
(** What a call of Wake does leaves the worker's hand and its ready list alone. *)
Lemma queue_step_worker a w w' : queue_step a w = Some w' →
  match a with Receive | MarkDequeued | MakeReady _ | Dispatch => True
  | _ => wq_hand w' = wq_hand w ∧ wq_ready w' = wq_ready w end.
Proof.
  intros Hstep. destruct a; try done; cbn -[Nat.ltb] in Hstep; repeat case_match; try discriminate Hstep;
    try (destruct (wq_calls w !! p) as [c|]; [cbn -[Nat.ltb] in Hstep|discriminate Hstep]);
    repeat case_match; try discriminate Hstep;
    try (destruct (wq_closed w !! _); [cbn in Hstep|discriminate Hstep]); injection Hstep as <-; cbn; auto.
Qed.
Lemma wake_step_gate x s s' : gate_inv s → wake_step x s = Some s' → gate_inv s'.
Proof.
  unfold gate_inv. intros Hi Hs. destruct x as [a| | | |probed|degraded notify]; cbn in Hs.
  - destruct (negb (admits a (ws_gate s))) eqn:Ha; [done|]. apply negb_false_iff in Ha.
    destruct (queue_step a (ws_wakes s)) as [w|] eqn:Hq; [|done]. injection Hs as <-. cbn.
    pose proof (queue_step_worker _ _ _ Hq) as Hw. unfold admits, in_select in Ha.
    destruct a; cbn; try done; try (destruct Hw as [-> ->]; exact Hi); destruct (gt_select (ws_gate s)); done.
  - destruct (_ || _ || _) eqn:H1; [done|]. destruct (_ && _) eqn:H2; [done|]. injection Hs as <-. cbn.
    rewrite !orb_false_iff in H1. destruct H1 as [_ Hh]. unfold gate_open in *.
    assert (wq_hand (ws_wakes s) = None) as -> by by destruct (wq_hand (ws_wakes s)).
    destruct (gt_startupPending (ws_gate s)), (gt_degraded (ws_gate s)); cbn in *; auto.
    split; [done|]. apply negb_false_iff in H2. by apply bool_decide_eq_true in H2.
  - by destruct (_ && _); simplify_eq.
  - by destruct (in_select _); simplify_eq.
  - by destruct (_ || _); simplify_eq.
  - destruct (_ && _) eqn:Hn; simplify_eq. cbn. destruct (gt_select (ws_gate s)) as [[]|] eqn:Hsel; [done| |done].
    destruct Hi as [Hh Hi]. split; [done|]. destruct notify; [rewrite orb_true_r; auto|].
    unfold in_select in Hn. by rewrite Hsel in Hn.
Qed.
Lemma run_events_gate events s s' : gate_inv s → run_events events s = Some s' → gate_inv s'.
Proof.
  revert s. induction events as [|x l IH]; intros s Hi Hr; cbn in Hr; [by injection Hr as <-|].
  destruct (wake_step x s) as [s1|] eqn:Hx; [|done]. eauto using wake_step_gate.
Qed.
Lemma reachable_wake_inv capacity events s :
  run_events events (newWakeState capacity) = Some s →
  wake_inv (ws_wakes s) ∧ gate_inv s ∧ wq_capacity (ws_wakes s) = capacity.
Proof.
  intros Hr. destruct (run_events_queue _ _ _ Hr) as [actions Ha]. cbn in Ha.
  split; [exact (run_wakes_inv _ _ _ (newWakes_inv capacity) Ha)|].
  split; [by apply (run_events_gate events (newWakeState capacity))|]. by rewrite (run_wakes_capacity _ _ _ Ha).
Qed.




(** ** The queue's guarantees *)

(** the queue holds each key once and never more keys than its capacity, and a
    key waiting in it is registered, so that every later Wake of that key joins
    it instead of sending it again. *)
Theorem wake_queue_bounded capacity events s :
  run_events events (newWakeState capacity) = Some s →
  let w := ws_wakes s in
  (length (wq_queue w) ≤ capacity)%nat ∧ NoDup (sent w) ∧ (∀ k, k ∈ sent w → is_Some (wq_queued w !! k)).
Proof.
  intros Hrun. destruct (reachable_wake_inv _ _ _ Hrun) as ([Hb] & _ & Hc). rewrite Hc in Hb. done.
Qed.

(** A call of Wake that returned nil is never lost, whatever the other
    goroutines do, whether it sent the key itself or joined another call's
    reservation: its key is in the channel, in the worker's hand or in the ready
    list, or a dispatch of the key has begun after the call did. *)
Theorem wake_never_lost capacity events s p c :
  run_events events (newWakeState capacity) = Some s →
  let w := ws_wakes s in
  wq_calls w !! p = Some c → wk_phase c = Returned None →
  wk_key c ∈ wq_queue w ∨ wq_hand w = Some (wk_key c) ∨ wk_key c ∈ wq_ready w
  ∨ (wk_since c < wq_dispatched w (wk_key c))%nat.
Proof.
  intros Hrun w Hc Hph. destruct (reachable_wake_inv _ _ _ Hrun) as (Hinv & _ & _).
  pose proof (wi_promised _ Hinv _ _ Hc) as Hp. unfold promised in Hp. rewrite Hph in Hp.
  destruct Hp as [Hin|?]; [|by do 3 right]. unfold sent in Hin. rewrite !elem_of_app in Hin.
  destruct Hin as [[Hh|?]|?]; auto. right; left. fold w in Hh.
  destruct (wq_hand w) as [k|]; cbn in Hh; [|set_solver]. f_equal. set_solver.
Qed.


(** Two goroutines wake the policy; the second joins the first, whose call is
    cancelled on a full queue, and then sends the key itself. The backend is
    degraded for a while, and the worker in its select meanwhile. *)
Definition policy_key : ReconcileKey := MkReconcileKey DomainPolicy zero_prefix.
Definition infrastructure_key : ReconcileKey := MkReconcileKey DomainInfrastructure zero_prefix.
Definition contended : list wake_event :=
  (Step <$> [CallWake 0 infrastructure_key; Lookup 0; Send 0; Close 0; CallWake 1 policy_key; Lookup 1;
     CallWake 2 policy_key; Lookup 2; Cancelled 1 (Errorf "context canceled"); Close 1; SeeClosed 2; Lookup 2])
  ++ [StartupRecovered true; TopOfLoop; Step Receive; Step MarkDequeued; Step (Send 2); Step (Close 2); Step Dispatch;
      RecordHealth true false; TopOfLoop; RecordHealth false true].
Definition contended_state : wake_state := default (newWakeState 1) (run_events contended (newWakeState 1)).

Lemma wake_queue_bounded_witness :
  run_events contended (newWakeState 1) = Some contended_state ∧ wq_queue (ws_wakes contended_state) = [policy_key]
  ∧ NoDup (sent (ws_wakes contended_state)).
Proof.
  split; [vm_compute; reflexivity|]. split; [vm_compute; reflexivity|].
  apply (wake_queue_bounded 1 contended contended_state). vm_compute. reflexivity.
Defined.
Lemma wake_never_lost_witness :
  policy_key ∈ wq_queue (ws_wakes contended_state) ∨ wq_hand (ws_wakes contended_state) = Some policy_key
  ∨ policy_key ∈ wq_ready (ws_wakes contended_state) ∨ (0 < wq_dispatched (ws_wakes contended_state) policy_key)%nat.
Proof.
  apply (wake_never_lost 1 contended contended_state 2 (MkCall policy_key 0 (Returned None)));
    vm_compute; reflexivity.
Defined.
