(* ===== verification/PlanProvider.v ===== *)
(** * Current plans (internal/reconcile/desired_plan_provider.go)

    The provider reads the desired firewall state, publishes it as the
    controller's snapshot and derives from that snapshot the plan of one key, or
    the keys a restarted dispatcher has to visit. *)

From S2P Require Import Prelude GoStd GoFmt Sha256 Netip Identity CoreModel Enforcement.
From S2P Require Import ObservedState ReconcilePlan Controller ControllerOps WakeQueue.

Class DesiredStateReader (E : Type) := {
  env_LoadDesiredFirewallState : NodeID → ST E DesiredFirewallState;
  env_ReadReconcileRecovery : NodeID → ST E ReconcileRecoverySnapshot
}.

(** What the dispatcher asks of a provider. *)
Class PlanProvider (E : Type) := {
  ReconcileKeys : M E (list ReconcileKey);
  CurrentPlan : ReconcileKey → M E (option OperationPlan)
}.

Record StaticDesiredFirewallState := MkStatic {
  sd_InfrastructureRevision : Z;
  sd_Infrastructure : ManagedInfrastructureIntent
}.
Record DesiredPlanProvider := MkProvider { pv_nodeID : NodeID; pv_static : StaticDesiredFirewallState }.

(** The controller and the reader are always present. *)
Definition NewDesiredPlanProvider (nodeID : NodeID) (static : StaticDesiredFirewallState)
    : result DesiredPlanProvider :=
  fail_if (is_empty nodeID) (Errorf "desired Plan provider node id is required");;
  fail_if ((sd_InfrastructureRevision static =? 0) || is_empty (mi_Backend (sd_Infrastructure static))
           || is_empty (mi_OwnerVersion (sd_Infrastructure static))
           || is_empty (mi_Digest (sd_Infrastructure static)))
          (Errorf "desired Plan provider static Infrastructure state is incomplete");;
  Ok (MkProvider nodeID static).

Definition static_snapshot (s : StaticDesiredFirewallState) (revision policyRevision : Z)
    (policy : ManagedPolicyIntent) (targets : list NormalizedTargetEnforcementIntent)
    : result DesiredFirewallSnapshot :=
  NewDesiredFirewallSnapshot
    (MkDesired revision (sd_InfrastructureRevision s) policyRevision (sd_Infrastructure s) policy targets).

Definition persistedReconcileKey (domain : ReconcileDomain) (target : Prefix) : result ReconcileKey :=
  match domain with
  | ReconcileDomainInfrastructure => Ok (MkReconcileKey DomainInfrastructure zero_prefix)
  | ReconcileDomainPolicy => Ok (MkReconcileKey DomainPolicy zero_prefix)
  | ReconcileDomainTarget =>
    let key := MkReconcileKey DomainTarget target in
    validateReconcileKey key;; Ok key
  | ReconcileDomainOther n => Err (Errorf ("unknown persisted reconcile domain " +:+ itoa n))
  end.

Definition desiredTarget (targets : list NormalizedTargetEnforcementIntent) (target : Prefix)
    : option NormalizedTargetEnforcementIntent :=
  List.find (λ intent, bool_decide (ti_CanonicalTarget intent = target)) targets.

(** Zero values of the payloads a plan of another domain leaves out. *)
Definition zero_target : NormalizedTargetEnforcementIntent :=
  MkIntent EmptyString zero_prefix BanAbsent None TimeoutNone 0 (AddressFamilyOther 0) PolicyCoverageNone
    EmptyString EmptyString 0.
Definition zero_infrastructure : ManagedInfrastructureIntent := MkInfrastructure EmptyString EmptyString EmptyString.
Definition zero_policy : ManagedPolicyIntent := MkPolicy EmptyString None None.

Section plans.
Context {U : Unicode}.

(** The plan of a key, before its digest is set. *)
Definition plan_fields (desired : DesiredFirewallSnapshot) (key : ReconcileKey) : result (option OperationPlan) :=
  match rk_Domain key with
  | DomainInfrastructure =>
    Ok (Some (MkPlan DomainInfrastructure zero_prefix zero_target (fs_Infrastructure desired) zero_policy
                (fs_InfrastructureRevision desired) 0 0 (fs_SnapshotRevision desired) true EmptyString EmptyString))
  | DomainPolicy =>
    Ok (Some (MkPlan DomainPolicy zero_prefix zero_target zero_infrastructure (fs_Policy desired)
                0 (fs_PolicyRevision desired) 0 0 false EmptyString EmptyString))
  | DomainTarget =>
    Ok ((λ intent, MkPlan DomainTarget (rk_Target key) intent zero_infrastructure zero_policy
                     0 0 (ti_Generation intent) 0 false EmptyString EmptyString)
        <$> desiredTarget (fs_Targets desired) (rk_Target key))
  | DomainOther n => Err (Errorf ("load current Plan: unknown domain " +:+ itoa n))
  end.
Definition set_digest (plan : OperationPlan) : OperationPlan :=
  MkPlan (op_Domain plan) (op_Target plan) (op_DesiredTarget plan) (op_DesiredInfrastructure plan)
    (op_DesiredPolicy plan) (op_ExpectedInfrastructureRevision plan) (op_ExpectedPolicyRevision plan)
    (op_ExpectedTargetGeneration plan) (op_ExpectedSnapshotRevision plan) (op_FenceSnapshotRevision plan)
    (op_BasisSnapshotDigest plan) (PlanDigest plan).

(** The keys of a startup, in the order they are first met. *)
Definition appendKey (domain : ReconcileDomain) (target : Prefix) (keys : list ReconcileKey)
    : result (list ReconcileKey) :=
  key ← persistedReconcileKey domain target;
  Ok (if bool_decide (key ∈ keys) then keys else keys ++ [key]).
Fixpoint append_each {A} (add : A → list ReconcileKey → result (list ReconcileKey)) (l : list A)
    (keys : list ReconcileKey) : result (list ReconcileKey) :=
  match l with
  | [] => Ok keys
  | x :: rest => keys' ← add x keys; append_each add rest keys'
  end.
Definition startup_keys (node : NodeID) (desired : DesiredFirewallSnapshot) (recovery : ReconcileRecoverySnapshot)
    : result (list ReconcileKey) :=
  keys ← appendKey ReconcileDomainInfrastructure zero_prefix [];
  keys ← appendKey ReconcileDomainPolicy zero_prefix keys;
  keys ← append_each (λ intent keys, wrap "current Desired target"
           (appendKey ReconcileDomainTarget (ti_CanonicalTarget intent) keys)) (fs_Targets desired) keys;
  keys ← append_each (λ state keys,
           fail_if (negb (bool_decide (ps_NodeID state = node)))
                   (Errorf "startup reconcile state belongs to another node");;
           wrap "startup reconcile state" (appendKey (ps_Domain state) (ps_Target state) keys))
           (rc_States recovery) keys;
  append_each (λ probe keys,
    fail_if (negb (bool_decide (pp_NodeID probe = node)))
            (Errorf "startup Probe requirement belongs to another node");;
    wrap "startup Probe requirement" (appendKey (pp_Domain probe) (pp_Target probe) keys))
    (rc_ProbeRequirements recovery) keys.

Context {E : Type}.
Context `{Clock E, Backend E, CriticalAuditWriter E, PersistentStateStore E, Scheduler E, DesiredStateReader E}.

Definition loadAndPublishDesired (p : DesiredPlanProvider) : M E DesiredFirewallSnapshot :=
  state ← st_wrap "load current Firewall Desired state" (Controller.quiet (env_LoadDesiredFirewallState (pv_nodeID p)));
  desired ← st_lift (wrap "construct current Desired snapshot"
              (static_snapshot (pv_static p) (ds_SnapshotRevision state) (ds_PolicyRevision state)
                 (ds_Policy state) (ds_Targets state)));
  st_wrap "publish current Desired snapshot" (SetDesiredSnapshot desired);;
  mret desired.

Definition provider_ReconcileKeys (p : DesiredPlanProvider) : M E (list ReconcileKey) :=
  desired ← loadAndPublishDesired p;
  recovery ← st_wrap "load startup reconcile recovery" (Controller.quiet (env_ReadReconcileRecovery (pv_nodeID p)));
  st_lift (startup_keys (pv_nodeID p) desired recovery).

Definition provider_CurrentPlan (p : DesiredPlanProvider) (key : ReconcileKey) : M E (option OperationPlan) :=
  st_lift (validateReconcileKey key);;
  desired ← loadAndPublishDesired p;
  fields ← st_lift (plan_fields desired key);
  mret (set_digest <$> fields).

Definition desired_plans (p : DesiredPlanProvider) : PlanProvider E :=
  {| ReconcileKeys := provider_ReconcileKeys p; CurrentPlan := provider_CurrentPlan p |}.
End plans.

(** ** Startup keys *)
Lemma appendKey_spec domain target keys keys' : appendKey domain target keys = Ok keys' →
  ∃ key, persistedReconcileKey domain target = Ok key ∧ (∀ k, k ∈ keys' ↔ k ∈ keys ∨ k = key)
         ∧ (NoDup keys → NoDup keys').
Proof.
  unfold appendKey. intros Ha. inv_ok. exists a. split; [done|]. case_bool_decide as Hin.
  - split; [|done]. intros k. split; [by left|intros [?| ->]; done].
  - split; [set_solver|]. intros Hnd. apply NoDup_app. split; [done|]. split; [set_solver|apply NoDup_singleton].
Qed.

Lemma append_each_spec {A} (add : A → list ReconcileKey → result (list ReconcileKey))
    (domain : A → ReconcileDomain) (target : A → Prefix) (l : list A) keys keys' :
  (∀ x ks ks', add x ks = Ok ks' → appendKey (domain x) (target x) ks = Ok ks') →
  append_each add l keys = Ok keys' →
  (∀ k, k ∈ keys' ↔ k ∈ keys ∨ ∃ x, x ∈ l ∧ persistedReconcileKey (domain x) (target x) = Ok k)
  ∧ (NoDup keys → NoDup keys').
Proof.
  intros Hadd. revert keys. induction l as [|x l IH]; intros keys Hl; cbn in Hl.
  - inv_ok. split; [|done]. intros k. split; [by left|]. intros [?|(x & Hx & _)]; [done|by apply elem_of_nil in Hx].
  - inv_ok. apply Hadd, appendKey_spec in Hl0 as (key & Hkey & Hin & Hnd).
    destruct (IH _ Hl) as [Hin' Hnd']. split; [|auto]. intros k. rewrite Hin', Hin.
    setoid_rewrite elem_of_cons. split; [naive_solver|].
    intros [?|(y & [->|Hy] & Hk)]; [auto| |eauto]. left; right. congruence.
Qed.

Lemma persistedReconcileKey_valid domain target key :
  persistedReconcileKey domain target = Ok key → validateReconcileKey key = Ok tt.
Proof. unfold persistedReconcileKey. intros Hk. destruct domain; inv_ok; done. Qed.

(** The keys a startup must visit. *)
Definition startup_key (desired : DesiredFirewallSnapshot) (recovery : ReconcileRecoverySnapshot)
    (key : ReconcileKey) : Prop :=
  persistedReconcileKey ReconcileDomainInfrastructure zero_prefix = Ok key
  ∨ persistedReconcileKey ReconcileDomainPolicy zero_prefix = Ok key
  ∨ (∃ i, i ∈ fs_Targets desired ∧ persistedReconcileKey ReconcileDomainTarget (ti_CanonicalTarget i) = Ok key)
  ∨ (∃ s, s ∈ rc_States recovery ∧ persistedReconcileKey (ps_Domain s) (ps_Target s) = Ok key)
  ∨ (∃ p, p ∈ rc_ProbeRequirements recovery ∧ persistedReconcileKey (pp_Domain p) (pp_Target p) = Ok key).

(** the startup keys are exactly the infrastructure, the policy, every current
    desired target and every key of the durable recovery, each once and each a
    well-formed key: no retry or probe requirement of an earlier run is left out. *)
Theorem startup_keys_complete node desired recovery keys :
  startup_keys node desired recovery = Ok keys →
  NoDup keys ∧ ∀ key, key ∈ keys ↔ startup_key desired recovery key ∧ validateReconcileKey key = Ok tt.
Proof.
  unfold startup_keys. intros Hk. inv_ok.
  apply appendKey_spec in Hk0 as (k0 & Hp0 & Hi0 & Hn0), Hk1 as (k1 & Hp1 & Hi1 & Hn1).
  apply (append_each_spec _ (λ _, ReconcileDomainTarget) ti_CanonicalTarget) in Hk2 as [Hi2 Hn2];
    [|intros; by inv_ok].
  apply (append_each_spec _ ps_Domain ps_Target) in Hk3 as [Hi3 Hn3]; [|intros; by inv_ok].
  apply (append_each_spec _ pp_Domain pp_Target) in Hk as [Hi Hn]; [|intros; by inv_ok].
  split; [apply Hn, Hn3, Hn2, Hn1, Hn0; constructor|].
  assert (Heq : ∀ k k' : ReconcileKey, Ok k = Ok k' ↔ k' = k) by (intros; split; congruence).
  intros key. assert (Hnil : key ∈ ([] : list ReconcileKey) ↔ False) by apply elem_of_nil.
  unfold startup_key. rewrite Hi, Hi3, Hi2, Hi1, Hi0, Hp0, Hp1, !Heq, Hnil. split; [|tauto].
  intros Hin. split; [tauto|].
  destruct Hin as [[[[[[]|Hk]|Hk]|(x & _ & Hx)]|(x & _ & Hx)]|(x & _ & Hx)];
    [subst|subst|..]; eauto using persistedReconcileKey_valid.
Qed.

(** ** Published snapshots *)
Lemma desired_target_map_spec targets acc m : desired_target_map targets acc = Ok m →
  (∀ t i, acc !! t = Some i → m !! t = Some i) ∧ (∀ i, i ∈ targets → m !! ti_CanonicalTarget i = Some i)
  ∧ (∀ t i, m !! t = Some i → acc !! t = Some i ∨ (i ∈ targets ∧ ti_CanonicalTarget i = t)).
Proof.
  revert acc. induction targets as [|i targets IH]; intros acc Hm; cbn in Hm.
  - inv_ok. set_solver.
  - inv_ok. apply negb_false_iff in Hm0. destruct (acc !! _) eqn:Hnone; [done|].
    destruct (IH _ Hm) as (Hold & Hin & Hback). split_and!.
    + intros t j Ht. apply Hold. rewrite lookup_insert_ne; [done|]. congruence.
    + intros j [->|Hj]%elem_of_cons; [apply Hold, lookup_insert_eq|auto].
    + intros t j [[[<- <-]|[_ ?]]%lookup_insert_Some|[? ?]]%Hback; set_solver.
Qed.

Lemma clone_slice_elems {A} (s : option (list A)) : elems (clone_slice s) = elems s.
Proof. by destruct s as [[]|]. Qed.

Lemma st_wrap_Ok {S A} msg (m : ST S A) s a s' : st_wrap msg m s = (Ok a, s') → m s = (Ok a, s').
Proof. unfold st_wrap. destruct (m s) as [[] ?]; [|done]. by intros [= <- <-]. Qed.

(** What the controller holds after a publication. *)
Record publishes (desired : DesiredFirewallSnapshot) (c : Controller) : Prop := {
  pb_has : c_hasDesired c = true;
  pb_snapshot : fs_SnapshotRevision (c_desired c) = fs_SnapshotRevision desired;
  pb_infra_rev : fs_InfrastructureRevision (c_desired c) = fs_InfrastructureRevision desired;
  pb_infra : fs_Infrastructure (c_desired c) = fs_Infrastructure desired;
  pb_policy_rev : fs_PolicyRevision (c_desired c) = fs_PolicyRevision desired;
  pb_policy : policyIntentEqual (fs_Policy desired) (fs_Policy (c_desired c)) = true;
  pb_targets : ∀ t i, c_desiredTargets c !! t = Some i ↔ i ∈ fs_Targets desired ∧ ti_CanonicalTarget i = t
}.

Lemma SetDesired_publishes desired c c' :
  SetDesiredSnapshotLocked desired c = Ok c' → Snapshot_Validate desired = Ok tt ∧ publishes desired c'.
Proof.
  unfold SetDesiredSnapshotLocked. intros Hs. inv_ok. destruct a as [prepared targets]. inv_ok.
  unfold prepareDesired in Hs0. inv_ok.
  unfold NewDesiredFirewallSnapshot in Hs2. inv_ok. split; [done|].
  apply desired_target_map_spec in Hs3 as (_ & Hin & Hback). cbn in Hin, Hback.
  split; try done.
  - cbn. unfold policyIntentEqual. cbn. rewrite !clone_slice_elems, !bool_decide_eq_true_2; done.
  - intros t i. change (c_desiredTargets _) with targets. split.
    + intros [?|[Hi ?]]%Hback; [by rewrite lookup_empty in *|]. by rewrite sort_by_perm in Hi.
    + intros [Hi <-]. apply Hin. by rewrite sort_by_perm.
Qed.

Lemma set_digest_bound {U : Unicode} plan : is_empty (op_Digest (set_digest plan)) = false
  ∧ op_Digest (set_digest plan) = PlanDigest (set_digest plan).
Proof. split; [apply digest_nonempty|done]. Qed.

(** A plan of the published snapshot is valid and current. *)
Lemma plan_fields_current {U : Unicode} desired c key plan :
  Snapshot_Validate desired = Ok tt → publishes desired c → validateReconcileKey key = Ok tt →
  plan_fields desired key = Ok (Some plan) →
  ValidatePlan (set_digest plan) = Ok tt ∧ planMatchesCurrentDesiredLocked c (set_digest plan) = true
  ∧ op_Domain (set_digest plan) = rk_Domain key
  ∧ (rk_Domain key = DomainTarget → op_Target (set_digest plan) = rk_Target key).
Proof.
  intros Hv Hpub Hkey Hf. destruct (set_digest_bound plan) as [Hne Hd]. unfold ValidatePlan.
  rewrite Hne, (bool_decide_eq_true_2 _ Hd). clear Hne Hd. unfold planMatchesCurrentDesiredLocked.
  rewrite (pb_has _ _ Hpub). unfold Snapshot_Validate in Hv. inv_ok.
  apply orb_false_iff in Hv0 as [[Hsr Hir]%orb_false_iff Hpr].
  unfold plan_fields in Hf. destruct (rk_Domain key) eqn:Hdom; inv_ok; cbn -[Intent_Validate policyIntentEqual lookup].
  - rewrite Hir, Hv1, (pb_infra_rev _ _ Hpub), (pb_snapshot _ _ Hpub), (pb_infra _ _ Hpub), !Z.eqb_refl,
      bool_decide_eq_true_2 by done. done.
  - rewrite Hpr, Hv2, (pb_policy_rev _ _ Hpub), (pb_policy _ _ Hpub), Z.eqb_refl. split; [|done]. cbn.
    destruct (negb _ || _); [inv_ok; by rewrite Hv3|done].
  - destruct (desiredTarget (fs_Targets desired) (rk_Target key)) as [intent|] eqn:Hfind; [|done].
    injection Hf as <-. apply find_some in Hfind as [Hin%list_elem_of_In Heq%bool_decide_eq_true].
    apply validate_targets_Ok in Hv as (Hall & _ & _). rewrite Forall_forall in Hall.
    pose proof (Hall _ Hin) as Hi. rewrite <- Heq.
    assert (c_desiredTargets c !! ti_CanonicalTarget intent = Some intent) as Hl by (by apply (pb_targets _ _ Hpub)).
    cbn -[Intent_Validate Equivalent lookup]. rewrite Hi, Hl, !Z.eqb_refl, bool_decide_eq_true_2 by done.
    assert (Equivalent intent intent = true) as -> by (by apply Equivalent_iff).
    unfold Intent_Validate in Hi. inv_ok. rewrite Hi1, Hi2. done.
Qed.

(** ** What the provider returns *)
Section provider.
Context {U : Unicode} {E : Type}.
Context `{Clock E, Backend E, CriticalAuditWriter E, PersistentStateStore E, Scheduler E, DesiredStateReader E}.

Lemma loadAndPublishDesired_spec (p : DesiredPlanProvider) (w w' : world E) desired :
  loadAndPublishDesired p w = (Ok desired, w') →
  Snapshot_Validate desired = Ok tt ∧ publishes desired (w_c w').
Proof.
  intros Hl. unfold loadAndPublishDesired in Hl. st_step Hl as state w1 Hload. st_step Hl as d w2 Hlift.
  st_step Hl as u w3 Hset. injection Hl as <- <-. apply st_wrap_Ok in Hset.
  unfold SetDesiredSnapshot in Hset. st_step Hset as u1 w4 Hi. st_step Hset as c w5 Hc. st_step Hset as c' w6 Hl'.
  apply lift_Ok_inv in Hl' as [Hl' ->]. injection Hset as <- <-. by eapply SetDesired_publishes.
Qed.

(** the plan the provider returns for a key is never stale or malformed when it
    is handed out: it passes the validation Execute makes, it matches the desired
    state the controller holds at that moment, and it is a plan of that key. *)
Theorem current_plan_is_current (p : DesiredPlanProvider) key (w w' : world E) plan :
  provider_CurrentPlan p key w = (Ok (Some plan), w') →
  ValidatePlan plan = Ok tt ∧ planMatchesCurrentDesiredLocked (w_c w') plan = true
  ∧ op_Domain plan = rk_Domain key ∧ (rk_Domain key = DomainTarget → op_Target plan = rk_Target key).
Proof.
  intros Hp. unfold provider_CurrentPlan in Hp. st_step Hp as [] w1 Hv. st_step Hp as desired w2 Hd.
  st_step Hp as fields w3 Hf. injection Hp as Hplan <-. apply lift_Ok_inv in Hv as [Hv ->], Hf as [Hf ->].
  destruct fields as [plan0|]; [|done]. injection Hplan as <-.
  apply loadAndPublishDesired_spec in Hd as [Hval Hpub]. by eapply plan_fields_current.
Qed.

(** No plan is returned exactly when the key is a target the published snapshot
    does not mention. *)
Lemma no_current_plan (p : DesiredPlanProvider) key (w w' : world E) :
  provider_CurrentPlan p key w = (Ok None, w') →
  rk_Domain key = DomainTarget ∧ c_hasDesired (w_c w') = true ∧ c_desiredTargets (w_c w') !! rk_Target key = None.
Proof.
  intros Hp. unfold provider_CurrentPlan in Hp. st_step Hp as [] w1 Hv. st_step Hp as desired w2 Hd.
  st_step Hp as fields w3 Hf. injection Hp as Hplan <-. apply lift_Ok_inv in Hf as [Hf ->].
  destruct fields as [plan0|]; [done|]. apply loadAndPublishDesired_spec in Hd as [Hval Hpub].
  unfold plan_fields in Hf. destruct (rk_Domain key) eqn:Hdom; inv_ok; try done. split; [done|]. split; [apply Hpub|].
  destruct (c_desiredTargets (w_c w2) !! rk_Target key) as [i|] eqn:Hi; [exfalso|done].
  apply (pb_targets _ _ Hpub) in Hi as [Hin Heq]. unfold desiredTarget in Hf.
  destruct (List.find _ (fs_Targets desired)) eqn:Hfind; [done|]. pose proof (find_none _ _ Hfind i) as Hn.
  cbn in Hn. rewrite bool_decide_eq_true_2 in Hn by done. apply list_elem_of_In in Hin. by specialize (Hn Hin).
Qed.
End provider.

(** A target that is desired and one that only the recovery remembers. *)
Definition remembered_prefix : Prefix := PrefixFrom (ip4 198 51 100 7) 32.
Definition sample_recovery : ReconcileRecoverySnapshot :=
  MkRecovery
    [MkPersistedState sample_node ReconcileDomainTarget 0 0 remembered_prefix 1 0 zero_retry_state sample_time;
     MkPersistedState sample_node ReconcileDomainPolicy 0 1 zero_prefix 0 0 zero_retry_state sample_time]
    [MkPersistedProbe sample_node ReconcileDomainTarget 0 0 remembered_prefix 1 0 false 0 1 sample_time].
Definition sample_keys : list ReconcileKey :=
  [infrastructure_key; policy_key; MkReconcileKey DomainTarget remembered_prefix].
Definition bare_snapshot : DesiredFirewallSnapshot :=
  MkDesired 1 1 1 (MkInfrastructure "nftables" "owner" "digest") (MkPolicy "relation" None None) [].
Lemma startup_keys_complete_witness :
  startup_keys sample_node bare_snapshot sample_recovery = Ok sample_keys ∧ NoDup sample_keys
  ∧ (∀ key, key ∈ sample_keys ↔ startup_key bare_snapshot sample_recovery key ∧ validateReconcileKey key = Ok tt).
Proof.
  assert (startup_keys sample_node bare_snapshot sample_recovery = Ok sample_keys) as Hk by (vm_compute; reflexivity).
  split; [exact Hk|]. exact (startup_keys_complete sample_node bare_snapshot sample_recovery sample_keys Hk).
Defined.
