(* ===== verification/Dispatcher.v ===== *)
(** * The reconcile dispatcher (internal/reconcile/dispatcher.go, backend_health_source.go)

    One worker takes keys from its ready list, rebuilds their plans and executes
    them; the availability of the backend gates it. The worker's loop is a state
    machine whose steps are the stretches between two points at which other
    goroutines may act: BackendHealthy, called by the health source, runs in
    between under healthOperationMu. Which case a select takes is an input. The
    queue itself is file WakeQueue: here any well-formed key may be received. *)

From S2P Require Import Prelude GoStd GoFmt Sha256 Netip Identity CoreModel Enforcement.
From S2P Require Import ObservedState ReconcilePlan Controller ControllerOps WakeQueue PlanProvider.

(** ** Constants *)
Definition backendHealthProbeTimeout : duration := 5 * second.
Definition backendHealthProbeBackoff : list duration :=
  [second; 5 * second; 30 * second; 5 * minute; 15 * minute].

Inductive BackendHealthState := BackendHealthNotReady | BackendHealthHealthy | BackendHealthDegraded.
#[export] Instance BackendHealthState_eq_dec : EqDecision BackendHealthState.
Proof. solve_decision. Defined.
Record BackendHealthStatus := MkHealth {
  bh_State : BackendHealthState;
  bh_ConsecutiveFailures : Z;
  bh_TotalFailures : Z
}.
Record backendHealthPolicy := MkHealthPolicy { hp_probeTimeout : duration; hp_backoff : list duration }.
Definition defaultBackendHealthPolicy : backendHealthPolicy :=
  MkHealthPolicy backendHealthProbeTimeout backendHealthProbeBackoff.

Fixpoint check_backoff (index : Z) (previous : option duration) (l : list duration) : result unit :=
  match l with
  | [] => Ok tt
  | delay :: rest =>
    fail_if (delay <=? 0) (Errorf ("Backend health Probe backoff " +:+ itoa index +:+ " must be positive"));;
    fail_if (match previous with Some p => delay <? p | None => false end)
            (Errorf "Backend health Probe backoff must be nondecreasing");;
    check_backoff (index + 1) (Some delay) rest
  end.
Definition prepareBackendHealthPolicy (policy : backendHealthPolicy) : result backendHealthPolicy :=
  fail_if (hp_probeTimeout policy <=? 0) (Errorf "Backend health Probe timeout must be positive");;
  fail_if (list_is_empty (hp_backoff policy)) (Errorf "Backend health Probe backoff is required");;
  check_backoff 0 None (hp_backoff policy);;
  Ok policy.

(** The fields the health operations touch; healthChanged is a channel of one
    slot. *)
Record Dispatcher := MkDispatcher {
  d_healthPolicy : backendHealthPolicy;
  d_health : BackendHealthStatus;
  d_nextHealthProbeAt : time;
  d_healthChanged : bool
}.
(** The controller, the plans and the clock are always present. *)
Definition newDispatcher (queueCapacity : Z) (healthPolicy : backendHealthPolicy) : result Dispatcher :=
  fail_if (queueCapacity <=? 0) (Errorf "queue capacity must be positive");;
  preparedPolicy ← prepareBackendHealthPolicy healthPolicy;
  Ok (MkDispatcher preparedPolicy (MkHealth BackendHealthNotReady 0 0) 0 false).
Definition NewDispatcherWithClock (queueCapacity : Z) : result Dispatcher :=
  newDispatcher queueCapacity defaultBackendHealthPolicy.

Record dispatchWake := MkDispatchWake {
  dw_key : ReconcileKey;
  dw_deadline : option time;
  dw_staleReruns : Z;
  dw_startup : bool
}.
Definition plain_wake (key : ReconcileKey) : dispatchWake := MkDispatchWake key None 0 false.
Record dispatchResult := MkDispatchResult { dr_rerun : bool; dr_backendUnavailable : bool }.
Definition no_result : dispatchResult := MkDispatchResult false false.

Inductive startupRecoveryGate := startupRecoveryImmediate | startupRecoveryHealthyEvent | startupRecoveryDue.

Abbreviation deadlines := (gmap ReconcileKey time) (only parsing).

Definition notifyHealthChanged (d : Dispatcher) : Dispatcher :=
  MkDispatcher (d_healthPolicy d) (d_health d) (d_nextHealthProbeAt d) true.
Definition backendHealthState (d : Dispatcher) : BackendHealthState := bh_State (d_health d).
Definition degraded (d : Dispatcher) : bool := bool_decide (backendHealthState d = BackendHealthDegraded).
Definition recordBackendHealthy (notify : bool) (d : Dispatcher) : Dispatcher :=
  let d' := MkDispatcher (d_healthPolicy d)
              (MkHealth BackendHealthHealthy 0 (bh_TotalFailures (d_health d))) 0 (d_healthChanged d) in
  if notify then notifyHealthChanged d' else d'.
(** The delay after the failures so far; the index is unsigned. *)
Definition health_backoff (p : backendHealthPolicy) (failures : Z) : duration :=
  let index := wrap64 (failures - 1) in
  let index := if Z.of_nat (length (hp_backoff p)) <=? index
               then Z.of_nat (length (hp_backoff p)) - 1 else index in
  default 0 (hp_backoff p !! Z.to_nat index).
Definition record_unavailable (notify : bool) (now : time) (d : Dispatcher) : Dispatcher :=
  let failures := wrap64 (bh_ConsecutiveFailures (d_health d) + 1) in
  let d' := MkDispatcher (d_healthPolicy d)
              (MkHealth BackendHealthDegraded failures (wrap64 (bh_TotalFailures (d_health d) + 1)))
              (now + health_backoff (d_healthPolicy d) failures) (d_healthChanged d) in
  if notify then notifyHealthChanged d' else d'.

Section dispatcher.
Context {U : Unicode} {E : Type}.
Context `{Clock E, Backend E, CriticalAuditWriter E, PersistentStateStore E, Scheduler E}.
Context `{Cancellation E, PlanProvider E}.

Definition ctx_err : M E (option error) := ask env_Cancelled.

(** ** Health *)
Definition recordBackendUnavailable (notify : bool) (d : Dispatcher) : M E Dispatcher :=
  now ← Now; mret (record_unavailable notify now d).

Definition healthProbeDue (d : Dispatcher) : M E bool :=
  if degraded d && negb (IsZero (d_nextHealthProbeAt d))
  then now ← Now; mret (negb (After (d_nextHealthProbeAt d) now))
  else mret false.

Definition clamp_delay (delay : duration) : duration := if delay <? 0 then 0 else delay.
Definition nextHealthTimer (d : Dispatcher) : M E (option duration) :=
  if negb (degraded d) || IsZero (d_nextHealthProbeAt d) then mret None
  else now ← Now; mret (Some (clamp_delay (TimeSub (d_nextHealthProbeAt d) now))).

Definition earlier (acc deadline : time) : time := if IsZero acc || Before deadline acc then deadline else acc.
Definition nextTimer (l : deadlines) : M E (option duration) :=
  let earliest := foldl earlier 0 ((map_to_list l).*2) in
  if IsZero earliest then mret None
  else now ← Now; mret (Some (clamp_delay (TimeSub earliest now))).

(** ** Retry state *)
Definition retryState (key : ReconcileKey) : M E (option RetryState) :=
  match rk_Domain key with
  | DomainInfrastructure => locked (c ← get_c; mret (InfrastructureState c).2)
  | DomainPolicy => locked (c ← get_c; mret (PolicyState c).2)
  | DomainTarget => locked (c ← get_c; mret (TargetState c (rk_Target key) ≫= snd))
  | DomainOther _ => mret None
  end.

Definition updateDeadline (key : ReconcileKey) (l : deadlines) : M E deadlines :=
  state ← retryState key;
  match state with
  | Some s =>
    match rs_Status s, rs_NextAttemptAt s with
    | ReconcileRetryWaiting, Some next =>
      now ← Now; mret (if After next now then <[key := next]> l else delete key l)
    | _, _ => mret (delete key l)
    end
  | None => mret (delete key l)
  end.

(** ** Dispatch *)
(** What dispatch does before it executes a plan: nothing more (with the new
    deadlines), or execute. *)
Inductive readiness := Skip (l : deadlines) | Proceed.
Definition check_wake (wake : dispatchWake) (state : option RetryState) (l : deadlines) : M E readiness :=
  match dw_deadline wake with
  | Some deadline =>
    mret (match state with
          | Some s =>
            if bool_decide (rs_Status s = ReconcileRetryWaiting)
               && match rs_NextAttemptAt s with Some next => TimeEqual next deadline | None => false end
            then Proceed else Skip l
          | None => Skip l
          end)
  | None =>
    match state with
    | Some s =>
      if dw_startup wake then mret Proceed
      else match rs_Status s with
      | ReconcileConverged | ReconcileDegraded => mret (Skip (delete (dw_key wake) l))
      | ReconcileRetryWaiting =>
        match rs_NextAttemptAt s with
        | None => st_fail (Errorf ("retry waiting key " +:+ reconcileKeyName (dw_key wake) +:+ " has no deadline"))
        | Some next =>
          now ← Now;
          mret (if After next now then Skip (<[dw_key wake := next]> l) else Proceed)
        end
      | _ => mret Proceed
      end
    | None => mret Proceed
    end
  end.

Definition classify (key : ReconcileKey) (execution : ExecutionResult) (executeErr : option error)
    : result dispatchResult :=
  match executeErr with
  | None => Ok (MkDispatchResult false (bool_decide (ap_Kind (er_Apply execution) = ResultUnknown)))
  | Some e =>
    if errors_Is e errTargetIntentExpired then Ok no_result
    else if errors_Is e ErrStalePlan || errors_Is e ErrStaleCompletion then Ok (MkDispatchResult true false)
    else if errors_Is e ErrRetryNotReady || errors_Is e ErrBudgetExhausted then Ok no_result
    else if errors_Is e ErrInvalidPlan then Err e
    else if errors_As e "backendOperationError" then Ok (MkDispatchResult false true)
    else Err (Wrapf ("execute " +:+ reconcileKeyName key) e)
  end.

Definition dispatch (wake : dispatchWake) (l : deadlines) : M E (dispatchResult * deadlines) :=
  let key := dw_key wake in
  plan ← st_wrap ("load current Plan for " +:+ reconcileKeyName key) (CurrentPlan key);
  match plan with
  | None => mret (no_result, delete key l)
  | Some plan =>
    if negb (bool_decide (op_Domain plan = rk_Domain key)) || negb (bool_decide (op_Target plan = rk_Target key))
    then st_fail (Errorf ("current Plan does not match queued key " +:+ reconcileKeyName key))
    else
      state ← retryState key;
      ready ← check_wake wake state l;
      match ready with
      | Skip l' => mret (no_result, l')
      | Proceed =>
        '(execution, executeErr) ← Execute plan;
        l' ← updateDeadline key l;
        r ← st_lift (classify key execution executeErr);
        mret (r, l')
      end
  end.

(** ** Recovery *)
Fixpoint startup_wakes (keys : list ReconcileKey) : M E (list dispatchWake) :=
  match keys with
  | [] => mret []
  | key :: rest =>
    state ← retryState key;
    wakes ← startup_wakes rest;
    mret (MkDispatchWake key None 0
            (match state with Some s => bool_decide (rs_Status s = ReconcileConverged) | None => false end) :: wakes)
  end.

Definition recoverStartup (keys : list ReconcileKey) (gate : startupRecoveryGate) (d : Dispatcher)
    : M E (list dispatchWake * bool * Dispatcher) :=
  open ← (match gate with
          | startupRecoveryImmediate => mret true
          | startupRecoveryHealthyEvent => mret (bool_decide (backendHealthState d = BackendHealthHealthy))
          | startupRecoveryDue => healthProbeDue d
          end);
  if negb (open : bool) then mret ([], false, d)
  else
    r ← st_try (probeStartupRecovery keys (hp_probeTimeout (d_healthPolicy d)));
    cancelled ← ctx_err;
    if negb (is_nil cancelled) then mret ([], false, d)
    else match r with
    | Err e => st_fail e
    | Ok outcome =>
      if negb (is_nil (pr_backendErr outcome))
      then d' ← recordBackendUnavailable false d; mret ([], false, d')
      else
        wakes ← startup_wakes (pr_unresolved outcome);
        mret (wakes, true, recordBackendHealthy false d)
    end.

Definition recoverBackendHealth (requireDue : bool) (d : Dispatcher) : M E (list dispatchWake * Dispatcher) :=
  due ← (if requireDue then healthProbeDue d else mret true);
  if negb (due : bool) then mret ([], d)
  else
    r ← st_try (probeRecovery (hp_probeTimeout (d_healthPolicy d)));
    cancelled ← ctx_err;
    if negb (is_nil cancelled) then mret ([], d)
    else match r with
    | Err e => st_fail e
    | Ok outcome =>
      if negb (is_nil (pr_backendErr outcome))
      then d' ← recordBackendUnavailable false d; mret ([], d')
      else mret (plain_wake <$> pr_unresolved outcome, recordBackendHealthy false d)
    end.

Definition backendHealthUnavailableError (cause : error) : error :=
  Typed "backendHealthUnavailableError" [] cause.

(** BackendHealthy after its waits: what it returns, and the keys it goes on to
    wake. *)
Record healthy_call := MkHealthyCall { hc_resolved : Z; hc_err : option error; hc_wakes : list ReconcileKey }.
Definition resolved_of (r : result probeRecoveryOutcome) : Z :=
  match r with Ok outcome => pr_resolved outcome | Err _ => 0 end.
Definition BackendHealthy (d : Dispatcher) : M E (healthy_call * Dispatcher) :=
  r ← st_try (probeRecovery (hp_probeTimeout (d_healthPolicy d)));
  cancelled ← ctx_err;
  match cancelled with
  | Some e => mret (MkHealthyCall (resolved_of r) (Some e) [], d)
  | None =>
    match r with
    | Err e => mret (MkHealthyCall 0 (Some e) [], d)
    | Ok outcome =>
      match pr_backendErr outcome with
      | Some e =>
        d' ← recordBackendUnavailable true d;
        mret (MkHealthyCall (pr_resolved outcome) (Some (backendHealthUnavailableError e)) [], d')
      | None =>
        mret (MkHealthyCall (pr_resolved outcome) None (pr_unresolved outcome), recordBackendHealthy true d)
      end
    end
  end.

(** ** The health source (backend_health_source.go) *)
Record availability := MkAvailability { av_known : bool; av_reachable : bool }.
Definition unknown_availability : availability := MkAvailability false false.
(** One observation: [probe] is ProbeHealth. The result is what Run does next:
    go on, or end with an error. *)
Definition observe (probe : M E unit) (a : availability) (d : Dispatcher)
    : M E (option error * availability * Dispatcher) :=
  r ← st_try probe;
  cancelled ← ctx_err;
  if negb (is_nil cancelled) then mret (None, a, d)
  else match r with
  | Err _ => mret (None, MkAvailability true false, d)
  | Ok _ =>
    let up := MkAvailability true true in
    if av_known a && negb (av_reachable a) then
      '(c, d') ← BackendHealthy d;
      cancelled ← ctx_err;
      mret (if negb (is_nil cancelled) then (None, a, d')
            else match hc_err c with
            | None => (None, up, d')
            | Some e =>
              if errors_Is e ErrDispatcherStopped || negb (errors_As e "backendHealthUnavailableError")
              then (Some e, a, d') else (None, up, d')
            end)
    else mret (None, up, d)
  end.

(** ** Run *)
(** Where the worker is: it reads ReconcileKeys, recovers the startup keys, and
    then goes round its loop, which ends in a dispatch or in a select whose
    channels ([queue]: the queue and the retry timer are open; [retry], [health]:
    the timer is armed) were chosen at the top. *)
Inductive loop_phase :=
  | NotStarted
  | Starting
  | AtTop
  | Dispatching
  | Selecting (queue retry health : bool)
  | Finished (err : option error).
Record loop := MkLoop {
  lp_phase : loop_phase;
  lp_startup : list ReconcileKey;
  lp_deadlines : deadlines;
  lp_ready : list dispatchWake;
  lp_startupPending : bool
}.
Definition new_loop : loop := MkLoop NotStarted [] ∅ [] false.
Definition at_phase (l : loop) (ph : loop_phase) : loop :=
  MkLoop ph (lp_startup l) (lp_deadlines l) (lp_ready l) (lp_startupPending l).
Definition add_ready (l : loop) (wakes : list dispatchWake) : loop :=
  MkLoop (lp_phase l) (lp_startup l) (lp_deadlines l) (lp_ready l ++ wakes) (lp_startupPending l).

Fixpoint unique_keys (keys seen : list ReconcileKey) : result (list ReconcileKey) :=
  match keys with
  | [] => Ok seen
  | key :: rest =>
    wrap "validate startup reconcile key" (validateReconcileKey key);;
    unique_keys rest (if bool_decide (key ∈ seen) then seen else seen ++ [key])
  end.

(** A startup recovery inside Run, and the check of the context after it. *)
Definition run_startup (gate : startupRecoveryGate) (d : Dispatcher) (l : loop) : M E (Dispatcher * loop) :=
  '(wakes, recovered, d') ← recoverStartup (lp_startup l) gate d;
  cancelled ← ctx_err;
  mret (d', if negb (is_nil cancelled) then at_phase l (Finished None)
            else MkLoop AtTop (lp_startup l) (lp_deadlines l) (lp_ready l ++ wakes) (negb recovered)).

Definition top_of_loop (d : Dispatcher) (l : loop) : M E (Dispatcher * loop) :=
  cancelled ← ctx_err;
  if negb (is_nil cancelled) then mret (d, at_phase l (Finished None))
  else
    let open := negb (lp_startupPending l) && negb (degraded d) in
    if open && negb (list_is_empty (lp_ready l)) then mret (d, at_phase l Dispatching)
    else
      retry ← (if open then nextTimer (lp_deadlines l) else mret None);
      health ← nextHealthTimer d;
      mret (d, at_phase l (Selecting open (negb (is_nil retry)) (negb (is_nil health)))).

(** A dispatch, under healthOperationMu. *)
Definition dispatch_next (d : Dispatcher) (l : loop) : M E (Dispatcher * loop) :=
  if degraded d then mret (d, at_phase l AtTop)
  else match lp_ready l with
  | [] => st_fail (Errorf "index out of range")
  | wake :: rest =>
    '(r, deadlines) ← dispatch wake (lp_deadlines l);
    d' ← (if dr_backendUnavailable r then recordBackendUnavailable false d else mret d);
    let l' := MkLoop AtTop (lp_startup l) deadlines rest (lp_startupPending l) in
    if dr_rerun r then
      if negb (dw_staleReruns wake =? 0)
      then mret (d', at_phase l' (Finished (Some (Errorf ("current Plan for "
             +:+ reconcileKeyName (dw_key wake) +:+ " remained stale after refresh")))))
      else mret (d', add_ready l' [MkDispatchWake (dw_key wake) None 1 (dw_startup wake)])
    else mret (d', l')
  end.

(** What the worker does until it can next be overtaken; in a select it waits. *)
Definition work (d : Dispatcher) (l : loop) : option (M E (Dispatcher * loop)) :=
  match lp_phase l with
  | NotStarted => Some (
      keys ← st_wrap "load startup reconcile keys" ReconcileKeys;
      unique ← st_lift (unique_keys keys []);
      mret (d, MkLoop Starting unique ∅ [] false))
  | Starting => Some (
      if list_is_empty (lp_startup l) then mret (d, at_phase l AtTop)
      else run_startup startupRecoveryImmediate d l)
  | AtTop => Some (top_of_loop d l)
  | Dispatching => Some (dispatch_next d l)
  | Selecting _ _ _ | Finished _ => None
  end.

(** The cases of the select. *)
Inductive selection := SelDone | SelHealthChanged | SelHealthTimer | SelKey (key : ReconcileKey) | SelRetry.
Definition take_token (d : Dispatcher) : Dispatcher :=
  MkDispatcher (d_healthPolicy d) (d_health d) (d_nextHealthProbeAt d) false.
Definition due_wakes (now : time) (l : list (ReconcileKey * time)) : list dispatchWake :=
  (λ e, MkDispatchWake e.1 (Some e.2) 0 false) <$> List.filter (λ e, negb (After e.2 now)) l.

Definition select (x : selection) (d : Dispatcher) (l : loop) : option (M E (Dispatcher * loop)) :=
  match lp_phase l with
  | Selecting queue retry health =>
    match x with
    | SelDone => Some (mret (d, at_phase l (Finished None)))
    | SelHealthChanged =>
      if negb (d_healthChanged d) then None
      else Some (
        let d := take_token d in
        if lp_startupPending l then run_startup startupRecoveryHealthyEvent d l
        else mret (d, at_phase l AtTop))
    | SelHealthTimer =>
      if negb health then None
      else Some (
        if lp_startupPending l then run_startup startupRecoveryDue d l
        else
          '(wakes, d') ← recoverBackendHealth true d;
          cancelled ← ctx_err;
          mret (d', if negb (is_nil cancelled) then at_phase l (Finished None)
                    else add_ready (at_phase l AtTop) wakes))
    | SelKey key =>
      if negb queue then None
      else match validateReconcileKey key with
      | Err _ => None
      | Ok _ => Some (mret (d, add_ready (at_phase l AtTop) [plain_wake key]))
      end
    | SelRetry =>
      if negb retry then None
      else Some (
        now ← Now;
        entries ← range (map_to_list (lp_deadlines l));
        mret (d, MkLoop AtTop (lp_startup l) (base.filter (λ e, now < e.2) (lp_deadlines l))
                   (lp_ready l ++ due_wakes now entries) (lp_startupPending l)))
    end
  | _ => None
  end.

(** ** The system: the worker, the health source and administrators *)
Record system := MkSystem { sy_w : world E; sy_d : Dispatcher; sy_l : loop }.
Inductive happening :=
  | Work
  | Select (x : selection)
  | CallHealthy
  | RetryKey (key : ReconcileKey).

Definition worker_step (m : option (M E (Dispatcher * loop))) (s : system) : option system :=
  m ← m;
  Some (match m (sy_w s) with
        | (Ok (d, l), w) => MkSystem w d l
        | (Err e, w) => MkSystem w (sy_d s) (at_phase (sy_l s) (Finished (Some e)))
        end).
Definition retry_key (key : ReconcileKey) (w : world E) : world E :=
  match rk_Domain key with
  | DomainInfrastructure => (RetryInfrastructure w).2
  | DomainPolicy => (RetryPolicy w).2
  | _ => (RetryTarget (rk_Target key) w).2
  end.
Definition system_step (h : happening) (s : system) : option system :=
  match h with
  | Work => worker_step (work (sy_d s) (sy_l s)) s
  | Select x => worker_step (select x (sy_d s) (sy_l s)) s
  | CallHealthy =>
    match BackendHealthy (sy_d s) (sy_w s) with
    | (Ok (_, d), w) => Some (MkSystem w d (sy_l s))
    | (Err _, w) => Some (MkSystem w (sy_d s) (sy_l s))
    end
  | RetryKey key => Some (MkSystem (retry_key key (sy_w s)) (sy_d s) (sy_l s))
  end.
Fixpoint run_system (l : list happening) (s : system) : option system :=
  match l with
  | [] => Some s
  | h :: rest => s' ← system_step h s; run_system rest s'
  end.
End dispatcher.
Arguments system E : clear implicits.
Arguments MkSystem {E}.
