(* ===== verification/DispatcherSafety.v ===== *)
(** * What the dispatcher guarantees

    The dispatcher sends mutations only while the backend is not degraded and
    the startup recovery is done; it keeps the controller's promise that the
    outcome of a mutation is known before the next; and while it is degraded or
    its startup recovery is pending, something is always armed that will wake
    it. *)

From S2P Require Import Prelude GoStd GoFmt Sha256 Netip Identity CoreModel Enforcement.
From S2P Require Import ObservedState ReconcilePlan Controller ControllerOps ControllerFences.
From S2P Require Import ControllerBarrier ControllerSafety WakeQueue PlanProvider Dispatcher.

Section laws.
Context {U : Unicode} {E : Type} `{DurableStore E} `{Cancellation E, PlanProvider E}.
Abbreviation quiet_frame := (frame (E:=E) not_apply true).

Definition guard_le (w w' : world E) : Prop := guarded w → guarded w'.
#[export] Instance guard_le_preorder : PreOrder guard_le.
Proof. unfold guard_le. split; red; auto. Qed.

(** What the dispatcher needs of its ports: asking whether the context is
    cancelled does not write the database, and a cancelled context stays
    cancelled; plans are made without mutating the firewall. *)
Class LawfulPorts : Prop := {
  lp_cancel_durable n e : durable n (env_Cancelled e).2 = durable n e;
  lp_cancel_stays e x e' : env_Cancelled e = (Some x, e') → is_nil (env_Cancelled e').1 = false;
  lp_keys_quiet : keeps quiet_frame ReconcileKeys;
  lp_keys_guard : keeps guard_le ReconcileKeys;
  lp_plan_quiet key : keeps quiet_frame (CurrentPlan key);
  lp_plan_guard key : keeps guard_le (CurrentPlan key)
}.
Context `{LawfulPorts}.

Lemma guard_calm {A} (m : M E A) : keeps quiet_frame m → keeps calm m → keeps guard_le m.
Proof. intros Hf Hc w Hg. by eapply guarded_calm. Qed.
Lemma not_apply_ok ev : not_apply ev = true → not_apply ev = true.
Proof. done. Qed.
Lemma ask_guard {A} (f : E → A * E) : (∀ n e, durable n (f e).2 = durable n e) → keeps guard_le (ask f).
Proof. intros Hf. apply guard_calm; [apply frame_ask|by apply calm_ask]. Qed.
Lemma ctx_err_guard : keeps guard_le ctx_err.
Proof. apply ask_guard, lp_cancel_durable. Qed.
Lemma Now_guard : keeps guard_le Now.
Proof. apply ask_guard, durable_Now. Qed.
Lemma range_guard {A} (l : list A) : keeps guard_le (range l).
Proof. apply guard_calm; [apply frame_range|apply calm_range]. Qed.
Lemma ctx_err_quiet : keeps quiet_frame ctx_err.
Proof. apply frame_ask. Qed.

Lemma retryState_quiet key : keeps quiet_frame (retryState key).
Proof.
  unfold retryState. case_match; [apply frame_locked; frame_tac..|by apply keeps_ret, _].
Qed.
Lemma retryState_guard key : keeps guard_le (retryState key).
Proof.
  apply guard_calm; [apply retryState_quiet|]. unfold retryState.
  case_match; [apply calm_locked; keeps_tac ltac:(apply calm_get)..|by apply keeps_ret, _].
Qed.
Lemma Execute_guard plan : keeps guard_le (Execute plan).
Proof. intros w Hg. by apply Execute_guarded. Qed.
Lemma probeRecovery_guard timeout : keeps guard_le (probeRecovery timeout).
Proof. intros w Hg. by apply probeRecovery_guarded. Qed.
Lemma probeStartupRecovery_guard keys timeout : keeps guard_le (probeStartupRecovery keys timeout).
Proof. intros w Hg. by apply probeStartupRecovery_guarded. Qed.
Lemma probeRecovery_quiet timeout : keeps quiet_frame (probeRecovery timeout).
Proof. apply frame_probeRecovery, not_apply_ok. Qed.
Lemma probeStartupRecovery_quiet keys timeout : keeps quiet_frame (probeStartupRecovery keys timeout).
Proof. apply frame_probeStartupRecovery, not_apply_ok. Qed.
Lemma Now_quiet : keeps quiet_frame Now.
Proof. apply frame_ask. Qed.
Lemma range_quiet {A} (l : list A) : keeps quiet_frame (range l).
Proof. apply frame_range. Qed.
End laws.

Create HintDb guard.
#[export] Hint Resolve ctx_err_guard Now_guard range_guard retryState_guard Execute_guard probeRecovery_guard
  probeStartupRecovery_guard lp_keys_guard lp_plan_guard : guard.
#[export] Hint Resolve ctx_err_quiet Now_quiet range_quiet retryState_quiet probeRecovery_quiet
  probeStartupRecovery_quiet lp_keys_quiet lp_plan_quiet : guard.
Ltac guard_tac := keeps_tac ltac:(solve [eauto 2 with guard nocore]).

Section steps.
Context {U : Unicode} {E : Type} `{LawfulPorts E}.
Abbreviation quiet_frame := (frame (E:=E) not_apply true).
Implicit Types (d : Dispatcher) (l : loop).

Lemma startup_wakes_guard keys : keeps guard_le (startup_wakes keys).
Proof. induction keys; cbn; guard_tac. Qed.
Lemma startup_wakes_quiet keys : keeps quiet_frame (startup_wakes keys).
Proof. induction keys; cbn; guard_tac. Qed.
Hint Resolve startup_wakes_guard startup_wakes_quiet : guard.

Lemma recoverStartup_guard keys gate d : keeps guard_le (recoverStartup keys gate d).
Proof. unfold recoverStartup, recordBackendUnavailable, healthProbeDue. guard_tac. Qed.
Lemma recoverStartup_quiet keys gate d : keeps quiet_frame (recoverStartup keys gate d).
Proof. unfold recoverStartup, recordBackendUnavailable, healthProbeDue. guard_tac. Qed.
Lemma recoverBackendHealth_guard due d : keeps guard_le (recoverBackendHealth due d).
Proof. unfold recoverBackendHealth, recordBackendUnavailable, healthProbeDue. guard_tac. Qed.
Lemma recoverBackendHealth_quiet due d : keeps quiet_frame (recoverBackendHealth due d).
Proof. unfold recoverBackendHealth, recordBackendUnavailable, healthProbeDue. guard_tac. Qed.
Lemma BackendHealthy_guard d : keeps guard_le (BackendHealthy d).
Proof. unfold BackendHealthy, recordBackendUnavailable. guard_tac. Qed.
Lemma BackendHealthy_quiet d : keeps quiet_frame (BackendHealthy d).
Proof. unfold BackendHealthy, recordBackendUnavailable. guard_tac. Qed.
Lemma dispatch_guard wake deadlines : keeps guard_le (dispatch wake deadlines).
Proof. unfold dispatch, check_wake, updateDeadline. guard_tac. Qed.
Hint Resolve recoverStartup_guard recoverStartup_quiet recoverBackendHealth_guard recoverBackendHealth_quiet
  dispatch_guard : guard.

Lemma work_guard d l m : work d l = Some m → keeps guard_le m.
Proof.
  unfold work, run_startup, top_of_loop, dispatch_next, nextTimer, nextHealthTimer, recordBackendUnavailable.
  intros Hm. destruct (lp_phase l); try discriminate Hm; injection Hm as <-; guard_tac.
Qed.
Lemma work_quiet d l m : work d l = Some m → lp_phase l ≠ Dispatching → keeps quiet_frame m.
Proof.
  unfold work, run_startup, top_of_loop, nextTimer, nextHealthTimer.
  intros Hm Hph. destruct (lp_phase l); try done; injection Hm as <-; guard_tac.
Qed.
Lemma select_guard x d l m : select x d l = Some m → keeps guard_le m.
Proof.
  unfold select, run_startup. intros Hm. destruct (lp_phase l) as [| | | |queue retry health|]; try done.
  destruct x; repeat case_match; try discriminate Hm; injection Hm as <-; guard_tac.
Qed.
Lemma select_quiet x d l m : select x d l = Some m → keeps quiet_frame m.
Proof.
  unfold select, run_startup. intros Hm. destruct (lp_phase l) as [| | | |queue retry health|]; try done.
  destruct x; repeat case_match; try discriminate Hm; injection Hm as <-; guard_tac.
Qed.

Lemma retry_key_op key w : ∃ o : operation, retry_key key w = run_op o w ∧ quiet_frame w (retry_key key w).
Proof.
  unfold retry_key. destruct (rk_Domain key);
    [exists OpRetryInfrastructure|exists OpRetryPolicy|exists (OpRetryTarget (rk_Target key))..];
    (split; [done|]); [apply frame_RetryInfrastructure|apply frame_RetryPolicy|apply frame_RetryTarget..];
    apply not_apply_ok.
Qed.

Lemma worker_step_world R `{!PreOrder R} (m : option (M E (Dispatcher * loop))) (s s' : system E) :
  (∀ m0, m = Some m0 → keeps R m0) → worker_step m s = Some s' → R (sy_w s) (sy_w s').
Proof.
  unfold worker_step. intros Hm Hs. destruct m as [m|]; [|done]. cbn in Hs. specialize (Hm m eq_refl (sy_w s)).
  destruct (m (sy_w s)) as [[[d l]|e] w]; injection Hs as <-; done.
Qed.

Lemma system_step_guard h (s s' : system E) : system_step h s = Some s' → guard_le (sy_w s) (sy_w s').
Proof.
  destruct h as [|x| |key]; cbn; intros Hs.
  - eapply worker_step_world; [apply _| |done]. intros m. apply work_guard.
  - eapply worker_step_world; [apply _| |done]. intros m. apply select_guard.
  - pose proof (BackendHealthy_guard (sy_d s) (sy_w s)) as Hb.
    destruct (BackendHealthy _ _) as [[[c d]|e] w]; injection Hs as <-; done.
  - injection Hs as <-. intros Hg. destruct (retry_key_op key (sy_w s)) as (o & Ho & _). cbn. rewrite Ho.
    by apply run_op_guarded.
Qed.

Lemma run_system_guard hs (s s' : system E) : run_system hs s = Some s' → guard_le (sy_w s) (sy_w s').
Proof.
  revert s. induction hs as [|h hs IH]; intros s Hr; cbn in Hr; [by simplify_eq|].
  destruct (system_step h s) as [s1|] eqn:Hs; [|done]. etransitivity; [by eapply system_step_guard|by apply IH].
Qed.

(** ** The gate *)
Definition gate_inv (l : loop) : Prop := lp_phase l = Dispatching → lp_startupPending l = false ∧ lp_ready l ≠ [].

Lemma top_of_loop_gate d l w d' l' w' : top_of_loop d l w = (Ok (d', l'), w') → gate_inv l'.
Proof.
  unfold top_of_loop. intros Ht. st_step Ht as cancelled w1 Hc. destruct (negb (is_nil cancelled)).
  { by injection Ht as <- <- <-. }
  destruct (negb (lp_startupPending l)) eqn:Hp, (negb (degraded d)), (lp_ready l) eqn:Hr; cbn in Ht;
    try (st_step Ht as retry w2 Hretry; st_step Ht as health w3 Hhealth); injection Ht as <- <- <-; try done.
  intros _. cbn. rewrite Hr. split; [by apply negb_true_iff|done].
Qed.
Lemma run_startup_phase gate d l w d' l' w' : run_startup gate d l w = (Ok (d', l'), w') → lp_phase l' ≠ Dispatching.
Proof.
  unfold run_startup. intros Hr. st_step Hr as x w1 Hx. destruct x as [[wakes recovered] d1].
  st_step Hr as cancelled w2 Hc. injection Hr as <- <- <-. by destruct (negb (is_nil cancelled)).
Qed.
Lemma dispatch_next_phase d l w d' l' w' : dispatch_next d l w = (Ok (d', l'), w') → lp_phase l' ≠ Dispatching.
Proof.
  unfold dispatch_next. intros Hr. destruct (degraded d); [by injection Hr as <- <- <-|].
  destruct (lp_ready l); [done|]. st_step Hr as x w1 Hx. destruct x as [r ls]. st_step Hr as d1 w2 Hd.
  destruct (dr_rerun r); [destruct (negb _)|]; by injection Hr as <- <- <-.
Qed.
Lemma select_phase x d l m w d' l' w' : select x d l = Some m → m w = (Ok (d', l'), w') → lp_phase l' ≠ Dispatching.
Proof.
  unfold select. intros Hs Hm. destruct (lp_phase l) as [| | | |queue retry health|]; try done.
  destruct x; repeat case_match; try discriminate Hs; injection Hs as <-;
    try (by eapply run_startup_phase); try (by injection Hm as <- <- <-).
  - st_step Hm as y w1 Hy. destruct y as [wakes d1]. st_step Hm as cancelled w2 Hc.
    injection Hm as <- <- <-. by destruct (negb (is_nil cancelled)).
  - st_step Hm as now w1 Hn. st_step Hm as entries w2 He. by injection Hm as <- <- <-.
Qed.
Lemma work_gate d l m w d' l' w' : work d l = Some m → m w = (Ok (d', l'), w') → gate_inv l'.
Proof.
  unfold work. intros Hs Hm. destruct (lp_phase l); try done; injection Hs as <-.
  - st_step Hm as keys w1 Hk. st_step Hm as unique w2 Hu. by injection Hm as <- <- <-.
  - destruct (list_is_empty _); [by injection Hm as <- <- <-|].
    intros Hd. by destruct (run_startup_phase _ _ _ _ _ _ _ Hm).
  - by eapply top_of_loop_gate.
  - intros Hd. by destruct (dispatch_next_phase _ _ _ _ _ _ Hm).
Qed.

Lemma system_step_gate h (s s' : system E) : system_step h s = Some s' → gate_inv (sy_l s) → gate_inv (sy_l s').
Proof.
  destruct h as [|x| |key]; cbn; intros Hs Hg.
  - unfold worker_step in Hs. destruct (work _ _) as [m|] eqn:Hm; [|done]. cbn in Hs.
    destruct (m (sy_w s)) as [[[d l]|e] w] eqn:Hr; injection Hs as <-; [by eapply work_gate|done].
  - unfold worker_step in Hs. destruct (select _ _ _) as [m|] eqn:Hm; [|done]. cbn in Hs.
    destruct (m (sy_w s)) as [[[d l]|e] w] eqn:Hr; injection Hs as <-; [|done].
    intros Hd. by destruct (select_phase _ _ _ _ _ _ _ _ Hm Hr).
  - destruct (BackendHealthy _ _) as [[[c d]|e] w]; by injection Hs as <-.
  - by injection Hs as <-.
Qed.
Lemma run_system_gate hs (s s' : system E) : run_system hs s = Some s' → gate_inv (sy_l s) → gate_inv (sy_l s').
Proof.
  revert s. induction hs as [|h hs IH]; intros s Hr Hg; cbn in Hr; [by simplify_eq|].
  destruct (system_step h s) as [s1|] eqn:Hs; [|done]. eauto using system_step_gate.
Qed.

(** What a step adds to the trace holds no mutation, or it is a dispatch that
    found the gate open. *)
Lemma system_step_quiet h (s s' : system E) : system_step h s = Some s' → gate_inv (sy_l s) →
  quiet_frame (sy_w s) (sy_w s') ∨
  (h = Work ∧ lp_phase (sy_l s) = Dispatching ∧ lp_startupPending (sy_l s) = false ∧ degraded (sy_d s) = false).
Proof.
  destruct h as [|x| |key]; cbn; intros Hs Hg.
  - destruct (lp_phase (sy_l s)) eqn:Hph;
      try (left; eapply worker_step_world; [apply _| |done]; intros m Hm; eapply work_quiet; [done|by rewrite Hph]).
    destruct (degraded (sy_d s)) eqn:Hd; [left|right; destruct (Hg Hph); done].
    eapply worker_step_world; [apply _| |done]. unfold work, dispatch_next. rewrite Hph, Hd.
    intros m [= <-]. guard_tac.
  - left. eapply worker_step_world; [apply _| |done]. intros m. apply select_quiet.
  - left. pose proof (BackendHealthy_quiet (sy_d s) (sy_w s)) as Hb.
    destruct (BackendHealthy _ _) as [[[c d]|e] w]; injection Hs as <-; done.
  - left. injection Hs as <-. by destruct (retry_key_op key (sy_w s)) as (o & _ & Hq).
Qed.
End steps.

(** ** Something always wakes a dispatcher that waits for its backend *)

(** The wall clock is past the zero time, and the policy was prepared. *)
Class WallClock (E : Type) `{Clock E} : Prop := now_positive (e : E) : 0 < (env_Now e).1.

Lemma check_backoff_positive i p l : check_backoff i p l = Ok tt → Forall (λ x, 0 < x) l.
Proof.
  revert i p. induction l as [|x l IH]; intros i p Hc; [constructor|]. cbn in Hc. inv_ok. gobool.
  constructor; [lia|eauto].
Qed.
Definition prepared (p : backendHealthPolicy) : Prop := hp_backoff p ≠ [] ∧ Forall (λ x, 0 < x) (hp_backoff p).
Lemma prepareBackendHealthPolicy_prepared p p' : prepareBackendHealthPolicy p = Ok p' → prepared p'.
Proof.
  unfold prepareBackendHealthPolicy. intros Hp. inv_ok. split; [by destruct (hp_backoff p')|].
  by eapply check_backoff_positive.
Qed.

Lemma health_backoff_index p failures : prepared p →
  ∃ i, health_backoff p failures = default 0 (hp_backoff p !! i) ∧ (i < length (hp_backoff p))%nat.
Proof.
  intros [Hne _]. unfold health_backoff. eexists. split; [done|].
  assert (length (hp_backoff p) ≠ 0)%nat by (by destruct (hp_backoff p)).
  assert (0 ≤ wrap64 (failures - 1)) by (unfold wrap64; apply Z.mod_pos_bound; lia).
  case_match; gobool; lia.
Qed.
Lemma health_backoff_positive p failures : prepared p → 0 < health_backoff p failures.
Proof.
  intros Hp. destruct (health_backoff_index p failures Hp) as (i & -> & Hi). destruct Hp as [_ Hall].
  destruct (lookup_lt_is_Some_2 _ _ Hi) as [x Hx]. rewrite Hx. cbn. by eapply (Forall_lookup_1 _ _ _ _ Hall).
Qed.

Section awake.
Context {U : Unicode} {E : Type} `{LawfulPorts E} `{!WallClock E}.
Implicit Types (d : Dispatcher) (l : loop).

Definition finished l : bool := match lp_phase l with Finished _ => true | _ => false end.
(** The timers and the token that bring the worker back to its recovery. *)
Record healthy_inv d : Prop := {
  hi_policy : prepared (d_healthPolicy d);
  hi_next : degraded d = true → 0 < d_nextHealthProbeAt d
}.
Definition pending_inv d l : Prop := finished l = false → lp_startupPending l = true →
  backendHealthState d ≠ BackendHealthNotReady ∧ (degraded d = true ∨ d_healthChanged d = true).
Definition select_inv d l : Prop := ∀ queue retry health, lp_phase l = Selecting queue retry health →
  d_healthChanged d = true ∨ health = true ∨ (queue = true ∧ degraded d = false ∧ lp_startupPending l = false).
Record awake_inv d l : Prop := {
  ai_healthy : healthy_inv d;
  ai_pending : pending_inv d l;
  ai_select : select_inv d l
}.

Lemma Now_positive (w w' : world E) now : Now w = (Ok now, w') → 0 < now.
Proof.
  unfold Now, ask. pose proof (now_positive (w_e w)) as Hn. destruct (env_Now (w_e w)). by intros [= <- <-].
Qed.

Lemma unavailable_healthy notify (w w' : world E) d d' : healthy_inv d →
  recordBackendUnavailable notify d w = (Ok d', w') →
  healthy_inv d' ∧ degraded d' = true ∧ (notify = true → d_healthChanged d' = true).
Proof.
  intros [Hp Hn] Hr. unfold recordBackendUnavailable in Hr. st_step Hr as now w1 Hnow. injection Hr as <- <-.
  apply Now_positive in Hnow. unfold record_unavailable.
  pose proof (health_backoff_positive _ (wrap64 (bh_ConsecutiveFailures (d_health d) + 1)) Hp).
  split; [|by destruct notify]. split; [by destruct notify|]. intros _. destruct notify; cbn; lia.
Qed.
Lemma recordBackendHealthy_healthy notify d : healthy_inv d → healthy_inv (recordBackendHealthy notify d).
Proof. intros [Hp Hn]. split; by destruct notify. Qed.

(** A startup recovery that is not done leaves the backend degraded, unless the
    gate was closed or the context is cancelled. *)
Definition closed (gate : startupRecoveryGate) d : Prop :=
  match gate with
  | startupRecoveryImmediate => False
  | startupRecoveryHealthyEvent => backendHealthState d ≠ BackendHealthHealthy
  | startupRecoveryDue => True
  end.
Lemma recoverStartup_spec keys gate d (w w' : world E) wakes recovered d' : healthy_inv d →
  recoverStartup keys gate d w = (Ok (wakes, recovered, d'), w') →
  healthy_inv d' ∧ (recovered = false → degraded d' = true ∨
    (d' = d ∧ (closed gate d ∨ is_nil (env_Cancelled (w_e w')).1 = false))).
Proof.
  intros Hd Hr. unfold recoverStartup in Hr. st_step Hr as open w1 Hopen. destruct (negb open) eqn:Ho.
  - injection Hr as <- <- <- <-. split; [done|]. intros _. right. split; [done|]. left. apply negb_true_iff in Ho as ->.
    destruct gate; [done| |done]. injection Hopen as Hopen _. cbn. intros Heq.
    by rewrite bool_decide_eq_true_2 in Hopen.
  - st_step Hr as r w2 Hprobe. st_step Hr as cancelled w3 Hc. destruct cancelled as [x|]; cbn in Hr.
    + injection Hr as <- <- <- <-. split; [done|]. intros _. right. split; [done|]. right.
      unfold ctx_err, ask in Hc. destruct (env_Cancelled (w_e w2)) as [c e] eqn:He.
      injection Hc as -> <-. cbn. by eapply lp_cancel_stays.
    + destruct r as [outcome|e]; [|done]. destruct (negb (is_nil (pr_backendErr outcome))).
      * st_step Hr as d1 w4 Hrec. injection Hr as <- <- <- <-.
        apply unavailable_healthy in Hrec as (Hh & Hdeg & _); [|done]. by split; [|left].
      * st_step Hr as ws w4 Hws. injection Hr as <- <- <- <-. split; [by apply (recordBackendHealthy_healthy false)|done].
Qed.

Lemma degraded_ready d : degraded d = true → backendHealthState d ≠ BackendHealthNotReady.
Proof. unfold degraded. rewrite bool_decide_eq_true. by intros ->. Qed.

Lemma run_startup_awake gate d l (w w' : world E) d' l' : healthy_inv d →
  (closed gate d → backendHealthState d ≠ BackendHealthNotReady ∧ (degraded d = true ∨ d_healthChanged d = true)) →
  run_startup gate d l w = (Ok (d', l'), w') → awake_inv d' l'.
Proof.
  intros Hd Hclosed Hr. unfold run_startup in Hr. st_step Hr as x w1 Hx. destruct x as [[wakes recovered] d1].
  apply recoverStartup_spec in Hx as [Hd1 Hrec]; [|done].
  st_step Hr as cancelled w2 Hc. injection Hr as -> <- ->.
  unfold ctx_err, ask in Hc. destruct (env_Cancelled (w_e w1)) as [c e] eqn:He. injection Hc as <- <-.
  destruct c as [c|]; cbn; [by split|]. split; [done| |done].
  intros _ Hpend. cbn in Hpend. apply negb_true_iff in Hpend. destruct (Hrec Hpend) as [Hdeg|[-> [Hcl|Hcan]]].
  - split; [by apply degraded_ready|by left].
  - by apply Hclosed.
  - done.
Qed.

Lemma top_of_loop_awake d l (w w' : world E) d' l' : awake_inv d l → finished l = false →
  top_of_loop d l w = (Ok (d', l'), w') → awake_inv d' l'.
Proof.
  intros [Hd Hp Hs] Hf Ht. specialize (Hp Hf). unfold top_of_loop in Ht. st_step Ht as cancelled w1 Hc.
  destruct (negb (is_nil cancelled)); [injection Ht as <- <- <-; by split|].
  destruct (negb (lp_startupPending l) && negb (degraded d)) eqn:Hopen.
  - apply andb_true_iff in Hopen as [Hnp%negb_true_iff Hnd%negb_true_iff].
    destruct (lp_ready l) eqn:Hr; cbn in Ht.
    + st_step Ht as retry w2 Hretry. st_step Ht as health w3 Hhealth. injection Ht as <- <- <-.
      split; [done|by intros _|]. intros q r h [= <- <- <-]. auto.
    + injection Ht as <- <- <-. split; [done|by intros _|done].
  - cbn in Ht. st_step Ht as retry w2 Hretry. st_step Ht as health w3 Hhealth. injection Ht as <- <- <-.
    split; [done|by intros _|]. intros q r h [= <- <- <-]. cbn.
    destruct (degraded d) eqn:Hdeg.
    + right; left. unfold nextHealthTimer in Hhealth. rewrite Hdeg in Hhealth. pose proof (hi_next _ Hd Hdeg).
      unfold IsZero in Hhealth. rewrite (proj2 (Z.eqb_neq _ _)) in Hhealth by lia. cbn in Hhealth.
      st_step Hhealth as now w4 Hnow. by injection Hhealth as <- <-.
    + left. rewrite andb_true_r in Hopen. apply negb_false_iff in Hopen. destruct (Hp Hopen) as [_ [?|?]]; done.
Qed.

Lemma dispatch_next_awake d l (w w' : world E) d' l' : awake_inv d l → lp_phase l = Dispatching → gate_inv l →
  dispatch_next d l w = (Ok (d', l'), w') → awake_inv d' l'.
Proof.
  intros [Hd Hp Hs] Hph Hg Hr. destruct (Hg Hph) as [Hnp _]. unfold dispatch_next in Hr.
  destruct (degraded d); [injection Hr as <- <- <-; split; [done| |done]; intros _; cbn; congruence|].
  destruct (lp_ready l); [done|]. st_step Hr as x w1 Hx. destruct x as [r ls]. st_step Hr as d1 w2 Hd1.
  assert (Hh : healthy_inv d1).
  { destruct (dr_backendUnavailable r); [by apply unavailable_healthy in Hd1 as (? & _ & _)|by injection Hd1 as <- <-]. }
  destruct (dr_rerun r); [destruct (negb _)|]; injection Hr as <- <- <-; split; try done; intros _; cbn; congruence.
Qed.

Lemma work_awake d l m (w w' : world E) d' l' : awake_inv d l → gate_inv l → work d l = Some m →
  m w = (Ok (d', l'), w') → awake_inv d' l'.
Proof.
  intros Hinv Hg Hw Hm. unfold work in Hw. destruct (lp_phase l) eqn:Hph; try done; injection Hw as <-.
  - st_step Hm as keys w1 Hk. st_step Hm as unique w2 Hu. injection Hm as <- <- <-. destruct Hinv. by split.
  - destruct (list_is_empty _).
    + injection Hm as <- <- <-. destruct Hinv as [? Hp ?]. split; [done| |done]. unfold pending_inv, finished in *.
      by rewrite Hph in Hp.
    + eapply run_startup_awake; [by apply Hinv| |done]. done.
  - eapply top_of_loop_awake; [done| |done]. unfold finished. by rewrite Hph.
  - by eapply dispatch_next_awake.
Qed.

Lemma recoverBackendHealth_healthy due d (w w' : world E) wakes d' : healthy_inv d →
  recoverBackendHealth due d w = (Ok (wakes, d'), w') → healthy_inv d'.
Proof.
  intros Hd Hr. unfold recoverBackendHealth in Hr. st_step Hr as open w1 Hopen.
  destruct (negb open); [by injection Hr as <- <- <-|].
  st_step Hr as r w2 Hprobe. st_step Hr as cancelled w3 Hc. destruct cancelled as [x|]; cbn in Hr.
  { by injection Hr as <- <- <-. }
  destruct r as [outcome|e]; [|done]. destruct (negb (is_nil (pr_backendErr outcome))).
  - st_step Hr as d1 w4 Hrec. injection Hr as <- <- <-. by apply unavailable_healthy in Hrec as (? & _ & _).
  - injection Hr as <- <- <-. by apply (recordBackendHealthy_healthy false).
Qed.

Lemma select_awake x d l m (w w' : world E) d' l' : awake_inv d l → select x d l = Some m →
  m w = (Ok (d', l'), w') → awake_inv d' l'.
Proof.
  intros [Hd Hp Hs] Hsel Hm. unfold select in Hsel.
  destruct (lp_phase l) as [| | | |queue retry health|] eqn:Hph; try done.
  unfold pending_inv, finished in Hp. rewrite Hph in Hp. specialize (Hp eq_refl).
  assert (Hall : ∀ d1 l1, healthy_inv d1 → lp_phase l1 = AtTop ∨ (∃ e, lp_phase l1 = Finished e) →
      (lp_startupPending l1 = true → backendHealthState d1 ≠ BackendHealthNotReady ∧ (degraded d1 = true ∨ d_healthChanged d1 = true)) →
      awake_inv d1 l1).
  { intros d1 l1 Hd1 Hl1 Hp1. split; [done|by intros _|]. intros q r h Hc. rewrite Hc in Hl1. by destruct Hl1 as [?|[? ?]]. }
  destruct x.
  - injection Hsel as <-. injection Hm as <- <- <-. by split.
  - destruct (negb (d_healthChanged d)); [done|]. destruct (lp_startupPending l) eqn:Hpend; injection Hsel as <-.
    + eapply (run_startup_awake _ (take_token d)); [by destruct Hd; split| |exact Hm]. destruct (Hp eq_refl) as [Hnr _]. cbn. intros Hc.
      split; [done|]. left. unfold degraded. apply bool_decide_eq_true.
      destruct (backendHealthState (take_token d)) eqn:Hst; done.
    + injection Hm as <- <- <-. apply Hall; [by destruct Hd; split|by left|]. cbn. congruence.
  - destruct (negb health); [done|]. destruct (lp_startupPending l) eqn:Hpend; injection Hsel as <-.
    + eapply run_startup_awake; [done| |done]. intros _. by apply Hp.
    + st_step Hm as y w1 Hy. destruct y as [wakes d1]. st_step Hm as cancelled w2 Hc. injection Hm as <- <- <-.
      apply recoverBackendHealth_healthy in Hy; [|done].
      destruct (negb (is_nil cancelled)); apply Hall; cbn; eauto; congruence.
  - destruct (negb queue); [done|]. destruct (validateReconcileKey key); [|done]. injection Hsel as <-.
    injection Hm as <- <- <-. apply Hall; cbn; auto.
  - destruct (negb retry); [done|]. injection Hsel as <-. st_step Hm as now w1 Hn. st_step Hm as entries w2 He.
    injection Hm as <- <- <-. apply Hall; cbn; auto.
Qed.

(** A call of BackendHealthy either changes nothing or leaves its token. *)
Lemma BackendHealthy_awake d l (w w' : world E) c d' : awake_inv d l → BackendHealthy d w = (Ok (c, d'), w') →
  awake_inv d' l.
Proof.
  intros Hinv Hr. unfold BackendHealthy in Hr. st_step Hr as r w1 Hprobe. st_step Hr as cancelled w2 Hc.
  destruct cancelled as [x|]; [by injection Hr as <- <- <-|]. destruct r as [outcome|e]; [|by injection Hr as <- <- <-].
  assert (Hall : healthy_inv d' → d_healthChanged d' = true → backendHealthState d' ≠ BackendHealthNotReady → awake_inv d' l).
  { intros Hd Ht Hr'. split; [done| |by left]. intros _ _. split; [done|by right]. }
  destruct (pr_backendErr outcome).
  - st_step Hr as d1 w3 Hrec. injection Hr as <- -> <-.
    apply unavailable_healthy in Hrec as (Hh & Hdeg & Htok); [|apply Hinv].
    apply Hall; [done|by apply Htok|by apply degraded_ready].
  - injection Hr as <- <- <-. apply Hall; [apply (recordBackendHealthy_healthy true), Hinv|done|done].
Qed.

Lemma finish_awake d l e : awake_inv d l → awake_inv d (at_phase l (Finished e)).
Proof. intros [Hd _ _]. by split. Qed.

Lemma system_step_awake h (s s' : system E) : system_step h s = Some s' → gate_inv (sy_l s) →
  awake_inv (sy_d s) (sy_l s) → awake_inv (sy_d s') (sy_l s').
Proof.
  destruct h as [|x| |key]; cbn; intros Hs Hg Hinv.
  - unfold worker_step in Hs. destruct (work _ _) as [m|] eqn:Hm; [|done]. cbn in Hs.
    destruct (m (sy_w s)) as [[[d l]|e] w] eqn:Hr; injection Hs as <-; [by eapply work_awake|by apply finish_awake].
  - unfold worker_step in Hs. destruct (select _ _ _) as [m|] eqn:Hm; [|done]. cbn in Hs.
    destruct (m (sy_w s)) as [[[d l]|e] w] eqn:Hr; injection Hs as <-; [by eapply select_awake|by apply finish_awake].
  - destruct (BackendHealthy _ _) as [[[c d]|e] w] eqn:Hr; injection Hs as <-; [by eapply BackendHealthy_awake|done].
  - by injection Hs as <-.
Qed.
Lemma run_system_awake hs (s s' : system E) : run_system hs s = Some s' → gate_inv (sy_l s) →
  awake_inv (sy_d s) (sy_l s) → awake_inv (sy_d s') (sy_l s').
Proof.
  revert s. induction hs as [|h hs IH]; intros s Hr Hg Hinv; cbn in Hr; [by simplify_eq|].
  destruct (system_step h s) as [s1|] eqn:Hs; [|done].
  eapply IH; [done|by eapply system_step_gate|by eapply system_step_awake].
Qed.
End awake.

(** ** The guarantees *)
Section guarantees.
Context {U : Unicode} {E : Type} `{LawfulPorts E}.

(** A dispatcher started over a controller. *)
Definition launch (hs : list happening) (w : world E) (d : Dispatcher) : option (system E) :=
  run_system hs (MkSystem w d new_loop).
(** What was asked of the ports between two worlds holds no mutation. *)
Definition only_observed (w w' : world E) : Prop :=
  ∃ evs, w_trace w' = evs ++ w_trace w ∧ Forall (λ ev, not_apply ev = true) evs.
Definition gate_open (s : system E) : Prop :=
  lp_phase (sy_l s) = Dispatching ∧ lp_startupPending (sy_l s) = false ∧ degraded (sy_d s) = false.

(** C29: mutations pass the gate. Whatever the worker, the health source and
    administrators do, and in whatever order, a step that sends a mutation to the
    firewall is a dispatch of the worker that found, under healthOperationMu, the
    backend not degraded, after the startup recovery was done; every other step
    only observes. *)
Theorem mutations_are_gated hs h w d (s s' : system E) :
  launch hs w d = Some s → system_step h s = Some s' →
  only_observed (sy_w s) (sy_w s') ∨ (h = Work ∧ gate_open s).
Proof.
  intros Hrun Hstep. assert (gate_inv (sy_l s)) as Hg by (by eapply run_system_gate).
  destruct (system_step_quiet h s s' Hstep Hg) as [[Hq _]|?]; [by left|by right].
Qed.

(** the dispatcher keeps the controller's promise. Over any store that keeps
    its promises, from any reachable controller and through any run of worker,
    health source and administrators, two mutations the first of which failed,
    was unknown or was confirmed always have a successful probe between them. *)
Theorem dispatched_mutations_settled hs w d (s : system E) :
  reachable w → launch hs w d = Some s → settled_applies (w_trace (sy_w s)) = true.
Proof.
  intros Hw Hrun. apply (run_system_guard _ _ _ Hrun). cbn. by apply reachable_guarded.
Qed.

(** C30: recovery is never forgotten. Whenever the worker of a well-configured
    dispatcher waits in its select while the backend is degraded, the startup
    recovery is pending or the queue is shut, the health timer it armed or the
    token another goroutine left makes it come back: that case of the select is
    open, although BackendHealthy may have changed the health after the worker
    read it. *)
Theorem recovery_is_scheduled `{!WallClock E} hs w capacity policy d (s : system E) queue retry health :
  newDispatcher capacity policy = Ok d → launch hs w d = Some s →
  lp_phase (sy_l s) = Selecting queue retry health →
  degraded (sy_d s) = true ∨ lp_startupPending (sy_l s) = true ∨ queue = false →
  select (E:=E) SelHealthChanged (sy_d s) (sy_l s) ≠ None ∨ select (E:=E) SelHealthTimer (sy_d s) (sy_l s) ≠ None.
Proof.
  intros Hnew Hrun Hph Hwait.
  assert (awake_inv (sy_d s) (sy_l s)) as [_ _ Hs].
  { eapply run_system_awake; [done|done|]. cbn. unfold newDispatcher in Hnew. inv_ok. split; [|done|done].
    split; [|done]. by eapply prepareBackendHealthPolicy_prepared. }
  destruct (Hs _ _ _ Hph) as [Ht|[->|(-> & Hd & Hp)]]; unfold select; rewrite Hph.
  - left. by rewrite Ht.
  - by right.
  - rewrite Hd, Hp in Hwait. naive_solver.
Qed.
End guarantees.
