(* ===== verification/DispatcherLab.v ===== *)
(** * The dispatcher over its production plan provider

    DesiredPlanProvider keeps what the dispatcher asks of its ports, over any
    reader that does not write the ledger; and runs of the whole system around
    the laboratory of file Lab. *)

From S2P Require Import Prelude GoStd GoFmt Sha256 Netip Identity CoreModel Enforcement.
From S2P Require Import ObservedState ReconcilePlan ObservedStore ReconcileStore Controller FakeBackend.
From S2P Require Import ControllerOps ControllerFences ControllerBarrier ControllerSafety Lab.
From S2P Require Import WakeQueue PlanProvider Dispatcher DispatcherSafety.

Section provider.
Context {U : Unicode} {E : Type} `{DurableStore E} `{Cancellation E, DesiredStateReader E}.
Abbreviation quiet_frame := (frame (E:=E) not_apply true).

(** Reading the desired state and the recovery does not write the ledger, nor
    does asking for the context, and a cancelled context stays cancelled. *)
Class LawfulReader : Prop := {
  lr_desired n node e : durable n (env_LoadDesiredFirewallState node e).2 = durable n e;
  lr_recovery n node e : durable n (env_ReadReconcileRecovery node e).2 = durable n e;
  lr_cancel n e : durable n (env_Cancelled e).2 = durable n e;
  lr_cancel_stays e x e' : env_Cancelled e = (Some x, e') → is_nil (env_Cancelled e').1 = false
}.
Context `{LawfulReader}.

Lemma quiet_read_guard {A} (m : ST E A) : (∀ n e, durable n (m e).2 = durable n e) →
  keeps guard_le (Controller.quiet m).
Proof. intros Hm. apply guard_calm; [apply frame_quiet|by apply calm_quiet]. Qed.
Lemma SetDesired_guard snapshot : keeps guard_le (SetDesiredSnapshot snapshot).
Proof. intros w Hg. by apply SetDesired_guarded. Qed.
Lemma SetDesired_quiet snapshot : keeps quiet_frame (SetDesiredSnapshot snapshot).
Proof.
  unfold SetDesiredSnapshot. apply keeps_bind; [apply _|apply frame_interleave|]. intros [] w.
  unfold get_c, mbind, st_bind, st_gets, st_lift. destruct (SetDesiredSnapshotLocked snapshot (w_c w)) eqn:Hs; [|done].
  split; [by exists []|]. by eapply SetDesiredSnapshotLocked_cframe.
Qed.
Lemma publish_guard p : keeps guard_le (loadAndPublishDesired p).
Proof.
  unfold loadAndPublishDesired.
  keeps_tac ltac:(solve [apply SetDesired_guard | apply quiet_read_guard; intros; apply lr_desired]).
Qed.
Lemma publish_quiet p : keeps quiet_frame (loadAndPublishDesired p).
Proof. unfold loadAndPublishDesired. keeps_tac ltac:(solve [apply SetDesired_quiet | apply frame_quiet]). Qed.

#[export] Instance desired_plans_lawful p : LawfulPorts (H6 := desired_plans p).
Proof.
  split; cbn.
  - apply lr_cancel.
  - apply lr_cancel_stays.
  - unfold provider_ReconcileKeys. keeps_tac ltac:(solve [apply publish_quiet | apply frame_quiet]).
  - unfold provider_ReconcileKeys.
    keeps_tac ltac:(solve [apply publish_guard | apply quiet_read_guard; intros; apply lr_recovery]).
  - intros key. unfold provider_CurrentPlan. keeps_tac ltac:(solve [apply publish_quiet]).
  - intros key. unfold provider_CurrentPlan. keeps_tac ltac:(solve [apply publish_guard]).
Qed.
End provider.

(** ** Runs *)
Section runs.
Local Existing Instance ascii_only.

(** The laboratory with a clock past the zero time, a reader of one desired state
    and a context that is never cancelled. *)
Definition wall_clock : Clock lab := {|
  env_Now e := let '(now, e') := @env_Now lab lab_clock e in (Z.max 1 now, e')
|}.
Local Existing Instance wall_clock.
Local Existing Instance lab_durable.
Lemma wall_durable_Now n e : @durable lab lab_clock lab_backend lab_audit lab_store lab_scheduler lab_durable n
  (@env_Now lab wall_clock e).2 = @durable lab lab_clock lab_backend lab_audit lab_store lab_scheduler lab_durable n e.
Proof.
  etransitivity; [|apply (@durable_Now lab lab_clock lab_backend lab_audit lab_store lab_scheduler lab_durable n e)].
  unfold wall_clock, lab_clock. cbn [env_Now]. destruct (next (lb_ticks e) second). reflexivity.
Qed.
Definition wall_durable : @DurableStore lab wall_clock lab_backend lab_audit lab_store lab_scheduler := {|
  durable := @durable lab lab_clock lab_backend lab_audit lab_store lab_scheduler lab_durable;
  durable_Now := wall_durable_Now;
  durable_Probe := @durable_Probe lab lab_clock lab_backend lab_audit lab_store lab_scheduler lab_durable;
  durable_Apply := @durable_Apply lab lab_clock lab_backend lab_audit lab_store lab_scheduler lab_durable;
  durable_Audit := @durable_Audit lab lab_clock lab_backend lab_audit lab_store lab_scheduler lab_durable;
  durable_Published := @durable_Published lab lab_clock lab_backend lab_audit lab_store lab_scheduler lab_durable;
  durable_Picks := @durable_Picks lab lab_clock lab_backend lab_audit lab_store lab_scheduler lab_durable;
  durable_LoadObserved := @durable_LoadObserved lab lab_clock lab_backend lab_audit lab_store lab_scheduler lab_durable;
  durable_ApplyObserved := @durable_ApplyObserved lab lab_clock lab_backend lab_audit lab_store lab_scheduler lab_durable;
  durable_Load := @durable_Load lab lab_clock lab_backend lab_audit lab_store lab_scheduler lab_durable;
  durable_Load_Ok := @durable_Load_Ok lab lab_clock lab_backend lab_audit lab_store lab_scheduler lab_durable;
  durable_ReadRetry := @durable_ReadRetry lab lab_clock lab_backend lab_audit lab_store lab_scheduler lab_durable;
  durable_ReadRetry_Ok := @durable_ReadRetry_Ok lab lab_clock lab_backend lab_audit lab_store lab_scheduler lab_durable;
  durable_Retry := @durable_Retry lab lab_clock lab_backend lab_audit lab_store lab_scheduler lab_durable;
  durable_Transition := @durable_Transition lab lab_clock lab_backend lab_audit lab_store lab_scheduler lab_durable
|}.
Local Existing Instance wall_durable.
Definition lab_reader : DesiredStateReader lab := {|
  env_LoadDesiredFirewallState _ e := (Ok (MkDesiredState 1 1 (fs_Policy lab_desired) [lab_intent]), e);
  env_ReadReconcileRecovery node e := (Ok (stored_recovery node (lb_db e)), e)
|}.
Local Existing Instance lab_reader.
Definition lab_context : Cancellation lab := {| env_Cancelled e := (None, e) |}.
Local Existing Instance lab_context.
Lemma lab_lawful : LawfulReader (E := lab).
Proof. by split. Qed.
Local Existing Instance lab_lawful.
Lemma lab_wall : WallClock lab.
Proof. intros e. cbn. destruct (next (lb_ticks e) second). cbn. lia. Qed.

Definition lab_provider : DesiredPlanProvider := MkProvider sample_node (MkStatic 1 (fs_Infrastructure lab_desired)).
Definition lab_plans : PlanProvider lab := desired_plans lab_provider.
Local Existing Instance lab_plans.

Definition lab_dispatcher : Dispatcher :=
  MkDispatcher defaultBackendHealthPolicy (MkHealth BackendHealthNotReady 0 0) 0 false.
Definition lab_system (fake : FakeBackend) (cancelled : list (option error)) : system lab :=
  MkSystem (MkWorld NewController (MkLab sample_time [] fake cancelled lab_db0 [] [] [] []) []) lab_dispatcher new_loop.
Definition run_lab (hs : list happening) (s : system lab) : system lab := default s (run_system hs s).
Local Existing Instance lab_wall.

(** A healthy backend: the startup probe finds all three domains missing, and the
    fourth step sends the first mutation. *)
Definition about_to_dispatch : system lab := run_lab [Work; Work; Work] (lab_system healthy_fake []).
Definition first_mutation : system lab := run_lab [Work] about_to_dispatch.
Lemma mutations_are_gated_witness :
  existsb is_apply (w_trace (sy_w first_mutation)) = true ∧
  (only_observed (sy_w about_to_dispatch) (sy_w first_mutation) ∨ (Work = Work ∧ gate_open about_to_dispatch)).
Proof.
  split; [vm_compute; reflexivity|].
  apply (mutations_are_gated [Work; Work; Work] Work (sy_w (lab_system healthy_fake [])) lab_dispatcher
           about_to_dispatch first_mutation); vm_compute; reflexivity.
Defined.

(** The first answer for the target is unknown: the dispatcher degrades, and the
    due health probe comes before the target is tried again. *)
Definition unknown_run : list happening :=
  [Work; Work; Work; Work; Work; Work; Work; Work; Work; Select SelHealthTimer; Work; Work].
Definition after_unknown : system lab := run_lab unknown_run (lab_system (unknown_fake [false]) []).
Lemma dispatched_mutations_settled_witness :
  length (applies (sy_w after_unknown)) = 4%nat ∧ settled_applies (w_trace (sy_w after_unknown)) = true.
Proof.
  split; [vm_compute; reflexivity|].
  apply (dispatched_mutations_settled unknown_run (sy_w (lab_system (unknown_fake [false]) [])) lab_dispatcher
           after_unknown); [apply reach_memory|vm_compute; reflexivity].
Defined.

(** The startup probe fails; while the worker waits for its health timer the
    health source finds the backend healthy, and when the timer fires the startup
    recovery is not due any more: the token is what brings the worker back. *)
Definition overtaken_run : list happening := [Work; Work; Work; CallHealthy; Select SelHealthTimer; Work].
Definition overtaken : system lab :=
  run_lab overtaken_run (lab_system healthy_fake [Some (Errorf "deadline exceeded")]).
Lemma recovery_is_scheduled_witness :
  degraded (sy_d overtaken) = false ∧ lp_startupPending (sy_l overtaken) = true ∧
  (select (E:=lab) SelHealthChanged (sy_d overtaken) (sy_l overtaken) ≠ None
   ∨ select (E:=lab) SelHealthTimer (sy_d overtaken) (sy_l overtaken) ≠ None).
Proof.
  split; [vm_compute; reflexivity|]. split; [vm_compute; reflexivity|].
  apply (recovery_is_scheduled overtaken_run (sy_w (lab_system healthy_fake [Some (Errorf "deadline exceeded")]))
           1 defaultBackendHealthPolicy lab_dispatcher overtaken false false false);
    [reflexivity|vm_compute; reflexivity..|right; left; vm_compute; reflexivity].
Defined.

(** The plan of the target, from a controller that has seen nothing yet. *)
Definition fresh_world : world lab := sy_w (lab_system healthy_fake []).
Definition target_key : ReconcileKey := MkReconcileKey DomainTarget sample_target.
Definition provided : result (option OperationPlan) * world lab := provider_CurrentPlan lab_provider target_key fresh_world.
Lemma current_plan_is_current_witness :
  provided.1 = Ok (Some target_plan) ∧ planMatchesCurrentDesiredLocked (w_c provided.2) target_plan = true.
Proof.
  assert (provided.1 = Ok (Some target_plan)) as Hp by (vm_compute; reflexivity). split; [exact Hp|].
  apply (current_plan_is_current lab_provider target_key fresh_world provided.2 target_plan).
  vm_compute. reflexivity.
Defined.
End runs.
