(* ===== verification/SecurityEvent.v ===== *)
(** * Security events (internal/core/security_event.go)

    A parser owns the fields of an event; the node, the source, the parser
    revision and the identity are the system's and bind the delivery. The values
    of the Fields map are never inspected, so their type [V] is a parameter. A
    pointer is an option, a map that may be nil an option of a finite map, and a
    range over a map visits the entries in the order of [map_to_list]: the order
    of the source is unspecified, and only which error is reported depends on it. *)

From S2P Require Import Prelude GoStd Sha256 Netip Identity CoreModel.

(** The zone of the address is kept beside it. *)
Record Endpoint := MkEndpoint { ep_IP : Addr; ep_Zone : string; ep_Port : Z }.
Record UserInfo := MkUserInfo { ui_Name : string }.
Record HTTPInfo := MkHTTPInfo { hi_Method : string; hi_Path : string; hi_Status : Z }.

Record EventFields (V : Type) := MkEventFields {
  ef_Timestamp : option time;
  ef_EventType : string;
  ef_Source : Endpoint;
  ef_Target : Endpoint;
  ef_User : option UserInfo;
  ef_HTTP : option HTTPInfo;
  ef_Service : string;
  ef_Labels : option (gmap string string);
  ef_Fields : option (gmap string V)
}.
Arguments MkEventFields {V}.
Arguments ef_Timestamp {V}. Arguments ef_EventType {V}. Arguments ef_Source {V}.
Arguments ef_Target {V}. Arguments ef_User {V}. Arguments ef_HTTP {V}.
Arguments ef_Service {V}. Arguments ef_Labels {V}. Arguments ef_Fields {V}.

Record SecurityEvent (V : Type) := MkSecurityEvent {
  se_ID : EventID;
  se_ObservedAt : time;
  se_Timestamp : option time;
  se_NodeID : NodeID;
  se_SourceID : SourceID;
  se_SourcePosition : SourcePosition;
  se_ParserID : ParserID;
  se_ParserVersion : ParserVersion;
  se_EmittedIndex : Z;
  se_EventType : string;
  se_Source : Endpoint;
  se_Target : Endpoint;
  se_User : option UserInfo;
  se_HTTP : option HTTPInfo;
  se_Service : string;
  se_Labels : option (gmap string string);
  se_Fields : option (gmap string V);
  se_deliveryID : DeliveryID
}.
Arguments MkSecurityEvent {V}.
Arguments se_ID {V}. Arguments se_ObservedAt {V}. Arguments se_Timestamp {V}.
Arguments se_NodeID {V}. Arguments se_SourceID {V}. Arguments se_SourcePosition {V}.
Arguments se_ParserID {V}. Arguments se_ParserVersion {V}. Arguments se_EmittedIndex {V}.
Arguments se_EventType {V}. Arguments se_Source {V}. Arguments se_Target {V}.
Arguments se_User {V}. Arguments se_HTTP {V}. Arguments se_Service {V}.
Arguments se_Labels {V}. Arguments se_Fields {V}. Arguments se_deliveryID {V}.

(** ** Validation *)
Definition AddrIsValid (ip : Addr) : bool := negb (bool_decide (addr_kind ip = z0)).

Definition Endpoint_validate (kind : string) (endpoint : Endpoint) : result unit :=
  if negb (AddrIsValid (ep_IP endpoint)) then
    fail_if (negb (ep_Port endpoint =? 0)) (Errorf (kind +:+ " port requires an IP address"))
  else fail_if (negb (is_empty (ep_Zone endpoint))) (Errorf (kind +:+ " IP zone is not supported")).

Definition validate_user (user : option UserInfo) : result unit :=
  match user with
  | Some u => validateTextIdentifier "event user name" (ui_Name u)
  | None => Ok tt
  end.
Definition validate_http (http : option HTTPInfo) : result unit :=
  match http with
  | Some h =>
    fail_if (negb (ValidString (hi_Method h)) || negb (ValidString (hi_Path h)))
            (Errorf "event HTTP method and path must be UTF-8");;
    fail_if (negb (hi_Status h =? 0) && ((hi_Status h <? 100) || (599 <? hi_Status h)))
            (Errorf "event HTTP status must be zero or between 100 and 599")
  | None => Ok tt
  end.
Fixpoint validate_labels (labels : list (string * string)) : result unit :=
  match labels with
  | [] => Ok tt
  | (key, value) :: rest =>
    validateTextIdentifier "event label key" key;;
    fail_if (negb (ValidString value)) (Errorf "event label %q value must be UTF-8");;
    validate_labels rest
  end.
Fixpoint validate_field_keys (keys : list string) : result unit :=
  match keys with
  | [] => Ok tt
  | key :: rest => validateTextIdentifier "event field key" key;; validate_field_keys rest
  end.
(** Ranging over a nil map visits nothing. *)
Definition entries {A} (m : option (gmap string A)) : list (string * A) :=
  match m with Some m => map_to_list m | None => [] end.

Section events.
Context {V : Type}.

Definition EventFields_validate (fields : EventFields V) : result unit :=
  fail_if (match ef_Timestamp fields with Some t => IsZero t | None => false end)
          (Errorf "event timestamp cannot be zero when present");;
  validateTextIdentifier "event type" (ef_EventType fields);;
  Endpoint_validate "source endpoint" (ef_Source fields);;
  Endpoint_validate "target endpoint" (ef_Target fields);;
  validate_user (ef_User fields);;
  validate_http (ef_HTTP fields);;
  fail_if (negb (ValidString (ef_Service fields))) (Errorf "event service must be UTF-8");;
  validate_labels (entries (ef_Labels fields));;
  validate_field_keys (entries (ef_Fields fields)).*1.

(** The parser-owned part of an event, as Validate reassembles it. *)
Definition event_fields (e : SecurityEvent V) : EventFields V :=
  MkEventFields (se_Timestamp e) (se_EventType e) (se_Source e) (se_Target e) (se_User e)
    (se_HTTP e) (se_Service e) (se_Labels e) (se_Fields e).

(** ** Construction. The clones of pointers and maps are the values themselves. *)
Definition NewSecurityEvent (nodeID : NodeID) (delivery : Delivery) (parserID : ParserID)
    (parserVersion : ParserVersion) (emittedIndex : Z) (fields : EventFields V)
    : result (SecurityEvent V) :=
  wrap "construct security event: validate delivery" (Delivery_Validate delivery);;
  fail_if (negb (isLowerHex128 nodeID))
          (Errorf "construct security event: node id must be 128-bit lowercase hex");;
  wrap "construct security event" (validateTextIdentifier "parser id" parserID);;
  wrap "construct security event" (validateTextIdentifier "parser version" parserVersion);;
  wrap "construct security event" (EventFields_validate fields);;
  eventID ← wrap "construct security event identity"
              (SecurityEventID nodeID (dl_ID delivery) parserID parserVersion emittedIndex);
  Ok (MkSecurityEvent eventID (rr_ObservedAt (dl_Record delivery)) (ef_Timestamp fields) nodeID
        (rr_SourceID (dl_Record delivery)) (rr_Position (dl_Record delivery)) parserID parserVersion
        emittedIndex (ef_EventType fields) (ef_Source fields) (ef_Target fields) (ef_User fields)
        (ef_HTTP fields) (ef_Service fields) (ef_Labels fields) (ef_Fields fields) (dl_ID delivery)).

Definition SecurityEvent_Validate (e : SecurityEvent V) : result unit :=
  fail_if (negb (isLowerHex128 (se_NodeID e)))
          (Errorf "security event node id must be 128-bit lowercase hex");;
  fail_if (negb (ValidDeliveryID (se_deliveryID e)))
          (Errorf "security event delivery id is not canonical");;
  validateTextIdentifier "security event source id" (se_SourceID e);;
  fail_if (negb (SourcePosition_Valid (se_SourcePosition e)))
          (Errorf "security event source position is invalid");;
  expectedDeliveryID ← wrap "derive security event delivery identity"
                         (deliveryIDForPosition (se_SourceID e) (se_SourcePosition e));
  fail_if (negb (bool_decide (se_deliveryID e = expectedDeliveryID)))
          (Errorf "security event delivery id does not bind source and position");;
  fail_if (IsZero (se_ObservedAt e)) (Errorf "security event observed time is required");;
  validateTextIdentifier "parser id" (se_ParserID e);;
  validateTextIdentifier "parser version" (se_ParserVersion e);;
  expected ← wrap "derive security event identity"
               (SecurityEventID (se_NodeID e) (se_deliveryID e) (se_ParserID e) (se_ParserVersion e)
                  (se_EmittedIndex e));
  fail_if (negb (bool_decide (se_ID e = expected)))
          (Errorf "security event id does not bind system-owned fields");;
  EventFields_validate (event_fields e).

(** ** What construction guarantees *)

(** The identity an event binds. *)
Record event_binds (nodeID : NodeID) (delivery : Delivery) (parserID : ParserID)
    (parserVersion : ParserVersion) (index : Z) (fields : EventFields V) (e : SecurityEvent V)
    : Prop := {
  eb_node : se_NodeID e = nodeID;
  eb_delivery : se_deliveryID e = dl_ID delivery;
  eb_source : se_SourceID e = rr_SourceID (dl_Record delivery);
  eb_position : se_SourcePosition e = rr_Position (dl_Record delivery);
  eb_observed : se_ObservedAt e = rr_ObservedAt (dl_Record delivery);
  eb_parser : se_ParserID e = parserID;
  eb_version : se_ParserVersion e = parserVersion;
  eb_index : se_EmittedIndex e = index;
  eb_id : SecurityEventID nodeID (dl_ID delivery) parserID parserVersion index = Ok (se_ID e);
  eb_fields : event_fields e = fields
}.

Lemma NewSecurityEvent_binds nodeID delivery parserID parserVersion index fields e :
  NewSecurityEvent nodeID delivery parserID parserVersion index fields = Ok e →
  event_binds nodeID delivery parserID parserVersion index fields e.
Proof.
  unfold NewSecurityEvent. intros H. inv_ok. constructor; try done.
  by destruct fields.
Qed.

Lemma text_Ok kind kind' s :
  validateTextIdentifier kind s = Ok tt → validateTextIdentifier kind' s = Ok tt.
Proof. unfold validateTextIdentifier. rewrite !fail_if_Ok. done. Qed.

(** A constructed event passes its own validation. *)
Lemma NewSecurityEvent_valid nodeID delivery parserID parserVersion index fields e :
  NewSecurityEvent nodeID delivery parserID parserVersion index fields = Ok e →
  SecurityEvent_Validate e = Ok tt.
Proof.
  intros H. pose proof (NewSecurityEvent_binds _ _ _ _ _ _ _ H) as B.
  destruct B as [Bn Bd Bs Bp Bo Bpa Bv Bi Bid Bf].
  unfold NewSecurityEvent in H. apply result_bind_Ok in H as ([] & Hd & H).
  apply wrap_Ok in Hd. unfold Delivery_Validate in Hd. inv_ok. gobool.
  unfold SecurityEvent_Validate. rewrite Bn, Bd, Bs, Bp, Bo, Bpa, Bv, Bi, Bid, Bf.
  repeat match goal with
  | |- context [fail_if ?b _ ≫= _] => rewrite (fail_if_false b) by (gobool; congruence); cbn [mbind result_bind]
  | H : validateTextIdentifier _ ?s = Ok _ |- context [validateTextIdentifier _ ?s ≫= _] =>
      rewrite (text_Ok _ _ _ H); cbn [mbind result_bind]
  | H : deliveryIDForPosition ?a ?b = Ok _ |- context [deliveryIDForPosition ?a ?b] =>
      rewrite H; cbn [wrap mbind result_bind]
  | _ => progress cbn [wrap mbind result_bind]
  end.
  done.
Qed.
End events.
