(* ===== verification/ProcessingPlan.v ===== *)
(** * Processing plans (internal/processor/plan.go)

    A plan freezes the active parsers of an attempt in a deterministic order and,
    on first use, the active rules; running it gives every frozen parser exactly
    one terminal outcome. The catalog and the parsers are ports over an
    environment. The result under construction is part of the state, so that it
    survives an error, as the partial result the source returns. *)

From S2P Require Import Prelude GoStd Sha256 Netip Identity CoreModel SecurityEvent.

(** ** Failures *)
Definition context_Canceled : error := Errorf "context canceled".
Definition context_DeadlineExceeded : error := Errorf "context deadline exceeded".

Inductive PlanFailureClass :=
  | PlanFailureRecordPermanent | PlanFailureTransient | PlanFailureBlocked | PlanFailureCancelled
  | PlanFailureClassOther (n : Z).
#[export] Instance PlanFailureClass_eq_dec : EqDecision PlanFailureClass.
Proof. solve_decision. Defined.

Record PlanFailure := MkPlanFailure {
  pl_Class : PlanFailureClass;
  pl_Code : string;
  pl_SanitizedError : string;
  pl_Action : string;
  pl_Cause : error
}.

(** A *PlanFailure is an error whose Unwrap is its cause; the class is written
    as its number, a nil cause as [nil_cause]. *)
Definition nil_cause : error := Errorf "<nil>".
Definition class_text (c : PlanFailureClass) : string :=
  match c with
  | PlanFailureRecordPermanent => "1"
  | PlanFailureTransient => "2"
  | PlanFailureBlocked => "3"
  | PlanFailureCancelled => "4"
  | PlanFailureClassOther _ => "other"
  end.
Definition class_of_text (s : string) : PlanFailureClass :=
  if bool_decide (s = "1") then PlanFailureRecordPermanent
  else if bool_decide (s = "2") then PlanFailureTransient
  else if bool_decide (s = "3") then PlanFailureBlocked
  else if bool_decide (s = "4") then PlanFailureCancelled
  else PlanFailureClassOther 0.
Definition plan_error (f : PlanFailure) : error :=
  Typed "PlanFailure" [class_text (pl_Class f); pl_Code f; pl_SanitizedError f; pl_Action f] (pl_Cause f).

(** errors.AsType[*PlanFailure]: the first one of the tree, depth first. *)
Fixpoint as_PlanFailure (e : error) : option PlanFailure :=
  match e with
  | Errorf _ => None
  | Wrapf _ cause => as_PlanFailure cause
  | Typed name fields cause =>
    match fields with
    | [class; code; sanitized; action] =>
      if bool_decide (name = "PlanFailure")
      then Some (MkPlanFailure (class_of_text class) code sanitized action cause)
      else as_PlanFailure cause
    | _ => as_PlanFailure cause
    end
  | Join l r => match as_PlanFailure l with Some f => Some f | None => as_PlanFailure r end
  end.

Definition newPlanFailure (class : PlanFailureClass) (cause : error) : PlanFailure :=
  MkPlanFailure class EmptyString EmptyString EmptyString cause.
Definition blocked (message : string) : error :=
  plan_error (newPlanFailure PlanFailureBlocked (Errorf message)).

Definition text_between (limit : Z) (s : string) : bool :=
  (1 <=? Z.of_nat (String.length s)) && (Z.of_nat (String.length s) <=? limit) && ValidString s.
Definition validPermanentDiagnostic (code sanitizedError action : string) : bool :=
  text_between 128 code && text_between 2048 sanitizedError && text_between 64 action.

Definition classifyPlanFailure (err : error) (snapshot : bool) : PlanFailure :=
  if errors_Is err context_Canceled || errors_Is err context_DeadlineExceeded
  then newPlanFailure PlanFailureCancelled err
  else match as_PlanFailure err with
  | None => newPlanFailure PlanFailureTransient err
  | Some classified =>
    let class := if snapshot && bool_decide (pl_Class classified = PlanFailureRecordPermanent)
                 then PlanFailureBlocked else pl_Class classified in
    match class with
    | PlanFailureRecordPermanent =>
      if negb (validPermanentDiagnostic (pl_Code classified) (pl_SanitizedError classified)
                 (pl_Action classified))
      then newPlanFailure PlanFailureBlocked (Errorf "record-permanent failure diagnostic is incomplete")
      else MkPlanFailure class (pl_Code classified) (pl_SanitizedError classified)
             (pl_Action classified) err
    | PlanFailureTransient | PlanFailureBlocked | PlanFailureCancelled => newPlanFailure class err
    | PlanFailureClassOther _ => newPlanFailure PlanFailureTransient err
    end
  end.

(** ** Snapshots *)
Record ParserSnapshot := MkParserSnapshot {
  ps_ParserID : ParserID;
  ps_Version : ParserVersion;
  ps_Priority : Z
}.
Record RuleSnapshot := MkRuleSnapshot { rs_RuleID : RuleID; rs_Version : RuleVersion }.

Definition parser_less (left right : ParserSnapshot) : bool :=
  if negb (ps_Priority left =? ps_Priority right) then ps_Priority left <? ps_Priority right
  else String.ltb (ps_ParserID left) (ps_ParserID right).
Definition rule_less (left right : RuleSnapshot) : bool :=
  String.ltb (rs_RuleID left) (rs_RuleID right).

Fixpoint check_parsers (seen : gset ParserID) (l : list ParserSnapshot) : result unit :=
  match l with
  | [] => Ok tt
  | parser :: rest =>
    fail_if (is_empty (ps_ParserID parser) || is_empty (ps_Version parser))
            (Errorf "parser snapshot identity is incomplete");;
    fail_if (bool_decide (ps_ParserID parser ∈ seen)) (Errorf "duplicate active parser %q");;
    check_parsers ({[ps_ParserID parser]} ∪ seen) rest
  end.
Definition freezeParsers (parsers : list ParserSnapshot) : result (list ParserSnapshot) :=
  let frozen := sort_slice parser_less parsers in
  check_parsers ∅ frozen;; Ok frozen.

Fixpoint check_rules (previous : option RuleID) (l : list RuleSnapshot) : result unit :=
  match l with
  | [] => Ok tt
  | rule :: rest =>
    fail_if (is_empty (rs_RuleID rule) || is_empty (rs_Version rule))
            (Errorf "rule snapshot identity is incomplete");;
    fail_if (bool_decide (previous = Some (rs_RuleID rule))) (Errorf "duplicate active rule %q");;
    check_rules (Some (rs_RuleID rule)) rest
  end.
Definition freezeRules (rules : list RuleSnapshot) : result (list RuleSnapshot) :=
  let frozen := sort_slice rule_less rules in
  check_rules None frozen;; Ok frozen.

(** ** Ports *)
Class PlanCatalog (E : Type) := {
  env_SnapshotParsers : ST E (list ParserSnapshot);
  env_SnapshotRules : ST E (list RuleSnapshot)
}.
Class ParserRunner (V E : Type) := {
  env_RunParser : ParserSnapshot → RawRecord → ST E (list (EventFields V))
}.

Record ParserPermanentFailure := MkParserPermanentFailure {
  pp_Parser : ParserSnapshot;
  pp_Failure : PermanentFailure
}.
Record PlanRunResult (V : Type) := MkPlanRunResult {
  pn_ParserOutcomes : list ParserTerminalOutcome;
  pn_Events : list (SecurityEvent V);
  pn_Rules : list RuleSnapshot;
  pn_PermanentFailures : list ParserPermanentFailure;
  pn_Complete : bool
}.
Arguments MkPlanRunResult {V}. Arguments pn_ParserOutcomes {V}. Arguments pn_Events {V}.
Arguments pn_Rules {V}. Arguments pn_PermanentFailures {V}. Arguments pn_Complete {V}.
Definition empty_result {V} : PlanRunResult V := MkPlanRunResult [] [] [] [] false.

(** The catalog and the context of a plan are always present. *)
Record ProcessingPlan := MkProcessingPlan {
  pg_parsers : list ParserSnapshot;
  pg_rulesFrozen : bool;
  pg_rules : list RuleSnapshot;
  pg_rulesErr : option error
}.
Record run_state (V E : Type) := MkRunState {
  rt_result : PlanRunResult V;
  rt_plan : ProcessingPlan;
  rt_env : E
}.
Arguments MkRunState {V E}. Arguments rt_result {V E}. Arguments rt_plan {V E}. Arguments rt_env {V E}.

Section outcomes.
Context (delivery : Delivery) (completedAt : time) (parser : ParserSnapshot).

Definition parser_outcome (kind : ParserOutcomeKind) (emitted : Z) (code : string) : ParserTerminalOutcome :=
  MkParserTerminalOutcome (dl_ID delivery) (ps_ParserID parser) (ps_Version parser) kind emitted code
    completedAt.
Definition rejected_outcome (failure : PlanFailure) : ParserTerminalOutcome :=
  parser_outcome ParserOutcomeRecordPermanent 0 (pl_Code failure).
Definition rejected_record (failure : PlanFailure) : ParserPermanentFailure :=
  MkParserPermanentFailure parser
    (MkPermanentFailure "parser" (pl_Code failure) (pl_SanitizedError failure) (pl_Action failure)
       completedAt).
Definition no_match_outcome : ParserTerminalOutcome := parser_outcome ParserOutcomeNoMatch 0 EmptyString.
Definition matched_outcome (count : nat) : ParserTerminalOutcome :=
  parser_outcome ParserOutcomeSuccess (wrap32 (Z.of_nat count)) EmptyString.
End outcomes.

Section plan.
Context {V E : Type} `{Cancellation E, PlanCatalog E, ParserRunner V E}.

Definition BuildProcessingPlan : ST E ProcessingPlan := λ w,
  match env_SnapshotParsers w with
  | (Err err, w) => (Err (plan_error (classifyPlanFailure err true)), w)
  | (Ok parsers, w) =>
    match freezeParsers parsers with
    | Err err => (Err (plan_error (newPlanFailure PlanFailureBlocked err)), w)
    | Ok parsers => (Ok (MkProcessingPlan parsers false [] None), w)
    end
  end.

Definition freeze_rules (p : ProcessingPlan) (w : E) : ProcessingPlan * E :=
  match env_SnapshotRules w with
  | (Err err, w) =>
    (MkProcessingPlan (pg_parsers p) true (pg_rules p) (Some (plan_error (classifyPlanFailure err true))), w)
  | (Ok rules, w) =>
    match freezeRules rules with
    | Err err => (MkProcessingPlan (pg_parsers p) true []
                    (Some (plan_error (newPlanFailure PlanFailureBlocked err))), w)
    | Ok rules => (MkProcessingPlan (pg_parsers p) true rules (pg_rulesErr p), w)
    end
  end.
Definition Rules : ST (ProcessingPlan * E) (list RuleSnapshot) := λ '(p, w),
  let '(p, w) := if pg_rulesFrozen p then (p, w) else freeze_rules p w in
  (match pg_rulesErr p with Some err => Err err | None => Ok (pg_rules p) end, (p, w)).

(** ** Run *)
Definition run_rules : ST (run_state V E) (list RuleSnapshot) := λ s,
  let '(r, (p, w)) := Rules (rt_plan s, rt_env s) in (r, MkRunState (rt_result s) p w).
Definition run_env {A} (m : ST E A) : ST (run_state V E) A := λ s,
  let '(r, w) := m (rt_env s) in (r, MkRunState (rt_result s) (rt_plan s) w).
Definition run_result (f : PlanRunResult V → PlanRunResult V) : ST (run_state V E) unit :=
  st_modify (λ s, MkRunState (f (rt_result s)) (rt_plan s) (rt_env s)).
Definition ctx_Err : ST E (option error) := λ w, let '(c, w) := env_Cancelled w in (Ok c, w).

Section run.
Context (nodeID : NodeID) (delivery : Delivery) (completedAt : time).

Fixpoint new_events (parser : ParserSnapshot) (index : nat) (l : list (EventFields V))
    : result (list (SecurityEvent V)) :=
  match l with
  | [] => Ok []
  | fields :: rest =>
    event ← NewSecurityEvent nodeID delivery (ps_ParserID parser) (ps_Version parser)
              (wrap32 (Z.of_nat index)) fields;
    events ← new_events parser (S index) rest;
    Ok (event :: events)
  end.

Definition add_rejected (parser : ParserSnapshot) (failure : PlanFailure) (r : PlanRunResult V)
    : PlanRunResult V :=
  MkPlanRunResult (pn_ParserOutcomes r ++ [rejected_outcome delivery completedAt parser failure])
    (pn_Events r) (pn_Rules r)
    (pn_PermanentFailures r ++ [rejected_record completedAt parser failure]) (pn_Complete r).
Definition add_no_match (parser : ParserSnapshot) (r : PlanRunResult V) : PlanRunResult V :=
  MkPlanRunResult (pn_ParserOutcomes r ++ [no_match_outcome delivery completedAt parser])
    (pn_Events r) (pn_Rules r) (pn_PermanentFailures r) (pn_Complete r).
Definition add_matched (parser : ParserSnapshot) (events : list (SecurityEvent V))
    (rules : list RuleSnapshot) (r : PlanRunResult V) : PlanRunResult V :=
  MkPlanRunResult (pn_ParserOutcomes r ++ [matched_outcome delivery completedAt parser (length events)])
    (pn_Events r ++ events) rules (pn_PermanentFailures r) (pn_Complete r).
Definition set_complete (r : PlanRunResult V) : PlanRunResult V :=
  MkPlanRunResult (pn_ParserOutcomes r) (pn_Events r) (pn_Rules r) (pn_PermanentFailures r) true.

(** The body of the loop over the frozen parsers. *)
Definition run_parser (parser : ParserSnapshot) : ST (run_state V E) unit :=
  cancelled ← run_env ctx_Err;
  match cancelled with
  | Some err => st_fail (plan_error (newPlanFailure PlanFailureCancelled err))
  | None =>
    execution ← st_try (run_env (env_RunParser parser (dl_Record delivery)));
    match execution with
    | Err err =>
      let failure := classifyPlanFailure err false in
      if bool_decide (pl_Class failure = PlanFailureRecordPermanent)
      then run_result (add_rejected parser failure)
      else st_fail (plan_error failure)
    | Ok [] => run_result (add_no_match parser)
    | Ok emitted =>
      if 2 ^ 32 - 1 <? Z.of_nat (length emitted)
      then st_fail (blocked "parser emitted more events than the stable index supports")
      else match new_events parser 0 emitted with
      | Err err => st_fail (plan_error (newPlanFailure PlanFailureBlocked
                              (Wrapf "parser %q emitted invalid event" err)))
      | Ok events => rules ← run_rules; run_result (add_matched parser events rules)
      end
    end
  end.

Definition run_checks : result unit :=
  match Delivery_Validate delivery with
  | Err err => Err (plan_error (newPlanFailure PlanFailureBlocked (Wrapf "validate delivery" err)))
  | Ok _ => fail_if (IsZero completedAt) (blocked "parser completion time is required")
  end.

Definition run_body : ST (run_state V E) unit :=
  st_lift run_checks;;
  parsers ← st_gets (λ s, pg_parsers (rt_plan s));
  st_each run_parser parsers;;
  run_result set_complete.

(** The result, partial when there is an error, the error, and what is left of
    the plan and the environment. *)
Definition Run (p : ProcessingPlan) (w : E)
    : (PlanRunResult V * option error) * (ProcessingPlan * E) :=
  let '(r, s) := run_body (MkRunState empty_result p w) in
  ((rt_result s, match r with Ok _ => None | Err e => Some e end), (rt_plan s, rt_env s)).
End run.
End plan.

(** ** The frozen order *)
Definition parser_le (x y : ParserSnapshot) : Prop := parser_less y x = false.
Definition parser_complete (p : ParserSnapshot) : Prop :=
  ps_ParserID p ≠ EmptyString ∧ ps_Version p ≠ EmptyString.
Definition rule_le (x y : RuleSnapshot) : Prop := rule_less y x = false.
Definition rule_complete (r : RuleSnapshot) : Prop :=
  rs_RuleID r ≠ EmptyString ∧ rs_Version r ≠ EmptyString.

Lemma parser_le_iff x y :
  parser_le x y ↔ ps_Priority x < ps_Priority y ∨
                  ps_Priority x = ps_Priority y ∧ String.le (ps_ParserID x) (ps_ParserID y).
Proof.
  unfold parser_le, parser_less. destruct (Z.eqb_spec (ps_Priority y) (ps_Priority x)) as [E|E]; cbn.
  - rewrite string_ltb_false. split; [auto|]. intros [?|[_ ?]]; [lia|done].
  - rewrite Z.ltb_ge. split; [lia|]. intros [?|[? _]]; lia.
Qed.
Lemma rule_le_iff x y : rule_le x y ↔ String.le (rs_RuleID x) (rs_RuleID y).
Proof. apply string_ltb_false. Qed.

#[export] Instance parser_le_total : Total parser_le.
Proof.
  intros x y. rewrite !parser_le_iff.
  destruct (Z.lt_trichotomy (ps_Priority x) (ps_Priority y)) as [?|[E|?]]; [auto| |auto].
  destruct (total String.le (ps_ParserID x) (ps_ParserID y)); auto.
Qed.
#[export] Instance parser_le_trans : Transitive parser_le.
Proof.
  intros x y z. rewrite !parser_le_iff. intros [?|[E1 ?]] [?|[E2 ?]]; try (left; lia).
  right. split; [lia|]. by etrans.
Qed.
#[export] Instance rule_le_total : Total rule_le.
Proof. intros x y. rewrite !rule_le_iff. apply (total String.le). Qed.
#[export] Instance rule_le_trans : Transitive rule_le.
Proof. intros x y z. rewrite !rule_le_iff. intros ??. by etrans. Qed.

Lemma check_parsers_Ok seen l :
  check_parsers seen l = Ok tt ↔
  Forall parser_complete l ∧ NoDup (ps_ParserID <$> l) ∧ ∀ p, p ∈ l → ps_ParserID p ∉ seen.
Proof.
  revert seen. induction l as [|p l IH]; intros seen; cbn [check_parsers fmap list_fmap].
  { split; [|done]. intros _. repeat split; [constructor|constructor|]. intros p Hp.
    by apply elem_of_nil in Hp. }
  unfold is_empty, parser_complete. rewrite Forall_cons, NoDup_cons, list_elem_of_fmap. split.
  - intros H. apply result_bind_Ok in H as ([] & Hc & H). apply fail_if_Ok in Hc.
    apply result_bind_Ok in H as ([] & Hs & H). apply fail_if_Ok in Hs.
    apply IH in H as (Hf & Hn & Hseen). gobool. repeat split; try done; try tauto.
    + intros (q & Eq & Hq). specialize (Hseen q Hq). set_solver.
    + intros q [->|Hq]%elem_of_cons; [done|]. specialize (Hseen q Hq). set_solver.
  - intros ([Hc Hf] & [Hnew Hn] & Hseen). 
    step_ok ltac:(apply fail_if_false; gobool; exact Hc).
    step_ok ltac:(apply fail_if_false; gobool; apply Hseen; left).
    apply IH. split; [done|]. split; [done|]. intros q Hq. rewrite elem_of_union, elem_of_singleton.
      intros [E|E]; [apply Hnew; by exists q|]. by apply (Hseen q); [right|].
Qed.

Lemma check_rules_Ok previous l :
  StronglySorted rule_le l → (∀ id, previous = Some id → Forall (λ r, String.le id (rs_RuleID r)) l) →
  check_rules previous l = Ok tt ↔
  Forall rule_complete l ∧ NoDup (rs_RuleID <$> l) ∧ ∀ r, r ∈ l → previous ≠ Some (rs_RuleID r).
Proof.
  intros Hs. revert previous. induction Hs as [|r l Hl IH Hr]; intros previous Hp;
    cbn [check_rules fmap list_fmap].
  { split; [|done]. intros _. repeat split; [constructor|constructor|]. intros p Hq.
    by apply elem_of_nil in Hq. }
  rewrite Forall_cons, NoDup_cons, list_elem_of_fmap.
  assert (∀ id, Some (rs_RuleID r) = Some id → Forall (λ q, String.le id (rs_RuleID q)) l) as Hr'.
  { intros id [= <-]. eapply Forall_impl; [exact Hr|]. intros q. apply rule_le_iff. }
  specialize (IH _ Hr'). split.
  - intros H. inv_ok. apply IH in H as (Hf & Hn & Hne). unfold is_empty, rule_complete in *. gobool.
    repeat split; try done; try tauto.
    + intros (q & Eq & Hq). apply (Hne q Hq). by rewrite Eq.
    + intros q [->|Hq]%elem_of_cons; [done|]. intros ->.
      specialize (Hp _ eq_refl). apply Forall_cons in Hp as [Hp1 _].
      rewrite Forall_forall in Hr. specialize (Hr q Hq). apply rule_le_iff in Hr.
      apply (Hne q Hq). f_equal. by apply (anti_symm String.le).
  - intros ([Hc Hf] & [Hnew Hn] & Hne). unfold is_empty, rule_complete in *.
    step_ok ltac:(apply fail_if_false; gobool; exact Hc).
    step_ok ltac:(apply fail_if_false; gobool; apply Hne; left).
    apply IH. split; [done|]. split; [done|]. intros q Hq [= E]. apply Hnew. by exists q.
Qed.

Lemma NoDup_fmap_inj {A B} (f : A → B) (l : list A) x y :
  NoDup (f <$> l) → x ∈ l → y ∈ l → f x = f y → x = y.
Proof.
  intros Hn (i & Hi)%list_elem_of_lookup (j & Hj)%list_elem_of_lookup E.
  assert (i = j) as ->; [|congruence].
  apply (NoDup_lookup _ i j (f x) Hn); rewrite list_lookup_fmap; [by rewrite Hi|].
  by rewrite Hj, E.
Qed.

(** Whatever order the catalog lists the parsers in and whichever sorting
    algorithm is used, the frozen set is the one list of them that is sorted by
    priority and identifier, and it exists exactly when identifiers are unique. *)
Lemma freezeParsers_exact l f :
  freezeParsers l = Ok f ↔
  f ≡ₚ l ∧ StronglySorted parser_le f ∧ Forall parser_complete f ∧ NoDup (ps_ParserID <$> f).
Proof.
  unfold freezeParsers. split.
  - intros H. inv_ok. apply check_parsers_Ok in H0 as (Hf & Hn & _).
    split; [apply sort_slice_perm|]. split; [|done]. by apply (sort_slice_sorted _ parser_le).
  - intros (Hp & Hs & Hf & Hn).
    assert (sort_slice parser_less l = f) as ->.
    { apply (sort_slice_unique parser_less parser_le); [done..|].
      intros x y Hx Hy Hxy Hyx. apply (NoDup_fmap_inj ps_ParserID f); [done..|].
      apply parser_le_iff in Hxy, Hyx. destruct Hxy as [?|[? ?]], Hyx as [?|[? ?]]; try lia.
      by apply (anti_symm String.le). }
    rewrite (proj2 (check_parsers_Ok ∅ f)); [done|]. split; [done|]. split; [done|].
    intros p _. set_solver.
Qed.

Lemma freezeRules_exact l f :
  freezeRules l = Ok f ↔
  f ≡ₚ l ∧ StronglySorted rule_le f ∧ Forall rule_complete f ∧ NoDup (rs_RuleID <$> f).
Proof.
  unfold freezeRules. split.
  - intros H. inv_ok.
    assert (StronglySorted rule_le (sort_slice rule_less l)) as Hs by (by apply (sort_slice_sorted _ rule_le)).
    apply check_rules_Ok in H0 as (Hf & Hn & _); [|done..].
    split; [apply sort_slice_perm|]. done.
  - intros (Hp & Hs & Hf & Hn).
    assert (sort_slice rule_less l = f) as ->.
    { apply (sort_slice_unique rule_less rule_le); [done..|].
      intros x y Hx Hy Hxy Hyx. apply (NoDup_fmap_inj rs_RuleID f); [done..|].
      apply rule_le_iff in Hxy, Hyx. by apply (anti_symm String.le). }
    rewrite (proj2 (check_rules_Ok None f Hs ltac:(done))); [done|]. done.
Qed.

(** ** What a run accounts for *)
Section accounts.
Context {V E : Type} `{Cancellation E, PlanCatalog E, ParserRunner V E}.
Context (nodeID : NodeID) (delivery : Delivery) (completedAt : time).
Implicit Types (s : run_state V E) (parser : ParserSnapshot).

(** The terminal outcome of one frozen parser for what it answered. *)
Inductive parser_report parser : result (list (EventFields V)) →
    ParserTerminalOutcome → list ParserPermanentFailure → list (SecurityEvent V) → Prop :=
  | report_rejected err failure :
      failure = classifyPlanFailure err false → pl_Class failure = PlanFailureRecordPermanent →
      parser_report parser (Err err) (rejected_outcome delivery completedAt parser failure)
        [rejected_record completedAt parser failure] []
  | report_no_match : parser_report parser (Ok []) (no_match_outcome delivery completedAt parser) [] []
  | report_matched emitted events :
      emitted ≠ [] → Z.of_nat (length emitted) < 2 ^ 32 →
      new_events nodeID delivery parser 0 emitted = Ok events →
      parser_report parser (Ok emitted) (matched_outcome delivery completedAt parser (length events)) [] events.

(** One parser is asked once, while the context is not done; then the rules may
    be frozen. *)
Definition asked parser (w : E) (answer : result (list (EventFields V))) (w' : E) : Prop :=
  ∃ w1 w2, env_Cancelled w = (None, w1) ∧ env_RunParser parser (dl_Record delivery) w1 = (answer, w2) ∧
    (w' = w2 ∨ w' = (env_SnapshotRules w2).2).

(** [plan_reports parsers w before answers w' after]: the result grew by one
    report per parser and answer, in order. *)
Inductive plan_reports : list ParserSnapshot → E → PlanRunResult V →
    list (result (list (EventFields V))) → E → PlanRunResult V → Prop :=
  | plan_reports_nil w r : plan_reports [] w r [] w r
  | plan_reports_cons parser rest w answer w1 answers w' outcome failures events rules r r' :
      asked parser w answer w1 → parser_report parser answer outcome failures events →
      (events = [] → rules = pn_Rules r) →
      plan_reports rest w1
        (MkPlanRunResult (pn_ParserOutcomes r ++ [outcome]) (pn_Events r ++ events) rules
           (pn_PermanentFailures r ++ failures) (pn_Complete r)) answers w' r' →
      plan_reports (parser :: rest) w r (answer :: answers) w' r'.

Lemma classify_permanent err snapshot :
  pl_Class (classifyPlanFailure err snapshot) = PlanFailureRecordPermanent →
  snapshot = false ∧
  let f := classifyPlanFailure err snapshot in
  validPermanentDiagnostic (pl_Code f) (pl_SanitizedError f) (pl_Action f) = true.
Proof.
  unfold classifyPlanFailure. destruct (_ || _); [done|].
  destruct (as_PlanFailure err) as [f|]; [|done].
  destruct (pl_Class f) eqn:Ef; destruct snapshot; cbn [andb];
    try (rewrite bool_decide_eq_true_2 by done); try (rewrite bool_decide_eq_false_2 by done); cbn; try done.
  destruct (validPermanentDiagnostic _ _ _) eqn:Hv; cbn; done.
Qed.

(** The rules of the result are those the plan froze, once there is an event. *)
Definition rules_frozen s : Prop :=
  pn_Events (rt_result s) = [] ∧ pn_Rules (rt_result s) = [] ∨
  pg_rulesFrozen (rt_plan s) = true ∧ pg_rulesErr (rt_plan s) = None ∧
  pn_Rules (rt_result s) = pg_rules (rt_plan s).

Lemma Rules_Ok p w rules p' w' :
  Rules (p, w) = (Ok rules, (p', w')) →
  pg_parsers p' = pg_parsers p ∧ pg_rulesFrozen p' = true ∧ pg_rulesErr p' = None ∧
  rules = pg_rules p' ∧ (w' = w ∨ w' = (env_SnapshotRules w).2).
Proof.
  unfold Rules, freeze_rules. destruct (pg_rulesFrozen p) eqn:Ef.
  - destruct (pg_rulesErr p) eqn:Ee; intros [= <- <- <-]. auto 10.
  - destruct (env_SnapshotRules w) as [[l|err] w1]; [|done].
    destruct (freezeRules l); [|done]. cbn. destruct (pg_rulesErr p) eqn:Ee; [done|].
    intros [= <- <- <-]. cbn. auto 10.
Qed.

Lemma new_events_length parser i emitted (events : list (SecurityEvent V)) :
  new_events nodeID delivery parser i emitted = Ok events → length events = length emitted.
Proof.
  revert i events. induction emitted as [|f l IH]; intros i events; cbn [new_events].
  - by intros [= <-].
  - intros H'. inv_ok. cbn. f_equal. by eapply IH.
Qed.

Lemma run_parser_Ok parser s s' :
  run_parser nodeID delivery completedAt parser s = (Ok tt, s') →
  rules_frozen s →
  rules_frozen s' ∧ pg_parsers (rt_plan s') = pg_parsers (rt_plan s) ∧
  ∃ answer, plan_reports [parser] (rt_env s) (rt_result s) [answer] (rt_env s') (rt_result s').
Proof.
  unfold run_parser. intros Hr Hf. st_step Hr as c s1 Hc.
  unfold run_env, ctx_Err in Hc. destruct (env_Cancelled (rt_env s)) as [c' w1] eqn:Hcan. injection Hc as -> <-.
  destruct c as [err|]; [done|]. st_step Hr as x s2 Hx. unfold st_try, run_env in Hx. cbn [rt_env rt_result rt_plan] in Hx.
  destruct (env_RunParser parser (dl_Record delivery) w1) as [x' w2] eqn:Hask. injection Hx as -> <-.
  assert (∀ w', w' = w2 ∨ w' = (env_SnapshotRules w2).2 → asked parser (rt_env s) x w') as Hasked
    by (intros w' Hw; by exists w1, w2).
  destruct x as [[|fields emitted]|err].
  - injection Hr as <-. cbn. split; [exact Hf|]. split; [done|]. eexists.
    eapply (plan_reports_cons _ _ _ _ _ _ _ _ [] [] _); [by apply Hasked; left|apply report_no_match|done|].
    rewrite !app_nil_r. unfold add_no_match. constructor.
  - destruct (_ <? _) eqn:Hlen; [done|].
    destruct (new_events nodeID delivery parser 0 (fields :: emitted)) as [events|err] eqn:Hn; [|done].
    st_step Hr as rules s3 Hrules. unfold run_rules in Hrules. cbn [rt_plan rt_env rt_result] in Hrules.
    destruct (Rules (rt_plan s, w2)) as [[rules'|err] [p w]] eqn:HR; [|done].
    injection Hrules as -> <-. apply Rules_Ok in HR as (HP & Hfr & Herr & -> & Hw).
    injection Hr as <-. cbn. split; [right; done|]. split; [done|]. eexists.
    eapply (plan_reports_cons _ _ _ _ _ _ _ _ [] events (pg_rules p)); [by apply Hasked| | |].
    + apply (report_matched _ (fields :: emitted)); [done|gobool; lia|exact Hn].
    + intros ->. apply new_events_length in Hn. done.
    + rewrite app_nil_r. constructor.
  - destruct (bool_decide _) eqn:Hperm; [|done]. gobool. injection Hr as <-. cbn.
    split; [unfold rules_frozen in *; cbn; rewrite ?app_nil_r; exact Hf|]. split; [done|]. eexists.
    eapply (plan_reports_cons _ _ _ _ _ _ _ _ _ [] _); [by apply Hasked; left|by apply report_rejected|done|].
    rewrite app_nil_r. constructor.
Qed.

Lemma plan_reports_app l1 l2 w1 r1 a1 w2 r2 a2 w3 r3 :
  plan_reports l1 w1 r1 a1 w2 r2 → plan_reports l2 w2 r2 a2 w3 r3 →
  plan_reports (l1 ++ l2) w1 r1 (a1 ++ a2) w3 r3.
Proof. induction 1; [done|]. intros. econstructor; eauto. Qed.

Lemma run_parsers_Ok l s s' :
  st_each (run_parser nodeID delivery completedAt) l s = (Ok tt, s') →
  rules_frozen s →
  rules_frozen s' ∧ pg_parsers (rt_plan s') = pg_parsers (rt_plan s) ∧
  ∃ answers, plan_reports l (rt_env s) (rt_result s) answers (rt_env s') (rt_result s').
Proof.
  revert s. induction l as [|parser l IH]; intros s; cbn [st_each].
  - intros [= <-] Hf. repeat split; [done|]. eexists. constructor.
  - intros Hr Hf. st_step Hr as [] s1 H1'. apply run_parser_Ok in H1' as (Hf1 & P1 & a & R1); [|done].
    apply IH in Hr as (Hf2 & P2 & answers & R2); [|done]. split; [done|]. split; [congruence|]. exists (a :: answers).
    by apply (plan_reports_app [parser] l _ _ [a] (rt_env s1) (rt_result s1)).
Qed.

(** No step of the loop marks the result complete. *)
Lemma run_parser_incomplete parser :
  keeps (λ s s', pn_Complete (rt_result s) = pn_Complete (rt_result s'))
    (run_parser nodeID delivery completedAt parser).
Proof.
  assert (PreOrder (λ s s', pn_Complete (rt_result s) = pn_Complete (rt_result s'))).
  { split; [by intros ?|]. intros x y z. congruence. }
  assert (∀ A (m : ST E A),
    keeps (λ s s' : run_state V E, pn_Complete (rt_result s) = pn_Complete (rt_result s')) (run_env m)) as Henv.
  { intros A m s. unfold run_env. by destruct (m (rt_env s)). }
  assert (keeps (λ s s' : run_state V E, pn_Complete (rt_result s) = pn_Complete (rt_result s')) run_rules)
    as Hrules.
  { intros s. unfold run_rules. by destruct (Rules _) as [? []]. }
  unfold run_parser. keeps_tac ltac:(first [apply Henv|apply Hrules]); unfold run_result;
    apply keeps_modify; done.
Qed.
End accounts.

(** ** What the reports amount to *)
Section digest.
Context {V E : Type} `{Cancellation E, PlanCatalog E, ParserRunner V E}.
Context (nodeID : NodeID) (delivery : Delivery) (completedAt : time).

(** One permanent failure of the parser, with the diagnostic it returned. *)
Definition failed_with (parser : ParserSnapshot) (err : error) (f : ParserPermanentFailure) : Prop :=
  pp_Parser f = parser ∧
  ∃ failure, as_PlanFailure err = Some failure ∧ pl_Class failure = PlanFailureRecordPermanent ∧
    pf_Stage (pp_Failure f) = "parser" ∧ pf_OccurredAt (pp_Failure f) = completedAt ∧
    pf_Code (pp_Failure f) = pl_Code failure ∧
    pf_SanitizedError (pp_Failure f) = pl_SanitizedError failure ∧
    pf_Action (pp_Failure f) = pl_Action failure ∧
    validPermanentDiagnostic (pl_Code failure) (pl_SanitizedError failure) (pl_Action failure) = true.
(** The event of the fields a parser emitted at an index. *)
Definition event_at (parser : ParserSnapshot) (i : nat) (fields : EventFields V) (e : SecurityEvent V) : Prop :=
  SecurityEvent_Validate e = Ok tt ∧
  event_binds nodeID delivery (ps_ParserID parser) (ps_Version parser) (Z.of_nat i) fields e.

(** What the answer of a parser becomes: an event for each of the fields it
    emitted, in order, or one permanent failure; and its outcome. *)
Record answer_account (parser : ParserSnapshot) (answer : result (list (EventFields V)))
    (outcome : ParserTerminalOutcome) (failures : list ParserPermanentFailure)
    (events : list (SecurityEvent V)) : Prop := {
  aa_outcome : po_DeliveryID outcome = dl_ID delivery ∧ po_ParserID outcome = ps_ParserID parser ∧
    po_ParserVersion outcome = ps_Version parser ∧ po_CompletedAt outcome = completedAt ∧
    po_EmittedCount outcome = Z.of_nat (length events);
  aa_answer :
    match answer with
    | Ok emitted =>
      po_Kind outcome = (match emitted with [] => ParserOutcomeNoMatch | _ => ParserOutcomeSuccess end) ∧
      failures = [] ∧ length events = length emitted ∧
      ∀ i fields e, emitted !! i = Some fields → events !! i = Some e → event_at parser i fields e
    | Err err =>
      po_Kind outcome = ParserOutcomeRecordPermanent ∧ events = [] ∧ ∃ f, failures = [f] ∧ failed_with parser err f
    end
}.

(** The parsers, asked once each in their order, and what their answers add to
    the result. *)
Inductive plan_digest : list ParserSnapshot → E → list ParserTerminalOutcome →
    list ParserPermanentFailure → list (SecurityEvent V) → E → Prop :=
  | plan_digest_nil w : plan_digest [] w [] [] [] w
  | plan_digest_cons parser rest w answer w1 outcome failures events outcomes failures' events' w' :
      asked delivery parser w answer w1 →
      answer_account parser answer outcome failures events →
      plan_digest rest w1 outcomes failures' events' w' →
      plan_digest (parser :: rest) w (outcome :: outcomes) (failures ++ failures') (events ++ events') w'.

Lemma new_events_emitted parser k emitted (events : list (SecurityEvent V)) i fields e :
  new_events nodeID delivery parser k emitted = Ok events →
  Z.of_nat (k + length emitted) < 2 ^ 32 → emitted !! i = Some fields → events !! i = Some e →
  event_at parser (k + i) fields e.
Proof.
  revert k events i. induction emitted as [|f l IH]; intros k events i; cbn [new_events length].
  - by intros [= <-].
  - intros Hn Hk Hf Hi. apply result_bind_Ok in Hn as (e0 & Hn & Hrest).
    apply result_bind_Ok in Hrest as (es & Hes & [= <-]). destruct i as [|i]; cbn in Hf, Hi.
    + injection Hi as ->. injection Hf as ->. split; [by eapply NewSecurityEvent_valid|].
      apply NewSecurityEvent_binds in Hn. rewrite Nat.add_0_r. unfold wrap32 in Hn. by rewrite Z.mod_small in Hn by lia.
    + rewrite Nat.add_succ_r, <- Nat.add_succ_l. eapply IH; [done|lia|done..].
Qed.

Lemma report_account parser answer outcome failures events :
  parser_report (V := V) nodeID delivery completedAt parser answer outcome failures events →
  answer_account parser answer outcome failures events.
Proof.
  destruct 1 as [err failure -> Hc| |emitted events Hne Hlen Hn].
  - split; [done|]. split; [done|]. split; [done|]. eexists. split; [done|]. split; [done|].
    unfold classifyPlanFailure in *. destruct (_ || _); [done|]. destruct (as_PlanFailure err) as [f|]; [|done].
    exists f. cbn [andb] in *. destruct (pl_Class f) eqn:Ef; try done.
    destruct (validPermanentDiagnostic _ _ _) eqn:Hv; [|done]. cbn. auto 10.
  - split; [done|]. split; [done|]. split; [done|]. split; [done|]. by intros [].
  - pose proof (new_events_length _ _ _ _ _ _ Hn) as Hl. split.
    + repeat split. cbn. unfold wrap32. apply Z.mod_small. lia.
    + split; [by destruct emitted|]. split; [done|]. split; [done|]. intros i fields e Hf He.
      by apply (new_events_emitted _ 0 _ _ _ _ _ Hn).
Qed.
Lemma reports_digest parsers w r answers w' r' :
  plan_reports (V := V) nodeID delivery completedAt parsers w r answers w' r' →
  ∃ outcomes failures events, plan_digest parsers w outcomes failures events w' ∧
    pn_ParserOutcomes r' = pn_ParserOutcomes r ++ outcomes ∧
    pn_PermanentFailures r' = pn_PermanentFailures r ++ failures ∧ pn_Events r' = pn_Events r ++ events.
Proof.
  induction 1 as [w r|parser rest w answer w1 answers w' outcome failures events rules r r' Ha Hr _ _ IH].
  - exists [], [], []. rewrite !app_nil_r. split; [constructor|done].
  - destruct IH as (os & fs & es & Hd & Eo & Ef & Ee). cbn in Eo, Ef, Ee.
    exists (outcome :: os), (failures ++ fs), (events ++ es). split.
    + econstructor; [done| |done]. by apply report_account.
    + rewrite Eo, Ef, Ee, <- !app_assoc. done.
Qed.

Definition usable_diagnostic (f : ParserPermanentFailure) : Prop :=
  pf_Stage (pp_Failure f) = "parser" ∧ pf_OccurredAt (pp_Failure f) = completedAt ∧
  validPermanentDiagnostic (pf_Code (pp_Failure f)) (pf_SanitizedError (pp_Failure f))
    (pf_Action (pp_Failure f)) = true.
Lemma digest_usable parsers w outcomes failures events w' :
  plan_digest parsers w outcomes failures events w' → Forall usable_diagnostic failures.
Proof.
  induction 1 as [|parser rest w answer w1 outcome failures events ??? w' _ [_ Ha] _ IH]; [constructor|].
  apply Forall_app. split; [|done]. destruct answer.
  - destruct Ha as (_ & -> & _). constructor.
  - destruct Ha as (_ & _ & f & -> & _ & failure & _ & _ & Hs & Ho & Hc & He & Hac & Hv). constructor; [|constructor].
    split; [done|]. split; [done|]. by rewrite Hc, He, Hac.
Qed.
End digest.

Section run_theorem.
Context {V E : Type} `{Cancellation E, PlanCatalog E, ParserRunner V E}.

(** A run without an error is complete: the outcomes, permanent failures and
    events are those of one report per frozen parser, in the frozen order, and
    the rules are the frozen ones. A run with an error is not complete. *)
Lemma Run_accounts nodeID delivery completedAt (p p' : ProcessingPlan) (w w' : E)
    (result : PlanRunResult V) err :
  Run nodeID delivery completedAt p w = ((result, err), (p', w')) →
  match err with
  | Some _ => pn_Complete result = false
  | None =>
    ∃ r answers, result = set_complete r ∧
      plan_reports nodeID delivery completedAt (pg_parsers p) w empty_result answers w' r ∧
      pg_parsers p' = pg_parsers p ∧
      (pn_Events result = [] ∧ pn_Rules result = [] ∨
       pg_rulesFrozen p' = true ∧ pg_rulesErr p' = None ∧ pn_Rules result = pg_rules p')
  end.
Proof.
  unfold Run. destruct (run_body nodeID delivery completedAt _) as [[[]|e] s] eqn:Hr;
    intros [= <- <- <- <-].
  - unfold run_body in Hr. st_step Hr as [] s1 Hc. apply lift_Ok_inv in Hc as [_ ->].
    autorewrite with st in Hr. cbn [rt_plan] in Hr. st_step Hr as [] s2 Hl.
    apply run_parsers_Ok in Hl as (Hf & HP & answers & HR); [|by left]. injection Hr as <-. cbn.
    exists (rt_result s2), answers. split; [done|]. split; [exact HR|]. split; [exact HP|]. exact Hf.
  - unfold run_body, mbind, st_bind, st_lift in Hr.
    destruct (run_checks delivery completedAt); [|by injection Hr as _ <-]. cbn in Hr.
    assert (∀ l s, pn_Complete (rt_result s) = pn_Complete (rt_result
              (st_each (run_parser (V:=V) (E:=E) nodeID delivery completedAt) l s).2)) as Hk.
    { intros l. induction l as [|parser l IH]; intros s'; [done|]. cbn [st_each].
      unfold mbind, st_bind. pose proof (run_parser_incomplete nodeID delivery completedAt parser s') as Hp.
      cbn beta in Hp. destruct (run_parser _ _ _ _ s') as [[|] s1]; cbn in *; [|done].
      rewrite Hp. apply IH. }
    specialize (Hk (pg_parsers p) (MkRunState empty_result p w)).
    destruct (st_each _ _ _) as [[[]|] s1]; cbn in *; [done|]. injection Hr as _ <-. done.
Qed.

(** What Rules preserves of a plan, a run preserves. *)
Lemma Run_keeps_plan (Φ : ProcessingPlan → Prop) nodeID delivery completedAt (p : ProcessingPlan) (w : E) :
  (∀ p w, Φ p → Φ (Rules (p, w)).2.1) → Φ p → Φ (Run (V:=V) nodeID delivery completedAt p w).2.1.
Proof.
  intros HR Hp. set (R := λ s s' : run_state V E, Φ (rt_plan s) → Φ (rt_plan s')).
  assert (PreOrder R) by (split; unfold R; [intros ?; auto|intros x y z; auto]).
  assert (∀ A (m : ST E A), keeps R (run_env m)) as Henv.
  { intros A m s. unfold R, run_env. by destruct (m (rt_env s)). }
  assert (keeps R run_rules) as Hrules.
  { intros s. unfold R, run_rules. intros Hs. specialize (HR _ (rt_env s) Hs).
    by destruct (Rules _) as [? []]. }
  assert (∀ f, keeps R (run_result f)) as Hresult.
  { intros f. intros s. unfold R. done. }
  assert (∀ l, keeps R (st_each (run_parser (V:=V) (E:=E) nodeID delivery completedAt) l)) as Hl.
  { induction l as [|parser l IH]; cbn [st_each]; [apply keeps_ret; apply _|].
    apply keeps_bind; [apply _| |intros _; exact IH]. unfold run_parser.
    keeps_tac ltac:(first [apply Henv|apply Hrules|apply Hresult]). }
  assert (keeps R (run_body (V:=V) (E:=E) nodeID delivery completedAt)) as Hb.
  { unfold run_body. keeps_tac ltac:(first [apply Hl|apply Hresult]). }
  specialize (Hb (MkRunState empty_result p w) Hp). unfold Run.
  by destruct (run_body _ _ _ _) as [? s].
Qed.

(** The frozen rules are the catalog's, sorted. *)
Definition frozen_rules (rules : list RuleSnapshot) : Prop :=
  ∃ (w w' : E) catalog, env_SnapshotRules w = (Ok catalog, w') ∧ rules ≡ₚ catalog ∧
    StronglySorted rule_le rules ∧ NoDup (rs_RuleID <$> rules) ∧ Forall rule_complete rules.
Definition rules_checked (p : ProcessingPlan) : Prop :=
  pg_rulesFrozen p = true → pg_rulesErr p = None → frozen_rules (pg_rules p).

Lemma Rules_checked p (w : E) : rules_checked p → rules_checked (Rules (p, w)).2.1.
Proof.
  unfold rules_checked, Rules, freeze_rules. intros Hp. destruct (pg_rulesFrozen p); cbn; [auto|].
  destruct (env_SnapshotRules w) as [[catalog|err] w1] eqn:Hw; [|done].
  destruct (freezeRules catalog) eqn:Hf; [|done]. cbn. intros _ _. exists w, w1, catalog.
  split; [done|]. by apply freezeRules_exact in Hf as (? & ? & ? & ?).
Qed.

(** A run after a snapshot of the parsers. *)
Definition plan_of_catalog (w : E) (p : ProcessingPlan) (w1 : E) : Prop :=
  ∃ catalog, env_SnapshotParsers w = (Ok catalog, w1) ∧ pg_parsers p ≡ₚ catalog ∧
    StronglySorted parser_le (pg_parsers p) ∧ NoDup (ps_ParserID <$> pg_parsers p).
Lemma BuildProcessingPlan_catalog (w w1 : E) p :
  BuildProcessingPlan w = (Ok p, w1) → plan_of_catalog w p w1 ∧ rules_checked p.
Proof.
  unfold BuildProcessingPlan. destruct (env_SnapshotParsers w) as [[l|e] w2] eqn:Hw; [|done].
  destruct (freezeParsers l) as [frozen|e] eqn:Hf; [|done]. intros [= <- ->]. split; [|done].
  apply freezeParsers_exact in Hf as (Hp & Hs & _ & Hn). by exists l.
Qed.
Lemma Run_digest nodeID delivery completedAt (w1 w' : E) p p' (result : PlanRunResult V) :
  rules_checked p →
  Run nodeID delivery completedAt p w1 = ((result, None), (p', w')) →
  pn_Complete result = true ∧
  plan_digest nodeID delivery completedAt (pg_parsers p) w1 (pn_ParserOutcomes result)
    (pn_PermanentFailures result) (pn_Events result) w' ∧
  (pn_Events result = [] ∧ pn_Rules result = [] ∨ frozen_rules (pn_Rules result)).
Proof.
  intros Hp HR. pose proof (Run_keeps_plan rules_checked nodeID delivery completedAt p w1 Rules_checked Hp) as Hc.
  rewrite HR in Hc. cbn in Hc. apply Run_accounts in HR as (r & answers & -> & Hr & _ & Hrules).
  split; [done|]. split.
  { apply reports_digest in Hr as (os & fs & es & Hd & Eo & Ef & Ee). cbn in *. by rewrite Eo, Ef, Ee. }
  destruct Hrules as [Hn|(Hz & Hn & ->)]; [by left|]. right. by apply Hc.
Qed.

(** C8: A plan run accounts for every parser. Once the catalog has been frozen
    and the run returns without an error, the result is complete; every parser of
    the catalog was asked exactly once about the record, in priority and
    identifier order, while the context was not done; a parser that emitted
    nothing has the outcome no-match, one that emitted fields has the outcome
    success with their number and one event for each of them, in order, numbered
    from zero, with just those fields, valid and bound to the delivery and the
    parser revision, and one that failed has the outcome record-permanent and one
    permanent failure with the diagnostic it returned, which may be persisted.
    There are no other outcomes, events or failures. The rules handed to
    detection with events are the rule catalog, sorted and without duplicates. *)
Theorem plan_accounts nodeID delivery completedAt (w w1 w' : E) p p' (result : PlanRunResult V) :
  BuildProcessingPlan w = (Ok p, w1) →
  Run nodeID delivery completedAt p w1 = ((result, None), (p', w')) →
  pn_Complete result = true ∧ plan_of_catalog w p w1 ∧
  plan_digest nodeID delivery completedAt (pg_parsers p) w1 (pn_ParserOutcomes result)
    (pn_PermanentFailures result) (pn_Events result) w' ∧
  (pn_Events result = [] ∧ pn_Rules result = [] ∨ frozen_rules (pn_Rules result)).
Proof.
  intros [Hp Hc]%BuildProcessingPlan_catalog HR. destruct (Run_digest _ _ _ _ _ _ _ _ Hc HR) as (? & ? & ?). done.
Qed.
End run_theorem.

(** ** A plan of two parsers *)
Definition sample_record : RawRecord :=
  MkRawRecord "source-ssh-auth" sample_time
    (PositionFile (MkFilePosition "0123456789abcdef0123456789abcdef" 0 0 4096 4173)) [] ∅.
Definition sample_work : Delivery :=
  MkDelivery "dlv1_oghspfuq9jlm1q5pf1c5kktm4da0e053mn4dnotbd33jjf5be300" 1 sample_record.
Definition sample_parsers : list ParserSnapshot :=
  [MkParserSnapshot "sshd" "v1" 10; MkParserSnapshot "broken" "v1" 5].
Definition sample_rules : list RuleSnapshot := [MkRuleSnapshot "brute-force" "v3"].
Definition no_endpoint : Endpoint := MkEndpoint zero_addr EmptyString 0.
Definition sample_fields : EventFields unit :=
  MkEventFields None "auth.failure" no_endpoint no_endpoint None None EmptyString None None.
Definition sample_context : Cancellation unit := {| env_Cancelled e := (None, e) |}.
Definition sample_catalog : PlanCatalog unit :=
  {| env_SnapshotParsers e := (Ok sample_parsers, e); env_SnapshotRules e := (Ok sample_rules, e) |}.
Definition sample_poison : PlanFailure :=
  MkPlanFailure PlanFailureRecordPermanent "bad_line" "line is not parseable" "skip" nil_cause.
Definition sample_runner : ParserRunner unit unit :=
  {| env_RunParser parser _ e :=
       (if bool_decide (ps_ParserID parser = "sshd") then Ok [sample_fields; sample_fields]
        else Err (Wrapf "parse" (plan_error sample_poison)), e) |}.
Definition sample_plan : ProcessingPlan := MkProcessingPlan (reverse sample_parsers) false [] None.

Abbreviation sample_run :=
  (Run (H := sample_context) (H0 := sample_catalog) (H1 := sample_runner) sample_node sample_work
     sample_time sample_plan ()) (only parsing).
Definition sample_result : PlanRunResult unit := Eval vm_compute in sample_run.1.1.
Definition sample_frozen : ProcessingPlan := Eval vm_compute in sample_run.2.1.

Lemma plan_accounts_witness :
  sample_run = ((sample_result, None), (sample_frozen, ())) ∧ length (pn_Events sample_result) = 2%nat ∧
  length (pn_PermanentFailures sample_result) = 1%nat ∧ pn_Complete sample_result = true.
Proof.
  assert (sample_run = ((sample_result, None), (sample_frozen, ()))) as HR by (vm_compute; reflexivity).
  split; [exact HR|]. split; [reflexivity|]. split; [reflexivity|].
  refine (proj1 (plan_accounts (H := sample_context) (H0 := sample_catalog) (H1 := sample_runner)
           sample_node sample_work sample_time () () () sample_plan sample_frozen sample_result _ HR)).
  vm_compute; reflexivity.
Defined.
