(* ===== verification/Coordinator.v ===== *)
(** * The processing coordinator (internal/processor/coordinator.go)

    One attempt per delivery: look for a durable receipt, otherwise prepare the
    attempt, write its outcomes and its receipt in one transaction, and settle
    the reserved window memberships by what is known of the commit. The store,
    the transaction, the runner and its attempts are ports over an environment;
    the optional interfaces a runner or an attempt may implement are options. A
    computation fails with the error the source returns beside the zero
    completion; it returns a completion with the error of the wakes, if any.
    The mutexes and the flights, which make one caller per delivery the leader,
    are file SingleFlight. *)

From S2P Require Import Prelude GoStd Sha256 Netip Identity CoreModel.

Definition ErrCommitRejected : error := Errorf "processing commit rejected".
Definition ErrProcessingCommitUnknown : error := Errorf "processing commit outcome unknown".

Inductive commitState := commitConfirmed | commitRejected | commitUnknown | commitStateOther (n : Z).

(** ** Ports *)
Class ProcessingStore (E T : Type) := {
  env_findReceipt : DeliveryID → ST E (option ProcessingReceipt);
  env_notifyReceiptReplay : ST E unit;
  env_beginProcessing : ST E T;
  tx_finalizeDesiredState : T → ST E unit;
  tx_writeReceipt : T → ProcessingReceipt → ST E unit;
  tx_commit : T → E → (commitState * option error) * E;
  tx_notifyCommitted : T → ST E unit;
  tx_rollback : T → ST E unit
}.

Record deliveryGate (E : Type) := MkGate {
  gate_acquire : DeliveryID → ST E unit;
  gate_release : DeliveryID → E → E
}.
Arguments MkGate {E}. Arguments gate_acquire {E}. Arguments gate_release {E}.

Class AttemptRunner (E T A : Type) := {
  run_prepare : Delivery → ST E (option A);
  att_write : A → T → ST E unit;
  att_terminal : A → ReceiptKind * option PermanentFailure;
  att_confirm : A → E → E;
  att_abort : A → E → E;
  att_deferResolution : option (A → E → E);
  run_resolvePending : option (DeliveryID → bool → E → E);
  run_acquireDelivery : option (deliveryGate E)
}.

Record Coordinator (A : Type) := MkCoordinator { co_pending : gmap DeliveryID A }.
Arguments MkCoordinator {A}. Arguments co_pending {A}.
Definition NewCoordinator {A} : Coordinator A := MkCoordinator ∅.

(** ** Receipts *)
Definition completionFromReceipt (delivery : Delivery) (receipt : ProcessingReceipt)
    : result DurableCompletion :=
  wrap "validate receipt" (ProcessingReceipt_Validate receipt);;
  fail_if (negb (bool_decide (pr_DeliveryID receipt = dl_ID delivery)))
          (Errorf "receipt delivery id mismatch");;
  fail_if (negb (bool_decide (pr_SourceID receipt = rr_SourceID (dl_Record delivery))))
          (Errorf "receipt source id mismatch");;
  fail_if (negb (bool_decide (pr_Position receipt = rr_Position (dl_Record delivery))))
          (Errorf "receipt source position mismatch");;
  fail_if (match pr_Kind receipt with ReceiptSuccess | ReceiptRecordPermanent => false | _ => true end)
          (Errorf "unsupported receipt kind %d");;
  Ok (MkDurableCompletion (rr_SourceID (dl_Record delivery)) (dl_ID delivery) (dl_Sequence delivery)
        (rr_Position (dl_Record delivery))).

Definition new_receipt (delivery : Delivery) (terminal : ReceiptKind * option PermanentFailure)
    (committed : time) : ProcessingReceipt :=
  MkProcessingReceipt (dl_ID delivery) (rr_SourceID (dl_Record delivery)) (rr_Position (dl_Record delivery))
    terminal.1 terminal.2 committed.

(** errors.Join with errors that may be nil. *)
Definition join_nil (e : error) (o : option error) : error :=
  match o with Some e' => Join e e' | None => e end.
Definition err_of {X} (r : result X) : option error :=
  match r with Ok _ => None | Err e => Some e end.

Section coordinator.
Context {E T A : Type} `{Clock E, ProcessingStore E T, AttemptRunner E T A}.
Abbreviation P := (ST (Coordinator A * E)).

Definition in_env {X} (m : ST E X) : P X := λ '(c, w), let '(r, w) := m w in (r, (c, w)).
Definition on_env (f : E → E) : P unit := st_modify (λ '(c, w), (c, f w)).

Definition rollbackWithCause {X} (tx : T) (cause : error) : P X :=
  rolled ← st_try (in_env (tx_rollback tx));
  st_fail (match rolled with
           | Err e => Join cause (Wrapf "rollback processing" e)
           | Ok _ => cause
           end).

Definition rememberPending (id : DeliveryID) (prepared : A) : P unit :=
  on_env (match att_deferResolution with Some defer => defer prepared | None => λ w, w end);;
  previous ← st_gets (λ '(c, _), co_pending c !! id);
  st_modify (λ '(c, w), (MkCoordinator (<[id := prepared]> (co_pending c)), w));;
  on_env (match previous with Some p => att_abort p | None => λ w, w end).

Definition resolvePending (id : DeliveryID) (committed : bool) : P unit :=
  prepared ← st_gets (λ '(c, _), co_pending c !! id);
  st_modify (λ '(c, w), (MkCoordinator (delete id (co_pending c)), w));;
  on_env (match prepared with
          | Some p => if committed then att_confirm p else att_abort p
          | None => λ w, w
          end);;
  on_env (match run_resolvePending with Some resolve => resolve id committed | None => λ w, w end).

(** A statement of the transaction: its error aborts the attempt and rolls back. *)
Definition attempt_step {X} (prepared : A) (tx : T) (message : string) (m : ST E X) : P X :=
  r ← st_try (in_env m);
  match r with
  | Ok x => mret x
  | Err e => on_env (att_abort prepared);; rollbackWithCause tx (Wrapf message e)
  end.

Definition notified (completion : DurableCompletion) (tx : T) : P (DurableCompletion * option error) :=
  notify ← st_try (in_env (tx_notifyCommitted tx)); mret (completion, err_of notify).

(** The read-back after a commit of unknown outcome. *)
Definition settle_unknown (delivery : Delivery) (prepared : A) (tx : T) (commitErr : option error)
    : P (DurableCompletion * option error) :=
  read ← st_try (in_env (env_findReceipt (dl_ID delivery)));
  match read with
  | Ok (Some persisted) =>
    match completionFromReceipt delivery persisted with
    | Err e => rememberPending (dl_ID delivery) prepared;; st_fail e
    | Ok completion => on_env (att_confirm prepared);; notified completion tx
    end
  | Ok None =>
    on_env (att_abort prepared);; st_fail (join_nil ErrProcessingCommitUnknown commitErr)
  | Err e =>
    rememberPending (dl_ID delivery) prepared;;
    st_fail (Join (join_nil ErrProcessingCommitUnknown commitErr) e)
  end.

(** The switch on the state the commit reports. *)
Definition settle (delivery : Delivery) (prepared : A) (tx : T) (receipt : ProcessingReceipt)
    (state : commitState) (commitErr : option error) : P (DurableCompletion * option error) :=
  match state with
  | commitConfirmed =>
    match commitErr with
    | Some e =>
      on_env (att_confirm prepared);;
      notify ← st_try (in_env (tx_notifyCommitted tx));
      st_fail (join_nil (Wrapf "commit reported confirmed with error" e) (err_of notify))
    | None =>
      match completionFromReceipt delivery receipt with
      | Err e => on_env (att_confirm prepared);; st_fail e
      | Ok completion => on_env (att_confirm prepared);; notified completion tx
      end
    end
  | commitRejected =>
    on_env (att_abort prepared);; st_fail (join_nil ErrCommitRejected commitErr)
  | commitUnknown => settle_unknown delivery prepared tx commitErr
  | commitStateOther _ =>
    on_env (att_abort prepared);;
    rollbackWithCause tx (join_nil (Errorf "unsupported commit state %d") commitErr)
  end.

Definition run_attempt (delivery : Delivery) (prepared : A) (tx : T)
    : P (DurableCompletion * option error) :=
  attempt_step prepared tx "run processing attempt" (att_write prepared tx);;
  attempt_step prepared tx "finalize desired state" (tx_finalizeDesiredState tx);;
  committed ← in_env (λ w, let '(t, w) := env_Now w in (Ok t, w));
  let receipt := new_receipt delivery (att_terminal prepared) committed in
  attempt_step prepared tx "write processing receipt" (tx_writeReceipt tx receipt);;
  outcome ← in_env (λ w, let '(o, w) := tx_commit tx w in (Ok o, w));
  settle delivery prepared tx receipt outcome.1 outcome.2.

Definition new_attempt (delivery : Delivery) : P (DurableCompletion * option error) :=
  prepared ← st_wrap "prepare processing attempt" (in_env (run_prepare delivery));
  match prepared with
  | None => st_fail (Errorf "prepare processing attempt: nil result")
  | Some prepared =>
    begun ← st_try (in_env env_beginProcessing);
    match begun with
    | Err e => on_env (att_abort prepared);; st_fail (Wrapf "begin processing" e)
    | Ok tx => run_attempt delivery prepared tx
    end
  end.

Definition lead (delivery : Delivery) : P (DurableCompletion * option error) :=
  found ← st_wrap "find processing receipt" (in_env (env_findReceipt (dl_ID delivery)));
  match found with
  | Some receipt =>
    completion ← st_lift (completionFromReceipt delivery receipt);
    resolvePending (dl_ID delivery) true;;
    notify ← st_try (in_env env_notifyReceiptReplay);
    mret (completion, err_of notify)
  | None => resolvePending (dl_ID delivery) false;; new_attempt delivery
  end.

(** The gate is released on every path once it was acquired. *)
Definition processLeader (delivery : Delivery) : P (DurableCompletion * option error) :=
  match run_acquireDelivery with
  | None => lead delivery
  | Some gate =>
    st_wrap "acquire shared processing attempt" (in_env (gate_acquire gate (dl_ID delivery)));;
    r ← st_try (lead delivery);
    on_env (gate_release gate (dl_ID delivery));;
    st_lift r
  end.

(** Process, for the caller that is the leader of its flight. *)
Definition Process (delivery : Delivery) : P (DurableCompletion * option error) :=
  st_lift (wrap "validate delivery" (Delivery_Validate delivery));;
  processLeader delivery.
End coordinator.
