(* ===== verification/SingleFlight.v ===== *)
(** * One attempt per delivery at a time
    (internal/processor/coordinator.go, internal/detection/window.go)

    Two mechanisms serialize the callers of one delivery: the flights of a
    coordinator, which make one caller the leader and let the others wait for a
    channel to be closed, and the delivery slots of the ledger, a token per
    delivery shared by every coordinator, kept alive by a reference count. Each
    critical section and each channel operation is one step; any interleaving of
    the callers is a run. *)

From S2P Require Import Prelude GoStd Identity.

(** ** Flights (acquireFlight, releaseFlight and the loop of Process) *)
Module Flights.

(** Where a call of Process stands. *)
Inductive phase := Arrived | Leading (done : nat) | Waiting (done : nat) | Returned.
Record caller := MkCaller { cl_id : DeliveryID; cl_phase : phase }.

(** The channels are numbered; a channel is open until it is closed. *)
Record state := MkState {
  fl_flights : gmap DeliveryID nat;
  fl_closed : gset nat;
  fl_next : nat;
  fl_callers : gmap nat caller
}.
Definition init : state := MkState ∅ ∅ 0 ∅.

Definition set_caller (i : nat) (id : DeliveryID) (p : phase) (s : state) : state :=
  MkState (fl_flights s) (fl_closed s) (fl_next s) (<[i := MkCaller id p]> (fl_callers s)).

(** acquireFlight: the channel, and whether the caller leads. *)
Definition acquireFlight (id : DeliveryID) (s : state) : (nat * bool) * state :=
  match fl_flights s !! id with
  | Some done => ((done, false), s)
  | None => ((fl_next s, true),
             MkState (<[id := fl_next s]> (fl_flights s)) (fl_closed s) (S (fl_next s)) (fl_callers s))
  end.
Definition releaseFlight (id : DeliveryID) (done : nat) (s : state) : state :=
  MkState (delete id (fl_flights s)) ({[done]} ∪ fl_closed s) (fl_next s) (fl_callers s).

Definition flight_phase (r : nat * bool) : phase := if r.2 then Leading r.1 else Waiting r.1.

Inductive flight_step : state → state → Prop :=
  | st_call i id s :
      fl_callers s !! i = None → flight_step s (set_caller i id Arrived s)
  | st_acquire i id s :
      fl_callers s !! i = Some (MkCaller id Arrived) →
      flight_step s (set_caller i id (flight_phase (acquireFlight id s).1) (acquireFlight id s).2)
  | st_release i id done s :
      fl_callers s !! i = Some (MkCaller id (Leading done)) →
      flight_step s (set_caller i id Returned (releaseFlight id done s))
  | st_woken i id done s :
      fl_callers s !! i = Some (MkCaller id (Waiting done)) → done ∈ fl_closed s →
      flight_step s (set_caller i id Arrived s)
  | st_cancelled i id done s :
      fl_callers s !! i = Some (MkCaller id (Waiting done)) →
      flight_step s (set_caller i id Returned s).

(** ** The invariant *)
Record inv (s : state) : Prop := {
  inv_led id done : fl_flights s !! id = Some done →
    ∃ i, fl_callers s !! i = Some (MkCaller id (Leading done));
  inv_leader i id done : fl_callers s !! i = Some (MkCaller id (Leading done)) →
    fl_flights s !! id = Some done;
  inv_one i j id id' done done' :
    fl_callers s !! i = Some (MkCaller id (Leading done)) →
    fl_callers s !! j = Some (MkCaller id' (Leading done')) → done = done' ∨ id = id' → i = j;
  inv_open i id done : fl_callers s !! i = Some (MkCaller id (Leading done)) →
    (done < fl_next s)%nat ∧ done ∉ fl_closed s;
  inv_closed done : done ∈ fl_closed s → (done < fl_next s)%nat;
  inv_waiter i id done : fl_callers s !! i = Some (MkCaller id (Waiting done)) →
    done ∈ fl_closed s ∨ fl_flights s !! id = Some done
}.

Lemma flights_init_inv : inv init.
Proof. split; cbn; intros *; rewrite ?lookup_empty; done. Qed.

(** A step of caller [i] that does not touch the flights. *)
Lemma set_caller_inv i id old p s :
  inv s → fl_callers s !! i = old →
  (∀ done, old ≠ Some (MkCaller id (Leading done))) → (∀ x, old = Some x → cl_id x = id) →
  p = Arrived ∨ p = Returned → inv (set_caller i id p s).
Proof.
  intros [Hled Hleader Hone Hopen Hclosed Hwait] Hold Hno Hid Hp.
  assert (∀ j id' q, (<[i := MkCaller id p]> (fl_callers s)) !! j = Some (MkCaller id' q) →
            (∀ done, q ≠ Leading done) ∧ (∀ done, q ≠ Waiting done) ∨ fl_callers s !! j = Some (MkCaller id' q)) as Hl.
  { intros j id' q. rewrite lookup_insert_Some. intros [[_ [= _ <-]]|[_ ?]]; [|by right].
    left. by destruct Hp as [->| ->]. }
  split; cbn.
  - intros id' done Hf. destruct (Hled id' done Hf) as [j Hj]. exists j.
    rewrite lookup_insert_ne; [done|]. intros ->. rewrite Hj in Hold. subst old.
    specialize (Hid _ eq_refl). cbn in Hid. subst id'. by apply (Hno done).
  - intros j id' done Hj. destruct (Hl _ _ _ Hj) as [[? _]|?]; [naive_solver|eauto].
  - intros j k id1 id2 d1 d2 Hj Hk. destruct (Hl _ _ _ Hj) as [[? _]|?]; [naive_solver|].
    destruct (Hl _ _ _ Hk) as [[? _]|?]; [naive_solver|eauto].
  - intros j id' done Hj. destruct (Hl _ _ _ Hj) as [[? _]|?]; [naive_solver|eauto].
  - done.
  - intros j id' done Hj. destruct (Hl _ _ _ Hj) as [[_ ?]|?]; [naive_solver|eauto].
Qed.

Lemma lead_inv i id s :
  inv s → fl_callers s !! i = Some (MkCaller id Arrived) → fl_flights s !! id = None →
  inv (MkState (<[id := fl_next s]> (fl_flights s)) (fl_closed s) (S (fl_next s))
         (<[i := MkCaller id (Leading (fl_next s))]> (fl_callers s))).
Proof.
  intros [Hled Hleader Hone Hopen Hclosed Hwait] Hi Hf. split; cbn.
  - intros id' done. rewrite lookup_insert_Some. intros [[<- <-]|[Hne Hd]].
    + exists i. by rewrite lookup_insert_eq.
    + destruct (Hled _ _ Hd) as [j Hj]. exists j. rewrite lookup_insert_ne; [done|]. congruence.
  - intros j id' done. rewrite !lookup_insert_Some. intros [[_ [= -> ->]]|[_ Hj]]; [by left|].
    apply Hleader in Hj. right. split; [congruence|done].
  - intros j k id1 id2 d1 d2. rewrite !lookup_insert_Some.
    intros [[<- [= <- <-]]|[Hj1 Hj2]] [[<- [= <- <-]]|[Hk1 Hk2]] Hor; [done| | |by eauto].
    + apply Hopen in Hk2 as ?. apply Hleader in Hk2. destruct Hor; [lia|congruence].
    + apply Hopen in Hj2 as ?. apply Hleader in Hj2. destruct Hor; [lia|congruence].
  - intros j id' done. rewrite lookup_insert_Some. intros [[_ [= _ <-]]|[_ Hj]].
    + split; [lia|]. intros Hc%Hclosed. lia.
    + apply Hopen in Hj as [? ?]. split; [lia|done].
  - intros done Hd%Hclosed. lia.
  - intros j id' done. rewrite lookup_insert_Some. intros [[_ [=]]|[_ Hj]].
    destruct (Hwait _ _ _ Hj) as [?|?]; [by left|]. right. rewrite lookup_insert_ne; [done|congruence].
Qed.

Lemma wait_inv i id done s :
  inv s → fl_callers s !! i = Some (MkCaller id Arrived) → fl_flights s !! id = Some done →
  inv (set_caller i id (Waiting done) s).
Proof.
  intros [Hled Hleader Hone Hopen Hclosed Hwait] Hi Hf. split; cbn.
  - intros id' d Hd. destruct (Hled _ _ Hd) as [j Hj]. exists j. rewrite lookup_insert_ne; [done|congruence].
  - intros j id' d. rewrite lookup_insert_Some. intros [[_ [=]]|[_ ?]]. eauto.
  - intros j k id1 id2 d1 d2. rewrite !lookup_insert_Some. intros [[_ [=]]|[_ ?]] [[_ [=]]|[_ ?]]. eauto.
  - intros j id' d. rewrite lookup_insert_Some. intros [[_ [=]]|[_ ?]]. eauto.
  - done.
  - intros j id' d. rewrite lookup_insert_Some. intros [[_ [= <- <-]]|[_ ?]]; [by right|]. eauto.
Qed.

Lemma release_inv i id done s :
  inv s → fl_callers s !! i = Some (MkCaller id (Leading done)) →
  inv (set_caller i id Returned (releaseFlight id done s)).
Proof.
  intros [Hled Hleader Hone Hopen Hclosed Hwait] Hi. pose proof (Hleader _ _ _ Hi) as Hf.
  destruct (Hopen _ _ _ Hi) as [Hlt Hnc].
  assert (∀ j id' d, (<[i := MkCaller id Returned]> (fl_callers s)) !! j = Some (MkCaller id' (Leading d)) →
            j ≠ i ∧ fl_callers s !! j = Some (MkCaller id' (Leading d)) ∧ id' ≠ id ∧ d ≠ done) as Hl.
  { intros j id' d. rewrite lookup_insert_Some. intros [[_ [=]]|[Hne Hj]]. split; [done|]. split; [done|].
    split; intros ->; apply Hne; by eapply Hone; eauto. }
  split; cbn.
  - intros id' d. rewrite lookup_delete_Some. intros [Hne Hd]. destruct (Hled _ _ Hd) as [j Hj].
    exists j. rewrite lookup_insert_ne; [done|]. intros ->. congruence.
  - intros j id' d Hj. apply Hl in Hj as (_ & Hj & Hne & _). rewrite lookup_delete_ne by done. eauto.
  - intros j k id1 id2 d1 d2 Hj Hk. apply Hl in Hj as (_ & Hj & _). apply Hl in Hk as (_ & Hk & _). eauto.
  - intros j id' d Hj. apply Hl in Hj as (_ & Hj & _ & Hd). destruct (Hopen _ _ _ Hj). set_solver.
  - intros d [->%elem_of_singleton|Hd]%elem_of_union; [done|auto].
  - intros j id' d. rewrite lookup_insert_Some. intros [[_ [=]]|[_ Hj]].
    destruct (Hwait _ _ _ Hj) as [?|Hd]; [left; set_solver|].
    destruct (decide (id' = id)) as [->|Hne].
    + left. rewrite Hf in Hd. injection Hd as <-. set_solver.
    + right. by rewrite lookup_delete_ne.
Qed.

Lemma flights_step_inv s s' : flight_step s s' → inv s → inv s'.
Proof.
  destruct 1 as [i id s Hi|i id s Hi|i id done s Hi|i id done s Hi Hc|i id done s Hi]; intros Hinv.
  - eapply set_caller_inv; [done|exact Hi|done|done|by left].
  - unfold acquireFlight. destruct (fl_flights s !! id) as [done|] eqn:Hf.
    + by apply wait_inv.
    + exact (lead_inv i id s Hinv Hi Hf).
  - by apply release_inv.
  - eapply set_caller_inv; [done|exact Hi|done|by intros x [= <-]|by left].
  - eapply set_caller_inv; [done|exact Hi|done|by intros x [= <-]|by right].
Qed.
Lemma flights_steps_inv s s' : rtc flight_step s s' → inv s → inv s'.
Proof. induction 1 as [|x y z Hxy _ IH]; [done|]. intros Hx. by apply IH, (flights_step_inv x). Qed.
Lemma reachable_inv s : rtc flight_step init s → inv s.
Proof. intros Hr. by eapply flights_steps_inv, flights_init_inv. Qed.

Definition leads (s : state) (i : nat) (id : DeliveryID) : Prop :=
  ∃ done, fl_callers s !! i = Some (MkCaller id (Leading done)).
Definition waits (s : state) (i : nat) (id : DeliveryID) : Prop :=
  ∃ done, fl_callers s !! i = Some (MkCaller id (Waiting done)).

(** One leader per delivery, and a caller that waits is woken: the channel it
    waits for is closed or belongs to the flight of the leader that is running. *)
Theorem single_leader s :
  rtc flight_step init s →
  (∀ id i j, leads s i id → leads s j id → i = j) ∧
  (∀ id i, waits s i id →
     (∃ s', flight_step s s' ∧ fl_callers s' !! i = Some (MkCaller id Arrived)) ∨ (∃ j, leads s j id)).
Proof.
  intros Hr%reachable_inv. split.
  - intros id i j [d1 Hi] [d2 Hj]. eapply (inv_one _ Hr); eauto.
  - intros id i [done Hi]. destruct (inv_waiter _ Hr _ _ _ Hi) as [Hc|Hf].
    + left. eexists. split; [by eapply st_woken|]. cbn. apply lookup_insert_eq.
    + right. destruct (inv_led _ Hr _ _ Hf) as [j Hj]. by exists j, done.
Qed.
End Flights.

(** ** Delivery slots (AcquireDelivery, its release and releaseDeliveryReference) *)
Module Gate.

(** A slot holds a channel of one token and counts its references; it is named
    by a number, standing for the pointer the source compares. *)
Record deliverySlot := MkSlot { ds_token : bool; ds_refs : Z }.

(** Where a call stands: it references a slot from the lookup until the
    reference is released, and owns the delivery while it holds the token. *)
Inductive phase :=
  | Idle
  | Waiting (slot : nat)
  | Holding (slot : nat)
  | Dropping (slot : nat)
  | Finished.
Record caller := MkCaller { gc_id : DeliveryID; gc_phase : phase }.

Record state := MkState {
  gt_deliveries : gmap DeliveryID nat;
  gt_slots : gmap nat deliverySlot;
  gt_callers : gmap nat caller
}.
Definition init : state := MkState ∅ ∅ ∅.
Definition fresh_slot (s : state) : nat := fresh (dom (gt_slots s)).

Definition set_caller (i : nat) (id : DeliveryID) (p : phase) (s : state) : state :=
  MkState (gt_deliveries s) (gt_slots s) (<[i := MkCaller id p]> (gt_callers s)).

Definition add_ref (n : Z) (slot : deliverySlot) : deliverySlot :=
  MkSlot (ds_token slot) (ds_refs slot + n).
Definition set_token (b : bool) (slot : deliverySlot) : deliverySlot := MkSlot b (ds_refs slot).

(** The first critical section: the slot of the delivery, made if there is none,
    gets a reference. *)
Definition reference (id : DeliveryID) (s : state) : nat * state :=
  match gt_deliveries s !! id with
  | Some k => (k, MkState (gt_deliveries s) (alter (add_ref 1) k (gt_slots s)) (gt_callers s))
  | None =>
    let k := fresh_slot s in
    (k, MkState (<[id := k]> (gt_deliveries s)) (<[k := MkSlot true 1]> (gt_slots s)) (gt_callers s))
  end.
(** releaseDeliveryReference *)
Definition releaseDeliveryReference (id : DeliveryID) (k : nat) (s : state) : state :=
  let slots := alter (add_ref (-1)) k (gt_slots s) in
  MkState
    (if bool_decide (ds_refs <$> slots !! k = Some 0) && bool_decide (gt_deliveries s !! id = Some k)
     then delete id (gt_deliveries s) else gt_deliveries s)
    slots (gt_callers s).
Definition put_token (b : bool) (k : nat) (s : state) : state :=
  MkState (gt_deliveries s) (alter (set_token b) k (gt_slots s)) (gt_callers s).

Inductive gate_step : state → state → Prop :=
  | gs_call i id s : gt_callers s !! i = None → gate_step s (set_caller i id Idle s)
  | gs_reference i id s :
      gt_callers s !! i = Some (MkCaller id Idle) →
      gate_step s (set_caller i id (Waiting (reference id s).1) (reference id s).2)
  | gs_take i id k slot s :
      gt_callers s !! i = Some (MkCaller id (Waiting k)) →
      gt_slots s !! k = Some slot → ds_token slot = true →
      gate_step s (set_caller i id (Holding k) (put_token false k s))
  | gs_cancel i id k s :
      gt_callers s !! i = Some (MkCaller id (Waiting k)) →
      gate_step s (set_caller i id (Dropping k) s)
  | gs_give i id k s :
      gt_callers s !! i = Some (MkCaller id (Holding k)) →
      gate_step s (set_caller i id (Dropping k) (put_token true k s))
  | gs_drop i id k s :
      gt_callers s !! i = Some (MkCaller id (Dropping k)) →
      gate_step s (set_caller i id Finished (releaseDeliveryReference id k s)).

(** ** Who references a slot, and who holds it *)
Definition refers (k : nat) (c : caller) : Prop :=
  gc_phase c = Waiting k ∨ gc_phase c = Holding k ∨ gc_phase c = Dropping k.
Definition holds (k : nat) (c : caller) : Prop := gc_phase c = Holding k.
#[local] Instance phase_eq_dec : EqDecision phase.
Proof. solve_decision. Defined.
#[local] Instance refers_dec k c : Decision (refers k c).
Proof. unfold refers. apply _. Defined.

Definition users (s : state) (k : nat) : gset nat :=
  dom (filter (λ p : nat * caller, refers k p.2) (gt_callers s)).

Lemma elem_of_users s k i : i ∈ users s k ↔ ∃ c, gt_callers s !! i = Some c ∧ refers k c.
Proof.
  unfold users. rewrite elem_of_dom. unfold is_Some. setoid_rewrite map_lookup_filter_Some. done.
Qed.

Record inv (s : state) : Prop := {
  gi_slot i c k : gt_callers s !! i = Some c → refers k c → gt_deliveries s !! gc_id c = Some k;
  gi_refs k slot : gt_slots s !! k = Some slot → ds_refs slot = Z.of_nat (size (users s k));
  gi_known id k : gt_deliveries s !! id = Some k → is_Some (gt_slots s !! k);
  gi_owner id id' k : gt_deliveries s !! id = Some k → gt_deliveries s !! id' = Some k → id = id';
  gi_token k slot i c : gt_slots s !! k = Some slot → gt_callers s !! i = Some c → holds k c →
    ds_token slot = false;
  gi_one k i j c c' : gt_callers s !! i = Some c → gt_callers s !! j = Some c' →
    holds k c → holds k c' → i = j;
  gi_free k slot : gt_slots s !! k = Some slot → ds_token slot = false →
    ∃ i c, gt_callers s !! i = Some c ∧ holds k c
}.

Lemma gate_init_inv : inv init.
Proof. split; cbn; intros *; rewrite ?lookup_empty; try done. Qed.

Lemma users_set i id p s k :
  users (set_caller i id p s) k
  = if decide (refers k (MkCaller id p)) then {[i]} ∪ users s k else users s k ∖ {[i]}.
Proof.
  apply set_eq. intros j. rewrite elem_of_users. cbn.
  destruct (decide (j = i)) as [->|Hne].
  - rewrite lookup_insert_eq. case_decide; [|set_solver]. split; [set_solver|]. intros _. by eexists.
  - rewrite lookup_insert_ne, <- elem_of_users by done. case_decide; set_solver.
Qed.

Lemma users_same i id p q s k :
  gt_callers s !! i = Some (MkCaller id q) → (refers k (MkCaller id p) ↔ refers k (MkCaller id q)) →
  users (set_caller i id p s) k = users s k.
Proof.
  intros Hi Hpq. rewrite users_set. assert (i ∈ users s k ↔ refers k (MkCaller id q)) as Hin.
  { rewrite elem_of_users, Hi. split; [by intros (c & [= <-] & ?)|]. intros Hr. by eexists. }
  case_decide; set_solver.
Qed.

(** A step of caller [i] within the slot [k] it references already, which may set
    the token of the slot. *)
Lemma within_slot_inv i id p q k b s :
  inv s → gt_callers s !! i = Some (MkCaller id q) →
  (∀ x, refers x (MkCaller id p) ↔ x = k) → (∀ x, refers x (MkCaller id q) ↔ x = k) →
  (p = Holding k ↔ b = Some false) → (p = Holding k → ∀ j c, gt_callers s !! j = Some c → ¬ holds k c) →
  (q = Holding k ↔ b = Some true) →
  inv (set_caller i id p (match b with Some t => put_token t k s | None => s end)).
Proof.
  intros [Hslot Hrefs Hknown Hown Htok Hone Hfree] Hi Hp Hq Hb1 Hb1' Hb2.
  set (s1 := match b with Some t => put_token t k s | None => s end).
  assert (gt_deliveries s1 = gt_deliveries s ∧ gt_callers s1 = gt_callers s) as [Ed Ec] by (by destruct b).
  assert (∀ x slot, gt_slots s1 !! x = Some slot → ∃ old, gt_slots s !! x = Some old ∧
            ds_refs slot = ds_refs old ∧
            ds_token slot = (if decide (x = k) then default (ds_token old) b else ds_token old)) as Es.
  { unfold s1. intros x slot Hx. destruct b as [t|]; cbn in *.
    - destruct (decide (x = k)) as [->|Hne].
      + rewrite lookup_alter_eq in Hx. destruct (gt_slots s !! k) as [old|]; [|done].
        injection Hx as <-. by exists old.
      + rewrite lookup_alter_ne in Hx by done. by exists slot.
    - exists slot. split; [done|]. split; [done|]. by case_decide. }
  assert (∀ x, is_Some (gt_slots s !! x) → is_Some (gt_slots s1 !! x)) as Esome.
  { unfold s1. intros x Hx. destruct b; [|done]. cbn. by apply lookup_alter_is_Some. }
  assert (∀ x, users (set_caller i id p s1) x = users s x) as Eu.
  { intros x. rewrite (users_same i id p q); [by unfold users; rewrite Ec|by rewrite Ec|].
    by rewrite Hp, Hq. }
  split; cbn; rewrite ?Ed, ?Ec.
  - intros j c x. rewrite lookup_insert_Some. intros [[<- <-]|[_ Hj]]; [|by eauto].
    intros ->%Hp. apply (Hslot i (MkCaller id q) k); [done|by apply Hq].
  - intros x slot Hx. destruct (Es _ _ Hx) as (old & Ho & -> & _). rewrite Eu. by apply Hrefs.
  - intros id' x Hx. by apply Esome, (Hknown id').
  - done.
  - intros x slot j c Hx. destruct (Es _ _ Hx) as (old & Ho & _ & ->). rewrite lookup_insert_Some.
    intros [[<- <-]|[Hne Hj]] Hh.
    + assert (x = k) as -> by (apply Hp; by right; left). rewrite decide_True by done.
      apply Hb1 in Hh. by rewrite Hh.
    + case_decide as Hx'; [subst x|by eauto]. destruct b as [t|]; [cbn|by eauto].
      destruct t; [|done]. assert (q = Holding k) as -> by (by apply Hb2).
      exfalso. apply Hne. by eapply (Hone k).
  - intros x j l c c'. rewrite !lookup_insert_Some.
    intros [[<- <-]|[Hnj Hj]] [[<- <-]|[Hnl Hl]] Hh Hh'; [done| | |by eauto].
    + assert (x = k) as -> by (apply Hp; by right; left). by destruct (Hb1' Hh l c').
    + assert (x = k) as -> by (apply Hp; by right; left). by destruct (Hb1' Hh' j c).
  - intros x slot Hx. destruct (Es _ _ Hx) as (old & Ho & _ & ->). intros Ht.
    destruct (decide (x = k)) as [->|Hne].
    + destruct b as [t|]; cbn in Ht.
      * subst t. exists i, (MkCaller id p). split; [apply lookup_insert_eq|]. by apply Hb1.
      * destruct (Hfree _ _ Ho Ht) as (j & c & Hj & Hh). exists j, c. split; [|done].
        rewrite lookup_insert_ne; [done|]. intros ->. rewrite Hi in Hj. injection Hj as <-.
        by apply Hb2 in Hh.
    + destruct (Hfree _ _ Ho Ht) as (j & c & Hj & Hh). exists j, c. split; [|done].
      rewrite lookup_insert_ne; [done|]. intros ->. rewrite Hi in Hj. injection Hj as <-.
      apply Hne, Hq. by right; left.
Qed.

(** A caller that references nothing, before and after. *)
Lemma outside_inv i id old s :
  inv s → gt_callers s !! i = old → (∀ c k, old = Some c → ¬ refers k c) →
  ∀ p, (∀ k, ¬ refers k (MkCaller id p)) → inv (set_caller i id p s).
Proof.
  intros [Hslot Hrefs Hknown Hown Htok Hone Hfree] Hi Ho p Hp.
  assert (∀ x, users (set_caller i id p s) x = users s x) as Eu.
  { intros x. rewrite users_set, decide_False by done. apply set_eq. intros j.
    rewrite elem_of_difference, elem_of_singleton. split; [tauto|]. intros Hj. split; [done|]. intros ->.
    apply elem_of_users in Hj as (c & Hc & Hr). apply (Ho c x); [congruence|done]. }
  assert (∀ j c x, (<[i := MkCaller id p]> (gt_callers s)) !! j = Some c → refers x c →
            gt_callers s !! j = Some c) as Hl.
  { intros j c x. rewrite lookup_insert_Some. intros [[_ <-]|[_ ?]]; [by intros ?%Hp|done]. }
  assert (∀ x c, holds x c → refers x c) as Hhr by (intros; by right; left).
  split; cbn.
  - intros j c x Hj Hr. eapply Hslot; [by eapply Hl|done].
  - intros x slot Hx. rewrite Eu. by apply Hrefs.
  - done.
  - done.
  - intros x slot j c Hx Hj Hh. eapply Htok; [done|eapply Hl; [done|by apply Hhr]|done].
  - intros x j l c c' Hj Hk Hh Hh'. eapply Hone; [eapply Hl|eapply Hl|..]; eauto.
  - intros x slot Hx Ht. destruct (Hfree _ _ Hx Ht) as (j & c & Hj & Hh). exists j, c. split; [|done].
    rewrite lookup_insert_ne; [done|]. intros ->. apply (Ho c x); [congruence|by apply Hhr].
Qed.

Lemma reference_inv i id s :
  inv s → gt_callers s !! i = Some (MkCaller id Idle) →
  inv (set_caller i id (Waiting (reference id s).1) (reference id s).2).
Proof.
  intros [Hslot Hrefs Hknown Hown Htok Hone Hfree] Hi.
  assert (∀ x, i ∉ users s x) as Hni.
  { intros x (c & Hc & Hr)%elem_of_users. rewrite Hi in Hc. injection Hc as <-. by destruct Hr as [|[]]. }
  assert (∀ k j c x, (<[i := MkCaller id (Waiting k)]> (gt_callers s)) !! j = Some c → holds x c →
            gt_callers s !! j = Some c) as Hl.
  { intros k j c x. rewrite lookup_insert_Some. intros [[_ <-]|[_ ?]]; [by intros [=]|done]. }
  assert (∀ k j c x, gt_callers s !! j = Some c → holds x c →
            (<[i := MkCaller id (Waiting k)]> (gt_callers s)) !! j = Some c) as Hr.
  { intros k j c x Hj Hh. rewrite lookup_insert_ne; [done|]. intros ->. rewrite Hi in Hj.
    injection Hj as <-. unfold holds in Hh. done. }
  unfold reference. destruct (gt_deliveries s !! id) as [k|] eqn:Hd; cbn [fst snd].
  - assert (∀ x slot, alter (add_ref 1) k (gt_slots s) !! x = Some slot → ∃ old, gt_slots s !! x = Some old ∧
              ds_token slot = ds_token old ∧ ds_refs slot = ds_refs old + (if decide (x = k) then 1 else 0)) as Es.
    { intros x slot Hx. destruct (decide (x = k)) as [->|Hne].
      - rewrite lookup_alter_eq in Hx. destruct (gt_slots s !! k) as [old|]; [|done]. injection Hx as <-.
        by exists old.
      - rewrite lookup_alter_ne in Hx by done. exists slot. repeat split; [done|lia]. }
    split; cbn.
    + intros j c x. rewrite lookup_insert_Some. intros [[<- <-]|[_ Hj]]; [|by eauto].
      intros [[= <-]|[[=]|[=]]]. done.
    + intros x slot Hx. destruct (Es _ _ Hx) as (old & Ho & _ & ->). rewrite (Hrefs _ _ Ho), users_set.
      change (users (MkState _ _ _) x) with (users s x).
      destruct (decide (x = k)) as [->|Hne].
      * rewrite decide_True by (by left). rewrite size_union by (specialize (Hni k); set_solver).
        rewrite size_singleton. lia.
      * rewrite decide_False by (by intros [[= ->]|[[=]|[=]]]).
        rewrite difference_disjoint_L by (specialize (Hni x); set_solver). lia.
    + intros id' x Hx. by apply lookup_alter_is_Some, (Hknown id').
    + done.
    + intros x slot j c Hx Hj Hh. destruct (Es _ _ Hx) as (old & Ho & -> & _). eauto.
    + intros x j l c c' Hj Hk Hh Hh'. eauto.
    + intros x slot Hx Ht. destruct (Es _ _ Hx) as (old & Ho & Et & _). rewrite Et in Ht.
      destruct (Hfree _ _ Ho Ht) as (j & c & Hj & Hh). exists j, c. eauto.
  - set (k := fresh_slot s).
    assert (gt_slots s !! k = None) as Hk by (apply not_elem_of_dom; unfold k, fresh_slot; apply is_fresh).
    assert (∀ id', gt_deliveries s !! id' ≠ Some k) as Hnk.
    { intros id' Hx. apply Hknown in Hx. rewrite Hk in Hx. by destruct Hx. }
    assert (users s k = ∅) as Hu.
    { apply set_eq. intros j. split; [|set_solver]. intros (c & Hc & Hrf)%elem_of_users.
      by destruct (Hnk (gc_id c)); eapply Hslot. }
    split; cbn.
    + intros j c x. rewrite lookup_insert_Some. intros [[<- <-]|[_ Hj]].
      * intros [[= <-]|[[=]|[=]]]. cbn. apply lookup_insert_eq.
      * intros Hrf. pose proof (Hslot _ _ _ Hj Hrf) as Hx. rewrite lookup_insert_ne; [done|congruence].
    + intros x slot. rewrite lookup_insert_Some, users_set.
      change (users (MkState _ _ _) x) with (users s x). intros [[<- <-]|[Hne Hx]].
      * rewrite decide_True, Hu, union_empty_r_L, size_singleton by (by left). done.
      * rewrite decide_False by (by intros [[= ->]|[[=]|[=]]]).
        rewrite difference_disjoint_L by (specialize (Hni x); set_solver). by apply Hrefs.
    + intros id' x. rewrite lookup_insert_Some. intros [[<- <-]|[_ Hx]].
      * rewrite lookup_insert_eq. by eexists.
      * destruct (Hknown _ _ Hx) as [slot Hs]. exists slot. rewrite lookup_insert_ne; [done|congruence].
    + intros id1 id2 x. rewrite !lookup_insert_Some. intros [[<- <-]|[_ H1]] [[<- E2]|[_ H2]]; try done.
      * by destruct (Hnk id2).
      * subst x. by destruct (Hnk id1).
      * eauto.
    + intros x slot j c Hx Hj Hh. pose proof (Hl _ _ _ _ Hj Hh) as Hj'.
      rewrite lookup_insert_ne in Hx; [by eauto|]. intros <-.
      destruct (Hnk (gc_id c)). eapply Hslot; [done|by right; left].
    + intros x j l c c' Hj Hk' Hh Hh'. eauto.
    + intros x slot. rewrite lookup_insert_Some. intros [[_ <-]|[_ Hx]] Ht; [done|].
      destruct (Hfree _ _ Hx Ht) as (j & c & Hj & Hh). exists j, c. eauto.
Qed.

Lemma drop_inv i id k s :
  inv s → gt_callers s !! i = Some (MkCaller id (Dropping k)) →
  inv (set_caller i id Finished (releaseDeliveryReference id k s)).
Proof.
  intros [Hslot Hrefs Hknown Hown Htok Hone Hfree] Hi.
  assert (gt_deliveries s !! id = Some k) as Hd.
  { apply (Hslot i (MkCaller id (Dropping k)) k); [done|]. by right; right. }
  destruct (Hknown _ _ Hd) as [slot Hk]. pose proof (Hrefs _ _ Hk) as Hn.
  assert (i ∈ users s k) as Hin by (apply elem_of_users; eexists; split; [done|by right; right]).
  assert (∀ x, x ≠ k → i ∉ users s x) as Hni.
  { intros x Hx (c & Hc & Hr)%elem_of_users. rewrite Hi in Hc. injection Hc as <-.
    destruct Hr as [|[|[= <-]]]; done. }
  unfold releaseDeliveryReference. rewrite lookup_alter_eq, Hk. cbn [fmap option_fmap option_map add_ref ds_refs].
  set (dels := if _ && _ then delete id (gt_deliveries s) else gt_deliveries s).
  assert (∀ x, users (set_caller i id Finished
             (MkState dels (alter (add_ref (-1)) k (gt_slots s)) (gt_callers s))) x
           = users s x ∖ {[i]}) as Eu.
  { intros x. rewrite users_set, decide_False by (by intros [[=]|[[=]|[=]]]). done. }
  assert (∀ id' x, dels !! id' = Some x → gt_deliveries s !! id' = Some x) as Hdel.
  { unfold dels. intros id' x. destruct (_ && _); [|done]. rewrite lookup_delete_Some. by intros []. }
  assert (∀ x slot', alter (add_ref (-1)) k (gt_slots s) !! x = Some slot' → ∃ old, gt_slots s !! x = Some old ∧
            ds_token slot' = ds_token old ∧ ds_refs slot' = ds_refs old - (if decide (x = k) then 1 else 0)) as Es.
  { intros x slot' Hx. destruct (decide (x = k)) as [->|Hne].
    - rewrite lookup_alter_eq, Hk in Hx. injection Hx as <-. exists slot. split; [done|]. split; [done|cbn; lia].
    - rewrite lookup_alter_ne in Hx by done. exists slot'. split; [done|]. split; [done|lia]. }
  assert (∀ j c x, (<[i := MkCaller id Finished]> (gt_callers s)) !! j = Some c → refers x c →
            j ≠ i ∧ gt_callers s !! j = Some c) as Hl.
  { intros j c x. rewrite lookup_insert_Some. intros [[_ <-]|[Hne Hj]]; [by intros [[=]|[[=]|[=]]]|].
    by split. }
  assert (∀ x c, holds x c → refers x c) as Hhr by (intros; by right; left).
  split; cbn.
  - intros j c x Hj Hr. destruct (Hl _ _ _ Hj Hr) as [Hji Hj']. pose proof (Hslot _ _ _ Hj' Hr) as Hx.
    unfold dels. destruct (bool_decide (Some (ds_refs slot + -1) = Some 0)) eqn:Hz; [|done].
    rewrite bool_decide_eq_true_2 by done. cbn [andb]. rewrite lookup_delete_ne; [done|]. intros Heq.
    rewrite <- Heq, Hd in Hx. injection Hx as <-. apply bool_decide_eq_true in Hz. injection Hz as Hz.
    assert (size (users s k) = 1%nat) as Hone' by lia. apply size_1_elem_of in Hone' as [y Hy].
    assert (j ∈ users s k) as Hju by (apply elem_of_users; by eexists).
    rewrite Hy in Hin, Hju. set_solver.
  - intros x slot' Hx. destruct (Es _ _ Hx) as (old & Ho & _ & ->). rewrite Eu, (Hrefs _ _ Ho).
    destruct (decide (x = k)) as [->|Hne].
    + rewrite size_difference by set_solver. rewrite size_singleton.
      assert (size (users s k) ≠ 0)%nat by (apply size_non_empty_iff; set_solver). lia.
    + rewrite difference_disjoint_L by (specialize (Hni x Hne); set_solver). lia.
  - intros id' x Hx%Hdel. by apply lookup_alter_is_Some, (Hknown id').
  - intros id1 id2 x H1%Hdel H2%Hdel. eauto.
  - intros x slot' j c Hx Hj Hh. destruct (Es _ _ Hx) as (old & Ho & -> & _).
    destruct (Hl _ _ _ Hj (Hhr _ _ Hh)) as [_ Hj']. eauto.
  - intros x j l c c' Hj Hk' Hh Hh'. destruct (Hl _ _ _ Hj (Hhr _ _ Hh)) as [_ Hj'].
    destruct (Hl _ _ _ Hk' (Hhr _ _ Hh')) as [_ Hl']. eauto.
  - intros x slot' Hx Ht. destruct (Es _ _ Hx) as (old & Ho & Et & _). rewrite Et in Ht.
    destruct (Hfree _ _ Ho Ht) as (j & c & Hj & Hh). exists j, c. split; [|done].
    rewrite lookup_insert_ne; [done|]. intros ->. rewrite Hi in Hj. injection Hj as <-.
    unfold holds in Hh. done.
Qed.

Lemma gate_step_inv s s' : gate_step s s' → inv s → inv s'.
Proof.
  destruct 1 as [i id s Hi|i id s Hi|i id k slot s Hi Hk Ht|i id k s Hi|i id k s Hi|i id k s Hi]; intros Hinv.
  - eapply outside_inv; [done|exact Hi|done|]. intros k. by intros [[=]|[[=]|[=]]].
  - by apply reference_inv.
  - apply (within_slot_inv i id (Holding k) (Waiting k) k (Some false)); try done.
    + intros x. unfold refers. cbn. naive_solver.
    + intros x. unfold refers. cbn. naive_solver.
    + intros _ j c Hj Hh. pose proof (gi_token _ Hinv _ _ _ _ Hk Hj Hh). congruence.
  - apply (within_slot_inv i id (Dropping k) (Waiting k) k None); try done;
      intros x; unfold refers; cbn; naive_solver.
  - apply (within_slot_inv i id (Dropping k) (Holding k) k (Some true)); try done;
      intros x; unfold refers; cbn; naive_solver.
  - by apply drop_inv.
Qed.
Lemma gate_steps_inv s s' : rtc gate_step s s' → inv s → inv s'.
Proof. induction 1 as [|x y z Hxy _ IH]; [done|]. intros Hx. by apply IH, (gate_step_inv x). Qed.

Definition owns (s : state) (i : nat) (id : DeliveryID) : Prop :=
  ∃ k, gt_callers s !! i = Some (MkCaller id (Holding k)).
Definition awaits (s : state) (i : nat) (id : DeliveryID) : Prop :=
  ∃ k, gt_callers s !! i = Some (MkCaller id (Waiting k)).

(** C9: One attempt per delivery at a time, across coordinators. In every
    interleaving of calls that acquire, are cancelled and release, at most one
    call owns a delivery, although the slot of a delivery is deleted and made
    anew; no call is stranded: one that waits can take the token now, or another
    call owns that same delivery and gives the token back; and the map holds no
    slot that nobody references, so it does not grow with the deliveries seen. *)
Theorem delivery_gate_exclusive s :
  rtc gate_step init s →
  (∀ id i j, owns s i id → owns s j id → i = j) ∧
  (∀ id i, awaits s i id → (∃ s', gate_step s s' ∧ owns s' i id) ∨ (∃ j, owns s j id)) ∧
  (∀ i id k, gt_callers s !! i = Some (MkCaller id (Dropping k)) → users s k = {[i]} →
     gt_deliveries (releaseDeliveryReference id k s) !! id = None).
Proof.
  intros Hr. pose proof (gate_steps_inv _ _ Hr gate_init_inv) as [Hslot Hrefs Hknown Hown Htok Hone Hfree].
  split; [|split].
  - intros id i j [k1 Hi] [k2 Hj].
    pose proof (Hslot i _ k1 Hi ltac:(by right; left)) as H1.
    pose proof (Hslot j _ k2 Hj ltac:(by right; left)) as H2. cbn in *.
    assert (k1 = k2) as -> by congruence. by eapply (Hone k2).
  - intros id i [k Hi]. pose proof (Hslot i _ k Hi ltac:(by left)) as Hd. cbn in Hd.
    destruct (Hknown _ _ Hd) as [slot Hk]. destruct (ds_token slot) eqn:Ht.
    + left. eexists. split; [by eapply gs_take|]. exists k. cbn. apply lookup_insert_eq.
    + right. destruct (Hfree _ _ Hk Ht) as (j & [id' q] & Hj & Hh). unfold holds in Hh. cbn in Hh. subst q.
      exists j, k. pose proof (Hslot j _ k Hj ltac:(by right; left)) as Hd'. cbn in Hd'.
      by rewrite (Hown id id' k) by done.
  - intros i id k Hi Hu. pose proof (Hslot i _ k Hi ltac:(by right; right)) as Hd. cbn in Hd.
    destruct (Hknown _ _ Hd) as [slot Hk]. pose proof (Hrefs _ _ Hk) as Hn. rewrite Hu, size_singleton in Hn.
    unfold releaseDeliveryReference. cbn. rewrite lookup_alter_eq, Hk. cbn.
    rewrite !bool_decide_eq_true_2; [apply lookup_delete_eq|done|f_equal; lia].
Qed.

(** Two calls for one delivery: the second waits until the first gives back. *)
Definition two_calls : state :=
  set_caller 2 "dlv" (Waiting 0)
    (MkState {["dlv" := 0%nat]} {[0%nat := MkSlot false 2]}
       {[1%nat := MkCaller "dlv" (Holding 0); 2%nat := MkCaller "dlv" Idle]}).

Lemma two_calls_reachable : rtc gate_step init two_calls.
Proof.
  eapply rtc_l; [apply (gs_call 1 "dlv"); reflexivity|].
  eapply rtc_l; [apply (gs_reference 1 "dlv"); reflexivity|].
  eapply rtc_l; [eapply (gs_take 1 "dlv" 0); [reflexivity|reflexivity|reflexivity]|].
  eapply rtc_l; [apply (gs_call 2 "dlv"); reflexivity|].
  eapply rtc_l; [apply (gs_reference 2 "dlv"); reflexivity|].
  match goal with |- rtc gate_step ?a ?b => replace a with b; [constructor|] end.
  vm_compute. reflexivity.
Qed.

Lemma delivery_gate_exclusive_witness :
  (∃ j, owns two_calls j "dlv") ∧ ∀ i j, owns two_calls i "dlv" → owns two_calls j "dlv" → i = j.
Proof.
  destruct (delivery_gate_exclusive two_calls two_calls_reachable) as (Hone & _ & _).
  split; [exists 1%nat, 0%nat; reflexivity|exact (Hone "dlv")].
Defined.
End Gate.
