(* ===== verification/ExactlyOnce.v ===== *)
(** * Window memberships and receipts agree (internal/processor/coordinator.go)

    The coordinator settles a prepared attempt in memory (confirm or abort) after
    its transaction has committed or not, and the two can only be linked by what
    the store reports, which may be that the outcome is unknown. The class
    [LawfulProcessing] says what the ports promise; the theorems say that, over
    any sequence of calls of any number of coordinators that share the ledger,
    exactly one attempt of a delivery contributes when its receipt is durable and
    none when it is not. *)

From S2P Require Import Prelude GoStd Sha256 Netip Identity CoreModel Coordinator.

(** ** What the ports promise *)
Section laws.
Context {E T A : Type} `{Clock E, ProcessingStore E T, AttemptRunner E T A}.

(** What the promises are about: the receipts that are durable, the attempts
    prepared for a delivery, how each was resolved (confirmed: true), the attempt
    whose resolution is deferred in the ledger, the receipts a transaction
    has written, and the internal invariant of the implementation. *)
Record observers := MkObservers {
  durable : E → DeliveryID → option ProcessingReceipt;
  attempts : E → DeliveryID → list A;
  resolution : E → A → option bool;
  deferred : E → DeliveryID → option A;
  staged : E → T → list ProcessingReceipt;
  sane : E → Prop
}.

Section relations.
Context (O : observers) (e e' : E).

Record same_attempts : Prop := {
  sa_attempts d : attempts O e' d = attempts O e d;
  sa_resolution a d : a ∈ attempts O e d → resolution O e' a = resolution O e a;
  sa_deferred d : deferred O e' d = deferred O e d;
  sa_sane : sane O e'
}.
Record quiet : Prop := {
  qu_durable d : durable O e' d = durable O e d;
  qu_attempts : same_attempts
}.
(** The attempt [a] has been resolved; its deferral is over. *)
Record settled (b : bool) (a : A) : Prop := {
  se_durable d : durable O e' d = durable O e d;
  se_attempts d : attempts O e' d = attempts O e d;
  se_this : resolution O e' a = Some b;
  se_others x d : x ∈ attempts O e d → x ≠ a → resolution O e' x = resolution O e x;
  se_cleared d : deferred O e d = Some a → deferred O e' d = None;
  se_kept d : deferred O e d ≠ Some a → deferred O e' d = deferred O e d;
  se_sane : sane O e'
}.
Record deferral (d : DeliveryID) (a : A) : Prop := {
  df_durable x : durable O e' x = durable O e x;
  df_attempts x : attempts O e' x = attempts O e x;
  df_resolution x y : x ∈ attempts O e y → resolution O e' x = resolution O e x;
  df_this : deferred O e' d = Some a;
  df_others x : x ≠ d → deferred O e' x = deferred O e x;
  df_sane : sane O e'
}.
(** A fresh attempt [a] for the delivery [d]. *)
Record prepared_for (d : DeliveryID) (a : A) : Prop := {
  pf_durable x : durable O e' x = durable O e x;
  pf_attempts : attempts O e' d = a :: attempts O e d;
  pf_others x : x ≠ d → attempts O e' x = attempts O e x;
  pf_fresh x : a ∉ attempts O e x;
  pf_open : resolution O e' a = None;
  pf_resolution x y : x ∈ attempts O e y → resolution O e' x = resolution O e x;
  pf_deferred x : deferred O e' x = deferred O e x;
  pf_sane : sane O e'
}.
(** What a commit of a transaction that wrote [r] may leave behind. *)
Record committed_as (r : ProcessingReceipt) (state : commitState) : Prop := {
  ca_attempts : same_attempts;
  ca_others d : d ≠ pr_DeliveryID r → durable O e' d = durable O e d;
  ca_this : match state with
            | commitConfirmed => durable O e' (pr_DeliveryID r) = Some r
            | commitRejected => durable O e' (pr_DeliveryID r) = durable O e (pr_DeliveryID r)
            | commitUnknown => durable O e' (pr_DeliveryID r) = Some r ∨
                               durable O e' (pr_DeliveryID r) = durable O e (pr_DeliveryID r)
            | commitStateOther _ => False
            end
}.
End relations.

(** [m] changes nothing that is observed, of [tx] neither. *)
Definition tx_quiet (O : observers) {X} (tx : T) (m : E → X * E) : Prop :=
  ∀ e, sane O e → quiet O e (m e).2 ∧ staged O (m e).2 tx = staged O e tx.

(** A receipt as the store keeps it: it proves what the written one proves. *)
Definition kept_as (r r' : ProcessingReceipt) : Prop :=
  pr_DeliveryID r' = pr_DeliveryID r ∧
  ∀ delivery completion, completionFromReceipt delivery r = Ok completion →
    completionFromReceipt delivery r' = Ok completion.

(** Confirm and Abort act once. *)
Definition settles (O : observers) (b : bool) (f : A → E → E) : Prop :=
  ∀ e d a, sane O e → a ∈ attempts O e d →
    (resolution O e a = None → settled O e (f a e) b a) ∧
    (resolution O e a ≠ None → quiet O e (f a e)).

Class LawfulProcessing := {
  view : observers;
  law_now tx : tx_quiet view tx env_Now;
  law_find d e r e' : sane view e → env_findReceipt d e = (r, e') →
    quiet view e e' ∧ (∀ o, r = Ok o → o = durable view e d);
  law_replay e : sane view e → quiet view e (env_notifyReceiptReplay e).2;
  law_begin e r e' : sane view e → env_beginProcessing e = (r, e') →
    quiet view e e' ∧ (∀ tx, r = Ok tx → staged view e' tx = []);
  law_write a tx : tx_quiet view tx (att_write a tx);
  law_finalize tx : tx_quiet view tx (tx_finalizeDesiredState tx);
  law_receipt tx r e : sane view e → quiet view e (tx_writeReceipt tx r e).2;
  law_staged tx r e e' : sane view e → tx_writeReceipt tx r e = (Ok tt, e') →
    ∃ r', staged view e' tx = r' :: staged view e tx ∧ kept_as r r';
  law_commit tx r e state err e' : sane view e → staged view e tx = [r] →
    tx_commit tx e = ((state, err), e') → committed_as view e e' r state;
  law_notify tx e : sane view e → quiet view e (tx_notifyCommitted tx e).2;
  law_rollback tx e : sane view e → quiet view e (tx_rollback tx e).2;
  law_prepare delivery e r e' : sane view e → run_prepare delivery e = (r, e') →
    match r with
    | Ok (Some a) => prepared_for view e e' (dl_ID delivery) a
    | _ => quiet view e e'
    end;
  law_confirm : settles view true att_confirm;
  law_abort : settles view false att_abort;
  law_defer : ∃ defer, att_deferResolution = Some defer ∧
    ∀ e d a, sane view e → a ∈ attempts view e d → deferred view e d = None →
      resolution view e a = None → deferral view e (defer a e) d a;
  law_resolve : ∃ resolve, run_resolvePending = Some resolve ∧
    ∀ e d b, sane view e →
      match deferred view e d with
      | None => quiet view e (resolve d b e)
      | Some a => a ∈ attempts view e d → resolution view e a = None →
                  settled view e (resolve d b e) b a
      end;
  law_gate gate d e : run_acquireDelivery = Some gate → sane view e →
    quiet view e (gate_acquire gate d e).2 ∧ quiet view e (gate_release gate d e)
}.
End laws.
Arguments LawfulProcessing E T A {_ _ _}.
Arguments view {E T A _ _ _ _}.

Section alignment.
Context {E T A : Type} `{LP : LawfulProcessing E T A}.
Abbreviation receipts := (durable view).
Abbreviation made := (attempts view).
Abbreviation settled_as := (resolution view).
Abbreviation waiting := (deferred view).
Implicit Types (e : E) (a x : A) (d : DeliveryID) (c : Coordinator A).

(** ** The invariant *)
Section invariant.
Context (known : DeliveryID → bool).

(** The attempts of a delivery that contribute or may still do so. *)
Definition live e d : list A := filter (λ a, settled_as e a ≠ Some false) (made e d).

(** [known d]: the receipt was there before the first call. *)
Record aligned_at e d : Prop := {
  al_open a : a ∈ made e d → settled_as e a = None → waiting e d = Some a;
  al_waiting a : waiting e d = Some a → a ∈ made e d ∧ settled_as e a = None;
  al_nodup : NoDup (made e d);
  al_none : receipts e d = None → ∀ a, a ∈ made e d → settled_as e a ≠ Some true;
  al_some : receipts e d ≠ None → length (live e d) = (if known d then 0 else 1)%nat;
  al_known : known d = true → receipts e d ≠ None
}.
Record aligned e : Prop := {
  al_sane : sane view e;
  al_at d : aligned_at e d;
  al_owner a d d' : a ∈ made e d → a ∈ made e d' → d = d'
}.
Definition pending_ok c e : Prop := ∀ d a, co_pending c !! d = Some a → a ∈ made e d.

(** ** Steps that leave a delivery alone *)
Lemma live_ext e e' d :
  made e' d = made e d →
  (∀ a, a ∈ made e d → settled_as e' a = Some false ↔ settled_as e a = Some false) →
  live e' d = live e d.
Proof.
  intros Hm Hs. unfold live. rewrite Hm. clear Hm. induction (made e d) as [|a l IH]; [done|].
  rewrite !filter_cons, IH by (intros x Hx; apply Hs; by right).
  specialize (Hs a (list_elem_of_here _ _)). repeat case_decide; [done|tauto|tauto|done].
Qed.

(** What is observed of [d] is the same. *)
Record same_at e e' d : Prop := {
  sm_receipts : receipts e' d = receipts e d;
  sm_made : made e' d = made e d;
  sm_settled a : a ∈ made e d → settled_as e' a = settled_as e a;
  sm_waiting : waiting e' d = waiting e d
}.

Lemma same_at_aligned e e' d : same_at e e' d → aligned_at e d → aligned_at e' d.
Proof.
  intros [Hr Hm Hs Hw] [Ho Hwt Hn Hnone Hsome Hk]. split; rewrite ?Hm, ?Hr, ?Hw; try done.
  - intros a Ha. rewrite Hs by done. auto.
  - intros a Ha. destruct (Hwt a Ha) as [Hin Hres]. split; [done|]. by rewrite Hs.
  - intros Hnil a Ha. rewrite Hs by done. auto.
  - intros Hsm. rewrite (live_ext e e' d); [auto|done|]. intros a Ha. by rewrite Hs.
Qed.

Lemma quiet_at e e' d : quiet view e e' → same_at e e' d.
Proof. intros [Hd [Ha Hs Hw _]]. split; [apply Hd|apply Ha|intros a; apply Hs|apply Hw]. Qed.

Lemma quiet_aligned e e' : quiet view e e' → aligned e → aligned e'.
Proof.
  intros Hq [Hsane Hat Hown]. split.
  - apply (qu_attempts _ _ _ Hq).
  - intros d. by eapply same_at_aligned; [apply quiet_at|].
  - intros a d d'. rewrite !(sa_attempts _ _ _ (qu_attempts _ _ _ Hq)). apply Hown.
Qed.

Lemma settled_elsewhere b a e e' d d' :
  settled view e e' b a → a ∈ made e d → d' ≠ d →
  (∀ x y y', x ∈ made e y → x ∈ made e y' → y = y') →
  (∀ x, waiting e d' = Some x → x ∈ made e d') → same_at e e' d'.
Proof.
  intros Hs Ha Hne Hown Hw. split.
  - apply Hs.
  - apply Hs.
  - intros x Hx. apply (se_others _ _ _ _ _ Hs x d' Hx). intros ->. by apply Hne, (Hown a).
  - apply (se_kept _ _ _ _ _ Hs). intros Ew. apply Hne, (Hown a); [|done]. by apply Hw.
Qed.

(** ** Resolving an attempt by what the receipts say *)
Lemma settled_aligned b a e e' d :
  aligned e → a ∈ made e d → settled_as e a = None → settled view e e' b a →
  (b = true ↔ receipts e d ≠ None) →
  aligned e' ∧ waiting e' d = None.
Proof.
  intros [Hsane Hat Hown] Ha Hnone Hs Hb. destruct (Hat d) as [Ho Hw Hn Hno Hso Hk].
  pose proof (Ho a Ha Hnone) as Hwait. pose proof (se_cleared _ _ _ _ _ Hs d Hwait) as Hclr.
  split; [|done]. split; [apply Hs| |].
  2:{ intros x y y'. rewrite !(se_attempts _ _ _ _ _ Hs). apply Hown. }
  intros y. destruct (decide (y = d)) as [->|Hne].
  2:{ eapply same_at_aligned; [|apply Hat]. eapply settled_elsewhere; try done.
      intros x Hx. by apply (al_waiting _ _ (Hat y)). }
  split; rewrite ?(se_attempts _ _ _ _ _ Hs), ?(se_durable _ _ _ _ _ Hs), ?Hclr; try done.
  - intros x Hx Hres. destruct (decide (settled_as e x = None)) as [Er|Er].
    + specialize (Ho x Hx Er). rewrite Hwait in Ho. injection Ho as <-.
      by rewrite (se_this _ _ _ _ _ Hs) in Hres.
    + rewrite (se_others _ _ _ _ _ Hs x d Hx) in Hres; [done|]. by intros ->.
  - intros Hnil x Hx Et. assert (b = false) as -> by (destruct b; [destruct (proj1 Hb eq_refl Hnil)|done]).
    destruct (decide (settled_as e x = None)) as [E'|E'].
    + specialize (Ho x Hx E'). rewrite Hwait in Ho. injection Ho as <-.
      by rewrite (se_this _ _ _ _ _ Hs) in Et.
    + rewrite (se_others _ _ _ _ _ Hs x d Hx) in Et; [by apply (Hno Hnil x)|]. by intros ->.
  - intros Hsome. rewrite (live_ext e e' d); [auto|apply Hs|]. intros x Hx.
    assert (b = true) as -> by (by apply Hb).
    destruct (decide (settled_as e x = None)) as [E'|E'].
    + pose proof (Ho x Hx E') as Ho'. rewrite Hwait in Ho'. injection Ho' as <-.
      by rewrite (se_this _ _ _ _ _ Hs), E'.
    + rewrite (se_others _ _ _ _ _ Hs x d Hx); [done|]. by intros ->.
Qed.

(** Resolving, once, whether it is still open or not. *)
Lemma settles_aligned b f a e d :
  settles view b f → aligned e → a ∈ made e d → (b = true ↔ receipts e d ≠ None) →
  aligned (f a e) ∧ (∀ y, receipts (f a e) y = receipts e y) ∧ (∀ y, made (f a e) y = made e y).
Proof.
  intros Hf Hal Ha Hb. destruct (Hf e d a (al_sane _ Hal) Ha) as [Hopen Hdone].
  destruct (decide (settled_as e a = None)) as [Er|Er].
  - specialize (Hopen Er). split; [by apply (settled_aligned b a e (f a e) d)|]. split; apply Hopen.
  - specialize (Hdone Er). split; [by apply (quiet_aligned e)|].
    split; [apply Hdone|apply (qu_attempts _ _ _ Hdone)].
Qed.

(** ** A fresh attempt in progress *)
Record working (o : option ProcessingReceipt) e d a : Prop := {
  wk_made : ∃ rest, made e d = a :: rest ∧ (a ∉ rest) ∧ NoDup rest ∧
              (∀ x, x ∈ rest → settled_as e x = Some false);
  wk_sane : sane view e;
  wk_open : settled_as e a = None;
  wk_waiting : waiting e d = None;
  wk_receipt : receipts e d = o;
  wk_new : known d = false;
  wk_others y : y ≠ d → aligned_at e y;
  wk_owner x y y' : x ∈ made e y → x ∈ made e y' → y = y'
}.

Lemma quiet_working o e e' d a : quiet view e e' → working o e d a → working o e' d a.
Proof.
  intros Hq [(rest & Hm & Hni & Hnd & Hrest) Hsane Ho Hw Hr Hk Hot Hown].
  pose proof Hq as [Hd [Hma Hs Hwa Hsane']].
  assert (∀ x, x ∈ a :: rest → settled_as e' x = settled_as e x) as Hs'
    by (intros x Hx; apply (Hs x d); by rewrite Hm).
  split; rewrite ?Hd, ?Hma, ?Hwa; try done.
  - exists rest. repeat split; try done. intros x Hx. rewrite Hs' by (by right). auto.
  - by rewrite Hs' by left.
  - intros y Hy. by eapply same_at_aligned; [apply quiet_at|apply Hot].
  - intros x y y'. rewrite !Hma. apply Hown.
Qed.

Lemma start_working e e' d a :
  aligned e → waiting e d = None → receipts e d = None → prepared_for view e e' d a →
  working None e' d a.
Proof.
  intros [Hsane Hat Hown] Hw Hr [Pd Pa Po Pf Pop Pr Pdf Psane]. destruct (Hat d) as [Ho _ Hn Hno _ Hk].
  split; rewrite ?Pd, ?Pdf; try done.
  - exists (made e d). repeat split; [done|apply Pf|done|]. intros x Hx.
    rewrite (Pr x d Hx). specialize (Hno Hr x Hx). specialize (Ho x Hx).
    destruct (settled_as e x) as [[]|]; [done|done|]. specialize (Ho eq_refl). congruence.
  - destruct (known d); [by destruct (Hk eq_refl)|done].
  - intros y Hy. eapply same_at_aligned; [|apply Hat]. split; [apply Pd|by apply Po| |apply Pdf].
    intros x Hx. by apply (Pr x y).
  - intros x y y' Hy Hy'. destruct (decide (y = d)) as [->|Hne], (decide (y' = d)) as [->|Hne']; try done.
    + rewrite Pa in Hy. rewrite Po in Hy' by done. apply elem_of_cons in Hy as [->|Hy];
        [by destruct (Pf y')|by apply (Hown x)].
    + rewrite Pa in Hy'. rewrite Po in Hy by done. apply elem_of_cons in Hy' as [->|Hy'];
        [by destruct (Pf y)|by apply (Hown x)].
    + rewrite Po in Hy, Hy' by done. by apply (Hown x).
Qed.

Lemma working_live_rest e d a rest :
  made e d = a :: rest → (∀ x, x ∈ rest → settled_as e x = Some false) →
  settled_as e a ≠ Some false → live e d = [a].
Proof.
  intros Hm Hrest Ha. unfold live. rewrite Hm, filter_cons, decide_True by done. f_equal.
  apply filter_none, Forall_forall. intros x Hx Hne. apply Hne. auto.
Qed.

(** Aborting before the receipt is durable, or confirming after, aligns again. *)
Lemma working_settled (b : bool) o e e' d a :
  working o e d a → settled view e e' b a → (b = true ↔ o ≠ None) → aligned e'.
Proof.
  intros [(rest & Hm & Hni & Hnd & Hrest) Hsane Ho Hw Hr Hk Hot Hown] Hs Hb.
  assert (a ∈ made e d) as Ha by (rewrite Hm; left).
  assert (∀ x, x ∈ rest → settled_as e' x = Some false) as Hrest'.
  { intros x Hx. rewrite (se_others _ _ _ _ _ Hs x d); [auto|rewrite Hm; by right|]. by intros ->. }
  split; [apply Hs| |].
  2:{ intros x y y'. rewrite !(se_attempts _ _ _ _ _ Hs). apply Hown. }
  intros y. destruct (decide (y = d)) as [->|Hne].
  2:{ eapply same_at_aligned; [|by apply Hot]. eapply settled_elsewhere; try done.
      intros x Hx. by apply (al_waiting _ _ (Hot y Hne)). }
  assert (waiting e' d = None) as Hw' by (rewrite (se_kept _ _ _ _ _ Hs); congruence).
  split; rewrite ?(se_attempts _ _ _ _ _ Hs), ?(se_durable _ _ _ _ _ Hs), ?Hw', ?Hr, ?Hm; try done.
  - intros x [->|Hx]%elem_of_cons; [by rewrite (se_this _ _ _ _ _ Hs)|by rewrite Hrest'].
  - by constructor.
  - intros Hnil x [->|Hx]%elem_of_cons; [|by rewrite Hrest'].
    rewrite (se_this _ _ _ _ _ Hs). intros [= ->]. by destruct Hb as [Hb _]; apply Hb.
  - intros Hsome. rewrite Hk.
    rewrite (working_live_rest e' d a rest); [done| |done|].
    + by rewrite (se_attempts _ _ _ _ _ Hs).
    + rewrite (se_this _ _ _ _ _ Hs). assert (b = true) as -> by (by apply Hb). done.
  - congruence.
Qed.

(** Deferring the resolution aligns whatever the commit did. *)
Lemma working_deferred o e e' d a :
  working o e d a → deferral view e e' d a → aligned e'.
Proof.
  intros [(rest & Hm & Hni & Hnd & Hrest) Hsane Ho Hw Hr Hk Hot Hown] [Dd Da Dr Dt Do Dsane].
  assert (∀ x, x ∈ a :: rest → settled_as e' x = settled_as e x) as Dr'
    by (intros x Hx; apply (Dr x d); by rewrite Hm).
  split; [done| |].
  2:{ intros x y y'. rewrite !Da. apply Hown. }
  intros y. destruct (decide (y = d)) as [->|Hne].
  2:{ eapply same_at_aligned; [|by apply Hot]. split; auto. intros x. apply Dr. }
  split; rewrite ?Da, ?Dd, ?Dt, ?Hr, ?Hm; try done.
  - intros x [->|Hx]%elem_of_cons; [done|]. rewrite Dr', Hrest by (try right; done). done.
  - intros x [= <-]. rewrite Dr' by left. split; [left|done].
  - by constructor.
  - intros Hnil x Hx. rewrite Dr' by done. apply elem_of_cons in Hx as [->|Hx]; [by rewrite Ho|by rewrite Hrest].
  - intros Hsome. rewrite Hk.
    rewrite (working_live_rest e' d a rest); [done|by rewrite Da| |].
    + intros x Hx. rewrite Dr' by (by right). auto.
    + rewrite Dr' by left. by rewrite Ho.
  - congruence.
Qed.

(** ** Running the coordinator *)
Record grows e e' : Prop := {
  gr_made d x : x ∈ made e d → x ∈ made e' d;
  gr_receipts d r : receipts e d = Some r → receipts e' d = Some r
}.
#[local] Instance grows_preorder : PreOrder grows.
Proof. split; [by intros e|]. intros x y z [] []. split; auto. Qed.

Lemma quiet_grows e e' : quiet view e e' → grows e e'.
Proof. intros [Hd [Ha _ _ _]]. split; intros; [by rewrite Ha|by rewrite Hd]. Qed.
Lemma settled_grows b a e e' : settled view e e' b a → grows e e'.
Proof. intros []. split; intros; congruence. Qed.
Lemma deferral_grows d a e e' : deferral view e e' d a → grows e e'.
Proof. intros []. split; intros; congruence. Qed.
Lemma prepared_grows d a e e' : prepared_for view e e' d a → grows e e'.
Proof.
  intros []. split; intros; [|congruence].
  destruct (decide (d0 = d)) as [->|]; [rewrite pf_attempts0; by right|]. by rewrite pf_others0.
Qed.
Lemma committed_grows r state e e' :
  receipts e (pr_DeliveryID r) = None → committed_as view e e' r state → grows e e'.
Proof.
  intros Hnone [[Ha _ _ _] Ho _]. split; intros; [by rewrite Ha|].
  rewrite Ho; [done|]. intros ->. congruence.
Qed.
Lemma grows_pending c e e' : grows e e' → pending_ok c e → pending_ok c e'.
Proof. intros Hg Hp d a Ha. by apply Hg, Hp. Qed.

Lemma wp_in_env {X} (m : ST E X) Q c e :
  (∀ r e', m e = (r, e') → Q r (c, e')) → wp (in_env m) Q (c, e).
Proof. intros HQ. apply wp_intro. intros r s'. unfold in_env. destruct (m e). intros [= <- <-]. auto. Qed.
Lemma wp_on_env f Q c e : Q (Ok tt) (c, f e) → wp (on_env f) Q (c, e).
Proof. done. Qed.
Lemma wp_quiet {X} (m : ST E X) Q c e :
  sane view e → (∀ e, sane view e → quiet view e (m e).2) → (∀ r e', quiet view e e' → m e = (r, e') → Q r (c, e')) →
  wp (in_env m) Q (c, e).
Proof.
  intros Hs Hm HQ. apply wp_in_env. intros r e' E'. apply HQ; [|done]. specialize (Hm e Hs). by rewrite E' in Hm.
Qed.

Lemma wp_rollback {X} tx cause c e (Q : result X → Coordinator A * E → Prop) :
  sane view e → (∀ err e', quiet view e e' → Q (Err err) (c, e')) → wp (rollbackWithCause tx cause) Q (c, e).
Proof.
  intros Hs HQ. unfold rollbackWithCause. wp_tac. apply wp_quiet; [done|apply law_rollback|].
  intros r e' Hq _. apply wp_fail. auto.
Qed.

Lemma abort_working d a e : working None e d a → aligned (att_abort a e) ∧ grows e (att_abort a e).
Proof.
  intros Hw. pose proof Hw as [(rest & Hm & _) Hsane Ho _ _ _ _ _].
  destruct (law_abort e d a Hsane) as [Hs _]; [rewrite Hm; left|]. specialize (Hs Ho).
  split; [|by eapply settled_grows]. by eapply (working_settled false None e _ d a).
Qed.
Lemma confirm_working r d a e :
  working (Some r) e d a →
  aligned (att_confirm a e) ∧ grows e (att_confirm a e) ∧ receipts (att_confirm a e) d = Some r.
Proof.
  intros Hw. pose proof Hw as [(rest & Hm & _) Hsane Ho _ Hr _ _ _].
  destruct (law_confirm e d a Hsane) as [Hs _]; [rewrite Hm; left|]. specialize (Hs Ho).
  split; [by eapply (working_settled true (Some r) e _ d a)|]. split; [by eapply settled_grows|].
  by rewrite (se_durable _ _ _ _ _ Hs).
Qed.

Lemma tx_quiet_staged {X} tx (m : ST E X) e r e' :
  tx_quiet view tx m → sane view e → m e = (r, e') → staged view e' tx = staged view e tx.
Proof. intros Hm Hs Em. specialize (Hm e Hs) as [_ Hm]. by rewrite Em in Hm. Qed.

Lemma wp_attempt_step {X} d a tx msg (m : ST E X) c e (Q : result X → Coordinator A * E → Prop) :
  (∀ e, sane view e → quiet view e (m e).2) → working None e d a →
  (∀ (v : X) e', m e = (Ok v, e') → working None e' d a → grows e e' → Q (Ok v) (c, e')) →
  (∀ err e', aligned e' → grows e e' → Q (Err err) (c, e')) →
  wp (attempt_step a tx msg m) Q (c, e).
Proof.
  intros Hm Hw Hok Herr. unfold attempt_step. wp_tac. apply wp_quiet; [apply Hw|done|].
  intros r e' Hq Em. pose proof (quiet_working _ _ _ _ _ Hq Hw) as Hw'.
  pose proof (quiet_grows _ _ Hq) as Hg. destruct r as [x|err].
  - apply wp_ret. auto.
  - destruct (abort_working d a e' Hw') as [Hal Hg'].
    wp_tac. apply wp_on_env. cbn beta iota. apply wp_rollback; [apply Hal|]. intros err' e2 Hq2. apply Herr.
    + by eapply quiet_aligned.
    + etrans; [done|]. etrans; [done|]. by apply quiet_grows.
Qed.

Lemma wp_remember o d a c e Q :
  working o e d a → co_pending c !! d = None →
  (∀ e', aligned e' → grows e e' → a ∈ made e' d →
     Q (Ok tt) (MkCoordinator (<[d := a]> (co_pending c)), e')) →
  wp (rememberPending d a) Q (c, e).
Proof.
  intros Hw Hp HQ. unfold rememberPending. destruct law_defer as (defer & -> & Hd).
  pose proof Hw as [(rest & Hm & _) Hsane Ho Hwt _ _ _ _].
  assert (a ∈ made e d) as Ha by (rewrite Hm; left).
  specialize (Hd e d a Hsane Ha Hwt Ho). wp_tac. apply wp_on_env. wp_tac. rewrite Hp. wp_tac. apply wp_on_env. apply HQ.
  - by eapply working_deferred.
  - by eapply deferral_grows.
  - by rewrite (df_attempts _ _ _ _ _ Hd).
Qed.

Lemma wp_resolve d b c e Q :
  aligned e → pending_ok c e → (b = true ↔ receipts e d ≠ None) →
  (∀ e', aligned e' → waiting e' d = None → (∀ y, receipts e' y = receipts e y) →
     (∀ y, made e' y = made e y) → Q (Ok tt) (MkCoordinator (delete d (co_pending c)), e')) →
  wp (resolvePending d b) Q (c, e).
Proof.
  intros Hal Hp Hb HQ. unfold resolvePending. destruct law_resolve as (resolve & -> & Hres).
  wp_tac. apply wp_on_env. wp_tac. apply wp_on_env.
  set (e1 := match co_pending c !! d with
             | Some p => if b then att_confirm p else att_abort p
             | None => λ w, w
             end e).
  assert (aligned e1 ∧ (∀ y, receipts e1 y = receipts e y) ∧ (∀ y, made e1 y = made e y)) as (Hal1 & R1 & M1).
  { unfold e1. destruct (co_pending c !! d) as [p|] eqn:Hpd; [|done]. apply Hp in Hpd.
    destruct b; eapply settles_aligned; try done; [apply law_confirm|apply law_abort]. }
  clearbody e1. specialize (Hres e1 d b (al_sane _ Hal1)). destruct (waiting e1 d) as [a|] eqn:Hw.
  - destruct (al_waiting _ _ (al_at _ Hal1 d) a Hw) as [Ha Hn]. specialize (Hres Ha Hn).
    destruct (settled_aligned b a e1 _ d Hal1 Ha Hn Hres) as [Hal2 Hw2]; [by rewrite R1|].
    apply HQ; try done.
    + intros y. by rewrite (se_durable _ _ _ _ _ Hres).
    + intros y. by rewrite (se_attempts _ _ _ _ _ Hres).
  - pose proof Hres as [Rq [Mq _ Wq _]]. apply HQ.
    + by eapply quiet_aligned.
    + by rewrite Wq.
    + intros y. by rewrite Rq.
    + intros y. by rewrite Mq.
Qed.

(** What a call guarantees: the invariant, that nothing is forgotten, and that a
    completion is backed by a durable receipt. *)
Record call_ok (delivery : Delivery) e (r : result (DurableCompletion * option error))
    (s : Coordinator A * E) : Prop := {
  ok_aligned : aligned s.2;
  ok_pending : pending_ok s.1 s.2;
  ok_grows : grows e s.2;
  ok_durable completion err : r = Ok (completion, err) →
    ∃ receipt, receipts s.2 (dl_ID delivery) = Some receipt ∧
               completionFromReceipt delivery receipt = Ok completion
}.

Lemma call_err delivery e err c e' :
  aligned e' → pending_ok c e → grows e e' → call_ok delivery e (Err err) (c, e').
Proof. intros. split; cbn; try done. by eapply grows_pending. Qed.

Lemma wp_notified delivery completion tx c e0 e receipt :
  aligned e → pending_ok c e → grows e0 e → receipts e (dl_ID delivery) = Some receipt →
  completionFromReceipt delivery receipt = Ok completion →
  wp (notified completion tx) (call_ok delivery e0) (c, e).
Proof.
  intros Hal Hp Hg Hr Hc. unfold notified. wp_tac. apply wp_quiet; [apply Hal|apply law_notify|].
  intros r e' Hq _. apply wp_ret. pose proof (quiet_grows _ _ Hq) as Hg'. split; cbn.
  - by eapply quiet_aligned.
  - by eapply grows_pending.
  - by etrans.
  - intros ? ? [= <- _]. exists receipt. split; [by apply Hg'|done].
Qed.

Lemma wp_abort_fail delivery a c e0 e err :
  working None e (dl_ID delivery) a → pending_ok c e → grows e0 e →
  wp (on_env (att_abort a) ;; st_fail err) (call_ok delivery e0) (c, e).
Proof.
  intros Hw Hp Hg. destruct (abort_working _ _ _ Hw) as [Hal Hg']. wp_tac. apply wp_on_env.
  apply wp_fail. split; cbn; try done; [by eapply grows_pending|by etrans].
Qed.

Lemma wp_confirm_notified delivery a tx completion c e0 e receipt :
  working (Some receipt) e (dl_ID delivery) a → pending_ok c e → grows e0 e →
  completionFromReceipt delivery receipt = Ok completion →
  wp (on_env (att_confirm a) ;; notified completion tx) (call_ok delivery e0) (c, e).
Proof.
  intros Hw Hp Hg Hc. destruct (confirm_working _ _ _ _ Hw) as (Hal & Hg' & Hr). wp_tac. apply wp_on_env.
  eapply wp_notified; try done; [by eapply grows_pending|by etrans].
Qed.

Lemma wp_remember_fail o delivery a c e0 e err :
  working o e (dl_ID delivery) a → co_pending c !! dl_ID delivery = None → pending_ok c e → grows e0 e →
  wp (rememberPending (dl_ID delivery) a ;; st_fail err) (call_ok delivery e0) (c, e).
Proof.
  intros Hw Hn Hp Hg. wp_tac. eapply wp_remember; [done..|]. intros e' Hal Hg' Ha. apply wp_fail.
  split; cbn; try done; [|by etrans]. intros d x. cbn. rewrite lookup_insert_Some.
  intros [[<- <-]|[_ Hx]]; [done|]. by apply Hg', Hp.
Qed.

Lemma wp_settle_unknown o delivery a tx err receipt c e0 e :
  working o e (dl_ID delivery) a → o = None ∨ o = Some receipt →
  co_pending c !! dl_ID delivery = None → pending_ok c e → grows e0 e →
  wp (settle_unknown delivery a tx err) (call_ok delivery e0) (c, e).
Proof.
  intros Hw Ho Hn Hp Hg. unfold settle_unknown. wp_tac. apply wp_in_env. intros r e' Hf.
  apply law_find in Hf as [Hq Hr]; [|apply Hw]. pose proof (quiet_working _ _ _ _ _ Hq Hw) as Hw'.
  pose proof (quiet_grows _ _ Hq) as Hg'.
  assert (pending_ok c e') as Hp' by (by eapply grows_pending).
  assert (grows e0 e') as Hg'' by (by etrans).
  destruct r as [found|err'].
  - specialize (Hr found eq_refl). rewrite (wk_receipt _ _ _ _ Hw) in Hr. subst found.
    destruct o as [persisted|].
    + destruct (completionFromReceipt delivery persisted) eqn:Hc.
      * by eapply wp_confirm_notified.
      * by eapply wp_remember_fail.
    + by eapply wp_abort_fail.
  - by eapply wp_remember_fail.
Qed.

Lemma wp_settle o delivery a tx state err receipt kept c e0 e :
  working o e (dl_ID delivery) a → kept_as receipt kept →
  match state with
  | commitConfirmed => o = Some kept
  | commitRejected => o = None
  | commitUnknown => o = None ∨ o = Some kept
  | commitStateOther _ => False
  end →
  co_pending c !! dl_ID delivery = None → pending_ok c e → grows e0 e →
  wp (settle delivery a tx receipt state err) (call_ok delivery e0) (c, e).
Proof.
  intros Hw Hk Ho Hn Hp Hg. unfold settle. destruct state; [subst o|subst o| |done].
  - destruct (confirm_working _ _ _ _ Hw) as (Hal & Hg' & Hr). destruct err as [err|].
    + wp_tac. apply wp_on_env. wp_tac. apply wp_quiet; [apply Hal|apply law_notify|]. intros r e' Hq _.
      apply wp_fail. pose proof (quiet_grows _ _ Hq). split; cbn; try done.
      * by eapply quiet_aligned.
      * eapply grows_pending; [|done]. by etrans.
      * etrans; [done|]. by etrans.
    + destruct (completionFromReceipt delivery receipt) eqn:Hc.
      { eapply wp_confirm_notified; [done..|]. by apply Hk. }
      wp_tac. apply wp_on_env. apply wp_fail.
      split; cbn; try done; [by eapply grows_pending|by etrans].
  - by eapply wp_abort_fail.
  - by eapply wp_settle_unknown.
Qed.

Lemma working_committed r state a e e' :
  working None e (pr_DeliveryID r) a → committed_as view e e' r state →
  working (receipts e' (pr_DeliveryID r)) e' (pr_DeliveryID r) a ∧
  match state with
  | commitConfirmed => receipts e' (pr_DeliveryID r) = Some r
  | commitRejected => receipts e' (pr_DeliveryID r) = None
  | commitUnknown => receipts e' (pr_DeliveryID r) = None ∨ receipts e' (pr_DeliveryID r) = Some r
  | commitStateOther _ => False
  end.
Proof.
  intros [(rest & Hm & Hni & Hnd & Hrest) Hsane Ho Hw Hr Hk Hot Hown] [[Ca Cr Cd Cs] Co Ct].
  assert (∀ x, x ∈ a :: rest → settled_as e' x = settled_as e x) as Cr'
    by (intros x Hx; apply (Cr x (pr_DeliveryID r)); by rewrite Hm).
  split.
  - split; rewrite ?Ca, ?Cd; try done.
    + exists rest. repeat split; try done. intros x Hx. rewrite Cr' by (by right). auto.
    + by rewrite Cr' by left.
    + intros y Hy. eapply same_at_aligned; [|by apply Hot]. split; auto. intros x. apply Cr.
    + intros x y y'. rewrite !Ca. apply Hown.
  - rewrite Hr in Ct. destruct state; [done|done|tauto|done].
Qed.

Lemma wp_run_attempt delivery a tx c e0 e :
  working None e (dl_ID delivery) a → staged view e tx = [] →
  co_pending c !! dl_ID delivery = None → pending_ok c e → grows e0 e →
  wp (run_attempt delivery a tx) (call_ok delivery e0) (c, e).
Proof.
  intros Hw Hs Hn Hp Hg. unfold run_attempt.
  assert (∀ err e1 e', grows e0 e1 → pending_ok c e1 → aligned e' → grows e1 e' →
            call_ok delivery e0 (Err err) (c, e')) as Hbad.
  { intros err e1 e' H1' H2' H3' H4'. split; cbn; try done; [by eapply grows_pending|by etrans]. }
  apply wp_bind. eapply wp_attempt_step; [apply law_write|done| |by eauto].
  intros [] e1 S1 Hw1 Hg1. apply (tx_quiet_staged _ _ _ _ _ (law_write a tx) (wk_sane _ _ _ _ Hw)) in S1. apply wp_bind.
  assert (pending_ok c e1) as Hp1 by (by eapply grows_pending).
  assert (grows e0 e1) as Hg1' by (by etrans).
  eapply wp_attempt_step; [apply law_finalize|done| |by eauto].
  intros [] e2 S2 Hw2 Hg2. apply (tx_quiet_staged _ _ _ _ _ (law_finalize tx) (wk_sane _ _ _ _ Hw1)) in S2. apply wp_bind.
  assert (pending_ok c e2) as Hp2 by (by eapply grows_pending).
  assert (grows e0 e2) as Hg2' by (by etrans).
  apply wp_in_env. intros r e3 Hnow. destruct (law_now tx e2 (wk_sane _ _ _ _ Hw2)) as [Hq S3]. destruct (env_Now e2) as [t e3'].
  injection Hnow as <- ->. cbn in Hq, S3. pose proof (quiet_working _ _ _ _ _ Hq Hw2) as Hw3.
  assert (pending_ok c e3) as Hp3 by (eapply grows_pending; [by apply quiet_grows|done]).
  assert (grows e0 e3) as Hg3 by (etrans; [done|by apply quiet_grows]).
  set (receipt := new_receipt delivery (att_terminal a) t).
  apply wp_bind. eapply wp_attempt_step; [apply law_receipt|done| |by eauto].
  intros [] e4 Hst Hw4 Hg4. apply wp_bind.
  assert (pending_ok c e4) as Hp4 by (by eapply grows_pending).
  assert (grows e0 e4) as Hg4' by (by etrans).
  apply law_staged in Hst as (kept & Hst & Hkept); [|apply Hw3]. rewrite S3, S2, S1, Hs in Hst. apply wp_in_env. intros r e5 Hcm.
  destruct (tx_commit tx e4) as [[state err] e5'] eqn:Hc. injection Hcm as <- ->.
  apply (law_commit _ _ _ _ _ _ (wk_sane _ _ _ _ Hw4) Hst) in Hc. change (dl_ID delivery) with (pr_DeliveryID receipt) in *.
  rewrite <- (proj1 Hkept) in Hw4.
  pose proof (committed_grows _ _ _ _ (wk_receipt _ _ _ _ Hw4) Hc) as Hg5.
  destruct (working_committed _ _ _ _ _ Hw4 Hc) as [Hw5 Hres].
  rewrite (proj1 Hkept) in Hw5.
  eapply wp_settle; [exact Hw5|exact Hkept|rewrite <- (proj1 Hkept); exact Hres|done
                    |by eapply grows_pending|by etrans].
Qed.

Lemma wp_lead delivery c e :
  aligned e → pending_ok c e → wp (lead delivery) (call_ok delivery e) (c, e).
Proof.
  intros Hal Hp. unfold lead. wp_tac. apply wp_in_env. intros r e1 Hf.
  apply law_find in Hf as [Hq Hr]; [|apply Hal].
  assert (aligned e1) as Hal1 by (by eapply quiet_aligned).
  pose proof (quiet_grows _ _ Hq) as Hg1.
  assert (pending_ok c e1) as Hp1 by (by eapply grows_pending).
  destruct r as [found|err]; [|by apply call_err].
  specialize (Hr found eq_refl). rewrite <- (qu_durable _ _ _ Hq) in Hr. subst found. cbn [wrap].
  destruct (receipts e1 (dl_ID delivery)) as [receipt|] eqn:Hrec.
  - wp_tac. destruct (completionFromReceipt delivery receipt) as [completion|err] eqn:Hc;
      [|by apply call_err].
    apply wp_bind, wp_resolve; [done|done|by rewrite Hrec|]. intros e2 Hal2 Hw2 R2 M2. wp_tac.
    apply wp_quiet; [apply Hal2|apply law_replay|]. intros r e3 Hq3 _. apply wp_ret. split; cbn.
    + by eapply quiet_aligned.
    + intros d a. cbn. rewrite lookup_delete_Some. intros [_ Ha].
      rewrite (sa_attempts _ _ _ (qu_attempts _ _ _ Hq3)), M2. by apply Hp1.
    + etrans; [exact Hg1|]. transitivity e2; [split; intros; congruence|by apply quiet_grows].
    + intros ? ? [= <- _]. exists receipt. split; [|done]. by rewrite (qu_durable _ _ _ Hq3), R2.
  - wp_tac. apply wp_resolve; [done|done|by rewrite Hrec|]. intros e2 Hal2 Hw2 R2 M2.
    set (c' := MkCoordinator (delete (dl_ID delivery) (co_pending c))).
    assert (pending_ok c' e2) as Hp2.
    { intros d a. unfold c'. cbn. rewrite lookup_delete_Some, M2. intros [_ Ha]. by apply Hp1. }
    assert (grows e e2) as Hg2 by (etrans; [exact Hg1|split; intros; congruence]).
    assert (co_pending c' !! dl_ID delivery = None) as Hn by apply lookup_delete_eq.
    clearbody c'. unfold new_attempt. wp_tac. apply wp_in_env. intros r e3 Hprep.
    apply law_prepare in Hprep; [|apply Hal2]. destruct r as [[a|]|err]; cbn [wrap].
    + assert (working None e3 (dl_ID delivery) a) as Hw3
        by (eapply start_working; [done|done|by rewrite R2, Hrec|done]).
      pose proof (prepared_grows _ _ _ _ Hprep) as Hg3. wp_tac. apply wp_in_env. intros r e4 [Hq4 Htx]%law_begin; [|apply Hw3]. pose proof (quiet_working _ _ _ _ _ Hq4 Hw3) as Hw4.
      pose proof (quiet_grows _ _ Hq4) as Hg4.
      assert (grows e e4) by (etrans; [done|]; by etrans).
      assert (pending_ok c' e4) by (eapply (grows_pending _ e2); [by etrans|done]).
      destruct r as [tx|err]; [apply wp_run_attempt; auto|by eapply wp_abort_fail].
    + apply wp_fail. pose proof (quiet_grows _ _ Hprep). split; cbn; try done.
      * by eapply quiet_aligned.
      * by eapply grows_pending.
      * by etrans.
    + pose proof (quiet_grows _ _ Hprep). split; cbn; try done.
      * by eapply quiet_aligned.
      * by eapply grows_pending.
      * by etrans.
Qed.

Lemma call_ok_grows delivery e0 e1 r s : grows e0 e1 → call_ok delivery e1 r s → call_ok delivery e0 r s.
Proof. intros Hg []. split; try done. by etrans. Qed.

Lemma wp_processLeader delivery c e :
  aligned e → pending_ok c e → wp (processLeader delivery) (call_ok delivery e) (c, e).
Proof.
  intros Hal Hp. unfold processLeader. destruct run_acquireDelivery as [gate|] eqn:Hgate;
    [|by apply wp_lead].
  wp_tac. apply wp_quiet; [apply Hal|intros e1; by apply law_gate|]. intros r e1 Hq _.
  assert (aligned e1) as Hal1 by (by eapply quiet_aligned).
  pose proof (quiet_grows _ _ Hq) as Hg1.
  assert (pending_ok c e1) as Hp1 by (by eapply grows_pending).
  destruct r as [[]|err]; cbn [wrap]; [|by apply call_err].
  wp_tac. eapply wp_mono; [by apply wp_lead|]. intros r [c2 e2] Hok.
  apply (call_ok_grows _ e) in Hok; [|done]. destruct Hok as [Ha Hpe Hgr Hd]. cbn in *. wp_tac.
  apply wp_on_env. wp_tac. destruct (law_gate gate (dl_ID delivery) e2 Hgate (al_sane _ Ha)) as [_ Hq2].
  split; cbn.
  - by eapply quiet_aligned.
  - eapply grows_pending; [by apply quiet_grows|done].
  - etrans; [done|by apply quiet_grows].
  - intros completion err Hr. destruct (Hd _ _ Hr) as (receipt & Hrec & Hc). exists receipt.
    by rewrite (qu_durable _ _ _ Hq2).
Qed.

Lemma wp_Process delivery c e :
  aligned e → pending_ok c e → wp (Process delivery) (call_ok delivery e) (c, e).
Proof.
  intros Hal Hp. unfold Process. wp_tac. destruct (Delivery_Validate delivery); cbn [wrap].
  - by apply wp_processLeader.
  - by apply call_err.
Qed.
End invariant.
End alignment.

(** ** Histories of calls *)
Section histories.
Context {E T A : Type} `{LP : LawfulProcessing E T A}.

(** Calls of several coordinators that share the runner and its ledger; one that
    has not called yet is a new one. *)
Fixpoint run_calls (calls : list (nat * Delivery)) (cs : gmap nat (Coordinator A)) (e : E)
    : gmap nat (Coordinator A) * E :=
  match calls with
  | [] => (cs, e)
  | (i, delivery) :: rest =>
    let '(_, (c, e)) := Process delivery (default NewCoordinator (cs !! i), e) in
    run_calls rest (<[i := c]> cs) e
  end.

(** No attempt has been made yet: the state in which the process starts. *)
Definition at_start (e : E) : Prop :=
  sane view e ∧ ∀ d, attempts view e d = [] ∧ deferred view e d = None.
Definition had_receipt (e : E) (d : DeliveryID) : bool := bool_decide (is_Some (durable view e d)).

Lemma start_aligned e : at_start e → aligned (had_receipt e) e.
Proof.
  intros [Hsane Hs]. split; [done| |].
  - intros d. destruct (Hs d) as [Ha Hd]. split; rewrite ?Ha, ?Hd.
    + by intros a ?%elem_of_nil.
    + done.
    + constructor.
    + by intros _ a ?%elem_of_nil.
    + intros Hr. unfold live, had_receipt. rewrite Ha. cbn.
      by rewrite bool_decide_eq_true_2 by (by apply not_eq_None_Some).
    + intros Hk. apply bool_decide_eq_true in Hk. by apply not_eq_None_Some.
  - intros a d d'. destruct (Hs d) as [-> _]. by intros ?%elem_of_nil.
Qed.

Definition all_pending_ok (cs : gmap nat (Coordinator A)) (e : E) : Prop :=
  ∀ i c, cs !! i = Some c → pending_ok c e.

Lemma run_calls_aligned known calls cs e :
  aligned known e → all_pending_ok cs e →
  aligned known (run_calls calls cs e).2 ∧ all_pending_ok (run_calls calls cs e).1 (run_calls calls cs e).2 ∧
  grows e (run_calls calls cs e).2.
Proof.
  revert cs e. induction calls as [|[i delivery] rest IH]; intros cs e Hal Hp; [done|]. cbn [run_calls].
  assert (pending_ok (default NewCoordinator (cs !! i)) e) as Hc.
  { destruct (cs !! i) eqn:Hi; cbn; [by eapply Hp|]. intros d a. cbn. by rewrite lookup_empty. }
  pose proof (wp_Process known delivery _ e Hal Hc) as Hw.
  destruct (Process delivery _) as [r [c e1]] eqn:Hr. eapply wp_run in Hw; [|exact Hr].
  destruct Hw as [Hal1 Hp1 Hg1 _]. cbn in *.
  destruct (IH (<[i := c]> cs) e1 Hal1) as (Hal2 & Hp2 & Hg2).
  - intros j c'. rewrite lookup_insert_Some. intros [[_ <-]|[_ Hj]]; [done|].
    eapply grows_pending; [done|by eapply Hp].
  - split; [done|]. split; [done|]. destruct Hg1, Hg2. split; auto.
Qed.
End histories.

Section theorems.
Context {E T A : Type} `{LP : LawfulProcessing E T A}.

Lemma run_calls_exactly_once (calls : list (nat * Delivery)) (e0 : E) :
  at_start e0 →
  let e := (run_calls calls ∅ e0).2 in
  ∀ d,
    (∀ a, a ∈ attempts view e d → resolution view e a = None → deferred view e d = Some a) ∧
    match durable view e d, durable view e0 d with
    | None, _ => ∀ a, a ∈ attempts view e d → resolution view e a ≠ Some true
    | Some _, None => ∃ a, live e d = [a]
    | Some r, Some r0 => live e d = [] ∧ r = r0
    end.
Proof.
  intros Hs. cbn zeta. pose proof (start_aligned e0 Hs) as Hal.
  destruct (run_calls_aligned (had_receipt e0) calls ∅ e0 Hal) as (Hal' & _ & Hg).
  { intros i c. by rewrite lookup_empty. }
  destruct (run_calls calls ∅ e0) as [cs e]. cbn [snd] in *. intros d.
  destruct (al_at _ _ Hal' d) as [Ho _ _ Hno Hso _]. split; [exact Ho|].
  unfold had_receipt in Hso. destruct (durable view e d) as [r|] eqn:Hr; [|auto].
  specialize (Hso ltac:(done)). destruct (durable view e0 d) as [r0|] eqn:Hr0.
  - split; [|apply (gr_receipts _ _ Hg) in Hr0; congruence].
    rewrite bool_decide_eq_true_2 in Hso by eauto. by apply nil_length_inv.
  - rewrite bool_decide_eq_false_2 in Hso by (by intros []).
    destruct (live e d) as [|a [|]]; [done|by exists a|done].
Qed.

(** C4: Exactly once. Whatever calls the coordinators that share a ledger make,
    in whatever order, and whatever the store answers, including commits of
    unknown outcome and failing reads, at every moment: a delivery without a
    durable receipt has no attempt whose window memberships count, only aborted
    ones and at most one deferred in the ledger; a delivery whose receipt was
    written since the start has exactly one attempt that was not aborted, which
    is confirmed or deferred; one whose receipt was there before has none; and a
    receipt once durable stays as it is. *)
Theorem exactly_once (calls : list (nat * Delivery)) (e0 : E) :
  at_start e0 →
  let e := (run_calls calls ∅ e0).2 in
  ∀ d,
    (∀ a, a ∈ attempts view e d → resolution view e a = None → deferred view e d = Some a) ∧
    match durable view e d, durable view e0 d with
    | None, _ => ∀ a, a ∈ attempts view e d → resolution view e a ≠ Some true
    | Some _, None => ∃ a, live e d = [a]
    | Some r, Some r0 => live e d = [] ∧ r = r0
    end.
Proof. apply run_calls_exactly_once. Qed.

(** C6: A completion is durable. When Process returns a completion after any
    history of calls, even together with the error of a wake that failed, a
    receipt is durable for that delivery, it is valid and binds the delivery's
    source and position, the completion is the delivery's, and every later call
    leaves that receipt as it is. *)
Theorem completion_is_durable (calls later : list (nat * Delivery)) i delivery (e0 : E) :
  at_start e0 →
  let '(cs, e) := run_calls calls ∅ e0 in
  let '(r, (c, e1)) := Process delivery (default NewCoordinator (cs !! i), e) in
  ∀ completion err, r = Ok (completion, err) →
    ∃ receipt, durable view e1 (dl_ID delivery) = Some receipt ∧
      completionFromReceipt delivery receipt = Ok completion ∧
      durable view (run_calls later (<[i := c]> cs) e1).2 (dl_ID delivery) = Some receipt.
Proof.
  intros Hs. pose proof (start_aligned e0 Hs) as Hal.
  destruct (run_calls_aligned (had_receipt e0) calls ∅ e0 Hal) as (Hal' & Hp & _).
  { intros j c. by rewrite lookup_empty. }
  destruct (run_calls calls ∅ e0) as [cs e]. cbn [fst snd] in *.
  assert (pending_ok (default NewCoordinator (cs !! i)) e) as Hc.
  { destruct (cs !! i) eqn:Hi; cbn; [by eapply Hp|]. intros d a. cbn. by rewrite lookup_empty. }
  pose proof (wp_Process (had_receipt e0) delivery _ e Hal' Hc) as Hw.
  destruct (Process delivery _) as [r [c e1]] eqn:Hr. eapply wp_run in Hw; [|exact Hr].
  destruct Hw as [Hal1 Hp1 Hg1 Hd]. cbn in *. intros completion err Hok.
  destruct (Hd _ _ Hok) as (receipt & Hrec & Hcomp). exists receipt. split; [done|]. split; [done|].
  destruct (run_calls_aligned (had_receipt e0) later (<[i := c]> cs) e1 Hal1) as (_ & _ & Hg).
  - intros j c'. rewrite lookup_insert_Some. intros [[_ <-]|[_ Hj]]; [done|].
    eapply grows_pending; [exact Hg1|by eapply Hp].
  - by apply (gr_receipts _ _ Hg).
Qed.
End theorems.
