(* ===== verification/Pipeline.v ===== *)
(** * The processing pipeline (internal/processor/pipeline.go)

    The attempt runner of the coordinator: it runs the plan, matches every event
    against every rule, reserves the window memberships of the applicable pairs
    and evaluates the rules on the previewed windows, starting over without a
    pair whose evaluation is permanently rejected. The rule evaluator, the ledger
    and the writer of outcomes are ports over the environment; the ledger returns
    one preview per candidate, so previews are read beside their matches. Clones
    are the values themselves. *)

From S2P Require Import Prelude GoStd Sha256 Netip Identity CoreModel Ledger Projection MemoryService Json.
From S2P Require Import SecurityEvent ProcessingPlan Coordinator.

Record RuleMatch := MkRuleMatch { rm_Applicable : bool; rm_GroupKey : string; rm_DistinctKey : string }.
Record DetectionEffects := MkDetectionEffects {
  de_Alert : option Alert;
  de_AutomaticDecision : option AutomaticRequest
}.

(** store.CriticalAudit *)
Record CriticalAudit := MkCriticalAudit {
  cu_ID : string;
  cu_IdempotencyKey : string;
  cu_NodeID : NodeID;
  cu_Category : string;
  cu_Action : string;
  cu_Result : string;
  cu_Severity : string;
  cu_ActorType : string;
  cu_DeliveryID : option DeliveryID;
  cu_AlertID : option AlertID;
  cu_DecisionID : option DecisionID;
  cu_ErrorCode : string;
  cu_DetailsJSON : list Z;
  cu_CreatedAt : time
}.

(** ** Ports *)
Class RuleEvaluator (V E : Type) := {
  env_Match : RuleSnapshot → SecurityEvent V → ST E RuleMatch;
  env_Evaluate : RuleSnapshot → SecurityEvent V → Snapshot → ST E DetectionEffects
}.
Class WindowLedger (E : Type) := {
  env_PrepareBatch : DeliveryID → list Candidate → ST E (rid * list Preview);
  env_Confirm : rid → E → E;
  env_Abort : rid → E → E;
  env_DeferResolution : rid → E → E;
  env_ResolveDeferred : DeliveryID → bool → E → E;
  env_AcquireDelivery : DeliveryID → ST E unit;
  env_ReleaseDelivery : DeliveryID → E → E
}.
Class OutcomeWriter (E T : Type) := {
  tx_writeParserOutcome : T → ParserTerminalOutcome → ST E unit;
  tx_writeDetectionOutcome : T → DetectionTerminalOutcome → ST E unit;
  tx_writeDetectionContribution : T → DetectionContribution → ST E bool;
  tx_writeAlert : T → Alert → ST E unit;
  tx_recordAutomaticDecision : T → AutomaticRequest → ST E unit;
  tx_writeCriticalAudit : T → CriticalAudit → ST E unit
}.

(** ** Attempts *)
Record matchedRule (V : Type) := MkMatchedRule {
  mt_event : SecurityEvent V;
  mt_rule : RuleSnapshot;
  mt_candidate : Candidate;
  mt_order : Z
}.
Arguments MkMatchedRule {V}. Arguments mt_event {V}. Arguments mt_rule {V}.
Arguments mt_candidate {V}. Arguments mt_order {V}.
Record preparedDetection := MkPreparedDetection {
  pt_contribution : DetectionContribution;
  pt_outcome : DetectionTerminalOutcome;
  pt_effects : DetectionEffects
}.
Record detectionPermanentFailure := MkDetectionPermanent {
  dp_eventID : EventID;
  dp_rule : RuleSnapshot;
  dp_failure : PermanentFailure;
  dp_order : Z
}.
Record pipelineAttempt := MkPipelineAttempt {
  pat_parserOutcomes : list ParserTerminalOutcome;
  pat_detections : list preparedDetection;
  pat_detectionOutcomes : list DetectionTerminalOutcome;
  pat_audits : list CriticalAudit;
  pat_kind : ReceiptKind;
  pat_failure : option PermanentFailure;
  pat_reservation : rid
}.

Definition hex_lower : list Z := string_bytes "0123456789abcdef".
Definition validPipelineNodeID (value : NodeID) : bool :=
  if negb (Nat.eqb (String.length value) 32) then false
  else if negb (forallb (λ b, bool_decide (b ∈ hex_lower)) (string_bytes value)) then false
  else ValidString value.

(** ** Audits of rejected records *)
Definition poison_audit (nodeID : NodeID) (deliveryID : DeliveryID) (identity : list string)
    (details : json) (failure : PermanentFailure) : CriticalAudit :=
  let hexDigest := hex_encode (Sum256 (json_Marshal (json_strings identity))) in
  MkCriticalAudit ("audit-poison-" +:+ hexDigest) ("poison:" +:+ hexDigest) nodeID "processing"
    "record_permanent" "rejected" "warning" "source" (Some deliveryID) None None (pf_Code failure)
    (json_Marshal details) (pf_OccurredAt failure).

(** json.Marshal of strings does not fail. *)
Definition poisonAudit (nodeID : NodeID) (deliveryID : DeliveryID) (permanent : ParserPermanentFailure)
    : CriticalAudit :=
  let parser := pp_Parser permanent in
  poison_audit nodeID deliveryID
    ["poison:parser"; deliveryID; ps_ParserID parser; ps_Version parser]
    (JObject [("parser_id", JString (ps_ParserID parser)); ("parser_version", JString (ps_Version parser));
              ("action", JString (pf_Action (pp_Failure permanent)))])
    (pp_Failure permanent).
Definition detectionPoisonAudit (nodeID : NodeID) (deliveryID : DeliveryID)
    (permanent : detectionPermanentFailure) : CriticalAudit :=
  let rule := dp_rule permanent in
  poison_audit nodeID deliveryID
    ["poison:detection"; deliveryID; dp_eventID permanent; rs_RuleID rule; rs_Version rule]
    (JObject [("event_id", JString (dp_eventID permanent)); ("rule_id", JString (rs_RuleID rule));
              ("rule_version", JString (rs_Version rule));
              ("action", JString (pf_Action (dp_failure permanent)))])
    (dp_failure permanent).

Section pipeline.
Context {V E : Type}.
Context `{Cancellation E, Clock E, PlanCatalog E, ParserRunner V E, RuleEvaluator V E, WindowLedger E}.

Section attempt.
Context (nodeID : NodeID) (delivery : Delivery) (completedAt : time).

Definition contribution_key (event : SecurityEvent V) (rule : RuleSnapshot) : ContributionKey :=
  MkContributionKey (se_ID event) (rs_RuleID rule) (rs_Version rule).
Definition new_candidate (event : SecurityEvent V) (rule : RuleSnapshot) (found : RuleMatch) : Candidate :=
  MkDetectionCandidate (dl_ID delivery) (contribution_key event rule)
    (MkWindowKey (rs_RuleID rule) (rs_Version rule) (rm_GroupKey found))
    (rm_DistinctKey found) (se_ObservedAt event).
Definition rejected_pair (event : SecurityEvent V) (rule : RuleSnapshot) (order : Z) (failure : PlanFailure)
    : detectionPermanentFailure :=
  MkDetectionPermanent (se_ID event) rule
    (MkPermanentFailure EmptyString (pl_Code failure) (pl_SanitizedError failure) (pl_Action failure)
       completedAt) order.

(** ** Matching every event with every rule *)
Fixpoint match_pairs (pairs : list (SecurityEvent V * RuleSnapshot)) (order : Z)
    : ST E (list (matchedRule V) * list detectionPermanentFailure) :=
  match pairs with
  | [] => mret ([], [])
  | (event, rule) :: rest =>
    found ← st_try (env_Match rule event);
    match found with
    | Err err =>
      let failure := classifyPlanFailure err false in
      if bool_decide (pl_Class failure = PlanFailureRecordPermanent)
      then others ← match_pairs rest (order + 1);
           mret (others.1, rejected_pair event rule order failure :: others.2)
      else st_fail (plan_error failure)
    | Ok found =>
      if negb (rm_Applicable found) then match_pairs rest (order + 1)
      else others ← match_pairs rest (order + 1);
           mret (MkMatchedRule event rule (new_candidate event rule found) order :: others.1, others.2)
    end
  end.
Definition all_pairs (result : PlanRunResult V) : list (SecurityEvent V * RuleSnapshot) :=
  event ← pn_Events result; (λ rule, (event, rule)) <$> pn_Rules result.
Definition matchRules (result : PlanRunResult V)
    : ST E (list (matchedRule V) * list detectionPermanentFailure) :=
  match_pairs (all_pairs result) 0.

(** ** Evaluating the applicable pairs *)
Definition binds_alert (found : matchedRule V) (alert : Alert) : bool :=
  bool_decide (al_NodeID alert = nodeID) && bool_decide (al_EventID alert = se_ID (mt_event found))
  && bool_decide (al_RuleID alert = rs_RuleID (mt_rule found))
  && bool_decide (al_RuleVersion alert = rs_Version (mt_rule found))
  && TimeEqual (al_CreatedAt alert) completedAt.
Definition binds_decision (found : matchedRule V) (alert : Alert) (request : AutomaticRequest) : bool :=
  match ar_RuleVersion request, ar_AlertID request with
  | Some version, Some alertID =>
    bool_decide (ar_DeliveryID request = dl_ID delivery)
    && bool_decide (ar_EventID request = se_ID (mt_event found))
    && bool_decide (ar_NodeID request = nodeID)
    && bool_decide (ar_RuleID request = rs_RuleID (mt_rule found))
    && bool_decide (version = rs_Version (mt_rule found)) && bool_decide (alertID = al_ID alert)
    && bool_decide (ar_Target request = al_CanonicalTarget alert)
    && TimeEqual (ar_TriggeredAt request) (al_CreatedAt alert)
  | _, _ => false
  end.
Definition validateDetectionEffects (found : matchedRule V) (effects : DetectionEffects) : result unit :=
  match de_Alert effects with
  | Some alert =>
    wrap "validate detection alert" (Alert_Validate alert);;
    fail_if (negb (binds_alert found alert))
            (Errorf "detection alert does not bind the evaluated Event and Rule revision")
  | None => Ok tt
  end;;
  match de_AutomaticDecision effects with
  | Some request =>
    match de_Alert effects with
    | None => Err (Errorf "automatic decision request requires an alert")
    | Some alert =>
      fail_if (negb (binds_decision found alert request))
        (Errorf "automatic decision request does not bind the evaluated Alert, Event, and Rule revision")
    end
  | None => Ok tt
  end.

Definition prepared_detection (found : matchedRule V) (effects : DetectionEffects) : preparedDetection :=
  let rule := mt_rule found in
  MkPreparedDetection
    (MkDetectionContribution (dl_ID delivery) (se_ID (mt_event found)) (rs_RuleID rule) (rs_Version rule)
       completedAt)
    (MkDetectionTerminalOutcome (dl_ID delivery) (se_ID (mt_event found)) (rs_RuleID rule)
       (rs_Version rule) DetectionOutcomeSuccess EmptyString completedAt)
    effects.

Definition abort_with {A} (reservation : rid) (e : error) : ST E A :=
  st_modify (env_Abort reservation);; st_fail e.

(** The loop over the previews: the prepared detections, or the pair to exclude. *)
Fixpoint eval_previews (reservation : rid) (l : list (matchedRule V * Preview))
    : ST E (list preparedDetection + (ContributionKey * detectionPermanentFailure)) :=
  match l with
  | [] => mret (inl [])
  | (found, preview) :: rest =>
    if negb (pv_WillContribute preview)
    then abort_with reservation
           (blocked "event %q rule %q already has Window membership without a receipt")
    else
      effects ← st_try (env_Evaluate (mt_rule found) (mt_event found) (pv_Snapshot preview));
      match effects with
      | Err err =>
        let failure := classifyPlanFailure err false in
        if bool_decide (pl_Class failure = PlanFailureRecordPermanent)
        then mret (inr (cd_Key (pv_Candidate preview),
                        rejected_pair (mt_event found) (mt_rule found) (mt_order found) failure))
        else abort_with reservation (plan_error failure)
      | Ok effects =>
        match validateDetectionEffects found effects with
        | Err e => abort_with reservation (plan_error (newPlanFailure PlanFailureBlocked e))
        | Ok _ =>
          others ← eval_previews reservation rest;
          mret (match others with
                | inl prepared => inl (prepared_detection found effects :: prepared)
                | inr excluded => inr excluded
                end)
        end
      end
  end.

Definition active_matches (matches : list (matchedRule V)) (excluded : gset ContributionKey)
    : list (matchedRule V) :=
  base.filter (λ m, cd_Key (mt_candidate m) ∉ excluded) matches.
Definition prepare_error (err : error) : error :=
  if errors_Is err context_Canceled || errors_Is err context_DeadlineExceeded
  then plan_error (classifyPlanFailure err false)
  else plan_error (newPlanFailure PlanFailureBlocked err).

(** One round per excluded pair, and one that succeeds. *)
Fixpoint evaluate (fuel : nat) (matches : list (matchedRule V)) (excluded : gset ContributionKey)
    (permanent : list detectionPermanentFailure)
    : ST E (rid * list preparedDetection * list detectionPermanentFailure) :=
  match fuel with
  | O => st_fail (Errorf "evaluate rules: out of fuel")
  | S fuel =>
    let active := active_matches matches excluded in
    batch ← st_try (env_PrepareBatch (dl_ID delivery) (mt_candidate <$> active));
    match batch with
    | Err err => st_fail (prepare_error err)
    | Ok (reservation, previews) =>
      round ← eval_previews reservation (zip active previews);
      match round with
      | inl prepared => mret (reservation, prepared, permanent)
      | inr (key, failure) =>
        st_modify (env_Abort reservation);;
        evaluate fuel matches ({[key]} ∪ excluded) (permanent ++ [failure])
      end
    end
  end.
Definition evaluateRules (matches : list (matchedRule V))
    : ST E (rid * list preparedDetection * list detectionPermanentFailure) :=
  evaluate (S (length matches)) matches ∅ [].

(** ** Preparing an attempt *)
Definition permanent_outcome (failure : detectionPermanentFailure) : DetectionTerminalOutcome :=
  MkDetectionTerminalOutcome (dl_ID delivery) (dp_eventID failure) (rs_RuleID (dp_rule failure))
    (rs_Version (dp_rule failure)) DetectionOutcomeRecordPermanent (pf_Code (dp_failure failure)) completedAt.
Definition with_stage (stage : string) (f : PermanentFailure) : PermanentFailure :=
  MkPermanentFailure stage (pf_Code f) (pf_SanitizedError f) (pf_Action f) (pf_OccurredAt f).
Definition terminal_of (parser : list ParserPermanentFailure) (detection : list detectionPermanentFailure)
    : ReceiptKind * option PermanentFailure :=
  match parser, detection with
  | first :: _, _ => (ReceiptRecordPermanent, Some (with_stage "parser" (pp_Failure first)))
  | [], first :: _ => (ReceiptRecordPermanent, Some (with_stage "detection" (dp_failure first)))
  | [], [] => (ReceiptSuccess, None)
  end.
Definition by_order (left right : detectionPermanentFailure) : bool := dp_order left <? dp_order right.
Definition new_pipeline_attempt (result : PlanRunResult V) (reservation : rid)
    (detections : list preparedDetection) (permanent : list detectionPermanentFailure) : pipelineAttempt :=
  let permanent := sort_slice by_order permanent in
  let terminal := terminal_of (pn_PermanentFailures result) permanent in
  MkPipelineAttempt (pn_ParserOutcomes result) detections (permanent_outcome <$> permanent)
    ((detectionPoisonAudit nodeID (dl_ID delivery) <$> permanent)
     ++ (poisonAudit nodeID (dl_ID delivery) <$> pn_PermanentFailures result))
    terminal.1 terminal.2 reservation.

Definition prepare_with (result : PlanRunResult V) : ST E pipelineAttempt :=
  matched ← matchRules result;
  evaluated ← evaluateRules matched.1;
  let '(reservation, detections, evaluationPermanent) := evaluated in
  mret (new_pipeline_attempt result reservation detections (matched.2 ++ evaluationPermanent)).
End attempt.

(** The plan's partial result is dropped with its error. *)
Definition run_plan (nodeID : NodeID) (delivery : Delivery) (completedAt : time) (plan : ProcessingPlan)
    : ST E (PlanRunResult V) := λ w,
  let '((result, err), (_, w)) := Run nodeID delivery completedAt plan w in
  (match err with Some e => Err e | None => Ok result end, w).

Definition prepare (nodeID : NodeID) (delivery : Delivery) : ST E (option pipelineAttempt) :=
  if negb (validPipelineNodeID nodeID) then st_fail (blocked "processing pipeline node id is invalid")
  else
    completedAt ← (λ w, let '(t, w) := env_Now w in (Ok t, w));
    if IsZero completedAt then st_fail (blocked "processing clock returned zero time")
    else
      plan ← BuildProcessingPlan;
      result ← run_plan nodeID delivery completedAt plan;
      if negb (pn_Complete result)
      then st_fail (blocked "processing plan returned an incomplete result without error")
      else attempt ← prepare_with nodeID delivery completedAt result; mret (Some attempt).

(** ** Writing an attempt into the coordinator's transaction *)
Section write.
Context {T : Type} `{OutcomeWriter E T}.

Definition write_detection (tx : T) (d : preparedDetection) : ST E unit :=
  tx_writeDetectionOutcome tx (pt_outcome d);;
  inserted ← tx_writeDetectionContribution tx (pt_contribution d);
  if negb inserted
  then st_fail (Errorf "new processing attempt did not insert detection contribution")
  else
    match de_Alert (pt_effects d) with
    | Some alert => tx_writeAlert tx alert
    | None => mret tt
    end;;
    match de_AutomaticDecision (pt_effects d) with
    | Some request => tx_recordAutomaticDecision tx request
    | None => mret tt
    end.
Definition write (attempt : pipelineAttempt) (tx : T) : ST E unit :=
  st_each (tx_writeParserOutcome tx) (pat_parserOutcomes attempt);;
  st_each (write_detection tx) (pat_detections attempt);;
  st_each (tx_writeDetectionOutcome tx) (pat_detectionOutcomes attempt);;
  st_each (tx_writeCriticalAudit tx) (pat_audits attempt).

(** The pipeline of a node is an attempt runner with every optional interface. *)
Definition pipeline_runner (nodeID : NodeID) : AttemptRunner E T pipelineAttempt := {|
  run_prepare := prepare nodeID;
  att_write := write;
  att_terminal := λ a, (pat_kind a, pat_failure a);
  att_confirm := λ a, env_Confirm (pat_reservation a);
  att_abort := λ a, env_Abort (pat_reservation a);
  att_deferResolution := Some (λ a, env_DeferResolution (pat_reservation a));
  run_resolvePending := Some env_ResolveDeferred;
  run_acquireDelivery := Some (MkGate env_AcquireDelivery env_ReleaseDelivery)
|}.
End write.
End pipeline.
