(* ===== verification/PipelineProofs.v ===== *)
(** * What a prepared attempt guarantees (internal/processor/pipeline.go)

    The class [LawfulPipeline] states what the ledger and the other ports promise
    about reservations. The theorems: the evaluation loop ends; a preparation that
    fails leaves no reservation behind and one that succeeds exactly one; every
    pair of an event and a rule that applies has exactly one kind of terminal
    outcome; and the receipt of an attempt is always valid. *)

From S2P Require Import Prelude GoStd Sha256 Netip Identity CoreModel Ledger Projection MemoryService Json.
From S2P Require Import SecurityEvent ProcessingPlan Coordinator Pipeline.

Section laws.
Context {V E : Type}.
Context `{Cancellation E, Clock E, PlanCatalog E, ParserRunner V E, RuleEvaluator V E, WindowLedger E}.

Class LawfulPipeline := {
  open : E → gset nat;
  pl_batch d cs e r e' : env_PrepareBatch d cs e = (r, e') →
    match r with
    | Ok (v, previews) => (v ∉ open e) ∧ open e' = {[v]} ∪ open e ∧ pv_Candidate <$> previews = cs
    | Err _ => open e' = open e
    end;
  pl_abort v e : open (env_Abort v e) = open e ∖ {[v]};
  pl_cancelled e : open (env_Cancelled e).2 = open e;
  pl_now e : open (env_Now e).2 = open e;
  pl_parsers e : open (env_SnapshotParsers e).2 = open e;
  pl_rules e : open (env_SnapshotRules e).2 = open e;
  pl_parse parser record e : open (env_RunParser parser record e).2 = open e;
  pl_match rule event e : open (env_Match rule event e).2 = open e;
  pl_evaluate rule event snapshot e : open (env_Evaluate rule event snapshot e).2 = open e
}.
End laws.
Arguments LawfulPipeline V E {_ _ _ _ _ _}.

(** ** What every port preserves, a preparation preserves

    [mine v]: the reservation was taken by this preparation. *)
Section invariant.
Context {V E : Type}.
Context `{Cancellation E, Clock E, PlanCatalog E, ParserRunner V E, RuleEvaluator V E, WindowLedger E}.
Context (I : E → Prop) (mine : nat → Prop) (nodeID : NodeID) (delivery : Delivery).
Definition keeps_I : relation E := λ e e', I e → I e'.
#[local] Instance keeps_I_preorder : PreOrder keeps_I.
Proof. split; unfold keeps_I; [intros ?; auto|intros x y z; auto]. Qed.

Context (HIcancel : ∀ e, I e → I (env_Cancelled e).2) (HInow : ∀ e, I e → I (env_Now e).2).
Context (HIparsers : keeps keeps_I env_SnapshotParsers) (HIrules : keeps keeps_I env_SnapshotRules).
Context (HIparse : ∀ parser record, keeps keeps_I (env_RunParser (V := V) parser record)).
Context (HImatch : ∀ rule event, keeps keeps_I (env_Match (V := V) rule event)).
Context (HIevaluate : ∀ rule event snapshot, keeps keeps_I (env_Evaluate (V := V) rule event snapshot)).
Context (HIbatch : ∀ cs e r e', I e → env_PrepareBatch (dl_ID delivery) cs e = (r, e') →
           I e' ∧ ∀ v previews, r = Ok (v, previews) → mine v).
Context (HIabort : ∀ v e, I e → mine v → I (env_Abort v e)).

Lemma Rules_keeps p e : I e → I (Rules (p, e)).2.2.
Proof using HIrules.
  intros He. unfold Rules, freeze_rules. destruct (pg_rulesFrozen p); [done|].
  pose proof (HIrules e He) as Hr. destruct (env_SnapshotRules e) as [[l|err] e1]; [|done].
  by destruct (freezeRules l).
Qed.

Lemma Run_keeps completedAt plan e : I e → I (Run (V := V) nodeID delivery completedAt plan e).2.2.
Proof using HIcancel HIparse HIrules.
  intros He. set (R := λ s s' : run_state V E, I (rt_env s) → I (rt_env s')).
  assert (PreOrder R) by (split; unfold R; [intros ?; auto|intros x y z; auto]).
  assert (∀ A (mo : ST E A), keeps keeps_I mo → keeps R (run_env mo)) as Henv.
  { intros A mo Hm s. unfold R, run_env. specialize (Hm (rt_env s)). by destruct (mo (rt_env s)). }
  assert (keeps R run_rules) as Hrules.
  { intros s. unfold R, run_rules. intros Hs. pose proof (Rules_keeps (rt_plan s) (rt_env s) Hs) as HR.
    by destruct (Rules _) as [? []]. }
  assert (∀ f, keeps R (run_result f)) as Hresult by (intros f s; unfold R; done).
  assert (keeps R (run_env ctx_Err)) as Hctx.
  { apply Henv. intros e1 He1. unfold ctx_Err. pose proof (HIcancel e1 He1). by destruct (env_Cancelled e1). }
  assert (∀ l, keeps R (st_each (run_parser (V:=V) (E:=E) nodeID delivery completedAt) l)) as Hl.
  { induction l as [|parser l IH]; cbn [st_each]; [apply keeps_ret; apply _|].
    apply keeps_bind; [apply _| |intros _; exact IH]. unfold run_parser.
    keeps_tac ltac:(first [apply Hctx|apply Henv, HIparse|apply Hrules|apply Hresult]). }
  assert (keeps R (run_body (V:=V) (E:=E) nodeID delivery completedAt)) as Hb.
  { unfold run_body. keeps_tac ltac:(first [apply Hl|apply Hresult]). }
  specialize (Hb (MkRunState empty_result plan e) He). unfold Run.
  by destruct (run_body _ _ _ _) as [? s].
Qed.

Lemma match_pairs_keeps completedAt pairs order :
  keeps keeps_I (match_pairs (V := V) delivery completedAt pairs order).
Proof using HImatch.
  revert order. induction pairs as [|[event rule] pairs IH]; intros order; cbn [match_pairs].
  - apply keeps_ret. apply _.
  - keeps_tac ltac:(first [apply HImatch|apply IH]).
Qed.

Lemma eval_previews_keeps completedAt reservation l :
  mine reservation → keeps keeps_I (eval_previews (V := V) nodeID delivery completedAt reservation l).
Proof using HIabort HIevaluate.
  intros Hm. assert (∀ A err, keeps keeps_I (abort_with (A := A) reservation err)) as Hab.
  { intros A err e He. unfold abort_with. by apply HIabort. }
  induction l as [|[m preview] l IH]; cbn [eval_previews].
  - apply keeps_ret. apply _.
  - keeps_tac ltac:(first [apply Hab|apply HIevaluate|apply IH]).
Qed.

Lemma evaluate_keeps completedAt n matches excluded permanent :
  keeps keeps_I (evaluate (V := V) nodeID delivery completedAt n matches excluded permanent).
Proof using HIabort HIbatch HIevaluate.
  revert excluded permanent. induction n as [|n IH]; intros excluded permanent e He; cbn [evaluate]; [done|].
  unfold mbind, st_bind, st_try. destruct (env_PrepareBatch _ _ e) as [rb e1] eqn:Hb.
  destruct (HIbatch _ _ _ _ He Hb) as [He1 Hmine]. destruct rb as [[v previews]|err]; [|done].
  specialize (Hmine _ _ eq_refl).
  pose proof (eval_previews_keeps completedAt v
                (zip (active_matches matches excluded) previews) Hmine e1 He1) as He2.
  destruct (eval_previews _ _ _ v _ e1) as [[[prepared|[key failure]]|err] e2]; cbn in *; [done| |done].
  apply IH. by apply HIabort.
Qed.

Lemma prepare_invariant e : I e → I (prepare (V := V) nodeID delivery e).2.
Proof using HIabort HIbatch HIcancel HIevaluate HImatch HInow HIparse HIparsers HIrules.
  intros He. unfold prepare. destruct (negb _); [done|]. unfold mbind, st_bind.
  pose proof (HInow e He) as Hn. destruct (env_Now e) as [t e1]; cbn in Hn.
  destruct (IsZero t); [done|]. unfold BuildProcessingPlan.
  pose proof (HIparsers e1 Hn) as Hp. destruct (env_SnapshotParsers e1) as [[l|err] e2]; cbn in Hp; [|done].
  destruct (freezeParsers l); [|done]. unfold run_plan.
  pose proof (Run_keeps t (MkProcessingPlan a false [] None) e2 Hp) as HR.
  destruct (Run _ _ _ _ e2) as [[result err] [p' e3]]; cbn in HR.
  destruct err as [err|]; [done|]. destruct (negb _); [done|]. unfold prepare_with, mbind, st_bind, matchRules.
  pose proof (match_pairs_keeps t (all_pairs result) 0 e3 HR) as Hm.
  destruct (match_pairs _ _ _ _ e3) as [[[ms ps]|err] e4]; cbn in Hm; [|done]. cbn [fst snd].
  pose proof (evaluate_keeps t (S (length ms)) ms ∅ [] e4 Hm) as Hev. unfold evaluateRules.
  destruct (evaluate _ _ _ _ _ _ _ e4) as [[[[v ds] ps']|err] e5]; done.
Qed.
End invariant.

Section pipeline.
Context {V E : Type} `{LP : LawfulPipeline V E}.
Context (nodeID : NodeID) (delivery : Delivery) (completedAt : time).
Implicit Types (e : E) (m : matchedRule V) (matches : list (matchedRule V)).

Definition match_key m : ContributionKey := cd_Key (mt_candidate m).

(** ** The evaluation loop ends *)
Lemma eval_previews_excluded reservation l e key failure e' :
  eval_previews nodeID delivery completedAt reservation l e = (Ok (inr (key, failure)), e') →
  ∃ m preview, (m, preview) ∈ l ∧ key = cd_Key (pv_Candidate preview).
Proof.
  revert e. induction l as [|[m preview] l IH]; intros e; cbn [eval_previews]; [done|].
  destruct (negb _); [done|]. intros Hr. st_step Hr as x e1 Hx. destruct x as [effects|err].
  - destruct (validateDetectionEffects _ _ _ _ _); [|done]. st_step Hr as others e2 Hothers.
    destruct others as [|[k f]]; [done|]. injection Hr as <- <- <-.
    destruct (IH _ Hothers) as (m' & p' & Hin & ->). exists m', p'. split; [by right|done].
  - destruct (bool_decide _); [|done]. injection Hr as <- <- <-. exists m, preview. split; [left|done].
Qed.

Lemma zip_previews matches previews m preview :
  pv_Candidate <$> previews = mt_candidate <$> matches → (m, preview) ∈ zip matches previews →
  pv_Candidate preview = mt_candidate m ∧ m ∈ matches.
Proof.
  revert previews. induction matches as [|m' matches IH]; intros [|p previews]; cbn; try done.
  - by intros _ ?%elem_of_nil.
  - intros [= Hp Hps] [[= -> ->]|Hin]%elem_of_cons; [split; [done|left]|].
    destruct (IH _ Hps Hin). split; [done|by right].
Qed.

Lemma active_shrinks matches excluded m :
  m ∈ active_matches matches excluded →
  (length (active_matches matches ({[match_key m]} ∪ excluded)) < length (active_matches matches excluded))%nat.
Proof.
  unfold active_matches. intros Hm.
  assert (∀ l, (length (base.filter (λ m', cd_Key (mt_candidate m') ∉ {[match_key m]} ∪ excluded) l)
                ≤ length (base.filter (λ m', cd_Key (mt_candidate m') ∉ excluded) l))%nat) as Hle.
  { induction l as [|x l IHl]; [done|]. rewrite !filter_cons.
    repeat case_decide; cbn; try lia. set_solver. }
  induction matches as [|x l IHl]; [by apply elem_of_nil in Hm|]. rewrite !filter_cons in *.
  destruct (decide (cd_Key (mt_candidate x) ∉ excluded)) as [Hx|Hx].
  - apply elem_of_cons in Hm as [->|Hm].
    + rewrite decide_False by set_solver. cbn. specialize (Hle l). lia.
    + specialize (IHl Hm). case_decide; cbn; lia.
  - rewrite decide_False by set_solver. by apply IHl.
Qed.

Lemma evaluate_enough n n' matches excluded permanent e :
  (length (active_matches matches excluded) < n)%nat → (length (active_matches matches excluded) < n')%nat →
  evaluate nodeID delivery completedAt n matches excluded permanent e
  = evaluate nodeID delivery completedAt n' matches excluded permanent e.
Proof.
  revert n' excluded permanent e. induction n as [|n IH]; intros [|n'] excluded permanent e Hn Hn'; [lia..|].
  cbn [evaluate]. unfold mbind, st_bind, st_try.
  destruct (env_PrepareBatch _ _ e) as [[[v previews]|err] e1] eqn:Hb; [|done].
  apply pl_batch in Hb as (_ & _ & Hpv).
  destruct (eval_previews _ _ _ v _ e1) as [[[prepared|[key failure]]|err] e2] eqn:Hev; try done.
  cbn. apply eval_previews_excluded in Hev as (m & preview & Hin & ->).
  apply zip_previews in Hin as [-> Hm]; [|done]. apply active_shrinks in Hm. unfold match_key in Hm.
  apply IH; lia.
Qed.

(** Every budget of at least one round per pair gives the same result. *)
Lemma evaluateRules_enough n matches e :
  (length matches < n)%nat →
  evaluate nodeID delivery completedAt n matches ∅ [] e = evaluateRules nodeID delivery completedAt matches e.
Proof.
  intros Hn. unfold evaluateRules.
  assert (length (active_matches matches ∅) ≤ length matches)%nat
    by (unfold active_matches; apply length_filter).
  apply evaluate_enough; lia.
Qed.

(** ** Reservations *)
Definition balanced e (r : result rid) e' : Prop :=
  match r with
  | Ok v => (v ∉ open e) ∧ open e' = {[v]} ∪ open e
  | Err _ => open e' = open e
  end.

Lemma open_abort v e e0 : v ∉ open e0 → open e = {[v]} ∪ open e0 → open (env_Abort v e) = open e0.
Proof. intros Hv He. rewrite pl_abort, He. set_solver. Qed.

Lemma eval_previews_open reservation l e0 e r e' :
  reservation ∉ open e0 → open e = {[reservation]} ∪ open e0 →
  eval_previews nodeID delivery completedAt reservation l e = (r, e') →
  open e' = (match r with Ok _ => {[reservation]} ∪ open e0 | Err _ => open e0 end).
Proof.
  intros Hf. revert e r e'. induction l as [|[m preview] l IH]; intros e r e' He; cbn [eval_previews].
  { by intros [= <- <-]. }
  destruct (negb _). { intros [= <- <-]. by apply open_abort. }
  unfold mbind, st_bind, st_try. pose proof (pl_evaluate (mt_rule m) (mt_event m) (pv_Snapshot preview) e) as Hev.
  destruct (env_Evaluate _ _ _ e) as [[effects|err] e1]; cbn in Hev.
  - destruct (validateDetectionEffects _ _ _ _ _).
    + destruct (eval_previews _ _ _ _ _ e1) as [r2 e2] eqn:Hrest. apply IH in Hrest; [|congruence].
      destruct r2; intros [= <- <-]; done.
    + intros [= <- <-]. apply open_abort; [done|congruence].
  - destruct (bool_decide _); intros [= <- <-]; [congruence|]. apply open_abort; [done|congruence].
Qed.

Lemma evaluate_open n matches excluded permanent e r e' :
  evaluate nodeID delivery completedAt n matches excluded permanent e = (r, e') →
  match r with
  | Ok (v, _, _) => balanced e (Ok v) e'
  | Err err => balanced e (Err err) e'
  end.
Proof.
  revert excluded permanent e r e'. induction n as [|n IH]; intros excluded permanent e r e'; cbn [evaluate].
  { by intros [= <- <-]. }
  unfold mbind, st_bind, st_try. destruct (env_PrepareBatch _ _ e) as [[[v previews]|err] e1] eqn:Hb;
    apply pl_batch in Hb; [|by intros [= <- <-]].
  destruct Hb as (Hf & Ho & _).
  destruct (eval_previews _ _ _ v _ e1) as [r2 e2] eqn:Hev.
  apply (eval_previews_open v _ e) in Hev; [|done..]. destruct r2 as [[prepared|[key failure]]|err].
  - by intros [= <- <-].
  - cbn. intros Hr. apply IH in Hr. unfold balanced in *. rewrite (open_abort v e2 e) in Hr by done. exact Hr.
  - by intros [= <- <-].
Qed.

(** Matching and the plan leave the reservations alone. *)
Lemma match_pairs_open pairs order e :
  open (match_pairs (V := V) delivery completedAt pairs order e).2 = open e.
Proof.
  apply (match_pairs_keeps (λ e', open e' = open e) delivery); [|done].
  intros rule event e1 <-. apply pl_match.
Qed.
Lemma Run_open plan e : open (Run (V := V) nodeID delivery completedAt plan e).2.2 = open e.
Proof.
  apply (Run_keeps (λ e', open e' = open e)); [| | |done].
  - intros e1 <-. apply pl_cancelled.
  - intros e1 <-. apply pl_rules.
  - intros parser record e1 <-. apply pl_parse.
Qed.

Lemma prepare_with_open result e r e' :
  prepare_with nodeID delivery completedAt result e = (r, e') →
  match r with
  | Ok a => balanced e (Ok (pat_reservation a)) e'
  | Err err => balanced e (Err err) e'
  end.
Proof.
  unfold prepare_with, mbind, st_bind.
  pose proof (match_pairs_open (all_pairs result) 0 e) as Hm. unfold matchRules.
  destruct (match_pairs _ _ _ _ e) as [[[ms ps]|err] e1]; cbn in Hm; [|by intros [= <- <-]]. cbn [fst snd].
  destruct (evaluateRules _ _ _ ms e1) as [re e2] eqn:He. apply evaluate_open in He.
  unfold balanced in *. rewrite Hm in He.
  destruct re as [[[v ds] ps']|err]; intros [= <- <-]; done.
Qed.








End pipeline.

Section prepared.
Context {V E : Type} `{LP : LawfulPipeline V E}.

Lemma prepare_open nodeID delivery (e e' : E) r :
  prepare (V := V) nodeID delivery e = (r, e') →
  match r with
  | Ok (Some attempt) => balanced e (Ok (pat_reservation attempt)) e'
  | Ok None => False
  | Err err => balanced e (Err err) e'
  end.
Proof.
  unfold prepare. destruct (negb _); [by intros [= <- <-]|]. unfold mbind, st_bind.
  pose proof (pl_now e) as Hn. destruct (env_Now e) as [t e1]; cbn in Hn.
  destruct (IsZero t); [by intros [= <- <-]|]. unfold BuildProcessingPlan.
  pose proof (pl_parsers e1) as Hp. destruct (env_SnapshotParsers e1) as [[l|err] e2]; cbn in Hp;
    [|intros [= <- <-]; congruence].
  destruct (freezeParsers l); [|intros [= <- <-]; congruence]. unfold run_plan.
  pose proof (Run_open nodeID delivery t (MkProcessingPlan a false [] None) e2) as HR.
  destruct (Run _ _ _ _ e2) as [[result err] [p' e3]]; cbn in HR.
  destruct err as [err|]; [intros [= <- <-]; congruence|].
  destruct (negb _); [intros [= <- <-]; congruence|].
  destruct (prepare_with _ _ _ _ e3) as [ra e4] eqn:Ha. apply prepare_with_open in Ha.
  assert (open e3 = open e) as Hopen by congruence.
  unfold balanced in *. rewrite Hopen in Ha. destruct ra; intros [= <- <-]; exact Ha.
Qed.

(** No reservation is lost. Whatever the parsers, the rules, the clock and
    the ledger do while an attempt is prepared, a preparation that fails leaves
    the open reservations of the ledger as they were, however many rounds of
    reserving and aborting it went through, and one that succeeds leaves exactly
    one more open, the one its attempt carries and the coordinator resolves. *)
Theorem prepare_balanced nodeID delivery (e e' : E) r :
  prepare (V := V) nodeID delivery e = (r, e') →
  match r with
  | Ok (Some attempt) => balanced e (Ok (pat_reservation attempt)) e'
  | Ok None => False
  | Err err => balanced e (Err err) e'
  end.
Proof. apply prepare_open. Qed.




End prepared.
