(* ===== verification/ProcessingRuntime.v ===== *)
(** * The coordinator over the pipeline and the ledger
    (internal/processor, internal/detection/window.go)

    The processing of deliveries assembled: the coordinator of file Coordinator
    runs the pipeline of file Pipeline over the window ledger of file Ledger. The
    catalog, the parsers, the rules, the clock and the context are any functions
    of a world [W]; the store is any state [S] that keeps the laws of
    [LawfulStore], which file SqliteRuntime discharges. The instances discharge
    [LawfulPipeline] and [LawfulProcessing], so that the theorems of files
    PipelineProofs and ExactlyOnce hold of the assembly. *)

From S2P Require Import Prelude GoStd Sha256 Netip Identity CoreModel Ledger Projection MemoryService Json.
From S2P Require Import SecurityEvent ProcessingPlan Coordinator Pipeline PipelineProofs ExactlyOnce.

(** ** PrepareBatch without interference

    The guards are taken in the canonical order; a guard that is not free is
    waited for until the context ends. *)
Fixpoint take_windows (r : rid) (todo : list WindowKey) (s : system) : bool * system :=
  match todo with
  | [] => (true, s)
  | k :: rest =>
    let s1 := MkSystem (window k (sy_ledger s)) (sy_res s) in
    match lg_windows (sy_ledger s1) !! k, sy_res s1 !! r with
    | Some slot, Some v =>
      if ws_guard slot
      then take_windows r rest
             (MkSystem (take_guard k (sy_ledger s1)) (<[r := take_next v k rest]> (sy_res s1)))
      else (false, s1)
    | _, _ => (false, s1)
    end
  end.

Definition PrepareBatch (r : rid) (d : DeliveryID) (cs : list Candidate) (ended : option error)
    (s : system) : result (rid * list Preview) * system :=
  match begin_batch d cs with
  | Err e => (Err e, s)
  | Ok v =>
    let '(taken, s1) := take_windows r (uniqueSortedWindowKeys cs)
                          (MkSystem (sy_ledger s) (<[r := v]> (sy_res s))) in
    match sy_res s1 !! r with
    | None => (Err context_Canceled, s1)
    | Some v =>
      match taken, ended with
      | true, None =>
        let '(previews, s2) := finish_prepare r v s1 in
        (match previews with Ok l => Ok (r, l) | Err e => Err e end, s2)
      | _, _ => (Err (default context_DeadlineExceeded ended), cancel r v s1)
      end
    end
  end.

Lemma take_windows_lookup r todo s v :
  sy_res s !! r = Some v → rv_phase v = Acquiring todo →
  ∃ v', sy_res (take_windows r todo s).2 !! r = Some v' ∧ rv_deliveryID v' = rv_deliveryID v ∧
    rv_batch v' = rv_batch v ∧
    (∃ left, rv_phase v' = Acquiring left ∧ ((take_windows r todo s).1 = true → left = [])).
Proof.
  revert s v. induction todo as [|k rest IH]; intros s v Hv Hp; cbn [take_windows].
  { exists v. split; [done|]. split; [done|]. split; [done|]. by exists []. }
  cbn [sy_res sy_ledger]. rewrite Hv.
  assert (∃ v', sy_res s !! r = Some v' ∧ rv_deliveryID v' = rv_deliveryID v ∧ rv_batch v' = rv_batch v ∧
    (∃ left, rv_phase v' = Acquiring left ∧ (false = true → left = []))) as Hstay.
  { exists v. split; [done|]. split; [done|]. split; [done|]. by exists (k :: rest). }
  destruct (lg_windows (window k (sy_ledger s)) !! k) as [slot|]; [|exact Hstay].
  destruct (ws_guard slot); [|exact Hstay].
  destruct (IH (MkSystem (take_guard k (window k (sy_ledger s))) (<[r := take_next v k rest]> (sy_res s)))
              (take_next v k rest)) as (v' & Hv' & Hd & Hb & Hl); [apply lookup_insert_eq|done|].
  by exists v'.
Qed.

(** What it returns is a run of the shared system, so the ledger's invariants hold
    of it. *)
Lemma take_windows_steps r todo s v :
  sy_res s !! r = Some v → rv_phase v = Acquiring todo → rtc ledger_step s (take_windows r todo s).2.
Proof.
  revert s v. induction todo as [|k rest IH]; intros s v Hv Hp; cbn [take_windows]; [constructor|].
  cbn [sy_res sy_ledger]. rewrite Hv. set (s1 := MkSystem (window k (sy_ledger s)) (sy_res s)).
  assert (ledger_step s s1) as Hw by apply ls_window.
  destruct (lg_windows (window k (sy_ledger s)) !! k) as [slot|] eqn:Hk; [|by apply rtc_once].
  destruct (ws_guard slot) eqn:Hg; [|by apply rtc_once].
  eapply rtc_l; [exact Hw|]. eapply rtc_l; [by eapply (ls_take r v k rest slot s1)|].
  eapply IH; [apply lookup_insert_eq|done].
Qed.

Lemma PrepareBatch_steps r d cs ended s :
  sy_res s !! r = None → rtc ledger_step s (PrepareBatch r d cs ended s).2.
Proof.
  intros Hr. unfold PrepareBatch. destruct (begin_batch d cs) as [v|e] eqn:Hb; [|constructor].
  set (s0 := MkSystem (sy_ledger s) (<[r := v]> (sy_res s))).
  assert (ledger_step s s0) as Hs0 by (by eapply ls_begin).
  assert (rv_phase v = Acquiring (uniqueSortedWindowKeys cs)) as Hp.
  { unfold begin_batch in Hb. inv_ok. done. }
  assert (sy_res s0 !! r = Some v) as Hv by apply lookup_insert_eq.
  pose proof (take_windows_steps r _ s0 v Hv Hp) as Hsteps.
  destruct (take_windows_lookup r _ s0 v Hv Hp) as (v' & Hv' & _ & _ & left & Hp' & Hleft).
  destruct (take_windows r _ s0) as [taken s1]. cbn [fst snd] in *. rewrite Hv'.
  assert (rtc ledger_step s s1) as Hs1 by (by eapply rtc_l).
  assert (rtc ledger_step s (cancel r v' s1)) as Hcancel.
  { eapply rtc_r; [exact Hs1|]. by eapply ls_cancel. }
  destruct taken; [|exact Hcancel]. destruct ended; [exact Hcancel|].
  rewrite (Hleft eq_refl) in Hp'. pose proof (ls_prepare r v' s1 Hv' Hp') as Hfin.
  destruct (finish_prepare r v' s1) as [previews s2]. eapply rtc_r; [exact Hs1|exact Hfin].
Qed.

(** ** What the ledger keeps of other reservations *)
Lemma confirm_body_pending r v l :
  lg_pending (confirm_body r v l) = lg_pending (drop_pending r (rv_deliveryID v) l).
Proof.
  unfold confirm_body. destruct (releaseSlots_fields (rv_locked v)
    (drop_pending r (rv_deliveryID v) (foldl (λ l c, confirm_one c l) l (rv_candidates v)))) as (_ & _ & ->).
  assert (∀ cs l', lg_pending (foldl (λ l c, confirm_one c l) l' cs) = lg_pending l') as Hp
    by (induction cs as [|c cs IH]; intros l'; cbn; [done|by rewrite IH]).
  unfold drop_pending. rewrite Hp. by case_bool_decide; cbn; rewrite ?Hp.
Qed.
Lemma abort_body_pending r v l :
  lg_pending (abort_body r v l) = lg_pending (drop_pending r (rv_deliveryID v) l).
Proof.
  unfold abort_body. destruct (releaseSlots_fields (rv_locked v)
    (drop_pending r (rv_deliveryID v) (foldl (λ l c, abort_one r c l) l (rv_candidates v)))) as (_ & _ & ->).
  destruct (abort_all_fields r (rv_candidates v) l) as (_ & _ & Hp). unfold abort_all in Hp.
  unfold drop_pending. rewrite Hp. by case_bool_decide; cbn; rewrite ?Hp.
Qed.

Lemma project_previews r l cs p :
  pv_Candidate <$> ps_previews (foldl (λ p c, project_one r l c p) p cs)
  = (pv_Candidate <$> ps_previews p) ++ cs.
Proof.
  revert p. induction cs as [|c cs IH]; intros p; cbn [foldl]; [by rewrite app_nil_r|].
  rewrite IH. unfold project_one. cbn [ps_previews]. rewrite fmap_app, <- app_assoc. done.
Qed.

Lemma take_windows_frame r todo s :
  lg_pending (sy_ledger (take_windows r todo s).2) = lg_pending (sy_ledger s) ∧
  (∀ x, x ≠ r → sy_res (take_windows r todo s).2 !! x = sy_res s !! x).
Proof.
  revert s. induction todo as [|k rest IH]; intros s; cbn [take_windows]; [done|]. cbn [sy_res sy_ledger].
  assert (lg_pending (window k (sy_ledger s)) = lg_pending (sy_ledger s)) as Hw
    by (unfold window; by destruct (lg_windows (sy_ledger s) !! k)).
  destruct (lg_windows (window k (sy_ledger s)) !! k) as [slot|]; [|done].
  destruct (sy_res s !! r) as [v|]; [|done]. destruct (ws_guard slot); [|done].
  destruct (IH (MkSystem (take_guard k (window k (sy_ledger s))) (<[r := take_next v k rest]> (sy_res s))))
    as [Hp Ho]. split; [by rewrite Hp|]. intros x Hx. rewrite Ho by done. cbn. by rewrite lookup_insert_ne.
Qed.

Record batch_effect (r : rid) (d : DeliveryID) (cs : list Candidate) (s s' : system)
    (res : result (rid * list Preview)) : Prop := {
  be_pending : lg_pending (sy_ledger s') = lg_pending (sy_ledger s);
  be_others x : x ≠ r → sy_res s' !! x = sy_res s !! x;
  be_this v : sy_res s' !! r = Some v → rv_deliveryID v = d;
  be_ok r' previews : res = Ok (r', previews) →
    r' = r ∧ pv_Candidate <$> previews = cs ∧ ∃ v, sy_res s' !! r = Some v ∧ rv_phase v = Prepared;
  be_err e v : res = Err e → sy_res s' !! r = Some v → rv_phase v = Finished
}.

Lemma PrepareBatch_effect r d cs ended s res s' :
  sy_res s !! r = None → PrepareBatch r d cs ended s = (res, s') → batch_effect r d cs s s' res.
Proof.
  intros Hr. unfold PrepareBatch. destruct (begin_batch d cs) as [v|e] eqn:Hb.
  2:{ intros [= <- <-]. split; try done; intros *; congruence. }
  set (s0 := MkSystem (sy_ledger s) (<[r := v]> (sy_res s))).
  assert (rv_phase v = Acquiring (uniqueSortedWindowKeys cs) ∧ rv_deliveryID v = d ∧ rv_batch v = cs)
    as (Hp & Hd & Hbt) by (unfold begin_batch in Hb; inv_ok; done).
  assert (sy_res s0 !! r = Some v) as Hv by apply lookup_insert_eq.
  destruct (take_windows_lookup r _ s0 v Hv Hp) as (v' & Hv' & Hd' & Hb' & left & Hp' & Hleft).
  destruct (take_windows_frame r (uniqueSortedWindowKeys cs) s0) as [Fp Fo].
  destruct (take_windows r _ s0) as [taken s1]. cbn [fst snd] in *. rewrite Hv'.
  assert (∀ x, x ≠ r → sy_res s1 !! x = sy_res s !! x) as Fo'.
  { intros x Hx. rewrite Fo by done. cbn. by rewrite lookup_insert_ne. }
  assert (∀ l' e, lg_pending l' = lg_pending (sy_ledger s1) →
            batch_effect r d cs s (cancel r v' (MkSystem l' (sy_res s1))) (Err e)) as Hcancel.
  { intros l' e Hl. split; cbn.
    - destruct (releaseSlots_fields (rv_locked v') l') as (_ & _ & ->). by rewrite Hl, Fp.
    - intros x Hx. rewrite lookup_insert_ne by done. auto.
    - intros y. rewrite lookup_insert_eq. intros [= <-]. cbn. congruence.
    - done.
    - intros _ y _. rewrite lookup_insert_eq. by intros [= <-]. }
  assert (∀ e, batch_effect r d cs s (cancel r v' s1) (Err e)) as Hcancel'.
  { intros e. specialize (Hcancel (sy_ledger s1) e eq_refl). by destruct s1. }
  assert (rv_deliveryID v' = d ∧ rv_batch v' = cs) as [Hd2 Hb2] by (split; congruence).
  destruct taken; [|intros [= <- <-]; apply Hcancel'].
  destruct ended; [intros [= <- <-]; apply Hcancel'|].
  unfold finish_prepare, prepareLocked. rewrite Hb2.
  destruct (check_batch r (sy_ledger s1) ∅ cs); intros [= <- <-].
  - split; cbn.
    + by rewrite Fp.
    + intros x Hx. rewrite lookup_insert_ne by done. auto.
    + intros y. rewrite lookup_insert_eq. intros [= <-]. done.
    + intros r' previews [= <- <-]. split; [done|]. split; [by rewrite project_previews|].
      eexists. by rewrite lookup_insert_eq.
    + done.
  - by apply Hcancel.
Qed.

(** ** What the store promises

    The store acts on its state [S] and on the world. *)
Section store_laws.
Context {W S T : Type} `{ProcessingStore (W * S) T, OutcomeWriter (W * S) T}.

(** The receipts that are durable, those a transaction has written, and the
    internal invariant. *)
Record store_view := MkStoreView {
  sv_durable : S → DeliveryID → option ProcessingReceipt;
  sv_written : S → T → list ProcessingReceipt;
  sv_sane : S → Prop
}.
Section view.
Context (v : store_view).
Definition store_same : relation (W * S) := λ p p',
  sv_sane v p.2 → (∀ d, sv_durable v p'.2 d = sv_durable v p.2 d) ∧ sv_sane v p'.2.
Definition tx_same (tx : T) : relation (W * S) := λ p p',
  sv_sane v p.2 → (∀ d, sv_durable v p'.2 d = sv_durable v p.2 d) ∧ sv_sane v p'.2 ∧
                  sv_written v p'.2 tx = sv_written v p.2 tx.
#[export] Instance store_same_preorder : PreOrder store_same.
Proof. unfold store_same. split; [intros p; done|]. intros x y z Hxy Hyz Hx. destruct (Hxy Hx) as [Hd Hy],
  (Hyz Hy) as [Hd' Hz]. split; [|done]. intros d. by rewrite Hd'. Qed.
#[export] Instance tx_same_preorder tx : PreOrder (tx_same tx).
Proof.
  unfold tx_same. split; [intros p; done|]. intros x y z Hxy Hyz Hx.
  destruct (Hxy Hx) as (Hd & Hy & Hw), (Hyz Hy) as (Hd' & Hz & Hw').
  split; [|split; [done|by rewrite Hw']]. intros d. by rewrite Hd'.
Qed.
End view.

Class LawfulStore := {
  the_view : store_view;
  ls_find d w s r w' s' : sv_sane the_view s → env_findReceipt d (w, s) = (r, (w', s')) →
    store_same the_view (w, s) (w', s') ∧ (∀ o, r = Ok o → o = sv_durable the_view s d);
  ls_replay : keeps (store_same the_view) env_notifyReceiptReplay;
  ls_begin : keeps (store_same the_view) env_beginProcessing;
  ls_fresh p tx p' : sv_sane the_view p.2 → env_beginProcessing p = (Ok tx, p') → sv_written the_view p'.2 tx = [];
  ls_parser_outcome tx o : keeps (tx_same the_view tx) (tx_writeParserOutcome tx o);
  ls_detection_outcome tx o : keeps (tx_same the_view tx) (tx_writeDetectionOutcome tx o);
  ls_contribution tx c : keeps (tx_same the_view tx) (tx_writeDetectionContribution tx c);
  ls_alert tx a : keeps (tx_same the_view tx) (tx_writeAlert tx a);
  ls_automatic tx q : keeps (tx_same the_view tx) (tx_recordAutomaticDecision tx q);
  ls_audit tx a : keeps (tx_same the_view tx) (tx_writeCriticalAudit tx a);
  ls_finalize tx : keeps (tx_same the_view tx) (tx_finalizeDesiredState tx);
  ls_receipt tx r : keeps (store_same the_view) (tx_writeReceipt tx r);
  ls_written tx r p p' : sv_sane the_view p.2 → tx_writeReceipt tx r p = (Ok tt, p') →
    ∃ r', sv_written the_view p'.2 tx = r' :: sv_written the_view p.2 tx ∧ kept_as r r';
  ls_commit tx r p state err p' : sv_sane the_view p.2 → sv_written the_view p.2 tx = [r] →
    tx_commit tx p = ((state, err), p') →
    sv_sane the_view p'.2 ∧
    (∀ d, d ≠ pr_DeliveryID r → sv_durable the_view p'.2 d = sv_durable the_view p.2 d) ∧
    match state with
    | commitConfirmed => sv_durable the_view p'.2 (pr_DeliveryID r) = Some r
    | commitRejected => sv_durable the_view p'.2 (pr_DeliveryID r) = sv_durable the_view p.2 (pr_DeliveryID r)
    | commitUnknown => sv_durable the_view p'.2 (pr_DeliveryID r) = Some r ∨
                       sv_durable the_view p'.2 (pr_DeliveryID r) = sv_durable the_view p.2 (pr_DeliveryID r)
    | commitStateOther _ => False
    end;
  ls_notify tx : keeps (store_same the_view) (tx_notifyCommitted tx);
  ls_rollback tx : keeps (store_same the_view) (tx_rollback tx)
}.
End store_laws.
Arguments store_view : clear implicits.
Arguments LawfulStore W S T {_ _}.
Arguments the_view {W S T _ _ _}.

(** ** The environment *)
(** [en_attempts] and [en_confirmed] record which attempts were handed to the
    coordinator and which reservations were confirmed. *)
Record env (W S : Type) := MkEnv {
  en_world : W;
  en_store : S;
  en_sys : system;
  en_attempts : list (DeliveryID * pipelineAttempt);
  en_confirmed : gset nat
}.
Arguments MkEnv {W S}. Arguments en_world {W S}. Arguments en_store {W S}. Arguments en_sys {W S}.
Arguments en_attempts {W S}. Arguments en_confirmed {W S}.

Section runtime.
Context {V W S T : Type}.
Context `{Cancellation W, Clock W, PlanCatalog W, ParserRunner V W, RuleEvaluator V W}.
Context `{Store : ProcessingStore (W * S) T, Writer : OutcomeWriter (W * S) T, !LawfulStore W S T}.
Context (nodeID : NodeID).
Abbreviation E := (env W S).
Implicit Types (e : E) (a : pipelineAttempt) (d : DeliveryID).

Definition with_world e (w : W) : E := MkEnv w (en_store e) (en_sys e) (en_attempts e) (en_confirmed e).
Definition with_sys e (s : system) : E := MkEnv (en_world e) (en_store e) s (en_attempts e) (en_confirmed e).
Definition stored e : W * S := (en_world e, en_store e).
Definition with_stored e (p : W * S) : E := MkEnv p.1 p.2 (en_sys e) (en_attempts e) (en_confirmed e).

Definition on_world {A} (m : ST W A) : ST E A := λ e,
  let '(r, w) := m (en_world e) in (r, with_world e w).
Definition on_store {A} (m : ST (W * S) A) : ST E A := λ e,
  let '(r, p) := m (stored e) in (r, with_stored e p).

#[export] Instance env_context : Cancellation E := {|
  env_Cancelled e := let '(c, w) := env_Cancelled (en_world e) in (c, with_world e w)
|}.
#[export] Instance env_clock : Clock E := {|
  env_Now e := let '(t, w) := env_Now (en_world e) in (t, with_world e w)
|}.
#[export] Instance env_catalog : PlanCatalog E := {|
  env_SnapshotParsers := on_world env_SnapshotParsers;
  env_SnapshotRules := on_world env_SnapshotRules
|}.
#[export] Instance env_parsers : ParserRunner V E := {|
  env_RunParser := λ parser record, on_world (env_RunParser parser record)
|}.
#[export] Instance env_rules : RuleEvaluator V E := {|
  env_Match := λ rule event, on_world (env_Match rule event);
  env_Evaluate := λ rule event snapshot, on_world (env_Evaluate rule event snapshot)
|}.

Definition phase_of e (r : nat) : option phase := rv_phase <$> sy_res (en_sys e) !! r.
Definition prepared_phase (p : phase) : bool := match p with Prepared => true | _ => false end.
Definition is_prepared e (r : nat) : bool :=
  match phase_of e r with Some p => prepared_phase p | None => false end.

(** Confirm and Abort; a reservation that is not prepared is left alone. *)
Definition resolve_env (b : bool) (r : nat) e : E :=
  MkEnv (en_world e) (en_store e) (if b then Confirm r (en_sys e) else Abort_ r (en_sys e)) (en_attempts e)
    (if b && is_prepared e r then {[r]} ∪ en_confirmed e else en_confirmed e).
Definition defer_env (r : nat) e : E :=
  match sy_res (en_sys e) !! r with
  | Some v => with_sys e (MkSystem (DeferResolution r v (sy_ledger (en_sys e))) (sy_res (en_sys e)))
  | None => e
  end.
Definition prepare_env (d : DeliveryID) (cs : list Candidate) : ST E (rid * list Preview) := λ e,
  let '(c, w) := env_Cancelled (en_world e) in
  let '(res, s) := PrepareBatch (fresh (dom (sy_res (en_sys e)))) d cs c (en_sys e) in
  (res, with_world (with_sys e s) w).

(** Calls run one after the other here, so the delivery gate is free; it is
    acquired unless the context has ended. *)
#[export] Instance env_ledger : WindowLedger E := {|
  env_PrepareBatch := prepare_env;
  env_Confirm := resolve_env true;
  env_Abort := resolve_env false;
  env_DeferResolution := defer_env;
  env_ResolveDeferred := λ d b e,
    match lg_pending (sy_ledger (en_sys e)) !! d with
    | Some r => resolve_env b r e
    | None => e
    end;
  env_AcquireDelivery := λ _ e,
    let '(c, e) := env_Cancelled e in (match c with Some err => Err err | None => Ok tt end, e);
  env_ReleaseDelivery := λ _ e, e
|}.

#[export] Instance env_store : ProcessingStore E T := {|
  env_findReceipt d := on_store (env_findReceipt d);
  env_notifyReceiptReplay := on_store env_notifyReceiptReplay;
  env_beginProcessing := on_store env_beginProcessing;
  tx_finalizeDesiredState tx := on_store (tx_finalizeDesiredState tx);
  tx_writeReceipt tx r := on_store (tx_writeReceipt tx r);
  tx_commit tx e := let '(o, p) := tx_commit tx (stored e) in (o, with_stored e p);
  tx_notifyCommitted tx := on_store (tx_notifyCommitted tx);
  tx_rollback tx := on_store (tx_rollback tx)
|}.
#[export] Instance env_writer : OutcomeWriter E T := {|
  tx_writeParserOutcome tx o := on_store (tx_writeParserOutcome tx o);
  tx_writeDetectionOutcome tx o := on_store (tx_writeDetectionOutcome tx o);
  tx_writeDetectionContribution tx c := on_store (tx_writeDetectionContribution tx c);
  tx_writeAlert tx x := on_store (tx_writeAlert tx x);
  tx_recordAutomaticDecision tx q := on_store (tx_recordAutomaticDecision tx q);
  tx_writeCriticalAudit tx x := on_store (tx_writeCriticalAudit tx x)
|}.

Definition record_attempt d a e : E :=
  MkEnv (en_world e) (en_store e) (en_sys e) ((d, a) :: en_attempts e) (en_confirmed e).
Definition runtime_prepare (delivery : Delivery) : ST E (option pipelineAttempt) := λ e,
  let '(r, e) := prepare (V := V) nodeID delivery e in
  (r, match r with Ok (Some a) => record_attempt (dl_ID delivery) a e | _ => e end).
#[export] Instance env_runner : AttemptRunner E T pipelineAttempt :=
  let R := pipeline_runner (V := V) nodeID in {|
  run_prepare := runtime_prepare;
  att_write := att_write (AttemptRunner := R);
  att_terminal := att_terminal (AttemptRunner := R);
  att_confirm := att_confirm (AttemptRunner := R);
  att_abort := att_abort (AttemptRunner := R);
  att_deferResolution := att_deferResolution (AttemptRunner := R);
  run_resolvePending := run_resolvePending (AttemptRunner := R);
  run_acquireDelivery := run_acquireDelivery (AttemptRunner := R)
|}.

(** ** Open reservations *)
Definition env_open e : gset nat :=
  dom (base.filter (λ p : nat * Reservation, prepared_phase (rv_phase p.2) = true) (sy_res (en_sys e))).
Lemma elem_of_env_open e r :
  r ∈ env_open e ↔ ∃ v, sy_res (en_sys e) !! r = Some v ∧ rv_phase v = Prepared.
Proof.
  unfold env_open. rewrite elem_of_dom. split.
  - intros [v Hv]. apply map_lookup_filter_Some in Hv as [Hv Hp]. exists v. split; [done|].
    cbn in Hp. by destruct (rv_phase v).
  - intros (v & Hv & Hp). exists v. apply map_lookup_filter_Some. split; [done|]. cbn. by rewrite Hp.
Qed.

Lemma resolve_sys b r e :
  en_sys (resolve_env b r e) =
  match sy_res (en_sys e) !! r with
  | Some v => match rv_phase v with
              | Prepared => MkSystem ((if b then confirm_body r v else abort_body r v) (sy_ledger (en_sys e)))
                              (<[r := with_phase v Finished]> (sy_res (en_sys e)))
              | _ => en_sys e
              end
  | None => en_sys e
  end.
Proof. unfold resolve_env, Confirm, Abort_. by destruct b; cbn; case_match. Qed.

Lemma resolve_pending b r e v :
  sy_res (en_sys e) !! r = Some v → rv_phase v = Prepared →
  lg_pending (sy_ledger (en_sys (resolve_env b r e)))
  = lg_pending (drop_pending r (rv_deliveryID v) (sy_ledger (en_sys e))).
Proof.
  intros Hv Hp. rewrite resolve_sys, Hv, Hp. cbn [sy_ledger].
  destruct b; [apply confirm_body_pending|apply abort_body_pending].
Qed.

Lemma resolve_open b r e : env_open (resolve_env b r e) = env_open e ∖ {[r]}.
Proof.
  apply set_eq. intros x. rewrite elem_of_difference, elem_of_singleton, !elem_of_env_open, resolve_sys.
  destruct (sy_res (en_sys e) !! r) as [v|] eqn:Hv.
  - destruct (rv_phase v) eqn:Hp; cbn [sy_res].
    2:{ destruct (decide (x = r)) as [->|Hx].
        - rewrite lookup_insert_eq. split; [by intros (? & [= <-] & ?)|tauto].
        - rewrite lookup_insert_ne by done. naive_solver. }
    all: split; [|tauto]; intros (v' & Hv' & Hp'); split; [by eauto|]; intros ->; congruence.
  - split; [|tauto]. intros (v' & Hv' & ?). split; [by eauto|]. intros ->. congruence.
Qed.

Lemma prepare_env_effect d cs e r e' :
  prepare_env d cs e = (r, e') →
  let v := fresh (dom (sy_res (en_sys e))) in
  sy_res (en_sys e) !! v = None ∧
  batch_effect v d cs (en_sys e) (en_sys e') r ∧
  en_store e' = en_store e ∧ en_attempts e' = en_attempts e ∧
  en_confirmed e' = en_confirmed e.
Proof.
  unfold prepare_env. intros Hr. cbn zeta. destruct (env_Cancelled (en_world e)) as [c w].
  assert (sy_res (en_sys e) !! fresh (dom (sy_res (en_sys e))) = None) as Hf
    by (apply not_elem_of_dom, is_fresh).
  destruct (PrepareBatch _ d cs c (en_sys e)) as [res s] eqn:Hb. injection Hr as <- <-.
  apply PrepareBatch_effect in Hb; done.
Qed.

#[export] Instance env_lawful_pipeline : LawfulPipeline V E.
Proof.
  refine {| open := env_open |}.
  - intros d cs e r e' Hr. apply prepare_env_effect in Hr as (Hf & [Hpe Hot Hth Hok Herr] & _).
    set (v0 := fresh (dom (sy_res (en_sys e)))) in *.
    destruct r as [[v previews]|err].
    + destruct (Hok _ _ eq_refl) as (-> & Hpv & y0 & Hv & Hp). split.
      { rewrite elem_of_env_open. intros (y & Hy & _). congruence. }
      split; [|done]. apply set_eq. intros x. rewrite elem_of_union, elem_of_singleton, !elem_of_env_open.
      destruct (decide (x = v0)) as [->|Hx]; [|rewrite Hot by done]; naive_solver.
    + apply set_eq. intros x. rewrite !elem_of_env_open.
      destruct (decide (x = v0)) as [->|Hx]; [|by rewrite Hot by done].
      split; intros (y & Hy & Hp); [|congruence]. rewrite (Herr err y eq_refl Hy) in Hp. done.
  - intros v e. apply (resolve_open false).
  - intros e. cbn. by destruct (env_Cancelled (en_world e)).
  - intros e. cbn. by destruct (env_Now (en_world e)).
  - intros e. cbn. unfold on_world. by destruct (env_SnapshotParsers (en_world e)).
  - intros e. cbn. unfold on_world. by destruct (env_SnapshotRules (en_world e)).
  - intros parser record e. cbn. unfold on_world. by destruct (env_RunParser parser record (en_world e)).
  - intros rule event e. cbn. unfold on_world. by destruct (env_Match rule event (en_world e)).
  - intros rule event snapshot e. cbn. unfold on_world. by destruct (env_Evaluate rule event snapshot (en_world e)).
Defined.

(** ** The observers *)
Definition attempts_of e d : list pipelineAttempt :=
  snd <$> base.filter (λ p : DeliveryID * pipelineAttempt, p.1 = d) (en_attempts e).
Definition env_view : observers (E := E) (T := T) (A := pipelineAttempt) := {|
  durable e d := sv_durable the_view (en_store e) d;
  attempts := attempts_of;
  resolution e a := if is_prepared e (pat_reservation a) then None
                    else Some (bool_decide (pat_reservation a ∈ en_confirmed e));
  deferred e d := r ← lg_pending (sy_ledger (en_sys e)) !! d;
                  head (base.filter (λ a, pat_reservation a = r) (attempts_of e d));
  staged e tx := sv_written the_view (en_store e) tx;
  sane e := sv_sane the_view (en_store e) ∧
    NoDup ((λ p, pat_reservation p.2) <$> en_attempts e) ∧
    (∀ d a, (d, a) ∈ en_attempts e →
       ∃ v, sy_res (en_sys e) !! pat_reservation a = Some v ∧ rv_deliveryID v = d) ∧
    (∀ d r, lg_pending (sy_ledger (en_sys e)) !! d = Some r →
       ∃ a, (d, a) ∈ en_attempts e ∧ pat_reservation a = r) ∧
    (∀ r, r ∈ en_confirmed e → is_prepared e r = false ∧ is_Some (sy_res (en_sys e) !! r))
|}.
Abbreviation fine := (sane env_view).

Lemma env_resolution e a :
  resolution env_view e a =
  if is_prepared e (pat_reservation a) then None else Some (bool_decide (pat_reservation a ∈ en_confirmed e)).
Proof. done. Qed.
Lemma elem_of_attempts e d a : a ∈ attempts_of e d ↔ (d, a) ∈ en_attempts e.
Proof.
  unfold attempts_of. rewrite list_elem_of_fmap. split.
  - intros ([d' a'] & -> & Hin). apply list_elem_of_filter in Hin as [Hd Hin]. cbn in Hd. by subst.
  - intros Hin. exists (d, a). split; [done|]. by apply list_elem_of_filter.
Qed.
Lemma fine_inj e d a d' a' :
  fine e → (d, a) ∈ en_attempts e → (d', a') ∈ en_attempts e →
  pat_reservation a = pat_reservation a' → d = d' ∧ a = a'.
Proof.
  intros (_ & Hnd & _) Ha Ha' Heq.
  apply list_elem_of_lookup in Ha as [i Hi]. apply list_elem_of_lookup in Ha' as [j Hj].
  assert (i = j) as ->; [|rewrite Hi in Hj; by injection Hj].
  eapply (NoDup_lookup _ i j (pat_reservation a) Hnd); rewrite list_lookup_fmap.
  - by rewrite Hi.
  - rewrite Hj. cbn. by rewrite Heq.
Qed.
Lemma deferred_iff e d a :
  fine e → deferred env_view e d = Some a ↔
  (d, a) ∈ en_attempts e ∧ lg_pending (sy_ledger (en_sys e)) !! d = Some (pat_reservation a).
Proof.
  intros Hf. cbn. destruct (lg_pending (sy_ledger (en_sys e)) !! d) as [r|] eqn:Hp; cbn.
  2:{ split; [done|by intros [_ ?]]. }
  split.
  - intros Hh. apply head_Some_elem_of, list_elem_of_filter in Hh as [<- Hh].
    by rewrite elem_of_attempts in Hh.
  - intros [Ha [= ->]].
    assert (a ∈ base.filter (λ x, pat_reservation x = pat_reservation a) (attempts_of e d)) as Hin
      by (apply list_elem_of_filter; split; [done|by apply elem_of_attempts]).
    destruct (base.filter _ (attempts_of e d)) as [|b l] eqn:Hl; [by apply elem_of_nil in Hin|]. cbn. f_equal.
    assert (b ∈ base.filter (λ x, pat_reservation x = pat_reservation a) (attempts_of e d)) as Hb
      by (rewrite Hl; left).
    apply list_elem_of_filter in Hb as [Hr Hb]. rewrite elem_of_attempts in Hb. by eapply fine_inj.
Qed.
Lemma deferred_None e d :
  fine e → deferred env_view e d = None ↔ lg_pending (sy_ledger (en_sys e)) !! d = None.
Proof.
  intros Hf. split.
  - intros Hn. destruct (lg_pending (sy_ledger (en_sys e)) !! d) as [r|] eqn:Hp; [|done].
    destruct (proj1 (proj2 (proj2 (proj2 Hf))) d r Hp) as (a & Ha & Hr).
    assert (deferred env_view e d = Some a) as Hs by (apply deferred_iff; [done|]; by rewrite Hp, Hr).
    congruence.
  - intros Hn. cbn. by rewrite Hn.
Qed.

(** ** Steps that touch the world or the store only *)
Definition elsewhere (R : relation (W * S)) : relation E := λ e e',
  R (stored e) (stored e') ∧ en_sys e' = en_sys e ∧ en_attempts e' = en_attempts e ∧
  en_confirmed e' = en_confirmed e.
#[local] Instance elsewhere_preorder R : PreOrder R → PreOrder (elsewhere R).
Proof.
  intros HR. unfold elsewhere. split; [by intros e|].
  intros x y z (? & ? & ? & ?) (? & ? & ? & ?). split; [by etrans|]. intuition congruence.
Qed.
Definition store_untouched : relation (W * S) := λ p p', p'.2 = p.2.
#[local] Instance store_untouched_preorder : PreOrder store_untouched.
Proof. unfold store_untouched. split; [done|]. intros x y z. congruence. Qed.
Abbreviation same_world := (elsewhere store_untouched).
Abbreviation same_view := (elsewhere (store_same the_view)).
Abbreviation same_tx tx := (elsewhere (tx_same the_view tx)).
Lemma same_tx_view tx e e' : same_tx tx e e' → same_view e e'.
Proof. intros [Hs Hr]. split; [|done]. intros Hsane. destruct (Hs Hsane) as (? & ? & _). done. Qed.
Lemma same_world_tx tx e e' : same_world e e' → same_tx tx e e'.
Proof.
  intros [Hs Hr]. split; [|done]. unfold tx_same, store_untouched in *. by rewrite Hs.
Qed.
Lemma same_world_view e e' : same_world e e' → same_view e e'.
Proof. intros [Hs Hr]. split; [|done]. unfold store_same, store_untouched in *. by rewrite Hs. Qed.
Lemma same_view_quiet e e' : fine e → same_view e e' → quiet env_view e e'.
Proof.
  intros Hf (Hr & Hs & Ha & Hc). destruct (Hr (proj1 Hf)) as [Hd Hsane].
  assert (∀ d, attempts_of e' d = attempts_of e d) as Hat by (intros d; unfold attempts_of; by rewrite Ha).
  assert (∀ r, is_prepared e' r = is_prepared e r) as Hip
    by (intros r; unfold is_prepared, phase_of; by rewrite Hs).
  split; [exact Hd|]. split.
  - exact Hat.
  - intros a d _. cbn. by rewrite Hip, Hc.
  - intros d. cbn. by rewrite Hs, Hat.
  - cbn. rewrite Hs, Ha, Hc. destruct Hf as (_ & H1' & H2' & H3' & H4'). split; [done|]. split; [done|].
    split; [done|]. split; [done|]. intros r Hr'. rewrite Hip. by apply H4'.
Qed.
Lemma same_tx_quiet {X} tx (m : E → X * E) : (∀ e, same_tx tx e (m e).2) → tx_quiet env_view tx m.
Proof.
  intros Hm e Hf. specialize (Hm e). split; [apply same_view_quiet; [done|by eapply same_tx_view]|].
  destruct Hm as [Hs _]. by destruct (Hs (proj1 Hf)) as (_ & _ & ?).
Qed.
Lemma on_store_keeps {A} R (m : ST (W * S) A) : keeps R m → keeps (elsewhere R) (on_store m).
Proof.
  intros Hm e. unfold on_store. specialize (Hm (stored e)). destruct (m (stored e)) as [r [w s]]. by split.
Qed.
Lemma on_store_quiet {A} (m : ST (W * S) A) e :
  keeps (store_same the_view) m → fine e → quiet env_view e (on_store m e).2.
Proof. intros Hm Hf. apply same_view_quiet; [done|]. by apply on_store_keeps. Qed.
Hint Resolve ls_parser_outcome ls_detection_outcome ls_contribution ls_alert ls_automatic
  ls_audit ls_finalize : core.
Lemma write_same a tx : keeps (same_tx tx) (write (E := E) a tx).
Proof.
  assert (∀ A (f : A → ST E unit) l, (∀ y, keeps (same_tx tx) (f y)) → keeps (same_tx tx) (st_each f l)) as Heach
    by (intros A f l Hf; induction l as [|y l IH]; cbn [st_each]; keeps_tac ltac:(first [apply Hf|apply IH])).
  unfold write. repeat (apply keeps_bind; [apply _| |intros _]); apply Heach; intros x; cbn;
    try (apply on_store_keeps; auto).
  unfold write_detection. cbn. keeps_tac ltac:(apply on_store_keeps; auto).
Qed.

(** ** Resolving a reservation *)
Lemma is_prepared_iff e r : is_prepared e r = true ↔ ∃ v, sy_res (en_sys e) !! r = Some v ∧ rv_phase v = Prepared.
Proof.
  unfold is_prepared, phase_of. destruct (sy_res (en_sys e) !! r) as [v|]; cbn.
  - split; [|by intros (? & [= <-] & ->)]. intros Hp. exists v. split; [done|].
    by destruct (rv_phase v).
  - split; [done|by intros (? & ? & _)].
Qed.
Lemma resolve_noop b r e : is_prepared e r = false → same_world e (resolve_env b r e).
Proof.
  intros Hp. unfold elsewhere. rewrite resolve_sys. unfold resolve_env. cbn. rewrite Hp, andb_false_r.
  unfold is_prepared, phase_of in Hp. destruct (sy_res (en_sys e) !! r) as [v|]; [|done].
  cbn in Hp. by destruct (rv_phase v).
Qed.
Lemma resolve_prepared b r e x :
  is_prepared (resolve_env b r e) x = is_prepared e x && negb (bool_decide (x = r)).
Proof.
  apply Bool.eq_iff_eq_true. rewrite andb_true_iff, negb_true_iff, bool_decide_eq_false, !is_prepared_iff.
  pose proof (resolve_open b r e) as Ho.
  assert (x ∈ env_open (resolve_env b r e) ↔ x ∈ env_open e ∧ x ≠ r) as Hx by (rewrite Ho; set_solver).
  by rewrite !elem_of_env_open in Hx.
Qed.
Lemma resolve_ids b r e x v :
  sy_res (en_sys e) !! x = Some v →
  ∃ v', sy_res (en_sys (resolve_env b r e)) !! x = Some v' ∧ rv_deliveryID v' = rv_deliveryID v.
Proof.
  intros Hv. rewrite resolve_sys. destruct (sy_res (en_sys e) !! r) as [y|] eqn:Hr; [|by eauto].
  destruct (rv_phase y); [by eauto| |by eauto]. cbn.
  destruct (decide (x = r)) as [->|Hx]; [|rewrite lookup_insert_ne by done; by eauto].
  rewrite lookup_insert_eq. exists (with_phase y Finished). split; [done|]. cbn. congruence.
Qed.

Lemma resolve_env_settled b e d a :
  fine e → (d, a) ∈ en_attempts e → is_prepared e (pat_reservation a) = true →
  settled env_view e (resolve_env b (pat_reservation a) e) b a.
Proof.
  intros Hf Ha Hprep. set (r := pat_reservation a) in *. set (e' := resolve_env b r e).
  pose proof Hf as (Hsane & Hnd & Hres & Hpend & Hconf).
  pose proof Hprep as Hv. apply is_prepared_iff in Hv as (v & Hv & Hp).
  destruct (Hres d a Ha) as (v' & Hv' & Hd). assert (v' = v) as -> by (unfold r in *; congruence).
  assert (lg_pending (sy_ledger (en_sys e'))
          = lg_pending (drop_pending r d (sy_ledger (en_sys e)))) as Hpe
    by (rewrite <- Hd; by apply resolve_pending).
  assert (en_confirmed e' = if b then {[r]} ∪ en_confirmed e else en_confirmed e) as Hcf
    by (unfold e', resolve_env; cbn; rewrite Hprep; by destruct b).
  assert (r ∉ en_confirmed e) as Hnc by (intros Hc; destruct (Hconf r Hc); congruence).
  assert (∀ x y, (y, x) ∈ en_attempts e → x ≠ a → pat_reservation x ≠ r) as Hneq
    by (intros x y Hx Hne Heq; by destruct (fine_inj e y x d a Hf Hx Ha Heq)).
  assert (∀ y r', lg_pending (sy_ledger (en_sys e')) !! y = Some r' ↔
            lg_pending (sy_ledger (en_sys e)) !! y = Some r' ∧ ¬ (y = d ∧ r' = r)) as Hiff.
  { intros y r'. rewrite Hpe. unfold drop_pending. case_bool_decide as Hc; cbn.
    - rewrite lookup_delete_Some. destruct (decide (y = d)) as [->|]; naive_solver.
    - split; [|tauto]. intros Hy. split; [done|]. by intros [-> ->]. }
  assert (fine e') as Hf'.
  { split; [exact Hsane|]. split; [exact Hnd|]. split; [|split].
    - intros y x Hx. destruct (Hres y x Hx) as (u & Hu & Hud).
      destruct (resolve_ids b r e _ _ Hu) as (u' & Hu' & Hid). exists u'. split; [done|]. congruence.
    - intros y r' Hy. apply Hiff in Hy as [Hy _]. by apply Hpend.
    - intros x Hx. unfold e'. rewrite resolve_prepared.
      assert (x = r ∨ x ∈ en_confirmed e) as [->|Hx'] by (rewrite Hcf in Hx; destruct b; set_solver).
      + split; [by rewrite bool_decide_eq_true_2, andb_false_r|].
        destruct (resolve_ids b r e _ _ Hv) as (u & -> & _). by eauto.
      + destruct (Hconf x Hx') as [-> [u Hu]]. split; [done|].
        destruct (resolve_ids b r e _ _ Hu) as (u' & -> & _). by eauto. }
  split; try done.
  - rewrite env_resolution. fold r. rewrite Hcf. unfold e'.
    rewrite resolve_prepared, (bool_decide_eq_true_2 (_ = _)), andb_false_r by done. f_equal. destruct b; [apply bool_decide_eq_true_2; set_solver|].
    by apply bool_decide_eq_false_2.
  - intros x y Hx Hne. apply elem_of_attempts in Hx. pose proof (Hneq x y Hx Hne) as Hr.
    rewrite !env_resolution, Hcf. unfold e'.
    rewrite resolve_prepared, (bool_decide_eq_false_2 (_ = _)), andb_true_r by done. destruct (is_prepared e (pat_reservation x)); [done|]. f_equal.
    destruct b; [|done]. apply bool_decide_ext. set_solver.
  - intros y Hy. apply deferred_iff in Hy as [Hy Hl]; [|done]. apply deferred_None; [done|].
    destruct (fine_inj e y a d a Hf Hy Ha eq_refl) as [-> _].
    destruct (lg_pending (sy_ledger (en_sys e')) !! d) as [r'|] eqn:Hr'; [|done].
    apply Hiff in Hr' as [Hr' Hn]. exfalso. apply Hn. split; [done|]. fold r in Hl. congruence.
  - intros y Hy. destruct (deferred env_view e y) as [x|] eqn:Hx.
    + apply deferred_iff; [done|]. apply deferred_iff in Hx as [Hx Hl]; [|done]. split; [exact Hx|].
      apply Hiff. split; [done|]. intros [-> Heq].
      destruct (fine_inj e d x d a Hf Hx Ha Heq) as [_ ->]. done.
    + apply deferred_None; [done|]. apply deferred_None in Hx; [|done].
      destruct (lg_pending (sy_ledger (en_sys e')) !! y) as [r'|] eqn:Hr'; [|done].
      apply Hiff in Hr' as [Hr' _]. congruence.
Qed.

Lemma resolve_settles b : settles env_view b (λ a, resolve_env b (pat_reservation a)).
Proof.
  intros e d a Hf Ha. apply elem_of_attempts in Ha. cbn [resolution env_view].
  destruct (is_prepared e (pat_reservation a)) eqn:Hp.
  - split; [|done]. intros _. by eapply resolve_env_settled.
  - split; [done|]. intros _. apply same_view_quiet; [done|]. by apply same_world_view, resolve_noop.
Qed.

Lemma defer_deferral e d a :
  fine e → (d, a) ∈ en_attempts e → deferred env_view e d = None →
  deferral env_view e (defer_env (pat_reservation a) e) d a.
Proof.
  intros Hf Ha Hd. pose proof Hf as (Hsane & Hnd & Hres & Hpend & Hconf).
  destruct (Hres d a Ha) as (v & Hv & Hid). apply deferred_None in Hd; [|done].
  unfold defer_env. rewrite Hv. unfold DeferResolution. rewrite Hid, Hd.
  set (e' := with_sys e _).
  assert (∀ y, lg_pending (sy_ledger (en_sys e')) !! y = (<[d := pat_reservation a]> (lg_pending (sy_ledger (en_sys e)))) !! y)
    as Hl by done.
  assert (fine e') as Hf'.
  { split; [exact Hsane|]. split; [exact Hnd|]. split; [exact Hres|]. split; [|exact Hconf].
    intros y r. rewrite Hl, lookup_insert_Some. intros [[<- <-]|[_ Hy]]; [by exists a|by apply Hpend]. }
  split; try done.
  - apply deferred_iff; [done|]. split; [exact Ha|]. by rewrite Hl, lookup_insert_eq.
  - intros y Hy. destruct (deferred env_view e y) as [x|] eqn:Hx.
    + apply deferred_iff in Hx as [Hx Hp]; [|done]. apply deferred_iff; [done|]. split; [exact Hx|].
      by rewrite Hl, lookup_insert_ne by done.
    + apply deferred_None in Hx; [|done]. apply deferred_None; [done|].
      by rewrite Hl, lookup_insert_ne by done.
Qed.

(** ** What a preparation leaves of the attempts made before *)
Record prep_frame (delivery : Delivery) e0 e : Prop := {
  fr_store : en_store e = en_store e0;
  fr_attempts : en_attempts e = en_attempts e0;
  fr_confirmed : en_confirmed e = en_confirmed e0;
  fr_pending : lg_pending (sy_ledger (en_sys e)) = lg_pending (sy_ledger (en_sys e0));
  fr_old r v : sy_res (en_sys e0) !! r = Some v → sy_res (en_sys e) !! r = Some v;
  fr_new r v : sy_res (en_sys e0) !! r = None → sy_res (en_sys e) !! r = Some v →
    rv_deliveryID v = dl_ID delivery
}.
Abbreviation fresh_in e0 := (λ r, sy_res (en_sys e0) !! r = None).

Lemma frame_same delivery e0 e e' : prep_frame delivery e0 e → same_world e e' → prep_frame delivery e0 e'.
Proof. intros [] (Hr & Hs & Ha & Hc). unfold store_untouched in Hr. cbn in Hr. split; rewrite ?Hs; try congruence; eauto. Qed.
Lemma on_world_same {A} (m : ST W A) : keeps same_world (on_world m).
Proof. intros e. unfold on_world. by destruct (m (en_world e)). Qed.
Lemma cancelled_same e : same_world e (env_Cancelled e).2.
Proof. cbn. by destruct (env_Cancelled (en_world e)). Qed.
Lemma now_same e : same_world e (env_Now e).2.
Proof. cbn. by destruct (env_Now (en_world e)). Qed.

Lemma frame_batch delivery e0 cs e r e' :
  prep_frame delivery e0 e → prepare_env (dl_ID delivery) cs e = (r, e') →
  prep_frame delivery e0 e' ∧ ∀ v previews, r = Ok (v, previews) → fresh_in e0 v.
Proof.
  intros [F1 F2 F3 F4 F5 F6] Hr.
  apply prepare_env_effect in Hr as (Hf & [Hpe Hot Hth Hok Herr] & R1 & R2 & R3).
  set (v0 := fresh (dom (sy_res (en_sys e)))) in *.
  assert (sy_res (en_sys e0) !! v0 = None) as Hf0.
  { destruct (sy_res (en_sys e0) !! v0) as [v|] eqn:Hv; [|done]. apply F5 in Hv. congruence. }
  split; [|by intros v previews (-> & _)%Hok]. split; try congruence.
  - intros y v Hv. rewrite Hot; [by apply F5|]. intros ->. congruence.
  - intros y v Hy Hv. destruct (decide (y = v0)) as [->|Hne]; [by apply Hth|].
    rewrite Hot in Hv by done. by eapply F6.
Qed.

Lemma frame_abort delivery e0 v e :
  fine e0 → prep_frame delivery e0 e → fresh_in e0 v → prep_frame delivery e0 (resolve_env false v e).
Proof.
  intros Hf HF Hv. pose proof HF as [F1 F2 F3 F4 F5 F6].
  destruct (is_prepared e v) eqn:Hp; [|eapply frame_same; [exact HF|by apply resolve_noop]].
  apply is_prepared_iff in Hp as (y & Hy & Hpy).
  assert (sy_res (en_sys (resolve_env false v e)) = <[v := with_phase y Finished]> (sy_res (en_sys e))) as Hs
    by (by rewrite resolve_sys, Hy, Hpy).
  split; try done.
  - rewrite (resolve_pending false v e y Hy Hpy), <- F4. unfold drop_pending. case_bool_decide as Hc; [|done].
    exfalso. rewrite F4 in Hc. destruct Hf as (_ & _ & Hres & Hpend & _).
    destruct (Hpend _ _ Hc) as (a & Ha & <-). destruct (Hres _ _ Ha) as (u & Hu & _). congruence.
  - intros r u Hu. rewrite Hs, lookup_insert_ne; [by apply F5|]. intros <-. congruence.
  - intros r u Hr. rewrite Hs, lookup_insert_Some. intros [[<- <-]|[_ Hu]]; [|by eapply F6].
    cbn. by eapply F6.
Qed.

Lemma prepare_frame delivery e :
  fine e → prep_frame delivery e (prepare (V := V) nodeID delivery e).2.
Proof.
  intros Hf. assert (∀ A (m : ST E A), keeps same_world m → keeps (keeps_I (prep_frame delivery e)) m) as Hk
    by (intros A m Hm e1 He1; by eapply frame_same).
  apply (prepare_invariant (prep_frame delivery e) (fresh_in e)).
  - intros e1 He1. eapply frame_same; [done|apply cancelled_same].
  - intros e1 He1. eapply frame_same; [done|apply now_same].
  - apply Hk, on_world_same.
  - apply Hk, on_world_same.
  - intros parser record. apply Hk, on_world_same.
  - intros rule event. apply Hk, on_world_same.
  - intros rule event snapshot. apply Hk, on_world_same.
  - intros cs e1 r e' He1 Hr. by eapply frame_batch.
  - intros v e1 He1 Hv. by apply frame_abort.
  - split; try done. intros r v ? ?. congruence.
Qed.

Lemma prep_frame_quiet delivery e e' :
  fine e → prep_frame delivery e e' →
  (∀ r v, sy_res (en_sys e) !! r = Some v → is_prepared e' r = is_prepared e r) ∧ quiet env_view e e'.
Proof.
  intros Hf [F1 F2 F3 F4 F5 F6]. pose proof Hf as (Hsane & Hnd & Hres & Hpend & Hconf).
  assert (∀ r v, sy_res (en_sys e) !! r = Some v → is_prepared e' r = is_prepared e r) as Hip.
  { intros r v Hv. unfold is_prepared, phase_of. by rewrite (F5 r v Hv), Hv. }
  assert (∀ d, attempts_of e' d = attempts_of e d) as Hat by (intros d; unfold attempts_of; by rewrite F2).
  split; [exact Hip|]. split; [intros d; cbn; by rewrite F1|]. split.
  - exact Hat.
  - intros a d Ha. apply elem_of_attempts in Ha. destruct (Hres d a Ha) as (v & Hv & _).
    by rewrite !env_resolution, (Hip _ _ Hv), F3.
  - intros d. cbn. by rewrite F4, Hat.
  - cbn. rewrite F1, F2, F3, F4. split; [done|]. split; [done|]. split; [|split; [done|]].
    + intros d a Ha. destruct (Hres d a Ha) as (v & Hv & Hd). exists v. split; [by apply F5|done].
    + intros r Hr. destruct (Hconf r Hr) as [Hp [v Hv]]. rewrite (Hip r v Hv). split; [done|].
      exists v. by apply F5.
Qed.

(** The attempt a preparation hands over is recorded. *)
Lemma record_prepared delivery e e' a :
  fine e → prep_frame delivery e e' → balanced e (Ok (pat_reservation a)) e' →
  prepared_for env_view e (record_attempt (dl_ID delivery) a e') (dl_ID delivery) a.
Proof.
  intros Hf HF [Hn Ho]. destruct (prep_frame_quiet _ _ _ Hf HF) as [Hip [Qd [Qa Qr Qf Qs]]].
  pose proof HF as [F1 F2 F3 F4 F5 F6]. pose proof Hf as (Hsane & Hnd & Hres & Hpend & Hconf).
  set (r := pat_reservation a) in *. set (e1 := record_attempt (dl_ID delivery) a e').
  assert (r ∈ env_open e') as Hr by (change (r ∈ open e'); rewrite Ho; set_solver).
  apply elem_of_env_open in Hr as (v & Hv & Hp).
  assert (sy_res (en_sys e) !! r = None) as Hfresh.
  { destruct (sy_res (en_sys e) !! r) as [u|] eqn:Hu; [|done]. exfalso. apply Hn.
    apply elem_of_env_open. exists u. split; [done|]. apply F5 in Hu. congruence. }
  assert (∀ y b, (y, b) ∈ en_attempts e → pat_reservation b ≠ r) as Hne.
  { intros y b Hb Heq. destruct (Hres y b Hb) as (u & Hu & _). congruence. }
  assert (fine e1) as Hf1.
  { unfold e1, record_attempt. cbn. rewrite F1, F2, F3, F4. split; [done|]. split; [|split; [|split]].
    - constructor; [|done]. intros ([y b] & Heq & Hb)%list_elem_of_fmap. by eapply Hne.
    - intros y b [[= -> ->]|Hb]%elem_of_cons; [exists v; split; [done|by eapply F6]|].
      destruct (Hres y b Hb) as (u & Hu & Hd). exists u. split; [by apply F5|done].
    - intros y x Hx. destruct (Hpend y x Hx) as (b & Hb & Hbr). exists b. split; [by right|done].
    - intros x Hx. destruct (Hconf x Hx) as [Hxp [u Hu]]. split; [|exists u; by apply F5].
      change (is_prepared e' x = false). by rewrite (Hip x u Hu). }
  split; try done.
  - change (attempts_of e1 (dl_ID delivery) = a :: attempts_of e (dl_ID delivery)). unfold attempts_of.
    change (en_attempts e1) with ((dl_ID delivery, a) :: en_attempts e'). rewrite F2.
    by rewrite filter_cons_True.
  - intros y Hy. change (attempts_of e1 y = attempts_of e y). unfold attempts_of.
    change (en_attempts e1) with ((dl_ID delivery, a) :: en_attempts e'). rewrite F2.
    by rewrite filter_cons_False by (cbn; congruence).
  - intros y Hy. apply elem_of_attempts in Hy. by eapply Hne.
  - rewrite env_resolution. assert (is_prepared e1 (pat_reservation a) = true) as ->; [|done].
    apply is_prepared_iff. by exists v.
  - intros y. destruct (deferred env_view e y) as [b|] eqn:Hb.
    + apply deferred_iff in Hb as [Hb Hl]; [|done]. apply deferred_iff; [done|].
      unfold e1, record_attempt. cbn. rewrite F2, F4. split; [by right|done].
    + apply deferred_None in Hb; [|done]. apply deferred_None; [done|]. unfold e1, record_attempt. cbn.
      by rewrite F4.
Qed.

(** ** The laws of the coordinator's ports *)
Lemma with_stored_same p e :
  fine e → sv_sane the_view p.2 → same_attempts env_view e (with_stored e p).
Proof. intros (_ & Hf) Hp. by split. Qed.
Lemma commit_as tx r e state err e' :
  fine e → staged env_view e tx = [r] → tx_commit tx e = ((state, err), e') →
  committed_as env_view e e' r state.
Proof.
  intros Hf Hs. cbn. destruct (tx_commit tx (stored e)) as [o p] eqn:Hc. intros [= -> <-].
  destruct (ls_commit tx r (stored e) state err p (proj1 Hf) Hs Hc) as (Hsane & Hot & Hthis).
  split; [by apply with_stored_same|done|done].
Qed.

#[export] Instance env_lawful_processing : LawfulProcessing E T pipelineAttempt.
Proof.
  refine {| view := env_view |}.
  - intros tx. apply same_tx_quiet. intros e. apply same_world_tx, now_same.
  - intros d e r e' Hf. cbn. unfold on_store. destruct (env_findReceipt d (stored e)) as [x [w s]] eqn:Hx.
    intros [= -> <-]. destruct (ls_find d _ _ r w s (proj1 Hf) Hx) as [Hs Hr]. split; [|exact Hr].
    by apply same_view_quiet.
  - intros e Hf. apply on_store_quiet; [apply ls_replay|done].
  - intros e r e' Hf Hr. split; [|intros tx ->].
    + pose proof (on_store_quiet env_beginProcessing e ls_begin Hf) as Hq. cbn in Hr. by rewrite Hr in Hq.
    + cbn in Hr. unfold on_store in Hr. destruct (env_beginProcessing (stored e)) as [x p] eqn:Hx.
      injection Hr as -> <-. exact (ls_fresh (stored e) tx p (proj1 Hf) Hx).
  - intros a tx. apply same_tx_quiet, write_same.
  - intros tx. apply same_tx_quiet. intros e. by apply on_store_keeps.
  - intros tx r e Hf. apply on_store_quiet; [apply ls_receipt|done].
  - intros tx r e e' Hf Hr. cbn in Hr. unfold on_store in Hr.
    destruct (tx_writeReceipt tx r (stored e)) as [x p] eqn:Hx. injection Hr as -> <-.
    exact (ls_written tx r (stored e) p (proj1 Hf) Hx).
  - intros tx r e state err e'. apply commit_as.
  - intros tx e Hf. apply on_store_quiet; [apply ls_notify|done].
  - intros tx e Hf. apply on_store_quiet; [apply ls_rollback|done].
  - intros delivery e r e' Hf Hr. cbn [run_prepare env_runner] in Hr.
    unfold runtime_prepare in Hr. pose proof (prepare_frame delivery e Hf) as HF.
    destruct (prepare nodeID delivery e) as [r1 e1] eqn:Hp. apply prepare_open in Hp. cbn [snd] in HF.
    injection Hr as <- <-. destruct r1 as [[a|]|err]; [|done|by apply (prep_frame_quiet delivery)].
    by apply record_prepared.
  - apply (resolve_settles true).
  - apply (resolve_settles false).
  - eexists. split; [done|]. intros e d a Hf Ha Hd _. apply elem_of_attempts in Ha. by apply defer_deferral.
  - eexists. split; [done|]. intros e d b Hf. cbn [env_ResolveDeferred env_ledger].
    destruct (deferred env_view e d) as [a|] eqn:Hd.
    + apply deferred_iff in Hd as [Ha ->]; [|done]. intros _ Hr. rewrite env_resolution in Hr.
      destruct (is_prepared e (pat_reservation a)) eqn:Hp; [|done]. by eapply resolve_env_settled.
    + apply deferred_None in Hd as ->; [|done]. apply same_view_quiet; done.
  - intros gate d e [= <-] Hf. split; apply same_view_quiet; try done. cbn.
    by destruct (env_Cancelled (en_world e)) as [[] ?].
Defined.
End runtime.
