(* ===== verification/SourceStore.v ===== *)
(** * Durable source state (internal/store/source_state.go, source_coverage.go,
    source_session.go, source_rows.go)

    The tables of sources, their checkpoints and their file generations, with the
    constraints and triggers of the migrations, and every operation of the store
    on them. A transaction may fail to begin, fail in a statement, or fail to
    commit with or without having taken effect; an operation of single statements
    may fail in its write, with or without effect, or in its read-back. *)

From S2P Require Import Prelude GoStd Sha256 Netip Identity CoreModel ObservedState ReconcilePlan.
From S2P Require Import ObservedStore ReconcileStore.

Definition ErrCheckpointRegression : error := Errorf "source checkpoint would regress".
Definition ErrFileGenerationTransition : error := Errorf "invalid file generation transition".
Definition ErrFileGenerationReferenced : error := Errorf "file generation is still referenced".
Definition ErrFileGenerationNotDurable : error := Errorf "file generation checkpoint has not safely advanced".
Definition ErrSourcePositionMismatch : error :=
  Errorf "source position does not match durable source identity".
Definition ErrSourceSessionConflict : error := Errorf "source session compare-and-swap conflict".
Definition ErrStaleSourceSession : error := Errorf "source session is no longer active".
Definition ErrSourceCheckpointCommitUncertain : error := Errorf "source checkpoint commit result is uncertain".
Definition constraint_failed : error := Errorf "constraint failed".
Definition record_not_found : error := Errorf "record not found".

(** ** Values *)
Definition SourceKind := string.
Definition SourceKindFile : SourceKind := "file".
Definition SourceKindJournald : SourceKind := "journald".
Definition FileGenerationState := string.
Definition FileGenerationOpen : FileGenerationState := "open".
Definition FileGenerationDraining : FileGenerationState := "draining".
Definition FileGenerationSealed : FileGenerationState := "sealed".
Definition FileGenerationRetired : FileGenerationState := "retired".
Definition SourceSessionID := string.

Record SourceSession := MkSourceSession { ss_SourceID : SourceID; ss_ID : SourceSessionID }.
Record SourceCheckpoint := MkSourceCheckpoint {
  sc_SessionID : SourceSessionID;
  sc_SourceID : SourceID;
  sc_DeliverySequence : Z;
  sc_Position : SourcePosition;
  sc_PersistedAt : time
}.
Record FileGeneration := MkFileGeneration {
  fg_DurableEndOffset : option Z;
  fg_CoverageSessionID : option SourceSessionID;
  fg_SourceID : SourceID;
  fg_Generation : string;
  fg_DeviceID : Z;
  fg_Inode : Z;
  fg_Path : string;
  fg_State : FileGenerationState;
  fg_ObservedSize : Z;
  fg_FinalEOF : option Z;
  fg_MaxDeliverySequence : option Z;
  fg_OpenedAt : time;
  fg_DrainingAt : option time;
  fg_SealedAt : option time;
  fg_RetiredAt : option time
}.

(** ** Rows. A table is a map from its primary key to its other columns. *)
Record sourceRow := MkSourceRow {
  sr_ActiveSessionID : option string;
  sr_NodeID : string;
  sr_Kind : string;
  sr_CreatedAtUS : Z;
  sr_UpdatedAtUS : Z
}.
Record position_columns := MkPositionColumns {
  pc_Kind : string;
  pc_Generation : option string;
  pc_DeviceID : option Z;
  pc_Inode : option Z;
  pc_StartOffset : option Z;
  pc_EndOffset : option Z;
  pc_JournaldCursor : option string
}.
Record sourceCheckpointRow := MkCheckpointRow {
  cr_SessionID : option string;
  cr_DeliverySequence : Z;
  cr_Position : position_columns;
  cr_PersistedAtUS : Z
}.
Record sourceFileGenerationRow := MkGenerationRow {
  gr_DurableEndOffset : option Z;
  gr_CoverageSessionID : option string;
  gr_DeviceID : Z;
  gr_Inode : Z;
  gr_Path : string;
  gr_State : string;
  gr_ObservedSize : Z;
  gr_FinalEOF : option Z;
  gr_MaxDeliverySequence : option Z;
  gr_OpenedAtUS : Z;
  gr_DrainingAtUS : option Z;
  gr_SealedAtUS : option Z;
  gr_RetiredAtUS : option Z
}.
Record processingReceiptRow := MkReceiptRow {
  rr_source : string;
  rr_position : position_columns;
  rr_Kind : string;
  rr_FailureStage : option string;
  rr_FailureCode : option string;
  rr_SanitizedError : option string;
  rr_TerminalAction : option string;
  rr_FailureOccurredAtUS : option Z;
  rr_CommittedAtUS : Z
}.
Record source_db := MkSourceDb {
  sd_nodes : gset NodeID;
  sd_sources : gmap SourceID sourceRow;
  sd_checkpoints : gmap SourceID sourceCheckpointRow;
  sd_generations : gmap (SourceID * string) sourceFileGenerationRow;
  sd_receipts : gmap DeliveryID processingReceiptRow
}.
Definition set_sources (d : source_db) (m : gmap SourceID sourceRow) : source_db :=
  MkSourceDb (sd_nodes d) m (sd_checkpoints d) (sd_generations d) (sd_receipts d).
Definition set_checkpoints (d : source_db) (m : gmap SourceID sourceCheckpointRow) : source_db :=
  MkSourceDb (sd_nodes d) (sd_sources d) m (sd_generations d) (sd_receipts d).
Definition set_generations (d : source_db) (m : gmap (SourceID * string) sourceFileGenerationRow) : source_db :=
  MkSourceDb (sd_nodes d) (sd_sources d) (sd_checkpoints d) m (sd_receipts d).
Definition set_receipts (d : source_db) (m : gmap DeliveryID processingReceiptRow) : source_db :=
  MkSourceDb (sd_nodes d) (sd_sources d) (sd_checkpoints d) (sd_generations d) m.

(** ** Constraints of the migrations *)
(** length(s) of a TEXT: the characters before the first NUL; a lead byte takes the
    continuation bytes that follow it. *)
Fixpoint sql_chars (skip : bool) (l : list Z) : Z :=
  match l with
  | [] => 0
  | b :: l =>
    if b =? 0 then 0
    else if skip && (Z.land b 192 =? 128) then sql_chars true l
    else 1 + sql_chars (192 <=? b) l
  end.
Definition sql_length (s : string) : Z := sql_chars false (string_bytes s).
Definition sql_between (n : Z) (s : string) : bool := (1 <=? sql_length s) && (sql_length s <=? n).
Definition null_or (P : Z → bool) (v : option Z) : bool := match v with Some v => P v | None => true end.
Definition is_null {A} (v : option A) : bool := match v with Some _ => false | None => true end.

Definition position_check (p : position_columns) : bool :=
  if bool_decide (pc_Kind p = "file")
  then match pc_Generation p, pc_DeviceID p, pc_Inode p, pc_StartOffset p, pc_EndOffset p, pc_JournaldCursor p with
       | Some _, Some _, Some _, Some s, Some e, None => (0 <=? s) && (s <=? e)
       | _, _, _, _, _, _ => false
       end
  else if bool_decide (pc_Kind p = "journald")
  then match pc_JournaldCursor p with
       | Some c => (0 <? sql_length c) && is_null (pc_Generation p) && is_null (pc_DeviceID p)
                   && is_null (pc_Inode p) && is_null (pc_StartOffset p) && is_null (pc_EndOffset p)
       | None => false
       end
  else false.
(** The columns that each state has. *)
Definition state_check (r : sourceFileGenerationRow) : bool :=
  if bool_decide (gr_State r = FileGenerationOpen)
  then is_null (gr_DrainingAtUS r) && is_null (gr_SealedAtUS r) && is_null (gr_RetiredAtUS r)
       && is_null (gr_FinalEOF r) && is_null (gr_MaxDeliverySequence r)
  else if bool_decide (gr_State r = FileGenerationDraining)
  then negb (is_null (gr_DrainingAtUS r)) && is_null (gr_SealedAtUS r) && is_null (gr_RetiredAtUS r)
       && is_null (gr_FinalEOF r) && is_null (gr_MaxDeliverySequence r)
  else if bool_decide (gr_State r = FileGenerationSealed)
  then negb (is_null (gr_SealedAtUS r)) && is_null (gr_RetiredAtUS r)
       && negb (is_null (gr_FinalEOF r)) && negb (is_null (gr_MaxDeliverySequence r))
  else if bool_decide (gr_State r = FileGenerationRetired)
  then negb (is_null (gr_SealedAtUS r)) && negb (is_null (gr_RetiredAtUS r))
       && negb (is_null (gr_FinalEOF r)) && negb (is_null (gr_MaxDeliverySequence r))
  else false.
Definition generation_check (generation : string) (r : sourceFileGenerationRow) : bool :=
  isLowerHex128 generation && (0 <=? gr_DeviceID r) && (0 <=? gr_Inode r) && sql_between 4096 (gr_Path r)
  && (0 <=? gr_ObservedSize r) && null_or (λ v, 0 <=? v) (gr_FinalEOF r)
  && null_or (λ v, 0 <=? v) (gr_MaxDeliverySequence r) && (0 <? gr_OpenedAtUS r)
  && null_or (λ v, gr_OpenedAtUS r <=? v) (gr_DrainingAtUS r)
  && null_or (λ v, default (gr_OpenedAtUS r) (gr_DrainingAtUS r) <=? v) (gr_SealedAtUS r)
  && null_or (λ v, match gr_SealedAtUS r with Some s => s <=? v | None => false end) (gr_RetiredAtUS r)
  && state_check r
  && null_or (λ v, (0 <=? v) && null_or (λ e, v <=? e) (gr_FinalEOF r)) (gr_DurableEndOffset r)
  && match gr_DurableEndOffset r, gr_CoverageSessionID r with
     | None, None => true
     | Some _, Some s => isLowerHex128 s
     | _, _ => false
     end.
Definition checkpoint_check (r : sourceCheckpointRow) : bool :=
  (0 <=? cr_DeliverySequence r) && position_check (cr_Position r) && (0 <? cr_PersistedAtUS r)
  && match cr_SessionID r with Some s => isLowerHex128 s | None => true end.
(** The check of the delivery id is implied by the validation before every insert. *)
Definition receipt_check (r : processingReceiptRow) : bool :=
  position_check (rr_position r)
  && (if bool_decide (rr_Kind r = "success")
      then is_null (rr_FailureStage r) && is_null (rr_FailureCode r) && is_null (rr_SanitizedError r)
           && is_null (rr_TerminalAction r) && is_null (rr_FailureOccurredAtUS r)
      else if bool_decide (rr_Kind r = "record_permanent")
      then match rr_FailureStage r, rr_FailureCode r, rr_SanitizedError r, rr_TerminalAction r,
                 rr_FailureOccurredAtUS r with
           | Some stage, Some code, Some sanitized, Some action, Some at_ =>
             sql_between 64 stage && sql_between 128 code && sql_between 2048 sanitized
             && sql_between 64 action && (0 <? at_)
           | _, _, _, _, _ => false
           end
      else false)
  && null_or (λ at_, at_ <=? rr_CommittedAtUS r) (rr_FailureOccurredAtUS r) && (0 <? rr_CommittedAtUS r).

(** ** Positions *)
Definition encodePosition (position : SourcePosition) : result position_columns :=
  match SourcePosition_File position with
  | Some file =>
    fail_if ((max_int64 <? fp_DeviceID file) || (max_int64 <? fp_Inode file)
             || (max_int64 <? fp_StartOffset file) || (max_int64 <? fp_EndOffset file))
            (Errorf "file position exceeds SQLite INTEGER range");;
    Ok (MkPositionColumns "file" (Some (fp_Generation file)) (Some (fp_DeviceID file)) (Some (fp_Inode file))
          (Some (fp_StartOffset file)) (Some (fp_EndOffset file)) None)
  | None =>
    match SourcePosition_Journald position with
    | Some cursor => Ok (MkPositionColumns "journald" None None None None None (Some cursor))
    | None => Err (Errorf "unsupported source position")
    end
  end.
Definition decodePosition (p : position_columns) : result SourcePosition :=
  if bool_decide (pc_Kind p = "file") then
    match pc_Generation p, pc_DeviceID p, pc_Inode p, pc_StartOffset p, pc_EndOffset p with
    | Some generation, Some deviceID, Some inode, Some startOffset, Some endOffset =>
      if (deviceID <? 0) || (inode <? 0) || (startOffset <? 0) || (endOffset <? 0)
      then Err (Errorf "stored file position is incomplete")
      else NewFilePosition (MkFilePosition generation deviceID inode startOffset endOffset)
    | _, _, _, _, _ => Err (Errorf "stored file position is incomplete")
    end
  else if bool_decide (pc_Kind p = "journald") then
    match pc_JournaldCursor p with
    | Some cursor => NewJournaldPosition cursor
    | None => Err (Errorf "stored journald position is incomplete")
    end
  else Err (Errorf "unsupported stored position kind %q").

(** ** Generations *)
Definition fileGenerationFromRow (key : SourceID * string) (row : sourceFileGenerationRow) : FileGeneration :=
  MkFileGeneration (gr_DurableEndOffset row) (gr_CoverageSessionID row) key.1 key.2 (gr_DeviceID row)
    (gr_Inode row) (gr_Path row) (gr_State row) (gr_ObservedSize row) (gr_FinalEOF row)
    (gr_MaxDeliverySequence row) (from_UnixMicro (gr_OpenedAtUS row))
    (from_UnixMicro <$> gr_DrainingAtUS row) (from_UnixMicro <$> gr_SealedAtUS row)
    (from_UnixMicro <$> gr_RetiredAtUS row).
Definition newSourceFileGenerationRow (g : FileGeneration) : sourceFileGenerationRow :=
  MkGenerationRow None None (fg_DeviceID g) (fg_Inode g) (fg_Path g) FileGenerationOpen
    (fg_ObservedSize g) None None (UnixMicro (fg_OpenedAt g)) None None None.
Definition CoverageComplete (g : FileGeneration) : bool :=
  match fg_DurableEndOffset g, fg_CoverageSessionID g, fg_FinalEOF g with
  | Some durable, Some _, Some eof => bool_decide (fg_State g = FileGenerationSealed) && (durable =? eof)
  | _, _, _ => false
  end.
Definition validateNewFileGeneration (g : FileGeneration) : result unit :=
  fail_if (is_empty (fg_SourceID g) || negb (isLowerHex128 (fg_Generation g)) || is_empty (fg_Path g)
           || (4096 <? Z.of_nat (String.length (fg_Path g)))) (Errorf "identity is invalid");;
  fail_if ((max_int64 <? fg_DeviceID g) || (max_int64 <? fg_Inode g) || (max_int64 <? fg_ObservedSize g))
          (Errorf "numeric field exceeds SQLite range");;
  fail_if (IsZero (fg_OpenedAt g) || (UnixMicro (fg_OpenedAt g) <=? 0)) (Errorf "opened time is required");;
  fail_if (negb (is_empty (fg_State g)) && negb (bool_decide (fg_State g = FileGenerationOpen)))
          (Errorf "new generation must be open");;
  fail_if (negb (is_null (fg_FinalEOF g)) || negb (is_null (fg_MaxDeliverySequence g))
           || negb (is_null (fg_DurableEndOffset g)) || negb (is_null (fg_CoverageSessionID g))
           || negb (is_null (fg_DrainingAt g)) || negb (is_null (fg_SealedAt g))
           || negb (is_null (fg_RetiredAt g)))
          (Errorf "new generation cannot contain lifecycle high-water or terminal times").

(** ** Statements *)
Abbreviation Tx := (ST source_db).
Definition guard (b : bool) (e : error) : Tx unit := if b then mret tt else st_fail e.
Definition source_gens (source : SourceID) (d : source_db) : list (string * sourceFileGenerationRow) :=
  omap (λ '((s, g), r), if bool_decide (s = source) then Some (g, r) else None)
    (map_to_list (sd_generations d)).

(** Writing a generation row: its checks, UNIQUE (generation), and one open row
    per source. *)
Definition unique_generation (key : SourceID * string) (d : source_db) : bool :=
  forallb (λ '((s, g), _), bool_decide ((s, g) = key) || negb (bool_decide (g = key.2)))
    (map_to_list (sd_generations d)).
Definition one_open (key : SourceID * string) (r : sourceFileGenerationRow) (d : source_db) : bool :=
  negb (bool_decide (gr_State r = FileGenerationOpen))
  || forallb (λ '((s, g), x), bool_decide ((s, g) = key) || negb (bool_decide (s = key.1))
                              || negb (bool_decide (gr_State x = FileGenerationOpen)))
       (map_to_list (sd_generations d)).
Definition write_generation (key : SourceID * string) (r : sourceFileGenerationRow) : Tx unit :=
  d ← st_get;
  guard (generation_check key.2 r && unique_generation key d && one_open key r d
         && bool_decide (is_Some (sd_sources d !! key.1))) constraint_failed;;
  st_put (set_generations d (<[key := r]> (sd_generations d))).
(** UPDATE ... WHERE key AND cond, which returns whether a row was affected. *)
Definition update_generation (key : SourceID * string) (cond : sourceFileGenerationRow → bool)
    (f : sourceFileGenerationRow → sourceFileGenerationRow) : Tx bool :=
  d ← st_get;
  match sd_generations d !! key with
  | Some r => if cond r then write_generation key (f r);; mret true else mret false
  | None => mret false
  end.
Definition in_state (state : FileGenerationState) (r : sourceFileGenerationRow) : bool :=
  bool_decide (gr_State r = state).
Definition drain_row (at_ : Z) (r : sourceFileGenerationRow) : sourceFileGenerationRow :=
  MkGenerationRow (gr_DurableEndOffset r) (gr_CoverageSessionID r) (gr_DeviceID r) (gr_Inode r) (gr_Path r)
    FileGenerationDraining (gr_ObservedSize r) (gr_FinalEOF r) (gr_MaxDeliverySequence r) (gr_OpenedAtUS r)
    (Some at_) (gr_SealedAtUS r) (gr_RetiredAtUS r).
Definition seal_row (eof sequence at_ : Z) (r : sourceFileGenerationRow) : sourceFileGenerationRow :=
  MkGenerationRow (gr_DurableEndOffset r) (gr_CoverageSessionID r) (gr_DeviceID r) (gr_Inode r) (gr_Path r)
    FileGenerationSealed (gr_ObservedSize r) (Some eof) (Some sequence) (gr_OpenedAtUS r)
    (gr_DrainingAtUS r) (Some at_) (gr_RetiredAtUS r).
Definition retire_row (at_ : Z) (r : sourceFileGenerationRow) : sourceFileGenerationRow :=
  MkGenerationRow (gr_DurableEndOffset r) (gr_CoverageSessionID r) (gr_DeviceID r) (gr_Inode r) (gr_Path r)
    FileGenerationRetired (gr_ObservedSize r) (gr_FinalEOF r) (gr_MaxDeliverySequence r) (gr_OpenedAtUS r)
    (gr_DrainingAtUS r) (gr_SealedAtUS r) (Some at_).
Definition cover_row (offset : Z) (session : SourceSessionID) (r : sourceFileGenerationRow)
    : sourceFileGenerationRow :=
  MkGenerationRow (Some offset) (Some session) (gr_DeviceID r) (gr_Inode r) (gr_Path r) (gr_State r)
    (gr_ObservedSize r) (gr_FinalEOF r) (gr_MaxDeliverySequence r) (gr_OpenedAtUS r) (gr_DrainingAtUS r)
    (gr_SealedAtUS r) (gr_RetiredAtUS r).
Definition with_session (session : SourceSessionID) (r : sourceRow) : sourceRow :=
  MkSourceRow (Some session) (sr_NodeID r) (sr_Kind r) (sr_CreatedAtUS r) (sr_UpdatedAtUS r).

Definition loadFileGeneration (source : SourceID) (generation : string) : Tx (option FileGeneration) :=
  st_gets (λ d, fileGenerationFromRow (source, generation) <$> sd_generations d !! (source, generation)).
Definition loadSourceCheckpoint (source : SourceID) : Tx (option SourceCheckpoint) :=
  guard (negb (is_empty source)) (Errorf "source id is required");;
  row ← st_gets (λ d, sd_checkpoints d !! source);
  match row with
  | None => mret None
  | Some row =>
    position ← st_lift (decodePosition (cr_Position row));
    mret (Some (MkSourceCheckpoint (default EmptyString (cr_SessionID row)) source (cr_DeliverySequence row)
                  position (from_UnixMicro (cr_PersistedAtUS row))))
  end.

(** ** Transactions and single statements *)
Section transaction.
Context {A : Type} (on_begin on_statement on_commit : error → error).
Definition source_tx (f : fault) (body : Tx A) (d : source_db) : result A * source_db :=
  match f with
  | FailBegin e => (Err (on_begin e), d)
  | FailStatement e => (Err (on_statement e), d)
  | _ =>
    match body d with
    | (Err e, _) => (Err e, d)
    | (Ok a, d') =>
      match f with
      | FailCommit e persisted => (Err (on_commit e), if persisted then d' else d)
      | _ => (Ok a, d')
      end
    end
  end.
End transaction.
(** Outside a transaction: the write fails, with or without effect, or the read
    that follows it. *)
Inductive statement_fault := StatementsDone | FailWrite (e : error) (persisted : bool) | FailRead (e : error).
Definition source_write {A} (f : statement_fault) (op : error → error) (body : Tx A) (d : source_db)
    : result A * source_db :=
  match body d with
  | (Err e, _) => (Err (op e), d)
  | (Ok a, d') => match f with
                  | FailWrite e persisted => (Err (op e), if persisted then d' else d)
                  | _ => (Ok a, d')
                  end
  end.

(** ** Sources and sessions *)
Definition insert_source (source : SourceID) (node : NodeID) (kind : SourceKind) (now : time) : Tx unit :=
  d ← st_get;
  match sd_sources d !! source with
  | Some _ => mret tt
  | None =>
    guard (sql_between 128 source && (0 <? UnixMicro now) && bool_decide (node ∈ sd_nodes d)) constraint_failed;;
    st_put (set_sources d (<[source := MkSourceRow None node kind (UnixMicro now) (UnixMicro now)]>
                             (sd_sources d)))
  end.
Definition EnsureSource (source : SourceID) (node : NodeID) (kind : SourceKind) (now : time)
    (f : statement_fault) (d : source_db) : result unit * source_db :=
  if is_empty source || (128 <? Z.of_nat (String.length source))
  then (Err (Errorf "ensure source: source id is invalid"), d)
  else if negb (isLowerHex128 node) then (Err (Errorf "ensure source: node id must be 128-bit lowercase hex"), d)
  else if negb (bool_decide (kind = SourceKindFile)) && negb (bool_decide (kind = SourceKindJournald))
  then (Err (Errorf "ensure source: unsupported kind %q"), d)
  else if IsZero now then (Err (Errorf "ensure source: time is required"), d)
  else
    match source_write f (Wrapf "ensure source %q: insert") (insert_source source node kind now) d with
    | (Err e, d) => (Err e, d)
    | (Ok _, d) =>
      match f, sd_sources d !! source with
      | FailRead e, _ => (Err (Wrapf "ensure source %q: read back" e), d)
      | _, None => (Err (Wrapf "ensure source %q: read back" record_not_found), d)
      | _, Some row =>
        (if negb (bool_decide (sr_NodeID row = node)) || negb (bool_decide (sr_Kind row = kind))
         then Err (Errorf "ensure source %q: persisted identity differs") else Ok tt, d)
      end
    end.

(** The conditional write of the active session, which takes the write lock. *)
Definition update_session (source : SourceID) (expected : option SourceSessionID) (session : SourceSessionID)
    : Tx bool :=
  d ← st_get;
  match sd_sources d !! source with
  | Some row => if bool_decide (sr_ActiveSessionID row = expected)
                then st_put (set_sources d (<[source := with_session session row]> (sd_sources d)));; mret true
                else mret false
  | None => mret false
  end.
Definition lockSourceSession (session : SourceSession) : Tx unit :=
  guard (negb (is_empty (ss_SourceID session)) && isLowerHex128 (ss_ID session))
        (Errorf "valid source session is required");;
  active ← update_session (ss_SourceID session) (Some (ss_ID session)) (ss_ID session);
  guard active (Wrapf "source session" ErrStaleSourceSession).

Definition session_begin (source : SourceID) (expectedActive newID : SourceSessionID)
    : Tx (SourceSession * option SourceCheckpoint) :=
  changed ← update_session source (if is_empty expectedActive then None else Some expectedActive) newID;
  guard changed (Wrapf "begin source session" ErrSourceSessionConflict);;
  checkpoint ← st_wrap "begin source session: recovery checkpoint" (loadSourceCheckpoint source);
  mret (MkSourceSession source newID, checkpoint).
Definition BeginSourceSession (source : SourceID) (expectedActive newID : SourceSessionID) (f : fault)
    (d : source_db) : result (SourceSession * option SourceCheckpoint) * source_db :=
  if is_empty source || negb (isLowerHex128 newID)
     || (negb (is_empty expectedActive) && negb (isLowerHex128 expectedActive))
     || bool_decide (newID = expectedActive)
  then (Err (Errorf "begin source session: valid Source, expected identity and fresh identity are required"), d)
  else source_tx id (Wrapf "begin source session: CAS") (Wrapf "begin source session: commit result") f
         (session_begin source expectedActive newID) d.

(** Reads run in a read-only transaction. *)
Definition source_read {A} (f : fault) (body : Tx A) (d : source_db) : result A :=
  match f with
  | FailBegin e | FailStatement e | FailCommit e _ => Err e
  | NoFault => (body d).1
  end.
Definition take_source (source : SourceID) : Tx sourceRow :=
  row ← st_gets (λ d, sd_sources d !! source);
  match row with Some row => mret row | None => st_fail record_not_found end.
Definition session_state (source : SourceID) : Tx (SourceSessionID * option SourceCheckpoint) :=
  row ← st_wrap "load source session: source" (take_source source);
  checkpoint ← st_wrap "load source session: checkpoint" (loadSourceCheckpoint source);
  mret (default EmptyString (sr_ActiveSessionID row), checkpoint).
Definition LoadSourceSessionState (source : SourceID) (f : fault) (d : source_db)
    : result (SourceSessionID * option SourceCheckpoint) :=
  if is_empty source then Err (Errorf "load source session: source id is required")
  else source_read f (session_state source) d.
Definition ConfirmSourceSession (source : SourceID) (intendedID : SourceSessionID) (f : fault) (d : source_db)
    : result (SourceSession * option SourceCheckpoint) :=
  if negb (isLowerHex128 intendedID)
  then Err (Errorf "confirm source session: valid intended identity is required")
  else match LoadSourceSessionState source f d with
       | Err e => Err e
       | Ok (active, checkpoint) =>
         if negb (bool_decide (active = intendedID)) then Err (Wrapf "source %q" ErrSourceSessionConflict)
         else Ok (MkSourceSession source intendedID, checkpoint)
       end.

(** ** File generations *)
Definition insert_generation (g : FileGeneration) : Tx unit :=
  d ← st_get;
  match sd_generations d !! (fg_SourceID g, fg_Generation g) with
  | Some _ => mret tt
  | None => write_generation (fg_SourceID g, fg_Generation g) (newSourceFileGenerationRow g)
  end.
Definition RegisterFileGeneration (g : FileGeneration) (f : statement_fault) (d : source_db)
    : result unit * source_db :=
  let key := (fg_SourceID g, fg_Generation g) in
  match validateNewFileGeneration g with
  | Err e => (Err (Wrapf "register file generation" e), d)
  | Ok _ =>
    match source_write f (Wrapf "register file generation %q") (insert_generation g) d with
    | (Err e, d) => (Err e, d)
    | (Ok _, d) =>
      match f, sd_generations d !! key with
      | FailRead e, _ => (Err (Wrapf "load file generation %q" e), d)
      | _, None => (Err (Errorf "register file generation %q: read back missing"), d)
      | _, Some row =>
        let persisted := fileGenerationFromRow key row in
        (fail_if (negb (fg_DeviceID persisted =? fg_DeviceID g) || negb (fg_Inode persisted =? fg_Inode g)
                  || negb (bool_decide (fg_Path persisted = fg_Path g))
                  || negb (fg_ObservedSize persisted =? fg_ObservedSize g)
                  || negb (UnixMicro (fg_OpenedAt persisted) =? UnixMicro (fg_OpenedAt g)))
                 (Errorf "register file generation %q: immutable identity differs");;
         fail_if (negb (bool_decide (fg_State persisted = FileGenerationOpen)))
                 (Wrapf "generation %q is already %s" ErrFileGenerationTransition), d)
      end
    end
  end.

Definition generation_less (l r : FileGeneration) : bool :=
  if TimeEqual (fg_OpenedAt l) (fg_OpenedAt r) then String.ltb (fg_Generation l) (fg_Generation r)
  else Before (fg_OpenedAt l) (fg_OpenedAt r).
Definition loadRecoverableFileGenerations (source : SourceID) : Tx (list FileGeneration) :=
  st_gets (λ d, sort_slice generation_less
    ((λ '(g, r), fileGenerationFromRow (source, g) r) <$>
       base.filter (λ p, gr_State p.2 ≠ FileGenerationRetired) (source_gens source d))).
Definition LoadRecoverableFileGenerations (source : SourceID) (f : fault) (d : source_db)
    : result (list FileGeneration) :=
  if is_empty source then Err (Errorf "load file generations: source id is required")
  else source_read f (loadRecoverableFileGenerations source) d.

Definition drain_if_open (source : SourceID) (generation : string) (at_ : Z) : Tx bool :=
  update_generation (source, generation) (λ r, in_state FileGenerationOpen r && (gr_OpenedAtUS r <=? at_))
    (drain_row at_).
Definition AdvanceFileGeneration (source : SourceID) (generation : string) (from to : FileGenerationState)
    (at_ : time) (f : statement_fault) (d : source_db) : result unit * source_db :=
  if is_empty source || negb (isLowerHex128 generation) || IsZero at_
  then (Err (Errorf "advance file generation: identity and time are required"), d)
  else if negb (bool_decide (from = FileGenerationOpen)) || negb (bool_decide (to = FileGenerationDraining))
  then (Err (Wrapf "%s -> %s" ErrFileGenerationTransition), d)
  else
    match source_write f (Wrapf "advance file generation %q")
            (drain_if_open source generation (UnixMicro at_)) d with
    | (Err e, d) => (Err e, d)
    | (Ok affected, d) =>
      (fail_if (negb affected) (Wrapf "generation %q is not in %s" ErrFileGenerationTransition), d)
    end.

Definition sealFileGeneration (source : SourceID) (generation : string) (from : FileGenerationState)
    (finalEOF maxSequence : Z) (sealedAt : time) (sessionBound : bool) : Tx bool :=
  update_generation (source, generation)
    (λ r, in_state from r && (sessionBound || is_null (gr_DurableEndOffset r))
          && (if bool_decide (from = FileGenerationDraining)
              then match gr_DrainingAtUS r with Some t => t <=? UnixMicro sealedAt | None => false end
              else gr_OpenedAtUS r <=? UnixMicro sealedAt))
    (seal_row finalEOF maxSequence (UnixMicro sealedAt)).
Definition not_sealed : error := Wrapf "generation %q is not in %s or time regressed" ErrFileGenerationTransition.
Definition seal_from (from : FileGenerationState) : bool :=
  bool_decide (from = FileGenerationOpen) || bool_decide (from = FileGenerationDraining).
Definition SealFileGeneration (source : SourceID) (generation : string) (from : FileGenerationState)
    (finalEOF maxSequence : Z) (sealedAt : time) (f : statement_fault) (d : source_db)
    : result unit * source_db :=
  if is_empty source || negb (isLowerHex128 generation) || IsZero sealedAt || (max_int64 <? finalEOF)
     || (max_int64 <? maxSequence)
  then (Err (Errorf "seal file generation: identity, SQLite-range high-water, and time are required"), d)
  else if negb (seal_from from) then (Err (Wrapf "%s -> %s" ErrFileGenerationTransition), d)
  else
    match source_write f (Wrapf "seal file generation %q")
            (sealFileGeneration source generation from finalEOF maxSequence sealedAt false) d with
    | (Err e, d) => (Err e, d)
    | (Ok affected, d) => (fail_if (negb affected) not_sealed, d)
    end.
Definition SealFileGenerationWithSession (session : SourceSession) (generation : string)
    (from : FileGenerationState) (finalEOF maxSequence : Z) (sealedAt : time) (f : fault) (d : source_db)
    : result unit * source_db :=
  if negb (isLowerHex128 generation) || IsZero sealedAt || (max_int64 <? finalEOF) || (max_int64 <? maxSequence)
  then (Err (Errorf "seal generation: invalid range or time"), d)
  else if negb (seal_from from) then (Err (Wrapf "%s -> sealed" ErrFileGenerationTransition), d)
  else source_tx id id id f
         (lockSourceSession session;;
          affected ← sealFileGeneration (ss_SourceID session) generation from finalEOF maxSequence sealedAt true;
          guard affected not_sealed) d.

Definition rotate_body (source : SourceID) (oldGeneration : string) (next : FileGeneration) (rotatedAt : time)
    : Tx unit :=
  drained ← drain_if_open source oldGeneration (UnixMicro rotatedAt);
  guard drained (Wrapf "generation %q is not Open or time regressed" ErrFileGenerationTransition);;
  d ← st_get;
  guard (is_null (sd_generations d !! (fg_SourceID next, fg_Generation next))) constraint_failed;;
  write_generation (fg_SourceID next, fg_Generation next) (newSourceFileGenerationRow next).
Definition RotateFileGeneration (source : SourceID) (oldGeneration : string) (next : FileGeneration)
    (rotatedAt : time) (f : fault) (d : source_db) : result unit * source_db :=
  if is_empty source || negb (isLowerHex128 oldGeneration) || IsZero rotatedAt
     || negb (bool_decide (fg_SourceID next = source))
  then (Err (Errorf "rotate file generation: identity and time are required"), d)
  else match validateNewFileGeneration next with
  | Err e => (Err (Wrapf "rotate file generation" e), d)
  | Ok _ =>
    if negb (UnixMicro (fg_OpenedAt next) =? UnixMicro rotatedAt)
    then (Err (Errorf "rotate file generation: replacement opened time must equal rotation time"), d)
    else source_tx (Wrapf "rotate file generation: begin") (Wrapf "rotate file generation %q")
           (Wrapf "rotate file generation %q: commit") f (rotate_body source oldGeneration next rotatedAt) d
  end.

Definition references (generation : string) (p : position_columns) : bool :=
  bool_decide (pc_Generation p = Some generation).
Definition receipt_references (source : SourceID) (generation : string) (d : source_db) : nat :=
  length (base.filter (λ r : processingReceiptRow,
            rr_source r = source ∧ references generation (rr_position r) = true)
            (snd <$> map_to_list (sd_receipts d))).
Definition checkpoint_references (source : SourceID) (generation : string) (d : source_db) : bool :=
  match sd_checkpoints d !! source with
  | Some c => references generation (cr_Position c)
  | None => false
  end.
Definition retire_body (source : SourceID) (generation : string) (retiredAt : time) : Tx unit :=
  record ← loadFileGeneration source generation;
  match record with
  | None => st_fail (Wrapf "generation %q is not sealed" ErrFileGenerationTransition)
  | Some record =>
    guard (bool_decide (fg_State record = FileGenerationSealed))
          (Wrapf "generation %q is not sealed" ErrFileGenerationTransition);;
    guard (match fg_SealedAt record with Some t => negb (Before retiredAt t) | None => false end)
          (Wrapf "generation %q retirement predates sealing" ErrFileGenerationTransition);;
    receipts ← st_gets (receipt_references source generation);
    guard (Nat.eqb receipts 0) (Wrapf "generation %q has %d receipt references" ErrFileGenerationReferenced);;
    guard (CoverageComplete record)
          (Wrapf "generation %q has no complete durable prefix" ErrFileGenerationNotDurable);;
    checkpoints ← st_gets (checkpoint_references source generation);
    guard (negb checkpoints) (Wrapf "generation %q is the recovery checkpoint" ErrFileGenerationReferenced);;
    affected ← update_generation (source, generation) (in_state FileGenerationSealed)
                 (retire_row (UnixMicro retiredAt));
    guard affected (Wrapf "generation %q is not sealed" ErrFileGenerationTransition)
  end.
Definition RetireFileGeneration (source : SourceID) (generation : string) (retiredAt : time) (f : fault)
    (d : source_db) : result unit * source_db :=
  if is_empty source || negb (isLowerHex128 generation) || IsZero retiredAt
  then (Err (Errorf "retire file generation: identity and time are required"), d)
  else source_tx (Wrapf "retire file generation %q: begin") (Wrapf "retire file generation %q")
         (Wrapf "retire file generation %q: commit") f (retire_body source generation retiredAt) d.

(** ** Checkpoints and coverage *)
Definition validateCheckpointPosition (source : SourceID) (position : SourcePosition) : Tx unit :=
  row ← st_wrap "load source kind" (take_source source);
  match SourcePosition_File position with
  | Some file =>
    guard (bool_decide (sr_Kind row = SourceKindFile))
          (Wrapf "file position requires file source" ErrSourcePositionMismatch);;
    generation ← st_gets (λ d, sd_generations d !! (source, fp_Generation file));
    match generation with
    | None => st_fail (Wrapf "load file generation" ErrSourcePositionMismatch)
    | Some generation =>
      guard (negb (in_state FileGenerationRetired generation) && (gr_DeviceID generation =? fp_DeviceID file)
             && (gr_Inode generation =? fp_Inode file))
            (Wrapf "file generation identity or lifecycle differs" ErrSourcePositionMismatch)
    end
  | None =>
    match SourcePosition_Journald position with
    | Some _ => guard (bool_decide (sr_Kind row = SourceKindJournald))
                  (Wrapf "journald position requires journald source" ErrSourcePositionMismatch)
    | None => st_fail (Wrapf "unsupported position" ErrSourcePositionMismatch)
    end
  end.

(** The upsert of a checkpoint, with its conditional update, the references and
    the trigger; it returns whether a row was affected. *)
Definition references_live (source : SourceID) (p : position_columns) (d : source_db) : bool :=
  match pc_Generation p with
  | Some g => match sd_generations d !! (source, g) with
              | Some r => negb (in_state FileGenerationRetired r)
              | None => false
              end
  | None => true
  end.
Definition supersedes (new current : sourceCheckpointRow) : bool :=
  is_null (cr_SessionID current) || negb (bool_decide (cr_SessionID current = cr_SessionID new))
  || (cr_DeliverySequence current <? cr_DeliverySequence new).
Definition upsert_checkpoint (source : SourceID) (row : sourceCheckpointRow) : Tx bool :=
  d ← st_get;
  guard (checkpoint_check row && bool_decide (is_Some (sd_sources d !! source))
         && references_live source (cr_Position row) d) constraint_failed;;
  match sd_checkpoints d !! source with
  | Some current =>
    if supersedes row current
    then st_put (set_checkpoints d (<[source := row]> (sd_checkpoints d)));; mret true
    else mret false
  | None => st_put (set_checkpoints d (<[source := row]> (sd_checkpoints d)));; mret true
  end.

Definition covers_last (span last : FilePosition) : bool :=
  bool_decide (fp_Generation span = fp_Generation last) && (fp_DeviceID span =? fp_DeviceID last)
  && (fp_Inode span =? fp_Inode last) && (fp_StartOffset span <=? fp_StartOffset last)
  && (fp_EndOffset last <=? fp_EndOffset span).
Fixpoint cover_spans (session : SourceSession) (last : FilePosition) (advancing : bool)
    (ranges : list FilePosition) : Tx bool :=
  match ranges with
  | [] => mret false
  | span :: rest =>
    guard (isLowerHex128 (fp_Generation span) && (fp_StartOffset span <=? fp_EndOffset span)
           && (fp_EndOffset span <=? max_int64) && (fp_DeviceID span <=? max_int64)
           && (fp_Inode span <=? max_int64)) (Wrapf "invalid coverage range" ErrSourcePositionMismatch);;
    generation ← loadFileGeneration (ss_SourceID session) (fp_Generation span);
    match generation with
    | None => st_fail (Wrapf "coverage generation identity differs" ErrSourcePositionMismatch)
    | Some generation =>
      guard (negb (bool_decide (fg_State generation = FileGenerationRetired))
             && (fg_DeviceID generation =? fp_DeviceID span) && (fg_Inode generation =? fp_Inode span))
            (Wrapf "coverage generation identity differs" ErrSourcePositionMismatch);;
      match fg_DurableEndOffset generation with
      | None => st_fail (Wrapf "unknown prefix, gap or sealed boundary exceeded" ErrFileGenerationNotDurable)
      | Some durable =>
        guard ((fp_StartOffset span <=? durable)
               && match fg_FinalEOF generation with Some eof => fp_EndOffset span <=? eof | None => true end)
              (Wrapf "unknown prefix, gap or sealed boundary exceeded" ErrFileGenerationNotDurable);;
        (if fp_EndOffset span <=? durable then mret tt
         else
           guard advancing (Wrapf "equal sequence cannot extend coverage" ErrCheckpointRegression);;
           _ ← update_generation (ss_SourceID session, fp_Generation span) (λ _, true)
                 (cover_row (fp_EndOffset span) (ss_ID session));
           mret tt);;
        others ← cover_spans session last advancing rest;
        mret (covers_last span last || others)
      end
    end
  end.
Definition advanceFileCoverage (session : SourceSession) (position : SourcePosition)
    (ranges : list FilePosition) (advancing : bool) : Tx unit :=
  match SourcePosition_File position, ranges with
  | Some last, _ :: _ =>
    lastCovered ← cover_spans session last advancing ranges;
    guard lastCovered (Wrapf "last checkpoint position absent from coverage" ErrFileGenerationNotDurable)
  | _, _ => st_fail (Wrapf "file coverage ranges required" ErrFileGenerationNotDurable)
  end.

Definition coverage_known (source : SourceID) (d : source_db) : bool :=
  existsb (λ p, negb (is_null (gr_DurableEndOffset p.2))) (source_gens source d).
Definition checkpoint_row (session : SourceSession) (sequence : Z) (encoded : position_columns)
    (persistedAt : time) : sourceCheckpointRow :=
  MkCheckpointRow (Some (ss_ID session)) sequence encoded (UnixMicro persistedAt).
Definition advance_body (session : SourceSession) (sequence : Z) (position : SourcePosition)
    (encoded : position_columns) (ranges : list FilePosition) (coverage : bool) (persistedAt : time) : Tx unit :=
  let source := ss_SourceID session in
  active ← update_session source (Some (ss_ID session)) (ss_ID session);
  guard active (Wrapf "source %q" ErrStaleSourceSession);;
  st_wrap "advance source checkpoint %q" (validateCheckpointPosition source position);;
  known ← st_gets (coverage_known source);
  guard (coverage || negb known) (Wrapf "coverage checkpoint is required" ErrFileGenerationNotDurable);;
  affected ← upsert_checkpoint source (checkpoint_row session sequence encoded persistedAt);
  (if (affected : bool) then mret tt
   else
     current ← st_wrap "advance source checkpoint %q: verify CAS" (loadSourceCheckpoint source);
     guard (match current with
            | Some c => bool_decide (sc_SessionID c = ss_ID session) && (sc_DeliverySequence c =? sequence)
                        && bool_decide (sc_Position c = position)
            | None => false
            end) (Wrapf "source %q current sequence %d, attempted %d" ErrCheckpointRegression));;
  if coverage then advanceFileCoverage session position ranges affected else mret tt.
Definition advanceSourceCheckpoint (session : SourceSession) (sequence : Z) (position : SourcePosition)
    (ranges : list FilePosition) (coverage : bool) (persistedAt : time) (f : fault) (d : source_db)
    : result unit * source_db :=
  if is_empty (ss_SourceID session) || negb (isLowerHex128 (ss_ID session)) || (sequence =? 0)
     || (max_int64 <? sequence)
  then (Err (Errorf "advance source checkpoint: source and positive SQLite-range sequence are required"), d)
  else if IsZero persistedAt then (Err (Errorf "advance source checkpoint: persisted time is required"), d)
  else match encodePosition position with
  | Err e => (Err (Wrapf "advance source checkpoint" e), d)
  | Ok encoded =>
    source_tx (Wrapf "advance source checkpoint: begin") (Wrapf "advance source checkpoint %q")
      (λ e, Wrapf "source %q" (Join ErrSourceCheckpointCommitUncertain e)) f
      (advance_body session sequence position encoded ranges coverage persistedAt) d
  end.
Definition AdvanceSourceCheckpoint (session : SourceSession) (sequence : Z) (position : SourcePosition)
    (persistedAt : time) : fault → source_db → result unit * source_db :=
  advanceSourceCheckpoint session sequence position [] false persistedAt.
Definition AdvanceSourceCheckpointWithCoverage (session : SourceSession) (sequence : Z)
    (position : SourcePosition) (ranges : list FilePosition) (persistedAt : time)
    : fault → source_db → result unit * source_db :=
  advanceSourceCheckpoint session sequence position ranges true persistedAt.
Definition LoadSourceCheckpoint (source : SourceID) (f : fault) (d : source_db)
    : result (option SourceCheckpoint) := source_read f (loadSourceCheckpoint source) d.

Definition initialize_body (session : SourceSession) (generation : string) : Tx unit :=
  lockSourceSession session;;
  persisted ← loadFileGeneration (ss_SourceID session) generation;
  match persisted with
  | None => st_fail (Wrapf "coverage generation unavailable" ErrSourcePositionMismatch)
  | Some persisted =>
    guard (negb (bool_decide (fg_State persisted = FileGenerationRetired)))
          (Wrapf "coverage generation unavailable" ErrSourcePositionMismatch);;
    if is_null (fg_DurableEndOffset persisted)
    then _ ← st_wrap "initialize coverage"
               (update_generation (ss_SourceID session, generation) (λ _, true) (cover_row 0 (ss_ID session)));
         mret tt
    else mret tt
  end.
Definition InitializeFileGenerationCoverage (session : SourceSession) (generation : string) (f : fault)
    (d : source_db) : result unit * source_db :=
  if negb (isLowerHex128 generation) then (Err (Errorf "initialize coverage: invalid generation"), d)
  else source_tx id id id f (initialize_body session generation) d.

Record coverage_state := MkCoverageState {
  cs_active : SourceSessionID;
  cs_checkpoint : option SourceCheckpoint;
  cs_generations : list FileGeneration
}.
Definition coverage_body (source : SourceID) : Tx coverage_state :=
  row ← take_source source;
  checkpoint ← loadSourceCheckpoint source;
  generations ← loadRecoverableFileGenerations source;
  mret (MkCoverageState (default EmptyString (sr_ActiveSessionID row)) checkpoint generations).
Definition LoadSourceCoverageState (source : SourceID) (f : fault) (d : source_db) : result coverage_state :=
  if is_empty source then Err (Errorf "source id is required")
  else source_read f (coverage_body source) d.

(** ** The state store bound to a session (internal/source/sqlite_state.go) *)
Definition range_confirmed (generations : list FileGeneration) (span : FilePosition) : bool :=
  existsb (λ g, bool_decide (fg_Generation g = fp_Generation span) && (fg_DeviceID g =? fp_DeviceID span)
                && (fg_Inode g =? fp_Inode span)
                && match fg_DurableEndOffset g with Some v => fp_EndOffset span <=? v | None => false end)
    generations.
Definition checkpointConfirmed (session : SourceSession) (sequence : Z) (position : SourcePosition)
    (ranges : list FilePosition) (f : fault) (d : source_db) : result bool :=
  state ← LoadSourceCoverageState (ss_SourceID session) f d;
  Ok (bool_decide (cs_active state = ss_ID session)
      && match cs_checkpoint state with
         | Some c => bool_decide (sc_SessionID c = ss_ID session) && (sc_DeliverySequence c =? sequence)
                     && bool_decide (sc_Position c = position)
         | None => false
         end
      && forallb (range_confirmed (cs_generations state)) ranges).
(** [now] is the clock's answer, [f] the fate of the transaction and [f'] of the
    read that follows an uncertain commit. *)
Definition saveCheckpoint (session : SourceSession) (now : time) (f f' : fault) (source : SourceID)
    (sequence : Z) (position : SourcePosition) (ranges : list FilePosition) (d : source_db)
    : result unit * source_db :=
  if negb (bool_decide (source = ss_SourceID session))
  then (Err (Errorf "checkpoint source does not match bound session"), d)
  else
    let '(r, d') :=
      match SourcePosition_Journald position, ranges with
      | Some _, [] => AdvanceSourceCheckpoint session sequence position now f d
      | _, _ => AdvanceSourceCheckpointWithCoverage session sequence position ranges now f d
      end in
    match r with
    | Ok _ => (Ok tt, d')
    | Err e =>
      if negb (errors_Is e ErrSourceCheckpointCommitUncertain) then (Err e, d')
      else match checkpointConfirmed session sequence position ranges f' d' with
      | Err readErr => (Err (Join e (Wrapf "confirm source coverage" readErr)), d')
      | Ok confirmed => (if confirmed then Ok tt else Err e, d')
      end
    end.
Definition RotateWithClock (source : SourceID) (oldGeneration : string) (next : FileGeneration) (now : time)
    : fault → source_db → result unit * source_db :=
  RotateFileGeneration source oldGeneration
    (MkFileGeneration (fg_DurableEndOffset next) (fg_CoverageSessionID next) (fg_SourceID next)
       (fg_Generation next) (fg_DeviceID next) (fg_Inode next) (fg_Path next) (fg_State next)
       (fg_ObservedSize next) (fg_FinalEOF next) (fg_MaxDeliverySequence next) now (fg_DrainingAt next)
       (fg_SealedAt next) (fg_RetiredAt next)) now.

(** ** Receipts *)
Definition insert_receipt (id : DeliveryID) (row : processingReceiptRow) : Tx unit :=
  d ← st_get;
  guard (is_null (sd_receipts d !! id) && receipt_check row && bool_decide (is_Some (sd_sources d !! rr_source row))
         && references_live (rr_source row) (rr_position row) d) constraint_failed;;
  st_put (set_receipts d (<[id := row]> (sd_receipts d))).
