(* ===== verification/SourceHistory.v ===== *)
(** * What the durable source state never loses (internal/store/source_state.go,
    source_coverage.go, source_session.go)

    Histories of operations of the store, each with any fate of its transaction.
    The theorems: checkpoints do not regress within a session and a superseded
    session cannot write; the life cycle of a file generation only moves forward,
    with its durable prefix growing and its final size fixed; and a generation is
    retired only when every byte of it has been covered by saved ranges, with no
    receipt and no checkpoint referring to it, then or later. *)

From S2P Require Import Prelude GoStd Sha256 Netip Identity CoreModel ObservedState ReconcilePlan.
From S2P Require Import ObservedStore ReconcileStore SourceStore.

(** ** Operations *)
Inductive source_op :=
  | OpEnsure (source : SourceID) (node : NodeID) (kind : SourceKind) (now : time) (f : statement_fault)
  | OpBegin (source : SourceID) (expected newID : SourceSessionID) (f : fault)
  | OpRegister (g : FileGeneration) (f : statement_fault)
  | OpDrain (source : SourceID) (generation : string) (from to : FileGenerationState) (at_ : time)
      (f : statement_fault)
  | OpSeal (source : SourceID) (generation : string) (from : FileGenerationState) (eof sequence : Z)
      (at_ : time) (f : statement_fault)
  | OpSealSession (session : SourceSession) (generation : string) (from : FileGenerationState)
      (eof sequence : Z) (at_ : time) (f : fault)
  | OpRotate (source : SourceID) (old : string) (next : FileGeneration) (at_ : time) (f : fault)
  | OpRetire (source : SourceID) (generation : string) (at_ : time) (f : fault)
  | OpInitialize (session : SourceSession) (generation : string) (f : fault)
  | OpSave (session : SourceSession) (now : time) (f f' : fault) (source : SourceID) (sequence : Z)
      (position : SourcePosition) (ranges : list FilePosition)
  | OpReceipt (id : DeliveryID) (row : processingReceiptRow).

Definition run_op (op : source_op) (d : source_db) : source_db :=
  match op with
  | OpEnsure source node kind now f => (EnsureSource source node kind now f d).2
  | OpBegin source expected newID f => (BeginSourceSession source expected newID f d).2
  | OpRegister g f => (RegisterFileGeneration g f d).2
  | OpDrain source generation from to at_ f => (AdvanceFileGeneration source generation from to at_ f d).2
  | OpSeal source generation from eof sequence at_ f =>
    (SealFileGeneration source generation from eof sequence at_ f d).2
  | OpSealSession session generation from eof sequence at_ f =>
    (SealFileGenerationWithSession session generation from eof sequence at_ f d).2
  | OpRotate source old next at_ f => (RotateFileGeneration source old next at_ f d).2
  | OpRetire source generation at_ f => (RetireFileGeneration source generation at_ f d).2
  | OpInitialize session generation f => (InitializeFileGenerationCoverage session generation f d).2
  | OpSave session now f f' source sequence position ranges =>
    (saveCheckpoint session now f f' source sequence position ranges d).2
  | OpReceipt id row => match insert_receipt id row d with (Ok _, d') => d' | (Err _, _) => d end
  end.
Definition run_ops (ops : list source_op) (d : source_db) : source_db := foldl (λ d op, run_op op d) d ops.

(** ** What an effect on the database is made of *)
Definition same_identity (r r' : sourceFileGenerationRow) : Prop :=
  gr_DeviceID r' = gr_DeviceID r ∧ gr_Inode r' = gr_Inode r ∧ gr_Path r' = gr_Path r ∧
  gr_ObservedSize r' = gr_ObservedSize r ∧ gr_OpenedAtUS r' = gr_OpenedAtUS r.
Definition rank (r : sourceFileGenerationRow) : Z :=
  if in_state FileGenerationOpen r then 0 else if in_state FileGenerationDraining r then 1
  else if in_state FileGenerationSealed r then 2 else 3.
Definition active (source : SourceID) (d : source_db) : option SourceSessionID :=
  sd_sources d !! source ≫= sr_ActiveSessionID.

(** [ranges] are those of the checkpoint being saved: coverage grows to the end of
    one of them, which starts within the prefix that is already covered. *)
Inductive grown (ranges : list FilePosition) (g : string) : option Z → option Z → Prop :=
  | grown_same v : grown ranges g v v
  | grown_start : grown ranges g None (Some 0)
  | grown_by v span :
      span ∈ ranges → fp_Generation span = g → fp_StartOffset span ≤ v → v < fp_EndOffset span →
      grown ranges g (Some v) (Some (fp_EndOffset span)).
Record row_step (ranges : list FilePosition) (g : string) (r r' : sourceFileGenerationRow) : Prop := {
  rs_identity : same_identity r r';
  rs_rank : rank r ≤ rank r';
  rs_eof e : gr_FinalEOF r = Some e → gr_FinalEOF r' = Some e;
  rs_durable : grown ranges g (gr_DurableEndOffset r) (gr_DurableEndOffset r');
  rs_frozen : gr_State r = FileGenerationRetired → r' = r
}.

Inductive effect (who : option SourceID) (ranges : list FilePosition) : source_db → source_db → Prop :=
  | ef_source s row d :
      sd_sources d !! s = None → sr_ActiveSessionID row = None →
      effect who ranges d (set_sources d (<[s := row]> (sd_sources d)))
  | ef_session s row session d :
      who = Some s → sd_sources d !! s = Some row →
      effect who ranges d (set_sources d (<[s := with_session session row]> (sd_sources d)))
  | ef_new key r d :
      sd_generations d !! key = None → gr_State r = FileGenerationOpen → gr_DurableEndOffset r = None →
      (write_generation key r d).1 = Ok tt →
      effect who ranges d (set_generations d (<[key := r]> (sd_generations d)))
  | ef_row key r r' d :
      sd_generations d !! key = Some r → row_step ranges key.2 r r' →
      gr_State r' ≠ FileGenerationRetired → (write_generation key r' d).1 = Ok tt →
      effect who ranges d (set_generations d (<[key := r']> (sd_generations d)))
  | ef_retire key r at_ d :
      sd_generations d !! key = Some r → gr_State r = FileGenerationSealed →
      gr_DurableEndOffset r = gr_FinalEOF r → receipt_references key.1 key.2 d = 0%nat →
      checkpoint_references key.1 key.2 d = false → (write_generation key (retire_row at_ r) d).1 = Ok tt →
      effect who ranges d (set_generations d (<[key := retire_row at_ r]> (sd_generations d)))
  | ef_checkpoint s row d :
      active s d = cr_SessionID row → is_Some (cr_SessionID row) →
      upsert_checkpoint s row d = (Ok true, set_checkpoints d (<[s := row]> (sd_checkpoints d))) →
      effect who ranges d (set_checkpoints d (<[s := row]> (sd_checkpoints d)))
  | ef_receipt id row d :
      insert_receipt id row d = (Ok tt, set_receipts d (<[id := row]> (sd_receipts d))) →
      effect who ranges d (set_receipts d (<[id := row]> (sd_receipts d))).
Abbreviation effects who ranges := (rtc (effect who ranges)).

(** Decide comparisons of the state names. *)
Ltac states := repeat first
  [ match goal with H : context [bool_decide (?a = ?b)] |- _ =>
      let v := eval vm_compute in (bool_decide (a = b)) in
      match v with true => idtac | false => idtac end; change (bool_decide (a = b)) with v in H end
  | match goal with |- context [bool_decide (?a = ?b)] =>
      let v := eval vm_compute in (bool_decide (a = b)) in
      match v with true => idtac | false => idtac end; change (bool_decide (a = b)) with v end ].

(** ** What each statement does *)
Lemma guard_inv b e d x d' : guard b e d = (Ok x, d') → b = true ∧ d' = d.
Proof. unfold guard. destruct b; [by intros [= _ <-]|done]. Qed.
Lemma set_generations_id d m m' : set_generations (set_generations d m) m' = set_generations d m'.
Proof. done. Qed.

Ltac guard_step H := let Hg := fresh "Hg" in
  st_step H as [] ?d Hg; apply guard_inv in Hg as [Hg ->].

Lemma write_generation_inv key r d x d' :
  write_generation key r d = (Ok x, d') →
  d' = set_generations d (<[key := r]> (sd_generations d)) ∧ (write_generation key r d).1 = Ok tt.
Proof.
  intros Hw. split; [|rewrite Hw; by destruct x]. revert Hw. unfold write_generation. autorewrite with st.
  intros Hw. st_step Hw as [] d1 Hg. apply guard_inv in Hg as [_ ->]. by injection Hw as _ <-.
Qed.
Lemma write_generation_checks key r d :
  (write_generation key r d).1 = Ok tt →
  generation_check key.2 r = true ∧ unique_generation key d = true ∧ one_open key r d = true ∧
  is_Some (sd_sources d !! key.1).
Proof.
  destruct (write_generation key r d) as [x d'] eqn:Hw. cbn. intros ->. revert Hw.
  unfold write_generation. autorewrite with st. intros Hw. st_step Hw as [] d1 Hg.
  apply guard_inv in Hg as [Hg _]. gobool. tauto.
Qed.

Lemma update_generation_inv key cond f d b d' :
  update_generation key cond f d = (Ok b, d') →
  (b = false ∧ d' = d ∧ ∀ r, sd_generations d !! key = Some r → cond r = false) ∨
  b = true ∧ ∃ r, sd_generations d !! key = Some r ∧ cond r = true ∧
    (write_generation key (f r) d).1 = Ok tt ∧ d' = set_generations d (<[key := f r]> (sd_generations d)).
Proof.
  unfold update_generation. autorewrite with st. destruct (sd_generations d !! key) as [r|].
  - destruct (cond r) eqn:Hc.
    + intros Hr. st_step Hr as x d1 Hw. apply write_generation_inv in Hw as [-> Hw].
      injection Hr as <- <-. right. split; [done|]. by exists r.
    + intros [= <- <-]. left. split; [done|]. split; [done|]. by intros ? [= <-].
  - intros [= <- <-]. by left.
Qed.

Lemma update_session_inv s expected session d b d' :
  update_session s expected session d = (Ok b, d') →
  b = false ∧ d' = d ∨
  b = true ∧ ∃ row, sd_sources d !! s = Some row ∧ sr_ActiveSessionID row = expected ∧
    d' = set_sources d (<[s := with_session session row]> (sd_sources d)).
Proof.
  unfold update_session. autorewrite with st. destruct (sd_sources d !! s) as [row|].
  - case_bool_decide as Hc; intros Hr.
    + st_step Hr as x d1 Hw. injection Hw as _ <-. injection Hr as <- <-. right. split; [done|]. by exists row.
    + injection Hr as <- <-. by left.
  - intros [= <- <-]. by left.
Qed.

(** Locking a session writes the row as it is. *)
Lemma lock_id s row session d :
  sd_sources d !! s = Some row → sr_ActiveSessionID row = Some session →
  set_sources d (<[s := with_session session row]> (sd_sources d)) = d.
Proof.
  intros Hs Ha. assert (with_session session row = row) as -> by (destruct row; cbn in Ha; by rewrite Ha).
  rewrite insert_id by done. by destruct d.
Qed.
Lemma lock_update s session d d' :
  update_session s (Some session) session d = (Ok true, d') → d' = d ∧ active s d = Some session.
Proof.
  intros Hu. apply update_session_inv in Hu as [[? _]|(_ & row & Hs & Ha & ->)]; [done|].
  split; [by apply lock_id|]. unfold active. by rewrite Hs.
Qed.
Lemma lock_inv session d x d' :
  lockSourceSession session d = (Ok x, d') → d' = d ∧ active (ss_SourceID session) d = Some (ss_ID session).
Proof.
  unfold lockSourceSession. intros Hr. guard_step Hr. st_step Hr as b d2 Hu.
  apply guard_inv in Hr as [-> ->]. by apply lock_update in Hu.
Qed.

Lemma source_tx_case {A} (P : source_db → Prop) on_begin on_statement on_commit f (body : Tx A) d :
  P d → (∀ a d', body d = (Ok a, d') → P d') →
  P (source_tx on_begin on_statement on_commit f body d).2.
Proof.
  intros Hd Hb. unfold source_tx. destruct f as [|e|e|e persisted]; try done;
    destruct (body d) as [[a|e'] d1]; try done; cbn; [by eapply Hb|].
  destruct persisted; [by eapply Hb|done].
Qed.
Lemma source_write_inv {A} f op (body : Tx A) d :
  let '(r, d') := source_write f op body d in
  d' = d ∨ ∃ a, body d = (Ok a, d').
Proof.
  unfold source_write. destruct (body d) as [[a|e] d1]; [|by left].
  destruct f as [|e persisted|e]; [by right; exists a| |by right; exists a].
  destruct persisted; [by right; exists a|by left].
Qed.

(** ** Rows that pass their checks *)
Definition rows_ok (d : source_db) : Prop :=
  ∀ key r, sd_generations d !! key = Some r → generation_check key.2 r = true.
Lemma effect_rows who ranges d d' : effect who ranges d d' → rows_ok d → rows_ok d'.
Proof.
  assert (∀ key r d, (write_generation key r d).1 = Ok tt → rows_ok d →
            rows_ok (set_generations d (<[key := r]> (sd_generations d)))) as Hw.
  { intros key r d0 Hw Hok k x. cbn. rewrite lookup_insert_Some. intros [[<- <-]|[_ Hx]]; [|by apply Hok].
    by apply write_generation_checks in Hw as (? & _). }
  intros [] Hok; try exact Hok; by apply Hw.
Qed.
Lemma effects_rows who ranges d d' : effects who ranges d d' → rows_ok d → rows_ok d'.
Proof. induction 1; eauto using effect_rows. Qed.

Lemma check_state g r : generation_check g r = true → state_check r = true.
Proof. unfold generation_check. intros Hc. gobool. tauto. Qed.
Lemma unsealed_eof g r :
  generation_check g r = true → gr_State r = FileGenerationOpen ∨ gr_State r = FileGenerationDraining →
  gr_FinalEOF r = None.
Proof.
  intros Hc%check_state Hs. unfold state_check in Hc.
  destruct Hs as [Hs|Hs]; rewrite Hs in Hc; states;
    (destruct (gr_FinalEOF r); [|done]); cbn in Hc; by rewrite ?andb_false_r in Hc.
Qed.

(** ** Steps of a row *)
Section row_steps.
Context (ranges : list FilePosition) (g : string) (r : sourceFileGenerationRow).
Lemma rank_range (x : sourceFileGenerationRow) : 0 ≤ rank x ≤ 3.
Proof. unfold rank. repeat case_match; lia. Qed.
Lemma drain_step at_ : gr_State r = FileGenerationOpen → row_step ranges g r (drain_row at_ r).
Proof.
  intros Hs. split; cbn; try done.
  - unfold rank, in_state. cbn. rewrite Hs. states. done.
  - constructor.
  - rewrite Hs. done.
Qed.
Lemma seal_step eof sequence at_ :
  generation_check g r = true → gr_State r = FileGenerationOpen ∨ gr_State r = FileGenerationDraining →
  row_step ranges g r (seal_row eof sequence at_ r).
Proof.
  intros Hc Hs. pose proof (unsealed_eof g r Hc Hs) as He. split; cbn; try done.
  - unfold rank, in_state. cbn. destruct Hs as [Hs|Hs]; rewrite Hs; states; done.
  - congruence.
  - constructor.
  - destruct Hs as [Hs|Hs]; rewrite Hs; done.
Qed.
Lemma cover_step offset session :
  gr_State r ≠ FileGenerationRetired → grown ranges g (gr_DurableEndOffset r) (Some offset) →
  row_step ranges g r (cover_row offset session r).
Proof. intros Hs Hg. split; cbn; try done. Qed.
End row_steps.

Lemma in_state_iff state r : in_state state r = true ↔ gr_State r = state.
Proof. unfold in_state. apply bool_decide_eq_true. Qed.

(** ** The effect of each operation *)
Section effects.
Context (who : option SourceID) (ranges : list FilePosition).

Lemma drain_effect s g at_ d b d' :
  drain_if_open s g at_ d = (Ok b, d') → effects who ranges d d'.
Proof.
  intros Hu. apply update_generation_inv in Hu as [(_ & -> & _)|(_ & r & Hr & Hc & Hw & ->)]; [constructor|].
  gobool. destruct Hc as [Hs%in_state_iff _]. apply rtc_once. eapply (ef_row _ _ (s, g)); [done| |done|done].
  by apply drain_step.
Qed.
Lemma seal_effect s g from eof sequence at_ bound d b d' :
  rows_ok d → seal_from from = true →
  sealFileGeneration s g from eof sequence at_ bound d = (Ok b, d') → effects who ranges d d'.
Proof.
  intros Hok Hf Hu. apply update_generation_inv in Hu as [(_ & -> & _)|(_ & r & Hr & Hc & Hw & ->)]; [constructor|].
  unfold seal_from in Hf. gobool. destruct Hc as [[Hs%in_state_iff _] _].
  apply rtc_once. eapply (ef_row _ _ (s, g)); [done| |done|done].
  apply seal_step; [by apply (Hok (s, g))|]. rewrite Hs. tauto.
Qed.
Lemma new_row_effect s g (x : FileGeneration) d :
  sd_generations d !! (s, g) = None → (write_generation (s, g) (newSourceFileGenerationRow x) d).1 = Ok tt →
  effects who ranges d (set_generations d (<[(s, g) := newSourceFileGenerationRow x]> (sd_generations d))).
Proof. intros Hn Hw. apply rtc_once. by apply ef_new. Qed.
Lemma rotate_effect s old next at_ d x d' :
  rotate_body s old next at_ d = (Ok x, d') → effects who ranges d d'.
Proof.
  unfold rotate_body. intros Hr. st_step Hr as b d1 Hd. apply drain_effect in Hd. guard_step Hr.
  autorewrite with st in Hr. guard_step Hr. apply write_generation_inv in Hr as [-> Hw].
  etrans; [exact Hd|]. apply new_row_effect; [|done]. by destruct (sd_generations _ !! _).
Qed.
Lemma initialize_effect session g d x d' :
  initialize_body session g d = (Ok x, d') → effects who ranges d d'.
Proof.
  unfold initialize_body. intros Hr. st_step Hr as [] d1 Hl. apply lock_inv in Hl as [-> _].
  unfold loadFileGeneration in Hr. autorewrite with st in Hr.
  destruct (sd_generations d !! (ss_SourceID session, g)) as [r|] eqn:Hg; cbn in Hr; [|done].
  guard_step Hr. cbn in Hr. destruct (is_null (gr_DurableEndOffset r)) eqn:Hn.
  - st_step Hr as b d2 Hu. injection Hr as _ <-. unfold st_wrap in Hu.
    destruct (update_generation _ _ _ d) as [[b'|e] d3] eqn:Hu'; [|done]. injection Hu as -> ->.
    apply update_generation_inv in Hu' as [(_ & -> & _)|(_ & r' & Hr' & _ & Hw & ->)]; [constructor|].
    rewrite Hg in Hr'. injection Hr' as <-. gobool. apply rtc_once.
    eapply (ef_row _ _ (ss_SourceID session, g)); [done| |done|done]. apply cover_step; [done|].
    destruct (gr_DurableEndOffset r); [done|constructor].
  - injection Hr as _ <-. constructor.
Qed.
Lemma retire_effect s g at_ d x d' :
  retire_body s g at_ d = (Ok x, d') → effects who ranges d d'.
Proof.
  unfold retire_body, loadFileGeneration. autorewrite with st.
  destruct (sd_generations d !! (s, g)) as [r|] eqn:Hg; cbn; [|done]. intros Hr.
  guard_step Hr. guard_step Hr. autorewrite with st in Hr. guard_step Hr. guard_step Hr.
  autorewrite with st in Hr. guard_step Hr. st_step Hr as b d1 Hu. apply guard_inv in Hr as [-> ->].
  apply update_generation_inv in Hu as [(? & _)|(_ & r' & Hr' & Hs & Hw & ->)]; [done|].
  rewrite Hg in Hr'. injection Hr' as <-. apply in_state_iff in Hs. gobool.
  apply rtc_once. apply (ef_retire _ _ (s, g)); try done.
  - match goal with H : CoverageComplete _ = true |- _ => unfold CoverageComplete in H; cbn in H; rename H into Hcov end.
    destruct (gr_DurableEndOffset r), (gr_CoverageSessionID r), (gr_FinalEOF r); try done. gobool.
    destruct Hcov as [_ ->]. done.
  - cbn. by apply Nat.eqb_eq.
Qed.
End effects.

Lemma cover_effect who ranges session last advancing spans d b d' :
  spans ⊆ ranges → cover_spans session last advancing spans d = (Ok b, d') → effects who ranges d d'.
Proof.
  revert d b d'. induction spans as [|span spans IH]; intros d b d' Hsub; cbn [cover_spans].
  { intros [= _ <-]. constructor. }
  intros Hr. guard_step Hr. unfold loadFileGeneration in Hr. autorewrite with st in Hr.
  destruct (sd_generations d !! (ss_SourceID session, fp_Generation span)) as [r|] eqn:Hrow; cbn in Hr; [|done].
  guard_step Hr. destruct (gr_DurableEndOffset r) as [v|] eqn:Hv; [|done]. guard_step Hr.
  st_step Hr as [] d1 Hcov. st_step Hr as others d2 Hrest. injection Hr as _ <-.
  apply IH in Hrest; [|set_solver]. etrans; [|exact Hrest]. clear Hrest IH.
  destruct (Z.leb_spec (fp_EndOffset span) v) as [Hle|Hlt]; [injection Hcov as <-; constructor|].
  guard_step Hcov. st_step Hcov as b1 d3 Hu. injection Hcov as <-.
  apply update_generation_inv in Hu as [(_ & -> & _)|(_ & r' & Hr' & _ & Hw & ->)]; [constructor|].
  rewrite Hrow in Hr'. injection Hr' as <-. gobool. apply rtc_once.
  eapply (ef_row _ _ (ss_SourceID session, fp_Generation span)); [done| |tauto|done].
  apply cover_step; [tauto|]. rewrite Hv. apply grown_by; try done; [set_solver|tauto].
Qed.

Lemma upsert_inv s row d b d' :
  upsert_checkpoint s row d = (Ok b, d') →
  b = false ∧ d' = d ∨ b = true ∧ d' = set_checkpoints d (<[s := row]> (sd_checkpoints d)).
Proof.
  unfold upsert_checkpoint. autorewrite with st. intros Hr. guard_step Hr.
  destruct (sd_checkpoints _ !! s).
  - destruct (supersedes row _); [|injection Hr as <- <-; by left].
    st_step Hr as [] d1 Hp. injection Hp as <-. injection Hr as <- <-. by right.
  - st_step Hr as [] d1 Hp. injection Hp as <-. injection Hr as <- <-. by right.
Qed.

Lemma validate_inv s position d x d' : validateCheckpointPosition s position d = (Ok x, d') → d' = d.
Proof.
  unfold validateCheckpointPosition. intros Hr. st_step Hr as row d1 Ht. unfold st_wrap, take_source in Ht.
  autorewrite with st in Ht. destruct (sd_sources d !! s) as [row'|]; [|done]. injection Ht as -> ->.
  destruct (SourcePosition_File position).
  - guard_step Hr. autorewrite with st in Hr. destruct (sd_generations _ !! _); [|done].
    by apply guard_inv in Hr as [_ ->].
  - destruct (SourcePosition_Journald position); [|done]. by apply guard_inv in Hr as [_ ->].
Qed.
Lemma load_inv s d x d' : loadSourceCheckpoint s d = (Ok x, d') → d' = d.
Proof.
  unfold loadSourceCheckpoint. intros Hr. guard_step Hr. autorewrite with st in Hr.
  destruct (sd_checkpoints _ !! s); [|by injection Hr as _ <-].
  st_step Hr as p d1 Hp. apply lift_Ok_inv in Hp as [_ ->]. by injection Hr as _ <-.
Qed.
Lemma st_wrap_inv {A} msg (m : Tx A) d x d' : st_wrap msg m d = (Ok x, d') → m d = (Ok x, d').
Proof. unfold st_wrap. destruct (m d) as [[|] ?]; cbn; [by intros [= <- <-]|done]. Qed.

(** What a successful advance did: the session was active, the upsert either wrote
    the row or found it, and coverage followed. *)
Lemma advance_inv session sequence position encoded ranges coverage at_ d x d' :
  advance_body session sequence position encoded ranges coverage at_ d = (Ok x, d') →
  active (ss_SourceID session) d = Some (ss_ID session) ∧
  validateCheckpointPosition (ss_SourceID session) position d = (Ok tt, d) ∧
  ∃ affected d1,
    upsert_checkpoint (ss_SourceID session) (checkpoint_row session sequence encoded at_) d = (Ok affected, d1) ∧
    (affected = false → d1 = d ∧ ∃ c, loadSourceCheckpoint (ss_SourceID session) d = (Ok (Some c), d) ∧
       sc_SessionID c = ss_ID session ∧ sc_DeliverySequence c = sequence ∧ sc_Position c = position) ∧
    (if coverage then advanceFileCoverage session position ranges affected d1 = (Ok x, d') else d' = d1).
Proof.
  unfold advance_body. intros Hr. st_step Hr as b d1 Hl. guard_step Hr. subst b. apply lock_update in Hl as [-> Ha].
  split; [done|]. st_step Hr as [] d2 Hv. apply st_wrap_inv in Hv. pose proof (validate_inv _ _ _ _ _ Hv) as ->.
  split; [done|]. autorewrite with st in Hr. guard_step Hr. st_step Hr as affected d3 Hu.
  exists affected, d3. split; [done|]. st_step Hr as [] d4 Hc. destruct affected.
  - injection Hc as <-. split; [done|]. destruct coverage; [exact Hr|by injection Hr as _ <-].
  - st_step Hc as current d5 Hld. apply st_wrap_inv in Hld. pose proof (load_inv _ _ _ _ Hld) as ->.
    apply guard_inv in Hc as [Hc ->]. apply upsert_inv in Hu as [[_ ->]|[? _]]; [|done]. split.
    + intros _. split; [done|]. destruct current as [c|]; [|done]. gobool. exists c. split; [done|]. tauto.
    + destruct coverage; [exact Hr|by injection Hr as _ <-].
Qed.

Lemma coverage_inv session position ranges advancing d x d' :
  advanceFileCoverage session position ranges advancing d = (Ok x, d') →
  ∃ last, SourcePosition_File position = Some last ∧ cover_spans session last advancing ranges d = (Ok true, d').
Proof.
  unfold advanceFileCoverage. destruct (SourcePosition_File position) as [last|]; [|done].
  destruct ranges as [|span ranges]; [done|]. intros Hr. st_step Hr as b d1 Hc.
  apply guard_inv in Hr as [-> ->]. by exists last.
Qed.

Lemma advance_effect who ranges session sequence position encoded coverage at_ d x d' :
  advance_body session sequence position encoded ranges coverage at_ d = (Ok x, d') → effects who ranges d d'.
Proof.
  intros Hr. apply advance_inv in Hr as (Ha & _ & affected & d1 & Hu & _ & Hcov).
  assert (effects who ranges d d1) as H1.
  { pose proof Hu as Hu'. apply upsert_inv in Hu' as [[-> ->]|[-> ->]]; [constructor|].
    apply rtc_once. apply ef_checkpoint; [exact Ha|by eexists|exact Hu]. }
  destruct coverage; [|by subst]. apply coverage_inv in Hcov as (last & _ & Hc).
  etrans; [exact H1|]. by eapply cover_effect.
Qed.

Definition op_ranges (op : source_op) : list FilePosition :=
  match op with OpSave _ _ _ _ _ _ _ ranges => ranges | _ => [] end.
Lemma effects_weaken who ranges ranges' d d' :
  ranges ⊆ ranges' → effects who ranges d d' → effects who ranges' d d'.
Proof.
  intros Hsub. induction 1 as [|x y z He _ IH]; [constructor|]. eapply rtc_l; [|exact IH].
  destruct He as [| | |key r r' d0 Hl [Hi Hra Hf Hg Hz] Hs Hw| | |]; try by econstructor.
  eapply ef_row; try done. split; try done. destruct Hg; [constructor|constructor|].
  apply grown_by; auto.
Qed.

Lemma save_effect who session now f f' source sequence position ranges d :
  effects who ranges d (saveCheckpoint session now f f' source sequence position ranges d).2.
Proof.
  assert (∀ rs coverage, rs ⊆ ranges →
    effects who ranges d (advanceSourceCheckpoint session sequence position rs coverage now f d).2) as Hadv.
  { intros rs coverage Hsub. unfold advanceSourceCheckpoint. destruct (_ || _); [constructor|].
    destruct (IsZero now); [constructor|]. destruct (encodePosition position); [|constructor].
    apply source_tx_case; [constructor|]; intros x d' Hx. eapply effects_weaken; [exact Hsub|].
    by eapply advance_effect. }
  unfold saveCheckpoint. destruct (negb _); [constructor|].
  assert (effects who ranges d (match SourcePosition_Journald position, ranges with
      | Some _, [] => AdvanceSourceCheckpoint session sequence position now f d
      | _, _ => AdvanceSourceCheckpointWithCoverage session sequence position ranges now f d
      end).2) as Hall.
  { destruct (SourcePosition_Journald position), ranges; (apply Hadv; set_solver). }
  destruct (match SourcePosition_Journald position, ranges with
      | Some _, [] => _ | _, _ => _ end) as [[x|e] d1]; [exact Hall|].
  destruct (negb _); [exact Hall|]. destruct (checkpointConfirmed _ _ _ _ _ d1); exact Hall.
Qed.

Definition op_begins (op : source_op) : option SourceID :=
  match op with OpBegin source _ _ _ => Some source | _ => None end.

Lemma op_effect op d : rows_ok d → effects (op_begins op) (op_ranges op) d (run_op op d).
Proof.
  intros Hok. destruct op; cbn [run_op op_ranges op_begins].
  - unfold EnsureSource. repeat (case_match; [constructor|]).
    pose proof (source_write_inv f (Wrapf "ensure source %q: insert") (insert_source source node kind now) d) as Hi.
    destruct (source_write _ _ _ d) as [r d1]. assert (effects None [] d d1) as He.
    { destruct Hi as [->|[x Hx]]; [constructor|]. unfold insert_source in Hx. autorewrite with st in Hx.
      destruct (sd_sources d !! source) eqn:Hs; [injection Hx as _ <-; constructor|].
      guard_step Hx. injection Hx as _ <-. apply rtc_once. by apply ef_source. }
    destruct r; [|exact He]. destruct f, (sd_sources d1 !! source); exact He.
  - unfold BeginSourceSession. destruct (_ || _); [constructor|].
    apply source_tx_case; [constructor|]; intros x d' Hx. unfold session_begin in Hx.
    st_step Hx as b d1 Hu. guard_step Hx. st_step Hx as c d2 Hl. apply st_wrap_inv, load_inv in Hl as ->.
    injection Hx as _ <-. subst b. apply update_session_inv in Hu as [[? _]|(_ & row & Hs & _ & ->)]; [done|].
    apply rtc_once. by apply ef_session.
  - unfold RegisterFileGeneration. destruct (validateNewFileGeneration g); [|constructor].
    pose proof (source_write_inv f (Wrapf "register file generation %q") (insert_generation g) d) as Hi.
    destruct (source_write _ _ _ d) as [r d1]. assert (effects None [] d d1) as He.
    { destruct Hi as [->|[x Hx]]; [constructor|]. unfold insert_generation in Hx. autorewrite with st in Hx.
      destruct (sd_generations d !! (fg_SourceID g, fg_Generation g)) eqn:Hs;
        [injection Hx as _ <-; constructor|].
      apply write_generation_inv in Hx as [-> Hx]. by apply new_row_effect. }
    destruct r; [|exact He]. destruct f, (sd_generations d1 !! (fg_SourceID g, fg_Generation g)); exact He.
  - unfold AdvanceFileGeneration. do 2 (destruct (_ || _); [constructor|]).
    pose proof (source_write_inv f (Wrapf "advance file generation %q")
                  (drain_if_open source generation (UnixMicro at_)) d) as Hi.
    destruct (source_write _ _ _ d) as [r d1]. assert (effects None [] d d1) as He.
    { destruct Hi as [->|[x Hx]]; [constructor|]. by eapply drain_effect. }
    by destruct r.
  - unfold SealFileGeneration. destruct (_ || _); [constructor|]. destruct (seal_from from) eqn:Hf; [|constructor].
    cbn [negb]. pose proof (source_write_inv f (Wrapf "seal file generation %q")
                  (sealFileGeneration source generation from eof sequence at_ false) d) as Hi.
    destruct (source_write _ _ _ d) as [r d1]. assert (effects None [] d d1) as He.
    { destruct Hi as [->|[x Hx]]; [constructor|]. by eapply seal_effect. }
    by destruct r.
  - unfold SealFileGenerationWithSession. destruct (_ || _); [constructor|].
    destruct (seal_from from) eqn:Hf; [|constructor]. cbn [negb].
    apply source_tx_case; [constructor|]; intros x d' Hx. st_step Hx as [] d1 Hl.
    apply lock_inv in Hl as [-> _]. st_step Hx as b d2 Hs. apply guard_inv in Hx as [_ ->].
    by eapply seal_effect.
  - unfold RotateFileGeneration. destruct (_ || _); [constructor|].
    destruct (validateNewFileGeneration next); [|constructor]. destruct (negb _); [constructor|].
    apply source_tx_case; [constructor|]; intros x d' Hx. by eapply rotate_effect.
  - unfold RetireFileGeneration. destruct (_ || _); [constructor|].
    apply source_tx_case; [constructor|]; intros x d' Hx. by eapply retire_effect.
  - unfold InitializeFileGenerationCoverage. destruct (negb _); [constructor|].
    apply source_tx_case; [constructor|]; intros x d' Hx. by eapply initialize_effect.
  - apply save_effect.
  - destruct (insert_receipt id row d) as [[[]|e] d1] eqn:Hi; [|constructor].
    assert (d1 = set_receipts d (<[id := row]> (sd_receipts d))) as ->.
    { revert Hi. unfold insert_receipt. autorewrite with st. intros Hi. guard_step Hi. by injection Hi as <-. }
    apply rtc_once. by apply ef_receipt.
Qed.

(** ** The invariant *)
Record source_ok (d : source_db) : Prop := {
  so_rows : rows_ok d;
  so_checkpoints s c : sd_checkpoints d !! s = Some c → references_live s (cr_Position c) d = true;
  so_receipts id r : sd_receipts d !! id = Some r → references_live (rr_source r) (rr_position r) d = true;
  so_retired key r : sd_generations d !! key = Some r → gr_State r = FileGenerationRetired →
    gr_DurableEndOffset r = gr_FinalEOF r
}.

(** A live reference stays live when the row it refers to is not retired. *)
Lemma live_insert key r s p d :
  (gr_State r ≠ FileGenerationRetired ∨ key.1 ≠ s ∨ pc_Generation p ≠ Some key.2) →
  references_live s p d = true →
  references_live s p (set_generations d (<[key := r]> (sd_generations d))) = true.
Proof.
  intros Hr. unfold references_live. destruct (pc_Generation p) as [g|] eqn:Hg; [|done].
  cbn. destruct (decide (key = (s, g))) as [->|Hk].
  - rewrite lookup_insert_eq. intros _. destruct Hr as [Hr|[?|?]]; [|done|cbn in *; congruence].
    unfold in_state. by rewrite bool_decide_eq_false_2.
  - by rewrite lookup_insert_ne.
Qed.
Lemma receipt_references_none s g d id r :
  receipt_references s g d = 0%nat → sd_receipts d !! id = Some r → rr_source r = s →
  pc_Generation (rr_position r) ≠ Some g.
Proof.
  unfold receipt_references. intros Hn Hr Hs Hg. apply nil_length_inv in Hn.
  assert (r ∈ base.filter (λ r : processingReceiptRow,
            rr_source r = s ∧ references g (rr_position r) = true) (snd <$> map_to_list (sd_receipts d))) as Hin.
  { apply list_elem_of_filter. split.
    - split; [done|]. unfold references. by apply bool_decide_eq_true.
    - apply list_elem_of_fmap. exists (id, r). split; [done|]. by apply elem_of_map_to_list. }
  rewrite Hn in Hin. by apply elem_of_nil in Hin.
Qed.
Lemma checkpoint_references_none s g d c :
  checkpoint_references s g d = false → sd_checkpoints d !! s = Some c → pc_Generation (cr_Position c) ≠ Some g.
Proof. unfold checkpoint_references, references. intros Hn Hc. rewrite Hc in Hn. by apply bool_decide_eq_false in Hn. Qed.

Lemma effect_ok who ranges d d' : effect who ranges d d' → source_ok d → source_ok d'.
Proof.
  intros He Hok. pose proof (effect_rows _ _ _ _ He (so_rows _ Hok)) as Hrows.
  destruct Hok as [_ Hc Hr Hret]. destruct He as [| |key r d Hn Hs Hd Hw|key r r' d Hl Hrs Hs Hw
    |key r at_ d Hl Hs Hd Hrec Hcp Hw|s row d Ha Hsome Hu|id row d Hi]; split; try done.
  - intros s c Hs'. apply live_insert; [left; rewrite Hs; done|]. by apply Hc.
  - intros id x Hx. apply live_insert; [left; rewrite Hs; done|]. by apply (Hr id).
  - intros k x. cbn. rewrite lookup_insert_Some. intros [[<- <-]|[_ Hx]]; [by rewrite Hs|by apply (Hret k)].
  - intros s c Hs'. apply live_insert; [by left|]. by apply Hc.
  - intros id x Hx. apply live_insert; [by left|]. by apply (Hr id).
  - intros k x. cbn. rewrite lookup_insert_Some. intros [[<- <-]|[_ Hx]]; [done|by apply (Hret k)].
  - intros s c Hs'. apply live_insert; [|by apply Hc]. right. destruct (decide (key.1 = s)) as [<-|]; [right|by left].
    by eapply checkpoint_references_none.
  - intros id x Hx. apply live_insert; [|by apply (Hr id)]. right.
    destruct (decide (key.1 = rr_source x)) as [Heq|]; [right|by left]. by eapply receipt_references_none.
  - intros k x. cbn. rewrite lookup_insert_Some. intros [[<- <-]|[_ Hx]]; [done|by apply (Hret k)].
  - intros s' c. cbn. rewrite lookup_insert_Some. intros [[<- <-]|[_ Hx]]; [|by apply Hc].
    revert Hu. unfold upsert_checkpoint. autorewrite with st. intros Hu. guard_step Hu. gobool.
    unfold references_live in *. cbn. tauto.
  - intros id' x. cbn. rewrite lookup_insert_Some. intros [[<- <-]|[_ Hx]]; [|by apply (Hr id')].
    revert Hi. unfold insert_receipt. autorewrite with st. intros Hi. guard_step Hi. gobool.
    unfold references_live in *. cbn. tauto.
Qed.
Lemma effects_ok who ranges d d' : effects who ranges d d' → source_ok d → source_ok d'.
Proof. induction 1; eauto using effect_ok. Qed.
Lemma run_op_ok op d : source_ok d → source_ok (run_op op d).
Proof. intros Hok. eapply effects_ok; [|done]. apply op_effect, Hok. Qed.
Lemma run_ops_ok ops d : source_ok d → source_ok (run_ops ops d).
Proof. revert d. induction ops as [|op ops IH]; intros d Hok; [done|]. cbn. by apply IH, run_op_ok. Qed.

(** ** What only moves forward *)
Definition durable_le (v v' : option Z) : Prop :=
  match v with Some x => ∃ y, v' = Some y ∧ x ≤ y | None => True end.
Record forward (r r' : sourceFileGenerationRow) : Prop := {
  fw_identity : same_identity r r';
  fw_rank : rank r ≤ rank r';
  fw_eof e : gr_FinalEOF r = Some e → gr_FinalEOF r' = Some e;
  fw_durable : durable_le (gr_DurableEndOffset r) (gr_DurableEndOffset r')
}.
#[local] Instance forward_preorder : PreOrder forward.
Proof.
  split.
  - intros r. split; [done|done|done|]. unfold durable_le. destruct (gr_DurableEndOffset r); [by eexists|done].
  - intros x y z [(A1 & A2 & A3 & A4 & A5) A6 A7 A8] [(B1 & B2 & B3 & B4 & B5) B6 B7 B8]. split.
    + unfold same_identity. intuition congruence.
    + lia.
    + auto.
    + unfold durable_le in *. destruct (gr_DurableEndOffset x) as [v|]; [|done]. destruct A8 as (v' & Hv & Hle).
      rewrite Hv in B8. destruct B8 as (v'' & Hv' & Hle'). exists v''. split; [done|lia].
Qed.
Lemma row_step_forward ranges g r r' : row_step ranges g r r' → forward r r'.
Proof.
  intros [Hi Hr He Hd _]. split; try done. unfold durable_le. destruct Hd as [v| |v span]; [|done|].
  - destruct v; [by eexists|done].
  - eexists. split; [done|lia].
Qed.

(** The sources keep their node and kind, the generations only move forward. *)
Record history_le (d d' : source_db) : Prop := {
  hl_sources s row : sd_sources d !! s = Some row →
    ∃ row', sd_sources d' !! s = Some row' ∧ sr_NodeID row' = sr_NodeID row ∧ sr_Kind row' = sr_Kind row;
  hl_generations key r : sd_generations d !! key = Some r →
    ∃ r', sd_generations d' !! key = Some r' ∧ forward r r';
  hl_receipts id r : sd_receipts d !! id = Some r → sd_receipts d' !! id = Some r
}.
#[local] Instance history_le_preorder : PreOrder history_le.
Proof.
  split.
  - intros d. split; eauto. intros key r Hr. exists r. by split.
  - intros x y z [A1 A2 A3] [B1 B2 B3]. split; [| |auto].
    + intros s row Hs. destruct (A1 s row Hs) as (row1 & H1 & ? & ?). destruct (B1 s row1 H1) as (row2 & ? & ? & ?).
      exists row2. intuition congruence.
    + intros key r Hr. destruct (A2 key r Hr) as (r1 & H1 & F1). destruct (B2 key r1 H1) as (r2 & H2 & F2).
      exists r2. split; [done|]. by etrans.
Qed.
Lemma effect_history who ranges d d' : effect who ranges d d' → history_le d d'.
Proof.
  assert (∀ key r d, (∀ x, sd_generations d !! key = Some x → forward x r) →
            history_le d (set_generations d (<[key := r]> (sd_generations d)))) as Hgen.
  { intros key r d0 Hf. split; eauto. intros k x Hx. cbn. destruct (decide (k = key)) as [->|Hk].
    - rewrite lookup_insert_eq. exists r. split; [done|auto].
    - rewrite lookup_insert_ne by done. exists x. by split. }
  intros [s row d0 Hs Ha|s row session d0 _ Hs|key r d0 Hn Hs Hd Hw|key r r' d0 Hl Hrs Hs Hw
    |key r at_ d0 Hl Hs Hd Hrec Hcp Hw|s row d0 Ha Hsome Hu|id row d0 Hi].
  - split; eauto; [|intros key r Hr; exists r; by split]. intros s' row' Hs'. cbn.
    rewrite lookup_insert_ne by congruence. by eauto.
  - split; eauto; [|intros key r Hr; exists r; by split]. intros s' row' Hs'. cbn.
    destruct (decide (s' = s)) as [->|Hne]; [|rewrite lookup_insert_ne by done; by eauto].
    rewrite lookup_insert_eq. eexists. split; [done|]. rewrite Hs in Hs'. by injection Hs' as <-.
  - apply Hgen. intros x Hx. congruence.
  - apply Hgen. intros x Hx. rewrite Hl in Hx. injection Hx as <-. by eapply row_step_forward.
  - apply Hgen. intros x Hx. rewrite Hl in Hx. injection Hx as <-. split; cbn; try done.
    + unfold rank, in_state. cbn. rewrite Hs. states. by vm_compute.
    + unfold durable_le. destruct (gr_DurableEndOffset r); [by eexists|done].
  - split; eauto. intros key r Hr. exists r. by split.
  - split; eauto; [intros key r Hr; exists r; by split|]. intros id' r Hr. cbn.
    rewrite lookup_insert_ne; [done|]. intros <-. revert Hi. unfold insert_receipt. autorewrite with st.
    intros Hi. guard_step Hi. rewrite Hr in Hg. by cbn in Hg.
Qed.
Lemma effects_history who ranges d d' : effects who ranges d d' → history_le d d'.
Proof. induction 1 as [|x y z He _ IH]; [done|]. etrans; [by eapply effect_history|done]. Qed.
Lemma run_ops_history ops d : source_ok d → history_le d (run_ops ops d).
Proof.
  revert d. induction ops as [|op ops IH]; intros d Hok; [done|]. cbn.
  transitivity (run_op op d); [|by apply IH, run_op_ok]. eapply effects_history, op_effect, Hok.
Qed.

(** ** Coverage *)
Definition durable_end (key : SourceID * string) (d : source_db) : option Z :=
  sd_generations d !! key ≫= gr_DurableEndOffset.
(** The prefix that is known to be processed holds the byte [b]. *)
Definition covers (key : SourceID * string) (b : Z) (d : source_db) : Prop :=
  ∃ v, durable_end key d = Some v ∧ b < v.
Definition span_holds (span : FilePosition) (g : string) (b : Z) : Prop :=
  fp_Generation span = g ∧ fp_StartOffset span ≤ b < fp_EndOffset span.

Lemma durable_end_insert key k r d :
  durable_end key (set_generations d (<[k := r]> (sd_generations d)))
  = if decide (k = key) then gr_DurableEndOffset r else durable_end key d.
Proof.
  unfold durable_end. cbn. destruct (decide (k = key)) as [->|Hk]; [by rewrite lookup_insert_eq|].
  by rewrite lookup_insert_ne.
Qed.
Lemma effect_covers who ranges d d' key b :
  effect who ranges d d' → 0 ≤ b → covers key b d' → ¬ covers key b d →
  ∃ span, span ∈ ranges ∧ span_holds span key.2 b.
Proof.
  intros He Hb (v & Hv & Hlt) Hnot.
  assert (durable_end key d ≠ Some v) as Hne by (intros Heq; apply Hnot; by exists v).
  destruct He as [| |k r d Hn Hs Hd Hw|k r r' d Hl [_ _ _ Hg _] Hs Hw|k r at_ d Hl Hs Hd Hrec Hcp Hw| |];
    try done; rewrite durable_end_insert in Hv; destruct (decide (k = key)) as [->|]; try done.
  - congruence.
  - assert (durable_end key d = gr_DurableEndOffset r) as Hold by (unfold durable_end; by rewrite Hl).
    destruct Hg as [w| |w span Hin Hgen Hstart Hend]; [congruence| |].
    + injection Hv as <-. lia.
    + injection Hv as <-. exists span. split; [done|]. split; [done|]. split; [|done].
      destruct (Z.le_gt_cases (fp_StartOffset span) b) as [|Hgt]; [done|]. exfalso. apply Hnot.
      exists w. split; [done|lia].
  - cbn in Hv. assert (durable_end key d = gr_DurableEndOffset r) as Hold by (unfold durable_end; by rewrite Hl).
    congruence.
Qed.
Lemma covers_dec key b d : covers key b d ∨ ¬ covers key b d.
Proof.
  unfold covers. destruct (durable_end key d) as [v|]; [|right; by intros (? & ? & _)].
  destruct (Z.lt_ge_cases b v); [left; by exists v|right]. intros (w & [= <-] & ?). lia.
Qed.
Lemma effects_covers who ranges d d' key b :
  effects who ranges d d' → 0 ≤ b → covers key b d' → ¬ covers key b d →
  ∃ span, span ∈ ranges ∧ span_holds span key.2 b.
Proof.
  intros He Hb. induction He as [d|d d1 d2 He _ IH]; intros Hc Hn; [done|].
  destruct (covers_dec key b d1) as [Hc1|Hn1]; [by eapply effect_covers|auto].
Qed.

(** ** Checkpoints within a session *)
Definition checkpoint_step (s : SourceID) (d d' : source_db) : Prop :=
  active s d' = active s d ∧
  ∀ c, sd_checkpoints d !! s = Some c →
    ∃ c', sd_checkpoints d' !! s = Some c' ∧
      (c' = c ∨ cr_SessionID c' = active s d ∧
                (cr_SessionID c = cr_SessionID c' → cr_DeliverySequence c < cr_DeliverySequence c')).
#[local] Instance checkpoint_step_preorder s : PreOrder (checkpoint_step s).
Proof.
  split.
  - intros d. split; [done|]. intros c Hc. exists c. by auto.
  - intros x y z [A1 A2] [B1 B2]. split; [congruence|]. intros c Hc.
    destruct (A2 c Hc) as (c1 & H1 & [E1|[S1 L1]]); [subst c1; rewrite <- A1; by apply B2|].
    destruct (B2 c1 H1) as (c2 & H2 & [E2|[S2 L2]]); exists c2; [subst c2; by auto|]. split; [done|]. right.
    split; [congruence|]. intros Heq. assert (cr_SessionID c = cr_SessionID c1) as E by congruence.
    specialize (L1 E). specialize (L2 ltac:(congruence)). lia.
Qed.
Lemma effect_checkpoint who ranges s d d' : effect who ranges d d' → who ≠ Some s → checkpoint_step s d d'.
Proof.
  assert (∀ d d', sd_checkpoints d' = sd_checkpoints d → active s d' = active s d → checkpoint_step s d d') as Hsame.
  { intros d0 d1 Hc Ha. split; [done|]. intros c Hs. exists c. rewrite Hc. by auto. }
  intros [s' row d0 Hs Ha|s' row session d0 Hw Hs|key r d0 Hn Hs Hd Hw|key r r' d0 Hl Hrs Hs Hw
    |key r at_ d0 Hl Hs Hd Hrec Hcp Hw|s' row d0 Ha Hsome Hu|id row d0 Hi] Hne; try by apply Hsame.
  - apply Hsame; [done|]. unfold active. cbn. destruct (decide (s' = s)) as [->|]; [|by rewrite lookup_insert_ne].
    by rewrite lookup_insert_eq, Hs.
  - apply Hsame; [done|]. unfold active. cbn. rewrite lookup_insert_ne by congruence. done.
  - split; [done|]. intros c Hc. cbn. destruct (decide (s' = s)) as [->|]; [|rewrite lookup_insert_ne by done; by eauto].
    rewrite lookup_insert_eq. exists row. split; [done|]. right. split; [done|]. intros Heq.
    revert Hu. unfold upsert_checkpoint. autorewrite with st. intros Hu. guard_step Hu. rewrite Hc in Hu.
    unfold supersedes in Hu. rewrite (bool_decide_eq_true_2 _ Heq) in Hu.
    assert (is_null (cr_SessionID c) = false) as Hnull by (rewrite Heq; by destruct Hsome as [? ->]).
    rewrite Hnull in Hu. cbn in Hu. destruct (Z.ltb_spec (cr_DeliverySequence c) (cr_DeliverySequence row)); [done|].
    by injection Hu.
Qed.
Lemma run_ops_checkpoint s ops d :
  rows_ok d → Forall (λ op, op_begins op ≠ Some s) ops → checkpoint_step s d (run_ops ops d).
Proof.
  intros Hok Hops. revert d Hok. induction Hops as [|op ops Hop _ IH]; intros d Hok; [done|]. cbn.
  pose proof (op_effect op d Hok) as He. transitivity (run_op op d).
  - clear -He Hop. induction He as [|x y z He _ IHe]; [done|]. etrans; [by eapply effect_checkpoint|done].
  - apply IH. by eapply effects_rows.
Qed.

(** ** What the read-back proves *)
(** The checkpoint and the coverage are durable. *)
Record is_saved (session : SourceSession) (sequence : Z) (position : SourcePosition)
    (ranges : list FilePosition) (d : source_db) : Prop := {
  sv_active : active (ss_SourceID session) d = Some (ss_ID session);
  sv_checkpoint : ∃ at_, loadSourceCheckpoint (ss_SourceID session) d
    = (Ok (Some (MkSourceCheckpoint (ss_ID session) (ss_SourceID session) sequence position at_)), d);
  sv_ranges span : span ∈ ranges →
    ∃ v, durable_end (ss_SourceID session, fp_Generation span) d = Some v ∧ fp_EndOffset span ≤ v
}.

Lemma load_source s d c d' :
  loadSourceCheckpoint s d = (Ok (Some c), d') → sc_SourceID c = s.
Proof.
  unfold loadSourceCheckpoint. intros Hr. guard_step Hr. autorewrite with st in Hr.
  destruct (sd_checkpoints _ !! s); [|done]. st_step Hr as p d1 Hp. by injection Hr as <- _.
Qed.
Lemma elem_of_source_gens s g r d : (g, r) ∈ source_gens s d ↔ sd_generations d !! (s, g) = Some r.
Proof.
  unfold source_gens. rewrite list_elem_of_omap. split.
  - intros ([[s' g'] r'] & Hin & Heq). apply elem_of_map_to_list in Hin.
    case_bool_decide as Hs; [|done]. injection Heq as <- <-. by subst.
  - intros Hr. exists ((s, g), r). split; [by apply elem_of_map_to_list|]. by rewrite bool_decide_eq_true_2.
Qed.
Lemma recoverable_inv s d l d' g :
  loadRecoverableFileGenerations s d = (Ok l, d') → g ∈ l →
  ∃ r, sd_generations d !! (s, fg_Generation g) = Some r ∧ g = fileGenerationFromRow (s, fg_Generation g) r.
Proof.
  unfold loadRecoverableFileGenerations, st_gets. intros [= <- _] Hg.
  rewrite sort_slice_perm in Hg. apply list_elem_of_fmap in Hg as ([x r] & -> & Hin).
  apply list_elem_of_filter in Hin as [_ Hin]. apply elem_of_source_gens in Hin. by exists r.
Qed.

Lemma confirmed_saved session sequence position ranges f d :
  isLowerHex128 (ss_ID session) = true →
  checkpointConfirmed session sequence position ranges f d = Ok true →
  is_saved session sequence position ranges d.
Proof.
  intros Hhex. unfold checkpointConfirmed. destruct (LoadSourceCoverageState _ f d) as [state|e] eqn:Hl; [|done].
  cbn. intros [= Hc]. gobool. destruct Hc as [[Hact Hcp] Hranges].
  revert Hl. unfold LoadSourceCoverageState. destruct (is_empty _); [done|]. unfold source_read.
  destruct f; try done. destruct (coverage_body (ss_SourceID session) d) as [r d1] eqn:Hr. cbn. intros ->.
  unfold coverage_body in Hr.
  st_step Hr as row d2 Ht. unfold take_source in Ht. autorewrite with st in Ht.
  destruct (sd_sources d !! ss_SourceID session) as [row'|] eqn:Hs; [|done]. injection Ht as -> ->.
  st_step Hr as c d3 Hld. pose proof (load_inv _ _ _ _ Hld) as ->. st_step Hr as l d4 Hg.
  injection Hr as <- <-. cbn in *. split.
  - unfold active. rewrite Hs. cbn. destruct (sr_ActiveSessionID row) as [x|]; cbn in Hact; [by subst|].
    rewrite <- Hact in Hhex. done.
  - destruct c as [c|]; [|done]. gobool. exists (sc_PersistedAt c). rewrite Hld. do 2 f_equal.
    pose proof (load_source _ _ _ _ Hld). destruct c; cbn in *. intuition congruence.
  - intros span Hin. rewrite forallb_forall in Hranges.
    specialize (Hranges span (proj1 (list_elem_of_In _ _) Hin)). unfold range_confirmed in Hranges.
    apply existsb_exists in Hranges as (g & Hin' & Hg'). gobool. destruct Hg' as [[[Hgen _] _] Hv].
    apply list_elem_of_In in Hin'. destruct (recoverable_inv _ _ _ _ _ Hg Hin') as (r & Hrow & Heq).
    rewrite Hgen in *. unfold durable_end. rewrite Hrow. cbn. rewrite Heq in Hv. cbn in Hv.
    destruct (gr_DurableEndOffset r) as [v|]; [|done]. exists v. split; [done|]. by gobool.
Qed.

(** ** What a successful advance leaves *)
Lemma position_roundtrip s position encoded d :
  rows_ok d → SourcePosition_Valid position = true → encodePosition position = Ok encoded →
  position_check encoded = true → validateCheckpointPosition s position d = (Ok tt, d) →
  decodePosition encoded = Ok position.
Proof.
  intros Hok Hv He Hc Hval. unfold encodePosition in He. unfold decodePosition.
  destruct position as [|file|cursor]; cbn in He; [done| |].
  - destruct (fail_if _ _) eqn:Hrange; cbn in He; [|done]. injection He as <-. unfold position_check in Hc. cbn in *.
    states. cbn in Hc. gobool.
    unfold validateCheckpointPosition in Hval. st_step Hval as row d1 Ht. unfold st_wrap, take_source in Ht.
    autorewrite with st in Ht. destruct (sd_sources d !! s) as [row'|]; [|done]. injection Ht as -> ->.
    cbn in Hval. guard_step Hval. autorewrite with st in Hval.
    destruct (sd_generations _ !! (s, fp_Generation file)) as [r|] eqn:Hr; [|done].
    apply guard_inv in Hval as [Hval _]. gobool. destruct Hval as [[_ Hdev] Hino].
    pose proof (Hok _ _ Hr) as Hck. unfold generation_check in Hck. gobool.
    destruct Hv as [Hhex Hle].
    assert (0 ≤ fp_DeviceID file) by (rewrite <- Hdev; tauto).
    assert (0 ≤ fp_Inode file) by (rewrite <- Hino; tauto).
    rewrite (proj2 (orb_false_iff _ _)); [|].
    { unfold NewFilePosition. rewrite (fail_if_false (negb _)) by (gobool; done). cbn.
      rewrite fail_if_false by (gobool; lia). cbn. by destruct file. }
    rewrite !orb_false_iff, !Z.ltb_ge. lia.
  - injection He as <-. cbn. states. unfold NewJournaldPosition. cbn in Hv.
    destruct (validateTextIdentifier "journald cursor" cursor) as [[]|]; [done|done].
Qed.

Lemma cover_covered session last advancing spans d b d' :
  cover_spans session last advancing spans d = (Ok b, d') →
  sd_checkpoints d' = sd_checkpoints d ∧
  ∀ span, span ∈ spans →
    ∃ v, durable_end (ss_SourceID session, fp_Generation span) d' = Some v ∧ fp_EndOffset span ≤ v.
Proof.
  revert d b d'. induction spans as [|span spans IH]; intros d b d'; cbn [cover_spans].
  { intros [= _ <-]. split; [done|]. by intros span ?%elem_of_nil. }
  intros Hr. guard_step Hr. unfold loadFileGeneration in Hr. autorewrite with st in Hr.
  destruct (sd_generations d !! (ss_SourceID session, fp_Generation span)) as [r|] eqn:Hrow; cbn in Hr; [|done].
  guard_step Hr. destruct (gr_DurableEndOffset r) as [v|] eqn:Hv; [|done]. guard_step Hr.
  st_step Hr as [] d1 Hcov. st_step Hr as others d2 Hrest. injection Hr as _ <-.
  assert (sd_checkpoints d1 = sd_checkpoints d ∧
          ∃ w, durable_end (ss_SourceID session, fp_Generation span) d1 = Some w ∧ fp_EndOffset span ≤ w) as [Hc1 Hw1].
  { destruct (Z.leb_spec (fp_EndOffset span) v) as [Hle|Hlt].
    - injection Hcov as <-. split; [done|]. exists v. unfold durable_end. rewrite Hrow. by split.
    - guard_step Hcov. st_step Hcov as b1 d3 Hu. injection Hcov as <-.
      apply update_generation_inv in Hu as [(_ & -> & Hno)|(_ & r' & Hr' & _ & Hw & ->)].
      + by specialize (Hno _ Hrow).
      + split; [done|]. rewrite durable_end_insert, decide_True by done. cbn. by eexists. }
  destruct (IH _ _ _ Hrest) as [Hc2 Hspans]. split; [congruence|].
  intros x [->|Hx]%elem_of_cons; [|by apply Hspans]. destruct Hw1 as (w & Hw & Hle).
  apply (cover_effect None spans) in Hrest; [|done]. apply effects_history in Hrest.
  unfold durable_end in *. destruct (sd_generations d1 !! _) as [r1|] eqn:Hr1; [|done]. cbn in Hw.
  destruct (hl_generations _ _ Hrest _ _ Hr1) as (r2 & Hr2 & [_ _ _ Hd]). rewrite Hr2. cbn.
  rewrite Hw in Hd. destruct Hd as (y & Hy & ?). exists y. split; [done|lia].
Qed.

Lemma upsert_checks s row d b d' :
  upsert_checkpoint s row d = (Ok b, d') → checkpoint_check row = true.
Proof. unfold upsert_checkpoint. autorewrite with st. intros Hr. guard_step Hr. gobool. tauto. Qed.
Lemma load_row s row position d :
  is_empty s = false → sd_checkpoints d !! s = Some row → decodePosition (cr_Position row) = Ok position →
  loadSourceCheckpoint s d = (Ok (Some (MkSourceCheckpoint (default EmptyString (cr_SessionID row)) s
     (cr_DeliverySequence row) position (from_UnixMicro (cr_PersistedAtUS row)))), d).
Proof.
  intros Hs Hr Hp. unfold loadSourceCheckpoint, guard, mbind, st_bind, mret, st_ret, st_gets, st_lift.
  rewrite Hs. cbn. by rewrite Hr, Hp.
Qed.
Lemma load_same s d d' c :
  sd_checkpoints d' = sd_checkpoints d → loadSourceCheckpoint s d = (Ok (Some c), d) →
  loadSourceCheckpoint s d' = (Ok (Some c), d').
Proof.
  unfold loadSourceCheckpoint, guard, mbind, st_bind, mret, st_ret, st_gets, st_lift. intros Hc.
  destruct (negb (is_empty s)); [|done]. cbn. rewrite Hc. destruct (sd_checkpoints d !! s); [|done].
  destruct (decodePosition _); [|done]. by intros [= <-].
Qed.

Lemma advance_saved session sequence position encoded ranges coverage at_ d x d' :
  rows_ok d → SourcePosition_Valid position = true → is_empty (ss_SourceID session) = false →
  encodePosition position = Ok encoded → (coverage = false → ranges = []) →
  advance_body session sequence position encoded ranges coverage at_ d = (Ok x, d') →
  is_saved session sequence position ranges d'.
Proof.
  intros Hok Hv Hs He Hcr Hb. pose proof (advance_effect None _ _ _ _ _ _ _ _ _ _ Hb) as Heff.
  apply advance_inv in Hb as (Ha & Hval & affected & d1 & Hu & Hsame & Hcov).
  assert (sd_checkpoints d' = sd_checkpoints d1 ∧ ∀ span, span ∈ ranges →
    ∃ v, durable_end (ss_SourceID session, fp_Generation span) d' = Some v ∧ fp_EndOffset span ≤ v) as [Hcp Hsp].
  { destruct coverage.
    - apply coverage_inv in Hcov as (last & _ & Hc). by eapply cover_covered.
    - subst d'. split; [done|]. rewrite (Hcr eq_refl). by intros span ?%elem_of_nil. }
  split; [| |exact Hsp].
  - rewrite <- Ha. clear -Heff. induction Heff as [|y z w He _ IH]; [done|]. rewrite IH.
    by apply (effect_checkpoint None _ (ss_SourceID session) _ _ He).
  - destruct affected.
    + eexists. eapply load_same; [exact Hcp|].
      pose proof Hu as Hu'. apply upsert_inv in Hu' as [[? _]|[_ ->]]; [done|].
      apply (load_row _ (checkpoint_row session sequence encoded at_)); [done|apply lookup_insert_eq|].
      eapply position_roundtrip; [exact Hok|done|done| |exact Hval].
      apply upsert_checks in Hu. unfold checkpoint_check in Hu. gobool. tauto.
    + destruct (Hsame eq_refl) as (-> & c & Hl & H1 & H2 & H3). exists (sc_PersistedAt c).
      eapply load_same; [exact Hcp|]. rewrite Hl. do 2 f_equal.
      pose proof (load_source _ _ _ _ Hl). destruct c; cbn in *. congruence.
Qed.

Lemma advanceSource_cases session sequence position ranges coverage at_ f d :
  rows_ok d → SourcePosition_Valid position = true → (coverage = false → ranges = []) →
  let '(r, d') := advanceSourceCheckpoint session sequence position ranges coverage at_ f d in
  match r with
  | Ok _ => is_saved session sequence position ranges d'
  | Err e => d' = d ∨ errors_Is e ErrSourceCheckpointCommitUncertain = true ∧
                      is_saved session sequence position ranges d'
  end ∧ (isLowerHex128 (ss_ID session) = true ∨
         ∃ e, r = Err e ∧ errors_Is e ErrSourceCheckpointCommitUncertain = false).
Proof.
  intros Hok Hv Hcr. unfold advanceSourceCheckpoint.
  destruct (is_empty (ss_SourceID session)) eqn:Hs; cbn [orb]; [split; [by left|right; by eexists]|].
  destruct (isLowerHex128 (ss_ID session)); cbn [negb orb]; [|split; [by left|right; by eexists]].
  destruct (_ || _); [split; [by left|by left]|]. destruct (IsZero at_); [split; [by left|by left]|].
  destruct (encodePosition position) as [encoded|e] eqn:He; [|split; [by left|by left]].
  assert (∀ a d', advance_body session sequence position encoded ranges coverage at_ d = (Ok a, d') →
            is_saved session sequence position ranges d') as Hsaved by (intros a d' Hb; by eapply advance_saved).
  unfold source_tx. destruct f as [|e|e|e persisted]; try (split; [by left|by left]).
  all: destruct (advance_body _ _ _ _ _ _ _ d) as [[a|e'] d1] eqn:Hb; (split; [|by left]).
  - by eapply Hsaved.
  - by left.
  - destruct persisted; [right|by left]. split; [done|]. by eapply Hsaved.
  - by left.
Qed.

Lemma fenced session sequence position ranges coverage at_ f d :
  active (ss_SourceID session) d ≠ Some (ss_ID session) →
  ∃ e, advanceSourceCheckpoint session sequence position ranges coverage at_ f d = (Err e, d).
Proof.
  intros Hn. unfold advanceSourceCheckpoint. destruct (_ || _); [by eexists|].
  destruct (IsZero at_); [by eexists|]. destruct (encodePosition position) as [encoded|e]; [|by eexists].
  unfold source_tx. destruct f; try by eexists.
  all: destruct (advance_body _ _ _ _ _ _ _ d) as [[a|e'] d1] eqn:Hb; [|by eexists];
    by apply advance_inv in Hb as (Ha & _).
Qed.

(** The two ways of advancing that saveCheckpoint chooses from. *)
Lemma save_cases (P : result unit * source_db → Prop) session now f f' sequence position ranges d :
  (∀ coverage, (coverage = false → ranges = []) →
     let p := advanceSourceCheckpoint session sequence position ranges coverage now f d in
     P (match p with
        | (Ok _, d') => (Ok tt, d')
        | (Err e, d') =>
          if negb (errors_Is e ErrSourceCheckpointCommitUncertain) then (Err e, d')
          else match checkpointConfirmed session sequence position ranges f' d' with
               | Err readErr => (Err (Join e (Wrapf "confirm source coverage" readErr)), d')
               | Ok confirmed => (if confirmed then Ok tt else Err e, d')
               end
        end)) →
  P (saveCheckpoint session now f f' (ss_SourceID session) sequence position ranges d).
Proof.
  intros H. unfold saveCheckpoint. rewrite bool_decide_eq_true_2 by done. cbn [negb].
  assert (∀ coverage, (coverage = false → ranges = []) →
    P (let '(r, d') := advanceSourceCheckpoint session sequence position ranges coverage now f d in
       match r with
       | Ok _ => (Ok tt, d')
       | Err e =>
         if negb (errors_Is e ErrSourceCheckpointCommitUncertain) then (Err e, d')
         else match checkpointConfirmed session sequence position ranges f' d' with
              | Err readErr => (Err (Join e (Wrapf "confirm source coverage" readErr)), d')
              | Ok confirmed => (if confirmed then Ok tt else Err e, d')
              end
       end)) as H'.
  { intros coverage Hc. specialize (H coverage Hc). cbn zeta in H.
    by destruct (advanceSourceCheckpoint _ _ _ _ _ _ _ d) as [[]]. }
  destruct (SourcePosition_Journald position), ranges as [|span ranges]; first [apply (H' false); done|apply (H' true); done].
Qed.

(** C12: A saved checkpoint is durable. When the state store of a session reports a
    checkpoint as saved, directly or by reading it back after a commit of unknown
    outcome, the session is the active one, the checkpoint of the source is that
    session's, with that sequence and position, and every range is within the
    durable prefix of its generation. When it reports an error, the database is as
    it was, or the error says that the outcome of the commit is uncertain and the
    checkpoint is saved as a whole. *)
Theorem save_is_truthful session now f f' sequence position ranges d :
  source_ok d → SourcePosition_Valid position = true →
  let '(r, d') := saveCheckpoint session now f f' (ss_SourceID session) sequence position ranges d in
  match r with
  | Ok _ => is_saved session sequence position ranges d'
  | Err e => d' = d ∨ errors_Is e ErrSourceCheckpointCommitUncertain = true ∧
                      is_saved session sequence position ranges d'
  end.
Proof.
  intros Hok Hv. apply save_cases. intros coverage Hcr.
  pose proof (advanceSource_cases session sequence position ranges coverage now f d (so_rows _ Hok) Hv Hcr) as Hc.
  cbn zeta. destruct (advanceSourceCheckpoint _ _ _ _ _ _ _ d) as [[x|e] d']; destruct Hc as [Hc Hhex]; [done|].
  destruct (errors_Is e ErrSourceCheckpointCommitUncertain) eqn:Hu; cbn [negb].
  2:{ rewrite Hu. destruct Hc as [->|[? _]]; [by left|done]. }
  destruct (checkpointConfirmed session sequence position ranges f' d') as [confirmed|readErr] eqn:Hr.
  - destruct confirmed; [|rewrite Hu; exact Hc]. eapply confirmed_saved; [|exact Hr].
    destruct Hhex as [Hhex|(e' & [= <-] & Hf)]; [done|congruence].
  - destruct Hc as [->|[_ Hs]]; [by left|right]. split; [|done]. cbn. by rewrite Hu.
Qed.

(** C13: The source state never regresses. Over any history of operations of the
    store, each with any fate: the sources keep their identity, receipts are kept,
    and the file generations keep theirs while their life cycle only moves
    forward, their final size stays as it was sealed and their durable prefix only
    grows; and as long as no session of a source is begun, its checkpoint is
    replaced only by one of the active session, with a higher sequence if it was
    already that session's. A session that is no longer the active one cannot save:
    its attempt fails and changes nothing. *)
Theorem source_state_never_regresses (ops : list source_op) (d : source_db) :
  source_ok d →
  let d' := run_ops ops d in
  history_le d d' ∧
  (∀ s, Forall (λ op, op_begins op ≠ Some s) ops → checkpoint_step s d d') ∧
  (∀ session now f f' sequence position ranges,
     active (ss_SourceID session) d' ≠ Some (ss_ID session) →
     ∃ e, saveCheckpoint session now f f' (ss_SourceID session) sequence position ranges d' = (Err e, d')).
Proof.
  intros Hok. cbn zeta. split; [by apply run_ops_history|]. split.
  { intros s Hs. apply run_ops_checkpoint; [apply Hok|done]. }
  intros session now f f' sequence position ranges Hn. apply save_cases. intros coverage Hcr. cbn zeta.
  destruct (fenced session sequence position ranges coverage now f _ Hn) as (e & He).
  pose proof (advanceSource_cases session sequence position ranges coverage now f (run_ops ops d)
                (so_rows _ (run_ops_ok ops d Hok))) as Hc. rewrite He in *.
  destruct (errors_Is e ErrSourceCheckpointCommitUncertain) eqn:Hu; cbn [negb]; [|by eexists].
  destruct (checkpointConfirmed session sequence position ranges f' (run_ops ops d)) as [[|]|readErr] eqn:Hr;
    [|by eexists|by eexists].
  exfalso. apply Hn. eapply sv_active, confirmed_saved; [|exact Hr].
  unfold advanceSourceCheckpoint in He. destruct (isLowerHex128 (ss_ID session)); [done|].
  rewrite orb_true_r in He. cbn in He. injection He as <-. done.
Qed.

(** C14: Retired generations were processed to the end. After any history of
    operations, a retired file generation has a final size, its durable prefix
    reaches it, and every byte of it was covered before the history or by a range
    of a checkpoint saved during it, at which the prefix moved past that byte; no
    receipt and no checkpoint refers to it. *)
Theorem retired_generations_were_covered (ops : list source_op) (d : source_db) key r :
  source_ok d → sd_generations (run_ops ops d) !! key = Some r → gr_State r = FileGenerationRetired →
  (∃ eof, gr_FinalEOF r = Some eof ∧ gr_DurableEndOffset r = Some eof ∧
     ∀ b, 0 ≤ b < eof → covers key b d ∨
       ∃ before op after span, ops = before ++ op :: after ∧ span ∈ op_ranges op ∧ span_holds span key.2 b ∧
         ¬ covers key b (run_ops before d) ∧ covers key b (run_op op (run_ops before d))) ∧
  (∀ id x, sd_receipts (run_ops ops d) !! id = Some x → rr_source x = key.1 →
     pc_Generation (rr_position x) ≠ Some key.2) ∧
  (∀ c, sd_checkpoints (run_ops ops d) !! key.1 = Some c → pc_Generation (cr_Position c) ≠ Some key.2).
Proof.
  intros Hok Hr Hs. pose proof (run_ops_ok ops d Hok) as Hok'.
  assert (∀ s p, references_live s p (run_ops ops d) = true → s = key.1 → pc_Generation p ≠ Some key.2) as Hlive.
  { intros s p Hl -> Hp. unfold references_live in Hl. rewrite Hp in Hl.
    replace (key.1, key.2) with key in Hl by (by destruct key). rewrite Hr in Hl.
    unfold in_state in Hl. by rewrite bool_decide_eq_true_2 in Hl. }
  split; [|split; [intros id x Hx Heq; eapply Hlive; [by eapply so_receipts|done]
                  |intros c Hc; eapply Hlive; [by eapply so_checkpoints|done]]].
  pose proof (so_retired _ Hok' _ _ Hr Hs) as Hd. destruct (gr_FinalEOF r) as [eof|] eqn:He.
  2:{ exfalso. pose proof (so_rows _ Hok' _ _ Hr) as Hck%check_state. unfold state_check in Hck.
      rewrite Hs, He in Hck. states. cbn in Hck. by rewrite ?andb_false_r in Hck. }
  exists eof. split; [done|]. split; [done|]. intros b Hb.
  assert (covers key b (run_ops ops d)) as Hcov
    by (exists eof; unfold durable_end; rewrite Hr; cbn; split; [done|lia]).
  clear Hr Hs Hd He Hlive Hok'. induction ops as [|op ops IH] using rev_ind; [by left|].
  unfold run_ops in Hcov. rewrite foldl_app in Hcov. cbn in Hcov. fold (run_ops ops d) in Hcov.
  destruct (covers_dec key b (run_ops ops d)) as [Hc|Hn].
  - destruct (IH Hc) as [?|(before & op' & after & span & -> & ? & ? & ? & ?)]; [by left|]. right.
    exists before, op', (after ++ [op]), span. rewrite <- app_assoc. done.
  - right. exists ops, op, []. edestruct effects_covers as (span & ? & ?);
      [apply op_effect, run_ops_ok, Hok|exact (proj1 Hb)|exact Hcov|exact Hn|]. by exists span.
Qed.
