(* ===== verification/SourceLab.v ===== *)
(** * The life of a file source

    A run of the operations of file SourceStore: a source is registered, its first
    session reads one file to its end, through a commit whose acknowledgement is
    lost, the file is rotated, sealed and retired. The theorems of file
    SourceHistory are applied to it. *)

From S2P Require Import Prelude GoStd Sha256 Netip Identity CoreModel ObservedState ReconcilePlan.
From S2P Require Import ObservedStore ReconcileStore SourceStore SourceHistory.

Abbreviation auth := ("auth" : SourceID) (only parsing).
Definition lab_session : SourceSession := MkSourceSession auth "00000000000000000000000000000051".
Definition stale_session : SourceSession := MkSourceSession auth "00000000000000000000000000000052".
Definition lab_generation (g : string) (inode at_ : Z) : FileGeneration :=
  MkFileGeneration None None auth g 7 inode "/var/log/auth.log" FileGenerationOpen 0 None None
    (sample_time + at_ * second) None None None.
Abbreviation first_file := ("00000000000000000000000000000001") (only parsing).
Abbreviation second_file := ("00000000000000000000000000000002") (only parsing).
Definition lab_span (g : string) (inode lo hi : Z) : FilePosition := MkFilePosition g 7 inode lo hi.
Definition lost_commit : fault := FailCommit (Errorf "connection lost") true.

Definition empty_source_db : source_db := MkSourceDb {[sample_node]} ∅ ∅ ∅ ∅.
Lemma empty_source_ok : source_ok empty_source_db.
Proof.
  split; [intros k r Hr|intros s c Hc|intros id r Hr|intros k r Hr];
    cbn in *; rewrite lookup_empty in *; discriminate.
Qed.

(** The first file is open and covered from its start. *)
Definition opening : list source_op :=
  [OpEnsure auth sample_node SourceKindFile sample_time StatementsDone;
   OpBegin auth "" (ss_ID lab_session) NoFault;
   OpRegister (lab_generation first_file 11 0) StatementsDone;
   OpInitialize lab_session first_file NoFault].
Definition save_first (f f' : fault) : source_op :=
  OpSave lab_session sample_time f f' auth 3 (PositionFile (lab_span first_file 11 4 9))
    [lab_span first_file 11 0 9].
(** It is read to its end, rotated, sealed and retired. *)
Definition closing : list source_op :=
  [save_first lost_commit NoFault;
   OpRotate auth first_file (lab_generation second_file 12 1) (sample_time + 1 * second) NoFault;
   OpInitialize lab_session second_file NoFault;
   OpSealSession lab_session first_file FileGenerationDraining 9 3 (sample_time + 2 * second) NoFault;
   OpSave lab_session sample_time NoFault NoFault auth 4 (PositionFile (lab_span second_file 12 0 6))
     [lab_span second_file 12 0 6];
   OpRetire auth first_file (sample_time + 3 * second) NoFault].

Abbreviation opened := (run_ops opening empty_source_db) (only parsing).
Abbreviation saved :=
  (saveCheckpoint lab_session sample_time lost_commit NoFault auth 3 (PositionFile (lab_span first_file 11 4 9))
     [lab_span first_file 11 0 9] opened) (only parsing).
Lemma save_is_truthful_witness :
  saved.1 = Ok tt ∧
  is_saved lab_session 3 (PositionFile (lab_span first_file 11 4 9)) [lab_span first_file 11 0 9] saved.2.
Proof.
  assert (saved.1 = Ok tt) as Hs by (vm_compute; reflexivity). split; [exact Hs|].
  pose proof (save_is_truthful lab_session sample_time lost_commit NoFault 3
    (PositionFile (lab_span first_file 11 4 9)) [lab_span first_file 11 0 9] opened
    (run_ops_ok _ _ empty_source_ok) eq_refl) as H.
  revert Hs H. change (ss_SourceID lab_session) with auth.
  generalize saved. intros [r d'] Hs H. cbn in Hs. rewrite Hs in H. exact H.
Defined.

Abbreviation closed := (run_ops closing opened) (only parsing).
Definition closed_checkpoint : option (option SourceSessionID * Z) :=
  Eval vm_compute in (λ c, (cr_SessionID c, cr_DeliverySequence c)) <$> sd_checkpoints closed !! auth.
Lemma source_state_never_regresses_witness :
  closed_checkpoint = Some (Some (ss_ID lab_session), 4) ∧
  checkpoint_step auth opened closed ∧
  ∃ e, saveCheckpoint stale_session sample_time NoFault NoFault auth 9 (PositionFile (lab_span second_file 12 6 8))
         [lab_span second_file 12 6 8] closed = (Err e, closed).
Proof.
  split; [reflexivity|].
  destruct (source_state_never_regresses closing opened (run_ops_ok _ _ empty_source_ok)) as (_ & Hc & Hs).
  split.
  - apply Hc. repeat constructor; discriminate.
  - apply (Hs stale_session). vm_compute. discriminate.
Defined.

Definition retired_row : option sourceFileGenerationRow :=
  Eval vm_compute in sd_generations closed !! (auth, first_file).
(** Every byte of the retired file was covered by a save of the run. *)
Lemma retired_generations_were_covered_witness :
  match retired_row with
  | Some r => gr_State r = FileGenerationRetired ∧
      ∃ eof, gr_FinalEOF r = Some eof ∧ gr_DurableEndOffset r = Some eof ∧
        ∀ b, 0 ≤ b < eof → covers (auth, first_file) b opened ∨
          ∃ before op after span, closing = before ++ op :: after ∧ span ∈ op_ranges op ∧
            span_holds span first_file b ∧ ¬ covers (auth, first_file) b (run_ops before opened) ∧
            covers (auth, first_file) b (run_op op (run_ops before opened))
  | None => False
  end.
Proof.
  assert (sd_generations closed !! (auth, first_file) = retired_row) as Hr by (vm_compute; reflexivity).
  destruct retired_row as [r|] eqn:Hrow; [|discriminate Hrow].
  assert (gr_State r = FileGenerationRetired) as Hs by (injection Hrow as <-; reflexivity).
  split; [exact Hs|].
  exact (proj1 (retired_generations_were_covered closing opened (auth, first_file) r
    (run_ops_ok _ _ empty_source_ok) Hr Hs)).
Defined.
