(* ===== verification/UnitOfWork.v ===== *)
(** * The processing unit of work (internal/store/uow.go, internal/processor/sqlite_store.go)

    The tables a processing attempt writes, with their constraints, immediate and
    deferred foreign keys included; the unit of work, whose first failure is
    sticky, with its writes, its commit and its rollback; the receipts read back
    from their rows; and the adapter through which the coordinator of file
    Coordinator uses them. The statements of a unit of work answer from a script:
    each fails with the error at its head, if there is one. *)

From S2P Require Import Prelude GoStd Sha256 Netip Identity CoreModel Enforcement Json JsonDecode Projection.
From S2P Require Import MemoryService.
From S2P Require Import DecisionTx DecisionStore ObservedState ReconcilePlan ObservedStore ReconcileStore.
From S2P Require Import Coordinator Pipeline SourceStore.

Definition errUnitOfWorkClosed : error := Errorf "unit of work is closed".

(** ** Rows *)
Record parserTerminalOutcomeRow := MkParserOutcomeRow {
  por_Kind : string;
  por_EmittedCount : Z;
  por_FailureCode : option string;
  por_CompletedAtUS : Z
}.
Record detectionTerminalOutcomeRow := MkDetectionOutcomeRow {
  dor_DeliveryID : string;
  dor_Kind : string;
  dor_FailureCode : option string;
  dor_CompletedAtUS : Z
}.
Record detectionContributionRow := MkContributionRow {
  dcr_DeliveryID : string;
  dcr_ContributedAtUS : Z
}.
Record alertRow := MkAlertRow {
  alr_NodeID : string;
  alr_EventID : string;
  alr_RuleID : string;
  alr_RuleVersion : string;
  alr_CanonicalTarget : Prefix;
  alr_ObservedAtUS : Z;
  alr_CreatedAtUS : Z
}.
Record criticalAuditRow := MkCriticalAuditRow {
  car_AuditID : string;
  car_IdempotencyKey : string;
  car_NodeID : string;
  car_Category : string;
  car_Action : string;
  car_Result : string;
  car_Severity : string;
  car_Critical : Z;
  car_ActorType : string;
  car_DeliveryID : option string;
  car_AlertID : option string;
  car_DecisionID : option string;
  car_ErrorCode : option string;
  car_DetailsJSON : string;
  car_CreatedAtUS : Z
}.
Abbreviation member := (EventID * RuleID * RuleVersion)%type (only parsing).

(** Of the decision tables, see file DecisionStore. *)
Record processing_db := MkProcessingDb {
  pd_source : source_db;
  pd_parser_versions : gset (ParserID * ParserVersion);
  pd_rule_versions : gset (RuleID * RuleVersion);
  pd_parser_outcomes : gmap (DeliveryID * ParserID * ParserVersion) parserTerminalOutcomeRow;
  pd_contributions : gmap member detectionContributionRow;
  pd_detection_outcomes : gmap member detectionTerminalOutcomeRow;
  pd_alerts : gmap AlertID alertRow;
  pd_decisions : db
}.
Definition put_source (d : processing_db) (s : source_db) : processing_db :=
  MkProcessingDb s (pd_parser_versions d) (pd_rule_versions d) (pd_parser_outcomes d) (pd_contributions d)
    (pd_detection_outcomes d) (pd_alerts d) (pd_decisions d).
Definition put_parser_outcomes (d : processing_db) m : processing_db :=
  MkProcessingDb (pd_source d) (pd_parser_versions d) (pd_rule_versions d) m (pd_contributions d)
    (pd_detection_outcomes d) (pd_alerts d) (pd_decisions d).
Definition put_contributions (d : processing_db) m : processing_db :=
  MkProcessingDb (pd_source d) (pd_parser_versions d) (pd_rule_versions d) (pd_parser_outcomes d) m
    (pd_detection_outcomes d) (pd_alerts d) (pd_decisions d).
Definition put_detection_outcomes (d : processing_db) m : processing_db :=
  MkProcessingDb (pd_source d) (pd_parser_versions d) (pd_rule_versions d) (pd_parser_outcomes d)
    (pd_contributions d) m (pd_alerts d) (pd_decisions d).
Definition put_alerts (d : processing_db) m : processing_db :=
  MkProcessingDb (pd_source d) (pd_parser_versions d) (pd_rule_versions d) (pd_parser_outcomes d)
    (pd_contributions d) (pd_detection_outcomes d) m (pd_decisions d).
Definition put_decisions (d : processing_db) (m : db) : processing_db :=
  MkProcessingDb (pd_source d) (pd_parser_versions d) (pd_rule_versions d) (pd_parser_outcomes d)
    (pd_contributions d) (pd_detection_outcomes d) (pd_alerts d) m.

(** ** The unit of work *)
Record UnitOfWork := MkUnit {
  uw_db : processing_db;
  uw_failed : option error;
  uw_done : bool;
  uw_io : list (option error)
}.
Abbreviation Unit := (ST UnitOfWork).

Definition uow_ready : Unit unit := λ u,
  if uw_done u then (Err errUnitOfWorkClosed, u)
  else match uw_failed u with Some e => (Err e, u) | None => (Ok tt, u) end.
Definition uow_fail {A} (e : error) : Unit A := λ u,
  (Err e, MkUnit (uw_db u) (Some (default e (uw_failed u))) (uw_done u) (uw_io u)).
Definition uow_check {A} (r : result A) : Unit A :=
  match r with Ok a => mret a | Err e => uow_fail e end.
(** A statement; one that fails changes nothing. *)
Definition uow_statement {A} (on_error : error → error) (statement : ST processing_db A) : Unit A := λ u,
  let io := tail (uw_io u) in
  match default None (head (uw_io u)), statement (uw_db u) with
  | Some e, _ | None, (Err e, _) =>
    uow_fail (on_error e) (MkUnit (uw_db u) (uw_failed u) (uw_done u) io)
  | None, (Ok a, d) => (Ok a, MkUnit d (uw_failed u) (uw_done u) io)
  end.
Definition uow_exec {A} (msg : string) : ST processing_db A → Unit A := uow_statement (Wrapf msg).
(** A method of the unit of work over the decision tables. *)
Definition on_decisions {A} (m : ST db A) : Unit A :=
  uow_ready;;
  uow_statement id (λ d, let '(r, m') := m (pd_decisions d) in (r, put_decisions d m')).

(** ** Writes *)
Definition pd_guard (b : bool) : ST processing_db unit := if b then mret tt else st_fail constraint_failed.
Definition optional_text (s : string) : option string := if is_empty s then None else Some s.
Definition code_check (code : option string) : bool :=
  match code with Some s => sql_between 128 s | None => true end.

Definition parserOutcomeKindValue (kind : ParserOutcomeKind) : result string :=
  match kind with
  | ParserOutcomeSuccess => Ok "success"
  | ParserOutcomeNoMatch => Ok "no_match"
  | ParserOutcomeRecordPermanent => Ok "record_permanent"
  | ParserOutcomeKindOther _ => Err (Errorf "put parser outcome: unsupported kind %d")
  end.
Definition parser_outcome_check (r : parserTerminalOutcomeRow) : bool :=
  code_check (por_FailureCode r) && (0 <? por_CompletedAtUS r)
  && (if bool_decide (por_Kind r = "success") then (0 <? por_EmittedCount r) && is_null (por_FailureCode r)
      else if bool_decide (por_Kind r = "no_match")
      then (por_EmittedCount r =? 0) && is_null (por_FailureCode r)
      else bool_decide (por_Kind r = "record_permanent") && (por_EmittedCount r =? 0)
           && negb (is_null (por_FailureCode r))).
Definition insert_parser_outcome (key : DeliveryID * ParserID * ParserVersion) (r : parserTerminalOutcomeRow)
    : ST processing_db unit :=
  d ← st_get;
  pd_guard (is_null (pd_parser_outcomes d !! key) && parser_outcome_check r
            && bool_decide ((key.1.2, key.2) ∈ pd_parser_versions d));;
  st_put (put_parser_outcomes d (<[key := r]> (pd_parser_outcomes d))).
Definition PutParserOutcome (outcome : ParserTerminalOutcome) : Unit unit :=
  uow_ready;;
  uow_check (wrap "put parser outcome: validate" (ParserTerminalOutcome_Validate outcome));;
  kind ← uow_check (parserOutcomeKindValue (po_Kind outcome));
  uow_exec "put parser outcome for delivery %q"
    (insert_parser_outcome (po_DeliveryID outcome, po_ParserID outcome, po_ParserVersion outcome)
       (MkParserOutcomeRow kind (po_EmittedCount outcome) (optional_text (po_FailureCode outcome))
          (UnixMicro (po_CompletedAt outcome)))).

(** The insert with ON CONFLICT DO NOTHING: whether it inserted. *)
Definition insert_contribution (key : member) (r : detectionContributionRow) : ST processing_db bool :=
  d ← st_get;
  match pd_contributions d !! key with
  | Some _ => mret false
  | None =>
    pd_guard ((0 <? dcr_ContributedAtUS r) && bool_decide ((key.1.2, key.2) ∈ pd_rule_versions d));;
    st_put (put_contributions d (<[key := r]> (pd_contributions d)));;
    mret true
  end.
Definition take_contribution (key : member) : ST processing_db detectionContributionRow :=
  row ← st_gets (λ d, pd_contributions d !! key);
  match row with Some row => mret row | None => st_fail (Errorf "sql: no rows in result set") end.
Definition PutDetectionContribution (contribution : DetectionContribution) : Unit bool :=
  uow_ready;;
  uow_check (wrap "put detection contribution: validate" (DetectionContribution_Validate contribution));;
  let key := (dk_EventID contribution, dk_RuleID contribution, dk_RuleVersion contribution) in
  inserted ← uow_exec "put detection contribution for event %q"
    (insert_contribution key
       (MkContributionRow (dk_DeliveryID contribution) (UnixMicro (dk_ContributedAt contribution))));
  if (inserted : bool) then mret true
  else
    existing ← uow_exec "put detection contribution for event %q: verify duplicate" (take_contribution key);
    if negb (bool_decide (dcr_DeliveryID existing = dk_DeliveryID contribution))
    then uow_fail (Errorf "put detection contribution for event %q: stable delivery identity differs")
    else mret false.

Definition detectionOutcomeKindValue (kind : DetectionOutcomeKind) : result string :=
  match kind with
  | DetectionOutcomeSuccess => Ok "success"
  | DetectionOutcomeRecordPermanent => Ok "record_permanent"
  | DetectionOutcomeKindOther _ => Err (Errorf "put detection outcome: unsupported kind %d")
  end.
Definition detection_outcome_check (r : detectionTerminalOutcomeRow) : bool :=
  code_check (dor_FailureCode r) && (0 <? dor_CompletedAtUS r)
  && (if bool_decide (dor_Kind r = "success") then is_null (dor_FailureCode r)
      else bool_decide (dor_Kind r = "record_permanent") && negb (is_null (dor_FailureCode r))).
Definition insert_detection_outcome (key : member) (r : detectionTerminalOutcomeRow) : ST processing_db unit :=
  d ← st_get;
  pd_guard (is_null (pd_detection_outcomes d !! key) && detection_outcome_check r
            && bool_decide ((key.1.2, key.2) ∈ pd_rule_versions d));;
  st_put (put_detection_outcomes d (<[key := r]> (pd_detection_outcomes d))).
Definition PutDetectionOutcome (outcome : DetectionTerminalOutcome) : Unit unit :=
  uow_ready;;
  uow_check (wrap "put detection outcome: validate" (DetectionTerminalOutcome_Validate outcome));;
  kind ← uow_check (detectionOutcomeKindValue (do_Kind outcome));
  uow_exec "put detection outcome for event %q"
    (insert_detection_outcome (do_EventID outcome, do_RuleID outcome, do_RuleVersion outcome)
       (MkDetectionOutcomeRow (do_DeliveryID outcome) kind (optional_text (do_FailureCode outcome))
          (UnixMicro (do_CompletedAt outcome)))).

(** The column of the target holds the prefix; its text has between 3 and 64
    characters. *)
Definition alert_member (r : alertRow) : member := (alr_EventID r, alr_RuleID r, alr_RuleVersion r).
Definition insert_alert (id : AlertID) (r : alertRow) : ST processing_db unit :=
  d ← st_get;
  pd_guard (is_null (pd_alerts d !! id) && sql_between 160 id
            && (0 <? alr_ObservedAtUS r) && (0 <? alr_CreatedAtUS r)
            && forallb (λ '(_, x), negb (bool_decide (alert_member x = alert_member r))) (map_to_list (pd_alerts d))
            && bool_decide (alr_NodeID r ∈ sd_nodes (pd_source d))
            && bool_decide ((alr_RuleID r, alr_RuleVersion r) ∈ pd_rule_versions d)
            && bool_decide (is_Some (pd_contributions d !! alert_member r)));;
  st_put (put_alerts d (<[id := r]> (pd_alerts d))).
Definition PutAlert (alert : Alert) : Unit unit :=
  uow_ready;;
  uow_check (wrap "put alert: validate" (Alert_Validate alert));;
  uow_exec "put alert %q"
    (insert_alert (al_ID alert)
       (MkAlertRow (al_NodeID alert) (al_EventID alert) (al_RuleID alert) (al_RuleVersion alert)
          (al_CanonicalTarget alert) (UnixMicro (al_ObservedAt alert)) (UnixMicro (al_CreatedAt alert)))).

(** The row of a decision, terminal fields included; its times are microseconds. *)
Definition full_decision_row (v : Decision) : Decision :=
  MkDecision (d_ID v) (d_NodeID v) (d_Source v) (d_RuleID v) (d_RuleVersion v) (d_AlertID v)
    (d_CanonicalTarget v) (us (d_CreatedAt v)) (us (d_UpdatedAt v)) (us (d_LastTriggeredAt v))
    (us <$> d_ExpiresAt v) (us <$> d_EndedAt v) (d_State v) (d_EndReason v) (d_SuppressedCount v).
(** The checks that the validation before the insert does not imply, the indexes
    and the references. *)
Definition insert_full_decision (v : Decision) : ST processing_db unit :=
  d ← st_get;
  pd_guard (sql_between 160 (d_ID v) && (0 <? UnixMicro (d_CreatedAt v))
            && (0 <=? d_SuppressedCount v) && (d_SuppressedCount v <=? max_int64)
            && negb (row_conflicts (db_decisions (pd_decisions d)) (full_decision_row v))
            && bool_decide (d_NodeID v ∈ sd_nodes (pd_source d))
            && match d_RuleID v, d_RuleVersion v with
               | Some rule, Some version => bool_decide ((rule, version) ∈ pd_rule_versions d)
               | _, _ => true
               end
            && match d_AlertID v with Some a => bool_decide (is_Some (pd_alerts d !! a)) | None => true end);;
  st_put (put_decisions d
    (set_decisions (pd_decisions d) (db_decisions (pd_decisions d) ++ [full_decision_row v]))).
Definition decisionSourceValue (source : DecisionSource) : result string :=
  match source with
  | DecisionSourceAutomatic => Ok "automatic"
  | DecisionSourceManual => Ok "manual"
  | DecisionSourceOther _ => Err (Errorf "put decision: unsupported source %d")
  end.
Definition decisionStateValue (state : DecisionState) : result string :=
  match state with
  | DecisionActive => Ok "active"
  | DecisionExpired => Ok "expired"
  | DecisionRevoked => Ok "revoked"
  | DecisionStateOther _ => Err (Errorf "put decision: unsupported state %d")
  end.
Definition PutDecision (v : Decision) : Unit unit :=
  uow_ready;;
  uow_check (wrap "put decision: validate" (Decision_Validate v));;
  uow_check (fail_if (bool_decide (d_Source v = DecisionSourceAutomatic) && is_null (d_RuleVersion v))
               (Errorf "put decision: automatic decision requires rule version"));;
  uow_check (fail_if (bool_decide (d_Source v = DecisionSourceManual)
                      && (negb (is_null (d_RuleID v)) || negb (is_null (d_RuleVersion v))
                          || negb (is_null (d_AlertID v))))
               (Errorf "put decision: manual decision cannot reference rule or alert"));;
  uow_check (fail_if (IsZero (d_CreatedAt v) || IsZero (d_UpdatedAt v) || IsZero (d_LastTriggeredAt v))
               (Errorf "put decision: lifecycle times are required"));;
  _ ← uow_check (decisionSourceValue (d_Source v));
  _ ← uow_check (decisionStateValue (d_State v));
  uow_exec "put decision %q" (insert_full_decision v).

(** json.Valid: one value, and white space. *)
Definition json_Valid (raw : list Z) : bool :=
  match parse_value (json_fuel raw) raw with
  | Some (_, rest) => match skip_space rest with [] => true | _ => false end
  | None => false
  end.
Definition new_audit_row (audit : CriticalAudit) (details : list Z) : criticalAuditRow :=
  MkCriticalAuditRow (cu_ID audit) (cu_IdempotencyKey audit) (cu_NodeID audit) (cu_Category audit)
    (cu_Action audit) (cu_Result audit) (cu_Severity audit) 1 (cu_ActorType audit) (cu_DeliveryID audit)
    (cu_AlertID audit) (cu_DecisionID audit) (optional_text (cu_ErrorCode audit)) (string_of_bytes details)
    (UnixMicro (cu_CreatedAt audit)).
(** Of an audit row, the decision tables keep its two unique columns. *)
Definition audit_check (r : criticalAuditRow) : bool :=
  sql_between 160 (car_AuditID r) && sql_between 256 (car_IdempotencyKey r) && sql_between 64 (car_Category r)
  && sql_between 128 (car_Action r)
  && existsb (λ s, bool_decide (car_Result r = s)) ["success"; "rejected"; "failure"]
  && existsb (λ s, bool_decide (car_Severity r = s)) ["info"; "warning"; "critical"]
  && existsb (λ s, bool_decide (car_ActorType r = s)) ["system"; "administrator"; "source"]
  && match car_ErrorCode r with Some s => sql_length s <=? 128 | None => true end
  && match car_DeliveryID r with Some s => ValidDeliveryID s | None => true end
  && (0 <? car_CreatedAtUS r).
Definition insert_audit (r : criticalAuditRow) : ST processing_db unit :=
  d ← st_get;
  let audits := db_audits (pd_decisions d) in
  pd_guard (audit_check r
            && negb (existsb (λ a, bool_decide (a.1 = car_AuditID r) || bool_decide (a.2 = car_IdempotencyKey r))
                       audits)
            && bool_decide (car_NodeID r ∈ sd_nodes (pd_source d))
            && match car_AlertID r with Some a => bool_decide (is_Some (pd_alerts d !! a)) | None => true end
            && match car_DecisionID r with
               | Some i => existsb (λ v, bool_decide (d_ID v = i)) (db_decisions (pd_decisions d))
               | None => true
               end);;
  st_put (put_decisions d
    (DecisionStore.set_audits (pd_decisions d) (audits ++ [(car_AuditID r, car_IdempotencyKey r)]))).
Definition AppendCriticalAudit (audit : CriticalAudit) : Unit unit :=
  uow_ready;;
  uow_check (fail_if (is_empty (cu_ID audit) || is_empty (cu_IdempotencyKey audit) || is_empty (cu_NodeID audit))
               (Errorf "append critical audit: identity fields are required"));;
  uow_check (fail_if (is_empty (cu_Category audit) || is_empty (cu_Action audit) || is_empty (cu_Result audit)
                      || is_empty (cu_Severity audit) || is_empty (cu_ActorType audit)
                      || IsZero (cu_CreatedAt audit))
               (Errorf "append critical audit: classification fields are required"));;
  let details := match cu_DetailsJSON audit with [] => string_bytes "{}" | l => l end in
  uow_check (fail_if (negb (json_Valid details)) (Errorf "append critical audit: details must be valid JSON"));;
  uow_exec "append critical audit %q" (insert_audit (new_audit_row audit details)).

(** ** Receipts *)
Definition encodeReceipt (receipt : ProcessingReceipt) : result string :=
  match pr_Kind receipt with
  | ReceiptSuccess =>
    match pr_Failure receipt with
    | Some _ => Err (Errorf "put receipt: success cannot contain failure")
    | None => Ok "success"
    end
  | ReceiptRecordPermanent =>
    match pr_Failure receipt with
    | None => Err (Errorf "put receipt: permanent failure is incomplete")
    | Some f =>
      if is_empty (pf_Stage f) || is_empty (pf_Code f) || is_empty (pf_SanitizedError f)
         || is_empty (pf_Action f) || IsZero (pf_OccurredAt f)
      then Err (Errorf "put receipt: permanent failure is incomplete")
      else Ok "record_permanent"
    end
  | ReceiptKindOther _ => Err (Errorf "put receipt: unsupported kind %d")
  end.
Definition receipt_row (receipt : ProcessingReceipt) (position : position_columns) (kind : string)
    : processingReceiptRow :=
  let f := pr_Failure receipt in
  MkReceiptRow (pr_SourceID receipt) position kind (pf_Stage <$> f) (pf_Code <$> f) (pf_SanitizedError <$> f)
    (pf_Action <$> f) ((λ f, UnixMicro (pf_OccurredAt f)) <$> f) (UnixMicro (pr_Committed receipt)).
Definition on_source {A} (m : ST source_db A) : ST processing_db A := λ d,
  let '(r, s) := m (pd_source d) in (r, put_source d s).
Definition PutReceipt (receipt : ProcessingReceipt) : Unit unit :=
  uow_ready;;
  uow_check (wrap "put receipt: validate" (ProcessingReceipt_Validate receipt));;
  position ← uow_check (wrap "put receipt" (encodePosition (pr_Position receipt)));
  kind ← uow_check (encodeReceipt receipt);
  uow_exec "put receipt %q"
    (on_source (insert_receipt (pr_DeliveryID receipt) (receipt_row receipt position kind))).

Definition decode_receipt (id : DeliveryID) (row : processingReceiptRow) : result ProcessingReceipt :=
  position ← wrap "find processing receipt %q" (decodePosition (rr_position row));
  '(kind, failure) ←
    (if bool_decide (rr_Kind row = "success") then Ok (ReceiptSuccess, None)
     else if bool_decide (rr_Kind row = "record_permanent") then
       match rr_FailureStage row, rr_FailureCode row, rr_SanitizedError row, rr_TerminalAction row,
             rr_FailureOccurredAtUS row with
       | Some stage, Some code, Some sanitized, Some action, Some at_ =>
         Ok (ReceiptRecordPermanent, Some (MkPermanentFailure stage code sanitized action (from_UnixMicro at_)))
       | _, _, _, _, _ => Err (Errorf "find processing receipt %q: permanent failure is incomplete")
       end
     else Err (Errorf "find processing receipt %q: unsupported kind %q"));
  let receipt := MkProcessingReceipt id (rr_source row) position kind failure
                   (from_UnixMicro (rr_CommittedAtUS row)) in
  wrap "find processing receipt %q: validate" (ProcessingReceipt_Validate receipt);;
  Ok receipt.
(** [f] is the error of the query, if any. *)
Definition FindProcessingReceipt (id : DeliveryID) (f : option error) (d : source_db)
    : result (option ProcessingReceipt) :=
  if negb (ValidDeliveryID id) then Err (Errorf "find processing receipt: delivery id is not canonical")
  else match f, sd_receipts d !! id with
  | Some e, _ => Err (Wrapf "find processing receipt %q" e)
  | None, None => Ok None
  | None, Some row => receipt ← decode_receipt id row; Ok (Some receipt)
  end.

(** ** Commit and rollback *)
(** The deferred references: every outcome and contribution has its receipt. *)
Definition has_receipt (d : processing_db) (id : DeliveryID) : bool :=
  bool_decide (is_Some (sd_receipts (pd_source d) !! id)).
Definition deferred_hold (d : processing_db) : bool :=
  forallb (λ '((id, _, _), _), has_receipt d id) (map_to_list (pd_parser_outcomes d))
  && forallb (λ '(_, r), has_receipt d (dcr_DeliveryID r)) (map_to_list (pd_contributions d))
  && forallb (λ '(_, r), has_receipt d (dor_DeliveryID r)) (map_to_list (pd_detection_outcomes d)).
(** How the transaction of the driver ends: [Some (e, applied)] when the commit
    reports an error although it was, or was not, applied. *)
Definition tx_commit_fate := option (error * bool).
Definition BeginProcessing (begin_error : option error) (io : list (option error)) (durable : processing_db)
    : result UnitOfWork :=
  match begin_error with
  | Some e => Err (Wrapf "begin processing transaction" e)
  | None => Ok (MkUnit durable None false io)
  end.
Definition uow_close (u : UnitOfWork) : UnitOfWork := MkUnit (uw_db u) (uw_failed u) true (uw_io u).
(** [rollback] is the error of the rollback other than sql.ErrTxDone, if any. The
    result, the durable tables after it, and the unit of work. *)
Definition Commit (rollback : option error) (fate : tx_commit_fate) (durable : processing_db) (u : UnitOfWork)
    : result unit * processing_db * UnitOfWork :=
  if uw_done u then (Err errUnitOfWorkClosed, durable, u)
  else match uw_failed u with
  | Some e =>
    (Err (match rollback with Some re => Join e re | None => e end), durable, uow_close u)
  | None =>
    if negb (deferred_hold (uw_db u))
    then (Err (Wrapf "commit unit of work" constraint_failed), durable, uow_close u)
    else match fate with
    | None => (Ok tt, uw_db u, uow_close u)
    | Some (e, applied) =>
      (Err (Wrapf "commit unit of work" e), if applied then uw_db u else durable, uow_close u)
    end
  end.
Definition Rollback (rollback : option error) (u : UnitOfWork) : result unit * UnitOfWork :=
  if uw_done u then (Err errUnitOfWorkClosed, u)
  else (match rollback with Some e => Err (Wrapf "rollback unit of work" e) | None => Ok tt end, uow_close u).

(** ** The adapter *)
#[export] Instance unit_projection : ProjectionTransaction UnitOfWork := {|
  ListActiveDecisions node target := on_decisions (ListActiveDecisions node target);
  FindDecisionProjection node target := on_decisions (FindDecisionProjection node target);
  PutDecisionProjection p at_ := on_decisions (PutDecisionProjection p at_)
|}.
#[export] Instance unit_automatic : AutomaticTransaction UnitOfWork := {|
  InsertAutomaticDecision v := on_decisions (InsertAutomaticDecision v);
  at_FindDecisionByID id := on_decisions (at_FindDecisionByID id);
  FindActiveAutomaticDecision node rule target := on_decisions (FindActiveAutomaticDecision node rule target);
  SuppressAutomaticDecision id at_ := on_decisions (SuppressAutomaticDecision id at_);
  AppendAutomaticCreatedAudit a := on_decisions (AppendAutomaticCreatedAudit a);
  AppendAutomaticSuppressedAudit a := on_decisions (AppendAutomaticSuppressedAudit a)
|}.
#[export] Instance unit_desired : DesiredStateTransaction UnitOfWork := {|
  FindTargetEnforcementIntent node target := on_decisions (FindTargetEnforcementIntent node target);
  TargetEnforcementGenerationFloor node target := on_decisions (TargetEnforcementGenerationFloor node target);
  PutTargetEnforcementIntent i := on_decisions (PutTargetEnforcementIntent i);
  ResetTargetReconcileState node target g at_ := on_decisions (ResetTargetReconcileState node target g at_);
  AdvanceSnapshotRevision := on_decisions AdvanceSnapshotRevision
|}.

Record sqliteUnitOfWork := MkSqliteUnit {
  su_unit : UnitOfWork;
  su_projections : list DesiredBanProjection;
  su_changes : list TargetEnforcementChange;
  su_lastUpdatedAt : time
}.
Definition on_unit {A} (m : Unit A) : ST sqliteUnitOfWork A := λ s,
  let '(r, u) := m (su_unit s) in (r, MkSqliteUnit u (su_projections s) (su_changes s) (su_lastUpdatedAt s)).
Definition recordAutomaticDecision (request : AutomaticRequest) : ST sqliteUnitOfWork unit :=
  result ← on_unit (RecordAutomaticInTransaction request);
  match tar_Projection result with
  | None => mret tt
  | Some p => st_modify (λ s, MkSqliteUnit (su_unit s) (su_projections s ++ [p]) (su_changes s)
                (if Before (su_lastUpdatedAt s) (ar_TriggeredAt request) then ar_TriggeredAt request
                 else su_lastUpdatedAt s))
  end.
(** [finalizer] and [wake] are absent from the adapter of plans that make no
    automatic decisions. *)
Definition finalizeDesiredState (finalizer : option (DesiredBanProjection → ST UnitOfWork TargetPolicy))
    (wake : bool) : ST sqliteUnitOfWork unit := λ s,
  match su_projections s, finalizer with
  | [], _ => (Ok tt, s)
  | projections, Some policies =>
    if wake then
      (changes ← on_unit (FinalizeTargets policies projections (su_lastUpdatedAt s));
       st_modify (λ s, MkSqliteUnit (su_unit s) (su_projections s) changes (su_lastUpdatedAt s))) s
    else (Err (Errorf "automatic Decision desired-state dependencies are required"), s)
  | _, None => (Err (Errorf "automatic Decision desired-state dependencies are required"), s)
  end.
(** [cancelled] is the error of the context, if it has ended. *)
Definition commit_sqlite (cancelled rollback : option error) (fate : tx_commit_fate) (durable : processing_db)
    (u : UnitOfWork) : (commitState * option error) * processing_db * UnitOfWork :=
  match cancelled with
  | Some e =>
    let '(r, u) := Rollback rollback u in
    ((commitRejected, Some (match r with Err re => Join e (Wrapf "rollback canceled commit" re) | Ok _ => e end)),
     durable, u)
  | None =>
    let '(r, durable, u) := Commit rollback fate durable u in
    (match r with Ok _ => (commitConfirmed, None) | Err e => (commitUnknown, Some e) end, durable, u)
  end.
#[export] Instance sqlite_writer : OutcomeWriter sqliteUnitOfWork unit := {|
  tx_writeParserOutcome _ o := on_unit (PutParserOutcome o);
  tx_writeDetectionOutcome _ o := on_unit (PutDetectionOutcome o);
  tx_writeDetectionContribution _ c := on_unit (PutDetectionContribution c);
  tx_writeAlert _ a := on_unit (PutAlert a);
  tx_recordAutomaticDecision _ request := recordAutomaticDecision request;
  tx_writeCriticalAudit _ a := on_unit (AppendCriticalAudit a)
|}.
