(* ===== verification/UnitProofs.v ===== *)
(** * A unit of work is all or nothing

    Over any sequence of writes: the first failure is what every later write and
    the commit report, and nothing of the unit becomes durable; a unit without a
    failure becomes durable as a whole or not at all. Over any history of units
    the tables stay consistent and only grow, and a committed receipt is read back
    as it was written, up to the precision of its times. *)

From S2P Require Import Prelude GoStd Sha256 Netip Identity CoreModel Enforcement Json JsonDecode Projection.
From S2P Require Import MemoryService DecisionTx DecisionStore ObservedState ReconcilePlan ObservedStore.
From S2P Require Import ReconcileStore Coordinator Pipeline ExactlyOnce DecisionProofs SourceStore SourceHistory UnitOfWork.

(** ** Writes and units of work *)
Inductive uow_op :=
  | WParserOutcome (o : ParserTerminalOutcome)
  | WContribution (c : DetectionContribution)
  | WDetectionOutcome (o : DetectionTerminalOutcome)
  | WAlert (a : Alert)
  | WDecision (v : Decision)
  | WAudit (a : CriticalAudit)
  | WReceipt (r : ProcessingReceipt)
  | WDecisionTables (m : ST db unit).
Definition run_write (op : uow_op) : Unit unit :=
  match op with
  | WParserOutcome o => PutParserOutcome o
  | WContribution c => _ ← PutDetectionContribution c; mret tt
  | WDetectionOutcome o => PutDetectionOutcome o
  | WAlert a => PutAlert a
  | WDecision v => PutDecision v
  | WAudit a => AppendCriticalAudit a
  | WReceipt r => PutReceipt r
  | WDecisionTables m => on_decisions m
  end.
Fixpoint run_writes (ops : list uow_op) (u : UnitOfWork) : list (result unit) * UnitOfWork :=
  match ops with
  | [] => ([], u)
  | op :: ops => let '(r, u) := run_write op u in let '(rs, u) := run_writes ops u in (r :: rs, u)
  end.

(** ** The sticky failure *)
Definition checked {A} (m : Unit A) : Prop := ∀ u, uw_done u = false → uw_failed u = None →
  uw_done (m u).2 = false ∧
  match (m u).1 with Ok _ => uw_failed (m u).2 = None | Err e => uw_failed (m u).2 = Some e end.
Record unit_write {A} (m : Unit A) : Prop := {
  wr_closed u : uw_done u = true → m u = (Err errUnitOfWorkClosed, u);
  wr_sticky u e : uw_done u = false → uw_failed u = Some e → m u = (Err e, u);
  wr_checked : checked m
}.

Lemma checked_ret {A} (a : A) : checked (mret a).
Proof. by intros u Hd Hf. Qed.
Lemma checked_fail {A} (e : error) : checked (uow_fail e : Unit A).
Proof. intros u Hd Hf. cbn. by rewrite Hf. Qed.
Lemma checked_check {A} (r : result A) : checked (uow_check r).
Proof. destruct r; [apply checked_ret|apply checked_fail]. Qed.
Lemma checked_statement {A} f (m : ST processing_db A) : checked (uow_statement f m).
Proof.
  intros u Hd Hf. unfold uow_statement. destruct (default None (head (uw_io u))); cbn; [by rewrite Hf|].
  destruct (m (uw_db u)) as [[a|e] d]; cbn; [done|by rewrite Hf].
Qed.
Lemma checked_bind {A B} (m : Unit A) (k : A → Unit B) :
  checked m → (∀ a, checked (k a)) → checked (m ≫= k).
Proof.
  intros Hm Hk u Hd Hf. specialize (Hm u Hd Hf). unfold mbind, st_bind.
  destruct (m u) as [[a|e] u1]; cbn in *; destruct Hm as [Hd1 Hf1]; [by apply Hk|done].
Qed.
Lemma ready_write {A} (k : unit → Unit A) : checked (k tt) → unit_write (uow_ready ≫= k).
Proof.
  intros Hk. unfold uow_ready, mbind, st_bind. split.
  - intros u ->. done.
  - intros u e Hd Hf. by rewrite Hd, Hf.
  - intros u Hd Hf. rewrite Hd, Hf. by apply Hk.
Qed.
Create HintDb unit_of_work.
#[export] Hint Resolve checked_ret checked_fail checked_check checked_statement checked_bind : unit_of_work.

Lemma write_map {A B} (m : Unit A) (f : A → B) : unit_write m → unit_write (a ← m; mret (f a)).
Proof.
  intros [Hc Hs Hk]. split.
  - intros u Hd. unfold mbind, st_bind. by rewrite Hc.
  - intros u e Hd Hf. unfold mbind, st_bind. by rewrite (Hs u e).
  - apply checked_bind; auto with unit_of_work.
Qed.
Lemma run_write_write op : unit_write (run_write op).
Proof.
  destruct op; cbn; [|apply (write_map (PutDetectionContribution c) (λ _, tt))|..]; apply ready_write; unfold uow_exec; cbv zeta;
    repeat first [apply checked_bind; [solve [auto with unit_of_work]|intros ?]|apply checked_statement
                 |case_match|apply checked_fail|apply checked_ret].
Qed.

Lemma run_writes_sticky ops u e :
  uw_done u = false → uw_failed u = Some e → run_writes ops u = (replicate (length ops) (Err e), u).
Proof.
  intros Hd Hf. induction ops as [|op ops IH]; cbn; [done|].
  rewrite (wr_sticky _ (run_write_write op) u e Hd Hf), IH. done.
Qed.
(** Either every write succeeds, or all up to the first failure do and all that
    follow report it. *)
Lemma run_writes_results ops u :
  uw_done u = false → uw_failed u = None →
  let '(rs, u') := run_writes ops u in
  uw_done u' = false ∧
  match uw_failed u' with
  | None => rs = replicate (length ops) (Ok tt)
  | Some e => ∃ n m, rs = replicate n (Ok tt) ++ replicate (S m) (Err e)
  end.
Proof.
  revert u. induction ops as [|op ops IH]; intros u Hd Hf; cbn; [by rewrite Hf|].
  pose proof (wr_checked _ (run_write_write op) u Hd Hf) as [Hd1 Hr].
  destruct (run_write op u) as [[[]|e] u1]; cbn in *.
  - specialize (IH u1 Hd1 Hr). destruct (run_writes ops u1) as [rs u2]. destruct IH as [Hd2 Hrs].
    split; [done|]. destruct (uw_failed u2) as [e|].
    + destruct Hrs as (n & m & ->). by exists (S n), m.
    + by rewrite Hrs.
  - rewrite (run_writes_sticky ops u1 e Hd1 Hr). split; [done|]. rewrite Hr. by exists 0%nat, (length ops).
Qed.

(** ** Receipts and their rows *)
Definition failure_us (f : PermanentFailure) : PermanentFailure :=
  MkPermanentFailure (pf_Stage f) (pf_Code f) (pf_SanitizedError f) (pf_Action f) (us (pf_OccurredAt f)).
Definition receipt_us (r : ProcessingReceipt) : ProcessingReceipt :=
  MkProcessingReceipt (pr_DeliveryID r) (pr_SourceID r) (pr_Position r) (pr_Kind r)
    (failure_us <$> pr_Failure r) (us (pr_Committed r)).
(** The device and the inode are unsigned. *)
Definition unsigned_position (p : SourcePosition) : Prop :=
  match SourcePosition_File p with Some f => 0 ≤ fp_DeviceID f ∧ 0 ≤ fp_Inode f | None => True end.

Lemma position_decodes position encoded :
  SourcePosition_Valid position = true → unsigned_position position →
  encodePosition position = Ok encoded → position_check encoded = true → decodePosition encoded = Ok position.
Proof.
  unfold unsigned_position, encodePosition, decodePosition. intros Hv Hu He Hc.
  destruct position as [|file|cursor]; cbn in He, Hu; [done| |].
  - destruct (fail_if _ _) eqn:Hrange; cbn in He; [|done]. injection He as <-. unfold position_check in Hc. cbn in *.
    states. cbn in Hc. gobool. destruct Hv as [Hhex Hle].
    rewrite (proj2 (orb_false_iff _ _)).
    { unfold NewFilePosition. rewrite (fail_if_false (negb _)) by (gobool; done). cbn.
      rewrite fail_if_false by (gobool; lia). cbn. by destruct file. }
    rewrite !orb_false_iff, !Z.ltb_ge. lia.
  - injection He as <-. cbn. states. unfold NewJournaldPosition. cbn in Hv.
    by destruct (validateTextIdentifier "journald cursor" cursor) as [[]|].
Qed.
Lemma us_not_zero t : 0 < UnixMicro t → IsZero (us t) = false.
Proof. intros H%us_positive. unfold IsZero. lia. Qed.

Lemma validate_us r :
  ProcessingReceipt_Validate r = Ok tt → 0 < UnixMicro (pr_Committed r) →
  (∀ f, pr_Failure r = Some f → 0 < UnixMicro (pf_OccurredAt f)) →
  ProcessingReceipt_Validate (receipt_us r) = Ok tt.
Proof.
  unfold ProcessingReceipt_Validate. intros Hv Hc Hf. inv_ok. cbn.
  rewrite Hv0. cbn. destruct (validateTextIdentifier _ (pr_SourceID r)) as [[]|]; [|done]. cbn.
  apply orb_false_iff in Hv2 as [Hpos _]. rewrite Hpos, us_not_zero by done. cbn.
  rewrite Hv3. cbn. rewrite Hv4. cbn. destruct (pr_Kind r), (pr_Failure r) as [f|]; try done.
  cbn in *. inv_ok. rewrite us_not_zero by auto. apply fail_if_false.
  apply orb_false_iff in Hv as [Hv _]. by rewrite Hv.
Qed.
Lemma decode_row r position kind :
  ProcessingReceipt_Validate r = Ok tt → unsigned_position (pr_Position r) →
  encodePosition (pr_Position r) = Ok position → encodeReceipt r = Ok kind →
  receipt_check (receipt_row r position kind) = true →
  decode_receipt (pr_DeliveryID r) (receipt_row r position kind) = Ok (receipt_us r).
Proof.
  intros Hv Hu Hp Hk Hc. unfold receipt_check in Hc. cbn in Hc. gobool.
  destruct Hc as [[[Hpos Hkind] Hat] Hcommitted].
  assert (SourcePosition_Valid (pr_Position r) = true) as Hvalid.
  { unfold ProcessingReceipt_Validate in Hv. inv_ok. apply orb_false_iff in Hv2 as [Hv2 _].
    by destruct (SourcePosition_Valid _). }
  unfold decode_receipt. cbn [rr_position receipt_row]. rewrite (position_decodes _ _ Hvalid Hu Hp Hpos). cbn.
  assert (∀ f, pr_Failure r = Some f → 0 < UnixMicro (pf_OccurredAt f)) as Hf.
  { intros f Hf. rewrite Hf in *. cbn in *. revert Hk Hkind. unfold encodeReceipt. rewrite Hf.
    destruct (pr_Kind r); [done| |done]. destruct (_ || _); [done|]. intros [= <-]. states. cbn. intros Hx. gobool. idtac. tauto. }
  pose proof (validate_us r Hv Hcommitted Hf) as Hval.
  unfold encodeReceipt in Hk. unfold receipt_us, failure_us in *. cbn in *.
  destruct (pr_Kind r) eqn:Hrk; [| |done]; destruct (pr_Failure r) as [f|] eqn:Hrf; try done.
  - injection Hk as <-. cbn. states. cbn. unfold us in *. unfold from_UnixMicro. cbn in *. rewrite Hval. done.
  - destruct (_ || _); [done|]. injection Hk as <-. cbn. states. cbn. unfold us, from_UnixMicro in *. cbn in *.
    rewrite Hval. done.
Qed.

Lemma decode_validates id row r : decode_receipt id row = Ok r → ProcessingReceipt_Validate r = Ok tt.
Proof.
  unfold decode_receipt. intros H. apply result_bind_Ok in H as (p & _ & H).
  apply result_bind_Ok in H as ([kind failure] & _ & H). apply result_bind_Ok in H as ([] & Hv & H).
  injection H as <-. by apply wrap_Ok in Hv.
Qed.
(** The row of a receipt as PutReceipt writes it, and what it leaves. *)
Lemma PutReceipt_inv r u u' :
  PutReceipt r u = (Ok tt, u') →
  ∃ position kind, ProcessingReceipt_Validate r = Ok tt ∧ encodePosition (pr_Position r) = Ok position ∧
    encodeReceipt r = Ok kind ∧ receipt_check (receipt_row r position kind) = true ∧
    sd_receipts (pd_source (uw_db u)) !! pr_DeliveryID r = None ∧
    uw_db u' = put_source (uw_db u)
      (set_receipts (pd_source (uw_db u))
         (<[pr_DeliveryID r := receipt_row r position kind]> (sd_receipts (pd_source (uw_db u))))).
Proof.
  unfold PutReceipt. intros H. st_step H as x u1 Hr.
  assert (u1 = u) as -> by (revert Hr; unfold uow_ready; destruct (uw_done u), (uw_failed u); by intros [= _ <-]).
  unfold uow_check in H.
  destruct (wrap "put receipt: validate" (ProcessingReceipt_Validate r)) as [[]|] eqn:Hv; [|done].
  destruct (wrap "put receipt" (encodePosition (pr_Position r))) as [position|] eqn:Hp; [|done].
  destruct (encodeReceipt r) as [kind|] eqn:Hk; [|done].
  apply wrap_Ok in Hv, Hp. exists position, kind. do 3 (split; [done|]).
  unfold uow_exec, uow_statement, mbind, st_bind, mret, st_ret in H.
  destruct (default None (head (uw_io u))); [done|].
  unfold on_source in H.
  destruct (insert_receipt _ _ (pd_source (uw_db u))) as [[[]|] s] eqn:Hi; [|done].
  injection H as <-. cbn. revert Hi. unfold insert_receipt. autorewrite with st. intros Hi. guard_step Hi.
  injection Hi as <-. gobool. destruct Hg as [[[Hn Hc] _] _].
  by destruct (sd_receipts (pd_source (uw_db u)) !! pr_DeliveryID r).
Qed.
Lemma PutReceipt_found r u u' :
  unsigned_position (pr_Position r) → PutReceipt r u = (Ok tt, u') →
  FindProcessingReceipt (pr_DeliveryID r) None (pd_source (uw_db u')) = Ok (Some (receipt_us r)).
Proof.
  intros Hu (position & kind & Hv & Hp & Hk & Hc & _ & ->)%PutReceipt_inv.
  unfold FindProcessingReceipt. assert (ValidDeliveryID (pr_DeliveryID r) = true) as ->.
  { unfold ProcessingReceipt_Validate in Hv. inv_ok. by destruct (ValidDeliveryID _). }
  cbn. rewrite lookup_insert_eq. by rewrite (decode_row r position kind).
Qed.
Lemma kept_as_us r : ProcessingReceipt_Validate (receipt_us r) = Ok tt → kept_as r (receipt_us r).
Proof.
  intros Hv. split; [done|]. intros delivery completion. unfold completionFromReceipt. rewrite Hv. cbn.
  by destruct (ProcessingReceipt_Validate r) as [[]|].
Qed.

(** ** What a write may do to the tables *)
Definition readable (d : processing_db) : Prop := ∀ id row,
  sd_receipts (pd_source d) !! id = Some row →
  ∃ r, FindProcessingReceipt id None (pd_source d) = Ok (Some r).
(** The invariant of the tables within a transaction. *)
Record pd_inv (d : processing_db) : Prop := {
  pi_source : source_ok (pd_source d);
  pi_readable : readable d;
  pi_alerts id r : pd_alerts d !! id = Some r → is_Some (pd_contributions d !! alert_member r);
  pi_alert_member id id' r r' : pd_alerts d !! id = Some r → pd_alerts d !! id' = Some r' →
    alert_member r = alert_member r' → id = id'
}.
(** Rows are only added. *)
Record pd_le (d d' : processing_db) : Prop := {
  ple_receipts : sd_receipts (pd_source d) ⊆ sd_receipts (pd_source d');
  ple_parser_outcomes : pd_parser_outcomes d ⊆ pd_parser_outcomes d';
  ple_contributions : pd_contributions d ⊆ pd_contributions d';
  ple_detection_outcomes : pd_detection_outcomes d ⊆ pd_detection_outcomes d';
  ple_alerts : pd_alerts d ⊆ pd_alerts d'
}.
Definition pd_step (d d' : processing_db) : Prop := pd_le d d' ∧ (pd_inv d → pd_inv d').
#[export] Instance pd_le_preorder : PreOrder pd_le.
Proof. split; [by split|]. intros x y z [] []. split; by etrans. Qed.
#[export] Instance pd_step_preorder : PreOrder pd_step.
Proof. split; [done|]. intros x y z [L1 I1] [L2 I2]. split; [by etrans|auto]. Qed.

Definition steps {A} (m : Unit A) : Prop := ∀ u, pd_step (uw_db u) (uw_db (m u).2).
Lemma steps_ret {A} (a : A) : steps (mret a).
Proof. by intros u. Qed.
Lemma steps_fail {A} (e : error) : steps (uow_fail e : Unit A).
Proof. by intros u. Qed.
Lemma steps_ready : steps uow_ready.
Proof. intros u. unfold uow_ready. by destruct (uw_done u), (uw_failed u). Qed.
Lemma steps_bind {A B} (m : Unit A) (k : A → Unit B) : steps m → (∀ a, steps (k a)) → steps (m ≫= k).
Proof.
  intros Hm Hk u. specialize (Hm u). unfold mbind, st_bind. destruct (m u) as [[a|e] u1]; cbn in *; [|done].
  etrans; [exact Hm|apply Hk].
Qed.
Lemma steps_check {A B} (r : result A) (k : A → Unit B) :
  (∀ a, r = Ok a → steps (k a)) → steps (uow_check r ≫= k).
Proof.
  intros Hk. destruct r as [a|e]; cbn [uow_check].
  - intros u. by apply Hk.
  - by intros u.
Qed.
Lemma steps_statement {A} f (m : ST processing_db A) :
  (∀ d a d', m d = (Ok a, d') → pd_step d d') → steps (uow_statement f m).
Proof.
  intros Hm u. unfold uow_statement. destruct (default None (head (uw_io u))); [done|].
  destruct (m (uw_db u)) as [[a|e] d] eqn:He; [by eapply Hm|done].
Qed.

Ltac pd_guard_step H :=
  let Hg := fresh "Hg" in
  apply bind_Ok_inv in H; destruct H as (? & ? & Hg & H); unfold pd_guard in Hg;
  match type of Hg with (if ?b then _ else _) _ = _ => destruct b eqn:Hb; [|discriminate Hg] end;
  injection Hg as <- <-.
Lemma inv_same d d' :
  pd_source d' = pd_source d → pd_alerts d' = pd_alerts d → pd_contributions d ⊆ pd_contributions d' →
  pd_inv d → pd_inv d'.
Proof.
  intros Hs Ha Hc [I1 I2 I3 I4]. split.
  - by rewrite Hs.
  - unfold readable. rewrite Hs. exact I2.
  - intros id r. rewrite Ha. intros Hr. destruct (I3 id r Hr) as [x Hx]. exists x. by eapply lookup_weaken.
  - intros id id' r r'. rewrite Ha. apply I4.
Qed.
Lemma insert_step {K V} `{Countable K} (m : gmap K V) k v : is_null (m !! k) = true → m ⊆ <[k := v]> m.
Proof. intros Hk. apply insert_subseteq. by destruct (m !! k). Qed.

Lemma insert_parser_outcome_step key r d x d' : insert_parser_outcome key r d = (Ok x, d') → pd_step d d'.
Proof.
  unfold insert_parser_outcome. autorewrite with st. intros H. pd_guard_step H. injection H as <- <-.
  apply andb_true_iff in Hb as [[Hn _]%andb_true_iff _].
  split; [split; try done; by apply insert_step|]. by apply inv_same.
Qed.
Lemma insert_contribution_step key r d x d' : insert_contribution key r d = (Ok x, d') → pd_step d d'.
Proof.
  unfold insert_contribution. autorewrite with st. destruct (pd_contributions d !! key) eqn:Hk.
  { by intros [= <- <-]. }
  intros H. pd_guard_step H. injection H as <- <-.
  assert (pd_contributions d ⊆ <[key := r]> (pd_contributions d)) as Hle by (by apply insert_subseteq).
  split; [by split|]. by apply inv_same.
Qed.
Lemma take_contribution_step key d x d' : take_contribution key d = (Ok x, d') → pd_step d d'.
Proof. unfold take_contribution. autorewrite with st. by destruct (_ !! key); intros [= <- <-]. Qed.
Lemma insert_detection_outcome_step key r d x d' : insert_detection_outcome key r d = (Ok x, d') → pd_step d d'.
Proof.
  unfold insert_detection_outcome. autorewrite with st. intros H. pd_guard_step H. injection H as <- <-.
  apply andb_true_iff in Hb as [[Hn _]%andb_true_iff _].
  split; [split; try done; by apply insert_step|]. by apply inv_same.
Qed.
Lemma decisions_step d m : pd_step d (put_decisions d m).
Proof. split; [by split|]. by apply inv_same. Qed.
Lemma insert_full_decision_step v d x d' : insert_full_decision v d = (Ok x, d') → pd_step d d'.
Proof.
  unfold insert_full_decision. autorewrite with st. intros H. pd_guard_step H. injection H as <- <-.
  apply decisions_step.
Qed.
Lemma insert_audit_step r d x d' : insert_audit r d = (Ok x, d') → pd_step d d'.
Proof.
  unfold insert_audit. autorewrite with st. intros H. pd_guard_step H. injection H as <- <-.
  apply decisions_step.
Qed.
Lemma insert_alert_step id r d x d' : insert_alert id r d = (Ok x, d') → pd_step d d'.
Proof.
  unfold insert_alert. autorewrite with st. intros H. pd_guard_step H. injection H as <- <-.
  rewrite !andb_true_iff in Hb. destruct Hb as [[[[[[[Hn _] _] _] Hu] _] _] Hc].
  split; [split; try done; by apply insert_step|].
  assert (∀ id' r', pd_alerts d !! id' = Some r' → alert_member r' ≠ alert_member r) as Hfresh.
  { intros id' r' Hr' Heq. rewrite forallb_forall in Hu.
    specialize (Hu (id', r') (proj1 (list_elem_of_In _ _) (proj2 (elem_of_map_to_list _ _ _) Hr'))). cbn in Hu.
    by rewrite bool_decide_eq_true_2 in Hu. }
  intros [I1 I2 I3 I4]. split; [done|done|..]; cbn.
  - intros id' r'. destruct (decide (id' = id)) as [->|Hne].
    + rewrite lookup_insert_eq. intros [= <-]. by apply bool_decide_eq_true in Hc.
    + rewrite lookup_insert_ne by done. apply I3.
  - intros i j a b. destruct (decide (i = id)) as [->|Hi], (decide (j = id)) as [->|Hj];
      rewrite ?lookup_insert_eq, ?lookup_insert_ne by done; [done|..].
    + intros [= <-] Hb Heq. by destruct (Hfresh _ _ Hb).
    + intros Ha [= <-] Heq. by destruct (Hfresh _ _ Ha).
    + apply I4.
Qed.

(** A receipt that is written can be read back, and the others still can. *)
Lemma insert_receipt_step r position kind d x d' :
  ProcessingReceipt_Validate r = Ok tt → unsigned_position (pr_Position r) →
  encodePosition (pr_Position r) = Ok position → encodeReceipt r = Ok kind →
  on_source (insert_receipt (pr_DeliveryID r) (receipt_row r position kind)) d = (Ok x, d') → pd_step d d'.
Proof.
  intros Hv Hu Hp Hk. unfold on_source.
  destruct (insert_receipt _ _ (pd_source d)) as [[[]|e] s] eqn:Hi; [|done]. intros [= <- <-].
  pose proof (run_op_ok (OpReceipt (pr_DeliveryID r) (receipt_row r position kind)) (pd_source d)) as Hok.
  cbn in Hok. rewrite Hi in Hok. revert Hi. unfold insert_receipt. autorewrite with st. intros Hi. guard_step Hi.
  injection Hi as <-. rewrite !andb_true_iff in Hg. destruct Hg as [[[Hn Hc] _] _].
  split; [split; try done; by apply insert_step|]. intros [I1 I2 I3 I4]. split; [by apply Hok| |done|done].
  intros id row. cbn. unfold FindProcessingReceipt. cbn. destruct (decide (id = pr_DeliveryID r)) as [->|Hne].
  - rewrite lookup_insert_eq. intros [= <-]. exists (receipt_us r).
    assert (ValidDeliveryID (pr_DeliveryID r) = true) as ->.
    { unfold ProcessingReceipt_Validate in Hv. inv_ok. by destruct (ValidDeliveryID _). }
    cbn. by rewrite (decode_row r position kind).
  - rewrite lookup_insert_ne by done. apply I2.
Qed.

Definition op_typed (op : uow_op) : Prop :=
  match op with WReceipt r => unsigned_position (pr_Position r) | _ => True end.
Create HintDb unit_steps.
#[export] Hint Resolve steps_ret steps_fail steps_ready insert_parser_outcome_step insert_contribution_step
  take_contribution_step insert_detection_outcome_step insert_full_decision_step insert_audit_step
  insert_alert_step : unit_steps.
Lemma run_write_steps op : op_typed op → steps (run_write op).
Proof.
  intros Ht. destruct op; cbn [run_write];
    unfold PutParserOutcome, PutDetectionContribution, PutDetectionOutcome, PutAlert, PutDecision,
      AppendCriticalAudit, PutReceipt, on_decisions, uow_exec; cbv zeta;
    repeat first [apply steps_check; intros ? ?|apply steps_statement; solve [eauto with unit_steps]
                 |apply steps_bind; [|intros ?]|solve [auto with unit_steps]|case_match].
  - inv_ok. apply steps_statement. intros d y d'. by eapply insert_receipt_step.
  - apply steps_statement. intros d y d'. destruct (m (pd_decisions d)) as [r m']. intros [= _ <-].
    apply decisions_step.
Qed.

(** ** The end of a unit *)
Lemma Commit_cases rollback fate durable u :
  uw_done u = false → ∃ r durable', Commit rollback fate durable u = (r, durable', uow_close u) ∧
  match uw_failed u with
  | Some e => r = Err (match rollback with Some re => Join e re | None => e end) ∧ durable' = durable
  | None => (durable' = durable ∨ durable' = uw_db u ∧ deferred_hold (uw_db u) = true) ∧
            (r = Ok tt → durable' = uw_db u ∧ deferred_hold (uw_db u) = true)
  end.
Proof.
  intros Hd. unfold Commit. rewrite Hd. destruct (uw_failed u) as [e|]; [by eexists _, _|].
  destruct (deferred_hold (uw_db u)); cbn [negb]; [|by eexists _, _; split; [done|]; split; [left|]].
  destruct fate as [[e applied]|]; eexists _, _; (split; [done|]).
  - destruct applied; split; auto; done.
  - auto.
Qed.
Lemma closed_unit u : uw_done u = true →
  (∀ op, run_write op u = (Err errUnitOfWorkClosed, u)) ∧
  (∀ rollback fate durable, Commit rollback fate durable u = (Err errUnitOfWorkClosed, durable, u)) ∧
  (∀ rollback, Rollback rollback u = (Err errUnitOfWorkClosed, u)).
Proof.
  intros Hd. unfold Commit, Rollback. rewrite Hd. split; [|done]. intros op. by apply run_write_write.
Qed.

(** C10: A unit of work is all or nothing. Of any sequence of writes, either all
    succeed, or all up to a first failure do and every later one reports that
    failure. After a failure the commit reports it too and the durable tables are
    unchanged; without one they are unchanged or hold the whole unit, which is the
    case when the commit succeeds, and then every outcome and contribution has its
    receipt. Afterwards the unit is closed: every write, commit and rollback is
    refused and changes nothing. *)
Theorem unit_of_work_atomic ops io rollback fate durable :
  let '(rs, u) := run_writes ops (MkUnit durable None false io) in
  let '(r, durable', u') := Commit rollback fate durable u in
  ((∃ n e m, rs = replicate n (Ok tt) ++ replicate (S m) (Err e) ∧
      r = Err (match rollback with Some re => Join e re | None => e end) ∧ durable' = durable) ∨
   (rs = replicate (length ops) (Ok tt) ∧
      (durable' = durable ∨ durable' = uw_db u ∧ deferred_hold (uw_db u) = true) ∧
      (r = Ok tt → durable' = uw_db u ∧ deferred_hold (uw_db u) = true))) ∧
  (∀ op, run_write op u' = (Err errUnitOfWorkClosed, u')) ∧
  (∀ rollback fate durable, Commit rollback fate durable u' = (Err errUnitOfWorkClosed, durable, u')) ∧
  (∀ rollback, Rollback rollback u' = (Err errUnitOfWorkClosed, u')).
Proof.
  pose proof (run_writes_results ops (MkUnit durable None false io) eq_refl eq_refl) as H.
  destruct (run_writes ops _) as [rs u]. destruct H as [Hd Hrs].
  destruct (Commit_cases rollback fate durable u Hd) as (r & durable' & -> & Hc).
  split; [|by apply closed_unit]. destruct (uw_failed u) as [e|].
  - destruct Hrs as (n & m & ->), Hc as [-> ->]. left. by exists n, e, m.
  - by right.
Qed.

(** ** Histories of units *)
Record unit_run := MkUnitRun {
  ur_io : list (option error);
  ur_ops : list uow_op;
  ur_rollback : option error;
  ur_fate : tx_commit_fate
}.
Definition run_unit (x : unit_run) (durable : processing_db) : result unit * processing_db :=
  (Commit (ur_rollback x) (ur_fate x) durable
     (run_writes (ur_ops x) (MkUnit durable None false (ur_io x))).2).1.
Definition run_units (xs : list unit_run) (durable : processing_db) : processing_db :=
  foldl (λ d x, (run_unit x d).2) durable xs.
Definition units_typed (xs : list unit_run) : Prop := Forall (λ x, Forall op_typed (ur_ops x)) xs.
Record pd_ok (d : processing_db) : Prop := {
  pk_inv : pd_inv d;
  pk_deferred : deferred_hold d = true
}.

Lemma run_writes_steps ops u : Forall op_typed ops → pd_step (uw_db u) (uw_db (run_writes ops u).2).
Proof.
  intros Ht. revert u. induction Ht as [|op ops Hop _ IH]; intros u; cbn; [done|].
  pose proof (run_write_steps op Hop u) as Hs. destruct (run_write op u) as [r u1]. cbn in Hs.
  specialize (IH u1). destruct (run_writes ops u1) as [rs u2]. cbn in *. by etrans.
Qed.
Lemma run_unit_ok x d :
  Forall op_typed (ur_ops x) → pd_ok d → pd_ok (run_unit x d).2 ∧ pd_le d (run_unit x d).2.
Proof.
  intros Ht [Hi Hd]. unfold run_unit.
  pose proof (run_writes_steps (ur_ops x) (MkUnit d None false (ur_io x)) Ht) as [Hle Hinv].
  pose proof (run_writes_results (ur_ops x) (MkUnit d None false (ur_io x)) eq_refl eq_refl) as Hr.
  destruct (run_writes (ur_ops x) _) as [rs u]. cbn in *. destruct Hr as [Hdone _].
  destruct (Commit_cases (ur_rollback x) (ur_fate x) d u Hdone) as (r & d' & -> & Hc). cbn.
  destruct (uw_failed u); [destruct Hc as [_ ->]|destruct Hc as [[->|[-> Hh]] _]]; try done.
  split; [|done]. split; auto.
Qed.
Lemma run_units_ok xs d : units_typed xs → pd_ok d → pd_ok (run_units xs d) ∧ pd_le d (run_units xs d).
Proof.
  intros Ht. revert d. induction Ht as [|x xs Hx _ IH]; intros d Hd; cbn; [done|].
  destruct (run_unit_ok x d Hx Hd) as [Hd1 Hle]. destruct (IH _ Hd1) as [Hd2 Hle2]. split; [done|by etrans].
Qed.

Lemma found_mono id r d d' :
  pd_le d d' → FindProcessingReceipt id None (pd_source d) = Ok (Some r) →
  FindProcessingReceipt id None (pd_source d') = Ok (Some r).
Proof.
  intros Hle. unfold FindProcessingReceipt. destruct (ValidDeliveryID id); cbn [negb]; [|done].
  destruct (sd_receipts (pd_source d) !! id) as [row|] eqn:Hr; [|done].
  by rewrite (lookup_weaken _ _ _ _ Hr (ple_receipts _ _ Hle)).
Qed.
Lemma has_receipt_readable d id :
  readable d → has_receipt d id = true → ∃ r, FindProcessingReceipt id None (pd_source d) = Ok (Some r).
Proof. unfold has_receipt. intros Hr [row Hrow]%bool_decide_eq_true. by eapply Hr. Qed.
Lemma deferred_inv d : deferred_hold d = true →
  (∀ key row, pd_parser_outcomes d !! key = Some row → has_receipt d key.1.1 = true) ∧
  (∀ key row, pd_contributions d !! key = Some row → has_receipt d (dcr_DeliveryID row) = true) ∧
  (∀ key row, pd_detection_outcomes d !! key = Some row → has_receipt d (dor_DeliveryID row) = true).
Proof.
  unfold deferred_hold. rewrite !andb_true_iff, !forallb_forall. intros [[H1 H2] H3].
  split; [|split]; intros key row Hr; apply elem_of_map_to_list, list_elem_of_In in Hr.
  - specialize (H1 _ Hr). by destruct key as [[]].
  - exact (H2 _ Hr).
  - exact (H3 _ Hr).
Qed.

Lemma run_writes_app ops ops' u :
  run_writes (ops ++ ops') u =
  let '(rs, u1) := run_writes ops u in let '(rs', u2) := run_writes ops' u1 in (rs ++ rs', u2).
Proof.
  revert u. induction ops as [|op ops IH]; intros u; cbn; [by destruct (run_writes ops' u)|].
  destruct (run_write op u) as [r u1]. rewrite IH. destruct (run_writes ops u1) as [rs u2].
  by destruct (run_writes ops' u2).
Qed.
Lemma run_writes_receipt ops u r :
  Forall op_typed ops → WReceipt r ∈ ops → Forall (λ x, x = Ok tt) (run_writes ops u).1 →
  FindProcessingReceipt (pr_DeliveryID r) None (pd_source (uw_db (run_writes ops u).2))
  = Ok (Some (receipt_us r)).
Proof.
  intros Ht (before & after & ->)%list_elem_of_split Hok.
  apply Forall_app in Ht as [_ [Hr Hafter]%Forall_cons].
  revert Hok. rewrite run_writes_app. destruct (run_writes before u) as [rs u1]. cbn [run_writes].
  destruct (run_write (WReceipt r) u1) as [x u2] eqn:Hw. cbn in Hw.
  pose proof (run_writes_steps after u2 Hafter) as [Hle _]. destruct (run_writes after u2) as [rs' u3]. cbn.
  intros [_ [-> _]%Forall_cons]%Forall_app. eapply found_mono; [exact Hle|]. by eapply PutReceipt_found.
Qed.

(** The processing tables stay consistent. After any history of units of
    work, each with any failing statements and any outcome of its commit, rows
    were only added; every parser outcome, contribution and detection outcome has
    a receipt, which can be read; every alert has its contribution, and a rule
    version raises at most one alert for an event. *)
Theorem processing_tables_consistent xs durable :
  units_typed xs → pd_ok durable →
  let d := run_units xs durable in
  pd_le durable d ∧
  (∀ key row, pd_parser_outcomes d !! key = Some row →
     ∃ r, FindProcessingReceipt key.1.1 None (pd_source d) = Ok (Some r)) ∧
  (∀ key row, pd_contributions d !! key = Some row →
     ∃ r, FindProcessingReceipt (dcr_DeliveryID row) None (pd_source d) = Ok (Some r)) ∧
  (∀ key row, pd_detection_outcomes d !! key = Some row →
     ∃ r, FindProcessingReceipt (dor_DeliveryID row) None (pd_source d) = Ok (Some r)) ∧
  (∀ id row, pd_alerts d !! id = Some row →
     is_Some (pd_contributions d !! alert_member row) ∧
     ∀ id' row', pd_alerts d !! id' = Some row' → alert_member row' = alert_member row → id' = id).
Proof.
  intros Ht Hd. cbn zeta. destruct (run_units_ok xs durable Ht Hd) as [[[Hs Hr Ha Hm] Hh] Hle].
  destruct (deferred_inv _ Hh) as (D1 & D2 & D3). split; [done|].
  split; [|split; [|split]]; [intros key row Hrow; eapply has_receipt_readable; eauto..|].
  intros id row Hrow. split; [by eapply Ha|]. intros id' row' Hrow' Heq. by eapply Hm.
Qed.

(** The receipt decides a unit of work. For a unit that writes the receipt of
    a delivery that had none: after a commit that succeeds, the receipt is read
    back as it was written, its times in microseconds, whatever units follow, and
    proves the completions the written one does; after a commit that fails for any
    reason, either the receipt is still absent and nothing of the unit is durable,
    or it is read back and every write of the unit is. *)
Theorem receipt_decides_unit x xs durable r :
  units_typed (x :: xs) → pd_ok durable → WReceipt r ∈ ur_ops x →
  FindProcessingReceipt (pr_DeliveryID r) None (pd_source durable) = Ok None →
  let '(rs, u) := run_writes (ur_ops x) (MkUnit durable None false (ur_io x)) in
  let '(res, d) := run_unit x durable in
  let found y := FindProcessingReceipt (pr_DeliveryID r) None (pd_source (run_units xs y)) in
  (res = Ok tt → found d = Ok (Some (receipt_us r)) ∧ kept_as r (receipt_us r)) ∧
  (FindProcessingReceipt (pr_DeliveryID r) None (pd_source d) = Ok None ∧ d = durable ∨
   found d = Ok (Some (receipt_us r)) ∧ d = uw_db u ∧ Forall (λ y, y = Ok tt) rs).
Proof.
  intros [Hx Hxs]%Forall_cons Hd Hin Hnone.
  pose proof (run_unit_ok x durable Hx Hd) as [Hd' _]. revert Hd'. unfold run_unit.
  pose proof (run_writes_results (ur_ops x) (MkUnit durable None false (ur_io x)) eq_refl eq_refl) as Hr.
  pose proof (run_writes_receipt (ur_ops x) (MkUnit durable None false (ur_io x)) r Hx Hin) as Hf.
  destruct (run_writes (ur_ops x) _) as [rs u]. cbn in Hf. cbn [fst snd]. destruct Hr as [Hdone Hrs].
  destruct (Commit_cases (ur_rollback x) (ur_fate x) durable u Hdone) as (res & d & -> & Hc).
  cbn [fst snd]. intros Hd'. pose proof (run_units_ok xs d Hxs Hd') as [_ Hle].
  destruct (uw_failed u); [destruct Hc as [-> ->]; split; [done|by left]|].
  assert (Forall (λ y, y = Ok tt) rs) as Hall by (subst rs; by apply Forall_replicate).
  specialize (Hf Hall). destruct Hc as [Hc Hok].
  assert (d = uw_db u → FindProcessingReceipt (pr_DeliveryID r) None (pd_source (run_units xs d))
    = Ok (Some (receipt_us r))) as Hfound by (intros ->; by eapply found_mono).
  split; [|destruct Hc as [->|[-> _]]; [left; split; [exact Hnone|done]|right; auto]].
  intros Hres. destruct (Hok Hres) as [-> _]. split; [auto|]. apply kept_as_us.
  revert Hf. unfold FindProcessingReceipt. destruct (negb _); [done|].
  destruct (sd_receipts _ !! _) as [row|]; [|done]. cbn.
  destruct (decode_receipt _ row) as [r'|] eqn:Hdec; [|done]. cbn. intros [= ->].
  by eapply decode_validates.
Qed.

(** What the coordinator is told: confirmed units are durable, rejected ones are
    not, and of an unknown one the receipt decides. *)
Lemma commit_sqlite_states cancelled rollback fate durable u :
  uw_done u = false →
  let '((state, err), d, u') := commit_sqlite cancelled rollback fate durable u in
  uw_done u' = true ∧
  match state with
  | commitConfirmed => err = None ∧ d = uw_db u ∧ deferred_hold d = true ∧ uw_failed u = None
  | commitRejected => is_Some err ∧ is_Some cancelled ∧ d = durable
  | commitUnknown => is_Some err ∧ (d = durable ∨ d = uw_db u ∧ deferred_hold d = true ∧ uw_failed u = None)
  | commitStateOther _ => False
  end.
Proof.
  intros Hd. unfold commit_sqlite. destruct cancelled as [e|].
  { unfold Rollback. rewrite Hd. done. }
  destruct (Commit_cases rollback fate durable u Hd) as (r & d & -> & Hc).
  enough (match r with
    | Ok _ => d = uw_db u ∧ deferred_hold d = true ∧ uw_failed u = None
    | Err _ => d = durable ∨ d = uw_db u ∧ deferred_hold d = true ∧ uw_failed u = None
    end) as H by (destruct r as [[]|e]; cbn; naive_solver).
  destruct (uw_failed u); [destruct Hc as [-> ->]; by left|]. destruct Hc as [Hc Hok].
  destruct r as [[]|e]; [destruct (Hok eq_refl) as [-> Hh]; done|].
  destruct Hc as [->|[-> Hh]]; [by left|by right].
Qed.
