(* ===== verification/UnitLab.v ===== *)
(** * A unit of work of one delivery

    The theorems of file UnitProofs applied to a unit that writes a parser
    outcome, a contribution, its alert and the receipt of a delivery, and whose
    commit takes effect but reports a failure. *)

From S2P Require Import Prelude GoStd Sha256 Netip Identity CoreModel Enforcement Json JsonDecode Projection.
From S2P Require Import MemoryService DecisionTx DecisionStore ObservedState ReconcilePlan ObservedStore.
From S2P Require Import ReconcileStore SecurityEvent ProcessingPlan Coordinator Pipeline ExactlyOnce.
From S2P Require Import SourceStore SourceHistory SourceLab UnitOfWork UnitProofs.

Definition lab_sources : list source_op :=
  [OpEnsure (rr_SourceID sample_record) sample_node SourceKindFile sample_time StatementsDone;
   OpRegister (MkFileGeneration None None (rr_SourceID sample_record) "0123456789abcdef0123456789abcdef" 0 0
                 "/var/log/auth.log" FileGenerationOpen 0 None None sample_time None None None) StatementsDone].
Definition lab_tables : processing_db :=
  MkProcessingDb (run_ops lab_sources empty_source_db) {[("sshd", "v1")]} {[("brute-force", "v3")]} ∅ ∅ ∅ ∅
    (MkDb sample_node [] ∅ ∅ ∅ [] 0 [] [] None []).
Lemma lab_tables_ok : pd_ok lab_tables.
Proof.
  split; [|vm_compute; reflexivity]. split.
  - apply run_ops_ok, empty_source_ok.
  - intros id row. assert (sd_receipts (pd_source lab_tables) = ∅) as -> by (vm_compute; reflexivity).
    rewrite lookup_empty. discriminate.
  - intros id r. cbn. rewrite lookup_empty. discriminate.
  - intros id id' r r'. cbn. rewrite lookup_empty. discriminate.
Qed.

Definition lab_event : EventID := Eval vm_compute in hashIdentity "evt1_" [].
Definition lab_outcome : ParserTerminalOutcome :=
  MkParserTerminalOutcome (dl_ID sample_work) "sshd" "v1" ParserOutcomeSuccess 1 "" sample_time.
Definition lab_contribution : DetectionContribution :=
  MkDetectionContribution (dl_ID sample_work) lab_event "brute-force" "v3" sample_time.
Definition lab_alert : Alert :=
  MkAlert "alert-1" sample_node lab_event "brute-force" "v3" sample_target sample_time sample_time.
(** Half a microsecond is not kept. *)
Definition unit_receipt : ProcessingReceipt :=
  MkProcessingReceipt (dl_ID sample_work) (rr_SourceID sample_record) (rr_Position sample_record) ReceiptSuccess
    None (sample_time + 500).
Definition lab_unit : unit_run :=
  MkUnitRun [None; None] [WParserOutcome lab_outcome; WContribution lab_contribution; WAlert lab_alert;
                          WReceipt unit_receipt] None (Some (Errorf "connection lost", true)).
Lemma lab_unit_typed : units_typed [lab_unit].
Proof. repeat constructor; cbn; lia. Qed.

Abbreviation lab_writes := (run_writes (ur_ops lab_unit) (MkUnit lab_tables None false (ur_io lab_unit)))
  (only parsing).
Lemma processing_tables_consistent_witness :
  pd_contributions (run_units [lab_unit] lab_tables) !! (lab_event, "brute-force", "v3")
    = Some (MkContributionRow (dl_ID sample_work) (UnixMicro sample_time)) ∧
  ∃ r, FindProcessingReceipt (dl_ID sample_work) None (pd_source (run_units [lab_unit] lab_tables)) = Ok (Some r).
Proof.
  assert (pd_contributions (run_units [lab_unit] lab_tables) !! (lab_event, "brute-force", "v3")
    = Some (MkContributionRow (dl_ID sample_work) (UnixMicro sample_time))) as Hrow by (vm_compute; reflexivity).
  split; [exact Hrow|].
  destruct (processing_tables_consistent [lab_unit] lab_tables lab_unit_typed lab_tables_ok) as (_ & _ & Hc & _).
  exact (Hc _ _ Hrow).
Defined.

Lemma receipt_decides_unit_witness :
  FindProcessingReceipt (dl_ID sample_work) None (pd_source lab_tables) = Ok None ∧
  (FindProcessingReceipt (dl_ID sample_work) None (pd_source (run_unit lab_unit lab_tables).2) = Ok None ∧
     (run_unit lab_unit lab_tables).2 = lab_tables ∨
   FindProcessingReceipt (dl_ID sample_work) None (pd_source (run_unit lab_unit lab_tables).2)
     = Ok (Some (receipt_us unit_receipt)) ∧
     (run_unit lab_unit lab_tables).2 = uw_db lab_writes.2 ∧ Forall (λ y, y = Ok tt) lab_writes.1).
Proof.
  assert (FindProcessingReceipt (dl_ID sample_work) None (pd_source lab_tables) = Ok None) as Hn
    by (vm_compute; reflexivity).
  split; [exact Hn|].
  pose proof (receipt_decides_unit lab_unit [] lab_tables unit_receipt lab_unit_typed lab_tables_ok
    ltac:(unfold lab_unit; cbn [ur_ops]; do 3 right; left) Hn) as H.
  revert H. generalize lab_writes (run_unit lab_unit lab_tables). intros [rs u] [res d] [_ H]. exact H.
Defined.
