(* ===== verification/SqliteRuntime.v ===== *)
(** * Processing over the SQLite store (internal/processor/sqlite_store.go)

    The adapter of the coordinator to the store: reads of receipts, wakes after a
    commit and at a replay, and units of work over the tables of file UnitOfWork.
    A unit works on the tables as they were when it began; when another unit has
    committed since, its commit fails. The instance [sqlite_lawful] discharges
    [LawfulStore], so that the assembly of coordinator, pipeline, ledger and
    tables is one program, of which the theorem speaks. *)

From S2P Require Import Prelude GoStd Sha256 Netip Identity CoreModel Enforcement Json JsonDecode Projection.
From S2P Require Import MemoryService DecisionTx DecisionStore ObservedState ReconcilePlan ObservedStore.
From S2P Require Import ReconcileStore Ledger SecurityEvent ProcessingPlan Coordinator Pipeline PipelineProofs ExactlyOnce.
From S2P Require Import ProcessingRuntime DecisionProofs SourceStore SourceHistory UnitOfWork UnitProofs.

(** ** The adapter *)
#[export] Instance unit_reader : ManagedPolicyReader UnitOfWork := {|
  ReadManagedPolicy node := on_decisions (ReadManagedPolicy node)
|}.

(** The errors of the driver, and the sink of the wakes: the error of a query; of
    a begin, with those of the statements to come; of the context and of the
    rollback at a commit, with its fate; of a rollback. *)
Class SqliteFaults (W : Type) := {
  sf_query : W → option error * W;
  sf_begin : W → (option error * list (option error)) * W;
  sf_commit : W → (option error * option error * tx_commit_fate) * W;
  sf_rollback : W → option error * W;
  sf_wake : NodeID → Prefix → ST W unit
}.

(** The adapter without a finalizer and a sink is the one for plans that make no
    automatic decisions. *)
Record SQLiteStoreAdapter := MkAdapter {
  ad_nodeID : NodeID;
  ad_finalizer : option ManagedPolicyTargetResolver;
  ad_wake : bool
}.
Definition NewSQLiteStoreAdapter : SQLiteStoreAdapter := MkAdapter EmptyString None false.
Definition NewEnforcingSQLiteStoreAdapter (nodeID : NodeID) (finalizer : option ManagedPolicyTargetResolver)
    (wake : bool) : result SQLiteStoreAdapter :=
  fail_if (is_empty nodeID) (Errorf "SQLite processing node id is required");;
  fail_if (match finalizer with None => true | Some _ => false end) (Errorf "desired state finalizer is required");;
  fail_if (negb wake) (Errorf "target wake sink is required");;
  Ok (MkAdapter nodeID finalizer wake).

(** Units are numbered; [ou_version] counts the commits before the unit began,
    and [ou_written] are the receipts it has written, as they read back. *)
Record open_unit := MkOpenUnit {
  ou_unit : sqliteUnitOfWork;
  ou_version : nat;
  ou_written : list ProcessingReceipt
}.
Record sqlite := MkSqlite {
  sq_durable : processing_db;
  sq_version : nat;
  sq_units : gmap nat open_unit
}.
Definition put_unit (s : sqlite) (n : nat) (x : open_unit) : sqlite :=
  MkSqlite (sq_durable s) (sq_version s) (<[n := x]> (sq_units s)).

Section adapter.
Context {W : Type} `{SqliteFaults W} (adapter : SQLiteStoreAdapter).
Abbreviation Sql := (ST (W * sqlite)).

Definition findReceipt (id : DeliveryID) : Sql (option ProcessingReceipt) := λ '(w, s),
  let '(f, w) := sf_query w in (FindProcessingReceipt id f (pd_source (sq_durable s)), (w, s)).
Definition wake_targets (changes : list TargetEnforcementChange) : Sql unit := λ '(w, s),
  let '(r, _, w) := WakeCommittedTargets sf_wake changes w in (r, (w, s)).
Definition pending_changes : Sql (list TargetEnforcementChange) := λ '(w, s),
  let '(f, w) := sf_query w in
  (match f with
   | Some e => Err (Wrapf "list pending target enforcement changes" e)
   | None => PendingTargetEnforcementChanges (ad_nodeID adapter) (pd_decisions (sq_durable s))
   end, (w, s)).
Definition notifyReceiptReplay : Sql unit :=
  if negb (ad_wake adapter) then mret tt else changes ← pending_changes; wake_targets changes.
Definition beginProcessing : Sql nat := λ '(w, s),
  let '((begin_error, io), w) := sf_begin w in
  match BeginProcessing begin_error io (sq_durable s) with
  | Err e => (Err e, (w, s))
  | Ok unit =>
    let n := fresh (dom (sq_units s)) in
    (Ok n, (w, put_unit s n (MkOpenUnit (MkSqliteUnit unit [] [] 0) (sq_version s) [])))
  end.

(** A method of the unit [n]. *)
Definition on_tx {A} (n : nat) (m : ST sqliteUnitOfWork A) : Sql A := λ '(w, s),
  match sq_units s !! n with
  | None => (Err errUnitOfWorkClosed, (w, s))
  | Some x =>
    let '(r, u) := m (ou_unit x) in (r, (w, put_unit s n (MkOpenUnit u (ou_version x) (ou_written x))))
  end.
Definition resolver : option (DesiredBanProjection → ST UnitOfWork TargetPolicy) :=
  ResolveTargetPolicy <$> ad_finalizer adapter.
(** The device and the inode of a position are unsigned. *)
Definition is_unsigned (p : SourcePosition) : bool :=
  match SourcePosition_File p with Some f => (0 <=? fp_DeviceID f) && (0 <=? fp_Inode f) | None => true end.
Definition note_receipt (n : nat) (r : ProcessingReceipt) : Sql unit := st_modify (λ '(w, s),
  (w, match sq_units s !! n with
      | Some x => put_unit s n (MkOpenUnit (ou_unit x) (ou_version x) (receipt_us r :: ou_written x))
      | None => s
      end)).
Definition writeReceipt (n : nat) (r : ProcessingReceipt) : Sql unit :=
  if negb (is_unsigned (pr_Position r)) then st_fail (Errorf "not a source position")
  else on_tx n (on_unit (PutReceipt r));; note_receipt n r.

Definition busy : error := Errorf "database is locked".
Definition takes_effect (cancelled : option error) (fate : tx_commit_fate) (u : UnitOfWork) : bool :=
  is_null cancelled && negb (uw_done u) && is_null (uw_failed u) && deferred_hold (uw_db u)
  && match fate with None | Some (_, true) => true | Some (_, false) => false end.
Definition commit (n : nat) : W * sqlite → (commitState * option error) * (W * sqlite) := λ '(w, s),
  match sq_units s !! n with
  | None => ((commitUnknown, Some errUnitOfWorkClosed), (w, s))
  | Some x =>
    let '((cancelled, rollback, fate), w) := sf_commit w in
    let fate := if Nat.eqb (ou_version x) (sq_version s) then fate else Some (busy, false) in
    let u := su_unit (ou_unit x) in
    let '(outcome, durable, u') := commit_sqlite cancelled rollback fate (sq_durable s) u in
    let version := if takes_effect cancelled fate u then S (sq_version s) else sq_version s in
    let x' := MkOpenUnit (MkSqliteUnit u' (su_projections (ou_unit x)) (su_changes (ou_unit x))
                            (su_lastUpdatedAt (ou_unit x))) (ou_version x) (ou_written x) in
    (outcome, (w, MkSqlite durable version (<[n := x']> (sq_units s))))
  end.
Definition notifyCommitted (n : nat) : Sql unit :=
  changes ← on_tx n (st_gets su_changes); wake_targets changes.
Definition rollback (n : nat) : Sql unit := λ '(w, s),
  let '(f, w) := sf_rollback w in on_tx n (on_unit (Rollback f)) (w, s).

Definition sqlite_store : ProcessingStore (W * sqlite) nat := {|
  env_findReceipt := findReceipt;
  env_notifyReceiptReplay := notifyReceiptReplay;
  env_beginProcessing := beginProcessing;
  tx_finalizeDesiredState n := on_tx n (finalizeDesiredState resolver (ad_wake adapter));
  tx_writeReceipt := writeReceipt;
  tx_commit := commit;
  tx_notifyCommitted := notifyCommitted;
  tx_rollback := rollback
|}.
Definition sqlite_outcomes : OutcomeWriter (W * sqlite) nat := {|
  tx_writeParserOutcome n o := on_tx n (tx_writeParserOutcome tt o);
  tx_writeDetectionOutcome n o := on_tx n (tx_writeDetectionOutcome tt o);
  tx_writeDetectionContribution n c := on_tx n (tx_writeDetectionContribution tt c);
  tx_writeAlert n a := on_tx n (tx_writeAlert tt a);
  tx_recordAutomaticDecision n q := on_tx n (tx_recordAutomaticDecision tt q);
  tx_writeCriticalAudit n a := on_tx n (tx_writeCriticalAudit tt a)
|}.
End adapter.

(** ** Writes that leave the receipts alone *)
Record calm (u u' : UnitOfWork) : Prop := {
  ca_source : pd_source (uw_db u') = pd_source (uw_db u);
  ca_inv : pd_inv (uw_db u) → pd_inv (uw_db u');
  ca_done : uw_done u' = uw_done u
}.
#[export] Instance calm_preorder : PreOrder calm.
Proof. split; [by split|]. intros x y z [S1 I1 D1] [S2 I2 D2]. split; [congruence|auto|congruence]. Qed.
Definition sourceless {A} (m : ST processing_db A) : Prop := ∀ d a d', m d = (Ok a, d') →
  pd_source d' = pd_source d ∧ (pd_inv d → pd_inv d').

Lemma calm_ready : keeps calm uow_ready.
Proof. intros u. unfold uow_ready. by destruct (uw_done u), (uw_failed u). Qed.
Lemma calm_fail {A} (e : error) : keeps calm (uow_fail e : Unit A).
Proof. intros u. by split. Qed.
Lemma calm_check {A} (r : result A) : keeps calm (uow_check r).
Proof. destruct r; [by intros u|apply calm_fail]. Qed.
Lemma calm_statement {A} f (m : ST processing_db A) : sourceless m → keeps calm (uow_statement f m).
Proof.
  intros Hm u. unfold uow_statement. destruct (default None (head (uw_io u))); [by split|].
  destruct (m (uw_db u)) as [[a|e] d] eqn:He; [|by split]. apply Hm in He as [Hs Hi]. by split.
Qed.
Lemma sourceless_decisions {A} (m : ST db A) :
  sourceless (λ d, let '(r, m') := m (pd_decisions d) in (r, put_decisions d m')).
Proof.
  intros d a d'. destruct (m (pd_decisions d)) as [r m']. intros [= _ <-]. split; [done|]. apply decisions_step.
Qed.
Lemma calm_decisions {A} (m : ST db A) : keeps calm (on_decisions m).
Proof.
  apply keeps_bind; [apply _|apply calm_ready|intros _]. apply calm_statement, sourceless_decisions.
Qed.
Ltac sourceless_tac lem :=
  let H := fresh in let x := fresh in intros ? x ? H; split; [|by apply lem in H as [_ ?]];
  revert H; autorewrite with st; intros H; pd_guard_step H; injection H as _ <-; reflexivity.
Lemma sourceless_parser_outcome key r : sourceless (insert_parser_outcome key r).
Proof. unfold insert_parser_outcome. sourceless_tac insert_parser_outcome_step. Qed.
Lemma sourceless_detection_outcome key r : sourceless (insert_detection_outcome key r).
Proof. unfold insert_detection_outcome. sourceless_tac insert_detection_outcome_step. Qed.
Lemma sourceless_alert id r : sourceless (insert_alert id r).
Proof. unfold insert_alert. sourceless_tac insert_alert_step. Qed.
Lemma sourceless_audit r : sourceless (insert_audit r).
Proof. unfold insert_audit. sourceless_tac insert_audit_step. Qed.
Lemma sourceless_contribution key r : sourceless (insert_contribution key r).
Proof.
  intros d a d' Hi. split; [|by apply insert_contribution_step in Hi as [_ ?]]. revert Hi.
  unfold insert_contribution. autorewrite with st. destruct (pd_contributions d !! key); [by intros [= _ <-]|].
  intros Hi. pd_guard_step Hi. injection Hi as _ <-. reflexivity.
Qed.
Lemma sourceless_take key : sourceless (take_contribution key).
Proof.
  intros d a d'. unfold take_contribution. autorewrite with st. by destruct (_ !! key); intros [= _ <-].
Qed.
Create HintDb calm_db.
#[export] Hint Resolve calm_ready calm_fail calm_check calm_statement calm_decisions sourceless_parser_outcome
  sourceless_detection_outcome sourceless_alert sourceless_audit sourceless_contribution sourceless_take : calm_db.
Ltac calm_tac := keeps_tac ltac:(solve [unfold uow_exec; auto with calm_db]).
Lemma calm_PutParserOutcome o : keeps calm (PutParserOutcome o).
Proof. unfold PutParserOutcome. cbv zeta. calm_tac. Qed.
Lemma calm_PutDetectionOutcome o : keeps calm (PutDetectionOutcome o).
Proof. unfold PutDetectionOutcome. cbv zeta. calm_tac. Qed.
Lemma calm_PutDetectionContribution c : keeps calm (PutDetectionContribution c).
Proof. unfold PutDetectionContribution. cbv zeta. calm_tac. Qed.
Lemma calm_PutAlert a : keeps calm (PutAlert a).
Proof. unfold PutAlert. cbv zeta. calm_tac. Qed.
Lemma calm_AppendCriticalAudit a : keeps calm (AppendCriticalAudit a).
Proof. unfold AppendCriticalAudit. cbv zeta. calm_tac. Qed.
(** The ports of the decision rules. *)
Ltac port_tac := idtac;
  lazymatch goal with
  | |- keeps calm (ListActiveDecisions _ _) => apply calm_decisions
  | |- keeps calm (FindDecisionProjection _ _) => apply calm_decisions
  | |- keeps calm (PutDecisionProjection _ _) => apply calm_decisions
  | |- keeps calm (InsertAutomaticDecision _) => apply calm_decisions
  | |- keeps calm (at_FindDecisionByID _) => apply calm_decisions
  | |- keeps calm (FindActiveAutomaticDecision _ _ _) => apply calm_decisions
  | |- keeps calm (SuppressAutomaticDecision _ _) => apply calm_decisions
  | |- keeps calm (AppendAutomaticCreatedAudit _) => apply calm_decisions
  | |- keeps calm (AppendAutomaticSuppressedAudit _) => apply calm_decisions
  | |- keeps calm (FindTargetEnforcementIntent _ _) => apply calm_decisions
  | |- keeps calm (TargetEnforcementGenerationFloor _ _) => apply calm_decisions
  | |- keeps calm (PutTargetEnforcementIntent _) => apply calm_decisions
  | |- keeps calm (ResetTargetReconcileState _ _ _ _) => apply calm_decisions
  | |- keeps calm AdvanceSnapshotRevision => apply calm_decisions
  | |- keeps calm (ReadManagedPolicy _) => apply calm_decisions
  end.
(** Like [keeps_tac], by the head of the statement. *)
Ltac walk tac :=
  repeat (idtac; lazymatch goal with
    | |- keeps _ (_ ≫= _) => apply keeps_bind; [apply _| |intros ?]
    | |- keeps _ (mret _) => apply keeps_ret; apply _
    | |- keeps _ (st_fail _) => apply keeps_fail; apply _
    | |- keeps _ (st_lift _) => apply keeps_lift; apply _
    | |- keeps _ (st_wrap _ _) => apply keeps_wrap
    | |- keeps _ (match _ with _ => _ end) => case_match
    | |- keeps _ _ => tac
    end).
Lemma calm_rebuild node target at_ b : keeps calm (rebuildProjection (S := UnitOfWork) node target at_ b).
Proof. unfold rebuildProjection. walk ltac:(port_tac). Qed.
Lemma calm_RecordAutomatic q : keeps calm (RecordAutomaticInTransaction (S := UnitOfWork) q).
Proof. unfold RecordAutomaticInTransaction. cbv zeta. walk ltac:(first [port_tac|apply calm_rebuild]). Qed.
Lemma calm_resolve r p : keeps calm (ResolveTargetPolicy (S := UnitOfWork) r p).
Proof. unfold ResolveTargetPolicy. walk ltac:(port_tac). Qed.
Lemma calm_FinalizeTargets policies projections at_ :
  (∀ p, keeps calm (policies p)) → keeps calm (FinalizeTargets (S := UnitOfWork) policies projections at_).
Proof.
  intros Hp. assert (∀ key, keeps calm (materialize_one (S := UnitOfWork) policies key at_)) as Hone
    by (intros key; unfold materialize_one; walk ltac:(first [port_tac|apply Hp])).
  assert (∀ l, keeps calm (st_map (λ key, materialize_one (S := UnitOfWork) policies key at_) l)) as Hall
    by (intros l; induction l as [|key l IH]; cbn [st_map]; walk ltac:(first [apply Hone|apply IH])).
  unfold FinalizeTargets, MaterializeTargets. walk ltac:(first [port_tac|apply Hall]).
Qed.

Definition su_calm : relation sqliteUnitOfWork := λ s s', calm (su_unit s) (su_unit s').
#[export] Instance su_calm_preorder : PreOrder su_calm.
Proof. unfold su_calm. split; [by intros s|]. intros x y z. apply calm_preorder. Qed.
Lemma on_unit_calm {A} (m : Unit A) : keeps calm m → keeps su_calm (on_unit m).
Proof. intros Hm s. specialize (Hm (su_unit s)). unfold on_unit. by destruct (m (su_unit s)). Qed.
Lemma calm_recordAutomaticDecision q : keeps su_calm (recordAutomaticDecision q).
Proof.
  unfold recordAutomaticDecision.
  walk ltac:(first [apply on_unit_calm, calm_RecordAutomatic|apply keeps_modify; by intros s]).
Qed.
Lemma calm_finalize adapter wake : keeps su_calm (finalizeDesiredState (resolver adapter) wake).
Proof.
  intros s. unfold finalizeDesiredState. destruct (su_projections s) as [|p ps] eqn:Hp; [done|].
  unfold resolver. destruct (ad_finalizer adapter) as [r|]; cbn [fmap option_fmap option_map]; [|done].
  destruct wake; [|done]. revert s Hp. intros s Hp. rewrite <- Hp.
  assert (keeps su_calm (changes ← on_unit (FinalizeTargets (ResolveTargetPolicy r) (su_projections s) (su_lastUpdatedAt s));
    st_modify (λ s, MkSqliteUnit (su_unit s) (su_projections s) changes (su_lastUpdatedAt s)))) as Hk; [|apply Hk].
  walk ltac:(first [apply on_unit_calm, calm_FinalizeTargets, calm_resolve|apply keeps_modify; by intros ?]).
Qed.

(** ** Receipts *)
Lemma is_unsigned_spec p : is_unsigned p = true → unsigned_position p.
Proof. unfold is_unsigned, unsigned_position. destruct (SourcePosition_File p); [|done]. lia. Qed.
Definition found (id : DeliveryID) (d : processing_db) : result (option ProcessingReceipt) :=
  FindProcessingReceipt id None (pd_source d).
Definition overlay (written : list ProcessingReceipt) (d : processing_db) (id : DeliveryID)
    : result (option ProcessingReceipt) :=
  match find (λ r, bool_decide (pr_DeliveryID r = id)) written with
  | Some r => Ok (Some r)
  | None => found id d
  end.
(** A computation that fails leaves the tables as they were. *)
Definition fails_clean {A} (m : Unit A) : Prop := ∀ u,
  uw_done (m u).2 = uw_done u ∧ ∀ e, (m u).1 = Err e → uw_db (m u).2 = uw_db u.
Lemma clean_bind {A B} (m : Unit A) (k : A → Unit B) :
  (∀ u, uw_done (m u).2 = uw_done u ∧ uw_db (m u).2 = uw_db u) → (∀ a, fails_clean (k a)) → fails_clean (m ≫= k).
Proof.
  intros Hm Hk u. specialize (Hm u) as [Hd Hb]. unfold mbind, st_bind. destruct (m u) as [[a|e] u1]; [|done].
  cbn in *. destruct (Hk a u1) as [Hd1 Hb1]. split; [congruence|]. intros e He. rewrite <- Hb. by eapply Hb1.
Qed.
Lemma check_pure {A} (r : result A) u : uw_done (uow_check r u).2 = uw_done u ∧ uw_db (uow_check r u).2 = uw_db u.
Proof. by destruct r. Qed.
Lemma ready_pure u : uw_done (uow_ready u).2 = uw_done u ∧ uw_db (uow_ready u).2 = uw_db u.
Proof. unfold uow_ready. by destruct (uw_done u) eqn:?, (uw_failed u). Qed.
Lemma clean_statement {A} f (m : ST processing_db A) : fails_clean (uow_statement f m).
Proof.
  intros u. unfold uow_statement. destruct (default None (head (uw_io u))); [done|].
  by destruct (m (uw_db u)) as [[a|e] d].
Qed.
(** PutReceipt adds the receipt, or fails and adds nothing. *)
Lemma clean_PutReceipt r : fails_clean (PutReceipt r).
Proof.
  unfold PutReceipt, uow_exec.
  repeat (apply clean_bind; [intros u; first [apply ready_pure|apply check_pure]|intros ?]). apply clean_statement.
Qed.
Lemma found_added r u u' id :
  unsigned_position (pr_Position r) → PutReceipt r u = (Ok tt, u') →
  found id (uw_db u') = if bool_decide (pr_DeliveryID r = id) then Ok (Some (receipt_us r)) else found id (uw_db u).
Proof.
  intros Hu Hp. case_bool_decide as Hid; [subst id; by eapply PutReceipt_found|].
  apply PutReceipt_inv in Hp as (position & kind & _ & _ & _ & _ & _ & ->).
  unfold found, FindProcessingReceipt. cbn. by rewrite lookup_insert_ne.
Qed.
Lemma PutReceipt_Validates r u u' : PutReceipt r u = (Ok tt, u') → unsigned_position (pr_Position r) →
  ProcessingReceipt_Validate (receipt_us r) = Ok tt.
Proof.
  intros Hp Hu. pose proof (PutReceipt_found r u u' Hu Hp) as Hf. revert Hf. unfold FindProcessingReceipt.
  destruct (negb _); [done|]. destruct (sd_receipts _ !! _) as [row|]; [|done].
  destruct (decode_receipt _ row) as [r'|] eqn:Hd; cbn; [|done]. intros [= ->]. by eapply decode_validates.
Qed.

(** ** The invariant of the store *)
Record unit_ok (s : sqlite) (x : open_unit) : Prop := {
  uk_version : (ou_version x ≤ sq_version s)%nat;
  uk_inv : ou_version x = sq_version s → uw_done (su_unit (ou_unit x)) = false →
    pd_inv (uw_db (su_unit (ou_unit x))) ∧
    ∀ id, found id (uw_db (su_unit (ou_unit x))) = overlay (ou_written x) (sq_durable s) id
}.
Definition sqlite_view : store_view sqlite nat := {|
  sv_durable s id := match found id (sq_durable s) with Ok o => o | Err _ => None end;
  sv_written s n := match sq_units s !! n with Some x => ou_written x | None => [] end;
  sv_sane s := pd_ok (sq_durable s) ∧ ∀ n x, sq_units s !! n = Some x → unit_ok s x
|}.
Abbreviation fit := (sv_sane sqlite_view).

Lemma put_unit_fit s n x :
  fit s → unit_ok s x → fit (put_unit s n x).
Proof.
  intros [Hd Hu] Hx. split; [done|]. intros m y. cbn. rewrite lookup_insert_Some.
  intros [[<- <-]|[_ Hy]]; [by destruct Hx|]. by destruct (Hu m y Hy).
Qed.
Lemma calm_unit_ok s x u :
  unit_ok s x → su_calm (ou_unit x) u → unit_ok s (MkOpenUnit u (ou_version x) (ou_written x)).
Proof.
  intros [Hv Hi] [Cs Ci Cd]. split; [done|]. cbn. intros Hc Hdone. rewrite Cd in Hdone.
  destruct (Hi Hc Hdone) as [Hinv Hf]. split; [auto|]. intros id. rewrite <- Hf. unfold found. by rewrite Cs.
Qed.

Section laws.
Context {W : Type} `{SqliteFaults W} (adapter : SQLiteStoreAdapter).
#[local] Instance the_store : ProcessingStore (W * sqlite) nat := sqlite_store adapter.
#[local] Instance the_writer : OutcomeWriter (W * sqlite) nat := sqlite_outcomes.
Abbreviation same := (store_same (W := W) sqlite_view).
Abbreviation same_of n := (tx_same (W := W) sqlite_view n).

Lemma on_tx_calm {A} n (m : ST sqliteUnitOfWork A) : keeps su_calm m → keeps (same_of n) (on_tx n m).
Proof.
  intros Hm [w s] Hf. unfold on_tx. cbn in *. destruct (sq_units s !! n) as [x|] eqn:Hx.
  2:{ split; [done|]. split; [exact Hf|]. cbn. by rewrite Hx. }
  specialize (Hm (ou_unit x)). destruct (m (ou_unit x)) as [r u]. cbn in *. split; [done|]. split.
  - apply put_unit_fit; [done|]. apply calm_unit_ok; [by eapply Hf|done].
  - by rewrite lookup_insert_eq.
Qed.
Lemma same_of_same n : subrelation (same_of n) same.
Proof. intros p p' Hs Hf. by destruct (Hs Hf) as (? & ? & _). Qed.
Lemma keeps_same n {A} (m : ST (W * sqlite) A) : keeps (same_of n) m → keeps same m.
Proof. intros Hm p. apply (same_of_same n), Hm. Qed.
Lemma wake_same changes : keeps same (wake_targets changes).
Proof. intros [w s] Hf. unfold wake_targets. by destruct (WakeCommittedTargets sf_wake changes w) as [[r ?] ?]. Qed.
Lemma pending_same : keeps same (pending_changes adapter).
Proof. intros [w s] Hf. unfold pending_changes. by destruct (sf_query w). Qed.
Lemma begin_same : keeps same beginProcessing.
Proof.
  intros [w s] Hf. unfold beginProcessing. destruct (sf_begin w) as [[be io] w'].
  unfold BeginProcessing. destruct be as [e|]; [done|]. cbn in *. split; [done|].
  apply put_unit_fit; [done|]. split; [done|]. cbn. intros _ _. split; [apply Hf|]. done.
Qed.
Lemma put_unit_put s n x y : put_unit (put_unit s n x) n y = put_unit s n y.
Proof. unfold put_unit. cbn. by rewrite insert_insert_eq. Qed.
Lemma writeReceipt_cases n r (w : W) s :
  writeReceipt n r (w, s) = (Err errUnitOfWorkClosed, (w, s)) ∨
  (∃ e, writeReceipt n r (w, s) = (Err e, (w, s))) ∨
  ∃ x, sq_units s !! n = Some x ∧ unsigned_position (pr_Position r) ∧
    let '(res, u) := PutReceipt r (su_unit (ou_unit x)) in
    let su := MkSqliteUnit u (su_projections (ou_unit x)) (su_changes (ou_unit x)) (su_lastUpdatedAt (ou_unit x)) in
    writeReceipt n r (w, s) =
    (res, (w, put_unit s n (MkOpenUnit su (ou_version x)
                              match res with Ok _ => receipt_us r :: ou_written x | Err _ => ou_written x end))).
Proof.
  unfold writeReceipt. destruct (is_unsigned (pr_Position r)) eqn:Hu; cbn [negb]; [|right; left; by eexists].
  apply is_unsigned_spec in Hu. unfold mbind, st_bind, on_tx, on_unit, note_receipt, st_modify.
  destruct (sq_units s !! n) as [x|] eqn:Hx; [|by left]. right. right. exists x. split; [done|]. split; [done|].
  destruct (PutReceipt r (su_unit (ou_unit x))) as [[[]|e] u]; [|done]. cbn. rewrite lookup_insert_eq. cbn.
  by rewrite put_unit_put.
Qed.
Lemma receipt_unit_ok s x r res u :
  fit s → unit_ok s x → unsigned_position (pr_Position r) → PutReceipt r (su_unit (ou_unit x)) = (res, u) →
  unit_ok s (MkOpenUnit (MkSqliteUnit u (su_projections (ou_unit x)) (su_changes (ou_unit x))
                           (su_lastUpdatedAt (ou_unit x))) (ou_version x)
               match res with Ok _ => receipt_us r :: ou_written x | Err _ => ou_written x end).
Proof.
  intros Hf [Hv Hi] Hu Hp. split; [done|]. cbn. intros Hc Hopen.
  pose proof (clean_PutReceipt r (su_unit (ou_unit x))) as [Hdone Hbad].
  pose proof (run_write_steps (WReceipt r) Hu (su_unit (ou_unit x))) as [_ Hinv]. cbn in Hinv.
  rewrite Hp in Hdone, Hbad, Hinv. cbn in *. rewrite Hdone in Hopen. destruct (Hi Hc Hopen) as [Hpd Hfound].
  split; [auto|]. intros id. destruct res as [[]|e].
  - rewrite (found_added r _ _ id Hu Hp). unfold overlay. cbn [find]. cbn.
    case_bool_decide; [done|]. apply Hfound.
  - unfold found. rewrite (Hbad e eq_refl). apply Hfound.
Qed.
Lemma receipt_same n r : keeps same (writeReceipt n r).
Proof.
  intros [w s] Hf. destruct (writeReceipt_cases n r w s) as [->|[[e ->]|(x & Hx & Hu & Hr)]]; [done|done|].
  destruct (PutReceipt r (su_unit (ou_unit x))) as [res u] eqn:Hp. rewrite Hr. cbn in *. split; [done|].
  apply put_unit_fit; [done|]. eapply receipt_unit_ok; eauto. by eapply Hf.
Qed.
Lemma receipt_written n r (p p' : W * sqlite) :
  writeReceipt n r p = (Ok tt, p') →
  ∃ r', sv_written sqlite_view p'.2 n = r' :: sv_written sqlite_view p.2 n ∧ kept_as r r'.
Proof.
  destruct p as [w s]. intros He.
  destruct (writeReceipt_cases n r w s) as [Hr|[[e Hr]|(x & Hx & Hu & Hr)]]; [congruence|congruence|].
  destruct (PutReceipt r (su_unit (ou_unit x))) as [res u] eqn:Hp. rewrite Hr in He. injection He as -> <-.
  cbn. rewrite lookup_insert_eq, Hx. exists (receipt_us r). split; [done|]. apply kept_as_us.
  by eapply PutReceipt_Validates.
Qed.
Lemma rollback_same n : keeps same (rollback n).
Proof.
  intros [w s] Hf. unfold rollback. destruct (sf_rollback w) as [f w']. unfold on_tx, on_unit. cbn in Hf.
  destruct (sq_units s !! n) as [x|] eqn:Hx; [|done]. unfold Rollback.
  destruct (uw_done (su_unit (ou_unit x))) eqn:Hd; cbn; (split; [done|]); apply put_unit_fit; try done;
    destruct (proj2 Hf n x Hx) as [Hv Hi]; split; cbn; try done.
Qed.

(** ** Commits *)
Lemma commit_sqlite_cases cancelled rb fate durable u outcome durable' u' :
  commit_sqlite cancelled rb fate durable u = (outcome, durable', u') →
  uw_done u' = true ∧
  (if takes_effect cancelled fate u then durable' = uw_db u ∧ deferred_hold (uw_db u) = true ∧ uw_done u = false
   else durable' = durable ∧ outcome.1 ≠ commitConfirmed) ∧
  match outcome.1 with commitStateOther _ => False | commitRejected => takes_effect cancelled fate u = false | _ => True end.
Proof.
  unfold commit_sqlite, takes_effect, Commit, Rollback.
  destruct cancelled as [e|]; cbn [is_null andb].
  { destruct (uw_done u) eqn:Hd; intros [= <- <- <-]; cbn; auto. }
  destruct (uw_done u) eqn:Hd; cbn [negb andb]; [by intros [= <- <- <-]|].
  destruct (uw_failed u) as [e|]; cbn [is_null andb]; [by intros [= <- <- <-]|].
  destruct (deferred_hold (uw_db u)); cbn [negb andb]; [|by intros [= <- <- <-]].
  destruct fate as [[e [|]]|]; by intros [= <- <- <-].
Qed.
Lemma commit_law n r (p : W * sqlite) state err p' :
  fit p.2 → sv_written sqlite_view p.2 n = [r] → commit n p = ((state, err), p') →
  fit p'.2 ∧
  (∀ d, d ≠ pr_DeliveryID r → sv_durable sqlite_view p'.2 d = sv_durable sqlite_view p.2 d) ∧
  match state with
  | commitConfirmed => sv_durable sqlite_view p'.2 (pr_DeliveryID r) = Some r
  | commitRejected => sv_durable sqlite_view p'.2 (pr_DeliveryID r) = sv_durable sqlite_view p.2 (pr_DeliveryID r)
  | commitUnknown => sv_durable sqlite_view p'.2 (pr_DeliveryID r) = Some r ∨
                     sv_durable sqlite_view p'.2 (pr_DeliveryID r) = sv_durable sqlite_view p.2 (pr_DeliveryID r)
  | commitStateOther _ => False
  end.
Proof.
  destruct p as [w s]. cbn [snd]. intros Hf Hw. unfold commit. cbn in Hw.
  destruct (sq_units s !! n) as [x|] eqn:Hx; [|done]. destruct (sf_commit w) as [[[cancelled rb] fate0] w'].
  set (fate := if Nat.eqb _ _ then fate0 else _).
  destruct (commit_sqlite cancelled rb fate (sq_durable s) (su_unit (ou_unit x))) as [[outcome durable] u'] eqn:Hc.
  intros [= Ho <-]. apply commit_sqlite_cases in Hc as (Hdone & Hc & Hstate). rewrite Ho in *. cbn [fst] in *.
  destruct (proj2 Hf n x Hx) as [Hv Hi].
  assert (∀ y version d units, (sq_version s ≤ version)%nat → unit_ok s y → (version = sq_version s → d = sq_durable s) →
            unit_ok (MkSqlite d version units) y) as Hother.
  { intros y version d units Hle [Hv' Hi'] Hd. split; cbn; [lia|]. intros Hy Hop.
    assert (version = sq_version s) as Hs by lia. rewrite Hd by done. apply Hi'; [congruence|done]. }
  destruct (takes_effect cancelled fate (su_unit (ou_unit x))) eqn:Ht.
  - destruct Hc as (-> & Hh & Hopen).
    assert (ou_version x = sq_version s) as Hcur.
    { unfold fate in Ht. destruct (Nat.eqb_spec (ou_version x) (sq_version s)); [done|].
      unfold takes_effect in Ht. by rewrite !andb_false_r in Ht. }
    destruct (Hi Hcur Hopen) as [Hinv Hfound].
    assert (∀ id, sv_durable sqlite_view (MkSqlite (uw_db (su_unit (ou_unit x))) 0 ∅) id
              = if bool_decide (pr_DeliveryID r = id) then Some r else sv_durable sqlite_view s id) as Hd.
    { intros id. cbn. rewrite Hfound, Hw. unfold overlay. cbn [find]. by case_bool_decide. }
    cbn in Hd |- *. split; [|split].
    + split; [by split|]. intros m y. rewrite lookup_insert_Some. intros [[<- <-]|[_ Hy]].
      * split; cbn; [lia|]. congruence.
      * apply Hother; [lia|by eapply Hf|lia].
    + intros d Hne. by rewrite Hd, bool_decide_eq_false_2.
    + rewrite Hd, bool_decide_eq_true_2 by done. destruct state; auto; done.
  - destruct Hc as [-> Hne]. cbn. split; [|split].
    + split; [apply Hf|]. intros m y. cbn. rewrite lookup_insert_Some. intros [[<- <-]|[_ Hy]].
      * split; cbn; [lia|]. congruence.
      * apply Hother; [lia|by eapply Hf|done].
    + done.
    + destruct state; auto; done.
Qed.

Definition sqlite_lawful : LawfulStore W sqlite nat.
Proof.
  refine {| the_view := sqlite_view |}.
  - intros d w s r w' s' Hf. cbn. destruct (sf_query w) as [f w1]. intros [= <- <- <-]. split; [done|].
    intros o. unfold found, FindProcessingReceipt. destruct (negb _); [done|]. destruct f; [done|].
    intros ->. done.
  - cbn. unfold notifyReceiptReplay. destruct (negb (ad_wake adapter)); [by intros p Hf|].
    apply keeps_bind; [apply _|apply pending_same|intros ?]. apply wake_same.
  - apply begin_same.
  - intros [w s] n p' Hf. cbn. unfold beginProcessing. destruct (sf_begin w) as [[be io] w'].
    unfold BeginProcessing. destruct be; [done|]. intros [= <- <-]. cbn. by rewrite lookup_insert_eq.
  - intros n o. apply on_tx_calm, on_unit_calm, calm_PutParserOutcome.
  - intros n o. apply on_tx_calm, on_unit_calm, calm_PutDetectionOutcome.
  - intros n o. apply on_tx_calm, on_unit_calm, calm_PutDetectionContribution.
  - intros n o. apply on_tx_calm, on_unit_calm, calm_PutAlert.
  - intros n q. apply on_tx_calm, calm_recordAutomaticDecision.
  - intros n o. apply on_tx_calm, on_unit_calm, calm_AppendCriticalAudit.
  - intros n. apply on_tx_calm, calm_finalize.
  - apply receipt_same.
  - intros n r p p' Hf. apply receipt_written.
  - apply commit_law.
  - intros n. cbn. unfold notifyCommitted. apply keeps_bind; [apply _| |intros ?; apply wake_same].
    apply (keeps_same n), on_tx_calm. by intros u.
  - apply rollback_same.
Defined.
End laws.

(** ** The program *)
Section program.
Context {V W : Type}.
Context `{Cancellation W, Clock W, PlanCatalog W, ParserRunner V W, RuleEvaluator V W, SqliteFaults W}.
Context (adapter : SQLiteStoreAdapter) (nodeID : NodeID).
#[local] Instance program_store : ProcessingStore (W * sqlite) nat := sqlite_store adapter.
#[local] Instance program_writer : OutcomeWriter (W * sqlite) nat := sqlite_outcomes.
#[local] Instance program_lawful_store : LawfulStore W sqlite nat := sqlite_lawful adapter.
#[local] Instance program_runner : AttemptRunner (env W sqlite) nat pipelineAttempt :=
  env_runner (V := V) nodeID.
#[local] Instance program_lawful : LawfulProcessing (env W sqlite) nat pipelineAttempt :=
  env_lawful_processing (V := V) nodeID.

(** A process that has just started over tables as an earlier one left them. *)
Definition started (w : W) (tables : processing_db) : env W sqlite :=
  MkEnv w (MkSqlite tables 0 ∅) new_system [] ∅.
Lemma started_at_start w tables : pd_ok tables → at_start (started w tables).
Proof.
  intros Hd. split; [|by intros d]. split; [split; [done|]; by intros n x|]. split; [constructor|].
  split; [by intros d a ?%elem_of_nil|]. split; [done|]. by intros r ?%elem_of_empty.
Qed.
(** The attempts of a delivery whose window memberships count or may still do:
    their reservation is confirmed, or waits for its resolution. *)
Definition counting (e : env W sqlite) (d : DeliveryID) : list pipelineAttempt :=
  base.filter (λ a, is_prepared e (pat_reservation a) = true ∨ pat_reservation a ∈ en_confirmed e) (attempts_of e d).
Lemma counting_live e d : counting e d = live e d.
Proof.
  unfold counting, live. apply list_filter_iff. intros a. cbn.
  destruct (is_prepared e (pat_reservation a)); [naive_solver|]. case_bool_decide; naive_solver.
Qed.

(** C5: Exactly once, of the whole program. Coordinators, pipeline, window ledger
    and SQLite tables run together, over any parsers, rules and clock, any failing
    reads and statements, commits that fail with or without having taken effect,
    and replays. At every moment every outcome and contribution in the tables has a
    receipt that can be read. A delivery whose receipt was written since the start
    has exactly one attempt that counts in the windows, or waits to be resolved;
    one whose receipt was there before has none, and the receipt is as it was; and
    of a delivery without a receipt no attempt was confirmed. *)
Theorem program_exactly_once (calls : list (nat * Delivery)) w tables0 :
  pd_ok tables0 →
  let e := (run_calls calls ∅ (started w tables0)).2 in
  let tables := sq_durable (en_store e) in
  (∀ key row, pd_parser_outcomes tables !! key = Some row → ∃ r, found key.1.1 tables = Ok (Some r)) ∧
  (∀ key row, pd_contributions tables !! key = Some row → ∃ r, found (dcr_DeliveryID row) tables = Ok (Some r)) ∧
  (∀ key row, pd_detection_outcomes tables !! key = Some row → ∃ r, found (dor_DeliveryID row) tables = Ok (Some r)) ∧
  ∀ d, match found d tables, found d tables0 with
       | Ok (Some r), Ok (Some r0) => counting e d = [] ∧ r = r0
       | Ok (Some _), _ => ∃ a, counting e d = [a]
       | _, _ => ∀ a, a ∈ attempts_of e d → pat_reservation a ∉ en_confirmed e
       end.
Proof.
  intros Hd. cbn zeta. pose proof (started_at_start w tables0 Hd) as Hs.
  destruct (run_calls_aligned _ calls ∅ _ (start_aligned _ Hs)) as (Hal & _ & _); [intros i c; by rewrite lookup_empty|].
  pose proof (run_calls_exactly_once calls _ Hs) as Hone. cbn zeta in Hone.
  destruct (run_calls calls ∅ (started w tables0)) as [cs e]. cbn [snd] in *.
  destruct (al_sane _ _ Hal) as [[[[Hso Hrd _ _] Hh] _] (_ & _ & _ & Hconf)].
  destruct (deferred_inv _ Hh) as (D1 & D2 & D3).
  split; [intros key row Hrow; eapply has_receipt_readable; eauto|].
  split; [intros key row Hrow; eapply has_receipt_readable; eauto|].
  split; [intros key row Hrow; eapply has_receipt_readable; eauto|].
  intros d. rewrite counting_live. destruct (Hone d) as [_ Hm].
  change (durable view e d) with (sv_durable sqlite_view (en_store e) d) in Hm.
  change (durable view (started w tables0) d) with (sv_durable sqlite_view (MkSqlite tables0 0 ∅) d) in Hm.
  cbn in Hm. assert ((∀ a, a ∈ attempts view e d → resolution view e a ≠ Some true) →
    ∀ a, a ∈ attempts_of e d → pat_reservation a ∉ en_confirmed e) as Hno.
  { intros Hr a Ha Hc. apply (Hr a Ha). cbn. destruct (Hconf _ Hc) as [-> _]. by rewrite bool_decide_eq_true_2. }
  destruct (found d (sq_durable (en_store e))) as [[r|]|]; [|by auto..].
  by destruct (found d tables0) as [[r0|]|].
Qed.
End program.
