(* ===== verification/ProcessingLab.v ===== *)
(** * Runs of the assembled processing (internal/processor)

    A concrete world for file SqliteRuntime: two parsers, of which one rejects
    the line, and two rules, of which one rejects the event; tables with the
    source and the versions registered; and a driver whose reads and commits
    answer from a script. The theorems of files PipelineProofs, ExactlyOnce and
    SqliteRuntime are applied to runs of it: a commit whose acknowledgement is
    lost, with the read-back failing too, and the replay of the delivery. *)

From S2P Require Import Prelude GoStd Sha256 Netip Identity CoreModel Ledger Projection MemoryService Json.
From S2P Require Import DecisionTx DecisionStore SecurityEvent ProcessingPlan Coordinator Pipeline PipelineProofs ExactlyOnce.
From S2P Require Import ProcessingRuntime SourceStore SourceHistory SourceLab UnitOfWork UnitProofs UnitLab SqliteRuntime.

(** Answers still to give; past the end, reads succeed and commits are done. *)
Record script := MkScript { sc_queries : list (option error); sc_commits : list tx_commit_fate }.

Definition lab_rules : list RuleSnapshot :=
  [MkRuleSnapshot "brute-force" "v3"; MkRuleSnapshot "broken" "v1"].
Definition lab_rejection : error := plan_error
  (MkPlanFailure PlanFailureRecordPermanent "bad_event" "event has no source address" "skip" nil_cause).

Section lab.
#[local] Instance lab_context : Cancellation script := {| env_Cancelled w := (None, w) |}.
#[local] Instance lab_clock : Clock script := {| env_Now w := (sample_time, w) |}.
#[local] Instance lab_catalog : PlanCatalog script :=
  {| env_SnapshotParsers w := (Ok sample_parsers, w); env_SnapshotRules w := (Ok lab_rules, w) |}.
#[local] Instance lab_parsers : ParserRunner unit script :=
  {| env_RunParser parser _ w :=
       (if bool_decide (ps_ParserID parser = "sshd") then Ok [sample_fields]
        else Err (Wrapf "parse" (plan_error sample_poison)), w) |}.
#[local] Instance lab_evaluator : RuleEvaluator unit script :=
  {| env_Match _ _ w := (Ok (MkRuleMatch true "203.0.113.7" "root"), w);
     env_Evaluate rule _ _ w :=
       (if bool_decide (rs_RuleID rule = "brute-force") then Ok (MkDetectionEffects None None)
        else Err lab_rejection, w) |}.
#[local] Instance lab_faults : SqliteFaults script :=
  {| sf_query w := (default None (head (sc_queries w)), MkScript (tail (sc_queries w)) (sc_commits w));
     sf_begin w := ((None, []), w);
     sf_commit w := ((None, None, default None (head (sc_commits w))), MkScript (sc_queries w) (tail (sc_commits w)));
     sf_rollback w := (None, w);
     sf_wake _ _ w := (Ok tt, w) |}.
#[local] Instance lab_store : ProcessingStore (script * sqlite) nat := sqlite_store NewSQLiteStoreAdapter.
#[local] Instance lab_writer : OutcomeWriter (script * sqlite) nat := sqlite_outcomes.
#[local] Instance lab_lawful_store : LawfulStore script sqlite nat := sqlite_lawful NewSQLiteStoreAdapter.
#[local] Instance lab_runner : AttemptRunner (env script sqlite) nat pipelineAttempt :=
  env_runner (V := unit) sample_node.
#[local] Instance lab_lawful : LawfulProcessing (env script sqlite) nat pipelineAttempt :=
  env_lawful_processing (V := unit) sample_node.

Definition program_tables : processing_db :=
  MkProcessingDb (pd_source lab_tables) (list_to_set ((λ p, (ps_ParserID p, ps_Version p)) <$> sample_parsers))
    (list_to_set ((λ r, (rs_RuleID r, rs_Version r)) <$> lab_rules)) ∅ ∅ ∅ ∅ (pd_decisions lab_tables).
Lemma program_tables_ok : pd_ok program_tables.
Proof.
  destruct lab_tables_ok as [[H1 H2 _ _] _]. split; [|vm_compute; reflexivity]. split; [exact H1|exact H2|..].
  - intros id r. cbn. rewrite lookup_empty. discriminate.
  - intros id id' r r'. cbn. rewrite lookup_empty. discriminate.
Qed.
Definition lab_start (w : script) : env script sqlite := started w program_tables.
Lemma lab_at_start w : at_start (lab_start w).
Proof. exact (started_at_start (V := unit) NewSQLiteStoreAdapter sample_node w _ program_tables_ok). Qed.

(** The commit takes effect but reports a failure, and the read-back fails: the
    attempt is deferred. *)
Definition lost_ack : script :=
  MkScript [None; Some (Errorf "disk")] [Some (Errorf "connection lost", true)].
Definition lost_calls : list (nat * Delivery) := [(0%nat, sample_work)].
Abbreviation lost_end := (run_calls lost_calls ∅ (lab_start lost_ack)).2 (only parsing).
Definition lost_receipt : option ProcessingReceipt :=
  Eval vm_compute in durable view lost_end (dl_ID sample_work).

Lemma exactly_once_witness :
  durable view lost_end (dl_ID sample_work) = lost_receipt ∧
  ∃ a, live lost_end (dl_ID sample_work) = [a].
Proof.
  assert (durable view lost_end (dl_ID sample_work) = lost_receipt) as Hr by (vm_compute; reflexivity).
  split; [exact Hr|].
  pose proof (exactly_once lost_calls (lab_start lost_ack) (lab_at_start lost_ack) (dl_ID sample_work))
    as [_ He].
  assert (durable view (lab_start lost_ack) (dl_ID sample_work) = None) as H0 by (vm_compute; reflexivity).
  cbv zeta in He. rewrite Hr, H0 in He. exact He.
Defined.

Lemma program_exactly_once_witness :
  found (dl_ID sample_work) program_tables = Ok None ∧
  found (dl_ID sample_work) (sq_durable (en_store lost_end)) = Ok lost_receipt ∧
  size (pd_contributions (sq_durable (en_store lost_end))) = 1%nat ∧
  ∃ a, counting lost_end (dl_ID sample_work) = [a].
Proof.
  assert (found (dl_ID sample_work) program_tables = Ok None) as H0 by (vm_compute; reflexivity).
  assert (found (dl_ID sample_work) (sq_durable (en_store lost_end)) = Ok lost_receipt) as H1 by (vm_compute; reflexivity).
  split; [exact H0|]. split; [exact H1|]. split; [vm_compute; reflexivity|].
  destruct (program_exactly_once (V := unit) NewSQLiteStoreAdapter sample_node lost_calls lost_ack program_tables
              program_tables_ok) as (_ & _ & _ & He).
  specialize (He (dl_ID sample_work)). cbv zeta in He.
  change (run_calls lost_calls ∅ (started lost_ack program_tables)) with (run_calls lost_calls ∅ (lab_start lost_ack)) in He.
  rewrite H1, H0 in He. exact He.
Defined.

(** The replay, made by another coordinator, completes. *)
Definition call_after (calls : list (nat * Delivery)) (i : nat) (delivery : Delivery) (e0 : env script sqlite)
    : result (DurableCompletion * option error) * (Coordinator pipelineAttempt * env script sqlite) :=
  let '(cs, e) := run_calls calls ∅ e0 in Process delivery (default NewCoordinator (cs !! i), e).
Abbreviation replay :=
  (call_after lost_calls 1 sample_work (lab_start lost_ack)) (only parsing).
Definition replayed : result (DurableCompletion * option error) := Eval vm_compute in replay.1.

Lemma completion_is_durable_witness :
  ∃ completion receipt, replay.1 = Ok (completion, None) ∧
    durable view replay.2.2 (dl_ID sample_work) = Some receipt.
Proof.
  enough (∀ completion err, replay.1 = Ok (completion, err) →
            ∃ receipt, durable view replay.2.2 (dl_ID sample_work) = Some receipt) as Hd.
  { assert (replay.1 = replayed) as Hr by (vm_compute; reflexivity).
    destruct (Hd _ _ Hr) as (receipt & Hrec). eexists _, receipt. exact (conj Hr Hrec). }
  unfold call_after. pose proof (completion_is_durable lost_calls [] 1 sample_work
    (lab_start lost_ack) (lab_at_start lost_ack)) as Hd. revert Hd.
  destruct (run_calls lost_calls ∅ (lab_start lost_ack)) as [cs e].
  destruct (Process sample_work (default NewCoordinator (cs !! 1%nat), e)) as [r [c e1]].
  intros Hd completion err Hr. destruct (Hd _ _ Hr) as (receipt & Hrec & _). exists receipt. exact Hrec.
Defined.

(** ** A preparation with a rejected line and a rejected event *)
Abbreviation lab_prepared :=
  (prepare (V := unit) sample_node sample_work (lab_start (MkScript [] []))) (only parsing).
Definition lab_attempt : option pipelineAttempt :=
  Eval vm_compute in match lab_prepared.1 with Ok a => a | Err _ => None end.

Lemma lab_prepared_eq : lab_prepared.1 = Ok lab_attempt.
Proof. vm_compute. reflexivity. Qed.

Lemma prepare_balanced_witness :
  match lab_attempt with
  | Some a => lab_prepared.1 = Ok (Some a) ∧ open (V := unit) lab_prepared.2 = {[pat_reservation a]} ∪ ∅
  | None => False
  end.
Proof.
  pose proof lab_prepared_eq as Hr.
  pose proof (prepare_balanced sample_node sample_work (lab_start (MkScript [] [])) lab_prepared.2
                lab_prepared.1 (surjective_pairing _)) as Hb.
  rewrite Hr in Hb. unfold lab_attempt in *. split; [exact Hr|].
  assert (open (V := unit) (lab_start (MkScript [] [])) = ∅) as Ho by (vm_compute; reflexivity).
  unfold balanced in Hb. rewrite Ho in Hb. exact (proj2 Hb).
Defined.

End lab.
