(* ===== verification/SourceQueue.v ===== *)
(** * The delivery queue (internal/source/queue.go)

    Readers and workers share a bounded queue. Every call is a thread of a shared
    system; its steps are the accesses to the locks and channels of the queue, and
    a schedule interleaves them in any way. A send on a closed channel and the
    closing of a closed channel are the state [Panicked]. *)

From S2P Require Import Prelude GoStd Sha256 Netip Identity CoreModel.

Definition ErrDeliveryQueueSealed : error := Errorf "delivery queue sealed".

(** [dq_slots] and [dq_items] are the contents of the two buffered channels,
    [dq_sealClosed], [dq_itemsClosed] and [dq_sealDone] whether a channel is
    closed, [dq_admissions] the counter of the wait group. *)
Record DeliveryQueue := MkQueue {
  dq_capacity : nat;
  dq_items : list Delivery;
  dq_slots : nat;
  dq_sealClosed : bool;
  dq_itemsClosed : bool;
  dq_sealDone : bool;
  dq_sealed : bool;
  dq_admissions : nat;
  dq_acceptedAt : list time;
  dq_backpressureDuration : duration;
  dq_rejectedTotal : Z
}.
Definition NewDeliveryQueue (capacity : Z) : result DeliveryQueue :=
  fail_if (capacity <=? 0) (Errorf "queue capacity must be positive");;
  Ok (MkQueue (Z.to_nat capacity) [] (Z.to_nat capacity) false false false false 0 [] 0 0).

Record QueueStats := MkQueueStats {
  qs_Capacity : nat;
  qs_Depth : nat;
  qs_BackpressureDuration : duration;
  qs_RejectedTotal : Z;
  qs_OldestItemAge : duration
}.
Definition Stats (now : time) (q : DeliveryQueue) : QueueStats :=
  MkQueueStats (dq_capacity q) (length (dq_acceptedAt q)) (dq_backpressureDuration q) (dq_rejectedTotal q)
    (match dq_acceptedAt q with
     | oldest :: _ => if IsZero oldest then 0 else Z.max 0 (TimeSub now oldest)
     | [] => 0
     end).

(** ** Accesses *)
(** Durations are int64. *)
Definition add_duration (a b : duration) : duration := wrap64 (a + b + 2 ^ 63) - 2 ^ 63.
Definition set_admissions (q : DeliveryQueue) (n : nat) : DeliveryQueue :=
  MkQueue (dq_capacity q) (dq_items q) (dq_slots q) (dq_sealClosed q) (dq_itemsClosed q) (dq_sealDone q)
    (dq_sealed q) n (dq_acceptedAt q) (dq_backpressureDuration q) (dq_rejectedTotal q).
Definition set_slots (q : DeliveryQueue) (n : nat) : DeliveryQueue :=
  MkQueue (dq_capacity q) (dq_items q) n (dq_sealClosed q) (dq_itemsClosed q) (dq_sealDone q)
    (dq_sealed q) (dq_admissions q) (dq_acceptedAt q) (dq_backpressureDuration q) (dq_rejectedTotal q).
Definition set_items (q : DeliveryQueue) (items : list Delivery) : DeliveryQueue :=
  MkQueue (dq_capacity q) items (dq_slots q) (dq_sealClosed q) (dq_itemsClosed q) (dq_sealDone q)
    (dq_sealed q) (dq_admissions q) (dq_acceptedAt q) (dq_backpressureDuration q) (dq_rejectedTotal q).
Definition recordAccepted (delivery : Delivery) (wait : duration) (now : time) (q : DeliveryQueue) : DeliveryQueue :=
  MkQueue (dq_capacity q) (dq_items q ++ [delivery]) (dq_slots q) (dq_sealClosed q) (dq_itemsClosed q)
    (dq_sealDone q) (dq_sealed q) (dq_admissions q) (dq_acceptedAt q ++ [now])
    (add_duration (dq_backpressureDuration q) wait) (dq_rejectedTotal q).
Definition recordDequeued (q : DeliveryQueue) : DeliveryQueue :=
  MkQueue (dq_capacity q) (dq_items q) (dq_slots q) (dq_sealClosed q) (dq_itemsClosed q) (dq_sealDone q)
    (dq_sealed q) (dq_admissions q) (tail (dq_acceptedAt q)) (dq_backpressureDuration q) (dq_rejectedTotal q).
Definition recordRejected (q : DeliveryQueue) : DeliveryQueue :=
  MkQueue (dq_capacity q) (dq_items q) (dq_slots q) (dq_sealClosed q) (dq_itemsClosed q) (dq_sealDone q)
    (dq_sealed q) (dq_admissions q) (dq_acceptedAt q) (dq_backpressureDuration q)
    (wrap64 (dq_rejectedTotal q + 1)).
Definition begin_seal (q : DeliveryQueue) : DeliveryQueue :=
  MkQueue (dq_capacity q) (dq_items q) (dq_slots q) true (dq_itemsClosed q) (dq_sealDone q) true
    (dq_admissions q) (dq_acceptedAt q) (dq_backpressureDuration q) (dq_rejectedTotal q).
Definition close_items (q : DeliveryQueue) : DeliveryQueue :=
  MkQueue (dq_capacity q) (dq_items q) (dq_slots q) (dq_sealClosed q) true (dq_sealDone q) (dq_sealed q)
    (dq_admissions q) (dq_acceptedAt q) (dq_backpressureDuration q) (dq_rejectedTotal q).
Definition close_done (q : DeliveryQueue) : DeliveryQueue :=
  MkQueue (dq_capacity q) (dq_items q) (dq_slots q) (dq_sealClosed q) (dq_itemsClosed q) true (dq_sealed q)
    (dq_admissions q) (dq_acceptedAt q) (dq_backpressureDuration q) (dq_rejectedTotal q).

(** ** Calls *)
Inductive thread :=
  | EnqueueCall (d : Delivery)
  | EnqueueRefused (d : Delivery) (e : error)   (* recordRejected, without admission *)
  | EnqueueSelect (d : Delivery)
  | EnqueueAccept (d : Delivery)                 (* holds a slot *)
  | EnqueueReject (d : Delivery) (e : error)
  | EnqueueLeave (d : Delivery) (r : result unit) (* admissions.Done *)
  | EnqueueDone (d : Delivery) (r : result unit)
  | DequeueCall
  | DequeueSelect
  | DequeueTaken (d : Delivery)
  | DequeueReturn (d : Delivery)                 (* returns the slot *)
  | DequeueDone (r : result Delivery)
  | SealCall
  | SealJoin                                     (* waits for the first call *)
  | SealAdmissions
  | SealClose
  | SealDone
  | Panicked.

(** What the scheduler chooses for a step: the branch of a select, which only runs
    when it is ready, and the readings of the clock. *)
Inductive arm := Ready | OnSeal | OnDone (e : error).
Record move := MkMove { mv_arm : arm; mv_now : time; mv_wait : duration }.

Definition thread_step (m : move) (t : thread) (q : DeliveryQueue) : option (thread * DeliveryQueue) :=
  match t with
  | EnqueueCall d =>
    if dq_sealed q then Some (EnqueueRefused d ErrDeliveryQueueSealed, q)
    else match mv_arm m with
    | OnDone e => Some (EnqueueRefused d e, q)
    | _ => Some (EnqueueSelect d, set_admissions q (S (dq_admissions q)))
    end
  | EnqueueRefused d e => Some (EnqueueDone d (Err e), recordRejected q)
  | EnqueueSelect d =>
    match mv_arm m with
    | Ready => match dq_slots q with
               | S n => Some (EnqueueAccept d, set_slots q n)
               | O => None
               end
    | OnSeal => if dq_sealClosed q then Some (EnqueueReject d ErrDeliveryQueueSealed, q) else None
    | OnDone e => Some (EnqueueReject d e, q)
    end
  | EnqueueAccept d =>
    if dq_itemsClosed q then Some (Panicked, q)
    else if Nat.ltb (length (dq_items q)) (dq_capacity q)
    then Some (EnqueueLeave d (Ok tt), recordAccepted d (mv_wait m) (mv_now m) q)
    else None
  | EnqueueReject d e => Some (EnqueueLeave d (Err e), recordRejected q)
  | EnqueueLeave d r => Some (EnqueueDone d r, set_admissions q (pred (dq_admissions q)))
  | EnqueueDone _ _ => None
  | DequeueCall =>
    match mv_arm m with
    | OnDone e => Some (DequeueDone (Err e), q)
    | _ => Some (DequeueSelect, q)
    end
  | DequeueSelect =>
    match mv_arm m, dq_items q with
    | OnDone e, _ => Some (DequeueDone (Err e), q)
    | _, d :: items => Some (DequeueTaken d, set_items q items)
    | _, [] => if dq_itemsClosed q then Some (DequeueDone (Err ErrDeliveryQueueSealed), q) else None
    end
  | DequeueTaken d => Some (DequeueReturn d, recordDequeued q)
  | DequeueReturn d =>
    if Nat.ltb (dq_slots q) (dq_capacity q)
    then Some (DequeueDone (Ok d), set_slots q (S (dq_slots q)))
    else None
  | DequeueDone _ => None
  | SealCall =>
    if dq_sealed q then Some (SealJoin, q)
    else if dq_sealClosed q then Some (Panicked, q) else Some (SealAdmissions, begin_seal q)
  | SealJoin => if dq_sealDone q then Some (SealDone, q) else None
  | SealAdmissions =>
    match dq_admissions q with
    | O => if dq_itemsClosed q then Some (Panicked, q) else Some (SealClose, close_items q)
    | S _ => None
    end
  | SealClose => if dq_sealDone q then Some (Panicked, q) else Some (SealDone, close_done q)
  | SealDone => None
  | Panicked => None
  end.

(** ** Schedules *)
Inductive call := CallEnqueue (d : Delivery) | CallDequeue | CallSeal.
Definition new_thread (c : call) : thread :=
  match c with CallEnqueue d => EnqueueCall d | CallDequeue => DequeueCall | CallSeal => SealCall end.
Inductive event := Start (c : call) | Step (i : nat) (m : move).
Record qsystem := MkQSystem { qs_queue : DeliveryQueue; qs_threads : list thread }.
Definition q_event (ev : event) (s : qsystem) : qsystem :=
  match ev with
  | Start c => MkQSystem (qs_queue s) (qs_threads s ++ [new_thread c])
  | Step i m =>
    match qs_threads s !! i with
    | Some t => match thread_step m t (qs_queue s) with
                | Some (t', q') => MkQSystem q' (<[i := t']> (qs_threads s))
                | None => s
                end
    | None => s
    end
  end.
Definition run_queue (evs : list event) (s : qsystem) : qsystem := foldl (λ s ev, q_event ev s) s evs.
Definition fresh_queue (capacity : nat) : qsystem :=
  MkQSystem (MkQueue capacity [] capacity false false false false 0 [] 0 0) [].
(** [NewDeliveryQueue] of a positive capacity. *)
Definition at_work (capacity : nat) (evs : list event) : qsystem := run_queue evs (fresh_queue capacity).

Lemma NewDeliveryQueue_Ok capacity q :
  NewDeliveryQueue capacity = Ok q ↔ 0 < capacity ∧ q = qs_queue (fresh_queue (Z.to_nat capacity)).
Proof.
  unfold NewDeliveryQueue. destruct (Z.leb_spec capacity 0); cbn; [split; [done|lia]|]. naive_solver.
Qed.

(** ** What was sent and received, with the calls that did it *)
Definition sent_by (ev : event) (s : qsystem) : list (nat * Delivery) :=
  match ev with
  | Step i m =>
    match qs_threads s !! i with
    | Some (EnqueueAccept d) =>
      match thread_step m (EnqueueAccept d) (qs_queue s) with
      | Some (EnqueueLeave _ _, _) => [(i, d)]
      | _ => []
      end
    | _ => []
    end
  | Start _ => []
  end.
Definition received_by (ev : event) (s : qsystem) : list (nat * Delivery) :=
  match ev with
  | Step i m =>
    match qs_threads s !! i with
    | Some DequeueSelect =>
      match thread_step m DequeueSelect (qs_queue s) with
      | Some (DequeueTaken d, _) => [(i, d)]
      | _ => []
      end
    | _ => []
    end
  | Start _ => []
  end.
Fixpoint logged (f : event → qsystem → list (nat * Delivery)) (evs : list event) (s : qsystem)
    : list (nat * Delivery) :=
  match evs with [] => [] | ev :: evs => f ev s ++ logged f evs (q_event ev s) end.
Abbreviation accepted capacity evs := (logged sent_by evs (fresh_queue capacity)).
Abbreviation taken capacity evs := (logged received_by evs (fresh_queue capacity)).

Lemma run_queue_snoc evs ev s : run_queue (evs ++ [ev]) s = q_event ev (run_queue evs s).
Proof. unfold run_queue. by rewrite foldl_app. Qed.
Lemma logged_snoc f evs ev s : logged f (evs ++ [ev]) s = logged f evs s ++ f ev (run_queue evs s).
Proof.
  revert s. induction evs as [|x evs IH]; intros s; cbn; [by rewrite app_nil_r|]. by rewrite IH, <- app_assoc.
Qed.

(** ** Counting threads *)
Definition admitted (t : thread) : nat :=
  match t with EnqueueSelect _ | EnqueueAccept _ | EnqueueReject _ _ | EnqueueLeave _ _ => 1 | _ => 0 end.
Definition holding (t : thread) : nat :=
  match t with EnqueueAccept _ | DequeueTaken _ | DequeueReturn _ => 1 | _ => 0 end.
Definition unrecorded (t : thread) : nat := match t with DequeueTaken _ => 1 | _ => 0 end.
Definition sealing (t : thread) : nat := match t with SealAdmissions => 1 | _ => 0 end.
Definition closing (t : thread) : nat := match t with SealClose => 1 | _ => 0 end.
Definition panicked (t : thread) : nat := match t with Panicked => 1 | _ => 0 end.
Abbreviation tally f ts := (sum_list_with f ts).

Lemma tally_insert (f : thread → nat) ts i t t' :
  ts !! i = Some t → (tally f (<[i := t']> ts) + f t = tally f ts + f t')%nat.
Proof.
  revert i. induction ts as [|x ts IH]; intros [|i] H; cbn in *; [done|done| |].
  - injection H as ->. lia.
  - rewrite <- !Nat.add_assoc. f_equal. exact (IH i H).
Qed.
Lemma tally_ge (f : thread → nat) ts i t : ts !! i = Some t → (f t ≤ tally f ts)%nat.
Proof.
  revert i. induction ts as [|x ts IH]; intros [|i] H; cbn in *; [done|done| |].
  - injection H as ->. lia.
  - specialize (IH i H). lia.
Qed.

Record queue_inv (s : qsystem) : Prop := {
  qi_admissions : dq_admissions (qs_queue s) = tally admitted (qs_threads s);
  qi_slots : (dq_slots (qs_queue s) + length (dq_items (qs_queue s)) + tally holding (qs_threads s)
              = dq_capacity (qs_queue s))%nat;
  qi_stats : length (dq_acceptedAt (qs_queue s))
             = (length (dq_items (qs_queue s)) + tally unrecorded (qs_threads s))%nat;
  qi_sealClosed : dq_sealClosed (qs_queue s) = dq_sealed (qs_queue s);
  qi_sealing : (tally sealing (qs_threads s) + tally closing (qs_threads s) + Nat.b2n (dq_sealDone (qs_queue s))
                = Nat.b2n (dq_sealed (qs_queue s)))%nat;
  qi_closing : Nat.b2n (dq_itemsClosed (qs_queue s))
               = (tally closing (qs_threads s) + Nat.b2n (dq_sealDone (qs_queue s)))%nat;
  qi_closed : dq_itemsClosed (qs_queue s) = true → tally admitted (qs_threads s) = 0%nat;
  qi_panicked : tally panicked (qs_threads s) = 0%nat
}.
Lemma fresh_inv capacity : queue_inv (fresh_queue capacity).
Proof. split; cbn; lia || done. Qed.
Lemma queue_inv_event ev s : queue_inv s → queue_inv (q_event ev s).
Proof.
  destruct s as [q ts]. intros [I1 I2 I3 I4 I5 I6 I7 I8]. cbn in *. destruct ev as [c|i m]; cbn.
  { split; cbn; rewrite ?sum_list_with_app; destruct c; cbn; auto; lia || (intros Hc; specialize (I7 Hc); lia). }
  destruct (ts !! i) as [t|] eqn:Ht; [|by split].
  destruct (thread_step m t q) as [[t' q']|] eqn:Hs; [|by split].
  pose proof (tally_insert admitted ts i t t' Ht). pose proof (tally_insert holding ts i t t' Ht).
  pose proof (tally_insert unrecorded ts i t t' Ht). pose proof (tally_insert sealing ts i t t' Ht).
  pose proof (tally_insert closing ts i t t' Ht). pose proof (tally_insert panicked ts i t t' Ht).
  pose proof (tally_ge admitted ts i t Ht). pose proof (tally_ge holding ts i t Ht).
  pose proof (tally_ge unrecorded ts i t Ht). pose proof (tally_ge sealing ts i t Ht).
  pose proof (tally_ge closing ts i t Ht).
  destruct q as [cap items slots sealClosed itemsClosed sealDone sealed admissions at_ bp rej]. cbn in *.
  destruct t; cbn in Hs; repeat case_match; simplify_eq; cbn in *;
    split; cbn; rewrite ?length_app; cbn; try done; try lia;
    try (intros ->; cbn in *; try specialize (I7 eq_refl); lia).
  all: try (destruct at_; cbn in *; lia).
  all: repeat match goal with b : bool |- _ => destruct b end; cbn in *; try lia.
Qed.
Lemma at_work_inv capacity evs : queue_inv (at_work capacity evs).
Proof.
  induction evs as [|ev evs IH] using rev_ind; [apply fresh_inv|].
  unfold at_work. rewrite run_queue_snoc. by apply queue_inv_event.
Qed.
Lemma at_work_capacity capacity evs : dq_capacity (qs_queue (at_work capacity evs)) = capacity.
Proof.
  induction evs as [|ev evs IH] using rev_ind; [done|]. unfold at_work in *. rewrite run_queue_snoc.
  destruct (run_queue evs (fresh_queue capacity)) as [q ts]. cbn in *. destruct ev as [|i m]; [done|]. cbn.
  destruct (ts !! i) as [t|]; [|done]. destruct (thread_step m t q) as [[t' q']|] eqn:Hs; [|done]. cbn.
  rewrite <- IH. destruct t; cbn in Hs; repeat case_match; by simplify_eq.
Qed.

(** ** Every delivery is handed over once, in order *)
Definition accepted_by (t : thread) : option Delivery :=
  match t with EnqueueLeave d (Ok _) | EnqueueDone d (Ok _) => Some d | _ => None end.
Definition taken_by (t : thread) : option Delivery :=
  match t with DequeueTaken d | DequeueReturn d | DequeueDone (Ok d) => Some d | _ => None end.

(** The log of [f] is what [f_of] reads off the threads. *)
Record agrees (log : list (nat * Delivery)) (f_of : thread → option Delivery) (ts : list thread) : Prop := {
  ag_nodup : NoDup log.*1;
  ag_iff i d : (i, d) ∈ log ↔ ∃ t, ts !! i = Some t ∧ f_of t = Some d
}.
Lemma agrees_extend log f_of ts c : f_of (new_thread c) = None → agrees log f_of ts → agrees log f_of (ts ++ [new_thread c]).
Proof.
  intros Hf [Hn Hi]. split; [done|]. intros i d. rewrite Hi. split; intros (t & Ht & Hd).
  - exists t. split; [by apply lookup_app_l_Some|done].
  - apply lookup_app_Some in Ht as [Ht|[_ Ht]]; [by exists t|].
    apply list_lookup_singleton_Some in Ht as [_ <-]. congruence.
Qed.
Lemma agrees_step log f_of ts i t t' :
  ts !! i = Some t → f_of t' = f_of t → agrees log f_of ts → agrees log f_of (<[i := t']> ts).
Proof.
  intros Ht Hf [Hn Hi]. split; [done|]. intros j d. rewrite Hi.
  destruct (decide (j = i)) as [->|Hne].
  - rewrite list_lookup_insert_eq by (by eapply lookup_lt_Some). rewrite Ht. naive_solver congruence.
  - by rewrite list_lookup_insert_ne.
Qed.
Lemma agrees_new log f_of ts i t t' d :
  ts !! i = Some t → f_of t = None → f_of t' = Some d →
  agrees log f_of ts → agrees (log ++ [(i, d)]) f_of (<[i := t']> ts).
Proof.
  intros Ht Hf Hf' [Hn Hi]. split.
  - rewrite fmap_app, NoDup_app. split; [done|]. split; [|apply NoDup_singleton].
    intros j Hj Hj'. cbn in Hj'. apply list_elem_of_singleton in Hj' as ->.
    apply list_elem_of_fmap in Hj as ([k x] & Heq & Hk). cbn in Heq. subst k.
    apply Hi in Hk as (u & Hu & Hx). congruence.
  - intros j x. rewrite elem_of_app, list_elem_of_singleton, Hi. destruct (decide (j = i)) as [->|Hne].
    + rewrite list_lookup_insert_eq by (by eapply lookup_lt_Some). rewrite Ht. naive_solver congruence.
    + rewrite list_lookup_insert_ne by done. naive_solver.
Qed.

Record handed_over (capacity : nat) (evs : list event) : Prop := {
  ho_fifo : (accepted capacity evs).*2 = (taken capacity evs).*2 ++ dq_items (qs_queue (at_work capacity evs));
  ho_accepted : agrees (accepted capacity evs) accepted_by (qs_threads (at_work capacity evs));
  ho_taken : agrees (taken capacity evs) taken_by (qs_threads (at_work capacity evs))
}.
Lemma handed_over_all capacity evs : handed_over capacity evs.
Proof.
  induction evs as [|ev evs IH] using rev_ind.
  { split; [done|split; [constructor|]..]; intros i d; split; [by intros ?%elem_of_nil|by intros (? & ? & _)
      |by intros ?%elem_of_nil|by intros (? & ? & _)]. }
  destruct IH as [Hf Ha Ht]. pose proof (at_work_inv capacity evs) as Hinv.
  split; rewrite !logged_snoc; unfold at_work in *; rewrite run_queue_snoc;
    destruct (run_queue evs (fresh_queue capacity)) as [q ts]; cbn in *; (destruct ev as [c|i m]; cbn;
    [rewrite ?app_nil_r; first [done|apply agrees_extend; [by destruct c|done]]|]);
    (destruct (ts !! i) as [t|] eqn:Hi; cbn; [|by rewrite ?app_nil_r]).
  - destruct q as [cap items slots sc ic sd se ad at_ bp rj]. cbn in Hf.
    destruct t; cbn; repeat case_match; simplify_eq; cbn; rewrite ?app_nil_r; try done;
      cbn in *; rewrite ?fmap_app, Hf, <- ?app_assoc, ?app_nil_r; done.
  - destruct t; cbn; repeat case_match; simplify_eq; cbn; rewrite ?app_nil_r; try done;
      first [by eapply agrees_new|by eapply agrees_step].
  - destruct t; cbn; repeat case_match; simplify_eq; cbn; rewrite ?app_nil_r; try done;
      first [by eapply agrees_new|by eapply agrees_step].
Qed.

(** C15: The queue hands over every accepted delivery once and in order. Under any
    interleaving of calls: the deliveries received, followed by those in the queue,
    are the deliveries sent, in that order; an Enqueue returns without error only
    for a delivery it sent, every delivery is sent by one such call, and likewise
    for Dequeue and the deliveries received; the queue holds at most its capacity;
    no call panics, and neither a send to the queue nor the return of a slot ever
    blocks. *)
Theorem queue_hands_over_once capacity evs :
  let q := qs_queue (at_work capacity evs) in
  let ts := qs_threads (at_work capacity evs) in
  handed_over capacity evs ∧
  (length (dq_items q) ≤ capacity)%nat ∧
  (Panicked ∉ ts) ∧
  ∀ i t m, ts !! i = Some t →
    match t with
    | EnqueueAccept d => is_Some (thread_step m t q)
    | DequeueReturn d => is_Some (thread_step m t q)
    | _ => True
    end.
Proof.
  cbn zeta. pose proof (at_work_inv capacity evs) as I. pose proof (at_work_capacity capacity evs) as Hcap.
  split; [apply handed_over_all|]. destruct I as [I1 I2 I3 I4 I5 I6 I7 I8].
  destruct (at_work capacity evs) as [q ts]. cbn in *. split; [lia|]. split.
  - intros [i Hi]%list_elem_of_lookup. pose proof (tally_ge panicked ts i _ Hi) as H. cbn in H. lia.
  - intros i t m Hi. pose proof (tally_ge holding ts i t Hi) as Hh. destruct t; try done; cbn [holding thread_step] in *.
    + destruct (dq_itemsClosed q); [by eexists|].
      destruct (Nat.ltb_spec (length (dq_items q)) (dq_capacity q)); [by eexists|lia].
    + destruct (Nat.ltb_spec (dq_slots q) (dq_capacity q)); [by eexists|lia].
Qed.

(** ** Sealing *)
Definition sealed_now (capacity : nat) (evs : list event) : Prop :=
  dq_itemsClosed (qs_queue (at_work capacity evs)) = true.
Lemma closed_stays ev s : dq_itemsClosed (qs_queue s) = true → dq_itemsClosed (qs_queue (q_event ev s)) = true.
Proof.
  destruct ev as [|i m]; cbn; [done|]. destruct (qs_threads s !! i) as [t|]; [|done].
  destruct (thread_step m t (qs_queue s)) as [[t' q']|] eqn:Hs; [|done]. cbn. intros Hc.
  destruct t; cbn in Hs; repeat case_match; simplify_eq; cbn; done.
Qed.
Lemma closed_sends_nothing ev s : queue_inv s → dq_itemsClosed (qs_queue s) = true → sent_by ev s = [].
Proof.
  intros I Hc. destruct ev as [|i m]; cbn; [done|]. destruct (qs_threads s !! i) as [t|] eqn:Hi; [|done].
  destruct t; try done. exfalso. pose proof (tally_ge admitted _ _ _ Hi) as H. cbn in H.
  rewrite (qi_closed _ I Hc) in H. lia.
Qed.
Lemma frozen capacity evs evs' :
  sealed_now capacity evs →
  sealed_now capacity (evs ++ evs') ∧ accepted capacity (evs ++ evs') = accepted capacity evs.
Proof.
  intros Hc. induction evs' as [|ev evs' [IHc IHa]] using rev_ind; [by rewrite app_nil_r|].
  rewrite app_assoc. split.
  - unfold sealed_now, at_work in *. rewrite run_queue_snoc. by apply closed_stays.
  - rewrite logged_snoc, IHa, closed_sends_nothing; [by rewrite app_nil_r|apply at_work_inv|done].
Qed.

(** No context of a call ends with the error of the queue. *)
Definition own_errors (ev : event) : Prop :=
  match ev with
  | Step _ m => match mv_arm m with OnDone e => e ≠ ErrDeliveryQueueSealed | _ => True end
  | Start _ => True
  end.
Lemma sealed_answer capacity evs i :
  Forall own_errors evs → qs_threads (at_work capacity evs) !! i = Some (DequeueDone (Err ErrDeliveryQueueSealed)) →
  sealed_now capacity evs ∧ dq_items (qs_queue (at_work capacity evs)) = [].
Proof.
  induction evs as [|ev evs IH] using rev_ind; [done|]. intros [Hev [Hown _]%Forall_cons]%Forall_app.
  specialize (IH Hev). pose proof (at_work_inv capacity evs) as I. unfold sealed_now, at_work in *.
  rewrite run_queue_snoc. destruct (run_queue evs (fresh_queue capacity)) as [q ts]. cbn in *.
  destruct ev as [c|j m]; cbn in *.
  { intros [H|[_ H]]%lookup_app_Some; [by apply IH|]. by apply list_lookup_singleton_Some in H as [_ H]; destruct c. }
  destruct (ts !! j) as [t|] eqn:Hj; [|exact IH].
  destruct (thread_step m t q) as [[t' q']|] eqn:Hs; [|exact IH]. cbn.
  destruct (decide (i = j)) as [->|Hne].
  - rewrite list_lookup_insert_eq by (by eapply lookup_lt_Some). intros [= ->].
    destruct t; cbn in Hs; repeat case_match; simplify_eq; done.
  - rewrite list_lookup_insert_ne by done. intros H. destruct (IH H) as [Hc Hi].
    destruct t; cbn in Hs; repeat case_match; simplify_eq; cbn; try done.
Qed.

(** The steps that a sealing queue still waits for. *)
Definition remaining (t : thread) : nat :=
  match t with
  | EnqueueSelect _ => 3
  | EnqueueAccept _ | EnqueueReject _ _ | SealAdmissions => 2
  | EnqueueLeave _ _ | SealClose => 1
  | _ => 0
  end.
Lemma tally_pos (f : thread → nat) ts : (0 < tally f ts)%nat → ∃ i t, ts !! i = Some t ∧ (0 < f t)%nat.
Proof.
  induction ts as [|x ts IH]; cbn; [lia|]. intros H. destruct (f x) eqn:Hx.
  - destruct (IH H) as (i & t & Ht & Hf). by exists (S i), t.
  - exists 0%nat, x. split; [done|lia].
Qed.
Lemma run_queue_app evs evs' s : run_queue (evs ++ evs') s = run_queue evs' (run_queue evs s).
Proof. unfold run_queue. by rewrite foldl_app. Qed.
Abbreviation seal_step i := (Step i (MkMove OnSeal 0 0)).

Lemma seal_advances s :
  queue_inv s → dq_sealed (qs_queue s) = true → (0 < tally remaining (qs_threads s))%nat →
  ∃ i, (tally remaining (qs_threads (q_event (seal_step i) s)) < tally remaining (qs_threads s))%nat ∧
       dq_sealed (qs_queue (q_event (seal_step i) s)) = true.
Proof.
  destruct s as [q ts]. intros I Hs Hr. pose proof (qi_slots _ I). pose proof (qi_sealClosed _ I) as Hc.
  pose proof (qi_admissions _ I) as Ha. pose proof (qi_sealing _ I) as Hse. pose proof (qi_closing _ I) as Hcl.
  cbn in *.
  assert (∀ i t t' q', ts !! i = Some t → thread_step (MkMove OnSeal 0 0) t q = Some (t', q') →
    (remaining t' < remaining t)%nat → dq_sealed q' = true →
    ∃ i, (tally remaining (qs_threads (q_event (seal_step i) (MkQSystem q ts))) < tally remaining ts)%nat ∧
       dq_sealed (qs_queue (q_event (seal_step i) (MkQSystem q ts))) = true) as Hgo.
  { intros i t t' q' Hi Hstep Hlt Hq. exists i. cbn [q_event qs_threads qs_queue]. rewrite Hi, Hstep. cbn.
    pose proof (tally_insert remaining ts i t t' Hi). split; [lia|done]. }
  destruct (Nat.eq_dec (tally admitted ts) 0%nat) as [H0|H0].
  - destruct (tally_pos _ _ Hr) as (i & t & Hi & Hf). pose proof (tally_ge admitted ts i t Hi) as Hat.
    pose proof (tally_ge sealing ts i t Hi) as Hst. pose proof (tally_ge closing ts i t Hi) as Hct.
    destruct t; cbn in Hf, Hat, Hst, Hct; try lia.
    + apply (Hgo i SealAdmissions SealClose (close_items q)); cbn; [done| |lia|done].
      rewrite Ha, H0. destruct (dq_itemsClosed q); [|done]. rewrite Hs in Hse. cbn in *. lia.
    + apply (Hgo i SealClose SealDone (close_done q)); cbn; [done| |lia|done].
      destruct (dq_sealDone q); [|done]. rewrite Hs in Hse. cbn in *. lia.
  - destruct (tally_pos admitted ts) as (i & t & Hi & Hf); [lia|].
    pose proof (tally_ge holding ts i t Hi) as Hh. destruct t as [|d e|d|d|d e|d r| | | | | | | | | | | |]; cbn in Hf; try lia.
    + apply (Hgo i (EnqueueSelect d) (EnqueueReject d ErrDeliveryQueueSealed) q); cbn; [done| |lia|done].
      by rewrite Hc, Hs.
    + apply (Hgo i (EnqueueAccept d) (EnqueueLeave d (Ok tt)) (recordAccepted d 0 0 q));
        cbn [thread_step remaining]; [done| |lia|done].
      destruct (dq_itemsClosed q) eqn:Hic; [exfalso; pose proof (qi_closed _ I Hic) as Hz; cbn in Hz; lia|].
      destruct (Nat.ltb_spec (length (dq_items q)) (dq_capacity q)); [done|]. cbn in Hh. lia.
    + apply (Hgo i (EnqueueReject d e) (EnqueueLeave d (Err e)) (recordRejected q)); cbn; [done|done|lia|done].
    + apply (Hgo i (EnqueueLeave d r) (EnqueueDone d r) (set_admissions q (pred (dq_admissions q))));
        cbn; [done|done|lia|done].
Qed.
Lemma seal_runs n s :
  queue_inv s → dq_sealed (qs_queue s) = true → (tally remaining (qs_threads s) ≤ n)%nat →
  ∃ steps : list nat, let s' := run_queue ((λ i, seal_step i) <$> steps) s in
    queue_inv s' ∧ dq_sealed (qs_queue s') = true ∧ tally remaining (qs_threads s') = 0%nat.
Proof.
  revert s. induction n as [|n IH]; intros s I Hs Hn.
  { exists []. cbn. split; [done|]. split; [done|lia]. }
  destruct (Nat.eq_dec (tally remaining (qs_threads s)) 0%nat) as [H0|H0]; [by exists []|].
  destruct (seal_advances s I Hs) as (i & Hlt & Hs'); [lia|].
  destruct (IH (q_event (seal_step i) s)) as (steps & H); [by apply queue_inv_event|done|lia|].
  by exists (i :: steps).
Qed.

(** A sealed queue is frozen and drains. When a Dequeue has answered that the
    queue is sealed, every delivery that was or ever will be accepted has been
    received. Once Seal is called, it completes by steps of the calls already
    admitted and its own, without any consumer and without the end of a context,
    and leaves the queue closed. *)
Theorem sealed_queue_drains capacity evs :
  (∀ i evs', Forall own_errors evs →
     qs_threads (at_work capacity evs) !! i = Some (DequeueDone (Err ErrDeliveryQueueSealed)) →
     accepted capacity (evs ++ evs') = accepted capacity evs ∧
     (accepted capacity evs).*2 = (taken capacity evs).*2) ∧
  (dq_sealed (qs_queue (at_work capacity evs)) = true →
   ∃ steps : list nat, let evs' := evs ++ ((λ i, seal_step i) <$> steps) in
     sealed_now capacity evs' ∧ dq_sealDone (qs_queue (at_work capacity evs')) = true).
Proof.
  split.
  - intros i evs' Hown Hi. destruct (sealed_answer capacity evs i Hown Hi) as [Hc He].
    split; [by apply frozen|]. pose proof (ho_fifo _ _ (handed_over_all capacity evs)) as Hf.
    by rewrite He, app_nil_r in Hf.
  - intros Hs. destruct (seal_runs _ _ (at_work_inv capacity evs) Hs (le_n _)) as (steps & I & Hs' & H0).
    exists steps. cbn zeta. unfold sealed_now, at_work. rewrite run_queue_app.
    fold (at_work capacity evs). destruct (run_queue _ (at_work capacity evs)) as [q ts]. cbn in *.
    assert (tally sealing ts = 0 ∧ tally closing ts = 0)%nat as [Ha Hb].
    { split; apply Nat.le_0_r; etrans; [|apply Nat.eq_le_incl, H0| |apply Nat.eq_le_incl, H0];
        clear; induction ts as [|[] ts IH]; cbn; lia. }
    pose proof (qi_sealing _ I) as Hse. pose proof (qi_closing _ I) as Hcl. cbn in *. rewrite Ha, Hb, Hs' in *.
    destruct (dq_sealDone q), (dq_itemsClosed q); cbn in *; done || lia.
Qed.
