(* ===== verification/FileTruncation.v ===== *)
(** * Truncation of a file that is being read (internal/source/file_truncation.go)

    The observer of one file generation: a visible loss stops the reading of the
    generation for good and is reported, as it was first seen, until the report is
    recorded. The reporter is any function of an environment. *)

From S2P Require Import Prelude GoStd Sha256 Netip Identity CoreModel.

Record FileObservation := MkFileObservation {
  fo_DeviceID : Z;
  fo_Inode : Z;
  fo_Size : Z;
  fo_ReadOffset : Z;
  fo_ObservedAt : time
}.
Definition FileObservationResult := string.
Definition FileNoTruncationEvidence : FileObservationResult := "no_truncation_evidence".
Definition FileIdentityChanged : FileObservationResult := "identity_changed".
Definition FileDataLossSuspected : FileObservationResult := "data_loss_suspected".
Record FileTruncationHealth := MkTruncationHealth {
  fh_Degraded : bool;
  fh_StopReading : bool;
  fh_AuditRecorded : bool
}.
(** The evidence (internal/store/source_data_loss.go). *)
Record SourceDataLossAudit := MkSourceDataLossAudit {
  sa_NodeID : NodeID;
  sa_SourceID : SourceID;
  sa_Generation : string;
  sa_DeviceID : Z;
  sa_Inode : Z;
  sa_PreviousSize : Z;
  sa_ReadOffset : Z;
  sa_ObservedSize : Z;
  sa_ObservedAt : time
}.
Record FileTruncationObserver := MkObserver {
  ob_nodeID : NodeID;
  ob_sourceID : SourceID;
  ob_generation : string;
  ob_previous : FileObservation;
  ob_pending : option SourceDataLossAudit;
  ob_health : FileTruncationHealth
}.

Definition validateFileObservation (o : FileObservation) : result unit :=
  fail_if ((max_int64 <? fo_DeviceID o) || (max_int64 <? fo_Inode o) || (max_int64 <? fo_Size o)
           || (max_int64 <? fo_ReadOffset o) || IsZero (fo_ObservedAt o) || (UnixMicro (fo_ObservedAt o) <=? 0))
          (Errorf "file observation requires SQLite-range values and positive time").
Definition NewFileTruncationObserver (nodeID : NodeID) (sourceID : SourceID) (generation : string)
    (baseline : FileObservation) : result FileTruncationObserver :=
  fail_if (is_empty nodeID || is_empty sourceID) (Errorf "file observer identity and reporter are required");;
  NewFilePosition (MkFilePosition generation (fo_DeviceID baseline) (fo_Inode baseline) 0 0);;
  validateFileObservation baseline;;
  Ok (MkObserver nodeID sourceID generation baseline None (MkTruncationHealth false false false)).
Definition Health (o : FileTruncationObserver) : FileTruncationHealth := ob_health o.

(** Year 10000, in seconds of the zero time; the year is that of UTC. *)
Definition year_10000 : time := 315537897600 * second.
Definition validateSourceDataLoss (event : SourceDataLossAudit) : result unit :=
  fail_if (negb (isLowerHex128 (sa_NodeID event)) || is_empty (sa_SourceID event)
           || (128 <? Z.of_nat (String.length (sa_SourceID event)))
           || negb (utf8_valid (string_bytes (sa_SourceID event))) || negb (isLowerHex128 (sa_Generation event)))
          (Errorf "identity is invalid");;
  fail_if ((max_int64 <? sa_DeviceID event) || (max_int64 <? sa_Inode event)
           || (max_int64 <? sa_PreviousSize event) || (max_int64 <? sa_ReadOffset event)
           || (max_int64 <? sa_ObservedSize event)) (Errorf "numeric field exceeds SQLite range");;
  fail_if ((sa_PreviousSize event <=? sa_ObservedSize event) && (sa_ReadOffset event <=? sa_ObservedSize event))
          (Errorf "visible truncation evidence is required");;
  fail_if (IsZero (sa_ObservedAt event) || (sa_ObservedAt event <? unix_to_internal * second)
           || (year_10000 <=? sa_ObservedAt event) || (UnixMicro (sa_ObservedAt event) <=? 0))
          (Errorf "observed time is invalid").

(** ** Observing *)
Section observer.
Context {E : Type} (report : SourceDataLossAudit → ST E unit).

Definition with_previous (o : FileTruncationObserver) (p : FileObservation) : FileTruncationObserver :=
  MkObserver (ob_nodeID o) (ob_sourceID o) (ob_generation o) p (ob_pending o) (ob_health o).
Definition latch (o : FileTruncationObserver) (current : FileObservation) : FileTruncationObserver :=
  MkObserver (ob_nodeID o) (ob_sourceID o) (ob_generation o) (ob_previous o)
    (Some (MkSourceDataLossAudit (ob_nodeID o) (ob_sourceID o) (ob_generation o) (fo_DeviceID current)
             (fo_Inode current) (fo_Size (ob_previous o)) (fo_ReadOffset current) (fo_Size current)
             (fo_ObservedAt current)))
    (MkTruncationHealth true true (fh_AuditRecorded (ob_health o))).
Definition recorded (o : FileTruncationObserver) : FileTruncationObserver :=
  MkObserver (ob_nodeID o) (ob_sourceID o) (ob_generation o) (ob_previous o) (ob_pending o)
    (MkTruncationHealth (fh_Degraded (ob_health o)) (fh_StopReading (ob_health o)) true).

(** The answer and the error, which may both be set; [cancelled] is the error of
    the context, if it has ended. *)
Abbreviation answer := (FileObservationResult * option error)%type.
Definition report_pending (cancelled : option error) (pending : SourceDataLossAudit)
    (o : FileTruncationObserver) (e : E) : answer * (FileTruncationObserver * E) :=
  match cancelled with
  | Some err => ((FileDataLossSuspected, Some err), (o, e))
  | None =>
    if fh_AuditRecorded (ob_health o) then ((FileDataLossSuspected, None), (o, e))
    else match report pending e with
    | (Err err, e) => ((FileDataLossSuspected, Some err), (o, e))
    | (Ok _, e) => ((FileDataLossSuspected, None), (recorded o, e))
    end
  end.
Definition Observe (cancelled : option error) (current : FileObservation) (s : FileTruncationObserver * E)
    : answer * (FileTruncationObserver * E) :=
  let '(o, e) := s in
  match ob_pending o with
  | Some pending => report_pending cancelled pending o e
  | None =>
    match validateFileObservation current with
    | Err err => ((EmptyString, Some err), (o, e))
    | Ok _ =>
      if Before (fo_ObservedAt current) (fo_ObservedAt (ob_previous o))
      then ((EmptyString, Some (Errorf "file observation time regressed")), (o, e))
      else if negb (fo_DeviceID current =? fo_DeviceID (ob_previous o))
              || negb (fo_Inode current =? fo_Inode (ob_previous o))
      then ((FileIdentityChanged, cancelled), (o, e))
      else if (fo_Size (ob_previous o) <=? fo_Size current) && (fo_ReadOffset current <=? fo_Size current)
      then match cancelled with
           | Some err => ((EmptyString, Some err), (o, e))
           | None => ((FileNoTruncationEvidence, None), (with_previous o current, e))
           end
      else
        let o := latch o current in
        match ob_pending o with
        | Some pending => report_pending cancelled pending o e
        | None => ((FileDataLossSuspected, None), (o, e))
        end
    end
  end.
End observer.

(** ** Runs of an observer *)
Section runs.
Context {E : Type} (report : SourceDataLossAudit → ST E unit).

(** The reporter, with the reports it was asked for and whether it recorded them,
    newest first. *)
Definition logged_report (a : SourceDataLossAudit) (s : E * list (SourceDataLossAudit * bool))
    : result unit * (E * list (SourceDataLossAudit * bool)) :=
  let '(r, e) := report a s.1 in (r, (e, (a, is_ok r) :: s.2)).
Abbreviation state := (FileTruncationObserver * (E * list (SourceDataLossAudit * bool)))%type.
Fixpoint observe_all (steps : list (option error * FileObservation)) (s : state)
    : list (FileObservationResult * option error) * state :=
  match steps with
  | [] => ([], s)
  | (cancelled, current) :: steps =>
    let '(a, s) := Observe logged_report cancelled current s in
    let '(rest, s) := observe_all steps s in (a :: rest, s)
  end.

(** ** What the observations say *)
(** A usable observation of the same file. *)
Definition same_file (previous current : FileObservation) : Prop :=
  validateFileObservation current = Ok tt ∧ fo_ObservedAt previous ≤ fo_ObservedAt current ∧
  fo_DeviceID current = fo_DeviceID previous ∧ fo_Inode current = fo_Inode previous.
(** It is shorter than before, or than what has been read of it. *)
Definition lost (previous current : FileObservation) : Prop :=
  fo_Size current < fo_Size previous ∨ fo_Size current < fo_ReadOffset current.
Abbreviation answer := (FileObservationResult * option error)%type.
(** Observations without a loss, their answers, and the last one taken. *)
Inductive watched : FileObservation → list (option error * FileObservation) → list answer → FileObservation → Prop :=
  | watched_none previous : watched previous [] [] previous
  | watched_taken previous current steps answers last :
      same_file previous current → ¬ lost previous current → watched current steps answers last →
      watched previous ((None, current) :: steps) ((FileNoTruncationEvidence, None) :: answers) last
  | watched_cancelled previous err current steps answers last :
      same_file previous current → ¬ lost previous current → watched previous steps answers last →
      watched previous ((Some err, current) :: steps) ((EmptyString, Some err) :: answers) last
  | watched_other previous cancelled current steps answers last :
      validateFileObservation current = Ok tt → fo_ObservedAt previous ≤ fo_ObservedAt current →
      fo_DeviceID current ≠ fo_DeviceID previous ∨ fo_Inode current ≠ fo_Inode previous →
      watched previous steps answers last →
      watched previous ((cancelled, current) :: steps) ((FileIdentityChanged, cancelled) :: answers) last
  | watched_refused previous cancelled err current steps answers last :
      validateFileObservation current ≠ Ok tt ∨ fo_ObservedAt current < fo_ObservedAt previous →
      watched previous steps answers last →
      watched previous ((cancelled, current) :: steps) ((EmptyString, Some err) :: answers) last.
(** The evidence of a loss. *)
Definition evidence (node : NodeID) (source : SourceID) (generation : string) (previous current : FileObservation)
    (p : SourceDataLossAudit) : Prop :=
  (sa_NodeID p = node ∧ sa_SourceID p = source ∧ sa_Generation p = generation) ∧
  (sa_DeviceID p = fo_DeviceID current ∧ sa_Inode p = fo_Inode current) ∧
  sa_PreviousSize p = fo_Size previous ∧ sa_ReadOffset p = fo_ReadOffset current ∧
  sa_ObservedSize p = fo_Size current ∧ sa_ObservedAt p = fo_ObservedAt current.
(** The reports of [p] at the calls [live] whose context had not ended: each of
    them reports, until one is recorded, and none after it. *)
Definition reports_of (p : SourceDataLossAudit) (done : bool) (live : nat) (log : list (SourceDataLossAudit * bool)) : Prop :=
  if done then ∃ n, log = (p, true) :: replicate n (p, false) ∧ (n < live)%nat else log = replicate live (p, false).
Definition live_calls (steps : list (option error * FileObservation)) : nat :=
  length (base.filter (λ s, s.1 = None) steps).

(** After a loss with the evidence [p], with so many live calls since. *)
Definition latched (p : SourceDataLossAudit) (live : nat) (s : state) : Prop :=
  ob_pending s.1 = Some p ∧ fh_Degraded (Health s.1) = true ∧ fh_StopReading (Health s.1) = true ∧
  reports_of p (fh_AuditRecorded (Health s.1)) live s.2.2.
Lemma live_calls_cons cancelled current steps :
  live_calls ((cancelled, current) :: steps) = ((if cancelled is Some _ then 0 else 1) + live_calls steps)%nat.
Proof. unfold live_calls. rewrite filter_cons. by destruct cancelled. Qed.
Lemma report_latched cancelled p live s :
  latched p live s →
  let '(a, s') := report_pending logged_report cancelled p s.1 s.2 in
  a.1 = FileDataLossSuspected ∧ latched p ((if cancelled is Some _ then 0 else 1) + live) s'.
Proof.
  destruct s as [o [e log]]. unfold latched, Health. cbn [fst snd]. intros (Hp & Hd & Hs & Hl). unfold report_pending.
  destruct cancelled as [err|]; [done|]. destruct (fh_AuditRecorded (ob_health o)) eqn:Hr; cbn in Hl.
  - destruct Hl as (n & -> & Hn). split; [done|]. cbn. rewrite Hr. do 3 (split; [done|]). exists n. split; [done|lia].
  - subst log. unfold logged_report. cbn. destruct (report p e) as [[[]|err] e']; cbn.
    + split; [done|]. do 3 (split; [done|]). exists live. split; [done|lia].
    + split; [done|]. rewrite Hr. done.
Qed.
Lemma observe_all_latched p live steps s :
  latched p live s →
  let '(answers, s') := observe_all steps s in
  length answers = length steps ∧ Forall (λ a, a.1 = FileDataLossSuspected) answers ∧
  latched p (live_calls steps + live) s'.
Proof.
  revert live s. induction steps as [|[cancelled current] steps IH]; intros live s Hs; cbn [observe_all].
  { split; [done|]. split; [constructor|done]. }
  unfold Observe at 1. destruct s as [o el]. pose proof (report_latched cancelled p live (o, el) Hs) as Hr.
  pose proof Hs as [Hp _]. cbn [fst snd] in Hp, Hr. rewrite Hp.
  destruct (report_pending logged_report cancelled p o el) as [a s1]. destruct Hr as [Ha Hr].
  specialize (IH _ _ Hr). destruct (observe_all steps s1) as [answers s2]. destruct IH as (Hlen & Hf & Hl).
  split; [cbn; by rewrite Hlen|]. split; [by constructor|]. rewrite live_calls_cons.
  by replace ((if cancelled is Some _ then 0 else 1) + live_calls steps + live)%nat
    with (live_calls steps + ((if cancelled is Some _ then 0 else 1) + live))%nat by lia.
Qed.

(** Before a loss. *)
Definition watching (node : NodeID) (source : SourceID) (generation : string) (previous : FileObservation) (s : state) : Prop :=
  s.1 = MkObserver node source generation previous None (MkTruncationHealth false false false) ∧ s.2.2 = [].
(** What a run comes to: no loss, or a first one at some observation. *)
Definition run_of node source generation (previous : FileObservation) steps (answers : list answer) (s : state) : Prop :=
  (∃ last, watched previous steps answers last ∧ watching node source generation last s) ∨
  (∃ steps1 cancelled current steps2 answers1 answers2 last p,
     steps = steps1 ++ (cancelled, current) :: steps2 ∧ answers = answers1 ++ answers2 ∧
     watched previous steps1 answers1 last ∧ same_file last current ∧ lost last current ∧
     evidence node source generation last current p ∧
     length answers2 = S (length steps2) ∧ Forall (λ a, a.1 = FileDataLossSuspected) answers2 ∧
     latched p (live_calls ((cancelled, current) :: steps2)) s).
Lemma run_of_step node source generation previous previous' step a steps answers s :
  (∀ steps answers last, watched previous' steps answers last → watched previous (step :: steps) (a :: answers) last) →
  run_of node source generation previous' steps answers s →
  run_of node source generation previous (step :: steps) (a :: answers) s.
Proof.
  intros Hw [(last & H1 & H2)|(s1 & c & cur & s2 & a1 & a2 & last & p & -> & -> & H3 & H4)].
  - left. eauto.
  - right. exists (step :: s1), c, cur, s2, (a :: a1), a2, last, p. do 2 (split; [done|]). eauto.
Qed.
Lemma observe_all_run node source generation previous steps s :
  watching node source generation previous s →
  let '(answers, s') := observe_all steps s in run_of node source generation previous steps answers s'.
Proof.
  revert previous s. induction steps as [|[cancelled current] steps IH]; intros previous s Hs; cbn [observe_all].
  { left. exists previous. split; [constructor|done]. }
  destruct s as [o [e log]]. pose proof Hs as [Ho Hl]. cbn in Ho, Hl. subst o log. unfold Observe at 1. cbn [ob_pending ob_previous].
  assert (∀ previous' a, (∀ steps answers last, watched previous' steps answers last →
            watched previous ((cancelled, current) :: steps) (a :: answers) last) →
    let '(answers, s') := (let '(rest, s) := observe_all steps
      (MkObserver node source generation previous' None (MkTruncationHealth false false false), (e, [])) in (a :: rest, s)) in
    run_of node source generation previous ((cancelled, current) :: steps) answers s') as Hgo.
  { intros previous' a Ha. assert (watching node source generation previous'
      (MkObserver node source generation previous' None (MkTruncationHealth false false false), (e, []))) as Hw by done.
    specialize (IH previous' _ Hw). destruct (observe_all steps _) as [rest s']. by eapply run_of_step. }
  destruct (validateFileObservation current) as [[]|err] eqn:Hv.
  2: { apply Hgo. intros. apply watched_refused; [left; by rewrite Hv|done]. }
  unfold Before. destruct (Z.ltb_spec (fo_ObservedAt current) (fo_ObservedAt previous)) as [Ht|Ht].
  { apply Hgo. intros. apply watched_refused; auto. }
  destruct (_ || _) eqn:Hid.
  { apply Hgo. intros. apply watched_other; [done..| |done]. gobool. destruct Hid as [Hid|Hid]; [left|right]; lia. }
  assert (same_file previous current) as Hsame.
  { gobool. destruct Hid. split; [done|]. split; [done|]. split; lia. }
  destruct (_ && _) eqn:Hloss.
  { assert (¬ lost previous current) as Hn by (unfold lost; gobool; lia).
    destruct cancelled; apply Hgo; intros; [by apply watched_cancelled|by apply watched_taken]. }
  assert (lost previous current) as Hlost by (unfold lost; rewrite andb_false_iff, !Z.leb_gt in Hloss; lia).
  cbn zeta. cbn [latch ob_pending].
  match goal with |- context [report_pending _ _ ?p ?o _] =>
    pose proof (report_latched cancelled p 0 (o, (e, [])) ltac:(done)) as Hr; cbn [fst snd] in Hr;
    destruct (report_pending logged_report cancelled p o (e, [])) as [a s1] eqn:Hrep;
    destruct Hr as [Ha Hr]; pose proof (observe_all_latched p _ steps s1 Hr) as Hall;
    destruct (observe_all steps s1) as [rest s2]; destruct Hall as (Hlen & Hf & Hlat);
    right; exists [], cancelled, current, steps, [], (a :: rest), previous, p
  end.
  do 2 (split; [done|]). split; [constructor|]. do 2 (split; [done|]). split; [done|].
  split; [cbn; by rewrite Hlen|]. split; [by constructor|]. rewrite live_calls_cons.
  by replace ((if cancelled is Some _ then 0 else 1) + live_calls steps)%nat
    with (live_calls steps + ((if cancelled is Some _ then 0 else 1) + 0))%nat by lia.
Qed.

(** The store accepts the evidence of a loss. *)
Lemma evidence_accepted node source generation previous current p :
  validateFileObservation previous = Ok tt → isLowerHex128 generation = true → same_file previous current →
  lost previous current → evidence node source generation previous current p →
  isLowerHex128 node = true → is_empty source = false → Z.of_nat (String.length source) ≤ 128 →
  utf8_valid (string_bytes source) = true → fo_ObservedAt current < year_10000 → validateSourceDataLoss p = Ok tt.
Proof.
  unfold validateFileObservation. intros Hp Hg (Hc & _) Hl ((E1 & E2 & E3) & (E4 & E5) & E6 & E7 & E8 & E9) Hn Hs Hlen Hutf Hyear.
  apply fail_if_Ok in Hp. unfold validateFileObservation in Hc. apply fail_if_Ok in Hc.
  rewrite !orb_false_iff, !Z.ltb_ge, Z.leb_gt in Hp, Hc.
  unfold validateSourceDataLoss. rewrite E1, E2, E3, E4, E5, E6, E7, E8, E9, Hn, Hs, Hutf, Hg. cbn [negb orb].
  rewrite (proj2 (Z.ltb_ge 128 _) Hlen). cbn [orb fail_if].
  assert ((max_int64 <? fo_DeviceID current) || (max_int64 <? fo_Inode current)
          || (max_int64 <? fo_Size previous) || (max_int64 <? fo_ReadOffset current)
          || (max_int64 <? fo_Size current) = false) as -> by (rewrite !orb_false_iff, !Z.ltb_ge; tauto).
  assert ((fo_Size previous <=? fo_Size current) && (fo_ReadOffset current <=? fo_Size current) = false) as ->
    by (rewrite andb_false_iff, !Z.leb_gt; exact Hl).
  cbn. destruct Hc as [[_ Hz] Hus].
  assert (unix_to_internal * second ≤ fo_ObservedAt current) as Hepoch.
  { unfold UnixMicro in Hus. destruct (Z.le_gt_cases (unix_to_internal * second) (fo_ObservedAt current)); [done|].
    pose proof (Z.div_lt_upper_bound (fo_ObservedAt current - unix_to_internal * second) microsecond 0 eq_refl). lia. }
  apply fail_if_false. by rewrite Hz, (proj2 (Z.ltb_ge _ _) Hepoch), (proj2 (Z.leb_gt _ _) Hyear), (proj2 (Z.leb_gt _ _) Hus).
Qed.
Lemma watched_valid previous steps answers last :
  watched previous steps answers last → validateFileObservation previous = Ok tt → validateFileObservation last = Ok tt.
Proof. induction 1 as [|????? [Hv _]| | |]; auto. Qed.
End runs.

(** C16: A loss is detected, latched and reported as first seen. Over any
    observations of a file, whatever the reporter answers and whenever contexts
    end: as long as no usable observation of the same file is shorter than the one
    before it that was taken, or than what has been read, every answer is what
    that observation deserves, nothing is reported and reading goes on. At the
    first one that is shorter, and from then on, every answer says that data was
    lost and reading stays stopped; all reports carry that observation's device,
    inode, size, offset and time and the size before it; a report is made at every
    call with a live context until one is recorded, and none after it; and for an
    observer of a valid node and source the evidence is one the store accepts. *)
Theorem truncation_latched {E} (report : SourceDataLossAudit → ST E unit) node source generation baseline o0 steps e0 :
  NewFileTruncationObserver node source generation baseline = Ok o0 →
  let '(answers, (o, (e, log))) := observe_all report steps (o0, (e0, [])) in
  (∃ last, watched baseline steps answers last ∧ ob_pending o = None ∧
     Health o = MkTruncationHealth false false false ∧ log = []) ∨
  (∃ steps1 cancelled current steps2 answers1 answers2 last p,
     steps = steps1 ++ (cancelled, current) :: steps2 ∧ answers = answers1 ++ answers2 ∧
     watched baseline steps1 answers1 last ∧ same_file last current ∧ lost last current ∧
     length answers2 = S (length steps2) ∧ Forall (λ a, a.1 = FileDataLossSuspected) answers2 ∧
     ob_pending o = Some p ∧ evidence node source generation last current p ∧
     fh_Degraded (Health o) = true ∧ fh_StopReading (Health o) = true ∧
     reports_of p (fh_AuditRecorded (Health o)) (live_calls ((cancelled, current) :: steps2)) log ∧
     (isLowerHex128 node = true → Z.of_nat (String.length source) ≤ 128 →
      utf8_valid (string_bytes source) = true → fo_ObservedAt current < year_10000 →
      validateSourceDataLoss p = Ok tt)).
Proof.
  unfold NewFileTruncationObserver. intros Hn. inv_ok. unfold NewFilePosition in *. inv_ok.
  assert (isLowerHex128 generation = true ∧ is_empty source = false) as [Hgen Hsrc].
  { cbn in *. destruct (isLowerHex128 generation); [|done]. gobool. tauto. }
  match goal with |- context [observe_all report steps (?o, _)] =>
    pose proof (observe_all_run report node source generation baseline steps (o, (e0, [])) ltac:(done)) as H end.
  destruct (observe_all report steps _) as [answers [o [e log]]].
  destruct H as [(last & Hw & Ho & Hl)|(s1 & c & cur & s2 & a1 & a2 & last & p & -> & -> & Hw & Hsame & Hlost & He & Hlen & Hf & Hlat)].
  - left. exists last. cbn in Ho, Hl. by subst.
  - right. exists s1, c, cur, s2, a1, a2, last, p. destruct Hlat as (Hp & Hd & Hs & Hr). cbn in Hp, Hr. do 11 (split; [done|]).
    split; [done|]. intros Hnode Hsl Hu Hy. 
    apply (evidence_accepted report node source generation last cur p); try done. by eapply watched_valid.
Qed.

(** A file is cut while it is read; the first report fails. *)
Definition cut_baseline : FileObservation := MkFileObservation 7 11 100 100 (unix_to_internal * second + 1000000).
Definition cut_steps : list (option error * FileObservation) :=
  [(None, MkFileObservation 7 11 160 150 (unix_to_internal * second + 2000000));
   (None, MkFileObservation 7 11 20 150 (unix_to_internal * second + 3000000));
   (None, MkFileObservation 7 11 400 150 (unix_to_internal * second + 4000000));
   (None, MkFileObservation 7 11 500 150 (unix_to_internal * second + 5000000))].
(** It refuses the first report it gets. *)
Definition cut_report (a : SourceDataLossAudit) : ST nat unit := λ n,
  (match n with O => Err (Errorf "disk full") | S _ => Ok tt end, S n).
Definition cut_observer : FileTruncationObserver :=
  MkObserver "0123456789abcdef0123456789abcdef" "auth" "0123456789abcdef0123456789abcdef" cut_baseline None
    (MkTruncationHealth false false false).
Definition cut_log : list (SourceDataLossAudit * bool) :=
  Eval vm_compute in (observe_all cut_report cut_steps (cut_observer, (O, []))).2.2.2.
Lemma truncation_latched_witness :
  snd <$> cut_log = [true; false] ∧
  match observe_all cut_report cut_steps (cut_observer, (O, [])) with
  | (answers, (o, _)) => ∃ p, ob_pending o = Some p ∧ fh_StopReading (Health o) = true
  end.
Proof.
  split; [reflexivity|].
  pose proof (truncation_latched cut_report "0123456789abcdef0123456789abcdef" "auth"
    "0123456789abcdef0123456789abcdef" cut_baseline cut_observer cut_steps O eq_refl) as H.
  assert (is_Some (ob_pending (observe_all cut_report cut_steps (cut_observer, (O, []))).2.1)) as Hp
    by (vm_compute; eexists; reflexivity).
  revert H Hp. destruct (observe_all cut_report cut_steps (cut_observer, (O, []))) as [answers [o [e log]]].
  intros [(last & _ & Hn & _)|H] [p Hp]; cbn in Hp; [congruence|].
  destruct H as (s1 & c & cur & s2 & a1 & a2 & last & q & _ & _ & _ & _ & _ & _ & _ & Hq & _ & _ & Hs & _).
  exists q. split; [exact Hq|exact Hs].
Defined.
