(* ===== verification/SourceRuntime.v ===== *)
(** * The runtime of a source (internal/processor/source_runtime.go, source_intake_runtime.go)

    The worker takes deliveries from the queue of file SourceQueue, processes each
    with the coordinator of file Coordinator and hands its completion to the
    checkpoint manager of file Checkpoint; the answers of Dequeue are given as the
    list of those it has received. The intake runtime composes a reader and a
    worker and stops them in order. *)

From S2P Require Import Prelude GoStd Sha256 Netip Identity CoreModel Checkpoint.
From S2P Require Import ProcessingPlan Coordinator ExactlyOnce SourceQueue.

(** ** The worker *)
Section worker.
Context {E T A Store : Type} `{Clock E, ProcessingStore E T, AttemptRunner E T A}.
Context (saveCheckpoint : checkpointCandidate → Store → result unit * Store).

Record worker := MkWorker {
  wk_coordinator : Coordinator A;
  wk_env : E;
  wk_manager : CheckpointManager;
  wk_store : Store
}.
Definition process_one (delivery : Delivery) : ST worker DurableCompletion := λ w,
  let '(r, (c, e)) := Process delivery (wk_coordinator w, wk_env w) in
  let w := MkWorker c e (wk_manager w) (wk_store w) in
  match r with
  | Err err | Ok (_, Some err) => (Err (Wrapf "process delivery %q" err), w)
  | Ok (completion, None) => (Ok completion, w)
  end.
Definition complete_one (completion : DurableCompletion) : ST worker unit := λ w,
  let '(r, (m, st)) := Complete saveCheckpoint completion (wk_manager w, wk_store w) in
  (wrap "complete delivery %q" r, MkWorker (wk_coordinator w) (wk_env w) m st).
(** [None]: the worker waits in Dequeue. *)
Fixpoint runSourceWorker (answers : list (result Delivery)) (w : worker) : option (result unit) * worker :=
  match answers with
  | [] => (None, w)
  | Err e :: _ =>
    (Some (if errors_Is e ErrDeliveryQueueSealed then Ok tt else Err (Wrapf "dequeue delivery" e)), w)
  | Ok delivery :: answers =>
    match (completion ← process_one delivery; complete_one completion) w with
    | (Ok _, w) => runSourceWorker answers w
    | (Err e, w) => (Some (Err e), w)
    end
  end.
Definition flush_worker (w : worker) : result unit * worker :=
  let '(r, (m, st)) := Flush saveCheckpoint (wk_manager w, wk_store w) in
  (r, MkWorker (wk_coordinator w) (wk_env w) m st).
End worker.
Arguments MkWorker {E A Store}. Arguments wk_coordinator {E A Store}. Arguments wk_env {E A Store}.
Arguments wk_manager {E A Store}. Arguments wk_store {E A Store}.

(** ** Shutdown *)
(** errors.Join of errors that may be nil. *)
Definition join_opt (l r : option error) : option error :=
  match l, r with Some a, Some b => Some (Join a b) | Some a, None => Some a | None, r => r end.
Definition wrapSourceRuntimeError (operation : string) (err : option error) : option error :=
  Wrapf operation <$> err.
Definition finishSourceRuntime (workerErr flushErr closeErr : option error) : option error :=
  join_opt (join_opt workerErr (wrapSourceRuntimeError "run source runtime: flush checkpoint" flushErr))
    (wrapSourceRuntimeError "run source runtime: close database" closeErr).

Definition ErrSourceIntakeShutdownTimeout : error := Errorf "run source intake runtime: shutdown timeout".
Definition sourceIntakeShutdownTimeout (err : option error) : option error :=
  join_opt err (Some (Join ErrSourceIntakeShutdownTimeout context_DeadlineExceeded)).
Fixpoint sourceIntakeExpectedCancellation (e : error) : bool :=
  bool_decide (e = context_Canceled) ||
  match e with
  | Errorf _ => false
  | Join l r => sourceIntakeExpectedCancellation l && sourceIntakeExpectedCancellation r
  | Wrapf _ c | Typed _ _ c => sourceIntakeExpectedCancellation c
  end.

(** What the runtime does, in order. *)
Inductive action :=
  | CancelReader
  | ReaderReturned (e : option error)
  | SealQueue
  | WorkerReturned (e : option error)
  | FlushCheckpoints (e : option error)
  | RunMaintenance (e : option error)
  | DeadlineExpired.
(** The first of the three channels to be ready, and the answers that follow: of
    the reader and the worker, [None] when the deadline expires first, of the
    flush and of the maintenance, if there is one; and whether the deadline has
    expired before the flush, after it and after the maintenance. *)
Inductive first_ready := ReaderFirst (e : option error) | WorkerFirst (e : option error) | ContextDone.
Record answers := MkAnswers {
  an_reader : option (option error);
  an_worker : option (option error);
  an_expired : bool;
  an_flush : option error;
  an_expired_flush : bool;
  an_maintenance : option (option error);
  an_expired_maintenance : bool
}.

Definition finishSourceIntakeRuntime (a : answers) (initialErr : option error)
    : option error * list action :=
  if an_expired a then (sourceIntakeShutdownTimeout initialErr, [DeadlineExpired])
  else
    let flushErr := wrapSourceRuntimeError "run source runtime: flush checkpoint" (an_flush a) in
    if an_expired_flush a
    then (sourceIntakeShutdownTimeout (join_opt initialErr flushErr), [FlushCheckpoints (an_flush a); DeadlineExpired])
    else
      match initialErr, an_flush a, an_maintenance a with
      | None, None, Some m =>
        let maintenanceErr := wrapSourceRuntimeError "run source runtime: maintenance" m in
        if an_expired_maintenance a
        then (sourceIntakeShutdownTimeout maintenanceErr,
              [FlushCheckpoints None; RunMaintenance m; DeadlineExpired])
        else (maintenanceErr, [FlushCheckpoints None; RunMaintenance m])
      | _, _, _ => (join_opt initialErr flushErr, [FlushCheckpoints (an_flush a)])
      end.
(** [running]: the worker has not returned yet. *)
Definition drainSourceIntakeRuntime (a : answers) (running : bool) (initialErr : option error)
    : option error * list action :=
  let '(err, trace) :=
    if running then
      match an_worker a with
      | Some workerErr =>
        let '(err, trace) := finishSourceIntakeRuntime a (join_opt initialErr workerErr) in
        (err, WorkerReturned workerErr :: trace)
      | None => (sourceIntakeShutdownTimeout initialErr, [DeadlineExpired])
      end
    else finishSourceIntakeRuntime a initialErr in
  (err, SealQueue :: trace).
Definition expected_nil (e : option error) : option error :=
  match e with Some e => if sourceIntakeExpectedCancellation e then None else Some e | None => None end.
Definition stopReaderAndFinishSourceIntakeRuntime (a : answers) (running : bool) (workerErr : option error)
    : option error * list action :=
  let '(err, trace) :=
    match an_reader a with
    | Some readerErr =>
      let '(err, trace) := drainSourceIntakeRuntime a running (join_opt workerErr (expected_nil readerErr)) in
      (err, ReaderReturned readerErr :: trace)
    | None => (sourceIntakeShutdownTimeout workerErr, [DeadlineExpired])
    end in
  (err, CancelReader :: trace).
Definition RunSourceIntakeRuntime (first : first_ready) (a : answers) : option error * list action :=
  match first with
  | ReaderFirst readerErr =>
    let '(err, trace) := drainSourceIntakeRuntime a true readerErr in (err, ReaderReturned readerErr :: trace)
  | WorkerFirst workerErr =>
    let '(err, trace) := stopReaderAndFinishSourceIntakeRuntime a false workerErr in
    (err, WorkerReturned workerErr :: trace)
  | ContextDone => stopReaderAndFinishSourceIntakeRuntime a true None
  end.

(** RunSourceRuntime, whose reader is its caller's; [cancelled]: the context ended
    before the worker returned. The actions are those of the runtime itself, the
    last of them the close of the database. *)
Inductive runtime_action := RSealQueue | RWorkerReturned (e : option error) | RFlush (e : option error)
  | RCloseDatabase (e : option error) | RDeadline.
Definition RunSourceRuntime (cancelled : bool) (worker : option (option error)) (expired : bool)
    (flush close : option error) : option error * list runtime_action :=
  let finish workerErr := (finishSourceRuntime workerErr flush close, [RFlush flush; RCloseDatabase close]) in
  if cancelled then
    match worker with
    | Some workerErr =>
      if expired
      then (join_opt (Some (Wrapf "run source runtime: shutdown timeout" context_DeadlineExceeded)) workerErr,
            [RSealQueue; RWorkerReturned workerErr; RDeadline])
      else let '(err, trace) := finish workerErr in (err, RSealQueue :: RWorkerReturned workerErr :: trace)
    | None => (Some (Wrapf "run source runtime: shutdown timeout" context_DeadlineExceeded), [RSealQueue; RDeadline])
    end
  else
    let workerErr := default None worker in
    let '(err, trace) := finish workerErr in (err, RWorkerReturned workerErr :: RSealQueue :: trace).

Definition Deliver (delivery : Delivery) (enqueue : result unit) : result unit :=
  wrap "deliver source input" (Delivery_Validate delivery);;
  wrap "enqueue source delivery" enqueue.

(** ** What the saved checkpoints prove *)
Section proofs.
Context {E T A Store : Type} `{LP : LawfulProcessing E T A}.
Context (save : checkpointCandidate → Store → result unit * Store).
Context (start : Z) (tracker : CompletionTracker).

(** The store, with the checkpoints it has accepted, newest first. *)
Definition logged_save (c : checkpointCandidate) (s : Store * list checkpointCandidate)
    : result unit * (Store * list checkpointCandidate) :=
  let '(r, st) := save c s.1 in (r, (st, match r with Ok _ => c :: s.2 | Err _ => s.2 end)).
Abbreviation Worker := (worker (E := E) (A := A) (Store := Store * list checkpointCandidate)).

Definition proven (e : E) (d : Delivery) : Prop :=
  ∃ receipt completion, durable view e (dl_ID d) = Some receipt ∧ completionFromReceipt d receipt = Ok completion.
Definition explained (seen : list Delivery) (e : E) (history : gmap Z SourcePosition) : Prop :=
  ∀ k p, history !! k = Some p →
    ∃ d, d ∈ seen ∧ dl_Sequence d = k ∧ rr_Position (dl_Record d) = p ∧ proven e d.
Record worker_inv (known : DeliveryID → bool) (seen : list Delivery) (w : Worker) (s : cp_state) : Prop := {
  wi_reached : rtc (cp_step start) (cp_init tracker) s;
  wi_manager : cp_manager s = wk_manager w;
  wi_inflight : cp_inflight s = None;
  wi_saved : cp_saved s = (wk_store w).2;
  wi_history : explained seen (wk_env w) (cp_history s);
  wi_aligned : aligned known (wk_env w);
  wi_pending : pending_ok (wk_coordinator w) (wk_env w)
}.

Lemma explained_grows seen e e' history : grows e e' → explained seen e history → explained seen e' history.
Proof.
  intros Hg Hx k p Hk. destruct (Hx k p Hk) as (d & ? & ? & ? & receipt & completion & Hr & ?).
  exists d. do 3 (split; [done|]). exists receipt, completion. split; [by apply (gr_receipts _ _ Hg)|done].
Qed.
Lemma explained_seen seen d e history : explained seen e history → explained (seen ++ [d]) e history.
Proof. intros Hx k p Hk. destruct (Hx k p Hk) as (x & ? & H'). exists x. rewrite elem_of_app. auto. Qed.

(** A flush is a run of the manager. *)
Lemma flush_run known seen w s :
  worker_inv known seen w s →
  let '(r, w') := flush_worker logged_save w in
  ∃ s', worker_inv known seen w' s' ∧ cp_history s' = cp_history s ∧
    (r = Ok tt → cm_invalid (wk_manager w') = None ∧ cm_pending (wk_manager w') = None).
Proof.
  intros [I1 I2 I3 I4 I5 I6 I7]. unfold flush_worker, Flush.
  destruct (Flush_begin (wk_manager w)) as [[p|]|err] eqn:Hb.
  - unfold logged_save. destruct (save p (wk_store w).1) as [[[]|err] st]; cbn.
    + exists (MkCp (Flush_saved p (cp_manager s)) None (p :: cp_saved s) (cp_history s)). split; [|split; [done|]].
      * split; cbn; try done; [|by rewrite I2|by rewrite I4].
        eapply rtc_r; [eapply rtc_r; [exact I1|]|].
        { apply (cp_flush_begin start p s I3). by rewrite I2. }
        { by apply (cp_flush_saved start p (MkCp (cp_manager s) (Some p) (cp_saved s) (cp_history s))). }
      * intros _. unfold Flush_begin in Hb. destruct (cm_invalid (wk_manager w)) eqn:Hi; [done|].
        injection Hb as Hp. unfold Flush_saved. rewrite Hp, Z.eqb_refl. done.
    + exists (MkCp (cp_manager s) None (cp_saved s) (cp_history s)). split; [|done]. split; cbn; try done.
      eapply rtc_r; [eapply rtc_r; [exact I1|]|].
      { apply (cp_flush_begin start p s I3). by rewrite I2. }
      { by apply (cp_flush_failed start p (MkCp (cp_manager s) (Some p) (cp_saved s) (cp_history s))). }
  - exists s. split; [by split|]. split; [done|]. intros _. unfold Flush_begin in Hb. cbn.
    destruct (cm_invalid (wk_manager w)); [done|]. by injection Hb as ->.
  - exists s. split; [by split|]. done.
Qed.
Lemma complete_flush completion (w : Worker) :
  complete_one logged_save completion w =
  match Complete_locked completion (wk_manager w) with
  | (Err err, m) => (Err (Wrapf "complete delivery %q" err), MkWorker (wk_coordinator w) (wk_env w) m (wk_store w))
  | (Ok _, m) =>
    let '(r, w') := flush_worker logged_save (MkWorker (wk_coordinator w) (wk_env w) m (wk_store w)) in
    (wrap "complete delivery %q" r, w')
  end.
Proof.
  unfold complete_one, Complete, flush_worker. destruct (Complete_locked completion (wk_manager w)) as [[[]|err] m]; [|done].
  cbn [wk_manager wk_store wk_coordinator wk_env]. by destruct (Flush logged_save (m, wk_store w)) as [r [m' st]].
Qed.
Lemma completion_fields d receipt completion :
  completionFromReceipt d receipt = Ok completion →
  dc_Sequence completion = dl_Sequence d ∧ dc_Position completion = rr_Position (dl_Record d).
Proof. unfold completionFromReceipt. intros Hc. inv_ok. by subst. Qed.

Lemma deliver_run known seen w s d :
  worker_inv known seen w s → is_u64 (dl_Sequence d) →
  let '(r, w') := (completion ← process_one d; complete_one logged_save completion) w in
  ∃ s', worker_inv known (seen ++ [d]) w' s' ∧ cp_history s ⊆ cp_history s' ∧
    (r = Ok tt → start ≤ dl_Sequence d → is_Some (cp_history s' !! dl_Sequence d)).
Proof.
  intros [I1 I2 I3 I4 I5 I6 I7] Hu. unfold mbind, st_bind, process_one.
  pose proof (wp_Process known d (wk_coordinator w) (wk_env w) I6 I7) as Hw.
  destruct (Process d _) as [r [c e]] eqn:Hr. eapply wp_run in Hw; [|exact Hr].
  destruct Hw as [Hal Hp Hg Hd]. cbn [fst snd] in *.
  assert (worker_inv known (seen ++ [d]) (MkWorker c e (wk_manager w) (wk_store w)) s) as Hstay.
  { split; try done. by eapply explained_seen, explained_grows. }
  destruct r as [[completion [err|]]|err]; [by exists s| |by exists s].
  destruct (Hd _ _ eq_refl) as (receipt & Hrec & Hc). destruct (completion_fields _ _ _ Hc) as [Hseq Hpos].
  rewrite complete_flush. cbn [wk_manager wk_coordinator wk_env wk_store].
  set (s1 := MkCp (Complete_locked completion (cp_manager s)).2 (cp_inflight s) (cp_saved s)
               (history_after start completion s)).
  assert (cp_history s ⊆ cp_history s1) as Hsub by apply history_after_mono.
  assert (explained (seen ++ [d]) e (cp_history s1)) as Hx.
  { destruct Hstay as [_ _ _ _ Hx _ _]. cbn in Hx |- *. unfold history_after.
    destruct (cm_invalid _); [done|]. destruct (Mark completion _).1; [|done]. unfold record_completion.
    destruct (cp_history s !! dc_Sequence completion); [done|]. destruct (_ <=? _); [|done].
    intros k p. rewrite lookup_insert_Some. intros [[<- <-]|[_ Hk]]; [|by apply Hx].
    exists d. split; [apply elem_of_app; right; by constructor|]. split; [done|]. split; [done|]. by exists receipt, completion. }
  assert (cp_step start s s1) as Hstep by (apply cp_complete; rewrite Hseq; exact Hu).
  destruct (Complete_locked completion (wk_manager w)) as [[[]|err] m] eqn:Hcl.
  - assert (worker_inv known (seen ++ [d]) (MkWorker c e m (wk_store w)) s1) as Hinv.
    { split; try done; [by eapply rtc_r|]. cbn. by rewrite I2, Hcl. }
    pose proof (flush_run known _ _ _ Hinv) as Hf.
    destruct (flush_worker logged_save _) as [r w']. destruct Hf as (s' & Hinv' & Hh & _).
    exists s'. split; [done|]. rewrite Hh. split; [done|]. intros _ Hstart. cbn. unfold history_after.
    rewrite I2. revert Hcl. unfold Complete_locked. destruct (cm_invalid (wk_manager w)); [done|].
    destruct (Mark completion (cm_tracker (wk_manager w))) as [[]]; cbn; [|done]. intros _.
    unfold record_completion. rewrite <- Hseq. destruct (cp_history s !! dc_Sequence completion) eqn:Hk; [by rewrite Hk|].
    rewrite (proj2 (Z.leb_le _ _)) by (rewrite Hseq; done). by rewrite lookup_insert_eq.
  - exists s1. split; [|done]. split; try done; [by eapply rtc_r|]. cbn. by rewrite I2, Hcl.
Qed.

(** The deliveries the worker was given: it stops at the first error of the queue. *)
Fixpoint given (answers : list (result Delivery)) : list Delivery :=
  match answers with Ok d :: answers => d :: given answers | _ => [] end.
Definition stopped_by_error (r : option (result unit)) : bool :=
  match r with Some (Err _) => true | _ => false end.
Lemma worker_run known answers seen w s :
  worker_inv known seen w s → Forall (λ d, is_u64 (dl_Sequence d)) (given answers) →
  let '(r, w') := runSourceWorker logged_save answers w in
  ∃ s', worker_inv known (seen ++ given answers) w' s' ∧ cp_history s ⊆ cp_history s' ∧
    (stopped_by_error r = false →
       Forall (λ d, start ≤ dl_Sequence d → is_Some (cp_history s' !! dl_Sequence d)) (given answers)).
Proof.
  revert seen w s. induction answers as [|[d|e] answers IH]; intros seen w s Hinv Hu; cbn [runSourceWorker given].
  - exists s. rewrite app_nil_r. done.
  - cbn [given] in Hu. apply Forall_cons in Hu as [Hd Hu]. pose proof (deliver_run known seen w s d Hinv Hd) as Hone.
    destruct ((completion ← process_one d; complete_one logged_save completion) w) as [[[]|err] w1].
    + destruct Hone as (s1 & Hinv1 & Hsub1 & Hin). specialize (IH _ _ _ Hinv1 Hu).
      destruct (runSourceWorker logged_save answers w1) as [r w2]. destruct IH as (s2 & Hinv2 & Hsub2 & Hall).
      exists s2. rewrite <- app_assoc in Hinv2. split; [done|]. split; [by etrans|]. intros Hr. constructor; [|by apply Hall].
      intros Hstart. destruct (Hin eq_refl Hstart) as [p Hp]. exists p. by eapply lookup_weaken.
    + destruct Hone as (s1 & Hinv1 & Hsub1 & _). exists s1. split; [|split; [done|by intros [=]]].
      destruct Hinv1 as [J1 J2 J3 J4 J5 J6 J7]. split; try done. intros k p Hk.
      destruct (J5 k p Hk) as (x & Hx & ?). exists x. split; [|done].
      rewrite elem_of_app in *. rewrite list_elem_of_singleton in Hx. rewrite elem_of_cons. naive_solver.
  - exists s. rewrite app_nil_r. split; [done|]. split; [done|]. by constructor.
Qed.

Definition new_worker (e : E) (st : Store) : Worker :=
  MkWorker NewCoordinator e (NewCheckpointManager tracker) (st, []).
(** C11: Saved checkpoints are backed by receipts. For any answers of the queue,
    any store of checkpoints and any lawful processing: every checkpoint the store
    accepted, while the worker ran or in the final flush, covers only sequences
    whose delivery the worker was given and has a durable receipt that proves its
    completion, and only bytes of such deliveries. When the worker did not fail and
    the final flush succeeds, the last checkpoint is maximal: the delivery that
    follows it was not given. *)
Theorem checkpoints_have_receipts src answers e0 st :
  NewCompletionTracker src start = Ok tracker → is_u64 start → at_start e0 →
  Forall (λ d, is_u64 (dl_Sequence d)) (given answers) →
  let '(r, w) := runSourceWorker logged_save answers (new_worker e0 st) in
  let '(flushed, w') := flush_worker logged_save w in
  let saved := (wk_store w').2 in
  (∀ c, c ∈ saved → cc_SourceID c = src ∧
     (∀ k, start ≤ k ≤ cc_ThroughSequence c →
        ∃ d, d ∈ given answers ∧ dl_Sequence d = k ∧ proven (wk_env w') d) ∧
     (∀ id b, byte_in (cc_FileRanges c) id b →
        ∃ d f, d ∈ given answers ∧ proven (wk_env w') d ∧
          SourcePosition_File (rr_Position (dl_Record d)) = Some f ∧ holds_byte f id b)) ∧
  (stopped_by_error r = false → flushed = Ok tt →
     ∀ d, d ∈ given answers → dl_Sequence d ≠ last_saved start saved + 1).
Proof.
  intros Ht Hstart He Hu.
  assert (worker_inv (had_receipt e0) [] (new_worker e0 st) (cp_init tracker)) as Hinv0.
  { split; [constructor|done|done|done| |by apply start_aligned|].
    - intros k p. cbn. by rewrite lookup_empty.
    - intros d a. cbn. by rewrite lookup_empty. }
  pose proof (worker_run _ answers _ _ _ Hinv0 Hu) as Hw.
  destruct (runSourceWorker logged_save answers _) as [r w]. destruct Hw as (s1 & Hinv1 & _ & Hall).
  pose proof (flush_run _ _ _ _ Hinv1) as Hw.
  destruct (flush_worker logged_save w) as [flushed w']. destruct Hw as (s2 & Hinv2 & Hh & Hok). cbn zeta.
  destruct Hinv2 as [J1 J2 J3 J4 J5 J6 J7].
  destruct (cp_reachable_inv _ _ _ _ Ht Hstart J1) as [Hsaved _ _ Hhealthy].
  rewrite <- J4. split.
  - intros c Hc. rewrite Forall_forall in Hsaved. destruct (Hsaved c Hc) as [S1 S2 S3 S4 S5].
    split; [done|]. split.
    + intros k Hk. destruct (S3 k Hk) as [p Hp]. destruct (J5 k p Hp) as (d & ? & ? & _ & ?). by exists d.
    + intros id b Hb. destruct (S5 id b Hb) as (k & f & _ & Hk & Hbyte).
      destruct (J5 k _ Hk) as (d & ? & _ & Hpos & ?). exists d, f. rewrite Hpos. done.
  - intros Hr Hf d Hd Heq. destruct (Hok Hf) as [Hinvalid Hpending]. rewrite <- J2 in Hinvalid, Hpending.
    specialize (Hall Hr). rewrite Forall_forall in Hall. specialize (Hall d Hd).
    destruct (Hhealthy Hinvalid) as [Htr _ Hp _]. rewrite Hpending in Hp. destruct Hp as [_ Hlast].
    rewrite Hlast in Heq. rewrite Hh in Htr. destruct Hall as [p Hp].
    { rewrite Heq. pose proof (ti_frontier _ _ _ Htr). lia. }
    rewrite Heq, (ti_gap _ _ _ Htr) in Hp. done.
Qed.
End proofs.

(** ** The order of shutdown *)
(** No action of [q] comes before the first of [p]. *)
Fixpoint only_after (p q : action → bool) (trace : list action) : bool :=
  match trace with [] => true | x :: trace => p x || (negb (q x) && only_after p q trace) end.
Definition is_reader (x : action) : bool := match x with ReaderReturned _ => true | _ => false end.
Definition is_seal (x : action) : bool := match x with SealQueue => true | _ => false end.
Definition is_worker (x : action) : bool := match x with WorkerReturned _ => true | _ => false end.
Definition is_flush (x : action) : bool := match x with FlushCheckpoints _ => true | _ => false end.
Definition is_flushed (x : action) : bool := match x with FlushCheckpoints None => true | _ => false end.
Definition is_maintenance (x : action) : bool := match x with RunMaintenance _ => true | _ => false end.
(** Everything up to the end, or up to the maintenance, went well: a reader that
    was cancelled may say so. *)
Fixpoint went_well (cancelled : bool) (trace : list action) : bool :=
  match trace with
  | [] => true
  | x :: trace =>
    match x with
    | CancelReader => went_well true trace
    | SealQueue => went_well cancelled trace
    | ReaderReturned e =>
      match (if cancelled then expected_nil e else e) with None => went_well cancelled trace | Some _ => false end
    | WorkerReturned e | FlushCheckpoints e | RunMaintenance e =>
      match e with None => went_well cancelled trace | Some _ => false end
    | DeadlineExpired => false
    end
  end.
Fixpoint until_maintenance (trace : list action) : list action :=
  match trace with [] => [] | x :: trace => if is_maintenance x then [] else x :: until_maintenance trace end.

Lemma timeout_is err : match sourceIntakeShutdownTimeout err with
  | Some e => errors_Is e ErrSourceIntakeShutdownTimeout = true
  | None => False
  end.
Proof. destruct err as [e|]; cbn; [|done]. by rewrite orb_true_r. Qed.
Lemma join_opt_None l r : join_opt l r = None ↔ l = None ∧ r = None.
Proof. destruct l, r; cbn; naive_solver. Qed.

(** The end of a shutdown that so far has [initial] to report. *)
Record tail_ok (initial : option error) (err : option error) (trace : list action) : Prop := {
  tl_flushed : only_after is_flushed is_maintenance trace = true;
  tl_maintenance c : existsb is_maintenance trace = true →
    initial = None ∧ went_well c (until_maintenance trace) = true;
  tl_err c : err = None ↔ initial = None ∧ went_well c trace = true;
  tl_deadline : DeadlineExpired ∈ trace → last trace = Some DeadlineExpired ∧
    ∃ e, err = Some e ∧ errors_Is e ErrSourceIntakeShutdownTimeout = true
}.
Lemma timeout_tail initial err trace :
  existsb is_maintenance trace = false → tail_ok initial (sourceIntakeShutdownTimeout err) (trace ++ [DeadlineExpired]).
Proof.
  intros Hm. pose proof (timeout_is err) as Ht. destruct (sourceIntakeShutdownTimeout err) as [e|]; [|done].
  assert (existsb is_maintenance (trace ++ [DeadlineExpired]) = false) as Hm' by (by rewrite existsb_app, Hm).
  split.
  - induction (trace ++ [DeadlineExpired]) as [|x l IH]; [done|]. cbn in *. apply orb_false_iff in Hm' as [-> Hl].
    rewrite (IH Hl). apply orb_true_r.
  - intros c. by rewrite Hm'.
  - intros c. split; [done|]. intros [_ Hw]. exfalso. revert c Hw. clear.
    induction trace as [|x l IH]; intros c; cbn; [done|]. destruct x; try apply IH; try by destruct e; [|apply IH].
    all: try (destruct (if c then _ else _); [done|apply IH]). done.
  - intros _. rewrite last_snoc. eauto.
Qed.
Ltac no_deadline :=
  let Hd := fresh "Hd" in intros Hd;
  repeat (apply elem_of_cons in Hd as [Hd|Hd]; [discriminate Hd|]); by apply elem_of_nil in Hd.
Lemma finish_tail a initial :
  let '(err, trace) := finishSourceIntakeRuntime a initial in tail_ok initial err trace.
Proof.
  unfold finishSourceIntakeRuntime. destruct (an_expired a); [by apply (timeout_tail _ _ [])|].
  destruct (an_expired_flush a); [by apply (timeout_tail _ _ [FlushCheckpoints _])|].
  destruct initial as [i|], (an_flush a) as [f|], (an_maintenance a) as [m|];
    try (split; [done|done|intros c; cbn; naive_solver|no_deadline]).
  destruct (an_expired_maintenance a).
  - pose proof (timeout_is (wrapSourceRuntimeError "run source runtime: maintenance" m)) as Ht.
    destruct (sourceIntakeShutdownTimeout _) as [x|]; [|done].
    split; [done|done| |intros _; split; [done|by exists x]]. intros c. cbn. split; [done|]. by destruct m; intros [].
  - split; [done|done| |]; [intros c; destruct m; cbn; naive_solver|].
    no_deadline.
Qed.
(** An action before the end. *)
Lemma tail_cons initial initial' err x trace :
  is_flushed x = false → is_maintenance x = false → x ≠ DeadlineExpired →
  (∀ c l, initial = None ∧ went_well c (x :: l) = true ↔ initial' = None ∧ went_well c l = true) →
  tail_ok initial' err trace → tail_ok initial err (x :: trace).
Proof.
  intros Hf Hm Hd Hw [T1 T2 T3 T4]. split.
  - cbn [only_after]. by rewrite Hf, Hm, T1.
  - intros c. cbn [existsb until_maintenance]. rewrite Hm, orb_false_l. intros Hx. apply Hw. by apply T2.
  - intros c. rewrite Hw. apply T3.
  - intros [?|Hin]%elem_of_cons; [done|]. destruct (T4 Hin) as [Hl He]. split; [|done].
    destruct trace; [done|exact Hl].
Qed.
Lemma drain_tail a running initial :
  let '(err, trace) := drainSourceIntakeRuntime a running initial in
  tail_ok initial err trace ∧ only_after is_seal is_flush trace = true ∧
  (running = true → only_after is_worker is_flush trace = true).
Proof.
  unfold drainSourceIntakeRuntime. destruct running; [destruct (an_worker a) as [workerErr|]|].
  - pose proof (finish_tail a (join_opt initial workerErr)) as Ht.
    destruct (finishSourceIntakeRuntime a _) as [err trace]. split; [|done].
    eapply tail_cons; [done|done|done| |eapply tail_cons; [done|done|done| |exact Ht]]; [done|].
    intros c l. cbn. rewrite join_opt_None. destruct workerErr; naive_solver.
  - split; [|done]. by apply (timeout_tail _ _ [SealQueue]).
  - pose proof (finish_tail a initial) as Ht. destruct (finishSourceIntakeRuntime a _) as [err trace].
    split; [|done]. by eapply tail_cons.
Qed.
Lemma stop_tail a running workerErr :
  let '(err, trace) := stopReaderAndFinishSourceIntakeRuntime a running workerErr in
  only_after is_reader is_seal trace = true ∧ only_after is_seal is_flush trace = true ∧
  (running = true → only_after is_worker is_flush trace = true) ∧
  only_after is_flushed is_maintenance trace = true ∧
  (∀ c, existsb is_maintenance trace = true →
     workerErr = None ∧ went_well c (until_maintenance trace) = true) ∧
  (∀ c, err = None ↔ workerErr = None ∧ went_well c trace = true) ∧
  (DeadlineExpired ∈ trace → last trace = Some DeadlineExpired ∧
     ∃ e, err = Some e ∧ errors_Is e ErrSourceIntakeShutdownTimeout = true).
Proof.
  unfold stopReaderAndFinishSourceIntakeRuntime. destruct (an_reader a) as [readerErr|].
  - pose proof (drain_tail a running (join_opt workerErr (expected_nil readerErr))) as Ht.
    destruct (drainSourceIntakeRuntime a running _) as [err trace]. destruct Ht as ([T1 T2 T3 T4] & Hs & Hw).
    setoid_rewrite join_opt_None in T2. setoid_rewrite join_opt_None in T3.
    split; [done|]. split; [done|]. split; [done|]. split; [done|]. split; [|split].
    + intros c. cbn. intros Hm. destruct (T2 true Hm) as [[-> ->] Hgo]. done.
    + intros c. rewrite (T3 true). cbn. destruct (expected_nil readerErr); naive_solver.
    + intros [?|[?|Hin]%elem_of_cons]%elem_of_cons; [done|done|]. destruct (T4 Hin) as [Hl He]. split; [|done].
      destruct trace; [done|exact Hl].
  - destruct (timeout_tail workerErr workerErr [CancelReader] eq_refl) as [T1 T2 T3 T4]. done.
Qed.
(** C17: Shutdown is ordered and honest. However the reader, the worker, the flush,
    the maintenance and the deadline behave: the queue is sealed only after the
    reader has returned; checkpoints are flushed only after the queue is sealed and
    the worker has returned; maintenance runs only after a flush that succeeded,
    and only if everything before it went well. The runtime returns no error
    exactly when everything went well within the deadline, and an expired deadline
    is always reported as such, and is the last thing that happens. *)
Theorem intake_shutdown_ordered first a :
  let '(err, trace) := RunSourceIntakeRuntime first a in
  only_after is_reader is_seal trace = true ∧
  only_after is_seal is_flush trace = true ∧ only_after is_worker is_flush trace = true ∧
  only_after is_flushed is_maintenance trace = true ∧
  (existsb is_maintenance trace = true → went_well false (until_maintenance trace) = true) ∧
  (err = None ↔ went_well false trace = true) ∧
  (DeadlineExpired ∈ trace → last trace = Some DeadlineExpired ∧
     ∃ e, err = Some e ∧ errors_Is e ErrSourceIntakeShutdownTimeout = true).
Proof.
  unfold RunSourceIntakeRuntime. destruct first as [readerErr|workerErr|].
  - pose proof (drain_tail a true readerErr) as Ht. destruct (drainSourceIntakeRuntime a true _) as [err trace].
    destruct Ht as ([T1 T2 T3 T4] & Hs & Hw). split; [done|]. split; [done|]. split; [by apply Hw|]. split; [done|].
    split; [|split].
    + cbn. intros Hm. destruct (T2 false Hm) as [-> Hgo]. done.
    + rewrite (T3 false). cbn. destruct readerErr; naive_solver.
    + intros [?|Hin]%elem_of_cons; [done|]. destruct (T4 Hin) as [Hl He]. split; [|done].
      destruct trace; [done|exact Hl].
  - pose proof (stop_tail a false workerErr) as Ht. destruct (stopReaderAndFinishSourceIntakeRuntime a _ _) as [err trace].
    destruct Ht as (S1 & S2 & _ & S4 & S5 & S6 & S7). do 4 (split; [done|]). split; [|split].
    + cbn. intros Hm. destruct (S5 false Hm) as [-> Hgo]. done.
    + rewrite (S6 false). cbn. destruct workerErr; naive_solver.
    + intros [?|Hin]%elem_of_cons; [done|]. destruct (S7 Hin) as [Hl He]. split; [|done].
      destruct trace; [done|exact Hl].
  - pose proof (stop_tail a true None) as Ht. destruct (stopReaderAndFinishSourceIntakeRuntime a _ _) as [err trace].
    destruct Ht as (S1 & S2 & S3 & S4 & S5 & S6 & S7). do 2 (split; [done|]). split; [by apply S3|]. split; [done|].
    split; [|split; [|done]].
    + intros Hm. by apply S5.
    + rewrite (S6 false). naive_solver.
Qed.
