(* ===== verification/RuntimeLab.v ===== *)
(** * A worker that drains its queue

    The theorem of file SourceRuntime applied to the processing of file
    ProcessingLab: the worker is given one delivery and then finds the queue
    sealed; its checkpoint is saved. *)

From S2P Require Import Prelude GoStd Sha256 Netip Identity CoreModel Checkpoint Ledger Json SecurityEvent.
From S2P Require Import ProcessingPlan Coordinator Pipeline PipelineProofs ExactlyOnce ProcessingRuntime.
From S2P Require Import SqliteRuntime ProcessingLab SourceQueue SourceRuntime.

#[local] Existing Instance lab_context.
#[local] Existing Instance lab_clock.
#[local] Existing Instance lab_catalog.
#[local] Existing Instance lab_parsers.
#[local] Existing Instance lab_evaluator.
#[local] Existing Instance lab_faults.
#[local] Existing Instance lab_store.
#[local] Existing Instance lab_writer.
#[local] Existing Instance lab_lawful_store.
#[local] Existing Instance lab_runner.
#[local] Existing Instance lab_lawful.

Definition lab_tracker : CompletionTracker := MkTracker (rr_SourceID sample_record) 1 ∅ false.
Definition lab_answers : list (result Delivery) := [Ok sample_work; Err ErrDeliveryQueueSealed].
Definition accept (c : checkpointCandidate) (st : unit) : result unit * unit := (Ok tt, tt).
Abbreviation lab_run :=
  (runSourceWorker (logged_save accept) lab_answers (new_worker lab_tracker (lab_start (MkScript [] [])) tt))
  (only parsing).
Abbreviation lab_end := (flush_worker (logged_save accept) lab_run.2) (only parsing).
Definition lab_saved : list checkpointCandidate := Eval vm_compute in (wk_store lab_end.2).2.

Lemma lab_saved_eq : (wk_store lab_end.2).2 = lab_saved.
Proof. vm_compute. reflexivity. Qed.

Lemma checkpoints_have_receipts_witness :
  match lab_saved with
  | [c] => cc_ThroughSequence c = 1 ∧
      ∃ d, d ∈ given lab_answers ∧ dl_Sequence d = 1 ∧ proven (wk_env lab_end.2) d
  | _ => False
  end.
Proof.
  pose proof (checkpoints_have_receipts accept 1 lab_tracker (rr_SourceID sample_record) lab_answers
    (lab_start (MkScript [] [])) tt eq_refl ltac:(vm_compute; split; discriminate) (lab_at_start _)
    ltac:(repeat constructor; vm_compute; discriminate)) as H.
  pose proof lab_saved_eq as Hs. revert H Hs.
  destruct lab_run as [r w]. cbn [snd]. destruct (flush_worker (logged_save accept) w) as [flushed w'].
  cbn [snd]. intros [H _] Hs. cbn zeta in H. rewrite Hs in H. unfold lab_saved in *. split; [reflexivity|].
  destruct (H _ (list_elem_of_here _ _)) as (_ & Hk & _). apply Hk. cbn. split; discriminate.
Defined.
